(* ===== verification/_CoqProject ===== *)
-Q . S2P
Prelude.v
CcFifo.v
Dll.v
CcList.v
CcArray.v
Hash.v
HexBits.v
Scanf.v
Opts.v
PbStream.v
CuttlePb.v
PbRoundTrip.v
PbMem.v
PbFields.v
PbDecode.v
PbShape.v
PbRuns.v
PbOwn.v
PbPlace.v
PbDefaults.v
PbRelease.v
PbValues.v
PbItems.v
PbPointers.v
PbUnion.v
PbSafe.v
PbSeen.v
PbMessages.v
PbLimits.v
PbEncode.v
PbWire.v
PbReads.v
PbDecoded.v
PbRebuild.v
PbEncoded.v
PbTrip.v
DnsPacket.v
DnsName.v
DnsExpand.v
DnsSkip.v
DnsPush.v
DnsRR.v
DnsBuf.v
DnsData.v
DnsPermutor.v
DnsGrep.v
DnsWalk.v
DnsOrder.v
DnsSocket.v
DnsAnswer.v
DnsAppend.v
DnsTcp.v
DnsTrip.v
DnsAdd.v
DnsRecords.v
CorpcProto.v
Threads.v
CorpcChannel.v
CorpcFlow.v
CorpcStreams.v
CoWaiter.v
CoLock.v
CoThread.v
Resources.v
SockLife.v
CoStart.v
CoScheduler.v
CoProg.v
CoSocket.v
CoPoll.v
CoResolve.v
CoSsl.v
CorpcLink.v
CoServer.v
