(* ===== verification/Prelude.v ===== *)
(** * cuttle: coroutines, RPC channels and their data structures, verified

    cuttle is a C library for network programs.  Coroutines run on a few cores
    (threads), each with a loop that resumes those whose descriptor has an event
    or whose time has come; sockets, locks and sleeping are written for coroutines
    on top of it.  A corpc channel is one TCP or TLS connection between two
    endpoints that carries many streams, each with flow control; the messages on
    streams are protobuf messages.  Paths below are relative to the repository's
    root directory of sources ([src/], [include/cuttle/]).

    ** The parts, from the bottom to the top

    - [Prelude]: machine integers as [Z] with their wrap-around ([uwrap],
      [swrap]), bytes and byte orders, memory as lists of bytes ([mem_read],
      [mem_write]), [errno], list lemmas, the tactics and hint databases of the
      development.
    - [CcFifo] (module [Fifo], include/cuttle/ccfifo.h), [Dll], [CcList] (modules
      [Heap] and [Cclist], ccheap.h and cclist.h), [CcArray] (ccarray.h): the
      containers, with their memory, their pointers as indices, and their failures.
      Each is proved to behave, over any history, as the abstract sequence it
      stands for ([ccfifo_refines_bounded_queue], [cclist_refines_sequence],
      [ccarray_refines_list]; [ccarray_lowerbound_first] is its search).  [BoundedQueue] is the
      interface clients of a ring buffer use; [Dll] the reasoning on doubly linked
      lists that cclist.h and the queues of descriptors share.
    - [Hash] (src/hash/): CRC-32C by table equals the bit-serial division
      ([cf_crc32_update_is_crc32c]) and detects every change within four
      consecutive bytes; djb2 and sdbm are polynomials.  [HexBits]
      (src/hexbits.c): text and bytes, with what is refused.
    - [Scanf], [Opts] (src/opts.c): configuration files, over the conversions of
      [sscanf] that the sources use ([config_file_read]); their defects are examples
      at the end of the file.
    - [PbStream] (the wire primitives of src/nanopb/pb_encode.c and pb_decode.c),
      [CuttlePb] (src/pb/cuttle-pb.c), [PbRoundTrip]: the messages.  Encoding
      writes the wire form of what a message means ([cf_pb_pack_wire]); decoding
      is safe on any input ([cf_pb_unpack_safe]); unpacking what was packed gives
      a message with the same meaning ([cf_pb_pack_unpack]).
    - The codec of nanopb that descriptors drive (include/cuttle/nanopb/pb.h,
      src/nanopb/pb_common.c, pb_decode.c, pb_encode.c).  [PbMem]: a heap of blocks
      whose cells are bytes, bytes of pointers or undefined; [PbFields]:
      descriptors, the macros that fill them in, and their iterator, which stops
      at each member where the compiler put it ([iterator_visits_members]);
      [PbDecode] and [PbEncode]: every function of the two files.  The facts:
      [PbShape] (what a struct of a descriptor owns, which tables of descriptors
      are well-formed), [PbRuns] (a logic of computations that change one block
      and own others), [PbOwn] and [PbPlace] (members in their struct);
      [PbDefaults], [PbRelease], [PbValues], [PbItems], [PbPointers], [PbUnion],
      [PbSafe]: on any bytes each function keeps the struct a message of its type,
      which [PbMessages] states of [pb_decode], [pb_decode_noinit] and [pb_release];
      [PbLimits]: runs that do go wrong, outside of those conditions.  [PbWire]
      says what bytes a message has and when memory holds a message;
      [PbEncoded] that the encoder writes these bytes ([pb_encode_writes_wire]);
      [PbReads], [PbDecoded], [PbSeen] and [PbRebuild] that the decoder rebuilds
      the message from them; [PbTrip] composes both ([pb_message_round_trip]).
    - The packets of the resolver (src/dns/dns.c, include/cuttle/dns/dns.h), over a
      monad whose results are an illegal access, a loop that never ends, or a value
      ([DnsPacket]).  [DnsName]: names, compressed, expanded and skipped, and the
      dictionary of a packet.  [DnsExpand]: expanding stays within the packet, and
      never ends exactly when labels go round in a circle
      ([dns_d_expand_reads_names]); [DnsSkip], [DnsPush]: skipping, and a name that
      was pushed.  [DnsRR]: records stay within the packet
      ([dns_rr_parse_within]); [DnsBuf]: buffers that count what does not fit;
      [DnsData]: the data of each type, read and written; [DnsGrep]: iterating,
      [dns_p_push], merging, queries; [DnsWalk], [DnsOrder]: an iterator meets the
      records that match, each once, in the order of the packet or of a seed
      ([dns_rr_grep_shuffles]).  [DnsPermutor]: the generator of query numbers
      repeats none before its range is used up ([dns_k_permutor_permutes]).
      [DnsAppend], [DnsTrip], [DnsAdd], [DnsRecords]: what appending keeps, data
      of each type written and read back, the counts of the header, and all of it
      for a record that is
      pushed and then parsed ([dns_p_push_parses_back]).  [DnsSocket]: a query over
      UDP and TCP, a state machine over the class [Net] of what the system does;
      [DnsAnswer]: what it takes for an answer over UDP, and when it returns
      ([dns_so_check_answers]); [DnsTcp]: messages sent and received in pieces
      ([dns_so_tcp_recv_message]).
    - [CorpcProto] (src/corpc/corpc-proto.c): the framing, checksum and byte order
      of channel messages ([corpc_proto_sends_wire], [corpc_proto_roundtrip], what
      is refused and what a short read does).  It is written against the class
      [Transport].
    - [CoThread] (src/cothread/co-thread.c): coroutine objects, the switches
      between them and the helper that frees an ended one.  A core's coroutines
      are those it created that have not ended, each where it left off
      ([switching_refines]); the other files use a coroutine as a thread that
      goes on where it called [main].
    - [CoWaiter], [CoScheduler], [CoLock], [CoProg], [CoSocket] (all of
      src/cothread/co-scheduler.c).  [CoWaiter]: queues of waiters, the epoll
      listener's marking, [walk_waiters_list].  [CoScheduler]: a core, its request
      handler and its loop ([core_starts_what_it_accepts]), and the exchange by
      which others ask a core for a coroutine.  [CoLock]: [co_thread_lock_t],
      whose machine interleaves coroutines, listener and walks, in and between their
      critical sections, and refines the atomic sections of [Threads]
      ([lock_refines_sections]); nobody
      sleeps on a free lock and no signal is missed.  [CoProg] evaluates programs
      with system calls, which are interaction trees; [CoSocket] has the blocking
      loops on sockets as such programs, what they send and receive, and that they
      return.  [CoPoll]: [co_poll] ([co_poll_reports]), sleeping, and the coroutine
      of [co_schedule_io].  [CoResolve] (src/cothread/co-resolve.c): names, numeric
      or asked of a resolver that is a parameter; with a timeout the call returns
      ([co_resolve_returns]), with one below a second it may not.
    - [CoSsl] (src/cothread/co-ssl.c): the calls of a channel on its socket, which
      make [CoSocket] a [Transport]; [messages_framed] composes the protocol with
      the socket loops down to the bytes the kernel takes, of calls that go on after
      one that failed.  [CorpcLink] puts the two ends together, of one byte order
      and on plain sockets: over a network that delivers a prefix of what it was
      given, the receiving loop of [corpc_channel_thread] accepts the first of the
      messages that were put on it, unaltered and in order, up to the first that a
      failed call cut in its middle ([messages_received_in_order]).
    - [Resources], [SockLife] (co-scheduler.c, co-ssl.c, src/sockopt.c): the life
      of socket objects.  A function is an action on the resources of the process
      (blocks, descriptors, SSL objects) in a monad where undefined behaviour is
      [None]; a script says which calls of the system fail, and theorems hold for
      every script.  A constructor that fails has given back what it took
      ([sockets_made_whole]); every descriptor and SSL object has one owner
      ([tidy]).  [CoServer] (co-ssl-server.c, co-ssl-listening-port.c,
      corpc-server.c, corpc-listening-port.c): a server is a bounded list of ports
      ([server_holds_its_ports]), starting it ([server_start_listens]), and the
      coroutine of a port, which loses none of the sockets it accepts
      ([listening_thread_owns_sockets]).  [CoStart]: the threads, the memory and
      the descriptors of the listener and the cores, from [co_scheduler_init] on
      ([scheduler_starts]).
    - [Threads], [CorpcChannel], [CorpcFlow], [CorpcStreams]
      (src/corpc/corpc-channel.c).  A function of the channel is a thread whose
      critical sections are the stretches between [channel_state_lock] and
      [channel_state_unlock]; [pool_step] interleaves any number of threads at
      both endpoints.  [CorpcFlow]: the credits of a stream are conserved, so a
      receive queue never overflows, and what the reads of each thread return is
      its part of what was sent, in order ([stream_flow_control]).  [CorpcStreams]: what
      each handler does on every branch (requests, responses, closing, messages
      for a stream that is gone, and the handshake of two endpoints).

    ** How they meet

    The channel uses the protocol through [MsgLink], the protocol uses the socket
    through [Transport], and [CoSsl] discharges [Transport] by the socket loops of
    [CoSocket], whose kernel is the class [Kernel].  The channel's critical
    sections are atomic steps of [Threads]; [CoLock] shows that the lock of the
    source makes them so.  The loops of [CoSocket] are resumed by [main]
    ([Kernel.k_main] with the laws of [Timely]); [CoWaiter] shows of the walk
    what these laws ask: a waiter is resumed for an event or at its time.

    ** Reading a statement

    A C function is a Rocq function of the same name; a loop is a Fixpoint on the
    data or on fuel, with fuel derived from a size the data has (the length of a
    list, the bytes of a stream, the capacity of a pool, for submessages the bytes
    that are left or the blocks of the heap), and theorems that do not assume that
    the fuel was enough: the evaluators of [CoProg] come with
    [returns], which states that a given number of steps suffices, and the machines
    are relations.  [None] as the result of an operation is a crash ([raise],
    [exit], a wild pointer); theorems show that it does not occur.  Integers have
    the width of the source wherever an operation can leave it.

    ** What is not modelled, and why

    The theorems on the codec of nanopb are about fields in place or allocated: the
    callbacks of a program and extension fields are modelled, with the program's
    functions as parameters, but nothing is shown of them.  A table of descriptors
    is well-formed if tags, sizes and counts fit a byte (as they must without
    PB_FIELD_16BIT), structs in place nest without cycles, those of arrays and
    unions in place have no allocated parts, a union has members of one kind of
    storage, and a message has fewer than 64 required fields and not 32, for which
    the check of the sources is undefined.

    Of src/dns/dns.c: printing, the parsers of the system's files (hosts,
    resolv.conf, nsswitch.conf), hints, caches, and the state machine of a lookup
    that asks several servers.  The round trip of records leaves out [SOA] and
    [OPT], whose data is modelled; that the resolver's socket goes over from UDP to
    TCP is modelled, and its parts have theorems, but not the whole, since a
    query resumed over TCP may be sent from behind its packet.  Third-party code for Android and ARM (getifaddrs, ucontext), the
    OpenSSL and libpq wrappers and the glue that only calls the system (sockopt, debug, daemon,
    time, iface, dns-resolve): what they do is what the libraries do.  The
    generator src/corpc-pb-gen is a build tool in another language.  OpenSSL,
    epoll, the kernel and the allocator are parameters: [SSL_read] and [SSL_write],
    the events of the listener, [Kernel], the DNS resolver, the outcomes of
    allocations.  Still to be modelled: the callers of [co_thread_lock] that are no
    coroutines. *)

From Stdlib Require Export ZArith Lia.
From stdpp Require Export base tactics numbers list gmap strings relations.

(** ** Machine integers

    A [w]-bit unsigned C integer is a [Z] in [[0, 2^w)]; [uwrap w] is the
    conversion to that type and [swrap w] the conversion to the signed type of
    the same width (two's complement, as every compiler the library supports
    does it). *)

Definition uwrap (w x : Z) : Z := (x mod 2 ^ w)%Z.

Definition swrap (w x : Z) : Z :=
  let r := uwrap w x in
  if (r <? 2 ^ (w - 1))%Z then r else (r - 2 ^ w)%Z.

Abbreviation u8 := (uwrap 8).
Abbreviation u16 := (uwrap 16).
Abbreviation u32 := (uwrap 32).
Abbreviation u64 := (uwrap 64).
Abbreviation i32 := (swrap 32).
Abbreviation i64 := (swrap 64).

Definition is_uint (w x : Z) : Prop := (0 <= x < 2 ^ w)%Z.
Definition is_sint (w x : Z) : Prop := (- 2 ^ (w - 1) <= x < 2 ^ (w - 1))%Z.

#[export] Instance is_uint_dec w x : Decision (is_uint w x).
Proof. unfold is_uint. apply _. Defined.
#[export] Instance is_sint_dec w x : Decision (is_sint w x).
Proof. unfold is_sint. apply _. Defined.

(** ** Errors and bytes *)

(** The [errno] values the modelled code assigns or tests. *)
Inductive errno :=
| EINVAL | ENOMEM | EPROTO | ENOTCONN | ETIME | EBUSY | EAGAIN | ENOSR
| ENOBUFS | ECONNRESET | ECONNABORTED | EBADF | ENOTSOCK | EINPROGRESS | EOTHER (code : Z).

#[export] Instance errno_eq_dec : EqDecision errno.
Proof. solve_decision. Defined.

Abbreviation byte := Z.
Abbreviation bytes := (list Z).

Definition byte_ok (b : byte) : Prop := is_uint 8 b.
Definition bytes_ok (bs : bytes) : Prop := Forall byte_ok bs.

#[export] Instance byte_ok_dec b : Decision (byte_ok b).
Proof. unfold byte_ok. apply _. Defined.
#[export] Instance bytes_ok_dec bs : Decision (bytes_ok bs).
Proof. unfold bytes_ok. apply _. Defined.

(** The length of a buffer as a [size_t]. *)
Abbreviation zlen l := (Z.of_nat (length l)).

(** The bytes of a [8*n]-bit integer, least significant first, and back. *)
Fixpoint le_bytes (n : nat) (x : Z) : bytes :=
  match n with
  | O => []
  | S n' => (x mod 256)%Z :: le_bytes n' (x / 256)%Z
  end.

Fixpoint of_le (bs : bytes) : Z :=
  match bs with
  | [] => 0%Z
  | b :: bs' => (b + 256 * of_le bs')%Z
  end.

Definition be_bytes (n : nat) (x : Z) : bytes := rev (le_bytes n x).
Definition of_be (bs : bytes) : Z := of_le (rev bs).

(** A C string is the memory from its address on: its bytes before the first
    zero, [None] when there is none. *)
Fixpoint c_str (mem : bytes) : option bytes :=
  match mem with
  | [] => None
  | c :: mem' => if (c =? 0)%Z then Some [] else cons c <$> c_str mem'
  end.

(** ** Tactics *)

(** Case analysis on the boolean integer tests of the definitions. *)
Ltac bool_case_step :=
  match goal with
  | |- context [(?a <? ?b)%Z] => destruct (Z.ltb_spec a b)
  | |- context [(?a <=? ?b)%Z] => destruct (Z.leb_spec a b)
  | |- context [(?a =? ?b)%Z] => destruct (Z.eqb_spec a b)
  | |- context [(?a <? ?b)%nat] => destruct (Nat.ltb_spec a b)
  | |- context [(?a <=? ?b)%nat] => destruct (Nat.leb_spec a b)
  | |- context [(?a =? ?b)%nat] => destruct (Nat.eqb_spec a b)
  | H : context [(?a <? ?b)%Z] |- _ => destruct (Z.ltb_spec a b)
  | H : context [(?a <=? ?b)%Z] |- _ => destruct (Z.leb_spec a b)
  | H : context [(?a =? ?b)%Z] |- _ => destruct (Z.eqb_spec a b)
  | H : context [(?a <? ?b)%nat] |- _ => destruct (Nat.ltb_spec a b)
  | H : context [(?a <=? ?b)%nat] |- _ => destruct (Nat.leb_spec a b)
  | H : context [(?a =? ?b)%nat] |- _ => destruct (Nat.eqb_spec a b)
  end.
Ltac bool_cases := repeat (bool_case_step; try lia).

(** Closed goals: by evaluation, of the goal or of its decision procedure. *)
Ltac by_decide := apply (bool_decide_unpack _); vm_compute; exact I.
Ltac by_compute :=
  first [ vm_compute; done
        | by_decide
        | vm_compute; lia ].

(** ** Lemmas on machine integers *)

Lemma uwrap_range w x : (0 <= w)%Z → is_uint w (uwrap w x).
Proof. intros. apply Z.mod_pos_bound, Z.pow_pos_nonneg; lia. Qed.

Lemma uwrap_id w x : is_uint w x → uwrap w x = x.
Proof. intros. by apply Z.mod_small. Qed.

Lemma uwrap_idemp w x : uwrap w (uwrap w x) = uwrap w x.
Proof. unfold uwrap. apply Zmod_mod. Qed.

Lemma uwrap_add w x y : uwrap w (uwrap w x + y) = uwrap w (x + y).
Proof. unfold uwrap. by rewrite Zplus_mod_idemp_l. Qed.

Lemma uwrap_add_r w x y : uwrap w (x + uwrap w y) = uwrap w (x + y).
Proof. unfold uwrap. by rewrite Zplus_mod_idemp_r. Qed.

Lemma swrap_range w x : (0 < w)%Z → is_sint w (swrap w x).
Proof.
  intros. pose proof (uwrap_range w x) as Hr. unfold is_uint, is_sint, swrap in *.
  assert (2 ^ w = 2 * 2 ^ (w - 1))%Z by (rewrite <-Z.pow_succ_r by lia; f_equal; lia).
  bool_cases.
Qed.

Lemma swrap_id w x : (0 < w)%Z → is_sint w x → swrap w x = x.
Proof.
  intros ? [Hl Hu]. unfold swrap, uwrap.
  assert (2 ^ w = 2 * 2 ^ (w - 1))%Z by (rewrite <-Z.pow_succ_r by lia; f_equal; lia).
  destruct (Z.le_gt_cases 0%Z x).
  - rewrite Z.mod_small by lia. bool_cases.
  - rewrite <-(Z_mod_plus_full x 1%Z), Z.mul_1_l, Z.mod_small by lia. bool_cases.
Qed.

Lemma swrap_uwrap w x : swrap w (uwrap w x) = swrap w x.
Proof. unfold swrap. by rewrite uwrap_idemp. Qed.

(** Bits above the width of an unsigned integer are clear. *)
Lemma is_uint_testbit w x i : is_uint w x → (w <= i)%Z → Z.testbit x i = false.
Proof.
  intros Hx Hi. rewrite <-(uwrap_id w x Hx). unfold uwrap.
  destruct (Z.le_gt_cases 0%Z w).
  - rewrite Z.mod_pow2_bits_high; [done | lia].
  - destruct Hx. rewrite Z.pow_neg_r in * by lia. lia.
Qed.

Lemma is_uint_of_testbit w x :
  (0 <= w)%Z → (0 <= x)%Z → (∀ i, (w <= i)%Z → Z.testbit x i = false) → is_uint w x.
Proof.
  intros Hw Hx Hb. split; [done|].
  destruct (Z.eq_dec x 0%Z) as [->|]; [by apply Z.pow_pos_nonneg; lia|].
  apply Z.log2_lt_pow2; [lia|].
  destruct (Z.le_gt_cases w (Z.log2 x)) as [Hle|]; [|lia].
  specialize (Hb _ Hle). rewrite Z.bit_log2 in Hb by lia. done.
Qed.

Lemma is_uint_lor w x y : (0 <= w)%Z → is_uint w x → is_uint w y → is_uint w (Z.lor x y).
Proof.
  intros Hw Hx Hy. apply is_uint_of_testbit; [done| |].
  - apply Z.lor_nonneg. destruct Hx, Hy. lia.
  - intros i Hi. rewrite Z.lor_spec, !(is_uint_testbit w) by done. done.
Qed.

Lemma is_uint_lxor w x y : (0 <= w)%Z → is_uint w x → is_uint w y → is_uint w (Z.lxor x y).
Proof.
  intros Hw Hx Hy. apply is_uint_of_testbit; [done| |].
  - apply Z.lxor_nonneg. destruct Hx, Hy. lia.
  - intros i Hi. rewrite Z.lxor_spec, !(is_uint_testbit w) by done. done.
Qed.

Lemma is_uint_land w x y : (0 <= w)%Z → is_uint w x → (0 <= y)%Z → is_uint w (Z.land x y).
Proof.
  intros Hw Hx Hy. apply is_uint_of_testbit; [done| |].
  - apply Z.land_nonneg. lia.
  - intros i Hi. rewrite Z.land_spec, (is_uint_testbit w) by done. done.
Qed.

Lemma is_uint_shiftr w x n : (0 <= n)%Z → is_uint w x → is_uint w (Z.shiftr x n).
Proof.
  intros Hn [H0 H1]. split; [by apply Z.shiftr_nonneg|].
  rewrite Z.shiftr_div_pow2 by done.
  assert (0 < 2 ^ n)%Z by (apply Z.pow_pos_nonneg; lia).
  apply Z.le_lt_trans with x; [|done]. apply Z.div_le_upper_bound; nia.
Qed.

Lemma is_uint_le w w' x : (0 <= w <= w')%Z → is_uint w x → is_uint w' x.
Proof. intros ? [??]. split; [done|]. pose proof (Z.pow_le_mono_r 2 w w'). lia. Qed.

(** An [or] of disjoint pieces is a sum. *)
Lemma lor_shiftl_add x y n :
  (0 <= n)%Z → is_uint n x → Z.lor x (Z.shiftl y n) = (x + 2 ^ n * y)%Z.
Proof.
  intros Hn Hx. rewrite <-Z.add_lor_land, <-(Z.mul_comm y), <-Z.shiftl_mul_pow2 by done.
  enough (Z.land x (Z.shiftl y n) = 0%Z) as -> by lia.
  apply Z.bits_inj'. intros i Hi. rewrite Z.land_spec, Z.bits_0.
  destruct (Z.lt_ge_cases i n).
  - rewrite Z.shiftl_spec_low by done. apply andb_false_r.
  - rewrite (is_uint_testbit n x i) by done. done.
Qed.

Lemma land_255 x : Z.land x 255 = (x mod 256)%Z.
Proof. exact (Z.land_ones x 8 ltac:(done)). Qed.

Lemma land_127 x : Z.land x 127 = (x mod 128)%Z.
Proof. exact (Z.land_ones x 7 ltac:(done)). Qed.

(** ** Byte order *)

Lemma length_le_bytes n x : length (le_bytes n x) = n.
Proof. revert x; induction n; intros; simpl; auto. Qed.

Lemma le_bytes_ok n x : bytes_ok (le_bytes n x).
Proof.
  revert x; induction n; intros x; simpl; constructor; [|apply IHn].
  apply (uwrap_range 8); lia.
Qed.

Lemma of_le_range bs : bytes_ok bs → is_uint (8 * Z.of_nat (length bs)) (of_le bs).
Proof.
  induction 1 as [|b bs Hb _ IH]; simpl; [done|].
  unfold byte_ok, is_uint in *.
  replace (8 * Z.of_nat (S (length bs)))%Z with (8 + 8 * Z.of_nat (length bs))%Z by lia.
  rewrite Z.pow_add_r by lia. lia.
Qed.

Lemma of_le_bytes n x : of_le (le_bytes n x) = uwrap (8 * Z.of_nat n) x.
Proof.
  revert x; induction n as [|n IH]; intros x; [symmetry; apply Z.mod_1_r|]; cbn [le_bytes of_le].
  rewrite IH. unfold uwrap.
  replace (8 * Z.of_nat (S n))%Z with (8 + 8 * Z.of_nat n)%Z by lia.
  rewrite Z.pow_add_r by lia. change (2 ^ 8)%Z with 256%Z.
  rewrite Z.rem_mul_r; lia.
Qed.

Lemma le_bytes_of_le bs : bytes_ok bs → le_bytes (length bs) (of_le bs) = bs.
Proof.
  induction 1 as [|b bs Hb _ IH]; simpl; [done|].
  unfold byte_ok, is_uint in Hb. f_equal.
  - rewrite Z.mul_comm, Z_mod_plus_full. apply Z.mod_small. lia.
  - rewrite Z.mul_comm, Z_div_plus_full, Z.div_small by lia. done.
Qed.

Lemma length_be_bytes n x : length (be_bytes n x) = n.
Proof. unfold be_bytes. by rewrite length_rev, length_le_bytes. Qed.

Lemma be_bytes_ok n x : bytes_ok (be_bytes n x).
Proof. unfold be_bytes. apply Forall_rev, le_bytes_ok. Qed.

Lemma of_be_bytes n x : of_be (be_bytes n x) = uwrap (8 * Z.of_nat n) x.
Proof. unfold of_be, be_bytes. by rewrite rev_involutive, of_le_bytes. Qed.

(** ** Lists *)

Lemma take_app_exact {A} n (l k : list A) : n = length l → take n (l ++ k) = l.
Proof. intros ->. apply take_app_length. Qed.

Lemma drop_app_exact {A} n (l k : list A) : n = length l → drop n (l ++ k) = k.
Proof. intros ->. apply drop_app_length. Qed.

Lemma list_snoc_case {A} (l : list A) : l = [] ∨ ∃ l' x, l = l' ++ [x].
Proof. induction l using rev_ind; eauto. Qed.

Lemma list_split_at {A} n (l : list A) :
  n ≤ length l → ∃ l1 l2, l = l1 ++ l2 ∧ n = length l1.
Proof.
  intros. exists (take n l), (drop n l). rewrite take_drop, length_take. split; [done|lia].
Qed.

Lemma list_split_item {A} n (l : list A) :
  n < length l → ∃ l1 x l2, l = l1 ++ x :: l2 ∧ n = length l1.
Proof.
  intros [x Hx]%lookup_lt_is_Some_2.
  destruct (list_elem_of_split_length _ _ _ Hx) as (l1 & l2 & ? & ?). eauto.
Qed.

Lemma list_delete_past {A} n (l : list A) : length l ≤ n → delete n l = l.
Proof.
  revert n; induction l as [|x l IH]; intros [|n] ?; simpl in *; try done; [lia|].
  change (x :: delete n l = x :: l). f_equal. apply IH. lia.
Qed.

Lemma filter_absent {A} `{EqDecision A} (a : A) (l : list A) :
  a ∉ l → filter (λ b, b ≠ a) l = l.
Proof.
  induction l as [|b l IH]; intros Ha; [done|]. apply not_elem_of_cons in Ha as [Hb Ha].
  by rewrite filter_cons_True, IH.
Qed.

Lemma mapM_snoc {A B} (f : A → option B) l k x y :
  mapM f l = Some k → f x = Some y → mapM f (l ++ [x]) = Some (k ++ [y]).
Proof. rewrite !mapM_Some. intros. apply Forall2_app; [done|]. by repeat constructor. Qed.

(** ** Memory *)

(** [memcpy]/[memmove] of [xs] to slot [pos]: the slots outside keep their
    contents; the slots past the end of the memory do not exist. *)
Definition mem_write {A} (pos : nat) (xs : list A) (m : list A) : list A :=
  take (length m) (take pos m ++ xs ++ drop (pos + length xs) m).

Definition mem_read {A} (pos n : nat) (m : list A) : list A := take n (drop pos m).

Section Memory.
Context {A : Type}.

Lemma mem_write_length pos (xs m : list A) :
  pos + length xs ≤ length m → length (mem_write pos xs m) = length m.
Proof.
  intros. unfold mem_write. rewrite length_take, !length_app, length_take, length_drop. lia.
Qed.

(** A write that fits replaces a segment. *)
Lemma mem_write_app (l ys xs k : list A) :
  length xs = length ys → mem_write (length l) xs (l ++ ys ++ k) = l ++ xs ++ k.
Proof.
  intros Hl. unfold mem_write.
  rewrite take_app_length, drop_app_ge by lia.
  replace (length l + length xs - length l) with (length ys) by lia.
  rewrite drop_app_length. apply take_ge. rewrite !length_app. lia.
Qed.

Lemma mem_read_app (l ys k : list A) : mem_read (length l) (length ys) (l ++ ys ++ k) = ys.
Proof. unfold mem_read. by rewrite drop_app_length, take_app_length. Qed.

Lemma mem_write_at pos (l ys xs k m : list A) :
  m = l ++ ys ++ k → pos = length l → length xs = length ys → mem_write pos xs m = l ++ xs ++ k.
Proof. intros -> -> ?. by apply mem_write_app. Qed.

Lemma mem_read_at pos n (l ys k m : list A) :
  m = l ++ ys ++ k → pos = length l → n = length ys → mem_read pos n m = ys.
Proof. intros -> -> ->. apply mem_read_app. Qed.

(** A write leaves what lies before it alone. *)
Lemma mem_read_write_before pos n p (xs m : list A) :
  pos + n ≤ p → p + length xs ≤ length m → mem_read pos n (mem_write p xs m) = mem_read pos n m.
Proof.
  intros Hp Hl. unfold mem_read, mem_write.
  rewrite (take_ge (take p m ++ _)) by (rewrite !length_app, length_take, length_drop; lia).
  rewrite drop_app_le by (rewrite length_take; lia).
  rewrite take_app_le by (rewrite length_drop, length_take; lia).
  rewrite <-(take_drop p m) at 2. rewrite drop_app_le by (rewrite length_take; lia).
  by rewrite take_app_le by (rewrite length_drop, length_take; lia).
Qed.

End Memory.

(** Parts of memory. *)

Lemma mem_read_length {A} p n (b : list A) : (p + n <= length b)%nat → length (mem_read p n b) = n.
Proof. intros. unfold mem_read. rewrite length_take, length_drop. lia. Qed.

Lemma mem_read_whole {A} (b : list A) : mem_read 0 (length b) b = b.
Proof. unfold mem_read. by rewrite drop_0, take_ge. Qed.

Lemma mem_read_read {A} p n q k (b : list A) :
  (q + k <= n)%nat → mem_read q k (mem_read p n b) = mem_read (p + q) k b.
Proof.
  intros. unfold mem_read. rewrite skipn_firstn_comm, take_take, drop_drop. f_equal. lia.
Qed.

Lemma mem_write_split {A} p (vs b : list A) :
  (p + length vs <= length b)%nat →
  mem_write p vs b = take p b ++ vs ++ drop (p + length vs) b.
Proof.
  intros. unfold mem_write. apply take_ge. rewrite !length_app, length_take, length_drop. lia.
Qed.

Lemma mem_read_write {A} p n (vs b : list A) :
  (p + n <= length b)%nat → length vs = n → mem_read p n (mem_write p vs b) = vs.
Proof.
  intros Hl <-. rewrite mem_write_split by done. apply (mem_read_at _ _ (take p b) vs (drop (p + length vs) b)); [done| |done].
  rewrite length_take. lia.
Qed.

Lemma mem_read_write_after {A} pos n p (vs b : list A) :
  (p + length vs <= pos)%nat → (p + length vs <= length b)%nat →
  mem_read pos n (mem_write p vs b) = mem_read pos n b.
Proof.
  intros. unfold mem_read. rewrite mem_write_split by done. f_equal.
  rewrite drop_app_ge by (rewrite length_take; lia).
  rewrite drop_app_ge by (rewrite length_take; lia). rewrite drop_drop, length_take. f_equal. lia.
Qed.

(** A write outside what is read. *)
Lemma mem_read_write_disjoint {A} pos n p (vs b : list A) :
  (p + length vs <= length b)%nat → (pos + n <= p ∨ p + length vs <= pos)%nat →
  mem_read pos n (mem_write p vs b) = mem_read pos n b.
Proof. intros ? [?|?]; [by apply mem_read_write_before|by apply mem_read_write_after]. Qed.

(** A write inside what is read. *)
Lemma mem_read_write_inside {A} pos n p (vs b : list A) :
  (pos + n <= length b)%nat → (pos <= p ∧ p + length vs <= pos + n)%nat →
  mem_read pos n (mem_write p vs b) = mem_write (p - pos) vs (mem_read pos n b).
Proof.
  intros Hl [Hp Hv]. rewrite (mem_write_split (p - pos)) by (rewrite mem_read_length; lia).
  rewrite mem_write_split by lia. unfold mem_read.
  rewrite drop_app_le by (rewrite length_take; lia). rewrite skipn_firstn_comm, take_take.
  rewrite skipn_firstn_comm, drop_drop.
  rewrite Nat.min_l by lia.
  rewrite take_app_ge by (rewrite length_take, length_drop; lia). f_equal.
  rewrite length_take, length_drop, Nat.min_l by lia. rewrite take_app_ge by lia.
  f_equal. replace (pos + (p - pos + length vs))%nat with (p + length vs)%nat by lia. f_equal. lia.
Qed.

Lemma mem_write_write {A} p (vs vs' b : list A) :
  (p + length vs <= length b)%nat → length vs = length vs' →
  mem_write p vs' (mem_write p vs b) = mem_write p vs' b.
Proof.
  intros Hl He. rewrite !(mem_write_split p vs') by (rewrite ?mem_write_length by done; lia).
  rewrite mem_write_split by done. rewrite take_app_le by (rewrite length_take; lia).
  rewrite take_take, Nat.min_id. do 2 f_equal.
  rewrite drop_app_ge by (rewrite length_take; lia).
  rewrite drop_app_ge by (rewrite length_take; lia). rewrite drop_drop, length_take. f_equal. lia.
Qed.

Lemma mem_write_read {A} p n (b : list A) :
  (p + n <= length b)%nat → mem_write p (mem_read p n b) b = b.
Proof.
  intros. rewrite mem_write_split, mem_read_length by (rewrite ?mem_read_length; lia).
  unfold mem_read. rewrite <-drop_drop. by rewrite take_drop, take_drop.
Qed.

Lemma mem_write_nil {A} p (b : list A) : mem_write p [] b = b.
Proof. unfold mem_write. simpl. rewrite Nat.add_0_r, take_drop. by apply take_ge. Qed.

Lemma mem_read_lookup {A} p n (b : list A) i : (i < n)%nat → mem_read p n b !! i = b !! (p + i)%nat.
Proof. intros. unfold mem_read. by rewrite lookup_take_lt, lookup_drop. Qed.

Lemma mem_read_one {A} p (b : list A) (v : A) : b !! p = Some v ↔ mem_read p 1 b = [v].
Proof.
  unfold mem_read. rewrite <-(Nat.add_0_r p) at 1. rewrite <-lookup_drop.
  destruct (drop p b); simpl; naive_solver.
Qed.

Lemma mem_write_after {A} a (vs ws b : list A) :
  (a + length (vs ++ ws) <= length b)%nat →
  mem_write (a + length vs) ws (mem_write a vs b) = mem_write a (vs ++ ws) b.
Proof.
  rewrite length_app. intros Hl. rewrite (mem_write_split (a + length vs)) by (rewrite mem_write_length; lia).
  rewrite !mem_write_split by (rewrite ?length_app; lia). rewrite length_app.
  assert (length (take a b) = a) as Ht by (rewrite length_take; lia).
  rewrite (app_assoc (take a b) vs).
  rewrite (take_app_le (take a b ++ vs)) by (rewrite length_app; lia).
  rewrite (take_ge (take a b ++ vs)) by (rewrite length_app; lia).
  rewrite drop_app_ge by (rewrite length_app; lia). rewrite drop_drop, length_app, Ht, <-!app_assoc.
  do 3 f_equal. f_equal. lia.
Qed.

(** What a computation that succeeds returns, whatever the default. *)
Lemma some_default {A} (x : A) (o : option A) :
  match o with Some _ => true | None => false end = true → o = Some (default x o).
Proof. by destruct o. Qed.

(** ** Reachability *)

(** An invariant of a step relation holds in every reachable state. *)
Lemma rtc_preserves {A} (R : relation A) (P : A → Prop) :
  (∀ x y, R x y → P x → P y) → ∀ x y, rtc R x y → P x → P y.
Proof. intros Hstep x y. induction 1; eauto. Qed.

(** ** Hint databases *)

Create HintDb cint.
#[export] Hint Resolve uwrap_range swrap_range is_uint_lor is_uint_lxor
  is_uint_land is_uint_shiftr le_bytes_ok be_bytes_ok : cint.
#[export] Hint Extern 1 (_ <= _)%Z => lia : cint.
#[export] Hint Extern 1 (_ < _)%Z => lia : cint.

Create HintDb cint_len.
Create Rewrite HintDb cint_len.
#[export] Hint Rewrite @length_app @length_rev length_le_bytes length_be_bytes
  @length_take @length_drop @length_replicate @length_insert @length_fmap : cint_len.
