(* ===== verification/CcFifo.v ===== *)
(** The ring buffer of [include/cuttle/ccfifo.h] (module [Fifo]): the queue of
    new coroutines of the scheduler, the receive queue of a stream and the free
    list of [ccheap] are such buffers.  The file defines the buffer and its
    operations, the abstract bounded queue ([BoundedQueue]) that its clients
    rely on, and proves that the buffer implements it. *)

From S2P Require Import Prelude.

(** ** What a bounded queue promises its clients *)

(** [Q] holds at most [bq_cap q] items in the order they were pushed.  A push
    on a full queue fails and changes nothing; a pop on an empty one as well. *)
Class BoundedQueue (A Q : Type) := {
  bq_ok : Q → Prop;
  bq_list : Q → list A;
  bq_cap : Q → nat;
  bq_push : A → Q → bool * Q;
  bq_pop : Q → option A * Q;
  bq_bounded q : bq_ok q → length (bq_list q) ≤ bq_cap q;
  bq_push_full q x : bq_ok q → length (bq_list q) = bq_cap q → bq_push x q = (false, q);
  bq_push_room q x : bq_ok q → length (bq_list q) < bq_cap q →
    ∃ q', bq_push x q = (true, q') ∧ bq_ok q' ∧ bq_cap q' = bq_cap q ∧
          bq_list q' = bq_list q ++ [x];
  bq_pop_empty q : bq_ok q → bq_list q = [] → bq_pop q = (None, q);
  bq_pop_item q x l : bq_ok q → bq_list q = x :: l →
    ∃ q', bq_pop q = (Some x, q') ∧ bq_ok q' ∧ bq_cap q' = bq_cap q ∧ bq_list q' = l;
}.

Module Fifo.

(** [struct ccfifo], its memory seen as [capacity] slots of [item_size] bytes
    each; a slot holds one item, whatever bytes [malloc] left in it before the
    first push.  A pointer to a slot is the slot's index. *)
Record ccfifo (A : Type) := mk_ccfifo {
  q_items : list A;
  q_capacity : nat;
  q_size : nat;
  q_first : nat;
  q_last : nat;
}.
Arguments mk_ccfifo {A} _ _ _ _ _.
Arguments q_items {A} _.
Arguments q_capacity {A} _.
Arguments q_size {A} _.
Arguments q_first {A} _.
Arguments q_last {A} _.

Section Fifo.
Context {A : Type}.
Implicit Types (q : ccfifo A) (x : A).

(** [mem] is what [malloc(capacity * item_size)] returned: [None] for [NULL],
    else the (arbitrary) contents of the block. *)
Definition ccfifo_init (mem : option (list A)) (cap : nat) (q : ccfifo A) : bool * ccfifo A :=
  match mem with
  | None => (false, mk_ccfifo [] (q_capacity q) (q_size q) (q_first q) (q_last q))
  | Some m => (true, mk_ccfifo m cap 0 0 0)
  end.

Definition ccfifo_cleanup (q : ccfifo A) : ccfifo A := mk_ccfifo [] 0 0 0 0.

(** [++ i >= q->capacity ? 0 : i] *)
Definition ccfifo_next (cap i : nat) : nat := if cap <=? S i then 0 else S i.

(** [item = None] is a [NULL] source pointer or a zero [size]: the slot is
    claimed and keeps the bytes it had.  The result is the slot. *)
Definition ccfifo_push_bytes (item : option A) (q : ccfifo A) : option nat * ccfifo A :=
  if q_size q <? q_capacity q then
    let itempos := q_last q in
    let its := match item with Some x => <[itempos := x]> (q_items q) | None => q_items q end in
    (Some itempos,
     mk_ccfifo its (q_capacity q) (S (q_size q)) (q_first q) (ccfifo_next (q_capacity q) (q_last q)))
  else (None, q).

(** The popped item, or [None] where the C function returns [false]. *)
Definition ccfifo_pop_bytes (q : ccfifo A) : option A * ccfifo A :=
  if q_size q =? 0 then (None, q)
  else
    (q_items q !! q_first q,
     mk_ccfifo (q_items q) (q_capacity q) (q_size q - 1) (ccfifo_next (q_capacity q) (q_first q)) (q_last q)).

Definition ccfifo_push (x : A) (q : ccfifo A) : option nat * ccfifo A :=
  ccfifo_push_bytes (Some x) q.

Definition ccfifo_pop (q : ccfifo A) : option A * ccfifo A := ccfifo_pop_bytes q.

(** For a buffer of pointers: [NULL] when the buffer is empty. *)
Definition ccfifo_ppush (x : A) (q : ccfifo A) : option nat * ccfifo A := ccfifo_push x q.
Definition ccfifo_ppop (q : ccfifo A) : option A * ccfifo A := ccfifo_pop q.

(** The slot at [first + index]: [None] is an address past the buffer. *)
Definition ccfifo_peek (q : ccfifo A) (index : nat) : option A := q_items q !! (q_first q + index).

Definition ccfifo_peek_front (q : ccfifo A) : option A :=
  if q_size q =? 0 then None else q_items q !! q_first q.

Definition ccfifo_size (q : ccfifo A) : nat := q_size q.
Definition ccfifo_capacity (q : ccfifo A) : nat := q_capacity q.
Definition ccfifo_is_full (q : ccfifo A) : bool := q_size q =? q_capacity q.
Definition ccfifo_is_empty (q : ccfifo A) : bool := q_size q =? 0.

(** ** Well-formed buffers and the queue they hold *)

Record wf (q : ccfifo A) : Prop := {
  wf_items : length (q_items q) = q_capacity q;
  wf_size : q_size q ≤ q_capacity q;
  wf_first : q_first q < q_capacity q ∨ q_capacity q = 0 ∧ q_first q = 0;
  wf_last : q_last q = (q_first q + q_size q) mod q_capacity q;
}.

(** The [i]-th oldest slot. *)
Definition slot (q : ccfifo A) (i : nat) : nat := (q_first q + i) mod q_capacity q.

Definition contents (q : ccfifo A) : list A :=
  omap (λ i, q_items q !! slot q i) (seq 0 (q_size q)).

Lemma slot_lt q i : wf q → i < q_size q → slot q i < length (q_items q).
Proof.
  intros [Hi Hs Hf _] ?. unfold slot. rewrite Hi. apply Nat.mod_upper_bound. lia.
Qed.

Lemma omap_seq_lookup (f : nat → option A) n :
  (∀ i, i < n → is_Some (f i)) →
  length (omap f (seq 0 n)) = n ∧ ∀ i, i < n → omap f (seq 0 n) !! i = f i.
Proof.
  induction n as [|n IH]; intros Hf; [split; [done|lia]|].
  destruct IH as [Hl Hn]; [intros; apply Hf; lia|].
  rewrite seq_S, omap_app. destruct (Hf n) as [y Hy]; [lia|]. simpl. rewrite Hy.
  split; [rewrite length_app, Hl; simpl; lia|].
  intros i ?. destruct (decide (i = n)) as [->|].
  - rewrite lookup_app_r, Hl, Nat.sub_diag by lia. by rewrite Hy.
  - rewrite lookup_app_l by lia. apply Hn. lia.
Qed.

Lemma contents_spec q :
  wf q → length (contents q) = q_size q ∧
  ∀ i, i < q_size q → contents q !! i = q_items q !! slot q i.
Proof. intros Hq. apply omap_seq_lookup. intros i ?. by apply lookup_lt_is_Some, slot_lt. Qed.

Lemma contents_length q : wf q → length (contents q) = q_size q.
Proof. intros. by apply contents_spec. Qed.

Lemma contents_lookup q i : wf q → i < q_size q → contents q !! i = q_items q !! slot q i.
Proof. intros. by apply contents_spec. Qed.

(** Two well-formed descriptions agree when they list the same items. *)
Lemma contents_eq q l :
  wf q → length l = q_size q → (∀ i, i < q_size q → q_items q !! slot q i = l !! i) → contents q = l.
Proof.
  intros Hq Hl Heq. apply list_eq. intros i.
  destruct (decide (i < q_size q)).
  - rewrite contents_lookup by done. by apply Heq.
  - pose proof (contents_length q Hq).
    rewrite (lookup_ge_None_2 l), (lookup_ge_None_2 (contents q)) by lia. done.
Qed.

Lemma ccfifo_next_mod cap i : i < cap → ccfifo_next cap i = S i mod cap.
Proof.
  intros. unfold ccfifo_next. bool_cases.
  - replace (S i) with cap by lia. rewrite Nat.Div0.mod_same. done.
  - rewrite Nat.mod_small by lia. done.
Qed.

Lemma ccfifo_next_lt cap i : i < cap → ccfifo_next cap i < cap.
Proof. unfold ccfifo_next. intros. bool_cases. Qed.

Lemma slot_inj q i j : wf q → i < q_size q → j ≤ q_size q → j < q_capacity q →
  slot q i = slot q j → i = j.
Proof.
  intros [Hi Hs Hf _] ???. unfold slot. destruct Hf as [Hf|[]]; [|lia].
  assert (∀ k, k < q_capacity q → (q_first q + k) mod q_capacity q =
     if decide (q_first q + k < q_capacity q) then q_first q + k else q_first q + k - q_capacity q) as Hm.
  { intros k ?. case_decide; [by apply Nat.mod_small|].
    replace (q_first q + k) with ((q_first q + k - q_capacity q) + 1 * q_capacity q) at 1 by lia.
    rewrite Nat.Div0.mod_add. apply Nat.mod_small. lia. }
  rewrite !Hm by lia. repeat case_decide; lia.
Qed.

(** ** The operations on well-formed buffers *)

Lemma ccfifo_init_wf m cap q :
  length m = cap → wf (ccfifo_init (Some m) cap q).2 ∧ contents (ccfifo_init (Some m) cap q).2 = [].
Proof.
  intros Hm. split; [|done]. split; simpl; [done|lia|lia|].
  by rewrite Nat.Div0.mod_0_l.
Qed.

Lemma ccfifo_push_full x q : q_size q = q_capacity q → ccfifo_push x q = (None, q).
Proof. intros Hs. unfold ccfifo_push, ccfifo_push_bytes. bool_cases. done. Qed.

Lemma ccfifo_push_room x q :
  wf q → q_size q < q_capacity q →
  ∃ q', ccfifo_push x q = (Some (q_last q), q') ∧ wf q' ∧ q_capacity q' = q_capacity q ∧
        contents q' = contents q ++ [x].
Proof.
  intros Hq Hroom. pose proof Hq as [Hi Hs Hf Hl].
  unfold ccfifo_push, ccfifo_push_bytes. bool_cases. eexists; split; [done|].
  assert (q_last q < q_capacity q) as Hlast.
  { rewrite Hl. apply Nat.mod_upper_bound. lia. }
  set (q' := mk_ccfifo _ _ _ _ _).
  assert (wf q') as Hq'.
  { split; simpl; [by rewrite length_insert|lia|done|].
    rewrite ccfifo_next_mod, Hl by done.
    rewrite <-Nat.add_1_r, Nat.Div0.add_mod_idemp_l. f_equal. lia. }
  split; [done|]. split; [done|].
  apply contents_eq; [done| |].
  { rewrite length_app, contents_length by done. simpl. lia. }
  intros i Hlt. simpl in Hlt. change (slot q' i) with (slot q i). simpl.
  destruct (decide (i = q_size q)) as [->|].
  - rewrite lookup_app_r, contents_length, Nat.sub_diag by (rewrite ?contents_length by done; lia || done).
    unfold slot. rewrite <-Hl. apply list_lookup_insert_eq. lia.
  - rewrite lookup_app_l by (rewrite contents_length by done; lia).
    rewrite contents_lookup by (done || lia). apply list_lookup_insert_ne.
    rewrite Hl. intros Heq. symmetry in Heq. apply (slot_inj q i (q_size q)) in Heq; (done || lia).
Qed.

Lemma ccfifo_pop_empty q : q_size q = 0 → ccfifo_pop q = (None, q).
Proof. intros Hs. unfold ccfifo_pop, ccfifo_pop_bytes. by rewrite Hs. Qed.

Lemma ccfifo_pop_item x l q :
  wf q → contents q = x :: l →
  ∃ q', ccfifo_pop q = (Some x, q') ∧ wf q' ∧ q_capacity q' = q_capacity q ∧ contents q' = l.
Proof.
  intros Hq Hc. pose proof Hq as [Hi Hs Hf Hl].
  assert (q_size q = S (length l)) as Hsz.
  { rewrite <-(contents_length q), Hc by done. done. }
  assert (q_items q !! q_first q = Some x) as Hx.
  { pose proof (contents_lookup q 0 Hq) as H0. rewrite Hc in H0. unfold slot in H0.
    rewrite Nat.add_0_r, Nat.mod_small in H0 by lia. symmetry. apply H0. lia. }
  unfold ccfifo_pop, ccfifo_pop_bytes. rewrite Hsz. simpl. rewrite Hx.
  eexists; split; [done|]. set (q' := mk_ccfifo _ _ _ _ _).
  assert (wf q') as Hq'.
  { split; simpl; [done|lia| |].
    - left. apply ccfifo_next_lt. lia.
    - rewrite ccfifo_next_mod, Hl, Nat.Div0.add_mod_idemp_l by lia. f_equal. lia. }
  split; [done|]. split; [done|].
  apply contents_eq; [done|simpl; lia|].
  intros i Hlt. simpl in Hlt. simpl.
  assert (slot q' i = slot q (S i)) as ->.
  { unfold slot. simpl. rewrite ccfifo_next_mod, Nat.Div0.add_mod_idemp_l by lia. f_equal. lia. }
  rewrite <-contents_lookup by (done || lia). by rewrite Hc.
Qed.

Lemma ccfifo_is_empty_spec q : wf q → ccfifo_is_empty q = true ↔ contents q = [].
Proof.
  intros Hq. unfold ccfifo_is_empty. rewrite Nat.eqb_eq, <-(contents_length q) by done.
  apply length_zero_iff_nil.
Qed.

Lemma ccfifo_is_full_spec q :
  wf q → ccfifo_is_full q = true ↔ length (contents q) = q_capacity q.
Proof. intros Hq. unfold ccfifo_is_full. by rewrite Nat.eqb_eq, contents_length. Qed.

(** The buffer implements the abstract queue. *)
#[export] Instance ccfifo_queue : BoundedQueue A (ccfifo A).
Proof.
  refine {| bq_ok := wf; bq_list := contents; bq_cap := q_capacity;
            bq_push x q := (bool_decide (is_Some (ccfifo_push x q).1), (ccfifo_push x q).2);
            bq_pop := ccfifo_pop |}.
  - intros q Hq. rewrite contents_length by done. apply Hq.
  - intros q x Hq Hc. rewrite contents_length in Hc by done. by rewrite ccfifo_push_full.
  - intros q x Hq Hc. rewrite contents_length in Hc by done.
    destruct (ccfifo_push_room x q) as (q' & -> & ?); eauto.
  - intros q Hq Hc. apply ccfifo_pop_empty. by rewrite <-contents_length, Hc.
  - intros q x l Hq Hc. by apply ccfifo_pop_item.
Defined.

End Fifo.

(** ** Whole histories *)

(** What a client does to a queue and what it observes. *)
Inductive op (A : Type) := Push (x : A) | Pop.
Arguments Push {A} _.
Arguments Pop {A}.

Inductive obs (A : Type) := Pushed (ok : bool) | Popped (x : option A).
Arguments Pushed {A} _.
Arguments Popped {A} _.

Section Run.
Context {A Q : Type} {BQ : BoundedQueue A Q}.

Definition step (o : op A) (q : Q) : obs A * Q :=
  match o with
  | Push x => let '(ok, q') := bq_push x q in (Pushed ok, q')
  | Pop => let '(x, q') := bq_pop q in (Popped x, q')
  end.

Fixpoint run (os : list (op A)) (q : Q) : list (obs A) * Q :=
  match os with
  | [] => ([], q)
  | o :: os' => let '(b, q1) := step o q in let '(bs, q2) := run os' q1 in (b :: bs, q2)
  end.

(** The abstract queue: a list and its bound. *)
Definition spec_step (cap : nat) (o : op A) (l : list A) : obs A * list A :=
  match o with
  | Push x => if length l <? cap then (Pushed true, l ++ [x]) else (Pushed false, l)
  | Pop => match l with [] => (Popped None, []) | x :: l' => (Popped (Some x), l') end
  end.

Fixpoint spec_run (cap : nat) (os : list (op A)) (l : list A) : list (obs A) * list A :=
  match os with
  | [] => ([], l)
  | o :: os' =>
    let '(b, l1) := spec_step cap o l in let '(bs, l2) := spec_run cap os' l1 in (b :: bs, l2)
  end.

Lemma step_refines o q b l :
  bq_ok q → spec_step (bq_cap q) o (bq_list q) = (b, l) →
  ∃ q', step o q = (b, q') ∧ bq_ok q' ∧ bq_cap q' = bq_cap q ∧ bq_list q' = l.
Proof.
  intros Hq. destruct o as [x|]; simpl.
  - pose proof (bq_bounded q Hq). bool_cases; intros [= <- <-].
    + destruct (bq_push_room q x Hq) as (q' & -> & ? & ? & ?); [done|]. eauto.
    + rewrite bq_push_full by (done || lia). eauto.
  - destruct (bq_list q) as [|x l'] eqn:Hl; intros [= <- <-].
    + rewrite bq_pop_empty by done. eauto.
    + destruct (bq_pop_item q x l' Hq Hl) as (q' & -> & ? & ? & ?). eauto.
Qed.

Lemma run_refines os : ∀ q bs l,
  bq_ok q → spec_run (bq_cap q) os (bq_list q) = (bs, l) →
  ∃ q', run os q = (bs, q') ∧ bq_ok q' ∧ bq_cap q' = bq_cap q ∧ bq_list q' = l.
Proof.
  induction os as [|o os IH]; intros q bs l Hq; simpl; [intros [= <- <-]; eauto|].
  destruct (spec_step _ o _) as [b l1] eqn:Hs, (spec_run _ os l1) as [bs' l2] eqn:Hr.
  intros [= <- <-].
  destruct (step_refines o q b l1 Hq Hs) as (q1 & -> & Hok & Hcap & <-).
  rewrite <-Hcap in Hr. destruct (IH q1 _ _ Hok Hr) as (q2 & -> & ? & ? & ?).
  rewrite <-Hcap. eauto.
Qed.

End Run.

(** C32: a ring buffer that [ccfifo_init] set up behaves, over any sequence of
    pushes and pops, exactly as a queue bounded by its capacity: every push is
    accepted or refused as the queue would, every pop returns the oldest item
    or nothing, and what is left in the buffer is what is left in the queue. *)
Theorem ccfifo_refines_bounded_queue {A} (mem : list A) (q0 : ccfifo A) (os : list (op A)) :
  let q := (ccfifo_init (Some mem) (length mem) q0).2 in
  (run os q).1 = (spec_run (length mem) os []).1 ∧
  contents (run os q).2 = (spec_run (length mem) os []).2.
Proof.
  destruct (ccfifo_init_wf mem (length mem) q0 eq_refl) as [Hw Hc]. simpl in *.
  destruct (spec_run (length mem) os []) as [bs l] eqn:Hs. rewrite <-Hc in Hs.
  by destruct (run_refines (BQ := ccfifo_queue) os _ bs l Hw Hs) as (q' & -> & _ & _ & <-).
Qed.

(** [ccfifo_peek] does not wrap around: on a well-formed buffer of three slots
    that holds [[30; 40]], the second item is past the end of the memory. *)
Example ccfifo_peek_no_wrap :
  let q := mk_ccfifo [40; 20; 30] 3 2 2 1 in
  contents q = [30; 40] ∧ ccfifo_peek q 0 = Some 30 ∧ ccfifo_peek q 1 = None.
Proof. by vm_compute. Qed.

End Fifo.
