(* ===== verification/Dll.v ===== *)
(** Doubly linked lists in a store of nodes: the shape that [struct
    cclist_node] (cclist.h) and [struct io_waiter] (co-scheduler.h) share.  The
    class [Linked] gives the two pointers of a node type; [dll] says that the
    store holds a given list between a head and a tail pointer, and the lemmas
    of the file are the two updates the program makes on such lists: append
    after the tail and unlink. *)

From S2P Require Import Prelude.

(** A node type with a [prev] and a [next] pointer.  A pointer is the address
    of a node, [None] is [NULL]. *)
Class Linked (N : Type) := {
  lprev : N → option nat;
  lnext : N → option nat;
  set_prev : option nat → N → N;
  set_next : option nat → N → N;
  lprev_set_prev p n : lprev (set_prev p n) = p;
  lnext_set_prev p n : lnext (set_prev p n) = lnext n;
  lprev_set_next p n : lprev (set_next p n) = lprev n;
  lnext_set_next p n : lnext (set_next p n) = p;
}.

Create Rewrite HintDb linked.
#[export] Hint Rewrite @lprev_set_prev @lnext_set_prev @lprev_set_next @lnext_set_next : linked.

(** [p->f = v] on the node a pointer designates; nothing when it is [NULL]. *)
Definition upd {N} (p : option nat) (f : N → N) (st : gmap nat N) : gmap nat N :=
  match p with Some a => alter f a st | None => st end.

(** Refute a membership that contradicts [NoDup]. *)
Ltac no_dup H := rewrite ?NoDup_app, ?NoDup_cons in H; set_solver.

Section Dll.
Context {N : Type} `{Linked N}.
Implicit Types (st : gmap nat N) (l : list nat).

(** Every node of [l] is in the store, pointing to its neighbours. *)
Definition dll_nodes st l : Prop :=
  ∀ l1 a l2, l = l1 ++ a :: l2 →
    ∃ n, st !! a = Some n ∧ lprev n = last l1 ∧ lnext n = head l2.

Definition dll st (hd tl : option nat) l : Prop :=
  NoDup l ∧ hd = head l ∧ tl = last l ∧ dll_nodes st l.

Lemma dll_nil st : dll st None None [].
Proof. split; [constructor|]. repeat split. by intros [|??] ??. Qed.

Lemma dll_head_nil st tl l : dll st None tl l → l = [].
Proof. intros (_ & Hh & _). by destruct l. Qed.

Lemma dll_tail_nil st hd l : dll st hd None l → l = [].
Proof. intros (_ & _ & Ht & _). symmetry in Ht. by apply last_None in Ht. Qed.

(** Nodes outside the list do not matter. *)
Lemma dll_frame st st' hd tl l :
  (∀ a, a ∈ l → st' !! a = st !! a) → dll st hd tl l → dll st' hd tl l.
Proof.
  intros Heq (Hnd & Hh & Ht & Hn). split; [done|]. repeat split; [done..|].
  intros l1 a l2 ->. rewrite Heq by set_solver. by apply Hn.
Qed.

(** Changing a node without touching its pointers does not matter either. *)
Lemma dll_alter st hd tl l a (f : N → N) :
  (∀ n, lprev (f n) = lprev n ∧ lnext (f n) = lnext n) →
  dll st hd tl l → dll (alter f a st) hd tl l.
Proof.
  intros Hf (Hnd & Hh & Ht & Hn). split; [done|]. repeat split; [done..|].
  intros l1 b l2 Hl. destruct (Hn l1 b l2 Hl) as (n & Hb & Hp & Hx).
  destruct (decide (a = b)) as [->|].
  - exists (f n). rewrite lookup_alter_eq, Hb. destruct (Hf n) as [-> ->]. done.
  - exists n. by rewrite lookup_alter_ne.
Qed.

(** The nodes reached from [p] by [next] pointers. *)
Fixpoint walk (fuel : nat) st (p : option nat) : list nat :=
  match fuel, p with
  | S fuel', Some a =>
    a :: match st !! a with Some n => walk fuel' st (lnext n) | None => [] end
  | _, _ => []
  end.

Lemma walk_dll_from st l l1 l2 fuel :
  dll_nodes st l → l = l1 ++ l2 → length l2 ≤ fuel → walk fuel st (head l2) = l2.
Proof.
  intros Hn. revert l1 fuel. induction l2 as [|a l2 IH]; intros l1 fuel Hl Hf.
  { by destruct fuel. }
  destruct fuel as [|fuel]; simpl in *; [lia|].
  destruct (Hn l1 a l2 Hl) as (n & -> & _ & ->). f_equal.
  apply (IH (l1 ++ [a])); [by rewrite <-app_assoc | lia].
Qed.

(** Following [next] from the head enumerates the list. *)
Lemma walk_dll st hd tl l fuel : dll st hd tl l → length l ≤ fuel → walk fuel st hd = l.
Proof. intros (_ & -> & _ & Hn) ?. by apply (walk_dll_from st l []). Qed.

(** A node's neighbours, read from the store. *)
Lemma dll_lookup st hd tl l1 a l2 :
  dll st hd tl (l1 ++ a :: l2) →
  ∃ n, st !! a = Some n ∧ lprev n = last l1 ∧ lnext n = head l2.
Proof. intros (_ & _ & _ & Hn). by apply Hn. Qed.

Lemma dll_tail_eq st hd tl l1 a l2 :
  dll st hd tl (l1 ++ a :: l2) → (tl = Some a ↔ l2 = []).
Proof.
  intros (Hnd & _ & -> & _). rewrite last_app, last_cons.
  destruct (last l2) as [b|] eqn:Hb; [|apply last_None in Hb; naive_solver].
  split; [|by intros ->]. intros [= ->]. exfalso.
  apply last_Some in Hb as [k ->].
  apply NoDup_app in Hnd as (_ & _ & Hnd). apply NoDup_cons in Hnd as [Hnd _]. set_solver.
Qed.

Lemma dll_head_eq st hd tl l1 a l2 :
  dll st hd tl (l1 ++ a :: l2) → (hd = Some a ↔ l1 = []).
Proof.
  intros (Hnd & -> & _ & _). destruct l1 as [|b l1]; simpl; [done|].
  split; [|done]. intros [= ->]. exfalso. apply NoDup_cons in Hnd as [Hnd _]. set_solver.
Qed.

(** Where an element of a concatenation lies. *)
Lemma app_cons_split (l1 l2 k1 k2 : list nat) b :
  l1 ++ l2 = k1 ++ b :: k2 →
  (∃ k, l1 = k1 ++ b :: k ∧ k2 = k ++ l2) ∨ (∃ k, l2 = k ++ b :: k2 ∧ k1 = l1 ++ k).
Proof.
  revert k1. induction l1 as [|c l1 IH]; intros k1 Hk; simpl in *.
  { right. by exists k1. }
  destruct k1 as [|d k1]; simplify_eq/=; [left; by exists l1|].
  destruct (IH k1) as [(k & -> & ->)|(k & -> & ->)]; [done| |]; naive_solver.
Qed.

Lemma dll_tail_some st hd t l :
  dll st hd (Some t) l → ∃ l' h, l = l' ++ [t] ∧ hd = Some h.
Proof.
  intros (_ & -> & Ht & _). symmetry in Ht. apply last_Some in Ht as [l' ->].
  destruct l' as [|h l']; [by exists [], t|by exists (h :: l'), h].
Qed.

Lemma lookup_upd (p : option nat) (f : N → N) st a :
  upd p f st !! a = if decide (Some a = p) then f <$> st !! a else st !! a.
Proof.
  destruct p as [b|]; cbn [upd]; [|by case_decide].
  rewrite lookup_alter. repeat case_decide; congruence.
Qed.

(** *** Append

    [a] is a node outside the list with [prev] the old tail and [next] null;
    the old tail, if any, now points to it. *)
Lemma dll_append st st' hd tl l a :
  dll st hd tl l → a ∉ l →
  (∃ n, st' !! a = Some n ∧ lprev n = tl ∧ lnext n = None) →
  (∀ b, b ∈ l → Some b ≠ tl → st' !! b = st !! b) →
  (∀ t, tl = Some t → st' !! t = set_next (Some a) <$> st !! t) →
  dll st' (match hd with None => Some a | _ => hd end) (Some a) (l ++ [a]).
Proof.
  intros (Hnd & Hh & Ht & Hn) Ha (n & Hna & Hp & Hx) Hold Htl.
  split; [apply NoDup_app; split; [done|]; split; [set_solver|apply NoDup_singleton]|].
  split; [subst; by destruct l|]. split; [by rewrite last_snoc|].
  intros l1 b l2 Hl.
  destruct l2 as [|c l2' _] using rev_ind.
  { apply app_inj_tail in Hl as [<- <-]. exists n. by rewrite <-Ht. }
  rewrite app_comm_cons, app_assoc in Hl. apply app_inj_tail in Hl as [-> <-].
  destruct (Hn l1 b l2' eq_refl) as (m & Hm & Hmp & Hmx).
  destruct (decide (Some b = tl)) as [Hb|Hb].
  - exists (set_next (Some a) m). rewrite (Htl b), Hm by done. autorewrite with linked.
    split; [done|]. split; [done|].
    assert (l2' = []) as -> by (eapply (dll_tail_eq st hd tl l1 b l2'); [repeat split; done|done]).
    done.
  - exists m. rewrite Hold, Hm by set_solver. split; [done|]. split; [done|].
    rewrite Hmx. destruct l2'; [|done]. exfalso. apply Hb.
    by rewrite Ht, last_app.
Qed.

(** *** Unlink

    Of the remaining nodes only the neighbours of [a] change, each by the
    pointer that led to [a]. *)
Lemma dll_unlink st st' hd tl l1 a l2 :
  dll st hd tl (l1 ++ a :: l2) →
  (∀ b, b ∈ l1 ++ l2 →
     st' !! b =
       (λ n, let n1 := if decide (Some b = last l1) then set_next (head l2) n else n in
             if decide (Some b = head l2) then set_prev (last l1) n1 else n1) <$> st !! b) →
  dll st' (if decide (hd = Some a) then head l2 else hd)
          (if decide (tl = Some a) then last l1 else tl) (l1 ++ l2).
Proof.
  intros Hd Hst. pose proof (dll_head_eq _ _ _ _ _ _ Hd) as Hhe.
  pose proof (dll_tail_eq _ _ _ _ _ _ Hd) as Hte.
  destruct Hd as (Hnd & -> & -> & Hn).
  assert (NoDup (l1 ++ l2) ∧ a ∉ l1 ++ l2) as [Hnd' Ha].
  { rewrite <-Permutation_middle in Hnd. by apply NoDup_cons in Hnd as [? ?]. }
  split; [done|]. split.
  { case_decide as Hc; [by rewrite (proj1 Hhe Hc)|]. destruct l1; [|done]. by rewrite Hhe in Hc. }
  split.
  { case_decide as Hc; [by rewrite (proj1 Hte Hc), app_nil_r|].
    rewrite !last_app, last_cons. destruct (last l2) eqn:Hl2; [done|].
    apply last_None in Hl2 as ->. exfalso. apply Hc. by rewrite last_snoc. }
  intros k1 b k2 Hk. assert (b ∈ l1 ++ l2) as Hb by (rewrite Hk; set_solver).
  rewrite (Hst b Hb). rewrite Hk in Hnd'.
  apply app_cons_split in Hk as [(k & -> & ->)|(k & -> & ->)].
  - (* [b] is in [l1]: its [next] changes when it is the last of [l1] *)
    destruct (Hn k1 b (k ++ a :: l2)) as (n & -> & Hp & Hx); [by rewrite <-app_assoc|].
    simpl. rewrite (decide_False (P := Some b = head l2)).
    2:{ destruct l2 as [|d l2]; [done|]. intros [= ->]. no_dup Hnd'. }
    rewrite last_app, last_cons. destruct (last k) as [d|] eqn:Hdl.
    + rewrite decide_False by (intros [= ->]; apply last_Some in Hdl as [k' ->]; no_dup Hnd').
      eexists; split; [done|]. split; [done|]. rewrite Hx. by destruct k.
    + apply last_None in Hdl as ->. rewrite decide_True by done.
      eexists; split; [done|]. by autorewrite with linked.
  - (* [b] is in [l2]: its [prev] changes when it is the first of [l2] *)
    destruct (Hn (l1 ++ a :: k) b k2) as (n & -> & Hp & Hx); [by rewrite <-app_assoc|].
    simpl. rewrite (decide_False (P := Some b = last l1)).
    2:{ intros Hbl. symmetry in Hbl. apply last_Some in Hbl as [l' ->]. no_dup Hnd'. }
    destruct k as [|c k]; simpl.
    + rewrite decide_True by done. eexists; split; [done|]. autorewrite with linked.
      by rewrite app_nil_r.
    + rewrite decide_False by (intros [= ->]; no_dup Hnd').
      eexists; split; [done|]. split; [|done]. rewrite Hp.
      rewrite !last_app, !last_cons. by destruct (last k).
Qed.
End Dll.
