(* ===== verification/CcList.v ===== *)
(** The block pool of [include/cuttle/ccheap.h] (module [Heap]) and the doubly
    linked list of [include/cuttle/cclist.h] on top of it (module [Cclist]): the
    waiter list of every scheduler core.  Blocks are named by their index in
    the pool. *)

From S2P Require Import Prelude CcFifo Dll.
Import Fifo.

Module Heap.

(** [struct ccheap]: [blocks] tells whether the block memory is allocated. *)
Record ccheap := mk_ccheap {
  blocks : bool;
  fifo : ccfifo nat;
}.

Definition zero_fifo : ccfifo nat := mk_ccfifo [] 0 0 0 0.

(** [blk]: does [malloc] of the blocks succeed; [mem]: what [malloc] returned
    for the free list.  Blocks are pushed from the last to the first. *)
Definition ccheap_init (blk : bool) (mem : option (list nat)) (max_blocks : nat) : bool * ccheap :=
  if blk then
    match ccfifo_init mem max_blocks zero_fifo with
    | (true, q) =>
      (true, mk_ccheap true
         (foldl (λ q i, (ccfifo_ppush (max_blocks - i - 1) q).2) q (seq 0 max_blocks)))
    | (false, q) => (false, mk_ccheap false (ccfifo_cleanup q))
    end
  else (false, mk_ccheap false (ccfifo_cleanup zero_fifo)).

Definition ccheap_cleanup (h : ccheap) : ccheap := mk_ccheap false (ccfifo_cleanup (fifo h)).

(** A block, or [NULL] with [errno = ENOMEM]. *)
Definition ccheap_alloc (h : ccheap) : option nat * option errno * ccheap :=
  let '(pb, q) := ccfifo_ppop (fifo h) in
  (pb, match pb with None => Some ENOMEM | Some _ => None end, mk_ccheap (blocks h) q).

Definition ccheap_free (pb : nat) (h : ccheap) : ccheap :=
  mk_ccheap (blocks h) (ccfifo_ppush pb (fifo h)).2.

Definition ccheap_is_empty (h : ccheap) : bool := ccfifo_is_empty (fifo h).

(** ** The pool invariant

    [used] are the blocks handed out: with the free ones they are all the
    blocks, once each. *)
Definition free_blocks (h : ccheap) : list nat := contents (fifo h).
Definition max_blocks (h : ccheap) : nat := q_capacity (fifo h).

Record pool (h : ccheap) (used : list nat) : Prop := {
  pool_wf : wf (fifo h);
  pool_perm : free_blocks h ++ used ≡ₚ seq 0 (max_blocks h);
}.

Lemma pool_nodup h used : pool h used → NoDup (free_blocks h ++ used).
Proof. intros [_ ->]. apply NoDup_seq. Qed.

Lemma pool_used_room h used : pool h used → used ≠ [] → q_size (fifo h) < q_capacity (fifo h).
Proof.
  intros [Hw Hp] Hu. apply Permutation_length in Hp.
  rewrite length_app, length_seq in Hp. unfold free_blocks, max_blocks in Hp.
  rewrite contents_length in Hp by done. destruct used; simpl in *; [done|lia].
Qed.

(** The pool depends on the blocks handed out only as a multiset. *)
#[export] Instance pool_proper h : Proper ((≡ₚ) ==> iff) (pool h).
Proof. intros u u' Hu. split; intros [? Hp]; split; try done; by rewrite <-Hp, Hu. Qed.

Lemma foldl_push (xs : list nat) (f : nat → nat) q :
  wf q → length (contents q) + length xs ≤ q_capacity q →
  let q' := foldl (λ q i, (ccfifo_ppush (f i) q).2) q xs in
  wf q' ∧ q_capacity q' = q_capacity q ∧ contents q' = contents q ++ map f xs.
Proof.
  revert q. induction xs as [|x xs IH]; intros q Hq Hl; simpl in *.
  { rewrite app_nil_r. auto. }
  destruct (ccfifo_push_room (f x) q) as (q1 & Hp & Hq1 & Hc1 & Hl1); [done| |].
  { rewrite contents_length in Hl by done. lia. }
  change (ccfifo_ppush (f x) q) with (ccfifo_push (f x) q). rewrite Hp. simpl.
  destruct (IH q1) as (? & Hc & Hl'); [done| |].
  { rewrite Hl1, Hc1, length_app. simpl. lia. }
  split; [done|]. split; [by rewrite Hc|]. by rewrite Hl', Hl1, <-app_assoc.
Qed.

Lemma map_rev_seq n : map (λ i, n - i - 1) (seq 0 n) = rev (seq 0 n).
Proof.
  induction n as [|n IH]; [done|].
  transitivity (n :: map (λ i, n - i - 1) (seq 0 n)).
  2:{ rewrite (seq_S n 0), rev_app_distr, <-IH. done. }
  cbn [seq map]. f_equal; [lia|].
  rewrite <-seq_shift, map_map. apply map_ext. intros. lia.
Qed.

Lemma ccheap_init_pool m n :
  length m = n → ∃ h, ccheap_init true (Some m) n = (true, h) ∧ pool h [] ∧ max_blocks h = n.
Proof.
  intros Hm. unfold ccheap_init. simpl. eexists; split; [done|].
  destruct (ccfifo_init_wf m n zero_fifo Hm) as [Hw Hc]. simpl in Hw, Hc.
  destruct (foldl_push (seq 0 n) (λ i, n - i - 1) _ Hw) as (Hw' & Hcap & Hl).
  { rewrite Hc, length_seq. simpl. lia. }
  split; [|by unfold max_blocks]. split; simpl; [done|].
  unfold free_blocks, max_blocks. simpl. rewrite Hl, Hc, Hcap, app_nil_r, map_rev_seq. simpl.
  by rewrite <-Permutation_rev.
Qed.

(** Allocation hands out a block that was not in use. *)
Lemma ccheap_alloc_some h used pb l :
  pool h used → free_blocks h = pb :: l →
  ∃ h', ccheap_alloc h = (Some pb, None, h') ∧ pool h' (used ++ [pb]) ∧ pb ∉ used ∧
        free_blocks h' = l ∧ max_blocks h' = max_blocks h.
Proof.
  intros Hp Hf. pose proof (pool_nodup _ _ Hp) as Hnd. destruct Hp as [Hw Hp].
  destruct (ccfifo_pop_item pb l (fifo h) Hw Hf) as (q & Hq & Hwq & Hcq & Hlq).
  unfold ccheap_alloc, ccfifo_ppop. rewrite Hq. eexists; split; [done|].
  rewrite Hf in Hnd, Hp. simpl in Hnd. apply NoDup_cons in Hnd as [Hnd _].
  split; [|split; [set_solver|done]]. split; [done|].
  unfold free_blocks, max_blocks in *. simpl. rewrite Hlq, Hcq, <-Hp. by rewrite app_assoc, <-Permutation_cons_append.
Qed.

Lemma ccheap_alloc_none h used :
  pool h used → free_blocks h = [] → ccheap_alloc h = (None, Some ENOMEM, h).
Proof.
  intros [Hw _] Hf. unfold ccheap_alloc, ccfifo_ppop.
  rewrite ccfifo_pop_empty; [by destruct h|].
  unfold free_blocks in Hf. by rewrite <-contents_length, Hf.
Qed.

Lemma ccheap_free_pool h used pb :
  pool h (pb :: used) →
  pool (ccheap_free pb h) used ∧ free_blocks (ccheap_free pb h) = free_blocks h ++ [pb] ∧
  max_blocks (ccheap_free pb h) = max_blocks h.
Proof.
  intros Hp. pose proof (pool_used_room _ _ Hp ltac:(done)) as Hr. destruct Hp as [Hw Hp].
  destruct (ccfifo_push_room pb (fifo h) Hw Hr) as (q & Hq & Hwq & Hcq & Hlq).
  unfold ccheap_free, ccfifo_ppush. rewrite Hq. unfold free_blocks, max_blocks in *. simpl.
  split; [|done]. split; [done|]. unfold free_blocks, max_blocks. simpl.
  by rewrite Hlq, Hcq, <-app_assoc.
Qed.

End Heap.

Module Cclist.
Import Heap.

(** [struct cclist_node]: the two links and the item stored in the node. *)
Record cclist_node (A : Type) := mk_node {
  nprev : option nat;
  nnext : option nat;
  nitem : A;
}.
Arguments mk_node {A} _ _ _.
Arguments nprev {A} _.
Arguments nnext {A} _.
Arguments nitem {A} _.

#[export] Instance cclist_node_linked A : Linked (cclist_node A).
Proof.
  refine {| lprev := nprev; lnext := nnext;
            set_prev p n := mk_node p (nnext n) (nitem n);
            set_next p n := mk_node (nprev n) p (nitem n) |}; done.
Defined.

Definition set_item {A} (x : A) (n : cclist_node A) : cclist_node A :=
  mk_node (nprev n) (nnext n) x.

(** [struct cclist], with the block memory [nodes] its pointers refer to. *)
Record cclist (A : Type) := mk_cclist {
  heap : ccheap;
  lhead : option nat;
  ltail : option nat;
  lcapacity : nat;
  nodes : gmap nat (cclist_node A);
}.
Arguments mk_cclist {A} _ _ _ _ _.
Arguments heap {A} _.
Arguments lhead {A} _.
Arguments ltail {A} _.
Arguments lcapacity {A} _.
Arguments nodes {A} _.

Section Cclist.
Context {A : Type}.
Implicit Types (cc : cclist A) (x : A).

(** [mem]: the arbitrary contents of the node memory. *)
Definition cclist_init (blk : bool) (fifo_mem : option (list nat)) (mem : list (cclist_node A))
    (cap : nat) : bool * cclist A :=
  let '(ok, h) := ccheap_init blk fifo_mem cap in
  (ok, mk_cclist h None None cap (map_seq 0 mem)).

Definition cclist_cleanup (cc : cclist A) : cclist A :=
  mk_cclist (ccheap_cleanup (heap cc)) None None 0 ∅.

Definition cclist_head (cc : cclist A) : option nat := lhead cc.
Definition cclist_tail (cc : cclist A) : option nat := ltail cc.

(** The item of a node, [None] for a [NULL] node. *)
Definition cclist_peek (cc : cclist A) (node : option nat) : option A :=
  a ← node; nitem <$> nodes cc !! a.

(** The new node ([None] = [NULL]) and the [errno] the call sets, if any;
    [pitem = None] leaves the item of the new node as it is. *)
Definition cclist_push (after : option nat) (pitem : option A) (cc : cclist A)
    : option nat * option errno * cclist A :=
  match after, lhead cc with
  | None, Some _ => (None, Some EINVAL, cc)
  | _, _ =>
    let '(node, err, h) := ccheap_alloc (heap cc) in
    match node with
    | None => (None, err, mk_cclist h (lhead cc) (ltail cc) (lcapacity cc) (nodes cc))
    | Some nd =>
      let st1 := alter (set_prev after) nd (nodes cc) in
      let '(hd1, tl1) :=
        match lhead cc with None => (Some nd, Some nd) | Some _ => (lhead cc, ltail cc) end in
      let '(st2, tl2) :=
        match after with
        | None => (alter (set_next None) nd st1, tl1)
        | Some a =>
          (alter (set_next (Some nd)) a
             (alter (set_next (n ← st1 !! a; nnext n)) nd st1),
           if decide (after = tl1) then Some nd else tl1)
        end in
      let st3 := match pitem with Some x => alter (set_item x) nd st2 | None => st2 end in
      (Some nd, err, mk_cclist h hd1 tl2 (lcapacity cc) st3)
    end
  end.

Definition cclist_push_back (pitem : option A) (cc : cclist A) :=
  cclist_push (cclist_tail cc) pitem cc.

(** Insertion before a node; the item is always copied. *)
Definition cclist_insert (before : option nat) (x : A) (cc : cclist A)
    : option nat * option errno * cclist A :=
  match before, ltail cc with
  | None, Some _ => (None, Some EINVAL, cc)
  | _, _ =>
    let '(node, err, h) := ccheap_alloc (heap cc) in
    match node with
    | None => (None, err, mk_cclist h (lhead cc) (ltail cc) (lcapacity cc) (nodes cc))
    | Some nd =>
      let st1 := alter (set_next before) nd (nodes cc) in
      let '(hd1, tl1) :=
        match ltail cc with None => (Some nd, Some nd) | Some _ => (lhead cc, ltail cc) end in
      let '(st2, hd2) :=
        match before with
        | None => (alter (set_prev None) nd st1, hd1)
        | Some b =>
          (alter (set_prev (Some nd)) b
             (alter (set_prev (n ← st1 !! b; nprev n)) nd st1),
           if decide (before = hd1) then Some nd else hd1)
        end in
      (Some nd, err, mk_cclist h hd2 tl1 (lcapacity cc) (alter (set_item x) nd st2))
    end
  end.

Definition cclist_erase (node : option nat) (cc : cclist A) : cclist A :=
  match node with
  | None => cc
  | Some a =>
    let prev := n ← nodes cc !! a; nprev n in
    let next := n ← nodes cc !! a; nnext n in
    let st := upd next (set_prev prev) (upd prev (set_next next) (nodes cc)) in
    let hd := if decide (lhead cc = node) then next else lhead cc in
    let tl := if decide (ltail cc = node) then prev else ltail cc in
    mk_cclist (ccheap_free a (heap cc)) hd tl (lcapacity cc) st
  end.

(** ** The list a well-formed [cclist] holds *)

(** [l] are the nodes in order: they are the blocks in use, all of them lie in
    the node memory, and the links run through them. *)
Record repr cc (l : list nat) : Prop := {
  repr_pool : pool (heap cc) l;
  repr_cap : max_blocks (heap cc) = lcapacity cc;
  repr_mem : ∀ a, a < lcapacity cc → is_Some (nodes cc !! a);
  repr_dll : dll (nodes cc) (lhead cc) (ltail cc) l;
}.

Lemma repr_in cc l a : repr cc l → a ∈ l → a < lcapacity cc.
Proof.
  intros [[_ Hp] <- _ _] Ha.
  assert (a ∈ seq 0 (max_blocks (heap cc))) as Hin by (rewrite <-Hp; set_solver).
  apply elem_of_seq in Hin. lia.
Qed.

Lemma repr_walk cc l fuel :
  repr cc l → length l ≤ fuel → walk fuel (nodes cc) (cclist_head cc) = l.
Proof. intros Hr. by eapply walk_dll, repr_dll. Qed.

Lemma repr_length cc l : repr cc l → length l ≤ lcapacity cc.
Proof.
  intros [[_ Hp] <- _ _]. apply Permutation_length in Hp.
  rewrite length_app, length_seq in Hp. lia.
Qed.

Lemma cclist_init_repr fm mem cap :
  length fm = cap → length mem = cap →
  ∃ cc, cclist_init true (Some fm) mem cap = (true, cc) ∧ repr cc [] ∧ lcapacity cc = cap.
Proof.
  intros Hf Hm. destruct (ccheap_init_pool fm cap Hf) as (h & Hh & Hp & Hc).
  unfold cclist_init. rewrite Hh. eexists; split; [done|]. split; [|done].
  split; simpl; [done|done| |apply dll_nil].
  intros a Ha. rewrite lookup_map_seq_0. apply lookup_lt_is_Some. lia.
Qed.

(** Appending: a fresh node at the end that holds the item; the other nodes
    keep theirs. *)
Lemma cclist_push_back_ok cc l x a fr :
  repr cc l → free_blocks (heap cc) = a :: fr →
  ∃ cc', cclist_push_back (Some x) cc = (Some a, None, cc') ∧ repr cc' (l ++ [a]) ∧
    a ∉ l ∧ lcapacity cc' = lcapacity cc ∧ free_blocks (heap cc') = fr ∧
    cclist_peek cc' (Some a) = Some x ∧
    ∀ b, b ≠ a → cclist_peek cc' (Some b) = cclist_peek cc (Some b).
Proof.
  intros Hr Hf. pose proof Hr as [Hp Hc Hm Hd].
  destruct (ccheap_alloc_some _ _ _ _ Hp Hf) as (h & Ha & Hp' & Hal & Hfr & Hmx).
  assert (a < lcapacity cc) as Halt.
  { pose proof (repr_pool _ _ Hr) as [_ Hperm]. rewrite Hf, Hc in Hperm.
    assert (a ∈ seq 0 (lcapacity cc)) as Hin by (rewrite <-Hperm; set_solver).
    apply elem_of_seq in Hin. lia. }
  destruct (Hm a Halt) as [na Hna].
  unfold cclist_push_back, cclist_push, cclist_tail.
  destruct (ltail cc) as [t|] eqn:Ht.
  - destruct (dll_tail_some _ _ _ _ Hd) as (l' & hd & Hl & Hh).
    rewrite Hh, Ha, decide_True by done. eexists; split; [done|].
    assert (t ≠ a ∧ t ∈ l) as [Hta Htl] by (subst l; set_solver).
    set (nx := n ← _; nnext n).
    assert (nx = None) as ->.
    { subst nx l. destruct (dll_lookup _ _ _ l' t [] Hd) as (nt & Hnt & _ & Hx).
      rewrite lookup_alter_ne, Hnt by done. done. }
    set (st := alter (set_item x) a _).
    assert (st !! a = Some (mk_node (Some t) None x)) as Hsa.
    { subst st. by rewrite lookup_alter_eq, lookup_alter_ne, !lookup_alter_eq, Hna by done. }
    assert (st !! t = set_next (Some a) <$> nodes cc !! t) as Hst.
    { subst st. by rewrite lookup_alter_ne, lookup_alter_eq, !lookup_alter_ne by done. }
    assert (∀ b, b ≠ a → b ≠ t → st !! b = nodes cc !! b) as Hso.
    { intros b ??. subst st. by rewrite !lookup_alter_ne by done. }
    split; [|split; [done|split; [done|split; [done|split]]]].
    + split; simpl; [done|by rewrite Hmx| |].
      * intros b Hb. subst st. rewrite !lookup_alter_is_Some. by apply Hm.
      * rewrite Hh in Hd. apply (dll_append _ st _ _ _ a Hd Hal); [eauto| |].
        -- intros b ??. apply Hso; [set_solver|congruence].
        -- intros t' [= <-]. done.
    + unfold cclist_peek. simpl. by rewrite Hsa.
    + intros b Hb. unfold cclist_peek. simpl. destruct (decide (b = t)) as [->|].
      * rewrite Hst. by destruct (nodes cc !! t).
      * by rewrite Hso.
  - assert (l = []) as -> by (by eapply dll_tail_nil).
    assert (lhead cc = None) as Hh by apply Hd.
    rewrite Hh, Ha. eexists; split; [done|].
    set (st := alter (set_item x) a _).
    assert (st !! a = Some (mk_node None None x)) as Hsa.
    { subst st. by rewrite !lookup_alter_eq, Hna. }
    assert (∀ b, b ≠ a → st !! b = nodes cc !! b) as Hso.
    { intros b ?. subst st. by rewrite !lookup_alter_ne by done. }
    split; [|split; [done|split; [done|split; [done|split]]]].
    + split; simpl; [done|by rewrite Hmx| |].
      * intros b Hb. subst st. rewrite !lookup_alter_is_Some. by apply Hm.
      * rewrite Hh in Hd. apply (dll_append _ st _ _ _ a Hd Hal); [eauto|set_solver|done].
    + unfold cclist_peek. simpl. by rewrite Hsa.
    + intros b Hb. unfold cclist_peek. simpl. by rewrite Hso.
Qed.

Lemma cclist_push_back_full cc l item :
  repr cc l → free_blocks (heap cc) = [] →
  cclist_push_back item cc = (None, Some ENOMEM, cc).
Proof.
  intros [Hp _ _ Hd] Hf. unfold cclist_push_back, cclist_push, cclist_tail.
  rewrite (ccheap_alloc_none _ _ Hp Hf).
  destruct (ltail cc) as [t|] eqn:Ht, (lhead cc) as [h|] eqn:Hh; try (by destruct cc; simpl in *; subst).
  apply dll_tail_nil in Hd as Hl. subst l. by destruct Hd as (_ & ? & _).
Qed.

(** Erasing: the node leaves the list, every item stays. *)
Lemma cclist_erase_ok cc l1 a l2 :
  repr cc (l1 ++ a :: l2) →
  let cc' := cclist_erase (Some a) cc in
  repr cc' (l1 ++ l2) ∧ lcapacity cc' = lcapacity cc ∧
  free_blocks (heap cc') = free_blocks (heap cc) ++ [a] ∧
  ∀ b, cclist_peek cc' (Some b) = cclist_peek cc (Some b).
Proof.
  intros Hr. pose proof Hr as [Hp Hc Hm Hd].
  rewrite <-Permutation_middle in Hp.
  destruct (ccheap_free_pool _ _ _ Hp) as (Hp' & Hfr & Hmx).
  destruct (dll_lookup _ _ _ _ _ _ Hd) as (na & Hna & Hprev & Hnext).
  simpl in Hprev, Hnext. unfold cclist_erase. rewrite Hna. simpl. rewrite Hprev, Hnext.
  set (st := upd (head l2) _ _).
  assert (∀ b, st !! b = (λ n, let n1 := if decide (Some b = last l1) then set_next (head l2) n else n in
             if decide (Some b = head l2) then set_prev (last l1) n1 else n1) <$> nodes cc !! b) as Hst.
  { intros b. subst st. rewrite !lookup_upd. destruct (nodes cc !! b); simpl; by repeat case_decide. }
  split; [|split; [done|split; [done|]]].
  - split; simpl; [done|by rewrite Hmx| |].
    + intros b Hb. rewrite Hst. apply fmap_is_Some. by apply Hm.
    + eapply (dll_unlink _ st) in Hd; [|by intros].
      done.
  - intros b. unfold cclist_peek. simpl. rewrite Hst. destruct (nodes cc !! b); simpl; [|done].
    by repeat case_decide.
Qed.

(** ** Histories of a list *)

(** A client appends an item, or erases the [i]-th node of the list, whose
    pointer it kept since the push. *)
Inductive lop := PushBack (x : A) | Erase (i : nat).

(** The nodes in the order the scheduler visits them, and their items. *)
Definition node_list (cc : cclist A) : list nat :=
  walk (lcapacity cc) (nodes cc) (cclist_head cc).
Definition item_list (cc : cclist A) : list A :=
  omap (λ a, cclist_peek cc (Some a)) (node_list cc).

(** The result of a push is whether it succeeded. *)
Definition lstep (o : lop) (cc : cclist A) : bool * cclist A :=
  match o with
  | PushBack x => let '(node, _, cc') := cclist_push_back (Some x) cc in
                  (bool_decide (is_Some node), cc')
  | Erase i => (true, cclist_erase (node_list cc !! i) cc)
  end.

Fixpoint lrun (os : list lop) (cc : cclist A) : list bool * cclist A :=
  match os with
  | [] => ([], cc)
  | o :: os' => let '(b, cc1) := lstep o cc in let '(bs, cc2) := lrun os' cc1 in (b :: bs, cc2)
  end.

Definition lspec_step (cap : nat) (o : lop) (l : list A) : bool * list A :=
  match o with
  | PushBack x => if length l <? cap then (true, l ++ [x]) else (false, l)
  | Erase i => (true, take i l ++ drop (S i) l)
  end.

Fixpoint lspec_run (cap : nat) (os : list lop) (l : list A) : list bool * list A :=
  match os with
  | [] => ([], l)
  | o :: os' =>
    let '(b, l1) := lspec_step cap o l in let '(bs, l2) := lspec_run cap os' l1 in (b :: bs, l2)
  end.

(** [xs] are the items of the nodes [l]. *)
Definition holds cc (l : list nat) (xs : list A) : Prop :=
  repr cc l ∧ Forall2 (λ a x, cclist_peek cc (Some a) = Some x) l xs.

Lemma holds_node_list cc l xs : holds cc l xs → node_list cc = l.
Proof. intros [Hr _]. apply repr_walk; [done|]. by apply repr_length. Qed.

Lemma holds_item_list cc l xs : holds cc l xs → item_list cc = xs.
Proof.
  intros Hh. unfold item_list. rewrite (holds_node_list _ _ _ Hh). destruct Hh as [_ Hf].
  induction Hf as [|a x l xs Ha _ IH]; [done|].
  cbn [omap list_omap]. by rewrite Ha, IH.
Qed.

Lemma items_frame cc cc' l (xs : list A) :
  (∀ b, b ∈ l → cclist_peek cc' (Some b) = cclist_peek cc (Some b)) →
  Forall2 (λ a x, cclist_peek cc (Some a) = Some x) l xs →
  Forall2 (λ a x, cclist_peek cc' (Some a) = Some x) l xs.
Proof.
  intros Ho Hf. induction Hf as [|a x l xs Ha _ IH]; constructor.
  - rewrite Ho by set_solver. done.
  - apply IH. intros. apply Ho. set_solver.
Qed.

Lemma lstep_refines o cc l xs b xs' :
  holds cc l xs → lspec_step (lcapacity cc) o xs = (b, xs') →
  ∃ cc' l', lstep o cc = (b, cc') ∧ lcapacity cc' = lcapacity cc ∧ holds cc' l' xs'.
Proof.
  intros Hh. pose proof Hh as [Hr Hf]. pose proof (Forall2_length _ _ _ Hf) as Hlen.
  pose proof Hr as [[_ Hp] Hcap _ _]. apply Permutation_length in Hp.
  rewrite length_app, length_seq, Hcap in Hp. destruct o as [x|i]; simpl.
  - destruct (free_blocks (heap cc)) as [|a fr] eqn:Hfr; simpl in Hp.
    + bool_cases. intros [= <- <-]. rewrite (cclist_push_back_full _ _ _ Hr Hfr).
      eexists cc, l. done.
    + bool_cases. intros [= <- <-].
      destruct (cclist_push_back_ok _ _ x _ _ Hr Hfr) as (cc' & -> & Hr' & Ha & Hc & _ & Hx & Ho).
      exists cc', (l ++ [a]). split; [done|]. split; [done|]. split; [done|].
      apply Forall2_app; [|by repeat constructor].
      apply (items_frame cc); [|done]. intros b Hb. apply Ho. set_solver.
  - intros [= <- <-]. rewrite (holds_node_list _ _ _ Hh).
    destruct (l !! i) as [a|] eqn:Hi.
    + pose proof (take_drop_middle _ _ _ Hi) as Hl. rewrite <-Hl in Hr.
      destruct (cclist_erase_ok _ _ _ _ Hr) as (Hr' & Hc & _ & Ho).
      eexists _, (take i l ++ drop (S i) l). split; [done|]. split; [done|]. split; [done|].
      apply (items_frame cc); [by intros|].
      apply Forall2_app; [by apply Forall2_take|by apply Forall2_drop].
    + apply lookup_ge_None in Hi. eexists cc, l. split; [done|]. split; [done|].
      rewrite take_ge, drop_ge, app_nil_r by lia. done.
Qed.

Lemma lrun_refines os : ∀ cc l xs bs xs',
  holds cc l xs → lspec_run (lcapacity cc) os xs = (bs, xs') →
  ∃ cc' l', lrun os cc = (bs, cc') ∧ lcapacity cc' = lcapacity cc ∧ holds cc' l' xs'.
Proof.
  induction os as [|o os IH]; intros cc l xs bs xs' Hh; simpl.
  { intros [= <- <-]. eauto. }
  destruct (lspec_step _ o _) as [b x1] eqn:Hs, (lspec_run _ os x1) as [bs' x2] eqn:Hr.
  intros [= <- <-].
  destruct (lstep_refines _ _ _ _ _ _ Hh Hs) as (c1 & l1 & -> & Hc & Hh1).
  rewrite <-Hc in Hr. destruct (IH _ _ _ _ _ Hh1 Hr) as (c2 & l2 & -> & Hc2 & ?).
  rewrite <-Hc, <-Hc2. eauto.
Qed.

End Cclist.

(** A freshly initialised list behaves, over any history of appends and
    erasures, as a sequence of at most [capacity] items: an append fails
    exactly when [capacity] nodes are live, and visiting the nodes from the head
    by [next] yields the live items in insertion order. *)
Theorem cclist_refines_sequence {A} (fm : list nat) (mem : list (cclist_node A)) os :
  length fm = length mem →
  let cc := (cclist_init true (Some fm) mem (length mem)).2 in
  (lrun os cc).1 = (lspec_run (length mem) os []).1 ∧
  item_list (lrun os cc).2 = (lspec_run (length mem) os []).2.
Proof.
  intros Hm. destruct (cclist_init_repr fm mem (length mem) Hm eq_refl) as (cc & -> & Hr & Hc).
  simpl. destruct (lspec_run (length mem) os []) as [bs xs] eqn:Hs. rewrite <-Hc in Hs.
  destruct (lrun_refines os cc [] [] bs xs) as (cc' & l' & -> & _ & Hh); [by split|done|].
  simpl. by rewrite (holds_item_list _ _ _ Hh).
Qed.

Lemma cclist_refines_sequence_witness :
  let cc := (cclist_init true (Some [0; 0]) [mk_node None None 7; mk_node None None 7] 2).2 in
  (lrun [PushBack 1; PushBack 2; PushBack 3; Erase 0; PushBack 4] cc).1
    = [true; true; false; true; true] ∧
  item_list (lrun [PushBack 1; PushBack 2; PushBack 3; Erase 0; PushBack 4] cc).2 = [2; 4].
Proof.
  apply (cclist_refines_sequence [0; 0] [mk_node None None 7; mk_node None None 7]
           [PushBack 1; PushBack 2; PushBack 3; Erase 0; PushBack 4]).
  reflexivity.
Defined.

(** [cclist_push] after a node that is not the tail leaves the [prev] link of
    the node that follows as it was: with nodes 0 and 1 in the list, pushing
    node 2 after node 0 gives the forward order 0, 2, 1, but node 1 still
    points back to node 0. *)
Example cclist_push_middle_prev :
  let cc := (cclist_init true (Some [0; 0; 0]) (replicate 3 (mk_node None None 7)) 3).2 in
  let cc1 := (cclist_push_back (Some 10) cc).2 in
  let cc2 := (cclist_push_back (Some 11) cc1).2 in
  let '(nd, _, cc3) := cclist_push (cclist_head cc2) (Some 12) cc2 in
  item_list cc3 = [10; 12; 11] ∧ nprev <$> nodes cc3 !! 1 = Some (cclist_head cc3) ∧
  nd ≠ cclist_head cc3.
Proof. vm_compute. split; [done|]. split; [done|]. congruence. Qed.

End Cclist.
