(* ===== verification/CcArray.v ===== *)
(** The growable array of [include/cuttle/ccarray.h]: the streams of a channel,
    the ports of a server and the repeated fields of a message are such arrays.
    [elems] is the sequence an array stands for; the theorems relate every
    operation to it, and [ccarray_lowerbound] to the position it searches. *)

From S2P Require Import Prelude.

Module CcArray.

(** [ccarray_npos] is [(size_t)(-1)], modelled as [None] in results. *)

(** [struct ccarray_t], its memory seen as [item_size]-byte slots ([] when
    [items] is [NULL]). *)
Record ccarray (A : Type) := mk_ccarray {
  a_items : list A;
  a_capacity : nat;
  a_size : nat;
}.
Arguments mk_ccarray {A} _ _ _.
Arguments a_items {A} _.
Arguments a_capacity {A} _.
Arguments a_size {A} _.

Section CcArray.
Context {A : Type}.
Implicit Types (c : ccarray A) (x : A).

(** [mem]: the block [malloc] returned, [None] for [NULL]. *)
Definition ccarray_init (mem : option (list A)) (cap : nat) (c : ccarray A) : bool * ccarray A :=
  match mem with
  | None => (false, mk_ccarray [] (a_capacity c) (a_size c))
  | Some m => (true, mk_ccarray m cap 0)
  end.

Definition ccarray_cleanup (c : ccarray A) : ccarray A := mk_ccarray [] (a_capacity c) (a_size c).

(** [grow = None]: [realloc] failed; else the bytes it left in new slots.  The
    result is the capacity after the call. *)
Definition ccarray_realloc (grow : option (list A)) (cap : nat) (c : ccarray A) : nat * ccarray A :=
  match grow with
  | None => (a_capacity c, c)
  | Some fresh =>
    (cap, mk_ccarray (take cap (a_items c ++ fresh)) cap
            (if cap <? a_size c then cap else a_size c))
  end.

Definition ccarray_resize (grow : option (list A)) (sz : nat) (c : ccarray A) : nat * ccarray A :=
  let old_size := a_size c in
  let '(cap, c1) := ccarray_realloc grow sz c in
  let c2 := if (cap =? sz) && (old_size <? sz)
            then mk_ccarray (a_items c1) (a_capacity c1) sz else c1 in
  (a_size c2, c2).

(** [None] is a [NULL] array. *)
Definition ccarray_size (c : option (ccarray A)) : nat :=
  match c with Some c => a_size c | None => 0 end.
Definition ccarray_capacity (c : option (ccarray A)) : nat :=
  match c with Some c => a_capacity c | None => 0 end.

Definition ccarray_push_back (x : A) (c : ccarray A) : option nat * ccarray A :=
  if a_size c <? a_capacity c then
    let pos := a_size c in
    (Some pos, mk_ccarray (mem_write pos [x] (a_items c)) (a_capacity c) (S (a_size c)))
  else (None, c).

(** The C function does not count the new item. *)
Definition ccarray_push_front (x : A) (c : ccarray A) : option nat * ccarray A :=
  if a_size c <? a_capacity c then
    let m1 := mem_write 1 (mem_read 0 (a_size c) (a_items c)) (a_items c) in
    (Some 0, mk_ccarray (mem_write 0 [x] m1) (a_capacity c) (a_size c))
  else (None, c).

(** The result is [None] when [pos > size]: the length [size - pos] of the
    [memmove] underflows [size_t]. *)
Definition ccarray_insert (pos : nat) (x : A) (c : ccarray A) : option (option nat * ccarray A) :=
  if a_size c <? a_capacity c then
    if pos <=? a_size c then
      let m1 := mem_write (pos + 1) (mem_read pos (a_size c - pos) (a_items c)) (a_items c) in
      Some (Some pos, mk_ccarray (mem_write pos [x] m1) (a_capacity c) (S (a_size c)))
    else None
  else Some (None, c).

(** The popped item, then what the C function returns: the new size. *)
Definition ccarray_pop_back (c : ccarray A) : option A * option nat * ccarray A :=
  if a_size c <? 1 then (None, None, c)
  else
    let sz := a_size c - 1 in
    (a_items c !! sz, Some sz, mk_ccarray (a_items c) (a_capacity c) sz).

Definition ccarray_pop_front (c : ccarray A) : option A * option nat * ccarray A :=
  if a_size c <? 1 then (None, None, c)
  else
    let sz := a_size c - 1 in
    (a_items c !! 0, Some sz,
     mk_ccarray (mem_write 0 (mem_read 1 sz (a_items c)) (a_items c)) (a_capacity c) sz).

Definition ccarray_erase (pos : nat) (c : ccarray A) : nat * ccarray A :=
  if pos <? a_size c then
    let sz := a_size c - 1 in
    (sz, mk_ccarray (mem_write pos (mem_read (pos + 1) (sz - pos) (a_items c)) (a_items c))
           (a_capacity c) sz)
  else (a_size c, c).

Definition ccarray_clear (c : ccarray A) : ccarray A := mk_ccarray (a_items c) (a_capacity c) 0.

(** The slot at [pos]; [None] is an address past the memory. *)
Definition ccarray_peek (c : ccarray A) (pos : nat) : option A := a_items c !! pos.
Definition ccarray_peek_end (c : ccarray A) : option A := a_items c !! a_size c.

Definition ccarray_set_size (sz : nat) (c : ccarray A) : nat * ccarray A :=
  (sz, mk_ccarray (a_items c) (a_capacity c) sz).

(** [while ( pos < size && cmp(item(pos), value) != 0 ) ++pos;] with [k]
    slots left before [size]. *)
Fixpoint find_from (eq : A → bool) (m : list A) (pos k : nat) : nat :=
  match k with
  | O => pos
  | S k' => match m !! pos with
            | Some y => if eq y then pos else find_from eq m (S pos) k'
            | None => pos
            end
  end.

Definition ccarray_find (cmp : A → A → Z) (value : A) (c : ccarray A) : nat :=
  find_from (λ y, (cmp y value =? 0)%Z) (a_items c) 0 (a_size c).

(** The comparison is [memcmp] over [item_size] bytes: equality of items. *)
Definition ccarray_find_item `{EqDecision A} (value : A) (c : ccarray A) : nat :=
  find_from (λ y, bool_decide (y = value)) (a_items c) 0 (a_size c).

Definition ccarray_erase_item `{EqDecision A} (value : A) (c : ccarray A) : nat * ccarray A :=
  let pos := ccarray_find_item value c in
  (pos, if pos <? a_size c then (ccarray_erase pos c).2 else c).

(** *** Binary search *)

(** The first loop of [ccarray_lowerbound]: [len] halves at each turn, so
    [S len] turns are more than enough ([lb_search_spec]).  [f i] is
    [cmp(item(i), value)]. *)
Fixpoint lb_search (f : nat → Z) (fuel beg len : nat) : nat :=
  match fuel with
  | O => beg
  | S fuel' =>
    if len =? 0 then beg
    else
      let half := len / 2 in
      let mid := beg + half in
      let rc := f mid in
      if (rc =? 0)%Z then mid
      else if (0 <? rc)%Z then lb_search f fuel' beg half
      else lb_search f fuel' (mid + 1) (len - (half + 1))
  end.

(** [while ( beg > oldbeg && cmp(item(beg - 1), value) == 0 ) --beg;] *)
Fixpoint lb_back (f : nat → Z) (oldbeg beg : nat) : nat :=
  match beg with
  | O => O
  | S beg' => if (oldbeg <? beg) && (f beg' =? 0)%Z then lb_back f oldbeg beg' else beg
  end.

Definition lowerbound_by (f : nat → Z) (beg en : nat) : nat :=
  let len := en - beg in
  lb_back f beg (lb_search f (S len) beg len).

Definition ccarray_lowerbound `{Inhabited A} (beg en : nat) (cmp : A → A → Z) (value : A)
    (c : ccarray A) : nat :=
  lowerbound_by (λ i, cmp (a_items c !!! i) value) beg en.

(** ** Well-formed arrays and the sequences they hold *)

Record wf (c : ccarray A) : Prop := {
  wf_items : length (a_items c) = a_capacity c;
  wf_size : a_size c ≤ a_capacity c;
}.

Definition elems (c : ccarray A) : list A := take (a_size c) (a_items c).

Lemma elems_length c : wf c → length (elems c) = a_size c.
Proof. intros [??]. unfold elems. rewrite length_take. lia. Qed.

Lemma elems_split c : wf c → ∃ rest, a_items c = elems c ++ rest ∧
  length rest = a_capacity c - a_size c.
Proof.
  intros [??]. exists (drop (a_size c) (a_items c)). unfold elems.
  rewrite take_drop, length_drop. split; [done|lia].
Qed.

(** An array described by its parts. *)
Lemma wf_elems_intro l k cap :
  length l + length k = cap →
  wf (mk_ccarray (l ++ k) cap (length l)) ∧ elems (mk_ccarray (l ++ k) cap (length l)) = l.
Proof.
  intros. split; [split; simpl; rewrite ?length_app; lia|].
  unfold elems. simpl. apply take_app_length.
Qed.

(** ** The operations on well-formed arrays *)

(** A well-formed array is its elements followed by free slots. *)
Definition arr (l k : list A) : ccarray A :=
  mk_ccarray (l ++ k) (length l + length k) (length l).

Lemma arr_intro c : wf c → ∃ k, c = arr (elems c) k.
Proof.
  intros Hw. destruct (elems_split c Hw) as (k & Hi & Hk). exists k.
  pose proof (elems_length c Hw). destruct c as [m cap n], Hw; simpl in *.
  unfold arr. rewrite <-Hi. f_equal; lia.
Qed.

Lemma arr_elems l k : elems (arr l k) = l.
Proof. apply (wf_elems_intro l k). done. Qed.

Lemma arr_wf l k : wf (arr l k).
Proof. by apply (wf_elems_intro l k). Qed.

Lemma arr_eq l k m cap n :
  m = l ++ k → cap = length l + length k → n = length l → mk_ccarray m cap n = arr l k.
Proof. by intros -> -> ->. Qed.

Lemma ccarray_push_back_full x l : ccarray_push_back x (arr l []) = (None, arr l []).
Proof. unfold ccarray_push_back. simpl. bool_cases. done. Qed.

Lemma ccarray_push_back_room x y l k :
  ccarray_push_back x (arr l (y :: k)) = (Some (length l), arr (l ++ [x]) k).
Proof.
  unfold ccarray_push_back. simpl. bool_cases. f_equal. apply arr_eq.
  - rewrite (mem_write_at _ l [y] [x] k) by done. by rewrite <-app_assoc.
  - rewrite length_app. simpl. lia.
  - rewrite length_app. simpl. lia.
Qed.

Lemma ccarray_insert_room x y l1 l2 k :
  ccarray_insert (length l1) x (arr (l1 ++ l2) (y :: k)) =
  Some (Some (length l1), arr (l1 ++ x :: l2) k).
Proof.
  unfold ccarray_insert. simpl. rewrite !length_app. bool_cases. repeat f_equal.
  rewrite (mem_read_at _ _ l1 l2 (y :: k)) by (rewrite <-?app_assoc; done || lia).
  assert (∃ z, mem_write (length l1 + 1) l2 ((l1 ++ l2) ++ y :: k) = l1 ++ [z] ++ l2 ++ k)
    as [z ->].
  { destruct (l2 ++ [y]) as [|z l2'] eqn:Hz; [by destruct l2|]. exists z.
    pose proof (f_equal length Hz) as Hl. rewrite length_app in Hl. simpl in Hl.
    rewrite (mem_write_at _ (l1 ++ [z]) l2' l2 k); rewrite ?length_app, <-?app_assoc; [done| |done|lia].
    change (l2 ++ y :: k) with (l2 ++ [y] ++ k). by rewrite (app_assoc l2), Hz. }
  apply arr_eq; [|rewrite length_app; simpl; lia..].
  erewrite (mem_write_at _ l1 [z] [x]) by done. by rewrite <-app_assoc.
Qed.

Lemma ccarray_pop_back_snoc x l k :
  ccarray_pop_back (arr (l ++ [x]) k) = (Some x, Some (length l), arr l (x :: k)).
Proof.
  unfold ccarray_pop_back. simpl. rewrite !length_app. simpl. bool_cases.
  replace (length l + 1 - 1) with (length l) by lia. rewrite <-app_assoc. simpl.
  rewrite list_lookup_middle by done. repeat f_equal. apply arr_eq; simpl; done || lia.
Qed.

Lemma ccarray_erase_middle l1 x l2 k :
  ∃ z, ccarray_erase (length l1) (arr (l1 ++ x :: l2) k) = (length (l1 ++ l2), arr (l1 ++ l2) (z :: k)).
Proof.
  unfold ccarray_erase. simpl. rewrite !length_app. simpl. bool_cases.
  exists (default x (last (x :: l2))).
  replace (length l1 + S (length l2) - 1) with (length l1 + length l2) by lia.
  f_equal. apply arr_eq; [|rewrite !length_app; simpl; lia..].
  rewrite (mem_read_at _ _ (l1 ++ [x]) l2 k);
    rewrite ?length_app, <-?app_assoc; simpl; [|done || lia..].
  destruct (list_snoc_case (x :: l2)) as [?|(l' & z & Hl)]; [done|].
  rewrite (mem_write_at _ l1 l' l2 (z :: k)); [|rewrite app_comm_cons, Hl, <-app_assoc; done|done|].
  - by rewrite Hl, last_snoc.
  - apply (f_equal length) in Hl. rewrite length_app in Hl. simpl in Hl. lia.
Qed.

Lemma ccarray_pop_front_cons x l k :
  ∃ z, ccarray_pop_front (arr (x :: l) k) = (Some x, Some (length l), arr l (z :: k)).
Proof.
  destruct (ccarray_erase_middle [] x l k) as [z Hz]. exists z.
  unfold ccarray_erase, ccarray_pop_front in *. simpl in *. rewrite !Nat.sub_0_r in *.
  apply (f_equal snd) in Hz. simpl in Hz. by rewrite Hz.
Qed.

Lemma find_from_spec (eq : A → bool) m pos k :
  find_from eq (m) pos k = pos + match list_find (λ y, Is_true (eq y)) (take k (drop pos m)) with
                               | Some (i, _) => i
                               | None => length (take k (drop pos m))
                               end.
Proof.
  revert pos; induction k as [|k IH]; intros pos; simpl; [lia|].
  destruct (drop pos m) as [|y r] eqn:Hd.
  - assert (m !! pos = None) as -> by (rewrite <-(Nat.add_0_r pos), <-lookup_drop, Hd; done).
    simpl. lia.
  - assert (m !! pos = Some y) as -> by (rewrite <-(Nat.add_0_r pos), <-lookup_drop, Hd; done).
    assert (drop (S pos) m = r) as Hr by (rewrite <-Nat.add_1_r, <-drop_drop, Hd; done).
    rewrite IH, Hr. simpl. destruct (eq y) eqn:He; simpl.
    + lia.
    + destruct (list_find _ (take k r)) as [[i z]|]; simpl; lia.
Qed.

(** The first index of [x] in [l], or the length of [l]. *)
Definition index_of `{EqDecision A} (x : A) (l : list A) : nat :=
  match list_find (λ y, Is_true (bool_decide (y = x))) l with
  | Some (i, _) => i
  | None => length l
  end.

Lemma ccarray_find_item_index `{EqDecision A} x c :
  wf c → ccarray_find_item x c = index_of x (elems c).
Proof. intros _. unfold ccarray_find_item. by rewrite find_from_spec. Qed.

Lemma ccarray_erase_past c pos : a_size c ≤ pos → ccarray_erase pos c = (a_size c, c).
Proof. intros. unfold ccarray_erase. bool_cases. done. Qed.

Lemma ccarray_erase_delete pos c :
  wf c → ∃ c', ccarray_erase pos c = (length (delete pos (elems c)), c') ∧ wf c' ∧
    a_capacity c' = a_capacity c ∧ elems c' = delete pos (elems c).
Proof.
  intros Hw. destruct (arr_intro c Hw) as [k ->]. generalize (elems c). intros l. rewrite arr_elems.
  destruct (decide (pos < length l)) as [Hlt|].
  - destruct (list_split_item _ _ Hlt) as (l1 & x & l2 & -> & ->).
    destruct (ccarray_erase_middle l1 x l2 k) as [z ->].
    rewrite delete_middle. eexists; split; [done|].
    split; [apply arr_wf|]. split; [simpl; rewrite !length_app; simpl; lia|apply arr_elems].
  - rewrite ccarray_erase_past by (simpl; lia).
    rewrite list_delete_past by lia. eexists; split; [done|].
    split; [apply arr_wf|]. split; [done|apply arr_elems].
Qed.

(** ** Whole histories *)

Inductive aop :=
| PushBack (x : A) | Insert (pos : nat) (x : A) | PopBack | PopFront
| Erase (pos : nat) | EraseItem (x : A) | Clear.

(** What a call returns: a position or size, and the item it copied out. *)
Inductive aobs := OPos (pos : option nat) | OItem (x : option A) (pos : option nat).

Context `{!EqDecision A}.

Definition astep (o : aop) (c : ccarray A) : option (aobs * ccarray A) :=
  match o with
  | PushBack x => let '(p, c') := ccarray_push_back x c in Some (OPos p, c')
  | Insert pos x => '(p, c') ← ccarray_insert pos x c; Some (OPos p, c')
  | PopBack => let '(x, p, c') := ccarray_pop_back c in Some (OItem x p, c')
  | PopFront => let '(x, p, c') := ccarray_pop_front c in Some (OItem x p, c')
  | Erase pos => let '(p, c') := ccarray_erase pos c in Some (OPos (Some p), c')
  | EraseItem x => let '(p, c') := ccarray_erase_item x c in Some (OPos (Some p), c')
  | Clear => Some (OPos None, ccarray_clear c)
  end.

(** The same calls on a list bounded by [cap]. *)
Definition aspec (cap : nat) (o : aop) (l : list A) : option (aobs * list A) :=
  match o with
  | PushBack x =>
    if length l <? cap then Some (OPos (Some (length l)), l ++ [x]) else Some (OPos None, l)
  | Insert pos x =>
    if length l <? cap then
      if pos <=? length l then Some (OPos (Some pos), take pos l ++ x :: drop pos l) else None
    else Some (OPos None, l)
  | PopBack =>
    match l with
    | [] => Some (OItem None None, [])
    | _ => Some (OItem (last l) (Some (length l - 1)), take (length l - 1) l)
    end
  | PopFront =>
    match l with
    | [] => Some (OItem None None, [])
    | x :: l' => Some (OItem (Some x) (Some (length l')), l')
    end
  | Erase pos => Some (OPos (Some (length (delete pos l))), delete pos l)
  | EraseItem x => Some (OPos (Some (index_of x l)), delete (index_of x l) l)
  | Clear => Some (OPos None, [])
  end.

Fixpoint arun {S} (step : aop → S → option (aobs * S)) (os : list aop) (s : S) :
    option (list aobs * S) :=
  match os with
  | [] => Some ([], s)
  | o :: os' =>
    '(b, s1) ← step o s; '(bs, s2) ← arun step os' s1; Some (b :: bs, s2)
  end.

(** [c] holds the list [l] in a memory of [cap] slots. *)
Definition holds (cap : nat) (c : ccarray A) (l : list A) : Prop :=
  wf c ∧ a_capacity c = cap ∧ elems c = l.

Lemma holds_arr l k : holds (length l + length k) (arr l k) l.
Proof. split; [apply arr_wf|]. split; [done|apply arr_elems]. Qed.

Lemma holds_arr' cap l k : length l + length k = cap → holds cap (arr l k) l.
Proof. intros <-. apply holds_arr. Qed.

Lemma holds_inv cap c l : holds cap c l → ∃ k, c = arr l k ∧ cap = length l + length k.
Proof.
  intros (Hw & <- & <-). destruct (arr_intro c Hw) as [k Hk]. exists k. split; [done|].
  by rewrite Hk at 1.
Qed.

Definition rel_result (cap : nat) (r : option (aobs * ccarray A)) (s : option (aobs * list A)) : Prop :=
  match r, s with
  | Some (b, c), Some (b', l) => b = b' ∧ holds cap c l
  | None, None => True
  | _, _ => False
  end.

Lemma astep_insert pos x l k :
  rel_result (length l + length k) (astep (Insert pos x) (arr l k))
    (aspec (length l + length k) (Insert pos x) l).
Proof.
  simpl. destruct k as [|y k].
  - unfold ccarray_insert. simpl. bool_cases. simpl. split; [done|apply holds_arr].
  - destruct (Nat.leb_spec pos (length l)) as [Hle|Hgt]; simpl.
    + destruct (list_split_at _ _ Hle) as (l1 & l2 & -> & ->).
      rewrite take_app_length, drop_app_length, ccarray_insert_room.
      bool_cases. simpl. split; [done|]. apply holds_arr'. rewrite !length_app. simpl. lia.
    + unfold ccarray_insert. simpl. bool_cases. done.
Qed.

Lemma astep_refines cap o c l : holds cap c l → rel_result cap (astep o c) (aspec cap o l).
Proof.
  intros Hh. destruct (holds_inv _ _ _ Hh) as (k & -> & ->). destruct o.
  - simpl. destruct k as [|y k].
    + rewrite ccarray_push_back_full. simpl. bool_cases. split; [done|apply holds_arr].
    + rewrite ccarray_push_back_room. simpl. bool_cases. split; [done|].
      apply holds_arr'. rewrite length_app. simpl. lia.
  - apply astep_insert.
  - simpl. destruct (list_snoc_case l) as [->|(l' & x & ->)]; [split; [done|apply holds_arr]|].
    rewrite ccarray_pop_back_snoc. destruct (l' ++ [x]) eqn:He; [by destruct l'|]. rewrite <-He.
    simpl. rewrite last_snoc, length_app. simpl.
    replace (length l' + 1 - 1) with (length l') by lia. split; [done|].
    rewrite take_app_length. apply holds_arr'. simpl. lia.
  - simpl. destruct l as [|x l]; [split; [done|apply holds_arr]|].
    destruct (ccarray_pop_front_cons x l k) as [z ->]. split; [done|]. apply holds_arr'. simpl. lia.
  - simpl. destruct (ccarray_erase_delete pos (arr l k) (arr_wf l k)) as (c' & Hr & ? & Hc & He).
    rewrite arr_elems in *. rewrite Hr. by split.
  - simpl. unfold ccarray_erase_item. rewrite ccarray_find_item_index, arr_elems by apply arr_wf.
    split; [done|].
    destruct (ccarray_erase_delete (index_of x l) (arr l k) (arr_wf l k)) as (c' & Hr & ? & Hc & He).
    rewrite arr_elems in *. case_match; [by rewrite Hr|].
    bool_cases. rewrite list_delete_past by done. apply holds_arr.
  - split; [done|]. split; [|done]. split; simpl; [by rewrite length_app|lia].
Qed.

Lemma arun_refines cap os c l :
  holds cap c l →
  match arun astep os c, arun (aspec cap) os l with
  | Some (bs, c'), Some (bs', l') => bs = bs' ∧ holds cap c' l'
  | None, None => True
  | _, _ => False
  end.
Proof.
  revert c l; induction os as [|o os IH]; intros c l Hh; simpl; [done|].
  pose proof (astep_refines cap o c l Hh) as Hs.
  destruct (astep o c) as [[b c1]|], (aspec cap o l) as [[b' l1]|]; try done.
  destruct Hs as [<- Hh1]. specialize (IH c1 l1 Hh1). simpl.
  destruct (arun astep os c1) as [[bs c2]|], (arun (aspec cap) os l1) as [[bs' l2]|]; try done.
  simpl. destruct IH as [<- ?]. done.
Qed.

End CcArray.

(** An array that [ccarray_init] set up over a block of [n] slots behaves,
    over any sequence of push, insert, pop, erase and clear calls, exactly as a
    list of at most [n] items: every call returns what the list operation
    returns, and the array holds the same items at the end; the only undefined
    call is an insertion past the end. *)
Theorem ccarray_refines_list {A} `{!EqDecision A} (mem : list A) (c0 : ccarray A) (os : list aop) :
  (λ r, (r.1, elems r.2)) <$> arun astep os (ccarray_init (Some mem) (length mem) c0).2 =
  arun (aspec (length mem)) os [].
Proof.
  assert (holds (length mem) (ccarray_init (Some mem) (length mem) c0).2 []) as Hh
    by apply (holds_arr [] mem).
  pose proof (arun_refines (length mem) os _ _ Hh) as Hr.
  destruct (arun astep os _) as [[bs c]|], (arun (aspec _) os []) as [[bs' l]|]; try done.
  destruct Hr as (<- & _ & _ & <-). done.
Qed.

(** [ccarray_push_front] does not count the item it stores: the last one is
    lost. *)
Example ccarray_push_front_loses_last :
  let c := arr [1; 2; 3] [0] in
  elems c = [1; 2; 3] ∧ elems (ccarray_push_front 9 c).2 = [9; 1; 2].
Proof. by vm_compute. Qed.

(** ** The binary search *)

Section LowerBound.
Context (f : nat → Z) (en : nat).
(** The range is sorted with respect to the value searched for. *)
Hypothesis f_sorted : ∀ i j, i ≤ j → j < en → (0 <= f i → 0 <= f j)%Z ∧ (0 < f i → 0 < f j)%Z.

(** The first loop stops at the boundary, or inside the run of equal items. *)
Lemma lb_search_spec fuel beg len :
  len < fuel → beg + len ≤ en →
  let r := lb_search f fuel beg len in
  beg ≤ r ≤ beg + len ∧
  (∀ i, beg ≤ i < r → (f i <= 0)%Z) ∧ (∀ i, r ≤ i < beg + len → (0 <= f i)%Z).
Proof.
  revert beg len; induction fuel as [|fuel IH]; intros beg len Hf Hen; [lia|]. cbn -[Nat.div].
  destruct (Nat.eqb_spec len 0) as [->|Hne]; [split; [lia|split; intros; lia]|].
  pose proof (Nat.div_lt len 2 ltac:(lia) ltac:(lia)) as Hh. set (half := len / 2) in *.
  destruct (Z.eqb_spec (f (beg + half)) 0) as [Hz|Hz].
  { split; [lia|]. split; intros i Hi.
    - destruct (f_sorted i (beg + half)) as [_ Hp]; [lia..|]. lia.
    - destruct (f_sorted (beg + half) i) as [Hp _]; [lia..|]. lia. }
  destruct (Z.ltb_spec 0 (f (beg + half))) as [Hp|Hn].
  - destruct (IH beg half) as (Hr & Hlo & Hhi); [lia..|]. split; [lia|]. split; [done|].
    intros i Hi. destruct (Nat.lt_ge_cases i (beg + half)); [apply Hhi; lia|].
    destruct (f_sorted (beg + half) i) as [Hq _]; [lia..|]. lia.
  - destruct (IH (beg + half + 1) (len - (half + 1))) as (Hr & Hlo & Hhi); [lia..|].
    split; [lia|]. split; intros i Hi; [|apply Hhi; lia].
    destruct (Nat.lt_ge_cases i (beg + half + 1)); [|apply Hlo; lia].
    destruct (f_sorted i (beg + half)) as [_ Hq]; [lia..|]. lia.
Qed.

(** The second loop leaves the run of equal items. *)
Lemma lb_back_spec beg r :
  beg ≤ r ≤ en → (∀ i, beg ≤ i < r → (f i <= 0)%Z) →
  let r' := lb_back f beg r in
  beg ≤ r' ≤ r ∧ (∀ i, beg ≤ i < r' → (f i < 0)%Z) ∧ (∀ i, r' ≤ i < r → f i = 0%Z).
Proof.
  induction r as [|r IH]; intros Hr Hlo; cbn [lb_back]; [split; [lia|split; intros; lia]|].
  destruct (Nat.ltb_spec beg (S r)); simpl;
    [|split; [lia|split; intros; lia]].
  destruct (Z.eqb_spec (f r) 0) as [Hz|Hz].
  - destruct IH as (? & ? & Heq); [lia|intros; apply Hlo; lia|].
    split; [lia|]. split; [done|]. intros i Hi.
    destruct (decide (i = r)) as [->|]; [done|]. apply Heq. lia.
  - split; [lia|]. split; [|intros; lia]. intros i Hi.
    assert (f r < 0)%Z by (pose proof (Hlo r ltac:(lia)); lia).
    destruct (Z.lt_ge_cases (f i) 0); [done|].
    destruct (f_sorted i r) as [Hq _]; [lia..|]. lia.
Qed.

Lemma lowerbound_by_spec beg :
  beg ≤ en →
  let r := lowerbound_by f beg en in
  beg ≤ r ≤ en ∧ (∀ i, beg ≤ i < r → (f i < 0)%Z) ∧ (∀ i, r ≤ i < en → (0 <= f i)%Z).
Proof.
  intros Hb. unfold lowerbound_by.
  destruct (lb_search_spec (S (en - beg)) beg (en - beg)) as (Hr & Hlo & Hhi); [lia..|].
  destruct (lb_back_spec beg (lb_search f (S (en - beg)) beg (en - beg))) as (Hr' & Hlo' & Heq);
    [lia|done|].
  split; [lia|]. split; [done|]. intros i Hi.
  destruct (Nat.lt_ge_cases i (lb_search f (S (en - beg)) beg (en - beg))); [|apply Hhi; lia].
  rewrite Heq by lia. done.
Qed.
End LowerBound.

(** On a range of an array that is sorted for the comparison function,
    [ccarray_lowerbound] terminates and returns the first position of the range
    whose item does not compare below the value: all before compare below it,
    none from there on does. *)
Theorem ccarray_lowerbound_first `{Inhabited A} (cmp : A → A → Z) (value : A) (c : ccarray A)
    (beg en : nat)
    (Hrange : beg ≤ en ≤ a_size c)
    (Hsorted : ∀ i j x y, i ≤ j → j < en → a_items c !! i = Some x → a_items c !! j = Some y →
       (0 <= cmp x value → 0 <= cmp y value)%Z ∧ (0 < cmp x value → 0 < cmp y value)%Z)
    (Hwf : wf c) :
  let r := ccarray_lowerbound beg en cmp value c in
  beg ≤ r ≤ en ∧
  (∀ i x, beg ≤ i < r → a_items c !! i = Some x → (cmp x value < 0)%Z) ∧
  (∀ i x, r ≤ i < en → a_items c !! i = Some x → (0 <= cmp x value)%Z).
Proof.
  destruct Hwf as [Hlen Hsz]. unfold ccarray_lowerbound.
  destruct (lowerbound_by_spec (λ i, cmp (a_items c !!! i) value) en) with (beg := beg)
    as (Hr & Hlo & Hhi); [|lia|].
  - intros i j Hij Hj.
    destruct (lookup_lt_is_Some_2 (a_items c) i) as [x Hx]; [lia|].
    destruct (lookup_lt_is_Some_2 (a_items c) j) as [y Hy]; [lia|].
    rewrite (list_lookup_total_correct _ _ _ Hx), (list_lookup_total_correct _ _ _ Hy).
    by apply (Hsorted i j).
  - split; [done|].
    split; intros i x Hi Hx; rewrite <-(list_lookup_total_correct _ _ _ Hx); auto.
Qed.

Lemma ccarray_lowerbound_first_witness :
  let c := arr [1; 3; 3; 3; 7]%Z [0]%Z in
  ccarray_lowerbound 0 5 Z.sub 3%Z c = 1 ∧
  (∀ i x, 1 ≤ i < 5 → a_items c !! i = Some x → (0 <= x - 3)%Z).
Proof.
  split; [by vm_compute|]. intros i x Hi Hx.
  apply (ccarray_lowerbound_first Z.sub 3%Z (arr [1; 3; 3; 3; 7]%Z [0]%Z) 0 5) with (i := i);
    [vm_compute; lia| |apply arr_wf|vm_compute in Hi |- *; lia|done].
  intros i' j' a b Hij Hj Ha Hb.
  do 5 (destruct j' as [|j']; [
    do 5 (destruct i' as [|i']; [simplify_eq/=; lia|]); exfalso; lia |]).
  exfalso; lia.
Defined.

End CcArray.
