(* ===== verification/Hash.v ===== *)
(** The hash functions of [src/hash/]: CRC-32C ([crc32.c]), which protects the
    messages of a channel, and the string hashes [djb2.c] and [sdbm.c].  The
    table-driven CRC is proved equal to the bit-serial division by the
    polynomial of the header comment, and to detect every change confined to
    four consecutive bytes; the string hashes are proved equal to polynomials
    in [33] and [65599]. *)

From S2P Require Import Prelude.

(** The byte order of the host: [BYTE_ORDER] of [endian.h]. *)
Inductive byte_order := LITTLE_ENDIAN | BIG_ENDIAN.

(** [htobe32] and [be32toh]. *)
Definition bswap32 (x : Z) : Z := of_be (le_bytes 4 x).
Definition htobe32 (host : byte_order) (x : Z) : Z :=
  match host with LITTLE_ENDIAN => bswap32 x | BIG_ENDIAN => x end.

Module Crc32.
Open Scope Z_scope.

Definition CRC32BASE : Z := 0xffffffff.
Definition SCTP_CRC32C_POLY : Z := 0x1EDC6F41.

Definition crc_c : list Z := [
  0x00000000;  0xF26B8303;  0xE13B70F7;  0x1350F3F4;
  0xC79A971F;  0x35F1141C;  0x26A1E7E8;  0xD4CA64EB;
  0x8AD958CF;  0x78B2DBCC;  0x6BE22838;  0x9989AB3B;
  0x4D43CFD0;  0xBF284CD3;  0xAC78BF27;  0x5E133C24;
  0x105EC76F;  0xE235446C;  0xF165B798;  0x030E349B;
  0xD7C45070;  0x25AFD373;  0x36FF2087;  0xC494A384;
  0x9A879FA0;  0x68EC1CA3;  0x7BBCEF57;  0x89D76C54;
  0x5D1D08BF;  0xAF768BBC;  0xBC267848;  0x4E4DFB4B;
  0x20BD8EDE;  0xD2D60DDD;  0xC186FE29;  0x33ED7D2A;
  0xE72719C1;  0x154C9AC2;  0x061C6936;  0xF477EA35;
  0xAA64D611;  0x580F5512;  0x4B5FA6E6;  0xB93425E5;
  0x6DFE410E;  0x9F95C20D;  0x8CC531F9;  0x7EAEB2FA;
  0x30E349B1;  0xC288CAB2;  0xD1D83946;  0x23B3BA45;
  0xF779DEAE;  0x05125DAD;  0x1642AE59;  0xE4292D5A;
  0xBA3A117E;  0x4851927D;  0x5B016189;  0xA96AE28A;
  0x7DA08661;  0x8FCB0562;  0x9C9BF696;  0x6EF07595;
  0x417B1DBC;  0xB3109EBF;  0xA0406D4B;  0x522BEE48;
  0x86E18AA3;  0x748A09A0;  0x67DAFA54;  0x95B17957;
  0xCBA24573;  0x39C9C670;  0x2A993584;  0xD8F2B687;
  0x0C38D26C;  0xFE53516F;  0xED03A29B;  0x1F682198;
  0x5125DAD3;  0xA34E59D0;  0xB01EAA24;  0x42752927;
  0x96BF4DCC;  0x64D4CECF;  0x77843D3B;  0x85EFBE38;
  0xDBFC821C;  0x2997011F;  0x3AC7F2EB;  0xC8AC71E8;
  0x1C661503;  0xEE0D9600;  0xFD5D65F4;  0x0F36E6F7;
  0x61C69362;  0x93AD1061;  0x80FDE395;  0x72966096;
  0xA65C047D;  0x5437877E;  0x4767748A;  0xB50CF789;
  0xEB1FCBAD;  0x197448AE;  0x0A24BB5A;  0xF84F3859;
  0x2C855CB2;  0xDEEEDFB1;  0xCDBE2C45;  0x3FD5AF46;
  0x7198540D;  0x83F3D70E;  0x90A324FA;  0x62C8A7F9;
  0xB602C312;  0x44694011;  0x5739B3E5;  0xA55230E6;
  0xFB410CC2;  0x092A8FC1;  0x1A7A7C35;  0xE811FF36;
  0x3CDB9BDD;  0xCEB018DE;  0xDDE0EB2A;  0x2F8B6829;
  0x82F63B78;  0x709DB87B;  0x63CD4B8F;  0x91A6C88C;
  0x456CAC67;  0xB7072F64;  0xA457DC90;  0x563C5F93;
  0x082F63B7;  0xFA44E0B4;  0xE9141340;  0x1B7F9043;
  0xCFB5F4A8;  0x3DDE77AB;  0x2E8E845F;  0xDCE5075C;
  0x92A8FC17;  0x60C37F14;  0x73938CE0;  0x81F80FE3;
  0x55326B08;  0xA759E80B;  0xB4091BFF;  0x466298FC;
  0x1871A4D8;  0xEA1A27DB;  0xF94AD42F;  0x0B21572C;
  0xDFEB33C7;  0x2D80B0C4;  0x3ED04330;  0xCCBBC033;
  0xA24BB5A6;  0x502036A5;  0x4370C551;  0xB11B4652;
  0x65D122B9;  0x97BAA1BA;  0x84EA524E;  0x7681D14D;
  0x2892ED69;  0xDAF96E6A;  0xC9A99D9E;  0x3BC21E9D;
  0xEF087A76;  0x1D63F975;  0x0E330A81;  0xFC588982;
  0xB21572C9;  0x407EF1CA;  0x532E023E;  0xA145813D;
  0x758FE5D6;  0x87E466D5;  0x94B49521;  0x66DF1622;
  0x38CC2A06;  0xCAA7A905;  0xD9F75AF1;  0x2B9CD9F2;
  0xFF56BD19;  0x0D3D3E1A;  0x1E6DCDEE;  0xEC064EED;
  0xC38D26C4;  0x31E6A5C7;  0x22B65633;  0xD0DDD530;
  0x0417B1DB;  0xF67C32D8;  0xE52CC12C;  0x1747422F;
  0x49547E0B;  0xBB3FFD08;  0xA86F0EFC;  0x5A048DFF;
  0x8ECEE914;  0x7CA56A17;  0x6FF599E3;  0x9D9E1AE0;
  0xD3D3E1AB;  0x21B862A8;  0x32E8915C;  0xC083125F;
  0x144976B4;  0xE622F5B7;  0xF5720643;  0x07198540;
  0x590AB964;  0xAB613A67;  0xB831C993;  0x4A5A4A90;
  0x9E902E7B;  0x6CFBAD78;  0x7FAB5E8C;  0x8DC0DD8F;
  0xE330A81A;  0x115B2B19;  0x020BD8ED;  0xF0605BEE;
  0x24AA3F05;  0xD6C1BC06;  0xC5914FF2;  0x37FACCF1;
  0x69E9F0D5;  0x9B8273D6;  0x88D28022;  0x7AB90321;
  0xAE7367CA;  0x5C18E4C9;  0x4F48173D;  0xBD23943E;
  0xF36E6F75;  0x0105EC76;  0x12551F82;  0xE03E9C81;
  0x34F4F86A;  0xC69F7B69;  0xD5CF889D;  0x27A40B9E;
  0x79B737BA;  0x8BDCB4B9;  0x988C474D;  0x6AE7C44E;
  0xBE2DA0A5;  0x4C4623A6;  0x5F16D052;  0xAD7D5351 ].

(** [SCTP_CRC32C(c, d)] *)
Definition SCTP_CRC32C (c d : Z) : Z :=
  u32 (Z.lxor (Z.shiftr c 8) (crc_c !!! Z.to_nat (Z.land (Z.lxor c d) 0xFF))).

Definition cf_crc32_begin : Z := CRC32BASE.

Definition cf_crc32_update (crc : Z) (buffer : bytes) : Z := foldl SCTP_CRC32C crc buffer.

Definition cf_crc32_update_s (crc : Z) (buff : bytes) : option Z :=
  cf_crc32_update crc <$> c_str buff.

Definition cf_crc32_finalize (host : byte_order) (crc : Z) : Z :=
  let crc := u32 (Z.lnot crc) in
  match host with LITTLE_ENDIAN => crc | BIG_ENDIAN => htobe32 BIG_ENDIAN crc end.

Definition cf_crc32 (host : byte_order) (buf : bytes) : Z :=
  cf_crc32_finalize host (cf_crc32_update cf_crc32_begin buf).

Definition cf_crc32_s (host : byte_order) (s : bytes) : option Z :=
  cf_crc32_finalize host <$> cf_crc32_update_s cf_crc32_begin s.

(** ** The bit-serial reference *)

(** The bits of a [w]-bit word in the opposite order. *)
Fixpoint reflect (w : nat) (x : Z) : Z :=
  match w with
  | O => 0
  | S w' => Z.b2z (Z.odd x) * 2 ^ Z.of_nat w' + reflect w' (Z.div2 x)
  end.

(** One turn of the shift register: the low bit is shifted out and, when set,
    the reflected polynomial is subtracted. *)
Definition poly : Z := reflect 32 SCTP_CRC32C_POLY.

Definition crc_bit (x : Z) : Z :=
  if Z.testbit x 0 then Z.lxor (Z.shiftr x 1) poly else Z.shiftr x 1.

Definition crc_bits (n : nat) (x : Z) : Z := Nat.iter n crc_bit x.

Definition crc_serial (crc : Z) (buffer : bytes) : Z :=
  foldl (λ c b, crc_bits 8 (Z.lxor c b)) crc buffer.

Lemma poly_uint : is_uint 32 poly.
Proof. by vm_compute. Qed.

Lemma crc_bit_spec x i :
  0 <= i → Z.testbit (crc_bit x) i = xorb (Z.testbit x (i + 1)) (Z.testbit x 0 && Z.testbit poly i).
Proof.
  intros Hi. unfold crc_bit.
  destruct (Z.testbit x 0); simpl; rewrite ?Z.lxor_spec, Z.shiftr_spec by done;
    rewrite ?xorb_false_r; done.
Qed.

Lemma crc_bit_lxor x y : crc_bit (Z.lxor x y) = Z.lxor (crc_bit x) (crc_bit y).
Proof.
  apply Z.bits_inj'. intros i Hi. rewrite Z.lxor_spec, !crc_bit_spec, !Z.lxor_spec by done.
  by destruct (Z.testbit x (i + 1)), (Z.testbit y (i + 1)), (Z.testbit x 0), (Z.testbit y 0),
    (Z.testbit poly i).
Qed.

Lemma crc_bit_uint x : is_uint 32 x → is_uint 32 (crc_bit x).
Proof.
  intros Hx. unfold crc_bit. pose proof poly_uint. case_match; auto 6 with cint.
Qed.

(** The top bit of the result tells which case was taken. *)
Lemma crc_bit_inj x y : is_uint 32 x → is_uint 32 y → crc_bit x = crc_bit y → x = y.
Proof.
  intros Hx Hy He.
  assert (Z.testbit x 0 = Z.testbit y 0) as H0.
  { pose proof (f_equal (λ z, Z.testbit z 31) He) as H. cbv beta in H.
    rewrite !crc_bit_spec, (is_uint_testbit 32 x), (is_uint_testbit 32 y) in H by done.
    change (Z.testbit poly 31) with true in H. by rewrite !andb_true_r, !xorb_false_l in H. }
  apply Z.bits_inj'. intros i Hi. destruct (Z.eq_dec i 0) as [->|]; [done|].
  pose proof (f_equal (λ z, Z.testbit z (i - 1)) He) as H. cbv beta in H.
  rewrite !crc_bit_spec, H0 in H by lia. replace (i - 1 + 1) with i in H by lia.
  by apply (f_equal (λ b, xorb b (Z.testbit y 0 && Z.testbit poly (i - 1)))) in H;
    rewrite !xorb_assoc, !xorb_nilpotent, !xorb_false_r in H.
Qed.

Lemma crc_bits_lxor n x y : crc_bits n (Z.lxor x y) = Z.lxor (crc_bits n x) (crc_bits n y).
Proof. unfold crc_bits. induction n as [|n IH]; simpl; [done|]. by rewrite IH, crc_bit_lxor. Qed.

Lemma crc_bits_uint n x : is_uint 32 x → is_uint 32 (crc_bits n x).
Proof. intros. unfold crc_bits. induction n; simpl; auto using crc_bit_uint. Qed.

Lemma crc_bits_inj n x y : is_uint 32 x → is_uint 32 y → crc_bits n x = crc_bits n y → x = y.
Proof.
  intros Hx Hy. induction n as [|n IH]; [done|]. intros He. apply IH.
  by apply crc_bit_inj; [apply (crc_bits_uint n)..|].
Qed.

Lemma crc_bits_add n m x : crc_bits (n + m) x = crc_bits m (crc_bits n x).
Proof. unfold crc_bits. by rewrite Nat.add_comm, Nat.iter_add. Qed.

(** A word whose low [n] bits are clear is only shifted. *)
Lemma crc_bits_shiftl n x : crc_bits n (Z.shiftl x (Z.of_nat n)) = x.
Proof.
  revert x; induction n as [|n IH]; intros x; [apply Z.shiftl_0_r|].
  rewrite <-Nat.add_1_r, Nat.add_comm, crc_bits_add.
  enough (crc_bits 1 (Z.shiftl x (Z.of_nat (1 + n))) = Z.shiftl x (Z.of_nat n)) as -> by apply IH.
  change (crc_bits 1 ?y) with (crc_bit y). unfold crc_bit.
  rewrite Z.shiftl_spec_low by lia. apply Z.bits_inj'. intros i Hi.
  rewrite Z.shiftr_spec, !Z.shiftl_spec by lia. f_equal. lia.
Qed.

Lemma lxor_shiftl_split x : Z.lxor (Z.land x 0xFF) (Z.shiftl (Z.shiftr x 8) 8) = x.
Proof.
  apply Z.bits_inj'. intros i Hi.
  rewrite Z.lxor_spec, Z.land_spec, Z.shiftl_spec by done. change 0xFF with (Z.ones 8).
  destruct (Z.lt_ge_cases i 8).
  - rewrite Z.ones_spec_low, (Z.testbit_neg_r _ (i - 8)) by lia. by rewrite andb_true_r, xorb_false_r.
  - rewrite Z.ones_spec_high, Z.shiftr_spec, andb_false_r by lia.
    rewrite xorb_false_l. f_equal. lia.
Qed.

Lemma add_256_lxor b t : byte_ok b → b + 256 * t = Z.lxor b (Z.shiftl t 8).
Proof.
  intros Hb. change 256 with (2 ^ 8). rewrite <-(lor_shiftl_add b t 8) by done. apply Z.bits_inj'. intros i Hi.
  rewrite Z.lor_spec, Z.lxor_spec. destruct (Z.lt_ge_cases i 8).
  - rewrite Z.shiftl_spec_low by done. by destruct (Z.testbit b i).
  - rewrite (is_uint_testbit 8 b) by done. done.
Qed.

(** The table holds the eight turns of every byte. *)
Lemma crc_c_spec i : 0 <= i < 256 → crc_c !!! Z.to_nat i = crc_bits 8 i.
Proof.
  intros Hi.
  assert (forallb (λ k, crc_c !!! k =? crc_bits 8 (Z.of_nat k)) (seq 0 256) = true) as Hall
    by (vm_compute; reflexivity).
  rewrite forallb_forall in Hall. specialize (Hall (Z.to_nat i)).
  rewrite Z2Nat.id, Z.eqb_eq in Hall by lia. apply Hall, in_seq. lia.
Qed.

Lemma SCTP_CRC32C_serial c d :
  is_uint 32 c → byte_ok d → SCTP_CRC32C c d = crc_bits 8 (Z.lxor c d).
Proof.
  intros Hc Hd. unfold SCTP_CRC32C.
  rewrite crc_c_spec by (rewrite land_255; apply Z.mod_pos_bound; lia).
  rewrite <-(lxor_shiftl_split (Z.lxor c d)) at 2.
  rewrite crc_bits_lxor, (crc_bits_shiftl 8 (Z.shiftr _ 8)), Z.shiftr_lxor.
  assert (Z.shiftr d 8 = 0) as ->.
  { rewrite Z.shiftr_div_pow2 by lia. by apply Z.div_small. }
  rewrite Z.lxor_0_r, Z.lxor_comm. apply uwrap_id. apply is_uint_lxor; [lia| |].
  - apply crc_bits_uint, (is_uint_le 8); [lia|]. rewrite land_255. by apply (uwrap_range 8).
  - auto with cint.
Qed.

Lemma crc_serial_uint c bs : is_uint 32 c → bytes_ok bs → is_uint 32 (crc_serial c bs).
Proof.
  intros Hc Hbs. revert c Hc. induction Hbs as [|b bs Hb _ IH]; intros c Hc; [done|].
  apply IH, crc_bits_uint, is_uint_lxor; [lia|done|]. by apply (is_uint_le 8); [lia|].
Qed.

Lemma update_serial c bs :
  is_uint 32 c → bytes_ok bs → cf_crc32_update c bs = crc_serial c bs.
Proof.
  intros Hc Hbs. revert c Hc. induction Hbs as [|b bs Hb _ IH]; intros c Hc; [done|].
  unfold cf_crc32_update, crc_serial in *. cbn [foldl].
  rewrite SCTP_CRC32C_serial by done. apply IH, crc_bits_uint, is_uint_lxor; [lia|done|].
  by apply (is_uint_le 8); [lia|].
Qed.

(** A buffer is divided as one number. *)
Lemma crc_serial_word c bs :
  bytes_ok bs → crc_serial c bs = crc_bits (8 * length bs) (Z.lxor c (of_le bs)).
Proof.
  intros Hbs. revert c. induction Hbs as [|b bs Hb _ IH]; intros c.
  { simpl. by rewrite Z.lxor_0_r. }
  change (crc_serial c (b :: bs)) with (crc_serial (crc_bits 8 (Z.lxor c b)) bs).
  rewrite IH. simpl length. replace (8 * S (length bs))%nat with (8 + 8 * length bs)%nat by lia.
  rewrite crc_bits_add. f_equal. simpl of_le.
  by rewrite add_256_lxor, <-Z.lxor_assoc, (crc_bits_lxor 8 (Z.lxor c b)),
    (crc_bits_shiftl 8 (of_le bs) : crc_bits 8 (Z.shiftl (of_le bs) 8) = of_le bs).
Qed.

Lemma crc_serial_inj c c' bs :
  is_uint 32 c → is_uint 32 c' → bytes_ok bs → crc_serial c bs = crc_serial c' bs → c = c'.
Proof.
  intros Hc Hc' Hbs. revert c c' Hc Hc'.
  induction Hbs as [|b bs Hb _ IH]; intros c c' Hc Hc' He; [done|].
  assert (is_uint 32 b) by (by apply (is_uint_le 8); [lia|]).
  apply IH in He; [|apply crc_bits_uint, is_uint_lxor; lia || done..].
  apply crc_bits_inj in He; [|apply is_uint_lxor; lia || done..].
  apply (f_equal (λ z, Z.lxor z b)) in He.
  by rewrite !Z.lxor_assoc, !Z.lxor_nilpotent, !Z.lxor_0_r in He.
Qed.

Lemma finalize_inj host c c' :
  is_uint 32 c → is_uint 32 c' → cf_crc32_finalize host c = cf_crc32_finalize host c' → c = c'.
Proof.
  unfold cf_crc32_finalize, is_uint, uwrap, Z.lnot. intros Hc Hc' He.
  assert (Z.pred (- c) mod 2 ^ 32 = Z.pred (- c') mod 2 ^ 32) as He' by (by destruct host).
  assert (∀ x, 0 <= x < 2 ^ 32 → Z.pred (- x) mod 2 ^ 32 = 2 ^ 32 - 1 - x) as Hm.
  { intros x Hx. symmetry. apply (Z.mod_unique_pos _ _ (-1)); lia. }
  rewrite !Hm in He' by done. lia.
Qed.

Lemma le_bytes_inj bs bs' :
  bytes_ok bs → bytes_ok bs' → length bs = length bs' → of_le bs = of_le bs' → bs = bs'.
Proof.
  intros H H' Hl He. rewrite <-(le_bytes_of_le bs), <-(le_bytes_of_le bs') by done. by rewrite Hl, He.
Qed.

(** C33: the table-driven [cf_crc32_update] computes, from any register value and
    over any bytes, the CRC of the header comment: the bit-serial division by
    the reflected Castagnoli polynomial [0x1EDC6F41], eight turns per byte. *)
Theorem cf_crc32_update_is_crc32c (crc : Z) (buffer : bytes)
    (Hcrc : is_uint 32 crc) (Hbuf : bytes_ok buffer) :
  cf_crc32_update crc buffer = crc_serial crc buffer ∧ is_uint 32 (cf_crc32_update crc buffer).
Proof. rewrite update_serial by done. split; [done|]. by apply crc_serial_uint. Qed.

Lemma cf_crc32_update_is_crc32c_witness :
  cf_crc32_update cf_crc32_begin [0x31; 0x32; 0x33] = crc_serial CRC32BASE [0x31; 0x32; 0x33].
Proof. apply (cf_crc32_update_is_crc32c CRC32BASE); by_compute. Defined.

(** The check value of CRC-32C over the digits 1 to 9. *)
Example crc32c_check_value :
  cf_crc32 LITTLE_ENDIAN [0x31; 0x32; 0x33; 0x34; 0x35; 0x36; 0x37; 0x38; 0x39] = 0xE3069283.
Proof. by vm_compute. Qed.

(** The checksum of a message changes whenever at most four consecutive
    bytes of it are changed, whatever surrounds them. *)
Lemma cf_crc32_detects_burst (host : byte_order) (pre burst burst' post : bytes)
    (Hpre : bytes_ok pre) (Hb : bytes_ok burst) (Hb' : bytes_ok burst') (Hpost : bytes_ok post)
    (Hlen : length burst' = length burst) (Hfour : (length burst <= 4)%nat) (Hne : burst ≠ burst') :
  cf_crc32 host (pre ++ burst ++ post) ≠ cf_crc32 host (pre ++ burst' ++ post).
Proof.
  intros He. apply Hne, (le_bytes_inj burst burst' Hb Hb' (eq_sym Hlen)).
  assert (is_uint 32 cf_crc32_begin) as H0 by (by vm_compute).
  assert (∀ b, bytes_ok b → (length b <= 4)%nat → is_uint 32 (of_le b)) as Hu.
  { intros b Hok Hl. eapply is_uint_le; [|by apply of_le_range]. lia. }
  unfold cf_crc32 in He. rewrite !update_serial in He by (done || by repeat apply Forall_app_2).
  apply finalize_inj in He; [|apply crc_serial_uint; [done|by repeat apply Forall_app_2]..].
  unfold crc_serial in He. rewrite !foldl_app in He. fold (crc_serial cf_crc32_begin pre) in He.
  set (c := crc_serial cf_crc32_begin pre) in *.
  assert (is_uint 32 c) by (by apply crc_serial_uint).
  apply crc_serial_inj in He; [|by apply crc_serial_uint..|done].
  fold (crc_serial c burst) (crc_serial c burst') in He.
  rewrite !crc_serial_word, Hlen in He by done.
  apply crc_bits_inj in He; [|apply is_uint_lxor; [lia|done|apply Hu; done || lia]..].
  apply (f_equal (Z.lxor c)) in He. by rewrite <-!Z.lxor_assoc, Z.lxor_nilpotent in He.
Qed.

End Crc32.

(** ** String hashes *)

(** Both hashes are Horner evaluations modulo [2^32]. *)
Section Horner.
Open Scope Z_scope.

(** [h] times [k ^ length bs] plus the bytes as the digits of a number in base [k]. *)
Fixpoint horner (k h : Z) (bs : bytes) : Z :=
  match bs with
  | [] => h
  | b :: bs' => horner k (k * h + b) bs'
  end.

Lemma horner_poly k h bs :
  horner k h bs = h * k ^ Z.of_nat (length bs) + horner k 0 bs.
Proof.
  revert h; induction bs as [|b bs IH]; intros h; cbn [horner length].
  { change (k ^ Z.of_nat 0) with 1. lia. }
  rewrite (IH (k * h + b)), (IH (k * 0 + b)), Nat2Z.inj_succ, Z.pow_succ_r by lia. ring.
Qed.

Lemma horner_wrap (step : Z → Z → Z) k h bs :
  (∀ h b, step h b = u32 (k * h + b)) → is_uint 32 h →
  foldl step h bs = u32 (horner k h bs).
Proof.
  intros Hstep Hh. rewrite <-(uwrap_id 32 h Hh) at 1. clear Hh. revert h.
  induction bs as [|b bs IH]; intros h; [done|].
  cbn [foldl horner]. rewrite <-IH. f_equal. rewrite Hstep. unfold uwrap.
  rewrite (Z.add_mod (k * _)), Z.mul_mod_idemp_r, <-Z.add_mod by done. done.
Qed.
End Horner.

Module Djb2.
Open Scope Z_scope.

Definition cf_djb2_begin : Z := 5381.

(** [h = ((h << 5) + h) + (uint8_t) *s++], in [uint32_t] arithmetic. *)
Definition djb2_step (h c : Z) : Z := u32 (u32 (u32 (Z.shiftl h 5) + h) + c).

Definition cf_djb2_update (h : Z) (p : bytes) : Z := foldl djb2_step h p.

(** [None]: the string is not terminated. *)
Fixpoint cf_djb2_update_s (h : Z) (s : bytes) : option Z :=
  match s with
  | [] => None
  | c :: s' => if c =? 0 then Some h else cf_djb2_update_s (djb2_step h c) s'
  end.

Definition cf_djb2_finalize (host : byte_order) (h : Z) : Z := htobe32 host h.

Definition cf_djb2 (host : byte_order) (p : bytes) : Z :=
  cf_djb2_finalize host (cf_djb2_update cf_djb2_begin p).
Definition cf_djb2_s (host : byte_order) (s : bytes) : option Z :=
  cf_djb2_finalize host <$> cf_djb2_update_s cf_djb2_begin s.

Lemma djb2_step_horner h c : djb2_step h c = u32 (33 * h + c).
Proof.
  unfold djb2_step. rewrite uwrap_add, Z.shiftl_mul_pow2, <-Z.add_assoc, uwrap_add by lia.
  f_equal. lia.
Qed.

Lemma djb2_update_s_c_str h s : cf_djb2_update_s h s = cf_djb2_update h <$> c_str s.
Proof.
  revert h; induction s as [|c s IH]; intros h; simpl; [done|].
  destruct (c =? 0); [done|]. rewrite IH. by destruct (c_str s).
Qed.

End Djb2.

Module Sdbm.
Open Scope Z_scope.

Definition cf_sdbm_begin : Z := 0.

(** [h = *s++ + (h << 6) + (h << 16) - h], in [uint32_t] arithmetic. *)
Definition sdbm_step (h c : Z) : Z :=
  u32 (u32 (u32 (c + u32 (Z.shiftl h 6)) + u32 (Z.shiftl h 16)) - h).

Definition cf_sdbm_update (h : Z) (p : bytes) : Z := foldl sdbm_step h p.

Fixpoint cf_sdbm_update_s (h : Z) (s : bytes) : option Z :=
  match s with
  | [] => None
  | c :: s' => if c =? 0 then Some h else cf_sdbm_update_s (sdbm_step h c) s'
  end.

Definition cf_sdbm_finalize (host : byte_order) (h : Z) : Z := htobe32 host h.

Definition cf_sdbm (host : byte_order) (p : bytes) : Z :=
  cf_sdbm_finalize host (cf_sdbm_update cf_sdbm_begin p).
Definition cf_sdbm_s (host : byte_order) (s : bytes) : option Z :=
  cf_sdbm_finalize host <$> cf_sdbm_update_s cf_sdbm_begin s.

Lemma sdbm_step_horner h c : sdbm_step h c = u32 (65599 * h + c).
Proof.
  unfold sdbm_step. rewrite !Z.shiftl_mul_pow2 by lia.
  rewrite (uwrap_add_r 32 c), uwrap_add, uwrap_add_r. unfold Z.sub. rewrite uwrap_add. f_equal. lia.
Qed.

Lemma sdbm_update_s_c_str h s : cf_sdbm_update_s h s = cf_sdbm_update h <$> c_str s.
Proof.
  revert h; induction s as [|c s IH]; intros h; simpl; [done|].
  destruct (c =? 0); [done|]. rewrite IH. by destruct (c_str s).
Qed.

End Sdbm.

(** The two string hashes are polynomial hashes modulo [2^32]: the bytes are
    the digits of a number in base [33] (with [5381] in front) for djb2, and in
    base [65599] for sdbm; the string variants hash the bytes before the
    terminator. *)
Theorem string_hashes_are_polynomials (s : bytes) :
  Djb2.cf_djb2_update Djb2.cf_djb2_begin s =
    u32 (5381 * 33 ^ Z.of_nat (length s) + horner 33 0 s)%Z ∧
  Sdbm.cf_sdbm_update Sdbm.cf_sdbm_begin s = u32 (horner 65599 0 s) ∧
  (∀ host, Djb2.cf_djb2_s host s = Djb2.cf_djb2 host <$> c_str s) ∧
  (∀ host, Sdbm.cf_sdbm_s host s = Sdbm.cf_sdbm host <$> c_str s).
Proof.
  split; [|split; [|split]].
  - rewrite <-horner_poly. by apply horner_wrap; [apply Djb2.djb2_step_horner|].
  - by apply horner_wrap; [apply Sdbm.sdbm_step_horner|].
  - intros host. unfold Djb2.cf_djb2_s. rewrite Djb2.djb2_update_s_c_str. by destruct (c_str s).
  - intros host. unfold Sdbm.cf_sdbm_s. rewrite Sdbm.sdbm_update_s_c_str. by destruct (c_str s).
Qed.
