(* ===== verification/HexBits.v ===== *)
(** The hexadecimal text of [src/hexbits.c]: bytes to digits and back.  Reading
    back what [cf_bits2hex] wrote gives the bytes, up to the room of the
    receiving buffer; a digit without its pair or any other character makes
    the read fail. *)

From S2P Require Import Prelude.

Open Scope Z_scope.

(** [isspace] of [<ctype.h>] in the C locale. *)
Definition isspace (c : byte) : bool := (c =? 32) || ((9 <=? c) && (c <=? 13)).

(** [int ctoh(char c)] *)
Definition ctoh (c : byte) : Z :=
  if (48 <=? c) && (c <=? 57) then c - 48
  else if (65 <=? c) && (c <=? 70) then c - 65 + 10
  else if (97 <=? c) && (c <=? 102) then c - 97 + 10
  else -1.

(** [static const char hex[] = "0123456789ABCDEF"] *)
Definition hex_digits : bytes :=
  [48; 49; 50; 51; 52; 53; 54; 55; 56; 57; 65; 66; 67; 68; 69; 70].

(** The digits stored before the terminator. *)
Fixpoint cf_bits2hex (bits : bytes) : bytes :=
  match bits with
  | [] => []
  | b :: bits' =>
    hex_digits !!! Z.to_nat (Z.land (Z.shiftr b 4) 0x0F) ::
    hex_digits !!! Z.to_nat (Z.land b 0x0F) :: cf_bits2hex bits'
  end.

(** The [for] loop of [cf_hex2bits]: [hex] is the text before the terminator
    (past it the code reads the 0), [c1] and [c2] the digits read last; the
    result is what [i], [c1] and [c2] hold after the loop and the bytes it
    stored. *)
Fixpoint hex_loop (hex : bytes) (i cbbitsmax : nat) (c1 c2 : Z) : nat * Z * Z * bytes :=
  match hex with
  | [] => (i, c1, c2, [])
  | h :: hex1 =>
    if isspace h then (i, c1, c2, [])
    else if (i <? cbbitsmax)%nat then
      let c1 := ctoh h in
      if 0 <=? c1 then
        match hex1 with
        | [] => (i, c1, ctoh 0, [])
        | l :: hex2 =>
          let c2 := ctoh l in
          if 0 <=? c2 then
            let '(i', c1', c2', bits) := hex_loop hex2 (S i) cbbitsmax c1 c2 in
            (i', c1', c2', u8 (Z.lor (Z.shiftl c1 4) c2) :: bits)
          else (i, c1, c2, [])
        end
      else (i, c1, c2, [])
    else (i, c1, c2, [])
  end.

Fixpoint skip_spaces (hex : bytes) : bytes :=
  match hex with
  | h :: hex' => if isspace h then skip_spaces hex' else hex
  | [] => []
  end.

(** The returned count and the bytes stored to [bits]. *)
Definition cf_hex2bits (hex : bytes) (cbbitsmax : nat) : nat * bytes :=
  let '(i, c1, c2, bits) := hex_loop (skip_spaces hex) 0 cbbitsmax (-1) (-1) in
  (if (0 <=? c1) && (0 <=? c2) then i else 0%nat, bits).

(** ** Digits *)

Lemma ctoh_digit d : 0 <= d < 16 →
  ctoh (hex_digits !!! Z.to_nat d) = d ∧ isspace (hex_digits !!! Z.to_nat d) = false.
Proof.
  intros Hd.
  assert (forallb (λ k, (ctoh (hex_digits !!! k) =? Z.of_nat k) && negb (isspace (hex_digits !!! k)))
            (seq 0 16) = true) as Hall by (vm_compute; reflexivity).
  rewrite forallb_forall in Hall. specialize (Hall (Z.to_nat d) ltac:(apply in_seq; lia)).
  rewrite andb_true_iff, Z.eqb_eq, negb_true_iff, Z2Nat.id in Hall by lia. done.
Qed.

Lemma nibbles b : byte_ok b →
  let h := Z.land (Z.shiftr b 4) 0x0F in let l := Z.land b 0x0F in
  0 <= h < 16 ∧ 0 <= l < 16 ∧ u8 (Z.lor (Z.shiftl h 4) l) = b.
Proof.
  intros Hb. change 0x0F with (Z.ones 4). cbv zeta. rewrite !Z.land_ones by lia.
  assert (is_uint 4 (Z.shiftr b 4 mod 2 ^ 4)) by (apply uwrap_range; lia).
  assert (is_uint 4 (b mod 2 ^ 4)) as Hl by (apply uwrap_range; lia).
  split; [done|]. split; [done|].
  rewrite Z.lor_comm, (lor_shiftl_add _ _ 4 ltac:(lia) Hl).
  rewrite Z.shiftr_div_pow2 by lia. rewrite (Z.mod_small (b / 2 ^ 4)).
  - rewrite uwrap_id; [|replace (_ + _) with b by (rewrite (Z.div_mod b (2 ^ 4)) at 1; lia); done].
    rewrite (Z.div_mod b (2 ^ 4)) at 3; lia.
  - destruct Hb. split; [apply Z.div_pos; lia|]. apply Z.div_lt_upper_bound; lia.
Qed.

Lemma ctoh_range c : -1 <= ctoh c < 16.
Proof. unfold ctoh. repeat case_match; rewrite ?andb_true_iff in *; lia. Qed.

Lemma ctoh_not_space c : 0 <= ctoh c → isspace c = false.
Proof.
  unfold ctoh, isspace. intros Hc.
  destruct (Z.eqb_spec c 32) as [->|]; [by vm_compute in Hc|]. simpl.
  apply andb_false_iff. rewrite Z.leb_gt, Z.leb_gt.
  repeat case_match; rewrite ?andb_true_iff in *; lia.
Qed.

(** [encodes s bs]: [s] is a digit pair, upper or lower case, per byte of [bs]. *)
Inductive encodes : bytes → bytes → Prop :=
| encodes_nil : encodes [] []
| encodes_cons h l s bs :
    0 <= ctoh h → 0 <= ctoh l → encodes s bs →
    encodes (h :: l :: s) (16 * ctoh h + ctoh l :: bs).

Lemma encodes_bits2hex bs : bytes_ok bs → encodes (cf_bits2hex bs) bs.
Proof.
  induction 1 as [|b bs Hb _ IH]; simpl; [constructor|].
  destruct (nibbles b Hb) as (Hh & Hl & Heq).
  destruct (ctoh_digit _ Hh) as [Eh _], (ctoh_digit _ Hl) as [El _].
  pose proof (encodes_cons _ _ _ _ ltac:(rewrite Eh; lia) ltac:(rewrite El; lia) IH) as He.
  rewrite Eh, El in He. rewrite Z.lor_comm, (lor_shiftl_add _ _ 4), uwrap_id in Heq by
    (unfold is_uint; lia).
  replace (16 * _ + _) with b in He by lia. done.
Qed.

Lemma pair_value h l :
  0 <= ctoh h → 0 <= ctoh l → u8 (Z.lor (Z.shiftl (ctoh h) 4) (ctoh l)) = 16 * ctoh h + ctoh l.
Proof.
  intros. pose proof (ctoh_range h). pose proof (ctoh_range l).
  rewrite Z.lor_comm, (lor_shiftl_add _ _ 4), uwrap_id by (unfold is_uint; lia). lia.
Qed.

(** The digits in hand after the pairs of [bs]: those before, or valid ones. *)
Definition digits_after (bs : bytes) (c1 c2 c1' c2' : Z) : Prop :=
  match bs with [] => c1' = c1 ∧ c2' = c2 | _ => 0 <= c1' ∧ 0 <= c2' end.

(** Past the pairs it has room for, the loop goes on with the rest. *)
Lemma hex_loop_pairs s bs : encodes s bs → ∀ rest i n c1 c2,
  (i + length bs <= n)%nat →
  ∃ c1' c2', digits_after bs c1 c2 c1' c2' ∧
    hex_loop (s ++ rest) i n c1 c2 =
    (let '(j, d1, d2, bits) := hex_loop rest (i + length bs) n c1' c2' in (j, d1, d2, bs ++ bits)).
Proof.
  induction 1 as [|h l s bs Hh Hl _ IH]; intros rest i n c1 c2 Hn.
  { exists c1, c2. split; [done|]. rewrite Nat.add_0_r. simpl.
    by destruct (hex_loop rest i n c1 c2) as [[[??]?]?]. }
  simpl in Hn. destruct (IH rest (S i) n (ctoh h) (ctoh l)) as (c1' & c2' & Hd & Heq); [lia|].
  exists c1', c2'. split.
  { destruct bs; simpl in *; [destruct Hd as [-> ->]; done|done]. }
  cbn [app hex_loop]. rewrite ctoh_not_space by done. bool_cases. rewrite Heq, pair_value by done.
  simpl. rewrite Nat.add_succ_r. by destruct (hex_loop rest _ n c1' c2') as [[[??]?]?].
Qed.

(** The loop reads no further. *)
Lemma hex_loop_stop rest n i c1 c2 :
  rest = [] ∨ (∃ h r, rest = h :: r ∧ isspace h = true) ∨ (n <= i)%nat →
  hex_loop rest i n c1 c2 = (i, c1, c2, []).
Proof.
  intros [->|[(h & r & -> & Hs)|Hn]]; [done|by simpl; rewrite Hs|].
  destruct rest as [|h r]; [done|]. simpl. destruct (isspace h); [done|]. by bool_cases.
Qed.

Lemma skip_spaces_app ws s :
  Forall (λ c, isspace c = true) ws → (∀ h r, s = h :: r → isspace h = false) →
  skip_spaces (ws ++ s) = s.
Proof.
  intros Hws Hs. induction Hws as [|c ws Hc _ IH]; simpl; [|by rewrite Hc].
  destruct s as [|h r]; [done|]. simpl. by rewrite (Hs h r).
Qed.

Lemma encodes_head s bs h r : encodes s bs → s = h :: r → isspace h = false.
Proof. destruct 1; [done|]. intros [= <- <-]. by apply ctoh_not_space. Qed.

Lemma encodes_split s bs n : encodes s bs →
  ∃ s1 s2, s = s1 ++ s2 ∧ encodes s1 (take n bs) ∧ encodes s2 (drop n bs).
Proof.
  intros He. revert n. induction He as [|h l s bs Hh Hl He IH]; intros n.
  - exists [], []. rewrite take_nil, drop_nil. split; [done|]. split; constructor.
  - destruct n as [|n]; [exists [], (h :: l :: s); split; [done|split; constructor; done]|].
    destruct (IH n) as (s1 & s2 & -> & H1 & H2).
    exists (h :: l :: s1), s2. split; [done|]. split; [by constructor|done].
Qed.

Lemma hex2bits_room ws s bs rest n :
  Forall (λ c, isspace c = true) ws → encodes s bs → (length bs <= n)%nat →
  (∀ h r, s ++ rest = h :: r → isspace h = false) →
  rest = [] ∨ (∃ h r, rest = h :: r ∧ isspace h = true) ∨ (n <= length bs)%nat →
  cf_hex2bits (ws ++ s ++ rest) n = (length bs, bs).
Proof.
  intros Hws He Hn Hhead Hstop. unfold cf_hex2bits. rewrite skip_spaces_app by done.
  destruct (hex_loop_pairs s bs He rest 0 n (-1) (-1) Hn) as (c1 & c2 & Hd & ->).
  rewrite hex_loop_stop, app_nil_r by done.
  destruct bs; simpl in *; [by destruct Hd as [-> ->]|]. destruct Hd. by bool_cases.
Qed.

(** Reading hexadecimal text, upper or lower case, after any white space,
    gives the bytes it encodes, cut to the room of the buffer, when the text
    ends there, is followed by white space, or fills the buffer; what
    [cf_bits2hex] writes is such a text, so the two are inverse. *)
Theorem cf_hex2bits_reads_text (ws s bs rest : bytes) (cbbitsmax : nat)
    (Hws : Forall (λ c, isspace c = true) ws)
    (Htext : s = cf_bits2hex bs ∧ bytes_ok bs ∨ encodes s bs)
    (Hend : rest = [] ∨ bs ≠ [] ∧ (∃ h r, rest = h :: r ∧ isspace h = true)) :
  cf_hex2bits (ws ++ s ++ rest) cbbitsmax = (length bs `min` cbbitsmax, take cbbitsmax bs)%nat.
Proof.
  assert (encodes s bs) as He by (destruct Htext as [[-> ?]|]; auto using encodes_bits2hex).
  assert (∀ h r, s ++ rest = h :: r → isspace h = false) as Hhead.
  { intros h r Heq. destruct He as [|h' l' s' bs' ???].
    - by destruct Hend as [->|[]].
    - injection Heq as <- <-. by apply ctoh_not_space. }
  destruct (decide (length bs <= cbbitsmax)%nat).
  - rewrite Nat.min_l, take_ge by done. apply hex2bits_room; try done. naive_solver.
  - destruct (encodes_split s bs cbbitsmax He) as (s1 & s2 & -> & H1 & H2).
    rewrite <-app_assoc in *. rewrite (hex2bits_room ws s1 (take cbbitsmax bs)); try done;
      rewrite ?length_take; [f_equal; lia|lia|right; right; lia].
Qed.

Lemma cf_hex2bits_reads_text_witness :
  cf_hex2bits ([32; 9] ++ cf_bits2hex [0xDE; 0xAD; 0x01] ++ [10]) 8 = (3%nat, [0xDE; 0xAD; 0x01]).
Proof.
  apply (cf_hex2bits_reads_text [32; 9] _ [0xDE; 0xAD; 0x01] [10] 8).
  - repeat constructor.
  - left. split; [done|]. by_compute.
  - right. split; [done|]. by exists 10, [].
Defined.

(** A character that is no digit, or a digit without its pair, where the
    buffer still has room makes [cf_hex2bits] return 0, whatever came before;
    the bytes before it have been stored all the same. *)
Theorem cf_hex2bits_rejects (ws s bs : bytes) (h : byte) (r : bytes) (cbbitsmax : nat)
    (Hws : Forall (λ c, isspace c = true) ws) (Htext : encodes s bs)
    (Hroom : (length bs < cbbitsmax)%nat) (Hh : isspace h = false)
    (Hbad : ctoh h = -1 ∨ ctoh (hd 0 r) = -1) :
  cf_hex2bits (ws ++ s ++ h :: r) cbbitsmax = (0%nat, bs).
Proof.
  unfold cf_hex2bits. rewrite skip_spaces_app; [|done|].
  2: { intros h' r' Heq. destruct Htext; [by injection Heq as <- <-|].
       injection Heq as <- <-. by apply ctoh_not_space. }
  destruct (hex_loop_pairs s bs Htext (h :: r) 0 cbbitsmax (-1) (-1)) as (c1 & c2 & _ & ->); [lia|].
  cbn [hex_loop]. rewrite Hh.
  destruct (Nat.ltb_spec (0 + length bs) cbbitsmax); [|lia].
  destruct (Z.leb_spec 0 (ctoh h)) as [Hp|Hn].
  - destruct Hbad as [|Hr]; [lia|]. destruct r as [|l r]; simpl in Hr; cbn.
    + rewrite app_nil_r. by bool_cases.
    + rewrite Hr. simpl. rewrite app_nil_r. by bool_cases.
  - rewrite app_nil_r. by bool_cases.
Qed.

Lemma cf_hex2bits_rejects_witness :
  cf_hex2bits ([] ++ [0x41; 0x62] ++ 0x33 :: [0x67]) 8 = (0%nat, [0xAB]).
Proof.
  apply (cf_hex2bits_rejects [] [0x41; 0x62] [0xAB] 0x33 [0x67] 8); try by_compute.
  apply (encodes_cons 0x41 0x62 [] []); by_compute || constructor.
Defined.
