(* ===== verification/Scanf.v ===== *)
(** What the sources use of [sscanf] (the GNU C library): white space, literal
    characters, [%<n>[set]] and the unsigned conversions, over the characters of a
    string before its terminator. *)

From S2P Require Import Prelude HexBits.

Open Scope Z_scope.

(** The text before the first 0, which is what a string function sees. *)
Fixpoint cut_nul (s : bytes) : bytes :=
  match s with c :: s => if c =? 0 then [] else c :: cut_nul s | [] => [] end.

(** The longest prefix of characters of the set, of at most [n], and the rest. *)
Fixpoint span (n : nat) (p : byte → bool) (s : bytes) : bytes * bytes :=
  match n, s with
  | S n, c :: s1 => if p c then let '(a, b) := span n p s1 in (c :: a, b) else ([], s)
  | _, _ => ([], s)
  end.

(** [%<n>[set]] *)
Definition scan_set (n : nat) (p : byte → bool) (s : bytes) : option (bytes * bytes) :=
  match span n p s with ([], _) => None | x => Some x end.

Definition scan_char (c : byte) (s : bytes) : option bytes :=
  match s with h :: s => if h =? c then Some s else None | [] => None end.

Definition isdigit (c : byte) : bool := (48 <=? c) && (c <=? 57).
Definition digits_value (ds : bytes) : Z := fold_left (λ a d, a * 10 + (d - 48)) ds 0.
Definition ULONG_MAX : Z := 2 ^ 64 - 1.

(** [%hhu] ([w] = 8) and [%hu] ([w] = 16): white space, a sign, digits, converted
    by [strtoul] and cut to [w] bits. *)
Definition scan_uint (w : Z) (s : bytes) : option (Z * bytes) :=
  let s := skip_spaces s in
  let '(neg, s) := match s with
    | c :: s1 => if c =? 45 then (true, s1) else if c =? 43 then (false, s1) else (false, s)
    | [] => (false, s)
    end in
  let '(ds, rest) := span (length s) isdigit s in
  match ds with
  | [] => None
  | _ =>
    let v := digits_value ds in
    Some (uwrap w (if ULONG_MAX <? v then ULONG_MAX else if neg : bool then u64 (- v) else v), rest)
  end.

(** ** Laws *)

Definition stops (p : byte → bool) (s : bytes) : Prop := ∀ c r, s = c :: r → p c = false.

Lemma span_all n p a : Forall (λ c, p c = true) a → (length a ≤ n)%nat → ∀ rest,
  stops p rest ∨ length a = n → span n p (a ++ rest) = (a, rest).
Proof.
  intros Ha. revert n. induction Ha as [|c a Hc Ha IH]; intros [|n] Hn rest Hr; cbn in *; try lia; [done| |].
  - destruct Hr as [Hr|]; [|done]. destruct rest as [|c r]; [done|]. by rewrite (Hr c r).
  - rewrite Hc, (IH n ltac:(lia) rest); [done|]. destruct Hr; [by left|right; lia].
Qed.

Lemma scan_set_all n p a rest :
  a ≠ [] → Forall (λ c, p c = true) a → (length a ≤ n)%nat → stops p rest ∨ length a = n →
  scan_set n p (a ++ rest) = Some (a, rest).
Proof. intros Ha Hp Hn Hr. unfold scan_set. rewrite span_all by done. by destruct a. Qed.

(** At most [n] characters are taken. *)
Lemma scan_set_fits n p s a rest : scan_set n p s = Some (a, rest) → (length a ≤ n)%nat ∧ s = a ++ rest.
Proof.
  unfold scan_set. assert (∀ n s, (length (span n p s).1 ≤ n)%nat ∧ s = (span n p s).1 ++ (span n p s).2) as Hs.
  { clear. induction n as [|n IH]; intros [|c s]; cbn; try (split; [lia|done]).
    destruct (p c); cbn; [|split; [lia|done]]. specialize (IH s).
    destruct (span n p s) as [x y]; cbn in *. destruct IH as [? ->]. split; [lia|done]. }
  specialize (Hs n s). destruct (span n p s) as [[|c x] y]; [done|]. intros [= <- <-]. done.
Qed.

(** *** Decimal text *)

(** The decimal text of [n], as [printf] writes it; [fuel] is its length at most. *)
Fixpoint dec_digits (fuel : nat) (n : Z) : bytes :=
  match fuel with
  | O => []
  | S fuel => if n <? 10 then [48 + n] else dec_digits fuel (n / 10) ++ [48 + n mod 10]
  end.
Definition dec (n : Z) : bytes := dec_digits 20 n.

Lemma dec_digits_spec fuel : ∀ n, 0 <= n < 10 ^ Z.of_nat fuel →
  digits_value (dec_digits fuel n) = n ∧ Forall (λ c, isdigit c = true) (dec_digits fuel n).
Proof.
  induction fuel as [|fuel IH]; intros n Hn; [cbn in *; split; [lia|constructor]|].
  cbn [dec_digits]. destruct (Z.ltb_spec n 10) as [Hlt|Hge].
  { unfold digits_value. cbn [fold_left]. split; [lia|]. repeat constructor.
    unfold isdigit. apply andb_true_intro; split; apply Z.leb_le; lia. }
  pose proof (Z.mod_pos_bound n 10 ltac:(lia)). pose proof (Z.div_mod n 10 ltac:(lia)).
  destruct (IH (n / 10)) as [Hv Hd].
  { split; [apply Z.div_pos; lia|]. apply Z.div_lt_upper_bound; [lia|].
    rewrite Nat2Z.inj_succ, Z.pow_succ_r in Hn by lia. lia. }
  split.
  - unfold digits_value in *. rewrite fold_left_app, Hv. cbn [fold_left]. lia.
  - apply Forall_app. split; [done|]. repeat constructor.
    unfold isdigit. apply andb_true_intro; split; apply Z.leb_le; lia.
Qed.

Lemma dec_digits_nonempty fuel n : (0 < fuel)%nat → dec_digits fuel n ≠ [].
Proof. destruct fuel; [lia|]. cbn. destruct (n <? 10); [done|]. by intros _ [_ ?]%app_eq_nil. Qed.

Lemma dec_head n c r : 0 <= n < 2 ^ 16 → dec n = c :: r → isdigit c = true.
Proof.
  intros Hn Heq. destruct (dec_digits_spec 20 n) as [_ Hd]; [cbn in *; lia|].
  change (dec_digits 20 n) with (dec n) in Hd. rewrite Heq in Hd. by apply Forall_cons in Hd as [Hd _].
Qed.

(** A conversion reads back what was written in decimal, modulo its width. *)
Lemma scan_uint_dec w n rest :
  0 <= n < 2 ^ 16 → stops isdigit rest → scan_uint w (dec n ++ rest) = Some (uwrap w n, rest).
Proof.
  intros Hn Hr. destruct (dec_digits_spec 20 n) as [Hv Hd]; [cbn in *; lia|].
  pose proof (dec_head n) as Hh. change (dec_digits 20 n) with (dec n) in *.
  destruct (dec n) as [|c r] eqn:Hdec; [by apply (dec_digits_nonempty 20 n) in Hdec; [|lia]|].
  specialize (Hh c r Hn eq_refl). unfold isdigit in Hh. apply andb_true_iff in Hh as [H1%Z.leb_le H2%Z.leb_le].
  unfold scan_uint. cbn [app skip_spaces].
  assert (isspace c = false) as ->.
  { unfold isspace. apply orb_false_iff. split; [apply Z.eqb_neq; lia|]. apply andb_false_iff. right.
    apply Z.leb_gt. lia. }
  rewrite (proj2 (Z.eqb_neq c 45)), (proj2 (Z.eqb_neq c 43)) by lia.
  change (c :: r ++ rest) with ((c :: r) ++ rest).
  rewrite span_all; [|done|rewrite length_app; lia|by left]. rewrite Hv.
  rewrite (proj2 (Z.ltb_ge _ _)) by (unfold ULONG_MAX; lia). done.
Qed.
