(* ===== verification/Opts.v ===== *)
(** Configuration files ([src/opts.c]): a line is a key, [=] and a value, with
    blanks around them and a comment from [#] on.  [config_file_read] states how
    every file of lines is read; the examples after it show where that is not what
    is meant. *)

From S2P Require Import Prelude HexBits Scanf.

Open Scope Z_scope.

(** ** One line *)

Definition in_range (a b : Z) (c : byte) : bool := (a <=? c) && (c <=? b).
(** [[A-Za-z1-9_:-.]]: [:-.] is no range, as its bounds are in descending order. *)
Definition in_key (c : byte) : bool :=
  in_range 65 90 c || in_range 97 122 c || in_range 49 57 c || (c =? 95) || (c =? 58) || (c =? 45) || (c =? 46).
(** [[^#\n]] *)
Definition in_value (c : byte) : bool := negb (c =? 35) && negb (c =? 10).

(** The [sscanf] of a line: [None] if it converts nothing.  The value that is not
    converted is the empty string it was initialised with. *)
Definition scan_option (line : bytes) : option (bytes * bytes) :=
  '(key, s) ← scan_set 255 in_key (skip_spaces (cut_nul line));
  match scan_char 61 (skip_spaces s) with
  | None => Some (key, [])
  | Some s =>
    match scan_set 255 in_value (skip_spaces s) with
    | None => Some (key, [])
    | Some (value, _) => Some (key, value)
    end
  end.

(** [char keyname[128]] *)
Definition KEY_SIZE : nat := 128.
Definition ENOMSG : errno := EOTHER 42.

Section Options.
(** The callback, and the state it works on. *)
Context {S : Type} (parseopt : bytes → bytes → S → bool * S).
Implicit Types st : S.

(** The result, the [errno] before the callback, the state; [None]: a key that
    does not fit in [keyname] is written past it. *)
Definition cf_parse_option (line : bytes) st : option (bool * errno * S) :=
  match scan_option line with
  | None => Some (false, ENOMSG, st)
  | Some (key, value) =>
    if (KEY_SIZE <=? length key)%nat then None
    else if bool_decide (head key = Some 35) then Some (false, ENOMSG, st)
    else let '(ok, st) := parseopt key value st in Some (ok, EOTHER 0, st)
  end.

(** ** A file *)

(** [fgets] with room for [n] characters: up to the end of a line. *)
Fixpoint fgets (n : nat) (file : bytes) : bytes * bytes :=
  match n, file with
  | Datatypes.S n, c :: file =>
    if c =? 10 then ([c], file) else let '(a, b) := fgets n file in (c :: a, b)
  | _, _ => ([], file)
  end.

(** The [while] loop; a turn reads something, so the length of the file is enough
    fuel. *)
Fixpoint read_lines (fuel : nat) (file : bytes) (fok : bool) st : option (bool * S) :=
  match fuel, file with
  | Datatypes.S fuel, _ :: _ =>
    let '(line, file) := fgets 1023 file in
    match scan_option line with
    | None => read_lines fuel file fok st
    | Some (key, value) =>
      if (KEY_SIZE <=? length key)%nat then None
      else if bool_decide (head key = Some 35) then read_lines fuel file fok st
      else
        let '(fok, st) := parseopt key value st in
        if (fok : bool) then read_lines fuel file fok st else Some (false, st)
    end
  | _, _ => Some (fok, st)
  end.

(** [None] for the file: it cannot be opened. *)
Definition cf_read_config_file (file : option bytes) st : option (bool * S) :=
  match file with
  | None => Some (false, st)
  | Some file => read_lines (length file) file true st
  end.

(** ** What a file is meant to say *)

(** The options in order, up to the first that is refused; [None]: a key that does
    not fit in [keyname] comes before that. *)
Fixpoint parse_all (opts : list (bytes * bytes)) st : option (bool * S) :=
  match opts with
  | [] => Some (true, st)
  | (key, value) :: opts =>
    if (KEY_SIZE <=? length key)%nat then None
    else
      let '(ok, st) := parseopt key value st in
      if (ok : bool) then parse_all opts st else Some (false, st)
  end.

Definition spaces (s : bytes) : Prop := Forall (λ c, isspace c = true) s.
Definition not_space (s : bytes) : Prop := stops isspace s.
(** What may follow an option: nothing, or a comment. *)
Definition comment (s : bytes) : Prop := s = [] ∨ ∃ r, s = 35 :: r.

(** A line and what it says: an option with its value, of which 255 characters are
    taken; a key that is followed by something else than [=], which is an option
    without a value; or nothing. *)
Inductive config_line : option (bytes * bytes) → bytes → Prop :=
| line_option lead key pre post value tail :
    spaces lead → key ≠ [] → Forall (λ c, in_key c = true) key → (length key ≤ 255)%nat →
    spaces pre → spaces post →
    Forall (λ c, in_value c = true) value → not_space value → (length value ≤ 255)%nat →
    comment tail ∨ length value = 255%nat →
    config_line (Some (key, value)) (lead ++ key ++ pre ++ [61] ++ post ++ value ++ tail)
| line_bare lead key pre rest :
    spaces lead → key ≠ [] → Forall (λ c, in_key c = true) key → (length key ≤ 255)%nat →
    stops in_key (pre ++ rest) ∨ length key = 255%nat →
    spaces pre → not_space rest → head rest ≠ Some 61 →
    config_line (Some (key, [])) (lead ++ key ++ pre ++ rest)
| line_other lead rest :
    spaces lead → not_space rest → stops in_key rest → config_line None (lead ++ rest).

(** A line of a file, before its end. *)
Definition plain (s : bytes) : Prop := Forall (λ c, c ≠ 0 ∧ c ≠ 10) s ∧ (length s < 1023)%nat.

Lemma cut_nul_id s : Forall (λ c, c ≠ 0) s → cut_nul s = s.
Proof.
  induction 1 as [|c s Hc _ IH]; [done|]. cbn. by rewrite (proj2 (Z.eqb_neq c 0)), IH.
Qed.

Lemma key_not_space c : in_key c = true → isspace c = false.
Proof. unfold in_key, in_range, isspace. intros Hc. bool_cases; lia. Qed.

Lemma fgets_line n s file :
  Forall (λ c, c ≠ 10) s → (length s < n)%nat → fgets n (s ++ 10 :: file) = (s ++ [10], file).
Proof.
  intros Hs. revert n. induction Hs as [|c s Hc Hs IH]; intros [|n] Hn; cbn in *; try lia; [done|].
  rewrite (proj2 (Z.eqb_neq c 10)) by done. by rewrite IH by lia.
Qed.

Lemma skip_spaces_stop ws s : spaces ws → not_space s → skip_spaces (ws ++ s) = s.
Proof. intros. by apply skip_spaces_app. Qed.
Lemma skip_spaces_all ws : spaces ws → skip_spaces ws = [].
Proof. intros Hw. rewrite <-(app_nil_r ws). by apply skip_spaces_stop. Qed.

Lemma not_space_app a b : a ≠ [] → not_space a → not_space (a ++ b).
Proof. destruct a as [|c a]; [done|]. intros _ Ha c' r [= <- <-]. by apply (Ha c a). Qed.
Lemma not_space_key key : Forall (λ c, in_key c = true) key → not_space key.
Proof. intros Hk c r ->. apply Forall_cons in Hk as [Hk _]. by apply key_not_space. Qed.
Lemma space_not_key c : isspace c = true → in_key c = false.
Proof. intros Hc. destruct (in_key c) eqn:Hk; [|done]. apply key_not_space in Hk. congruence. Qed.

Lemma stops_key pre rest : spaces pre → stops in_key (pre ++ 61 :: rest).
Proof.
  destruct pre as [|c pre]; intros Hp c' r [= <- <-]; [done|].
  apply Forall_cons in Hp as [Hc _]. by apply space_not_key.
Qed.

(** A value, possibly empty, after its blanks. *)
Lemma scan_value post value tail :
  spaces post → Forall (λ c, in_value c = true) value → not_space value → (length value ≤ 255)%nat →
  comment tail ∨ length value = 255%nat →
  match scan_set 255 in_value (skip_spaces (post ++ value ++ tail ++ [10])) with
  | Some (v, _) => v = value
  | None => value = []
  end.
Proof.
  intros Hp Hv Hn Hl Ht. destruct value as [|c value].
  - cbn [app]. destruct Ht as [[->|[r ->]]|]; [| |done].
    + rewrite skip_spaces_all; [done|]. apply Forall_app. by split; [|repeat constructor].
    + by rewrite skip_spaces_stop by (done || by intros ? ? [= <- <-]).
  - rewrite skip_spaces_stop; [|done|by apply not_space_app].
    rewrite scan_set_all; [done..|]. destruct Ht as [Ht|]; [left|by right].
    destruct Ht as [->|[r ->]]; by intros ? ? [= <- <-].
Qed.

Lemma stops_line p (s : bytes) : stops p s → p 10 = false → stops p (s ++ [10]).
Proof. intros Hs Hp c r. destruct s as [|c' s]; cbn; intros [= <- <-]; [done|]. by apply (Hs c' s). Qed.

(** After its blanks, a text that does not start with [=]. *)
Lemma scan_no_value pre rest :
  spaces pre → not_space rest → head rest ≠ Some 61 → scan_char 61 (skip_spaces (pre ++ rest ++ [10])) = None.
Proof.
  intros Hp Hn Hh. destruct rest as [|c rest].
  - rewrite skip_spaces_all; [done|]. apply Forall_app. by split; [|repeat constructor].
  - rewrite skip_spaces_stop by (done || by apply not_space_app). cbn.
    destruct (Z.eqb_spec c 61) as [->|]; [by destruct Hh|done].
Qed.

(** A line says what it is meant to. *)
Lemma scan_config_line o s : config_line o s → plain s → scan_option (s ++ [10]) = o.
Proof.
  intros Hs [Hp _]. unfold scan_option. rewrite cut_nul_id.
  2: { apply Forall_app. split; [|by repeat constructor]. eapply Forall_impl; [exact Hp|]. by intros ? []. }
  destruct Hs as [lead key pre post value tail Hle Hk Hkey Hlen Hpre Hpost Hv Hn Hl Ht|
    lead key pre rest Hle Hk Hkey Hlen Hst Hpre Hn Hh|lead rest Hle Hn Hst].
  - rewrite <-!(assoc_L (++)). rewrite skip_spaces_stop; [|done|by apply not_space_app, not_space_key].
    rewrite scan_set_all; [|done|done|lia|left; by apply stops_key].
    cbn [mbind option_bind]. rewrite skip_spaces_stop; [|done|by intros ? ? [= <- <-]].
    pose proof (scan_value post value tail Hpost Hv Hn Hl Ht) as Hval. cbn [app scan_char].
    rewrite Z.eqb_refl. destruct (scan_set 255 in_value _) as [[v rest]|]; by subst.
  - rewrite <-!(assoc_L (++)). rewrite skip_spaces_stop; [|done|by apply not_space_app, not_space_key].
    rewrite scan_set_all; [|done|done|lia|].
    2: { destruct Hst as [Hst|]; [left|by right]. rewrite (assoc_L (++)). by apply stops_line. }
    cbn [mbind option_bind]. by rewrite scan_no_value.
  - rewrite <-(assoc_L (++)). destruct rest as [|c rest].
    + rewrite skip_spaces_all; [done|]. apply Forall_app. by split; [|repeat constructor].
    + rewrite skip_spaces_stop by (done || by apply not_space_app). unfold scan_set. cbn.
      by rewrite (Hst c rest).
Qed.

(** Every line says something. *)
Lemma split_spaces (s : bytes) : ∃ ws r, s = ws ++ r ∧ spaces ws ∧ not_space r.
Proof.
  induction s as [|c s (ws & r & -> & Hw & Hr)]; [exists [], []; by repeat constructor|].
  destruct (isspace c) eqn:Hc.
  - exists (c :: ws), r. split_and!; [done|by constructor|done].
  - exists [], (c :: ws ++ r). split_and!; [done|constructor|by intros ? ? [= <- <-]].
Qed.

Lemma span_splits n p (s : bytes) : ∃ a b, s = a ++ b ∧ Forall (λ c, p c = true) a ∧ (length a ≤ n)%nat ∧
  (stops p b ∨ length a = n).
Proof.
  revert s. induction n as [|n IH]; intros s; [exists [], s; split_and!; [done|done|done|by right]|].
  destruct s as [|c s]; [exists [], []; split_and!; [done|done|cbn; lia|by left]|].
  destruct (p c) eqn:Hc.
  - destruct (IH s) as (a & b & -> & Ha & Hl & Hb). exists (c :: a), b.
    split_and!; [done|by constructor|cbn; lia|]. destruct Hb; [by left|right; cbn; lia].
  - exists [], (c :: s). split_and!; [done|done|cbn; lia|]. left. by intros ? ? [= <- <-].
Qed.

Lemma config_line_total s : plain s → ∃ o, config_line o s.
Proof.
  intros [Hp _]. destruct (split_spaces s) as (lead & r & -> & Hle & Hr).
  destruct (span_splits 255 in_key r) as (key & r2 & -> & Hkey & Hkl & Hks).
  destruct key as [|k key].
  { exists None. apply line_other; [done|done|]. by destruct Hks. }
  destruct (split_spaces r2) as (pre & r3 & -> & Hpre & Hr3).
  destruct r3 as [|c r4]; [eexists; by apply line_bare|].
  destruct (Z.eqb_spec c 61) as [->|Hc]; [|eexists; apply line_bare; try done; by intros [= ->]].
  destruct (split_spaces r4) as (post & r5 & -> & Hpost & Hr5).
  destruct (span_splits 255 in_value r5) as (value & tail & -> & Hv & Hvl & Hvs).
  eexists. apply (line_option lead (k :: key) pre post value tail); try done.
  - intros c r ->. by apply (Hr5 c (r ++ tail)).
  - destruct Hvs as [Hvs|]; [left|by right]. destruct tail as [|c tail]; [by left|right].
    specialize (Hvs c tail eq_refl). rewrite !Forall_app, !Forall_cons in Hp.
    unfold in_value in Hvs. exists tail. destruct (Z.eqb_spec c 35) as [->|]; [done|].
    destruct (Z.eqb_spec c 10); [|done]. exfalso. rewrite !Forall_app, Forall_cons in Hp. naive_solver.
Qed.

Lemma config_key_head key value s : config_line (Some (key, value)) s → bool_decide (head key = Some 35) = false.
Proof.
  intros Hs. apply bool_decide_eq_false. intros Hh.
  assert (Forall (λ c, in_key c = true) key) as Hkey by (by inversion Hs).
  destruct key as [|c key]; [done|]. injection Hh as ->. by apply Forall_cons in Hkey as [Hc _].
Qed.

Definition file_text (ls : list bytes) : bytes := concat ((λ s, s ++ [10]) <$> ls).

Lemma read_lines_text os ls :
  Forall2 config_line os ls → Forall plain ls → ∀ fuel st, (length (file_text ls) ≤ fuel)%nat →
  read_lines fuel (file_text ls) true st = parse_all (omap id os) st.
Proof.
  induction 1 as [|o s os ls Hs Hls IH]; intros Hp fuel st Hf; [by destruct fuel|].
  apply Forall_cons in Hp as [Hs1 Hp]. unfold file_text in *. cbn [fmap list_fmap concat] in *.
  rewrite <-(assoc_L (++)) in *. rewrite !length_app in Hf. cbn [length app] in *.
  destruct fuel as [|fuel]; [lia|]. cbn [read_lines].
  destruct (s ++ 10 :: concat ((λ s, s ++ [10]) <$> ls)) as [|c0 f0] eqn:Hcons; [by destruct s|]. rewrite <-Hcons.
  rewrite fgets_line; [|eapply Forall_impl; [apply Hs1|]; by intros ? []|apply Hs1].
  rewrite (scan_config_line _ _ Hs Hs1). destruct o as [[key value]|]; cbn [omap list_omap id parse_all].
  - rewrite (config_key_head _ _ _ Hs). destruct (KEY_SIZE <=? length key)%nat; [done|].
    destruct (parseopt key value st) as [[] st']; [|done].
    apply IH; [done|lia].
  - apply IH; [done|lia].
Qed.

(** C17: every line without NUL of less than 1023 characters says something: an
    option with a value of up to 255 characters, a key without one where no [=]
    follows the key (the digit 0 is not a character of keys, so that it ends the
    key), or nothing.  A configuration file of such lines is read accordingly: the
    callback gets the keys and the values of its lines in order, up to the first
    that it refuses, which is what is returned, if the keys up to there have less
    than 128 characters; a longer one is written past its buffer. *)
Theorem config_file_read ls (Hplain : Forall plain ls) :
  (∃ os, Forall2 config_line os ls) ∧
  ∀ os st, Forall2 config_line os ls →
    cf_read_config_file (Some (file_text ls)) st = parse_all (omap id os) st.
Proof.
  split.
  - induction Hplain as [|s ls Hs _ [os IH]]; [by exists []|].
    destruct (config_line_total s Hs) as [o Ho]. exists (o :: os). by constructor.
  - intros os st Hlines. by apply read_lines_text.
Qed.

End Options.

(** ** Where the file is *)

(** The text after [snprintf] to a buffer of [PATH_MAX - 1]. *)
Definition fits_path (s : bytes) : bytes := take 4094 s.

(** [home]: the home directory of the user, if it is not root and has one.
    [access]: what exists. *)
Definition config_candidates (home : option bytes) (service_name : bytes) : list bytes :=
  let within dir := fits_path (dir ++ [47] ++ service_name ++ [47] ++ service_name) in
  [fits_path ([46; 47] ++ service_name)] ++                                    (* ./ *)
  match home with
  | Some dir => [within (dir ++ [47; 46; 99; 111; 110; 102; 105; 103])]        (* /.config *)
  | None => []
  end ++
  [within [47; 118; 97; 114; 47; 108; 105; 98];                                (* /var/lib *)
   within [47; 117; 115; 114; 47; 108; 111; 99; 97; 108; 47; 101; 116; 99];    (* /usr/local/etc *)
   within [47; 101; 116; 99]].                                                 (* /etc *)

Definition cf_find_config_file (home : option bytes) (service_name : bytes) (access : bytes → bool) : option bytes :=
  head (filter (λ s, access s = true) (config_candidates home service_name)).

(** ** Concrete lines *)

(** The callback keeps what it is given. *)
Definition keep (key value : bytes) (st : list (bytes * bytes)) : bool * list (bytes * bytes) :=
  (true, st ++ [(key, value)]).

(** [" ab = c d#x"] and ["# note"]. *)
Definition lines0 : list bytes := [[32; 97; 98; 32; 61; 32; 99; 32; 100; 35; 120]; [35; 32; 110]].

Lemma config_file_read_witness :
  (∃ os, Forall2 config_line os lines0) ∧
  cf_read_config_file keep (Some (file_text lines0)) [] = Some (true, [([97; 98], [99; 32; 100])]).
Proof.
  assert (Forall plain lines0) as Hp by by_decide. split.
  - apply (config_file_read keep lines0 Hp).
  - apply (proj2 (config_file_read keep lines0 Hp) [Some ([97; 98], [99; 32; 100]); None] []).
    constructor; [|constructor; [|constructor]].
    + apply (line_option [32] [97; 98] [32] [32] [99; 32; 100] [35; 120]);
        try (by repeat constructor); try (by_decide); try by intros ? ? [= <- <-].
      left. right. by eexists.
    + apply (line_other [] [35; 32; 110]); [constructor|by intros ? ? [= <- <-]..].
Defined.

(** A key with the digit 0 is cut there and has no value: ["a0 = 1"]. *)
Example zero_cuts_the_key :
  cf_read_config_file keep (Some [97; 48; 32; 61; 32; 49; 10]) [] = Some (true, [([97], [])]).
Proof. by vm_compute. Qed.

(** A key of 128 to 255 characters is written past [keyname]. *)
Example long_key_overflows : cf_parse_option keep (replicate 128 97) [] = None.
Proof. by vm_compute. Qed.

(** The end of a line that is too long for the buffer is read as a line:
    ["a = "], 1019 blanks, ["b = 1"]. *)
Example long_line_is_two :
  cf_read_config_file keep (Some ([97; 32; 61; 32] ++ replicate 1019 32 ++ [98; 32; 61; 32; 49; 10])) [] =
    Some (true, [([97], []); ([98], [49])]).
Proof. by vm_compute. Qed.
