(* ===== verification/PbStream.v ===== *)
(** The protobuf wire format of [src/nanopb/]: the output and input streams and
    the primitive encoders and decoders that [src/pb/cuttle-pb.c] is built on
    (varints, zigzag integers, fixed-width integers, tags, length-delimited
    strings, substreams, skipping).  [emits] and [parses] say what an encoder
    writes and what a decoder reads; each primitive decoder is proved to read
    back what the encoder wrote, and to be safe on any input ([safe]). *)

From S2P Require Import Prelude.

Open Scope Z_scope.

(** ** Output streams *)

(** [struct pb_ostream_s].  [o_state = None]: the [callback] is [NULL] and the
    stream only counts; [Some w]: the callback is [buf_write] and [w] are the
    bytes from the start of the buffer to the [state] pointer. *)
Record ostream := mk_ostream {
  o_state : option bytes;
  o_max_size : Z;
  o_bytes_written : Z;
  o_errmsg : option string;
}.

(** An encoder: [None] is undefined behaviour (a read of memory that is not
    there), else what it returns and the stream after it. *)
Definition enc := ostream → option (bool * ostream).

(** [PB_SET_ERROR]: the first message stays. *)
Definition o_set_error (msg : string) (s : ostream) : ostream :=
  mk_ostream (o_state s) (o_max_size s) (o_bytes_written s)
    (match o_errmsg s with Some e => Some e | None => Some msg end).

(** [e1 && e2] *)
Definition oand (e1 e2 : enc) : enc := λ s,
  '(ok, s1) ← e1 s; if (ok : bool) then e2 s1 else Some (false, s1).

Definition PB_OSTREAM_SIZING : ostream := mk_ostream None 0 0 None.

Definition pb_ostream_from_buffer (bufsize : Z) : ostream := mk_ostream (Some []) bufsize 0 None.

(** The first [count] bytes at [buf] are stored; [buf = None] is [NULL]. *)
Definition buf_write (buf : option bytes) (count : Z) : enc := λ s,
  let src := default [] buf in
  if zlen src <? count then None
  else Some (true, mk_ostream ((λ w, w ++ take (Z.to_nat count) src) <$> o_state s)
                     (o_max_size s) (o_bytes_written s) (o_errmsg s)).

Definition o_count (count : Z) (s : ostream) : ostream :=
  mk_ostream (o_state s) (o_max_size s) (u64 (o_bytes_written s + count)) (o_errmsg s).

Definition pb_write (buf : option bytes) (count : Z) : enc := λ s,
  match o_state s with
  | Some _ =>
    if o_max_size s <? u64 (o_bytes_written s + count)
    then Some (false, o_set_error "stream full" s)
    else '(ok, s1) ← buf_write buf count s;
         if (ok : bool) then Some (true, o_count count s1)
         else Some (false, o_set_error "io error" s1)
  | None => Some (true, o_count count s)
  end.

(** [pb_write] of a local buffer. *)
Definition pb_write_bytes (b : bytes) : enc := pb_write (Some b) (zlen b).

(** [while (value) { ... value >>= 7; i++; }]: a 64-bit value leaves the loop
    after at most ten turns ([varint_loop_fuel]). *)
Fixpoint varint_loop (fuel : nat) (value : Z) : bytes :=
  match fuel with
  | O => []
  | S fuel' =>
    if value =? 0 then []
    else u8 (Z.lor (Z.land value 0x7F) 0x80) :: varint_loop fuel' (Z.shiftr value 7)
  end.

(** The bytes [pb_encode_varint] passes to [pb_write]. *)
Definition varint_buffer (value : Z) : bytes :=
  if value <=? 0x7F then [u8 value]
  else
    let buffer := varint_loop 10 value in
    let i := length buffer in
    alter (λ b, Z.land b 0x7F) (i - 1)%nat buffer.

Definition pb_encode_varint (value : Z) : enc := pb_write_bytes (varint_buffer value).

(** [value] is an [int64_t]. *)
Definition zigzag (value : Z) : Z :=
  if value <? 0 then u64 (Z.lnot (u64 (Z.shiftl (u64 value) 1)))
  else u64 (Z.shiftl (u64 value) 1).

Definition pb_encode_svarint (value : Z) : enc := pb_encode_varint (zigzag value).

(** [bytes[k] = (pb_byte_t)((val >> 8*k) & 0xFF)] *)
Definition fixed_byte (val : Z) (k : nat) : byte := u8 (Z.land (Z.shiftr val (8 * Z.of_nat k)) 0xFF).

Definition pb_encode_fixed32 (val : Z) : enc := pb_write_bytes (fixed_byte val <$> seq 0 4).

Definition pb_encode_fixed64 (val : Z) : enc := pb_write_bytes (fixed_byte val <$> seq 0 8).

(** [pb_wire_type_t] *)
Definition PB_WT_VARINT : Z := 0.
Definition PB_WT_64BIT : Z := 1.
Definition PB_WT_STRING : Z := 2.
Definition PB_WT_32BIT : Z := 5.

Definition pb_encode_tag (wiretype field_number : Z) : enc :=
  pb_encode_varint (Z.lor (u64 (Z.shiftl field_number 3)) wiretype).

Definition pb_encode_string (buffer : option bytes) (size : Z) : enc :=
  oand (pb_encode_varint size) (pb_write buffer size).

(** ** Input streams *)

(** [struct pb_istream_s] over a buffer: [i_state] is the memory from the
    [state] pointer to the end of the buffer. *)
Record istream := mk_istream {
  i_state : bytes;
  i_bytes_left : Z;
  i_errmsg : option string;
}.

(** A decoder: [None] is undefined behaviour, [Some (None, s)] a return of
    [false], [Some (Some a, s)] a return of [true] with [a] stored. *)
Definition dec (A : Type) := istream → option (option A * istream).

Definition i_set_error (msg : string) (s : istream) : istream :=
  mk_istream (i_state s) (i_bytes_left s)
    (match i_errmsg s with Some e => Some e | None => Some msg end).

Definition dret {A} (a : A) : dec A := λ s, Some (Some a, s).
Definition dfail {A} (msg : string) : dec A := λ s, Some (None, i_set_error msg s).
Definition dfalse {A} : dec A := λ s, Some (None, s).
Definition dbind {A B} (d : dec A) (f : A → dec B) : dec B := λ s,
  '(r, s1) ← d s; match r with Some a => f a s1 | None => Some (None, s1) end.

Notation "'let!' x ':=' d 'in' e" := (dbind d (λ x, e))
  (at level 200, x pattern, d at level 100, e at level 200, right associativity).

Definition pb_istream_from_buffer (buf : bytes) (bufsize : Z) : istream := mk_istream buf bufsize None.

Definition buf_read (count : Z) : dec bytes := λ s,
  if zlen (i_state s) <? count then None
  else Some (Some (take (Z.to_nat count) (i_state s)),
             mk_istream (drop (Z.to_nat count) (i_state s)) (i_bytes_left s) (i_errmsg s)).

Definition i_count (count : Z) (s : istream) : istream :=
  mk_istream (i_state s) (i_bytes_left s - count) (i_errmsg s).

(** The bytes are those stored at [buf], or passed over when [buf] is [NULL]. *)
Definition pb_read (count : Z) : dec bytes := λ s,
  if i_bytes_left s <? count then Some (None, i_set_error "end-of-stream" s)
  else '(r, s1) ← buf_read count s;
       match r with
       | Some b => Some (Some b, i_count count s1)
       | None => Some (None, i_set_error "io error" s1)
       end.

Definition pb_readbyte : dec byte := λ s,
  if i_bytes_left s =? 0 then Some (None, i_set_error "end-of-stream" s)
  else '(r, s1) ← buf_read 1 s;
       match r with
       | Some b => Some (Some (hd 0 b), i_count 1 s1)
       | None => Some (None, i_set_error "io error" s1)
       end.

(** The [do ... while (byte & 0x80)] loop of [pb_decode_varint32] ([w = 32]) and
    [pb_decode_varint] ([w = 64]); [bitpos] is a [uint_fast8_t].  The overflow
    test ends it: 5 and 11 turns are enough ([safe_varint_dec_loop]). *)
Fixpoint varint_dec_loop (w : Z) (fuel : nat) (bitpos result : Z) : dec Z :=
  match fuel with
  | O => λ _, None
  | S fuel' =>
    if w <=? bitpos then dfail "varint overflow"
    else
      let! byte := pb_readbyte in
      let result := Z.lor result (uwrap w (Z.shiftl (Z.land byte 0x7F) bitpos)) in
      if Z.land byte 0x80 =? 0 then dret result
      else varint_dec_loop w fuel' (u8 (bitpos + 7)) result
  end.

Definition pb_decode_varint32 : dec Z :=
  let! byte := pb_readbyte in
  if Z.land byte 0x80 =? 0 then dret byte
  else varint_dec_loop 32 5 7 (Z.land byte 0x7F).

Definition pb_decode_varint : dec Z := varint_dec_loop 64 11 0 0.

(** The loop consumes a byte at each turn. *)
Fixpoint skip_varint_loop (fuel : nat) : dec () :=
  match fuel with
  | O => λ _, None
  | S fuel' =>
    let! b := pb_read 1 in
    if Z.land (hd 0 b) 0x80 =? 0 then dret () else skip_varint_loop fuel'
  end.

Definition pb_skip_varint : dec () := λ s, skip_varint_loop (S (length (i_state s))) s.

Definition pb_skip_string : dec () :=
  let! length := pb_decode_varint32 in let! _ := pb_read length in dret ().

(** The wire type and the tag, and the [eof] flag. *)
Definition pb_decode_tag (s : istream) : option (option (Z * Z) * bool * istream) :=
  '(r, s1) ← pb_decode_varint32 s;
  match r with
  | None => Some (None, i_bytes_left s1 =? 0, s1)
  | Some temp =>
    if temp =? 0 then Some (None, true, s1)
    else Some (Some (Z.land temp 7, Z.shiftr temp 3), false, s1)
  end.

Definition pb_skip_field (wire_type : Z) : dec () :=
  if wire_type =? PB_WT_VARINT then pb_skip_varint
  else if wire_type =? PB_WT_64BIT then let! _ := pb_read 8 in dret ()
  else if wire_type =? PB_WT_STRING then pb_skip_string
  else if wire_type =? PB_WT_32BIT then let! _ := pb_read 4 in dret ()
  else dfail "invalid wire_type".

(** The substream, cut out of the bytes left of the parent. *)
Definition pb_make_string_substream : dec istream :=
  let! size := pb_decode_varint32 in λ s,
  if i_bytes_left s <? size then Some (None, i_set_error "parent stream too short" s)
  else Some (Some (mk_istream (i_state s) size (i_errmsg s)), i_count size s).

Definition pb_close_string_substream (stream substream : istream) : istream :=
  mk_istream (i_state substream) (i_bytes_left stream) (i_errmsg substream).

(** The [int64_t] of a zigzag code. *)
Definition unzigzag (value : Z) : Z :=
  if Z.odd value then i64 (Z.lnot (Z.shiftr value 1)) else i64 (Z.shiftr value 1).

Definition pb_decode_svarint : dec Z := let! value := pb_decode_varint in dret (unzigzag value).

Fixpoint or_bytes (shift : Z) (bs : bytes) : Z :=
  match bs with
  | [] => 0
  | b :: bs' => Z.lor (Z.shiftl b shift) (or_bytes (shift + 8) bs')
  end.

Definition pb_decode_fixed32 : dec Z := let! b := pb_read 4 in dret (or_bytes 0 b).
Definition pb_decode_fixed64 : dec Z := let! b := pb_read 8 in dret (or_bytes 0 b).

(** ** What an encoder writes *)

(** A stream no error was reported on. *)
Definition owf (s : ostream) : Prop :=
  (0 <= o_bytes_written s < 2 ^ 64 ∧ o_errmsg s = None) ∧
  (is_Some (o_state s) → o_bytes_written s <= o_max_size s < 2 ^ 64).

(** [bs] is appended and counted. *)
Definition o_put (bs : bytes) (s : ostream) : ostream :=
  mk_ostream ((λ w, w ++ bs) <$> o_state s) (o_max_size s) (o_bytes_written s + zlen bs) (o_errmsg s).

(** There is room for [n] more bytes: a counting stream has no bound. *)
Definition o_room (n : Z) (s : ostream) : Prop :=
  is_Some (o_state s) → o_bytes_written s + n <= o_max_size s.

#[export] Instance o_room_dec n s : Decision (o_room n s).
Proof. unfold o_room. destruct (o_state s); [|left; by intros []].
  destruct (decide (o_bytes_written s + n <= o_max_size s)); [by left|right]. intros H. by apply n0, H.
Defined.

(** What was written since [s] fits in the buffer. *)
Definition o_bounded (s s' : ostream) : Prop :=
  o_max_size s' = o_max_size s ∧
  ∀ w, o_state s = Some w →
    ∃ w', o_state s' = Some (w ++ w') ∧ o_bytes_written s + zlen w' <= o_max_size s.

(** [e] writes exactly [bs] when it fits; else it returns [false] and has
    stored nothing past the end of the buffer. *)
Record emits (e : enc) (bs : bytes) : Prop := {
  emits_room s : owf s → o_bytes_written s + zlen bs < 2 ^ 64 → o_room (zlen bs) s →
    e s = Some (true, o_put bs s);
  emits_full s : owf s → o_bytes_written s + zlen bs < 2 ^ 64 → ¬ o_room (zlen bs) s →
    ∃ s', e s = Some (false, s') ∧ o_bounded s s';
}.

Lemma owf_put bs s :
  owf s → o_bytes_written s + zlen bs < 2 ^ 64 → o_room (zlen bs) s → owf (o_put bs s).
Proof.
  intros [[H0 He] H1] Hlt Hr. split; simpl; [split; [lia|done]|]. rewrite fmap_is_Some. intros Hs.
  specialize (H1 Hs). specialize (Hr Hs). lia.
Qed.

Lemma o_put_nil s : o_put [] s = s.
Proof.
  destruct s as [[w|] m n e]; unfold o_put; simpl; rewrite ?app_nil_r, Z.add_0_r; done.
Qed.

Lemma o_put_app b1 b2 s : o_put b2 (o_put b1 s) = o_put (b1 ++ b2) s.
Proof.
  destruct s as [[w|] m n e]; unfold o_put; simpl; rewrite length_app; f_equal;
    rewrite <-?app_assoc; done || lia.
Qed.

Lemma o_room_app b1 b2 s :
  o_room (zlen (b1 ++ b2)) s ↔ o_room (zlen b1) s ∧ o_room (zlen b2) (o_put b1 s).
Proof.
  unfold o_room. simpl. rewrite length_app, fmap_is_Some. intuition lia.
Qed.

Lemma o_bounded_refl s : owf s → o_bounded s s.
Proof.
  intros [_ H]. split; [done|]. intros w Hw. exists []. rewrite app_nil_r, Hw in *.
  specialize (H ltac:(done)). simpl. split; [done|lia].
Qed.

Lemma o_bounded_put bs s s' : o_bounded (o_put bs s) s' → o_bounded s s'.
Proof.
  intros [Hm Hb]. split; [done|]. intros w Hw. simpl in Hb. rewrite Hw in Hb.
  destruct (Hb (w ++ bs) eq_refl) as (w' & Hs' & Hl). exists (bs ++ w').
  rewrite app_assoc, length_app. split; [done|lia].
Qed.

Lemma o_bounded_set_error msg s s' : o_bounded s s' → o_bounded s (o_set_error msg s').
Proof. done. Qed.

Lemma emits_nil : emits (λ s, Some (true, s)) [].
Proof.
  split; intros s Hs Hlt; [by rewrite o_put_nil|]. intros Hr. destruct Hr. intros Hb.
  destruct Hs as [_ H]. specialize (H Hb). simpl. lia.
Qed.

Lemma emits_and e1 e2 b1 b2 : emits e1 b1 → emits e2 b2 → emits (oand e1 e2) (b1 ++ b2).
Proof.
  intros H1 H2. split; intros s Hs Hlt; rewrite o_room_app, length_app in *.
  - intros [Hr1 Hr2]. unfold oand. rewrite (emits_room _ _ H1) by (done || lia). simpl.
    rewrite (emits_room _ _ H2), o_put_app; [done|apply owf_put; done || lia|simpl; lia|done].
  - intros Hr. unfold oand. destruct (decide (o_room (zlen b1) s)) as [Hr1|Hr1].
    + rewrite (emits_room _ _ H1) by (done || lia). simpl.
      destruct (emits_full _ _ H2 (o_put b1 s)) as (s' & Hs' & Hb);
        [apply owf_put; done || lia|simpl; lia|tauto|].
      exists s'. split; [done|]. by eapply o_bounded_put.
    + destruct (emits_full _ _ H1 s) as (s' & -> & Hb); [done|lia|done|]. by exists s'.
Qed.

Lemma emits_write_bytes bs : emits (pb_write_bytes bs) bs.
Proof.
  split; intros s [[H0 He] H1] Hlt Hr; unfold pb_write_bytes, pb_write, o_count, buf_write, o_put, o_room in *;
    rewrite (uwrap_id 64) by (unfold is_uint; lia).
  - destruct (o_state s) as [w|]; [|done]. specialize (Hr ltac:(done)). cbn [default from_option id]. bool_cases. simpl.
    rewrite (uwrap_id 64) by (unfold is_uint; lia). by rewrite Nat2Z.id, firstn_all.
  - destruct (o_state s) as [w|] eqn:Hw; [|destruct Hr; by intros []].
    destruct (Z.ltb_spec (o_max_size s) (o_bytes_written s + zlen bs)) as [Hlt'|Hge]; [|by destruct Hr].
    eexists; split; [done|]. apply o_bounded_set_error, o_bounded_refl. split; [done|].
    rewrite Hw. done.
Qed.

(** ** What a decoder reads *)

Definition iwf (s : istream) : Prop :=
  0 <= i_bytes_left s <= zlen (i_state s) ∧ bytes_ok (i_state s).

(** The stream [n] bytes further. *)
Definition i_drop (n : nat) (s : istream) : istream :=
  mk_istream (drop n (i_state s)) (i_bytes_left s - Z.of_nat n) (i_errmsg s).

Definition parses {A} (d : dec A) (bs : bytes) (a : A) : Prop :=
  ∀ s rest, i_state s = bs ++ rest → zlen bs <= i_bytes_left s →
    d s = Some (Some a, i_drop (length bs) s).

Lemma i_drop_drop n m s : i_drop m (i_drop n s) = i_drop (n + m) s.
Proof. unfold i_drop. simpl. rewrite drop_drop. f_equal. lia. Qed.

Lemma i_drop_0 s : i_drop 0 s = s.
Proof. destruct s. unfold i_drop. simpl. rewrite Z.sub_0_r. done. Qed.

Lemma parses_ret {A} (a : A) : parses (dret a) [] a.
Proof. intros s rest _ _. by rewrite i_drop_0. Qed.

Lemma parses_bind {A B} (d : dec A) (f : A → dec B) b1 b2 a b :
  parses d b1 a → parses (f a) b2 b → parses (dbind d f) (b1 ++ b2) b.
Proof.
  intros Hd Hf s rest Hs Hl. rewrite length_app in *. rewrite <-app_assoc in Hs.
  unfold dbind. rewrite (Hd s (b2 ++ rest)) by (done || lia). simpl.
  rewrite (Hf (i_drop (length b1) s) rest); [by rewrite i_drop_drop| |simpl; lia].
  simpl. by rewrite Hs, drop_app_length.
Qed.

Lemma parses_fmap {A B} (d : dec A) (f : A → B) bs a :
  parses d bs a → parses (let! x := d in dret (f x)) bs (f a).
Proof. intros Hd. rewrite <-(app_nil_r bs). eapply parses_bind; [done|apply parses_ret]. Qed.

Lemma parses_read bs : parses (pb_read (zlen bs)) bs bs.
Proof.
  intros s rest Hs Hl. unfold pb_read, buf_read.
  pose proof (f_equal length Hs) as Hlen. rewrite length_app in Hlen. bool_cases.
  simpl. rewrite Hs, Nat2Z.id, take_app_length, drop_app_length.
  unfold i_drop, i_count. rewrite Hs, drop_app_length. done.
Qed.

Lemma parses_readbyte b : parses pb_readbyte [b] b.
Proof.
  intros s rest Hs Hl. simpl in Hl. unfold pb_readbyte, buf_read.
  pose proof (f_equal length Hs) as Hlen. simpl in Hlen. bool_cases.
  simpl. unfold i_drop, i_count. rewrite Hs. done.
Qed.

(** The stream has moved on, within the buffer and within the bytes left. *)
Definition i_advance (s s' : istream) : Prop :=
  ∃ n, (n <= length (i_state s))%nat ∧ i_state s' = drop n (i_state s) ∧
       0 <= i_bytes_left s' <= i_bytes_left s - Z.of_nat n.

Lemma i_advance_refl s : iwf s → i_advance s s.
Proof. intros [? _]. exists 0%nat. split; [lia|]. split; [done|lia]. Qed.

Lemma i_advance_trans s1 s2 s3 : i_advance s1 s2 → i_advance s2 s3 → i_advance s1 s3.
Proof.
  intros (n & Hn & Hs & Hl) (m & Hm & Hs' & Hl'). exists (n + m)%nat.
  rewrite Hs in Hm, Hs'. rewrite length_drop in Hm. rewrite drop_drop in Hs'.
  split; [lia|]. split; [done|lia].
Qed.

Lemma i_advance_wf s s' : iwf s → i_advance s s' → iwf s'.
Proof.
  intros [? Hb] (n & Hn & Hs & Hl). unfold iwf. rewrite Hs, length_drop.
  split; [lia|by apply Forall_drop].
Qed.

Lemma i_advance_set_error msg s s' : i_advance s s' → i_advance s (i_set_error msg s').
Proof. done. Qed.

(** From any stream over a buffer, [d] neither reads outside the buffer nor
    gets stuck; when it returns [true] it has consumed at least [k] bytes and
    its result satisfies [P]. *)
Definition safe {A} (k : Z) (P : A → Prop) (d : dec A) : Prop :=
  ∀ s, iwf s → ∃ r s', d s = Some (r, s') ∧ i_advance s s' ∧
    match r with Some a => P a ∧ i_bytes_left s' + k <= i_bytes_left s | None => True end.

Lemma safe_weaken {A} k k' (P P' : A → Prop) d :
  safe k P d → k' <= k → (∀ a, P a → P' a) → safe k' P' d.
Proof.
  intros Hd Hk HP s Hs. destruct (Hd s Hs) as (r & s' & -> & Ha & Hr).
  exists r, s'. split; [done|]. split; [done|]. destruct r; [|done]. destruct Hr. split; [auto|lia].
Qed.

Lemma safe_ret {A} (P : A → Prop) a : P a → safe 0 P (dret a).
Proof.
  intros Ha s Hs. exists (Some a), s. split; [done|]. split; [by apply i_advance_refl|].
  split; [done|lia].
Qed.

Lemma safe_fail {A} k (P : A → Prop) msg : safe k P (dfail msg).
Proof.
  intros s Hs. exists None, (i_set_error msg s). split; [done|]. split; [|done].
  by apply i_advance_set_error, i_advance_refl.
Qed.

Lemma safe_bind {A B} k j P Q (d : dec A) (f : A → dec B) :
  safe k P d → (∀ a, P a → safe j Q (f a)) → safe (k + j) Q (dbind d f).
Proof.
  intros Hd Hf s Hs. unfold dbind. destruct (Hd s Hs) as (r & s1 & -> & Ha & Hr). simpl.
  destruct r as [a|]; [|by exists None, s1]. destruct Hr as [HP Hk].
  destruct (Hf a HP s1) as (r2 & s2 & -> & Ha2 & Hr2); [by eapply i_advance_wf|].
  exists r2, s2. split; [done|]. split; [by eapply i_advance_trans|].
  destruct r2; [|done]. destruct Hr2. split; [done|lia].
Qed.

(** [i_bytes_left] is all the decoder may read: a bound [k] in the past. *)
Lemma safe_bind0 {A B} k P Q (d : dec A) (f : A → dec B) :
  safe k P d → (∀ a, P a → safe 0 Q (f a)) → safe k Q (dbind d f).
Proof. intros. rewrite <-(Z.add_0_r k). by eapply safe_bind. Qed.

Lemma safe_read count : 0 <= count → safe count (λ b, zlen b = count ∧ bytes_ok b) (pb_read count).
Proof.
  intros Hc s [[H0 H1] Hok]. unfold pb_read, buf_read.
  destruct (Z.ltb_spec (i_bytes_left s) count).
  { eexists None, _. split; [done|]. split; [|done]. by apply i_advance_set_error, i_advance_refl. }
  bool_cases. simpl. eexists (Some _), _. split; [done|]. simpl. split.
  - exists (Z.to_nat count). simpl. split; [lia|]. split; [done|lia].
  - rewrite length_take. split; [split; [lia|by apply Forall_take]|lia].
Qed.

Lemma safe_readbyte : safe 1 byte_ok pb_readbyte.
Proof.
  intros s [[H0 H1] Hok]. unfold pb_readbyte, buf_read.
  destruct (Z.eqb_spec (i_bytes_left s) 0).
  { eexists None, _. split; [done|]. split; [|done]. by apply i_advance_set_error, i_advance_refl. }
  bool_cases. simpl. eexists (Some _), _. split; [done|]. split.
  - exists 1%nat. simpl. split; [lia|]. split; [done|lia].
  - simpl. split; [|lia]. destruct (i_state s); [simpl in *; lia|]. by inversion Hok.
Qed.

(** ** Varints *)

(** Base-128 digits, least significant first, the top bit set on all but the
    last: [n] digits at most. *)
Fixpoint leb (n : nat) (v : Z) : bytes :=
  match n with
  | O => []
  | S n' => if v <? 128 then [v] else (v mod 128 + 128) :: leb n' (v / 128)
  end.

Definition varint (v : Z) : bytes := leb 10 v.

Lemma leb_length n v : (length (leb n v) <= n)%nat.
Proof. revert v; induction n as [|n IH]; intros v; simpl; [lia|]. specialize (IH (v / 128)). bool_cases; simpl; lia. Qed.

Lemma leb_nonempty n v : (0 < n)%nat → (1 <= length (leb n v))%nat.
Proof. destruct n; [lia|]. intros _. simpl. destruct (v <? 128); simpl; lia. Qed.

Lemma varint_length v : 1 <= zlen (varint v) <= 10.
Proof. pose proof (leb_length 10 v). pose proof (leb_nonempty 10 v). unfold varint. lia. Qed.

Lemma leb_ok n v : 0 <= v → bytes_ok (leb n v).
Proof.
  revert v; induction n as [|n IH]; intros v Hv; simpl; [constructor|].
  pose proof (Z.mod_pos_bound v 128 ltac:(lia)). pose proof (Z.div_pos v 128 Hv ltac:(lia)).
  bool_cases; repeat constructor; try (by apply IH); unfold byte_ok, is_uint; lia.
Qed.

(** More turns than a value has digits change nothing. *)
Lemma leb_enough n m v :
  (0 < n <= m)%nat → 0 <= v < 128 ^ Z.of_nat n → leb m v = leb n v.
Proof.
  revert m v; induction n as [|n IH]; intros [|m] v Hm Hv; try lia.
  cbn [leb]. destruct (Z.ltb_spec v 128); [done|]. f_equal.
  rewrite Nat2Z.inj_succ, Z.pow_succ_r in Hv by lia.
  assert (0 < v / 128 < 128 ^ Z.of_nat n)
    by (split; [apply Z.div_str_pos; lia|apply Z.div_lt_upper_bound; lia]).
  apply IH; [|lia]. destruct n; [simpl in *; lia|lia].
Qed.

Lemma lor_128 x : 0 <= x < 128 → Z.lor x 0x80 = x + 128.
Proof. intros. exact (lor_shiftl_add x 1 7 ltac:(lia) ltac:(unfold is_uint; lia)). Qed.

Lemma varint_loop_step n v :
  0 < v → varint_loop (S n) v = (v mod 128 + 128) :: varint_loop n (v / 128).
Proof.
  intros Hv. cbn [varint_loop]. bool_cases.
  pose proof (Z.mod_pos_bound v 128 ltac:(lia)).
  rewrite land_127, lor_128, Z.shiftr_div_pow2 by lia. f_equal. apply uwrap_id. unfold is_uint. lia.
Qed.

(** Ten turns are enough: the loop ends because the value is exhausted. *)
Lemma varint_loop_fuel n m v :
  0 <= v < 128 ^ Z.of_nat n → (n <= m)%nat → varint_loop m v = varint_loop n v.
Proof.
  revert m v; induction n as [|n IH]; intros m v Hv Hm.
  { assert (v = 0) as -> by (simpl in Hv; lia). by destruct m. }
  destruct m as [|m]; [lia|]. destruct (Z.eq_dec v 0) as [->|]; [done|].
  rewrite !varint_loop_step by lia. f_equal. apply IH; [|lia].
  rewrite Nat2Z.inj_succ, Z.pow_succ_r in Hv by lia.
  split; [apply Z.div_pos; lia|apply Z.div_lt_upper_bound; lia].
Qed.

Lemma land_127_digit x : 0 <= x < 128 → Z.land (x + 128) 0x7F = x.
Proof.
  intros. rewrite land_127. rewrite <-(Z.mul_1_l 128) at 1. rewrite Z_mod_plus_full.
  by apply Z.mod_small.
Qed.

(** The loop followed by the fix of the last byte. *)
Lemma varint_loop_leb n v :
  0 < v < 128 ^ Z.of_nat n →
  alter (λ b, Z.land b 0x7F) (length (varint_loop n v) - 1)%nat (varint_loop n v) = leb n v.
Proof.
  revert v; induction n as [|n IH]; intros v Hv; [simpl in Hv; lia|].
  rewrite varint_loop_step by lia. simpl length. rewrite Nat.sub_succ, Nat.sub_0_r.
  pose proof (Z.mod_pos_bound v 128 ltac:(lia)). cbn [leb].
  rewrite Nat2Z.inj_succ, Z.pow_succ_r in Hv by lia.
  destruct (Z.ltb_spec v 128).
  - rewrite Z.div_small, Z.mod_small by lia.
    assert (varint_loop n 0 = []) as -> by (by destruct n). simpl. by rewrite land_127_digit by lia.
  - assert (0 < v / 128 < 128 ^ Z.of_nat n) as Hd.
    { split; [apply Z.div_str_pos; lia|apply Z.div_lt_upper_bound; lia]. }
    rewrite <-(IH _ Hd). destruct n as [|n]; [simpl in Hd; lia|].
    rewrite varint_loop_step by lia. simpl. by rewrite Nat.sub_0_r.
Qed.

Lemma varint_buffer_spec v : is_uint 64 v → varint_buffer v = varint v.
Proof.
  intros [H0 H1]. unfold varint_buffer, varint. destruct (Z.leb_spec v 0x7F).
  - cbn [leb]. bool_cases. by rewrite uwrap_id by (unfold is_uint; lia).
  - apply varint_loop_leb. split; [lia|]. change (128 ^ Z.of_nat 10) with (2 ^ 70).
    change (2 ^ 70) with (2 ^ 64 * 64). lia.
Qed.

(** One turn of a decoding loop adds the next seven bits. *)
Lemma or_digit w result x k :
  0 <= k → is_uint k result → 0 <= x → x * 2 ^ k < 2 ^ w → 0 <= w →
  Z.lor result (uwrap w (Z.shiftl x k)) = result + x * 2 ^ k.
Proof.
  intros. rewrite uwrap_id; [rewrite lor_shiftl_add by done; lia|].
  rewrite Z.shiftl_mul_pow2 by done. split; [|done]. apply Z.mul_nonneg_nonneg; lia.
Qed.

Lemma land_128_digit x : 0 <= x < 128 → Z.land x 0x80 = 0 ∧ Z.land (x + 128) 0x80 ≠ 0.
Proof.
  intros Hx.
  assert (forallb (λ k, (Z.land (Z.of_nat k) 0x80 =? 0) && negb (Z.land (Z.of_nat k + 128) 0x80 =? 0))
            (seq 0 128) = true) as Hall by (vm_compute; reflexivity).
  rewrite forallb_forall in Hall. specialize (Hall (Z.to_nat x) ltac:(apply in_seq; lia)).
  rewrite andb_true_iff, Z.eqb_eq, negb_true_iff, Z.eqb_neq, Z2Nat.id in Hall by lia. done.
Qed.

Lemma land_127_small x : 0 <= x < 128 → Z.land x 0x7F = x.
Proof. intros. rewrite land_127. by apply Z.mod_small. Qed.

(** A decoding loop reads the digits of [v] on top of the bits read so far. *)
Lemma varint_dec_loop_parses w n fuel k r v :
  (0 < n <= fuel)%nat → 0 <= k → is_uint k r → 0 <= v < 128 ^ Z.of_nat n →
  v * 2 ^ k < 2 ^ w → k + 7 * Z.of_nat n <= w + 6 → 0 <= w <= 64 →
  parses (varint_dec_loop w fuel k r) (leb n v) (r + v * 2 ^ k).
Proof.
  revert fuel k r v; induction n as [|n IH]; intros fuel k r v Hn Hk Hr Hv Hvw Hk7 Hw; [lia|].
  destruct fuel as [|fuel]; [lia|]. cbn [varint_dec_loop leb].
  pose proof (Z.pow_pos_nonneg 2 k ltac:(lia) Hk). destruct (Z.leb_spec w k) as [|_]; [lia|].
  destruct (Z.ltb_spec v 128).
  - apply (parses_bind _ _ [v] [] v); [apply parses_readbyte|].
    destruct (land_128_digit v ltac:(lia)) as [-> _]. rewrite Z.eqb_refl.
    rewrite land_127_small, or_digit by (done || lia). apply parses_ret.
  - rewrite Nat2Z.inj_succ, Z.pow_succ_r in Hv by lia.
    assert (0 < v / 128 < 128 ^ Z.of_nat n) as Hd.
    { split; [apply Z.div_str_pos; lia|apply Z.div_lt_upper_bound; lia]. }
    assert (0 < n)%nat by (destruct n; [simpl in Hd; lia|lia]).
    pose proof (Z.mod_pos_bound v 128 ltac:(lia)) as Hm. pose proof (Z.div_mod v 128 ltac:(lia)) as Hdm.
    apply (parses_bind _ _ [v mod 128 + 128] (leb n (v / 128)) (v mod 128 + 128)); [apply parses_readbyte|].
    destruct (land_128_digit (v mod 128) Hm) as [_ Hne]. apply Z.eqb_neq in Hne. rewrite Hne.
    rewrite land_127_digit, or_digit by (done || nia).
    rewrite uwrap_id by (unfold is_uint; lia).
    replace (r + v * 2 ^ k) with (r + v mod 128 * 2 ^ k + v / 128 * 2 ^ (k + 7))
      by (rewrite Z.pow_add_r by lia; change (2 ^ 7) with 128; nia).
    apply IH; try lia.
    + destruct Hr. split; [nia|]. rewrite Z.pow_add_r by lia. change (2 ^ 7) with 128. nia.
    + rewrite Z.pow_add_r by lia. change (2 ^ 7) with 128. nia.
Qed.

Lemma parses_varint v : is_uint 64 v → parses pb_decode_varint (varint v) v.
Proof.
  intros [H0 H1]. unfold pb_decode_varint, varint.
  replace v with (0 + v * 2 ^ 0) at 2 by lia.
  apply varint_dec_loop_parses; [lia|lia|by_compute| |lia..].
  change (128 ^ Z.of_nat 10) with (2 ^ 64 * 64). lia.
Qed.

Lemma parses_varint32 v : is_uint 32 v → parses pb_decode_varint32 (varint v) v.
Proof.
  intros [H0 H1]. unfold pb_decode_varint32, varint. change (leb 10 v) with
    (if v <? 128 then [v] else (v mod 128 + 128) :: leb 9 (v / 128)).
  pose proof (Z.mod_pos_bound v 128 ltac:(lia)) as Hm. pose proof (Z.div_mod v 128 ltac:(lia)) as Hdm.
  destruct (Z.ltb_spec v 128).
  - apply (parses_bind _ _ [v] [] v); [apply parses_readbyte|].
    destruct (land_128_digit v ltac:(lia)) as [-> _]. apply parses_ret.
  - apply (parses_bind _ _ [v mod 128 + 128] (leb 9 (v / 128)) (v mod 128 + 128)); [apply parses_readbyte|].
    destruct (land_128_digit (v mod 128) Hm) as [_ Hne]. apply Z.eqb_neq in Hne. rewrite Hne.
    rewrite land_127_digit by done.
    assert (0 <= v / 128 < 128 ^ Z.of_nat 4).
    { split; [apply Z.div_pos; lia|]. apply Z.div_lt_upper_bound; [lia|].
      change (128 * 128 ^ Z.of_nat 4) with (2 ^ 32 * 8). lia. }
    rewrite (leb_enough 4 9) by (done || lia).
    replace v with (v mod 128 + v / 128 * 2 ^ 7) at 3 by lia.
    apply varint_dec_loop_parses; [lia|lia|unfold is_uint; lia|done|lia..].
Qed.

Lemma emits_varint v : is_uint 64 v → emits (pb_encode_varint v) (varint v).
Proof. intros Hv. unfold pb_encode_varint. rewrite varint_buffer_spec by done. apply emits_write_bytes. Qed.

Lemma safe_varint_dec_loop w n fuel k r :
  w <= 64 → w <= k + 7 * Z.of_nat n → (n < fuel)%nat → 0 <= k <= 80 → is_uint w r →
  safe 1 (is_uint w) (varint_dec_loop w fuel k r).
Proof.
  intros Hw. revert fuel k r; induction n as [|n IH]; intros [|fuel] k r Hk Hf Hk0 Hr; try lia;
    cbn [varint_dec_loop]; (destruct (Z.leb_spec w k); [apply safe_fail|]); [lia|].
  apply (safe_bind0 1 byte_ok); [apply safe_readbyte|]. intros b _.
  set (r' := Z.lor _ _).
  assert (is_uint w r') by (apply is_uint_lor; [lia|done|apply uwrap_range; lia]).
  case_match; [by apply safe_ret|].
  rewrite uwrap_id by (unfold is_uint; lia).
  apply (safe_weaken 1 0 (is_uint w) _); [apply IH; done || lia|lia|done].
Qed.

Lemma safe_varint : safe 1 (is_uint 64) pb_decode_varint.
Proof. apply (safe_varint_dec_loop 64 10); [lia..|by_compute]. Qed.

Lemma land_127_uint b w : 7 <= w → is_uint w (Z.land b 0x7F).
Proof.
  intros. apply (is_uint_le 7); [lia|]. rewrite land_127. by apply (uwrap_range 7).
Qed.

Lemma safe_varint32 : safe 1 (is_uint 32) pb_decode_varint32.
Proof.
  apply (safe_bind 1 0 byte_ok); [apply safe_readbyte|]. intros b Hb.
  case_match; [apply safe_ret; by apply (is_uint_le 8); [lia|]|].
  apply (safe_weaken 1 0 (is_uint 32) _); [|lia|done].
  apply (safe_varint_dec_loop 32 4); [lia..|by apply land_127_uint].
Qed.

(** ** Zigzag and fixed-width integers *)

Lemma zigzag_spec v : is_sint 64 v → zigzag v = if v <? 0 then - 2 * v - 1 else 2 * v.
Proof.
  intros [H0 H1]. unfold zigzag. change (2 ^ (64 - 1)) with (2 ^ 63) in *.
  assert (2 ^ 64 = 2 * 2 ^ 63) as H64 by done.
  destruct (Z.ltb_spec v 0).
  - rewrite Z.shiftl_mul_pow2 by lia. unfold uwrap.
    assert (v mod 2 ^ 64 = v + 2 ^ 64) as ->
      by (symmetry; apply (Z.mod_unique_pos _ _ (-1)); lia).
    assert (((v + 2 ^ 64) * 2 ^ 1) mod 2 ^ 64 = 2 * v + 2 ^ 64) as ->
      by (symmetry; apply (Z.mod_unique_pos _ _ 1); lia).
    unfold Z.lnot. symmetry. apply (Z.mod_unique_pos _ _ (-1)); lia.
  - rewrite (uwrap_id 64 v) by (unfold is_uint; lia). rewrite Z.shiftl_mul_pow2 by lia.
    rewrite uwrap_id by (unfold is_uint; lia). lia.
Qed.

Lemma zigzag_uint v : is_sint 64 v → is_uint 64 (zigzag v).
Proof.
  intros Hv. rewrite zigzag_spec by done. destruct Hv. change (2 ^ (64 - 1)) with (2 ^ 63) in *.
  unfold is_uint. change (2 ^ 64) with (2 * 2 ^ 63). bool_cases.
Qed.

Lemma unzigzag_zigzag v : is_sint 64 v → unzigzag (zigzag v) = v.
Proof.
  intros Hv. rewrite zigzag_spec by done. unfold unzigzag.
  destruct (Z.ltb_spec v 0).
  - replace (-2 * v - 1) with (1 + 2 * (- v - 1)) by lia.
    rewrite Z.odd_add_mul_2, Z.shiftr_div_pow2 by lia. change (Z.odd 1) with true. cbv iota.
    change (2 ^ 1) with 2. rewrite (Z.mul_comm 2), Z_div_plus_full by lia. change (1 / 2) with 0.
    unfold Z.lnot. replace (Z.pred (- (0 + (- v - 1)))) with v by lia. by apply swrap_id.
  - rewrite Z.odd_mul, Z.shiftr_div_pow2 by lia. change (Z.odd 2 && Z.odd v) with false. cbv iota.
    change (2 ^ 1) with 2. rewrite Z.mul_comm, Z_div_mult_full by lia. by apply swrap_id.
Qed.

Lemma unzigzag_sint v : is_sint 64 (unzigzag v).
Proof. unfold unzigzag. case_match; apply swrap_range; lia. Qed.

Lemma fixed_bytes k n v :
  0 <= v → fixed_byte v <$> seq k n = le_bytes n (Z.shiftr v (8 * Z.of_nat k)).
Proof.
  intros Hv. revert k; induction n as [|n IH]; intros k; [done|]. cbn [seq fmap list_fmap le_bytes].
  f_equal.
  - unfold fixed_byte. rewrite land_255. unfold uwrap. by rewrite Zmod_mod.
  - rewrite IH. f_equal. change (_ / 256) with (Z.shiftr v (8 * Z.of_nat k) / 2 ^ 8).
    rewrite <-Z.shiftr_div_pow2, Z.shiftr_shiftr by lia. f_equal. lia.
Qed.

Lemma or_bytes_spec bs shift : 0 <= shift → bytes_ok bs → or_bytes shift bs = of_le bs * 2 ^ shift.
Proof.
  intros Hs Hbs. revert shift Hs. induction Hbs as [|b bs Hb Hbs IH]; intros shift Hs; [done|].
  cbn [or_bytes of_le]. rewrite IH by lia.
  rewrite Z.shiftl_mul_pow2, Z.pow_add_r by lia. change (2 ^ 8) with 256.
  replace (of_le bs * (2 ^ shift * 256)) with (Z.shiftl (of_le bs) (shift + 8))
    by (rewrite Z.shiftl_mul_pow2, Z.pow_add_r by lia; lia).
  rewrite lor_shiftl_add; [rewrite Z.pow_add_r by lia; change (2 ^ 8) with 256; lia|lia|].
  unfold byte_ok, is_uint in *. rewrite Z.pow_add_r by lia.
  pose proof (Z.pow_pos_nonneg 2 shift). nia.
Qed.

Lemma or_bytes_nonneg shift bs : bytes_ok bs → 0 <= or_bytes shift bs.
Proof.
  intros Hbs. revert shift. induction Hbs as [|b bs [Hb _] _ IH]; intros shift; [done|].
  cbn. apply Z.lor_nonneg. split; [by apply Z.shiftl_nonneg|apply IH].
Qed.

Lemma emits_fixed32 v : is_uint 32 v → emits (pb_encode_fixed32 v) (le_bytes 4 v).
Proof.
  intros [Hv _]. unfold pb_encode_fixed32. rewrite fixed_bytes by done. rewrite Z.shiftr_0_r.
  apply emits_write_bytes.
Qed.

Lemma emits_fixed64 v : is_uint 64 v → emits (pb_encode_fixed64 v) (le_bytes 8 v).
Proof.
  intros [Hv _]. unfold pb_encode_fixed64. rewrite fixed_bytes by done. rewrite Z.shiftr_0_r.
  apply emits_write_bytes.
Qed.

Lemma parses_fixed n v :
  is_uint (8 * Z.of_nat n) v →
  parses (let! b := pb_read (Z.of_nat n) in dret (or_bytes 0 b)) (le_bytes n v) v.
Proof.
  intros Hv. replace v with (or_bytes 0 (le_bytes n v)) at 2.
  - pose proof (length_le_bytes n v) as Hl. rewrite <-Hl at 1. apply (parses_fmap _ (or_bytes 0)), parses_read.
  - rewrite or_bytes_spec, of_le_bytes, uwrap_id by (done || apply le_bytes_ok). lia.
Qed.

Lemma parses_fixed32 v : is_uint 32 v → parses pb_decode_fixed32 (le_bytes 4 v) v.
Proof. apply (parses_fixed 4). Qed.
Lemma parses_fixed64 v : is_uint 64 v → parses pb_decode_fixed64 (le_bytes 8 v) v.
Proof. apply (parses_fixed 8). Qed.

Lemma emits_svarint v : is_sint 64 v → emits (pb_encode_svarint v) (varint (zigzag v)).
Proof. intros. by apply emits_varint, zigzag_uint. Qed.

Lemma parses_svarint v : is_sint 64 v → parses pb_decode_svarint (varint (zigzag v)) v.
Proof.
  intros. unfold pb_decode_svarint.
  pose proof (parses_fmap _ unzigzag _ _ (parses_varint _ (zigzag_uint v ltac:(done)))) as Hp.
  by rewrite unzigzag_zigzag in Hp.
Qed.

(** ** Tags, strings and substreams *)

(** The key of a field: its number and wire type. *)
Definition key (wt tag : Z) : Z := 8 * tag + wt.

Lemma lor_key wt tag : 0 <= wt < 8 → 0 <= tag < 2 ^ 32 → Z.lor (u64 (Z.shiftl tag 3)) wt = key wt tag.
Proof.
  intros. rewrite Z.shiftl_mul_pow2 by lia. rewrite uwrap_id by (unfold is_uint; lia).
  rewrite <-Z.shiftl_mul_pow2, Z.lor_comm, lor_shiftl_add by (unfold is_uint; lia).
  unfold key. lia.
Qed.

Lemma emits_tag wt tag :
  0 <= wt < 8 → 0 <= tag < 2 ^ 32 → emits (pb_encode_tag wt tag) (varint (key wt tag)).
Proof.
  intros. unfold pb_encode_tag. rewrite lor_key by done. apply emits_varint. unfold is_uint, key. lia.
Qed.

Lemma emits_write buf b :
  (b = [] ∧ buf = None) ∨ buf = Some b → emits (pb_write buf (zlen b)) b.
Proof.
  intros [[-> ->]| ->]; [|apply emits_write_bytes].
  (* [pb_write(NULL, 0)] stores nothing *)
  pose proof (emits_write_bytes []) as [Hr Hf]. split; [exact Hr|exact Hf].
Qed.

Lemma emits_string buf b :
  (b = [] ∧ buf = None) ∨ buf = Some b → zlen b < 2 ^ 64 →
  emits (pb_encode_string buf (zlen b)) (varint (zlen b) ++ b).
Proof.
  intros. apply emits_and; [apply emits_varint; unfold is_uint; lia|by apply emits_write].
Qed.

(** Bytes with their number before them. *)
Definition delimited (b : bytes) : bytes := varint (zlen b) ++ b.

(** ** Messages that are part of a message *)

(** Bytes that do not fit a [size_t] are never asked for. *)
Lemma emits_guard e b : (zlen b < 2 ^ 64 → emits e b) → emits e b.
Proof.
  intros He. split; intros s Hs Hlt; (apply He; [destruct Hs as [[] _]; lia|done|done]).
Qed.

(** What a counting stream and a bounded one make of an encoder that fits. *)
Lemma emits_sizing e b :
  emits e b → zlen b < 2 ^ 64 → e PB_OSTREAM_SIZING = Some (true, o_put b PB_OSTREAM_SIZING).
Proof.
  intros He Hb. apply (emits_room _ _ He); [|done|by intros []].
  split; [split; [simpl; lia|done]|by intros []].
Qed.

Lemma emits_delimited_string data b :
  (b = [] ∧ data = None) ∨ data = Some b → emits (pb_encode_string data (zlen b)) (delimited b).
Proof.
  intros Hd. apply emits_guard. unfold delimited. rewrite length_app. intros Hlt.
  apply emits_string; [done|lia].
Qed.

Lemma emits_ext e e' b : (∀ s, e s = e' s) → emits e b → emits e' b.
Proof. intros Heq [Hr Hf]. split; intros s; rewrite <-Heq; auto. Qed.

(** What both encoders do with a submessage: a first pass counts its bytes, a
    second one writes them to a stream of that size.  [strict]: a size that
    changed is reported even when the second pass failed. *)
Definition two_pass (strict : bool) (e : enc) : enc := λ s,
  '(ok, sub) ← e PB_OSTREAM_SIZING;
  if negb ok then Some (false, mk_ostream (o_state s) (o_max_size s) (o_bytes_written s) (o_errmsg sub))
  else
    let size := o_bytes_written sub in
    '(ok, s1) ← pb_encode_varint size s;
    if negb ok then Some (false, s1)
    else match o_state s1 with
    | None => pb_write None size s1
    | Some _ =>
      if o_max_size s1 <? u64 (o_bytes_written s1 + size)
      then Some (false, o_set_error "stream full" s1)
      else
        '(ok, sub) ← e (mk_ostream (o_state s1) size 0 None);
        let s2 := mk_ostream (o_state sub) (o_max_size s1)
                    (u64 (o_bytes_written s1 + o_bytes_written sub)) (o_errmsg sub) in
        if (strict || ok) && negb (o_bytes_written sub =? size)
        then Some (false, o_set_error "submsg size changed" s2)
        else Some (ok, s2)
    end.

Lemma emits_two_pass strict e w : emits e w → emits (two_pass strict e) (delimited w).
Proof.
  intros He. apply emits_guard. unfold delimited. rewrite length_app. intros Hlt.
  pose proof (emits_sizing _ _ He ltac:(lia)) as Hsz.
  assert (emits (pb_encode_varint (zlen w)) (varint (zlen w))) as Hev
    by (apply emits_varint; unfold is_uint; lia).
  split; intros s Hs Hb Hr; rewrite o_room_app, length_app in *;
    unfold two_pass; rewrite Hsz; cbn [mbind option_bind negb o_bytes_written o_put PB_OSTREAM_SIZING];
    rewrite Z.add_0_l.
  - destruct Hr as [Hr1 Hr2]. rewrite (emits_room _ _ Hev) by (done || lia). cbn [mbind option_bind negb].
    pose proof (owf_put (varint (zlen w)) s Hs ltac:(lia) Hr1) as Hs1. rewrite <-o_put_app. set (s1 := o_put _ s) in *.
    assert (o_bytes_written s1 = o_bytes_written s + zlen (varint (zlen w))) as Hbw by done.
    destruct (o_state s1) as [st|] eqn:Hst.
    + specialize (Hr2 ltac:(rewrite Hst; done)).
      rewrite (uwrap_id 64) by (unfold is_uint; destruct Hs1 as [[??]?]; lia).
      destruct (Z.ltb_spec (o_max_size s1) (o_bytes_written s1 + zlen w)); [lia|].
      rewrite (emits_room _ _ He); [|split; simpl; [split; [lia|done]|lia]|simpl; lia|intros _; simpl; lia].
      simpl. rewrite Z.eqb_refl. rewrite andb_false_r. unfold o_put at 1. rewrite Hst.
      rewrite (uwrap_id 64) by (unfold is_uint; destruct Hs1 as [[??]?]; lia).
      destruct Hs1 as [[_ ->] _]. done.
    + unfold pb_write. rewrite Hst. unfold o_count, o_put. rewrite Hst.
      rewrite (uwrap_id 64) by (unfold is_uint; destruct Hs1 as [[??]?]; lia). done.
  - destruct (decide (o_room (zlen (varint (zlen w))) s)) as [Hr1|Hr1].
    + rewrite (emits_room _ _ Hev) by (done || lia). cbn [mbind option_bind negb].
      pose proof (owf_put (varint (zlen w)) s Hs ltac:(lia) Hr1) as Hs1. set (s1 := o_put _ s) in *.
      assert (o_bytes_written s1 = o_bytes_written s + zlen (varint (zlen w))) as Hbw by done.
      destruct (o_state s1) as [st|] eqn:Hst; [|destruct Hr; split; [done|]; intros [? Hx]; by rewrite Hst in Hx].
      rewrite (uwrap_id 64) by (unfold is_uint; destruct Hs1 as [[??]?]; lia).
      destruct (Z.ltb_spec (o_max_size s1) (o_bytes_written s1 + zlen w)) as [|Hge].
      * eexists; split; [done|]. by apply o_bounded_set_error, (o_bounded_put (varint (zlen w))), o_bounded_refl.
      * destruct Hr. split; [done|]. intros _. lia.
    + destruct (emits_full _ _ Hev s Hs ltac:(lia) Hr1) as (s' & -> & Hbd). simpl. by exists s'.
Qed.

(** A tag: field numbers below [2^29], as the descriptor compiler issues them. *)
Lemma decode_tag_parses wt tag s rest :
  0 <= wt < 8 → 1 <= tag < 2 ^ 29 →
  i_state s = varint (key wt tag) ++ rest → zlen (varint (key wt tag)) <= i_bytes_left s →
  pb_decode_tag s = Some (Some (wt, tag), false, i_drop (length (varint (key wt tag))) s).
Proof.
  intros Hwt Htag Hs Hl. unfold pb_decode_tag.
  rewrite (parses_varint32 (key wt tag)) with (rest := rest) by
    (done || (unfold is_uint, key; lia)).
  simpl. unfold key at 1. destruct (Z.eqb_spec (8 * tag + wt) 0); [lia|]. repeat f_equal.
  - change 7 with (Z.ones 3). rewrite Z.land_ones by lia. unfold key.
    replace (8 * tag + wt) with (wt + tag * 2 ^ 3) by lia. rewrite Z_mod_plus_full.
    apply Z.mod_small. lia.
  - rewrite Z.shiftr_div_pow2 by lia. unfold key.
    replace (8 * tag + wt) with (tag * 2 ^ 3 + wt) by lia. rewrite Z_div_plus_full_l by lia.
    rewrite (Z.div_small wt) by lia. lia.
Qed.

(** The substream of a length-delimited field holds exactly its bytes. *)
Lemma make_substream_parses b s rest :
  zlen b < 2 ^ 32 → i_state s = varint (zlen b) ++ b ++ rest →
  zlen (varint (zlen b)) + zlen b <= i_bytes_left s →
  ∃ sub s1, pb_make_string_substream s = Some (Some sub, s1) ∧
    sub = mk_istream (b ++ rest) (zlen b) (i_errmsg s) ∧
    i_bytes_left s1 = i_bytes_left s - zlen (varint (zlen b)) - zlen b ∧
    i_errmsg s1 = i_errmsg s.
Proof.
  intros Hb Hs Hl. unfold pb_make_string_substream, dbind.
  rewrite (parses_varint32 (zlen b)) with (rest := b ++ rest) by
    (done || (unfold is_uint; lia)).
  simpl. destruct (Z.ltb_spec (i_bytes_left s - zlen (varint (zlen b))) (zlen b)); [lia|].
  eexists _, _. split; [done|]. rewrite Hs, drop_app_length. done.
Qed.

(** Closing a substream that was read to its end moves the parent past it. *)
Lemma close_substream_parses b s rest sub s1 sub' :
  zlen b < 2 ^ 32 → i_state s = varint (zlen b) ++ b ++ rest →
  zlen (varint (zlen b)) + zlen b <= i_bytes_left s →
  pb_make_string_substream s = Some (Some sub, s1) →
  sub' = i_drop (length b) sub →
  pb_close_string_substream s1 sub' = i_drop (length (varint (zlen b) ++ b)) s.
Proof.
  intros Hb Hs Hl Hm ->.
  destruct (make_substream_parses b s rest Hb Hs Hl) as (? & ? & Hm' & -> & Hleft & Herr).
  rewrite Hm in Hm'. simplify_eq. unfold pb_close_string_substream, i_drop. simpl.
  rewrite Hs, Hleft, app_assoc, !drop_app_length, length_app. f_equal. lia.
Qed.

(** ** Skipping *)

Lemma skip_varint_loop_safe fuel s :
  iwf s → (Z.to_nat (i_bytes_left s) < fuel)%nat →
  ∃ r s', skip_varint_loop fuel s = Some (r, s') ∧ i_advance s s' ∧
    match r with Some _ => i_bytes_left s' + 1 <= i_bytes_left s | None => True end.
Proof.
  revert s; induction fuel as [|fuel IH]; intros s Hs Hf; [lia|]. cbn [skip_varint_loop]. unfold dbind.
  destruct (safe_read 1 ltac:(lia) s Hs) as (r & s1 & -> & Ha & Hr). simpl.
  destruct r as [b|]; [|by exists None, s1]. destruct Hr as [_ Hl].
  pose proof (i_advance_wf _ _ Hs Ha) as Hs1.
  case_match; [exists (Some ()), s1; split; [done|split; [done|lia]]|].
  destruct (IH s1 Hs1) as (r & s2 & Hr & Ha2 & Hk); [destruct Hs1 as [[??]?]; lia|].
  exists r, s2. split; [done|]. split; [by eapply i_advance_trans|]. destruct r; [lia|done].
Qed.

(** A tag is read whole, and is less than [2^29]. *)
Lemma decode_tag_safe s :
  iwf s → ∃ r eof s1, pb_decode_tag s = Some (r, eof, s1) ∧ i_advance s s1 ∧
    (is_Some r → i_bytes_left s1 + 1 <= i_bytes_left s) ∧
    ∀ wt tag, r = Some (wt, tag) → 0 <= tag < 2 ^ 29.
Proof.
  intros Hs. unfold pb_decode_tag. destruct (safe_varint32 s Hs) as (r & s1 & -> & Ha & Hr). simpl.
  destruct r as [temp|]; [destruct Hr as [[H0 H1] Hk]; case_match|]; eexists _, _, _; (split; [done|split; [done|]]).
  1,3: split; [by intros []|done].
  split; [done|]. intros wt tag [= _ <-]. rewrite Z.shiftr_div_pow2 by lia.
  split; [apply Z.div_pos; lia|apply Z.div_lt_upper_bound; lia].
Qed.

Lemma safe_skip_varint : safe 1 (λ _, True) pb_skip_varint.
Proof.
  intros s Hs. unfold pb_skip_varint.
  destruct (skip_varint_loop_safe (S (length (i_state s))) s Hs) as (r & s' & Hr & Ha & Hk);
    [destruct Hs as [[??]?]; lia|].
  exists r, s'. split; [done|]. split; [done|]. by destruct r.
Qed.

Lemma safe_skip_field wt : safe 0 (λ _, True) (pb_skip_field wt).
Proof.
  unfold pb_skip_field, pb_skip_string.
  assert (∀ n, 0 <= n → safe 0 (λ _, True) (let! _ := pb_read n in dret ())) as Hread.
  { intros n Hn. apply (safe_weaken n 0 (λ _, True) _); [|lia|done].
    eapply safe_bind0; [by apply safe_read|]. intros. by apply safe_ret. }
  repeat case_match; [|by apply Hread| |by apply Hread|apply safe_fail].
  - apply (safe_weaken 1 0 (λ _, True) _); [apply safe_skip_varint|lia|done].
  - apply (safe_weaken 1 0 (λ _, True) _); [|lia|done].
    eapply safe_bind0; [apply safe_varint32|]. intros n Hn. by apply Hread, Hn.
Qed.

(** ** The properties of the primitives *)

(** A varint of any 64-bit value takes one to ten bytes, is written whole
    or not at all, and is read back as the value, by the 64-bit reader and,
    when the value fits, by the 32-bit one; the ten-byte buffer of the encoder
    is never exceeded. *)
Theorem varint_roundtrip (v : Z) (Hv : is_uint 64 v) :
  emits (pb_encode_varint v) (varint v) ∧ 1 <= zlen (varint v) <= 10 ∧
  (length (varint_loop 10 v) <= 10)%nat ∧
  parses pb_decode_varint (varint v) v ∧
  (is_uint 32 v → parses pb_decode_varint32 (varint v) v).
Proof.
  split; [by apply emits_varint|]. split; [apply varint_length|].
  split; [|split; [by apply parses_varint|apply parses_varint32]].
  assert (∀ n x, (length (varint_loop n x) <= n)%nat) as Hl; [|apply Hl].
  intros n. induction n as [|n IH]; intros x; simpl; [lia|]. case_match; simpl; [lia|].
  specialize (IH (Z.shiftr x 7)). lia.
Qed.

Lemma varint_roundtrip_witness :
  pb_decode_varint (pb_istream_from_buffer (varint 300 ++ [7]) 3) =
  Some (Some 300, mk_istream [7] 1 None) ∧ varint 300 = [0xAC; 0x02].
Proof.
  split; [|by vm_compute]. destruct (varint_roundtrip 300) as (_ & _ & _ & Hp & _); [by_compute|].
  rewrite (Hp _ [7]); by_compute.
Defined.

(** Every 64-bit signed integer survives zigzag coding, and every 32- and
    64-bit integer the fixed-width coding: what the encoder writes, the decoder
    reads back, and the widths are 4 and 8 bytes. *)
Theorem integer_codecs_roundtrip (v w x : Z)
    (Hv : is_sint 64 v) (Hw : is_uint 32 w) (Hx : is_uint 64 x) :
  (emits (pb_encode_svarint v) (varint (zigzag v)) ∧ parses pb_decode_svarint (varint (zigzag v)) v) ∧
  (emits (pb_encode_fixed32 w) (le_bytes 4 w) ∧ parses pb_decode_fixed32 (le_bytes 4 w) w) ∧
  (emits (pb_encode_fixed64 x) (le_bytes 8 x) ∧ parses pb_decode_fixed64 (le_bytes 8 x) x).
Proof.
  split; [|split]; split;
    auto using emits_svarint, parses_svarint, emits_fixed32, parses_fixed32, emits_fixed64, parses_fixed64.
Qed.

Lemma integer_codecs_roundtrip_witness :
  pb_decode_svarint (pb_istream_from_buffer (varint (zigzag (-5))) 1) =
    Some (Some (-5), mk_istream [] 0 None).
Proof.
  destruct (integer_codecs_roundtrip (-5) 1 1) as [[_ Hp] _]; [by_compute..|].
  rewrite (Hp _ []); by_compute.
Defined.

(** On any input, the primitive decoders terminate, never read outside the
    buffer nor past the bytes left, and what they accept has consumed at least
    the bytes it stands for. *)
Theorem primitive_decoders_safe :
  safe 1 (is_uint 64) pb_decode_varint ∧ safe 1 (is_uint 32) pb_decode_varint32 ∧
  safe 1 (is_sint 64) pb_decode_svarint ∧
  safe 4 (is_uint 32) pb_decode_fixed32 ∧ safe 8 (is_uint 64) pb_decode_fixed64 ∧
  (∀ count, 0 <= count → safe count (λ b, zlen b = count ∧ bytes_ok b) (pb_read count)) ∧
  (∀ wt, safe 0 (λ _, True) (pb_skip_field wt)).
Proof.
  split; [apply safe_varint|]. split; [apply safe_varint32|].
  split; [eapply safe_bind0; [apply safe_varint|]; intros; apply safe_ret, unzigzag_sint|].
  assert (∀ n, safe (Z.of_nat n) (is_uint (8 * Z.of_nat n))
            (let! b := pb_read (Z.of_nat n) in dret (or_bytes 0 b))) as Hfix.
  { intros n. eapply safe_bind0; [apply safe_read; lia|]. intros b [Hl Hb].
    apply safe_ret. rewrite or_bytes_spec, Z.mul_1_r, <-Hl by done. by apply of_le_range. }
  split; [apply (Hfix 4%nat)|]. split; [apply (Hfix 8%nat)|].
  split; [apply safe_read|apply safe_skip_field].
Qed.

(** The 32-bit reader drops the high bits of a fifth byte: [2^32] reads as 0. *)
Example varint32_truncates :
  pb_decode_varint32 (pb_istream_from_buffer (varint (2 ^ 32)) 5) = Some (Some 0, mk_istream [] 0 None).
Proof. by vm_compute. Qed.
