(* ===== verification/CuttlePb.v ===== *)
(** The message codec of [src/pb/cuttle-pb.c] (interface
    [include/cuttle/pb/pb.h]): messages are C structs described by arrays of
    field descriptors; [cf_pb_pack] serializes one, [cf_pb_unpack] reads one
    back.  The file models the descriptors, the memory of a message and every
    function of the source, and proves the encoder against the wire format
    ([wire_fields] of what the message means, [view]) and the decoder safe on
    any input. *)

From S2P Require Import Prelude CcArray PbStream.
Import CcArray.

Open Scope Z_scope.

(** ** Descriptors *)

(** [enum cf_pb_field_type]; [CF_PB_TYPE_OTHER] is any other value of the
    [uint8_t] that holds it. *)
Inductive cf_pb_field_type :=
| CF_PB_INT32 | CF_PB_UINT32 | CF_PB_INT64 | CF_PB_UINT64
| CF_PB_FIXED32 | CF_PB_SFIXED32 | CF_PB_FIXED64 | CF_PB_SFIXED64
| CF_PB_FLOAT | CF_PB_DOUBLE | CF_PB_BOOL | CF_PB_STRING | CF_PB_BYTES
| CF_PB_MESSAGE | CF_PB_TYPE_OTHER (code : Z).

(** [enum cf_pb_field_alloc_type], likewise. *)
Inductive cf_pb_field_alloc_type :=
| CF_PB_SCALAR | CF_PB_ARRAY | CF_PB_ONEOF | CF_PB_ALLOC_OTHER (code : Z).

#[export] Instance cf_pb_field_type_eq_dec : EqDecision cf_pb_field_type.
Proof. solve_decision. Defined.
#[export] Instance cf_pb_field_alloc_type_eq_dec : EqDecision cf_pb_field_alloc_type.
Proof. solve_decision. Defined.

(** [struct cf_pb_field_t].  [ptr] is the descriptor array of a submessage, an
    index of the program's table of descriptor arrays, [None] for [NULL]. *)
Record cf_pb_field_t := mk_field {
  tag : Z;
  pbtype : cf_pb_field_type;
  alloctype : cf_pb_field_alloc_type;
  item_size : Z;
  item_offset : Z;
  has_offset : Z;
  ptr : option nat;
}.

#[export] Instance cf_pb_field_t_eq_dec : EqDecision cf_pb_field_t.
Proof. solve_decision. Defined.

(** [(uint16_t)(-1)]: the field has no flag. *)
Definition NO_HAS : Z := 0xFFFF.

(** The macros of [pb.h], with the offsets the compiler gives the members. *)
Definition CF_PB_REQUIRED_FIELD tag pbtype alloc size off ptr : cf_pb_field_t :=
  mk_field tag pbtype alloc size off NO_HAS ptr.
Definition CF_PB_OPTIONAL_FIELD tag pbtype alloc size off has ptr : cf_pb_field_t :=
  mk_field tag pbtype alloc size off has ptr.
Definition CF_PB_ONEOF_FIELD tag pbtype size off tagoff ptr : cf_pb_field_t :=
  mk_field tag pbtype CF_PB_ONEOF size off tagoff ptr.

(** ** The memory of a message *)

(** What a member holds: zeroed memory of any type, memory never written
    ([malloc]ed, or left by another type), an integer or a floating-point
    number of [w] bits, a flag, a [char *] with the memory it points to, a
    [cf_membuf], a struct of the type that descriptor array [desc] describes
    (the members written since it was zeroed, or not), or an array. *)
Inductive cell :=
| CZero
| CJunk
| CWord (w bits : Z)
| CBool (b : bool)
| CStr (p : option bytes)
| CBuf (data : option bytes) (size : Z)
| CMsg (desc : nat) (zeroed : bool) (members : list (Z * cell))
| CArr (a : ccarray cell).

(** A struct: the member at an offset, and what the other bytes hold. *)
Record msg := mk_msg { m_zeroed : bool; m_members : list (Z * cell) }.

Fixpoint assoc {A} (k : Z) (l : list (Z * A)) : option A :=
  match l with
  | [] => None
  | (k', a) :: l' => if k =? k' then Some a else assoc k l'
  end.

Definition msg_get (off : Z) (m : msg) : cell :=
  match assoc off (m_members m) with
  | Some c => c
  | None => if m_zeroed m then CZero else CJunk
  end.

Definition msg_set (off : Z) (c : cell) (m : msg) : msg :=
  mk_msg (m_zeroed m) ((off, c) :: m_members m).

(** Reading a member as a value of its type; [None]: the memory does not hold
    one. *)
Definition as_word (w : Z) (c : cell) : option Z :=
  match c with
  | CZero => Some 0
  | CWord w' b => if w =? w' then Some b else None
  | _ => None
  end.
Definition as_bool (c : cell) : option bool :=
  match c with CZero => Some false | CBool b => Some b | _ => None end.
Definition as_str (c : cell) : option (option bytes) :=
  match c with CZero => Some None | CStr p => Some p | _ => None end.
Definition as_buf (c : cell) : option (option bytes * Z) :=
  match c with CZero => Some (None, 0) | CBuf d n => Some (d, n) | _ => None end.
Definition as_arr (c : cell) : option (ccarray cell) :=
  match c with CZero => Some (mk_ccarray [] 0 0) | CArr a => Some a | _ => None end.
(** A struct may lie over any memory; what another type left there is junk. *)
Definition as_msg (p : nat) (c : cell) : msg :=
  match c with
  | CZero => mk_msg true []
  | CMsg p' z l => if decide (p = p') then mk_msg z l else mk_msg false []
  | _ => mk_msg false []
  end.
Definition of_msg (p : nat) (m : msg) : cell := CMsg p (m_zeroed m) (m_members m).

(** ** Fields *)

Definition cf_pb_field_has_data (field : cf_pb_field_t) (m : msg) : option bool :=
  if decide (alloctype field = CF_PB_ONEOF) then
    which ← as_word 32 (msg_get (has_offset field) m); Some (which =? tag field)
  else if has_offset field =? NO_HAS then Some true
  else as_bool (msg_get (has_offset field) m).

(** A descriptor array is the list of its fields before [CF_PB_LAST_FIELD]. *)
Definition cf_pb_find_tag (fields : list cf_pb_field_t) (t : Z) : option cf_pb_field_t :=
  snd <$> list_find (λ f, tag f = t) fields.

Definition cf_pb_wire_type (type : cf_pb_field_type) : Z :=
  match type with
  | CF_PB_INT32 | CF_PB_UINT32 | CF_PB_INT64 | CF_PB_UINT64 | CF_PB_BOOL => PB_WT_VARINT
  | CF_PB_FIXED32 | CF_PB_SFIXED32 | CF_PB_FLOAT => PB_WT_32BIT
  | CF_PB_FIXED64 | CF_PB_SFIXED64 | CF_PB_DOUBLE => PB_WT_64BIT
  | CF_PB_STRING | CF_PB_BYTES | CF_PB_MESSAGE => PB_WT_STRING
  | CF_PB_TYPE_OTHER _ => -1
  end.

Definition cf_pb_type_packable (type : cf_pb_field_type) : bool :=
  match type with
  | CF_PB_FIXED32 | CF_PB_SFIXED32 | CF_PB_FIXED64 | CF_PB_SFIXED64
  | CF_PB_INT32 | CF_PB_UINT32 | CF_PB_INT64 | CF_PB_UINT64 => true
  | _ => false
  end.

(** ** Encoding *)

(** The access of an encoder to the memory of its value. *)
Definition eload {A} (a : option A) (k : A → enc) : enc := λ s, x ← a; k x s.

Definition cf_pb_encode_int32 (v : cell) : enc :=
  eload (as_word 32 v) (λ b, pb_encode_svarint (i32 b)).
Definition cf_pb_encode_uint32 (v : cell) : enc := eload (as_word 32 v) pb_encode_varint.
Definition cf_pb_encode_int64 (v : cell) : enc :=
  eload (as_word 64 v) (λ b, pb_encode_svarint (i64 b)).
Definition cf_pb_encode_uint64 (v : cell) : enc := eload (as_word 64 v) pb_encode_varint.
Definition cf_pb_encode_fixed32 (v : cell) : enc := eload (as_word 32 v) pb_encode_fixed32.
Definition cf_pb_encode_fixed64 (v : cell) : enc := eload (as_word 64 v) pb_encode_fixed64.
Definition cf_pb_encode_bool (v : cell) : enc :=
  eload (as_bool v) (λ b, pb_encode_varint (Z.b2z b)).
Definition cf_pb_encode_float (v : cell) : enc := eload (as_word 32 v) pb_encode_fixed32.
Definition cf_pb_encode_double (v : cell) : enc := eload (as_word 64 v) pb_encode_fixed64.

(** [strlen(str)] of a [NULL] or unterminated string is undefined. *)
Definition cf_pb_encode_string (v : cell) : enc :=
  eload (p ← as_str v; str ← p; n ← c_str str; Some (str, zlen n))
    (λ '(str, n), pb_encode_string (Some str) n).

Definition cf_pb_encode_bytes (v : cell) : enc :=
  eload (as_buf v) (λ '(data, size), pb_encode_string data size).

Definition o_with_errmsg (e : option string) (s : ostream) : ostream :=
  mk_ostream (o_state s) (o_max_size s) (o_bytes_written s) e.

Section Encode.
(** The descriptor arrays of the program. *)
Context (D : nat → list cf_pb_field_t).
(** [cf_pb_encode], one level of nesting down. *)
Context (encode : list cf_pb_field_t → msg → enc).

Definition cf_pb_encode_submessage (field : cf_pb_field_t) (v : cell) : enc := λ s,
  match ptr field with
  | None => Some (false, o_set_error "invalid field descriptor" s)
  | Some p =>
    '(ok, sub) ← encode (D p) (as_msg p v) PB_OSTREAM_SIZING;
    if negb ok then Some (false, o_with_errmsg (o_errmsg sub) s)
    else
      let size := o_bytes_written sub in
      '(ok, s1) ← pb_encode_varint size s;
      if negb ok then Some (false, s1)
      else match o_state s1 with
      | None => pb_write None size s1
      | Some _ =>
        if o_max_size s1 <? u64 (o_bytes_written s1 + size)
        then Some (false, o_set_error "stream full" s1)
        else
          '(fok, sub) ← encode (D p) (as_msg p v) (mk_ostream (o_state s1) size 0 None);
          let s2 := mk_ostream (o_state sub) (o_max_size s1)
                      (u64 (o_bytes_written s1 + o_bytes_written sub)) (o_errmsg sub) in
          if fok && negb (o_bytes_written sub =? size)
          then Some (false, o_set_error "submsg size changed" s2)
          else Some (fok, s2)
      end
  end.

(** [None] is a [NULL] function pointer. *)
Definition cf_pb_encfunc (field : cf_pb_field_t) : option (cell → enc) :=
  match pbtype field with
  | CF_PB_INT32 => Some cf_pb_encode_int32
  | CF_PB_UINT32 => Some cf_pb_encode_uint32
  | CF_PB_INT64 => Some cf_pb_encode_int64
  | CF_PB_UINT64 => Some cf_pb_encode_uint64
  | CF_PB_FIXED32 | CF_PB_SFIXED32 => Some cf_pb_encode_fixed32
  | CF_PB_FIXED64 | CF_PB_SFIXED64 => Some cf_pb_encode_fixed64
  | CF_PB_BOOL => Some cf_pb_encode_bool
  | CF_PB_FLOAT => Some cf_pb_encode_float
  | CF_PB_DOUBLE => Some cf_pb_encode_double
  | CF_PB_STRING => Some cf_pb_encode_string
  | CF_PB_BYTES => Some cf_pb_encode_bytes
  | CF_PB_MESSAGE => Some (cf_pb_encode_submessage field)
  | CF_PB_TYPE_OTHER _ => None
  end.

Definition cf_pb_encode_scalar (field : cf_pb_field_t) (v : cell) (func : cell → enc) : enc :=
  oand (pb_encode_tag (cf_pb_wire_type (pbtype field)) (tag field)) (func v).

(** [for ( i = 0; i < count; ++i ) if ( !f(ccarray_peek(array, i)) ) goto end;]
    with [k] turns left. *)
Fixpoint each_item (f : cell → enc) (a : ccarray cell) (i k : nat) : enc :=
  match k with
  | O => λ s, Some (true, s)
  | S k' => oand (eload (ccarray_peek a i) f) (each_item f a (S i) k')
  end.

Definition cf_pb_encode_array (field : cf_pb_field_t) (v : cell) (func : cell → enc) : enc :=
  eload (as_arr v) (λ a s,
  let count := ccarray_size (Some a) in
  if (count <? 1)%nat then Some (true, s)
  else
    let wiretype := cf_pb_wire_type (pbtype field) in
    if negb (cf_pb_type_packable (pbtype field)) then
      each_item (λ c, oand (pb_encode_tag wiretype (tag field)) (func c)) a 0 count s
    else
      '(ok, s1) ← pb_encode_tag PB_WT_STRING (tag field) s;
      if negb ok then Some (false, s1)
      else
        '(ok, size) ←
          (if wiretype =? PB_WT_32BIT then Some (true, u64 (4 * Z.of_nat count))
           else if wiretype =? PB_WT_64BIT then Some (true, u64 (8 * Z.of_nat count))
           else '(ok, sizestream) ← each_item func a 0 count PB_OSTREAM_SIZING;
                Some (ok, o_bytes_written sizestream));
        if negb ok then Some (false, s1)
        else
          '(ok, s2) ← pb_encode_varint size s1;
          if negb ok then Some (false, s2)
          else match o_state s2 with
               | None => pb_write None size s2
               | Some _ => each_item func a 0 count s2
               end).

Definition cf_pb_encode_field (field : cf_pb_field_t) (v : cell) : enc := λ s,
  match cf_pb_encfunc field with
  | None => Some (false, o_set_error "Invalid field type" s)
  | Some func =>
    match alloctype field with
    | CF_PB_SCALAR | CF_PB_ONEOF => cf_pb_encode_scalar field v func s
    | CF_PB_ARRAY => cf_pb_encode_array field v func s
    | CF_PB_ALLOC_OTHER _ => Some (false, o_set_error "Invalid field alloc type" s)
    end
  end.

(** The loop over the fields; it stops at the first failure. *)
Fixpoint encode_fields (fields : list cf_pb_field_t) (m : msg) : enc :=
  match fields with
  | [] => λ s, Some (true, s)
  | field :: fields' =>
    eload (cf_pb_field_has_data field m) (λ has : bool,
      if has
      then oand (cf_pb_encode_field field (msg_get (item_offset field) m)) (encode_fields fields' m)
      else encode_fields fields' m)
  end.
End Encode.

(** [depth] bounds the nesting of submessages: the call tree of the C function
    is finite because the message is. *)
Fixpoint cf_pb_encode (D : nat → list cf_pb_field_t) (depth : nat)
    (fields : list cf_pb_field_t) (m : msg) : enc :=
  match depth with
  | O => λ _, None
  | S depth' => encode_fields D (cf_pb_encode D depth') fields m
  end.

Definition cf_pb_get_encoded_size D depth (fields : list cf_pb_field_t) (m : msg) : option (bool * Z) :=
  '(fok, stream) ← cf_pb_encode D depth fields m PB_OSTREAM_SIZING;
  Some (fok, if (fok : bool) then o_bytes_written stream else 0).

(** ** Decoding *)

(** A field decoder: whether it succeeded, what its member holds, the stream. *)
Definition decf := cell → istream → option (bool * cell * istream).

(** Store the value the decoder [d] reads, when there is one. *)
Definition dstore {A} (d : dec A) (f : A → option cell) : decf := λ c s,
  '(r, s1) ← d s;
  match r with
  | Some a => match f a with Some c' => Some (true, c', s1) | None => Some (false, c, s1) end
  | None => Some (false, c, s1)
  end.

Definition INT32_MIN : Z := -2147483648.
Definition INT32_MAX : Z := 2147483647.
Definition UINT32_MAX : Z := 4294967295.

Definition cf_pb_decode_int32 : decf :=
  dstore pb_decode_svarint (λ val,
    if (INT32_MIN <=? val) && (val <=? INT32_MAX) then Some (CWord 32 (u32 val)) else None).
Definition cf_pb_decode_uint32 : decf :=
  dstore pb_decode_varint (λ val, if val <=? UINT32_MAX then Some (CWord 32 val) else None).
Definition cf_pb_decode_int64 : decf := dstore pb_decode_svarint (λ val, Some (CWord 64 (u64 val))).
Definition cf_pb_decode_uint64 : decf := dstore pb_decode_varint (λ val, Some (CWord 64 val)).
Definition cf_pb_decode_fixed32 : decf := dstore pb_decode_fixed32 (λ val, Some (CWord 32 val)).
Definition cf_pb_decode_fixed64 : decf := dstore pb_decode_fixed64 (λ val, Some (CWord 64 val)).
Definition cf_pb_decode_bool : decf :=
  dstore pb_decode_varint (λ boolval, Some (CBool (negb (boolval =? 0)))).
Definition cf_pb_decode_float : decf := dstore pb_decode_fixed32 (λ val, Some (CWord 32 val)).
Definition cf_pb_decode_double : decf := dstore pb_decode_fixed64 (λ val, Some (CWord 64 val)).

Section Decode.
(** Whether [malloc], and whether [realloc], finds a block of this size. *)
Context (malloc realloc : Z → bool).

Definition cf_pb_decode_string : decf := λ _ s,
  '(r, s1) ← pb_decode_varint s;
  match r with
  | None => Some (false, CStr None, s1)
  | Some size =>
    let alloc_size := u64 (size + 1) in
    if alloc_size <? size then Some (false, CStr None, i_set_error "size too large" s1)
    else if negb (malloc alloc_size) then Some (false, CStr None, i_set_error "malloc() fails" s1)
    else
      '(r, s2) ← pb_read size s1;
      match r with
      | None => Some (false, CStr None, i_set_error "pb_read() fails" s2)
      | Some str => Some (true, CStr (Some (str ++ [0])), s2)
      end
  end.

(** [if ( !fok && mbuf->data ) free(mbuf->data), mbuf->data = NULL;]: the
    failure path reads [mbuf->data]. *)
Definition free_data (c : cell) (s : istream) : option (bool * cell * istream) :=
  '(_, size) ← as_buf c; Some (false, CBuf None size, s).

Definition cf_pb_decode_bytes : decf := λ c s,
  '(r, s1) ← pb_decode_varint s;
  match r with
  | None => free_data c s1
  | Some size =>
    if 64 * 1024 <? size then free_data c (i_set_error "Too large array" s1)
    else if negb (malloc size) then
      (* [mbuf->data] has been overwritten with [NULL] *)
      Some (false, match as_buf c with Some (_, n) => CBuf None n | None => CJunk end,
            i_set_error "malloc() fails" s1)
    else
      '(r, s2) ← pb_read size s1;
      match r with
      | None => Some (false, match as_buf c with Some (_, n) => CBuf None n | None => CJunk end,
                      i_set_error "pb_read() fails" s2)
      | Some data => Some (true, CBuf (Some data) size, s2)
      end
  end.

Context (D : nat → list cf_pb_field_t).
(** [cf_pb_decode], on fewer bytes. *)
Context (decode : list cf_pb_field_t → msg → istream → option (bool * msg * istream)).

(** The parent gets the error message of the substream when it is closed. *)
Definition cf_pb_decode_submessage (field : cf_pb_field_t) : decf := λ c s,
  match ptr field with
  | None => Some (false, c, i_set_error "invalid field descriptor" s)
  | Some p =>
    '(r, s1) ← pb_make_string_substream s;
    match r with
    | None => Some (false, c, s1)
    | Some sub =>
      '(fok, m, sub) ← decode (D p) (as_msg p c) sub;
      Some (fok, of_msg p m, pb_close_string_substream s1 sub)
    end
  end.

Definition cf_pb_decfunc (field : cf_pb_field_t) : option decf :=
  match pbtype field with
  | CF_PB_INT32 => Some cf_pb_decode_int32
  | CF_PB_UINT32 => Some cf_pb_decode_uint32
  | CF_PB_INT64 => Some cf_pb_decode_int64
  | CF_PB_UINT64 => Some cf_pb_decode_uint64
  | CF_PB_FIXED32 | CF_PB_SFIXED32 => Some cf_pb_decode_fixed32
  | CF_PB_FIXED64 | CF_PB_SFIXED64 => Some cf_pb_decode_fixed64
  | CF_PB_BOOL => Some cf_pb_decode_bool
  | CF_PB_FLOAT => Some cf_pb_decode_float
  | CF_PB_DOUBLE => Some cf_pb_decode_double
  | CF_PB_STRING => Some cf_pb_decode_string
  | CF_PB_BYTES => Some cf_pb_decode_bytes
  | CF_PB_MESSAGE => Some (cf_pb_decode_submessage field)
  | CF_PB_TYPE_OTHER _ => None
  end.

(** The memory [malloc] and [realloc] give out: [n] slots never written. *)
Definition fresh (n : nat) : list cell := replicate n CJunk.

Definition array_init (cap : nat) (size : Z) (a : ccarray cell) : bool * ccarray cell :=
  ccarray_init (if malloc (u64 (Z.of_nat cap * size)) then Some (fresh cap) else None) cap a.

Definition array_realloc (cap : nat) (size : Z) (a : ccarray cell) : nat * ccarray cell :=
  ccarray_realloc
    (if realloc (u64 (Z.of_nat cap * size)) then Some (fresh (cap - a_capacity a)) else None) cap a.

(** [func(stream, field, ccarray_peek_end(array))]: undefined when the end is
    past the memory. *)
Definition at_end (func : decf) (a : ccarray cell) (s : istream) : option (bool * ccarray cell * istream) :=
  slot ← ccarray_peek_end a;
  '(fok, c, s1) ← func slot s;
  Some (fok, mk_ccarray (<[a_size a := c]> (a_items a)) (a_capacity a) (a_size a), s1).

Definition array_incr (a : ccarray cell) : ccarray cell :=
  mk_ccarray (a_items a) (a_capacity a) (S (a_size a)).

(** The loop over a packed array; a decoder that succeeds consumes a byte. *)
Fixpoint packed_loop (fuel : nat) (field : cf_pb_field_t) (func : decf) (a : ccarray cell)
    (sub : istream) (s : istream) : option (ccarray cell * istream * istream) :=
  match fuel with
  | O => None
  | S fuel' =>
    if i_bytes_left sub =? 0 then Some (a, sub, s)
    else
      '(fok, a1, sub1) ← at_end func a sub;
      if (fok : bool) then
        let a2 := array_incr a1 in
        if (a_capacity a2 <=? a_size a2)%nat then
          let cap := (a_capacity a2 + Z.to_nat (2 * i_bytes_left sub1 / item_size field) + 1)%nat in
          let '(ok, a3) := array_realloc cap (item_size field) a2 in
          if (ok =? 0)%nat
          then Some (a3, sub1, i_set_error "ccarray_realloc() fails" s)
          else packed_loop fuel' field func a3 sub1 s
        else packed_loop fuel' field func a2 sub1 s
      else Some (a1, sub1, s)
  end.

Definition cf_pb_decode_array (field : cf_pb_field_t) (wiretype : Z) (func : decf) : decf := λ c s,
  if (wiretype =? PB_WT_STRING) && cf_pb_type_packable (pbtype field) then
    '(r, s1) ← pb_make_string_substream s;
    match r with
    | None => Some (false, c, s1)
    | Some sub =>
      if item_size field =? 0 then None (* a division by zero *)
      else
        let cap := (Z.to_nat (2 * i_bytes_left sub / item_size field) + 1)%nat in
        let a0 := default (mk_ccarray [] 0 0) (as_arr c) in
        let '(ok, a) := array_init cap (item_size field) a0 in
        if negb ok then
          Some (false, match as_arr c with Some _ => CArr a | None => CJunk end,
                i_set_error "ccarray_init() fails" s1)
        else
          '(a', sub', s2) ← packed_loop (S (Z.to_nat (i_bytes_left sub))) field func a sub s1;
          let s3 := pb_close_string_substream s2 sub' in
          if negb (i_bytes_left sub' =? 0)
          then Some (false, CArr a', i_set_error "substream read error" s3)
          else Some (true, CArr a', s3)
    end
  else
    a0 ← as_arr c;
    let '(ok, a1) :=
      if (ccarray_capacity (Some a0) =? 0)%nat then array_init 64 (item_size field) a0 else (true, a0) in
    if negb ok then Some (false, CArr a1, i_set_error "ccarray_init() fails" s)
    else
      let '(ok, a2) :=
        if (ccarray_capacity (Some a1) <=? ccarray_size (Some a1))%nat
        then array_realloc (ccarray_capacity (Some a1) + 64) (item_size field) a1
        else (ccarray_capacity (Some a1), a1) in
      if (ok =? 0)%nat then Some (false, CArr a2, i_set_error "ccarray_realloc() fails" s)
      else
        '(fok, a3, s1) ← at_end func a2 s;
        if (fok : bool) then Some (true, CArr (array_incr a3), s1) else Some (false, CArr a3, s1).

Definition cf_pb_decode_field (wiretype : Z) (field : cf_pb_field_t) : decf := λ c s,
  match cf_pb_decfunc field with
  | None => Some (false, c, i_set_error "Invalid field type" s)
  | Some func =>
    match alloctype field with
    | CF_PB_ARRAY => cf_pb_decode_array field wiretype func c s
    | CF_PB_SCALAR | CF_PB_ONEOF =>
      if negb (wiretype =? cf_pb_wire_type (pbtype field))
      then Some (false, c, i_set_error "Invalid wire type" s)
      else func c s
    | CF_PB_ALLOC_OTHER _ => Some (false, c, i_set_error "Invalid field alloc type" s)
    end
  end.

(** What the loop does to the flags of a field it has read. *)
Definition mark_present (field : cf_pb_field_t) (m : msg) : msg :=
  if decide (alloctype field = CF_PB_ONEOF)
  then msg_set (has_offset field) (CWord 32 (tag field)) m
  else if has_offset field =? NO_HAS then m
  else msg_set (has_offset field) (CBool true) m.

(** After the loop: bytes that are left make the result [false]. *)
Definition decode_end (fok : bool) (m : msg) (s : istream) : option (bool * msg * istream) :=
  Some (if i_bytes_left s =? 0 then fok else false, m, s).
End Decode.

(** Every turn of the loop and every submessage is on fewer bytes: the bytes
    left bound the turns ([cf_pb_decode_safe]). *)
Fixpoint cf_pb_decode (malloc realloc : Z → bool) (D : nat → list cf_pb_field_t) (fuel : nat)
    (fields : list cf_pb_field_t) (m : msg) (s : istream) : option (bool * msg * istream) :=
  match fuel with
  | O => None
  | S fuel' =>
    if i_bytes_left s =? 0 then decode_end true m s
    else
      '(r, _, s1) ← pb_decode_tag s;
      match r with
      | None => decode_end true m s1
      | Some (wiretype, t) =>
        match cf_pb_find_tag fields t with
        | None =>
          '(r, s2) ← pb_skip_field wiretype s1;
          match r with
          | None => decode_end false m s2
          | Some _ => cf_pb_decode malloc realloc D fuel' fields m s2
          end
        | Some field =>
          '(fok, c, s2) ← cf_pb_decode_field malloc realloc D (cf_pb_decode malloc realloc D fuel') wiretype field
                            (msg_get (item_offset field) m) s1;
          let m1 := msg_set (item_offset field) c m in
          if negb fok then decode_end false m1 s2
          else cf_pb_decode malloc realloc D fuel' fields (mark_present field m1) s2
        end
      end
  end.

(** ** Messages to buffers and back *)

(** The size returned and what [*buf] points to. *)
Definition cf_pb_pack (malloc : Z → bool) D depth (m : msg) (fields : list cf_pb_field_t) :
    option (Z * option bytes) :=
  '(ok, size) ← cf_pb_get_encoded_size D depth fields m;
  if negb ok then Some (0, None)
  else if negb (malloc size) then Some (0, None)
  else
    '(ok, stream) ← cf_pb_encode D depth fields m (pb_ostream_from_buffer size);
    let size := if (ok : bool) then o_bytes_written stream else 0 in
    if size =? 0 then Some (0, None) else Some (size, o_state stream).

(** The fuel: each turn of the decoder takes a byte. *)
Definition cf_pb_unpack (malloc realloc : Z → bool) D (buf : bytes) (size : Z)
    (fields : list cf_pb_field_t) (m : msg) : option (bool * msg) :=
  '(ok, m', _) ← cf_pb_decode malloc realloc D (S (Z.to_nat size)) fields m (pb_istream_from_buffer buf size);
  Some (ok, m').

(** ** What a message means *)

(** The value of a field: a number, a byte string, a message (its fields that
    have data, in descriptor order) or the items of an array. *)
Inductive sval :=
| SInt (v : Z)
| SBytes (b : bytes)
| SMsg (fs : list (cf_pb_field_t * sval))
| SRep (vs : list sval).

Section View.
Context (D : nat → list cf_pb_field_t).
Context (view : list cf_pb_field_t → msg → option (list (cf_pb_field_t * sval))).

Definition view_word (w : Z) (c : cell) : option Z :=
  b ← as_word w c; if decide (is_uint w b) then Some b else None.

(** [None]: the memory does not hold a value of the type of the field. *)
Definition view_value (f : cf_pb_field_t) (c : cell) : option sval :=
  match pbtype f with
  | CF_PB_INT32 => SInt ∘ i32 <$> view_word 32 c
  | CF_PB_INT64 => SInt ∘ i64 <$> view_word 64 c
  | CF_PB_UINT32 | CF_PB_FIXED32 | CF_PB_SFIXED32 | CF_PB_FLOAT => SInt <$> view_word 32 c
  | CF_PB_UINT64 | CF_PB_FIXED64 | CF_PB_SFIXED64 | CF_PB_DOUBLE => SInt <$> view_word 64 c
  | CF_PB_BOOL => SInt ∘ Z.b2z <$> as_bool c
  | CF_PB_STRING => p ← as_str c; str ← p; SBytes <$> c_str str
  | CF_PB_BYTES =>
    '(data, size) ← as_buf c;
    if (0 <=? size) && (size <=? zlen (default [] data))
    then Some (SBytes (take (Z.to_nat size) (default [] data))) else None
  | CF_PB_MESSAGE => p ← ptr f; SMsg <$> view (D p) (as_msg p c)
  | CF_PB_TYPE_OTHER _ => None
  end.

Definition view_field (f : cf_pb_field_t) (c : cell) : option sval :=
  match alloctype f with
  | CF_PB_SCALAR | CF_PB_ONEOF => view_value f c
  | CF_PB_ARRAY =>
    a ← as_arr c;
    if (a_size a <=? length (a_items a))%nat then SRep <$> mapM (view_value f) (elems a) else None
  | CF_PB_ALLOC_OTHER _ => None
  end.

(** A tag of 32 bits and a type the codec knows. *)
Definition field_ok (f : cf_pb_field_t) : Prop :=
  is_uint 32 (tag f) ∧ 0 <= cf_pb_wire_type (pbtype f).
#[local] Instance field_ok_dec f : Decision (field_ok f).
Proof. unfold field_ok. apply _. Defined.

Fixpoint view_fields (fields : list cf_pb_field_t) (m : msg) : option (list (cf_pb_field_t * sval)) :=
  match fields with
  | [] => Some []
  | f :: fields' =>
    has ← cf_pb_field_has_data f m;
    rest ← view_fields fields' m;
    if (has : bool) then
      if decide (field_ok f) then
        v ← view_field f (msg_get (item_offset f) m); Some ((f, v) :: rest)
      else None
    else Some rest
  end.
End View.

Fixpoint view (D : nat → list cf_pb_field_t) (depth : nat) (fields : list cf_pb_field_t) (m : msg) :
    option (list (cf_pb_field_t * sval)) :=
  match depth with
  | O => None
  | S depth' => view_fields D (view D depth') fields m
  end.

(** ** The wire format *)

Definition wire_int (t : cf_pb_field_type) (v : Z) : bytes :=
  match t with
  | CF_PB_INT32 | CF_PB_INT64 => varint (zigzag v)
  | CF_PB_UINT32 | CF_PB_UINT64 | CF_PB_BOOL => varint v
  | CF_PB_FIXED32 | CF_PB_SFIXED32 | CF_PB_FLOAT => le_bytes 4 v
  | CF_PB_FIXED64 | CF_PB_SFIXED64 | CF_PB_DOUBLE => le_bytes 8 v
  | _ => []
  end.

Definition field_key (f : cf_pb_field_t) : bytes := varint (key (cf_pb_wire_type (pbtype f)) (tag f)).

(** A value without its key; a field with it: the items of an array are packed
    into one block when their type allows it, and written one by one when not;
    an empty array is not written. *)
Fixpoint wire_value (f : cf_pb_field_t) (v : sval) : bytes :=
  match v with
  | SInt n => wire_int (pbtype f) n
  | SBytes b => delimited b
  | SMsg fs =>
    delimited (flat_map (λ '(g, u),
      match u with
      | SRep [] => []
      | SRep us =>
        if cf_pb_type_packable (pbtype g)
        then varint (key PB_WT_STRING (tag g)) ++ delimited (flat_map (wire_value g) us)
        else flat_map (λ u, field_key g ++ wire_value g u) us
      | _ => field_key g ++ wire_value g u
      end) fs)
  | SRep us => flat_map (wire_value f) us
  end.

Definition wire_field (f : cf_pb_field_t) (v : sval) : bytes :=
  match v with
  | SRep [] => []
  | SRep us =>
    if cf_pb_type_packable (pbtype f)
    then varint (key PB_WT_STRING (tag f)) ++ delimited (flat_map (wire_value f) us)
    else flat_map (λ u, field_key f ++ wire_value f u) us
  | _ => field_key f ++ wire_value f v
  end.

Definition wire_fields (fs : list (cf_pb_field_t * sval)) : bytes :=
  flat_map (λ '(f, v), wire_field f v) fs.

Lemma wire_value_msg f fs : wire_value f (SMsg fs) = delimited (wire_fields fs).
Proof. simpl. do 2 f_equal. Qed.

(** ** The encoder writes the wire format *)

Lemma emits_load {A} (a : option A) x k b : a = Some x → emits (k x) b → emits (eload a k) b.
Proof. intros -> Hk. exact Hk. Qed.

Lemma pb_write_take d n :
  0 <= n <= zlen d → ∀ s, pb_write (Some d) n s = pb_write (Some (take (Z.to_nat n) d)) n s.
Proof.
  intros Hn s. unfold pb_write, buf_write. destruct (o_state s); [|done]. case_match; [done|].
  simpl. rewrite length_take, take_take. rewrite Nat.min_id. bool_cases. done.
Qed.

Lemma emits_string_prefix d n :
  0 <= n <= zlen d → emits (pb_encode_string (Some d) n) (delimited (take (Z.to_nat n) d)).
Proof.
  intros Hn. assert (n = zlen (take (Z.to_nat n) d)) as Hl by (rewrite length_take; lia).
  eapply emits_ext; [|apply (emits_delimited_string (Some (take (Z.to_nat n) d))); by right].
  intros s. rewrite <-Hl. unfold pb_encode_string, oand.
  destruct (pb_encode_varint n s) as [[[] s1]|]; simpl; [|done|done]. by rewrite <-pb_write_take.
Qed.

Lemma c_str_prefix mem b : c_str mem = Some b → ∃ rest, mem = b ++ 0 :: rest ∧ Forall (λ c, c ≠ 0) b.
Proof.
  revert b; induction mem as [|c mem IH]; intros b; simpl; [done|].
  destruct (Z.eqb_spec c 0) as [->|]; [intros [= <-]; by exists mem|].
  destruct (c_str mem) as [b'|]; [|done]. intros [= <-].
  destruct (IH b' eq_refl) as (rest & -> & ?). exists rest. split; [done|by constructor].
Qed.

Section EncodeSpec.
Context (D : nat → list cf_pb_field_t).
Context (encode : list cf_pb_field_t → msg → enc).
Context (view : list cf_pb_field_t → msg → option (list (cf_pb_field_t * sval))).
(** One level of nesting down, the encoder writes what the message means. *)
Hypothesis encode_emits : ∀ fields m fs, view fields m = Some fs → emits (encode fields m) (wire_fields fs).

Lemma emits_submessage f p c fs :
  ptr f = Some p → view (D p) (as_msg p c) = Some fs →
  emits (cf_pb_encode_submessage D encode f c) (delimited (wire_fields fs)).
Proof.
  intros Hp Hv. eapply emits_ext; [|apply (emits_two_pass false _ _ (encode_emits _ _ _ Hv))].
  intros s. unfold cf_pb_encode_submessage. rewrite Hp. reflexivity.
Qed.

Lemma view_word_inv w c b : view_word w c = Some b → as_word w c = Some b ∧ is_uint w b.
Proof. unfold view_word. destruct (as_word w c); simpl; [|done]. case_decide; naive_solver. Qed.

Lemma emits_value f c v :
  view_value D view f c = Some v →
  ∃ func, cf_pb_encfunc D encode f = Some func ∧ emits (func c) (wire_value f v).
Proof.
  unfold view_value, cf_pb_encfunc.
  destruct (pbtype f) eqn:Ht; intros Hv; try discriminate Hv; eexists; (split; [reflexivity|]).
  all: try (apply fmap_Some in Hv as (b & [Hb Hu]%view_word_inv & ->); eapply emits_load; [exact Hb|];
    simpl; rewrite Ht; simpl; first
      [ by apply emits_varint, (is_uint_le 32 64) | by apply emits_varint
      | by apply emits_fixed32 | by apply emits_fixed64
      | apply emits_svarint; pose proof (swrap_range 32 b ltac:(lia)) as [? ?]; split; lia
      | apply emits_svarint, swrap_range; lia ]).
  - apply fmap_Some in Hv as (b & Hb & ->). eapply emits_load; [exact Hb|]. simpl. rewrite Ht.
    apply emits_varint. by destruct b.
  - destruct (as_str c) as [[str|]|] eqn:Hs; try done. simpl in Hv.
    apply fmap_Some in Hv as (b & Hb & ->).
    eapply emits_load; [by rewrite Hs; simpl; rewrite Hb|]. simpl.
    destruct (c_str_prefix _ _ Hb) as (rest & -> & _).
    pose proof (emits_string_prefix (b ++ 0 :: rest) (zlen b)) as He.
    rewrite Nat2Z.id, take_app_length in He. apply He. rewrite length_app. lia.
  - destruct (as_buf c) as [[data size]|] eqn:Hb; [|done]. simpl in Hv.
    destruct (Z.leb_spec 0 size), (Z.leb_spec size (zlen (default [] data))); simpl in Hv; try done.
    injection Hv as <-. eapply emits_load; [exact Hb|]. simpl.
    destruct data as [d|]; simpl in *; [by apply emits_string_prefix|].
    assert (size = 0) as -> by lia. apply (emits_delimited_string None []). by left.
  - destruct (ptr f) as [p|] eqn:Hp; [|done]. simpl in Hv. apply fmap_Some in Hv as (fs & Hfs & ->).
    rewrite wire_value_msg. by eapply emits_submessage.
Qed.

Lemma value_wire_type f c v :
  view_value D view f c = Some v → 0 <= cf_pb_wire_type (pbtype f) < 8 ∧ ∀ us, v ≠ SRep us.
Proof.
  unfold view_value. intros Hv.
  destruct (pbtype f); (split; [by vm_compute|]); intros us ->; simpl in Hv;
    repeat match goal with
    | H : _ ≫= _ = Some _ |- _ => apply bind_Some in H as (? & ? & H)
    | H : _ <$> _ = Some _ |- _ => apply fmap_Some in H as (? & ? & H)
    | H : context [let '(_, _) := ?p in _] |- _ => destruct p
    | H : context [if ?b then _ else _] |- _ => destruct b
    end; discriminate.
Qed.

Lemma emits_each (func : cell → enc) (g : sval → bytes) a cs vs i :
  drop i (a_items a) = cs → Forall2 (λ c v, emits (func c) (g v)) (take (length vs) cs) vs →
  emits (each_item func a i (length vs)) (flat_map g vs).
Proof.
  revert i cs; induction vs as [|v vs IH]; intros i cs Hd Hall; [apply emits_nil|].
  destruct cs as [|c cs]; simpl in Hall; [by inversion Hall|]. inversion_clear Hall.
  cbn [each_item length flat_map]. apply emits_and.
  - eapply emits_load; [|done]. unfold ccarray_peek.
    by rewrite <-(Nat.add_0_r i), <-lookup_drop, Hd.
  - apply (IH (S i) cs); [|done]. by rewrite <-Nat.add_1_r, <-drop_drop, Hd.
Qed.

Lemma mapM_length_elems f a vs :
  (a_size a <= length (a_items a))%nat → mapM (view_value D view f) (elems a) = Some vs →
  length vs = a_size a.
Proof.
  intros Hs Hv. apply length_mapM in Hv. rewrite <-Hv. unfold elems. rewrite length_take. lia.
Qed.

Lemma emits_items f func (g : sval → bytes) (e : cell → enc) a vs :
  cf_pb_encfunc D encode f = Some func →
  (a_size a <= length (a_items a))%nat → mapM (view_value D view f) (elems a) = Some vs →
  (∀ c v, view_value D view f c = Some v → emits (func c) (wire_value f v) → emits (e c) (g v)) →
  emits (each_item e a 0 (length vs)) (flat_map g vs).
Proof.
  intros Hf Hs Hv He. apply (emits_each e g a (a_items a)); [done|].
  rewrite (mapM_length_elems f a vs) by done. fold (elems a).
  apply mapM_Some in Hv. eapply Forall2_impl; [exact Hv|]. intros c v Hcv.
  destruct (emits_value f c v Hcv) as (func' & Hf' & Hem). simplify_eq. by apply He.
Qed.

Lemma fixed_value_length f c v :
  view_value D view f c = Some v → cf_pb_type_packable (pbtype f) = true →
  (cf_pb_wire_type (pbtype f) = PB_WT_32BIT → length (wire_value f v) = 4%nat) ∧
  (cf_pb_wire_type (pbtype f) = PB_WT_64BIT → length (wire_value f v) = 8%nat).
Proof.
  unfold view_value. intros Hv Hp.
  destruct (pbtype f) eqn:Ht; try done;
    apply fmap_Some in Hv as (b & _ & ->); simpl; rewrite Ht; (split; [try done|try done]);
    intros _; simpl wire_int; apply length_le_bytes.
Qed.

Lemma flat_map_length {A B} (g : A → list B) n l :
  (∀ x, x ∈ l → length (g x) = n) → length (flat_map g l) = (n * length l)%nat.
Proof.
  induction l as [|x l IH]; intros Hg; simpl; [lia|].
  rewrite length_app, Hg, IH by set_solver. lia.
Qed.

(** The size announced before a packed array is that of its items. *)
Lemma packed_size f func a vs :
  cf_pb_encfunc D encode f = Some func → cf_pb_type_packable (pbtype f) = true →
  (a_size a <= length (a_items a))%nat → mapM (view_value D view f) (elems a) = Some vs →
  let w := flat_map (wire_value f) vs in
  zlen w < 2 ^ 64 →
  (if cf_pb_wire_type (pbtype f) =? PB_WT_32BIT then Some (true, u64 (4 * zlen vs))
   else if cf_pb_wire_type (pbtype f) =? PB_WT_64BIT then Some (true, u64 (8 * zlen vs))
   else '(ok, sizestream) ← each_item func a 0 (length vs) PB_OSTREAM_SIZING;
        Some (ok, o_bytes_written sizestream)) = Some (true, zlen w).
Proof.
  intros Hf Hp Hs Hv w Hw.
  assert (∀ n, (∀ c v, view_value D view f c = Some v → length (wire_value f v) = n) →
    length w = (n * length vs)%nat) as Hlen.
  { intros n Hn. apply flat_map_length. intros v Hin.
    apply mapM_Some in Hv. apply list_elem_of_lookup in Hin as [i Hi].
    destruct (Forall2_lookup_r _ _ _ _ _ Hv Hi) as (c & _ & Hc). by eapply Hn. }
  destruct (Z.eqb_spec (cf_pb_wire_type (pbtype f)) PB_WT_32BIT) as [H32|];
    [|destruct (Z.eqb_spec (cf_pb_wire_type (pbtype f)) PB_WT_64BIT) as [H64|]].
  - specialize (Hlen 4%nat (λ c v Hc, proj1 (fixed_value_length f c v Hc Hp) H32)).
    rewrite uwrap_id by (unfold is_uint; lia). do 2 f_equal. lia.
  - specialize (Hlen 8%nat (λ c v Hc, proj2 (fixed_value_length f c v Hc Hp) H64)).
    rewrite uwrap_id by (unfold is_uint; lia). do 2 f_equal. lia.
  - rewrite (emits_sizing _ w); [done| |done]. by eapply emits_items.
Qed.

Lemma emits_array f c func a vs :
  cf_pb_encfunc D encode f = Some func → is_uint 32 (tag f) → as_arr c = Some a →
  (a_size a <= length (a_items a))%nat → mapM (view_value D view f) (elems a) = Some vs →
  emits (cf_pb_encode_array f c func) (wire_field f (SRep vs)).
Proof.
  intros Hf Ht Ha Hs Hv. eapply emits_load; [exact Ha|]. cbn [ccarray_size].
  rewrite <-(mapM_length_elems f a vs) by done.
  destruct vs as [|v0 vs0]; [apply emits_nil|]. set (vs := v0 :: vs0) in *.
  change (length vs <? 1)%nat with false. cbv iota.
  change (wire_field f (SRep vs)) with
    (if cf_pb_type_packable (pbtype f)
     then varint (key PB_WT_STRING (tag f)) ++ delimited (flat_map (wire_value f) vs)
     else flat_map (λ u, field_key f ++ wire_value f u) vs).
  destruct (cf_pb_type_packable (pbtype f)) eqn:Hp; simpl negb; cbv iota.
  2: { eapply (emits_items f func); [done..|]. intros c' v Hc Hem.
       apply emits_and; [|done]. apply emits_tag; [|done]. by eapply value_wire_type. }
  set (w := flat_map (wire_value f) vs).
  apply emits_guard. intros Hlt. unfold delimited in Hlt |- *. rewrite !length_app in Hlt.
  assert (emits (each_item func a 0 (length vs)) w) as Hitems by (by eapply emits_items).
  assert (emits (oand (pb_encode_varint (zlen w)) (λ s2,
    match o_state s2 with
    | None => pb_write None (zlen w) s2
    | Some _ => each_item func a 0 (length vs) s2
    end)) (varint (zlen w) ++ w)) as Hblock.
  { apply emits_and; [apply emits_varint; unfold is_uint; lia|].
    split; intros s Hos Hb Hr.
    - destruct (o_state s) eqn:Hst; [by apply (emits_room _ _ Hitems)|].
      unfold pb_write, o_count, o_put. rewrite Hst. destruct Hos as [[? _] _].
      by rewrite (uwrap_id 64) by (unfold is_uint; lia).
    - destruct (o_state s) eqn:Hst; [by apply (emits_full _ _ Hitems)|].
      destruct Hr. by intros [? Hx]; rewrite Hst in Hx. }
  eapply emits_ext; [|apply (emits_and _ _ _ _ (emits_tag PB_WT_STRING (tag f) ltac:(by compute) Ht) Hblock)].
  intros s. unfold oand at 1. destruct (pb_encode_tag PB_WT_STRING (tag f) s) as [[[] s1]|]; try done.
  pose proof (packed_size f func a vs Hf Hp Hs Hv ltac:(unfold w in *; lia)) as Hsz.
  simpl mbind. simpl in Hsz |- *. rewrite Hsz. simpl. unfold oand, w.
  destruct (pb_encode_varint _ s1) as [[[] s2]|]; done.
Qed.

Lemma emits_field f c v :
  field_ok f → view_field D view f c = Some v →
  emits (cf_pb_encode_field D encode f c) (wire_field f v).
Proof.
  intros [Ht Hty] Hv. unfold view_field in Hv. unfold cf_pb_encode_field.
  assert (∀ v', view_value D view f c = Some v' → wire_field f v' = field_key f ++ wire_value f v') as Hwf.
  { intros v' Hv'. destruct (value_wire_type _ _ _ Hv') as [_ Hns].
    destruct v'; try done. by destruct (Hns vs). }
  destruct (alloctype f).
  1,3: destruct (emits_value _ _ _ Hv) as (func & -> & Hem); rewrite Hwf by done;
    apply emits_and; [apply emits_tag; [by eapply value_wire_type|done]|done].
  - destruct (as_arr c) as [a|] eqn:Ha; [|done]. simpl in Hv.
    destruct (Nat.leb_spec (a_size a) (length (a_items a))); [|done].
    apply fmap_Some in Hv as (vs & Hvs & ->).
    destruct (cf_pb_encfunc D encode f) as [func|] eqn:Hf; [by eapply emits_array|].
    exfalso. unfold cf_pb_encfunc in Hf. by destruct (pbtype f).
  - done.
Qed.

Lemma emits_fields fields m fs :
  view_fields D view fields m = Some fs → emits (encode_fields D encode fields m) (wire_fields fs).
Proof.
  revert fs; induction fields as [|f fields IH]; intros fs; cbn [view_fields encode_fields].
  { intros [= <-]. apply emits_nil. }
  intros Hv. apply bind_Some in Hv as (has & Hhas & Hv). apply bind_Some in Hv as (rest & Hrest & Hv).
  eapply emits_load; [exact Hhas|]. destruct has; [|injection Hv as <-; by apply IH].
  case_decide as Hok; [|done]. apply bind_Some in Hv as (v & Hfv & [= <-]).
  apply emits_and; [by apply emits_field|by apply IH].
Qed.

End EncodeSpec.

(** What [cf_pb_encode] writes is the wire form of what the message means. *)
Lemma encode_emits D depth fields m fs :
  view D depth fields m = Some fs → emits (cf_pb_encode D depth fields m) (wire_fields fs).
Proof.
  revert fields m fs; induction depth as [|depth IH]; intros fields m fs; [done|].
  apply emits_fields, IH.
Qed.

(** ** The decoder is safe on any input *)

Section DecodeSafe.
Context (malloc realloc : Z → bool) (D : nat → list cf_pb_field_t).
(** The types of struct that may lie in memory never written: the items of a
    repeated field, the members of a union. *)
Context (J : nat → Prop).

(** A field whose decoder never reads the memory it is about to fill. *)
Definition blind (f : cf_pb_field_t) : Prop :=
  pbtype f ≠ CF_PB_BYTES ∧ (pbtype f = CF_PB_MESSAGE → ∀ p, ptr f = Some p → J p).

Definition junk_desc (fields : list cf_pb_field_t) : Prop :=
  ∀ f, f ∈ fields → alloctype f ≠ CF_PB_ARRAY ∧ blind f.

Record desc_ok (fields : list cf_pb_field_t) : Prop := {
  (** no division by a zero item size *)
  desc_size f : f ∈ fields → item_size f ≠ 0;
  desc_blind f : f ∈ fields → alloctype f = CF_PB_ARRAY ∨ alloctype f = CF_PB_ONEOF → blind f;
  (** members do not overlap, but for those of a union *)
  desc_item f g : f ∈ fields → g ∈ fields → item_offset f = item_offset g →
    f = g ∨ alloctype f = CF_PB_ONEOF ∧ alloctype g = CF_PB_ONEOF;
  desc_has f g : f ∈ fields → g ∈ fields →
    alloctype g = CF_PB_ONEOF ∨ has_offset g ≠ NO_HAS → has_offset g ≠ item_offset f;
}.

Hypothesis D_ok : ∀ p, desc_ok (D p).
Hypothesis J_ok : ∀ p, J p → junk_desc (D p).
Hypothesis realloc_ok : ∀ n, realloc n = true.

(** The slots past the items of an array hold nothing a decoder would trust. *)
Record arr_ok (a : ccarray cell) : Prop := {
  arr_wf_ok : wf a;
  arr_free i c : (a_size a <= i)%nat → a_items a !! i = Some c → c = CJunk ∨ ∃ w b, c = CWord w b;
}.

(** Memory that the decoder may be run on. *)
Inductive msg_ok : list cf_pb_field_t → msg → Prop :=
| msg_ok_intro fields m :
    (m_zeroed m = false → junk_desc fields) →
    (∀ f c, f ∈ fields → assoc (item_offset f) (m_members m) = Some c → cell_ok f c) →
    msg_ok fields m
with cell_ok : cf_pb_field_t → cell → Prop :=
| cell_arr f c a : alloctype f = CF_PB_ARRAY → as_arr c = Some a → arr_ok a → cell_ok f c
| cell_val f c : alloctype f ≠ CF_PB_ARRAY →
    (pbtype f = CF_PB_BYTES → is_Some (as_buf c)) →
    (pbtype f = CF_PB_MESSAGE → ∀ p, ptr f = Some p → c = CZero ∨ (∃ z l, c = CMsg p z l) ∨ J p) →
    (∀ p z l, c = CMsg p z l → msg_ok (D p) (mk_msg z l)) →
    cell_ok f c.

(** What [cell_val] asks of the memory of one value. *)
Definition val_ok (f : cf_pb_field_t) (c : cell) : Prop :=
  (pbtype f = CF_PB_BYTES → is_Some (as_buf c)) ∧
  (pbtype f = CF_PB_MESSAGE → ∀ p, ptr f = Some p → c = CZero ∨ (∃ z l, c = CMsg p z l) ∨ J p) ∧
  (∀ p z l, c = CMsg p z l → msg_ok (D p) (mk_msg z l)).

Lemma cell_val_ok f c : alloctype f ≠ CF_PB_ARRAY → val_ok f c ↔ cell_ok f c.
Proof.
  intros Hf. split; [intros (?&?&?); by apply cell_val|]. inversion 1; [done|]. by split_and!.
Qed.

Lemma zero_arr_ok : arr_ok (mk_ccarray [] 0 0).
Proof. split; [by split|]. intros i c _. done. Qed.

Lemma zero_msg_ok fields : msg_ok fields (mk_msg true []).
Proof. by constructor. Qed.

Lemma junk_msg_ok fields : junk_desc fields → msg_ok fields (mk_msg false []).
Proof. by constructor. Qed.

Lemma zero_cell_ok f : cell_ok f CZero.
Proof.
  destruct (decide (alloctype f = CF_PB_ARRAY)); [eapply cell_arr; [done..|apply zero_arr_ok]|].
  apply cell_val; [done|done|by left|done].
Qed.

(** A blind decoder runs on any memory whose structs are good. *)
Lemma blind_val_ok f c : blind f → (∀ p z l, c = CMsg p z l → msg_ok (D p) (mk_msg z l)) → val_ok f c.
Proof. intros [Hb Hm] Hc. split; [done|]. split; [auto|done]. Qed.

Lemma free_val_ok f c : blind f → c = CJunk ∨ (∃ w b, c = CWord w b) → val_ok f c.
Proof. intros Hf Hc. apply blind_val_ok; [done|]. intros p z l ->. naive_solver. Qed.

(** The struct a submessage decoder starts from. *)
Lemma as_msg_ok f c p : val_ok f c → pbtype f = CF_PB_MESSAGE → ptr f = Some p → msg_ok (D p) (as_msg p c).
Proof.
  intros (_ & Hm & Hs) Ht Hp. destruct (Hm Ht p Hp) as [->|[(z & l & ->)|HJ]]; simpl.
  - apply zero_msg_ok.
  - rewrite decide_True by done. by apply Hs.
  - destruct c; try apply junk_msg_ok, J_ok, HJ; simpl; [apply zero_msg_ok|].
    case_decide; [subst; by apply Hs|by apply junk_msg_ok, J_ok].
Qed.

Lemma msg_get_ok fields m f : msg_ok fields m → f ∈ fields → cell_ok f (msg_get (item_offset f) m).
Proof.
  destruct 1 as [fields m Hz Hm]. intros Hf. unfold msg_get.
  destruct (assoc _ _) as [c|] eqn:Ha; [by eapply Hm|].
  destruct (m_zeroed m) eqn:Hzm; [apply zero_cell_ok|].
  destruct (Hz eq_refl f Hf). apply cell_val_ok; [done|]. apply free_val_ok; auto.
Qed.

(** Storing what a field decoder left keeps the memory good. *)
Lemma msg_set_ok fields m f c :
  desc_ok fields → msg_ok fields m → f ∈ fields → cell_ok f c → msg_ok fields (msg_set (item_offset f) c m).
Proof.
  intros Hd Hm Hf Hc. destruct Hm as [fields m Hz Hm]. constructor; [done|].
  intros g c' Hg. simpl. destruct (Z.eqb_spec (item_offset g) (item_offset f)) as [He|]; [|by apply Hm].
  intros [= <-]. destruct (desc_item _ Hd g f Hg Hf He) as [->|[Hog Hof]]; [done|].
  apply cell_val_ok; [by rewrite Hog|]. apply blind_val_ok; [by apply (desc_blind _ Hd g); auto|].
  apply cell_val_ok in Hc; [apply Hc|by rewrite Hof].
Qed.

Lemma mark_present_ok fields m f :
  desc_ok fields → msg_ok fields m → f ∈ fields → msg_ok fields (mark_present f m).
Proof.
  intros Hd Hm Hf. unfold mark_present.
  assert (∀ c, alloctype f = CF_PB_ONEOF ∨ has_offset f ≠ NO_HAS →
    msg_ok fields (msg_set (has_offset f) c m)) as Hset.
  { intros c Hh. destruct Hm as [fields m Hz Hm]. constructor; [done|].
    intros g c' Hg. simpl.
    destruct (Z.eqb_spec (item_offset g) (has_offset f)) as [He|]; [|by apply Hm].
    by destruct (desc_has _ Hd g f Hg Hf Hh). }
  case_decide; [apply Hset; by left|].
  destruct (Z.eqb_spec (has_offset f) NO_HAS); [done|]. apply Hset. by right.
Qed.

(** *** Field decoders *)

(** [func] terminates without undefined behaviour on memory [P]; a success
    consumed at least [k] bytes and left memory [Q]. *)
Definition dsafe (k : Z) (P Q : cell → Prop) (func : decf) (s : istream) : Prop :=
  ∀ c, P c → ∃ ok c' s', func c s = Some (ok, c', s') ∧ i_advance s s' ∧
    (ok = true → Q c' ∧ i_bytes_left s' + k <= i_bytes_left s).

Lemma dstore_safe {A} k (P : A → Prop) (Q : cell → Prop) (R : cell → Prop) (d : dec A) f s :
  safe k P d → iwf s → (∀ a c, P a → f a = Some c → Q c) → dsafe k R Q (dstore d f) s.
Proof.
  intros Hd Hs HQ c _. unfold dstore. destruct (Hd s Hs) as (r & s1 & -> & Ha & Hr). simpl.
  destruct r as [a|]; [|by exists false, c, s1]. destruct Hr as [HP Hk].
  destruct (f a) as [c'|] eqn:Hf; [|by exists false, c, s1].
  exists true, c', s1. split; [done|]. split; [done|]. intros _. split; [by eapply HQ|done].
Qed.

Definition is_word (c : cell) : Prop := ∃ w b, c = CWord w b.

Lemma safe_fixed n : safe (Z.of_nat n) (λ _, True) (let! b := pb_read (Z.of_nat n) in dret (or_bytes 0 b)).
Proof. eapply safe_bind0; [apply safe_read; lia|]. intros. by apply safe_ret. Qed.

Lemma safe_svarint : safe 1 (λ _, True) pb_decode_svarint.
Proof. eapply safe_bind0; [apply safe_varint|]. intros. by apply safe_ret. Qed.

Lemma decode_string_safe P s :
  iwf s → dsafe 1 P (λ c, ∃ p, c = CStr p) (cf_pb_decode_string malloc) s.
Proof.
  intros Hs c _. unfold cf_pb_decode_string.
  destruct (safe_varint s Hs) as (r & s1 & -> & Ha & Hr). simpl.
  pose proof (i_advance_wf _ _ Hs Ha) as Hs1.
  destruct r as [size|]; [|by exists false, (CStr None), s1]. destruct Hr as [[Hn _] Hk].
  case_match; [by eexists false, _, _|]. case_match; [by eexists false, _, _|].
  destruct (safe_read size Hn s1 Hs1) as (r & s2 & -> & Ha2 & Hr2). simpl.
  pose proof (i_advance_trans _ _ _ Ha Ha2).
  destruct r as [str|]; [|by eexists false, _, _].
  eexists true, _, s2. split; [done|]. split; [done|]. intros _. split; [by eexists|lia].
Qed.

Lemma decode_bytes_safe s :
  iwf s → dsafe 1 (λ c, is_Some (as_buf c)) (λ c, ∃ d n, c = CBuf d n) (cf_pb_decode_bytes malloc) s.
Proof.
  intros Hs c [[d0 n0] Hc]. unfold cf_pb_decode_bytes, free_data.
  destruct (safe_varint s Hs) as (r & s1 & -> & Ha & Hr). simpl. rewrite Hc. simpl.
  pose proof (i_advance_wf _ _ Hs Ha) as Hs1.
  destruct r as [size|]; [|by eexists false, _, s1]. destruct Hr as [[Hn _] Hk].
  case_match; [by eexists false, _, _|]. case_match; [by eexists false, _, _|].
  destruct (safe_read size Hn s1 Hs1) as (r & s2 & -> & Ha2 & Hr2). simpl.
  pose proof (i_advance_trans _ _ _ Ha Ha2).
  destruct r as [str|]; [|by eexists false, _, _].
  eexists true, _, s2. split; [done|]. split; [done|]. intros _. split; [by eexists _, _|lia].
Qed.

(** The integer and flag decoders read nothing of the memory. *)
Lemma decode_number_safe P decode f func s :
  cf_pb_decfunc malloc D decode f = Some func → iwf s →
  pbtype f ≠ CF_PB_STRING → pbtype f ≠ CF_PB_BYTES → pbtype f ≠ CF_PB_MESSAGE →
  dsafe 1 P (λ c, is_word c ∨ cf_pb_type_packable (pbtype f) = false ∧ ∃ b, c = CBool b) func s.
Proof.
  intros Hf Hs ???. unfold cf_pb_decfunc in Hf.
  destruct (pbtype f) eqn:Ht; try done; injection Hf as <-.
  all: eapply dstore_safe; [first
    [ apply safe_svarint | apply safe_varint
    | apply (safe_weaken 4 1 (λ _, True) _ _ (safe_fixed 4)); [lia|exact (λ _ H, H)]
    | apply (safe_weaken 8 1 (λ _, True) _ _ (safe_fixed 8)); [lia|exact (λ _ H, H)] ] |done|].
  all: intros a c _ Hc; cbv beta in Hc;
    repeat match type of Hc with context [if ?b then _ else _] => destruct b end; simplify_eq;
    unfold is_word; naive_solver.
Qed.

(** *** Substreams, arrays, fields *)

Lemma make_substream_safe s :
  iwf s → ∃ r s1, pb_make_string_substream s = Some (r, s1) ∧
    match r with
    | None => i_advance s s1
    | Some sub => iwf sub ∧ i_bytes_left sub < i_bytes_left s ∧ i_advance s s1 ∧
        ∀ sub' t, i_advance sub sub' → i_bytes_left t = i_bytes_left s1 →
          i_advance s (pb_close_string_substream t sub') ∧
          i_bytes_left (pb_close_string_substream t sub') + 1 <= i_bytes_left s
    end.
Proof.
  intros Hs. unfold pb_make_string_substream, dbind.
  destruct (safe_varint32 s Hs) as (r & s1 & -> & Ha & Hr). simpl.
  destruct r as [size|]; [|by exists None, s1]. destruct Hr as [[Hn _] Hk].
  destruct (i_advance_wf _ _ Hs Ha) as [[Hl0 Hl1] Hok].
  destruct (Z.ltb_spec (i_bytes_left s1) size).
  { eexists None, _. split; [done|]. by apply i_advance_set_error. }
  eexists (Some _), _. split; [done|]. simpl. split; [split; simpl; [lia|done]|]. split; [lia|].
  split; [destruct Ha as (n & ? & ? & ?); exists n; simpl; split; [done|split; [done|lia]]|].
  intros sub' t (m & Hm & Hst & Hlf) Ht. simpl in *. split; [|lia].
  destruct Ha as (n & Hn' & Hst1 & Hlf1). rewrite Hst1, drop_drop in Hst.
  rewrite Hst1, length_drop in Hm. exists (n + m)%nat. split; [lia|]. split; [done|].
  simpl. lia.
Qed.

Section Field.
Context (bound : Z).
Context (decode : list cf_pb_field_t → msg → istream → option (bool * msg * istream)).
(** [cf_pb_decode] is safe on fewer than [bound] bytes. *)
Hypothesis decode_safe : ∀ fields m s,
  desc_ok fields → msg_ok fields m → iwf s → i_bytes_left s < bound →
  ∃ ok m' s', decode fields m s = Some (ok, m', s') ∧ i_advance s s' ∧ (ok = true → msg_ok fields m').

Lemma submessage_safe f s :
  iwf s → i_bytes_left s <= bound → pbtype f = CF_PB_MESSAGE →
  dsafe 1 (val_ok f) (λ c, ∃ p z l, c = CMsg p z l ∧ ptr f = Some p ∧ msg_ok (D p) (mk_msg z l))
    (cf_pb_decode_submessage D decode f) s.
Proof.
  intros Hs Hb Ht c Hc. unfold cf_pb_decode_submessage. destruct (ptr f) as [p|] eqn:Hp.
  2: { eexists false, _, _. split; [done|]. split; [|done]. by apply i_advance_set_error, i_advance_refl. }
  destruct (make_substream_safe s Hs) as (r & s1 & -> & Hr). simpl.
  destruct r as [sub|]; [|by exists false, c, s1]. destruct Hr as (Hsub & Hlt & Hadv1 & Hclose).
  destruct (decode_safe (D p) (as_msg p c) sub) as (ok & m & sub' & -> & Ha & Hm);
    [apply D_ok|by eapply as_msg_ok|done|lia|]. simpl.
  destruct (Hclose sub' s1 Ha eq_refl). exists ok, (of_msg p m), (pb_close_string_substream s1 sub').
  split; [done|]. split; [done|]. intros ->. split; [|done].
  exists p, (m_zeroed m), (m_members m). split; [done|]. split; [done|]. destruct m. by apply Hm.
Qed.

(** A value decoder keeps its memory good. *)
Lemma value_safe f func s :
  cf_pb_decfunc malloc D decode f = Some func → iwf s → i_bytes_left s <= bound →
  dsafe 1 (val_ok f) (val_ok f) func s.
Proof.
  intros Hf Hs Hb.
  assert (∀ P Q : cell → Prop, (∀ c, val_ok f c → P c) → (∀ c, Q c → val_ok f c) →
    dsafe 1 P Q func s → dsafe 1 (val_ok f) (val_ok f) func s) as Hweak.
  { intros P Q HP HQ Hd c Hc. destruct (Hd c (HP c Hc)) as (ok & c' & s' & -> & Ha & Hr).
    exists ok, c', s'. split; [done|]. split; [done|]. intros ->. destruct (Hr eq_refl). auto. }
  destruct (decide (pbtype f = CF_PB_STRING)) as [Ht|];
    [|destruct (decide (pbtype f = CF_PB_BYTES)) as [Ht|];
      [|destruct (decide (pbtype f = CF_PB_MESSAGE)) as [Ht|]]].
  - unfold cf_pb_decfunc in Hf. rewrite Ht in Hf. injection Hf as <-.
    eapply Hweak; [|..|by apply (decode_string_safe (λ _, True))]; [done|].
    intros c [p ->]. split; [congruence|]. split; [congruence|done].
  - unfold cf_pb_decfunc in Hf. rewrite Ht in Hf. injection Hf as <-.
    eapply Hweak; [|..|by apply decode_bytes_safe]; [intros c Hc; by apply Hc|].
    intros c (d & sz & ->). split; [done|]. split; [congruence|done].
  - unfold cf_pb_decfunc in Hf. rewrite Ht in Hf. injection Hf as <-.
    eapply Hweak; [|..|by apply submessage_safe]; [done|].
    intros c (p & z & l & -> & Hp & Hm). split; [congruence|].
    split; [intros _ q Hq; right; left; simplify_eq; eauto|]. by intros ??? [= <- <- <-].
  - eapply Hweak; [|..|by apply (decode_number_safe (λ _, True) decode f)]; [done|].
    intros c [(w & b & ->)|(_ & b & ->)]; (split; [done|split; [done|done]]).
Qed.

Lemma at_end_safe k f func a s :
  arr_ok a → (a_size a < a_capacity a)%nat → blind f → dsafe k (val_ok f) (val_ok f) func s →
  ∃ ok c s', at_end func a s =
      Some (ok, mk_ccarray (<[a_size a := c]> (a_items a)) (a_capacity a) (a_size a), s') ∧
    i_advance s s' ∧ (ok = true → i_bytes_left s' + k <= i_bytes_left s) ∧
    ∃ c0, (c0 = CJunk ∨ is_word c0) ∧ func c0 s = Some (ok, c, s').
Proof.
  intros [[Hl Hsz] Hfree] Hlt Hb Hd. unfold at_end, ccarray_peek_end.
  destruct (lookup_lt_is_Some_2 (a_items a) (a_size a)) as [c0 Hc0]; [lia|]. rewrite Hc0. simpl.
  pose proof (Hfree _ _ (le_n _) Hc0) as Hjunk.
  destruct (Hd c0) as (ok & c & s' & Hf & Ha & Hr); [by apply free_val_ok|].
  rewrite Hf. simpl. exists ok, c, s'. split; [done|]. split; [done|].
  split; [intros ->; by apply Hr|]. by exists c0.
Qed.

(** One more item in use: whatever was decoded into it, the free slots stay free. *)
Lemma incr_ok a c :
  arr_ok a → (a_size a < a_capacity a)%nat →
  arr_ok (array_incr (mk_ccarray (<[a_size a := c]> (a_items a)) (a_capacity a) (a_size a))).
Proof.
  intros [[Hl Hsz] Hfree] Hlt. split; [split; simpl; [by rewrite length_insert|lia]|].
  intros i c' Hi Hc'. simpl in *. rewrite list_lookup_insert_ne in Hc' by lia. eapply Hfree; [|done]. lia.
Qed.

Lemma realloc_arr_ok cap size a :
  arr_ok a → (a_capacity a <= cap)%nat →
  (array_realloc realloc cap size a).1 = cap ∧ arr_ok (array_realloc realloc cap size a).2 ∧
  a_capacity (array_realloc realloc cap size a).2 = cap ∧
  a_size (array_realloc realloc cap size a).2 = a_size a.
Proof.
  intros [[Hl Hsz] Hfree] Hc. unfold array_realloc, ccarray_realloc. rewrite realloc_ok. simpl.
  destruct (Nat.ltb_spec cap (a_size a)); [lia|]. split; [done|]. split; [|done].
  split; [split; simpl; [|lia]|].
  - rewrite length_take, length_app. unfold fresh. rewrite length_replicate. lia.
  - intros i c Hi Hc'. simpl in *. apply lookup_take_Some in Hc' as [Hc' _].
    apply lookup_app_Some in Hc' as [Hc'|[_ Hc']]; [by eapply Hfree|].
    apply lookup_replicate in Hc' as [-> _]. by left.
Qed.

Lemma init_arr_ok cap size a0 :
  (array_init malloc cap size a0).1 = true →
  arr_ok (array_init malloc cap size a0).2 ∧ a_capacity (array_init malloc cap size a0).2 = cap ∧
  a_size (array_init malloc cap size a0).2 = 0%nat.
Proof.
  unfold array_init, ccarray_init. destruct (malloc _); simpl; [|done]. intros _.
  split; [|done]. split; [split; simpl; [apply length_replicate|lia]|].
  intros i c _ Hc. simpl in Hc. apply lookup_replicate in Hc as [-> _]. by left.
Qed.

(** The decoder of a packable type leaves a word, or the slot as it was. *)
Definition word_decoder (func : decf) : Prop := ∀ s c, iwf s →
  ∃ ok c' s', func c s = Some (ok, c', s') ∧ i_advance s s' ∧
    if (ok : bool) then is_word c' ∧ i_bytes_left s' + 1 <= i_bytes_left s else c' = c.

Lemma dstore_false {A} (d : dec A) f c s c' s' : dstore d f c s = Some (false, c', s') → c' = c.
Proof.
  unfold dstore. intros H. apply bind_Some in H as ([r s1] & _ & H).
  destruct r as [a|]; [destruct (f a)|]; congruence.
Qed.

Lemma packable_word_decoder f func :
  cf_pb_decfunc malloc D decode f = Some func → cf_pb_type_packable (pbtype f) = true → word_decoder func.
Proof.
  intros Hf Hp s c Hs.
  assert (pbtype f ≠ CF_PB_STRING ∧ pbtype f ≠ CF_PB_BYTES ∧ pbtype f ≠ CF_PB_MESSAGE) as (?&?&?)
    by (split_and!; intros Ht; by rewrite Ht in Hp).
  destruct (decode_number_safe (λ _, True) decode f func s Hf Hs ltac:(done) ltac:(done) ltac:(done) c I)
    as (ok & c' & s' & Hr & Ha & Hok).
  exists ok, c', s'. split; [done|]. split; [done|]. destruct ok.
  - destruct (Hok eq_refl) as [[Hw|[Hnp _]] Hk]; [done|congruence].
  - unfold cf_pb_decfunc in Hf. destruct (pbtype f); simplify_eq; by eapply dstore_false.
Qed.

Lemma insert_same {A} (l : list A) i x : l !! i = Some x → <[i:=x]> l = l.
Proof. apply list_insert_id. Qed.

Lemma packed_loop_safe f func fuel : word_decoder func → ∀ a sub s,
  arr_ok a → (a_size a < a_capacity a)%nat → iwf sub → (Z.to_nat (i_bytes_left sub) < fuel)%nat →
  ∃ a' sub' s', packed_loop realloc fuel f func a sub s = Some (a', sub', s') ∧
    i_advance sub sub' ∧ arr_ok a' ∧ i_bytes_left s' = i_bytes_left s.
Proof.
  intros Hfunc. induction fuel as [|fuel IH]; intros a sub s Ha Hlt Hsub Hf; [lia|].
  cbn [packed_loop]. destruct (Z.eqb_spec (i_bytes_left sub) 0).
  { exists a, sub, s. split; [done|]. split; [by apply i_advance_refl|done]. }
  unfold at_end, ccarray_peek_end. pose proof Ha as [[Hl Hsz] Hfree].
  destruct (lookup_lt_is_Some_2 (a_items a) (a_size a)) as [c0 Hc0]; [lia|]. rewrite Hc0. simpl.
  destruct (Hfunc sub c0 Hsub) as (ok & c & sub1 & -> & Ha1 & Hok). simpl.
  pose proof (i_advance_wf _ _ Hsub Ha1) as Hsub1.
  destruct ok.
  2: { subst c. eexists _, _, _. split; [done|]. split; [done|]. split; [|done].
       rewrite insert_same by done. by destruct a. }
  destruct Hok as [_ Hk]. pose proof (incr_ok a c Ha Hlt) as Ha2. set (a2 := array_incr _) in *.
  assert ((Z.to_nat (i_bytes_left sub1) < fuel)%nat) as Hf1 by (destruct Hsub1 as [[??]?]; lia).
  change (a_size a2) with (S (a_size a)). change (a_capacity a2) with (a_capacity a).
  destruct (Nat.leb_spec (a_capacity a) (S (a_size a))).
  - set (cap := (a_capacity a + _ + 1)%nat).
    destruct (realloc_arr_ok cap (item_size f) a2 Ha2) as (Hr1 & Hr2 & Hr3 & Hr4); [simpl; lia|].
    destruct (array_realloc realloc cap (item_size f) a2) as [ok a3]. simpl in *. subst ok.
    destruct (Nat.eqb_spec cap 0); [lia|].
    destruct (IH a3 sub1 s Hr2) as (a' & sub' & s' & -> & ? & ? & ?); [lia|done|done|].
    exists a', sub', s'. split; [done|]. split; [by eapply i_advance_trans|done].
  - destruct (IH a2 sub1 s Ha2) as (a' & sub' & s' & -> & ? & ? & ?); [simpl; lia|done|done|].
    exists a', sub', s'. split; [done|]. split; [by eapply i_advance_trans|done].
Qed.

Definition arr_cell_ok (c : cell) : Prop := ∃ a, as_arr c = Some a ∧ arr_ok a.

Lemma array_safe f func wt s :
  cf_pb_decfunc malloc D decode f = Some func → iwf s → i_bytes_left s <= bound →
  item_size f ≠ 0 → blind f →
  dsafe 1 arr_cell_ok arr_cell_ok (cf_pb_decode_array malloc realloc f wt func) s.
Proof.
  intros Hf Hs Hb Hsz Hbl c (a0 & Ha0 & Hok0). unfold cf_pb_decode_array.
  destruct ((wt =? PB_WT_STRING) && cf_pb_type_packable (pbtype f)) eqn:Hp.
  - apply andb_true_iff in Hp as [_ Hp].
    destruct (make_substream_safe s Hs) as (r & s1 & -> & Hr). cbn [mbind option_bind].
    destruct r as [sub|]; [|by exists false, c, s1]. destruct Hr as (Hsub & Hlt & Hadv1 & Hclose).
    destruct (Z.eqb_spec (item_size f) 0); [done|]. rewrite Ha0. cbn [default from_option id].
    set (cap := (Z.to_nat _ + 1)%nat).
    pose proof (init_arr_ok cap (item_size f) a0) as Hinit.
    destruct (array_init malloc cap (item_size f) a0) as [[] a]; cbn [negb fst snd] in *.
    2: { eexists false, _, _. split; [done|]. split; [by apply i_advance_set_error|done]. }
    destruct (Hinit eq_refl) as (Ha & Hc & Hz).
    destruct (packed_loop_safe f func (S (Z.to_nat (i_bytes_left sub))) (packable_word_decoder _ _ Hf Hp)
                a sub s1 Ha) as (a' & sub' & s2 & -> & Hadv & Ha' & Hl2); [lia|done|lia|].
    cbn [mbind option_bind].
    destruct (Hclose sub' s2 Hadv Hl2). case_match; simpl.
    + eexists false, _, _. split; [done|]. split; [by apply i_advance_set_error|done].
    + eexists true, _, _. split; [done|]. split; [done|]. intros _. split; [by eexists|done].
  - rewrite Ha0. simpl.
    assert (∃ ok1 a1, (if (a_capacity a0 =? 0)%nat then array_init malloc 64 (item_size f) a0 else (true, a0))
        = (ok1, a1) ∧ (ok1 = true → arr_ok a1 ∧ (0 < a_capacity a1)%nat)) as (ok1 & a1 & -> & H1).
    { destruct (Nat.eqb_spec (a_capacity a0) 0).
      - pose proof (init_arr_ok 64 (item_size f) a0) as Hi.
        destruct (array_init malloc 64 (item_size f) a0) as [ok1 a1]. exists ok1, a1. split; [done|].
        intros ->. destruct (Hi eq_refl) as (?&?&?). simpl in *. split; [done|lia].
      - exists true, a0. split; [done|]. intros _. split; [done|lia]. }
    destruct ok1; simpl.
    2: { eexists false, _, _. split; [done|]. split; [by apply i_advance_set_error, i_advance_refl|done]. }
    destruct (H1 eq_refl) as [Ha1 Hc1].
    assert (∃ ok2 a2, (if (a_capacity a1 <=? a_size a1)%nat
        then array_realloc realloc (a_capacity a1 + 64) (item_size f) a1 else (a_capacity a1, a1)) = (ok2, a2) ∧
        ok2 ≠ 0%nat ∧ arr_ok a2 ∧ (a_size a2 < a_capacity a2)%nat) as (ok2 & a2 & -> & Hne & Ha2 & Hlt).
    { destruct (Nat.leb_spec (a_capacity a1) (a_size a1)).
      - destruct (realloc_arr_ok (a_capacity a1 + 64) (item_size f) a1 Ha1 ltac:(lia)) as (?&?&?&?).
        destruct (array_realloc _ _ _ a1) as [ok2 a2]. simpl in *. exists ok2, a2.
        split; [done|]. split; [lia|]. split; [done|]. destruct Ha1 as [[??]?]. lia.
      - exists (a_capacity a1), a1. split; [done|]. split; [lia|done]. }
    destruct (Nat.eqb_spec ok2 0); [done|].
    destruct (at_end_safe 1 f func a2 s Ha2 Hlt Hbl) as (ok & c' & s' & -> & Hadv & Hk & _);
      [by apply value_safe|]. simpl.
    destruct ok.
    + eexists true, _, _. split; [done|]. split; [done|]. intros _. split; [|by apply Hk].
      eexists; split; [done|]. by apply incr_ok.
    + by eexists false, _, _.
Qed.

Lemma field_safe fields f wt s :
  desc_ok fields → f ∈ fields → iwf s → i_bytes_left s <= bound →
  dsafe 1 (cell_ok f) (cell_ok f) (cf_pb_decode_field malloc realloc D decode wt f) s.
Proof.
  intros Hd Hf Hs Hb c Hc. unfold cf_pb_decode_field.
  assert (∀ msg', ∃ ok c' s', Some (false, c, i_set_error msg' s) = Some (ok, c', s') ∧ i_advance s s' ∧
    (ok = true → cell_ok f c' ∧ i_bytes_left s' + 1 <= i_bytes_left s)) as Hfail.
  { intros msg'. eexists false, _, _. split; [done|].
    split; [by apply i_advance_set_error, i_advance_refl|done]. }
  destruct (cf_pb_decfunc malloc D decode f) as [func|] eqn:Hfn; [|apply Hfail].
  assert (alloctype f ≠ CF_PB_ARRAY → dsafe 1 (cell_ok f) (cell_ok f) func s) as Hval.
  { intros Hna c1 Hc1. apply cell_val_ok in Hc1; [|done].
    destruct (value_safe f func s Hfn Hs Hb c1 Hc1) as (ok & c' & s' & Hr & Ha & Hok).
    exists ok, c', s'. split; [done|]. split; [done|]. intros ->. rewrite <-cell_val_ok by done. auto. }
  destruct (alloctype f) eqn:Hat; [| | |apply Hfail].
  - case_match; [apply Hfail|]. by apply Hval.
  - inversion Hc as [? ? a0 ? Ha0 Hok0|]; subst; [|congruence].
    destruct (array_safe f func wt s Hfn Hs Hb (desc_size _ Hd _ Hf)
                (desc_blind _ Hd _ Hf (or_introl Hat)) c) as (ok & c' & s' & Hr & Ha & Hok); [by exists a0|].
    exists ok, c', s'. split; [done|]. split; [done|]. intros ->.
    destruct (Hok eq_refl) as [(a & ? & ?) ?]. split; [by eapply cell_arr|done].
  - case_match; [apply Hfail|]. by apply Hval.
Qed.
End Field.

Lemma decode_end_safe fields fok m s0 s :
  i_advance s0 s → (fok = true → msg_ok fields m) →
  ∃ ok m' s', decode_end fok m s = Some (ok, m', s') ∧ i_advance s0 s' ∧
    (ok = true → msg_ok fields m' ∧ i_bytes_left s' = 0).
Proof.
  intros Ha Hm. unfold decode_end. eexists _, _, _. split; [done|]. split; [done|].
  destruct (Z.eqb_spec (i_bytes_left s) 0); [|done]. auto.
Qed.

Lemma find_tag_in fields t f : cf_pb_find_tag fields t = Some f → f ∈ fields ∧ tag f = t.
Proof.
  unfold cf_pb_find_tag. intros ([i g] & Hl & ->)%fmap_Some. simpl.
  apply list_find_Some in Hl as (Hi & Ht & _). split; [by eapply list_elem_of_lookup_2|done].
Qed.

Lemma decode_safe fuel : ∀ fields m s,
  desc_ok fields → msg_ok fields m → iwf s → (Z.to_nat (i_bytes_left s) < fuel)%nat →
  ∃ ok m' s', cf_pb_decode malloc realloc D fuel fields m s = Some (ok, m', s') ∧ i_advance s s' ∧
    (ok = true → msg_ok fields m' ∧ i_bytes_left s' = 0).
Proof.
  induction fuel as [|fuel IH]; intros fields m s Hd Hm Hs Hf; [lia|]. cbn [cf_pb_decode].
  destruct (Z.eqb_spec (i_bytes_left s) 0); [by apply decode_end_safe; [apply i_advance_refl|]|].
  destruct (decode_tag_safe s Hs) as (r & eof & s1 & -> & Ha1 & Hk1 & _). cbn [mbind option_bind].
  destruct r as [[wt t]|]; [|by apply decode_end_safe]. specialize (Hk1 ltac:(done)).
  pose proof (i_advance_wf _ _ Hs Ha1) as Hs1.
  assert (Hrest : ∀ s2 m2, msg_ok fields m2 → i_advance s1 s2 →
    ∃ ok m' s', cf_pb_decode malloc realloc D fuel fields m2 s2 = Some (ok, m', s') ∧ i_advance s s' ∧
      (ok = true → msg_ok fields m' ∧ i_bytes_left s' = 0)).
  { intros s2 m2 Hm2 Ha2. pose proof (i_advance_wf _ _ Hs1 Ha2) as Hs2.
    destruct (IH fields m2 s2 Hd Hm2 Hs2) as (ok & m' & s' & -> & Ha3 & Hok).
    { destruct Ha2 as (? & ? & ? & ?). destruct Hs as [[??]?], Hs1 as [[??]?], Hs2 as [[??]?]. lia. }
    exists ok, m', s'. split; [done|]. split; [|done].
    by eapply i_advance_trans; [|eapply i_advance_trans]. }
  destruct (cf_pb_find_tag fields t) as [f|] eqn:Hft.
  - apply find_tag_in in Hft as [Hf_in _].
    assert (Hdec : ∀ fields' m' s', desc_ok fields' → msg_ok fields' m' → iwf s' →
      i_bytes_left s' < Z.of_nat fuel → ∃ ok m2 s2,
      cf_pb_decode malloc realloc D fuel fields' m' s' = Some (ok, m2, s2) ∧ i_advance s' s2 ∧
      (ok = true → msg_ok fields' m2)).
    { intros fields' m' s' ?? Hs' ?.
      destruct (IH fields' m' s') as (ok & m2 & s2 & ? & ? & Hok);
        [done..|destruct Hs' as [[??]?]; lia|].
      exists ok, m2, s2. split; [done|]. split; [done|]. intros ->. by apply Hok. }
    destruct (field_safe (Z.of_nat fuel) (cf_pb_decode malloc realloc D fuel) Hdec fields f wt s1
                Hd Hf_in Hs1 ltac:(destruct Hs as [[??]?]; lia) (msg_get (item_offset f) m))
      as (ok & c & s2 & -> & Ha2 & Hok); [by apply (msg_get_ok fields)|].
    cbn [mbind option_bind]. destruct ok; simpl.
    + destruct (Hok eq_refl) as [Hc _]. apply Hrest; [|done].
      apply mark_present_ok; [done| |done]. by apply msg_set_ok.
    + apply decode_end_safe; [by eapply i_advance_trans|done].
  - destruct (safe_skip_field wt s1 Hs1) as (r & s2 & -> & Ha2 & _). cbn [mbind option_bind].
    destruct r; [by apply Hrest|]. apply decode_end_safe; [by eapply i_advance_trans|done].
Qed.

End DecodeSafe.

(** C19: on any bytes whatsoever, [cf_pb_unpack] terminates, never reads outside
    the buffer, writes past no array and uses no memory it has not written, for
    any descriptors whose members do not overlap and whose repeated and union
    fields are of types that need no zeroed memory ([blind]), as long as
    [realloc] does not fail; whatever [malloc] does. *)
Theorem cf_pb_unpack_safe (malloc realloc : Z → bool) (D : nat → list cf_pb_field_t) (J : nat → Prop)
    (fields : list cf_pb_field_t) (buf : bytes) (size : Z)
    (HD : ∀ p, desc_ok J (D p)) (HJ : ∀ p, J p → junk_desc J (D p))
    (Hrealloc : ∀ n, realloc n = true)
    (Hfields : desc_ok J fields) (Hbuf : bytes_ok buf) (Hsize : 0 <= size <= zlen buf) :
  ∃ ok m, cf_pb_unpack malloc realloc D buf size fields (mk_msg true []) = Some (ok, m) ∧
    (ok = true → msg_ok D J fields m).
Proof.
  unfold cf_pb_unpack.
  destruct (decode_safe malloc realloc D J HD HJ Hrealloc (S (Z.to_nat size)) fields (mk_msg true [])
    (pb_istream_from_buffer buf size)) as (ok & m & s & -> & _ & Hok);
    [done|apply zero_msg_ok|done|simpl; lia|].
  exists ok, m. split; [done|]. intros ->. by apply Hok.
Qed.

(** *** An example program: two message types *)

Module Example1.

(** [message Sub { optional uint32 id; required string name; }] and
    [message Main { required int32 n; optional string s; repeated uint32 xs;
    repeated Sub subs; optional Sub one; oneof { bool a; Sub b; } }]. *)
Definition sub_fields : list cf_pb_field_t := [
  CF_PB_REQUIRED_FIELD 1 CF_PB_UINT32 CF_PB_SCALAR 4 0 None;
  CF_PB_REQUIRED_FIELD 2 CF_PB_STRING CF_PB_SCALAR 8 8 None ].

Definition main_fields : list cf_pb_field_t := [
  CF_PB_REQUIRED_FIELD 1 CF_PB_INT32 CF_PB_SCALAR 4 0 None;
  CF_PB_OPTIONAL_FIELD 2 CF_PB_STRING CF_PB_SCALAR 8 8 4 None;
  CF_PB_REQUIRED_FIELD 3 CF_PB_UINT32 CF_PB_ARRAY 4 16 None;
  CF_PB_REQUIRED_FIELD 4 CF_PB_MESSAGE CF_PB_ARRAY 16 48 (Some 1%nat);
  CF_PB_OPTIONAL_FIELD 5 CF_PB_MESSAGE CF_PB_SCALAR 16 80 5 (Some 1%nat);
  CF_PB_ONEOF_FIELD 6 CF_PB_BOOL 1 104 96 None;
  CF_PB_ONEOF_FIELD 7 CF_PB_MESSAGE 16 104 96 (Some 1%nat) ].

Definition table (p : nat) : list cf_pb_field_t :=
  match p with 0%nat => main_fields | 1%nat => sub_fields | _ => [] end.

Definition junk_ok (p : nat) : Prop := p ≠ 0%nat.

Ltac each_field :=
  unfold sub_fields, main_fields in *;
  repeat match goal with
  | H : _ ∈ _ :: _ |- _ => apply elem_of_cons in H as [->|H]
  | H : _ ∈ [] |- _ => by apply not_elem_of_nil in H
  end.

Lemma sub_desc_ok : desc_ok junk_ok sub_fields.
Proof.
  split.
  - intros f Hf. each_field; done.
  - intros f Hf Ha. unfold blind, junk_ok. each_field; simpl in *; (split; [done|naive_solver]).
  - intros f g Hf Hg Ho. each_field; simpl in *; first [by left|by right|lia].
  - intros f g Hf Hg Ho. each_field; simpl in *; first [lia|naive_solver].
Qed.

Lemma main_desc_ok : desc_ok junk_ok main_fields.
Proof.
  split.
  - intros f Hf. each_field; done.
  - intros f Hf Ha. unfold blind, junk_ok. each_field; simpl in *; (split; [done|naive_solver]).
  - intros f g Hf Hg Ho. each_field; simpl in *; first [by left|by right|lia].
  - intros f g Hf Hg Ho. each_field; simpl in *; first [lia|naive_solver].
Qed.

Lemma table_ok p : desc_ok junk_ok (table p).
Proof.
  destruct p as [|[|p]]; [apply main_desc_ok|apply sub_desc_ok|].
  simpl. split; intros; each_field.
Qed.

Lemma junk_table p : junk_ok p → junk_desc junk_ok (table p).
Proof.
  unfold junk_ok. destruct p as [|[|p]]; [done| |]; intros _ f Hf; simpl in Hf; each_field;
    (split; [done|split; done]).
Qed.

(** [n = -2; xs = [1; 300]; subs = [{7, "ab"}]; b = {9, "c"}], an unknown field 9
    and a truncated key. *)
Definition input : bytes :=
  [0x08; 0x03; 0x1A; 0x03; 0x01; 0xAC; 0x02; 0x22; 0x06; 0x08; 0x07; 0x12; 0x02; 0x61; 0x62;
   0x48; 0x05; 0x3A; 0x05; 0x08; 0x09; 0x12; 0x01; 0x63; 0x80].

Definition always (n : Z) : bool := true.

End Example1.

Lemma cf_pb_unpack_safe_witness :
  ∃ ok m, cf_pb_unpack Example1.always Example1.always Example1.table Example1.input 25
            Example1.main_fields (mk_msg true []) = Some (ok, m).
Proof.
  destruct (cf_pb_unpack_safe Example1.always Example1.always Example1.table Example1.junk_ok
    Example1.main_fields Example1.input 25 Example1.table_ok Example1.junk_table
    (λ _, eq_refl) Example1.main_desc_ok) as (ok & m & H & _); [by_compute..|].
  by exists ok, m.
Defined.

(** The same call, evaluated: it returns [true] although the last key of the
    input is truncated. *)
Example truncated_key_accepted :
  fst <$> cf_pb_unpack Example1.always Example1.always Example1.table Example1.input 25
            Example1.main_fields (mk_msg true []) = Some true.
Proof. by vm_compute. Qed.

(** A repeated message whose type has a repeated field: the item is decoded
    into memory [ccarray_init] never cleared, and its array header is garbage. *)
Example repeated_in_repeated_undefined :
  let strs := [CF_PB_REQUIRED_FIELD 1 CF_PB_STRING CF_PB_ARRAY 8 0 None] in
  let subs := [CF_PB_REQUIRED_FIELD 1 CF_PB_MESSAGE CF_PB_ARRAY 32 0 (Some 1%nat)] in
  cf_pb_unpack Example1.always Example1.always (λ _, strs) [0x0A; 0x03; 0x0A; 0x01; 0x41] 5
    subs (mk_msg true []) = None.
Proof. by vm_compute. Qed.

(** A repeated [bytes] field with an item above the limit: the error path frees
    the pointer that the slot never held. *)
Example repeated_bytes_too_large_undefined :
  let fields := [CF_PB_REQUIRED_FIELD 1 CF_PB_BYTES CF_PB_ARRAY 16 0 None] in
  cf_pb_unpack Example1.always Example1.always (λ _, fields) [0x0A; 0x81; 0x80; 0x04] 4
    fields (mk_msg true []) = None.
Proof. by vm_compute. Qed.

(** [ccarray_realloc] reports a failure as its old, non-zero capacity: the packed
    loop goes on past the end of the array. *)
Example realloc_failure_overflows :
  let fields := [CF_PB_REQUIRED_FIELD 1 CF_PB_UINT64 CF_PB_ARRAY 8 0 None] in
  cf_pb_unpack Example1.always (λ _, false) (λ _, fields) [0x0A; 0x04; 1; 2; 3; 4] 6
    fields (mk_msg true []) = None.
Proof. by vm_compute. Qed.

(** The last item of a packed array may be cut short: the field is accepted
    without it. *)
Example truncated_packed_item_accepted :
  let fields := [CF_PB_REQUIRED_FIELD 1 CF_PB_UINT32 CF_PB_ARRAY 4 0 None] in
  fst <$> cf_pb_unpack Example1.always Example1.always (λ _, fields) [0x0A; 0x02; 0x05; 0x80] 4
    fields (mk_msg true []) = Some true.
Proof. by vm_compute. Qed.

(** ** Packing *)

(** C20: for a message that holds values of the types of its descriptors,
    [cf_pb_pack] allocates exactly the bytes of the wire form, fills them all
    and no more, and returns their number; a message without bytes and a failed
    allocation give 0 and no buffer. *)
Theorem cf_pb_pack_wire (malloc : Z → bool) (D : nat → list cf_pb_field_t) (depth : nat)
    (fields : list cf_pb_field_t) (m : msg) (fs : list (cf_pb_field_t * sval))
    (Hview : view D depth fields m = Some fs) (Hsize : zlen (wire_fields fs) < 2 ^ 64) :
  cf_pb_pack malloc D depth m fields =
  Some (if malloc (zlen (wire_fields fs)) && negb (zlen (wire_fields fs) =? 0)
        then (zlen (wire_fields fs), Some (wire_fields fs)) else (0, None)).
Proof.
  pose proof (encode_emits D depth fields m fs Hview) as He. set (w := wire_fields fs) in *.
  unfold cf_pb_pack, cf_pb_get_encoded_size. rewrite (emits_sizing _ w) by done.
  simpl. rewrite Z.add_0_l. destruct (malloc (zlen w)); simpl; [|done].
  rewrite (emits_room _ _ He); [|split; [simpl; split; [lia|done]|simpl; lia]|simpl; lia|intros _; simpl; lia].
  simpl. rewrite Z.add_0_l. by destruct (Z.eqb_spec (zlen w) 0).
Qed.

Lemma cf_pb_pack_wire_witness :
  let m := mk_msg true [(0, CWord 32 0xFFFFFFFE); (4, CBool true); (8, CStr (Some [0x68; 0x69; 0]))] in
  cf_pb_pack Example1.always Example1.table 3 m Example1.main_fields =
  Some (6, Some [0x08; 0x03; 0x12; 0x02; 0x68; 0x69]).
Proof.
  intros m.
  rewrite (cf_pb_pack_wire Example1.always Example1.table 3 Example1.main_fields m
    [(CF_PB_REQUIRED_FIELD 1 CF_PB_INT32 CF_PB_SCALAR 4 0 None, SInt (-2));
     (CF_PB_OPTIONAL_FIELD 2 CF_PB_STRING CF_PB_SCALAR 8 8 4 None, SBytes [0x68; 0x69]);
     (CF_PB_REQUIRED_FIELD 3 CF_PB_UINT32 CF_PB_ARRAY 4 16 None, SRep []);
     (CF_PB_REQUIRED_FIELD 4 CF_PB_MESSAGE CF_PB_ARRAY 16 48 (Some 1%nat), SRep [])]);
    by_compute.
Defined.
