(* ===== verification/PbRoundTrip.v ===== *)
(** The decoder of [CuttlePb] reads back what the encoder wrote: for messages
    within the limits of the wire format and of the decoder ([typed_fields]), decoding the
    wire form into zeroed memory gives a message with the same meaning. *)

From S2P Require Import Prelude CcArray PbStream CuttlePb.
Import CcArray.

Open Scope Z_scope.

Section RoundTrip.
Context (malloc realloc : Z → bool) (D : nat → list cf_pb_field_t).
Hypothesis malloc_ok : ∀ n, malloc n = true.
Hypothesis realloc_ok : ∀ n, realloc n = true.

(** The field has a flag of its own or of its union. *)
Definition flagged (f : cf_pb_field_t) : Prop := alloctype f = CF_PB_ONEOF ∨ has_offset f ≠ NO_HAS.

#[local] Instance flagged_dec f : Decision (flagged f).
Proof. unfold flagged. apply _. Defined.

(** *** Descriptors and values that survive the wire *)

(** Two members may share memory only as members of one union. *)
Definition apart (f g : cf_pb_field_t) : Prop :=
  item_offset f ≠ item_offset g ∧ (flagged f → has_offset f ≠ item_offset g) ∧
  (flagged g → has_offset g ≠ item_offset f) ∧
  (flagged f → flagged g → has_offset f ≠ has_offset g).

Definition same_union (f g : cf_pb_field_t) : Prop :=
  alloctype f = CF_PB_ONEOF ∧ alloctype g = CF_PB_ONEOF ∧ has_offset f = has_offset g.

#[local] Instance same_union_dec f g : Decision (same_union f g).
Proof. unfold same_union. apply _. Defined.

Record rt_desc (fields : list cf_pb_field_t) : Prop := {
  rt_tags : NoDup (tag <$> fields);
  rt_tag f : f ∈ fields → 1 <= tag f < 2 ^ 29;
  rt_type f : f ∈ fields → 0 <= cf_pb_wire_type (pbtype f);
  rt_size f : f ∈ fields → item_size f ≠ 0;
  rt_self f : f ∈ fields → flagged f → has_offset f ≠ item_offset f;
  rt_array f : f ∈ fields → alloctype f = CF_PB_ARRAY → has_offset f = NO_HAS;
  rt_apart f g : f ∈ fields → g ∈ fields → f ≠ g → apart f g ∨ same_union f g;
}.

Section Typed.
(** [typed_fields], one level down. *)
Context (typed : bool → list cf_pb_field_t → list (cf_pb_field_t * sval) → Prop).

(** [v] is a value of the type of [f], within the limits of the decoder; [z]
    tells whether it is decoded into zeroed memory. *)
Definition typed_val (z : bool) (f : cf_pb_field_t) (v : sval) : Prop :=
  match pbtype f, v with
  | CF_PB_INT32, SInt n => is_sint 32 n
  | CF_PB_INT64, SInt n => is_sint 64 n
  | (CF_PB_UINT32 | CF_PB_FIXED32 | CF_PB_SFIXED32 | CF_PB_FLOAT), SInt n => is_uint 32 n
  | (CF_PB_UINT64 | CF_PB_FIXED64 | CF_PB_SFIXED64 | CF_PB_DOUBLE), SInt n => is_uint 64 n
  | CF_PB_BOOL, SInt n => is_uint 1 n
  | CF_PB_STRING, SBytes b => Forall (λ c, c ≠ 0) b ∧ zlen b < 2 ^ 63
  | CF_PB_BYTES, SBytes b => zlen b <= 64 * 1024
  | CF_PB_MESSAGE, SMsg fs =>
    ∃ p, ptr f = Some p ∧ typed z (D p) fs ∧ zlen (wire_fields fs) < 2 ^ 32
  | _, _ => False
  end.

(** The items of an array lie in memory that is not zeroed. *)
Definition typed_field (z : bool) (f : cf_pb_field_t) (v : sval) : Prop :=
  match alloctype f with
  | CF_PB_SCALAR | CF_PB_ONEOF => typed_val z f v
  | CF_PB_ARRAY => z = true ∧ ∃ vs, v = SRep vs ∧ Forall (typed_val false f) vs ∧
      (cf_pb_type_packable (pbtype f) = true → zlen (flat_map (wire_value f) vs) < 2 ^ 32)
  | CF_PB_ALLOC_OTHER _ => False
  end.

(** [fs] gives values to all the required fields of [fields] and to some of the
    others; in memory that is not zeroed a flag left out cannot be told. *)
Inductive selects (z : bool) : list cf_pb_field_t → list (cf_pb_field_t * sval) → Prop :=
| selects_nil : selects z [] []
| selects_take f v fields fs :
    (z = false → ¬ flagged f) → typed_field z f v → selects z fields fs →
    selects z (f :: fields) ((f, v) :: fs)
| selects_skip f fields fs :
    z = true → flagged f → selects z fields fs → selects z (f :: fields) fs.
End Typed.

(** At most one member of a union. *)
Definition one_of_union (fs : list (cf_pb_field_t * sval)) : Prop :=
  ∀ f v g u, (f, v) ∈ fs → (g, u) ∈ fs → same_union f g → f = g.

Fixpoint typed_fields (d : nat) (z : bool) (fields : list cf_pb_field_t)
    (fs : list (cf_pb_field_t * sval)) : Prop :=
  match d with
  | O => False
  | S d' => rt_desc fields ∧ selects (typed_fields d') z fields fs ∧ one_of_union fs
  end.

(** *** Values *)

(** Memory a value is decoded into. *)
Definition base (z : bool) : cell := if z then CZero else CJunk.

Lemma dstore_parses {A} (d : dec A) f bs a c c' s rest :
  parses d bs a → f a = Some c' → i_state s = bs ++ rest → zlen bs <= i_bytes_left s →
  dstore d f c s = Some (true, c', i_drop (length bs) s).
Proof. intros Hd Hf Hs Hl. unfold dstore. rewrite (Hd s rest) by done. simpl. by rewrite Hf. Qed.

Lemma view_word_word w b : is_uint w b → view_word w (CWord w b) = Some b.
Proof.
  intros. unfold view_word. simpl. rewrite Z.eqb_refl. simpl. by rewrite decide_True.
Qed.

Lemma u_range w n : 0 < w → is_uint w (uwrap w n).
Proof. intros. apply uwrap_range. lia. Qed.

Section Value.
Context (d : nat) (fuel : nat).
(** The decoder reads back the messages one level down. *)
Hypothesis decode_sub : ∀ z fields fs s rest,
  typed_fields d z fields fs → i_state s = wire_fields fs ++ rest →
  i_bytes_left s = zlen (wire_fields fs) → (Z.to_nat (i_bytes_left s) < fuel)%nat →
  ∃ m, cf_pb_decode malloc realloc D fuel fields (mk_msg z []) s =
         Some (true, m, i_drop (length (wire_fields fs)) s) ∧
       view D d fields m = Some fs.

Abbreviation decfunc := (cf_pb_decfunc malloc D (cf_pb_decode malloc realloc D fuel)).
Abbreviation val_view := (view_value D (view D d)).
Abbreviation val_typed := (typed_val (typed_fields d)).

Lemma string_parses b c s rest :
  zlen b < 2 ^ 63 → i_state s = delimited b ++ rest → zlen (delimited b) <= i_bytes_left s →
  cf_pb_decode_string malloc c s = Some (true, CStr (Some (b ++ [0])), i_drop (length (delimited b)) s).
Proof.
  unfold delimited. intros Hb Hs Hl. rewrite <-app_assoc in Hs. rewrite length_app in *.
  unfold cf_pb_decode_string.
  rewrite (parses_varint (zlen b) ltac:(unfold is_uint; lia) s (b ++ rest)) by (done || lia). simpl.
  rewrite uwrap_id by (unfold is_uint; lia). rewrite malloc_ok.
  destruct (Z.ltb_spec (zlen b + 1) (zlen b)); [lia|]. simpl.
  rewrite (parses_read b (i_drop _ s) rest); [simpl| |simpl; lia].
  - by rewrite i_drop_drop.
  - simpl. by rewrite Hs, drop_app_length.
Qed.

Lemma bytes_parses b c s rest :
  zlen b <= 64 * 1024 → i_state s = delimited b ++ rest → zlen (delimited b) <= i_bytes_left s →
  cf_pb_decode_bytes malloc c s = Some (true, CBuf (Some b) (zlen b), i_drop (length (delimited b)) s).
Proof.
  unfold delimited. intros Hb Hs Hl. rewrite <-app_assoc in Hs. rewrite length_app in *.
  unfold cf_pb_decode_bytes.
  rewrite (parses_varint (zlen b) ltac:(unfold is_uint; lia) s (b ++ rest)) by (done || lia). simpl.
  rewrite malloc_ok. destruct (Z.ltb_spec (64 * 1024) (zlen b)); [lia|]. simpl.
  rewrite (parses_read b (i_drop _ s) rest); [simpl| |simpl; lia].
  - by rewrite i_drop_drop.
  - simpl. by rewrite Hs, drop_app_length.
Qed.

Lemma submessage_parses z f p fs s rest :
  ptr f = Some p → typed_fields d z (D p) fs → zlen (wire_fields fs) < 2 ^ 32 →
  i_state s = delimited (wire_fields fs) ++ rest → zlen (delimited (wire_fields fs)) <= i_bytes_left s →
  (Z.to_nat (i_bytes_left s) <= fuel)%nat →
  ∃ m, cf_pb_decode_submessage D (cf_pb_decode malloc realloc D fuel) f (base z) s =
         Some (true, of_msg p m, i_drop (length (delimited (wire_fields fs))) s) ∧
       view D d (D p) m = Some fs.
Proof.
  unfold delimited. set (w := wire_fields fs). intros Hp Ht Hw Hs Hl Hf.
  rewrite <-app_assoc in Hs. pose proof Hl as Hl'. rewrite length_app in Hl'.
  unfold cf_pb_decode_submessage. rewrite Hp.
  destruct (make_substream_parses w s rest Hw Hs) as (sub & s1 & Hm & Hsub & _); [lia|].
  rewrite Hm. cbn [mbind option_bind].
  assert (as_msg p (base z) = mk_msg z []) as -> by (by destruct z).
  pose proof (varint_length (zlen w)).
  destruct (decode_sub z (D p) fs sub rest Ht) as (m & Hd & Hv); [by subst sub|by subst sub| |].
  { subst sub. simpl. fold w. lia. }
  rewrite Hd. cbn [mbind option_bind]. exists m. split; [|done]. fold w.
  by rewrite (close_substream_parses w s rest sub s1 _ Hw Hs ltac:(lia) Hm eq_refl).
Qed.

(** A value is read back, whatever it was read over. *)
Lemma value_parses z f v func s rest :
  decfunc f = Some func → val_typed z f v →
  i_state s = wire_value f v ++ rest → zlen (wire_value f v) <= i_bytes_left s →
  (Z.to_nat (i_bytes_left s) <= fuel)%nat →
  ∃ c, func (base z) s = Some (true, c, i_drop (length (wire_value f v)) s) ∧ val_view f c = Some v.
Proof.
  unfold cf_pb_decfunc, typed_val, view_value.
  destruct (pbtype f) eqn:Ht; intros [= <-] Hv Hs Hl Hf; destruct v as [n|b|fs|vs]; try done;
    rewrite ?wire_value_msg in *; simpl wire_value in *; rewrite ?Ht in *; simpl wire_int in *.
  - assert (is_sint 64 n) by (destruct Hv; split; lia).
    eexists; split.
    + eapply dstore_parses; [by apply parses_svarint| |done|done].
      destruct Hv. unfold INT32_MIN, INT32_MAX. by bool_cases.
    + rewrite view_word_word by (by apply u_range). simpl. by rewrite swrap_uwrap, swrap_id.
  - eexists; split.
    + eapply dstore_parses; [by apply parses_varint, (is_uint_le 32)| |done|done].
      destruct Hv. unfold UINT32_MAX. by bool_cases.
    + by rewrite view_word_word.
  - eexists; split; [by eapply dstore_parses; [apply parses_svarint| | |]|].
    rewrite view_word_word by (by apply u_range). simpl. by rewrite swrap_uwrap, swrap_id.
  - eexists; split; [by eapply dstore_parses; [apply parses_varint| | |]|]. by rewrite view_word_word.
  - eexists; split; [by eapply dstore_parses; [apply parses_fixed32| | |]|]. by rewrite view_word_word.
  - eexists; split; [by eapply dstore_parses; [apply parses_fixed32| | |]|]. by rewrite view_word_word.
  - eexists; split; [by eapply dstore_parses; [apply parses_fixed64| | |]|]. by rewrite view_word_word.
  - eexists; split; [by eapply dstore_parses; [apply parses_fixed64| | |]|]. by rewrite view_word_word.
  - eexists; split; [by eapply dstore_parses; [apply parses_fixed32| | |]|]. by rewrite view_word_word.
  - eexists; split; [by eapply dstore_parses; [apply parses_fixed64| | |]|]. by rewrite view_word_word.
  - eexists; split; [by eapply dstore_parses; [apply parses_varint, (is_uint_le 1)| | |]|].
    simpl. destruct Hv. assert (n = 0 ∨ n = 1) as [->| ->] by lia; done.
  - destruct Hv as [Hz Hb]. eexists; split; [by eapply string_parses|]. simpl.
    assert (c_str (b ++ [0]) = Some b) as ->; [|done].
    clear -Hz. induction Hz as [|c b Hc _ IH]; [done|]. simpl. destruct (Z.eqb_spec c 0); [done|].
    by rewrite IH.
  - eexists; split; [by eapply bytes_parses|]. simpl.
    destruct (Z.leb_spec 0 (zlen b)); [|lia]. rewrite Z.leb_refl. simpl.
    by rewrite Nat2Z.id, firstn_all.
  - destruct Hv as (p & Hp & Htf & Hw).
    destruct (submessage_parses z f p fs s rest Hp Htf Hw Hs Hl Hf) as (m & Hd & Hm).
    exists (of_msg p m). split; [done|]. rewrite Hp. simpl. rewrite decide_True by done.
    destruct m. simpl in *. by rewrite Hm.
Qed.

(** *** Arrays *)

(** The array in [c] holds the values [vs]; its other slots were never written. *)
Definition arr_at (f : cf_pb_field_t) (vs : list sval) (a : ccarray cell) : Prop :=
  wf a ∧ mapM (val_view f) (elems a) = Some vs ∧
  ∀ i c, (a_size a <= i)%nat → a_items a !! i = Some c → c = CJunk.

Lemma arr_at_zero f : arr_at f [] (mk_ccarray [] 0 0).
Proof. split; [by split|]. split; [done|]. intros i c _. done. Qed.

Lemma arr_at_fresh f cap size a :
  ∃ a', array_init malloc cap size a = (true, a') ∧ arr_at f [] a' ∧ a_capacity a' = cap ∧ a_size a' = 0%nat.
Proof.
  unfold array_init, ccarray_init. rewrite malloc_ok. eexists; split; [done|].
  split; [|done]. split; [split; simpl; [apply length_replicate|lia]|]. split; [done|].
  intros i c _ Hc. simpl in Hc. by apply lookup_replicate in Hc as [-> _].
Qed.

Lemma arr_at_realloc f vs cap size a :
  arr_at f vs a → (a_capacity a <= cap)%nat → (0 < cap)%nat →
  ∃ a', array_realloc realloc cap size a = (cap, a') ∧ arr_at f vs a' ∧ a_capacity a' = cap ∧ a_size a' = a_size a.
Proof.
  intros ([Hl Hs] & Hv & Hj) Hc Hpos. unfold array_realloc, ccarray_realloc. rewrite realloc_ok.
  eexists; split; [done|]. destruct (Nat.ltb_spec cap (a_size a)); [lia|].
  split; [|done]. split; [split; simpl; [|lia]|split].
  - rewrite length_take, length_app. unfold fresh. rewrite length_replicate. lia.
  - unfold elems in *. simpl. rewrite take_take, Nat.min_l by lia. by rewrite take_app_le by lia.
  - intros i c Hi Hc'. simpl in *. apply lookup_take_Some in Hc' as [Hc' _].
    apply lookup_app_Some in Hc' as [Hc'|[_ Hc']]; [by eapply Hj|].
    by apply lookup_replicate in Hc' as [-> _].
Qed.

(** One more item. *)
Lemma arr_at_incr f vs v c a :
  arr_at f vs a → (a_size a < a_capacity a)%nat → val_view f c = Some v →
  arr_at f (vs ++ [v])
    (array_incr (mk_ccarray (<[a_size a := c]> (a_items a)) (a_capacity a) (a_size a))).
Proof.
  intros ([Hl Hs] & Hv & Hj) Hlt Hc. split; [split; simpl; [by rewrite length_insert|lia]|split].
  - unfold elems in *. simpl. rewrite (take_S_r _ _ c) by (apply list_lookup_insert_eq; lia).
    rewrite take_insert_ge by done. by apply mapM_snoc.
  - intros i c' Hi Hc'. simpl in *. rewrite list_lookup_insert_ne in Hc' by lia. eapply Hj; [|done]. lia.
Qed.

Lemma at_end_parses f v func a s rest vs :
  decfunc f = Some func → val_typed false f v → arr_at f vs a → (a_size a < a_capacity a)%nat →
  i_state s = wire_value f v ++ rest → zlen (wire_value f v) <= i_bytes_left s →
  (Z.to_nat (i_bytes_left s) <= fuel)%nat →
  ∃ c, at_end func a s =
      Some (true, mk_ccarray (<[a_size a := c]> (a_items a)) (a_capacity a) (a_size a),
            i_drop (length (wire_value f v)) s) ∧ val_view f c = Some v.
Proof.
  intros Hf Hv Ha Hlt Hs Hl Hfuel. unfold at_end, ccarray_peek_end.
  pose proof Ha as ([Hlen _] & _ & Hj).
  destruct (lookup_lt_is_Some_2 (a_items a) (a_size a)) as [c0 Hc0]; [lia|].
  rewrite Hc0, (Hj _ _ (le_n _) Hc0) in *. cbn [mbind option_bind].
  destruct (value_parses false f v func s rest) as (c & Hfn & Hc); [done..|].
  change CJunk with (base false). rewrite Hfn. cbn [mbind option_bind]. by exists c.
Qed.

Lemma packable_length z f v :
  cf_pb_type_packable (pbtype f) = true → val_typed z f v → 1 <= zlen (wire_value f v).
Proof.
  unfold typed_val. intros Hp Hv. destruct (pbtype f) eqn:Ht; try done; destruct v; try done;
    cbn [wire_value]; rewrite Ht; cbn [wire_int];
    first [apply varint_length | rewrite length_le_bytes; lia].
Qed.

Lemma packed_loop_parses f func vs : ∀ k done a sub s rest,
  decfunc f = Some func → cf_pb_type_packable (pbtype f) = true → item_size f ≠ 0 →
  Forall (val_typed false f) vs → arr_at f done a → (a_size a < a_capacity a)%nat →
  i_state sub = flat_map (wire_value f) vs ++ rest →
  i_bytes_left sub = zlen (flat_map (wire_value f) vs) →
  (Z.to_nat (i_bytes_left sub) <= fuel)%nat → (Z.to_nat (i_bytes_left sub) < k)%nat →
  ∃ a', packed_loop realloc k f func a sub s =
    Some (a', i_drop (length (flat_map (wire_value f) vs)) sub, s) ∧ arr_at f (done ++ vs) a'.
Proof.
  induction vs as [|v vs IH]; intros k dn a sub s rest Hf Hp Hsz Hvs Ha Hlt Hs Hl Hfuel Hk;
    (destruct k as [|k]; [lia|]); cbn [packed_loop].
  { rewrite Hl. simpl. rewrite i_drop_0, app_nil_r. by exists a. }
  inversion_clear Hvs as [|? ? Hv Hvs']. pose proof (packable_length false f v Hp Hv).
  simpl flat_map in *. rewrite length_app in *. rewrite <-app_assoc in Hs.
  destruct (Z.eqb_spec (i_bytes_left sub) 0); [lia|].
  destruct (at_end_parses f v func a sub _ dn Hf Hv Ha Hlt Hs) as (c & -> & Hc); [lia|lia|].
  cbn [mbind option_bind]. pose proof (arr_at_incr f dn v c a Ha Hlt Hc) as Ha2. set (a2 := array_incr _) in *.
  change (a_size a2) with (S (a_size a)). change (a_capacity a2) with (a_capacity a).
  set (sub1 := i_drop _ sub).
  assert (∃ a3, arr_at f (dn ++ [v]) a3 ∧ (a_size a3 < a_capacity a3)%nat ∧
    (if (a_capacity a <=? S (a_size a))%nat
     then
       let '(ok, a3) := array_realloc realloc
          (a_capacity a + Z.to_nat (2 * i_bytes_left sub1 / item_size f) + 1) (item_size f) a2 in
       if (ok =? 0)%nat then Some (a3, sub1, i_set_error "ccarray_realloc() fails" s)
       else packed_loop realloc k f func a3 sub1 s
     else packed_loop realloc k f func a2 sub1 s) = packed_loop realloc k f func a3 sub1 s)
    as (a3 & Ha3 & Hlt3 & ->).
  { destruct (Nat.leb_spec (a_capacity a) (S (a_size a))).
    - set (cap := (a_capacity a + _ + 1)%nat).
      destruct (arr_at_realloc f (dn ++ [v]) cap (item_size f) a2 Ha2) as (a3 & -> & Ha3 & Hc3 & Hs3);
        [simpl; lia|lia|].
      exists a3. split; [done|]. rewrite Hc3, Hs3. split; [simpl; lia|].
      destruct (Nat.eqb_spec cap 0); [lia|done].
    - exists a2. split; [done|]. split; [simpl; lia|done]. }
  destruct (IH k (dn ++ [v]) a3 sub1 s rest) as (a' & -> & Ha'); [done..| | | | |].
  - unfold sub1. simpl. by rewrite Hs, drop_app_length.
  - unfold sub1. simpl. lia.
  - unfold sub1. simpl. lia.
  - unfold sub1. simpl. lia.
  - exists a'. rewrite <-app_assoc in Ha'. split; [|done]. unfold sub1. by rewrite i_drop_drop.
Qed.

(** A packed array is read as one block into a new array. *)
Lemma packed_parses f func vs c s rest :
  decfunc f = Some func → cf_pb_type_packable (pbtype f) = true → item_size f ≠ 0 →
  Forall (val_typed false f) vs → zlen (flat_map (wire_value f) vs) < 2 ^ 32 →
  i_state s = delimited (flat_map (wire_value f) vs) ++ rest →
  zlen (delimited (flat_map (wire_value f) vs)) <= i_bytes_left s →
  (Z.to_nat (i_bytes_left s) <= fuel)%nat →
  ∃ a, cf_pb_decode_array malloc realloc f PB_WT_STRING func c s =
         Some (true, CArr a, i_drop (length (delimited (flat_map (wire_value f) vs))) s) ∧
       arr_at f vs a.
Proof.
  unfold delimited. set (w := flat_map _ vs). intros Hf Hp Hsz Hvs Hw Hs Hl Hfuel.
  rewrite <-app_assoc in Hs. pose proof Hl as Hl'. rewrite length_app in Hl'.
  unfold cf_pb_decode_array. rewrite Hp. change (PB_WT_STRING =? PB_WT_STRING) with true. simpl andb. cbv iota.
  destruct (make_substream_parses w s rest Hw Hs) as (sub & s1 & Hm & Hsub & Hl1 & _); [lia|].
  rewrite Hm. cbn [mbind option_bind]. destruct (Z.eqb_spec (item_size f) 0); [done|].
  set (cap := (Z.to_nat _ + 1)%nat).
  destruct (arr_at_fresh f cap (item_size f) (default (mk_ccarray [] 0 0) (as_arr c))) as (a & -> & Ha & Hc & H0).
  cbn [negb]. pose proof (varint_length (zlen w)).
  destruct (packed_loop_parses f func vs (S (Z.to_nat (i_bytes_left sub))) [] a sub s1 rest) as (a' & -> & Ha');
    [done|done|done|done|done|lia|by subst sub|by subst sub|subst sub; simpl; fold w; lia|lia|].
  cbn [mbind option_bind]. exists a'. split; [|done]. fold w.
  rewrite (close_substream_parses w s rest sub s1 _ Hw Hs ltac:(lia) Hm eq_refl).
  subst sub. simpl. rewrite Z.sub_diag. done.
Qed.

(** An item of an array that is not packed is appended to it. *)
Lemma item_parses f func v vs wt c a s rest :
  decfunc f = Some func → cf_pb_type_packable (pbtype f) = false → val_typed false f v →
  as_arr c = Some a → arr_at f vs a →
  i_state s = wire_value f v ++ rest → zlen (wire_value f v) <= i_bytes_left s →
  (Z.to_nat (i_bytes_left s) <= fuel)%nat →
  ∃ a', cf_pb_decode_array malloc realloc f wt func c s =
          Some (true, CArr a', i_drop (length (wire_value f v)) s) ∧ arr_at f (vs ++ [v]) a'.
Proof.
  intros Hf Hp Hv Hca Ha Hs Hl Hfuel. unfold cf_pb_decode_array. rewrite Hp, andb_false_r, Hca.
  cbn [mbind option_bind ccarray_capacity ccarray_size].
  assert (∃ a1, (if (a_capacity a =? 0)%nat then array_init malloc 64 (item_size f) a else (true, a)) = (true, a1) ∧
    arr_at f vs a1 ∧ (0 < a_capacity a1)%nat) as (a1 & -> & Ha1 & Hc1).
  { destruct (Nat.eqb_spec (a_capacity a) 0) as [H0|].
    - destruct (arr_at_fresh f 64 (item_size f) a) as (a1 & -> & (Hw1 & He1 & Hj1) & Hc1 & Hs1).
      exists a1. split; [done|]. destruct Ha as ([??] & He & _). split; [|lia].
      unfold elems in He. replace (a_size a) with 0%nat in He by lia. injection He as <-. done.
    - exists a. split; [done|]. split; [done|lia]. }
  cbn [negb].
  assert (∃ ok a2, (if (a_capacity a1 <=? a_size a1)%nat
      then array_realloc realloc (a_capacity a1 + 64) (item_size f) a1 else (a_capacity a1, a1)) = (ok, a2) ∧
    (ok =? 0)%nat = false ∧ arr_at f vs a2 ∧ (a_size a2 < a_capacity a2)%nat) as (ok & a2 & -> & -> & Ha2 & Hlt).
  { destruct (Nat.leb_spec (a_capacity a1) (a_size a1)).
    - destruct (arr_at_realloc f vs (a_capacity a1 + 64) (item_size f) a1 Ha1) as (a2 & -> & Ha2 & Hc2 & Hs2); [lia..|].
      eexists _, a2. split; [done|]. split; [apply Nat.eqb_neq; lia|]. split; [done|].
      rewrite Hc2, Hs2. destruct Ha1 as ([??]&_). lia.
    - eexists _, a1. split; [done|]. split; [apply Nat.eqb_neq; lia|]. done. }
  destruct (at_end_parses f v func a2 s rest vs Hf Hv Ha2 Hlt Hs Hl Hfuel) as (c' & -> & Hc').
  cbn [mbind option_bind]. eexists; split; [done|]. by apply arr_at_incr.
Qed.

Lemma arr_at_view f vs c a : alloctype f = CF_PB_ARRAY → as_arr c = Some a → arr_at f vs a →
  view_field D (view D d) f c = Some (SRep vs).
Proof.
  intros Hf Hc ([Hl Hs] & Hv & _). unfold view_field. rewrite Hf, Hc. simpl.
  destruct (Nat.leb_spec (a_size a) (length (a_items a))); [|lia]. by rewrite Hv.
Qed.
End Value.

(** *** Fields *)

Section Fields.
Context (d : nat).
Hypothesis decode_sub : ∀ fuel z fields fs s rest,
  typed_fields d z fields fs → i_state s = wire_fields fs ++ rest →
  i_bytes_left s = zlen (wire_fields fs) → (Z.to_nat (i_bytes_left s) < fuel)%nat →
  ∃ m, cf_pb_decode malloc realloc D fuel fields (mk_msg z []) s =
         Some (true, m, i_drop (length (wire_fields fs)) s) ∧
       view D d fields m = Some fs.
Context (fields : list cf_pb_field_t).
Hypothesis fields_ok : rt_desc fields.

Abbreviation decode := (cf_pb_decode malloc realloc D).
Abbreviation viewf := (view_field D (view D d)).

Lemma find_tag_of f : f ∈ fields → cf_pb_find_tag fields (tag f) = Some f.
Proof.
  pose proof (rt_tags _ fields_ok) as Hnd. unfold cf_pb_find_tag. clear -Hnd.
  induction fields as [|g l IH]; intros Hf; [by apply not_elem_of_nil in Hf|]. simpl.
  apply NoDup_cons in Hnd as [Hg Hnd].
  apply elem_of_cons in Hf as [->|Hf]; [by rewrite decide_True|].
  rewrite decide_False by (intros Heq; apply Hg; rewrite Heq; by apply list_elem_of_fmap_2).
  specialize (IH Hnd Hf). destruct (list_find _ l) as [[i h]|]; [|done]. simpl in *. congruence.
Qed.

(** One turn of the loop, on a field of the descriptor. *)
Lemma decode_step fuel m s f wt payload rest c :
  f ∈ fields → 0 <= wt < 8 →
  i_state s = varint (key wt (tag f)) ++ payload ++ rest →
  zlen (varint (key wt (tag f)) ++ payload) <= i_bytes_left s →
  (∀ s1, s1 = i_drop (length (varint (key wt (tag f)))) s →
    cf_pb_decode_field malloc realloc D (decode fuel) wt f (msg_get (item_offset f) m) s1 =
    Some (true, c, i_drop (length payload) s1)) →
  decode (S fuel) fields m s =
  decode fuel fields (mark_present f (msg_set (item_offset f) c m))
    (i_drop (length (varint (key wt (tag f)) ++ payload)) s).
Proof.
  intros Hf Hwt Hs Hl Hd. rewrite length_app in *. pose proof (varint_length (key wt (tag f))).
  cbn [cf_pb_decode]. destruct (Z.eqb_spec (i_bytes_left s) 0); [lia|].
  rewrite (decode_tag_parses wt (tag f) s (payload ++ rest) Hwt (rt_tag _ fields_ok _ Hf) Hs) by lia.
  cbn [mbind option_bind]. rewrite find_tag_of, (Hd _ eq_refl) by done.
  cbn [mbind option_bind negb]. by rewrite i_drop_drop.
Qed.

Lemma step_state (s : istream) (k payload rest : bytes) :
  i_state s = k ++ payload ++ rest → zlen (k ++ payload) <= i_bytes_left s →
  i_state (i_drop (length k) s) = payload ++ rest ∧ zlen payload <= i_bytes_left (i_drop (length k) s).
Proof. intros Hs Hl. rewrite length_app in Hl. simpl. rewrite Hs, drop_app_length. split; [done|lia]. Qed.

Lemma msg_get_set_eq off c m : msg_get off (msg_set off c m) = c.
Proof. unfold msg_get. simpl. by rewrite Z.eqb_refl. Qed.

Lemma msg_get_set_ne off off' c m : off ≠ off' → msg_get off (msg_set off' c m) = msg_get off m.
Proof. intros. unfold msg_get. simpl. by destruct (Z.eqb_spec off off'). Qed.

(** [m'] is [m] after field [f] was read. *)
Record stored (f : cf_pb_field_t) (v : sval) (m m' : msg) : Prop := {
  stored_zeroed : m_zeroed m' = m_zeroed m;
  stored_view : viewf f (msg_get (item_offset f) m') = Some v;
  stored_has : cf_pb_field_has_data f m' = Some true;
  stored_frame off : off ≠ item_offset f → (flagged f → off ≠ has_offset f) →
    msg_get off m' = msg_get off m;
}.

Lemma stored_mark f v c m :
  f ∈ fields → viewf f c = Some v → stored f v m (mark_present f (msg_set (item_offset f) c m)).
Proof.
  intros Hf Hv. pose proof (rt_self _ fields_ok f Hf) as Hself. unfold mark_present, cf_pb_field_has_data.
  split; unfold cf_pb_field_has_data; repeat case_decide; try case_match; try done;
    rewrite ?Z.eqb_eq, ?Z.eqb_neq in *;
    rewrite ?msg_get_set_eq, ?(msg_get_set_ne (item_offset f) (has_offset f)), ?msg_get_set_eq;
    try done; try (intros Heq; symmetry in Heq; revert Heq; apply Hself; unfold flagged; tauto).
  - simpl. by rewrite Z.eqb_refl.
  - intros off ? Hh. rewrite !msg_get_set_ne; [done|done|apply Hh; by left].
  - intros off ? Hh. by rewrite msg_get_set_ne.
  - intros off ? Hh. rewrite !msg_get_set_ne; [done|done|apply Hh; by right].
Qed.

Lemma msg_get_zero z off : msg_get off (mk_msg z []) = base z.
Proof. by destruct z. Qed.

Lemma decfunc_total f decode : 0 <= cf_pb_wire_type (pbtype f) → ∃ func, cf_pb_decfunc malloc D decode f = Some func.
Proof. unfold cf_pb_decfunc. destruct (pbtype f); eauto. simpl. lia. Qed.

Lemma wire_type_range f : f ∈ fields → 0 <= cf_pb_wire_type (pbtype f) < 8.
Proof.
  intros Hf. pose proof (rt_type _ fields_ok f Hf) as H. split; [done|]. by destruct (pbtype f).
Qed.

(** A scalar or the active member of a union. *)
Lemma value_field_step fuel z f v m s rest :
  f ∈ fields → alloctype f = CF_PB_SCALAR ∨ alloctype f = CF_PB_ONEOF →
  typed_val (typed_fields d) z f v → msg_get (item_offset f) m = base z →
  i_state s = (field_key f ++ wire_value f v) ++ rest →
  zlen (field_key f ++ wire_value f v) <= i_bytes_left s → (Z.to_nat (i_bytes_left s) <= fuel)%nat →
  ∃ m', decode (S fuel) fields m s =
        decode fuel fields m' (i_drop (length (field_key f ++ wire_value f v)) s) ∧ stored f v m m'.
Proof.
  intros Hf Hat Hv Hm Hs Hl Hfuel. rewrite <-app_assoc in Hs.
  destruct (decfunc_total f (decode fuel) (rt_type _ fields_ok f Hf)) as [func Hfn].
  destruct (step_state _ _ _ _ Hs Hl) as [Hs1 Hl1]. set (s1 := i_drop _ s) in *.
  destruct (value_parses d fuel (decode_sub fuel) z f v func s1 rest Hfn Hv Hs1 Hl1) as (c & Hd & Hc).
  { unfold s1. simpl. lia. }
  eexists. split.
  - apply decode_step with (rest := rest) (c := c); [done|by apply wire_type_range|done|done|].
    intros s2 ->. fold (field_key f). fold s1. unfold cf_pb_decode_field. rewrite Hfn, Hm, Z.eqb_refl.
    destruct Hat as [->| ->]; simpl; exact Hd.
  - apply stored_mark; [done|]. unfold view_field. by destruct Hat as [->| ->].
Qed.

(** The items of an array that is not packed, one turn each. *)
Lemma items_field_steps f : f ∈ fields → alloctype f = CF_PB_ARRAY →
  cf_pb_type_packable (pbtype f) = false → ∀ us vs fuel m s rest a,
  Forall (typed_val (typed_fields d) false f) us → as_arr (msg_get (item_offset f) m) = Some a →
  arr_at d f vs a →
  i_state s = flat_map (λ u, field_key f ++ wire_value f u) us ++ rest →
  zlen (flat_map (λ u, field_key f ++ wire_value f u) us) <= i_bytes_left s →
  (Z.to_nat (i_bytes_left s) < fuel)%nat →
  ∃ fuel' m' a', decode fuel fields m s =
      decode fuel' fields m' (i_drop (length (flat_map (λ u, field_key f ++ wire_value f u) us)) s) ∧
    (Z.to_nat (i_bytes_left s - zlen (flat_map (λ u, field_key f ++ wire_value f u) us)) < fuel')%nat ∧
    as_arr (msg_get (item_offset f) m') = Some a' ∧ arr_at d f (vs ++ us) a' ∧
    m_zeroed m' = m_zeroed m ∧ ∀ off, off ≠ item_offset f → msg_get off m' = msg_get off m.
Proof.
  intros Hf Hat Hp. induction us as [|u us IH]; intros vs fuel m s rest a Hus Hc Ha Hs Hl Hfuel.
  { exists fuel, m, a. simpl. rewrite i_drop_0, app_nil_r. split; [done|]. split; [lia|done]. }
  inversion_clear Hus as [|? ? Hu Hus']. simpl flat_map in *.
  set (w := flat_map _ us) in *. rewrite (length_app (_ ++ _) w) in Hl |- *.
  destruct fuel as [|fuel]; [lia|].
  destruct (decfunc_total f (decode fuel) (rt_type _ fields_ok f Hf)) as [func Hfn].
  rewrite <-!app_assoc in Hs. assert (zlen (field_key f ++ wire_value f u) <= i_bytes_left s) as Hl0 by lia.
  destruct (step_state _ _ _ _ Hs Hl0) as [Hs1 Hl1].
  assert (1 <= zlen (field_key f ++ wire_value f u)) as Hlen.
  { rewrite length_app. pose proof (varint_length (key (cf_pb_wire_type (pbtype f)) (tag f))).
    unfold field_key. lia. }
  destruct (item_parses d fuel (decode_sub fuel) f func u vs (cf_pb_wire_type (pbtype f)) _ a _ _
              Hfn Hp Hu Hc Ha Hs1 Hl1) as (a1 & Hd & Ha1); [simpl; lia|].
  set (m1 := mark_present f (msg_set (item_offset f) (CArr a1) m)).
  assert (Hunflag : ¬ flagged f).
  { unfold flagged. rewrite (rt_array _ fields_ok f Hf Hat), Hat. by intros [?|?]. }
  assert (m1 = msg_set (item_offset f) (CArr a1) m) as Hm1.
  { unfold m1, mark_present. rewrite decide_False by (rewrite Hat; done).
    by rewrite (rt_array _ fields_ok f Hf Hat). }
  destruct (IH (vs ++ [u]) fuel m1 (i_drop (length (field_key f ++ wire_value f u)) s) rest a1)
    as (fuel' & m' & a' & Hdec & Hf' & Hc' & Ha' & Hz & Hframe); [done| |done| | | |].
  - by rewrite Hm1, msg_get_set_eq.
  - simpl. by rewrite Hs, app_assoc, drop_app_length.
  - simpl. lia.
  - simpl. lia.
  - exists fuel', m', a'. split; [|split; [|split; [done|split; [|split]]]].
    + rewrite <-i_drop_drop, <-Hdec. unfold m1.
      apply decode_step with (rest := w ++ rest); [done|by apply wire_type_range|done|done|].
      intros s1 ->. fold (field_key f). unfold cf_pb_decode_field. rewrite Hfn, Hat. exact Hd.
    + simpl in Hf'. fold w in Hf'. lia.
    + by rewrite <-app_assoc in Ha'.
    + by rewrite Hz, Hm1.
    + intros off Hoff. rewrite Hframe, Hm1 by done. by apply msg_get_set_ne.
Qed.

Lemma stored_array f vs m m' a :
  f ∈ fields → alloctype f = CF_PB_ARRAY → as_arr (msg_get (item_offset f) m') = Some a → arr_at d f vs a →
  m_zeroed m' = m_zeroed m → (∀ off, off ≠ item_offset f → msg_get off m' = msg_get off m) →
  stored f (SRep vs) m m'.
Proof.
  intros Hf Hat Hc Ha Hz Hframe. split; [done|by eapply arr_at_view| |intros; by apply Hframe].
  unfold cf_pb_field_has_data. rewrite decide_False by (rewrite Hat; done).
  by rewrite (rt_array _ fields_ok f Hf Hat).
Qed.

(** A whole field, in as many turns as it takes. *)
Lemma field_steps fuel z f v m s rest :
  f ∈ fields → typed_field (typed_fields d) z f v → msg_get (item_offset f) m = base z →
  i_state s = wire_field f v ++ rest → zlen (wire_field f v) <= i_bytes_left s →
  (Z.to_nat (i_bytes_left s) < fuel)%nat →
  ∃ fuel' m', decode fuel fields m s = decode fuel' fields m' (i_drop (length (wire_field f v)) s) ∧
    (Z.to_nat (i_bytes_left s - zlen (wire_field f v)) < fuel')%nat ∧ stored f v m m'.
Proof.
  intros Hf Hv Hm Hs Hl Hfuel. unfold typed_field in Hv.
  assert (∀ v', typed_val (typed_fields d) z f v' → wire_field f v' = field_key f ++ wire_value f v') as Hwf.
  { unfold typed_val. intros v' Hv'. by destruct v'; try done; destruct (pbtype f). }
  destruct (alloctype f) eqn:Hat; [| | |done].
  1,3: rewrite Hwf in * by done; destruct fuel as [|fuel]; [lia|];
    destruct (value_field_step fuel z f v m s rest Hf ltac:(rewrite Hat; tauto) Hv Hm Hs Hl)
      as (m' & Hd & Hst); [lia|];
    exists fuel, m'; split; [done|]; split; [|done];
    unfold field_key in *; rewrite length_app in *;
    pose proof (varint_length (key (cf_pb_wire_type (pbtype f)) (tag f))); lia.
  destruct Hv as (-> & vs & -> & Hvs & Hpk).
  assert (as_arr (msg_get (item_offset f) m) = Some (mk_ccarray [] 0 0)) as Hc by (by rewrite Hm).
  destruct vs as [|v0 vs0].
  { exists fuel, m. simpl. rewrite i_drop_0. split; [done|]. split; [lia|].
    eapply stored_array; [done|done|done|apply arr_at_zero|done|done]. }
  set (vs := v0 :: vs0) in *.
  change (wire_field f (SRep vs)) with
    (if cf_pb_type_packable (pbtype f)
     then varint (key PB_WT_STRING (tag f)) ++ delimited (flat_map (wire_value f) vs)
     else flat_map (λ u, field_key f ++ wire_value f u) vs) in *.
  destruct (cf_pb_type_packable (pbtype f)) eqn:Hp.
  - destruct fuel as [|fuel]; [lia|]. rewrite <-app_assoc in Hs.
    destruct (step_state _ _ _ _ Hs Hl) as [Hs1 Hl1].
    destruct (decfunc_total f (decode fuel) (rt_type _ fields_ok f Hf)) as [func Hfn].
    destruct (packed_parses d fuel (decode_sub fuel) f func vs (msg_get (item_offset f) m) _ rest
                Hfn Hp (rt_size _ fields_ok f Hf) Hvs (Hpk eq_refl) Hs1 Hl1) as (a & Hd & Ha); [simpl; lia|].
    exists fuel, (mark_present f (msg_set (item_offset f) (CArr a) m)). split; [|split].
    + apply decode_step with (rest := rest); [done|by vm_compute|done|done|].
      intros s1 ->. unfold cf_pb_decode_field. rewrite Hfn, Hat. exact Hd.
    + rewrite length_app in *. pose proof (varint_length (key PB_WT_STRING (tag f))). lia.
    + apply stored_mark; [done|]. by eapply arr_at_view.
  - destruct (items_field_steps f Hf Hat Hp vs [] fuel m s rest _ Hvs Hc (arr_at_zero d f) Hs Hl Hfuel)
      as (fuel' & m' & a' & Hd & Hf' & Hc' & Ha' & Hz & Hframe).
    exists fuel', m'. split; [done|]. split; [done|]. by eapply stored_array.
Qed.

(** *** The loop over the fields of the input *)

(** [m] holds the fields [fs], and is as [m0] elsewhere. *)
Record all_stored (fs : list (cf_pb_field_t * sval)) (m0 m : msg) : Prop := {
  all_zeroed : m_zeroed m = m_zeroed m0;
  all_view f v : (f, v) ∈ fs →
    viewf f (msg_get (item_offset f) m) = Some v ∧ cf_pb_field_has_data f m = Some true;
  all_frame off :
    (∀ f v, (f, v) ∈ fs → off ≠ item_offset f ∧ (flagged f → off ≠ has_offset f)) →
    msg_get off m = msg_get off m0;
}.

Lemma has_data_frame f m m' :
  (flagged f → msg_get (has_offset f) m' = msg_get (has_offset f) m) →
  cf_pb_field_has_data f m' = cf_pb_field_has_data f m.
Proof.
  intros Hf. unfold cf_pb_field_has_data, flagged in *.
  case_decide; [rewrite Hf by tauto; done|].
  destruct (Z.eqb_spec (has_offset f) NO_HAS); [done|]. rewrite Hf by tauto. done.
Qed.

Lemma all_stored_snoc fs f v m0 m m' :
  (∀ g u, (g, u) ∈ fs → apart g f) →
  all_stored fs m0 m → stored f v m m' → all_stored (fs ++ [(f, v)]) m0 m'.
Proof.
  intros Hap [Hz Hv Hfr] [Hz' Hv' Hh' Hfr']. split.
  - by rewrite Hz'.
  - intros g u [Hg|Hg]%elem_of_app.
    + destruct (Hv g u Hg) as [Hgv Hgh]. destruct (Hap g u Hg) as (H1 & H2 & H3 & H4).
      split.
      * rewrite Hfr'; [done|done|]. intros Hfl Heq. by apply (H3 Hfl).
      * rewrite (has_data_frame g m); [done|]. intros Hgf. apply Hfr'; [by apply H2|]. by intros; apply H4.
    + apply list_elem_of_singleton in Hg as [= -> ->]. done.
  - intros off Hoff. rewrite Hfr'.
    + apply Hfr. intros g u Hg. apply (Hoff g u), elem_of_app. by left.
    + apply (Hoff f v), elem_of_app. right. by apply list_elem_of_singleton.
    + apply (Hoff f v), elem_of_app. right. by apply list_elem_of_singleton.
Qed.

Lemma loop_fields z fs2 : ∀ fs1 fuel m s rest,
  (∀ f v, (f, v) ∈ fs1 ++ fs2 → f ∈ fields) →
  (∀ f v, (f, v) ∈ fs2 → typed_field (typed_fields d) z f v) →
  (∀ fa f v fb, fs1 ++ fs2 = fa ++ (f, v) :: fb → ∀ g u, (g, u) ∈ fa → apart g f) →
  all_stored fs1 (mk_msg z []) m →
  i_state s = wire_fields fs2 ++ rest → i_bytes_left s = zlen (wire_fields fs2) →
  (Z.to_nat (i_bytes_left s) < fuel)%nat →
  ∃ m', decode fuel fields m s = Some (true, m', i_drop (length (wire_fields fs2)) s) ∧
        all_stored (fs1 ++ fs2) (mk_msg z []) m'.
Proof.
  induction fs2 as [|[f v] fs2 IH]; intros fs1 fuel m s rest Hin Hty Hap Hst Hs Hl Hfuel.
  { exists m. simpl in *. rewrite i_drop_0, app_nil_r. destruct fuel; [lia|]. cbn [cf_pb_decode].
    rewrite Hl. unfold decode_end. by rewrite Hl. }
  change (wire_fields ((f, v) :: fs2)) with (wire_field f v ++ wire_fields fs2) in *.
  rewrite length_app in *. rewrite <-app_assoc in Hs.
  assert (f ∈ fields) as Hf by (apply (Hin f v), elem_of_app; right; left).
  assert (∀ g u, (g, u) ∈ fs1 → apart g f) as Hapf by (apply (Hap fs1 f v fs2 eq_refl)).
  assert (msg_get (item_offset f) m = base z) as Hm.
  { rewrite <-(msg_get_zero z (item_offset f)). apply (all_frame _ _ _ Hst). intros g u Hg.
    destruct (Hapf g u Hg) as (H1 & H2 & _). split; [done|]. intros Hgf Heq. by apply (H2 Hgf). }
  destruct (field_steps fuel z f v m s (wire_fields fs2 ++ rest) Hf) as (fuel' & m1 & -> & Hf' & Hst1);
    [apply Hty; left|done|done|lia|done|].
  destruct (IH (fs1 ++ [(f, v)]) fuel' m1 (i_drop (length (wire_field f v)) s) rest) as (m' & -> & Hst').
  - intros g u Hg. apply (Hin g u). by rewrite <-app_assoc in Hg.
  - intros g u Hg. apply Hty. by right.
  - rewrite <-app_assoc. exact Hap.
  - by eapply all_stored_snoc.
  - simpl. by rewrite Hs, drop_app_length.
  - simpl. lia.
  - simpl. lia.
  - exists m'. rewrite i_drop_drop. split; [done|]. by rewrite <-app_assoc in Hst'.
Qed.

(** *** The message read back *)

Lemma selects_in z fields' fs f v :
  selects (typed_fields d) z fields' fs → (f, v) ∈ fs →
  f ∈ fields' ∧ typed_field (typed_fields d) z f v.
Proof.
  induction 1 as [|g u l fs Hz Ht _ IH|g l fs Hz Hg _ IH]; intros Hin.
  - by apply not_elem_of_nil in Hin.
  - apply elem_of_cons in Hin as [[= -> ->]|Hin]; [split; [left|done]|].
    destruct (IH Hin). split; [by right|done].
  - destruct (IH Hin). split; [by right|done].
Qed.

Lemma selects_nodup z fields' fs :
  NoDup fields' → selects (typed_fields d) z fields' fs → NoDup fs.*1.
Proof.
  intros Hnd. induction 1 as [|g u l fs Hz Ht Hs IH|g l fs Hz Hg Hs IH];
    [constructor| |]; apply NoDup_cons in Hnd as [Hg' Hnd]; [|by apply IH].
  simpl. constructor; [|by apply IH]. intros ([f v] & -> & Hin)%list_elem_of_fmap.
  apply Hg'. by apply (selects_in _ _ _ _ _ Hs Hin).
Qed.

(** A field left out is seen as absent. *)
Lemma left_out_absent fs m f :
  (∀ g u, (g, u) ∈ fs → g ∈ fields) → all_stored fs (mk_msg true []) m →
  f ∈ fields → flagged f → (∀ v, (f, v) ∉ fs) → cf_pb_field_has_data f m = Some false.
Proof.
  intros Hin Hst Hf Hfl Hout.
  pose proof (rt_tag _ fields_ok f Hf).
  assert (∀ g u, (g, u) ∈ fs → g ≠ f) as Hne by (intros g u Hg ->; by eapply Hout).
  assert ((∀ g u, (g, u) ∈ fs → apart g f) → msg_get (has_offset f) m = CZero) as Hzero.
  { intros Hap. rewrite (all_frame _ _ _ Hst); [done|]. intros g u Hg.
    destruct (Hap g u Hg) as (H1 & H2 & H3 & H4). split; [by apply H3|]. intros Hgf Heq.
    by apply (H4 Hgf Hfl). }
  unfold cf_pb_field_has_data. case_decide as Hone.
  - destruct (decide (Exists (λ gu, same_union gu.1 f) fs)) as [([g u] & Hg & Hsu)%Exists_exists|Hno].
    + destruct (all_view _ _ _ Hst g u Hg) as [_ Hh]. destruct Hsu as (Hgo & _ & Hof). simpl in *.
      unfold cf_pb_field_has_data in Hh. rewrite decide_True, Hof in Hh by done.
      destruct (as_word 32 (msg_get (has_offset f) m)) as [w|]; [|done]. simpl in *.
      injection Hh as Hw. apply Z.eqb_eq in Hw. f_equal. apply Z.eqb_neq. intros Heq.
      apply (Hne g u Hg).
      pose proof (find_tag_of g (Hin _ _ Hg)) as Hfg. pose proof (find_tag_of f Hf) as Hff.
      rewrite <-Hw, Heq, Hff in Hfg. congruence.
    + rewrite Hzero; [cbn [as_word mbind option_bind]; f_equal; apply Z.eqb_neq; lia|]. intros g u Hg.
      destruct (rt_apart _ fields_ok g f (Hin _ _ Hg) Hf (Hne _ _ Hg)) as [|Hsu]; [done|].
      destruct Hno. apply Exists_exists. by exists (g, u).
  - destruct (Z.eqb_spec (has_offset f) NO_HAS) as [Hn|]; [by destruct Hfl|].
    rewrite Hzero; [done|]. intros g u Hg.
    by destruct (rt_apart _ fields_ok g f (Hin _ _ Hg) Hf (Hne _ _ Hg)) as [|(_ & ? & _)].
Qed.

Lemma view_selected z fields' fs m :
  selects (typed_fields d) z fields' fs → NoDup fields' →
  (∀ f, f ∈ fields' → f ∈ fields) →
  (∀ f v, (f, v) ∈ fs → viewf f (msg_get (item_offset f) m) = Some v ∧
                        cf_pb_field_has_data f m = Some true) →
  (∀ f, z = true → f ∈ fields' → flagged f → (∀ v, (f, v) ∉ fs) → cf_pb_field_has_data f m = Some false) →
  view_fields D (view D d) fields' m = Some fs.
Proof.
  induction 1 as [|f v l fs Hz Ht Hs IH|f l fs Hz Hg Hs IH]; intros Hnd Hsub Hin Hout; [done| |];
    apply NoDup_cons in Hnd as [Hnf Hnd]; cbn [view_fields].
  - destruct (Hin f v ltac:(left)) as [Hv Hh]. rewrite Hh. cbn [mbind option_bind].
    rewrite IH; [|done|intros; apply Hsub; by right|intros; apply Hin; by right|].
    + cbn [mbind option_bind]. rewrite decide_True.
      * rewrite Hv. done.
      * pose proof (rt_tag _ fields_ok f (Hsub f ltac:(left))).
        split; [unfold is_uint; lia|]. apply rt_type with fields; [done|]. apply Hsub. left.
    + intros g Hz' Hgl Hfl Hg. apply Hout; [done|by right|done|]. intros u [[= -> ->]|Hu]%elem_of_cons;
        [done|by eapply Hg].
  - rewrite (Hout f Hz ltac:(left) Hg).
    + cbn [mbind option_bind].
      rewrite IH; [done|done|intros; apply Hsub; by right|done|]. intros g ????. apply Hout; try done. by right.
    + intros v Hv. apply Hnf. by apply (selects_in _ _ _ _ _ Hs Hv).
Qed.
End Fields.

(** A message is read back from its wire form. *)
Lemma decode_wire d : ∀ fuel z fields fs s rest,
  typed_fields d z fields fs → i_state s = wire_fields fs ++ rest →
  i_bytes_left s = zlen (wire_fields fs) → (Z.to_nat (i_bytes_left s) < fuel)%nat →
  ∃ m, cf_pb_decode malloc realloc D fuel fields (mk_msg z []) s =
         Some (true, m, i_drop (length (wire_fields fs)) s) ∧
       view D d fields m = Some fs.
Proof.
  induction d as [|d IH]; intros fuel z fields fs s rest Hty Hs Hl Hfuel; [done|].
  destruct Hty as (Hok & Hsel & Hone).
  assert (Hnd : NoDup fields) by (eapply NoDup_fmap_1, rt_tags; done).
  assert (Hin : ∀ f v, (f, v) ∈ fs → f ∈ fields) by (intros; by eapply selects_in).
  destruct (loop_fields d IH fields Hok z fs [] fuel (mk_msg z []) s rest) as (m & Hd & Hst);
    [done|intros f v Hf; by apply (selects_in _ _ _ _ _ _ Hsel Hf)| | |done|done|done|].
  - intros fa f v fb Heq g u Hg. simpl in Heq.
    assert ((f, v) ∈ fs) as Hf by (rewrite Heq; set_solver).
    assert ((g, u) ∈ fs) as Hgf by (rewrite Heq; set_solver).
    assert (g ≠ f) as Hne.
    { intros ->. pose proof (selects_nodup d z fields fs Hnd Hsel) as Hndf. rewrite Heq in Hndf.
      rewrite fmap_app in Hndf. apply NoDup_app in Hndf as (_ & Hdis & _).
      apply (Hdis f); [apply (list_elem_of_fmap_2 fst _ _ Hg)|left]. }
    destruct (rt_apart _ Hok g f) as [|Hsu]; [by eapply Hin|by eapply Hin|done|done|].
    destruct Hne. by apply (Hone g u f v).
  - split; [done| |done]. intros f v Hf. by apply not_elem_of_nil in Hf.
  - exists m. split; [done|]. simpl.
    apply (view_selected d fields Hok z fields fs m Hsel Hnd); [done|apply Hst|].
    intros f -> Hf Hfl Hout. by apply (left_out_absent d fields Hok fs).
Qed.
End RoundTrip.

(** C18: what [cf_pb_pack] writes, [cf_pb_unpack] reads back: a message, packed and
    unpacked into zeroed memory, gives a message with the same meaning (all the
    fields that have data, their values, the items of arrays, nested messages and
    the active members of unions).  This is so when no allocation fails, for a
    message that is not empty and within these limits ([typed_fields]).  The fields
    have distinct tags from 1 to 2^29 - 1, known types, and members that share no
    memory but as members of one union, at most one of which is active; values are
    of their types, strings without NUL, byte fields of at most 64 KiB, nested
    messages and packed arrays of less than 2^32 bytes.  Above all, an item of a
    repeated message, with all that is nested in it, has required fields only: it is
    decoded into memory of [malloc] that is never cleared, so that the flags of
    optional fields and of unions, and the headers of arrays, are garbage there
    ([CuttlePb.repeated_in_repeated_undefined]). *)
Theorem cf_pb_pack_unpack (malloc realloc : Z → bool) (D : nat → list cf_pb_field_t) (d : nat)
    (fields : list cf_pb_field_t) (m : msg) (fs : list (cf_pb_field_t * sval))
    (Hmalloc : ∀ n, malloc n = true) (Hrealloc : ∀ n, realloc n = true)
    (Hview : view D d fields m = Some fs) (Htyped : typed_fields D d true fields fs)
    (Hsize : 0 < zlen (wire_fields fs) < 2 ^ 64) :
  ∃ buf m', cf_pb_pack malloc D d m fields = Some (zlen buf, Some buf) ∧
    cf_pb_unpack malloc realloc D buf (zlen buf) fields (mk_msg true []) = Some (true, m') ∧
    view D d fields m' = Some fs.
Proof.
  set (w := wire_fields fs) in *.
  destruct (decode_wire malloc realloc D Hmalloc Hrealloc d (S (Z.to_nat (zlen w))) true fields fs
              (pb_istream_from_buffer w (zlen w)) [] Htyped) as (m' & Hd & Hv);
    [simpl; by rewrite app_nil_r|done|simpl; lia|].
  exists w, m'. split; [|split; [|done]].
  - pose proof (encode_emits D d fields m fs Hview) as He. fold w in He.
    unfold cf_pb_pack, cf_pb_get_encoded_size. rewrite (emits_sizing _ w) by (done || lia).
    simpl. rewrite Hmalloc. simpl.
    rewrite (emits_room _ _ He); [|split; [simpl; split; [lia|done]|simpl; lia]|simpl; lia|intros _; simpl; lia].
    simpl. rewrite !Z.add_0_l. by destruct (Z.eqb_spec (zlen w) 0); [lia|].
  - unfold cf_pb_unpack. by rewrite Hd.
Qed.

(** *** The example program again *)

Module Example2.
Import Example1.

Lemma sub_rt : rt_desc sub_fields.
Proof.
  split; intros; each_field; simpl in *; try done; try lia; try (by vm_compute);
    unfold apart, flagged; simpl; try (left; split_and!; (lia || naive_solver)).
  repeat constructor; set_solver.
Qed.

Lemma main_rt : rt_desc main_fields.
Proof.
  split.
  - repeat constructor; set_solver.
  - intros f Hf. each_field; simpl; lia.
  - intros f Hf. by each_field.
  - intros f Hf. by each_field.
  - intros f Hf Hfl. each_field; by vm_compute.
  - intros f Hf Ha. by each_field.
  - intros f g Hf Hg Hne. unfold apart, same_union, flagged.
    each_field; simpl; try done;
      first [left; split_and!; naive_solver lia | right; done].
Qed.

Definition sub_msg (z : bool) (id : Z) (name : bytes) : msg :=
  mk_msg z [(0, CWord 32 id); (8, CStr (Some (name ++ [0])))].

Definition items (l : list cell) : cell := CArr (mk_ccarray l (length l) (length l)).

(** [n = -2; xs = [1; 300]; subs = [{7, "ab"}]; b = {9, "c"}] *)
Definition message : msg := mk_msg true [
  (0, CWord 32 0xFFFFFFFE);
  (16, items [CWord 32 1; CWord 32 300]);
  (48, items [of_msg 1 (sub_msg false 7 [0x61; 0x62])]);
  (96, CWord 32 7); (104, of_msg 1 (sub_msg true 9 [0x63]))].

Definition sub_val (id : Z) (name : bytes) : sval :=
  SMsg [(CF_PB_REQUIRED_FIELD 1 CF_PB_UINT32 CF_PB_SCALAR 4 0 None, SInt id);
        (CF_PB_REQUIRED_FIELD 2 CF_PB_STRING CF_PB_SCALAR 8 8 None, SBytes name)].

Definition meaning : list (cf_pb_field_t * sval) := [
  (CF_PB_REQUIRED_FIELD 1 CF_PB_INT32 CF_PB_SCALAR 4 0 None, SInt (-2));
  (CF_PB_REQUIRED_FIELD 3 CF_PB_UINT32 CF_PB_ARRAY 4 16 None, SRep [SInt 1; SInt 300]);
  (CF_PB_REQUIRED_FIELD 4 CF_PB_MESSAGE CF_PB_ARRAY 16 48 (Some 1%nat), SRep [sub_val 7 [0x61; 0x62]]);
  (CF_PB_ONEOF_FIELD 7 CF_PB_MESSAGE 16 104 96 (Some 1%nat), sub_val 9 [0x63])].

Lemma sub_typed z id name : is_uint 32 id → Forall (λ c, c ≠ 0) name → zlen name < 2 ^ 16 →
  typed_fields table 1 z sub_fields
    [(CF_PB_REQUIRED_FIELD 1 CF_PB_UINT32 CF_PB_SCALAR 4 0 None, SInt id);
     (CF_PB_REQUIRED_FIELD 2 CF_PB_STRING CF_PB_SCALAR 8 8 None, SBytes name)].
Proof.
  intros Hid Hname Hlen. split; [apply sub_rt|]. split.
  - apply selects_take; [by intros _ [?|?]|done|].
    apply selects_take; [by intros _ [?|?]| |apply selects_nil]. split; [done|lia].
  - intros f v g u Hf Hg (Ho & _ & _).
    apply elem_of_cons in Hf as [[= -> _]|Hf]; [done|]. by apply list_elem_of_singleton in Hf as [= -> _].
Qed.

Lemma typed_message : typed_fields table 2 true main_fields meaning.
Proof.
  split; [apply main_rt|]. split.
  - apply selects_take; [done|by_compute|].
    apply selects_skip; [done|by right|].
    apply selects_take; [done|split; [done|]; exists [SInt 1; SInt 300]; split; [done|]; split;
      [repeat constructor; by_compute|intros _; by_compute]|].
    apply selects_take; [done|split; [done|]; eexists [_]; split; [done|]; split; [|done]|].
    { repeat constructor. exists 1%nat. split; [done|]. split; [apply sub_typed; by_compute|by_compute]. }
    apply selects_skip; [done|by right|].
    apply selects_skip; [done|by left|].
    apply selects_take; [done| |apply selects_nil].
    exists 1%nat. split; [done|]. split; [apply sub_typed; by_compute|by_compute].
  - intros f v g u Hf Hg (Ho & Ho' & _). unfold meaning in Hf, Hg.
    repeat (apply elem_of_cons in Hf as [[= -> _]|Hf]; [try done|]);
      [|by apply not_elem_of_nil in Hf].
    repeat (apply elem_of_cons in Hg as [[= -> _]|Hg]; [try done|]).
    by apply not_elem_of_nil in Hg.
Qed.
End Example2.

Lemma cf_pb_pack_unpack_witness :
  ∃ buf m', cf_pb_pack Example1.always Example1.table 2 Example2.message Example1.main_fields =
      Some (zlen buf, Some buf) ∧
    cf_pb_unpack Example1.always Example1.always Example1.table buf (zlen buf) Example1.main_fields
      (mk_msg true []) = Some (true, m') ∧
    view Example1.table 2 Example1.main_fields m' = Some Example2.meaning.
Proof.
  apply (cf_pb_pack_unpack Example1.always Example1.always Example1.table 2 Example1.main_fields
    Example2.message Example2.meaning (λ _, eq_refl) (λ _, eq_refl) ltac:(by vm_compute)
    Example2.typed_message).
  by_compute.
Defined.
