(* ===== verification/PbMem.v ===== *)
(** The memory the protobuf codec of [src/nanopb/pb_decode.c] and
    [src/nanopb/pb_encode.c] works on: blocks (the message struct and what
    [pb_realloc] returned) of memory values, pointers into them, loads and
    stores at an address, [pb_realloc] and [pb_free].  Every access outside a
    live block, every read of memory that was not written, every free of what
    is no live block is undefined ([None]); block names are never reused, so a
    use after free or a double free is undefined too.  [mem_is m fp] says
    that the live blocks of [m] are exactly those of the list [fp]. *)

From S2P Require Import Prelude.

Open Scope Z_scope.

(** ** Values and blocks *)

(** What a pointer in memory points to: nothing, [o] bytes into block [l], a
    callback of the user, a [pb_extension_type_t]. *)
Inductive pval := VNull | VLoc (l : nat) (o : Z) | VFun (n : nat) | VExt (n : nat).

#[export] Instance pval_eq_dec : EqDecision pval.
Proof. solve_decision. Defined.

(** One byte of memory: never written, an integer, the [k]-th byte of a pointer. *)
Inductive memval := MUndef | MByte (b : byte) | MFrag (p : pval) (k : nat).

#[export] Instance memval_eq_dec : EqDecision memval.
Proof. solve_decision. Defined.

Abbreviation block := (list memval).

(** [sizeof] of a pointer *)
Definition PTR_SIZE : nat := 8.

(** The null pointer is eight zero bytes. *)
Definition ptr_bytes (p : pval) : block :=
  match p with
  | VNull => replicate PTR_SIZE (MByte 0)
  | _ => MFrag p <$> seq 0 PTR_SIZE
  end.

Definition decode_ptr (vs : block) : option pval :=
  match vs with
  | MFrag p _ :: _ => if decide (vs = ptr_bytes p) then Some p else None
  | _ => if decide (vs = ptr_bytes VNull) then Some VNull else None
  end.

(** An address is a block and an offset into it. *)
Definition addr : Type := nat * Z.

(** [k] bytes further *)
Definition padd (a : addr) (k : Z) : addr := (a.1, a.2 + k).

(** [m_fate]: what the allocator answers to the next requests; it succeeds
    once the list is used up. *)
Record mem := mk_mem {
  m_heap : gmap nat block;
  m_next : nat;
  m_fate : list bool;
}.

(** ** Accesses *)

Definition in_block (o : Z) (n : nat) (b : block) : bool :=
  (0 <=? o) && (o + Z.of_nat n <=? zlen b).

(** The [n] memory bytes at [a]. *)
Definition load (m : mem) (a : addr) (n : nat) : option block :=
  b ← m_heap m !! a.1;
  if in_block a.2 n b then Some (mem_read (Z.to_nat a.2) n b) else None.

Definition store (m : mem) (a : addr) (vs : block) : option mem :=
  b ← m_heap m !! a.1;
  if in_block a.2 (length vs) b
  then Some (mk_mem (<[a.1 := mem_write (Z.to_nat a.2) vs b]> (m_heap m)) (m_next m) (m_fate m))
  else None.

Definition memval_byte (v : memval) : option byte :=
  match v with MByte b => Some b | _ => None end.

Definition load_bytes (m : mem) (a : addr) (n : nat) : option bytes :=
  vs ← load m a n; mapM memval_byte vs.

Definition load_u8 (m : mem) (a : addr) : option byte :=
  bs ← load_bytes m a 1; head bs.

Definition load_ptr (m : mem) (a : addr) : option pval := vs ← load m a PTR_SIZE; decode_ptr vs.

(** ** The allocator *)

Definition new_block (b : block) (m : mem) (fate : list bool) : pval * mem :=
  (VLoc (m_next m) 0, mk_mem (<[m_next m := b]> (m_heap m)) (S (m_next m)) fate).

(** The first bytes of [b], with what is new undefined. *)
Definition resize (n : nat) (b : block) : block :=
  take n b ++ replicate (n - length b) MUndef.

(** [pb_realloc]: the block moves; a request that fails leaves the old block. *)
Definition pb_realloc (p : pval) (n : Z) (m : mem) : option (pval * mem) :=
  let ok := match m_fate m with [] => true | b :: _ => b end in
  let fate := tail (m_fate m) in
  match p with
  | VNull =>
    if ok then Some (new_block (replicate (Z.to_nat n) MUndef) m fate)
    else Some (VNull, mk_mem (m_heap m) (m_next m) fate)
  | VLoc l 0 =>
    b ← m_heap m !! l;
    if ok
    then Some (new_block (resize (Z.to_nat n) b)
                 (mk_mem (delete l (m_heap m)) (m_next m) fate) fate)
    else Some (VNull, mk_mem (m_heap m) (m_next m) fate)
  | _ => None
  end.

Definition pb_free (p : pval) (m : mem) : option mem :=
  match p with
  | VNull => Some m
  | VLoc l 0 =>
    _ ← m_heap m !! l;
    Some (mk_mem (delete l (m_heap m)) (m_next m) (m_fate m))
  | _ => None
  end.

(** ** The blocks of a memory *)

Abbreviation footprint := (list (nat * block)).

(** The live blocks of [m] are those of [fp], and new names are new. *)
Definition mem_is (m : mem) (fp : footprint) : Prop :=
  m_heap m = list_to_map fp ∧ NoDup fp.*1 ∧ Forall (λ l, l < m_next m)%nat fp.*1.

Lemma mem_is_permuted m fp fp' : fp ≡ₚ fp' → mem_is m fp → mem_is m fp'.
Proof.
  intros Hp (Hh & Hn & Hl). assert (fp.*1 ≡ₚ fp'.*1) as Hp1 by by apply fmap_Permutation.
  split; [rewrite Hh; by apply list_to_map_proper|]. by rewrite <-Hp1.
Qed.

#[export] Instance mem_is_proper m : Proper ((≡ₚ) ==> iff) (mem_is m).
Proof. intros fp fp' Hp. split; by apply mem_is_permuted. Qed.

Lemma mem_is_lookup m l b F : mem_is m ((l, b) :: F) → m_heap m !! l = Some b.
Proof. intros (-> & _ & _). simpl. apply lookup_insert_eq. Qed.

Lemma mem_is_update m l b b' F :
  mem_is m ((l, b) :: F) →
  mem_is (mk_mem (<[l := b']> (m_heap m)) (m_next m) (m_fate m)) ((l, b') :: F).
Proof.
  intros (Hh & Hn & Hl). split; [|done]. simpl. rewrite Hh. simpl. apply insert_insert_eq.
Qed.

Lemma mem_is_delete m l b F fate :
  mem_is m ((l, b) :: F) → mem_is (mk_mem (delete l (m_heap m)) (m_next m) fate) F.
Proof.
  intros (Hh & [Hx Hn]%NoDup_cons & [_ Hl]%Forall_cons). split; [|done]. simpl. rewrite Hh. simpl.
  apply delete_insert_id. by apply not_elem_of_list_to_map_1.
Qed.

Lemma mem_is_new m b F fate :
  mem_is m F → mem_is (new_block b m fate).2 ((m_next m, b) :: F).
Proof.
  intros (Hh & Hn & Hl). unfold mem_is, new_block. cbn [fst snd m_heap m_next fmap list_fmap list_to_map foldr].
  split; [by rewrite Hh|]. split; [constructor; [|done]|constructor; [lia|]].
  - intros Hi. rewrite Forall_forall in Hl. specialize (Hl _ Hi). lia.
  - eapply Forall_impl; [done|]. simpl. lia.
Qed.

Lemma mem_is_fate m F fate :
  mem_is m F → mem_is (mk_mem (m_heap m) (m_next m) fate) F.
Proof. done. Qed.

(** ** Accesses to a known block *)

Lemma load_spec m l b F o n :
  mem_is m ((l, b) :: F) → (o + n <= length b)%nat →
  load m (l, Z.of_nat o) n = Some (mem_read o n b).
Proof.
  intros Hm Hl. unfold load. simpl. rewrite (mem_is_lookup _ _ _ _ Hm). simpl.
  unfold in_block. bool_cases. simpl. by rewrite Nat2Z.id.
Qed.

Lemma store_spec m l b F o vs :
  mem_is m ((l, b) :: F) → (o + length vs <= length b)%nat →
  ∃ m', store m (l, Z.of_nat o) vs = Some m' ∧ mem_is m' ((l, mem_write o vs b) :: F) ∧
        m_fate m' = m_fate m.
Proof.
  intros Hm Hl. unfold store. simpl. rewrite (mem_is_lookup _ _ _ _ Hm). simpl.
  unfold in_block. bool_cases. simpl. rewrite Nat2Z.id. eexists. split; [done|].
  split; [by eapply mem_is_update|done].
Qed.

Lemma length_ptr_bytes p : length (ptr_bytes p) = PTR_SIZE.
Proof. by destruct p. Qed.

Lemma decode_ptr_bytes p : decode_ptr (ptr_bytes p) = Some p.
Proof.
  destruct p; [done|..]; unfold decode_ptr;
    match goal with |- context [ptr_bytes ?p] => remember (ptr_bytes p) as vs eqn:Hvs end;
    pose proof Hvs as Hvs'; simpl in Hvs'; rewrite Hvs' at 1; by rewrite decide_True.
Qed.

Lemma mapM_bytes bs : mapM memval_byte (MByte <$> bs) = Some bs.
Proof. induction bs as [|b bs IH]; [done|]. rewrite fmap_cons. cbn [mapM memval_byte mbind option_bind]. by rewrite IH. Qed.

Lemma length_resize n b : length (resize n b) = n.
Proof. unfold resize. rewrite length_app, length_take, length_replicate. lia. Qed.

Lemma mem_read_resize p k n b : (p + k <= n)%nat → (p + k <= length b)%nat →
  mem_read p k (resize n b) = mem_read p k b.
Proof.
  intros. unfold resize. unfold mem_read. rewrite drop_app_le by (rewrite length_take; lia).
  rewrite take_app_le by (rewrite length_drop, length_take; lia).
  rewrite skipn_firstn_comm, take_take. f_equal. lia.
Qed.

(** The block a pointer owns: none, or a whole live block. *)
Definition owns (p : pval) (bs : footprint) : Prop :=
  (p = VNull ∧ bs = []) ∨ ∃ l b, p = VLoc l 0 ∧ bs = [(l, b)].

Lemma pb_free_spec m p bs F :
  owns p bs → mem_is m (bs ++ F) →
  ∃ m', pb_free p m = Some m' ∧ mem_is m' F ∧ m_fate m' = m_fate m.
Proof.
  intros [[-> ->]|(l & b & -> & ->)] Hm; [by exists m|]. simpl in Hm.
  unfold pb_free. rewrite (mem_is_lookup _ _ _ _ Hm). simpl. eexists. split; [done|].
  split; [by eapply mem_is_delete|done].
Qed.

(** [pb_realloc] gives a block of the size asked for that begins with the old
    contents, or fails and changes no block. *)
Lemma pb_realloc_spec m p bs F n :
  owns p bs → mem_is m (bs ++ F) →
  (∃ l m', pb_realloc p n m = Some (VLoc l 0, m') ∧
     mem_is m' ((l, resize (Z.to_nat n) (default [] (snd <$> head bs))) :: F) ∧
     m_fate m' = tail (m_fate m)) ∨
  (head (m_fate m) = Some false ∧
   ∃ m', pb_realloc p n m = Some (VNull, m') ∧ mem_is m' (bs ++ F) ∧ m_fate m' = tail (m_fate m)).
Proof.
  intros Ho Hm.
  destruct (decide (head (m_fate m) = Some false)) as [Hf|Hf].
  - right. split; [done|]. unfold pb_realloc.
    destruct (m_fate m) as [|ok fate]; [done|]. simpl in Hf. simplify_eq.
    destruct Ho as [[-> ->]|(l & b & -> & ->)].
    + eexists. split; [done|]. done.
    + simpl in Hm. rewrite (mem_is_lookup _ _ _ _ Hm). simpl. eexists. split; [done|]. done.
  - left. assert (match m_fate m with [] => true | b :: _ => b end = true) as Hok.
    { destruct (m_fate m) as [|[] ?]; done. }
    unfold pb_realloc. rewrite Hok. destruct Ho as [[-> ->]|(l & b & -> & ->)].
    + eexists _, _. split; [done|]. simpl. split; [|done].
      unfold resize. rewrite take_nil, Nat.sub_0_r.
      by apply (mem_is_new m (replicate (Z.to_nat n) MUndef) F (tail (m_fate m))).
    + simpl in Hm. rewrite (mem_is_lookup _ _ _ _ Hm). simpl.
      eexists _, _. split; [done|]. split; [|done].
      apply (mem_is_delete _ _ _ _ (tail (m_fate m))) in Hm.
      apply (mem_is_new _ (resize (Z.to_nat n) b) F (tail (m_fate m))) in Hm. done.
Qed.
