(* ===== verification/PbFields.v ===== *)
(** The message descriptors of [include/cuttle/nanopb/pb.h] (the type codes,
    [struct pb_field_s] and the macros that fill the descriptors in) and the
    field iterator of [src/nanopb/pb_common.c] that the decoder and the encoder
    walk them with.  The offsets in a descriptor are relative to the field
    before it; [iterator_visits_members] shows that on a descriptor the macros
    built from a struct the iterator stops at each member where the compiler
    put it, and [layout] is the list of the fields with their offsets. *)

From S2P Require Import Prelude PbStream PbMem.

Open Scope Z_scope.

(** ** Type codes *)

Definition PB_MAX_REQUIRED_FIELDS : Z := 64.

Definition PB_LTYPE_VARINT : Z := 0x00.
Definition PB_LTYPE_UVARINT : Z := 0x01.
Definition PB_LTYPE_SVARINT : Z := 0x02.
Definition PB_LTYPE_FIXED32 : Z := 0x03.
Definition PB_LTYPE_FIXED64 : Z := 0x04.
Definition PB_LTYPE_LAST_PACKABLE : Z := 0x04.
Definition PB_LTYPE_BYTES : Z := 0x05.
Definition PB_LTYPE_STRING : Z := 0x06.
Definition PB_LTYPE_SUBMESSAGE : Z := 0x07.
Definition PB_LTYPE_EXTENSION : Z := 0x08.
Definition PB_LTYPE_FIXED_LENGTH_BYTES : Z := 0x09.
Definition PB_LTYPE_MASK : Z := 0x0F.

Definition PB_HTYPE_REQUIRED : Z := 0x00.
Definition PB_HTYPE_OPTIONAL : Z := 0x10.
Definition PB_HTYPE_REPEATED : Z := 0x20.
Definition PB_HTYPE_ONEOF : Z := 0x30.
Definition PB_HTYPE_MASK : Z := 0x30.

Definition PB_ATYPE_STATIC : Z := 0x00.
Definition PB_ATYPE_POINTER : Z := 0x80.
Definition PB_ATYPE_CALLBACK : Z := 0x40.
Definition PB_ATYPE_MASK : Z := 0xC0.

Definition PB_ATYPE (x : Z) : Z := Z.land x PB_ATYPE_MASK.
Definition PB_HTYPE (x : Z) : Z := Z.land x PB_HTYPE_MASK.
Definition PB_LTYPE (x : Z) : Z := Z.land x PB_LTYPE_MASK.

(** [pb_size_t] is [uint_least8_t]. *)
Definition PB_SIZE_MAX : Z := 255.

(** ** Descriptors *)

(** What [ptr] points to: the descriptor of a submessage, by its number in the
    table of the program's descriptors, or a default value. *)
Inductive fptr := FNull | FSubmsg (d : nat) | FDefault (value : bytes).

(** [struct pb_field_s] *)
Record pb_field := mk_field {
  f_tag : Z;
  f_type : Z;
  f_data_offset : Z;
  f_size_offset : Z;
  f_data_size : Z;
  f_array_size : Z;
  f_ptr : fptr;
}.

Definition PB_LAST_FIELD : pb_field := mk_field 0 0 0 0 0 0 FNull.

(** A descriptor is the list of its fields; the array of the code has
    [PB_LAST_FIELD] after them. *)
Definition field_at (fields : list pb_field) (k : nat) : pb_field := default PB_LAST_FIELD (fields !! k).

(** The tests of the code on the parts of a field's type. *)
Definition is_atype (a : Z) (f : pb_field) : bool := PB_ATYPE (f_type f) =? a.
Definition is_htype (h : Z) (f : pb_field) : bool := PB_HTYPE (f_type f) =? h.
Definition is_ltype (l : Z) (f : pb_field) : bool := PB_LTYPE (f_type f) =? l.

(** [PB_LTYPE(type) == PB_LTYPE_STRING || PB_LTYPE(type) == PB_LTYPE_BYTES] *)
Definition is_string_or_bytes (f : pb_field) : bool :=
  is_ltype PB_LTYPE_STRING f || is_ltype PB_LTYPE_BYTES f.

(** [PB_LTYPE(type) <= PB_LTYPE_LAST_PACKABLE] *)
Definition is_packable (f : pb_field) : bool := PB_LTYPE (f_type f) <=? PB_LTYPE_LAST_PACKABLE.

(** ** The iterator *)

(** [struct pb_field_iter_s]; [it_pos] is an index into [it_start]. *)
Record pb_field_iter := mk_iter {
  it_start : list pb_field;
  it_pos : nat;
  it_required_field_index : Z;
  it_dest_struct : addr;
  it_pData : addr;
  it_pSize : addr;
}.

(** [*iter->pos] *)
Definition it_field (it : pb_field_iter) : pb_field := field_at (it_start it) (it_pos it).

Definition pb_field_iter_begin (fields : list pb_field) (dest_struct : addr) : bool * pb_field_iter :=
  let f := field_at fields 0 in
  let pData := padd dest_struct (f_data_offset f) in
  (negb (f_tag f =? 0), mk_iter fields 0 0 dest_struct pData (padd pData (f_size_offset f))).

Definition pb_field_iter_next (it : pb_field_iter) : bool * pb_field_iter :=
  let prev_field := it_field it in
  if f_tag prev_field =? 0 then (false, it)
  else
    let pos := S (it_pos it) in
    let f := field_at (it_start it) pos in
    if f_tag f =? 0 then (false, (pb_field_iter_begin (it_start it) (it_dest_struct it)).2)
    else
      let oneofs := is_htype PB_HTYPE_ONEOF prev_field && is_htype PB_HTYPE_ONEOF f in
      let pData := if oneofs then padd (it_pData it) (- f_data_offset prev_field) else it_pData it in
      let prev_size :=
        if oneofs then 0
        else if is_atype PB_ATYPE_STATIC prev_field && is_htype PB_HTYPE_REPEATED prev_field
        then f_data_size prev_field * f_array_size prev_field
        else if is_atype PB_ATYPE_POINTER prev_field then Z.of_nat PTR_SIZE
        else f_data_size prev_field in
      let index :=
        if is_htype PB_HTYPE_REQUIRED prev_field then it_required_field_index it + 1
        else it_required_field_index it in
      let pData := padd (padd pData prev_size) (f_data_offset f) in
      (true, mk_iter (it_start it) pos index (it_dest_struct it) pData (padd pData (f_size_offset f))).

(** The [do ... while (iter->pos != start)] of [pb_field_iter_find]: a turn per
    field is enough ([iter_find_spec]). *)
Fixpoint iter_find_loop (fuel : nat) (start : nat) (tag : Z) (it : pb_field_iter)
    : option (bool * pb_field_iter) :=
  match fuel with
  | O => None
  | S fuel' =>
    if (f_tag (it_field it) =? tag) && negb (is_ltype PB_LTYPE_EXTENSION (it_field it))
    then Some (true, it)
    else
      let it' := (pb_field_iter_next it).2 in
      if (it_pos it' =? start)%nat then Some (false, it') else iter_find_loop fuel' start tag it'
  end.

Definition pb_field_iter_find (it : pb_field_iter) (tag : Z) : option (bool * pb_field_iter) :=
  iter_find_loop (S (length (it_start it))) (it_pos it) tag it.

(** ** The macros that fill in a descriptor *)

(** A member [m] of a message struct: [offsetof(st, m)], [sizeof] of the member
    and of [m[0]], and the offset of the [has_], [_count] or [which_] member
    that goes with it. *)
Record member := mk_member {
  m_offset : Z;
  m_size : Z;
  m_elem : Z;
  m_aux : Z;
}.

Definition pb_delta (m : member) : Z := m_aux m - m_offset m.
Definition pb_arraysize (m : member) : Z := m_size m / m_elem m.

Definition PB_DATAOFFSET_FIRST (m : member) : Z := m_offset m.
Definition PB_DATAOFFSET_OTHER (m1 m2 : member) : Z := m_offset m1 - m_offset m2 - m_size m2.

(** An initializer of [pb_field_t], converted to the types of its members. *)
Definition init_field (tag type fd size_offset data_size array_size : Z) (ptr : fptr) : pb_field :=
  mk_field (u8 tag) (u8 type) (u8 fd) (swrap 8 size_offset) (u8 data_size) (u8 array_size) ptr.

Definition typecode (a h l : Z) : Z := Z.lor (Z.lor a h) l.

Definition PB_REQUIRED_STATIC tag m fd ltype ptr :=
  init_field tag (typecode PB_ATYPE_STATIC PB_HTYPE_REQUIRED ltype) fd 0 (m_size m) 0 ptr.
Definition PB_OPTIONAL_STATIC tag m fd ltype ptr :=
  init_field tag (typecode PB_ATYPE_STATIC PB_HTYPE_OPTIONAL ltype) fd (pb_delta m) (m_size m) 0 ptr.
Definition PB_REPEATED_STATIC tag m fd ltype ptr :=
  init_field tag (typecode PB_ATYPE_STATIC PB_HTYPE_REPEATED ltype) fd (pb_delta m)
    (m_elem m) (pb_arraysize m) ptr.
Definition PB_REQUIRED_INLINE tag m fd ptr :=
  init_field tag (typecode PB_ATYPE_STATIC PB_HTYPE_REQUIRED PB_LTYPE_FIXED_LENGTH_BYTES)
    fd 0 (m_size m) 0 ptr.
Definition PB_OPTIONAL_INLINE tag m fd ptr :=
  init_field tag (typecode PB_ATYPE_STATIC PB_HTYPE_OPTIONAL PB_LTYPE_FIXED_LENGTH_BYTES)
    fd (pb_delta m) (m_size m) 0 ptr.
Definition PB_REQUIRED_POINTER tag m fd ltype ptr :=
  init_field tag (typecode PB_ATYPE_POINTER PB_HTYPE_REQUIRED ltype) fd 0 (m_elem m) 0 ptr.
Definition PB_OPTIONAL_POINTER tag m fd ltype ptr :=
  init_field tag (typecode PB_ATYPE_POINTER PB_HTYPE_OPTIONAL ltype) fd 0 (m_elem m) 0 ptr.
Definition PB_REPEATED_POINTER tag m fd ltype ptr :=
  init_field tag (typecode PB_ATYPE_POINTER PB_HTYPE_REPEATED ltype) fd (pb_delta m) (m_elem m) 0 ptr.
Definition PB_CALLBACK (htype : Z) tag m fd ltype ptr :=
  init_field tag (typecode PB_ATYPE_CALLBACK htype ltype) fd 0 (m_size m) 0 ptr.
Definition PB_ONEOF_STATIC tag m fd ltype ptr :=
  init_field tag (typecode PB_ATYPE_STATIC PB_HTYPE_ONEOF ltype) fd (pb_delta m) (m_size m) 0 ptr.
Definition PB_ONEOF_POINTER tag m fd ltype ptr :=
  init_field tag (typecode PB_ATYPE_POINTER PB_HTYPE_ONEOF ltype) fd (pb_delta m) (m_elem m) 0 ptr.

(** The rules and the allocation of a field, as [PB_FIELD] takes them. *)
Inductive rules :=
| REQUIRED_STATIC | OPTIONAL_STATIC | REPEATED_STATIC | REQUIRED_INLINE | OPTIONAL_INLINE
| REQUIRED_POINTER | OPTIONAL_POINTER | REPEATED_POINTER
| REQUIRED_CALLBACK | OPTIONAL_CALLBACK | REPEATED_CALLBACK | ONEOF_STATIC | ONEOF_POINTER.

#[export] Instance rules_eq_dec : EqDecision rules.
Proof. solve_decision. Defined.

(** The arguments of [PB_FIELD] and [PB_ONEOF_FIELD]. *)
Record decl := mk_decl {
  d_tag : Z;
  d_rules : rules;
  d_ltype : Z;
  d_member : member;
  d_ptr : fptr;
}.

Definition is_oneof (d : decl) : bool :=
  match d_rules d with ONEOF_STATIC | ONEOF_POINTER => true | _ => false end.

(** [PB_DATAOFFSET_ ## placement], with the previous member if there is one. *)
Definition data_offset (m : member) (prev : option member) : Z :=
  match prev with None => PB_DATAOFFSET_FIRST m | Some m' => PB_DATAOFFSET_OTHER m m' end.

Definition PB_FIELD (d : decl) (prev : option member) : pb_field :=
  let fd := data_offset (d_member d) prev in
  match d_rules d with
  | REQUIRED_STATIC => PB_REQUIRED_STATIC (d_tag d) (d_member d) fd (d_ltype d) (d_ptr d)
  | OPTIONAL_STATIC => PB_OPTIONAL_STATIC (d_tag d) (d_member d) fd (d_ltype d) (d_ptr d)
  | REPEATED_STATIC => PB_REPEATED_STATIC (d_tag d) (d_member d) fd (d_ltype d) (d_ptr d)
  | REQUIRED_INLINE => PB_REQUIRED_INLINE (d_tag d) (d_member d) fd (d_ptr d)
  | OPTIONAL_INLINE => PB_OPTIONAL_INLINE (d_tag d) (d_member d) fd (d_ptr d)
  | REQUIRED_POINTER => PB_REQUIRED_POINTER (d_tag d) (d_member d) fd (d_ltype d) (d_ptr d)
  | OPTIONAL_POINTER => PB_OPTIONAL_POINTER (d_tag d) (d_member d) fd (d_ltype d) (d_ptr d)
  | REPEATED_POINTER => PB_REPEATED_POINTER (d_tag d) (d_member d) fd (d_ltype d) (d_ptr d)
  | REQUIRED_CALLBACK => PB_CALLBACK PB_HTYPE_REQUIRED (d_tag d) (d_member d) fd (d_ltype d) (d_ptr d)
  | OPTIONAL_CALLBACK => PB_CALLBACK PB_HTYPE_OPTIONAL (d_tag d) (d_member d) fd (d_ltype d) (d_ptr d)
  | REPEATED_CALLBACK => PB_CALLBACK PB_HTYPE_REPEATED (d_tag d) (d_member d) fd (d_ltype d) (d_ptr d)
  | ONEOF_STATIC => PB_ONEOF_STATIC (d_tag d) (d_member d) fd (d_ltype d) (d_ptr d)
  | ONEOF_POINTER => PB_ONEOF_POINTER (d_tag d) (d_member d) fd (d_ltype d) (d_ptr d)
  end.

(** The previous member each field of a message names: the members of a union
    all name the member before the union. *)
Definition next_prev (prev : option member) (d : decl) (rest : list decl) : option member :=
  match rest with
  | d' :: _ => if is_oneof d && is_oneof d' then prev else Some (d_member d)
  | [] => Some (d_member d)
  end.

Fixpoint fields_of (prev : option member) (ds : list decl) : list pb_field :=
  match ds with
  | [] => []
  | d :: rest => PB_FIELD d prev :: fields_of (next_prev prev d rest) rest
  end.

(** [pb_field_iter_begin] and [k] times [pb_field_iter_next]. *)
Fixpoint iter_steps (k : nat) (it : pb_field_iter) : pb_field_iter :=
  match k with O => it | S k' => (pb_field_iter_next (iter_steps k' it)).2 end.

(** The numbers of a field fit the members of [pb_field_t], and the member is
    as C lays it out: an array of elements, a pointer. *)
Definition decl_fits (prev : option member) (d : decl) : Prop :=
  let m := d_member d in
  0 < d_tag d < 256 ∧ 0 <= d_ltype d < 16 ∧
  0 <= data_offset m prev < 256 ∧ is_sint 8 (pb_delta m) ∧
  0 <= m_size m < 256 ∧ 0 < m_elem m < 256 ∧ pb_arraysize m < 256 ∧
  match d_rules d with
  | REPEATED_STATIC => m_size m = m_elem m * pb_arraysize m
  | REQUIRED_POINTER | OPTIONAL_POINTER | REPEATED_POINTER | ONEOF_POINTER => m_size m = Z.of_nat PTR_SIZE
  | _ => True
  end.

Fixpoint decls_fit (prev : option member) (ds : list decl) : Prop :=
  match ds with
  | [] => True
  | d :: rest => decl_fits prev d ∧ decls_fit (next_prev prev d rest) rest
  end.

#[export] Instance decl_fits_dec prev d : Decision (decl_fits prev d).
Proof. unfold decl_fits. destruct (d_rules d); apply _. Defined.

#[export] Instance decls_fit_dec prev ds : Decision (decls_fit prev ds).
Proof. revert prev; induction ds as [|d rest IH]; intros prev; simpl; apply _. Defined.

(** The fields that have a [has_], [_count] or [which_] member. *)
Definition has_aux (d : decl) : bool :=
  match d_rules d with
  | OPTIONAL_STATIC | REPEATED_STATIC | OPTIONAL_INLINE | REPEATED_POINTER
  | ONEOF_STATIC | ONEOF_POINTER => true
  | _ => false
  end.

(** ** Where the fields are *)

(** The bytes a field takes in the struct: the array of a static repeated
    field, the pointer of an allocated one. *)
Definition field_width (f : pb_field) : Z :=
  if is_atype PB_ATYPE_STATIC f && is_htype PB_HTYPE_REPEATED f then f_data_size f * f_array_size f
  else if is_atype PB_ATYPE_POINTER f then Z.of_nat PTR_SIZE
  else f_data_size f.

(** The offset of [g], the field after [f], which is at [p]. *)
Definition next_offset (f g : pb_field) (p : Z) : Z :=
  if is_htype PB_HTYPE_ONEOF f && is_htype PB_HTYPE_ONEOF g
  then p - f_data_offset f + f_data_offset g
  else p + field_width f + f_data_offset g.

Fixpoint layout_from (p : Z) (f : pb_field) (rest : list pb_field) : list (pb_field * Z) :=
  (f, p) :: match rest with
            | [] => []
            | g :: rest' => layout_from (next_offset f g p) g rest'
            end.

(** The fields of a descriptor, each with its offset in the struct. *)
Definition layout (fields : list pb_field) : list (pb_field * Z) :=
  match fields with
  | [] => []
  | f :: rest => layout_from (f_data_offset f) f rest
  end.

Definition count_required (fields : list pb_field) : Z :=
  zlen (filter (λ f, is_htype PB_HTYPE_REQUIRED f = true) fields).

(** The iterator at the [k]-th field, which is at offset [p]. *)
Definition iter_at (fields : list pb_field) (dest : addr) (k : nat) (p : Z) : pb_field_iter :=
  mk_iter fields k (count_required (take k fields)) dest (padd dest p)
    (padd (padd dest p) (f_size_offset (field_at fields k))).

Definition tags_ok (fields : list pb_field) : Prop := Forall (λ f, f_tag f ≠ 0) fields.

Lemma padd_padd a i j : padd (padd a i) j = padd a (i + j).
Proof. unfold padd. simpl. f_equal. lia. Qed.

Lemma padd_eq a i j : i = j → padd a i = padd a j.
Proof. by intros ->. Qed.

Lemma layout_from_length p f rest : length (layout_from p f rest) = S (length rest).
Proof. revert p f; induction rest as [|g rest IH]; intros p f; simpl; [done|]. by rewrite IH. Qed.

Lemma layout_length fields : length (layout fields) = length fields.
Proof. destruct fields; [done|]. apply layout_from_length. Qed.

Lemma layout_from_field p f rest k g q :
  layout_from p f rest !! k = Some (g, q) → (f :: rest) !! k = Some g.
Proof.
  revert p f k; induction rest as [|h rest IH]; intros p f [|k]; simpl; intros H; simplify_eq; try done.
  by apply IH in H.
Qed.

Lemma layout_field fields k f p : layout fields !! k = Some (f, p) → fields !! k = Some f.
Proof. destruct fields; [done|]. apply layout_from_field. Qed.

Lemma layout_from_next p f rest k g q h r :
  layout_from p f rest !! k = Some (g, q) → layout_from p f rest !! S k = Some (h, r) →
  r = next_offset g h q.
Proof.
  revert p f k; induction rest as [|i rest IH]; intros p f k; [destruct k; simpl; done|].
  destruct k as [|k]; cbn [layout_from lookup list_lookup]; intros H1 H2.
  - simplify_eq. destruct rest; simpl in H2; by simplify_eq.
  - by eapply IH.
Qed.

Lemma layout_next fields k g q h r :
  layout fields !! k = Some (g, q) → layout fields !! S k = Some (h, r) → r = next_offset g h q.
Proof. destruct fields; [done|]. apply layout_from_next. Qed.

Lemma field_at_layout fields k f p : layout fields !! k = Some (f, p) → field_at fields k = f.
Proof. intros H%layout_field. unfold field_at. by rewrite H. Qed.

Lemma count_required_snoc l f :
  count_required (l ++ [f]) = count_required l + (if is_htype PB_HTYPE_REQUIRED f then 1 else 0).
Proof.
  unfold count_required. rewrite filter_app, length_app.
  destruct (is_htype PB_HTYPE_REQUIRED f) eqn:E.
  - rewrite filter_cons_True by done. simpl. lia.
  - rewrite filter_cons_False by (by rewrite E). simpl. lia.
Qed.

(** ** What the iterator does *)

Lemma iter_begin_spec fields dest f p :
  tags_ok fields → layout fields !! 0%nat = Some (f, p) →
  pb_field_iter_begin fields dest = (true, iter_at fields dest 0 p).
Proof.
  intros Ht Hf. unfold pb_field_iter_begin, iter_at. rewrite (field_at_layout _ _ _ _ Hf).
  destruct fields as [|g rest]; [done|].
  assert (f = g ∧ p = f_data_offset g) as [-> ->] by (destruct rest; simpl in Hf; by simplify_eq).
  apply Forall_cons in Ht as [Ht _]. bool_cases. done.
Qed.

Lemma iter_begin_nil dest : (pb_field_iter_begin [] dest).1 = false.
Proof. done. Qed.

Lemma iter_field fields dest k f p : layout fields !! k = Some (f, p) → it_field (iter_at fields dest k p) = f.
Proof. apply field_at_layout. Qed.

Lemma tags_ok_lookup fields k f p : tags_ok fields → layout fields !! k = Some (f, p) → f_tag f ≠ 0.
Proof.
  intros Ht Hf%layout_field. unfold tags_ok in Ht. rewrite Forall_lookup in Ht. by eapply Ht.
Qed.

Lemma iter_next_step fields dest k f p g q :
  tags_ok fields → layout fields !! k = Some (f, p) → layout fields !! S k = Some (g, q) →
  pb_field_iter_next (iter_at fields dest k p) = (true, iter_at fields dest (S k) q).
Proof.
  intros Ht Hf Hg. pose proof (layout_next _ _ _ _ _ _ Hf Hg) as ->.
  pose proof (tags_ok_lookup _ _ _ _ Ht Hf). pose proof (tags_ok_lookup _ _ _ _ Ht Hg).
  unfold pb_field_iter_next. rewrite (iter_field _ _ _ _ _ Hf).
  cbn [iter_at it_start it_pos it_pData it_required_field_index it_dest_struct].
  rewrite (field_at_layout _ _ _ _ Hg). bool_cases. unfold iter_at.
  rewrite (take_S_r _ _ f) by (by eapply layout_field). rewrite count_required_snoc.
  rewrite (field_at_layout _ _ _ _ Hg). unfold next_offset, field_width.
  destruct (is_htype PB_HTYPE_REQUIRED f), (is_htype PB_HTYPE_ONEOF f && is_htype PB_HTYPE_ONEOF g),
    (is_atype PB_ATYPE_STATIC f && is_htype PB_HTYPE_REPEATED f), (is_atype PB_ATYPE_POINTER f);
    rewrite ?padd_padd; do 2 f_equal; first [lia | apply padd_eq; lia].
Qed.

Lemma iter_next_wrap fields dest k f p g q :
  tags_ok fields → layout fields !! k = Some (f, p) → layout fields !! S k = None →
  layout fields !! 0%nat = Some (g, q) →
  pb_field_iter_next (iter_at fields dest k p) = (false, iter_at fields dest 0 q).
Proof.
  intros Ht Hf Hn H0. pose proof (tags_ok_lookup _ _ _ _ Ht Hf).
  unfold pb_field_iter_next. rewrite (iter_field _ _ _ _ _ Hf).
  cbn [iter_at it_start it_pos it_dest_struct].
  apply lookup_ge_None in Hn. rewrite layout_length in Hn.
  assert (f_tag (field_at fields (S k)) = 0) as ->
    by (unfold field_at; by rewrite lookup_ge_None_2 by lia).
  rewrite (proj2 (Z.eqb_neq _ _)) by done. cbn -[pb_field_iter_begin]. by rewrite (iter_begin_spec _ _ g q).
Qed.

(** The iterator on the [k]-th field moves to the next one, from the last field
    back to the first. *)
Definition next_index (n k : nat) : nat := if (S k <? n)%nat then S k else 0%nat.

Lemma layout_lookup fields k : (k < length fields)%nat → ∃ f p, layout fields !! k = Some (f, p).
Proof.
  intros Hk. rewrite <-layout_length in Hk. apply lookup_lt_is_Some in Hk as [[f p] ?]. eauto.
Qed.

Lemma iter_next_index fields dest k f p :
  tags_ok fields → layout fields !! k = Some (f, p) →
  ∃ g q, layout fields !! next_index (length fields) k = Some (g, q) ∧
    pb_field_iter_next (iter_at fields dest k p) =
    ((S k <? length fields)%nat, iter_at fields dest (next_index (length fields) k) q).
Proof.
  intros Ht Hf. unfold next_index. pose proof (lookup_lt_Some _ _ _ Hf) as Hk. rewrite layout_length in Hk.
  destruct (Nat.ltb_spec (S k) (length fields)) as [Hl|Hl].
  - destruct (layout_lookup fields (S k) Hl) as (g & q & Hg). exists g, q. split; [done|].
    by eapply iter_next_step.
  - destruct (layout_lookup fields 0) as (g & q & Hg); [lia|]. exists g, q. split; [done|].
    eapply iter_next_wrap; eauto. apply lookup_ge_None_2. rewrite layout_length. lia.
Qed.

(** The field a tag of a message denotes. *)
Definition has_tag (tag : Z) (f : pb_field) : Prop := f_tag f = tag ∧ is_ltype PB_LTYPE_EXTENSION f = false.

Lemma iter_find_loop_spec fields dest tag k d fuel i f p :
  tags_ok fields → (k < length fields)%nat → (d < length fields)%nat →
  i = (if k + d <? length fields then k + d else k + d - length fields)%nat →
  layout fields !! i = Some (f, p) → (length fields <= d + fuel)%nat →
  (∀ e g, (e < d)%nat →
    fields !! (if k + e <? length fields then k + e else k + e - length fields)%nat = Some g → ¬ has_tag tag g) →
  (∃ j g q, layout fields !! j = Some (g, q) ∧ has_tag tag g ∧
     iter_find_loop fuel k tag (iter_at fields dest i p) = Some (true, iter_at fields dest j q)) ∨
  (Forall (λ g, ¬ has_tag tag g) fields ∧
   ∃ g q, layout fields !! k = Some (g, q) ∧
     iter_find_loop fuel k tag (iter_at fields dest i p) = Some (false, iter_at fields dest k q)).
Proof.
  intros Ht Hk. revert d i f p. induction fuel as [|fuel IH]; intros d i f p Hd Hi Hf Hfuel Hv; [lia|].
  cbn [iter_find_loop]. rewrite (iter_field _ _ _ _ _ Hf).
  destruct (decide (has_tag tag f)) as [Hm|Hm].
  { left. exists i, f, p. split; [done|]. split; [done|]. destruct Hm as [-> ->]. by rewrite Z.eqb_refl. }
  assert ((f_tag f =? tag) && negb (is_ltype PB_LTYPE_EXTENSION f) = false) as ->.
  { unfold has_tag in Hm. destruct (Z.eqb_spec (f_tag f) tag), (is_ltype PB_LTYPE_EXTENSION f); simpl; naive_solver. }
  destruct (iter_next_index fields dest i f p Ht Hf) as (g & q & Hg & Hn). rewrite Hn.
  cbn [snd it_pos iter_at].
  assert (∀ e h, (e < S d)%nat →
    fields !! (if k + e <? length fields then k + e else k + e - length fields)%nat = Some h → ¬ has_tag tag h) as Hv'.
  { intros e h He Hh. destruct (decide (e = d)) as [->|]; [|eapply Hv; [|done]; lia].
    rewrite <-Hi in Hh. apply layout_field in Hf. congruence. }
  unfold next_index in *.
  destruct (decide (S d = length fields)) as [He|He].
  - right. assert ((if S i <? length fields then S i else 0) = k)%nat as Hik by (subst i; bool_cases).
    rewrite Hik in *. rewrite Nat.eqb_refl. split; [|by exists g, q].
    apply Forall_lookup. intros j h Hj. pose proof (lookup_lt_Some _ _ _ Hj).
    apply (Hv' (if k <=? j then j - k else j + length fields - k)%nat h); [bool_cases|].
    rewrite <-Hj. f_equal. bool_cases.
  - assert ((if S i <? length fields then S i else 0) ≠ k)%nat as Hik by (subst i; bool_cases).
    rewrite (proj2 (Nat.eqb_neq _ _)) by done.
    eapply (IH (S d)); [lia| |done|lia|done]. subst i. bool_cases.
Qed.

(** [pb_field_iter_find] stops at a field with the tag, or, when there is none,
    where it started. *)
Lemma iter_find_spec fields dest tag k f p :
  tags_ok fields → layout fields !! k = Some (f, p) →
  (∃ j g q, layout fields !! j = Some (g, q) ∧ has_tag tag g ∧
     pb_field_iter_find (iter_at fields dest k p) tag = Some (true, iter_at fields dest j q)) ∨
  (Forall (λ g, ¬ has_tag tag g) fields ∧
   pb_field_iter_find (iter_at fields dest k p) tag = Some (false, iter_at fields dest k p)).
Proof.
  intros Ht Hf. pose proof (lookup_lt_Some _ _ _ Hf) as Hk. rewrite layout_length in Hk.
  destruct (iter_find_loop_spec fields dest tag k 0 (S (length fields)) k f p)
    as [?|(? & g & q & Hg & ?)]; try done || lia; [bool_cases|by left|].
  right. split; [done|]. by simplify_eq.
Qed.

(** ** The iterator on a descriptor the macros built *)

Lemma type_parts a h l :
  a ∈ [PB_ATYPE_STATIC; PB_ATYPE_POINTER; PB_ATYPE_CALLBACK] →
  h ∈ [PB_HTYPE_REQUIRED; PB_HTYPE_OPTIONAL; PB_HTYPE_REPEATED; PB_HTYPE_ONEOF] → 0 <= l < 16 →
  let t := u8 (typecode a h l) in PB_ATYPE t = a ∧ PB_HTYPE t = h ∧ PB_LTYPE t = l.
Proof.
  intros Ha Hh Hl. assert (l ∈ (Z.of_nat <$> seq 0 16)) as Hi.
  { apply list_elem_of_fmap. exists (Z.to_nat l). split; [lia|]. apply elem_of_seq. lia. }
  assert (Forall (λ a, Forall (λ h, Forall (λ l,
      PB_ATYPE (u8 (typecode a h l)) = a ∧ PB_HTYPE (u8 (typecode a h l)) = h ∧
      PB_LTYPE (u8 (typecode a h l)) = l)
    (Z.of_nat <$> seq 0 16)) [PB_HTYPE_REQUIRED; PB_HTYPE_OPTIONAL; PB_HTYPE_REPEATED; PB_HTYPE_ONEOF])
    [PB_ATYPE_STATIC; PB_ATYPE_POINTER; PB_ATYPE_CALLBACK]) as HF by by_decide.
  rewrite Forall_forall in HF. specialize (HF a Ha). rewrite Forall_forall in HF.
  specialize (HF h Hh). rewrite Forall_forall in HF. by apply HF.
Qed.

Lemma PB_FIELD_type d prev :
  decl_fits prev d →
  f_tag (PB_FIELD d prev) = d_tag d ∧ f_data_offset (PB_FIELD d prev) = data_offset (d_member d) prev ∧
  f_size_offset (PB_FIELD d prev) = (if has_aux d then pb_delta (d_member d) else 0) ∧
  is_htype PB_HTYPE_ONEOF (PB_FIELD d prev) = is_oneof d ∧
  field_width (PB_FIELD d prev) = m_size (d_member d) ∧
  is_ltype PB_LTYPE_EXTENSION (PB_FIELD d prev) =
    match d_rules d with REQUIRED_INLINE | OPTIONAL_INLINE => false | _ => d_ltype d =? PB_LTYPE_EXTENSION end.
Proof.
  intros (Ht & Hl & Ho & Hs & Hm & He & Ha & Hw).
  assert (∀ x, 0 <= x < 256 → u8 x = x) as Hu by (intros; by apply uwrap_id).
  assert (0 <= pb_arraysize (d_member d)) by (apply Z.div_pos; lia).
  unfold field_width, is_htype, is_atype, is_ltype, PB_FIELD.
  destruct (d_rules d) eqn:E; cbn [init_field f_tag f_type f_data_offset f_size_offset f_data_size f_array_size
    PB_REQUIRED_STATIC PB_OPTIONAL_STATIC PB_REPEATED_STATIC PB_REQUIRED_INLINE PB_OPTIONAL_INLINE
    PB_REQUIRED_POINTER PB_OPTIONAL_POINTER PB_REPEATED_POINTER PB_CALLBACK PB_ONEOF_STATIC PB_ONEOF_POINTER];
  unfold is_oneof, has_aux; rewrite E;
  match goal with |- context [u8 (typecode ?a ?h ?l)] =>
    let t := fresh "t" in
    destruct (type_parts a h l) as (-> & -> & ->); [by_decide|by_decide|done || (unfold PB_LTYPE_FIXED_LENGTH_BYTES; lia)|]
  end; rewrite ?swrap_id by (done || lia); rewrite !Hu by lia;
  repeat split; try done; simpl; lia.
Qed.

Lemma fields_of_tags prev ds : decls_fit prev ds → tags_ok (fields_of prev ds).
Proof.
  revert prev; induction ds as [|d rest IH]; intros prev; simpl; [constructor|]. intros [Hd Hr].
  constructor; [|by apply IH]. destruct (PB_FIELD_type d prev Hd) as (-> & _). destruct Hd. lia.
Qed.

Lemma layout_fields_of prev d rest p :
  decls_fit prev (d :: rest) → p = m_offset (d_member d) →
  ∀ k e, (d :: rest) !! k = Some e →
  ∃ prev', decl_fits prev' e ∧
    layout_from p (PB_FIELD d prev) (fields_of (next_prev prev d rest) rest) !! k =
    Some (PB_FIELD e prev', m_offset (d_member e)).
Proof.
  revert prev d p; induction rest as [|g rest IH]; intros prev d p [Hd Hr] -> k e He.
  - destruct k as [|k]; [|done]. simpl in He. simplify_eq. by exists prev.
  - destruct k as [|k]; [simpl in *; simplify_eq; by exists prev|].
    cbn [fields_of layout_from lookup list_lookup].
    eapply IH; [done| |done].
    destruct (PB_FIELD_type d prev Hd) as (_ & Hdo & _ & Hone & Hw & _).
    destruct Hr as [Hg _].
    destruct (PB_FIELD_type g _ Hg) as (_ & Hdo' & _ & Hone' & _).
    unfold next_offset. rewrite Hone, Hone', Hdo, Hdo', Hw. cbn [next_prev].
    destruct (is_oneof d && is_oneof g);
      unfold data_offset, PB_DATAOFFSET_FIRST, PB_DATAOFFSET_OTHER; [destruct prev|]; lia.
Qed.

Lemma iter_steps_at fields dest k f p :
  tags_ok fields → layout fields !! k = Some (f, p) →
  iter_steps k (pb_field_iter_begin fields dest).2 = iter_at fields dest k p.
Proof.
  intros Ht. revert f p; induction k as [|k IH]; intros f p Hf.
  - cbn [iter_steps]. by rewrite (iter_begin_spec _ _ f p).
  - pose proof (lookup_lt_Some _ _ _ Hf) as Hk. rewrite layout_length in Hk.
    destruct (layout_lookup fields k) as (g & q & Hg); [lia|].
    cbn [iter_steps]. rewrite (IH g q Hg). by rewrite (iter_next_step _ _ _ g q f p).
Qed.

(** On a descriptor that the macros of [pb.h] built from the members of a
    struct, the iterator of [pb_common.c] stops at every member in order: after
    [k] steps [pData] is the address of the [k]-th member and [pSize] that of
    its [has_], [_count] or [which_] member, the members of a union lying on
    one another; [pb_field_iter_next] says that there is a next field exactly
    when there is one, goes back to the first member after the last, and
    [pb_field_iter_find] gets from any member to the one with a given tag. *)
Theorem iterator_visits_members (d : decl) (rest : list decl) (dest : addr)
    (Hfit : decls_fit None (d :: rest)) :
  let ds := d :: rest in
  let it k := iter_steps k (pb_field_iter_begin (fields_of None ds) dest).2 in
  ∀ k e, ds !! k = Some e →
    f_tag (it_field (it k)) = d_tag e ∧
    it_pData (it k) = padd dest (m_offset (d_member e)) ∧
    (has_aux e = true → it_pSize (it k) = padd dest (m_aux (d_member e))) ∧
    (pb_field_iter_next (it k)).1 = (S k <? length ds)%nat ∧
    (S k = length ds → (pb_field_iter_next (it k)).2 = it 0%nat) ∧
    (∀ j g, ds !! j = Some g → NoDup (d_tag <$> ds) → d_ltype g ≠ PB_LTYPE_EXTENSION →
       pb_field_iter_find (it k) (d_tag g) = Some (true, it j)).
Proof.
  intros ds it k e He. set (fields := fields_of None ds) in *.
  pose proof (fields_of_tags _ _ Hfit) as Ht. fold ds fields in Ht.
  assert (∀ k e, ds !! k = Some e → ∃ prev, decl_fits prev e ∧
    layout fields !! k = Some (PB_FIELD e prev, m_offset (d_member e))) as Hlay.
  { intros k' e' He'. destruct (layout_fields_of None d rest (f_data_offset (PB_FIELD d None)) Hfit) with (k := k') (e := e')
      as (prev & ?); [|done|by exists prev].
    destruct Hfit as [Hd _]. by destruct (PB_FIELD_type d None Hd) as (_ & -> & _). }
  assert (∀ k e, ds !! k = Some e → it k = iter_at fields dest k (m_offset (d_member e))) as Hit.
  { intros k' e' (prev & _ & Hf)%Hlay. unfold it. by apply (iter_steps_at _ _ _ _ _ Ht Hf). }
  assert (length fields = length ds) as Hlen.
  { clear. unfold fields. generalize (@None member). induction ds as [|x l IH]; intros o; simpl; [done|]. by rewrite IH. }
  destruct (Hlay k e He) as (prev & Hfe & Hf).
  destruct (PB_FIELD_type e prev Hfe) as (Htag & Hdo & Hso & _).
  rewrite (Hit k e He), (iter_field _ _ _ _ _ Hf). split; [done|]. split; [done|].
  split. { intros Ha. cbn [it_pSize iter_at]. rewrite (field_at_layout _ _ _ _ Hf), Hso, Ha, padd_padd.
    apply padd_eq. unfold pb_delta. lia. }
  destruct (iter_next_index fields dest k _ _ Ht Hf) as (g & q & Hg & Hn). rewrite Hn, <-Hlen.
  split; [done|]. split.
  { intros Hk. destruct (Hlay 0%nat d eq_refl) as (prev0 & _ & Hf0). rewrite (Hit 0%nat d eq_refl).
    unfold next_index in *. cbn [snd]. revert Hg. bool_cases. intros Hg. rewrite Hg in Hf0. by simplify_eq. }
  intros j h Hh Hnd Hx. destruct (Hlay j h Hh) as (prevh & Hfh & Hlh). rewrite (Hit j h Hh).
  destruct (PB_FIELD_type h prevh Hfh) as (Htagh & _ & _ & _ & _ & Hxh).
  destruct (iter_find_spec fields dest (d_tag h) k _ _ Ht Hf) as [(i & g' & q' & Hg' & [Hm _] & Hfind)|[Hnone _]].
  - rewrite Hfind. do 2 f_equal.
    pose proof (lookup_lt_Some _ _ _ Hg') as Hi. rewrite layout_length, Hlen in Hi.
    apply lookup_lt_is_Some in Hi as [e' He'].
    destruct (Hlay i e' He') as (pi & Hfi & Hli). rewrite Hg' in Hli. simplify_eq.
    destruct (PB_FIELD_type e' pi Hfi) as (Hti & _). rewrite Hm in Hti.
    assert (i = j) as ->; [|by simplify_eq].
    eapply (NoDup_lookup _ _ _ (d_tag h) Hnd); rewrite list_lookup_fmap; [by rewrite He', Hti|by rewrite Hh].
  - exfalso. rewrite Forall_lookup in Hnone. apply (Hnone j _ (layout_field _ _ _ _ Hlh)).
    split; [done|]. rewrite Hxh. repeat case_match; try done; by apply Z.eqb_neq.
Qed.

(** [message { required int32; optional int32; oneof { int64; int32 }; repeated
    int32 (allocated) }] *)
Definition example_decls : list decl := [
  mk_decl 1 REQUIRED_STATIC PB_LTYPE_VARINT (mk_member 0 4 4 0) FNull;
  mk_decl 2 OPTIONAL_STATIC PB_LTYPE_VARINT (mk_member 8 4 4 4) FNull;
  mk_decl 3 ONEOF_STATIC PB_LTYPE_VARINT (mk_member 16 8 8 12) FNull;
  mk_decl 4 ONEOF_STATIC PB_LTYPE_VARINT (mk_member 16 4 4 12) FNull;
  mk_decl 5 REPEATED_POINTER PB_LTYPE_VARINT (mk_member 32 8 4 24) FNull].

Lemma iterator_visits_members_witness :
  let it k := iter_steps k (pb_field_iter_begin (fields_of None example_decls) (7%nat, 100)).2 in
  it_pData (it 4%nat) = (7%nat, 132) ∧ it_pSize (it 4%nat) = (7%nat, 124) ∧
  (pb_field_iter_next (it 4%nat)).1 = false ∧ pb_field_iter_find (it 4%nat) 4 = Some (true, it 3%nat).
Proof.
  destruct (iterator_visits_members (mk_decl 1 REQUIRED_STATIC PB_LTYPE_VARINT (mk_member 0 4 4 0) FNull)
    (tail example_decls) (7%nat, 100) ltac:(by_decide) 4%nat _ eq_refl) as (_ & H1 & H2 & H3 & _ & H5).
  split; [exact H1|]. split; [by apply H2|]. split; [exact H3|].
  apply (H5 3%nat _ eq_refl); [by_decide|done].
Defined.
