(* ===== verification/PbDecode.v ===== *)
(** The decoder of [src/nanopb/pb_decode.c]: it reads a message from a stream
    and stores it in a struct whose members a descriptor describes
    ([pb_decode], [pb_decode_noinit], [pb_decode_delimited]), and releases what
    it allocated for one ([pb_release]).  The memory is that of [PbMem.v], so
    that [None] is undefined behaviour: an access outside a live block, a read
    of memory that was not written, a free of what is no live block, the use of
    a null or wild pointer.  The callbacks of the user are arguments. *)

From S2P Require Import Prelude PbStream PbMem PbFields.

Open Scope Z_scope.

(** ** Computations on a stream and a memory *)

Record dstate := mk_dstate {
  d_in : istream;
  d_mem : mem;
}.

Definition M (A : Type) : Type := dstate → option (A * dstate).

Definition ret {A} (a : A) : M A := λ s, Some (a, s).
Definition undefined {A} : M A := λ _, None.
Definition mbindM {A B} (c : M A) (k : A → M B) : M B := λ s, '(a, s1) ← c s; k a s1.

Notation "'let*' x ':=' c 'in' k" := (mbindM c (λ x, k))
  (at level 200, x pattern, c at level 100, k at level 200, right associativity).
Notation "c ';;;' k" := (mbindM c (λ _, k)) (at level 199, right associativity).
(** [if (!c) return false; k] *)
Notation "c '&&?' k" := (mbindM c (λ ok : bool, if ok then k else ret false))
  (at level 199, right associativity).

(** The stream. *)
Definition get_in : M istream := λ s, Some (d_in s, s).
Definition set_in (i : istream) : M () := λ s, Some (tt, mk_dstate i (d_mem s)).
Definition bytes_left : M Z := λ s, Some (i_bytes_left (d_in s), s).

(** A reader of [PbStream.v] on the stream. *)
Definition indec {A} (d : dec A) : M (option A) := λ s,
  '(r, i) ← d (d_in s); Some (r, mk_dstate i (d_mem s)).

(** [if (!reader(stream, &x)) return false; k] *)
Notation "'let?' x ':=' d 'in' k" :=
  (mbindM (indec d) (λ r, match r with Some x => k | None => ret false end))
  (at level 200, x pattern, d at level 100, k at level 200, right associativity).

(** [PB_RETURN_ERROR(stream, msg)] *)
Definition fail (msg : string) : M bool := λ s,
  Some (false, mk_dstate (i_set_error msg (d_in s)) (d_mem s)).

(** The memory. *)
Definition lift_load {A} (f : mem → option A) : M A := λ s, a ← f (d_mem s); Some (a, s).
Definition lift_store (f : mem → option mem) : M () := λ s,
  m ← f (d_mem s); Some (tt, mk_dstate (d_in s) m).

Definition ld_u8 (a : addr) : M byte := lift_load (λ m, load_u8 m a).
Definition ld_ptr (a : addr) : M pval := lift_load (λ m, load_ptr m a).
Definition st (a : addr) (vs : block) : M () := lift_store (λ m, store m a vs).
Definition st_bytes (a : addr) (bs : bytes) : M () := st a (MByte <$> bs).
Definition st_u8 (a : addr) (v : Z) : M () := st_bytes a [u8 v].
Definition st_ptr (a : addr) (p : pval) : M () := st a (ptr_bytes p).
(** [*(intN_t * )a = v], for an integer of [n] bytes *)
Definition st_int (n : nat) (a : addr) (v : Z) : M () := st_bytes a (le_bytes n v).
(** [memset(a, 0, n)] *)
Definition memset0 (a : addr) (n : Z) : M () := st a (replicate (Z.to_nat n) (MByte 0)).

Definition free (p : pval) : M () := lift_store (pb_free p).
Definition realloc (p : pval) (n : Z) : M pval := λ s,
  '(q, m) ← pb_realloc p n (d_mem s); Some (q, mk_dstate (d_in s) m).

(** The address a pointer points to. *)
Definition deref (p : pval) : M addr :=
  match p with VLoc l o => ret (l, o) | _ => undefined end.

(** [pb_make_string_substream]: the stream becomes the substream, the parent is
    returned; and [pb_close_string_substream]. *)
Definition make_substream : M (option istream) := λ s,
  '(r, i) ← pb_make_string_substream (d_in s);
  match r with
  | Some sub => Some (Some i, mk_dstate sub (d_mem s))
  | None => Some (None, mk_dstate i (d_mem s))
  end.

Definition close_substream (stream : istream) : M () := λ s,
  Some (tt, mk_dstate (pb_close_string_substream stream (d_in s)) (d_mem s)).

Notation "'let-sub' x 'in' k" :=
  (mbindM make_substream (λ r, match r with Some x => k | None => ret false end))
  (at level 200, x pattern, k at level 200, right associativity).

(** ** Extensions *)

(** [pb_extension_type_t]: the handlers of the user, by number ([None] is
    [NULL]: the default handler), and the field [arg] points to. *)
Record extension_type := mk_extension_type {
  x_decode : option nat;
  x_encode : option nat;
  x_arg : pb_field;
}.

(** The offsets of the members of [pb_extension_t]. *)
Definition EXT_TYPE : Z := 0.
Definition EXT_DEST : Z := 8.
Definition EXT_NEXT : Z := 16.
Definition EXT_FOUND : Z := 24.

(** ** The decoder *)

Section Decoder.

(** The descriptors and the extension types of the program. *)
Context (descs : list (list pb_field)) (exts : list extension_type).
(** The callbacks: [decode] of a [pb_callback_t], given the field and [&arg],
    and [decode] of a [pb_extension_type_t], given the extension, the tag and
    the wire type. *)
Context (field_callback : nat → pb_field → addr → M bool).
Context (ext_callback : nat → addr → Z → Z → M bool).

(** [(const pb_field_t* )ptr] *)
Definition descriptor (d : nat) : list pb_field := default [] (descs !! d).

(** [ext->type] *)
Definition ext_type (ext : addr) : M extension_type :=
  let* t := ld_ptr (padd ext EXT_TYPE) in
  match t with
  | VExt n => match exts !! n with Some x => ret x | None => undefined end
  | _ => undefined
  end.

Definition iter_from_extension (ext : addr) : M pb_field_iter :=
  let* t := ext_type ext in
  let field := x_arg t in
  if is_atype PB_ATYPE_POINTER field
  then ret (mk_iter [field] 0 0 ext (padd ext EXT_DEST) (padd ext EXT_FOUND))
  else
    let* p := ld_ptr (padd ext EXT_DEST) in
    let* dest := deref p in
    ret (mk_iter [field] 0 0 dest dest (padd ext EXT_FOUND)).

(** [while (ext != NULL) { f(ext); ext = ext->next; }] *)
Fixpoint each_extension (fuel : nat) (f : addr → M ()) (p : pval) : M () :=
  match fuel with
  | O => undefined
  | S fuel' =>
    match p with
    | VNull => ret tt
    | _ => let* ext := deref p in
           f ext ;;;
           let* next := ld_ptr (padd ext EXT_NEXT) in
           each_extension fuel' f next
    end
  end.

(** An extension is a block, and a chain of them that is no cycle is no longer
    than the number of the blocks. *)
Definition each_extension_of (f : addr → M ()) (p : pval) : M () := λ s,
  each_extension (S (size (m_heap (d_mem s)))) f p s.

(** [do f(&iter); while (pb_field_iter_next(&iter));] *)
Fixpoint each_field_loop (fuel : nat) (f : pb_field_iter → M ()) (it : pb_field_iter) : M () :=
  match fuel with
  | O => undefined
  | S fuel' =>
    f it ;;;
    let '(more, it') := pb_field_iter_next it in
    if more then each_field_loop fuel' f it' else ret tt
  end.

Definition each_field (f : pb_field_iter → M ()) (fields : list pb_field) (dest : addr) : M () :=
  let '(ok, it) := pb_field_iter_begin fields dest in
  if ok then each_field_loop (length fields) f it else ret tt.

(** *** Default values *)

Section Defaults.
(** The same functions, for a submessage and for an extension. *)
Context (set_field_down : pb_field_iter → M ()).

Definition pb_message_set_to_defaults_with (d : nat) (dest : addr) : M () :=
  each_field set_field_down (descriptor d) dest.

Definition pb_field_set_to_default_with (it : pb_field_iter) : M () :=
  let f := it_field it in
  if is_ltype PB_LTYPE_EXTENSION f then
    let* p := ld_ptr (it_pData it) in
    each_extension_of (λ ext,
      st_u8 (padd ext EXT_FOUND) 0 ;;;
      let* ext_iter := iter_from_extension ext in
      set_field_down ext_iter) p
  else if is_atype PB_ATYPE_STATIC f then
    let init_data :=
      match f_ptr f with
      | FSubmsg d =>
        if is_ltype PB_LTYPE_SUBMESSAGE f then pb_message_set_to_defaults_with d (it_pData it)
        else undefined
      | FDefault value =>
        if is_ltype PB_LTYPE_SUBMESSAGE f then undefined
        else if zlen value <? f_data_size f then undefined
        else st_bytes (it_pData it) (take (Z.to_nat (f_data_size f)) value)
      | FNull =>
        if is_ltype PB_LTYPE_SUBMESSAGE f then undefined
        else memset0 (it_pData it) (f_data_size f)
      end in
    if is_htype PB_HTYPE_OPTIONAL f then st_u8 (it_pSize it) 0 ;;; init_data
    else if is_htype PB_HTYPE_REPEATED f || is_htype PB_HTYPE_ONEOF f then st_u8 (it_pSize it) 0
    else init_data
  else if is_atype PB_ATYPE_POINTER f then
    st_ptr (it_pData it) VNull ;;;
    if is_htype PB_HTYPE_REPEATED f || is_htype PB_HTYPE_ONEOF f then st_u8 (it_pSize it) 0 else ret tt
  else ret tt.

End Defaults.

(** A submessage that is a part of the struct comes before the struct in the
    table, so the recursion is no deeper than the table ([defaults_spec]). *)
Fixpoint set_field_at (fuel : nat) : pb_field_iter → M () :=
  match fuel with
  | O => λ _, undefined
  | S fuel' => pb_field_set_to_default_with (set_field_at fuel')
  end.

Definition pb_message_set_to_defaults (d : nat) (dest : addr) : M () :=
  pb_message_set_to_defaults_with (set_field_at (S (length descs))) d dest.

(** *** Releasing *)

Section Release.
(** [pb_release_single_field], for the fields of a submessage and for an
    extension. *)
Context (release_down : pb_field_iter → M ()).

Definition pb_release_with (d : nat) (dest : addr) : M () := each_field release_down (descriptor d) dest.

(** [while (count--) { pb_release(ptr, pItem); pItem += data_size; }] *)
Fixpoint release_items (count : nat) (d : nat) (data_size : Z) (pItem : addr) : M () :=
  match count with
  | O => ret tt
  | S count' =>
    pb_release_with d pItem ;;; release_items count' d data_size (padd pItem data_size)
  end.

(** [while (count--) { pb_free( *pItem); *pItem++ = NULL; }] *)
Fixpoint free_items (count : nat) (pItem : addr) : M () :=
  match count with
  | O => ret tt
  | S count' =>
    let* p := ld_ptr pItem in
    free p ;;; st_ptr pItem VNull ;;; free_items count' (padd pItem (Z.of_nat PTR_SIZE))
  end.

(** What the field contains. *)
Definition release_contents (it : pb_field_iter) : M () :=
  let f := it_field it in
  if is_ltype PB_LTYPE_EXTENSION f then
    let* p := ld_ptr (it_pData it) in
    each_extension_of (λ ext, let* ext_iter := iter_from_extension ext in release_down ext_iter) p
  else if is_ltype PB_LTYPE_SUBMESSAGE f then
    let* pItem := (if is_atype PB_ATYPE_POINTER f then ld_ptr (it_pData it)
                   else ret (VLoc (it_pData it).1 (it_pData it).2)) in
    let* count := (if is_htype PB_HTYPE_REPEATED f then
                     let* count := ld_u8 (it_pSize it) in
                     if is_atype PB_ATYPE_STATIC f && (f_array_size f <? count)
                     then ret (f_array_size f) else ret count
                   else ret 1) in
    match pItem with
    | VNull => ret tt
    | _ => let* a := deref pItem in
           match f_ptr f with
           | FSubmsg d => release_items (Z.to_nat count) d (f_data_size f) a
           | _ => undefined
           end
    end
  else ret tt.

(** The allocation of the field itself. *)
Definition release_pointer (it : pb_field_iter) : M () :=
  let f := it_field it in
  if is_atype PB_ATYPE_POINTER f then
    (if is_htype PB_HTYPE_REPEATED f && is_string_or_bytes f then
       let* pItem := ld_ptr (it_pData it) in
       let* count := ld_u8 (it_pSize it) in
       if count =? 0 then ret tt
       else let* a := deref pItem in free_items (Z.to_nat count) a
     else ret tt) ;;;
    (if is_htype PB_HTYPE_REPEATED f then st_u8 (it_pSize it) 0 else ret tt) ;;;
    let* p := ld_ptr (it_pData it) in
    free p ;;; st_ptr (it_pData it) VNull
  else ret tt.

Definition pb_release_single_field_with (it : pb_field_iter) : M () :=
  let f := it_field it in
  let release := release_contents it ;;; release_pointer it in
  if is_htype PB_HTYPE_ONEOF f then
    let* which := ld_u8 (it_pSize it) in
    if which =? f_tag f then release else ret tt
  else release.

End Release.

Fixpoint release_at (fuel : nat) : pb_field_iter → M () :=
  match fuel with
  | O => λ _, undefined
  | S fuel' => pb_release_single_field_with (release_at fuel')
  end.

(** Each pointer that is followed leads to another block, and between two
    pointers the submessages are parts of one another. *)
Definition release_fuel (s : dstate) : nat :=
  S (size (m_heap (d_mem s))) * S (length descs).

Definition pb_release_single_field (it : pb_field_iter) : M () := λ s, release_at (release_fuel s) it s.

Definition pb_release (d : nat) (dest : pval) : M () := λ s,
  match dest with
  | VNull => Some (tt, s)
  | _ => (let* a := deref dest in pb_release_with (release_at (release_fuel s)) d a) s
  end.

Definition pb_release_union_field (it : pb_field_iter) : M (bool * pb_field_iter) :=
  let* old_tag := ld_u8 (it_pSize it) in
  let new_tag := f_tag (it_field it) in
  if (old_tag =? 0) || (old_tag =? new_tag) then ret (true, it)
  else
    match pb_field_iter_find it old_tag with
    | None => undefined
    | Some (false, it1) => let* ok := fail "invalid union tag" in ret (ok, it1)
    | Some (true, it1) =>
      pb_release_single_field it1 ;;;
      match pb_field_iter_find it1 new_tag with
      | None => undefined
      | Some (false, it2) => let* ok := fail "iterator error" in ret (ok, it2)
      | Some (true, it2) => ret (true, it2)
      end
    end.

(** *** Allocation *)

Definition SIZE_MAX : Z := 2 ^ 64 - 1.

Definition allocate_field (pData : addr) (data_size array_size : Z) : M bool :=
  let* ptr := ld_ptr pData in
  if (data_size =? 0) || (array_size =? 0) then fail "invalid size"
  else
    let check_limit := Z.shiftl 1 (8 * 4) in
    if ((check_limit <=? data_size) || (check_limit <=? array_size)) && (SIZE_MAX / array_size <? data_size)
    then fail "size too large"
    else
      let* ptr := realloc ptr (u64 (array_size * data_size)) in
      match ptr with
      | VNull => fail "realloc failed"
      | _ => st_ptr pData ptr ;;; ret true
      end.

Definition initialize_pointer_field (pItem : addr) (it : pb_field_iter) : M () :=
  let f := it_field it in
  if is_string_or_bytes f then st_ptr pItem VNull
  else if is_ltype PB_LTYPE_SUBMESSAGE f then
    match f_ptr f with FSubmsg d => pb_message_set_to_defaults d pItem | _ => undefined end
  else ret tt.

(** *** Values *)

(** [clamped = *(intN_t * )dest = value; if (clamped != value) ...], for the
    integer of [n] bytes that the conversion [conv] gives. *)
Definition store_clamped (n : nat) (conv : Z → Z) (dest : addr) (value : Z) : M bool :=
  st_int n dest (conv value) ;;;
  if conv value =? value then ret true else fail "integer too large".

Definition pb_dec_varint (f : pb_field) (dest : addr) : M bool :=
  let? value := pb_decode_varint in
  let svalue := if f_data_size f =? 8 then i64 value else i32 value in
  if f_data_size f =? 8 then store_clamped 8 i64 dest svalue
  else if f_data_size f =? 4 then store_clamped 4 i32 dest svalue
  else if f_data_size f =? 2 then store_clamped 2 (swrap 16) dest svalue
  else if f_data_size f =? 1 then store_clamped 1 (swrap 8) dest svalue
  else fail "invalid data_size".

Definition pb_dec_uvarint (f : pb_field) (dest : addr) : M bool :=
  let? value := pb_decode_varint in
  if f_data_size f =? 8 then store_clamped 8 u64 dest value
  else if f_data_size f =? 4 then store_clamped 4 u32 dest value
  else if f_data_size f =? 2 then store_clamped 2 u16 dest value
  else if f_data_size f =? 1 then store_clamped 1 u8 dest value
  else fail "invalid data_size".

Definition pb_dec_svarint (f : pb_field) (dest : addr) : M bool :=
  let? value := pb_decode_svarint in
  if f_data_size f =? 8 then store_clamped 8 i64 dest value
  else if f_data_size f =? 4 then store_clamped 4 i32 dest value
  else if f_data_size f =? 2 then store_clamped 2 (swrap 16) dest value
  else if f_data_size f =? 1 then store_clamped 1 (swrap 8) dest value
  else fail "invalid data_size".

Definition pb_dec_fixed32 (f : pb_field) (dest : addr) : M bool :=
  let? value := pb_decode_fixed32 in st_int 4 dest value ;;; ret true.

Definition pb_dec_fixed64 (f : pb_field) (dest : addr) : M bool :=
  let? value := pb_decode_fixed64 in st_int 8 dest value ;;; ret true.

(** [pb_read(stream, dest, count)] *)
Definition read_to (dest : addr) (count : Z) : M bool :=
  let? b := pb_read count in st_bytes dest b ;;; ret true.

(** [PB_BYTES_ARRAY_T_ALLOCSIZE(n)]: the bytes come after the size. *)
Definition PB_BYTES_ARRAY_T_ALLOCSIZE (n : Z) : Z := u64 (n + 1).

Definition pb_dec_bytes (f : pb_field) (dest : addr) : M bool :=
  let? size := pb_decode_varint32 in
  if PB_SIZE_MAX <? size then fail "bytes overflow"
  else
    let alloc_size := PB_BYTES_ARRAY_T_ALLOCSIZE size in
    let store bdest := st_u8 bdest size ;;; read_to (padd bdest 1) size in
    if alloc_size <? size then fail "size too large"
    else if is_atype PB_ATYPE_POINTER f then
      allocate_field dest alloc_size 1 &&?
      let* p := ld_ptr dest in let* bdest := deref p in store bdest
    else if is_ltype PB_LTYPE_FIXED_LENGTH_BYTES f then
      if size =? f_data_size f then read_to dest (f_data_size f)
      else fail "incorrect inline bytes size"
    else if f_data_size f <? alloc_size then fail "bytes overflow"
    else store dest.

Definition pb_dec_string (f : pb_field) (dest : addr) : M bool :=
  let? size := pb_decode_varint32 in
  let alloc_size := u32 (size + 1) in
  let store dest :=
    let* status := read_to dest size in
    st_u8 (padd dest size) 0 ;;; ret status in
  if alloc_size <? size then fail "size too large"
  else if is_atype PB_ATYPE_POINTER f then
    allocate_field dest alloc_size 1 &&?
    let* p := ld_ptr dest in let* dest := deref p in store dest
  else if f_data_size f <? alloc_size then fail "string overflow"
  else store dest.

(** *** One level of messages *)

Section Level.
(** [pb_decode_noinit] for a submessage. *)
Context (noinit_down : nat → addr → M bool).

(** [pb_decode]: of the defaults, the fields and the release. *)
Definition pb_decode_with (d : nat) (dest : addr) : M bool :=
  pb_message_set_to_defaults d dest ;;;
  let* status := noinit_down d dest in
  if (status : bool) then ret true
  else pb_release d (VLoc dest.1 dest.2) ;;; ret false.

Definition pb_dec_submessage (f : pb_field) (dest : addr) : M bool :=
  let-sub stream in
  match f_ptr f with
  | FNull =>
    set_in stream ;;; fail "invalid field descriptor"
  | FSubmsg d =>
    let* status := (if is_htype PB_HTYPE_REPEATED f then pb_decode_with d dest else noinit_down d dest) in
    close_substream stream ;;; ret status
  | FDefault _ => undefined
  end.

(** [PB_DECODERS]; no decoder for an extension, nor past the end of the table. *)
Definition PB_DECODERS (f : pb_field) (dest : addr) : M bool :=
  if is_ltype PB_LTYPE_VARINT f then pb_dec_varint f dest
  else if is_ltype PB_LTYPE_UVARINT f then pb_dec_uvarint f dest
  else if is_ltype PB_LTYPE_SVARINT f then pb_dec_svarint f dest
  else if is_ltype PB_LTYPE_FIXED32 f then pb_dec_fixed32 f dest
  else if is_ltype PB_LTYPE_FIXED64 f then pb_dec_fixed64 f dest
  else if is_ltype PB_LTYPE_BYTES f then pb_dec_bytes f dest
  else if is_ltype PB_LTYPE_STRING f then pb_dec_string f dest
  else if is_ltype PB_LTYPE_SUBMESSAGE f then pb_dec_submessage f dest
  else if is_ltype PB_LTYPE_FIXED_LENGTH_BYTES f then pb_dec_bytes f dest
  else undefined.

(** The [while] loop of a packed static array; each item takes a byte at least. *)
Fixpoint static_packed_loop (fuel : nat) (it : pb_field_iter) : M bool :=
  match fuel with
  | O => undefined
  | S fuel' =>
    let f := it_field it in
    let* n_left := bytes_left in
    if n_left <=? 0 then ret true
    else
      let* size := ld_u8 (it_pSize it) in
      if f_array_size f <=? size then ret true
      else
        PB_DECODERS f (padd (it_pData it) (f_data_size f * size)) &&?
        let* size := ld_u8 (it_pSize it) in
        st_u8 (it_pSize it) (size + 1) ;;; static_packed_loop fuel' it
  end.

Definition decode_static_field (wire_type : Z) (it : pb_field_iter) : M bool :=
  let f := it_field it in
  if is_htype PB_HTYPE_REQUIRED f then PB_DECODERS f (it_pData it)
  else if is_htype PB_HTYPE_OPTIONAL f then st_u8 (it_pSize it) 1 ;;; PB_DECODERS f (it_pData it)
  else if is_htype PB_HTYPE_REPEATED f then
    if (wire_type =? PB_WT_STRING) && is_packable f then
      let-sub stream in
      let* n_left := bytes_left in
      let* status := static_packed_loop (S (Z.to_nat n_left)) it in
      let* n_left := bytes_left in
      close_substream stream ;;;
      if n_left =? 0 then ret status else fail "array overflow"
    else
      let* size := ld_u8 (it_pSize it) in
      let pItem := padd (it_pData it) (f_data_size f * size) in
      if f_array_size f <=? size then fail "array overflow"
      else st_u8 (it_pSize it) (size + 1) ;;; PB_DECODERS f pItem
  else if is_htype PB_HTYPE_ONEOF f then
    st_u8 (it_pSize it) (f_tag f) ;;;
    (if is_ltype PB_LTYPE_SUBMESSAGE f then
       memset0 (it_pData it) (f_data_size f) ;;;
       match f_ptr f with
       | FSubmsg d => pb_message_set_to_defaults d (it_pData it)
       | _ => undefined
       end
     else ret tt) ;;;
    PB_DECODERS f (it_pData it)
  else fail "invalid field type".

(** The [while] loop of a packed allocated array; [stream] is the parent, whose
    message "too many array entries" overwrites, to be lost when the substream
    is closed. *)
Fixpoint pointer_packed_loop (fuel : nat) (it : pb_field_iter) (allocated_size : Z) : M bool :=
  match fuel with
  | O => undefined
  | S fuel' =>
    let f := it_field it in
    let* n_left := bytes_left in
    if n_left =? 0 then ret true
    else
      let* size := ld_u8 (it_pSize it) in
      let grow := allocated_size <? size + 1 in
      if grow && (f_data_size f =? 0) then undefined
      else
        let allocated_size :=
          if grow then u64 (allocated_size + ((n_left - 1) / f_data_size f + 1)) else allocated_size in
        (if grow then allocate_field (it_pData it) (f_data_size f) allocated_size else ret true) &&?
        let* p := ld_ptr (it_pData it) in
        let* a := deref p in
        let* size := ld_u8 (it_pSize it) in
        let pItem := padd a (f_data_size f * size) in
        initialize_pointer_field pItem it ;;;
        (PB_DECODERS f pItem &&?
         let* size := ld_u8 (it_pSize it) in
         if size =? PB_SIZE_MAX then ret false
         else st_u8 (it_pSize it) (size + 1) ;;; pointer_packed_loop fuel' it allocated_size)
  end.

Definition decode_pointer_field (wire_type : Z) (it : pb_field_iter) : M bool :=
  let f := it_field it in
  if is_htype PB_HTYPE_REPEATED f then
    if (wire_type =? PB_WT_STRING) && is_packable f then
      let* size := ld_u8 (it_pSize it) in
      let-sub stream in
      let* n_left := bytes_left in
      let* status := pointer_packed_loop (S (Z.to_nat n_left)) it size in
      close_substream stream ;;; ret status
    else
      let* size := ld_u8 (it_pSize it) in
      if size =? PB_SIZE_MAX then fail "too many array entries"
      else
        st_u8 (it_pSize it) (size + 1) ;;;
        (allocate_field (it_pData it) (f_data_size f) (size + 1) &&?
         let* p := ld_ptr (it_pData it) in
         let* a := deref p in
         let pItem := padd a (f_data_size f * size) in
         initialize_pointer_field pItem it ;;; PB_DECODERS f pItem)
  else
    (if is_ltype PB_LTYPE_SUBMESSAGE f then
       let* p := ld_ptr (it_pData it) in
       match p with VNull => ret tt | _ => pb_release_single_field it end
     else ret tt) ;;;
    (if is_htype PB_HTYPE_ONEOF f then st_u8 (it_pSize it) (f_tag f) else ret tt) ;;;
    if is_string_or_bytes f then PB_DECODERS f (it_pData it)
    else
      allocate_field (it_pData it) (f_data_size f) 1 &&?
      let* p := ld_ptr (it_pData it) in
      let* a := deref p in
      initialize_pointer_field a it ;;;
      let* p := ld_ptr (it_pData it) in
      let* a := deref p in
      PB_DECODERS f a.

(** [do ... while (substream.bytes_left)]: a callback that succeeds without
    reading leaves the loop running for ever. *)
Fixpoint callback_loop (fuel : nat) (n : nat) (it : pb_field_iter) (arg : addr) : M bool :=
  match fuel with
  | O => undefined
  | S fuel' =>
    field_callback n (it_field it) arg &&?
    let* n_left := bytes_left in
    if n_left =? 0 then ret true else callback_loop fuel' n it arg
  end.

(** The [do ... while ( *buf++ & 0x80)] loop, into a buffer of [max_size] bytes. *)
Fixpoint raw_varint_loop (max_size : nat) : dec bytes :=
  match max_size with
  | O => dfalse
  | S n =>
    let! b := pb_read 1 in
    if Z.land (hd 0 b) 0x80 =? 0 then dret b else let! bs := raw_varint_loop n in dret (b ++ bs)
  end.

Definition read_raw_value (wire_type : Z) : dec bytes :=
  if wire_type =? PB_WT_VARINT then raw_varint_loop 10
  else if wire_type =? PB_WT_64BIT then pb_read 8
  else if wire_type =? PB_WT_32BIT then pb_read 4
  else dfail "invalid wire_type".

Definition decode_callback_field (wire_type : Z) (it : pb_field_iter) : M bool :=
  let* decode := ld_ptr (it_pData it) in
  let arg := padd (it_pData it) 8 in
  match decode with
  | VNull => let? _ := pb_skip_field wire_type in ret true
  | VFun n =>
    if wire_type =? PB_WT_STRING then
      let-sub stream in
      let* n_left := bytes_left in
      let* ok := callback_loop (S (Z.to_nat n_left)) n it arg in
      if ok then close_substream stream ;;; ret true
      else set_in stream ;;; fail "callback failed"
    else
      let? buffer := read_raw_value wire_type in
      let* stream := get_in in
      set_in (pb_istream_from_buffer buffer (zlen buffer)) ;;;
      let* ok := field_callback n (it_field it) arg in
      set_in stream ;;; ret ok
  | _ => undefined
  end.

Definition decode_field (wire_type : Z) (it : pb_field_iter) : M (bool * pb_field_iter) :=
  let decode it :=
    let f := it_field it in
    let* ok := (if is_atype PB_ATYPE_STATIC f then decode_static_field wire_type it
                else if is_atype PB_ATYPE_POINTER f then decode_pointer_field wire_type it
                else if is_atype PB_ATYPE_CALLBACK f then decode_callback_field wire_type it
                else fail "invalid field type") in
    ret (ok, it) in
  if is_htype PB_HTYPE_ONEOF (it_field it) then
    let* (ok, it') := pb_release_union_field it in
    if (ok : bool) then decode it' else ret (false, it')
  else decode it.

Definition default_extension_decoder (ext : addr) (tag wire_type : Z) : M bool :=
  let* t := ext_type ext in
  if f_tag (x_arg t) =? tag then
    let* it := iter_from_extension ext in
    st_u8 (padd ext EXT_FOUND) 1 ;;;
    let* (ok, _) := decode_field wire_type it in ret ok
  else ret true.

(** [while (extension != NULL && pos == stream->bytes_left)] *)
Fixpoint extension_loop (fuel : nat) (pos tag wire_type : Z) (p : pval) : M bool :=
  match fuel with
  | O => undefined
  | S fuel' =>
    let* n_left := bytes_left in
    match p with
    | VNull => ret true
    | _ =>
      if pos =? n_left then
        let* ext := deref p in
        let* t := ext_type ext in
        match x_decode t with
        | Some n => ext_callback n ext tag wire_type
        | None => default_extension_decoder ext tag wire_type
        end &&?
        let* next := ld_ptr (padd ext EXT_NEXT) in extension_loop fuel' pos tag wire_type next
      else ret true
    end
  end.

Definition decode_extension (tag wire_type : Z) (it : pb_field_iter) : M bool := λ s,
  (let* p := ld_ptr (it_pData it) in
   let* pos := bytes_left in
   extension_loop (S (size (m_heap (d_mem s)))) pos tag wire_type p) s.

Fixpoint find_extension_loop (fuel : nat) (start : nat) (it : pb_field_iter) : option (bool * pb_field_iter) :=
  match fuel with
  | O => None
  | S fuel' =>
    if is_ltype PB_LTYPE_EXTENSION (it_field it) then Some (true, it)
    else
      let it' := (pb_field_iter_next it).2 in
      if (it_pos it' =? start)%nat then Some (false, it') else find_extension_loop fuel' start it'
  end.

Definition find_extension_field (it : pb_field_iter) : option (bool * pb_field_iter) :=
  find_extension_loop (S (length (it_start it))) (it_pos it) it.

(** [fields_seen[index >> 5] |= 1 << (index & 31)] *)
Definition mark_seen (index : Z) (fields_seen : list Z) : list Z :=
  alter (λ w, Z.lor w (u32 (Z.shiftl 1 (Z.land index 31)))) (Z.to_nat (Z.shiftr index 5)) fields_seen.

(** The body of the [while] loop for a tag that is no field's; the iterator
    stays where it was, or at the extension field. *)
Definition decode_unknown (tag wire_type extension_range_start : Z) (it : pb_field_iter)
    : M (bool * (Z * pb_field_iter)) :=
  let skip start it :=
    let* r := indec (pb_skip_field wire_type) in
    ret (match r with Some _ => true | None => false end, (start, it)) in
  if tag <? extension_range_start then skip extension_range_start it
  else
    match find_extension_field it with
    | None => undefined
    | Some (found, it1) =>
      let start := if (found : bool) then f_tag (it_field it1) else 2 ^ 32 - 1 in
      if tag <? start then skip start it1
      else
        let* pos := bytes_left in
        let* ok := decode_extension tag wire_type it1 in
        if ok then
          let* n_left := bytes_left in
          if pos =? n_left then skip start it1 else ret (true, (start, it1))
        else ret (false, (start, it1))
    end.

(** [while (stream->bytes_left)]; each turn reads a tag. *)
Fixpoint decode_loop (fuel : nat) (it : pb_field_iter) (fields_seen : list Z)
    (extension_range_start : Z) : M (bool * (pb_field_iter * list Z)) :=
  match fuel with
  | O => undefined
  | S fuel' =>
    let* n_left := bytes_left in
    if n_left =? 0 then ret (true, (it, fields_seen))
    else λ s,
      '(r, eof, i) ← pb_decode_tag (d_in s);
      let s := mk_dstate i (d_mem s) in
      match r with
      | None => Some ((eof, (it, fields_seen)), s)
      | Some (wire_type, tag) =>
        '(found, it1) ← pb_field_iter_find it tag;
        if (found : bool) then
          let index := it_required_field_index it1 in
          let fields_seen :=
            if is_htype PB_HTYPE_REQUIRED (it_field it1) && (index <? PB_MAX_REQUIRED_FIELDS)
            then mark_seen index fields_seen else fields_seen in
          (let* (ok, it2) := decode_field wire_type it1 in
           if (ok : bool) then decode_loop fuel' it2 fields_seen extension_range_start
           else ret (false, (it2, fields_seen))) s
        else
          (let* (ok, (start, it2)) := decode_unknown tag wire_type extension_range_start it1 in
           if (ok : bool) then decode_loop fuel' it2 fields_seen start
           else ret (false, (it2, fields_seen))) s
      end
  end.

(** [do { count = index; last_type = type; } while (pb_field_iter_next(&iter));] *)
Fixpoint required_loop (fuel : nat) (it : pb_field_iter) : option (Z * pb_field * pb_field_iter) :=
  match fuel with
  | O => None
  | S fuel' =>
    let '(more, it') := pb_field_iter_next it in
    if (more : bool) then required_loop fuel' it'
    else Some (it_required_field_index it, it_field it, it')
  end.

(** The number of required fields, from any field of the message. *)
Definition req_field_count (it : pb_field_iter) : option Z :=
  '(count, last, it') ← required_loop (S (length (it_start it))) it;
  Some (if is_htype PB_HTYPE_REQUIRED last && negb (f_tag (it_field it') =? 0) then count + 1 else count).

(** Were all seen?  [None]: a word past the end of [fields_seen], or a shift of
    a 32-bit word by 32. *)
Definition all_seen (count : Z) (fields_seen : list Z) : option bool :=
  let words := Z.to_nat (Z.shiftr count 5) in
  if count =? 0 then Some true
  else if forallb (λ w, w =? 2 ^ 32 - 1) (take words fields_seen) then
    last ← fields_seen !! words;
    if Z.land count 31 =? 0 then None
    else Some (last =? Z.shiftr (2 ^ 32 - 1) (32 - Z.land count 31))
  else Some false.

Definition pb_decode_noinit_with (d : nat) (dest : addr) : M bool := λ s,
  let it := (pb_field_iter_begin (descriptor d) dest).2 in
  (let* (ok, (it, fields_seen)) := decode_loop (S (Z.to_nat (i_bytes_left (d_in s)))) it [0; 0] 0 in
   if (ok : bool) then
     match req_field_count it with
     | None => undefined
     | Some count =>
       match all_seen count fields_seen with
       | None => undefined
       | Some true => ret true
       | Some false => fail "missing required field"
       end
     end
   else ret false) s.

End Level.

(** The bytes of a submessage are fewer than those of the message. *)
Fixpoint noinit_at (fuel : nat) : nat → addr → M bool :=
  match fuel with
  | O => λ _ _, undefined
  | S fuel' => pb_decode_noinit_with (noinit_at fuel')
  end.

Definition pb_decode_noinit (d : nat) (dest : addr) : M bool := λ s,
  noinit_at (S (Z.to_nat (i_bytes_left (d_in s)))) d dest s.

Definition pb_decode (d : nat) (dest : addr) : M bool := pb_decode_with pb_decode_noinit d dest.

Definition pb_decode_delimited (d : nat) (dest : addr) : M bool :=
  let-sub stream in
  let* status := pb_decode d dest in
  close_substream stream ;;; ret status.

End Decoder.
