(* ===== verification/PbShape.v ===== *)
(** The shape of a message in memory: what the struct of a descriptor holds and
    which blocks it owns ([msg_own]), and the descriptors the generator of the
    library produces for structs of the kinds modelled ([wf_descs]). *)

From S2P Require Import Prelude PbStream PbMem PbFields PbDecode.

Open Scope Z_scope.

(** ** Fields in a block *)

(** The size of the data of [f] in the struct. *)
Definition dlen (f : pb_field) : nat := Z.to_nat (field_width f).

(** Does the code use [pSize]? *)
Definition has_slot (f : pb_field) : bool :=
  is_htype PB_HTYPE_REPEATED f || is_htype PB_HTYPE_ONEOF f ||
  (is_atype PB_ATYPE_STATIC f && is_htype PB_HTYPE_OPTIONAL f).

Definition dpos (p : Z) : nat := Z.to_nat p.
Definition spos (f : pb_field) (p : Z) : nat := Z.to_nat (p + f_size_offset f).

(** The tags of the union whose [which_] member is at [s]. *)
Definition union_tags (fields : list pb_field) (s : nat) : list Z :=
  (λ fp, f_tag fp.1) <$> filter (λ fp : pb_field * Z, is_htype PB_HTYPE_ONEOF fp.1 = true ∧ spos fp.1 fp.2 = s) (layout fields).

(** ** What fields own

    [R d data fp]: the struct of descriptor [d] with contents [data] owns the
    blocks [fp]. *)

Section Own.
Context (R : nat → block → footprint → Prop).

(** A value stored in place. *)
Inductive item_own (f : pb_field) (data : block) : footprint → Prop :=
| item_submsg d fp :
    is_ltype PB_LTYPE_SUBMESSAGE f = true → f_ptr f = FSubmsg d → R d data fp → item_own f data fp
| item_plain : is_ltype PB_LTYPE_SUBMESSAGE f = false → item_own f data [].

(** An allocated value: the pointer is null or to a block of the value's size. *)
Inductive ptr_own (f : pb_field) : block → footprint → Prop :=
| ptr_null : ptr_own f (ptr_bytes VNull) []
| ptr_str l b : is_string_or_bytes f = true → ptr_own f (ptr_bytes (VLoc l 0)) [(l, b)]
| ptr_item l b fp :
    is_string_or_bytes f = false → zlen b = f_data_size f → item_own f b fp →
    ptr_own f (ptr_bytes (VLoc l 0)) ((l, b) :: fp).

(** An item of an allocated array. *)
Inductive elem_own (f : pb_field) : block → footprint → Prop :=
| elem_str p bs : is_string_or_bytes f = true → owns p bs → elem_own f (ptr_bytes p) bs
| elem_item data fp : is_string_or_bytes f = false → item_own f data fp → elem_own f data fp.

(** The [k]-th item of an array. *)
Definition elem (f : pb_field) (k : nat) (b : block) : block :=
  mem_read (k * Z.to_nat (f_data_size f)) (Z.to_nat (f_data_size f)) b.

(** An allocated array of [count] items: there is room for them. *)
Inductive arr_own (f : pb_field) : block → Z → footprint → Prop :=
| arr_null : arr_own f (ptr_bytes VNull) 0 []
| arr_block l b fps :
    zlen fps * f_data_size f <= zlen b →
    (∀ k fp, fps !! k = Some fp → elem_own f (elem f k b) fp) →
    arr_own f (ptr_bytes (VLoc l 0)) (zlen fps) ((l, b) :: concat fps).

(** A field, from its data, the memory at [pSize] and the tags of its union. *)
Inductive field_own (tags : list Z) (f : pb_field) (data : block) (slot : option memval) : footprint → Prop :=
| own_single fp :
    is_atype PB_ATYPE_STATIC f = true → is_htype PB_HTYPE_REPEATED f = false →
    is_htype PB_HTYPE_ONEOF f = false → item_own f data fp → field_own tags f data slot fp
| own_array c :
    is_atype PB_ATYPE_STATIC f = true → is_htype PB_HTYPE_REPEATED f = true →
    slot = Some (MByte c) → 0 <= c <= f_array_size f → field_own tags f data slot []
| own_oneof w fp :
    is_atype PB_ATYPE_STATIC f = true → is_htype PB_HTYPE_ONEOF f = true →
    slot = Some (MByte w) → (w = f_tag f → item_own f data fp) → (w ≠ f_tag f → fp = []) →
    field_own tags f data slot fp
| own_ptr fp :
    is_atype PB_ATYPE_POINTER f = true → is_htype PB_HTYPE_REPEATED f = false →
    is_htype PB_HTYPE_ONEOF f = false → ptr_own f data fp → field_own tags f data slot fp
| own_ptr_array c fp :
    is_atype PB_ATYPE_POINTER f = true → is_htype PB_HTYPE_REPEATED f = true →
    slot = Some (MByte c) → 0 <= c <= PB_SIZE_MAX → arr_own f data c fp → field_own tags f data slot fp
| own_ptr_oneof w fp p :
    is_atype PB_ATYPE_POINTER f = true → is_htype PB_HTYPE_ONEOF f = true →
    slot = Some (MByte w) → (w = f_tag f → ptr_own f data fp) →
    (w ≠ f_tag f → fp = [] ∧ data = ptr_bytes p ∧ (p = VNull ∨ w ∈ tags)) →
    field_own tags f data slot fp.

End Own.

(** No request for memory fails, if it may not. *)
Definition alloc_ok (may_fail : bool) (m : mem) : Prop := Forall (λ b, b = true) (m_fate m) ∨ may_fail = true.

Section Shape.
Context (descs : list (list pb_field)).

(** The data and the slot of the field [fp] of the struct at [o] in [b]. *)
Definition fdata (o : nat) (b : block) (fp : pb_field * Z) : block :=
  mem_read (o + dpos fp.2) (dlen fp.1) b.
Definition fslot (o : nat) (b : block) (fp : pb_field * Z) : option memval :=
  b !! (o + spos fp.1 fp.2)%nat.

(** The struct of descriptor [d] with contents [data] owns [concat fps], its
    [k]-th field [fps !! k]. *)
Inductive msg_own (d : nat) (data : block) : footprint → Prop :=
| msg_own_intro fps :
    length fps = length (layout (descriptor descs d)) →
    (∀ k g fp, layout (descriptor descs d) !! k = Some g → fps !! k = Some fp →
       field_own msg_own (union_tags (descriptor descs d) (spos g.1 g.2)) g.1
         (fdata 0 data g) (fslot 0 data g) fp) →
    msg_own d data (concat fps).

(** ** Well-formed descriptors *)

(** No part of a message of descriptor [d] is allocated ([fuel] bounds the
    nesting of the structs). *)
Fixpoint ptr_free (fuel : nat) (d : nat) : bool :=
  match fuel with
  | O => false
  | S fuel' =>
    forallb (λ f, is_atype PB_ATYPE_STATIC f &&
      (negb (is_ltype PB_LTYPE_SUBMESSAGE f) ||
       match f_ptr f with FSubmsg e => ptr_free fuel' e | _ => false end)) (descriptor descs d)
  end.

(** Moreover [pb_release] reads nothing of it: no unions, no arrays of structs. *)
Fixpoint inert (fuel : nat) (d : nat) : bool :=
  match fuel with
  | O => false
  | S fuel' =>
    forallb (λ f, is_atype PB_ATYPE_STATIC f && negb (is_htype PB_HTYPE_ONEOF f) &&
      (negb (is_ltype PB_LTYPE_SUBMESSAGE f) ||
       (negb (is_htype PB_HTYPE_REPEATED f) &&
        match f_ptr f with FSubmsg e => inert fuel' e | _ => false end))) (descriptor descs d)
  end.

(** The members are inside a struct of [n] bytes. *)
Definition in_range (n : nat) (g : pb_field * Z) : Prop :=
  0 <= g.2 ∧ (dpos g.2 + dlen g.1 <= n)%nat ∧
  (has_slot g.1 = true → 0 <= g.2 + f_size_offset g.1 ∧ (spos g.1 g.2 < n)%nat ∧
     (spos g.1 g.2 < dpos g.2 ∨ dpos g.2 + dlen g.1 <= spos g.1 g.2)%nat).

Definition msg_fits (d : nat) (n : nat) : Prop := Forall (in_range n) (layout (descriptor descs d)).

(** Two members share no memory, or are members of one union. *)
Definition apart (g h : pb_field * Z) : Prop :=
  (dpos g.2 + dlen g.1 <= dpos h.2 ∨ dpos h.2 + dlen h.1 <= dpos g.2)%nat ∧
  (has_slot g.1 = true → spos g.1 g.2 < dpos h.2 ∨ dpos h.2 + dlen h.1 <= spos g.1 g.2)%nat ∧
  (has_slot h.1 = true → spos h.1 h.2 < dpos g.2 ∨ dpos g.2 + dlen g.1 <= spos h.1 h.2)%nat ∧
  (has_slot g.1 = true → has_slot h.1 = true → spos g.1 g.2 ≠ spos h.1 h.2).

Definition same_union (g h : pb_field * Z) : Prop :=
  is_htype PB_HTYPE_ONEOF g.1 = true ∧ is_htype PB_HTYPE_ONEOF h.1 = true ∧
  g.2 = h.2 ∧ f_size_offset g.1 = f_size_offset h.1 ∧
  PB_ATYPE (f_type g.1) = PB_ATYPE (f_type h.1).

(** A field of the struct with descriptor [d]. *)
Definition field_wf (d : nat) (f : pb_field) : Prop :=
  0 < f_tag f < 256 ∧ 0 < f_data_size f < 256 ∧ 0 <= f_array_size f < 256 ∧
  PB_LTYPE (f_type f) <= PB_LTYPE_FIXED_LENGTH_BYTES ∧ is_ltype PB_LTYPE_EXTENSION f = false ∧
  (is_atype PB_ATYPE_STATIC f = true ∨ is_atype PB_ATYPE_POINTER f = true) ∧
  (is_ltype PB_LTYPE_FIXED32 f = true → f_data_size f = 4) ∧
  (is_ltype PB_LTYPE_FIXED64 f = true → f_data_size f = 8) ∧
  match f_ptr f with
  | FNull => is_ltype PB_LTYPE_SUBMESSAGE f = false
  | FDefault value => is_ltype PB_LTYPE_SUBMESSAGE f = false ∧ f_data_size f <= zlen value
  | FSubmsg e =>
    is_ltype PB_LTYPE_SUBMESSAGE f = true ∧ (e < length descs)%nat ∧
    msg_fits e (Z.to_nat (f_data_size f)) ∧
    (is_atype PB_ATYPE_STATIC f = true →
       (e < d)%nat ∧
       (is_htype PB_HTYPE_REPEATED f = true → inert (length descs) e = true) ∧
       (is_htype PB_HTYPE_ONEOF f = true → ptr_free (length descs) e = true))
  end ∧
  (is_atype PB_ATYPE_POINTER f = true →
     is_ltype PB_LTYPE_FIXED_LENGTH_BYTES f = false ∧
     (is_htype PB_HTYPE_REPEATED f = true → is_string_or_bytes f = true →
        f_data_size f = Z.of_nat PTR_SIZE)).

(** Members that are different are apart or in a union; a message has not
    exactly 32 nor more than 63 required fields. *)
Definition desc_wf (d : nat) : Prop :=
  let fields := descriptor descs d in
  Forall (field_wf d) fields ∧ NoDup (f_tag <$> fields) ∧
  ForallOrdPairs (λ g h, apart g h ∨ same_union g h) (layout fields) ∧
  count_required fields < 64 ∧ count_required fields ≠ 32.

Definition wf_descs : Prop := Forall desc_wf (seq 0 (length descs)).

(** The program has no allocated array. *)
Definition no_pointer_arrays : bool :=
  forallb (forallb (λ f, negb (is_atype PB_ATYPE_POINTER f && is_htype PB_HTYPE_REPEATED f))) descs.

End Shape.

(** ** Deciding that a table is well-formed *)

#[export] Instance in_range_dec n g : Decision (in_range n g).
Proof. unfold in_range. apply _. Defined.

#[export] Instance msg_fits_dec descs d n : Decision (msg_fits descs d n).
Proof. unfold msg_fits. apply _. Defined.

#[export] Instance apart_dec g h : Decision (apart g h).
Proof. unfold apart. apply _. Defined.

#[export] Instance same_union_dec g h : Decision (same_union g h).
Proof. unfold same_union. apply _. Defined.

#[export] Instance field_wf_dec descs d f : Decision (field_wf descs d f).
Proof. unfold field_wf. destruct (f_ptr f); apply _. Defined.

#[export] Instance ord_pairs_dec {A} (R : A → A → Prop) `{!∀ x y, Decision (R x y)} l :
  Decision (ForallOrdPairs R l).
Proof.
  induction l as [|x l IH]; [left; constructor|].
  destruct (decide (Forall (R x) l)) as [Hx|Hx]; [|right; by inversion 1].
  destruct IH as [Hl|Hl]; [left; by constructor|right; by inversion 1].
Defined.

#[export] Instance desc_wf_dec descs d : Decision (desc_wf descs d).
Proof. unfold desc_wf. apply _. Defined.

#[export] Instance wf_descs_dec descs : Decision (wf_descs descs).
Proof. unfold wf_descs. apply _. Defined.
