(* ===== verification/PbRuns.v ===== *)
(** The program logic of the decoder: [runs c i l T b fp Q] says that the
    computation [c], started on the stream [i] with a block [l] that holds [b]
    and owned blocks [fp], is defined whatever other blocks there are, changes
    [l] in [T] only, leaves the other blocks alone, and ends in a state that
    satisfies [Q].  The rules for the primitive operations and for sequencing,
    and the arithmetic of the regions of a block. *)

From S2P Require Import Prelude PbStream PbMem PbFields PbDecode PbShape.

Open Scope Z_scope.

(** ** Regions of a block *)

(** [b'] differs from [b] in [T] only. *)
Definition same_off (T : nat → Prop) (b b' : block) : Prop :=
  length b' = length b ∧ ∀ k, ¬ T k → b' !! k = b !! k.

(** The bytes from [a] on, [n] of them. *)
Definition span (a n : nat) (k : nat) : Prop := (a <= k < a + n)%nat.

(** What a field at [a], with its slot at [s], covers. *)
Definition region (f : pb_field) (a s : nat) (k : nat) : Prop :=
  span a (dlen f) k ∨ (has_slot f = true ∧ k = s).

Lemma same_off_refl T b : same_off T b b.
Proof. done. Qed.

Lemma same_off_trans T b1 b2 b3 : same_off T b1 b2 → same_off T b2 b3 → same_off T b1 b3.
Proof.
  intros [H1 H2] [H3 H4]. split; [congruence|]. intros k Hk. rewrite H4 by done. by apply H2.
Qed.

Lemma same_off_weaken (T T' : nat → Prop) b b' : (∀ k, T k → T' k) → same_off T b b' → same_off T' b b'.
Proof. intros HT [H1 H2]. split; [done|]. intros k Hk. apply H2. auto. Qed.

Lemma same_off_write T a vs b :
  (a + length vs <= length b)%nat → (∀ k, span a (length vs) k → T k) →
  same_off T b (mem_write a vs b).
Proof.
  intros Hl HT. split; [by apply mem_write_length|]. intros k Hk.
  destruct (decide (k < length b)%nat) as [Hkl|Hkl].
  - assert (mem_read k 1 (mem_write a vs b) = mem_read k 1 b) as Hr.
    { apply mem_read_write_disjoint; [done|]. unfold span in HT. specialize (HT k).
      destruct (decide (a <= k < a + length vs)%nat); [exfalso; auto|lia]. }
    destruct (lookup_lt_is_Some_2 b k Hkl) as [v Hv]. rewrite Hv.
    apply mem_read_one. rewrite Hr. by apply mem_read_one.
  - rewrite !lookup_ge_None_2; [done|lia|rewrite mem_write_length; lia].
Qed.

(** What lies outside of the region is as before. *)
Lemma same_off_read T a n b b' :
  same_off T b b' → (∀ k, span a n k → ¬ T k) → mem_read a n b' = mem_read a n b.
Proof.
  intros [Hl Hs] HT. apply list_eq. intros i.
  destruct (decide (i < n)%nat).
  - rewrite !mem_read_lookup by done. apply Hs, HT. unfold span. lia.
  - unfold mem_read. rewrite !lookup_take_ge by lia. done.
Qed.

(** Is the region a field covers decidable?  It is. *)
#[export] Instance span_dec a n k : Decision (span a n k).
Proof. unfold span. apply _. Defined.

Section Runs.
(** May allocations fail? *)
Context (may_fail : bool).

Definition runs {A} (c : M A) (i : istream) (l : nat) (T : nat → Prop) (b : block) (fp : footprint)
    (Q : A → istream → block → footprint → Prop) : Prop :=
  ∀ m F, alloc_ok may_fail m → mem_is m ((l, b) :: fp ++ F) →
    ∃ a i' m' b' fp', c (mk_dstate i m) = Some (a, mk_dstate i' m') ∧ alloc_ok may_fail m' ∧
      mem_is m' ((l, b') :: fp' ++ F) ∧ same_off T b b' ∧ Q a i' b' fp'.

Implicit Types (T : nat → Prop) (b : block) (fp : footprint).

(** ** Structural rules *)

Lemma runs_ret {A} (a : A) i l T b fp Q : Q a i b fp → runs (ret a) i l T b fp Q.
Proof. intros HQ m F Ha Hm. by exists a, i, m, b, fp. Qed.

Lemma runs_bind {A B} (c : M A) (k : A → M B) i l T b fp Q Q' :
  runs c i l T b fp Q →
  (∀ a i' b' fp', Q a i' b' fp' → same_off T b b' → runs (k a) i' l T b' fp' Q') →
  runs (mbindM c k) i l T b fp Q'.
Proof.
  intros Hc Hk m F Ha Hm. destruct (Hc m F Ha Hm) as (a & i1 & m1 & b1 & fp1 & Hr & Ha1 & Hm1 & Ho1 & HQ).
  destruct (Hk _ _ _ _ HQ Ho1 m1 F Ha1 Hm1) as (x & i2 & m2 & b2 & fp2 & Hr2 & Ha2 & Hm2 & Ho2 & HQ2).
  exists x, i2, m2, b2, fp2. unfold mbindM. rewrite Hr. simpl. rewrite Hr2.
  do 3 (split; [done|]). split; [by eapply same_off_trans|done].
Qed.

(** The same, one step at a time. *)
Lemma runs_seq {A B} (c : M A) (k : A → M B) i l T b fp Q :
  runs c i l T b fp (λ a i' b' fp', runs (k a) i' l T b' fp' Q) → runs (mbindM c k) i l T b fp Q.
Proof. intros Hc. eapply runs_bind; [exact Hc|]. by intros. Qed.

Lemma runs_weaken {A} (c : M A) i l T T' b fp Q Q' :
  runs c i l T b fp Q → (∀ k, T k → T' k) →
  (∀ a i' b' fp', Q a i' b' fp' → same_off T b b' → Q' a i' b' fp') →
  runs c i l T' b fp Q'.
Proof.
  intros Hc HT HQ m F Ha Hm. destruct (Hc m F Ha Hm) as (a & i1 & m1 & b1 & fp1 & Hr & Ha1 & Hm1 & Ho1 & HQ1).
  exists a, i1, m1, b1, fp1. do 3 (split; [done|]). split; [by eapply same_off_weaken|auto].
Qed.

Lemma runs_conseq {A} (c : M A) i l T b fp Q Q' :
  runs c i l T b fp Q → (∀ a i' b' fp', Q a i' b' fp' → same_off T b b' → Q' a i' b' fp') →
  runs c i l T b fp Q'.
Proof. intros. eapply runs_weaken; eauto. Qed.

(** The owned blocks are a list up to order, *)
Lemma runs_perm {A} (c : M A) i l T b fp fp2 Q :
  fp ≡ₚ fp2 → runs c i l T b fp2 Q → runs c i l T b fp Q.
Proof. intros Hp Hc m F Ha Hm. apply Hc; [done|]. by rewrite <-Hp. Qed.

Lemma runs_perm_post {A} (c : M A) i l T b fp Q Q' :
  runs c i l T b fp Q →
  (∀ a i' b' fp', Q a i' b' fp' → same_off T b b' → ∃ fp2, fp' ≡ₚ fp2 ∧ Q' a i' b' fp2) →
  runs c i l T b fp Q'.
Proof.
  intros Hc HQ m F Ha Hm. destruct (Hc m F Ha Hm) as (a & i1 & m1 & b1 & fp1 & Hr & Ha1 & Hm1 & Ho1 & HQ1).
  destruct (HQ _ _ _ _ HQ1 Ho1) as (fp2 & Hp & HQ2). exists a, i1, m1, b1, fp2.
  do 2 (split; [done|]). split; [by rewrite <-Hp|]. done.
Qed.

(** and blocks that are not needed are left alone. *)
Lemma runs_frame {A} (c : M A) i l T b fp G Q :
  runs c i l T b fp Q →
  runs c i l T b (fp ++ G) (λ a i' b' fp', ∃ fp0, fp' = fp0 ++ G ∧ Q a i' b' fp0).
Proof.
  intros Hc m F Ha Hm. rewrite <-app_assoc in Hm.
  destruct (Hc m (G ++ F) Ha Hm) as (a & i1 & m1 & b1 & fp1 & Hr & Ha1 & Hm1 & Ho1 & HQ).
  exists a, i1, m1, b1, (fp1 ++ G). rewrite <-app_assoc. do 4 (split; [done|]). by exists fp1.
Qed.

(** A computation on an owned block. *)
Lemma runs_inside {A} (c : M A) i l T b l2 T2 b2 fp2 Q :
  runs c i l2 T2 b2 fp2 Q →
  runs c i l T b ((l2, b2) :: fp2)
    (λ a i' b' fp', b' = b ∧ ∃ b2' fp2', fp' = (l2, b2') :: fp2' ∧ same_off T2 b2 b2' ∧ Q a i' b2' fp2').
Proof.
  intros Hc m F Ha Hm.
  destruct (Hc m ((l, b) :: F) Ha) as (a & i1 & m1 & b1 & fp1 & Hr & Ha1 & Hm1 & Ho1 & HQ).
  { rewrite <-Permutation_middle. eapply mem_is_permuted; [|exact Hm]. apply Permutation_swap. }
  exists a, i1, m1, b, ((l2, b1) :: fp1). do 2 (split; [done|]). split; [|split; [done|]].
  - rewrite <-Permutation_middle in Hm1. eapply mem_is_permuted; [|exact Hm1]. apply Permutation_swap.
  - split; [done|]. by exists b1, fp1.
Qed.

(** ** Streams *)

Lemma runs_fail msg i l T b fp Q : Q false (i_set_error msg i) b fp → runs (fail msg) i l T b fp Q.
Proof. intros HQ m F Ha Hm. by exists false, (i_set_error msg i), m, b, fp. Qed.

Lemma runs_bytes_left i l T b fp Q : Q (i_bytes_left i) i b fp → runs bytes_left i l T b fp Q.
Proof. intros HQ m F Ha Hm. by exists (i_bytes_left i), i, m, b, fp. Qed.

Lemma runs_get_in i l T b fp Q : Q i i b fp → runs get_in i l T b fp Q.
Proof. intros HQ m F Ha Hm. by exists i, i, m, b, fp. Qed.

Lemma runs_set_in i' i l T b fp Q : Q tt i' b fp → runs (set_in i') i l T b fp Q.
Proof. intros HQ m F Ha Hm. by exists tt, i', m, b, fp. Qed.

Lemma runs_close par sub l T b fp Q :
  Q tt (pb_close_string_substream par sub) b fp → runs (close_substream par) sub l T b fp Q.
Proof. intros HQ m F Ha Hm. eexists _, _, m, b, fp. by do 4 (split; [done|]). Qed.

(** A reader that is safe. *)
Lemma runs_indec {A} n P (d : dec A) i l T b fp Q :
  safe n P d → iwf i →
  (∀ r i', i_advance i i' → match r with Some a => P a ∧ i_bytes_left i' + n <= i_bytes_left i | None => True end →
     Q r i' b fp) →
  runs (indec d) i l T b fp Q.
Proof.
  intros Hd Hi HQ m F Ha Hm. destruct (Hd i Hi) as (r & i' & Hr & Hadv & HP).
  exists r, i', m, b, fp. unfold indec. simpl. rewrite Hr. do 4 (split; [done|]). by apply HQ.
Qed.

(** [if (!reader(stream, &x)) return false; k] *)
Lemma runs_read {A} n P (d : dec A) (k : A → M bool) i l T b fp Q :
  safe n P d → iwf i →
  (∀ a i', i_advance i i' → P a → i_bytes_left i' + n <= i_bytes_left i → runs (k a) i' l T b fp Q) →
  (∀ i', i_advance i i' → Q false i' b fp) →
  runs (mbindM (indec d) (λ r, match r with Some a => k a | None => ret false end)) i l T b fp Q.
Proof.
  intros Hd Hi Hk Hf. eapply runs_bind.
  - eapply (runs_indec n P d i l T b fp (λ r i' b' fp', b' = b ∧ fp' = fp ∧ i_advance i i' ∧
      match r with Some a => P a ∧ i_bytes_left i' + n <= i_bytes_left i | None => True end)); eauto.
  - intros r i' b' fp' (-> & -> & Hadv & HP) _. destruct r as [a|]; [apply Hk; tauto|].
    by apply runs_ret, Hf.
Qed.

(** ** Memory *)

Lemma runs_ld_u8 s c i l T b fp Q :
  b !! s = Some (MByte c) → Q c i b fp → runs (ld_u8 (l, Z.of_nat s)) i l T b fp Q.
Proof.
  intros Hs HQ m F Ha Hm. exists c, i, m, b, fp. pose proof (lookup_lt_Some _ _ _ Hs).
  unfold ld_u8, lift_load, load_u8, load_bytes. simpl d_mem.
  rewrite (load_spec m l b (fp ++ F) s 1) by (done || lia).
  apply mem_read_one in Hs. rewrite Hs. done.
Qed.

Lemma runs_ld_ptr a p i l T b fp Q :
  (a + PTR_SIZE <= length b)%nat → mem_read a PTR_SIZE b = ptr_bytes p → Q p i b fp →
  runs (ld_ptr (l, Z.of_nat a)) i l T b fp Q.
Proof.
  intros Hl Hp HQ m F Ha Hm. exists p, i, m, b, fp.
  unfold ld_ptr, lift_load, load_ptr. simpl d_mem.
  rewrite (load_spec m l b (fp ++ F) a PTR_SIZE), Hp by done.
  cbn [mbind option_bind]. rewrite decode_ptr_bytes. done.
Qed.

Lemma runs_st a vs i l T b fp Q :
  (a + length vs <= length b)%nat → (∀ k, span a (length vs) k → T k) →
  Q tt i (mem_write a vs b) fp → runs (st (l, Z.of_nat a) vs) i l T b fp Q.
Proof.
  intros Hl HT HQ m F Ha Hm. unfold st, lift_store. cbn [d_mem d_in].
  destruct (store_spec m l b (fp ++ F) a vs Hm Hl) as (m' & -> & Hm' & Hf).
  exists tt, i, m', (mem_write a vs b), fp. split; [done|]. unfold alloc_ok. rewrite Hf.
  split; [done|]. split; [done|]. split; [by apply same_off_write|done].
Qed.

Lemma runs_st_bytes a bs i l T b fp Q :
  (a + length bs <= length b)%nat → (∀ k, span a (length bs) k → T k) →
  Q tt i (mem_write a (MByte <$> bs) b) fp → runs (st_bytes (l, Z.of_nat a) bs) i l T b fp Q.
Proof. intros. apply runs_st; rewrite ?length_fmap; done. Qed.

Lemma lookup_write_one s (v : memval) b : (s < length b)%nat → mem_write s [v] b !! s = Some v.
Proof. intros. apply mem_read_one, mem_read_write; [lia|done]. Qed.

Lemma runs_st_u8 s v i l T b fp Q :
  (s < length b)%nat → T s →
  Q tt i (mem_write s [MByte (u8 v)] b) fp → runs (st_u8 (l, Z.of_nat s) v) i l T b fp Q.
Proof.
  intros Hs HT HQ. apply (runs_st_bytes s [u8 v]); simpl; [lia| |done].
  intros k Hk. unfold span in Hk. replace k with s by lia. done.
Qed.

Lemma runs_free p bs i l T b fp Q :
  owns p bs → Q tt i b fp → runs (free p) i l T b (bs ++ fp) Q.
Proof.
  intros Ho HQ m F Ha Hm. unfold free, lift_store. cbn [d_mem d_in].
  destruct (pb_free_spec m p bs ((l, b) :: fp ++ F) Ho) as (m' & -> & Hm' & Hf).
  { rewrite <-Permutation_middle. by rewrite <-app_assoc in Hm. }
  exists tt, i, m', b, fp. split; [done|]. unfold alloc_ok. by rewrite Hf.
Qed.

Lemma alloc_ok_tail m m' : alloc_ok may_fail m → m_fate m' = tail (m_fate m) → alloc_ok may_fail m'.
Proof.
  intros [Ha|Ha] Hf; [left|by right]. rewrite Hf. by destruct (m_fate m); [|inversion Ha].
Qed.

(** Either the block of the size asked for, or a failure. *)
Lemma runs_realloc p bs n i l T b fp Q :
  owns p bs →
  (∀ l', Q (VLoc l' 0) i b ((l', resize (Z.to_nat n) (default [] (snd <$> head bs))) :: fp)) →
  (may_fail = true → Q VNull i b (bs ++ fp)) →
  runs (realloc p n) i l T b (bs ++ fp) Q.
Proof.
  intros Ho HQ HF m F Ha Hm. unfold realloc. cbn [d_mem d_in].
  destruct (pb_realloc_spec m p bs ((l, b) :: fp ++ F) n Ho) as [(l' & m' & -> & Hm' & Hf)|(Hfate & m' & -> & Hm' & Hf)].
  { rewrite <-Permutation_middle. by rewrite <-app_assoc in Hm. }
  - exists (VLoc l' 0), i, m', b. eexists. split; [done|]. split; [by eapply alloc_ok_tail|].
    split; [|split; [done|apply HQ]].
    eapply mem_is_permuted; [|exact Hm']. apply Permutation_swap.
  - exists VNull, i, m', b, (bs ++ fp). split; [done|]. split; [by eapply alloc_ok_tail|].
    split; [|split; [done|apply HF]].
    + rewrite <-app_assoc, Permutation_middle. done.
    + destruct Ha as [Ha|]; [|done]. destruct (m_fate m); simplify_eq/=. by apply Forall_cons in Ha as [? _].
Qed.

Lemma runs_deref l2 o i l T b fp Q : Q (l2, o) i b fp → runs (deref (VLoc l2 o)) i l T b fp Q.
Proof. apply runs_ret. Qed.

End Runs.
