(* ===== verification/PbOwn.v ===== *)
(** Structs in a block: [struct_own] is [msg_own] with the blocks of every
    field apart, how a change of one field changes it ([struct_update]), and the
    rule for the loops over the fields of a struct ([each_field_runs]). *)

From S2P Require Import Prelude PbStream PbMem PbFields PbDecode PbShape PbRuns.

Open Scope Z_scope.

Section Struct.
Context (descs : list (list pb_field)).

Abbreviation desc := (descriptor descs).

Definition struct_own (e : nat) (o : nat) (b : block) (fps : list footprint) : Prop :=
  length fps = length (layout (desc e)) ∧
  ∀ k g fp, layout (desc e) !! k = Some g → fps !! k = Some fp →
    field_own (msg_own descs) (union_tags (desc e) (spos g.1 g.2)) g.1 (fdata o b g) (fslot o b g) fp.

(** ** Well-formedness, at a field *)

Lemma descriptor_lookup e : desc e ≠ [] → (e < length descs)%nat.
Proof.
  intros H. destruct (decide (e < length descs)%nat); [done|]. exfalso. apply H.
  unfold descriptor. by rewrite lookup_ge_None_2 by lia.
Qed.

Lemma wf_desc e : wf_descs descs → (e < length descs)%nat → desc_wf descs e.
Proof. intros Hwf He. unfold wf_descs in Hwf. rewrite Forall_seq in Hwf. apply Hwf. lia. Qed.

Lemma layout_desc e k g : layout (desc e) !! k = Some g → (e < length descs)%nat.
Proof. intros Hg. apply descriptor_lookup. intros H. by rewrite H in Hg. Qed.

Lemma wf_field e k g : wf_descs descs → layout (desc e) !! k = Some g → field_wf descs e g.1.
Proof.
  intros Hwf Hg. destruct (wf_desc e Hwf (layout_desc _ _ _ Hg)) as (Hf & _).
  destruct g as [f p]. rewrite Forall_lookup in Hf. eapply Hf. by eapply layout_field.
Qed.

Lemma wf_tags e : wf_descs descs → tags_ok (desc e).
Proof.
  intros Hwf. destruct (desc e) eqn:E; [constructor|]. rewrite <-E.
  destruct (wf_desc e Hwf) as (Hf & _); [apply descriptor_lookup; by rewrite E|].
  eapply Forall_impl; [exact Hf|]. intros f ([H _] & _). lia.
Qed.

Lemma ord_pairs_lookup {A} (R : A → A → Prop) l i j x y :
  ForallOrdPairs R l → l !! i = Some x → l !! j = Some y → (i < j)%nat → R x y.
Proof.
  intros HR. revert i j; induction HR as [|z l Hz HR IH]; intros i j Hx Hy Hij; [done|].
  destruct j as [|j]; [lia|]. simpl in Hy. destruct i as [|i]; simpl in Hx.
  - simplify_eq. rewrite Forall_forall in Hz. eapply Hz, list_elem_of_lookup_2, Hy.
  - eapply IH; eauto. lia.
Qed.

Lemma apart_sym g h : apart g h → apart h g.
Proof. unfold apart. intuition. Qed.

Lemma same_union_sym g h : same_union g h → same_union h g.
Proof. unfold same_union. intuition congruence. Qed.

Lemma wf_pair e i j g h :
  wf_descs descs → layout (desc e) !! i = Some g → layout (desc e) !! j = Some h → i ≠ j →
  apart g h ∨ same_union g h.
Proof.
  intros Hwf Hg Hh Hij. destruct (wf_desc e Hwf (layout_desc _ _ _ Hg)) as (_ & _ & Hp & _).
  destruct (decide (i < j)%nat).
  - exact (ord_pairs_lookup _ _ i j g h Hp Hg Hh ltac:(done)).
  - destruct (ord_pairs_lookup _ _ j i h g Hp Hh Hg ltac:(lia)); [left; by apply apart_sym|right; by apply same_union_sym].
Qed.

Lemma wf_tags_inj e i j g h :
  wf_descs descs → layout (desc e) !! i = Some g → layout (desc e) !! j = Some h →
  f_tag g.1 = f_tag h.1 → i = j.
Proof.
  intros Hwf Hg Hh Ht. destruct (wf_desc e Hwf (layout_desc _ _ _ Hg)) as (_ & Hnd & _).
  destruct g as [f p], h as [f' p']. apply layout_field in Hg, Hh. simpl in Ht.
  eapply NoDup_lookup; [exact Hnd|..]; rewrite list_lookup_fmap; [by rewrite Hg|by rewrite Hh, Ht].
Qed.

Lemma fits_range e n k g : msg_fits descs e n → layout (desc e) !! k = Some g → in_range n g.
Proof. intros Hf Hg. unfold msg_fits in Hf. rewrite Forall_lookup in Hf. by eapply Hf. Qed.

(** ** Fields, moved and changed *)

Lemma field_own_slot R tags f data slot slot' fp :
  (has_slot f = true → slot' = slot) → field_own R tags f data slot fp → field_own R tags f data slot' fp.
Proof.
  intros Hs Ho. assert (is_htype PB_HTYPE_REPEATED f = true ∨ is_htype PB_HTYPE_ONEOF f = true → slot' = slot) as Hs'.
  { intros [H|H]; apply Hs; unfold has_slot; rewrite H; [done|]. by rewrite orb_true_r. }
  inversion Ho; subst.
  - by apply own_single.
  - rewrite (Hs' ltac:(by left)). by eapply own_array.
  - rewrite (Hs' ltac:(by right)). by eapply own_oneof.
  - by apply own_ptr.
  - rewrite (Hs' ltac:(by left)). by eapply own_ptr_array.
  - rewrite (Hs' ltac:(by right)). by eapply own_ptr_oneof.
Qed.

(** The data and the slot of a field in the part of the block that is the struct. *)
Lemma fdata_read o n b g : in_range n g → fdata 0 (mem_read o n b) g = fdata o b g.
Proof.
  intros (_ & Hn & _). unfold fdata. rewrite mem_read_read by lia. f_equal.
Qed.

Lemma fslot_read o n b g :
  in_range n g → has_slot g.1 = true → fslot 0 (mem_read o n b) g = fslot o b g.
Proof.
  intros (_ & _ & Hs) Hg. destruct (Hs Hg) as (_ & Hlt & _). unfold fslot. by rewrite mem_read_lookup.
Qed.

Lemma msg_own_struct e o n b fp :
  msg_fits descs e n → msg_own descs e (mem_read o n b) fp ↔ ∃ fps, fp = concat fps ∧ struct_own e o b fps.
Proof.
  intros Hf. split.
  - intros [fps Hl Ho]. exists fps. split; [done|]. split; [done|]. intros k g fp' Hg Hfp.
    pose proof (fits_range _ _ _ _ Hf Hg) as Hr. specialize (Ho k g fp' Hg Hfp).
    rewrite (fdata_read o) in Ho by done. eapply field_own_slot; [|exact Ho].
    intros Hs. by rewrite (fslot_read o).
  - intros (fps & -> & Hl & Ho). constructor; [done|]. intros k g fp' Hg Hfp.
    pose proof (fits_range _ _ _ _ Hf Hg) as Hr. specialize (Ho k g fp' Hg Hfp).
    rewrite (fdata_read o) by done. eapply field_own_slot; [|exact Ho].
    intros Hs. by rewrite (fslot_read o).
Qed.

(** A change in the region of [g] leaves the fields that are apart as they are. *)
Lemma region_apart T o b b' g h :
  (∀ k, T k → region g.1 (o + dpos g.2) (o + spos g.1 g.2) k) →
  apart g h → same_off T b b' →
  fdata o b' h = fdata o b h ∧ (has_slot h.1 = true → fslot o b' h = fslot o b h).
Proof.
  intros HT (Hd & Hg & Hh & Hs) Ho. split.
  - apply (same_off_read _ _ _ _ _ Ho). intros k Hk Ht. apply HT in Ht as [Hr|[Hsl ->]]; unfold span in *; [lia|].
    specialize (Hg Hsl). lia.
  - intros Hsl. specialize (Hh Hsl). destruct Ho as [_ Ho]. apply Ho. intros Ht.
    apply HT in Ht as [Hr|[Hsl' He]]; unfold span in *; [lia|]. specialize (Hs Hsl' Hsl). lia.
Qed.

Lemma struct_update e o b b' fps k g fp' :
  wf_descs descs → struct_own e o b fps → layout (desc e) !! k = Some g →
  same_off (region g.1 (o + dpos g.2) (o + spos g.1 g.2)) b b' →
  field_own (msg_own descs) (union_tags (desc e) (spos g.1 g.2)) g.1 (fdata o b' g) (fslot o b' g) fp' →
  (∀ j h fp, j ≠ k → layout (desc e) !! j = Some h → fps !! j = Some fp → same_union g h →
     field_own (msg_own descs) (union_tags (desc e) (spos h.1 h.2)) h.1 (fdata o b' h) (fslot o b' h) fp) →
  struct_own e o b' (<[k := fp']> fps).
Proof.
  intros Hwf [Hl Hs] Hg Ho Hown Hu. split; [by rewrite length_insert|]. intros j h fp Hh Hfp.
  destruct (decide (j = k)) as [->|Hjk].
  - rewrite list_lookup_insert_eq in Hfp by (rewrite Hl; by eapply lookup_lt_Some). by simplify_eq.
  - rewrite list_lookup_insert_ne in Hfp by done.
    destruct (wf_pair e k j g h Hwf Hg Hh ltac:(done)) as [Ha|Ha]; [|by eapply Hu].
    destruct (region_apart (region g.1 (o + dpos g.2) (o + spos g.1 g.2)) o b b' g h) as [Hd Hsl]; [done..|].
    rewrite Hd. eapply field_own_slot; [|by eapply Hs]. done.
Qed.

(** The blocks of one field, out of those of the struct. *)
Lemma concat_take_drop (fps : list footprint) k fp :
  fps !! k = Some fp → concat fps ≡ₚ fp ++ concat (delete k fps).
Proof.
  intros Hk. rewrite (delete_Permutation _ _ _ Hk) at 1. done.
Qed.

Lemma concat_insert (fps : list footprint) k fp fp' :
  fps !! k = Some fp → concat (<[k := fp']> fps) ≡ₚ fp' ++ concat (delete k fps).
Proof.
  intros Hk. rewrite (concat_take_drop (<[k := fp']> fps) k fp').
  - by rewrite !delete_take_drop, take_insert_ge, drop_insert_lt by lia.
  - apply list_lookup_insert_eq. by eapply lookup_lt_Some.
Qed.

(** ** Iterators at a field *)

Definition at_field (it : pb_field_iter) (f : pb_field) (l : nat) (a s : nat) : Prop :=
  it_field it = f ∧ it_pData it = (l, Z.of_nat a) ∧
  (has_slot f = true → it_pSize it = (l, Z.of_nat s)).

(** The field is in the block, its slot outside of its data. *)
Definition room (b : block) (f : pb_field) (a s : nat) : Prop :=
  (a + dlen f <= length b)%nat ∧
  (has_slot f = true → s < length b ∧ (s < a ∨ a + dlen f <= s))%nat.

Lemma iter_at_field e n o l k g :
  msg_fits descs e n → layout (desc e) !! k = Some g →
  at_field (iter_at (desc e) (l, Z.of_nat o) k g.2) g.1 l (o + dpos g.2) (o + spos g.1 g.2).
Proof.
  intros Hf Hg. destruct (fits_range _ _ _ _ Hf Hg) as (Hp & _ & Hs). destruct g as [f p]. simpl in *.
  split; [by eapply iter_field|]. cbn [it_pData it_pSize iter_at].
  rewrite (field_at_layout _ _ _ _ Hg), padd_padd. unfold padd, dpos, spos. cbn [fst snd].
  split; [f_equal; lia|]. intros Hsl. destruct (Hs Hsl) as (H0 & _). f_equal. lia.
Qed.

Lemma iter_at_room e n o b k g :
  msg_fits descs e n → layout (desc e) !! k = Some g → (o + n <= length b)%nat →
  room b g.1 (o + dpos g.2) (o + spos g.1 g.2).
Proof.
  intros Hf Hg Hl. destruct (fits_range _ _ _ _ Hf Hg) as (_ & Hn & Hs).
  split; [lia|]. intros Hsl. destruct (Hs Hsl) as (_ & Hlt & Ho). lia.
Qed.

(** Only the data of the field changed. *)
Lemma span_slot f a s b b' :
  room b f a s → has_slot f = true → same_off (span a (dlen f)) b b' → b' !! s = b !! s.
Proof.
  intros [_ Hrs] Hsl [_ Ho]. apply Ho. destruct (Hrs Hsl). unfold span. lia.
Qed.

Lemma room_length b b' f a s : length b' = length b → room b f a s → room b' f a s.
Proof. unfold room. by intros ->. Qed.

Lemma region_span e n o k g :
  msg_fits descs e n → layout (desc e) !! k = Some g →
  ∀ i, region g.1 (o + dpos g.2) (o + spos g.1 g.2) i → span o n i.
Proof.
  intros Hf Hg i. destruct (fits_range _ _ _ _ Hf Hg) as (_ & Hn & Hs).
  unfold region, span. intros [?|[Hsl ->]]; [lia|]. destruct (Hs Hsl) as (_ & ? & _). lia.
Qed.

(** ** The loops over the fields of a struct *)

Lemma each_field_runs may_fail (f : pb_field_iter → M ()) e n o l i b fp (J : nat → block → footprint → Prop) :
  wf_descs descs → msg_fits descs e n → (o + n <= length b)%nat →
  (∀ k g b' fp', layout (desc e) !! k = Some g → length b' = length b → same_off (span o n) b b' → J k b' fp' →
     runs may_fail (f (iter_at (desc e) (l, Z.of_nat o) k g.2)) i l
       (region g.1 (o + dpos g.2) (o + spos g.1 g.2)) b' fp'
       (λ _ i' b'' fp'', i' = i ∧ J (S k) b'' fp'')) →
  J 0%nat b fp →
  runs may_fail (each_field f (desc e) (l, Z.of_nat o)) i l (span o n) b fp
    (λ _ i' b' fp', i' = i ∧ J (length (desc e)) b' fp').
Proof.
  intros Hwf Hfit Hroom Hf HJ. pose proof (wf_tags e Hwf) as Ht. unfold each_field.
  destruct (desc e) as [|f0 rest] eqn:E; [by apply runs_ret|]. rewrite <-E in *.
  destruct (layout_lookup (desc e) 0) as (g & p & Hg); [rewrite E; simpl; lia|].
  rewrite (iter_begin_spec _ _ _ _ Ht Hg).
  assert (∀ k fuel b' fp' g, layout (desc e) !! k = Some g → (k + fuel = length (desc e))%nat →
    length b' = length b → same_off (span o n) b b' → J k b' fp' →
    runs may_fail (each_field_loop fuel f (iter_at (desc e) (l, Z.of_nat o) k g.2)) i l (span o n) b' fp'
      (λ _ i' b' fp', i' = i ∧ J (length (desc e)) b' fp')) as Hloop.
  { intros k fuel. revert k. induction fuel as [|fuel IH]; intros k b' fp' [h q] Hh Hk Hlb Hoff HJk.
    - apply lookup_lt_Some in Hh. rewrite layout_length in Hh. lia.
    - cbn [each_field_loop]. eapply runs_bind.
      + eapply runs_weaken; [by apply (Hf k (h, q))|by eapply region_span|]. intros a i' b'' fp'' H _. exact H.
      + intros [] i' b'' fp'' [-> HJ'] Hoff'. cbn [snd].
        assert (length b'' = length b) as Hlb' by (rewrite <-Hlb; apply Hoff').
        destruct (iter_next_index (desc e) (l, Z.of_nat o) k h q Ht Hh) as (h' & q' & Hh' & Hn).
        rewrite Hn. unfold next_index in *.
        destruct (Nat.ltb_spec (S k) (length (desc e))).
        * apply (IH (S k) b'' fp'' (h', q')); [done|lia|done| |done]. by eapply same_off_trans.
        * apply runs_ret. split; [done|]. by replace (length (desc e)) with (S k) by lia. }
  apply (Hloop 0%nat (length (desc e)) b fp (g, p)); [done|lia|done|done|done].
Qed.

End Struct.
