(* ===== verification/PbPlace.v ===== *)
(** Facts about the types of fields, and where the parts of a field are: its
    data, the items of an array in the struct, its slot. *)

From S2P Require Import Prelude PbStream PbMem PbFields PbDecode PbShape PbRuns PbOwn.

Open Scope Z_scope.

(** ** Facts about types *)

Lemma htype_oneof_repeated f : is_htype PB_HTYPE_ONEOF f = true → is_htype PB_HTYPE_REPEATED f = false.
Proof. unfold is_htype. intros ->%Z.eqb_eq. done. Qed.

Lemma htype_optional f :
  is_htype PB_HTYPE_OPTIONAL f = true →
  is_htype PB_HTYPE_REPEATED f = false ∧ is_htype PB_HTYPE_ONEOF f = false.
Proof. unfold is_htype. intros ->%Z.eqb_eq. done. Qed.

Lemma htype_required f :
  is_htype PB_HTYPE_REQUIRED f = true →
  is_htype PB_HTYPE_OPTIONAL f = false ∧ is_htype PB_HTYPE_REPEATED f = false ∧
  is_htype PB_HTYPE_ONEOF f = false.
Proof. unfold is_htype. intros ->%Z.eqb_eq. done. Qed.

Lemma htype_cases f :
  is_htype PB_HTYPE_REQUIRED f = true ∨ is_htype PB_HTYPE_OPTIONAL f = true ∨
  is_htype PB_HTYPE_REPEATED f = true ∨ is_htype PB_HTYPE_ONEOF f = true.
Proof.
  unfold is_htype. rewrite !Z.eqb_eq. unfold PB_HTYPE. set (h := Z.land (f_type f) PB_HTYPE_MASK).
  assert (Z.land h PB_HTYPE_MASK = h) as Hh by (unfold h; by rewrite <-Z.land_assoc).
  assert (0 <= h < 64) as Hr.
  { assert (0 <= h) as H0 by (unfold h; apply Z.land_nonneg; by right).
    rewrite <-Hh, Z.land_comm. by apply (is_uint_land 6 PB_HTYPE_MASK h); [by_compute|..]. }
  assert (Forall (λ h, Z.land h PB_HTYPE_MASK = h → h = PB_HTYPE_REQUIRED ∨ h = PB_HTYPE_OPTIONAL ∨
    h = PB_HTYPE_REPEATED ∨ h = PB_HTYPE_ONEOF) (Z.of_nat <$> seq 0 64)) as HF by by_decide.
  rewrite Forall_forall in HF. apply HF; [|done]. apply list_elem_of_fmap. exists (Z.to_nat h).
  split; [lia|]. apply elem_of_seq. lia.
Qed.

Lemma atype_static f : is_atype PB_ATYPE_STATIC f = true → is_atype PB_ATYPE_POINTER f = false.
Proof. unfold is_atype. intros ->%Z.eqb_eq. done. Qed.

Lemma atype_pointer f : is_atype PB_ATYPE_POINTER f = true → is_atype PB_ATYPE_STATIC f = false.
Proof. unfold is_atype. intros ->%Z.eqb_eq. done. Qed.

Lemma dlen_single f :
  is_atype PB_ATYPE_STATIC f = true → is_htype PB_HTYPE_REPEATED f = false →
  dlen f = Z.to_nat (f_data_size f).
Proof. intros Ha Hh. unfold dlen, field_width. by rewrite Ha, Hh, (atype_static _ Ha). Qed.

Lemma dlen_pointer f : is_atype PB_ATYPE_POINTER f = true → dlen f = PTR_SIZE.
Proof. intros Ha. unfold dlen, field_width. rewrite (atype_pointer _ Ha), Ha. simpl. lia. Qed.

Lemma slot_repeated f : is_htype PB_HTYPE_REPEATED f = true → has_slot f = true.
Proof. unfold has_slot. by intros ->. Qed.

Lemma slot_oneof f : is_htype PB_HTYPE_ONEOF f = true → has_slot f = true.
Proof. unfold has_slot. intros ->. by rewrite orb_true_r. Qed.

Lemma slot_optional f :
  is_atype PB_ATYPE_STATIC f = true → is_htype PB_HTYPE_OPTIONAL f = true → has_slot f = true.
Proof. unfold has_slot. intros -> ->. by rewrite orb_true_r. Qed.

(** What a submessage field refers to. *)
Lemma wf_submsg descs e f :
  field_wf descs e f → is_ltype PB_LTYPE_SUBMESSAGE f = true →
  ∃ d, f_ptr f = FSubmsg d ∧ (d < length descs)%nat ∧ msg_fits descs d (Z.to_nat (f_data_size f)) ∧
    (is_atype PB_ATYPE_STATIC f = true → (d < e)%nat ∧
       (is_htype PB_HTYPE_REPEATED f = true → inert descs (length descs) d = true) ∧
       (is_htype PB_HTYPE_ONEOF f = true → ptr_free descs (length descs) d = true)).
Proof.
  intros (_ & _ & _ & _ & _ & _ & _ & _ & Hp & _) Hl.
  destruct (f_ptr f) as [|d|v]; [congruence| |destruct Hp; congruence].
  exists d. tauto.
Qed.

(** ** The parts of a field *)

Lemma padd_nat l a n : 0 <= n → padd (l, Z.of_nat a) n = (l, Z.of_nat (a + Z.to_nat n)).
Proof. intros. unfold padd. cbn [fst snd]. f_equal. lia. Qed.

Section Place.
Context (descs : list (list pb_field)) (e : nat) (f : pb_field) (Hf : field_wf descs e f) (l a s : nat).

(** The [k]-th item of a static array. *)
Lemma static_elem_addr k :
  0 <= k → padd (l, Z.of_nat a) (f_data_size f * k) = (l, Z.of_nat (a + Z.to_nat (f_data_size f) * Z.to_nat k)).
Proof using Hf.
  intros Hk. destruct Hf as (_ & Hds & _). rewrite padd_nat by lia. do 2 f_equal. lia.
Qed.

Lemma dlen_array :
  is_atype PB_ATYPE_STATIC f = true → is_htype PB_HTYPE_REPEATED f = true →
  dlen f = (Z.to_nat (f_data_size f) * Z.to_nat (f_array_size f))%nat.
Proof using Hf.
  intros Ha Hr. destruct Hf as (_ & Hds & Has & _). unfold dlen, field_width. rewrite Ha, Hr. cbn [andb]. lia.
Qed.

Lemma elem_region k :
  is_atype PB_ATYPE_STATIC f = true → is_htype PB_HTYPE_REPEATED f = true → 0 <= k < f_array_size f →
  ∀ j, span (a + Z.to_nat (f_data_size f) * Z.to_nat k) (Z.to_nat (f_data_size f)) j → region f a s j.
Proof using Hf.
  intros Ha Hr Hk j. pose proof (dlen_array Ha Hr). destruct Hf as (_ & Hds & Has & _).
  intros Hj. left. unfold span in *. nia.
Qed.

Lemma elem_room k (b : block) :
  is_atype PB_ATYPE_STATIC f = true → is_htype PB_HTYPE_REPEATED f = true → 0 <= k < f_array_size f →
  room b f a s → (a + Z.to_nat (f_data_size f) * Z.to_nat k + Z.to_nat (f_data_size f) <= length b)%nat.
Proof using Hf.
  intros Ha Hr Hk [Hra _]. pose proof (dlen_array Ha Hr). destruct Hf as (_ & Hds & Has & _). nia.
Qed.

Lemma elem_slot k (b b' : block) :
  is_atype PB_ATYPE_STATIC f = true → is_htype PB_HTYPE_REPEATED f = true → 0 <= k < f_array_size f →
  room b f a s →
  same_off (span (a + Z.to_nat (f_data_size f) * Z.to_nat k) (Z.to_nat (f_data_size f))) b b' → b' !! s = b !! s.
Proof using Hf.
  intros Ha Hr Hk [_ Hrs] [_ Ho]. apply Ho. intros Hj. pose proof (dlen_array Ha Hr).
  destruct (Hrs (slot_repeated f Hr)) as [_ Hs]. destruct Hf as (_ & Hds & Has & _). unfold span in Hj. nia.
Qed.

(** The [c]-th item of an allocated array. *)
Lemma next_elem_addr l' c :
  0 <= c → padd (l', 0) (f_data_size f * c) = (l', Z.of_nat (Z.to_nat c * Z.to_nat (f_data_size f))).
Proof using Hf. intros Hc. destruct Hf as (_ & Hds & _). unfold padd. cbn [fst snd]. f_equal. lia. Qed.

(** A write to the slot. *)
Lemma slot_write (v : memval) (b : block) :
  has_slot f = true → room b f a s →
  mem_read a (dlen f) (mem_write s [v] b) = mem_read a (dlen f) b ∧ mem_write s [v] b !! s = Some v ∧
  room (mem_write s [v] b) f a s.
Proof using.
  intros Hsl Hroom. pose proof Hroom as [Hra Hrs]. destruct (Hrs Hsl) as [Hsb Hso].
  split; [apply mem_read_write_disjoint; simpl; lia|]. split; [by apply lookup_write_one|].
  eapply room_length; [|exact Hroom]. rewrite mem_write_length; simpl; lia.
Qed.

(** A tag is a byte. *)
Lemma tag_u8 : u8 (f_tag f) = f_tag f.
Proof using Hf. destruct Hf as [? _]. apply uwrap_id. unfold is_uint. lia. Qed.

Lemma wf_not_oneof : is_htype PB_HTYPE_REPEATED f = true → is_htype PB_HTYPE_ONEOF f = false.
Proof using.
  intros Hr. apply not_true_is_false. intros Ho%htype_oneof_repeated. congruence.
Qed.

Lemma submsg_not_string : is_ltype PB_LTYPE_SUBMESSAGE f = true → is_string_or_bytes f = false.
Proof using.
  unfold is_string_or_bytes, is_ltype. by intros ->%Z.eqb_eq.
Qed.

Lemma packable_plain :
  is_packable f = true → is_ltype PB_LTYPE_SUBMESSAGE f = false ∧ is_string_or_bytes f = false.
Proof using.
  unfold is_packable, is_string_or_bytes, is_ltype. intros Hl%Z.leb_le.
  unfold PB_LTYPE_LAST_PACKABLE, PB_LTYPE_SUBMESSAGE, PB_LTYPE_STRING, PB_LTYPE_BYTES in *. by bool_cases.
Qed.

End Place.
