(* ===== verification/PbDefaults.v ===== *)
(** [pb_message_set_to_defaults] makes any memory of the right size a message
    that owns nothing: the structs in it recursively, the pointers null, the
    counts and the [which_] members zero. *)

From S2P Require Import Prelude PbStream PbMem PbFields PbDecode PbShape PbRuns PbOwn PbPlace.

Open Scope Z_scope.

Section Defaults.
Context (may_fail : bool) (descs : list (list pb_field)) (exts : list extension_type).
Context (Hwf : wf_descs descs).

Abbreviation desc := (descriptor descs).
Abbreviation own := (msg_own descs).

(** ** The default state *)

(** A member that the defaults initialise: a struct in its default state, or
    any value. *)
Inductive item_fresh (R : nat → block → Prop) (f : pb_field) (data : block) : Prop :=
| fresh_submsg d : is_ltype PB_LTYPE_SUBMESSAGE f = true → f_ptr f = FSubmsg d → R d data → item_fresh R f data
| fresh_plain : is_ltype PB_LTYPE_SUBMESSAGE f = false → item_fresh R f data.

Definition field_fresh (R : nat → block → Prop) (f : pb_field) (data : block) (slot : option memval) : Prop :=
  (has_slot f = true → slot = Some (MByte 0)) ∧
  (is_atype PB_ATYPE_POINTER f = true → data = ptr_bytes VNull) ∧
  (is_atype PB_ATYPE_STATIC f = true → is_htype PB_HTYPE_REPEATED f = false →
   is_htype PB_HTYPE_ONEOF f = false → item_fresh R f data).

(** The struct of descriptor [d] with contents [data] is in its default state. *)
Inductive fresh (d : nat) (data : block) : Prop :=
| fresh_intro :
    (∀ k g, layout (desc d) !! k = Some g → field_fresh fresh g.1 (fdata 0 data g) (fslot 0 data g)) →
    fresh d data.

Lemma field_fresh_slot R f data slot slot' :
  (has_slot f = true → slot' = slot) → field_fresh R f data slot → field_fresh R f data slot'.
Proof. intros Hs (H1 & H2 & H3). split; [|done]. intros Hsl. rewrite (Hs Hsl). auto. Qed.

Lemma fresh_struct e o n b :
  msg_fits descs e n → fresh e (mem_read o n b) ↔
  ∀ k g, layout (desc e) !! k = Some g → field_fresh fresh g.1 (fdata o b g) (fslot o b g).
Proof.
  intros Hfit. split.
  - intros [Hf] k g Hg. pose proof (fits_range _ _ _ _ _ Hfit Hg) as Hr. specialize (Hf k g Hg).
    rewrite (fdata_read o) in Hf by done. eapply field_fresh_slot; [|exact Hf]. intros Hs. by rewrite (fslot_read o).
  - intros Hf. constructor. intros k g Hg. pose proof (fits_range _ _ _ _ _ Hfit Hg) as Hr. specialize (Hf k g Hg).
    rewrite (fdata_read o) by done. eapply field_fresh_slot; [|exact Hf]. intros Hs. by rewrite (fslot_read o).
Qed.

(** A field in its default state owns nothing, if the structs in it do not. *)
Lemma fresh_field_own e tags f data slot :
  field_wf descs e f → (∀ d data, (d < e)%nat → fresh d data → own d data []) →
  field_fresh fresh f data slot → field_own own tags f data slot [].
Proof.
  intros Hf IH (Hs & Hp & Hi). pose proof Hf as (Htag & _ & Harr & _ & _ & Ha & _).
  destruct Ha as [Ha|Ha].
  - destruct (is_htype PB_HTYPE_REPEATED f) eqn:Er.
    { eapply own_array; [done|done|by apply Hs, slot_repeated|lia]. }
    destruct (is_htype PB_HTYPE_ONEOF f) eqn:Eo.
    { eapply own_oneof; [done|done|by apply Hs, slot_oneof|intros; lia|done]. }
    apply own_single; [done..|]. destruct (Hi Ha eq_refl eq_refl) as [d Hl Hd Hfr|Hl]; [|by apply item_plain].
    destruct (wf_submsg descs e f Hf Hl) as (d' & Hd' & _ & _ & Hst). destruct (Hst Ha) as [Hde _].
    assert (d' = d) as -> by congruence. eapply item_submsg; [done|done|]. by apply IH.
  - rewrite (Hp Ha). destruct (is_htype PB_HTYPE_REPEATED f) eqn:Er.
    { eapply (own_ptr_array _ _ _ _ _ 0); [done|done|by apply Hs, slot_repeated|unfold PB_SIZE_MAX; lia|constructor]. }
    destruct (is_htype PB_HTYPE_ONEOF f) eqn:Eo.
    { eapply (own_ptr_oneof _ _ _ _ _ 0 _ VNull); [done|done|by apply Hs, slot_oneof|intros; lia|].
      intros _. split; [done|]. split; [done|by left]. }
    apply own_ptr; [done..|constructor].
Qed.

Lemma fresh_own e : ∀ data, fresh e data → own e data [].
Proof.
  induction (lt_wf e) as [e _ IH]. intros data [Hf].
  assert ([] = concat (replicate (length (layout (desc e))) ([] : footprint))) as ->
    by (induction (length (layout (desc e))) as [|k IHk]; [done|]; simpl; by rewrite <-IHk).
  constructor; [by rewrite length_replicate|]. intros k g fp Hg Hfp. apply lookup_replicate in Hfp as [-> _].
  eapply fresh_field_own; [by eapply wf_field| |by eapply Hf]. intros d data' Hd. by apply IH.
Qed.

(** In a union, what holds of one member holds of the others. *)
Lemma fresh_union o b g h :
  same_union g h → field_fresh fresh g.1 (fdata o b g) (fslot o b g) →
  field_fresh fresh h.1 (fdata o b h) (fslot o b h).
Proof.
  intros (Hg & Hh & Hp & Hso & Ha) (Hs & Hd & _).
  assert (is_atype PB_ATYPE_POINTER h.1 = is_atype PB_ATYPE_POINTER g.1) as Hat
    by (unfold is_atype; by rewrite Ha).
  split; [|split].
  - intros _. unfold fslot, spos in *. rewrite <-Hp, <-Hso. by apply Hs, slot_oneof.
  - rewrite Hat. intros Hpt. specialize (Hd Hpt). unfold fdata in *. rewrite <-Hp, dlen_pointer by congruence.
    by rewrite dlen_pointer in Hd.
  - congruence.
Qed.

(** ** The functions *)

(** One field, on its data at [a] and its slot at [s]. *)
Definition field_default_spec (fuel : nat) : Prop :=
  ∀ e f it l a s b i, (e < fuel)%nat → field_wf descs e f → at_field it f l a s → room b f a s →
    runs may_fail (set_field_at descs exts fuel it) i l (region f a s) b []
      (λ _ i' b' fp', i' = i ∧ fp' = [] ∧ field_fresh fresh f (mem_read a (dlen f) b') (b' !! s)).

Lemma message_default fuel e n o l b i :
  field_default_spec fuel → (e < fuel)%nat → msg_fits descs e n → (o + n <= length b)%nat →
  runs may_fail (pb_message_set_to_defaults_with descs (set_field_at descs exts fuel) e (l, Z.of_nat o)) i l
    (span o n) b [] (λ _ i' b' fp', i' = i ∧ fp' = [] ∧ fresh e (mem_read o n b')).
Proof.
  intros Hfield He Hfit Hroom. unfold pb_message_set_to_defaults_with.
  eapply runs_conseq.
  - apply (each_field_runs descs _ _ e n o l i b []
      (λ k b' fp', fp' = [] ∧ ∀ j h, (j < k)%nat → layout (desc e) !! j = Some h →
         field_fresh fresh h.1 (fdata o b' h) (fslot o b' h))); [done..| |split; [done|lia]].
    intros k g b' fp' Hg Hlb _ [-> Hdone].
    eapply runs_conseq.
    + apply (Hfield e g.1); [done|by eapply wf_field|by eapply iter_at_field|].
      eapply room_length; [exact Hlb|]. by eapply iter_at_room.
    + intros [] i' b'' fp'' (-> & -> & Hdef) Hoff. split; [done|]. split; [done|].
      intros j h Hj Hh. destruct (decide (j = k)) as [->|Hjk]; [by simplify_eq|].
      destruct (wf_pair descs e k j g h Hwf Hg Hh ltac:(done)) as [Ha|Ha].
      * destruct (region_apart (region g.1 (o + dpos g.2) (o + spos g.1 g.2)) o b' b'' g h) as [Hd Hsl]; [done..|].
        destruct (Hdone j h ltac:(lia) Hh) as (H1 & H2 & H3). split; [|split].
        -- intros Hr. rewrite Hsl by done. by apply H1.
        -- rewrite Hd. done.
        -- rewrite Hd. done.
      * by apply (fresh_union o b'' g).
  - intros [] i' b' fp' (-> & -> & Hdef) _. split; [done|]. split; [done|].
    apply (fresh_struct e o n b' Hfit). intros k g Hg. eapply Hdef; [|done].
    apply lookup_lt_Some in Hg. by rewrite layout_length in Hg.
Qed.

Lemma field_default fuel : field_default_spec fuel.
Proof.
  induction fuel as [|fuel IH]; intros e f it l a s b i He Hf (Hit & HpD & HpS) [Hra Hrs]; [lia|].
  pose proof Hf as (Htag & Hds & Harr & Hlt & Hext & Hat & H32 & H64 & Hptr & Hpt).
  cbn [set_field_at]. unfold pb_field_set_to_default_with. rewrite Hit, Hext, HpD.
  (* writing a zero into the slot, then more *)
  assert (∀ (k : M ()) Q, has_slot f = true →
    (∀ b', length b' = length b → b' !! s = Some (MByte 0) → runs may_fail k i l (region f a s) b' [] Q) →
    runs may_fail (st_u8 (it_pSize it) 0 ;;; k) i l (region f a s) b [] Q) as Hslot.
  { intros k Q Hsl Hk. rewrite (HpS Hsl). destruct (Hrs Hsl) as [Hsb _]. eapply runs_bind.
    - apply (runs_st_u8 _ s 0 i l _ b [] (λ _ i' b' fp', i' = i ∧ fp' = [] ∧ length b' = length b ∧ b' !! s = Some (MByte 0)));
        [done|by right|]. do 2 (split; [done|]). split; [by apply mem_write_length; simpl; lia|by apply lookup_write_one].
    - intros [] i' b' fp' (-> & -> & Hl' & Hs') _. by apply Hk. }
  destruct Hat as [Ha|Ha].
  - rewrite Ha.
    set (init_data := match f_ptr f with FNull => _ | FSubmsg d => _ | FDefault v => _ end).
    assert (∀ b', length b' = length b → is_htype PB_HTYPE_REPEATED f = false → is_htype PB_HTYPE_ONEOF f = false →
      (has_slot f = true → b' !! s = Some (MByte 0)) →
      runs may_fail init_data i l (region f a s) b' []
        (λ _ i' b' fp', i' = i ∧ fp' = [] ∧ field_fresh fresh f (mem_read a (dlen f) b') (b' !! s))) as Hinit.
    { intros b' Hlb Hr Ho Hz. pose proof (dlen_single f Ha Hr) as Hd.
      apply (runs_weaken _ _ i l (span a (dlen f)) _ b' []
        (λ _ i' b' fp', i' = i ∧ fp' = [] ∧ item_fresh fresh f (mem_read a (dlen f) b'))); [|by left|].
      2: { intros [] i' b'' fp' (-> & -> & Hi) Hoff. do 2 (split; [done|]). split; [|split; [|done]].
           - intros Hsl. rewrite (span_slot f a s b' b''); [by apply Hz| |done|done].
             eapply room_length; [exact Hlb|done].
           - intros Hp. apply atype_pointer in Hp. congruence. }
      assert (∀ vs, length vs = Z.to_nat (f_data_size f) → is_ltype PB_LTYPE_SUBMESSAGE f = false →
        runs may_fail (st (l, Z.of_nat a) vs) i l (span a (dlen f)) b' []
          (λ _ i' b' fp', i' = i ∧ fp' = [] ∧ item_fresh fresh f (mem_read a (dlen f) b'))) as Hst.
      { intros vs Hvs Hns. apply runs_st; [rewrite Hvs, Hlb; lia| |].
        - intros k Hk. by rewrite Hd, <-Hvs.
        - do 2 (split; [done|]). by apply fresh_plain. }
      unfold init_data. destruct (f_ptr f) as [|d|v] eqn:E.
      - rewrite Hptr. apply Hst; [by rewrite length_replicate|done].
      - destruct Hptr as (Hsub & _ & Hfit & Hst'). rewrite Hsub. destruct (Hst' Ha) as (Hde & _).
        eapply runs_weaken.
        + apply (message_default fuel d (Z.to_nat (f_data_size f)) a l b' i IH); [lia|done|rewrite Hlb; lia].
        + intros k Hk. by rewrite Hd.
        + intros [] i' b'' fp' (-> & -> & Ho') _. do 2 (split; [done|]).
          rewrite Hd. by eapply fresh_submsg.
      - destruct Hptr as [Hns Hv]. rewrite Hns. bool_cases. apply Hst; [|done].
        rewrite length_fmap, length_take. lia. }
    destruct (is_htype PB_HTYPE_OPTIONAL f) eqn:Eopt.
    { destruct (htype_optional _ Eopt). apply Hslot; [by apply slot_optional|]. intros b' Hl' Hz. by apply Hinit. }
    destruct (is_htype PB_HTYPE_REPEATED f || is_htype PB_HTYPE_ONEOF f) eqn:Ero.
    { assert (has_slot f = true) as Hsl by (unfold has_slot; by rewrite Ero).
      rewrite (HpS Hsl). destruct (Hrs Hsl) as [Hsb _]. apply runs_st_u8; [done|by right|].
      do 2 (split; [done|]). split; [intros _; by apply lookup_write_one|].
      split; [intros Hp; apply atype_pointer in Hp; congruence|].
      intros _ Hr Ho. rewrite Hr, Ho in Ero. done. }
    apply orb_false_iff in Ero as [Hr Ho]. apply Hinit; [done|done|done|].
    unfold has_slot. by rewrite Hr, Ho, Eopt, andb_false_r.
  - rewrite (atype_pointer _ Ha), Ha. pose proof (dlen_pointer f Ha) as Hd.
    eapply runs_bind.
    { apply (runs_st _ a (ptr_bytes VNull) i l _ b [] (λ _ i' b' fp',
        i' = i ∧ fp' = [] ∧ length b' = length b ∧ mem_read a (dlen f) b' = ptr_bytes VNull)).
      - rewrite length_ptr_bytes. lia.
      - intros k Hk. left. by rewrite Hd.
      - do 2 (split; [done|]). rewrite Hd. split; [apply mem_write_length|apply mem_read_write; [|done]];
          rewrite ?length_ptr_bytes; lia. }
    intros [] i' b' fp' (-> & -> & Hl' & Hd') _. cbv beta.
    assert (∀ b'' : block, mem_read a (dlen f) b'' = ptr_bytes VNull →
      (has_slot f = true → b'' !! s = Some (MByte 0)) → field_fresh fresh f (mem_read a (dlen f) b'') (b'' !! s)) as Hdef.
    { intros b'' Hn Hz. split; [done|]. split; [done|]. intros Hst. apply atype_static in Hst. congruence. }
    destruct (is_htype PB_HTYPE_REPEATED f || is_htype PB_HTYPE_ONEOF f) eqn:Ero.
    + assert (has_slot f = true) as Hsl by (unfold has_slot; by rewrite Ero).
      rewrite (HpS Hsl). destruct (Hrs Hsl) as [Hsb Hso]. apply runs_st_u8; [lia|by right|].
      do 2 (split; [done|]). apply Hdef; [|intros _; apply lookup_write_one; lia].
      rewrite mem_read_write_disjoint; [done|simpl; lia|simpl; lia].
    + apply runs_ret. do 2 (split; [done|]). apply Hdef; [done|].
      unfold has_slot. by rewrite Ero, (atype_pointer _ Ha).
Qed.

(** Any memory becomes a message in its default state, which owns no blocks. *)
Lemma set_to_defaults_fresh e n o l b i :
  (e < length descs)%nat → msg_fits descs e n → (o + n <= length b)%nat →
  runs may_fail (pb_message_set_to_defaults descs exts e (l, Z.of_nat o)) i l (span o n) b []
    (λ _ i' b' fp', i' = i ∧ fp' = [] ∧ fresh e (mem_read o n b')).
Proof. intros. apply message_default; [apply field_default|lia|done|done]. Qed.

Lemma set_to_defaults_runs e n o l b i :
  (e < length descs)%nat → msg_fits descs e n → (o + n <= length b)%nat →
  runs may_fail (pb_message_set_to_defaults descs exts e (l, Z.of_nat o)) i l (span o n) b []
    (λ _ i' b' fp', i' = i ∧ fp' = [] ∧ own e (mem_read o n b') []).
Proof.
  intros. eapply runs_conseq; [by apply set_to_defaults_fresh|].
  intros [] i' b' fp' (-> & -> & Hf) _. do 2 (split; [done|]). by apply fresh_own.
Qed.

End Defaults.
