(* ===== verification/PbRelease.v ===== *)
(** [pb_release] frees every block a message owns, each of them once, and
    nothing else: it is defined on every well-shaped message, whatever its
    depth, and leaves one that owns nothing. *)

From S2P Require Import Prelude PbStream PbMem PbFields PbDecode PbShape PbRuns PbOwn PbPlace PbDefaults.

Open Scope Z_scope.

Section Release.
Context (descs : list (list pb_field)) (exts : list extension_type).
Context (Hwf : wf_descs descs).

Abbreviation desc := (descriptor descs).
Abbreviation own := (msg_own descs).
Abbreviation N := (length descs).

(** ** Structs of which nothing is read *)

Lemma inert_field k d f e :
  inert descs (S k) d = true → f ∈ desc d → is_ltype PB_LTYPE_SUBMESSAGE f = true → f_ptr f = FSubmsg e →
  is_atype PB_ATYPE_STATIC f = true ∧ is_htype PB_HTYPE_REPEATED f = false ∧ inert descs k e = true.
Proof.
  intros Hi Hf Hl Hp. cbn [inert] in Hi. rewrite forallb_forall in Hi. apply list_elem_of_In in Hf.
  specialize (Hi f Hf). rewrite Hl, Hp in Hi. simpl in Hi.
  apply andb_true_iff in Hi as [[Ha _]%andb_true_iff [Hr Hi]%andb_true_iff].
  by apply negb_true_iff in Hr.
Qed.

Lemma inert_static k d f :
  inert descs k d = true → f ∈ desc d → is_atype PB_ATYPE_STATIC f = true ∧ is_htype PB_HTYPE_ONEOF f = false.
Proof.
  intros Hi Hf. destruct k as [|k]; [done|]. cbn [inert] in Hi. rewrite forallb_forall in Hi.
  apply list_elem_of_In in Hf. specialize (Hi f Hf).
  apply andb_true_iff in Hi as [[Ha Ho]%andb_true_iff _]. by apply negb_true_iff in Ho.
Qed.

(** Releasing an inert struct does nothing. *)
Lemma inert_release fuel : ∀ k e o n l b i fp,
  inert descs k e = true → (e < fuel)%nat → msg_fits descs e n → (o + n <= length b)%nat →
  runs (no_pointer_arrays descs) (pb_release_with descs (release_at descs exts fuel) e (l, Z.of_nat o)) i l (span o n) b fp
    (λ _ i' b' fp', i' = i ∧ b' = b ∧ fp' = fp).
Proof.
  induction fuel as [|fuel IH]; intros k e o n l b i fp Hi He Hfit Hroom; [lia|].
  unfold pb_release_with. eapply runs_conseq.
  - apply (each_field_runs descs _ _ e n o l i b fp (λ _ b' fp', b' = b ∧ fp' = fp)); [done..| |done].
    intros j g b' fp' Hg _ _ [-> ->].
    pose proof (wf_field descs e j g Hwf Hg) as Hf.
    destruct (iter_at_field descs e n o l j g Hfit Hg) as (Hit & HpD & _).
    pose proof (iter_at_room descs e n o b j g Hfit Hg Hroom) as [Hra _].
    assert (g.1 ∈ desc e) as Hin.
    { destruct g as [f p]. apply layout_field in Hg. by apply list_elem_of_lookup_2 in Hg. }
    destruct (inert_static k e g.1 Hi Hin) as [Ha Ho].
    cbn [release_at]. unfold pb_release_single_field_with. rewrite Hit, Ho.
    destruct Hf as (_ & _ & _ & _ & Hext & Hf).
    eapply runs_bind with (Q := λ _ i' b' fp', i' = i ∧ b' = b ∧ fp' = fp).
    2: { intros [] i' b' fp' (-> & -> & ->) _. unfold release_pointer. rewrite Hit, (atype_static _ Ha).
         by apply runs_ret. }
    unfold release_contents. rewrite Hit, Hext.
    destruct (is_ltype PB_LTYPE_SUBMESSAGE g.1) eqn:El; [|by apply runs_ret].
    destruct (wf_submsg descs e g.1 (wf_field descs e j g Hwf Hg) El) as (d & Hp & Hd & Hfit' & Hst).
    destruct (Hst Ha) as (Hde & _). destruct k as [|k]; [done|].
    destruct (inert_field k e g.1 d Hi Hin El Hp) as (_ & Hr & Hi').
    rewrite (atype_static _ Ha), Hr, Hp, HpD. cbn [fst snd].
    pose proof (dlen_single g.1 Ha Hr) as Hdl.
    do 2 apply runs_seq, runs_ret. apply runs_seq, runs_deref.
    change (Z.to_nat 1) with 1%nat. cbn [release_items].
    eapply runs_bind.
    + eapply runs_weaken.
      * apply (IH k d (o + dpos g.2)%nat (Z.to_nat (f_data_size g.1)) l b i fp Hi'); [lia|done|]. rewrite <-Hdl. lia.
      * intros q Hq. left. by rewrite Hdl.
      * intros a i' b' fp' H _. exact H.
    + intros [] i' b' fp' (-> & -> & ->) _. by apply runs_ret.
  - intros [] i' b' fp' (-> & -> & ->) _. done.
Qed.

(** ** Allocated arrays *)

(** The blocks of the items from [k] on. *)
Lemma drop_concat (fps : list footprint) k fp :
  fps !! k = Some fp → concat (drop k fps) = fp ++ concat (drop (S k) fps).
Proof. intros Hk. by rewrite (drop_S _ _ _ Hk). Qed.

Lemma concat_nth_length (fps : list footprint) k fp :
  fps !! k = Some fp → (length fp <= length (concat fps))%nat.
Proof. intros Hk. rewrite (concat_take_drop fps k fp Hk), length_app. lia. Qed.

(** A change before an item or after it leaves it as it is. *)
Lemma elem_same_off f k j (b b' : block) :
  k ≠ j → same_off (span (j * Z.to_nat (f_data_size f)) (Z.to_nat (f_data_size f))) b b' →
  elem f k b' = elem f k b.
Proof.
  intros Hkj Ho. apply (same_off_read _ _ _ _ _ Ho). intros i. unfold span. nia.
Qed.

Lemma elem_end (b : block) f n k :
  0 < f_data_size f → Z.of_nat n * f_data_size f <= zlen b → (k < n)%nat →
  (k * Z.to_nat (f_data_size f) + Z.to_nat (f_data_size f) <= length b)%nat.
Proof. intros. nia. Qed.

Lemma elem_addr l f k :
  0 < f_data_size f →
  padd (l, Z.of_nat (k * Z.to_nat (f_data_size f))) (f_data_size f) =
  (l, Z.of_nat (S k * Z.to_nat (f_data_size f))).
Proof. intros. unfold padd. cbn [fst snd]. f_equal. lia. Qed.

(** One level of the recursion. *)
Definition message_release_spec (fuel : nat) : Prop :=
  ∀ e o n l b i fp, (length fp * S N + e < fuel)%nat → (e < N)%nat → msg_fits descs e n →
    (o + n <= length b)%nat → own e (mem_read o n b) fp →
    runs (no_pointer_arrays descs) (pb_release_with descs (release_at descs exts fuel) e (l, Z.of_nat o)) i l (span o n) b fp
      (λ _ i' b' fp', i' = i ∧ fp' = [] ∧ own e (mem_read o n b') []).

(** [while (count--) { pb_release(ptr, pItem); pItem += data_size; }] *)
Lemma release_items_runs fuel f d l i fps : ∀ c k b,
  message_release_spec fuel → (S (length (concat fps)) * S N <= fuel)%nat → (d < N)%nat →
  msg_fits descs d (Z.to_nat (f_data_size f)) → 0 < f_data_size f →
  zlen fps * f_data_size f <= zlen b → (k + c = length fps)%nat →
  (∀ j fp, (k <= j)%nat → fps !! j = Some fp → own d (elem f j b) fp) →
  runs (no_pointer_arrays descs) (release_items descs (release_at descs exts fuel) c d (f_data_size f)
    (l, Z.of_nat (k * Z.to_nat (f_data_size f)))) i l (λ _, True) b (concat (drop k fps))
    (λ _ i' b' fp', i' = i ∧ fp' = []).
Proof.
  intros c. induction c as [|c IH]; intros k b Hmsg Hfuel Hd Hfit Hds Hroom Hk Hown.
  { cbn [release_items]. apply runs_ret. rewrite drop_ge by lia. done. }
  destruct (lookup_lt_is_Some_2 fps k) as [fp Hfp]; [lia|].
  pose proof (elem_end b f (length fps) k Hds Hroom ltac:(lia)) as He.
  pose proof (concat_nth_length _ _ _ Hfp).
  cbn [release_items]. rewrite (drop_concat _ _ _ Hfp). eapply runs_bind.
  - eapply runs_weaken; [apply runs_frame, (Hmsg d (k * Z.to_nat (f_data_size f))%nat (Z.to_nat (f_data_size f))); try done| |].
    + nia.
    + by apply Hown.
    + done.
    + intros a i' b' fp' Hq Ho. exact (conj Hq Ho).
  - intros [] i' b' fp' ((fp0 & -> & -> & -> & _) & Ho) _. cbn [app]. rewrite elem_addr by done.
    apply IH; try done; [destruct Ho as [-> _]; done|lia|].
    intros j fp' Hj Hfp'. rewrite (elem_same_off f j k b b') by (done || lia). apply Hown; [lia|done].
Qed.

(** [while (count--) { pb_free( *pItem); *pItem++ = NULL; }] *)
Lemma free_items_runs f l i fps : ∀ c k b,
  f_data_size f = Z.of_nat PTR_SIZE → is_string_or_bytes f = true →
  zlen fps * f_data_size f <= zlen b → (k + c = length fps)%nat →
  (∀ j fp, (k <= j)%nat → fps !! j = Some fp → elem_own own f (elem f j b) fp) →
  runs (no_pointer_arrays descs) (free_items c (l, Z.of_nat (k * Z.to_nat (f_data_size f)))) i l (λ _, True) b
    (concat (drop k fps)) (λ _ i' b' fp', i' = i ∧ fp' = []).
Proof.
  intros c. induction c as [|c IH]; intros k b Hds Hsb Hroom Hk Hown.
  { cbn [free_items]. apply runs_ret. rewrite drop_ge by lia. done. }
  destruct (lookup_lt_is_Some_2 fps k) as [fp Hfp]; [lia|].
  assert (f_data_size f = 8) as Hds8 by done.
  pose proof (elem_end b f (length fps) k ltac:(lia) Hroom ltac:(lia)) as He.
  assert (Z.to_nat (f_data_size f) = PTR_SIZE) as Hps by (rewrite Hds8; done).
  cbn [free_items]. rewrite (drop_concat _ _ _ Hfp).
  pose proof (Hown k fp ltac:(lia) Hfp) as Hel. inversion Hel as [p bs _ How Hp| ]; subst; [|congruence].
  apply runs_seq. apply (runs_ld_ptr _ _ p); [lia| |].
  { unfold elem in Hp. by rewrite Hps in Hp at 2. }
  apply runs_seq. apply runs_free; [done|].
  apply runs_seq. apply runs_st; [rewrite length_ptr_bytes; lia|done|].
  rewrite <-Hds, elem_addr by lia. apply IH; try done.
  - rewrite mem_write_length; [done|]. rewrite length_ptr_bytes. lia.
  - lia.
  - intros j fp' Hj Hfp'. rewrite (elem_same_off f j k b); [apply Hown; [lia|done]|lia|].
    apply same_off_write; [rewrite length_ptr_bytes; lia|]. intros q. by rewrite length_ptr_bytes, Hps.
Qed.

(** A static array of inert structs. *)
Lemma inert_items_runs fuel d f l a i fp b : ∀ c k m,
  inert descs N d = true → (d < fuel)%nat → msg_fits descs d (Z.to_nat (f_data_size f)) →
  0 < f_data_size f → (a + m * Z.to_nat (f_data_size f) <= length b)%nat → (k + c <= m)%nat →
  runs (no_pointer_arrays descs) (release_items descs (release_at descs exts fuel) c d (f_data_size f)
    (l, Z.of_nat (a + k * Z.to_nat (f_data_size f)))) i l
    (span a (m * Z.to_nat (f_data_size f))) b fp (λ _ i' b' fp', i' = i ∧ b' = b ∧ fp' = fp).
Proof.
  intros c. induction c as [|c IH]; intros k m Hi Hd Hfit Hds Hroom Hk; [by apply runs_ret|].
  cbn [release_items]. eapply runs_bind.
  - eapply runs_weaken; [apply (inert_release fuel N d _ (Z.to_nat (f_data_size f))); try done; nia| |].
    + intros q. unfold span. nia.
    + intros x i' b' fp' H _. exact H.
  - intros [] i' b' fp' (-> & -> & ->) _.
    replace (padd _ _) with (l, Z.of_nat (a + S k * Z.to_nat (f_data_size f))); [by apply IH; lia || done|].
    unfold padd. cbn [fst snd]. f_equal. lia.
Qed.

(** ** Single fields *)

Section Field.
Context (fuel : nat) (Hmsg : message_release_spec fuel).
Context (e : nat) (f : pb_field) (it : pb_field_iter) (l a s : nat) (i : istream).
Context (He : (e < N)%nat) (Hf : field_wf descs e f) (Hat : at_field it f l a s).

Abbreviation contents := (release_contents descs exts (release_at descs exts fuel) it).

Lemma not_extension : is_ltype PB_LTYPE_EXTENSION f = false.
Proof. by destruct Hf as (_ & _ & _ & _ & H & _). Qed.

Lemma data_size_pos : 0 < f_data_size f.
Proof. by destruct Hf as (_ & [? _] & _). Qed.

(** A value stored in place. *)
Lemma contents_static b fp :
  is_atype PB_ATYPE_STATIC f = true → is_htype PB_HTYPE_REPEATED f = false →
  room b f a s → item_own own f (mem_read a (dlen f) b) fp → (length fp * S N + e <= fuel)%nat →
  runs (no_pointer_arrays descs) contents i l (span a (dlen f)) b fp
    (λ _ i' b' fp', i' = i ∧ fp' = [] ∧ item_own own f (mem_read a (dlen f) b') []).
Proof using Hmsg He Hf Hat.
  intros Ha Hr [Hra _] Hown Hfuel. destruct Hat as (Hit & HpD & _).
  unfold release_contents. rewrite Hit, not_extension, HpD, (atype_static _ Ha), Hr. clear Hit.
  pose proof (dlen_single f Ha Hr) as Hd. inversion Hown as [d fp' Hl Hp Ho|Hl]; subst; rewrite Hl.
  - destruct (wf_submsg descs e f Hf Hl) as (d' & Hp' & Hdn & Hfit & Hst).
    assert (d' = d) as -> by congruence. destruct (Hst Ha) as (Hde & _). rewrite Hp, Hd in *. do 2 apply runs_seq, runs_ret.
    apply runs_seq, runs_deref. change (Z.to_nat 1) with 1%nat. cbn [release_items fst snd]. eapply runs_bind.
    + apply (Hmsg d a (Z.to_nat (f_data_size f)) l b i fp); done || lia.
    + intros [] i' b' fp' (-> & -> & Ho') _. apply runs_ret. do 2 (split; [done|]). by eapply item_submsg.
  - apply runs_ret. do 2 (split; [done|]). by apply item_plain.
Qed.

(** A static array: nothing of it is read. *)
Lemma contents_array b c :
  is_atype PB_ATYPE_STATIC f = true → is_htype PB_HTYPE_REPEATED f = true →
  room b f a s → b !! s = Some (MByte c) → 0 <= c <= f_array_size f → (e <= fuel)%nat →
  runs (no_pointer_arrays descs) contents i l (span a (dlen f)) b [] (λ _ i' b' fp', i' = i ∧ b' = b ∧ fp' = []).
Proof using He Hf Hat Hwf.
  intros Ha Hr [Hra Hrs] Hc Hcr Hfuel. destruct Hat as (Hit & HpD & HpS).
  rewrite (slot_repeated f Hr) in HpS. specialize (HpS eq_refl).
  assert (dlen f = Z.to_nat (f_array_size f) * Z.to_nat (f_data_size f))%nat as Hd.
  { unfold dlen, field_width. rewrite Ha, Hr. simpl. pose proof data_size_pos. lia. }
  unfold release_contents. rewrite Hit, not_extension, HpD, (atype_static _ Ha), Hr, HpS.
  destruct (is_ltype PB_LTYPE_SUBMESSAGE f) eqn:El; [|by apply runs_ret].
  destruct (wf_submsg descs e f Hf El) as (d & Hp & Hdn & Hfit & Hst).
  destruct (Hst Ha) as (Hde & Hin & _). rewrite Hp. apply runs_seq, runs_ret.
  apply runs_seq, runs_seq, (runs_ld_u8 _ s c); [done|]. rewrite Ha. simpl.
  destruct (Z.ltb_spec (f_array_size f) c); [lia|]. apply runs_ret, runs_seq, runs_deref. cbn [fst snd].
  rewrite Hd in *. replace (Z.of_nat a) with (Z.of_nat (a + 0 * Z.to_nat (f_data_size f))) by lia.
  apply inert_items_runs; [by apply Hin|lia|done|apply data_size_pos|lia|lia].
Qed.

(** An allocated value: the block and those it owns. *)
Lemma release_ptr b fp :
  is_atype PB_ATYPE_POINTER f = true → is_htype PB_HTYPE_REPEATED f = false →
  room b f a s → ptr_own own f (mem_read a (dlen f) b) fp → (length fp * S N <= fuel)%nat →
  runs (no_pointer_arrays descs) (contents ;;; release_pointer it) i l (span a (dlen f)) b fp
    (λ _ i' b' fp', i' = i ∧ fp' = [] ∧ mem_read a (dlen f) b' = ptr_bytes VNull).
Proof using Hmsg He Hf Hat.
  intros Ha Hr [Hra _] Hown Hfuel. destruct Hat as (Hit & HpD & _).
  rewrite (dlen_pointer f Ha) in *.
  (* the pointer is freed at the end *)
  assert (∀ p bs, mem_read a PTR_SIZE b = ptr_bytes p → owns p bs →
    runs (no_pointer_arrays descs) (release_pointer it) i l (span a PTR_SIZE) b bs
      (λ _ i' b' fp', i' = i ∧ fp' = [] ∧ mem_read a PTR_SIZE b' = ptr_bytes VNull)) as Hend.
  { intros p bs Hp Ho. unfold release_pointer. rewrite Hit, Ha, Hr, HpD. cbn [andb].
    do 2 apply runs_seq, runs_ret. apply runs_seq, (runs_ld_ptr _ a p); [done|done|].
    rewrite <-(app_nil_r bs). apply runs_seq, runs_free; [done|].
    apply runs_st; [by rewrite length_ptr_bytes|by rewrite length_ptr_bytes|].
    do 2 (split; [done|]). by apply mem_read_write. }
  unfold release_contents. rewrite Hit, not_extension, HpD, Ha, Hr. clear Hit.
  destruct (is_ltype PB_LTYPE_SUBMESSAGE f) eqn:El.
  2: { apply runs_seq, runs_ret. inversion Hown as [Hn|l2 b2 Hs Hn|l2 b2 fp2 Hs Hl2 Hi Hn]; subst.
       - apply (Hend VNull); [done|by left].
       - apply (Hend (VLoc l2 0)); [done|]. right. eauto.
       - inversion Hi; subst; [congruence|]. apply (Hend (VLoc l2 0)); [done|]. right. eauto. }
  destruct (wf_submsg descs e f Hf El) as (d & Hp & Hdn & Hfit & _). rewrite Hp.
  assert (is_string_or_bytes f = false) as Hsb.
  { unfold is_ltype in El. unfold is_string_or_bytes, is_ltype. by apply Z.eqb_eq in El as ->. }
  inversion Hown as [Hn|l2 b2 Hs Hn|l2 b2 fp2 Hs Hl2 Hi Hn]; subst.
  - apply runs_seq, runs_seq, (runs_ld_ptr _ a VNull); [done|done|].
    apply runs_seq, runs_ret, runs_ret. apply (Hend VNull); [done|by left].
  - congruence.
  - inversion Hi as [d' fp' _ Hp' Ho|]; subst; [|congruence].
    assert (d' = d) as -> by congruence.
    apply runs_seq, runs_seq, (runs_ld_ptr _ a (VLoc l2 0)); [done|done|].
    apply runs_seq, runs_ret, runs_seq, runs_deref. change (Z.to_nat 1) with 1%nat. cbn [release_items].
    eapply runs_bind.
    + apply runs_inside. apply (Hmsg d 0%nat (Z.to_nat (f_data_size f)) l2 b2 i fp2); try done; try (simpl in Hfuel; lia).
      rewrite <-Hl2, Nat2Z.id, mem_read_whole. done.
    + intros [] i' b' fp' (-> & b2' & fp2' & -> & _ & -> & -> & _) _. apply runs_ret.
      apply (Hend (VLoc l2 0)); [done|]. right. eauto.
Qed.

(** An allocated array, with what its items own. *)
Lemma release_arr b fp c :
  is_atype PB_ATYPE_POINTER f = true → is_htype PB_HTYPE_REPEATED f = true →
  room b f a s → b !! s = Some (MByte c) → arr_own own f (mem_read a (dlen f) b) c fp →
  (length fp * S N <= fuel)%nat →
  runs (no_pointer_arrays descs) (contents ;;; release_pointer it) i l (region f a s) b fp
    (λ _ i' b' fp', i' = i ∧ fp' = [] ∧ mem_read a (dlen f) b' = ptr_bytes VNull ∧ b' !! s = Some (MByte 0)).
Proof using Hmsg He Hf Hat.
  intros Ha Hr [Hra Hrs] Hc Hown Hfuel. destruct Hat as (Hit & HpD & HpS).
  pose proof (slot_repeated f Hr) as Hsl. specialize (HpS Hsl). destruct (Hrs Hsl) as [Hsb Hso].
  pose proof Hf as (_ & _ & _ & _ & _ & _ & _ & _ & _ & Hptr). destruct (Hptr Ha) as [_ Hps].
  pose proof (dlen_pointer f Ha) as Hdl. rewrite Hdl in *.
  (* the end: the count, the pointer *)
  assert (∀ p bs, mem_read a PTR_SIZE b = ptr_bytes p → owns p bs →
    runs (no_pointer_arrays descs) (st_u8 (l, Z.of_nat s) 0 ;;;
      (let* p := ld_ptr (l, Z.of_nat a) in free p ;;; st_ptr (l, Z.of_nat a) VNull))
      i l (region f a s) b bs
      (λ _ i' b' fp', i' = i ∧ fp' = [] ∧ mem_read a PTR_SIZE b' = ptr_bytes VNull ∧ b' !! s = Some (MByte 0))) as Hend.
  { intros p bs Hp Ho. apply runs_seq, runs_st_u8; [done|by right|].
    pose proof (mem_write_length s [MByte (u8 0)] b ltac:(simpl; lia)) as Hl'.
    apply runs_seq, (runs_ld_ptr _ a p); [lia|rewrite mem_read_write_disjoint; simpl; done || lia|].
    rewrite <-(app_nil_r bs). apply runs_seq, runs_free; [done|].
    apply runs_st; [rewrite length_ptr_bytes; lia| |].
    { intros k Hk. left. by rewrite length_ptr_bytes, <-Hdl in Hk. }
    do 2 (split; [done|]). split; [apply mem_read_write; [lia|done]|].
    apply mem_read_one. rewrite mem_read_write_disjoint by (rewrite ?length_ptr_bytes; lia).
    by apply mem_read_one, lookup_write_one. }
  unfold release_contents, release_pointer. rewrite Hit, not_extension, Ha, Hr, HpD, HpS. cbn [andb]. clear Hit.
  rewrite (atype_pointer _ Ha). cbn [andb].
  inversion Hown as [Hn Hc0|l2 b2 fps Hroom Hel Hn Hc0]; subst.
  - (* no array *)
    apply runs_bind with (Q := λ _ i' b' fp', i' = i ∧ b' = b ∧ fp' = []).
    { destruct (is_ltype PB_LTYPE_SUBMESSAGE f); [|by apply runs_ret].
      apply runs_seq, (runs_ld_ptr _ a VNull); [done|done|].
      apply runs_seq, runs_seq, (runs_ld_u8 _ s 0); [done|]. by apply runs_ret, runs_ret. }
    intros [] i' b' fp' (-> & -> & ->) _. apply runs_seq.
    destruct (is_string_or_bytes f); [|apply runs_ret; apply (Hend VNull); [done|by left]].
    apply runs_seq, (runs_ld_ptr _ a VNull); [done|done|].
    apply runs_seq, (runs_ld_u8 _ s 0); [done|]. apply runs_ret. apply (Hend VNull); [done|by left].
  - destruct (is_ltype PB_LTYPE_SUBMESSAGE f) eqn:El.
    + (* an array of structs *)
      destruct (wf_submsg descs e f Hf El) as (d & Hp & Hdn & Hfit & _). rewrite Hp.
      assert (is_string_or_bytes f = false) as Hsbf.
      { unfold is_ltype in El. unfold is_string_or_bytes, is_ltype. by apply Z.eqb_eq in El as ->. }
      rewrite Hsbf.
      apply runs_seq, runs_seq, (runs_ld_ptr _ a (VLoc l2 0)); [done|done|].
      apply runs_seq, runs_seq, (runs_ld_u8 _ s (zlen fps)); [done|]. apply runs_ret, runs_seq, runs_deref.
      rewrite Nat2Z.id. change (l2, 0) with (l2, Z.of_nat (0 * Z.to_nat (f_data_size f))).
      eapply runs_conseq.
      * apply (runs_inside _ _ i l (region f a s) b l2). change (concat fps) with (concat (drop 0 fps)).
        apply (release_items_runs fuel f d l2 i fps); [done|exact Hfuel|done|done|apply data_size_pos|done|lia|].
        intros j fp _ Hj. specialize (Hel j fp Hj). inversion Hel as [|? ? _ Hi]; subst; [congruence|].
        inversion Hi; subst; congruence.
      * intros [] i' b' fp' (-> & b2' & fp2' & -> & _ & -> & ->) _. apply runs_seq, runs_ret.
        apply (Hend (VLoc l2 0)); [done|]. right. eauto.
    + apply runs_seq, runs_ret. apply runs_seq. destruct (is_string_or_bytes f) eqn:Esb.
      * (* an array of strings *)
        apply runs_seq, (runs_ld_ptr _ a (VLoc l2 0)); [done|done|].
        apply runs_seq, (runs_ld_u8 _ s (zlen fps)); [done|].
        destruct (Z.eqb_spec (zlen fps) 0) as [Hz|Hz].
        { apply runs_ret. destruct fps; [|done]. apply (Hend (VLoc l2 0)); [done|]. right. eauto. }
        apply runs_seq, runs_deref. rewrite Nat2Z.id. change (l2, 0) with (l2, Z.of_nat (0 * Z.to_nat (f_data_size f))).
        eapply runs_conseq.
        { apply (runs_inside _ _ i l (region f a s) b l2). change (concat fps) with (concat (drop 0 fps)).
          apply (free_items_runs f l2 i fps); [by apply Hps|done|done|lia|]. intros j fp _ Hj. by apply Hel. }
        intros [] i' b' fp' (-> & b2' & fp2' & -> & _ & -> & ->) _.
        apply (Hend (VLoc l2 0)); [done|]. right. eauto.
      * (* an array of numbers *)
        apply runs_ret. apply (Hend (VLoc l2 0)); [done|]. right. exists l2, b2. split; [done|].
        f_equal. apply concat_nil_Forall, Forall_lookup. intros j fp Hj. specialize (Hel j fp Hj).
        inversion Hel as [|? ? _ Hi]; subst; [congruence|]. inversion Hi; subst; [congruence|done].
Qed.

End Field.

(** ** One field, a message *)

(** After the release of [f] its siblings in a union see no change, or a null
    pointer and the tag of [f]. *)
Definition union_after (f : pb_field) (b b' : block) (a s : nat) : Prop :=
  is_htype PB_HTYPE_ONEOF f = true →
  (b !! s ≠ Some (MByte (f_tag f)) → b' = b) ∧
  (b !! s = Some (MByte (f_tag f)) → b' !! s = b !! s ∧
     (is_atype PB_ATYPE_POINTER f = true → mem_read a (dlen f) b' = ptr_bytes VNull)).

Definition field_release_spec (fuel : nat) : Prop :=
  ∀ e f it l a s b i fp tags, (length fp * S N + e < fuel)%nat → (e < N)%nat → field_wf descs e f →
    at_field it f l a s → room b f a s → field_own own tags f (mem_read a (dlen f) b) (b !! s) fp →
    runs (no_pointer_arrays descs) (release_at descs exts fuel it) i l (region f a s) b fp
      (λ _ i' b' fp', i' = i ∧ fp' = [] ∧ length b' = length b ∧
         field_own own tags f (mem_read a (dlen f) b') (b' !! s) [] ∧ union_after f b b' a s).

Lemma field_release fuel : message_release_spec fuel → field_release_spec (S fuel).
Proof.
  intros Hmsg e f it l a s b i fp tags Hfuel He Hf Hat Hroom Hown.
  pose proof Hat as (Hit & HpD & HpS). cbn [release_at]. unfold pb_release_single_field_with. rewrite Hit.
  assert (∀ T (b' : block), same_off T b b' → length b' = length b) as Hlen by (intros T b' [? _]; done).
  inversion Hown as [fx Ha Hr Ho Hi Hfx|c Ha Hr Hs Hc Hfx|w fx Ha Ho Hs Hi Hn Hfx|fx Ha Hr Ho Hp Hfx
    |c fx Ha Hr Hs Hc Harr Hfx|w fx p Ha Ho Hs Hi Hn Hfx]; try subst fx; try subst fp.
  - rewrite Ho. eapply runs_bind.
    + eapply runs_weaken; [by apply (contents_static fuel Hmsg e f it l a s i He Hf Hat b fp); try lia|by left|].
      intros x i' b' fp' H _. exact H.
    + intros [] i' b' fp' (-> & -> & Hi') Hoff. unfold release_pointer. rewrite Hit, (atype_static _ Ha).
      apply runs_ret. do 2 (split; [done|]). split; [by eapply Hlen|]. split; [by apply own_single|].
      intros Ho'. congruence.
  - assert (is_htype PB_HTYPE_ONEOF f = false) as Ho.
    { destruct (is_htype PB_HTYPE_ONEOF f) eqn:E; [|done]. apply htype_oneof_repeated in E. congruence. }
    rewrite Ho. eapply runs_bind.
    + eapply runs_weaken; [apply (contents_array fuel e f it l a s i He Hf Hat b c); try done; lia|by left|].
      intros x i' b' fp' H _. exact H.
    + intros [] i' b' fp' (-> & -> & ->) _. unfold release_pointer. rewrite Hit, (atype_static _ Ha).
      apply runs_ret. do 2 (split; [done|]). split; [done|]. split; [by eapply own_array|]. intros Ho'. congruence.
  - rewrite Ho, (HpS (slot_oneof f Ho)). apply runs_seq, (runs_ld_u8 _ s w); [done|].
    pose proof (htype_oneof_repeated f Ho) as Hr.
    destruct (Z.eqb_spec w (f_tag f)) as [Hw|Hw].
    + eapply runs_bind.
      * eapply runs_weaken with (T := span a (dlen f));
          [by apply (contents_static fuel Hmsg e f it l a s i He Hf Hat b fp); auto; lia|by left|].
        intros x i' b' fp' H Hoff. exact (conj H Hoff).
      * intros [] i' b' fp' [(-> & -> & Hi') Hoff] _. unfold release_pointer. rewrite Hit, (atype_static _ Ha).
        apply runs_ret. do 2 (split; [done|]). split; [by eapply Hlen|].
        pose proof (span_slot f a s b b' Hroom (slot_oneof f Ho) Hoff) as Hs'. rewrite Hs', Hs.
        split; [by eapply own_oneof|]. intros _. split; [rewrite Hs, Hw; by intros []|]. intros _. split; [done|].
        intros Hp. apply atype_pointer in Hp. congruence.
    + apply runs_ret. rewrite (Hn Hw) in *. do 3 (split; [done|]). split; [done|]. intros _. split; [done|]. rewrite Hs. intros; simplify_eq.
  - rewrite Ho. eapply runs_weaken.
    + apply (release_ptr fuel Hmsg e f it l a s i He Hf Hat b fp); try done. lia.
    + by left.
    + intros [] i' b' fp' (-> & -> & Hd) Hoff. do 2 (split; [done|]). split; [by eapply Hlen|].
      rewrite Hd. split; [apply own_ptr; [done..|constructor]|]. intros Ho'. congruence.
  - assert (is_htype PB_HTYPE_ONEOF f = false) as Ho.
    { destruct (is_htype PB_HTYPE_ONEOF f) eqn:E; [|done]. apply htype_oneof_repeated in E. congruence. }
    rewrite Ho. eapply runs_conseq.
    + apply (release_arr fuel Hmsg e f it l a s i He Hf Hat b fp c); try done. lia.
    + intros [] i' b' fp' (-> & -> & Hd & Hs') Hoff. do 2 (split; [done|]). split; [by eapply Hlen|].
      rewrite Hd, Hs'. split; [|intros Ho'; congruence].
      eapply (own_ptr_array _ _ _ _ _ 0); [done..|unfold PB_SIZE_MAX; lia|constructor].
  - rewrite Ho, (HpS (slot_oneof f Ho)). apply runs_seq, (runs_ld_u8 _ s w); [done|].
    pose proof (htype_oneof_repeated f Ho) as Hr.
    destruct (Z.eqb_spec w (f_tag f)) as [Hw|Hw].
    + eapply runs_weaken.
      * apply (release_ptr fuel Hmsg e f it l a s i He Hf Hat b fp); auto. lia.
      * by left.
      * intros [] i' b' fp' (-> & -> & Hd) Hoff. do 2 (split; [done|]). split; [by eapply Hlen|].
        pose proof (span_slot f a s b b' Hroom (slot_oneof f Ho) Hoff) as Hs'. rewrite Hs', Hs, Hd.
        split.
        -- eapply (own_ptr_oneof _ _ _ _ _ w _ VNull); [done..|intros _; constructor|done].
        -- intros _. split; [rewrite Hs, Hw; by intros []|]. rewrite Hs'. done.
    + apply runs_ret. destruct (Hn Hw) as (-> & Hd & _). do 3 (split; [done|]). split; [done|]. intros _. split; [done|]. rewrite Hs. intros; simplify_eq.
Qed.

(** The siblings of a released member of a union. *)
Lemma union_sibling o b b' g h fp tags :
  same_union g h → f_tag g.1 ≠ f_tag h.1 →
  union_after g.1 b b' (o + dpos g.2) (o + spos g.1 g.2) →
  field_own own tags h.1 (fdata o b h) (fslot o b h) fp →
  field_own own tags h.1 (fdata o b' h) (fslot o b' h) fp.
Proof.
  intros (Hg & Hh & Hp & Hso & Ha) Ht Hun Hown. destruct (Hun Hg) as [Heq Hd].
  fold (fslot o b g) (fslot o b' g) in Heq, Hd.
  destruct (decide (fslot o b g = Some (MByte (f_tag g.1)))) as [Hs|Hs]; [|by rewrite (Heq Hs)].
  destruct (Hd Hs) as [Hs' Hd']. rewrite Hs in Hs'. clear Hd.
  assert (∀ b, fslot o b h = fslot o b g) as Hsl by (intros; unfold fslot, spos; by rewrite Hp, Hso).
  rewrite Hsl, Hs in Hown. rewrite Hsl, Hs'.
  pose proof (htype_oneof_repeated h.1 Hh) as Hr.
  inversion Hown as [| |w fp' Ha' _ Hw Hi Hn| | |w fp' p Ha' _ Hw Hi Hn]; subst; try congruence; simplify_eq.
  - eapply own_oneof; [done|done|done|intros; congruence|done].
  - destruct (Hn Ht) as (-> & _ & _). eapply (own_ptr_oneof _ _ _ _ _ _ _ VNull); [done|done|done|intros; congruence|].
    intros _. split; [done|]. split; [|by left].
    assert (is_atype PB_ATYPE_POINTER g.1 = true) as Hap by (unfold is_atype in *; congruence).
    specialize (Hd' Hap). unfold fdata in *. rewrite <-Hp, dlen_pointer by done. by rewrite dlen_pointer in Hd'.
Qed.

Lemma message_release fuel : field_release_spec fuel → message_release_spec fuel.
Proof.
  intros Hfield e o n l b i fp Hfuel He Hfit Hroom Hown. unfold pb_release_with. eapply runs_perm_post.
  - apply (each_field_runs descs _ _ e n o l i b fp (λ k b' fp', ∃ fps, fp' ≡ₚ concat fps ∧
      struct_own descs e o b' fps ∧ (length (concat fps) <= length fp)%nat ∧
      ∀ j, (j < k)%nat → (j < length fps)%nat → fps !! j = Some [])); [done..| |].
    + intros k g b' fp' Hg Hlb _ (fps & Hp & Hs & Hlen & Hdone).
      destruct Hs as [Hl Hs]. pose proof (lookup_lt_Some _ _ _ Hg) as Hk.
      destruct (lookup_lt_is_Some_2 fps k) as [fpk Hfpk]; [lia|].
      pose proof (concat_nth_length _ _ _ Hfpk).
      pose proof (wf_field descs e k g Hwf Hg) as Hf.
      eapply runs_perm; [by rewrite Hp, (concat_take_drop fps k fpk Hfpk)|].
      eapply runs_perm_post; [apply runs_frame, (Hfield e g.1 _ l _ _ b' i fpk)|].
      * nia.
      * done.
      * done.
      * by eapply iter_at_field.
      * eapply room_length; [exact Hlb|]. by eapply iter_at_room.
      * exact (Hs k g fpk Hg Hfpk).
      * intros [] i' b'' fp'' (fp0 & -> & -> & -> & Hlb'' & Hown' & Hun) Hoff.
        exists (concat (<[k := []]> fps)). split; [by rewrite (concat_insert fps k fpk [] Hfpk)|].
        split; [done|]. exists (<[k := []]> fps). split; [done|]. split; [|split].
        -- eapply struct_update; [done|split; [done|exact Hs]|exact Hg|exact Hoff|exact Hown'|].
           intros j h fpj Hjk Hh Hfpj Hu.
           apply (union_sibling o b' b'' g h fpj _ Hu); [|done|by eapply Hs].
           intros Ht. apply Hjk. symmetry. by eapply wf_tags_inj.
        -- rewrite (concat_insert fps k fpk [] Hfpk). rewrite (concat_take_drop fps k fpk Hfpk), length_app in Hlen. simpl. lia.
        -- intros j Hj Hjl. rewrite length_insert in Hjl. destruct (decide (j = k)) as [->|].
           ++ by apply list_lookup_insert_eq.
           ++ rewrite list_lookup_insert_ne by done. apply Hdone; lia.
    + pose proof (proj1 (msg_own_struct descs e o n b fp Hfit) Hown) as (fps & -> & Hs).
      exists fps. split; [done|]. split; [done|]. split; [done|]. lia.
  - intros [] i' b' fp' (-> & fps & Hp & Hs & _ & Hdone) _.
    assert (concat fps = []) as Hnil.
    { apply concat_nil_Forall, Forall_lookup. intros j x Hj. pose proof (lookup_lt_Some _ _ _ Hj).
      destruct Hs as [Hl _]. rewrite layout_length in Hl. rewrite Hdone in Hj by lia. by simplify_eq. }
    exists []. rewrite <-Hnil at 1. split; [done|]. do 2 (split; [done|]).
    apply (msg_own_struct descs e o n b' [] Hfit). by exists fps.
Qed.

Lemma releases fuel : field_release_spec fuel ∧ message_release_spec fuel.
Proof.
  induction fuel as [|fuel [_ IH]].
  - split; [|apply message_release]; intros e; lia.
  - pose proof (field_release fuel IH). split; [done|]. by apply message_release.
Qed.

(** ** The functions as they are called *)

Lemma mem_is_size m fp : mem_is m fp → size (m_heap m) = length fp.
Proof.
  intros (Hh & Hn & _). rewrite Hh. rewrite <-(length_fmap fst fp).
  rewrite <-(size_list_to_set (C := gset nat) (fp.*1)) by done.
  by rewrite <-size_dom, dom_list_to_map_L.
Qed.

(** [release_fuel] is enough. *)
Lemma release_fuel_ok e m l b fp F i :
  (e < N)%nat → mem_is m ((l, b) :: fp ++ F) → (length fp * S N + e < release_fuel descs (mk_dstate i m))%nat.
Proof.
  intros He Hm. unfold release_fuel. cbn [d_mem]. rewrite (mem_is_size _ _ Hm). cbn [length].
  rewrite length_app. nia.
Qed.

Lemma pb_release_single_field_runs e f it l a s b i fp tags :
  (e < N)%nat → field_wf descs e f → at_field it f l a s → room b f a s →
  field_own own tags f (mem_read a (dlen f) b) (b !! s) fp →
  runs (no_pointer_arrays descs) (pb_release_single_field descs exts it) i l (region f a s) b fp
    (λ _ i' b' fp', i' = i ∧ fp' = [] ∧ length b' = length b ∧
       field_own own tags f (mem_read a (dlen f) b') (b' !! s) [] ∧ union_after f b b' a s).
Proof.
  intros He Hf Hat Hroom Hown m F Ha Hm. unfold pb_release_single_field.
  apply (proj1 (releases _) e f it l a s b i fp tags (release_fuel_ok e m l b fp F i He Hm) He Hf Hat Hroom Hown m F Ha Hm).
Qed.

Lemma pb_release_runs e n o l b i fp :
  (e < N)%nat → msg_fits descs e n → (o + n <= length b)%nat → own e (mem_read o n b) fp →
  runs (no_pointer_arrays descs) (pb_release descs exts e (VLoc l (Z.of_nat o))) i l (span o n) b fp
    (λ _ i' b' fp', i' = i ∧ fp' = [] ∧ own e (mem_read o n b') []).
Proof.
  intros He Hfit Hroom Hown m F Ha Hm. unfold pb_release.
  apply (proj2 (releases _) e o n l b i fp (release_fuel_ok e m l b fp F i He Hm) He Hfit Hroom Hown m F Ha Hm).
Qed.
End Release.
