(* ===== verification/PbValues.v ===== *)
(** The decoders of single values: each one stays inside the memory of its
    value, reads a byte at least when it succeeds, and the ones that allocate
    own one block. *)

From S2P Require Import Prelude PbStream PbMem PbFields PbDecode PbShape PbRuns PbOwn PbPlace PbDefaults.

Open Scope Z_scope.

(** The stream moved on, by a byte at least if the result is [true]. *)
Definition progress (r : bool) (i i' : istream) : Prop :=
  i_advance i i' ∧ (r = true → i_bytes_left i' + 1 <= i_bytes_left i).

Lemma progress_false i i' : i_advance i i' → progress false i i'.
Proof. done. Qed.

Lemma progress_trans r i1 i2 i3 : i_advance i1 i2 → progress r i2 i3 → progress r i1 i3.
Proof.
  intros Ha [Hb Hp]. split; [by eapply i_advance_trans|]. intros Hr. specialize (Hp Hr).
  destruct Ha as (n & _ & _ & Hl). lia.
Qed.

Lemma progress_after r i1 i2 i3 :
  i_advance i1 i2 → i_bytes_left i2 + 1 <= i_bytes_left i1 → i_advance i2 i3 → progress r i1 i3.
Proof.
  intros Ha Hk Hb. split; [by eapply i_advance_trans|]. intros _. destruct Hb as (n & _ & _ & Hl). lia.
Qed.

Section Values.
Context (may_fail : bool) (descs : list (list pb_field)) (exts : list extension_type).

Abbreviation runs := (runs may_fail).

(** ** Numbers *)

(** [alloc_size = size + 1] wraps to zero or is exact. *)
Lemma u32_succ size : is_uint 32 size → size <= u32 (size + 1) → u32 (size + 1) = size + 1.
Proof.
  unfold is_uint. intros Hs Hw. destruct (decide (size + 1 = 2 ^ 32)) as [Heq|].
  - rewrite Heq in Hw. change (u32 (2 ^ 32)) with 0 in Hw. lia.
  - apply uwrap_id. unfold is_uint. lia.
Qed.

Lemma store_clamped_runs n conv value i l a b fp :
  (a + n <= length b)%nat → iwf i →
  runs (store_clamped n conv (l, Z.of_nat a) value) i l (span a n) b fp
    (λ _ i' b' fp', i_advance i i' ∧ fp' = fp).
Proof.
  intros Hl Hi. unfold store_clamped, st_int. apply runs_seq, runs_st_bytes; rewrite ?length_le_bytes; [done|done|].
  case_match.
  - apply runs_ret. split; [by apply i_advance_refl|done].
  - apply runs_fail. split; [by apply i_advance_set_error, i_advance_refl|done].
Qed.

(** A varint, clamped to the size of the field. *)
Lemma clamped_runs P (d : dec Z) (conv8 conv4 conv2 conv1 : Z → Z) (sv : Z → Z) f i l a b fp :
  safe 1 P d → iwf i → (a + Z.to_nat (f_data_size f) <= length b)%nat →
  runs (let? value := d in
    if f_data_size f =? 8 then store_clamped 8 conv8 (l, Z.of_nat a) (sv value)
    else if f_data_size f =? 4 then store_clamped 4 conv4 (l, Z.of_nat a) (sv value)
    else if f_data_size f =? 2 then store_clamped 2 conv2 (l, Z.of_nat a) (sv value)
    else if f_data_size f =? 1 then store_clamped 1 conv1 (l, Z.of_nat a) (sv value)
    else fail "invalid data_size") i l (span a (Z.to_nat (f_data_size f))) b fp
    (λ r i' b' fp', progress r i i' ∧ fp' = fp).
Proof.
  intros Hd Hi Hl. eapply (runs_read _ 1 P); [done|done| |].
  - intros v i' Hadv _ Hk. pose proof (i_advance_wf _ _ Hi Hadv) as Hi'.
    assert (∀ n conv, Z.to_nat (f_data_size f) = n →
      runs (store_clamped n conv (l, Z.of_nat a) (sv v)) i' l (span a (Z.to_nat (f_data_size f))) b fp
        (λ r i2 b' fp', progress r i i2 ∧ fp' = fp)) as Hst.
    { intros n conv Hn. rewrite Hn. eapply runs_conseq; [apply store_clamped_runs; [lia|done]|].
      intros r i2 b' fp' [Hadv2 ->] _. split; [|done]. by eapply progress_after. }
    do 4 (match goal with |- context [f_data_size f =? ?k] =>
      destruct (Z.eqb_spec (f_data_size f) k) as [He|_]; [apply Hst; by rewrite He|] end).
    apply runs_fail. split; [|done]. apply progress_after with (i2 := i'); [done|done|].
    by apply i_advance_set_error, i_advance_refl.
  - intros i' Hadv. split; [by apply progress_false|done].
Qed.

Lemma fixed_runs n (d : dec Z) P i l a b fp :
  safe 1 P d → iwf i → (a + n <= length b)%nat →
  runs (let? value := d in st_int n (l, Z.of_nat a) value ;;; ret true) i l (span a n) b fp
    (λ r i' b' fp', progress r i i' ∧ fp' = fp).
Proof.
  intros Hd Hi Hl. eapply (runs_read _ 1 P); [done|done| |].
  - intros v i' Hadv _ Hk. unfold st_int. apply runs_seq, runs_st_bytes; rewrite ?length_le_bytes; [done|done|].
    apply runs_ret. split; [|done]. split; [done|]. intros _. lia.
  - intros i' Hadv. split; [by apply progress_false|done].
Qed.

(** ** Bytes *)

Lemma read_to_runs count i l a b fp :
  0 <= count → iwf i → (a + Z.to_nat count <= length b)%nat →
  runs (read_to (l, Z.of_nat a) count) i l (span a (Z.to_nat count)) b fp
    (λ _ i' b' fp', i_advance i i' ∧ fp' = fp).
Proof.
  intros Hc Hi Hl. unfold read_to. eapply (runs_read _ count); [by apply safe_read|done| |].
  - intros v i' Hadv [Hv _] Hk. assert (length v = Z.to_nat count) as Hlv by lia.
    apply runs_seq, runs_st_bytes; [lia|by rewrite Hlv|]. by apply runs_ret.
  - intros i' Hadv. done.
Qed.

(** The size and the bytes of a [pb_bytes_array_t]. *)
Lemma bytes_store_runs size i l a b fp :
  0 <= size → iwf i → (a + S (Z.to_nat size) <= length b)%nat →
  runs (st_u8 (l, Z.of_nat a) size ;;; read_to (padd (l, Z.of_nat a) 1) size) i l
    (span a (S (Z.to_nat size))) b fp (λ _ i' b' fp', i_advance i i' ∧ fp' = fp).
Proof.
  intros Hs Hi Hl. apply runs_seq, runs_st_u8; [lia|unfold span; lia|].
  rewrite padd_nat by lia. eapply runs_weaken.
  - apply read_to_runs; [done|done|]. rewrite mem_write_length; simpl; lia.
  - intros k. unfold span. lia.
  - done.
Qed.

(** The characters of a string, and the zero after them. *)
Lemma string_store_runs size i l a b fp :
  0 <= size → iwf i → (a + S (Z.to_nat size) <= length b)%nat →
  runs (let* status := read_to (l, Z.of_nat a) size in
        st_u8 (padd (l, Z.of_nat a) size) 0 ;;; ret status) i l
    (span a (S (Z.to_nat size))) b fp (λ _ i' b' fp', i_advance i i' ∧ fp' = fp).
Proof.
  intros Hs Hi Hl. eapply runs_bind.
  - eapply runs_weaken; [apply read_to_runs; [done|done|lia]|intros k; unfold span; lia|].
    intros r i' b' fp' H _. exact H.
  - intros r i' b' fp' [Hadv ->] [Hlb _]. rewrite padd_nat by lia.
    apply runs_seq, runs_st_u8; [lia|unfold span; lia|]. by apply runs_ret.
Qed.

(** ** Allocation *)

Lemma runs_allocate p bs ds n i l a b (T : nat → Prop) Q :
  0 < ds < 2 ^ 64 → 0 < n → (a + PTR_SIZE <= length b)%nat → (∀ k, span a PTR_SIZE k → T k) →
  mem_read a PTR_SIZE b = ptr_bytes p → owns p bs →
  (∀ l', Q true i (mem_write a (ptr_bytes (VLoc l' 0)) b)
     [(l', resize (Z.to_nat (n * ds)) (default [] (snd <$> head bs)))]) →
  (∀ msg, may_fail = true ∨ 2 ^ 64 <= n * ds → Q false (i_set_error msg i) b bs) →
  runs (allocate_field (l, Z.of_nat a) ds n) i l T b bs Q.
Proof.
  intros Hds Hn Hl HT Hp Ho HQ HF. unfold allocate_field. apply runs_seq, (runs_ld_ptr _ a p); [done|done|].
  rewrite (proj2 (Z.eqb_neq _ _)), (proj2 (Z.eqb_neq n 0)) by lia. cbn [orb].
  change (Z.shiftl 1 (8 * 4)) with (2 ^ 32).
  destruct (((2 ^ 32 <=? ds) || (2 ^ 32 <=? n)) && (SIZE_MAX / n <? ds)) eqn:E.
  { apply andb_true_iff in E as [_ E%Z.ltb_lt]. apply runs_fail, HF. right. unfold SIZE_MAX in E.
    pose proof (Z.mul_succ_div_gt (2 ^ 64 - 1) n Hn). nia. }
  assert (n * ds < 2 ^ 64) as Hmul.
  { apply andb_false_iff in E as [E|E%Z.ltb_ge].
    - apply orb_false_iff in E as [?%Z.leb_gt ?%Z.leb_gt]. nia.
    - unfold SIZE_MAX in E. pose proof (Z.mul_div_le (2 ^ 64 - 1) n Hn). nia. }
  rewrite uwrap_id by (unfold is_uint; nia).
  apply runs_seq. rewrite <-(app_nil_r bs) at 1. apply (runs_realloc _ p bs); [done| |].
  - intros l'. apply runs_seq, runs_st; rewrite ?length_ptr_bytes; [done|done|]. apply runs_ret, HQ.
  - intros Hnp. rewrite app_nil_r. apply runs_fail, HF. tauto.
Qed.

Lemma allocate_field_runs p bs ds n i l a b :
  0 < ds < 2 ^ 64 → 0 < n → iwf i → (a + PTR_SIZE <= length b)%nat →
  mem_read a PTR_SIZE b = ptr_bytes p → owns p bs →
  runs (allocate_field (l, Z.of_nat a) ds n) i l (span a PTR_SIZE) b bs
    (λ r i' b' fp',
       (r = true ∧ i' = i ∧ ∃ l', mem_read a PTR_SIZE b' = ptr_bytes (VLoc l' 0) ∧
          fp' = [(l', resize (Z.to_nat (n * ds)) (default [] (snd <$> head bs)))]) ∨
       (r = false ∧ i_advance i i' ∧ b' = b ∧ fp' = bs ∧
          (may_fail = true ∨ 2 ^ 32 <= n ∨ 2 ^ 32 <= ds))).
Proof.
  intros Hds Hn Hi Hl Hp Ho. apply (runs_allocate p); try done.
  - intros l'. left. split; [done|]. split; [done|]. exists l'. split; [by apply mem_read_write|done].
  - intros msg Hor. right. split; [done|]. split; [by apply i_advance_set_error, i_advance_refl|].
    do 2 (split; [done|]). destruct Hor as [|Hor]; [by left|right].
    destruct (decide (2 ^ 32 <= n)); [by left|right]. nia.
Qed.

(** [allocate_field] and then a computation on the new block. *)
Lemma allocate_inside (k : addr → M bool) p bs ds n i l a b T2 :
  0 < ds < 2 ^ 64 → 0 < n → iwf i → (a + PTR_SIZE <= length b)%nat →
  mem_read a PTR_SIZE b = ptr_bytes p → owns p bs →
  (∀ l' b2, length b2 = Z.to_nat (n * ds) →
     runs (k (l', 0)) i l' T2 b2 [] (λ _ i' b2' fp', i_advance i i' ∧ fp' = [])) →
  runs (allocate_field (l, Z.of_nat a) ds n &&?
        let* p := ld_ptr (l, Z.of_nat a) in let* dest := deref p in k dest) i l (span a PTR_SIZE) b bs
    (λ r i' b' fp', i_advance i i' ∧ ∃ p', mem_read a PTR_SIZE b' = ptr_bytes p' ∧ owns p' fp').
Proof.
  intros Hds Hn Hi Hl Hp Ho Hk. eapply runs_bind; [by apply (allocate_field_runs p bs)|].
  intros r i' b' fp' [(-> & -> & l' & Hp' & ->)|(-> & Hadv & -> & -> & _)] [Hlb _].
  - apply runs_seq, (runs_ld_ptr _ a (VLoc l' 0)); [lia|done|]. apply runs_seq, runs_deref.
    eapply runs_conseq; [apply runs_inside, Hk; by rewrite length_resize|].
    intros r i' b'' fp'' (-> & b2' & fp2' & -> & _ & Hadv & ->) _. split; [done|].
    exists (VLoc l' 0). split; [done|]. right. eauto.
  - apply runs_ret. split; [done|]. by exists p.
Qed.

(** ** The decoders *)

(** A value in place, on [f_data_size] bytes. *)
Definition in_place (f : pb_field) : Prop :=
  is_ltype PB_LTYPE_SUBMESSAGE f = false ∧
  (is_atype PB_ATYPE_STATIC f = true ∨
   (is_atype PB_ATYPE_POINTER f = true ∧ is_string_or_bytes f = false)).

Lemma pb_dec_string_static f i l a b fp :
  is_atype PB_ATYPE_STATIC f = true → iwf i → (a + Z.to_nat (f_data_size f) <= length b)%nat →
  runs (pb_dec_string f (l, Z.of_nat a)) i l (span a (Z.to_nat (f_data_size f))) b fp
    (λ r i' b' fp', progress r i i' ∧ fp' = fp).
Proof.
  intros Ha Hi Hl. unfold pb_dec_string. rewrite (atype_static _ Ha).
  eapply (runs_read _ 1 (is_uint 32)); [apply safe_varint32|done| |by split].
  intros size i' Hadv Hsz Hk. pose proof (i_advance_wf _ _ Hi Hadv) as Hi'.
  assert (∀ msg, runs (fail msg) i' l (span a (Z.to_nat (f_data_size f))) b fp
    (λ r i2 b' fp', progress r i i2 ∧ fp' = fp)) as Hfail.
  { intros msg. apply runs_fail. split; [|done]. apply progress_after with (i2 := i'); [done|done|].
    by apply i_advance_set_error, i_advance_refl. }
  destruct (Z.ltb_spec (u32 (size + 1)) size) as [|Hw]; [apply Hfail|].
  pose proof (u32_succ size Hsz Hw) as Hu.
  rewrite Hu in *. destruct (Z.ltb_spec (f_data_size f) (size + 1)); [apply Hfail|].
  unfold is_uint in Hsz. eapply runs_weaken.
  - apply (string_store_runs size i' l a b fp); [lia|done|lia].
  - intros k. unfold span. lia.
  - intros r i2 b' fp' [Hadv2 ->] _. split; [|done]. by eapply progress_after.
Qed.

Lemma pb_dec_bytes_static f i l a b fp :
  is_atype PB_ATYPE_STATIC f = true → iwf i → 0 <= f_data_size f → (a + Z.to_nat (f_data_size f) <= length b)%nat →
  runs (pb_dec_bytes f (l, Z.of_nat a)) i l (span a (Z.to_nat (f_data_size f))) b fp
    (λ r i' b' fp', progress r i i' ∧ fp' = fp).
Proof.
  intros Ha Hi Hds Hl. unfold pb_dec_bytes. rewrite (atype_static _ Ha).
  eapply (runs_read _ 1 (is_uint 32)); [apply safe_varint32|done| |by split].
  intros size i' Hadv Hsz Hk. pose proof (i_advance_wf _ _ Hi Hadv) as Hi'.
  assert (∀ msg, runs (fail msg) i' l (span a (Z.to_nat (f_data_size f))) b fp
    (λ r i2 b' fp', progress r i i2 ∧ fp' = fp)) as Hfail.
  { intros msg. apply runs_fail. split; [|done]. apply progress_after with (i2 := i'); [done|done|].
    by apply i_advance_set_error, i_advance_refl. }
  unfold is_uint in Hsz.
  destruct (Z.ltb_spec PB_SIZE_MAX size); [apply Hfail|]. unfold PB_SIZE_MAX in *.
  assert (PB_BYTES_ARRAY_T_ALLOCSIZE size = size + 1) as -> by (apply uwrap_id; unfold is_uint; lia).
  destruct (Z.ltb_spec (size + 1) size); [lia|].
  destruct (is_ltype PB_LTYPE_FIXED_LENGTH_BYTES f).
  - destruct (Z.eqb_spec size (f_data_size f)); [|apply Hfail]. eapply runs_conseq.
    + by apply read_to_runs.
    + intros r i2 b' fp' [Hadv2 ->] _. split; [|done]. by eapply progress_after.
  - destruct (Z.ltb_spec (f_data_size f) (size + 1)); [apply Hfail|]. eapply runs_weaken.
    + apply (bytes_store_runs size i' l a b fp); [lia|done|lia].
    + intros k. unfold span. lia.
    + intros r i2 b' fp' [Hadv2 ->] _. split; [|done]. by eapply progress_after.
Qed.

Lemma pb_dec_string_pointer f p bs i l a b :
  is_atype PB_ATYPE_POINTER f = true → iwf i → (a + PTR_SIZE <= length b)%nat →
  mem_read a PTR_SIZE b = ptr_bytes p → owns p bs →
  runs (pb_dec_string f (l, Z.of_nat a)) i l (span a PTR_SIZE) b bs
    (λ r i' b' fp', progress r i i' ∧ ∃ p', mem_read a PTR_SIZE b' = ptr_bytes p' ∧ owns p' fp').
Proof.
  intros Ha Hi Hl Hp Ho. unfold pb_dec_string. rewrite Ha.
  eapply (runs_read _ 1 (is_uint 32)); [apply safe_varint32|done| |intros ? ?; split; [by apply progress_false|eauto]].
  intros size i' Hadv Hsz Hk. pose proof (i_advance_wf _ _ Hi Hadv) as Hi'.
  destruct (Z.ltb_spec (u32 (size + 1)) size) as [|Hw].
  { apply runs_fail. split; [|eauto]. apply progress_after with (i2 := i'); [done|done|].
    by apply i_advance_set_error, i_advance_refl. }
  pose proof (u32_succ size Hsz Hw) as Hu.
  rewrite Hu in *. unfold is_uint in Hsz. eapply runs_conseq.
  - apply (allocate_inside _ p bs (size + 1) 1 i' l a b (λ _, True)); [lia|lia|done|done|done|done|].
    intros l' b2 Hb2. eapply runs_weaken.
    + apply (string_store_runs size i' l' 0 b2 []); [lia|done|lia].
    + done.
    + done.
  - intros r i2 b' fp' [Hadv2 Hx] _. split; [|done]. by eapply progress_after.
Qed.

Lemma pb_dec_bytes_pointer f p bs i l a b :
  is_atype PB_ATYPE_POINTER f = true → iwf i → (a + PTR_SIZE <= length b)%nat →
  mem_read a PTR_SIZE b = ptr_bytes p → owns p bs →
  runs (pb_dec_bytes f (l, Z.of_nat a)) i l (span a PTR_SIZE) b bs
    (λ r i' b' fp', progress r i i' ∧ ∃ p', mem_read a PTR_SIZE b' = ptr_bytes p' ∧ owns p' fp').
Proof.
  intros Ha Hi Hl Hp Ho. unfold pb_dec_bytes. rewrite Ha.
  eapply (runs_read _ 1 (is_uint 32)); [apply safe_varint32|done| |intros ? ?; split; [by apply progress_false|eauto]].
  intros size i' Hadv Hsz Hk. pose proof (i_advance_wf _ _ Hi Hadv) as Hi'. unfold is_uint in Hsz.
  assert (∀ msg, runs (fail msg) i' l (span a PTR_SIZE) b bs
    (λ r i2 b' fp', progress r i i2 ∧ ∃ p', mem_read a PTR_SIZE b' = ptr_bytes p' ∧ owns p' fp')) as Hfail.
  { intros msg. apply runs_fail. split; [|eauto]. apply progress_after with (i2 := i'); [done|done|].
    by apply i_advance_set_error, i_advance_refl. }
  destruct (Z.ltb_spec PB_SIZE_MAX size); [apply Hfail|]. unfold PB_SIZE_MAX in *.
  assert (PB_BYTES_ARRAY_T_ALLOCSIZE size = size + 1) as -> by (apply uwrap_id; unfold is_uint; lia).
  destruct (Z.ltb_spec (size + 1) size); [lia|]. eapply runs_conseq.
  - apply (allocate_inside _ p bs (size + 1) 1 i' l a b (λ _, True)); [lia|lia|done|done|done|done|].
    intros l' b2 Hb2. eapply runs_weaken.
    + apply (bytes_store_runs size i' l' 0 b2 []); [lia|done|lia].
    + done.
    + done.
  - intros r i2 b' fp' [Hadv2 Hx] _. split; [|done]. by eapply progress_after.
Qed.

Context (noinit : nat → addr → M bool).

Abbreviation decoders := (PB_DECODERS descs exts noinit).

Lemma ltype_cases f (Hlt : PB_LTYPE (f_type f) <= PB_LTYPE_FIXED_LENGTH_BYTES) :
  is_ltype PB_LTYPE_VARINT f = true ∨ is_ltype PB_LTYPE_UVARINT f = true ∨ is_ltype PB_LTYPE_SVARINT f = true ∨
  is_ltype PB_LTYPE_FIXED32 f = true ∨ is_ltype PB_LTYPE_FIXED64 f = true ∨ is_ltype PB_LTYPE_BYTES f = true ∨
  is_ltype PB_LTYPE_STRING f = true ∨ is_ltype PB_LTYPE_SUBMESSAGE f = true ∨
  is_ltype PB_LTYPE_EXTENSION f = true ∨ is_ltype PB_LTYPE_FIXED_LENGTH_BYTES f = true.
Proof.
  assert (0 <= PB_LTYPE (f_type f)).
  { unfold PB_LTYPE, PB_LTYPE_MASK. apply Z.land_nonneg. by right. }
  unfold is_ltype. unfold PB_LTYPE_FIXED_LENGTH_BYTES, PB_LTYPE_EXTENSION, PB_LTYPE_SUBMESSAGE, PB_LTYPE_STRING,
    PB_LTYPE_BYTES, PB_LTYPE_FIXED64, PB_LTYPE_FIXED32, PB_LTYPE_SVARINT, PB_LTYPE_UVARINT, PB_LTYPE_VARINT in *.
  rewrite !Z.eqb_eq. lia.
Qed.

Lemma safe1_fixed32 : safe 1 (λ _, True) pb_decode_fixed32.
Proof.
  apply (safe_weaken 4 1 (λ _, True) (λ _, True)); [eapply safe_bind0; [apply safe_read; lia|]; intros; by apply safe_ret|lia|done].
Qed.

Lemma safe1_fixed64 : safe 1 (λ _, True) pb_decode_fixed64.
Proof.
  apply (safe_weaken 8 1 (λ _, True) (λ _, True)); [eapply safe_bind0; [apply safe_read; lia|]; intros; by apply safe_ret|lia|done].
Qed.

Lemma safe1_svarint : safe 1 (λ _, True) pb_decode_svarint.
Proof. eapply safe_bind0; [apply safe_varint|]. intros. by apply safe_ret. Qed.

(** The decoder of a value in place. *)
Lemma in_place_runs e f i l a b fp :
  field_wf descs e f → in_place f → iwf i → (a + Z.to_nat (f_data_size f) <= length b)%nat →
  runs (decoders f (l, Z.of_nat a)) i l (span a (Z.to_nat (f_data_size f))) b fp
    (λ r i' b' fp', progress r i i' ∧ fp' = fp).
Proof.
  intros (_ & Hds & _ & Hlt & Hext & Hat & H32 & H64 & _ & Hpt) [Hns Hplace] Hi Hl.
  unfold PB_DECODERS.
  destruct (is_ltype PB_LTYPE_VARINT f) eqn:E1. { by apply (clamped_runs (is_uint 64)); [apply safe_varint|..]. }
  destruct (is_ltype PB_LTYPE_UVARINT f) eqn:E2. { by apply (clamped_runs (is_uint 64)) with (sv := λ v, v); [apply safe_varint|..]. }
  destruct (is_ltype PB_LTYPE_SVARINT f) eqn:E3. { by apply (clamped_runs (λ _, True)) with (sv := λ v, v); [apply safe1_svarint|..]. }
  destruct (is_ltype PB_LTYPE_FIXED32 f) eqn:E4.
  { rewrite H32 in * by done. by apply (fixed_runs 4 _ (λ _, True)); [apply safe1_fixed32|..]. }
  destruct (is_ltype PB_LTYPE_FIXED64 f) eqn:E5.
  { rewrite H64 in * by done. by apply (fixed_runs 8 _ (λ _, True)); [apply safe1_fixed64|..]. }
  assert (is_ltype PB_LTYPE_BYTES f = true ∨ is_ltype PB_LTYPE_STRING f = true ∨
    is_ltype PB_LTYPE_FIXED_LENGTH_BYTES f = true → is_atype PB_ATYPE_STATIC f = true) as Hst.
  { destruct Hplace as [|[Hp Hsb]]; [done|]. destruct (Hpt Hp) as [Hfl _].
    unfold is_string_or_bytes in Hsb. apply orb_false_iff in Hsb as [Hs Hb]. intuition congruence. }
  destruct (is_ltype PB_LTYPE_BYTES f) eqn:Eb. { apply pb_dec_bytes_static; [apply Hst; tauto|done|lia|done]. }
  destruct (is_ltype PB_LTYPE_STRING f) eqn:Es. { apply pb_dec_string_static; [apply Hst; tauto|done|done]. }
  rewrite Hns. destruct (is_ltype PB_LTYPE_FIXED_LENGTH_BYTES f) eqn:Ef.
  { apply pb_dec_bytes_static; [apply Hst; tauto|done|lia|done]. }
  exfalso. destruct (ltype_cases f Hlt) as [H|[H|[H|[H|[H|[H|[H|[H|[H|H]]]]]]]]]; congruence.
Qed.

End Values.
