(* ===== verification/PbItems.v ===== *)
(** One level of the decoder: submessages and the fields with static or
    allocated storage, given that the decoder of submessages is safe on fewer
    bytes. *)

From S2P Require Import Prelude PbStream PbMem PbFields PbDecode PbShape PbRuns PbOwn PbPlace PbDefaults PbRelease PbValues.

Open Scope Z_scope.

(** ** Substreams *)

(** The substream has fewer bytes than the stream, and closing it, wherever it
    got to, moves the stream on. *)
Definition substream_of (i par sub : istream) : Prop :=
  iwf sub ∧ i_bytes_left sub + 1 <= i_bytes_left i ∧ i_advance i par ∧
  i_bytes_left sub < 2 ^ 32 ∧ i_bytes_left par + 1 <= i_bytes_left i ∧
  ∀ sub', i_advance sub sub' → progress true i (pb_close_string_substream par sub').

Lemma substream_safe i :
  iwf i → ∃ r i', pb_make_string_substream i = Some (r, i') ∧ i_advance i i' ∧
    match r with Some sub => substream_of i i' sub | None => True end.
Proof.
  intros Hi. unfold pb_make_string_substream, dbind.
  destruct (safe_varint32 i Hi) as (r & i1 & -> & Hadv & Hr). cbn [mbind option_bind].
  destruct r as [size|]; [|by exists None, i1]. destruct Hr as [Hsz Hk].
  pose proof (i_advance_wf _ _ Hi Hadv) as [[H0 Hl1] Hb1].
  destruct (Z.ltb_spec (i_bytes_left i1) size).
  { eexists None, _. split; [done|]. split; [by apply i_advance_set_error|done]. }
  destruct Hsz as [Hs0 Hs32]. destruct Hadv as (n & Hn & Hs & Hl).
  assert (i_advance i (i_count size i1)) as Hadv'.
  { exists n. split; [done|]. split; [done|]. simpl. lia. }
  eexists (Some _), _. split; [done|]. split; [done|].
  split; [split; [simpl; lia|done]|]. split; [simpl; lia|]. split; [done|]. split; [simpl; lia|].
  split; [simpl; lia|]. intros sub' (m & Hm & Hs' & Hl'). simpl in Hm, Hs', Hl'. rewrite Hs in Hm, Hs'.
  rewrite length_drop in Hm. rewrite drop_drop in Hs'. split.
  - exists (n + m)%nat. unfold pb_close_string_substream. cbn [i_state i_bytes_left i_count].
    split; [lia|]. split; [done|]. lia.
  - intros _. simpl. lia.
Qed.

Section Items.
Context (descs : list (list pb_field)) (exts : list extension_type).
Context (Hwf : wf_descs descs).

Abbreviation desc := (descriptor descs).
Abbreviation own := (msg_own descs).
Abbreviation N := (length descs).
Abbreviation runs := (runs (no_pointer_arrays descs)).

Lemma runs_let_sub (k : istream → M bool) i l T b fp Q :
  iwf i →
  (∀ par sub, substream_of i par sub → runs (k par) sub l T b fp Q) →
  (∀ i', i_advance i i' → Q false i' b fp) →
  runs (let-sub x in k x) i l T b fp Q.
Proof.
  intros Hi Hk Hf m F Ha Hm. destruct (substream_safe i Hi) as (r & i' & Hr & Hadv & Hsub).
  unfold mbindM, make_substream. cbn [d_in d_mem]. rewrite Hr. cbn [mbind option_bind].
  destruct r as [sub|].
  - by apply (Hk i' sub Hsub).
  - exists false, i', m, b, fp. do 4 (split; [done|]). by apply Hf.
Qed.

(** ** Structs without allocated parts *)

Lemma ptr_free_own k : ∀ d data fp, ptr_free descs k d = true → own d data fp → fp = [].
Proof.
  induction k as [|k IH]; intros d data fp Hk Hown; [done|].
  inversion Hown as [fps Hl Hf]; subst. apply concat_nil_Forall, Forall_lookup. intros j fp Hj.
  destruct (lookup_lt_is_Some_2 (layout (desc d)) j) as [[f p] Hg].
  { rewrite <-Hl. by eapply lookup_lt_Some. }
  specialize (Hf j (f, p) fp Hg Hj). apply layout_field, list_elem_of_lookup_2 in Hg. cbn [fst snd] in Hf.
  cbn [ptr_free] in Hk. rewrite forallb_forall in Hk. apply list_elem_of_In in Hg.
  specialize (Hk f Hg). apply andb_true_iff in Hk as [Ha Hsub].
  assert (∀ x y, item_own own f x y → y = []) as Hitem.
  { intros x y Hi. inversion Hi as [e y' Hs Hp Ho|]; subst; [|done]. rewrite Hs, Hp in Hsub. exact (IH e x y Hsub Ho). }
  pose proof (atype_static _ Ha) as Hna.
  inversion Hf as [? _ _ _ Hi| |w ? _ _ _ Hi Hn| | |]; subst; try congruence.
  - by eapply Hitem.
  - destruct (decide (w = f_tag f)); [by eapply Hitem, Hi|by apply Hn].
Qed.

Lemma inert_ptr_free k d : inert descs k d = true → ptr_free descs k d = true.
Proof.
  revert d; induction k as [|k IH]; intros d Hi; [done|]. cbn [inert ptr_free] in *.
  rewrite forallb_forall in *. intros f Hf. specialize (Hi f Hf).
  apply andb_true_iff in Hi as [[-> _]%andb_true_iff Hi]. cbn [andb].
  destruct (is_ltype PB_LTYPE_SUBMESSAGE f); [|done]. cbn [negb orb] in *.
  apply andb_true_iff in Hi as [_ Hi]. destruct (f_ptr f); try done. by apply IH.
Qed.

(** ** Submessages *)

Section Level.
Context (noinit : nat → addr → M bool) (bound : Z).

(** The decoder of submessages, on streams of fewer bytes. *)
Definition noinit_spec : Prop :=
  ∀ d n o l b i fp, iwf i → i_bytes_left i < bound → (d < N)%nat → msg_fits descs d n →
    (o + n <= length b)%nat → own d (mem_read o n b) fp →
    runs (noinit d (l, Z.of_nat o)) i l (span o n) b fp
      (λ _ i' b' fp', i_advance i i' ∧ own d (mem_read o n b') fp').

Context (Hdown : noinit_spec).

Abbreviation decoders := (PB_DECODERS descs exts noinit).

(** [pb_decode] of any memory; what it fails to decode owns nothing. *)
Lemma pb_decode_with_runs d n o l b i :
  iwf i → i_bytes_left i < bound → (d < N)%nat → msg_fits descs d n → (o + n <= length b)%nat →
  runs (pb_decode_with descs exts noinit d (l, Z.of_nat o)) i l (span o n) b []
    (λ r i' b' fp', i_advance i i' ∧ own d (mem_read o n b') fp' ∧ (r = false → fp' = [])).
Proof.
  intros Hi Hb Hd Hfit Hl. unfold pb_decode_with. eapply runs_bind.
  { by apply (set_to_defaults_runs _ descs exts Hwf d n o l b i). }
  intros [] i' b' fp' (-> & -> & Hown) [Hl' _]. eapply runs_bind.
  { apply (Hdown d n o l b' i []); try done. lia. }
  intros r i' b2 fp2 [Hadv Hown2] [Hl2 _]. destruct r.
  - apply runs_ret. done.
  - eapply runs_bind.
    + apply (pb_release_runs descs exts Hwf d n o l b2 i' fp2); try done. lia.
    + intros [] i2 b3 fp3 (-> & -> & Hown3) _. by apply runs_ret.
Qed.

(** The last bytes of a substream. *)
Lemma close_progress i par sub sub' r :
  substream_of i par sub → i_advance sub sub' → progress r i (pb_close_string_substream par sub').
Proof. intros (_ & _ & _ & _ & _ & Hc) Ha. destruct (Hc sub' Ha) as [H1 H2]. split; auto. Qed.

(** A submessage that is not an item of an array: it is merged. *)
Lemma submessage_merge f d i l a b fp :
  is_htype PB_HTYPE_REPEATED f = false → f_ptr f = FSubmsg d → (d < N)%nat →
  msg_fits descs d (Z.to_nat (f_data_size f)) → iwf i → i_bytes_left i <= bound →
  (a + Z.to_nat (f_data_size f) <= length b)%nat → own d (mem_read a (Z.to_nat (f_data_size f)) b) fp →
  runs (pb_dec_submessage descs exts noinit f (l, Z.of_nat a)) i l (span a (Z.to_nat (f_data_size f))) b fp
    (λ r i' b' fp', progress r i i' ∧ own d (mem_read a (Z.to_nat (f_data_size f)) b') fp').
Proof.
  intros Hr Hp Hd Hfit Hi Hb Hl Hown. unfold pb_dec_submessage. apply runs_let_sub; [done| |].
  - intros par sub Hsub. rewrite Hp, Hr. pose proof Hsub as (Hsw & Hsl & _). eapply runs_bind.
    + apply (Hdown d _ a l b sub fp); try done. lia.
    + intros r sub' b' fp' [Hadv Ho] _. apply runs_seq, runs_close, runs_ret.
      split; [by eapply close_progress|done].
  - intros i' Hadv. split; [by apply progress_false|done].
Qed.

(** An item of an array is decoded into any memory: it is a message afterwards,
    or was not touched. *)
Lemma submessage_item f d i l a b :
  is_htype PB_HTYPE_REPEATED f = true → f_ptr f = FSubmsg d → (d < N)%nat →
  msg_fits descs d (Z.to_nat (f_data_size f)) → iwf i → i_bytes_left i <= bound →
  (a + Z.to_nat (f_data_size f) <= length b)%nat →
  runs (pb_dec_submessage descs exts noinit f (l, Z.of_nat a)) i l (span a (Z.to_nat (f_data_size f))) b []
    (λ r i' b' fp', progress r i i' ∧
       ((b' = b ∧ fp' = []) ∨ own d (mem_read a (Z.to_nat (f_data_size f)) b') fp')).
Proof.
  intros Hr Hp Hd Hfit Hi Hb Hl. unfold pb_dec_submessage. apply runs_let_sub; [done| |].
  - intros par sub Hsub. rewrite Hp, Hr. pose proof Hsub as (Hsw & Hsl & _). eapply runs_bind.
    + apply (pb_decode_with_runs d _ a l b sub); try done. lia.
    + intros r sub' b' fp' (Hadv & Ho & _) _. apply runs_seq, runs_close, runs_ret.
      split; [by eapply close_progress|by right].
  - intros i' Hadv. split; [by apply progress_false|by left].
Qed.

Lemma decoders_submessage f dest :
  is_ltype PB_LTYPE_SUBMESSAGE f = true → decoders f dest = pb_dec_submessage descs exts noinit f dest.
Proof.
  intros Hl. unfold PB_DECODERS, is_ltype in *. apply Z.eqb_eq in Hl. by rewrite Hl.
Qed.

Section Field.
Context (e : nat) (f : pb_field) (it : pb_field_iter) (l a s : nat) (tags : list Z).
Context (He : (e < N)%nat) (Hf : field_wf descs e f) (Hat : at_field it f l a s).

(** A value that is part of the struct. *)
Lemma item_runs i b fp :
  is_atype PB_ATYPE_STATIC f = true → is_htype PB_HTYPE_REPEATED f = false → iwf i → i_bytes_left i <= bound →
  room b f a s → item_own own f (mem_read a (dlen f) b) fp →
  runs (decoders f (l, Z.of_nat a)) i l (span a (dlen f)) b fp
    (λ r i' b' fp', progress r i i' ∧ item_own own f (mem_read a (dlen f) b') fp').
Proof using Hwf Hdown He Hf Hat.
  intros Ha Hr Hi Hb [Hra _] Hown. rewrite (dlen_single f Ha Hr) in *.
  inversion Hown as [d fp' Hl Hp Ho|Hl]; subst.
  - destruct (wf_submsg descs e f Hf Hl) as (d' & Hp' & Hd & Hfit & _).
    assert (d' = d) as -> by congruence. rewrite (decoders_submessage f _ Hl). eapply runs_conseq.
    + by apply (submessage_merge f d i l a b fp).
    + intros r i' b' fp' [Hpr Ho'] _. split; [done|]. by eapply item_submsg.
  - eapply runs_conseq.
    + apply (in_place_runs _ descs exts noinit e f i l a b []); try done. split; [done|by left].
    + intros r i' b' fp' [Hpr ->] _. split; [done|]. by apply item_plain.
Qed.

(** An item of a static array: nothing is owned, before and after. *)
Lemma static_elem_runs i b q :
  is_atype PB_ATYPE_STATIC f = true → is_htype PB_HTYPE_REPEATED f = true → iwf i → i_bytes_left i <= bound →
  (q + Z.to_nat (f_data_size f) <= length b)%nat →
  runs (decoders f (l, Z.of_nat q)) i l (span q (Z.to_nat (f_data_size f))) b []
    (λ r i' b' fp', progress r i i' ∧ fp' = []).
Proof using Hwf Hdown He Hf Hat.
  intros Ha Hr Hi Hb Hq. destruct (is_ltype PB_LTYPE_SUBMESSAGE f) eqn:Hl.
  - destruct (wf_submsg descs e f Hf Hl) as (d & Hp & Hd & Hfit & Hst). destruct (Hst Ha) as (_ & Hin & _).
    rewrite (decoders_submessage f _ Hl). eapply runs_conseq.
    + by apply (submessage_item f d i l q b).
    + intros r i' b' fp' [Hpr [[-> ->]|Ho]] _; [done|]. split; [done|].
      eapply ptr_free_own; [|exact Ho]. by apply inert_ptr_free, Hin.
  - apply (in_place_runs _ descs exts noinit e f i l q b []); try done. split; [done|by left].
Qed.

(** The state of a static array: only its count matters. *)
Definition array_state (b : block) : Prop := ∃ c, b !! s = Some (MByte c) ∧ 0 <= c <= f_array_size f.

Lemma static_packed_runs fuel : ∀ i b,
  is_atype PB_ATYPE_STATIC f = true → is_htype PB_HTYPE_REPEATED f = true → iwf i →
  i_bytes_left i <= bound → (Z.to_nat (i_bytes_left i) < fuel)%nat → room b f a s → array_state b →
  runs (static_packed_loop descs exts noinit fuel it) i l (region f a s) b []
    (λ _ i' b' fp', i_advance i i' ∧ fp' = [] ∧ array_state b').
Proof using Hwf Hdown He Hf Hat.
  induction fuel as [|fuel IH]; intros i b Ha Hr Hi Hb Hfu Hroom (c & Hs & Hc); [lia|].
  destruct Hat as (Hit & HpD & HpS). specialize (HpS (slot_repeated f Hr)).
  cbn [static_packed_loop]. rewrite Hit, HpD, HpS. apply runs_seq, runs_bytes_left.
  assert (array_state b) as Hst by by exists c.
  destruct (Z.leb_spec (i_bytes_left i) 0) as [|Hpos]; [apply runs_ret; split; [by apply i_advance_refl|done]|].
  apply runs_seq, (runs_ld_u8 _ s c); [done|].
  destruct (Z.leb_spec (f_array_size f) c) as [|Hlt]; [apply runs_ret; split; [by apply i_advance_refl|done]|].
  rewrite (static_elem_addr descs e f Hf) by lia.
  eapply runs_bind.
  - eapply runs_weaken; [apply (static_elem_runs i b); try done; exact (elem_room descs e f Hf a s c b Ha Hr ltac:(lia) Hroom)|exact (elem_region descs e f Hf a s c Ha Hr ltac:(lia))|].
    intros r i' b' fp' HQ Hoff. exact (conj HQ Hoff).
  - intros r i' b' fp' [[[Hadv Hpr] ->] Hoff] [Hlb _].
    pose proof (elem_slot descs e f Hf a s c b b' Ha Hr ltac:(lia) Hroom Hoff) as Hs'. rewrite Hs in Hs'.
    assert (array_state b') as Hst' by by exists c.
    destruct r; [|by apply runs_ret]. specialize (Hpr eq_refl).
    apply runs_seq, (runs_ld_u8 _ s c); [done|]. pose proof (lookup_lt_Some _ _ _ Hs').
    apply runs_seq, runs_st_u8; [done|right; split; [by apply slot_repeated|done]|].
    assert (u8 (c + 1) = c + 1) as Hu.
    { apply uwrap_id. destruct Hf as (_ & _ & Has & _). unfold is_uint. lia. }
    rewrite Hu. eapply runs_conseq.
    + apply IH; try done.
      * by eapply i_advance_wf.
      * lia.
      * destruct Hi as [[]]. lia.
      * eapply room_length; [|exact Hroom]. rewrite mem_write_length; simpl; lia.
      * exists (c + 1). split; [by apply lookup_write_one|lia].
    + intros r i2 b2 fp2 (Hadv2 & -> & Hst2) _. split; [by eapply i_advance_trans|done].
Qed.

(** What every decoder of a field does. *)
Definition field_decoded (i i' : istream) (b' : block) (fp' : footprint) : Prop :=
  i_advance i i' ∧ field_own own tags f (mem_read a (dlen f) b') (b' !! s) fp' ∧
  (is_htype PB_HTYPE_ONEOF f = true → b' !! s = Some (MByte (f_tag f))).

(** A member of a union, once [which_] says so. *)
Lemma static_oneof_runs i b :
  is_atype PB_ATYPE_STATIC f = true → is_htype PB_HTYPE_ONEOF f = true → iwf i → i_bytes_left i <= bound →
  room b f a s → b !! s = Some (MByte (f_tag f)) →
  runs ((if is_ltype PB_LTYPE_SUBMESSAGE f then
           memset0 (l, Z.of_nat a) (f_data_size f) ;;;
           match f_ptr f with
           | FSubmsg d => pb_message_set_to_defaults descs exts d (l, Z.of_nat a)
           | _ => undefined
           end
         else ret tt) ;;; decoders f (l, Z.of_nat a)) i l (region f a s) b []
    (λ _ i' b' fp', field_decoded i i' b' fp').
Proof using Hwf Hdown He Hf Hat.
  intros Ha Ho Hi Hb Hroom Hs. pose proof (htype_oneof_repeated f Ho) as Hr. pose proof Hroom as [Hra _].
  pose proof (dlen_single f Ha Hr) as Hd. eapply runs_weaken with (T := span a (dlen f)).
  - eapply runs_bind with (Q := λ _ i' b' fp', i' = i ∧ fp' = [] ∧ item_own own f (mem_read a (dlen f) b') []).
    + destruct (is_ltype PB_LTYPE_SUBMESSAGE f) eqn:Hl.
      * destruct (wf_submsg descs e f Hf Hl) as (d & Hp & Hdn & Hfit & _). rewrite Hp, Hd in *.
        apply runs_seq, runs_st; rewrite ?length_replicate; [done|done|].
        eapply runs_conseq.
        { apply (set_to_defaults_runs _ descs exts Hwf d _ a l _ i); try done.
          rewrite mem_write_length; rewrite ?length_replicate; done. }
        intros [] i' b' fp' (-> & -> & Hown) _. do 2 (split; [done|]). by eapply item_submsg.
      * apply runs_ret. do 2 (split; [done|]). by apply item_plain.
    + intros [] i' b' fp' (-> & -> & Hown) [Hlb _]. eapply runs_conseq.
      * apply (item_runs i b' []); try done. by eapply room_length.
      * intros r i' b2 fp2 HQ _. exact HQ.
  - by left.
  - intros r i' b' fp' [[Hadv _] Hown] Hoff. pose proof (span_slot f a s b b' Hroom (slot_oneof f Ho) Hoff) as Hs'.
    split; [done|]. rewrite Hs', Hs. split; [|done]. by eapply own_oneof.
Qed.

Lemma decode_static_runs wt i b fp :
  is_atype PB_ATYPE_STATIC f = true → iwf i → i_bytes_left i <= bound → room b f a s →
  field_own own tags f (mem_read a (dlen f) b) (b !! s) fp →
  runs (decode_static_field descs exts noinit wt it) i l (region f a s) b fp
    (λ _ i' b' fp', field_decoded i i' b' fp').
Proof using Hwf Hdown He Hf Hat.
  intros Ha Hi Hb Hroom Hown. pose proof Hat as (Hit & HpD & HpS). pose proof Hroom as [Hra Hrs].
  pose proof (atype_static f Ha) as Hnp. unfold decode_static_field. rewrite Hit, HpD.
  (* a single value *)
  assert (∀ b fp, room b f a s → is_htype PB_HTYPE_REPEATED f = false → is_htype PB_HTYPE_ONEOF f = false →
    item_own own f (mem_read a (dlen f) b) fp →
    runs (decoders f (l, Z.of_nat a)) i l (region f a s) b fp (λ _ i' b' fp', field_decoded i i' b' fp')) as Hsingle.
  { intros b' fp' Hroom' Hr Ho Hitem. eapply runs_weaken; [by apply (item_runs i b' fp')|by left|].
    intros r i' b2 fp2 [[Hadv _] Hitem'] _. split; [done|]. split; [by apply own_single|]. congruence. }
  destruct (is_htype PB_HTYPE_REQUIRED f) eqn:Ereq.
  { destruct (htype_required _ Ereq) as (_ & Hr & Ho). inversion Hown; subst; try congruence. by apply Hsingle. }
  destruct (is_htype PB_HTYPE_OPTIONAL f) eqn:Eopt.
  { destruct (htype_optional _ Eopt) as (Hr & Ho). inversion Hown; subst; try congruence.
    pose proof (slot_optional f Ha Eopt) as Hsl. rewrite (HpS Hsl). destruct (Hrs Hsl) as [Hsb _].
    apply runs_seq, runs_st_u8; [done|by right|].
    destruct (slot_write f a s (MByte (u8 1)) b Hsl Hroom) as (Hd & _ & Hroom'). apply Hsingle; try done. by rewrite Hd. }
  destruct (is_htype PB_HTYPE_REPEATED f) eqn:Er.
  - assert (is_htype PB_HTYPE_ONEOF f = false) as Hno.
    { apply not_true_is_false. intros Ho%htype_oneof_repeated. congruence. }
    inversion Hown as [|c _ _ Hs Hc| | | |]; subst; try congruence.
    pose proof (slot_repeated f Er) as Hsl. rewrite (HpS Hsl). destruct (Hrs Hsl) as [Hsb _].
    assert (∀ i' b', i_advance i i' → array_state b' → field_decoded i i' b' []) as Hend.
    { intros i' b' Hadv (c' & Hs' & Hc'). split; [done|]. split; [by eapply own_array|congruence]. }
    destruct ((wt =? PB_WT_STRING) && is_packable f).
    + apply runs_let_sub; [done| |].
      * intros par sub Hsub. pose proof Hsub as (Hsw & Hsl' & _). apply runs_seq, runs_bytes_left.
        eapply runs_bind.
        { apply (static_packed_runs _ sub b); try done; [lia|lia|]. by exists c. }
        intros r sub' b' fp' (Hadv & -> & Hst) _. apply runs_seq, runs_bytes_left.
        apply runs_seq, runs_close. destruct (close_progress i par sub sub' true Hsub Hadv) as [Hcl _].
        case_match; [apply runs_ret; by apply Hend|]. apply runs_fail. apply Hend; [|done]. by apply i_advance_set_error.
      * intros i' Hadv. apply Hend; [done|]. by exists c.
    + apply runs_seq, (runs_ld_u8 _ s c); [done|].
      destruct (Z.leb_spec (f_array_size f) c) as [|Hlt].
      { apply runs_fail. apply Hend; [by apply i_advance_set_error, i_advance_refl|by exists c]. }
      rewrite (static_elem_addr descs e f Hf) by lia. apply runs_seq, runs_st_u8; [done|by right|].
      destruct (slot_write f a s (MByte (u8 (c + 1))) b Hsl Hroom) as (_ & Hs' & Hroom').
      assert (u8 (c + 1) = c + 1) as Hu.
      { apply uwrap_id. destruct Hf as (_ & _ & Has & _). unfold is_uint. lia. }
      rewrite Hu in *. eapply runs_weaken.
      * apply (static_elem_runs i _ (a + Z.to_nat (f_data_size f) * Z.to_nat c)); try done.
        exact (elem_room descs e f Hf a s c _ Ha Er ltac:(lia) Hroom').
      * exact (elem_region descs e f Hf a s c Ha Er ltac:(lia)).
      * intros r i' b' fp' [[Hadv _] ->] Hoff. apply Hend; [done|].
        exists (c + 1). split; [|lia]. rewrite <-Hs'. exact (elem_slot descs e f Hf a s c _ b' Ha Er ltac:(lia) Hroom' Hoff).
  - destruct (is_htype PB_HTYPE_ONEOF f) eqn:Eo.
    2: { destruct (htype_cases f) as [|[|[|]]]; congruence. }
    pose proof (slot_oneof f Eo) as Hsl. rewrite (HpS Hsl). destruct (Hrs Hsl) as [Hsb _].
    assert (fp = []) as ->.
    { inversion Hown as [| |w ? _ _ Hs Hi' Hn| | |]; subst; try congruence.
      destruct (decide (w = f_tag f)) as [Hw|]; [|by apply Hn].
      specialize (Hi' Hw). inversion Hi' as [d ? Hl Hp Ho|]; subst; [|done].
      destruct (wf_submsg descs e f Hf Hl) as (d' & Hp' & _ & _ & Hst). destruct (Hst Ha) as (_ & _ & Hpf).
      assert (d' = d) as -> by congruence. by eapply ptr_free_own; [apply Hpf|]. }
    apply runs_seq, runs_st_u8; [done|by right|]. rewrite (tag_u8 descs e f Hf).
    destruct (slot_write f a s (MByte (f_tag f)) b Hsl Hroom) as (_ & Hs' & Hroom').
    by apply static_oneof_runs.
Qed.

(** ** Allocated fields *)

(** A string or a run of bytes, behind a pointer at [q]. *)
Lemma string_runs i l' q b p bs :
  is_atype PB_ATYPE_POINTER f = true → is_string_or_bytes f = true → iwf i → (q + PTR_SIZE <= length b)%nat →
  mem_read q PTR_SIZE b = ptr_bytes p → owns p bs →
  runs (decoders f (l', Z.of_nat q)) i l' (span q PTR_SIZE) b bs
    (λ r i' b' fp', progress r i i' ∧ ∃ p', mem_read q PTR_SIZE b' = ptr_bytes p' ∧ owns p' fp').
Proof using Hwf Hdown He Hf Hat.
  intros Ha Hs Hi Hl Hp Ho. unfold is_string_or_bytes, is_ltype in Hs. unfold PB_DECODERS, is_ltype.
  apply orb_true_iff in Hs as [ ->%Z.eqb_eq| ->%Z.eqb_eq]; cbn -[pb_dec_string pb_dec_bytes Z.of_nat];
    [by apply (pb_dec_string_pointer _ f p bs)|by apply (pb_dec_bytes_pointer _ f p bs)].
Qed.

(** An allocated value that is no string, in a block of its size. *)
Lemma value_runs i l' b fp :
  is_atype PB_ATYPE_POINTER f = true → is_htype PB_HTYPE_REPEATED f = false → is_string_or_bytes f = false →
  iwf i → i_bytes_left i <= bound → zlen b = f_data_size f → item_own own f b fp →
  runs (decoders f (l', 0)) i l' (λ _, True) b fp
    (λ r i' b' fp', progress r i i' ∧ item_own own f b' fp').
Proof using Hwf Hdown He Hf Hat.
  intros Ha Hr Hs Hi Hb Hl Hown. inversion Hown as [d fp' Hsub Hp Ho|Hsub]; subst.
  - destruct (wf_submsg descs e f Hf Hsub) as (d' & Hp' & Hd & Hfit & _).
    assert (d' = d) as -> by congruence. rewrite (decoders_submessage f _ Hsub). eapply runs_weaken.
    + apply (submessage_merge f d i l' 0 b fp); try done; [lia|].
      by rewrite <-Hl, Nat2Z.id, mem_read_whole.
    + done.
    + intros r i' b' fp' [Hpr Ho'] [Hlb _]. split; [done|]. eapply item_submsg; [done|done|].
      by rewrite <-Hl, Nat2Z.id, <-Hlb, mem_read_whole in Ho'.
  - eapply runs_weaken.
    + apply (in_place_runs _ descs exts noinit e f i l' 0 b []); try done; [split; [done|by right]|lia].
    + done.
    + intros r i' b' fp' [Hpr ->] _. split; [done|]. by apply item_plain.
Qed.

(** A value that is not repeated: an old submessage has been released. *)
Lemma pointer_value_runs i b fp :
  is_atype PB_ATYPE_POINTER f = true → is_htype PB_HTYPE_REPEATED f = false → iwf i → i_bytes_left i <= bound →
  room b f a s → ptr_own own f (mem_read a (dlen f) b) fp →
  (is_ltype PB_LTYPE_SUBMESSAGE f = true → mem_read a (dlen f) b = ptr_bytes VNull ∧ fp = []) →
  runs (if is_string_or_bytes f then decoders f (l, Z.of_nat a)
        else
          allocate_field (l, Z.of_nat a) (f_data_size f) 1 &&?
          let* p := ld_ptr (l, Z.of_nat a) in
          let* q := deref p in
          initialize_pointer_field descs exts q it ;;;
          let* p := ld_ptr (l, Z.of_nat a) in
          let* q := deref p in
          decoders f q) i l (span a (dlen f)) b fp
    (λ _ i' b' fp', i_advance i i' ∧ ptr_own own f (mem_read a (dlen f) b') fp').
Proof using Hwf Hdown He Hf Hat.
  intros Ha Hr Hi Hb [Hra _] Hown Hnull. pose proof Hat as (Hit & _). rewrite (dlen_pointer f Ha) in *.
  pose proof Hf as (_ & Hds & _). destruct (is_string_or_bytes f) eqn:Es.
  - assert (∃ p, mem_read a PTR_SIZE b = ptr_bytes p ∧ owns p fp) as (p & Hp & Ho).
    { inversion Hown as [Hn|l2 b2 _ Hn|l2 b2 fp2 Hs' _ _ Hn]; [exists VNull| |congruence].
      - split; [done|by left].
      - exists (VLoc l2 0). split; [done|]. right. eauto. }
    eapply runs_conseq; [by apply (string_runs i l a b p fp)|].
    intros r i' b' fp' [[Hadv _] (p' & Hp' & Ho')] _. split; [done|]. rewrite Hp'.
    destruct Ho' as [[-> ->]|(l2 & b2 & -> & ->)]; [constructor|by apply ptr_str].
  - assert (∃ p, mem_read a PTR_SIZE b = ptr_bytes p ∧ owns p fp) as (p & Hp & Ho).
    { inversion Hown as [Hn|l2 b2 Hs' Hn|l2 b2 fp2 _ Hl2 Hi2 Hn]; [exists VNull|congruence|].
      - split; [done|by left].
      - exists (VLoc l2 0). split; [done|]. right. exists l2, b2. split; [done|].
        destruct (is_ltype PB_LTYPE_SUBMESSAGE f) eqn:El.
        + destruct (Hnull eq_refl) as [Hz _]. rewrite Hz in Hn. done.
        + inversion Hi2; subst; [congruence|done]. }
    eapply runs_bind; [apply (allocate_field_runs _ p fp (f_data_size f) 1); try done; lia|].
    intros r i' b' fp' [(-> & -> & l' & Hp' & ->)|(-> & Hadv & -> & -> & _)] [Hlb _].
    2: { apply runs_ret. done. }
    set (b2 := resize _ _). assert (zlen b2 = f_data_size f) as Hb2 by (unfold b2; rewrite length_resize; lia).
    apply runs_seq, (runs_ld_ptr _ a (VLoc l' 0)); [lia|done|]. apply runs_seq, runs_deref.
    eapply runs_bind with (Q := λ _ i2 b2' fp2, i2 = i ∧ b2' = b' ∧ ∃ b3 fp3, fp2 = (l', b3) :: fp3 ∧
      zlen b3 = f_data_size f ∧ item_own own f b3 fp3).
    + unfold initialize_pointer_field. rewrite Hit, Es.
      destruct (is_ltype PB_LTYPE_SUBMESSAGE f) eqn:El.
      * destruct (wf_submsg descs e f Hf El) as (d & Hpd & Hd & Hfit & _). rewrite Hpd. eapply runs_conseq.
        -- apply runs_inside, (set_to_defaults_runs _ descs exts Hwf d (Z.to_nat (f_data_size f)) 0 l' b2 i); [done|exact Hfit|lia].
        -- intros [] i2 b3 fp3 (-> & b4 & fp4 & -> & [Hl4 _] & -> & -> & Ho4) _. do 2 (split; [done|]).
           exists b4, []. split; [done|]. split; [lia|]. eapply item_submsg; [done|done|].
           rewrite <-Hb2, Nat2Z.id, <-Hl4, mem_read_whole in Ho4. done.
      * apply runs_ret. do 2 (split; [done|]). exists b2, []. split; [done|]. split; [done|]. by apply item_plain.
    + intros [] i2 b2' fp2 (-> & -> & b3 & fp3 & -> & Hb3 & Hi3) _.
      apply runs_seq, (runs_ld_ptr _ a (VLoc l' 0)); [lia|done|]. apply runs_seq, runs_deref.
      eapply runs_conseq; [apply runs_inside, (value_runs i l' b3 fp3); done|].
      intros r i2 b4 fp4 (-> & b5 & fp5 & -> & [Hl5 _] & [Hadv _] & Hi5) _. split; [done|].
      rewrite Hp'. apply ptr_item; [done|lia|done].
Qed.

End Field.
End Level.
End Items.
