(* ===== verification/PbPointers.v ===== *)
(** The fields with allocated storage: single values, replaced or merged, and
    arrays, grown item by item or from a packed run. *)

From S2P Require Import Prelude PbStream PbMem PbFields PbDecode PbShape PbRuns PbOwn PbPlace PbDefaults PbRelease PbValues PbItems.

Open Scope Z_scope.

Section Pointers.
Context (descs : list (list pb_field)) (exts : list extension_type).
Context (Hwf : wf_descs descs).

Abbreviation desc := (descriptor descs).
Abbreviation own := (msg_own descs).
Abbreviation N := (length descs).
Abbreviation runs := (runs (no_pointer_arrays descs)).

Context (noinit : nat → addr → M bool) (bound : Z) (Hdown : noinit_spec descs noinit bound).

Abbreviation decoders := (PB_DECODERS descs exts noinit).

Context (e : nat) (f : pb_field) (it : pb_field_iter) (l a s : nat) (tags : list Z).
Context (He : (e < N)%nat) (Hf : field_wf descs e f) (Hat : at_field it f l a s).
Context (Hin : f ∈ desc e).

Abbreviation decoded := (field_decoded descs f a s tags).

(** ** Items of an array *)

(** A new item, in memory with any contents. *)
Lemma new_elem_runs i l' q b :
  is_atype PB_ATYPE_POINTER f = true → is_htype PB_HTYPE_REPEATED f = true → iwf i → i_bytes_left i <= bound →
  (q + Z.to_nat (f_data_size f) <= length b)%nat →
  runs (initialize_pointer_field descs exts (l', Z.of_nat q) it ;;; decoders f (l', Z.of_nat q)) i l'
    (span q (Z.to_nat (f_data_size f))) b []
    (λ r i' b' fp', progress r i i' ∧ elem_own own f (mem_read q (Z.to_nat (f_data_size f)) b') fp').
Proof using Hwf Hdown He Hf Hat.
  intros Ha Hr Hi Hb Hq. pose proof Hat as (Hit & _). pose proof Hf as (_ & Hds & _).
  pose proof Hf as (_ & _ & _ & _ & _ & _ & _ & _ & _ & Hpt). destruct (Hpt Ha) as [_ Hps].
  unfold initialize_pointer_field. rewrite Hit.
  destruct (is_string_or_bytes f) eqn:Es.
  { assert (Z.to_nat (f_data_size f) = PTR_SIZE) as Hd by (rewrite (Hps Hr eq_refl); done). rewrite Hd in *.
    apply runs_seq, runs_st; rewrite ?length_ptr_bytes; [done|done|].
    eapply runs_conseq; [apply (string_runs descs exts Hwf noinit bound Hdown e f it l a s He Hf Hat i l' q _ VNull []); try done|].
    - rewrite mem_write_length; rewrite ?length_ptr_bytes; done.
    - apply mem_read_write; [done|apply length_ptr_bytes].
    - by left.
    - intros r i' b' fp' [Hpr (p' & Hp' & Ho')] _. split; [done|]. rewrite Hp'. by apply elem_str. }
  destruct (is_ltype PB_LTYPE_SUBMESSAGE f) eqn:El.
  - destruct (wf_submsg descs e f Hf El) as (d & Hp & Hd & Hfit & _). rewrite Hp. eapply runs_bind.
    + by apply (set_to_defaults_runs _ descs exts Hwf d (Z.to_nat (f_data_size f)) q l' b i).
    + intros [] i' b' fp' (-> & -> & Hown) [Hlb _]. rewrite (decoders_submessage descs exts noinit f _ El).
      eapply runs_conseq.
      * apply (submessage_item descs exts Hwf noinit bound Hdown f d i l' q b'); try done. lia.
      * intros r i' b2 fp2 [Hpr Hor] _. split; [done|]. apply elem_item; [done|]. eapply item_submsg; [done|done|].
        by destruct Hor as [[-> ->]|Ho].
  - apply runs_seq, runs_ret. eapply runs_conseq.
    + apply (in_place_runs _ descs exts noinit e f i l' q b []); try done. split; [done|by right].
    + intros r i' b' fp' [Hpr ->] _. split; [done|]. apply elem_item; [done|]. by apply item_plain.
Qed.

(** ** One item at a time *)

Lemma array_alloc : is_atype PB_ATYPE_POINTER f = true → is_htype PB_HTYPE_REPEATED f = true →
  no_pointer_arrays descs = false.
Proof using Hin He.
  intros Ha Hr. apply not_true_is_false. intros Hn. unfold no_pointer_arrays in Hn.
  rewrite forallb_forall in Hn. unfold descriptor in Hin.
  destruct (lookup_lt_is_Some_2 descs e He) as [fields Hfs]. rewrite Hfs in Hin. simpl in Hin.
  specialize (Hn fields (proj1 (list_elem_of_In _ _) (list_elem_of_lookup_2 _ _ _ Hfs))).
  rewrite forallb_forall in Hn. specialize (Hn f (proj1 (list_elem_of_In _ _) Hin)).
  by rewrite Ha, Hr in Hn.
Qed.

Lemma elem_read k (b : block) :
  elem f k b = mem_read (k * Z.to_nat (f_data_size f)) (Z.to_nat (f_data_size f)) b.
Proof. done. Qed.

(** The array with one more item. *)
Lemma arr_own_snoc l' b b0 fps fp :
  zlen fps * f_data_size f <= zlen b0 →
  (∀ k fp, fps !! k = Some fp → elem_own own f (elem f k b0) fp) →
  (∀ k, (k < length fps)%nat → elem f k b = elem f k b0) →
  (zlen fps + 1) * f_data_size f <= zlen b → elem_own own f (elem f (length fps) b) fp →
  arr_own own f (ptr_bytes (VLoc l' 0)) (zlen fps + 1) ((l', b) :: concat (fps ++ [fp])).
Proof.
  intros Hr0 Ho0 Hsame Hroom Hnew.
  replace (zlen fps + 1) with (zlen (fps ++ [fp])) by (rewrite length_app; simpl; lia).
  constructor; [by rewrite length_app, Nat2Z.inj_add|]. intros k x Hk.
  apply lookup_app_Some in Hk as [Hk|[Hl Hk]].
  - rewrite Hsame by by eapply lookup_lt_Some. by apply Ho0.
  - destruct (k - length fps)%nat eqn:E; [|done]. simpl in Hk. simplify_eq.
    by replace k with (length fps) by lia.
Qed.

Lemma append_runs i b fp c :
  is_atype PB_ATYPE_POINTER f = true → is_htype PB_HTYPE_REPEATED f = true → iwf i → i_bytes_left i <= bound →
  room b f a s → b !! s = Some (MByte c) → 0 <= c < PB_SIZE_MAX →
  arr_own own f (mem_read a (dlen f) b) c fp →
  runs (st_u8 (l, Z.of_nat s) (c + 1) ;;;
        (allocate_field (l, Z.of_nat a) (f_data_size f) (c + 1) &&?
         let* p := ld_ptr (l, Z.of_nat a) in
         let* q := deref p in
         initialize_pointer_field descs exts (padd q (f_data_size f * c)) it ;;;
         decoders f (padd q (f_data_size f * c)))) i l (region f a s) b fp
    (λ _ i' b' fp', decoded i i' b' fp').
Proof using Hwf Hdown He Hf Hat Hin.
  intros Ha Hr Hi Hb Hroom Hs Hc Hown. pose proof Hroom as [Hra Hrs].
  pose proof (slot_repeated f Hr) as Hsl. destruct (Hrs Hsl) as [Hsb _]. pose proof Hf as (_ & Hds & _).
  unfold PB_SIZE_MAX in Hc. assert (u8 (c + 1) = c + 1) as Hu by (apply uwrap_id; unfold is_uint; lia).
  pose proof (wf_not_oneof f Hr) as Hno.
  apply runs_seq, runs_st_u8; [done|by right|]. rewrite Hu.
  destruct (slot_write f a s (MByte (c + 1)) b Hsl Hroom) as (Hd & Hs' & Hroom').
  set (b1 := mem_write s [MByte (c + 1)] b) in *. pose proof (dlen_pointer f Ha) as Hdl.
  (* the old array *)
  assert (∃ p bs fps, mem_read a PTR_SIZE b1 = ptr_bytes p ∧ owns p bs ∧ fp = bs ++ concat fps ∧ c = zlen fps ∧
    let b0 := default [] (snd <$> head bs) in
    zlen fps * f_data_size f <= zlen b0 ∧ ∀ k fp, fps !! k = Some fp → elem_own own f (elem f k b0) fp)
    as (p & bs & fps & Hp & Ho & -> & Hcf & Hroom0 & Hel0).
  { rewrite <-Hdl, Hd. inversion Hown as [Hn Hz|l2 b2 fps Hrm Hel Hn Hz]; subst.
    - exists VNull, [], []. split; [done|]. split; [by left|]. done.
    - exists (VLoc l2 0), [(l2, b2)], fps. split; [done|]. split; [right; eauto|]. done. }
  set (b0 := default [] (snd <$> head bs)) in *.
  eapply runs_bind.
  { eapply runs_weaken; [apply (runs_frame _ _ i l (span a PTR_SIZE) b1 bs (concat fps))|left; by rewrite Hdl|].
    - apply (allocate_field_runs _ p bs (f_data_size f) (c + 1)); try done; try lia. destruct Hroom'. lia.
    - intros r i' b' fp' HQ Hoff. exact (conj HQ Hoff). }
  intros r i' b2 fp2 [(fp0 & -> & [(-> & -> & l' & Hp' & ->)|(_ & _ & _ & _ & Hbad)]) Hoff] _.
  2: { exfalso. rewrite (array_alloc Ha Hr) in Hbad. destruct Hbad as [|[|]]; [done|lia|lia]. }
  replace (default [] (snd <$> head bs)) with b0 by done.
  set (bn := resize (Z.to_nat ((c + 1) * f_data_size f)) b0).
  assert (zlen bn = (c + 1) * f_data_size f) as Hbn by (unfold bn; rewrite length_resize; nia).
  assert (b2 !! s = Some (MByte (c + 1))) as Hs2.
  { rewrite <-Hs'. apply (span_slot f a s b1 b2 Hroom' Hsl). by rewrite Hdl. }
  destruct Hoff as [Hl2 Hoff2]. destruct Hroom' as [Hra' _].
  apply runs_seq, (runs_ld_ptr _ a (VLoc l' 0)); [lia|done|]. apply runs_seq, runs_deref.
  rewrite (next_elem_addr descs e f Hf) by lia.
  assert (Z.to_nat c * Z.to_nat (f_data_size f) + Z.to_nat (f_data_size f) <= length bn)%nat as Hq by nia.
  eapply runs_perm_post.
  { change ([(l', bn)] ++ concat fps) with ((l', bn) :: [] ++ concat fps). apply runs_inside, runs_frame.
    by apply (new_elem_runs i l' _ bn). }
  intros r i2 b3 fp3 (-> & bn' & fp4 & -> & Hoffn & fp5 & -> & [Hadv _] & Hnew) _.
  assert (Z.to_nat c = length fps) as Hcn by lia. rewrite Hcn in *.
  exists ((l', bn') :: concat (fps ++ [fp5])). split.
  { constructor. rewrite concat_app. cbn [concat]. rewrite app_nil_r. apply Permutation_app_comm. }
  pose proof Hoffn as [Hln _]. split; [done|]. rewrite Hdl, Hp', Hs2. split; [|congruence].
  eapply (own_ptr_array _ _ _ _ _ (c + 1)); [done|done|done|unfold PB_SIZE_MAX; lia|].
  rewrite Hcf. apply (arr_own_snoc l' bn' b0); [done|done| |rewrite Hln; nia|done].
  intros k Hk. rewrite (elem_same_off f k (length fps) bn bn') by (done || lia).
  apply mem_read_resize; nia.
Qed.

(** ** A packed run *)

(** Numbers own nothing: there is room for [allocated] of them. *)
Definition packed_state (b : block) (fp : footprint) (c allocated : Z) : Prop :=
  b !! s = Some (MByte c) ∧ 0 <= c <= PB_SIZE_MAX ∧ c <= allocated ∧
  ((mem_read a PTR_SIZE b = ptr_bytes VNull ∧ fp = [] ∧ allocated = 0) ∨
   ∃ l' b0, mem_read a PTR_SIZE b = ptr_bytes (VLoc l' 0) ∧ fp = [(l', b0)] ∧
     allocated * f_data_size f <= zlen b0).

Lemma packed_own b fp c allocated :
  is_atype PB_ATYPE_POINTER f = true → is_htype PB_HTYPE_REPEATED f = true → is_packable f = true →
  packed_state b fp c allocated → field_own own tags f (mem_read a (dlen f) b) (b !! s) fp.
Proof using Hwf Hdown He Hf Hat.
  intros Ha Hr Hpk (Hs & Hc & Hca & Hp). rewrite (dlen_pointer f Ha).
  destruct (packable_plain f Hpk) as [Hns Hsb].
  eapply (own_ptr_array _ _ _ _ _ c); [done|done|done|done|].
  destruct Hp as [(-> & -> & ->)|(l' & b0 & -> & -> & Hroom)].
  - replace c with 0 by lia. constructor.
  - pose proof Hf as (_ & Hds & _).
    set (fps := replicate (Z.to_nat c) ([] : footprint)).
    assert (concat fps = []) as Hnil by by apply concat_nil_Forall, Forall_replicate.
    assert (zlen fps = c) as Hlen by (unfold fps; rewrite length_replicate; lia).
    rewrite <-Hlen, <-Hnil. constructor.
    + nia.
    + intros k x Hk. apply lookup_replicate in Hk as [-> _]. apply elem_item; [done|]. by apply item_plain.
Qed.

Lemma packed_state_of b fp c :
  is_atype PB_ATYPE_POINTER f = true → is_packable f = true → b !! s = Some (MByte c) → 0 <= c <= PB_SIZE_MAX →
  arr_own own f (mem_read a (dlen f) b) c fp → packed_state b fp c c.
Proof using Hwf Hdown He Hf Hat.
  intros Ha Hpk Hs Hc Hown. rewrite (dlen_pointer f Ha) in Hown.
  destruct (packable_plain f Hpk) as [Hns Hsb].
  do 2 (split; [done|]). split; [done|]. inversion Hown as [Hn Hz|l2 b2 fps Hrm Hel Hn Hz]; subst.
  - left. done.
  - right. exists l2, b2. split; [done|]. split; [|done]. f_equal.
    apply concat_nil_Forall, Forall_lookup. intros k x Hk. specialize (Hel k x Hk).
    inversion Hel as [|? ? _ Hi]; subst; [congruence|]. inversion Hi; subst; [congruence|done].
Qed.

Lemma pointer_packed_runs fuel : ∀ i b fp c allocated,
  is_atype PB_ATYPE_POINTER f = true → is_htype PB_HTYPE_REPEATED f = true → is_packable f = true → iwf i →
  i_bytes_left i <= bound → i_bytes_left i < 2 ^ 32 → (Z.to_nat (i_bytes_left i) < fuel)%nat → room b f a s →
  packed_state b fp c allocated →
  runs (pointer_packed_loop descs exts noinit fuel it allocated) i l (region f a s) b fp
    (λ _ i' b' fp', i_advance i i' ∧ ∃ c' allocated', packed_state b' fp' c' allocated').
Proof using Hwf Hdown He Hf Hat.
  induction fuel as [|fuel IH]; intros i b fp c allocated Ha Hr Hpk Hi Hb H32 Hfu Hroom Hst; [lia|].
  pose proof Hat as (Hit & HpD & HpS). pose proof (slot_repeated f Hr) as Hsl. specialize (HpS Hsl).
  pose proof Hroom as [Hra Hrs]. destruct (Hrs Hsl) as [Hsb Hso]. pose proof (dlen_pointer f Ha) as Hdl.
  pose proof Hf as (_ & Hds & _). rewrite Hdl in *.
  destruct (packable_plain f Hpk) as [Hns Hnsb].
  pose proof Hst as (Hs & Hc & Hca & Hp). unfold PB_SIZE_MAX in Hc.
  cbn [pointer_packed_loop]. rewrite Hit, HpD, HpS. apply runs_seq, runs_bytes_left.
  destruct (Z.eqb_spec (i_bytes_left i) 0) as [|Hpos].
  { apply runs_ret. split; [by apply i_advance_refl|eauto]. }
  apply runs_seq, (runs_ld_u8 _ s c); [done|]. rewrite (proj2 (Z.eqb_neq (f_data_size f) 0)), andb_false_r by lia.
  destruct Hi as [[H0 H1] Hbytes]. assert (iwf i) as Hi by done.
  (* room for an item *)
  set (grow := allocated <? c + 1).
  set (allocated' := if grow then u64 (allocated + ((i_bytes_left i - 1) / f_data_size f + 1)) else allocated).
  assert (grow = true → allocated = c ∧ c + 1 <= allocated' < 2 ^ 33) as Hgrow.
  { intros Hg. unfold grow in Hg. apply Z.ltb_lt in Hg. assert (allocated = c) by lia. split; [done|].
    unfold allocated'. assert (grow = true) as -> by (by apply Z.ltb_lt).
    assert (0 <= (i_bytes_left i - 1) / f_data_size f <= i_bytes_left i - 1).
    { split; [apply Z.div_pos; lia|]. apply Z.div_le_upper_bound; nia. }
    rewrite uwrap_id by (unfold is_uint; lia). lia. }
  eapply runs_bind with (Q := λ (r : bool) i' b' fp', i_advance i i' ∧
    if r then i' = i ∧ b' !! s = Some (MByte c) ∧ ∃ l' b0, mem_read a PTR_SIZE b' = ptr_bytes (VLoc l' 0) ∧
      fp' = [(l', b0)] ∧ c + 1 <= allocated' ∧ allocated' * f_data_size f <= zlen b0
    else packed_state b' fp' c allocated).
  { destruct grow eqn:Eg.
    - destruct (Hgrow eq_refl) as [Hac Hal].
      assert (∃ p, mem_read a PTR_SIZE b = ptr_bytes p ∧ owns p fp) as (p & Hpp & Ho).
      { destruct Hp as [(? & -> & _)|(l' & b0 & ? & -> & _)]; [exists VNull|exists (VLoc l' 0)];
          (split; [done|]); [by left|right; eauto]. }
      eapply runs_weaken; [apply (allocate_field_runs _ p fp (f_data_size f) allocated'); try done; lia| |].
      + intros k Hk. left. by rewrite Hdl.
      + intros r i' b' fp' [(-> & -> & l' & Hp' & ->)|(-> & Hadv & -> & -> & _)] Hoff.
        * split; [by apply i_advance_refl|]. split; [done|].
          split; [rewrite <-Hs; apply (span_slot f a s b b' Hroom Hsl); by rewrite Hdl|].
          exists l'. eexists. split; [done|]. split; [done|]. split; [lia|]. rewrite length_resize. nia.
        * done.
    - apply runs_ret. split; [by apply i_advance_refl|]. split; [done|]. split; [done|].
      unfold grow in Eg. apply Z.ltb_ge in Eg. unfold allocated'.
      destruct Hp as [(_ & _ & ->)|(l' & b0 & Hp & -> & Hr0)]; [lia|]. exists l', b0. done. }
  intros r i' b' fp' [Hadv Hr'] [Hlb _]. destruct r; [|by apply runs_ret; eauto].
  destruct Hr' as (-> & Hs' & l' & b0 & Hp' & -> & Hc1 & Hroom0).
  apply runs_seq, (runs_ld_ptr _ a (VLoc l' 0)); [lia|done|]. apply runs_seq, runs_deref.
  apply runs_seq, (runs_ld_u8 _ s c); [done|]. rewrite (next_elem_addr descs e f Hf) by lia.
  unfold initialize_pointer_field. rewrite Hit, Hnsb, Hns. apply runs_seq, runs_ret.
  eapply runs_bind.
  { apply runs_inside, (in_place_runs _ descs exts noinit e f i l' _ b0 []); try done; [split; [done|by right]|]. nia. }
  intros r i2 b2 fp2 (-> & b1 & fp1 & -> & [Hl1 _] & [Hadv2 Hpr] & ->) _.
  assert (packed_state b' [(l', b1)] c allocated') as Hst'.
  { split; [done|]. split; [done|]. split; [lia|]. right. exists l', b1. rewrite Hl1. done. }
  destruct r; [|apply runs_ret; split; [done|eauto]]. specialize (Hpr eq_refl).
  apply runs_seq, (runs_ld_u8 _ s c); [done|]. unfold PB_SIZE_MAX.
  destruct (Z.eqb_spec c 255) as [|Hc255]; [apply runs_ret; split; [done|eauto]|].
  apply runs_seq, runs_st_u8; [lia|by right|].
  assert (u8 (c + 1) = c + 1) as -> by (apply uwrap_id; unfold is_uint; lia).
  assert (room b' f a s) as Hroom'.
  { eapply room_length; [exact Hlb|]. split; [by rewrite Hdl|]. rewrite Hdl. done. }
  destruct (slot_write f a s (MByte (c + 1)) b' Hsl Hroom') as (Hd & Hs2 & Hroom2).
  rewrite Hdl in Hd. eapply runs_conseq.
  - apply (IH i2 _ _ (c + 1) allocated'); try done; try lia.
    + by eapply i_advance_wf.
    + split; [done|]. split; [unfold PB_SIZE_MAX; lia|]. split; [lia|]. right. exists l', b1. rewrite Hd, Hl1. done.
  - intros r i3 b3 fp3 (Hadv3 & Hst3) _. split; [by eapply i_advance_trans|done].
Qed.

(** ** The field *)

(** Before a member of a union is decoded, what another member left there has
    been released. *)
Definition ready (b : block) : Prop :=
  is_htype PB_HTYPE_ONEOF f = true → b !! s ≠ Some (MByte (f_tag f)) →
  is_atype PB_ATYPE_POINTER f = true → mem_read a (dlen f) b = ptr_bytes VNull.

(** An old submessage is released before a new one is allocated. *)
Lemma release_old_runs i b fp :
  is_atype PB_ATYPE_POINTER f = true → is_htype PB_HTYPE_REPEATED f = false → room b f a s → ready b →
  field_own own tags f (mem_read a (dlen f) b) (b !! s) fp →
  runs (if is_ltype PB_LTYPE_SUBMESSAGE f then
          let* p := ld_ptr (l, Z.of_nat a) in
          match p with VNull => ret tt | _ => pb_release_single_field descs exts it end
        else ret tt) i l (region f a s) b fp
    (λ _ i' b' fp', i' = i ∧ length b' = length b ∧ ptr_own own f (mem_read a (dlen f) b') fp' ∧
       (is_ltype PB_LTYPE_SUBMESSAGE f = true → mem_read a (dlen f) b' = ptr_bytes VNull ∧ fp' = [])).
Proof using Hwf Hdown He Hf Hat.
  intros Ha Hr Hroom Hready Hown. pose proof Hroom as [Hra Hrs]. pose proof (atype_pointer f Ha) as Hns.
  pose proof (dlen_pointer f Ha) as Hdl.
  (* the pointer as it is *)
  assert (ptr_own own f (mem_read a (dlen f) b) fp ∨
    (is_htype PB_HTYPE_ONEOF f = true ∧ b !! s ≠ Some (MByte (f_tag f)) ∧ fp = [])) as Hp.
  { inversion Hown as [| | |? _ _ Ho Hp| |w ? p _ Ho Hs Hi Hn]; subst; try congruence; [by left|].
    destruct (decide (w = f_tag f)) as [Hw|Hw]; [left; by apply Hi|right]. destruct (Hn Hw) as [-> _].
    rewrite Hs. split; [done|]. split; [congruence|done]. }
  assert (ptr_own own f (mem_read a (dlen f) b) fp) as Hptr.
  { destruct Hp as [|(Ho & Hs & ->)]; [done|]. rewrite (Hready Ho Hs Ha). constructor. }
  destruct (is_ltype PB_LTYPE_SUBMESSAGE f) eqn:El; [|by apply runs_ret].
  assert (∃ p, mem_read a PTR_SIZE b = ptr_bytes p ∧ (p = VNull → fp = [])) as (p & Hpb & Hpn).
  { rewrite Hdl in Hptr. inversion Hptr as [Hn|l2 b2 _ Hn|l2 b2 fp2 _ _ _ Hn].
    - by exists VNull.
    - by exists (VLoc l2 0).
    - by exists (VLoc l2 0). }
  apply runs_seq, (runs_ld_ptr _ a p); [lia|done|].
  assert (runs (pb_release_single_field descs exts it) i l (region f a s) b fp
    (λ _ i' b' fp', i' = i ∧ length b' = length b ∧ ptr_own own f (mem_read a (dlen f) b') fp' ∧
       (true = true → mem_read a (dlen f) b' = ptr_bytes VNull ∧ fp' = [])) ∨ p = VNull) as Hrel.
  { destruct Hp as [_|(Ho & Hs & ->)].
    2: { right. pose proof (Hready Ho Hs Ha) as Hz. rewrite Hdl, Hpb in Hz. by destruct p. }
    destruct (decide (p = VNull)) as [|Hnn]; [by right|left]. eapply runs_conseq.
    - by apply (pb_release_single_field_runs descs exts Hwf e f it l a s b i fp tags).
    - intros [] i' b' fp' (-> & -> & Hlb & Hown' & Hun) _.
      assert (mem_read a (dlen f) b' = ptr_bytes VNull) as Hz; [|rewrite Hz; do 2 (split; [done|]); split; [constructor|done]].
      inversion Hown' as [| | |? _ _ Ho Hp| |w ? q _ Ho Hs Hi Hn]; subst; try congruence.
      + by inversion Hp.
      + destruct (Hun Ho) as [Hun1 Hun2]. destruct (decide (b !! s = Some (MByte (f_tag f)))) as [Hbs|Hbs].
        * by apply Hun2.
        * rewrite (Hun1 Hbs). by apply Hready. }
  destruct Hrel as [Hrel|Hz].
  - destruct p; [|done..]. apply runs_ret. rewrite (Hpn eq_refl) in *. rewrite Hdl, Hpb.
    do 2 (split; [done|]). split; [constructor|done].
  - rewrite Hz in *. apply runs_ret. rewrite (Hpn eq_refl) in *. rewrite Hdl, Hpb.
    do 2 (split; [done|]). split; [constructor|done].
Qed.

Lemma decode_pointer_runs wt i b fp :
  is_atype PB_ATYPE_POINTER f = true → iwf i → i_bytes_left i <= bound → room b f a s → ready b →
  field_own own tags f (mem_read a (dlen f) b) (b !! s) fp →
  runs (decode_pointer_field descs exts noinit wt it) i l (region f a s) b fp
    (λ _ i' b' fp', decoded i i' b' fp').
Proof using Hwf Hdown He Hf Hat Hin.
  intros Ha Hi Hb Hroom Hready Hown. pose proof Hat as (Hit & HpD & HpS). pose proof Hroom as [Hra Hrs].
  pose proof (atype_pointer f Ha) as Hns. unfold decode_pointer_field. rewrite Hit, HpD.
  destruct (is_htype PB_HTYPE_REPEATED f) eqn:Er.
  - pose proof (wf_not_oneof f Er) as Hno.
    inversion Hown as [| | | |c ? _ _ Hs Hc Harr|]; subst; try congruence.
    pose proof (slot_repeated f Er) as Hsl. rewrite (HpS Hsl).
    assert (∀ i', i_advance i i' → decoded i i' b fp) as Hsame by (intros; split; [done|split; [done|congruence]]).
    destruct ((wt =? PB_WT_STRING) && is_packable f) eqn:Epk.
    + apply andb_true_iff in Epk as [_ Hpk]. apply runs_seq, (runs_ld_u8 _ s c); [done|].
      apply runs_let_sub; [done| |done].
      intros par sub Hsub. pose proof Hsub as (Hsw & Hlt & _ & H32 & _). apply runs_seq, runs_bytes_left.
      eapply runs_bind.
      { apply (pointer_packed_runs _ sub b fp c c); try done; [lia|lia|]. by apply packed_state_of. }
      intros r sub' b' fp' (Hadv & c' & al' & Hst) _. apply runs_seq, runs_close, runs_ret.
      split; [by apply (close_progress i par sub sub' true)|]. split; [by eapply packed_own|congruence].
    + apply runs_seq, (runs_ld_u8 _ s c); [done|].
      destruct (Z.eqb_spec c PB_SIZE_MAX) as [|Hc255].
      { apply runs_fail, Hsame. by apply i_advance_set_error, i_advance_refl. }
      apply append_runs; try done. unfold PB_SIZE_MAX in *. lia.
  - eapply runs_bind; [by apply (release_old_runs i b fp)|].
    intros [] i' b' fp' (-> & Hlb & Hptr & Hnull) _.
    assert (room b' f a s) as Hroom' by by eapply room_length.
    set (value := if is_string_or_bytes f then _ else _).
    assert (∀ b fp, room b f a s → ptr_own own f (mem_read a (dlen f) b) fp →
      (is_ltype PB_LTYPE_SUBMESSAGE f = true → mem_read a (dlen f) b = ptr_bytes VNull ∧ fp = []) →
      (is_htype PB_HTYPE_ONEOF f = true → b !! s = Some (MByte (f_tag f))) →
      runs value i l (region f a s) b fp (λ _ i' b' fp', decoded i i' b' fp')) as Hvalue.
    { intros b2 fp2 Hroom2 Hptr2 Hnull2 Hone. eapply runs_weaken.
      - by apply (pointer_value_runs descs exts Hwf noinit bound Hdown e f it l a s He Hf Hat i b2 fp2).
      - by left.
      - intros r i2 b3 fp3 [Hadv Hptr3] Hoff. split; [done|].
        destruct (is_htype PB_HTYPE_ONEOF f) eqn:Eo.
        + pose proof (span_slot f a s b2 b3 Hroom2 (slot_oneof f Eo) Hoff) as Hs3.
          rewrite Hs3, (Hone eq_refl). split; [|done].
          eapply (own_ptr_oneof _ _ _ _ _ _ _ VNull); [done|done|done|done|done].
        + split; [by apply own_ptr|done]. }
    destruct (is_htype PB_HTYPE_ONEOF f) eqn:Eo.
    + pose proof (slot_oneof f Eo) as Hsl. rewrite (HpS Hsl). destruct Hroom' as [Hra' Hrs'].
      destruct (Hrs' Hsl) as [Hsb _]. apply runs_seq, runs_st_u8; [done|by right|].
      rewrite (tag_u8 descs e f Hf).
      destruct (slot_write f a s (MByte (f_tag f)) b' Hsl ltac:(done)) as (Hd & Hs' & Hroom2).
      apply Hvalue; [done| | |done]; by rewrite Hd.
    + apply runs_seq, runs_ret. by apply Hvalue.
Qed.

End Pointers.
