(* ===== verification/PbUnion.v ===== *)
(** Decoding one field of a struct: the old member of a union is released, the
    field is decoded, and the struct is well-shaped again. *)

From S2P Require Import Prelude PbStream PbMem PbFields PbDecode PbShape PbRuns PbOwn PbPlace PbDefaults PbRelease PbValues PbItems PbPointers.

Open Scope Z_scope.

Section Union.
Context (descs : list (list pb_field)) (exts : list extension_type).
Context (field_callback : nat → pb_field → addr → M bool).
Context (Hwf : wf_descs descs).

Abbreviation desc := (descriptor descs).
Abbreviation own := (msg_own descs).
Abbreviation N := (length descs).
Abbreviation runs := (runs (no_pointer_arrays descs)).

Context (noinit : nat → addr → M bool) (bound : Z) (Hdown : noinit_spec descs noinit bound).
Context (e n o l : nat) (Hfit : msg_fits descs e n).

Abbreviation at_index k g := (iter_at (desc e) (l, Z.of_nat o) k g.2).
Abbreviation tags_of g := (union_tags (desc e) (spos g.1 g.2)).
Abbreviation S_own := (struct_own descs e o).

(** ** Members of a union *)

Lemma in_union k g h :
  layout (desc e) !! k = Some g → same_union g h → f_tag g.1 ∈ tags_of h.
Proof.
  intros Hg (Ho & _ & Hp & Hs & _). unfold union_tags. apply list_elem_of_fmap. exists g. split; [done|].
  apply list_elem_of_filter. split; [|by eapply list_elem_of_lookup_2].
  split; [done|]. unfold spos. by rewrite Hp, Hs.
Qed.

Lemma union_member w g :
  w ∈ tags_of g → ∃ j h, layout (desc e) !! j = Some h ∧ f_tag h.1 = w ∧
    is_htype PB_HTYPE_ONEOF h.1 = true ∧ spos h.1 h.2 = spos g.1 g.2.
Proof.
  intros Hw. unfold union_tags in Hw. apply list_elem_of_fmap in Hw as (h & -> & Hh).
  apply list_elem_of_filter in Hh as [[Ho Hs] [j Hj]%list_elem_of_lookup_1]. by exists j, h.
Qed.

(** A member of a union: the value of [which_], and what follows from it. *)
Lemma oneof_own tags f data slot fp :
  is_htype PB_HTYPE_ONEOF f = true → field_own own tags f data slot fp →
  ∃ w, slot = Some (MByte w) ∧ (w ≠ f_tag f → fp = [] ∧
    (is_atype PB_ATYPE_POINTER f = true → ∃ p, data = ptr_bytes p ∧ (p = VNull ∨ w ∈ tags))).
Proof.
  intros Ho Hown. pose proof (htype_oneof_repeated f Ho) as Hr.
  inversion Hown as [| |w ? Ha _ Hs Hi Hn| | |w ? p Ha _ Hs Hi Hn]; subst; try congruence; exists w;
    (split; [done|]); intros Hw.
  - split; [by apply Hn|]. intros Hp. apply atype_pointer in Hp. congruence.
  - destruct (Hn Hw) as (-> & Hd & Hor). split; [done|]. intros _. by exists p.
Qed.

Definition no_siblings (k : nat) (g : pb_field * Z) (fps : list footprint) : Prop :=
  ∀ j h fp, j ≠ k → layout (desc e) !! j = Some h → same_union g h → fps !! j = Some fp → fp = [].

Lemma union_slot b g h : same_union g h → fslot o b h = fslot o b g.
Proof. intros (_ & _ & Hp & Hs & _). unfold fslot, spos. by rewrite Hp, Hs. Qed.

Lemma siblings_of b fps k g w :
  S_own b fps → layout (desc e) !! k = Some g → fslot o b g = Some (MByte w) →
  (∀ j h, j ≠ k → layout (desc e) !! j = Some h → f_tag h.1 ≠ w) → no_siblings k g fps.
Proof.
  intros [_ Hs] Hg Hw Ht j h fp Hj Hh Hu Hfp. specialize (Hs j h fp Hh Hfp).
  destruct (oneof_own _ _ _ _ _ ltac:(apply Hu) Hs) as (w' & Hw' & Hn).
  rewrite (union_slot b g h Hu), Hw in Hw'. simplify_eq. apply Hn. intros ->. by eapply (Ht j h).
Qed.

(** ** Releasing the old member *)

Lemma release_field_runs i b fps j h :
  (o + n <= length b)%nat → S_own b fps → layout (desc e) !! j = Some h →
  runs (pb_release_single_field descs exts (at_index j h)) i l (span o n) b (concat fps)
    (λ _ i' b' fp', i' = i ∧ fp' ≡ₚ concat (<[j := []]> fps) ∧ S_own b' (<[j := []]> fps) ∧
       union_after h.1 b b' (o + dpos h.2) (o + spos h.1 h.2) ∧
       same_off (region h.1 (o + dpos h.2) (o + spos h.1 h.2)) b b').
Proof using Hwf Hfit.
  intros Hl Hown Hh. pose proof Hown as [Hlen Hs]. pose proof (lookup_lt_Some _ _ _ Hh) as Hj.
  destruct (lookup_lt_is_Some_2 fps j) as [fpj Hfpj]; [lia|].
  eapply runs_perm; [by rewrite (concat_take_drop fps j fpj Hfpj)|]. eapply runs_weaken.
  - apply runs_frame. eapply (runs_conseq _ _ i l _ b fpj).
    + apply (pb_release_single_field_runs descs exts Hwf e h.1 (at_index j h) l (o + dpos h.2)%nat
        (o + spos h.1 h.2)%nat b i fpj (tags_of h)).
      * by eapply layout_desc.
      * by eapply wf_field.
      * by eapply iter_at_field.
      * by eapply iter_at_room.
      * by apply (Hs j h fpj).
    + intros x i' b' fp' HQ Hoff. exact (conj HQ Hoff).
  - by eapply region_span.
  - intros [] i' b' fp' (fp0 & -> & (-> & -> & Hlb & Hown' & Hun) & Hoff) _.
    split; [done|]. split; [by rewrite (concat_insert fps j fpj [] Hfpj)|]. split; [|done].
    eapply struct_update; try done.
    intros j' h' fp' Hj' Hh' Hfp' Hu. apply (union_sibling descs o b b' h h' fp' _ Hu); [|done|by eapply Hs].
    intros Ht. apply Hj'. symmetry. by eapply wf_tags_inj.
Qed.

Lemma release_union_runs i b fps k g :
  iwf i → (o + n <= length b)%nat → S_own b fps → layout (desc e) !! k = Some g →
  is_htype PB_HTYPE_ONEOF g.1 = true →
  runs (pb_release_union_field descs exts (at_index k g)) i l (span o n) b (concat fps)
    (λ r i' b' fp', i_advance i i' ∧ ∃ fps', fp' ≡ₚ concat fps' ∧ S_own b' fps' ∧
       (r.1 = true → r.2 = at_index k g ∧ ready g.1 (o + dpos g.2) (o + spos g.1 g.2) b' ∧ no_siblings k g fps')).
Proof using Hwf Hfit.
  intros Hi Hl Hown Hg Ho. pose proof Hown as [Hlen Hs].
  destruct (lookup_lt_is_Some_2 fps k) as [fpk Hfpk]; [rewrite Hlen; by eapply lookup_lt_Some|].
  destruct (oneof_own _ _ _ _ _ Ho (Hs k g fpk Hg Hfpk)) as (w & Hw & Hwn).
  destruct (iter_at_field descs e n o l k g Hfit Hg) as (Hit & HpD & HpS).
  specialize (HpS (slot_oneof _ Ho)). pose proof (wf_tags descs e Hwf) as Htags.
  assert (∀ j h, layout (desc e) !! j = Some h → f_tag h.1 ≠ 0) as Hnz.
  { intros j [f p] Hj. by eapply tags_ok_lookup. }
  unfold pb_release_union_field. rewrite HpS, Hit.
  apply runs_seq, (runs_ld_u8 _ _ w); [exact Hw|].
  destruct ((w =? 0) || (w =? f_tag g.1)) eqn:Ew.
  { apply runs_ret. split; [by apply i_advance_refl|]. exists fps. split; [done|]. split; [done|]. intros _.
    split; [done|]. apply orb_true_iff in Ew as [Ew%Z.eqb_eq|Ew%Z.eqb_eq]; subst w; split.
    - intros _ _ Hp. destruct (Hwn ltac:(intros Hz; by apply (Hnz k g))) as [_ Hd].
      destruct (Hd Hp) as (p & Hdp & [->|Hin]); [done|]. destruct (union_member _ g Hin) as (j & h & Hh & Ht & _).
      exfalso. by apply (Hnz j h).
    - eapply siblings_of; [done|done|exact Hw|]. intros j h _ Hh. by apply (Hnz j h).
    - intros _ Hne. by destruct Hne.
    - eapply siblings_of; [done|done|exact Hw|]. intros j h Hj Hh Ht. apply Hj. by eapply wf_tags_inj. }
  apply orb_false_iff in Ew as [_ Ew%Z.eqb_neq]. destruct g as [f p].
  destruct (iter_find_spec (desc e) (l, Z.of_nat o) w k f p Htags Hg) as [(j & f' & p' & Hh & [Ht _] & Hfind)|[_ Hfind]];
    cbn [fst snd] in *; rewrite Hfind.
  2: { apply runs_seq, runs_fail, runs_ret. split; [by apply i_advance_set_error, i_advance_refl|]. by exists fps. }
  eapply runs_bind; [by apply (release_field_runs i b fps j (f', p'))|].
  intros [] i' b' fp' (-> & Hperm & Hown' & Hun & Hoff) _. cbn [fst snd] in *.
  destruct (iter_find_spec (desc e) (l, Z.of_nat o) (f_tag f) j f' p' Htags Hh) as [(k' & f2 & p2 & Hk' & [Ht' _] & Hfind')|[Hnone _]].
  2: { exfalso. rewrite Forall_lookup in Hnone. apply (Hnone k f); [by eapply layout_field|]. split; [done|].
       by destruct (wf_field descs e k (f, p) Hwf Hg) as (_ & _ & _ & _ & ? & _). }
  assert (k' = k) as -> by by eapply (wf_tags_inj descs e k' k). rewrite Hfind'.
  assert (p2 = p) as -> by congruence. apply runs_ret. split; [by apply i_advance_refl|].
  exists (<[j := []]> fps). split; [done|]. split; [done|]. intros _. split; [done|].
  assert (j ≠ k) as Hjk by (intros ->; simplify_eq; congruence).
  assert (∀ j2 h2, layout (desc e) !! j2 = Some h2 → f_tag h2.1 = w → j2 = j) as Hinj.
  { intros j2 h2 Hh2 Ht2. eapply (wf_tags_inj descs e); [done|exact Hh2|exact Hh|]. simpl. congruence. }
  destruct (Hwn ltac:(done)) as [_ Hdata]. split.
  - intros _ _ Hp. destruct (wf_pair descs e k j (f, p) (f', p') Hwf Hg Hh ltac:(done)) as [Hap|Hu].
    + destruct (Hdata Hp) as (q & Hdq & Hq).
      destruct (region_apart (region f' (o + dpos p') (o + spos f' p')) o b b' (f', p') (f, p)) as [Hd _];
        [done|by apply apart_sym|done|]. unfold fdata in Hd, Hdq. cbn [fst snd] in *. rewrite Hd, Hdq.
      destruct Hq as [->|Hin]; [done|exfalso]. destruct (union_member _ (f, p) Hin) as (j2 & [f3 p3] & Hh2 & Ht2 & Ho2 & Hs2).
      assert (j2 = j) as -> by by eapply Hinj. rewrite Hh in Hh2. simplify_eq.
      destruct Hap as (_ & _ & _ & Hne). cbn [fst snd] in *. apply Hne; [by apply slot_oneof|by apply slot_oneof|done].
    + pose proof Hu as (_ & Ho' & Hpp & Hss & Haa). cbn [fst snd] in *. destruct (Hun Ho') as [_ Hd].
      assert (is_atype PB_ATYPE_POINTER f' = true) as Hp' by (unfold is_atype in *; congruence).
      destruct Hd as [_ Hz].
      { rewrite <-Ht in Hw. pose proof (union_slot b (f, p) (f', p') Hu) as Hsl. unfold fslot in *. cbn [fst snd] in *.
        by rewrite Hsl, Hw, Ht. }
      specialize (Hz Hp'). rewrite <-Hpp, dlen_pointer in Hz by done. by rewrite dlen_pointer.
  - intros j2 h2 fp2 Hj2 Hh2 Hu Hfp2. destruct (decide (j2 = j)) as [->|Hne].
    + rewrite list_lookup_insert_eq in Hfp2; [by simplify_eq|]. rewrite Hlen. by eapply lookup_lt_Some.
    + rewrite list_lookup_insert_ne in Hfp2 by done.
      destruct (oneof_own _ _ _ _ _ ltac:(apply Hu) (Hs j2 h2 fp2 Hh2 Hfp2)) as (w' & Hw' & Hn2).
      rewrite (union_slot b (f, p) h2 Hu), Hw in Hw'. simplify_eq. apply Hn2. intros Ht2. apply Hne.
      by eapply Hinj.
Qed.

(** ** The field *)

Lemma pointer_data f b fp :
  is_atype PB_ATYPE_POINTER f = true → ptr_own own f b fp → ∃ p, b = ptr_bytes p.
Proof. intros _ Hp. inversion Hp; eauto. Qed.

(** The other members of the union, once [which_] names this one. *)
Lemma sibling_decoded b k g h fp :
  layout (desc e) !! k = Some g → same_union g h → f_tag g.1 ≠ f_tag h.1 →
  fslot o b g = Some (MByte (f_tag g.1)) →
  field_own own (tags_of g) g.1 (fdata o b g) (fslot o b g) fp →
  field_own own (tags_of h) h.1 (fdata o b h) (fslot o b h) [].
Proof.
  intros Hg Hu Ht Hs Hown. pose proof (in_union k g h Hg Hu) as Hin. rewrite (union_slot b g h Hu), Hs.
  pose proof Hu as (Hog & Hoh & Hp & _ & Ha). pose proof (htype_oneof_repeated _ Hog) as Hr. rewrite Hs in Hown.
  inversion Hown as [| |w ? Hag _ Hw Hi Hn| | |w ? q Hag _ Hw Hi Hn]; subst; try congruence; simplify_eq.
  - apply (own_oneof _ _ _ _ _ (f_tag g.1)); [unfold is_atype in *; congruence|done|done|done|done].
  - assert (is_atype PB_ATYPE_POINTER h.1 = true) as Hah by (unfold is_atype in *; congruence).
    destruct (pointer_data g.1 _ _ Hag (Hi eq_refl)) as [p Hpd].
    apply (own_ptr_oneof _ _ _ _ _ (f_tag g.1) _ p); [done|done|done|done|]. intros _.
    split; [done|]. split; [|by right]. unfold fdata in *. by rewrite <-Hp, dlen_pointer, <-(dlen_pointer g.1).
Qed.

Definition decoded_at (k : nat) (g : pb_field * Z) (i : istream) (r : bool * pb_field_iter) (i' : istream)
    (b' : block) (fp' : footprint) : Prop :=
  i_advance i i' ∧ (r.1 = true → r.2 = at_index k g) ∧ ∃ fps', fp' ≡ₚ concat fps' ∧ S_own b' fps'.

(** A decoder of the field, after the release of what another member left. *)
Lemma decode_at_runs (c : M bool) i b fps k g fp :
  (o + n <= length b)%nat → S_own b fps → layout (desc e) !! k = Some g →
  (is_htype PB_HTYPE_ONEOF g.1 = true → no_siblings k g fps) → fps !! k = Some fp →
  runs c i l (region g.1 (o + dpos g.2) (o + spos g.1 g.2)) b fp
    (λ _ i' b' fp', field_decoded descs g.1 (o + dpos g.2) (o + spos g.1 g.2) (tags_of g) i i' b' fp') →
  runs (let* ok := c in ret (ok, at_index k g)) i l (span o n) b (concat fps) (decoded_at k g i).
Proof using Hwf Hfit.
  intros Hl Hown Hg Hsib Hfp Hc. eapply runs_bind.
  { eapply runs_perm; [by apply (concat_take_drop fps k fp Hfp)|]. eapply runs_weaken.
    - apply runs_frame. eapply (runs_conseq _ _ i l _ b fp); [exact Hc|].
      intros r i' b' fp' HQ Hoff. exact (conj HQ Hoff).
    - by eapply region_span.
    - intros r i' b' fp' HQ _. exact HQ. }
  intros ok i' b' fp' (fp0 & -> & (Hadv & Hown' & Hone) & Hoff) _. apply runs_ret.
  split; [done|]. split; [done|]. exists (<[k := fp0]> fps).
  split; [by rewrite (concat_insert fps k fp fp0 Hfp)|]. eapply struct_update; try done.
  intros j h fpj Hj Hh Hfpj Hu. pose proof Hu as (Ho & _). rewrite (Hsib Ho j h fpj Hj Hh Hu Hfpj).
  apply (sibling_decoded b' k g h fp0 Hg Hu); [|by apply Hone|exact Hown'].
  intros Ht. apply Hj. symmetry. by eapply wf_tags_inj.
Qed.

Lemma decode_field_runs wt i b fps k g :
  iwf i → i_bytes_left i <= bound → (o + n <= length b)%nat → S_own b fps → layout (desc e) !! k = Some g →
  runs (decode_field descs exts field_callback noinit wt (at_index k g)) i l (span o n) b (concat fps)
    (decoded_at k g i).
Proof using Hwf Hdown Hfit.
  intros Hi Hb Hl Hown Hg. pose proof (layout_desc descs e k g Hg) as He.
  pose proof (wf_field descs e k g Hwf Hg) as Hf. pose proof (iter_at_field descs e n o l k g Hfit Hg) as Hat.
  assert (∀ i' b' fps', i_advance i i' → (o + n <= length b')%nat → S_own b' fps' →
    (is_htype PB_HTYPE_ONEOF g.1 = true →
       ready g.1 (o + dpos g.2) (o + spos g.1 g.2) b' ∧ no_siblings k g fps') →
    runs (let* ok := (if is_atype PB_ATYPE_STATIC g.1 then decode_static_field descs exts noinit wt (at_index k g)
                      else if is_atype PB_ATYPE_POINTER g.1 then decode_pointer_field descs exts noinit wt (at_index k g)
                      else if is_atype PB_ATYPE_CALLBACK g.1 then decode_callback_field field_callback wt (at_index k g)
                      else fail "invalid field type") in ret (ok, at_index k g)) i' l (span o n) b' (concat fps')
      (decoded_at k g i')) as Hdec.
  { intros i' b' fps' Hadv Hl' Hown' Hu.
    destruct (lookup_lt_is_Some_2 fps' k) as [fp Hfp]; [destruct Hown' as [-> _]; by eapply lookup_lt_Some|].
    pose proof (proj2 Hown' k g fp Hg Hfp) as Hfo. pose proof (iter_at_room descs e n o b' k g Hfit Hg Hl') as Hroom.
    assert (i_bytes_left i' <= bound) by (destruct Hadv as (? & _ & _ & ?); lia).
    pose proof (i_advance_wf _ _ Hi Hadv) as Hi'.
    eapply decode_at_runs; [done|done|done|by intros ?; apply Hu|exact Hfp|].
    pose proof Hf as (_ & _ & _ & _ & _ & Hat' & _).
    destruct (is_atype PB_ATYPE_STATIC g.1) eqn:Ea.
    - by apply (decode_static_runs descs exts Hwf noinit bound Hdown e g.1 _ l _ _ (tags_of g) He Hf Hat).
    - destruct Hat' as [|Ha]; [done|]. rewrite Ha.
      apply (decode_pointer_runs descs exts Hwf noinit bound Hdown e g.1 _ l _ _ (tags_of g) He Hf Hat); try done.
      + destruct g as [f p]. by eapply list_elem_of_lookup_2, layout_field.
      + intros Ho. by apply Hu. }
  unfold decode_field. pose proof Hat as (-> & _). destruct (is_htype PB_HTYPE_ONEOF g.1) eqn:Ho.
  - eapply runs_bind; [by apply (release_union_runs i b fps k g)|].
    intros [ok it'] i' b' fp' (Hadv & fps' & Hp & Hown' & Hok) [Hlb _]. cbn [fst snd] in Hok.
    destruct ok.
    + destruct (Hok eq_refl) as (-> & Hready & Hsib). pose proof Hat as (-> & _).
      eapply runs_perm; [exact Hp|]. eapply runs_conseq; [apply Hdec; try done; lia|].
      intros r i2 b2 fp2 (Hadv2 & Hr & Hex) _. split; [by eapply i_advance_trans|done].
    + apply runs_ret. split; [done|]. split; [done|]. by exists fps'.
  - apply Hdec; try done. by apply i_advance_refl.
Qed.

End Union.
