(* ===== verification/PbSafe.v ===== *)
(** The decoder is safe: on any bytes, into any memory of the right size,
    [pb_decode_noinit] ends, stays inside the struct and the blocks it owns, and
    leaves a well-shaped message. *)

From S2P Require Import Prelude PbStream PbMem PbFields PbDecode PbShape PbRuns PbOwn PbPlace PbDefaults PbRelease PbValues PbItems PbPointers PbUnion.

Open Scope Z_scope.

(** ** The iterator at the end of the fields *)

Section Iterator.
Context (fields : list pb_field) (dest : addr).
Context (Htags : tags_ok fields).

Lemma find_extension_loop_spec k d fuel i f p :
  Forall (λ f, is_ltype PB_LTYPE_EXTENSION f = false) fields → (k < length fields)%nat → (d < length fields)%nat →
  i = (if k + d <? length fields then k + d else k + d - length fields)%nat →
  layout fields !! i = Some (f, p) → (length fields <= d + fuel)%nat →
  ∃ g q, layout fields !! k = Some (g, q) ∧
    find_extension_loop fuel k (iter_at fields dest i p) = Some (false, iter_at fields dest k q).
Proof using Htags.
  intros Hx Hk. revert d i f p. induction fuel as [|fuel IH]; intros d i f p Hd Hi Hf Hfuel; [lia|].
  cbn [find_extension_loop]. rewrite (iter_field _ _ _ _ _ Hf).
  rewrite Forall_lookup in Hx. rewrite (Hx i f) by by eapply layout_field.
  destruct (iter_next_index fields dest i f p Htags Hf) as (g & q & Hg & Hn). rewrite Hn.
  cbn [snd it_pos iter_at]. unfold next_index in *. destruct (decide (S d = length fields)) as [He|He].
  - assert ((if S i <? length fields then S i else 0) = k)%nat as Hik by (subst i; bool_cases).
    rewrite Hik in *. rewrite Nat.eqb_refl. by exists g, q.
  - assert ((if S i <? length fields then S i else 0) ≠ k)%nat as Hik by (subst i; bool_cases).
    rewrite (proj2 (Nat.eqb_neq _ _)) by done.
    eapply (IH (S d)); [lia| |done|lia]. subst i. bool_cases.
Qed.

Lemma required_loop_spec fuel : ∀ k f p,
  layout fields !! k = Some (f, p) → (length fields <= k + fuel)%nat →
  ∃ last g q, required_loop fuel (iter_at fields dest k p) =
    Some (count_required (take (length fields - 1) fields), last, iter_at fields dest 0 q) ∧
    fields !! (length fields - 1)%nat = Some last ∧ layout fields !! 0%nat = Some (g, q).
Proof using Htags.
  induction fuel as [|fuel IH]; intros k f p Hf Hfu; pose proof (lookup_lt_Some _ _ _ Hf) as Hk;
    rewrite layout_length in Hk; [lia|].
  cbn [required_loop]. destruct (iter_next_index fields dest k f p Htags Hf) as (g & q & Hg & Hn). rewrite Hn.
  unfold next_index in *. destruct (Nat.ltb_spec (S k) (length fields)).
  - apply (IH (S k) g q); [done|lia].
  - exists f, g, q. assert (k = length fields - 1)%nat as -> by lia. rewrite (iter_field _ _ _ _ _ Hf).
    split; [done|]. split; [by eapply layout_field|done].
Qed.

Lemma req_field_count_spec k f p :
  layout fields !! k = Some (f, p) →
  req_field_count (iter_at fields dest k p) = Some (count_required fields).
Proof using Htags.
  intros Hf. unfold req_field_count. cbn [it_start iter_at].
  destruct (required_loop_spec (S (length fields)) k f p Hf ltac:(lia)) as (last & g & q & -> & Hlast & Hg).
  cbn [mbind option_bind]. f_equal. rewrite (iter_field _ _ _ _ _ Hg).
  rewrite (proj2 (Z.eqb_neq _ _) (tags_ok_lookup _ _ _ _ Htags Hg)), andb_true_r.
  pose proof (lookup_lt_Some _ _ _ Hlast). assert (fields = take (length fields - 1) fields ++ [last]) as Hsp.
  { rewrite <-take_S_r by done. by rewrite take_ge by lia. }
  assert (count_required fields = count_required (take (length fields - 1) fields) +
    (if is_htype PB_HTYPE_REQUIRED last then 1 else 0)) as -> by (rewrite Hsp at 1; apply count_required_snoc).
  destruct (is_htype PB_HTYPE_REQUIRED last); lia.
Qed.

End Iterator.

Lemma all_seen_defined count seen :
  0 <= count < 64 → count ≠ 32 → length seen = 2%nat → is_Some (all_seen count seen).
Proof.
  intros Hc Hn Hl. unfold all_seen. destruct (Z.eqb_spec count 0); [done|].
  rewrite (Z.shiftr_div_pow2 count 5) by lia. change (2 ^ 5) with 32. change 31 with (Z.ones 5). rewrite Z.land_ones by lia.
  change (2 ^ 5) with 32. pose proof (Z.div_mod count 32 ltac:(lia)). pose proof (Z.mod_pos_bound count 32 ltac:(lia)).
  assert (Z.to_nat (count / 32) < 2)%nat as Hw by lia.
  case_match; [|done].
  destruct (lookup_lt_is_Some_2 seen (Z.to_nat (count / 32))) as [w ->]; [lia|]. cbn [mbind option_bind].
  rewrite (proj2 (Z.eqb_neq _ _)) by lia. done.
Qed.

Lemma mark_seen_length index seen : length (mark_seen index seen) = length seen.
Proof. apply length_alter. Qed.

(** ** The turns of the loop *)

Section Safe.
Context (descs : list (list pb_field)) (exts : list extension_type).
Context (field_callback : nat → pb_field → addr → M bool).
Context (ext_callback : nat → addr → Z → Z → M bool).
Context (Hwf : wf_descs descs).

Abbreviation desc := (descriptor descs).
Abbreviation own := (msg_own descs).
Abbreviation N := (length descs).
Abbreviation runs := (runs (no_pointer_arrays descs)).

Section Level.
Context (noinit : nat → addr → M bool) (bound : Z) (Hdown : noinit_spec descs noinit bound).
Context (e n o l : nat) (Hfit : msg_fits descs e n).

Abbreviation at_index k g := (iter_at (desc e) (l, Z.of_nat o) k g.2).
Abbreviation S_own := (struct_own descs e o).

(** Where the iterator can be: at a field, or at the end of no fields. *)
Definition loop_at (it : pb_field_iter) : Prop :=
  (∃ k g, layout (desc e) !! k = Some g ∧ it = at_index k g) ∨
  (desc e = [] ∧ it = (pb_field_iter_begin [] (l, Z.of_nat o)).2).

Lemma loop_begin : loop_at (pb_field_iter_begin (desc e) (l, Z.of_nat o)).2.
Proof using Hwf.
  destruct (desc e) as [|f rest] eqn:E; [by right|]. rewrite <-E.
  destruct (layout_lookup (desc e) 0) as (g & p & Hg); [rewrite E; simpl; lia|]. left. exists 0%nat, (g, p).
  split; [done|]. by rewrite (iter_begin_spec _ _ g p (wf_tags descs e Hwf) Hg).
Qed.

Lemma loop_find it tag :
  loop_at it → ∃ found it1, pb_field_iter_find it tag = Some (found, it1) ∧ loop_at it1.
Proof using Hwf.
  intros [(k & [f p] & Hg & ->)|[He ->]].
  - destruct (iter_find_spec (desc e) (l, Z.of_nat o) tag k f p (wf_tags descs e Hwf) Hg)
      as [(j & h & q & Hh & _ & Hfind)|[_ Hfind]]; eexists _, _; (split; [exact Hfind|left]).
    + by exists j, (h, q).
    + by exists k, (f, p).
  - unfold pb_field_iter_find. cbn. case_match; eexists _, _; (split; [reflexivity|by right]).
Qed.

Lemma no_extensions : Forall (λ f, is_ltype PB_LTYPE_EXTENSION f = false) (desc e).
Proof using Hwf.
  destruct (desc e) as [|f rest] eqn:E; [constructor|]. rewrite <-E.
  destruct (wf_desc descs e Hwf) as (Hf & _); [apply descriptor_lookup; by rewrite E|].
  eapply Forall_impl; [exact Hf|]. intros g (_ & _ & _ & _ & Hx & _). exact Hx.
Qed.

Lemma loop_find_extension it : loop_at it → ∃ it1, find_extension_field it = Some (false, it1) ∧ loop_at it1.
Proof using Hwf.
  intros [(k & [f p] & Hg & ->)|[He ->]].
  - pose proof (lookup_lt_Some _ _ _ Hg) as Hk. rewrite layout_length in Hk.
    destruct (find_extension_loop_spec (desc e) (l, Z.of_nat o) (wf_tags descs e Hwf) k 0 (S (length (desc e))) k f p)
      as (g & q & Hg' & Hfind); [apply no_extensions|done|lia|bool_cases|done|lia|].
    eexists. split; [exact Hfind|]. left. by exists k, (g, q).
  - eexists. split; [reflexivity|by right].
Qed.

Lemma loop_count it : loop_at it → req_field_count it = Some (count_required (desc e)).
Proof using Hwf.
  intros [(k & [f p] & Hg & ->)|[He ->]].
  - by apply (req_field_count_spec _ _ (wf_tags descs e Hwf) k f p).
  - by rewrite He.
Qed.

Lemma count_range : 0 <= count_required (desc e) < 64 ∧ count_required (desc e) ≠ 32.
Proof using Hwf.
  destruct (desc e) as [|f rest] eqn:E; [done|]. rewrite <-E.
  destruct (wf_desc descs e Hwf) as (_ & _ & _ & Hc & Hn); [apply descriptor_lookup; by rewrite E|].
  unfold count_required in *. lia.
Qed.

(** A field with a tag that was found. *)
Lemma loop_decode wt it i b fps :
  iwf i → i_bytes_left i <= bound → (o + n <= length b)%nat → S_own b fps → loop_at it →
  runs (decode_field descs exts field_callback noinit wt it) i l (span o n) b (concat fps)
    (λ r i' b' fp', i_advance i i' ∧ (r.1 = true → loop_at r.2) ∧ ∃ fps', fp' ≡ₚ concat fps' ∧ S_own b' fps').
Proof using Hwf Hdown Hfit.
  intros Hi Hb Hl Hown [(k & g & Hg & ->)|[He ->]].
  - eapply runs_conseq.
    + by apply (decode_field_runs descs exts field_callback Hwf noinit bound Hdown e n o l Hfit).
    + intros r i' b' fp' (Hadv & Hr & Hex) _. split; [done|]. split; [|done]. intros Hok. left.
      exists k, g. split; [done|]. by apply Hr.
  - unfold decode_field. cbn [is_htype]. change (is_htype PB_HTYPE_ONEOF _) with false. cbv iota.
    eapply runs_bind.
    { change (it_field _) with PB_LAST_FIELD. change (is_atype PB_ATYPE_STATIC PB_LAST_FIELD) with true. cbv iota.
      unfold decode_static_field. change (it_field _) with PB_LAST_FIELD.
      change (is_htype PB_HTYPE_REQUIRED PB_LAST_FIELD) with true. cbv iota.
      change (PB_DECODERS descs exts noinit PB_LAST_FIELD) with (pb_dec_varint PB_LAST_FIELD).
      change (it_pData _) with (padd (l, Z.of_nat o) 0). rewrite padd_nat, Nat.add_0_r by lia.
      eapply runs_weaken with (T := span o 0); [|unfold span; lia|].
      - apply (clamped_runs _ (is_uint 64) pb_decode_varint); [apply safe_varint|done|simpl; lia].
      - intros r i' b' fp' HQ Hoff. exact (conj HQ Hoff). }
    intros r i' b' fp' [[[Hadv _] ->] [Hlb Hoff]] _. apply runs_ret. split; [done|]. split; [by right|].
    exists fps. split; [done|]. assert (b' = b) as ->; [|done].
    apply list_eq. intros j. apply Hoff. unfold span. lia.
Qed.

(** A tag that is no field's: its value is skipped. *)
Definition range_start (start : Z) : Prop := start = 0 ∨ start = 2 ^ 32 - 1.

Lemma loop_unknown tag wt start it i b fp :
  iwf i → 0 <= tag < 2 ^ 29 → range_start start → loop_at it →
  runs (decode_unknown descs exts field_callback ext_callback noinit tag wt start it) i l (span o n) b fp
    (λ r i' b' fp', i_advance i i' ∧ range_start r.2.1 ∧ loop_at r.2.2 ∧ b' = b ∧ fp' = fp).
Proof using Hwf.
  intros Hi Ht Hs Hat. unfold decode_unknown.
  assert (∀ start it, range_start start → loop_at it →
    runs (let* r := indec (pb_skip_field wt) in
          ret (match r with Some _ => true | None => false end, (start, it))) i l (span o n) b fp
      (λ r i' b' fp', i_advance i i' ∧ range_start r.2.1 ∧ loop_at r.2.2 ∧ b' = b ∧ fp' = fp)) as Hskip.
  { intros start' it' Hs' Hat'. apply runs_seq. eapply runs_indec; [apply safe_skip_field|done|].
    intros r i' Hadv _. by apply runs_ret. }
  destruct (Z.ltb_spec tag start); [by apply Hskip|].
  destruct (loop_find_extension it Hat) as (it1 & -> & Hat1).
  rewrite (proj2 (Z.ltb_lt _ _)) by lia. apply Hskip; [by right|done].
Qed.

(** ** The loop, the message *)

Definition loop_end (i : istream) (r : bool * (pb_field_iter * list Z)) (i' : istream) (b' : block)
    (fp' : footprint) : Prop :=
  i_advance i i' ∧ (r.1 = true → loop_at r.2.1) ∧ length r.2.2 = 2%nat ∧ ∃ fps', fp' ≡ₚ concat fps' ∧ S_own b' fps'.

Lemma decode_loop_runs fuel : ∀ it seen start i b fps,
  iwf i → i_bytes_left i <= bound → (Z.to_nat (i_bytes_left i) < fuel)%nat → (o + n <= length b)%nat →
  S_own b fps → loop_at it → length seen = 2%nat → range_start start →
  runs (decode_loop descs exts field_callback ext_callback noinit fuel it seen start) i l (span o n) b (concat fps)
    (loop_end i).
Proof using Hwf Hdown Hfit.
  induction fuel as [|fuel IH]; intros it seen start i b fps Hi Hb Hfu Hl Hown Hat Hseen Hs; [lia|].
  cbn [decode_loop]. apply runs_seq, runs_bytes_left.
  destruct (Z.eqb_spec (i_bytes_left i) 0) as [|Hpos].
  { apply runs_ret. split; [by apply i_advance_refl|]. split; [done|]. split; [done|]. by exists fps. }
  intros m F Ha Hm. cbn [d_in d_mem].
  destruct (decode_tag_safe i Hi) as (r & eof & i1 & -> & Hadv & Hk & Htag). cbn [mbind option_bind].
  destruct r as [[wt tag]|].
  2: { eexists (eof, (it, seen)), i1, m, b, (concat fps). split; [done|]. split; [done|]. split; [done|].
       split; [done|]. split; [done|]. split; [done|]. split; [done|]. by exists fps. }
  specialize (Hk ltac:(done)). specialize (Htag wt tag eq_refl).
  destruct (loop_find it tag Hat) as (found & it1 & -> & Hat1). cbn [mbind option_bind].
  pose proof (i_advance_wf _ _ Hi Hadv) as Hi1. destruct Hi as [[H0 _] _].
  (* the turns that are left *)
  assert (∀ i2 b2 fp2 fps2 it2 seen2 start2, i_advance i1 i2 → length b2 = length b → fp2 ≡ₚ concat fps2 →
    S_own b2 fps2 → loop_at it2 → length seen2 = 2%nat → range_start start2 →
    runs (decode_loop descs exts field_callback ext_callback noinit fuel it2 seen2 start2) i2 l (span o n) b2 fp2
      (loop_end i)) as Hnext.
  { intros i2 b2 fp2 fps2 it2 seen2 start2 Hadv2 Hlb2 Hp2 Hown2 Hat2 Hseen2 Hs2.
    assert (i_bytes_left i2 <= i_bytes_left i1) by (destruct Hadv2 as (? & _ & _ & ?); lia).
    eapply runs_perm; [exact Hp2|]. eapply runs_conseq.
    - apply (IH it2 seen2 start2 i2 b2 fps2); try done; try lia. by eapply i_advance_wf.
    - intros r i3 b3 fp3 (Hadv3 & Hr) _. split; [|done]. by do 2 (eapply i_advance_trans; [done|]). }
  destruct found.
  - set (seen1 := if is_htype _ _ && _ then _ else _).
    assert (length seen1 = 2%nat) as Hseen1 by (unfold seen1; case_match; rewrite ?mark_seen_length; done).
    revert m F Ha Hm. eapply runs_bind; [apply (loop_decode wt it1 i1 b fps); try done; lia|].
    intros [ok it2] i2 b2 fp2 (Hadv2 & Hok & fps2 & Hp2 & Hown2) [Hlb2 _]. cbn [fst snd] in Hok.
    destruct ok; [eapply Hnext; eauto|]. apply runs_ret. split; [by eapply i_advance_trans|].
    split; [done|]. split; [done|]. by exists fps2.
  - revert m F Ha Hm. eapply runs_bind; [by apply (loop_unknown tag wt start it1 i1 b (concat fps))|].
    intros [ok [start2 it2]] i2 b2 fp2 (Hadv2 & Hs2 & Hat2 & -> & ->) _. cbn [fst snd] in *.
    destruct ok; [eapply Hnext; eauto|]. apply runs_ret. split; [by eapply i_advance_trans|].
    split; [done|]. split; [done|]. by exists fps.
Qed.

Lemma noinit_with_runs i b fp :
  (e < N)%nat → iwf i → i_bytes_left i <= bound → (o + n <= length b)%nat → own e (mem_read o n b) fp →
  runs (pb_decode_noinit_with descs exts field_callback ext_callback noinit e (l, Z.of_nat o)) i l (span o n) b fp
    (λ _ i' b' fp', i_advance i i' ∧ own e (mem_read o n b') fp').
Proof using Hwf Hdown Hfit.
  intros He Hi Hb Hl Hown. apply (msg_own_struct descs e o n b fp Hfit) in Hown as (fps & -> & Hown).
  assert (∀ b' fps', S_own b' fps' → own e (mem_read o n b') (concat fps')) as Hfold.
  { intros b' fps' Hs. apply (msg_own_struct descs e o n b' _ Hfit). by exists fps'. }
  eapply runs_perm_post with (Q := λ (_ : bool) i' b' fp', i_advance i i' ∧ ∃ fps', fp' ≡ₚ concat fps' ∧ S_own b' fps').
  - intros m F Ha Hm. unfold pb_decode_noinit_with. cbn [d_in]. revert m F Ha Hm.
    eapply runs_bind.
    + apply (decode_loop_runs _ _ [0; 0] 0 i b fps); try done; [lia|apply loop_begin|by left].
    + intros [ok [it seen]] i' b' fp' (Hadv & Hat & Hseen & Hex) _. cbn [fst snd] in *.
      destruct ok; [|by apply runs_ret].
      rewrite (loop_count it (Hat eq_refl)). destruct count_range as [Hc Hn].
      destruct (all_seen_defined _ seen Hc Hn Hseen) as [all ->]. destruct all.
      * by apply runs_ret.
      * apply runs_fail. by split; [apply i_advance_set_error|].
  - intros r i' b' fp' (Hadv & fps' & Hp & Hs) _. exists (concat fps'). split; [done|]. split; [done|]. by apply Hfold.
Qed.

End Level.

Lemma noinit_at_spec fuel :
  noinit_spec descs (noinit_at descs exts field_callback ext_callback fuel) (Z.of_nat fuel).
Proof using Hwf.
  induction fuel as [|fuel IH]; intros d n o l b i fp Hi Hb Hd Hfit Hl Hown.
  - destruct Hi as [[? _] _]. lia.
  - apply (noinit_with_runs (noinit_at descs exts field_callback ext_callback fuel) (Z.of_nat fuel)); try done. lia.
Qed.

(** ** The functions as they are called *)

Lemma pb_decode_noinit_spec bound : noinit_spec descs (pb_decode_noinit descs exts field_callback ext_callback) bound.
Proof using Hwf.
  intros d n o l b i fp Hi _ Hd Hfit Hl Hown m F Ha Hm. unfold pb_decode_noinit. cbn [d_in].
  eapply (noinit_at_spec (S (Z.to_nat (i_bytes_left i)))); try done. lia.
Qed.

Lemma pb_decode_runs d n o l b i :
  iwf i → (d < N)%nat → msg_fits descs d n → (o + n <= length b)%nat →
  runs (pb_decode descs exts field_callback ext_callback d (l, Z.of_nat o)) i l (span o n) b []
    (λ r i' b' fp', i_advance i i' ∧ own d (mem_read o n b') fp' ∧ (r = false → fp' = [])).
Proof using Hwf.
  intros Hi Hd Hfit Hl. unfold pb_decode.
  eapply (pb_decode_with_runs descs exts Hwf _ (i_bytes_left i + 1)); [apply pb_decode_noinit_spec|done|lia|done..].
Qed.

Lemma pb_decode_delimited_runs d n o l b i :
  iwf i → (d < N)%nat → msg_fits descs d n → (o + n <= length b)%nat →
  runs (pb_decode_delimited descs exts field_callback ext_callback d (l, Z.of_nat o)) i l (span o n) b []
    (λ r i' b' fp', i_advance i i' ∧ (fp' = [] ∧ b' = b ∧ r = false ∨ own d (mem_read o n b') fp' ∧ (r = false → fp' = []))).
Proof using Hwf.
  intros Hi Hd Hfit Hl. unfold pb_decode_delimited. apply runs_let_sub; [done| |by intros; split; [|left]].
  intros par sub Hsub. eapply runs_bind; [apply pb_decode_runs; try done; apply Hsub|].
  intros r sub' b' fp' (Hadv & Hown) _. apply runs_seq, runs_close, runs_ret.
  split; [|by right]. by destruct (close_progress i par sub sub' true Hsub Hadv).
Qed.

End Safe.
