(* ===== verification/PbSeen.v ===== *)
(** What the bit map [fields_seen] of the decoder records of the required fields. *)

From S2P Require Import Prelude PbStream PbMem PbFields PbDecode PbSafe.

Open Scope Z_scope.

(** The bit of the [k]-th field of the [j]-th word. *)
Definition seen_bit (seen : list Z) (j : nat) (k : Z) : bool := Z.testbit (default 0 (seen !! j)) k.

Lemma mark_seen_bit index seen j k :
  0 <= index < 64 → length seen = 2%nat → (j < 2)%nat → 0 <= k →
  seen_bit (mark_seen index seen) j k =
    seen_bit seen j k || bool_decide (k < 32 ∧ index = 32 * Z.of_nat j + k).
Proof.
  intros Hi Hl Hj Hk. unfold seen_bit, mark_seen.
  rewrite Z.shiftr_div_pow2 by lia. change 31 with (Z.ones 5). rewrite Z.land_ones by lia. change (2 ^ 5) with 32.
  pose proof (Z.div_mod index 32 ltac:(lia)) as Hdm. pose proof (Z.mod_pos_bound index 32 ltac:(lia)) as Hm.
  rewrite Z.shiftl_1_l. assert (0 < 2 ^ (index mod 32) < 2 ^ 32) as Hp.
  { split; [apply Z.pow_pos_nonneg; lia|apply Z.pow_lt_mono_r; lia]. }
  rewrite uwrap_id by (unfold is_uint; lia).
  destruct (decide (j = Z.to_nat (index / 32))) as [->|Hne].
  - rewrite list_lookup_alter_eq. destruct (lookup_lt_is_Some_2 seen (Z.to_nat (index / 32))) as [w ->]; [lia|].
    cbn [fmap option_fmap option_map default from_option id]. rewrite Z.lor_spec, Z.pow2_bits_eqb by lia. f_equal.
    destruct (Z.eqb_spec (index mod 32) k); [rewrite bool_decide_true|rewrite bool_decide_false]; [done|lia|done|lia].
  - rewrite list_lookup_alter_ne by done. rewrite bool_decide_false, orb_false_r; [done|lia].
Qed.

(** The bits after some fields were marked. *)
Lemma seen_bits marks j k :
  Forall (λ i, 0 <= i < 64) marks → (j < 2)%nat → 0 <= k →
  seen_bit (foldr mark_seen [0; 0] marks) j k = bool_decide (k < 32 ∧ 32 * Z.of_nat j + k ∈ marks).
Proof.
  intros Hm Hj Hk. induction marks as [|i marks IH].
  - rewrite bool_decide_false by (intros [_ H]; by apply elem_of_nil in H).
    unfold seen_bit. cbn [foldr]. destruct j as [|[|j]]; [apply Z.bits_0..|lia].
  - apply Forall_cons in Hm as [Hi Hm]. cbn [foldr]. rewrite mark_seen_bit; [|done| |done|done].
    + rewrite (IH Hm), <-bool_decide_or. apply bool_decide_ext. rewrite elem_of_cons. intuition.
    + clear. induction marks as [|i marks IH]; [done|]. cbn [foldr]. by rewrite mark_seen_length.
Qed.

(** A word with the low [r] bits set, and no other. *)
Lemma ones_bits w r :
  0 <= r → (∀ k, r <= k → Z.testbit w k = false) →
  (w =? 2 ^ r - 1) = true ↔ ∀ k, 0 <= k < r → Z.testbit w k = true.
Proof.
  intros Hr Hhi. assert (2 ^ r - 1 = Z.ones r) as -> by (rewrite Z.ones_equiv; lia).
  rewrite Z.eqb_eq. split.
  - intros -> k Hk. by apply Z.ones_spec_low.
  - intros H. apply Z.bits_inj'. intros k Hk. destruct (decide (k < r)).
    + rewrite (H k), Z.ones_spec_low by lia. done.
    + rewrite (Hhi k), Z.ones_spec_high by lia. done.
Qed.

Lemma marked_length marks : length (foldr mark_seen [0; 0] marks) = 2%nat.
Proof. induction marks as [|i marks IH]; [done|]. cbn [foldr]. by rewrite mark_seen_length. Qed.

Lemma seen_word marks j : (j < 2)%nat →
  ∃ w, foldr mark_seen [0; 0] marks !! j = Some w ∧ ∀ k, seen_bit (foldr mark_seen [0; 0] marks) j k = Z.testbit w k.
Proof.
  intros Hj. destruct (lookup_lt_is_Some_2 (foldr mark_seen [0; 0] marks) j) as [w Hw]; [rewrite marked_length; lia|].
  exists w. split; [done|]. intros k. unfold seen_bit. by rewrite Hw.
Qed.

(** The two words of [fields_seen] record which required fields were read:
    after [pb_decode_noinit] has marked the fields with the indices [marks], in
    any order and any number of times, its check succeeds exactly when every
    index below the number of required fields is among them, for messages of
    up to 63 required fields but 32 (for 32 the code shifts a 32-bit word by
    32). *)
Lemma required_fields_recorded (count : Z) (marks : list Z) (Hc : 0 <= count < 64) (Hn : count ≠ 32)
    (Hm : Forall (λ i, 0 <= i < count) marks) :
  ∃ ok, all_seen count (foldr mark_seen [0; 0] marks) = Some ok ∧ (ok = true ↔ ∀ i, 0 <= i < count → i ∈ marks).
Proof.
  assert (Forall (λ i, 0 <= i < 64) marks) as Hm' by (eapply Forall_impl; [exact Hm|]; simpl; lia).
  rewrite Forall_forall in Hm. unfold all_seen.
  destruct (Z.eqb_spec count 0) as [->|Hc0]; [exists true; split; [done|]; split; [lia|done]|].
  rewrite (Z.shiftr_div_pow2 count 5) by lia. change 31 with (Z.ones 5). rewrite Z.land_ones by lia. change (2 ^ 5) with 32.
  pose proof (Z.div_mod count 32 ltac:(lia)) as Hdm. pose proof (Z.mod_pos_bound count 32 ltac:(lia)).
  destruct (seen_word marks 0 ltac:(lia)) as (w0 & Hw0 & Hb0). destruct (seen_word marks 1 ltac:(lia)) as (w1 & Hw1 & Hb1).
  assert (∀ k, 0 <= k → Z.testbit w0 k = true ↔ k < 32 ∧ k ∈ marks) as Ht0
    by (intros k Hk; rewrite <-Hb0, seen_bits by (done || lia); apply bool_decide_eq_true).
  assert (∀ k, 0 <= k → Z.testbit w1 k = true ↔ k < 32 ∧ 32 + k ∈ marks) as Ht1
    by (intros k Hk; rewrite <-Hb1, seen_bits by (done || lia); apply bool_decide_eq_true).
  rewrite (proj2 (Z.eqb_neq (count mod 32) 0)) by lia.
  assert ((2 ^ 32 - 1) ≫ (32 - count mod 32) = 2 ^ (count mod 32) - 1) as ->.
  { change (2 ^ 32 - 1) with (Z.ones 32). rewrite Z.shiftr_div_pow2, Z.ones_div_pow2, Z.ones_equiv by lia.
    by replace (32 - (32 - count mod 32)) with (count mod 32) by lia. }
  destruct (decide (count < 32)) as [Hlt|Hge].
  - assert (count / 32 = 0) as Hz by lia. rewrite Hz in *. change (Z.to_nat 0) with 0%nat. cbn [take forallb].
    rewrite Hw0. cbn [mbind option_bind]. eexists. split; [done|]. rewrite ones_bits.
    + split; intros H1 i Hi; [apply Ht0, H1; lia|]. apply Ht0; [lia|]. split; [lia|]. apply H1. lia.
    + lia.
    + intros k Hk. apply not_true_is_false. intros [_ Hk2]%Ht0; [|lia]. specialize (Hm _ Hk2). lia.
  - assert (count / 32 = 1) as Hz by lia. rewrite Hz in *. change (Z.to_nat 1) with 1%nat.
    assert (take 1 (foldr mark_seen [0; 0] marks) = [w0]) as ->.
    { destruct (foldr mark_seen [0; 0] marks); [done|]. simpl in Hw0. by simplify_eq. }
    cbn [forallb]. rewrite andb_true_r.
    assert ((w0 =? 2 ^ 32 - 1) = true ↔ ∀ i, 0 <= i < 32 → i ∈ marks) as Hall.
    { rewrite ones_bits; [|lia|].
      - split; intros H1 i Hi; [apply Ht0, H1; lia|]. apply Ht0; [lia|]. split; [lia|]. by apply H1.
      - intros k Hk. apply not_true_is_false. intros [? _]%Ht0; lia. }
    destruct (w0 =? 2 ^ 32 - 1).
    + rewrite Hw1. cbn [mbind option_bind]. eexists. split; [done|]. rewrite ones_bits.
      * split; intros H1 i Hi.
        -- destruct (decide (i < 32)); [apply Hall; [done|lia]|].
           replace i with (32 + (i - 32)) by lia. apply Ht1, H1; lia.
        -- apply Ht1; [lia|]. split; [lia|]. apply H1. lia.
      * lia.
      * intros k Hk. apply not_true_is_false. intros [_ Hk2]%Ht1; [|lia]. specialize (Hm _ Hk2). lia.
    + exists false. split; [done|]. split; [done|]. intros H1. apply Hall. intros i Hi. apply H1. lia.
Qed.
