(* ===== verification/PbMessages.v ===== *)
(** What [pb_decode], [pb_decode_noinit] and [pb_release] promise a program
    whose descriptors are well-formed. *)

From S2P Require Import Prelude PbStream PbMem PbFields PbDecode PbShape PbRuns PbOwn PbPlace PbDefaults PbRelease PbValues PbItems PbSafe.

Open Scope Z_scope.

(** ** Messages in memory *)

Section Messages.
Context (descs : list (list pb_field)) (exts : list extension_type).
Context (field_callback : nat → pb_field → addr → M bool).
Context (ext_callback : nat → addr → Z → Z → M bool).

Abbreviation decode := (pb_decode descs exts field_callback ext_callback).
Abbreviation decode_noinit := (pb_decode_noinit descs exts field_callback ext_callback).
Abbreviation release := (pb_release descs exts).

(** C21: [pb_decode] on any bytes and into memory with any contents, for a table of
    descriptors that are well-formed ([wf_descs]): it ends, with no access outside
    the struct and the blocks it allocated, whatever other blocks there are; it
    changes nothing else; and it leaves a message of the type of the descriptor,
    whose pointers are null or to blocks of the right size that nothing else owns,
    whose counts are within the arrays and whose unions are those of their tags.
    When it fails it has released all it allocated.

    Well-formed are tables of fields with static or allocated storage (no callbacks
    and no extensions), with distinct tags below 256, members inside their struct
    that share no memory but as members of one union, and not 32 nor more than 63
    required fields in a message.  They exclude unions of static and allocated
    members, unions of structs that hold allocated parts, and static arrays of
    structs that hold unions, arrays of structs or allocated parts; and allocations
    may fail ([alloc_ok]) only if no field of the table is an allocated array.  On
    what is excluded the code does run into undefined behaviour or loses memory:
    [PbLimits] has runs of it. *)
Theorem pb_decode_makes_message (d n o l : nat) (b : block) (F : footprint) (i : istream) (m : mem)
    (Hwf : wf_descs descs) (Hd : (d < length descs)%nat) (Hfit : msg_fits descs d n)
    (Hi : iwf i) (Hl : (o + n <= length b)%nat) (Ha : alloc_ok (no_pointer_arrays descs) m) (Hm : mem_is m ((l, b) :: F)) :
  ∃ ok i' m' b' fp,
    decode d (l, Z.of_nat o) (mk_dstate i m) = Some (ok, mk_dstate i' m') ∧
    i_advance i i' ∧ alloc_ok (no_pointer_arrays descs) m' ∧ mem_is m' ((l, b') :: fp ++ F) ∧ same_off (span o n) b b' ∧
    msg_own descs d (mem_read o n b') fp ∧ (ok = false → fp = []).
Proof.
  destruct (pb_decode_runs descs exts field_callback ext_callback Hwf d n o l b i Hi Hd Hfit Hl m F Ha Hm)
    as (ok & i' & m' & b' & fp & Hr & Ha' & Hm' & Hoff & Hadv & Hown & Hok).
  by exists ok, i', m', b', fp.
Qed.

(** C22: [pb_decode_noinit] merges any bytes into a message, for a table of
    descriptors that are well-formed, without the unions, arrays of structs and
    numbers of required fields that [wf_descs] excludes, and if allocations fail only where
    no field is an allocated array: it ends without undefined behaviour, and whether
    it returns [true] or [false] what is left is a message of the type again, so
    that a caller may decode more into it or release it; nothing that the message
    owned is lost or owned twice.  (A union of a struct with allocated parts, which
    is excluded, does lose them: [PbLimits.union_of_struct_leaks].) *)
Theorem pb_decode_noinit_keeps_message (d n o l : nat) (b : block) (fp F : footprint) (i : istream) (m : mem)
    (Hwf : wf_descs descs) (Hd : (d < length descs)%nat) (Hfit : msg_fits descs d n)
    (Hi : iwf i) (Hl : (o + n <= length b)%nat) (Ha : alloc_ok (no_pointer_arrays descs) m)
    (Hown : msg_own descs d (mem_read o n b) fp) (Hm : mem_is m ((l, b) :: fp ++ F)) :
  ∃ ok i' m' b' fp',
    decode_noinit d (l, Z.of_nat o) (mk_dstate i m) = Some (ok, mk_dstate i' m') ∧
    i_advance i i' ∧ alloc_ok (no_pointer_arrays descs) m' ∧ mem_is m' ((l, b') :: fp' ++ F) ∧ same_off (span o n) b b' ∧
    msg_own descs d (mem_read o n b') fp'.
Proof.
  destruct (pb_decode_noinit_spec descs exts field_callback ext_callback Hwf (i_bytes_left i + 1)
    d n o l b i fp Hi ltac:(lia) Hd Hfit Hl Hown m F Ha Hm)
    as (ok & i' & m' & b' & fp' & Hr & Ha' & Hm' & Hoff & Hadv & Hown').
  by exists ok, i', m', b', fp'.
Qed.

(** C23: [pb_release] frees every block a message owns, each one once and
    after what is in it, and no other; the message owns nothing then, and a
    second [pb_release] of it frees nothing. *)
Theorem pb_release_frees_message (d n o l : nat) (b : block) (fp F : footprint) (i : istream) (m : mem)
    (Hwf : wf_descs descs) (Hd : (d < length descs)%nat) (Hfit : msg_fits descs d n)
    (Hl : (o + n <= length b)%nat) (Ha : alloc_ok (no_pointer_arrays descs) m)
    (Hown : msg_own descs d (mem_read o n b) fp) (Hm : mem_is m ((l, b) :: fp ++ F)) :
  ∃ m1 b1 m2 b2,
    release d (VLoc l (Z.of_nat o)) (mk_dstate i m) = Some (tt, mk_dstate i m1) ∧
    mem_is m1 ((l, b1) :: F) ∧ same_off (span o n) b b1 ∧ msg_own descs d (mem_read o n b1) [] ∧
    release d (VLoc l (Z.of_nat o)) (mk_dstate i m1) = Some (tt, mk_dstate i m2) ∧
    mem_is m2 ((l, b2) :: F) ∧ same_off (span o n) b b2 ∧ msg_own descs d (mem_read o n b2) [].
Proof.
  destruct (pb_release_runs descs exts Hwf d n o l b i fp Hd Hfit Hl Hown m F Ha Hm)
    as (u & i1 & m1 & b1 & fp1 & Hr1 & Ha1 & Hm1 & Hoff1 & -> & -> & Hown1).
  pose proof (proj1 Hoff1) as Hl1.
  destruct (pb_release_runs descs exts Hwf d n o l b1 i [] Hd Hfit ltac:(lia) Hown1 m1 F Ha1 Hm1)
    as (u2 & i2 & m2 & b2 & fp2 & Hr2 & Ha2 & Hm2 & Hoff2 & -> & -> & Hown2).
  destruct u, u2. exists m1, b1, m2, b2. do 6 (split; [done|]). split; [by eapply same_off_trans|done].
Qed.

End Messages.

(** ** A program *)

(** [message Leaf { required int32 x; optional string s (allocated); }] and
    [message Root { repeated Leaf ls (allocated); optional Leaf l; repeated
    int32 xs (at most 4); oneof u { string a; Leaf b; } (allocated) }] *)
Definition leaf_decls : list decl := [
  mk_decl 1 REQUIRED_STATIC PB_LTYPE_VARINT (mk_member 0 4 4 0) FNull;
  mk_decl 2 OPTIONAL_POINTER PB_LTYPE_STRING (mk_member 8 8 1 0) FNull].

Definition root_decls : list decl := [
  mk_decl 1 REPEATED_POINTER PB_LTYPE_SUBMESSAGE (mk_member 8 8 16 0) (FSubmsg 0);
  mk_decl 2 OPTIONAL_STATIC PB_LTYPE_SUBMESSAGE (mk_member 24 16 16 16) (FSubmsg 0);
  mk_decl 3 REPEATED_STATIC PB_LTYPE_VARINT (mk_member 44 16 4 40) FNull;
  mk_decl 4 ONEOF_POINTER PB_LTYPE_STRING (mk_member 64 8 1 60) FNull;
  mk_decl 5 ONEOF_POINTER PB_LTYPE_SUBMESSAGE (mk_member 64 8 16 60) (FSubmsg 0)].

Definition sample_descs : list (list pb_field) := [fields_of None leaf_decls; fields_of None root_decls].

(** A struct on the stack, not initialised, and another block. *)
Definition sample_mem : mem := mk_mem (list_to_map [(0%nat, replicate 72 MUndef); (1%nat, [MByte 7])]) 2 [].

(** [ls { x: 5 s: "AB" } u.a: "hi"], and the same with [u.b] for [u.a] and an
    [x] missing. *)
Definition sample_bytes : bytes := [10; 6; 8; 5; 18; 2; 65; 66; 34; 2; 104; 105].
Definition sample_bad : bytes := [10; 6; 8; 5; 18; 2; 65; 66; 34; 2; 104; 105; 42; 2; 18; 0].

Definition no_field_callback : nat → pb_field → addr → M bool := λ _ _ _, undefined.
Definition no_ext_callback : nat → addr → Z → Z → M bool := λ _ _ _ _, undefined.

Definition sample_stream (bs : bytes) : istream := pb_istream_from_buffer bs (zlen bs).

Lemma sample_bytes_wf : iwf (sample_stream sample_bytes).
Proof. split; [simpl; lia|by_decide]. Qed.

Lemma sample_bad_wf : iwf (sample_stream sample_bad).
Proof. split; [simpl; lia|by_decide]. Qed.

Lemma sample_wf : wf_descs sample_descs.
Proof. by_decide. Qed.

Lemma sample_fits : msg_fits sample_descs 1 72.
Proof. by_decide. Qed.

Lemma sample_mem_is : mem_is sample_mem [(0%nat, replicate 72 MUndef); (1%nat, [MByte 7])].
Proof. by_decide. Qed.

(** What decoding the bytes into the struct gives, and the number of blocks. *)
Definition sample_decode (bs : bytes) : option (bool * dstate) :=
  pb_decode sample_descs [] no_field_callback no_ext_callback 1 (0%nat, Z.of_nat 0)
    (mk_dstate (sample_stream bs) sample_mem).

Definition blocks_of (r : option (bool * dstate)) : option (bool * nat) :=
  '(ok, s) ← r; Some (ok, size (m_heap (d_mem s))).

Lemma blocks_of_inv r k ok ok' i m :
  blocks_of r = Some (ok', k) → r = Some (ok, mk_dstate i m) → ok = ok' ∧ size (m_heap m) = k.
Proof. intros Hs ->. by injection Hs. Qed.

Lemma sample_bytes_blocks : blocks_of (sample_decode sample_bytes) = Some (true, 5%nat).
Proof. by vm_compute. Qed.

Lemma sample_bad_blocks : blocks_of (sample_decode sample_bad) = Some (false, 2%nat).
Proof. by vm_compute. Qed.

(** The message: a leaf in an array, with a string, and a string in the union. *)
Lemma sample_message :
  ∃ i m b fp, mem_is m ((0%nat, b) :: fp ++ [(1%nat, [MByte 7])]) ∧ msg_own sample_descs 1 (mem_read 0 72 b) fp ∧
    alloc_ok (no_pointer_arrays sample_descs) m ∧ (0 + 72 <= length b)%nat ∧ length fp = 3%nat ∧
    sample_decode sample_bytes = Some (true, mk_dstate i m).
Proof.
  destruct (pb_decode_runs sample_descs [] no_field_callback no_ext_callback sample_wf 1 72 0 0
    (replicate 72 MUndef) (sample_stream sample_bytes) sample_bytes_wf ltac:(simpl; lia)
    sample_fits ltac:(simpl; lia) sample_mem [(1%nat, [MByte 7])] ltac:(by left) sample_mem_is)
    as (ok & i & m & b & fp & Hr & Ha & Hm & [Hlb _] & _ & Hown & _).
  exists i, m, b, fp. do 3 (split; [done|]). split; [rewrite Hlb; simpl; lia|].
  destruct (blocks_of_inv _ _ _ _ _ _ sample_bytes_blocks Hr) as [-> Hs].
  split; [|exact Hr]. apply mem_is_size in Hm. cbn [length] in Hm. rewrite length_app in Hm. simpl in Hm. lia.
Qed.

(** The good bytes are a message with three blocks; the bad ones are refused,
    after four allocations, and nothing is left of them. *)
Lemma pb_decode_makes_message_witness :
  (∃ i m b fp, sample_decode sample_bytes = Some (true, mk_dstate i m) ∧
     mem_is m ((0%nat, b) :: fp ++ [(1%nat, [MByte 7])]) ∧ msg_own sample_descs 1 (mem_read 0 72 b) fp) ∧
  (∃ i m b, sample_decode sample_bad = Some (false, mk_dstate i m) ∧
     mem_is m [(0%nat, b); (1%nat, [MByte 7])]).
Proof.
  split.
  - destruct (pb_decode_makes_message sample_descs [] no_field_callback no_ext_callback 1 72 0 0 (replicate 72 MUndef)
      [(1%nat, [MByte 7])] (sample_stream sample_bytes) sample_mem sample_wf ltac:(simpl; lia) sample_fits
      sample_bytes_wf ltac:(simpl; lia) ltac:(by left) sample_mem_is)
      as (ok & i & m & b & fp & Hr & _ & _ & Hm & _ & Hown & _).
    destruct (blocks_of_inv _ _ _ _ _ _ sample_bytes_blocks Hr) as [-> _].
    exists i, m, b, fp. split; [exact Hr|]. split; [exact Hm|exact Hown].
  - destruct (pb_decode_makes_message sample_descs [] no_field_callback no_ext_callback 1 72 0 0 (replicate 72 MUndef)
      [(1%nat, [MByte 7])] (sample_stream sample_bad) sample_mem sample_wf ltac:(simpl; lia) sample_fits
      sample_bad_wf ltac:(simpl; lia) ltac:(by left) sample_mem_is)
      as (ok & i & m & b & fp & Hr & _ & _ & Hm & _ & Hown & Hok).
    destruct (blocks_of_inv _ _ _ _ _ _ sample_bad_blocks Hr) as [-> _].
    exists i, m, b. split; [exact Hr|]. rewrite (Hok eq_refl) in Hm. exact Hm.
Defined.

Lemma pb_decode_noinit_keeps_message_witness :
  ∃ m b fp i, mem_is m ((0%nat, b) :: fp ++ [(1%nat, [MByte 7])]) ∧ length fp = 3%nat ∧
    ∃ ok i' m' b' fp', pb_decode_noinit sample_descs [] no_field_callback no_ext_callback 1 (0%nat, Z.of_nat 0)
      (mk_dstate i m) = Some (ok, mk_dstate i' m') ∧
      mem_is m' ((0%nat, b') :: fp' ++ [(1%nat, [MByte 7])]) ∧ msg_own sample_descs 1 (mem_read 0 72 b') fp'.
Proof.
  destruct sample_message as (i0 & m & b & fp & Hm & Hown & Ha & Hl & Hlen & _).
  destruct (pb_decode_noinit_keeps_message sample_descs [] no_field_callback no_ext_callback 1 72 0 0 b fp
    [(1%nat, [MByte 7])] (sample_stream sample_bad) m sample_wf ltac:(simpl; lia) sample_fits
    sample_bad_wf Hl Ha Hown Hm)
    as (ok & i' & m' & b' & fp' & Hr & _ & _ & Hm' & _ & Hown').
  exists m, b, fp, (sample_stream sample_bad). split; [exact Hm|]. split; [exact Hlen|].
  by exists ok, i', m', b', fp'.
Defined.

Lemma pb_release_frees_message_witness :
  ∃ m b fp i, mem_is m ((0%nat, b) :: fp ++ [(1%nat, [MByte 7])]) ∧ length fp = 3%nat ∧
    ∃ m1 b1, pb_release sample_descs [] 1 (VLoc 0 (Z.of_nat 0)) (mk_dstate i m) = Some (tt, mk_dstate i m1) ∧
      mem_is m1 [(0%nat, b1); (1%nat, [MByte 7])].
Proof.
  destruct sample_message as (i & m & b & fp & Hm & Hown & Ha & Hl & Hlen & _).
  destruct (pb_release_frees_message sample_descs [] 1 72 0 0 b fp [(1%nat, [MByte 7])] i m sample_wf
    ltac:(simpl; lia) sample_fits Hl Ha Hown Hm) as (m1 & b1 & m2 & b2 & Hr & Hm1 & _).
  exists m, b, fp, i. split; [exact Hm|]. split; [exact Hlen|]. by exists m1, b1.
Defined.
