(* ===== verification/PbLimits.v ===== *)
(** What the descriptors that [wf_descs] excludes do: the decoder on them runs
    into undefined behaviour or loses memory, on inputs of a few bytes.  The
    definitions are run on the inputs. *)

From S2P Require Import Prelude PbStream PbMem PbFields PbDecode PbMessages.

Open Scope Z_scope.

(** The first descriptor of [descs], into a struct of [n] bytes of garbage;
    [fate] says which allocations succeed. *)
Definition run_decode (descs : list (list pb_field)) (n : nat) (fate : list bool) (bs : bytes) : option (bool * dstate) :=
  pb_decode descs [] no_field_callback no_ext_callback 0 (0%nat, 0)
    (mk_dstate (sample_stream bs) (mk_mem (list_to_map [(0%nat, replicate n MUndef)]) 1 fate)).

(** ... and the release of what was decoded: the number of blocks left. *)
Definition run_release (descs : list (list pb_field)) (n : nat) (bs : bytes) : option nat :=
  '(_, s) ← run_decode descs n [] bs;
  '(_, s) ← pb_release descs [] 0 (VLoc 0 0) s;
  Some (size (m_heap (d_mem s))).

(** [oneof u { int64 n; string s (allocated); }]: a number is taken for the
    pointer of the string. *)
Definition mixed_union : list (list pb_field) := [fields_of None [
  mk_decl 1 ONEOF_STATIC PB_LTYPE_VARINT (mk_member 8 8 8 0) FNull;
  mk_decl 2 ONEOF_POINTER PB_LTYPE_STRING (mk_member 8 8 1 0) FNull]].

Example mixed_union_undefined :
  run_decode mixed_union 16 [] [8; 5] ≠ None ∧ run_decode mixed_union 16 [] [8; 5; 18; 1; 65] = None.
Proof. split; by vm_compute. Qed.

(** [oneof u { Sub s; }] with [Sub { string s (allocated); }]: the second
    occurrence clears the pointer of the first, and a block is left after the
    release. *)
Definition union_of_struct : list (list pb_field) := [
  fields_of None [mk_decl 1 ONEOF_STATIC PB_LTYPE_SUBMESSAGE (mk_member 8 8 8 0) (FSubmsg 1)];
  fields_of None [mk_decl 1 OPTIONAL_POINTER PB_LTYPE_STRING (mk_member 0 8 1 0) FNull]].

Example union_of_struct_leaks :
  run_release union_of_struct 16 [10; 3; 10; 1; 65] = Some 1%nat ∧
  run_release union_of_struct 16 [10; 3; 10; 1; 65; 10; 3; 10; 1; 66] = Some 2%nat.
Proof. split; by vm_compute. Qed.

(** [repeated string ss (allocated)]: the count is raised before the array is
    there; when there is no memory the release follows a null pointer. *)
Definition string_array : list (list pb_field) := [fields_of None [
  mk_decl 1 REPEATED_POINTER PB_LTYPE_STRING (mk_member 8 8 8 0) FNull]].

Example failed_array_undefined :
  run_decode string_array 16 [true; true] [10; 1; 65] ≠ None ∧ run_decode string_array 16 [false] [10; 1; 65] = None.
Proof. split; by vm_compute. Qed.

(** [repeated Sub ss (at most 2)] with a repeated field in [Sub]: when the size
    of the second item is cut short the release reads the count of an item that
    was never decoded. *)
Definition struct_array : list (list pb_field) := [
  fields_of None [mk_decl 1 REPEATED_STATIC PB_LTYPE_SUBMESSAGE (mk_member 8 32 16 0) (FSubmsg 1)];
  fields_of None [mk_decl 1 REPEATED_POINTER PB_LTYPE_SUBMESSAGE (mk_member 8 8 4 0) (FSubmsg 2)];
  fields_of None [mk_decl 1 OPTIONAL_STATIC PB_LTYPE_VARINT (mk_member 1 1 1 0) FNull]].

Example struct_array_undefined :
  run_decode struct_array 40 [] [10; 0; 10; 0] ≠ None ∧ run_decode struct_array 40 [] [10; 0; 10] = None.
Proof. split; by vm_compute. Qed.

(** 32 required fields: the check shifts a 32-bit word by 32; with 64 it reads
    a third word. *)
Example all_seen_limits :
  all_seen 31 [2 ^ 31 - 1; 0] = Some true ∧ all_seen 32 [2 ^ 32 - 1; 0] = None ∧
  all_seen 33 [2 ^ 32 - 1; 1] = Some true ∧ all_seen 64 [2 ^ 32 - 1; 2 ^ 32 - 1] = None.
Proof. repeat split; by vm_compute. Qed.

(** A tag that is cut short at the end of the message is its end. *)
Definition one_number : list (list pb_field) := [fields_of None [
  mk_decl 1 OPTIONAL_STATIC PB_LTYPE_VARINT (mk_member 4 4 4 0) FNull]].

Example truncated_tag_accepted :
  fst <$> run_decode one_number 8 [] [8; 5; 136] = Some true ∧
  fst <$> run_decode one_number 8 [] [8; 5; 8] = Some false.
Proof. split; by vm_compute. Qed.
