(* ===== verification/PbEncode.v ===== *)
(** The encoder of [src/nanopb/pb_encode.c]: it walks the message struct with
    the iterator and writes its fields to a stream ([pb_encode],
    [pb_encode_submessage], [pb_get_encoded_size]).  It only reads the memory,
    which is an argument; [None] is undefined behaviour.  The callbacks of the
    user are arguments. *)

From S2P Require Import Prelude PbStream PbMem PbFields PbDecode.

Open Scope Z_scope.

(** ** Reading the memory *)

(** [if (load fails) undefined behaviour; k] *)
Definition from_mem {A} (r : option A) (k : A → enc) : enc := λ s, a ← r; k a s.

Notation "'let^' x ':=' r 'in' k" := (from_mem r (λ x, k))
  (at level 200, x pattern, r at level 100, k at level 200, right associativity).

Definition ofail (msg : string) : enc := λ s, Some (false, o_set_error msg s).
Definition otrue : enc := λ s, Some (true, s).
Definition oundefined : enc := λ _, None.

(** What a pointer points to, and the address [k] bytes further; a null pointer
    points to nothing. *)
Definition target (p : pval) : option addr :=
  match p with VLoc l o => Some (l, o) | _ => None end.

Definition ptr_add (p : pval) (k : Z) : option pval :=
  match p with VLoc l o => Some (VLoc l (o + k)) | _ => None end.

(** *** The encoder *)

Section Encoder.
Context (descs : list (list pb_field)) (exts : list extension_type).
Context (m : mem).
(** [encode] of a [pb_callback_t], given the field and [&arg], and [encode] of a
    [pb_extension_type_t], given the extension. *)
Context (field_encode : nat → pb_field → addr → enc).
Context (ext_encode : nat → addr → enc).

(** [*(const uintN_t* )src], for [n] bytes. *)
Definition load_uint (src : pval) (n : nat) : option Z :=
  a ← target src; bs ← load_bytes m a n; Some (of_le bs).

(** [*(const intN_t* )src] *)
Definition load_sint (src : pval) (n : nat) : option Z := swrap (8 * Z.of_nat n) <$> load_uint src n.

(** The bytes a pointer gives [pb_write]; there are none for it to write at a
    null or wild pointer, or where memory was not written. *)
Definition buffer_at (p : pval) (count : Z) : option bytes :=
  a ← target p; load_bytes m a (Z.to_nat count).

(** *** Values *)

Definition pb_enc_varint (f : pb_field) (src : pval) : enc :=
  if f_data_size f =? 1 then let^ value := load_sint src 1 in pb_encode_varint (u64 value)
  else if f_data_size f =? 2 then let^ value := load_sint src 2 in pb_encode_varint (u64 value)
  else if f_data_size f =? 4 then let^ value := load_sint src 4 in pb_encode_varint (u64 value)
  else if f_data_size f =? 8 then let^ value := load_sint src 8 in pb_encode_varint (u64 value)
  else ofail "invalid data_size".

Definition pb_enc_uvarint (f : pb_field) (src : pval) : enc :=
  if f_data_size f =? 1 then let^ value := load_uint src 1 in pb_encode_varint value
  else if f_data_size f =? 2 then let^ value := load_uint src 2 in pb_encode_varint value
  else if f_data_size f =? 4 then let^ value := load_uint src 4 in pb_encode_varint value
  else if f_data_size f =? 8 then let^ value := load_uint src 8 in pb_encode_varint value
  else ofail "invalid data_size".

Definition pb_enc_svarint (f : pb_field) (src : pval) : enc :=
  if f_data_size f =? 1 then let^ value := load_sint src 1 in pb_encode_svarint value
  else if f_data_size f =? 2 then let^ value := load_sint src 2 in pb_encode_svarint value
  else if f_data_size f =? 4 then let^ value := load_sint src 4 in pb_encode_svarint value
  else if f_data_size f =? 8 then let^ value := load_sint src 8 in pb_encode_svarint value
  else ofail "invalid data_size".

Definition pb_enc_fixed64 (f : pb_field) (src : pval) : enc :=
  let^ val := load_uint src 8 in pb_encode_fixed64 val.

Definition pb_enc_fixed32 (f : pb_field) (src : pval) : enc :=
  let^ val := load_uint src 4 in pb_encode_fixed32 val.

Definition pb_enc_bytes (f : pb_field) (src : pval) : enc :=
  if is_ltype PB_LTYPE_FIXED_LENGTH_BYTES f then
    pb_encode_string (buffer_at src (f_data_size f)) (f_data_size f)
  else
    match src with
    | VNull => pb_encode_string None 0
    | _ =>
      let^ size := load_uint src 1 in
      if is_atype PB_ATYPE_STATIC f && (f_data_size f <? PB_BYTES_ARRAY_T_ALLOCSIZE size)
      then ofail "bytes size exceeded"
      else let^ bytes := ptr_add src 1 in pb_encode_string (buffer_at bytes size) size
    end.

(** [while (size < max_size && *p != '\0')]; the memory of the string is a
    block, which the loop does not leave. *)
Fixpoint string_length (fuel : nat) (max_size size : Z) (p : addr) : option Z :=
  match fuel with
  | O => None
  | S fuel' =>
    if size <? max_size then
      c ← load_u8 m p;
      if c =? 0 then Some size else string_length fuel' max_size (size + 1) (padd p 1)
    else Some size
  end.

Definition block_size (a : addr) : nat := match m_heap m !! a.1 with Some b => length b | None => 0 end.

Definition pb_enc_string (f : pb_field) (src : pval) : enc :=
  let max_size := if is_atype PB_ATYPE_POINTER f then SIZE_MAX else f_data_size f in
  match src with
  | VNull => pb_encode_string None 0
  | _ =>
    let^ p := target src in
    let^ size := string_length (S (block_size p)) max_size 0 p in
    pb_encode_string (buffer_at src size) size
  end.

(** [switch (PB_LTYPE(field->type))] *)
Definition wiretype_for (f : pb_field) : option Z :=
  if is_ltype PB_LTYPE_VARINT f || is_ltype PB_LTYPE_UVARINT f || is_ltype PB_LTYPE_SVARINT f then Some PB_WT_VARINT
  else if is_ltype PB_LTYPE_FIXED32 f then Some PB_WT_32BIT
  else if is_ltype PB_LTYPE_FIXED64 f then Some PB_WT_64BIT
  else if is_ltype PB_LTYPE_BYTES f || is_ltype PB_LTYPE_STRING f || is_ltype PB_LTYPE_SUBMESSAGE f ||
          is_ltype PB_LTYPE_FIXED_LENGTH_BYTES f then Some PB_WT_STRING
  else None.

Definition pb_encode_tag_for_field (f : pb_field) : enc :=
  match wiretype_for f with
  | Some wiretype => pb_encode_tag wiretype (f_tag f)
  | None => ofail "invalid field type"
  end.

(** *** One level of messages *)

Section Level.
(** [pb_encode] for a submessage. *)
Context (encode_down : nat → pval → enc).

(** The first pass counts the bytes, the second one writes to a stream of that
    size. *)
Definition pb_encode_submessage_with (d : nat) (src : pval) : enc := λ s,
  '(ok, sub) ← encode_down d src PB_OSTREAM_SIZING;
  if negb ok then Some (false, mk_ostream (o_state s) (o_max_size s) (o_bytes_written s) (o_errmsg sub))
  else
    let size := o_bytes_written sub in
    oand (pb_encode_varint size) (λ s,
      match o_state s with
      | None => pb_write None size s
      | Some _ =>
        if o_max_size s <? u64 (o_bytes_written s + size) then ofail "stream full" s
        else
          '(status, sub) ← encode_down d src (mk_ostream (o_state s) size 0 None);
          let s := mk_ostream (o_state sub) (o_max_size s)
                     (u64 (o_bytes_written s + o_bytes_written sub)) (o_errmsg sub) in
          if negb (o_bytes_written sub =? size) then ofail "submsg size changed" s else Some (status, s)
      end) s.

Definition pb_enc_submessage (f : pb_field) (src : pval) : enc :=
  match f_ptr f with
  | FNull => ofail "invalid field descriptor"
  | FSubmsg d => pb_encode_submessage_with d src
  | FDefault _ => oundefined
  end.

(** [PB_ENCODERS]; no encoder for an extension, nor past the end of the table. *)
Definition PB_ENCODERS (f : pb_field) (src : pval) : enc :=
  if is_ltype PB_LTYPE_VARINT f then pb_enc_varint f src
  else if is_ltype PB_LTYPE_UVARINT f then pb_enc_uvarint f src
  else if is_ltype PB_LTYPE_SVARINT f then pb_enc_svarint f src
  else if is_ltype PB_LTYPE_FIXED32 f then pb_enc_fixed32 f src
  else if is_ltype PB_LTYPE_FIXED64 f then pb_enc_fixed64 f src
  else if is_ltype PB_LTYPE_BYTES f then pb_enc_bytes f src
  else if is_ltype PB_LTYPE_STRING f then pb_enc_string f src
  else if is_ltype PB_LTYPE_SUBMESSAGE f then pb_enc_submessage f src
  else if is_ltype PB_LTYPE_FIXED_LENGTH_BYTES f then pb_enc_bytes f src
  else oundefined.

(** [for (i = 0; i < count; i++) { if (!item(p)) return false; p += data_size; }] *)
Fixpoint encode_items (count : nat) (item : pval → enc) (data_size : Z) (p : pval) : enc :=
  match count with
  | O => otrue
  | S count' =>
    oand (item p) (let^ q := ptr_add p data_size in encode_items count' item data_size q)
  end.

(** An item that is not packed. *)
Definition encode_item (f : pb_field) (p : pval) : enc :=
  oand (pb_encode_tag_for_field f)
    (if is_atype PB_ATYPE_POINTER f && is_string_or_bytes f then
       let^ a := target p in let^ q := load_ptr m a in PB_ENCODERS f q
     else PB_ENCODERS f p).

(** The size of a packed array. *)
Definition packed_size (f : pb_field) (p : pval) (count : Z) : option (bool * Z) :=
  if is_ltype PB_LTYPE_FIXED32 f then Some (true, 4 * count)
  else if is_ltype PB_LTYPE_FIXED64 f then Some (true, 8 * count)
  else
    '(ok, sizestream) ← encode_items (Z.to_nat count) (PB_ENCODERS f) (f_data_size f) p PB_OSTREAM_SIZING;
    Some (ok, o_bytes_written sizestream).

Definition encode_array (f : pb_field) (p : pval) (count : Z) : enc :=
  if count =? 0 then otrue
  else if negb (is_atype PB_ATYPE_POINTER f) && (f_array_size f <? count)
  then ofail "array max size exceeded"
  else if is_packable f then
    oand (pb_encode_tag PB_WT_STRING (f_tag f))
      (let^ (ok, size) := packed_size f p count in
       if (ok : bool) then
         oand (pb_encode_varint size) (λ s,
           match o_state s with
           | None => pb_write None size s
           | Some _ => encode_items (Z.to_nat count) (PB_ENCODERS f) (f_data_size f) p s
           end)
       else λ s, Some (false, s))
  else encode_items (Z.to_nat count) (encode_item f) (f_data_size f) p.

(** [pSize] is the member at [size_offset], or the local [implicit_has]. *)
Definition encode_basic_field (f : pb_field) (pData : addr) : enc :=
  let^ p := (if is_atype PB_ATYPE_POINTER f then load_ptr m pData else Some (VLoc pData.1 pData.2)) in
  let implicit_has := match p with VNull => 0 | _ => 1 end in
  let size := if f_size_offset f =? 0 then Some implicit_has else load_u8 m (padd pData (f_size_offset f)) in
  let value := oand (pb_encode_tag_for_field f) (PB_ENCODERS f p) in
  if is_htype PB_HTYPE_REQUIRED f then
    match p with VNull => ofail "missing required field" | _ => value end
  else if is_htype PB_HTYPE_OPTIONAL f then
    let^ has := size in if has =? 0 then otrue else value
  else if is_htype PB_HTYPE_REPEATED f then
    let^ count := size in encode_array f p count
  else if is_htype PB_HTYPE_ONEOF f then
    let^ which := size in if which =? f_tag f then value else otrue
  else ofail "invalid field type".

Definition encode_callback_field (f : pb_field) (pData : addr) : enc :=
  let^ encode := load_ptr m pData in
  match encode with
  | VNull => otrue
  | VFun n => λ s,
    '(ok, s) ← field_encode n f (padd pData 8) s;
    if (ok : bool) then otrue s else ofail "callback error" s
  | _ => oundefined
  end.

Definition encode_field (f : pb_field) (pData : addr) : enc :=
  if is_atype PB_ATYPE_STATIC f || is_atype PB_ATYPE_POINTER f then encode_basic_field f pData
  else if is_atype PB_ATYPE_CALLBACK f then encode_callback_field f pData
  else ofail "invalid field type".

(** [extension->type] *)
Definition ext_type_at (ext : addr) : option extension_type :=
  t ← load_ptr m (padd ext EXT_TYPE);
  match t with VExt n => exts !! n | _ => None end.

Definition default_extension_encoder (ext : addr) : enc :=
  let^ t := ext_type_at ext in
  let field := x_arg t in
  if is_atype PB_ATYPE_POINTER field then encode_field field (padd ext EXT_DEST)
  else
    let^ p := load_ptr m (padd ext EXT_DEST) in
    let^ dest := target p in encode_field field dest.

(** [while (extension)]; an extension is a block, and a chain of them that is no
    cycle is no longer than the number of the blocks. *)
Fixpoint extensions_loop (fuel : nat) (p : pval) : enc :=
  match fuel with
  | O => oundefined
  | S fuel' =>
    match p with
    | VNull => otrue
    | _ =>
      let^ ext := target p in
      let^ t := ext_type_at ext in
      oand (match x_encode t with Some n => ext_encode n ext | None => default_extension_encoder ext end)
        (let^ next := load_ptr m (padd ext EXT_NEXT) in extensions_loop fuel' next)
    end
  end.

Definition encode_extension_field (pData : addr) : enc :=
  let^ p := load_ptr m pData in extensions_loop (S (size (m_heap m))) p.

(** [do ... while (pb_field_iter_next(&iter));] *)
Fixpoint encode_loop (fuel : nat) (it : pb_field_iter) : enc :=
  match fuel with
  | O => oundefined
  | S fuel' =>
    let f := it_field it in
    oand (if is_ltype PB_LTYPE_EXTENSION f then encode_extension_field (it_pData it)
          else encode_field f (it_pData it))
      (let '(more, it') := pb_field_iter_next it in
       if (more : bool) then encode_loop fuel' it' else otrue)
  end.

Definition pb_encode_with (d : nat) (src : pval) : enc :=
  match descriptor descs d with
  | [] => otrue
  | fields =>
    let^ a := target src in
    let '(ok, it) := pb_field_iter_begin fields a in
    if (ok : bool) then encode_loop (length fields) it else otrue
  end.

End Level.

Fixpoint encode_at (fuel : nat) : nat → pval → enc :=
  match fuel with
  | O => λ _ _, oundefined
  | S fuel' => pb_encode_with (encode_at fuel')
  end.

(** As for [pb_release]: each pointer that is followed leads to another block,
    and between two pointers the submessages are parts of one another. *)
Definition encode_fuel : nat := S (size (m_heap m)) * S (length descs).

Definition pb_encode (d : nat) (src : pval) : enc := encode_at encode_fuel d src.

Definition pb_encode_submessage (d : nat) (src : pval) : enc := pb_encode_submessage_with pb_encode d src.

Definition pb_encode_delimited (d : nat) (src : pval) : enc := pb_encode_submessage d src.

(** The size, or [false]. *)
Definition pb_get_encoded_size (d : nat) (src : pval) : option (option Z) :=
  '(ok, stream) ← pb_encode d src PB_OSTREAM_SIZING;
  Some (if (ok : bool) then Some (o_bytes_written stream) else None).

End Encoder.
