(* ===== verification/PbWire.v ===== *)
(** Messages as values, the bytes the wire format of protobuf gives them, and
    what it is for a struct in memory to hold a message ([msg_val]). *)

From S2P Require Import Prelude PbStream PbMem PbFields PbDecode PbShape PbRuns PbOwn PbPlace PbDefaults.

Open Scope Z_scope.

(** ** Messages *)

(** A value: a number, the bytes of a string, a message with the values of each
    of its fields: one if the field is present, none if it is not, the items of
    an array. *)
Inductive mval :=
| MInt (z : Z)
| MBytes (bs : bytes)
| MMsg (vss : list (list mval)).

Definition is_submsg (f : pb_field) : bool := is_ltype PB_LTYPE_SUBMESSAGE f.

Lemma packable_ltype f :
  is_packable f = true → is_submsg f = false ∧ is_string_or_bytes f = false ∧
  is_ltype PB_LTYPE_FIXED_LENGTH_BYTES f = false.
Proof.
  unfold is_packable, is_submsg, is_string_or_bytes, is_ltype. intros Hl%Z.leb_le.
  unfold PB_LTYPE_LAST_PACKABLE, PB_LTYPE_SUBMESSAGE, PB_LTYPE_STRING, PB_LTYPE_BYTES, PB_LTYPE_FIXED_LENGTH_BYTES in *.
  by bool_cases.
Qed.

(** The wire type of a value. *)
Definition wire_type_of (f : pb_field) : Z :=
  if is_ltype PB_LTYPE_FIXED32 f then PB_WT_32BIT
  else if is_ltype PB_LTYPE_FIXED64 f then PB_WT_64BIT
  else if is_packable f then PB_WT_VARINT
  else PB_WT_STRING.

Definition wire_int (f : pb_field) (z : Z) : bytes :=
  if is_ltype PB_LTYPE_VARINT f then varint (u64 z)
  else if is_ltype PB_LTYPE_SVARINT f then varint (zigzag z)
  else if is_ltype PB_LTYPE_FIXED32 f then le_bytes 4 z
  else if is_ltype PB_LTYPE_FIXED64 f then le_bytes 8 z
  else varint z.

(** A field, given the bytes of its values; an array of numbers is packed. *)
Definition wire_join (f : pb_field) (ws : list bytes) : bytes :=
  match ws with
  | [] => []
  | _ =>
    if is_htype PB_HTYPE_REPEATED f && is_packable f
    then varint (key PB_WT_STRING (f_tag f)) ++ delimited (concat ws)
    else concat (map (λ w, varint (key (wire_type_of f) (f_tag f)) ++ w) ws)
  end.

Section Wire.
Context (descs : list (list pb_field)).

Abbreviation desc := (descriptor descs).

Definition submsg_fields (f : pb_field) : list pb_field :=
  match f_ptr f with FSubmsg d => desc d | _ => [] end.

Fixpoint wire_value (f : pb_field) (v : mval) {struct v} : bytes :=
  match v with
  | MInt z => wire_int f z
  | MBytes bs => delimited bs
  | MMsg vss =>
    let fix fields (fs : list pb_field) (vss : list (list mval)) {struct vss} : list bytes :=
      match vss, fs with
      | vs :: vss', g :: fs' => wire_join g (map (wire_value g) vs) :: fields fs' vss'
      | _, _ => []
      end in
    delimited (concat (fields (submsg_fields f) vss))
  end.

Definition wire_field (f : pb_field) (vs : list mval) : bytes := wire_join f (map (wire_value f) vs).

Fixpoint wire_fields (fs : list pb_field) (vss : list (list mval)) {struct vss} : list bytes :=
  match vss, fs with
  | vs :: vss', g :: fs' => wire_field g vs :: wire_fields fs' vss'
  | _, _ => []
  end.

(** The bytes of a message of descriptor [d]. *)
Definition wire (d : nat) (vss : list (list mval)) : bytes := concat (wire_fields (desc d) vss).

(** ** Values of the type of a field *)

Definition int_ok (f : pb_field) (z : Z) : Prop :=
  f_data_size f ∈ [1; 2; 4; 8] ∧
  (if is_ltype PB_LTYPE_VARINT f || is_ltype PB_LTYPE_SVARINT f then is_sint (8 * f_data_size f) z
   else is_uint (8 * f_data_size f) z).

Definition bytes_fit (f : pb_field) (bs : bytes) : Prop :=
  bytes_ok bs ∧
  if is_ltype PB_LTYPE_STRING f then
    Forall (λ b, b ≠ 0) bs ∧ zlen bs + 1 < 2 ^ 32 ∧ (is_atype PB_ATYPE_STATIC f = true → zlen bs + 1 <= f_data_size f)
  else if is_ltype PB_LTYPE_BYTES f then
    zlen bs <= PB_SIZE_MAX ∧ (is_atype PB_ATYPE_STATIC f = true → zlen bs + 1 <= f_data_size f)
  else zlen bs = f_data_size f.

Definition plain_ok (f : pb_field) (v : mval) : Prop :=
  match v with
  | MInt z => is_packable f = true ∧ int_ok f z
  | MBytes bs => is_packable f = false ∧ bytes_fit f bs
  | MMsg _ => False
  end.

(** How many values a field has. *)
Definition count_ok (f : pb_field) (vs : list mval) : Prop :=
  if is_htype PB_HTYPE_REQUIRED f then zlen vs = 1
  else if is_htype PB_HTYPE_REPEATED f then
    zlen vs <= if is_atype PB_ATYPE_STATIC f then f_array_size f else PB_SIZE_MAX
  else zlen vs <= 1.

(** One member of a union at most is present. *)
Definition unions_ok (d : nat) (vss : list (list mval)) : Prop :=
  ∀ j k g h vs ws, layout (desc d) !! j = Some g → layout (desc d) !! k = Some h →
    vss !! j = Some vs → vss !! k = Some ws → j ≠ k → same_union g h → vs = [] ∨ ws = [].

Inductive val_ok (f : pb_field) : mval → Prop :=
| ok_plain v : is_submsg f = false → plain_ok f v → val_ok f v
| ok_msg d vss :
    is_submsg f = true → f_ptr f = FSubmsg d → length vss = length (desc d) →
    (∀ k g vs, desc d !! k = Some g → vss !! k = Some vs → count_ok g vs) →
    (∀ k g vs v, desc d !! k = Some g → vss !! k = Some vs → v ∈ vs → val_ok g v) →
    unions_ok d vss → zlen (wire d vss) < 2 ^ 32 →
    val_ok f (MMsg vss).

Definition msg_ok (d : nat) (vss : list (list mval)) : Prop :=
  length vss = length (desc d) ∧
  (∀ k g vs, desc d !! k = Some g → vss !! k = Some vs → count_ok g vs) ∧
  (∀ k g vs v, desc d !! k = Some g → vss !! k = Some vs → v ∈ vs → val_ok g v) ∧
  unions_ok d vss.

(** ** Values in memory *)

(** The bytes of a value that is no message: an integer in the byte order of the
    machine, a string with its terminator, the size and the bytes. *)
Definition stored (f : pb_field) (v : mval) : bytes :=
  match v with
  | MInt z => le_bytes (Z.to_nat (f_data_size f)) z
  | MBytes bs =>
    if is_ltype PB_LTYPE_STRING f then bs ++ [0]
    else if is_ltype PB_LTYPE_BYTES f then zlen bs :: bs
    else bs
  | MMsg _ => []
  end.

(** The memory begins with the value. *)
Definition holds (f : pb_field) (v : mval) (data : block) : Prop :=
  ∃ rest, data = (MByte <$> stored f v) ++ rest.

Section Values.
Context (R : nat → block → footprint → list (list mval) → Prop).

(** A value in place, behind a pointer, as an item of an allocated array, and
    such an array. *)
Inductive item_val (f : pb_field) (data : block) : footprint → mval → Prop :=
| iv_plain v : is_submsg f = false → plain_ok f v → holds f v data → item_val f data [] v
| iv_msg d fp vss : is_submsg f = true → f_ptr f = FSubmsg d → R d data fp vss → item_val f data fp (MMsg vss).

Inductive ptr_val (f : pb_field) : block → footprint → mval → Prop :=
| pv_str l b v :
    is_string_or_bytes f = true → plain_ok f v → holds f v b → ptr_val f (ptr_bytes (VLoc l 0)) [(l, b)] v
| pv_item l b fp v :
    is_string_or_bytes f = false → zlen b = f_data_size f → item_val f b fp v →
    ptr_val f (ptr_bytes (VLoc l 0)) ((l, b) :: fp) v.

Inductive elem_val (f : pb_field) (data : block) (fp : footprint) (v : mval) : Prop :=
| ev_str : is_string_or_bytes f = true → ptr_val f data fp v → elem_val f data fp v
| ev_item : is_string_or_bytes f = false → item_val f data fp v → elem_val f data fp v.

Inductive arr_val (f : pb_field) : block → footprint → list mval → Prop :=
| av_null : arr_val f (ptr_bytes VNull) [] []
| av_block l b fps vs :
    length fps = length vs → zlen vs * f_data_size f <= zlen b →
    (∀ k fp v, fps !! k = Some fp → vs !! k = Some v → elem_val f (elem f k b) fp v) →
    arr_val f (ptr_bytes (VLoc l 0)) ((l, b) :: concat fps) vs.

(** A field, from its data and the memory at [pSize]. *)
Inductive field_val (f : pb_field) (data : block) (slot : option memval) : footprint → list mval → Prop :=
| fv_required fp v :
    is_atype PB_ATYPE_STATIC f = true → is_htype PB_HTYPE_REQUIRED f = true →
    item_val f data fp v → field_val f data slot fp [v]
| fv_no_optional :
    is_atype PB_ATYPE_STATIC f = true → is_htype PB_HTYPE_OPTIONAL f = true →
    slot = Some (MByte 0) → field_val f data slot [] []
| fv_optional fp v :
    is_atype PB_ATYPE_STATIC f = true → is_htype PB_HTYPE_OPTIONAL f = true →
    slot = Some (MByte 1) → item_val f data fp v → field_val f data slot fp [v]
| fv_array vs :
    is_atype PB_ATYPE_STATIC f = true → is_htype PB_HTYPE_REPEATED f = true →
    slot = Some (MByte (zlen vs)) → zlen vs <= f_array_size f →
    (∀ k v, vs !! k = Some v → item_val f (elem f k data) [] v) → field_val f data slot [] vs
| fv_no_oneof w :
    is_htype PB_HTYPE_ONEOF f = true → slot = Some (MByte w) → w ≠ f_tag f →
    (is_atype PB_ATYPE_POINTER f = true → ∃ p, data = ptr_bytes p) → field_val f data slot [] []
| fv_oneof fp v :
    is_atype PB_ATYPE_STATIC f = true → is_htype PB_HTYPE_ONEOF f = true →
    slot = Some (MByte (f_tag f)) → item_val f data fp v → field_val f data slot fp [v]
| fv_no_ptr :
    is_atype PB_ATYPE_POINTER f = true → is_htype PB_HTYPE_OPTIONAL f = true →
    data = ptr_bytes VNull → field_val f data slot [] []
| fv_ptr fp v :
    is_atype PB_ATYPE_POINTER f = true → (is_htype PB_HTYPE_REQUIRED f = true ∨ is_htype PB_HTYPE_OPTIONAL f = true) →
    ptr_val f data fp v → field_val f data slot fp [v]
| fv_ptr_array fp vs :
    is_atype PB_ATYPE_POINTER f = true → is_htype PB_HTYPE_REPEATED f = true →
    slot = Some (MByte (zlen vs)) → zlen vs <= PB_SIZE_MAX → arr_val f data fp vs → field_val f data slot fp vs
| fv_ptr_oneof fp v :
    is_atype PB_ATYPE_POINTER f = true → is_htype PB_HTYPE_ONEOF f = true →
    slot = Some (MByte (f_tag f)) → ptr_val f data fp v → field_val f data slot fp [v].

End Values.

(** The struct of descriptor [d] with contents [data] and the blocks [fp] holds
    the message [vss]. *)
Inductive msg_val (d : nat) (data : block) : footprint → list (list mval) → Prop :=
| msg_val_intro fps vss :
    length fps = length (layout (desc d)) → length vss = length (desc d) →
    (∀ k g fp vs, layout (desc d) !! k = Some g → fps !! k = Some fp → vss !! k = Some vs →
       field_val msg_val g.1 (fdata 0 data g) (fslot 0 data g) fp vs) →
    msg_val d data (concat fps) vss.

End Wire.

(** ** Equations of the wire form *)

Section Forms.
Context (descs : list (list pb_field)).

Lemma wire_value_message f vss : wire_value descs f (MMsg vss) = delimited (concat (wire_fields descs (submsg_fields descs f) vss)).
Proof. reflexivity. Qed.

Lemma wire_value_submsg f d vss : f_ptr f = FSubmsg d → wire_value descs f (MMsg vss) = delimited (wire descs d vss).
Proof. intros Hp. rewrite wire_value_message. unfold submsg_fields. by rewrite Hp. Qed.

Lemma wire_single f v :
  is_htype PB_HTYPE_REPEATED f = false →
  wire_field descs f [v] = varint (key (wire_type_of f) (f_tag f)) ++ wire_value descs f v.
Proof. intros Hr. unfold wire_field, wire_join. rewrite Hr. cbn [map andb concat]. by rewrite app_nil_r. Qed.

Lemma wire_fields_lookup fs vss k g vs :
  fs !! k = Some g → vss !! k = Some vs → wire_fields descs fs vss !! k = Some (wire_field descs g vs).
Proof.
  revert fs k; induction vss as [|w vss IH]; intros fs k Hg Hv; [done|]. destruct fs as [|h fs]; [done|].
  destruct k as [|k]; simpl in *; [by simplify_eq|by apply IH].
Qed.

Lemma wire_fields_length fs vss : length vss = length fs → length (wire_fields descs fs vss) = length fs.
Proof.
  revert fs; induction vss as [|w vss IH]; intros [|h fs] Hl; try done. simpl in *. by rewrite IH by lia.
Qed.

End Forms.

(** Only a field with a slot depends on it. *)
Lemma field_val_slot R f data slot slot' fp vs :
  (has_slot f = true → slot' = slot) → field_val R f data slot fp vs → field_val R f data slot' fp vs.
Proof.
  intros Hs Hv. destruct Hv as [fp v Ha Hh Hi|Ha Hh ->|fp v Ha Hh -> Hi|vs Ha Hh -> Hmax Hi|w Hh -> Hw Hp|fp v Ha Hh -> Hi
    |Ha Hh Hd|fp v Ha Hh Hp|fp vs Ha Hh -> Hmax Harr|fp v Ha Hh -> Hp].
  - by apply fv_required.
  - apply fv_no_optional; [done..|]. by apply Hs, slot_optional.
  - apply fv_optional; [done..| |done]. by apply Hs, slot_optional.
  - apply fv_array; [done..| |done|done]. by apply Hs, slot_repeated.
  - apply (fv_no_oneof _ _ _ _ w); [done| |done|done]. by apply Hs, slot_oneof.
  - apply fv_oneof; [done..| |done]. by apply Hs, slot_oneof.
  - by apply fv_no_ptr.
  - by apply fv_ptr.
  - apply fv_ptr_array; [done..| |done|done]. by apply Hs, slot_repeated.
  - apply fv_ptr_oneof; [done..| |done]. by apply Hs, slot_oneof.
Qed.
