(* ===== verification/PbReads.v ===== *)
(** What the decoders of values make of the wire form of a value: [reads c bs
    ... Q] says that the computation [c], on a stream that begins with the bytes
    [bs], succeeds, moves the stream past them and ends in [Q], given that
    requests for memory are granted. *)

From S2P Require Import Prelude PbStream PbMem PbFields PbDecode PbShape PbRuns PbOwn PbPlace PbDefaults PbRelease PbValues PbItems PbWire.

Open Scope Z_scope.

(** ** Streams that begin with some bytes *)

Definition begins (i : istream) (bs : bytes) : Prop :=
  (∃ rest, i_state i = bs ++ rest) ∧ zlen bs <= i_bytes_left i.

Lemma begins_app i b1 b2 : begins i (b1 ++ b2) → begins i b1 ∧ begins (i_drop (length b1) i) b2.
Proof.
  intros [[rest Hs] Hl]. rewrite length_app in Hl. split; split.
  - exists (b2 ++ rest). by rewrite app_assoc.
  - lia.
  - exists rest. simpl. by rewrite Hs, <-app_assoc, drop_app_length.
  - simpl. lia.
Qed.

Abbreviation runs_ok := (runs false).

Definition reads (c : M bool) (bs : bytes) (l : nat) (T : nat → Prop) (b : block) (fp : footprint)
    (Q : block → footprint → Prop) : Prop :=
  ∀ i, begins i bs → runs_ok c i l T b fp (λ r i' b' fp', r = true ∧ i' = i_drop (length bs) i ∧ Q b' fp').

(** [if (!reader(stream, &x)) return false; k] *)
Lemma reads_parses {A} (d : dec A) (k : A → M bool) bs bs' x l T b fp Q :
  parses d bs x → reads (k x) bs' l T b fp Q →
  reads (mbindM (indec d) (λ r, match r with Some a => k a | None => ret false end)) (bs ++ bs') l T b fp Q.
Proof.
  intros Hd Hk i Hi. apply begins_app in Hi as [[[rest Hs] Hl] Hi].
  specialize (Hk _ Hi). rewrite i_drop_drop, <-length_app in Hk.
  intros m F Ha Hm. unfold mbindM, indec. cbn [d_in d_mem]. rewrite (Hd i rest Hs Hl). cbn [mbind option_bind].
  by apply Hk.
Qed.

Lemma reads_ret l (T : nat → Prop) b fp (Q : block → footprint → Prop) : Q b fp → reads (ret true) [] l T b fp Q.
Proof. intros HQ i _. apply runs_ret. by rewrite i_drop_0. Qed.

Lemma reads_weaken c bs l (T T' : nat → Prop) b fp (Q Q' : block → footprint → Prop) :
  reads c bs l T b fp Q → (∀ k, T k → T' k) → (∀ b' fp', Q b' fp' → same_off T b b' → Q' b' fp') →
  reads c bs l T' b fp Q'.
Proof.
  intros Hc HT HQ i Hi. eapply runs_weaken; [by apply Hc|done|]. intros r i' b' fp' (-> & -> & Hq) Hoff.
  do 2 (split; [done|]). by apply HQ.
Qed.

Lemma reads_perm_post c bs l (T : nat → Prop) b fp (Q Q' : block → footprint → Prop) :
  reads c bs l T b fp Q → (∀ b' fp', Q b' fp' → same_off T b b' → ∃ fp2, fp' ≡ₚ fp2 ∧ Q' b' fp2) →
  reads c bs l T b fp Q'.
Proof.
  intros Hc HQ i Hi. eapply runs_perm_post; [by apply Hc|]. intros r i' b' fp' (-> & -> & Hq) Hoff.
  destruct (HQ b' fp' Hq Hoff) as (fp2 & Hp & Hq2). by exists fp2.
Qed.

(** A step that leaves the stream alone, then the reader. *)
Lemma reads_step {A} (c : M A) (k : A → M bool) bs l (T : nat → Prop) b fp Q :
  (∀ i, runs_ok c i l T b fp (λ a i' b' fp', i' = i ∧ reads (k a) bs l T b' fp' Q)) →
  reads (mbindM c k) bs l T b fp Q.
Proof.
  intros Hc i Hi. eapply runs_bind; [apply Hc|]. intros a i' b' fp' (-> & Hk) _. by apply Hk.
Qed.

(** A reader, then a step that leaves the stream alone. *)
Lemma reads_then (c : M bool) (k : bool → M bool) bs l (T : nat → Prop) b fp Q Q' :
  reads c bs l T b fp Q → (∀ b' fp', Q b' fp' → same_off T b b' → reads (k true) [] l T b' fp' Q') →
  reads (mbindM c k) bs l T b fp Q'.
Proof.
  intros Hc Hk i Hi. eapply runs_bind; [by apply Hc|]. intros r i' b' fp' (-> & -> & HQ) Hoff.
  rewrite <-(i_drop_0 (i_drop (length bs) i)) at 1. eapply runs_conseq.
  - apply (Hk b' fp' HQ Hoff). split; [by eexists|]. simpl. destruct Hi as [_ ?]. lia.
  - intros r i' b2 fp2 (-> & -> & HQ') _. by rewrite !i_drop_0.
Qed.

(** Readers one after the other. *)
Lemma reads_and (c : M bool) (k : M bool) b1 b2 l (T : nat → Prop) b fp Q Q' :
  reads c b1 l T b fp Q → (∀ b' fp', Q b' fp' → same_off T b b' → reads k b2 l T b' fp' Q') →
  reads (c &&? k) (b1 ++ b2) l T b fp Q'.
Proof.
  intros Hc Hk i Hi. apply begins_app in Hi as [Hi1 Hi2]. eapply runs_bind; [by apply Hc|].
  intros r i' b' fp' (-> & -> & HQ) Hoff. eapply runs_conseq; [by apply (Hk b' fp' HQ Hoff)|].
  intros r i' b3 fp3 (-> & -> & HQ') _. by rewrite i_drop_drop, length_app.
Qed.

(** ** What is written *)

(** A member that is written holds the value. *)
Lemma holds_written f v a n (b : block) :
  (length (stored f v) <= n)%nat → (a + n <= length b)%nat →
  holds f v (mem_read a n (mem_write a (MByte <$> stored f v) b)).
Proof.
  intros Hs Hl. pose proof (length_fmap MByte (stored f v)). pose proof (mem_read_length a n b Hl).
  rewrite mem_read_write_inside, Nat.sub_diag by lia. rewrite mem_write_split by lia. by eexists.
Qed.

Section Values.
Context (descs : list (list pb_field)) (exts : list extension_type).
Context (noinit : nat → addr → M bool).

Abbreviation decoders := (PB_DECODERS descs exts noinit).
Abbreviation wval := (wire_value descs).

(** ** Numbers *)

Definition written (f : pb_field) (v : mval) (a : nat) (b : block) (fp : footprint) (b' : block) (fp' : footprint) : Prop :=
  fp' = fp ∧ b' = mem_write a (MByte <$> stored f v) b.

Lemma st_int_reads n a z l b fp :
  (a + n <= length b)%nat →
  reads (st_int n (l, Z.of_nat a) z ;;; ret true) [] l (span a n) b fp
    (λ b' fp', fp' = fp ∧ b' = mem_write a (MByte <$> le_bytes n z) b).
Proof.
  intros Hl. apply reads_step. intros i. unfold st_int. apply runs_st_bytes; rewrite ?length_le_bytes; [done|done|].
  split; [done|]. by apply reads_ret.
Qed.

Lemma store_clamped_reads n conv value l a b fp :
  (a + n <= length b)%nat → conv value = value →
  reads (store_clamped n conv (l, Z.of_nat a) value) [] l (span a n) b fp
    (λ b' fp', fp' = fp ∧ b' = mem_write a (MByte <$> le_bytes n value) b).
Proof.
  intros Hl Hc. unfold store_clamped. rewrite Hc, Z.eqb_refl. by apply st_int_reads.
Qed.

Lemma clamped_reads (conv8 conv4 conv2 conv1 : Z → Z) f z l a b fp :
  f_data_size f ∈ [1; 2; 4; 8] → (a + Z.to_nat (f_data_size f) <= length b)%nat →
  (if f_data_size f =? 8 then conv8 else if f_data_size f =? 4 then conv4
   else if f_data_size f =? 2 then conv2 else conv1) z = z →
  reads (if f_data_size f =? 8 then store_clamped 8 conv8 (l, Z.of_nat a) z
    else if f_data_size f =? 4 then store_clamped 4 conv4 (l, Z.of_nat a) z
    else if f_data_size f =? 2 then store_clamped 2 conv2 (l, Z.of_nat a) z
    else if f_data_size f =? 1 then store_clamped 1 conv1 (l, Z.of_nat a) z
    else fail "invalid data_size") [] l (span a (Z.to_nat (f_data_size f))) b fp
    (written f (MInt z) a b fp).
Proof.
  rewrite !elem_of_cons, elem_of_nil. unfold written, stored.
  intros [Hd|[Hd|[Hd|[Hd|[]]]]] Hl Hc; rewrite Hd in *; by apply store_clamped_reads.
Qed.

Lemma uwrap_narrow w w' x : 0 <= w <= w' → uwrap w (uwrap w' x) = uwrap w x.
Proof.
  intros Hw. unfold uwrap. symmetry. apply Znumtheory.Zmod_div_mod; [apply Z.pow_pos_nonneg; lia..|].
  exists (2 ^ (w' - w)). rewrite <-Z.pow_add_r by lia. f_equal. lia.
Qed.

Lemma swrap_narrow w w' x : 0 <= w <= w' → swrap w (uwrap w' x) = swrap w x.
Proof. intros Hw. unfold swrap. by rewrite uwrap_narrow. Qed.

Lemma is_sint_le w w' x : 0 < w <= w' → is_sint w x → is_sint w' x.
Proof.
  unfold is_sint. intros Hw Hx. pose proof (Z.pow_le_mono_r 2 (w - 1) (w' - 1) ltac:(lia) ltac:(lia)). lia.
Qed.

Lemma int_reads e f z l a b fp :
  field_wf descs e f → is_packable f = true → int_ok f z → (a + Z.to_nat (f_data_size f) <= length b)%nat →
  reads (decoders f (l, Z.of_nat a)) (wire_int f z) l (span a (Z.to_nat (f_data_size f))) b fp
    (written f (MInt z) a b fp).
Proof.
  intros (_ & _ & _ & Hlt & Hext & _ & H32 & H64 & _) Hpk [Hds Hz] Hl. unfold PB_DECODERS, wire_int.
  destruct (is_ltype PB_LTYPE_VARINT f) eqn:E1; [|destruct (is_ltype PB_LTYPE_UVARINT f) eqn:E2;
    [|destruct (is_ltype PB_LTYPE_SVARINT f) eqn:E3; [|destruct (is_ltype PB_LTYPE_FIXED32 f) eqn:E4;
      [|destruct (is_ltype PB_LTYPE_FIXED64 f) eqn:E5]]]].
  - cbn [orb] in Hz. unfold pb_dec_varint. rewrite <-(app_nil_r (varint _)).
    eapply reads_parses; [by apply parses_varint, uwrap_range|]. cbv beta zeta.
    assert ((if f_data_size f =? 8 then i64 (u64 z) else i32 (u64 z)) = z) as ->.
    { revert Hds Hz. rewrite !elem_of_cons, elem_of_nil.
      intros [->|[->|[->|[->|[]]]]] Hz; cbn [Z.eqb Pos.eqb]; rewrite swrap_narrow by lia; apply swrap_id; try lia;
        (eapply is_sint_le; [|exact Hz]; lia). }
    apply clamped_reads; [done|done|]. revert Hds Hz. rewrite !elem_of_cons, elem_of_nil.
    intros [->|[->|[->|[->|[]]]]] Hz; by apply swrap_id.
  - assert (is_ltype PB_LTYPE_SVARINT f = false ∧ is_ltype PB_LTYPE_FIXED32 f = false ∧ is_ltype PB_LTYPE_FIXED64 f = false)
      as (E3 & E4 & E5) by (unfold is_ltype in *; by apply Z.eqb_eq in E2 as ->).
    rewrite E3, E4, E5 in *. cbn [orb] in Hz. unfold pb_dec_uvarint. rewrite <-(app_nil_r (varint _)).
    eapply reads_parses.
    { apply parses_varint. revert Hz. apply is_uint_le. revert Hds. rewrite !elem_of_cons, elem_of_nil. lia. }
    apply clamped_reads; [done|done|]. revert Hds Hz. rewrite !elem_of_cons, elem_of_nil.
    intros [->|[->|[->|[->|[]]]]] Hz; by apply uwrap_id.
  - cbn [orb] in Hz. unfold pb_dec_svarint. rewrite <-(app_nil_r (varint _)). eapply reads_parses.
    { apply parses_svarint. revert Hds Hz. rewrite !elem_of_cons, elem_of_nil.
      intros [->|[->|[->|[->|[]]]]] Hz; (eapply is_sint_le; [|exact Hz]; lia). }
    apply clamped_reads; [done|done|]. revert Hds Hz. rewrite !elem_of_cons, elem_of_nil.
    intros [->|[->|[->|[->|[]]]]] Hz; by apply swrap_id.
  - cbn [orb] in Hz. rewrite (H32 eq_refl) in *. unfold pb_dec_fixed32. rewrite <-(app_nil_r (le_bytes _ _)).
    eapply reads_parses; [by apply parses_fixed32|]. unfold written, stored. rewrite (H32 eq_refl). by apply st_int_reads.
  - cbn [orb] in Hz. rewrite (H64 eq_refl) in *. unfold pb_dec_fixed64. rewrite <-(app_nil_r (le_bytes _ _)).
    eapply reads_parses; [by apply parses_fixed64|]. unfold written, stored. rewrite (H64 eq_refl). by apply st_int_reads.
  - exfalso. destruct (packable_ltype f Hpk) as (Hns & Hsb & Hfl). apply orb_false_iff in Hsb as [Hs Hby].
    unfold is_submsg in Hns. destruct (ltype_cases f Hlt) as [H|[H|[H|[H|[H|[H|[H|[H|[H|H]]]]]]]]]; congruence.
Qed.

(** ** Bytes *)

Lemma read_to_reads bs l a b fp :
  (a + length bs <= length b)%nat →
  reads (read_to (l, Z.of_nat a) (zlen bs)) bs l (span a (length bs)) b fp
    (λ b' fp', fp' = fp ∧ b' = mem_write a (MByte <$> bs) b).
Proof.
  intros Hl. unfold read_to. rewrite <-(app_nil_r bs) at 2. eapply reads_parses; [apply parses_read|].
  apply reads_step. intros i. apply runs_st_bytes; [done|done|]. split; [done|]. by apply reads_ret.
Qed.

Lemma bytes_store_reads bs l a b fp :
  zlen bs < 256 → (a + S (length bs) <= length b)%nat →
  reads (st_u8 (l, Z.of_nat a) (zlen bs) ;;; read_to (padd (l, Z.of_nat a) 1) (zlen bs)) bs l
    (span a (S (length bs))) b fp (λ b' fp', fp' = fp ∧ b' = mem_write a (MByte <$> (zlen bs :: bs)) b).
Proof.
  intros Hs Hl. apply reads_step. intros i. apply runs_st_u8; [lia|unfold span; lia|]. split; [done|].
  assert (u8 (zlen bs) = zlen bs) as -> by (apply uwrap_id; unfold is_uint; lia).
  rewrite padd_nat by lia. eapply reads_weaken.
  - apply read_to_reads. rewrite mem_write_length; simpl; lia.
  - unfold span. lia.
  - intros b' fp' [-> ->] _. split; [done|]. rewrite fmap_cons. change (Z.to_nat 1) with (length [MByte (zlen bs)]).
    rewrite mem_write_after; [done|].
    rewrite length_app, length_fmap. simpl. lia.
Qed.

Lemma string_store_reads bs l a b fp :
  (a + S (length bs) <= length b)%nat →
  reads (let* status := read_to (l, Z.of_nat a) (zlen bs) in
         st_u8 (padd (l, Z.of_nat a) (zlen bs)) 0 ;;; ret status) bs l (span a (S (length bs))) b fp
    (λ b' fp', fp' = fp ∧ b' = mem_write a (MByte <$> (bs ++ [0])) b).
Proof.
  intros Hl. eapply reads_then.
  - eapply reads_weaken; [apply read_to_reads; lia|unfold span; lia|]. intros b' fp' HQ _. exact HQ.
  - intros b' fp' [-> ->] _. apply reads_step. intros i. rewrite padd_nat, Nat2Z.id by lia.
    apply runs_st_u8; [rewrite mem_write_length; rewrite ?length_fmap; lia|unfold span; lia|].
    split; [done|]. apply reads_ret. split; [done|]. rewrite fmap_app, <-(length_fmap MByte bs). apply mem_write_after.
    rewrite length_app, length_fmap. simpl. lia.
Qed.

Lemma string_size_ok n : 0 <= n → n + 1 < 2 ^ 32 → u32 (n + 1) = n + 1 ∧ is_uint 32 n.
Proof. intros. split; [apply uwrap_id|]; unfold is_uint; lia. Qed.

(** A value in place that is no struct. *)
Lemma plain_reads e f v l a b fp :
  field_wf descs e f → in_place f → plain_ok f v → (a + Z.to_nat (f_data_size f) <= length b)%nat →
  reads (decoders f (l, Z.of_nat a)) (wval f v) l (span a (Z.to_nat (f_data_size f))) b fp (written f v a b fp) ∧
  (length (stored f v) <= Z.to_nat (f_data_size f))%nat.
Proof.
  intros Hf [Hns Hplace] Hv Hl. destruct v as [z|bs|]; [| |done].
  { destruct Hv as [Hpk Hz]. split; [by apply (int_reads e)|]. unfold stored. by rewrite length_le_bytes. }
  destruct Hv as [Hpk [Hok Hfit]]. pose proof Hf as (_ & Hds & _ & Hlt & Hext & _ & _ & _ & _ & Hpt).
  assert (∀ t, t <= PB_LTYPE_LAST_PACKABLE → is_ltype t f = false) as Hno.
  { intros t Ht. unfold is_packable in Hpk. unfold is_ltype. apply Z.eqb_neq. apply Z.leb_gt in Hpk. lia. }
  assert (is_ltype PB_LTYPE_BYTES f = true ∨ is_ltype PB_LTYPE_STRING f = true ∨
    is_ltype PB_LTYPE_FIXED_LENGTH_BYTES f = true → is_atype PB_ATYPE_STATIC f = true) as Hst.
  { destruct Hplace as [|[Hp Hsb]]; [done|]. destruct (Hpt Hp) as [Hfl _].
    unfold is_string_or_bytes in Hsb. apply orb_false_iff in Hsb as [Hs Hb]. intuition congruence. }
  unfold PB_DECODERS. rewrite !Hno by done. unfold written, stored. cbn [wire_value]. unfold delimited.
  destruct (is_ltype PB_LTYPE_BYTES f) eqn:Eb; [|destruct (is_ltype PB_LTYPE_STRING f) eqn:Es].
  - assert (is_ltype PB_LTYPE_STRING f = false ∧ is_ltype PB_LTYPE_FIXED_LENGTH_BYTES f = false) as [Es Ef]
      by (unfold is_ltype in *; by apply Z.eqb_eq in Eb as ->).
    specialize (Hst (or_introl eq_refl)). rewrite Es in *. destruct Hfit as [H255 Hsz]. specialize (Hsz Hst).
    unfold PB_SIZE_MAX in H255. split; [|simpl; lia]. unfold pb_dec_bytes. rewrite (atype_static f Hst), Ef.
    eapply reads_parses; [apply parses_varint32; unfold is_uint; lia|]. unfold PB_SIZE_MAX.
    assert (PB_BYTES_ARRAY_T_ALLOCSIZE (zlen bs) = zlen bs + 1) as -> by (apply uwrap_id; unfold is_uint; lia).
    bool_cases. eapply reads_weaken; [apply bytes_store_reads; lia|unfold span; lia|done].
  - specialize (Hst (or_intror (or_introl eq_refl))). destruct Hfit as (_ & H32 & Hsz). specialize (Hsz Hst).
    split; [|rewrite length_app; simpl; lia]. unfold pb_dec_string. rewrite (atype_static f Hst).
    destruct (string_size_ok (zlen bs)) as [Hu Hsu]; [lia|done|].
    eapply reads_parses; [by apply parses_varint32|]. rewrite Hu. bool_cases.
    eapply reads_weaken; [apply string_store_reads; lia|unfold span; lia|done].
  - rewrite Hns. destruct (is_ltype PB_LTYPE_FIXED_LENGTH_BYTES f) eqn:Ef.
    + specialize (Hst (or_intror (or_intror eq_refl))). split; [|lia]. unfold pb_dec_bytes. rewrite (atype_static f Hst), Ef.
      eapply reads_parses; [apply parses_varint32; unfold is_uint; lia|]. unfold PB_SIZE_MAX.
      assert (PB_BYTES_ARRAY_T_ALLOCSIZE (zlen bs) = zlen bs + 1) as -> by (apply uwrap_id; unfold is_uint; lia).
      rewrite <-Hfit, Z.eqb_refl. bool_cases.
      eapply reads_weaken; [apply read_to_reads; lia|unfold span; lia|done].
    + exfalso. unfold PB_LTYPE_LAST_PACKABLE in *.
      destruct (ltype_cases f Hlt) as [H|[H|[H|[H|[H|[H|[H|[H|[H|H]]]]]]]]]; try congruence; rewrite Hno in H; done.
Qed.

(** ** Allocated values *)

(** Requests for memory are granted. *)
Lemma runs_allocate_ok p old ds n i l a b (T : nat → Prop) Q :
  0 < ds → 0 < n → n * ds < 2 ^ 64 → (a + PTR_SIZE <= length b)%nat → (∀ k, span a PTR_SIZE k → T k) →
  mem_read a PTR_SIZE b = ptr_bytes p → owns p old →
  (∀ l', Q true i (mem_write a (ptr_bytes (VLoc l' 0)) b)
     [(l', resize (Z.to_nat (n * ds)) (default [] (snd <$> head old)))]) →
  runs_ok (allocate_field (l, Z.of_nat a) ds n) i l T b old Q.
Proof.
  intros Hds Hn Hnd Hl HT Hp Ho HQ. apply (runs_allocate false p old); try done; [nia|].
  intros msg [|Hor]; [done|lia].
Qed.

(** [allocate_field], and then a reader of what it allocated. *)
Lemma reads_allocate (k : addr → M bool) p old ds n bs l a b T2 (Q2 : block → footprint → Prop) :
  0 < ds < 2 ^ 32 → 0 < n < 2 ^ 32 → (a + PTR_SIZE <= length b)%nat →
  mem_read a PTR_SIZE b = ptr_bytes p → owns p old →
  (∀ l' b2, b2 = resize (Z.to_nat (n * ds)) (default [] (snd <$> head old)) →
     reads (k (l', 0)) bs l' T2 b2 [] Q2) →
  reads (allocate_field (l, Z.of_nat a) ds n &&?
         let* p := ld_ptr (l, Z.of_nat a) in let* dest := deref p in k dest) bs l (span a PTR_SIZE) b old
    (λ b' fp', ∃ l' b2 fp2, b' = mem_write a (ptr_bytes (VLoc l' 0)) b ∧ fp' = (l', b2) :: fp2 ∧
       length b2 = Z.to_nat (n * ds) ∧ Q2 b2 fp2).
Proof.
  intros Hds Hn Hl Hp Ho Hk i Hi. apply runs_seq. apply (runs_allocate_ok p old); try done; try nia.
  intros l'. set (b1 := mem_write a _ b). set (b2 := resize _ _).
  assert (length b1 = length b) as Hb1 by (apply mem_write_length; rewrite length_ptr_bytes; lia).
  apply runs_seq, (runs_ld_ptr _ a (VLoc l' 0)); [lia|apply mem_read_write; [lia|apply length_ptr_bytes]|].
  apply runs_seq, runs_deref. eapply runs_conseq; [apply runs_inside, (Hk l' b2 eq_refl i Hi)|].
  intros r i' b' fp' (-> & b3 & fp3 & -> & [Hl3 _] & -> & -> & HQ) _. do 2 (split; [done|]).
  exists l', b3, fp3. do 2 (split; [done|]). split; [|done]. rewrite Hl3. apply length_resize.
Qed.

Lemma whole_written f v (b : block) :
  (length (stored f v) <= length b)%nat → holds f v (mem_write 0 (MByte <$> stored f v) b).
Proof.
  intros Hl. rewrite <-(mem_read_whole (mem_write _ _ b)), mem_write_length by (rewrite length_fmap; lia).
  by apply holds_written.
Qed.

(** A string or a run of bytes behind a null pointer. *)
Lemma string_reads e f bs l q b p old :
  field_wf descs e f → is_atype PB_ATYPE_POINTER f = true → is_string_or_bytes f = true → plain_ok f (MBytes bs) →
  (q + PTR_SIZE <= length b)%nat → mem_read q PTR_SIZE b = ptr_bytes p → owns p old →
  reads (decoders f (l, Z.of_nat q)) (delimited bs) l (span q PTR_SIZE) b old
    (λ b' fp', ∃ l' b2, b' = mem_write q (ptr_bytes (VLoc l' 0)) b ∧ fp' = [(l', b2)] ∧ holds f (MBytes bs) b2).
Proof.
  intros Hf Ha Hs [Hpk [Hok Hfit]] Hl Hp Ho. unfold delimited.
  assert (is_ltype PB_LTYPE_STRING f = true ∨ (is_ltype PB_LTYPE_BYTES f = true ∧ is_ltype PB_LTYPE_STRING f = false))
    as [Es|[Eb Es]].
  { unfold is_string_or_bytes in Hs. destruct (is_ltype PB_LTYPE_STRING f); [by left|]. by right. }
  - rewrite Es in Hfit. destruct Hfit as (_ & H32 & _). destruct (string_size_ok (zlen bs)) as [Hu Hsu]; [lia|done|].
    assert (decoders f (l, Z.of_nat q) = pb_dec_string f (l, Z.of_nat q)) as ->
      by (unfold PB_DECODERS, is_ltype in *; apply Z.eqb_eq in Es; by rewrite Es).
    unfold pb_dec_string. rewrite Ha. eapply reads_parses; [by apply parses_varint32|]. rewrite Hu. bool_cases.
    eapply reads_weaken; [apply (reads_allocate _ p old) with (T2 := λ _, True); try done; try lia| |].
    + intros l' b2 ->. eapply reads_weaken; [apply (string_store_reads bs l' 0)| |].
      * rewrite length_resize. lia.
      * done.
      * intros b' fp' HQ _. exact HQ.
    + done.
    + intros b' fp' (l' & b2 & fp2 & -> & -> & Hb2 & -> & ->) _. exists l'. eexists. do 2 (split; [done|]).
      assert (bs ++ [0] = stored f (MBytes bs)) as -> by (unfold stored; by rewrite Es). apply whole_written.
      rewrite length_resize. unfold stored. rewrite Es, length_app. simpl. lia.
  - rewrite Es, Eb in Hfit. destruct Hfit as [H255 _]. unfold PB_SIZE_MAX in H255.
    assert (decoders f (l, Z.of_nat q) = pb_dec_bytes f (l, Z.of_nat q)) as ->
      by (unfold PB_DECODERS, is_ltype in *; apply Z.eqb_eq in Eb; by rewrite Eb).
    unfold pb_dec_bytes. rewrite Ha. eapply reads_parses; [apply parses_varint32; unfold is_uint; lia|].
    unfold PB_SIZE_MAX. assert (PB_BYTES_ARRAY_T_ALLOCSIZE (zlen bs) = zlen bs + 1) as -> by (apply uwrap_id; unfold is_uint; lia).
    bool_cases. eapply reads_weaken; [apply (reads_allocate _ p old) with (T2 := λ _, True); try done; try lia| |].
    + intros l' b2 ->. eapply reads_weaken; [apply (bytes_store_reads bs l' 0)| |].
      * lia.
      * rewrite length_resize. lia.
      * done.
      * intros b' fp' HQ _. exact HQ.
    + done.
    + intros b' fp' (l' & b2 & fp2 & -> & -> & Hb2 & -> & ->) _. exists l'. eexists. do 2 (split; [done|]).
      assert (zlen bs :: bs = stored f (MBytes bs)) as -> by (unfold stored; by rewrite Es, Eb). apply whole_written.
      rewrite length_resize. unfold stored. rewrite Es, Eb. simpl. lia.
Qed.

End Values.
