(* ===== verification/PbDecoded.v ===== *)
(** One level of the decoder on the wire form of a message: a field in its
    default state holds the values whose bytes were read. *)

From S2P Require Import Prelude PbStream PbMem PbFields PbDecode PbShape PbRuns PbOwn PbPlace PbDefaults PbRelease PbValues PbItems PbWire PbReads.

Open Scope Z_scope.

Section Decoded.
Context (descs : list (list pb_field)) (exts : list extension_type).
Context (Hwf : wf_descs descs).

Abbreviation desc := (descriptor descs).
Abbreviation N := (length descs).
Abbreviation wval := (wire_value descs).
Abbreviation mval_at := (msg_val descs).

(** A struct without allocated parts owns nothing. *)
Lemma ptr_free_val k : ∀ d data fp vss, ptr_free descs k d = true → mval_at d data fp vss → fp = [].
Proof.
  induction k as [|k IH]; intros d data fp vss Hk Hv; [done|].
  inversion Hv as [fps ? Hl Hlv Hf]; subst. apply concat_nil_Forall, Forall_lookup. intros j fp Hj.
  destruct (lookup_lt_is_Some_2 (layout (desc d)) j) as [[f p] Hg].
  { rewrite <-Hl. by eapply lookup_lt_Some. }
  destruct (lookup_lt_is_Some_2 vss j) as [vs Hvs].
  { rewrite Hlv, <-(layout_length (desc d)). by eapply lookup_lt_Some. }
  specialize (Hf j (f, p) fp vs Hg Hj Hvs). apply layout_field, list_elem_of_lookup_2 in Hg. cbn [fst snd] in Hf.
  cbn [ptr_free] in Hk. rewrite forallb_forall in Hk. apply list_elem_of_In in Hg.
  specialize (Hk f Hg). apply andb_true_iff in Hk as [Ha Hsub].
  assert (∀ x y v, item_val mval_at f x y v → y = []) as Hitem.
  { intros x y v Hi. destruct Hi as [|e y ws Hs Hp Ho]; [done|]. unfold is_submsg in Hs. rewrite Hs, Hp in Hsub.
    exact (IH e x y ws Hsub Ho). }
  pose proof (atype_static _ Ha) as Hna. destruct Hf; try congruence; by eapply Hitem.
Qed.

Section Level.
Context (noinit : nat → addr → M bool) (bound : Z).

(** The decoder of submessages, on wire forms of fewer bytes. *)
Definition noinit_reads : Prop :=
  ∀ d n o l b i vss, zlen (wire descs d vss) < bound → begins i (wire descs d vss) →
    i_bytes_left i = zlen (wire descs d vss) → (d < N)%nat → msg_fits descs d n → (o + n <= length b)%nat →
    msg_ok descs d vss → fresh descs d (mem_read o n b) →
    runs_ok (noinit d (l, Z.of_nat o)) i l (span o n) b []
      (λ r i' b' fp', r = true ∧ i' = i_drop (length (wire descs d vss)) i ∧
         mval_at d (mem_read o n b') fp' vss).

Context (Hdown : noinit_reads).

Abbreviation decoders := (PB_DECODERS descs exts noinit).

(** A length-delimited part: its body reads the substream to the end. *)
Lemma reads_sub (k : istream → M bool) w l (T : nat → Prop) b fp Q :
  zlen w < 2 ^ 32 →
  (∀ i par sub, begins sub w → i_bytes_left sub = zlen w →
     pb_close_string_substream par (i_drop (length w) sub) = i →
     runs_ok (k par) sub l T b fp (λ r i' b' fp', r = true ∧ i' = i ∧ Q b' fp')) →
  reads (let-sub x in k x) (delimited w) l T b fp Q.
Proof.
  intros Hw Hk i [[rest Hs] Hl]. unfold delimited in *. rewrite <-app_assoc in Hs. rewrite length_app in Hl.
  destruct (make_substream_parses w i rest Hw Hs ltac:(lia)) as (sub & par & Hm & Hsub & _).
  pose proof (close_substream_parses w i rest sub par _ Hw Hs ltac:(lia) Hm eq_refl) as Hc.
  intros m F Ha Hmem. unfold mbindM, make_substream. cbn [d_in d_mem]. rewrite Hm. cbn [mbind option_bind].
  apply Hk; try done; subst sub; [|done]. split; [by exists rest|]. simpl. lia.
Qed.

Lemma close_reads par sub (w : bytes) i l (T : nat → Prop) b fp (Q : block → footprint → Prop) :
  pb_close_string_substream par (i_drop (length w) sub) = i → Q b fp →
  runs_ok (close_substream par ;;; ret true) (i_drop (length w) sub) l T b fp
    (λ r i' b' fp', r = true ∧ i' = i ∧ Q b' fp').
Proof. intros <- HQ. by apply runs_seq, runs_close, runs_ret. Qed.

(** The value of a submessage. *)
Lemma submsg_ok f vss :
  is_submsg f = true → val_ok descs f (MMsg vss) →
  ∃ d, f_ptr f = FSubmsg d ∧ msg_ok descs d vss ∧ zlen (wire descs d vss) < 2 ^ 32.
Proof.
  intros Hs Hv. inversion Hv as [v Hs'|d vss' _ Hp Hl Hc Hvs Hu Hz]; subst; [congruence|].
  exists d. split; [done|]. by split.
Qed.

Lemma val_submsg f v : is_submsg f = true → val_ok descs f v → ∃ vss, v = MMsg vss.
Proof. intros Hs Hv. inversion Hv; subst; [congruence|eauto]. Qed.

Lemma delimited_longer w : zlen w < zlen (delimited w).
Proof. unfold delimited. rewrite length_app. pose proof (varint_length (zlen w)). lia. Qed.

(** A submessage, into a struct in its default state. *)
Lemma submsg_reads e f vss l a b :
  field_wf descs e f → is_submsg f = true → val_ok descs f (MMsg vss) → zlen (wval f (MMsg vss)) <= bound →
  (a + Z.to_nat (f_data_size f) <= length b)%nat →
  (is_htype PB_HTYPE_REPEATED f = false → ∃ d, f_ptr f = FSubmsg d ∧ fresh descs d (mem_read a (Z.to_nat (f_data_size f)) b)) →
  reads (decoders f (l, Z.of_nat a)) (wval f (MMsg vss)) l (span a (Z.to_nat (f_data_size f))) b []
    (λ b' fp', item_val mval_at f (mem_read a (Z.to_nat (f_data_size f)) b') fp' (MMsg vss)).
Proof.
  intros Hf Hs Hv Hb Hl Hfr. destruct (submsg_ok f vss Hs Hv) as (d & Hp & Hok & H32).
  destruct (wf_submsg descs e f Hf Hs) as (d' & Hp' & Hd & Hfit & _). assert (d' = d) as -> by congruence.
  rewrite (wire_value_submsg descs f d vss Hp) in *. rewrite (decoders_submessage descs exts noinit f _ Hs).
  unfold pb_dec_submessage. apply reads_sub; [done|]. intros i par sub Hsub Hleft Hc. rewrite Hp.
  assert (∀ b' : block, length b' = length b → fresh descs d (mem_read a (Z.to_nat (f_data_size f)) b') →
    runs_ok (noinit d (l, Z.of_nat a)) sub l (span a (Z.to_nat (f_data_size f))) b' []
      (λ r i' b' fp', r = true ∧ i' = i_drop (length (wire descs d vss)) sub ∧
         mval_at d (mem_read a (Z.to_nat (f_data_size f)) b') fp' vss)) as Hnoinit.
  { intros b' Hlb Hfr'. apply Hdown; try done; [|lia].
    pose proof (delimited_longer (wire descs d vss)). lia. }
  eapply runs_bind with (Q := λ r i' b' fp', r = true ∧ i' = i_drop (length (wire descs d vss)) sub ∧
    mval_at d (mem_read a (Z.to_nat (f_data_size f)) b') fp' vss).
  - destruct (is_htype PB_HTYPE_REPEATED f).
    + unfold pb_decode_with. eapply runs_bind; [by apply (set_to_defaults_fresh false descs exts Hwf d _ a l b sub)|].
      intros [] i' b' fp' (-> & -> & Hfr') [Hlb _]. eapply runs_bind; [by apply Hnoinit|].
      intros r i' b2 fp2 (-> & -> & Hm) _. by apply runs_ret.
    + destruct (Hfr eq_refl) as (d2 & Hp2 & Hfr'). assert (d2 = d) as -> by congruence. by apply Hnoinit.
  - intros r i' b' fp' (-> & -> & Hm) _. apply close_reads; [done|]. by eapply iv_msg.
Qed.

(** A value in place: a struct of a single field is in its default state. *)
Lemma item_reads e f v l a b :
  field_wf descs e f → (is_atype PB_ATYPE_STATIC f = true ∨ is_atype PB_ATYPE_POINTER f = true ∧ is_string_or_bytes f = false) →
  val_ok descs f v → zlen (wval f v) <= bound → (a + Z.to_nat (f_data_size f) <= length b)%nat →
  (is_htype PB_HTYPE_REPEATED f = false → item_fresh (fresh descs) f (mem_read a (Z.to_nat (f_data_size f)) b)) →
  reads (decoders f (l, Z.of_nat a)) (wval f v) l (span a (Z.to_nat (f_data_size f))) b []
    (λ b' fp', item_val mval_at f (mem_read a (Z.to_nat (f_data_size f)) b') fp' v).
Proof.
  intros Hf Hat Hv Hb Hl Hfr. destruct (is_submsg f) eqn:Hs.
  - destruct (val_submsg f v Hs Hv) as [vss ->]. apply (submsg_reads e); try done.
    intros Hr. destruct (Hfr Hr) as [d _ Hp Hd|Hns]; [by exists d|]. unfold is_submsg in Hs. congruence.
  - assert (plain_ok f v) as Hp by (inversion Hv; subst; [done|congruence]).
    destruct (plain_reads descs exts noinit e f v l a b [] Hf) as [Hr Hlen]; [by split|done|done|].
    eapply reads_weaken; [exact Hr|done|]. intros b' fp' [-> ->] _. apply iv_plain; [done|done|]. by apply holds_written.
Qed.

(** ** Fields *)

Section Field.
Context (e : nat) (f : pb_field) (it : pb_field_iter) (l a s : nat).
Context (Hf : field_wf descs e f) (Hat : at_field it f l a s).

Abbreviation ds := (Z.to_nat (f_data_size f)).

(** The field holds the values. *)
Definition has_values (vs : list mval) (b : block) (fp : footprint) : Prop :=
  field_val mval_at f (mem_read a (dlen f) b) (b !! s) fp vs.

(** A value whose decoding the level below is there for. *)
Definition decodable (v : mval) : Prop := val_ok descs f v ∧ zlen (wval f v) <= bound.

(** *** Fields in the struct *)

Lemma static_item_reads b v :
  is_atype PB_ATYPE_STATIC f = true → is_htype PB_HTYPE_REPEATED f = false → room b f a s → decodable v →
  item_fresh (fresh descs) f (mem_read a (dlen f) b) →
  reads (decoders f (l, Z.of_nat a)) (wval f v) l (region f a s) b []
    (λ b' fp', item_val mval_at f (mem_read a ds b') fp' v ∧ (has_slot f = true → b' !! s = b !! s)).
Proof using Hwf Hdown Hf.
  intros Ha Hr Hroom [Hv Hb] Hfr. pose proof (dlen_single f Ha Hr) as Hd. pose proof Hroom as [Hra _].
  rewrite Hd in *. eapply reads_weaken.
  - apply (item_reads e f v l a b Hf); try done. by left.
  - intros k Hk. left. by rewrite Hd.
  - intros b' fp' Hi Hoff. split; [done|]. intros Hsl. apply (span_slot f a s b b' Hroom Hsl). by rewrite Hd.
Qed.

Lemma static_single_reads wt b v :
  is_atype PB_ATYPE_STATIC f = true → is_htype PB_HTYPE_REPEATED f = false → room b f a s → decodable v →
  field_fresh (fresh descs) f (mem_read a (dlen f) b) (b !! s) →
  reads (decode_static_field descs exts noinit wt it) (wval f v) l (region f a s) b [] (has_values [v]).
Proof using Hwf Hdown Hf Hat.
  intros Ha Hr Hroom Hv (_ & _ & Hfr). pose proof Hat as (Hit & HpD & HpS). pose proof Hroom as [Hra Hrs].
  pose proof (dlen_single f Ha Hr) as Hd. unfold decode_static_field, has_values. rewrite Hit, HpD, Hd.
  destruct (is_htype PB_HTYPE_REQUIRED f) eqn:Ereq.
  { destruct (htype_required _ Ereq) as (_ & _ & Ho). eapply reads_weaken; [by apply (static_item_reads b v); auto|done|].
    intros b' fp' [Hi _] _. by apply fv_required. }
  destruct (is_htype PB_HTYPE_OPTIONAL f) eqn:Eopt.
  { destruct (htype_optional _ Eopt) as [_ Ho]. pose proof (slot_optional f Ha Eopt) as Hsl. rewrite (HpS Hsl).
    destruct (Hrs Hsl) as [Hsb _]. apply reads_step. intros i. apply runs_st_u8; [done|by right|]. split; [done|].
    destruct (slot_write f a s (MByte (u8 1)) b Hsl Hroom) as (Hdw & Hsw & Hroom').
    eapply reads_weaken; [apply (static_item_reads _ v); try done; rewrite Hdw; auto|done|].
    intros b' fp' [Hi Hs] _. apply fv_optional; [done..| |done]. by rewrite (Hs Hsl), Hsw. }
  rewrite Hr. destruct (is_htype PB_HTYPE_ONEOF f) eqn:Eo.
  2: { destruct (htype_cases f) as [|[|[|]]]; congruence. }
  pose proof (slot_oneof f Eo) as Hsl. rewrite (HpS Hsl). destruct (Hrs Hsl) as [Hsb _].
  apply reads_step. intros i. apply runs_st_u8; [done|by right|]. split; [done|]. rewrite (tag_u8 descs e f Hf).
  destruct (slot_write f a s (MByte (f_tag f)) b Hsl Hroom) as (_ & Hsw & Hroom'). set (b1 := mem_write s _ b) in *.
  apply reads_step. clear i. intros i.
  eapply runs_conseq with (Q := λ _ i' b' fp', i' = i ∧ fp' = [] ∧ item_fresh (fresh descs) f (mem_read a (dlen f) b') ∧
    b' !! s = b1 !! s ∧ room b' f a s).
  - destruct (is_ltype PB_LTYPE_SUBMESSAGE f) eqn:Hl.
    + destruct (wf_submsg descs e f Hf Hl) as (d & Hp & Hdn & Hfit & _). rewrite Hp.
      apply (runs_weaken _ _ i l (span a (dlen f)) _ b1 []
        (λ _ i' b' fp', i' = i ∧ fp' = [] ∧ fresh descs d (mem_read a ds b'))); [|by left|].
      * destruct Hroom' as [Hra' _]. rewrite Hd in *.
        apply runs_seq, runs_st; rewrite ?length_replicate; [done|done|].
        apply (set_to_defaults_fresh false descs exts Hwf d _ a l _ i); [done|done|].
        rewrite mem_write_length; rewrite ?length_replicate; done.
      * intros [] i' b' fp' (-> & -> & Hfr') Hoff. do 2 (split; [done|]). rewrite Hd. split; [by eapply fresh_submsg|].
        split; [by apply (span_slot f a s b1 b' Hroom' Hsl)|]. by eapply room_length; [apply Hoff|].
    + apply runs_ret. do 2 (split; [done|]). split; [by apply fresh_plain|done].
  - intros [] i' b' fp' (-> & -> & Hfr' & Hs' & Hroom2) _. split; [done|].
    eapply reads_weaken; [by apply (static_item_reads _ v)|done|].
    intros b2 fp2 [Hi Hs2] _. apply fv_oneof; [done..| |done]. by rewrite (Hs2 Hsl), Hs', Hsw.
Qed.

(** *** Arrays in the struct *)

Section Static.
Context (Ha : is_atype PB_ATYPE_STATIC f = true) (Hr : is_htype PB_HTYPE_REPEATED f = true).

(** The first items, up to the count. *)
Definition array_state (vs : list mval) (b : block) : Prop :=
  b !! s = Some (MByte (zlen vs)) ∧ zlen vs <= f_array_size f ∧
  ∀ k v, vs !! k = Some v → item_val mval_at f (mem_read (a + ds * k) ds b) [] v.

Lemma array_state_values vs b : array_state vs b → has_values vs b [].
Proof using Hf Ha Hr.
  intros (Hs & Hmax & Hvs). unfold has_values. apply fv_array; [done..|]. intros k v Hk. pose proof (lookup_lt_Some _ _ _ Hk).
  pose proof (dlen_array descs e f Hf Ha Hr). unfold elem. rewrite mem_read_read by nia.
  rewrite (Nat.mul_comm k). by apply Hvs.
Qed.

Lemma array_state_nil b : b !! s = Some (MByte 0) → array_state [] b.
Proof using Hf. intros Hs. split; [done|]. destruct Hf as (_ & _ & Has & _). split; [simpl; lia|]. done. Qed.

Lemma same_off_slot (T : nat → Prop) v (b : block) : (s < length b)%nat → same_off (λ k, T k ∨ k = s) b (mem_write s [v] b).
Proof using.
  intros Hs. apply same_off_write; [simpl; lia|]. intros k Hk. right. unfold span in Hk. simpl in Hk. lia.
Qed.

(** One item more. *)
Lemma array_state_push (vs : list mval) v b b' :
  array_state vs b → zlen vs < f_array_size f → room b f a s →
  same_off (λ k, span (a + ds * length vs) ds k ∨ k = s) b b' →
  b' !! s = Some (MByte (zlen vs + 1)) → item_val mval_at f (mem_read (a + ds * length vs) ds b') [] v →
  array_state (vs ++ [v]) b'.
Proof using Hf Ha Hr.
  intros (Hs & Hmax & Hvs) Hlt [_ Hrs] Hoff Hs' Hv. unfold array_state. rewrite length_app. cbn [length].
  split; [by rewrite Nat2Z.inj_add|]. split; [lia|]. intros k w Hk.
  destruct (Hrs (slot_repeated f Hr)) as [_ Hso]. pose proof (dlen_array descs e f Hf Ha Hr) as Hd.
  apply lookup_app_Some in Hk as [Hk|[Hl Hk]].
  - rewrite (same_off_read _ _ _ b b' Hoff); [by apply Hvs|]. pose proof (lookup_lt_Some _ _ _ Hk).
    intros j Hj. unfold span in *. nia.
  - destruct (k - length vs)%nat eqn:E; [|done]. simpl in Hk. simplify_eq. by replace k with (length vs) by lia.
Qed.

(** An item, at its place. *)
Lemma array_item_reads (vs : list mval) (v : mval) b :
  zlen vs < f_array_size f → room b f a s → decodable v →
  reads (decoders f (padd (l, Z.of_nat a) (f_data_size f * zlen vs))) (wval f v) l (region f a s) b []
    (λ b' fp', item_val mval_at f (mem_read (a + ds * length vs) ds b') [] v ∧ fp' = [] ∧
       same_off (span (a + ds * length vs) ds) b b' ∧ b' !! s = b !! s).
Proof using Hwf Hdown Hf Ha Hr.
  intros Hlt Hroom [Hv Hb]. rewrite (static_elem_addr descs e f Hf) by lia.
  eapply reads_weaken.
  - apply (item_reads e f v l _ b Hf); [by left|done|done|exact (elem_room descs e f Hf a s (zlen vs) b Ha Hr ltac:(lia) Hroom)|].
    intros; congruence.
  - exact (elem_region descs e f Hf a s (zlen vs) Ha Hr ltac:(lia)).
  - rewrite Nat2Z.id. intros b' fp' Hi Hoff. assert (fp' = []) as ->.
    { destruct Hi as [|d fp' ws Hsub Hp Hm]; [done|].
      destruct (wf_submsg descs e f Hf Hsub) as (d' & Hp' & _ & _ & Hst). assert (d' = d) as -> by congruence.
      destruct (Hst Ha) as (_ & Hin & _). eapply ptr_free_val; [by apply inert_ptr_free, Hin|done]. }
    split; [done|]. split; [done|]. split; [done|].
    apply (elem_slot descs e f Hf a s (zlen vs) b b' Ha Hr ltac:(lia) Hroom). by rewrite Nat2Z.id.
Qed.

Lemma count_u8 (vs : list mval) : zlen vs < f_array_size f → u8 (zlen vs + 1) = zlen vs + 1.
Proof using Hf. intros Hlt. apply uwrap_id. destruct Hf as (_ & _ & Has & _). unfold is_uint. lia. Qed.

Lemma static_append_reads wt (vs : list mval) (v : mval) b :
  is_packable f = false → zlen vs < f_array_size f → room b f a s → decodable v → array_state vs b →
  reads (decode_static_field descs exts noinit wt it) (wval f v) l (region f a s) b []
    (λ b' fp', fp' = [] ∧ array_state (vs ++ [v]) b').
Proof using Hwf Hdown Hf Hat Ha Hr.
  intros Hpk Hlt Hroom Hv Hst. pose proof Hst as (Hs & _). pose proof Hat as (Hit & HpD & HpS). pose proof Hroom as [Hra Hrs].
  pose proof (slot_repeated f Hr) as Hsl. destruct (Hrs Hsl) as [Hsb _].
  unfold decode_static_field. rewrite Hit, HpD, (HpS Hsl), Hr, Hpk, andb_false_r.
  assert (is_htype PB_HTYPE_REQUIRED f = false ∧ is_htype PB_HTYPE_OPTIONAL f = false) as [-> ->]
    by (unfold is_htype in *; by apply Z.eqb_eq in Hr as ->).
  apply reads_step. intros i. apply (runs_ld_u8 _ s (zlen vs)); [done|]. split; [done|]. bool_cases.
  apply reads_step. clear i. intros i. apply runs_st_u8; [done|by right|]. split; [done|]. rewrite count_u8 by done.
  destruct (slot_write f a s (MByte (zlen vs + 1)) b Hsl Hroom) as (_ & Hsw & Hroom').
  eapply reads_weaken; [by apply array_item_reads|done|]. intros b' fp' (Hi & -> & Hoff & Hs') _. split; [done|].
  apply (array_state_push vs v b); [done|done|done| |by rewrite Hs'|done].
  eapply same_off_trans; [by apply same_off_slot|]. eapply same_off_weaken; [|exact Hoff]. by left.
Qed.

(** A packed run. *)
Lemma packed_nonempty v : is_packable f = true → val_ok descs f v → 0 < zlen (wval f v).
Proof using.
  intros Hpk Hv. destruct (packable_ltype f Hpk) as (Hns & _). inversion Hv as [w _ Hp|]; subst; [|congruence].
  destruct v as [z|bs|]; [|destruct Hp; congruence|done]. cbn [wire_value]. unfold wire_int.
  repeat case_match; rewrite ?length_le_bytes; try lia.
  - pose proof (varint_length (u64 z)). lia.
  - pose proof (varint_length (zigzag z)). lia.
  - pose proof (varint_length z). lia.
Qed.

Lemma static_packed_reads (vs : list mval) : ∀ fuel (cur : list mval) i b,
  is_packable f = true → Forall decodable vs → begins i (concat (map (wval f) vs)) →
  i_bytes_left i = zlen (concat (map (wval f) vs)) → (length (concat (map (wval f) vs)) < fuel)%nat →
  zlen cur + zlen vs <= f_array_size f → room b f a s → array_state cur b →
  runs_ok (static_packed_loop descs exts noinit fuel it) i l (region f a s) b []
    (λ r i' b' fp', r = true ∧ i' = i_drop (length (concat (map (wval f) vs))) i ∧ fp' = [] ∧ array_state (cur ++ vs) b').
Proof using Hwf Hdown Hf Hat Ha Hr.
  induction vs as [|v vs IH]; intros fuel cur i b Hpk Hvs Hi Hleft Hfu Hlen Hroom Hst; (destruct fuel as [|fuel]; [simpl in Hfu; lia|]);
    cbn [static_packed_loop map concat] in *; pose proof Hat as (Hit & HpD & HpS); pose proof (slot_repeated f Hr) as Hsl;
    rewrite Hit, HpD, (HpS Hsl); apply runs_seq, runs_bytes_left.
  - rewrite Hleft. change (zlen [] <=? 0) with true. apply runs_ret. rewrite i_drop_0, app_nil_r. done.
  - apply Forall_cons in Hvs as [Hv Hvs]. pose proof (packed_nonempty v Hpk (proj1 Hv)) as Hne.
    rewrite length_app in *. cbn [length] in Hlen. apply begins_app in Hi as [Hi Hi2]. bool_cases.
    pose proof Hst as (Hs & _). apply runs_seq, (runs_ld_u8 _ s (zlen cur)); [done|]. bool_cases.
    eapply runs_bind; [apply (array_item_reads cur v b); [lia|done|done|done]|].
    intros r i' b1 fp1 (-> & -> & Hiv & -> & Hoff & Hs1) [Hl1 _]. rewrite Hs in Hs1.
    apply runs_seq, (runs_ld_u8 _ s (zlen cur)); [done|].
    assert (room b1 f a s) as Hroom1 by by eapply room_length. destruct Hroom1 as [Hra1 Hrs1]. destruct (Hrs1 Hsl) as [Hsb Hso].
    apply runs_seq, runs_st_u8; [done|by right|]. rewrite count_u8 by lia.
    destruct (slot_write f a s (MByte (zlen cur + 1)) b1 Hsl ltac:(done)) as (_ & Hsw & Hroom2).
    eapply runs_conseq.
    + apply (IH fuel (cur ++ [v])); try done.
      * simpl. lia.
      * lia.
      * rewrite length_app. simpl. lia.
      * apply (array_state_push cur v b); [done|lia|done| |done|].
        -- eapply same_off_trans; [eapply same_off_weaken; [|exact Hoff]; by left|]. by apply same_off_slot.
        -- rewrite mem_read_write_disjoint; [done|simpl; lia|]. pose proof (dlen_array descs e f Hf Ha Hr). simpl. nia.
    + intros r i2 b2 fp2 (-> & -> & -> & Hst2) _. rewrite i_drop_drop. do 3 (split; [done|]). by rewrite <-app_assoc in Hst2.
Qed.

Lemma static_run_reads (vs : list mval) b :
  is_packable f = true → Forall decodable vs → zlen (concat (map (wval f) vs)) < 2 ^ 32 → zlen vs <= f_array_size f →
  room b f a s → array_state [] b →
  reads (decode_static_field descs exts noinit PB_WT_STRING it) (delimited (concat (map (wval f) vs))) l (region f a s) b []
    (λ b' fp', fp' = [] ∧ array_state vs b').
Proof using Hwf Hdown Hf Hat Ha Hr.
  intros Hpk Hvs H32 Hlen Hroom Hst. pose proof Hat as (Hit & _). unfold decode_static_field. rewrite Hit, Hr, Hpk.
  assert (is_htype PB_HTYPE_REQUIRED f = false ∧ is_htype PB_HTYPE_OPTIONAL f = false) as [-> ->]
    by (unfold is_htype in *; by apply Z.eqb_eq in Hr as ->).
  cbn [andb Z.eqb]. apply reads_sub; [done|]. intros i par sub Hsub Hleft Hc. apply runs_seq, runs_bytes_left.
  eapply runs_bind; [apply (static_packed_reads vs _ [] sub b); try done; simpl; lia|].
  intros r i' b' fp' (-> & -> & -> & Hst') _. apply runs_seq, runs_bytes_left. cbn [i_drop i_bytes_left].
  rewrite Hleft, Z.sub_diag. by apply close_reads.
Qed.

End Static.

(** *** Allocated fields *)

Section Pointer.
Context (Ha : is_atype PB_ATYPE_POINTER f = true).

(** A value behind a null pointer. *)
Lemma pointer_value_reads b v :
  is_htype PB_HTYPE_REPEATED f = false → room b f a s → decodable v → mem_read a PTR_SIZE b = ptr_bytes VNull →
  reads (if is_string_or_bytes f then decoders f (l, Z.of_nat a)
         else
           allocate_field (l, Z.of_nat a) (f_data_size f) 1 &&?
           let* p := ld_ptr (l, Z.of_nat a) in
           let* q := deref p in
           initialize_pointer_field descs exts q it ;;;
           let* p := ld_ptr (l, Z.of_nat a) in
           let* q := deref p in
           decoders f q) (wval f v) l (span a PTR_SIZE) b []
    (λ b' fp', ptr_val mval_at f (mem_read a PTR_SIZE b') fp' v).
Proof using Hwf Hdown Hf Hat Ha.
  intros Hr [Hra _] [Hv Hb] Hnull. pose proof Hat as (Hit & _). pose proof Hf as (_ & Hds & _).
  rewrite (dlen_pointer f Ha) in Hra. destruct (is_string_or_bytes f) eqn:Es.
  - assert (is_submsg f = false) as Hns by (unfold is_submsg; apply not_true_is_false; intros Hs%submsg_not_string; congruence).
    assert (plain_ok f v) as Hp by (inversion Hv; subst; [done|congruence]).
    assert (∃ bs, v = MBytes bs) as [bs ->].
    { destruct v as [z|bs|]; [|by exists bs|done]. destruct Hp as [Hpk _]. destruct (packable_plain f Hpk). congruence. }
    eapply reads_weaken; [by apply (string_reads descs exts noinit e f bs l a b VNull []); try done; left|done|].
    intros b' fp' (l' & b2 & -> & -> & Hh) _. rewrite mem_read_write by (rewrite ?length_ptr_bytes; done). by apply pv_str.
  - intros i Hi. apply runs_seq, (runs_allocate false VNull []); try done; try lia; [by left|].
    intros l'. set (b1 := mem_write a _ b). set (b2 := resize _ _). assert (zlen b2 = f_data_size f) as Hb2 by (unfold b2; rewrite length_resize; lia).
    assert (length b1 = length b) as Hb1 by (apply mem_write_length; rewrite length_ptr_bytes; lia).
    assert (mem_read a PTR_SIZE b1 = ptr_bytes (VLoc l' 0)) as Hp1 by (apply mem_read_write; [lia|apply length_ptr_bytes]).
    apply runs_seq, (runs_ld_ptr _ a (VLoc l' 0)); [lia|done|]. apply runs_seq, runs_deref.
    eapply runs_bind with (Q := λ _ i2 b1' fp2, i2 = i ∧ b1' = b1 ∧ ∃ b3, fp2 = [(l', b3)] ∧
      zlen b3 = f_data_size f ∧ item_fresh (fresh descs) f b3).
    + unfold initialize_pointer_field. rewrite Hit, Es. destruct (is_ltype PB_LTYPE_SUBMESSAGE f) eqn:El.
      * destruct (wf_submsg descs e f Hf El) as (d & Hpd & Hd & Hfit & _). rewrite Hpd. eapply runs_conseq.
        -- apply runs_inside, (set_to_defaults_fresh false descs exts Hwf d ds 0 l' b2 i); [done|exact Hfit|lia].
        -- intros [] i2 b3 fp3 (-> & b4 & fp4 & -> & [Hl4 _] & -> & -> & Hfr) _. do 2 (split; [done|]).
           exists b4. split; [done|]. split; [lia|]. eapply fresh_submsg; [done|done|].
           rewrite <-Hb2, Nat2Z.id, <-Hl4, mem_read_whole in Hfr. done.
      * apply runs_ret. do 2 (split; [done|]). exists b2. split; [done|]. split; [done|]. by apply fresh_plain.
    + intros [] i2 b1' fp2 (-> & -> & b3 & -> & Hb3 & Hfr) _.
      apply runs_seq, (runs_ld_ptr _ a (VLoc l' 0)); [lia|done|]. apply runs_seq, runs_deref.
      assert (ds = length b3) as Hds3 by lia. eapply runs_conseq.
      * apply runs_inside, (item_reads e f v l' 0 b3 Hf); [by right|done|done|lia| |exact Hi].
        intros _. by rewrite Hds3, mem_read_whole.
      * intros r i2 b4 fp4 (-> & b5 & fp5 & -> & [Hl5 _] & -> & -> & Hi5) _. do 2 (split; [done|]).
        rewrite Hp1. apply pv_item; [done|lia|]. by rewrite Hds3, <-Hl5, mem_read_whole in Hi5.
Qed.

Lemma pointer_single_reads wt b v :
  is_htype PB_HTYPE_REPEATED f = false → room b f a s → decodable v →
  field_fresh (fresh descs) f (mem_read a (dlen f) b) (b !! s) →
  reads (decode_pointer_field descs exts noinit wt it) (wval f v) l (region f a s) b [] (has_values [v]).
Proof using Hwf Hdown Hf Hat Ha.
  intros Hr Hroom Hv (_ & Hnull & _). specialize (Hnull Ha). pose proof Hat as (Hit & HpD & HpS). pose proof Hroom as [Hra Hrs].
  pose proof (dlen_pointer f Ha) as Hd. unfold decode_pointer_field, has_values. rewrite Hit, HpD, Hr, Hd in *.
  assert (∀ b1, length b1 = length b → mem_read a PTR_SIZE b1 = ptr_bytes VNull →
    (is_htype PB_HTYPE_ONEOF f = true → b1 !! s = Some (MByte (f_tag f))) →
    reads (if is_string_or_bytes f then decoders f (l, Z.of_nat a)
           else
             allocate_field (l, Z.of_nat a) (f_data_size f) 1 &&?
             let* p := ld_ptr (l, Z.of_nat a) in
             let* q := deref p in
             initialize_pointer_field descs exts q it ;;;
             let* p := ld_ptr (l, Z.of_nat a) in
             let* q := deref p in
             decoders f q) (wval f v) l (region f a s) b1 []
      (λ b' fp', field_val mval_at f (mem_read a PTR_SIZE b') (b' !! s) fp' [v])) as Hvalue.
  { intros b1 Hb1 Hn1 Htag. assert (room b1 f a s) as Hroom1 by by eapply room_length.
    eapply reads_weaken; [by apply (pointer_value_reads b1 v)|intros k Hk; left; by rewrite Hd|].
    intros b' fp' Hpv Hoff. destruct (htype_cases f) as [Hh|[Hh|[Hh|Hh]]]; [| |congruence|].
    - apply fv_ptr; [done|by left|done].
    - apply fv_ptr; [done|by right|done].
    - apply fv_ptr_oneof; [done..| |done]. rewrite (span_slot f a s b1 b' Hroom1 (slot_oneof f Hh)); [by apply Htag|]. by rewrite Hd. }
  apply reads_step. intros i. eapply runs_conseq with (Q := λ _ i' b' fp', i' = i ∧ b' = b ∧ fp' = []).
  { destruct (is_ltype PB_LTYPE_SUBMESSAGE f); [|by apply runs_ret].
    apply runs_seq, (runs_ld_ptr _ a VNull); [done|done|]. by apply runs_ret. }
  intros [] i' b' fp' (-> & -> & ->) _. split; [done|]. apply reads_step. clear i. intros i.
  destruct (is_htype PB_HTYPE_ONEOF f) eqn:Eo.
  - pose proof (slot_oneof f Eo) as Hsl. rewrite (HpS Hsl). destruct (Hrs Hsl) as [Hsb _].
    apply runs_st_u8; [done|by right|]. split; [done|]. rewrite (tag_u8 descs e f Hf).
    destruct (slot_write f a s (MByte (f_tag f)) b Hsl Hroom) as (Hdw & Hsw & _). rewrite Hd in Hdw.
    apply Hvalue; [apply mem_write_length; simpl; lia|by rewrite Hdw|done].
  - apply runs_ret. split; [done|]. by apply Hvalue.
Qed.

(** *** Allocated arrays *)

Section Array.
Context (Hr : is_htype PB_HTYPE_REPEATED f = true).

(** A new item, in memory with any contents. *)
Lemma new_elem_reads l' q b v :
  decodable v → (q + ds <= length b)%nat →
  reads (initialize_pointer_field descs exts (l', Z.of_nat q) it ;;; decoders f (l', Z.of_nat q)) (wval f v) l'
    (span q ds) b [] (λ b' fp', elem_val mval_at f (mem_read q ds b') fp' v).
Proof using Hwf Hdown Hf Hat Ha Hr.
  intros [Hv Hb] Hq. pose proof Hat as (Hit & _). pose proof Hf as (_ & Hds & _).
  pose proof Hf as (_ & _ & _ & _ & _ & _ & _ & _ & _ & Hpt). destruct (Hpt Ha) as [_ Hps].
  unfold initialize_pointer_field. rewrite Hit. apply reads_step. intros i.
  destruct (is_string_or_bytes f) eqn:Es.
  { assert (ds = PTR_SIZE) as Hd by (rewrite (Hps Hr eq_refl); done). rewrite Hd in *.
    assert (is_submsg f = false) as Hns by (unfold is_submsg; apply not_true_is_false; intros Hs%submsg_not_string; congruence).
    assert (plain_ok f v) as Hp by (inversion Hv; subst; [done|congruence]).
    assert (∃ bs, v = MBytes bs) as [bs ->].
    { destruct v as [z|bs|]; [|by exists bs|done]. destruct Hp as [Hpk _]. destruct (packable_plain f Hpk). congruence. }
    apply runs_st; rewrite ?length_ptr_bytes; [done|done|]. split; [done|].
    set (b1 := mem_write q _ b). assert (length b1 = length b) as Hb1 by (apply mem_write_length; rewrite length_ptr_bytes; lia).
    eapply reads_weaken; [apply (string_reads descs exts noinit e f bs l' q b1 VNull []); try done| |].
    - by rewrite Hb1.
    - apply mem_read_write; [done|apply length_ptr_bytes].
    - by left.
    - done.
    - intros b' fp' (l2 & b2 & -> & -> & Hh) _.
      rewrite mem_read_write by (rewrite ?length_ptr_bytes, ?Hb1; done). apply ev_str; [done|]. by apply pv_str. }
  eapply runs_conseq with (Q := λ _ i' b' fp', i' = i ∧ fp' = [] ∧ length b' = length b).
  - destruct (is_ltype PB_LTYPE_SUBMESSAGE f) eqn:El; [|by apply runs_ret].
    destruct (wf_submsg descs e f Hf El) as (d & Hp & Hd & Hfit & _). rewrite Hp. eapply runs_conseq.
    + by apply (set_to_defaults_fresh false descs exts Hwf d ds q l' b i).
    + intros [] i' b' fp' (-> & -> & _) [Hlb _]. done.
  - intros [] i' b' fp' (-> & -> & Hlb) _. split; [done|]. eapply reads_weaken.
    + apply (item_reads e f v l' q b' Hf); [by right|done|done|by rewrite Hlb|]. intros; congruence.
    + done.
    + intros b2 fp2 Hi _. by apply ev_item.
Qed.

(** The array, and its count. *)
Definition pointer_state (vs : list mval) (b : block) (fp : footprint) : Prop :=
  b !! s = Some (MByte (zlen vs)) ∧ zlen vs <= PB_SIZE_MAX ∧ arr_val mval_at f (mem_read a PTR_SIZE b) fp vs.

Lemma pointer_state_values vs b fp : pointer_state vs b fp → has_values vs b fp.
Proof using Ha Hr. intros (Hs & Hc & Hv). unfold has_values. rewrite (dlen_pointer f Ha). by apply fv_ptr_array. Qed.

Lemma pointer_state_nil b :
  b !! s = Some (MByte 0) → mem_read a PTR_SIZE b = ptr_bytes VNull → pointer_state [] b [].
Proof using. intros Hs Hn. split; [done|]. split; [unfold PB_SIZE_MAX; simpl; lia|]. rewrite Hn. constructor. Qed.

(** The items of an array, in its block. *)
Lemma arr_val_inv data fp vs :
  arr_val mval_at f data fp vs →
  ∃ p old fps, data = ptr_bytes p ∧ owns p old ∧ fp = old ++ concat fps ∧ length fps = length vs ∧
    zlen vs * f_data_size f <= zlen (default [] (snd <$> head old)) ∧
    ∀ k fp v, fps !! k = Some fp → vs !! k = Some v →
      elem_val mval_at f (elem f k (default [] (snd <$> head old))) fp v.
Proof using.
  intros [|l2 b2 fps vs' Hl Hroom Hel].
  - exists VNull, [], []. split; [done|]. split; [by left|]. done.
  - exists (VLoc l2 0), [(l2, b2)], fps. split; [done|]. split; [right; eauto|]. done.
Qed.

Lemma arr_val_snoc l' b b0 fps fp (vs : list mval) v :
  length fps = length vs → zlen vs * f_data_size f <= zlen b0 →
  (∀ k fp v, fps !! k = Some fp → vs !! k = Some v → elem_val mval_at f (elem f k b0) fp v) →
  (∀ k, (k < length vs)%nat → elem f k b = elem f k b0) →
  (zlen vs + 1) * f_data_size f <= zlen b → elem_val mval_at f (elem f (length vs) b) fp v →
  arr_val mval_at f (ptr_bytes (VLoc l' 0)) ((l', b) :: concat (fps ++ [fp])) (vs ++ [v]).
Proof using.
  intros Hl Hr0 Ho0 Hsame Hroom Hnew. constructor; [by rewrite !length_app, Hl|by rewrite length_app, Nat2Z.inj_add|].
  intros k x w Hk Hw. apply lookup_app_Some in Hk as [Hk|[Hlk Hk]].
  - pose proof (lookup_lt_Some _ _ _ Hk). rewrite lookup_app_l in Hw by lia. rewrite Hsame by lia. by eapply Ho0.
  - destruct (k - length fps)%nat eqn:E; [|done]. simpl in Hk. simplify_eq. assert (k = length vs) as -> by lia.
    rewrite lookup_app_r, Nat.sub_diag in Hw by lia. simpl in Hw. by simplify_eq.
Qed.

Lemma pointer_append_reads wt (vs : list mval) v b fp :
  is_packable f = false → zlen vs < PB_SIZE_MAX → room b f a s → decodable v → pointer_state vs b fp →
  reads (decode_pointer_field descs exts noinit wt it) (wval f v) l (region f a s) b fp (pointer_state (vs ++ [v])).
Proof using Hwf Hdown Hf Hat Ha Hr.
  intros Hpk Hlt Hroom Hv (Hs & _ & Harr). pose proof Hat as (Hit & HpD & HpS). pose proof Hroom as [Hra Hrs].
  pose proof (slot_repeated f Hr) as Hsl. destruct (Hrs Hsl) as [Hsb _]. pose proof Hf as (_ & Hds & _).
  pose proof (dlen_pointer f Ha) as Hdl. unfold PB_SIZE_MAX in Hlt.
  assert (u8 (zlen vs + 1) = zlen vs + 1) as Hu by (apply uwrap_id; unfold is_uint; lia).
  unfold decode_pointer_field. rewrite Hit, HpD, (HpS Hsl), Hr, Hpk, andb_false_r.
  apply reads_step. intros i. apply (runs_ld_u8 _ s (zlen vs)); [done|]. split; [done|]. unfold PB_SIZE_MAX. bool_cases.
  apply reads_step. clear i. intros i. apply runs_st_u8; [done|by right|]. split; [done|]. rewrite Hu.
  destruct (slot_write f a s (MByte (zlen vs + 1)) b Hsl Hroom) as (Hdw & Hsw & Hroom').
  set (b1 := mem_write s [MByte (zlen vs + 1)] b) in *. rewrite Hdl in Hdw. pose proof Hroom' as [Hra' _].
  destruct (arr_val_inv _ _ _ Harr) as (p & old & fps & Hp & Ho & -> & Hl & Hroom0 & Hel0).
  set (b0 := default [] (snd <$> head old)) in *. rewrite Hdl in *. rewrite <-Hdw in Hp.
  clear i. intros i Hi. apply runs_seq.
  eapply runs_weaken with (T := span a PTR_SIZE).
  { apply (runs_frame _ _ i l (span a PTR_SIZE) b1 old (concat fps)).
    apply (runs_allocate_ok p old) with
      (Q := λ r i' b' fp', r = true ∧ i' = i ∧ ∃ l', b' = mem_write a (ptr_bytes (VLoc l' 0)) b1 ∧
        fp' = [(l', resize (Z.to_nat ((zlen vs + 1) * f_data_size f)) b0)]); try done; try nia.
    intros l'. do 2 (split; [done|]). by exists l'. }
  { intros k Hk. left. by rewrite Hdl. }
  intros r i' b' fp' (fp0 & -> & -> & -> & l' & -> & ->) Hoff.
  set (bn := resize (Z.to_nat ((zlen vs + 1) * f_data_size f)) b0). set (b2 := mem_write a _ b1) in *.
  assert (zlen bn = (zlen vs + 1) * f_data_size f) as Hbn by (unfold bn; rewrite length_resize; nia).
  assert (b2 !! s = Some (MByte (zlen vs + 1))) as Hs2.
  { rewrite <-Hsw. apply (span_slot f a s b1 b2 Hroom' Hsl). by rewrite Hdl. }
  assert (mem_read a PTR_SIZE b2 = ptr_bytes (VLoc l' 0)) as Hp2 by (apply mem_read_write; [lia|apply length_ptr_bytes]).
  destruct Hoff as [Hl2 _]. apply runs_seq, (runs_ld_ptr _ a (VLoc l' 0)); [lia|done|]. apply runs_seq, runs_deref.
  rewrite (next_elem_addr descs e f Hf), Nat2Z.id by lia.
  eapply runs_perm_post.
  { change ([(l', bn)] ++ concat fps) with ((l', bn) :: [] ++ concat fps). apply runs_inside, runs_frame.
    apply (new_elem_reads l' (length vs * ds) bn v Hv); [nia|exact Hi]. }
  intros r i2 b3 fp3 (-> & bn' & fp4 & -> & Hoffn & fp5 & -> & -> & -> & Hnew) _.
  exists ((l', bn') :: concat (fps ++ [fp5])). split.
  { constructor. rewrite concat_app. cbn [concat]. rewrite app_nil_r. apply Permutation_app_comm. }
  do 2 (split; [done|]). pose proof Hoffn as [Hln _]. split; [by rewrite length_app, Nat2Z.inj_add|].
  split; [rewrite length_app; unfold PB_SIZE_MAX; simpl; lia|]. rewrite Hp2.
  apply (arr_val_snoc l' bn' b0); [done|done|done| |rewrite Hln; nia|done].
  intros k Hk. rewrite (elem_same_off f k (length vs) bn bn') by (done || lia). apply mem_read_resize; nia.
Qed.

(** A packed run: there is room for [allocated] items. *)
Definition packed_values (vs : list mval) (allocated : Z) (b : block) (fp : footprint) : Prop :=
  b !! s = Some (MByte (zlen vs)) ∧ zlen vs <= PB_SIZE_MAX ∧ zlen vs <= allocated ∧
  ((mem_read a PTR_SIZE b = ptr_bytes VNull ∧ fp = [] ∧ allocated = 0) ∨
   ∃ l' b0, mem_read a PTR_SIZE b = ptr_bytes (VLoc l' 0) ∧ fp = [(l', b0)] ∧ allocated * f_data_size f <= zlen b0 ∧
     ∀ k v, vs !! k = Some v → item_val mval_at f (elem f k b0) [] v).

Lemma packed_values_state vs allocated b fp :
  is_packable f = true → packed_values vs allocated b fp → pointer_state vs b fp.
Proof using Hf.
  intros Hpk (Hs & Hc & Hca & Hp). split; [done|]. split; [done|]. destruct (packable_plain f Hpk) as [_ Hsb].
  destruct Hp as [(Hn & -> & ->)|(l' & b0 & Hn & -> & Hroom & Hvs)]; rewrite Hn.
  - destruct vs; [constructor|simpl in Hca; lia].
  - assert (concat (replicate (length vs) ([] : footprint)) = []) as Hnil by by apply concat_nil_Forall, Forall_replicate.
    rewrite <-Hnil. destruct Hf as (_ & Hds & _). constructor; [by rewrite length_replicate|nia|].
    intros k fp v Hk Hv. apply lookup_replicate in Hk as [-> _]. apply ev_item; [done|]. by apply Hvs.
Qed.

(** Room for one item more. *)
Lemma packed_grow (vs : list mval) allocated n_left i b fp :
  0 < n_left < 2 ^ 32 → zlen vs < PB_SIZE_MAX → room b f a s → packed_values vs allocated b fp →
  let grow := allocated <? zlen vs + 1 in
  let allocated' := if grow then u64 (allocated + ((n_left - 1) / f_data_size f + 1)) else allocated in
  runs_ok (if grow then allocate_field (l, Z.of_nat a) (f_data_size f) allocated' else ret true) i l (region f a s) b fp
    (λ r i' b' fp', r = true ∧ i' = i ∧ packed_values vs allocated' b' fp' ∧ zlen vs < allocated').
Proof using Hf Ha Hr.
  intros Hn Hlt Hroom Hst grow allocated'. pose proof Hst as (Hs & Hc & Hca & Hp). unfold PB_SIZE_MAX in *.
  pose proof Hroom as [Hra _]. pose proof (dlen_pointer f Ha) as Hdl. rewrite Hdl in Hra.
  pose proof (slot_repeated f Hr) as Hsl. pose proof Hf as (_ & Hds & _). subst allocated'.
  destruct grow eqn:Eg; unfold grow in Eg; [apply Z.ltb_lt in Eg|apply Z.ltb_ge in Eg; apply runs_ret; by repeat split_and!; try lia].
  assert (0 <= (n_left - 1) / f_data_size f <= n_left - 1) as Hq.
  { split; [apply Z.div_pos; lia|]. apply Z.div_le_upper_bound; nia. }
  rewrite uwrap_id by (unfold is_uint; lia). set (allocated' := allocated + _) in *.
  assert (∃ p, mem_read a PTR_SIZE b = ptr_bytes p ∧ owns p fp) as (p & Hpp & Ho).
  { destruct Hp as [(? & -> & _)|(l' & b0 & ? & -> & _)]; [exists VNull|exists (VLoc l' 0)];
      (split; [done|]); [by left|right; eauto]. }
  apply (runs_weaken _ _ i l (span a PTR_SIZE) _ b fp (λ r i' b' fp', r = true ∧ i' = i ∧
    ∃ l', b' = mem_write a (ptr_bytes (VLoc l' 0)) b ∧
      fp' = [(l', resize (Z.to_nat (allocated' * f_data_size f)) (default [] (snd <$> head fp)))])).
  - apply (runs_allocate_ok p fp); try done; try (unfold allocated'; nia).
    intros l'. do 2 (split; [done|]). by exists l'.
  - intros k Hk. left. by rewrite Hdl.
  - intros r i' b' fp' (-> & -> & l' & -> & ->) Hoff. do 2 (split; [done|]). split; [|unfold allocated'; lia].
    split; [rewrite <-Hs; apply (span_slot f a s _ _ Hroom Hsl); by rewrite Hdl|]. split; [done|].
    split; [unfold allocated'; lia|]. right. exists l'. eexists.
    split; [apply mem_read_write; [lia|apply length_ptr_bytes]|]. split; [done|]. split; [rewrite length_resize; unfold allocated'; nia|].
    intros k v Hk. destruct Hp as [(_ & -> & Hz)|(l2 & b0 & _ & -> & Hr0 & Hvs)].
    + apply lookup_lt_Some in Hk. lia.
    + cbn [head fmap option_fmap option_map snd default from_option id]. unfold elem.
      apply lookup_lt_Some in Hk as Hkl. rewrite mem_read_resize by (unfold allocated'; nia). by apply Hvs.
Qed.

Lemma pointer_packed_reads (vs : list mval) : ∀ fuel (cur : list mval) allocated i b fp,
  is_packable f = true → Forall decodable vs → begins i (concat (map (wval f) vs)) →
  i_bytes_left i = zlen (concat (map (wval f) vs)) → (length (concat (map (wval f) vs)) < fuel)%nat →
  zlen (concat (map (wval f) vs)) < 2 ^ 32 → zlen cur + zlen vs <= PB_SIZE_MAX → room b f a s →
  packed_values cur allocated b fp →
  runs_ok (pointer_packed_loop descs exts noinit fuel it allocated) i l (region f a s) b fp
    (λ r i' b' fp', r = true ∧ i' = i_drop (length (concat (map (wval f) vs))) i ∧
       ∃ allocated', packed_values (cur ++ vs) allocated' b' fp').
Proof using Hwf Hdown Hf Hat Ha Hr.
  induction vs as [|v vs IH]; intros fuel cur allocated i b fp Hpk Hvs Hi Hleft Hfu H32 Hlen Hroom Hst;
    (destruct fuel as [|fuel]; [simpl in Hfu; lia|]); cbn [pointer_packed_loop map concat] in *;
    pose proof Hat as (Hit & HpD & HpS); pose proof (slot_repeated f Hr) as Hsl;
    rewrite Hit, HpD, (HpS Hsl); apply runs_seq, runs_bytes_left.
  { rewrite Hleft. change (zlen [] =? 0) with true. apply runs_ret. rewrite i_drop_0, app_nil_r. by eauto. }
  pose proof Hf as (_ & Hds & _). pose proof (dlen_pointer f Ha) as Hdl.
  destruct (packable_plain f Hpk) as [Hns Hnsb].
  apply Forall_cons in Hvs as [Hv Hvs]. pose proof (packed_nonempty v Hpk (proj1 Hv)) as Hne.
  rewrite length_app in *. cbn [length] in Hlen. apply begins_app in Hi as [Hi Hi2].
  rewrite (proj2 (Z.eqb_neq (i_bytes_left i) 0)) by lia.
  pose proof Hst as (Hs & _). apply runs_seq, (runs_ld_u8 _ s (zlen cur)); [done|].
  rewrite (proj2 (Z.eqb_neq (f_data_size f) 0)), andb_false_r by lia.
  eapply runs_bind; [apply (packed_grow cur allocated (i_bytes_left i) i b fp); try done; [lia|unfold PB_SIZE_MAX in *; lia]|].
  set (allocated' := if allocated <? zlen cur + 1 then u64 (allocated + ((i_bytes_left i - 1) / f_data_size f + 1)) else allocated).
  intros r i' b1 fp1 (-> & -> & Hst1 & Hlt1) [Hl1 _]. pose proof Hst1 as (Hs1 & _ & _ & Hp1).
  destruct Hp1 as [(_ & _ & Hz)|(l' & b0 & Hp1 & -> & Hr0 & Hvs0)]; [lia|].
  assert (room b1 f a s) as Hroom1 by by eapply room_length. pose proof Hroom1 as [Hra1 Hrs1]. rewrite Hdl in Hra1.
  apply runs_seq, (runs_ld_ptr _ a (VLoc l' 0)); [done|done|]. apply runs_seq, runs_deref.
  apply runs_seq, (runs_ld_u8 _ s (zlen cur)); [done|]. rewrite (next_elem_addr descs e f Hf), Nat2Z.id by lia.
  unfold initialize_pointer_field. rewrite Hit, Hnsb, Hns. apply runs_seq, runs_ret.
  eapply runs_bind.
  { apply runs_inside. destruct Hv as [Hv Hb]. apply (item_reads e f v l' (length cur * ds) b0 Hf); [by right|done|done|nia| |exact Hi].
    intros _. by apply fresh_plain. }
  intros r i2 b2 fp2 (-> & b3 & fp3 & -> & Hoff3 & -> & -> & Hiv) _.
  assert (fp3 = []) as -> by (destruct Hiv; [done|unfold is_submsg in *; congruence]).
  apply runs_seq, (runs_ld_u8 _ s (zlen cur)); [done|].
  rewrite (proj2 (Z.eqb_neq (zlen cur) PB_SIZE_MAX)) by lia. destruct (Hrs1 Hsl) as [Hsb Hso].
  apply runs_seq, runs_st_u8; [done|by right|].
  assert (u8 (zlen cur + 1) = zlen cur + 1) as -> by (apply uwrap_id; unfold is_uint, PB_SIZE_MAX in *; lia).
  destruct (slot_write f a s (MByte (zlen cur + 1)) b1 Hsl Hroom1) as (Hdw & Hsw & Hroom2). rewrite Hdl in Hdw.
  eapply runs_conseq.
  - apply (IH fuel (cur ++ [v]) allocated'); try done.
    + simpl. lia.
    + lia.
    + lia.
    + rewrite length_app. simpl. lia.
    + assert (zlen (cur ++ [v]) = zlen cur + 1) as Hcl by (rewrite length_app; simpl; lia). unfold packed_values. rewrite Hcl.
      split; [done|]. split; [lia|]. split; [lia|]. right. exists l', b3. rewrite Hdw. split; [done|]. split; [done|].
      split; [destruct Hoff3 as [-> _]; lia|]. intros k w Hk. apply lookup_app_Some in Hk as [Hk|[Hlk Hk]].
      * apply lookup_lt_Some in Hk as Hkl. rewrite (elem_same_off f k (length cur) b0 b3) by (done || lia). by apply Hvs0.
      * destruct (k - length cur)%nat eqn:E; [|done]. simpl in Hk. simplify_eq. by replace k with (length cur) by lia.
  - intros r i3 b4 fp4 (-> & -> & al' & Hst4) _. rewrite i_drop_drop. do 2 (split; [done|]). exists al'.
    by rewrite <-app_assoc in Hst4.
Qed.

Lemma pointer_run_reads (vs : list mval) b :
  is_packable f = true → Forall decodable vs → zlen (concat (map (wval f) vs)) < 2 ^ 32 → zlen vs <= PB_SIZE_MAX →
  room b f a s → b !! s = Some (MByte 0) → mem_read a PTR_SIZE b = ptr_bytes VNull →
  reads (decode_pointer_field descs exts noinit PB_WT_STRING it) (delimited (concat (map (wval f) vs))) l (region f a s) b []
    (pointer_state vs).
Proof using Hwf Hdown Hf Hat Ha Hr.
  intros Hpk Hvs H32 Hlen Hroom Hs Hn. pose proof Hat as (Hit & HpD & HpS). pose proof (slot_repeated f Hr) as Hsl.
  unfold decode_pointer_field. rewrite Hit, (HpS Hsl), Hr, Hpk. cbn [andb Z.eqb].
  apply reads_step. intros i. apply (runs_ld_u8 _ s 0); [done|]. split; [done|].
  apply reads_sub; [done|]. clear i. intros i par sub Hsub Hleft Hc. apply runs_seq, runs_bytes_left.
  eapply runs_bind.
  { apply (pointer_packed_reads vs _ [] 0 sub b []); try done; [simpl; lia|].
    split; [done|]. split; [unfold PB_SIZE_MAX; simpl; lia|]. split; [simpl; lia|]. by left. }
  intros r i' b' fp' (-> & -> & al & Hst) _. apply close_reads; [done|]. by eapply packed_values_state.
Qed.

End Array.

End Pointer.

End Field.
End Level.
End Decoded.
