(* ===== verification/PbRebuild.v ===== *)
(** The decoder rebuilds a message from its wire form: the fields of a struct in
    its default state are filled in one after the other, the [decode_loop] turn
    by turn, the submessages by recursion. *)

From S2P Require Import Prelude PbStream PbMem PbFields PbDecode PbShape PbRuns PbOwn PbPlace PbDefaults PbRelease PbValues PbItems PbSafe PbSeen PbWire PbReads PbDecoded.

Open Scope Z_scope.

(** ** The wire form of a field *)

Lemma wire_type_of_range f : 0 <= wire_type_of f < 8.
Proof. unfold wire_type_of. repeat case_match; done. Qed.

Lemma concat_length_in {A} (w : list A) ws : w ∈ ws → (length w <= length (concat ws))%nat.
Proof. induction 1; simpl; rewrite length_app; lia. Qed.

(** Each value takes its place in the field. *)
Lemma join_length f (ws : list bytes) (w : bytes) : w ∈ ws → zlen w <= zlen (wire_join f ws).
Proof.
  intros Hin. unfold wire_join. destruct ws as [|w0 ws]; [by apply elem_of_nil in Hin|]. case_match.
  - apply concat_length_in in Hin. unfold delimited. rewrite !length_app. lia.
  - pose proof (concat_length_in _ _ (list_elem_of_fmap_2 (λ w, varint (key (wire_type_of f) (f_tag f)) ++ w) _ _ Hin)) as Hc.
    rewrite length_app in Hc. unfold fmap in Hc. apply inj_le in Hc. etrans; [|exact Hc]. lia.
Qed.

Lemma value_length descs f (vs : list mval) v : v ∈ vs → zlen (wire_value descs f v) <= zlen (wire_field descs f vs).
Proof. intros Hin. by apply join_length, (list_elem_of_fmap_2 (wire_value descs f)). Qed.

(** A number takes ten bytes at most. *)
Lemma wire_int_length f z : zlen (wire_int f z) <= 10.
Proof.
  unfold wire_int. repeat case_match; rewrite ?length_le_bytes; try lia; apply varint_length.
Qed.

Section Rebuild.
Context (descs : list (list pb_field)) (exts : list extension_type).
Context (field_callback : nat → pb_field → addr → M bool).
Context (ext_callback : nat → addr → Z → Z → M bool).
Context (Hwf : wf_descs descs).

Abbreviation desc := (descriptor descs).
Abbreviation N := (length descs).
Abbreviation wval := (wire_value descs).
Abbreviation mval_at := (msg_val descs).

(** ** The state of a field *)

(** The field holds its values, or is still in its default state; a field that
    has no values holds them from the beginning. *)
Definition field_state (done : bool) (vs : list mval) (f : pb_field) (data : block) (slot : option memval)
    (fp : footprint) : Prop :=
  if done || match vs with [] => true | _ => false end then field_val mval_at f data slot fp vs
  else fp = [] ∧ field_fresh (fresh descs) f data slot.

Lemma field_state_slot done vs f data slot slot' fp :
  (has_slot f = true → slot' = slot) → field_state done vs f data slot fp → field_state done vs f data slot' fp.
Proof.
  intros Hs. unfold field_state. case_match; [by apply field_val_slot|]. intros [-> Hf]. split; [done|].
  by eapply field_fresh_slot.
Qed.

(** A field in its default state has no values. *)
Lemma fresh_nothing e f data slot :
  field_wf descs e f → is_htype PB_HTYPE_REQUIRED f = false → field_fresh (fresh descs) f data slot →
  field_val mval_at f data slot [] [].
Proof.
  intros Hf Hreq (Hs & Hp & _). pose proof Hf as (Ht & _ & Has & _ & _ & Hat & _).
  destruct (htype_cases f) as [Hh|[Hh|[Hh|Hh]]]; [congruence| | |].
  - destruct Hat as [Ha|Ha]; [apply fv_no_optional; [done..|]; by apply Hs, slot_optional|]. apply fv_no_ptr; auto.
  - destruct Hat as [Ha|Ha].
    + apply fv_array; [done|done|by apply Hs, slot_repeated|simpl; lia|done].
    + apply fv_ptr_array; [done|done|by apply Hs, slot_repeated|unfold PB_SIZE_MAX; simpl; lia|].
      rewrite (Hp Ha). constructor.
  - apply (fv_no_oneof _ _ _ _ 0); [done|by apply Hs, slot_oneof|lia|]. intros Ha. exists VNull. by apply Hp.
Qed.

(** A member of a union with a value is the one the tag names. *)
Lemma union_value f data slot fp v :
  is_htype PB_HTYPE_ONEOF f = true → field_val mval_at f data slot fp [v] →
  slot = Some (MByte (f_tag f)) ∧ (is_atype PB_ATYPE_POINTER f = true → ∃ p, data = ptr_bytes p).
Proof.
  intros Ho Hv. assert (is_htype PB_HTYPE_REQUIRED f = false ∧ is_htype PB_HTYPE_OPTIONAL f = false) as [Hq Hp]
    by (unfold is_htype in *; by apply Z.eqb_eq in Ho as ->).
  pose proof (htype_oneof_repeated f Ho) as Hr.
  inversion Hv as [| | | | |? ? Ha|?|? ? ? [|]| |? ? Ha ? ? Hp']; subst; try congruence.
  - split; [done|]. intros Hpt%atype_pointer. congruence.
  - split; [done|]. intros _. inversion Hp'; eauto.
Qed.

Section Level.
Context (noinit : nat → addr → M bool) (bound : Z) (Hdown : noinit_reads descs noinit bound).
Context (e n o l : nat) (Hfit : msg_fits descs e n).
Context (vss : list (list mval)) (Hok : msg_ok descs e vss) (Hbound : zlen (wire descs e vss) <= bound).

Abbreviation at_index k g := (iter_at (desc e) (l, Z.of_nat o) k g.2).

(** The fields but the [k]-th: those before it are done. *)
Definition others (k : nat) (b : block) (fps : list footprint) : Prop :=
  ∀ j g fp vs, j ≠ k → layout (desc e) !! j = Some g → fps !! j = Some fp → vss !! j = Some vs →
    field_state (j <? k)%nat vs g.1 (fdata o b g) (fslot o b g) fp.

(** The [k]-th field is in the state [Q]. *)
Definition mid (k : nat) (Q : block → footprint → Prop) (b : block) (fp : footprint) : Prop :=
  ∃ fps, fp ≡ₚ concat fps ∧ length fps = length (layout (desc e)) ∧ others k b fps ∧
    ∀ fpk, fps !! k = Some fpk → Q b fpk.

(** The fields from [k] on are to be decoded. *)
Definition from (k : nat) (b : block) (fp : footprint) : Prop :=
  ∃ fps, fp ≡ₚ concat fps ∧ length fps = length (layout (desc e)) ∧
    ∀ j g fpj vs, layout (desc e) !! j = Some g → fps !! j = Some fpj → vss !! j = Some vs →
      field_state (j <? k)%nat vs g.1 (fdata o b g) (fslot o b g) fpj.

Lemma from_mid k g vs b fp :
  layout (desc e) !! k = Some g → vss !! k = Some vs → from k b fp →
  mid k (λ b fp, field_state false vs g.1 (fdata o b g) (fslot o b g) fp) b fp.
Proof.
  intros Hg Hvs (fps & Hp & Hl & Hst). exists fps. split; [done|]. split; [done|]. split.
  - intros j h fpj ws _. apply Hst.
  - intros fpk Hfpk. specialize (Hst k g fpk vs Hg Hfpk Hvs). by rewrite Nat.ltb_irrefl in Hst.
Qed.

Lemma mid_from k g vs b fp :
  layout (desc e) !! k = Some g → vss !! k = Some vs →
  mid k (λ b fp, field_val mval_at g.1 (fdata o b g) (fslot o b g) fp vs) b fp → from (S k) b fp.
Proof.
  intros Hg Hvs (fps & Hp & Hl & Hoth & Hk). exists fps. split; [done|]. split; [done|].
  intros j h fpj ws Hh Hfpj Hws. destruct (decide (j = k)) as [->|Hj].
  - simplify_eq. rewrite (proj2 (Nat.ltb_lt _ _)) by lia. by apply Hk.
  - assert ((j <? S k) = (j <? k))%nat as -> by bool_cases. by eapply Hoth.
Qed.

(** A field without values is done. *)
Lemma from_nothing k b fp : vss !! k = Some [] → from k b fp → from (S k) b fp.
Proof.
  intros Hvs (fps & Hp & Hl & Hst). exists fps. split; [done|]. split; [done|]. intros j h fpj ws Hh Hfpj Hws.
  specialize (Hst j h fpj ws Hh Hfpj Hws). destruct (decide (j = k)) as [->|Hj].
  - rewrite Hvs in Hws. simplify_eq. unfold field_state in *. by rewrite orb_true_r in *.
  - by assert ((j <? S k) = (j <? k))%nat as -> by bool_cases.
Qed.

Lemma mid_conseq k (Q Q' : block → footprint → Prop) b fp :
  mid k Q b fp → (∀ fpk, Q b fpk → Q' b fpk) → mid k Q' b fp.
Proof. intros (fps & Hp & Hl & Hoth & Hk) HQ. exists fps. do 3 (split; [done|]). auto. Qed.

(** What the members of a union need to know of one that was decoded. *)
Definition union_set (g : pb_field * Z) (b : block) : Prop :=
  fslot o b g = Some (MByte (f_tag g.1)) ∧
  (is_atype PB_ATYPE_POINTER g.1 = true → ∃ p, fdata o b g = ptr_bytes p).

Lemma sibling_nothing b g h :
  same_union g h → f_tag g.1 ≠ f_tag h.1 → union_set g b →
  field_val mval_at h.1 (fdata o b h) (fslot o b h) [] [].
Proof.
  intros (Hog & Hoh & Hp & Hso & Ha) Ht [Hs Hd].
  apply (fv_no_oneof _ _ _ _ (f_tag g.1)); [done| |done|].
  - unfold fslot, spos in *. by rewrite <-Hp, <-Hso.
  - intros Hph. assert (is_atype PB_ATYPE_POINTER g.1 = true) as Hpg by (unfold is_atype in *; congruence).
    destruct (Hd Hpg) as [p Hdp]. exists p. unfold fdata in *.
    by rewrite <-Hp, dlen_pointer, <-(dlen_pointer g.1).
Qed.

(** Others after a change of the field. *)
Lemma others_update k g vs b b' fps :
  layout (desc e) !! k = Some g → vss !! k = Some vs → vs ≠ [] → others k b fps →
  same_off (region g.1 (o + dpos g.2) (o + spos g.1 g.2)) b b' →
  (is_htype PB_HTYPE_ONEOF g.1 = true → union_set g b') → others k b' fps.
Proof using Hwf Hok.
  intros Hg Hvs Hne Hoth Hoff Hun j h fp ws Hj Hh Hfp Hws. specialize (Hoth j h fp ws Hj Hh Hfp Hws).
  destruct (wf_pair descs e k j g h Hwf Hg Hh ltac:(done)) as [Hap|Hu].
  - destruct (region_apart (region g.1 (o + dpos g.2) (o + spos g.1 g.2)) o b b' g h) as [Hd Hsl]; [done..|].
    rewrite Hd. by eapply field_state_slot.
  - destruct Hok as (_ & _ & _ & Huok). destruct (Huok k j g h vs ws Hg Hh Hvs Hws ltac:(done) Hu) as [->| ->]; [done|].
    assert (f_tag g.1 ≠ f_tag h.1) as Ht by (intros Ht; apply Hj; symmetry; by eapply wf_tags_inj).
    unfold field_state in *. rewrite orb_true_r in *.
    assert (fp = []) as ->.
    { pose proof Hu as (_ & Hoh & _). pose proof (htype_oneof_repeated _ Hoh). inversion Hoth; subst; try done; congruence. }
    apply (sibling_nothing b' g h Hu Ht). apply Hun. apply Hu.
Qed.

(** A reader of the field, in the struct. *)
Lemma mid_reads k g vs c bs (Q Q' : block → footprint → Prop) b fp :
  layout (desc e) !! k = Some g → vss !! k = Some vs → vs ≠ [] → mid k Q b fp →
  (∀ fpk, Q b fpk → reads c bs l (region g.1 (o + dpos g.2) (o + spos g.1 g.2)) b fpk Q') →
  (∀ b' fp', Q' b' fp' → is_htype PB_HTYPE_ONEOF g.1 = true → union_set g b') →
  reads c bs l (span o n) b fp (mid k Q').
Proof using Hwf Hok Hfit.
  intros Hg Hvs Hne (fps & Hp & Hl & Hoth & Hk) Hc Hun i Hi.
  destruct (lookup_lt_is_Some_2 fps k) as [fpk Hfpk]; [rewrite Hl; by eapply lookup_lt_Some|].
  eapply runs_perm; [by rewrite Hp; apply (concat_take_drop fps k fpk Hfpk)|]. eapply runs_weaken.
  - apply runs_frame. eapply (runs_conseq _ _ i l _ b fpk); [by apply Hc; [apply Hk|]|].
    intros r i' b' fp' HQ Hoff. exact (conj HQ Hoff).
  - by eapply region_span.
  - intros r i' b' fp' (fp0 & -> & (-> & -> & HQ) & Hoff) _. do 2 (split; [done|]). exists (<[k := fp0]> fps).
    split; [by rewrite (concat_insert fps k fpk fp0 Hfpk)|]. split; [by rewrite length_insert|]. split.
    + intros j h fpj ws Hj Hh Hfpj. rewrite list_lookup_insert_ne in Hfpj by done.
      exact (others_update k g vs b b' fps Hg Hvs Hne Hoth Hoff (Hun _ _ HQ) j h fpj ws Hj Hh Hfpj).
    + intros fp' Hfp'. rewrite list_lookup_insert_eq in Hfp' by by eapply lookup_lt_Some. by simplify_eq.
Qed.

(** ** A turn of the loop *)

Abbreviation loop := (decode_loop descs exts field_callback ext_callback noinit).

(** [decode_field], for a field that is no member of a union. *)
Definition field_body (wt : Z) (it : pb_field_iter) : M bool :=
  if is_atype PB_ATYPE_STATIC (it_field it) then decode_static_field descs exts noinit wt it
  else if is_atype PB_ATYPE_POINTER (it_field it) then decode_pointer_field descs exts noinit wt it
  else if is_atype PB_ATYPE_CALLBACK (it_field it) then decode_callback_field field_callback wt it
  else fail "invalid field type".

(** In a union of which no member is set nothing is released. *)
Lemma decode_field_reads wt k g body b fp (Q : block → footprint → Prop) :
  layout (desc e) !! k = Some g → reads (field_body wt (at_index k g)) body l (span o n) b fp Q →
  (is_htype PB_HTYPE_ONEOF g.1 = true → fslot o b g = Some (MByte 0)) →
  ∀ i, begins i body →
  runs_ok (decode_field descs exts field_callback noinit wt (at_index k g)) i l (span o n) b fp
    (λ r i' b' fp', r = (true, at_index k g) ∧ i' = i_drop (length body) i ∧ Q b' fp').
Proof using Hfit.
  intros Hg Hc Hz i Hi. destruct (iter_at_field descs e n o l k g Hfit Hg) as (Hit & _ & HpS).
  assert (runs_ok (let* ok := field_body wt (at_index k g) in ret (ok, at_index k g)) i l (span o n) b fp
    (λ r i' b' fp', r = (true, at_index k g) ∧ i' = i_drop (length body) i ∧ Q b' fp')) as Hbody.
  { eapply runs_bind; [by apply Hc|]. intros r i' b' fp' (-> & -> & HQ) _. by apply runs_ret. }
  unfold decode_field. rewrite Hit at 1. destruct (is_htype PB_HTYPE_ONEOF g.1) eqn:Ho; [|exact Hbody].
  unfold pb_release_union_field. rewrite (HpS (slot_oneof _ Ho)).
  apply runs_seq, runs_seq, (runs_ld_u8 _ _ 0); [by apply Hz|]. cbn [Z.eqb orb]. by apply runs_ret.
Qed.

(** The required fields before the [k]-th. *)
Abbreviation index_of k := (count_required (take k (desc e))).

Definition seen_after (k : nat) (g : pb_field * Z) (seen : list Z) : list Z :=
  if is_htype PB_HTYPE_REQUIRED g.1 && (index_of k <? PB_MAX_REQUIRED_FIELDS) then mark_seen (index_of k) seen else seen.

Lemma loop_turn k g wt body (Q : block → footprint → Prop) fuel it i b fp seen Qf :
  layout (desc e) !! k = Some g → loop_at descs e o l it → 0 <= wt < 8 →
  begins i (varint (key wt (f_tag g.1)) ++ body) →
  reads (field_body wt (at_index k g)) body l (span o n) b fp Q →
  (is_htype PB_HTYPE_ONEOF g.1 = true → fslot o b g = Some (MByte 0)) →
  (∀ b' fp', Q b' fp' → length b' = length b →
     runs_ok (loop fuel (at_index k g) (seen_after k g seen) 0)
       (i_drop (length (varint (key wt (f_tag g.1)) ++ body)) i) l (span o n) b' fp' Qf) →
  runs_ok (loop (S fuel) it seen 0) i l (span o n) b fp Qf.
Proof using Hwf Hfit vss.
  intros Hg Hat Hwt Hi Hc Hz Hk. pose proof (wf_tags descs e Hwf) as Htags.
  pose proof (wf_field descs e k g Hwf Hg) as (Ht & _ & _ & _ & Hext & _).
  pose proof Hi as [_ Hleft]. rewrite length_app in Hleft. pose proof (varint_length (key wt (f_tag g.1))) as Hvl.
  apply begins_app in Hi as [[[rest Hs] Hl] Hi].
  cbn [decode_loop]. apply runs_seq, runs_bytes_left. rewrite (proj2 (Z.eqb_neq _ _)) by lia.
  intros m F Ha Hm. cbn [d_in d_mem].
  rewrite (decode_tag_parses wt (f_tag g.1) i rest Hwt ltac:(lia) Hs Hl). cbn [mbind option_bind].
  assert (pb_field_iter_find it (f_tag g.1) = Some (true, at_index k g)) as ->.
  { destruct Hat as [(j & [h q] & Hh & ->)|[He ->]]; [|by rewrite He in Hg].
    destruct (iter_find_spec (desc e) (l, Z.of_nat o) (f_tag g.1) j h q Htags Hh) as [(k' & h' & q' & Hh' & [Ht' _] & Hfind)|[Hnone _]].
    - assert (k' = k) as -> by by eapply (wf_tags_inj descs e k' k (h', q') g). cbn [snd] in *.
      rewrite Hfind. by simplify_eq.
    - exfalso. rewrite Forall_lookup in Hnone. destruct g as [f p]. apply layout_field in Hg. by eapply (Hnone k f). }
  cbn [mbind option_bind]. destruct (iter_at_field descs e n o l k g Hfit Hg) as (Hit & _). rewrite Hit.
  revert m F Ha Hm. eapply runs_bind; [by apply (decode_field_reads wt k g body b fp Q)|].
  intros [ok it2] i' b' fp' (Heq & -> & HQ) [Hlb _]. simplify_eq. rewrite i_drop_drop, <-length_app. by apply Hk.
Qed.

(** ** The end of the loop *)

(** The required fields before the [k]-th have been marked. *)
Definition marked (k : nat) (seen : list Z) : Prop :=
  ∃ marks, seen = foldr mark_seen [0; 0] marks ∧ Forall (λ i, 0 <= i < count_required (desc e)) marks ∧
    ∀ i, 0 <= i < index_of k → i ∈ marks.

Lemma index_next k g :
  layout (desc e) !! k = Some g →
  index_of (S k) = index_of k + (if is_htype PB_HTYPE_REQUIRED g.1 then 1 else 0) ∧ 0 <= index_of k ∧
  index_of (S k) <= count_required (desc e).
Proof using vss.
  intros Hg. destruct g as [f p]. apply layout_field in Hg. rewrite (take_S_r _ _ _ Hg), count_required_snoc.
  split; [done|]. split; [unfold count_required; lia|]. rewrite <-count_required_snoc, <-(take_S_r _ _ _ Hg).
  rewrite <-(take_drop (S k) (desc e)) at 2. unfold count_required. rewrite filter_app, length_app. lia.
Qed.

Lemma marked_next k g seen :
  layout (desc e) !! k = Some g → marked k seen → marked k (seen_after k g seen) ∧ marked (S k) (seen_after k g seen).
Proof using Hwf vss.
  intros Hg (marks & -> & Hm & Hall). destruct (index_next k g Hg) as (Hn & H0 & Hc). unfold seen_after.
  destruct (count_range descs Hwf e) as [Hr _]. unfold PB_MAX_REQUIRED_FIELDS.
  destruct (is_htype PB_HTYPE_REQUIRED g.1); cbn [andb].
  - rewrite (proj2 (Z.ltb_lt _ _)) by lia.
    split; (exists (index_of k :: marks); split; [done|]; split; [by constructor; [lia|]|]).
    + intros i Hi. right. by apply Hall.
    + intros i Hi. destruct (decide (i = index_of k)) as [->|]; [left|right; apply Hall; lia].
  - split; (exists marks; split; [done|]; split; [done|]); [done|]. intros i Hi. apply Hall. lia.
Qed.

(** From any turn on, with the fields from [k] on still to be read. *)
Definition rest_of (k : nat) : bytes := concat (drop k (wire_fields descs (desc e) vss)).

Definition finished (i : istream) (w : bytes) (r : bool * (pb_field_iter * list Z)) (i' : istream) (b' : block)
    (fp' : footprint) : Prop :=
  r.1 = true ∧ i' = i_drop (length w) i ∧ loop_at descs e o l r.2.1 ∧ marked (length (desc e)) r.2.2 ∧
  from (length (desc e)) b' fp'.

Definition finishes (k : nat) : Prop :=
  ∀ fuel it i b fp seen, loop_at descs e o l it → begins i (rest_of k) → i_bytes_left i = zlen (rest_of k) →
    (length (rest_of k) < fuel)%nat → (o + n <= length b)%nat → from k b fp → marked k seen →
    runs_ok (loop fuel it seen 0) i l (span o n) b fp (finished i (rest_of k)).

Lemma finishes_end : finishes (length (desc e)).
Proof using Hok.
  intros fuel it i b fp seen Hat Hi Hleft Hfu Hl Hfrom Hmark. destruct fuel as [|fuel]; [lia|].
  assert (rest_of (length (desc e)) = []) as Hnil.
  { unfold rest_of. destruct Hok as [Hlv _]. by rewrite drop_ge by (rewrite wire_fields_length; lia). }
  rewrite Hnil in *. cbn [decode_loop]. apply runs_seq, runs_bytes_left. rewrite Hleft. apply runs_ret.
  split; [done|]. rewrite i_drop_0. done.
Qed.

(** ** The fields *)

Lemma wire_at k g vs :
  layout (desc e) !! k = Some g → vss !! k = Some vs → rest_of k = wire_field descs g.1 vs ++ rest_of (S k).
Proof using.
  intros Hg Hvs. destruct g as [f p]. apply layout_field in Hg. unfold rest_of.
  by rewrite (drop_S _ _ _ (wire_fields_lookup descs _ _ _ _ _ Hg Hvs)).
Qed.

Lemma rest_length k : zlen (rest_of k) <= zlen (wire descs e vss).
Proof using.
  unfold rest_of, wire. rewrite <-(take_drop k (wire_fields descs (desc e) vss)) at 2. rewrite concat_app, length_app. lia.
Qed.

Lemma finished_weaken w w' i r i' b' fp' :
  finished (i_drop (length w) i) w' r i' b' fp' → finished i (w ++ w') r i' b' fp'.
Proof using.
  intros (Hr & -> & Hat & Hm & Hf). split; [done|]. split; [by rewrite i_drop_drop, length_app|]. done.
Qed.

Section Step.
Context (k : nat) (g : pb_field * Z) (vs : list mval).
Context (Hg : layout (desc e) !! k = Some g) (Hvs : vss !! k = Some vs) (Hnext : finishes (S k)).

Abbreviation tag_bytes wt := (varint (key wt (f_tag g.1))).
Abbreviation data_at := (o + dpos g.2)%nat.
Abbreviation slot_at := (o + spos g.1 g.2)%nat.

Lemma step_at : loop_at descs e o l (at_index k g).
Proof using Hg. left. by exists k, g. Qed.

Lemma step_wf : field_wf descs e g.1.
Proof using Hwf Hg. by eapply wf_field. Qed.

Lemma step_nothing : vs = [] → finishes k.
Proof using Hwf Hok Hg Hvs Hnext.
  intros -> fuel it i b fp seen Hat Hi Hleft Hfu Hl Hfrom (marks & -> & Hm & Hall).
  rewrite (wire_at k g [] Hg Hvs) in *. cbn [app wire_field wire_join map] in *.
  apply Hnext; try done; [by apply from_nothing|]. exists marks. split; [done|]. split; [done|].
  destruct (index_next k g Hg) as (Hn & _ & _). rewrite Hn. destruct (is_htype PB_HTYPE_REQUIRED g.1) eqn:Hreq.
  - exfalso. destruct Hok as (_ & Hc & _). destruct g as [f p]. cbn [fst] in *. apply layout_field in Hg.
    specialize (Hc k f [] Hg Hvs). unfold count_ok in Hc. rewrite Hreq in Hc. done.
  - intros j Hj. apply Hall. lia.
Qed.

(** A field with one record on the wire. *)
Lemma step_record wt body :
  vs ≠ [] → 0 <= wt < 8 → wire_field descs g.1 vs = tag_bytes wt ++ body →
  (∀ b, room b g.1 data_at slot_at → field_fresh (fresh descs) g.1 (fdata o b g) (fslot o b g) →
     reads (field_body wt (at_index k g)) body l (region g.1 data_at slot_at) b []
       (has_values descs g.1 data_at slot_at vs)) →
  (∀ b fp, has_values descs g.1 data_at slot_at vs b fp → is_htype PB_HTYPE_ONEOF g.1 = true → union_set g b) →
  finishes k.
Proof using Hwf Hfit Hok Hg Hvs Hnext.
  intros Hne Hwt Hwire Hc Hun fuel it i b fp seen Hat Hi Hleft Hfu Hl Hfrom Hmark.
  rewrite (wire_at k g vs Hg Hvs), Hwire in *. destruct fuel as [|fuel]; [lia|].
  pose proof (from_mid k g vs b fp Hg Hvs Hfrom) as Hmid.
  assert (mid k (λ b fp, fp = [] ∧ field_fresh (fresh descs) g.1 (fdata o b g) (fslot o b g)) b fp) as Hmid'.
  { eapply mid_conseq; [exact Hmid|]. intros fpk. unfold field_state. by destruct vs. }
  apply begins_app in Hi as Hi2. destruct Hi2 as [Hi1 Hi2].
  apply (loop_turn k g wt body (mid k (has_values descs g.1 data_at slot_at vs))); try done.
  - apply (mid_reads k g vs _ _ _ _ b fp Hg Hvs Hne Hmid'); [|exact Hun].
    intros fpk [-> Hfr]. apply Hc; [by eapply iter_at_room|done].
  - intros Ho. destruct Hmid' as (fps & _ & Hlen & _ & Hk).
    destruct (lookup_lt_is_Some_2 fps k) as [fpk Hfpk]; [rewrite Hlen; by eapply lookup_lt_Some|].
    destruct (Hk fpk Hfpk) as [_ [Hz _]]. by apply Hz, slot_oneof.
  - intros b' fp' Hmid2 Hlb. eapply runs_conseq.
    + apply Hnext.
      * apply step_at.
      * done.
      * simpl. rewrite Hleft, !length_app. lia.
      * rewrite !length_app in Hfu. pose proof (varint_length (key wt (f_tag g.1))). lia.
      * by rewrite Hlb.
      * by eapply mid_from.
      * by apply marked_next.
    + intros r i' b2 fp2 Hfin _. by apply finished_weaken.
Qed.

(** An array whose items are records of their own. *)
Lemma step_items wt (St : list mval → block → footprint → Prop) :
  0 <= wt < 8 → is_htype PB_HTYPE_REPEATED g.1 = true →
  wire_field descs g.1 vs = concat (map (λ v, tag_bytes wt ++ wval g.1 v) vs) →
  (∀ b, field_fresh (fresh descs) g.1 (fdata o b g) (fslot o b g) → St [] b []) →
  (∀ b fp, St vs b fp → has_values descs g.1 data_at slot_at vs b fp) →
  (∀ cur v vs' b fp, vs = cur ++ v :: vs' → room b g.1 data_at slot_at → St cur b fp →
     reads (field_body wt (at_index k g)) (wval g.1 v) l (region g.1 data_at slot_at) b fp (St (cur ++ [v]))) →
  vs ≠ [] → finishes k.
Proof using Hwf Hfit Hok Hg Hvs Hnext.
  intros Hwt Hr Hwire Hinit Hend Hc Hne.
  assert (is_htype PB_HTYPE_ONEOF g.1 = false) as Hno by by apply wf_not_oneof.
  assert (∀ seen, seen_after k g seen = seen) as Hseen.
  { intros seen. unfold seen_after. by assert (is_htype PB_HTYPE_REQUIRED g.1 = false) as ->
      by (unfold is_htype in *; by apply Z.eqb_eq in Hr as ->). }
  assert (∀ vs' cur fuel it i b fp seen, vs = cur ++ vs' → loop_at descs e o l it →
    begins i (concat (map (λ v, tag_bytes wt ++ wval g.1 v) vs') ++ rest_of (S k)) →
    i_bytes_left i = zlen (concat (map (λ v, tag_bytes wt ++ wval g.1 v) vs') ++ rest_of (S k)) →
    (length (concat (map (λ v, tag_bytes wt ++ wval g.1 v) vs') ++ rest_of (S k)) < fuel)%nat →
    (o + n <= length b)%nat → mid k (St cur) b fp → marked (S k) seen →
    runs_ok (loop fuel it seen 0) i l (span o n) b fp
      (finished i (concat (map (λ v, tag_bytes wt ++ wval g.1 v) vs') ++ rest_of (S k)))) as Hloop.
  { induction vs' as [|v vs' IH]; intros cur fuel it i b fp seen Heq Hat Hi Hleft Hfu Hl Hmid Hmark; cbn [map concat app] in *.
    - rewrite app_nil_r in Heq. subst cur. apply Hnext; try done. apply (mid_from k g vs); [done|done|].
      eapply mid_conseq; [exact Hmid|]. intros fpk. apply Hend.
    - rewrite <-!app_assoc in *. destruct fuel as [|fuel]; [lia|]. rewrite app_assoc in Hi.
      apply begins_app in Hi as Hi2. destruct Hi2 as [Hi1 Hi2].
      apply (loop_turn k g wt (wval g.1 v) (mid k (St (cur ++ [v])))); try done; [|congruence|].
      + apply (mid_reads k g vs _ _ (St cur) _ b fp Hg Hvs Hne Hmid); [|congruence].
        intros fpk HSt. apply (Hc cur v vs'); [done|by eapply iter_at_room|done].
      + intros b' fp' Hmid2 Hlb. rewrite Hseen. eapply runs_conseq.
        * apply (IH (cur ++ [v])); try done.
          -- by rewrite <-app_assoc.
          -- apply step_at.
          -- simpl. rewrite Hleft, !length_app. lia.
          -- rewrite !length_app in *. pose proof (varint_length (key wt (f_tag g.1))). lia.
          -- by rewrite Hlb.
        * intros r i' b2 fp2 Hfin _. rewrite app_assoc. by apply finished_weaken. }
  intros fuel it i b fp seen Hat Hi Hleft Hfu Hl Hfrom Hmark.
  rewrite (wire_at k g vs Hg Hvs), Hwire in *. apply (Hloop vs []); try done.
  - eapply mid_conseq; [by apply from_mid|]. intros fpk. unfold field_state. destruct vs; [done|].
    intros [-> Hfr]. by apply Hinit.
  - rewrite <-(Hseen seen). by apply marked_next.
Qed.

(** *** The cases *)

Lemma step_count : count_ok g.1 vs.
Proof using Hok Hg Hvs.
  destruct Hok as (_ & Hc & _). destruct g as [f p]. cbn [fst] in *. apply layout_field in Hg. by eapply Hc.
Qed.

Lemma step_val v : v ∈ vs → val_ok descs g.1 v.
Proof using Hok Hg Hvs.
  intros Hin. destruct Hok as (_ & _ & Hv & _). destruct g as [f p]. cbn [fst] in *. apply layout_field in Hg. by eapply Hv.
Qed.

Lemma step_decodable v : v ∈ vs → decodable descs bound g.1 v.
Proof using Hok Hbound Hg Hvs.
  intros Hin. split; [by apply step_val|]. pose proof (value_length descs g.1 vs v Hin). pose proof (rest_length k) as Hr.
    rewrite (wire_at k g vs Hg Hvs), length_app in Hr. lia.
Qed.

Lemma step_single v : is_htype PB_HTYPE_REPEATED g.1 = false → vs = [v] → finishes k.
Proof using All.
  intros Hr Heq. assert (v ∈ vs) as Hin by (rewrite Heq; left).
  pose proof (iter_at_field descs e n o l k g Hfit Hg) as Hat. pose proof Hat as (Hit & _).
  pose proof (step_decodable v Hin) as Hv. pose proof step_wf as Hf.
  apply (step_record (wire_type_of g.1) (wval g.1 v)).
  - by rewrite Heq.
  - apply wire_type_of_range.
  - rewrite Heq. by apply wire_single.
  - intros b Hroom Hfr. rewrite Heq. unfold field_body. rewrite Hit.
    destruct (is_atype PB_ATYPE_STATIC g.1) eqn:Ha; [by apply (static_single_reads descs exts Hwf noinit bound Hdown e)|].
    assert (is_atype PB_ATYPE_POINTER g.1 = true) as Hp by (destruct Hf as (_ & _ & _ & _ & _ & [|] & _); congruence).
    rewrite Hp. by apply (pointer_single_reads descs exts Hwf noinit bound Hdown e).
  - intros b fp Hh Ho. rewrite Heq in Hh. by eapply union_value.
Qed.

(** The payload of a packed array. *)
Lemma packed_length :
  is_htype PB_HTYPE_REPEATED g.1 = true → is_packable g.1 = true → zlen (concat (map (wval g.1) vs)) < 2 ^ 32.
Proof using Hwf Hok Hg Hvs.
  intros Hr Hpk. assert (zlen vs <= 255) as Hlen.
  { pose proof step_count as Hc. pose proof step_wf as (_ & _ & Has & _). unfold count_ok in Hc. rewrite Hr in Hc.
    assert (is_htype PB_HTYPE_REQUIRED g.1 = false) as Hq by (unfold is_htype in *; by apply Z.eqb_eq in Hr as ->).
    rewrite Hq in Hc. unfold PB_SIZE_MAX in Hc. case_match; lia. }
  assert (∀ ws : list mval, Forall (val_ok descs g.1) ws → zlen (concat (map (wval g.1) ws)) <= 10 * zlen ws) as Hall.
  { induction 1 as [|v ws Hv _ IH]; [done|]. cbn [map concat]. rewrite length_app. cbn [length].
    assert (zlen (wval g.1 v) <= 10); [|lia]. destruct (packable_ltype _ Hpk) as (Hns & _).
    inversion Hv as [w _ Hp|]; subst; [|congruence]. destruct v as [z|bs|]; [apply wire_int_length|destruct Hp; congruence|done]. }
  assert (Forall (val_ok descs g.1) vs) as Hvals by (apply Forall_forall; intros v Hv; by apply (step_val v)).
  specialize (Hall vs Hvals). lia.
Qed.

(** A packed array has one record. *)
Lemma step_packed : is_htype PB_HTYPE_REPEATED g.1 = true → is_packable g.1 = true → vs ≠ [] → finishes k.
Proof using All.
  intros Hr Hpk Hne. pose proof (iter_at_field descs e n o l k g Hfit Hg) as Hat. pose proof Hat as (Hit & _).
  pose proof step_wf as Hf. pose proof step_count as Hc. unfold count_ok in Hc.
  assert (is_htype PB_HTYPE_REQUIRED g.1 = false) as Hq by (unfold is_htype in *; by apply Z.eqb_eq in Hr as ->).
  rewrite Hq, Hr in Hc.
  assert (Forall (decodable descs bound g.1) vs) as Hv by (apply Forall_forall; intros v Hv; by apply step_decodable).
  pose proof (packed_length Hr Hpk) as H32.
  apply (step_record PB_WT_STRING (delimited (concat (map (wval g.1) vs)))); [done|done| | |].
  - unfold wire_field, wire_join. rewrite Hr, Hpk. by destruct vs.
  - intros b Hroom Hfr. destruct Hfr as (Hs & Hn & _). specialize (Hs (slot_repeated _ Hr)).
    unfold field_body. rewrite Hit. destruct (is_atype PB_ATYPE_STATIC g.1) eqn:Ha.
    + eapply reads_weaken.
      * by apply (static_run_reads descs exts Hwf noinit bound Hdown e g.1 _ l _ _ Hf Hat Ha Hr), array_state_nil with (e := e).
      * done.
      * intros b' fp' [-> Hst] _. by apply (array_state_values descs e).
    + assert (is_atype PB_ATYPE_POINTER g.1 = true) as Hp by (destruct Hf as (_ & _ & _ & _ & _ & [|] & _); congruence).
      rewrite Hp. specialize (Hn Hp). unfold fdata in Hn. rewrite dlen_pointer in Hn by done. eapply reads_weaken.
      * by apply (pointer_run_reads descs exts Hwf noinit bound Hdown e g.1 _ l _ _ Hf Hat Hp Hr).
      * done.
      * intros b' fp' Hst _. by apply pointer_state_values.
  - intros b fp _ Ho%htype_oneof_repeated. congruence.
Qed.

(** Other arrays have one for each item. *)
Lemma step_array : is_htype PB_HTYPE_REPEATED g.1 = true → is_packable g.1 = false → vs ≠ [] → finishes k.
Proof using All.
  intros Hr Hpk Hne. pose proof (iter_at_field descs e n o l k g Hfit Hg) as Hat. pose proof Hat as (Hit & _).
  pose proof step_wf as Hf. pose proof step_count as Hc. unfold count_ok in Hc.
  assert (is_htype PB_HTYPE_REQUIRED g.1 = false) as Hq by (unfold is_htype in *; by apply Z.eqb_eq in Hr as ->).
  rewrite Hq, Hr in Hc.
  assert (wire_field descs g.1 vs = concat (map (λ v, tag_bytes (wire_type_of g.1) ++ wval g.1 v) vs)) as Hwire.
  { unfold wire_field, wire_join. rewrite Hr, Hpk. cbn [andb]. rewrite map_map. by destruct vs. }
  destruct (is_atype PB_ATYPE_STATIC g.1) eqn:Ha.
  - apply (step_items (wire_type_of g.1) (λ cur b fp, fp = [] ∧ array_state descs g.1 data_at slot_at cur b)); try done.
    + apply wire_type_of_range.
    + intros b (Hs & _). split; [done|]. apply (array_state_nil descs e); [done|]. by apply Hs, slot_repeated.
    + intros b fp [-> Hst]. by apply (array_state_values descs e).
    + intros cur v vs' b fp Heq Hroom [-> Hst]. unfold field_body. rewrite Hit, Ha.
      assert (v ∈ vs) as Hin by (rewrite Heq; apply elem_of_app; right; left).
      apply (static_append_reads descs exts Hwf noinit bound Hdown e g.1 _ l _ _ Hf Hat Ha Hr); try done.
      * rewrite Heq, length_app in Hc. simpl in Hc. lia.
      * by apply step_decodable.
  - assert (is_atype PB_ATYPE_POINTER g.1 = true) as Hp by (destruct Hf as (_ & _ & _ & _ & _ & [|] & _); congruence).
    apply (step_items (wire_type_of g.1) (pointer_state descs g.1 data_at slot_at)); try done.
    + apply wire_type_of_range.
    + intros b (Hs & Hn & _). specialize (Hn Hp). unfold fdata in Hn. rewrite dlen_pointer in Hn by done.
      apply pointer_state_nil; [by apply Hs, slot_repeated|done].
    + intros b fp Hst. by apply pointer_state_values.
    + intros cur v vs' b fp Heq Hroom Hst. unfold field_body. rewrite Hit, Ha, Hp.
      assert (v ∈ vs) as Hin by (rewrite Heq; apply elem_of_app; right; left).
      apply (pointer_append_reads descs exts Hwf noinit bound Hdown e g.1 _ l _ _ Hf Hat Hp Hr); try done.
      * rewrite Heq, length_app in Hc. simpl in Hc. lia.
      * by apply step_decodable.
Qed.

Lemma step_any : finishes k.
Proof using All.
  destruct (decide (vs = [])) as [Hnil|Hne]; [by apply step_nothing|].
  destruct (is_htype PB_HTYPE_REPEATED g.1) eqn:Hr.
  - destruct (is_packable g.1) eqn:Hpk; [by apply step_packed|by apply step_array].
  - pose proof step_count as Hc. unfold count_ok in Hc. rewrite Hr in Hc.
    assert (zlen vs = 1) as H1 by (destruct vs; [done|]; simpl in *; case_match; lia).
    assert (∃ v, vs = [v]) as [v Heq]; [|by apply (step_single v)].
    clear -H1. destruct vs as [|v [|w vs']]; [done|by exists v|simpl in H1; lia].
Qed.

End Step.

(** ** The message *)

Lemma finishes_all k : (k <= length (desc e))%nat → finishes k.
Proof using Hwf Hdown Hfit Hok Hbound.
  intros Hk. remember (length (desc e) - k)%nat as c eqn:Hc. revert k Hk Hc. induction c as [|c IH]; intros k Hk Hc.
  - replace k with (length (desc e)) by lia. apply finishes_end.
  - destruct (layout_lookup (desc e) k) as (f & p & Hg); [lia|].
    destruct (lookup_lt_is_Some_2 vss k) as [vs Hvs]; [destruct Hok as [-> _]; lia|].
    apply (step_any k (f, p) vs Hg Hvs). apply IH; lia.
Qed.

(** A struct in its default state has all its fields to be read. *)
Lemma fresh_from b : fresh descs e (mem_read o n b) → from 0 b [].
Proof using Hwf Hfit Hok.
  intros Hfr. exists (replicate (length (layout (desc e))) []).
  assert (concat (replicate (length (layout (desc e))) ([] : footprint)) = []) as ->
    by by apply concat_nil_Forall, Forall_replicate.
  split; [done|]. split; [by rewrite length_replicate|]. intros j g fp vs Hg Hfp Hvs.
  apply lookup_replicate in Hfp as [-> _]. pose proof (proj1 (fresh_struct descs e o n b Hfit) Hfr j g Hg) as Hf.
  unfold field_state. cbn [Nat.ltb Nat.leb orb]. destruct vs as [|v vs]; [|done].
  apply (fresh_nothing e); [by eapply wf_field| |done]. apply not_true_is_false. intros Hreq.
  destruct Hok as (_ & Hc & _). destruct g as [f p]. cbn [fst] in *. apply layout_field in Hg.
  specialize (Hc j f [] Hg Hvs). unfold count_ok in Hc. by rewrite Hreq in Hc.
Qed.

(** A struct whose fields have been read holds the message. *)
Lemma from_value b fp :
  from (length (desc e)) b fp → ∃ fp', fp ≡ₚ fp' ∧ mval_at e (mem_read o n b) fp' vss.
Proof using Hfit Hok.
  intros (fps & Hp & Hl & Hst). exists (concat fps). split; [done|]. destruct Hok as [Hlv _].
  apply msg_val_intro; [done|done|]. intros k g fpk vs Hg Hfp Hvs. specialize (Hst k g fpk vs Hg Hfp Hvs).
  pose proof (lookup_lt_Some _ _ _ Hg) as Hk. rewrite layout_length in Hk. unfold field_state in Hst.
  rewrite (proj2 (Nat.ltb_lt _ _) Hk) in Hst. cbn [orb] in Hst. pose proof (fits_range _ _ _ _ _ Hfit Hg) as Hr.
  rewrite (fdata_read o) by done. eapply field_val_slot; [|exact Hst]. intros Hs. by apply fslot_read.
Qed.

Lemma level_reads i b :
  begins i (wire descs e vss) → i_bytes_left i = zlen (wire descs e vss) → (o + n <= length b)%nat →
  fresh descs e (mem_read o n b) →
  runs_ok (pb_decode_noinit_with descs exts field_callback ext_callback noinit e (l, Z.of_nat o)) i l (span o n) b []
    (λ r i' b' fp', r = true ∧ i' = i_drop (length (wire descs e vss)) i ∧ mval_at e (mem_read o n b') fp' vss).
Proof using Hwf Hdown Hfit Hok Hbound.
  intros Hi Hleft Hl Hfr m F Ha Hm. unfold pb_decode_noinit_with. cbn [d_in]. revert m F Ha Hm.
  eapply runs_bind; [apply (finishes_all 0); try done|].
  - lia.
  - by apply loop_begin.
  - rewrite Hleft. unfold rest_of. rewrite drop_0. unfold wire. lia.
  - by apply fresh_from.
  - exists []. split; [done|]. split; [constructor|]. intros i0 Hi0. simpl in Hi0. unfold count_required in Hi0. simpl in Hi0. lia.
  - intros [ok [it seen]] i' b' fp' (Hr & -> & Hat & (marks & Hs & Hm & Hall) & Hfrom) _. cbn [fst snd] in *. subst ok seen.
    rewrite (loop_count descs Hwf e o l it Hat). destruct (count_range descs Hwf e) as [Hc Hn].
    destruct (required_fields_recorded _ marks Hc Hn Hm) as (ok & Hseen & Hok'). rewrite Hseen.
    assert (ok = true) as -> by (apply Hok'; intros j Hj; apply Hall; by rewrite take_ge).
    destruct (from_value b' fp' Hfrom) as (fp2 & Hp & Hv).
    apply runs_perm_post with (Q := λ r i2 b2 fp3, r = true ∧ i2 = i_drop (length (rest_of 0)) i ∧ b2 = b' ∧ fp3 = fp').
    + by apply runs_ret.
    + intros r i2 b2 fp3 (-> & -> & -> & ->) _. by exists fp2.
Qed.

End Level.

(** ** All levels *)

Abbreviation noinit_levels := (noinit_at descs exts field_callback ext_callback).

Lemma noinit_level fuel : noinit_reads descs (noinit_levels fuel) (Z.of_nat fuel).
Proof using Hwf.
  induction fuel as [|fuel IH]; intros d n o l b i vss Hlt Hi Hleft Hd Hfit Hl Hok Hfr; [lia|].
  apply (level_reads (noinit_levels fuel) (Z.of_nat fuel) IH d n o l Hfit vss Hok); [lia|done..].
Qed.

(** [pb_decode], into any memory. *)
Lemma pb_decode_reads d n o l b i vss :
  (d < N)%nat → msg_fits descs d n → (o + n <= length b)%nat → msg_ok descs d vss →
  begins i (wire descs d vss) → i_bytes_left i = zlen (wire descs d vss) →
  runs_ok (pb_decode descs exts field_callback ext_callback d (l, Z.of_nat o)) i l (span o n) b []
    (λ r i' b' fp', r = true ∧ i' = i_drop (length (wire descs d vss)) i ∧ mval_at d (mem_read o n b') fp' vss).
Proof using Hwf.
  intros Hd Hfit Hl Hok Hi Hleft. unfold pb_decode, pb_decode_with.
  eapply runs_bind; [by apply (set_to_defaults_fresh false descs exts Hwf d n o l b i)|].
  intros [] i' b' fp' (-> & -> & Hfr) [Hlb _]. eapply runs_bind.
  - intros m F Ha Hm. unfold pb_decode_noinit. cbn [d_in]. revert m F Ha Hm.
    apply (noinit_level (S (Z.to_nat (i_bytes_left i))) d n o l b' i vss); try done; lia.
  - intros r i' b2 fp2 (-> & -> & Hm) _. by apply runs_ret.
Qed.

End Rebuild.
