(* ===== verification/PbEncoded.v ===== *)
(** The encoder writes the wire form of the message a struct holds: exactly its
    bytes when the stream has room for them, and nothing past the end of the
    buffer when it has not. *)

From S2P Require Import Prelude PbStream PbMem PbFields PbDecode PbShape PbRuns PbOwn PbPlace PbDefaults PbRelease PbValues PbMessages PbEncode PbWire.

Open Scope Z_scope.

(** ** Wire types *)

Lemma wiretype_for_spec descs e f :
  field_wf descs e f → wiretype_for f = Some (wire_type_of f) ∧ 0 <= wire_type_of f < 8.
Proof.
  intros (_ & _ & _ & Hlt & Hext & _). unfold wiretype_for, wire_type_of, is_packable.
  unfold is_ltype, PB_WT_32BIT, PB_WT_64BIT, PB_WT_STRING, PB_WT_VARINT in *. revert Hext.
  destruct (ltype_cases f Hlt) as [H|[H|[H|[H|[H|[H|[H|[H|[H|H]]]]]]]]]; unfold is_ltype in H; apply Z.eqb_eq in H;
    rewrite H; intros; (split; [done|simpl; lia]) || done.
Qed.

(** ** Reading the memory *)

(** The descriptors give every optional, repeated or union field a [has_],
    [_count] or [which_] member, and allocated single fields none. *)
Definition size_members (f : pb_field) : Prop :=
  (is_atype PB_ATYPE_POINTER f = true → has_slot f = false → f_size_offset f = 0) ∧
  (is_htype PB_HTYPE_REPEATED f = true → is_atype PB_ATYPE_STATIC f = true → 0 < f_array_size f).

Definition sized_descs (descs : list (list pb_field)) : Prop := Forall (Forall size_members) descs.

#[export] Instance size_members_dec f : Decision (size_members f).
Proof. unfold size_members. apply _. Defined.

#[export] Instance sized_descs_dec descs : Decision (sized_descs descs).
Proof. unfold sized_descs. apply _. Defined.

(** [b] has the bytes [bs] at [a]. *)
Definition bytes_at (b : block) (a : nat) (bs : bytes) : Prop :=
  (a + length bs <= length b)%nat ∧ mem_read a (length bs) b = MByte <$> bs.

Lemma bytes_at_app b a bs bs' : bytes_at b a (bs ++ bs') → bytes_at b a bs ∧ bytes_at b (a + length bs) bs'.
Proof.
  unfold bytes_at. rewrite length_app, fmap_app. intros [Hl Hr].
  assert (mem_read a (length bs + length bs') b = mem_read a (length bs) b ++ mem_read (a + length bs) (length bs') b) as Hs.
  { unfold mem_read. rewrite <-(take_drop (length bs) (take (length bs + length bs') (drop a b))).
    rewrite take_take, skipn_firstn_comm, drop_drop. do 2 f_equal; lia. }
  rewrite Hs in Hr. apply app_inj_1 in Hr as [H1 H2]; [|rewrite length_fmap, mem_read_length; lia].
  split; (split; [lia|done]).
Qed.

(** A value at [a], in a member of [n] bytes. *)
Lemma holds_at f v a n b : (a + n <= length b)%nat → holds f v (mem_read a n b) → bytes_at b a (stored f v).
Proof.
  intros Hl [rest Hr]. assert (n = length (stored f v) + length rest)%nat as ->.
  { rewrite <-(length_fmap MByte (stored f v)), <-length_app, <-Hr, mem_read_length; lia. }
  split; [lia|]. rewrite <-(take_app_length' (MByte <$> stored f v) rest (length (stored f v))) by by rewrite length_fmap.
  rewrite <-Hr. unfold mem_read. rewrite take_take. f_equal. lia.
Qed.

Section Loads.
Context (m : mem).

Lemma load_live l b a n :
  m_heap m !! l = Some b → (a + n <= length b)%nat → load m (l, Z.of_nat a) n = Some (mem_read a n b).
Proof.
  intros Hb Hl. unfold load. simpl. rewrite Hb. simpl. unfold in_block. bool_cases. simpl. by rewrite Nat2Z.id.
Qed.

Lemma load_bytes_live l b a bs :
  m_heap m !! l = Some b → bytes_at b a bs → load_bytes m (l, Z.of_nat a) (length bs) = Some bs.
Proof.
  intros Hb [Hl Hr]. unfold load_bytes. rewrite (load_live l b) by done. simpl. rewrite Hr. apply mapM_bytes.
Qed.

Lemma load_u8_live l b a v :
  m_heap m !! l = Some b → b !! a = Some (MByte v) → load_u8 m (l, Z.of_nat a) = Some v.
Proof.
  intros Hb Hv. pose proof (lookup_lt_Some _ _ _ Hv). unfold load_u8.
  pose proof (load_bytes_live l b a [v] Hb) as Hld. cbn [length] in Hld. rewrite Hld; [done|].
  split; [simpl; lia|]. by apply mem_read_one.
Qed.

Lemma load_ptr_live l b a p :
  m_heap m !! l = Some b → (a + PTR_SIZE <= length b)%nat → mem_read a PTR_SIZE b = ptr_bytes p →
  load_ptr m (l, Z.of_nat a) = Some p.
Proof.
  intros Hb Hl Hp. unfold load_ptr. rewrite (load_live l b) by done. cbn [mbind option_bind].
  rewrite Hp. apply decode_ptr_bytes.
Qed.

Lemma string_length_spec l b bs : m_heap m !! l = Some b → Forall (λ c, c ≠ 0) bs → ∀ fuel a max_size size,
  bytes_at b a (bs ++ [0]) → size + zlen bs < max_size → (length bs < fuel)%nat →
  string_length m fuel max_size size (l, Z.of_nat a) = Some (size + zlen bs).
Proof.
  intros Hb. induction bs as [|c bs IH]; intros Hnz fuel a max_size size Hat Hm Hf; (destruct fuel as [|fuel]; [simpl in Hf; lia|]);
    cbn [string_length length] in *; rewrite (proj2 (Z.ltb_lt _ _)) by lia.
  - rewrite (load_u8_live l b a 0); [|done|].
    + cbn [mbind option_bind]. rewrite Z.eqb_refl. f_equal. lia.
    + apply mem_read_one. by destruct Hat as [_ Hr].
  - apply Forall_cons in Hnz as [Hc Hnz]. apply (bytes_at_app b a [c]) in Hat as [Hc' Hat].
    rewrite (load_u8_live l b a c); [|done|apply mem_read_one; by destruct Hc'].
    cbn [mbind option_bind]. rewrite (proj2 (Z.eqb_neq _ _)) by done.
    assert (padd (l, Z.of_nat a) 1 = (l, Z.of_nat (a + length [c]))) as -> by (rewrite padd_nat by lia; do 2 f_equal; simpl; lia).
    rewrite (IH Hnz); [f_equal; lia|done|lia|lia].
Qed.

End Loads.

(** ** Values *)

Section Encoded.
Context (descs : list (list pb_field)) (m : mem).
Context (Hwf : wf_descs descs) (Hsize : sized_descs descs).

Abbreviation desc := (descriptor descs).
Abbreviation N := (length descs).
Abbreviation wval := (wire_value descs).

Definition live (fp : footprint) : Prop := Forall (λ lb, m_heap m !! lb.1 = Some lb.2) fp.

Lemma emits_from_mem {A} (r : option A) (k : A → enc) x w : r = Some x → emits (k x) w → emits (from_mem r k) w.
Proof. intros -> Hk. exact Hk. Qed.

Lemma load_uint_live l b a n z :
  m_heap m !! l = Some b → bytes_at b a (le_bytes n z) →
  load_uint m (VLoc l (Z.of_nat a)) n = Some (uwrap (8 * Z.of_nat n) z).
Proof.
  intros Hb Hat. unfold load_uint. cbn [target mbind option_bind].
  pose proof (load_bytes_live m l b a _ Hb Hat) as Hld. rewrite length_le_bytes in Hld. rewrite Hld.
  cbn [mbind option_bind]. by rewrite of_le_bytes.
Qed.

Lemma load_sint_live l b a n z :
  m_heap m !! l = Some b → bytes_at b a (le_bytes n z) → (0 < n)%nat → is_sint (8 * Z.of_nat n) z →
  load_sint m (VLoc l (Z.of_nat a)) n = Some z.
Proof.
  intros Hb Hat Hn Hz. unfold load_sint. rewrite (load_uint_live l b a n z Hb Hat). simpl.
  rewrite swrap_uwrap, swrap_id by (done || lia). done.
Qed.

(** A number of the size of the field. *)
Lemma sized_emits (load : nat → option Z) (enc_value : Z → enc) (f : pb_field) x w :
  f_data_size f ∈ [1; 2; 4; 8] → load (Z.to_nat (f_data_size f)) = Some x → emits (enc_value x) w →
  emits (if f_data_size f =? 1 then let^ value := load 1%nat in enc_value value
    else if f_data_size f =? 2 then let^ value := load 2%nat in enc_value value
    else if f_data_size f =? 4 then let^ value := load 4%nat in enc_value value
    else if f_data_size f =? 8 then let^ value := load 8%nat in enc_value value
    else ofail "invalid data_size") w.
Proof.
  rewrite !elem_of_cons, elem_of_nil. intros [Hd|[Hd|[Hd|[Hd|[]]]]] Hx He; rewrite Hd in *;
    by eapply emits_from_mem.
Qed.

Lemma int_emits e f l b a z :
  field_wf descs e f → is_packable f = true → int_ok f z → m_heap m !! l = Some b →
  bytes_at b a (le_bytes (Z.to_nat (f_data_size f)) z) → ∀ down,
  emits (PB_ENCODERS m down f (VLoc l (Z.of_nat a))) (wire_int f z).
Proof using Hwf.
  intros Hf Hpk [Hds Hz] Hb Hat down. pose proof Hf as (_ & Hds0 & _ & Hlt & Hext & _ & H32 & H64 & _).
  destruct (packable_ltype f Hpk) as (Hns & Hsb & Hfl).
  apply orb_false_iff in Hsb as [Hs Hby]. unfold is_submsg in Hns.
  unfold PB_ENCODERS, wire_int.
  destruct (is_ltype PB_LTYPE_VARINT f) eqn:E1; [|destruct (is_ltype PB_LTYPE_UVARINT f) eqn:E2;
    [|destruct (is_ltype PB_LTYPE_SVARINT f) eqn:E3; [|destruct (is_ltype PB_LTYPE_FIXED32 f) eqn:E4;
      [|destruct (is_ltype PB_LTYPE_FIXED64 f) eqn:E5]]]].
  - cbn [orb] in Hz. apply (sized_emits (load_sint m (VLoc l (Z.of_nat a))) (λ v, pb_encode_varint (u64 v)) f z); [done| |].
    + apply (load_sint_live l b a); [done|done|lia|]. rewrite Z2Nat.id by lia. done.
    + apply emits_varint, uwrap_range. lia.
  - assert (is_ltype PB_LTYPE_SVARINT f = false ∧ is_ltype PB_LTYPE_FIXED32 f = false ∧ is_ltype PB_LTYPE_FIXED64 f = false)
      as (-> & -> & ->) by (unfold is_ltype in *; by apply Z.eqb_eq in E2 as ->).
    assert (is_ltype PB_LTYPE_SVARINT f = false) as E3 by (unfold is_ltype in *; by apply Z.eqb_eq in E2 as ->).
    rewrite E3 in Hz. cbn [orb] in Hz.
    apply (sized_emits (load_uint m (VLoc l (Z.of_nat a))) (λ v, pb_encode_varint v) f z); [done| |].
    + rewrite (load_uint_live l b a _ z) by done. rewrite Z2Nat.id by lia. by rewrite uwrap_id.
    + apply emits_varint. revert Hz. apply is_uint_le. revert Hds. rewrite !elem_of_cons, elem_of_nil. lia.
  - cbn [orb] in Hz. apply (sized_emits (load_sint m (VLoc l (Z.of_nat a))) (λ v, pb_encode_svarint v) f z); [done| |].
    + apply (load_sint_live l b a); [done|done|lia|]. rewrite Z2Nat.id by lia. done.
    + apply emits_svarint. revert Hz. revert Hds. rewrite !elem_of_cons, elem_of_nil. unfold is_sint.
      intros [ ->|[ ->|[ ->|[ ->|[]]]]]; simpl; lia.
  - cbn [orb] in Hz. rewrite (H32 eq_refl) in *. unfold pb_enc_fixed32. eapply emits_from_mem.
    + by apply (load_uint_live l b a 4 z).
    + change (8 * Z.of_nat 4) with 32. rewrite uwrap_id by done. by apply emits_fixed32.
  - cbn [orb] in Hz. rewrite (H64 eq_refl) in *. unfold pb_enc_fixed64. eapply emits_from_mem.
    + by apply (load_uint_live l b a 8 z).
    + change (8 * Z.of_nat 8) with 64. rewrite uwrap_id by done. by apply emits_fixed64.
  - exfalso. destruct (ltype_cases f Hlt) as [H|[H|[H|[H|[H|[H|[H|[H|[H|H]]]]]]]]]; congruence.
Qed.

Lemma buffer_live l b a bs :
  m_heap m !! l = Some b → bytes_at b a bs → buffer_at m (VLoc l (Z.of_nat a)) (zlen bs) = Some bs.
Proof. intros Hb Hat. unfold buffer_at. cbn [target mbind option_bind]. rewrite Nat2Z.id. by apply (load_bytes_live m l b). Qed.

Lemma bytes_emits e f l b a bs :
  field_wf descs e f → is_submsg f = false → is_packable f = false → bytes_fit f bs → m_heap m !! l = Some b →
  bytes_at b a (stored f (MBytes bs)) → ∀ down,
  emits (PB_ENCODERS m down f (VLoc l (Z.of_nat a))) (delimited bs).
Proof using Hwf.
  intros Hf Hns Hpk [Hok Hfit] Hb Hat down. pose proof Hf as (_ & Hds0 & _ & Hlt & Hext & Hatype & _).
  unfold stored in Hat. unfold is_packable, is_submsg in *.
  assert (∀ t, t <= PB_LTYPE_LAST_PACKABLE → is_ltype t f = false) as Hno.
  { intros t Ht. unfold is_ltype. apply Z.eqb_neq. apply Z.leb_gt in Hpk. lia. }
  unfold PB_ENCODERS. rewrite !Hno by done.
  destruct (is_ltype PB_LTYPE_BYTES f) eqn:Eb.
  - assert (is_ltype PB_LTYPE_STRING f = false) as Es by (unfold is_ltype in *; by apply Z.eqb_eq in Eb as ->).
    assert (is_ltype PB_LTYPE_FIXED_LENGTH_BYTES f = false) as Ef by (unfold is_ltype in *; by apply Z.eqb_eq in Eb as ->).
    rewrite Es in Hfit, Hat. destruct Hfit as [H255 Hst]. unfold PB_SIZE_MAX in H255.
    unfold pb_enc_bytes. rewrite Ef. apply (bytes_at_app b a [zlen bs]) in Hat as [Hsz Hat].
    assert ([zlen bs] = le_bytes 1 (zlen bs)) as Hone by (cbn [le_bytes]; rewrite Z.mod_small by lia; done).
    eapply emits_from_mem.
    { rewrite Hone in Hsz. by apply (load_uint_live l b a 1 (zlen bs)). }
    change (8 * Z.of_nat 1) with 8. rewrite uwrap_id by (unfold is_uint; lia).
    assert (PB_BYTES_ARRAY_T_ALLOCSIZE (zlen bs) = zlen bs + 1) as -> by (apply uwrap_id; unfold is_uint; lia).
    assert (is_atype PB_ATYPE_STATIC f && (f_data_size f <? zlen bs + 1) = false) as ->.
    { destruct (is_atype PB_ATYPE_STATIC f); [|done]. apply Z.ltb_ge. by apply Hst. }
    cbn [ptr_add]. eapply emits_from_mem; [reflexivity|].
    replace (Z.of_nat a + 1) with (Z.of_nat (a + length [zlen bs])) by (simpl; lia).
    rewrite (buffer_live l b _ bs) by done. apply emits_delimited_string. by right.
  - destruct (is_ltype PB_LTYPE_STRING f) eqn:Es.
    + destruct Hfit as (Hnz & H32 & Hst). unfold pb_enc_string. eapply emits_from_mem; [reflexivity|].
      eapply emits_from_mem.
      { apply (string_length_spec m l b bs Hb Hnz); [done| |].
        - destruct Hatype as [Ha|Ha].
          + rewrite (atype_static f Ha). specialize (Hst Ha). lia.
          + rewrite Ha. unfold SIZE_MAX. lia.
        - unfold block_size. simpl. rewrite Hb. destruct Hat as [Hl _]. rewrite length_app in Hl. simpl in Hl. lia. }
      rewrite Z.add_0_l. apply bytes_at_app in Hat as [Hat _]. rewrite (buffer_live l b _ bs) by done.
      apply emits_delimited_string. by right.
    + destruct (is_ltype PB_LTYPE_FIXED_LENGTH_BYTES f) eqn:Ef.
      * rewrite Hns. unfold pb_enc_bytes. rewrite Ef, <-Hfit, (buffer_live l b _ bs) by done.
        apply emits_delimited_string. by right.
      * exfalso. unfold PB_LTYPE_LAST_PACKABLE in *. destruct (ltype_cases f Hlt) as [H|[H|[H|[H|[H|[H|[H|[H|[H|H]]]]]]]]]; try congruence;
          rewrite Hno in H; done.
Qed.

Lemma plain_emits e f l b a v :
  field_wf descs e f → is_submsg f = false → plain_ok f v → m_heap m !! l = Some b →
  bytes_at b a (stored f v) → ∀ down, emits (PB_ENCODERS m down f (VLoc l (Z.of_nat a))) (wval f v).
Proof using Hwf.
  intros Hf Hns Hv Hb Hat down. destruct v as [z|bs|vss]; [| |done].
  - destruct Hv as [Hpk Hz]. by apply (int_emits e f l b a z).
  - destruct Hv as [Hpk Hz]. by apply (bytes_emits e f l b a bs).
Qed.

Lemma tag_emits e f : field_wf descs e f → emits (pb_encode_tag_for_field f) (varint (key (wire_type_of f) (f_tag f))).
Proof using.
  intros Hf. destruct (wiretype_for_spec descs e f Hf) as [Hw Hr]. unfold pb_encode_tag_for_field. rewrite Hw.
  destruct Hf as (Ht & _). apply emits_tag; [done|lia].
Qed.

(** ** Arrays *)

Lemma items_emits (item : pval → enc) (f : pb_field) l : 0 < f_data_size f → ∀ ws a,
  (∀ k w, ws !! k = Some w → emits (item (VLoc l (Z.of_nat (a + k * Z.to_nat (f_data_size f))))) w) →
  emits (encode_items (length ws) item (f_data_size f) (VLoc l (Z.of_nat a))) (concat ws).
Proof using.
  intros Hds. induction ws as [|w ws IH]; intros a Hws; [exact emits_nil|].
  cbn [length encode_items concat]. apply emits_and.
  - specialize (Hws 0%nat w eq_refl). by rewrite Nat.add_0_r in Hws.
  - cbn [ptr_add]. eapply emits_from_mem; [reflexivity|].
    replace (Z.of_nat a + f_data_size f) with (Z.of_nat (a + Z.to_nat (f_data_size f))) by lia.
    apply IH. intros k w' Hk. specialize (Hws (S k) w' Hk).
    by replace (a + Z.to_nat (f_data_size f) + k * Z.to_nat (f_data_size f))%nat
      with (a + S k * Z.to_nat (f_data_size f))%nat by lia.
Qed.

(** A counting stream is given the number of bytes alone. *)
Lemma emits_counted e w :
  emits e w → emits (λ s, match o_state s with None => pb_write None (zlen w) s | Some _ => e s end) w.
Proof using.
  intros He. split; intros s Hs Hlt Hr; destruct (o_state s) as [st|] eqn:Hst; try by apply He.
  - unfold pb_write. rewrite Hst. unfold o_count, o_put. rewrite Hst.
    rewrite (uwrap_id 64) by (unfold is_uint; destruct Hs as [[??]?]; lia). done.
  - destruct Hr. intros [? Hx]. by rewrite Hst in Hx.
Qed.

Lemma concat_length_const {A} (ws : list (list A)) n : Forall (λ w, length w = n) ws → length (concat ws) = (n * length ws)%nat.
Proof using. induction 1 as [|w ws Hw _ IH]; cbn [concat length]; [lia|]. rewrite length_app. lia. Qed.

Lemma packed_emits down f p ws :
  emits (encode_items (length ws) (PB_ENCODERS m down f) (f_data_size f) p) (concat ws) →
  (is_ltype PB_LTYPE_FIXED32 f = true → Forall (λ w, length w = 4%nat) ws) →
  (is_ltype PB_LTYPE_FIXED64 f = true → Forall (λ w, length w = 8%nat) ws) →
  emits (let^ (ok, size) := packed_size m down f p (zlen ws) in
    if (ok : bool) then
      oand (pb_encode_varint size) (λ s,
        match o_state s with
        | None => pb_write None size s
        | Some _ => encode_items (Z.to_nat (zlen ws)) (PB_ENCODERS m down f) (f_data_size f) p s
        end)
    else λ s, Some (false, s)) (delimited (concat ws)).
Proof using.
  intros He H4 H8. apply emits_guard. unfold delimited. rewrite length_app. intros Hlt.
  assert (packed_size m down f p (zlen ws) = Some (true, zlen (concat ws))) as Hps.
  { unfold packed_size. destruct (is_ltype PB_LTYPE_FIXED32 f); [rewrite (concat_length_const ws 4) by auto; do 2 f_equal; lia|].
    destruct (is_ltype PB_LTYPE_FIXED64 f); [rewrite (concat_length_const ws 8) by auto; do 2 f_equal; lia|].
    rewrite Nat2Z.id, (emits_sizing _ _ He) by lia. cbn [mbind option_bind o_put o_bytes_written PB_OSTREAM_SIZING].
    by rewrite Z.add_0_l. }
  eapply emits_from_mem; [exact Hps|]. cbv beta iota. rewrite Nat2Z.id.
  apply emits_and; [apply emits_varint; unfold is_uint; lia|]. by apply emits_counted.
Qed.


(** ** One level of messages *)

Lemma live_app fp fp' : live (fp ++ fp') ↔ live fp ∧ live fp'.
Proof using. apply Forall_app. Qed.

Lemma live_concat fps k fp : live (concat fps) → fps !! k = Some fp → live fp.
Proof using.
  intros Hl Hk. rewrite <-(take_drop_middle _ _ _ Hk), concat_app in Hl. cbn [concat] in Hl.
  by apply live_app in Hl as [_ [Hl _]%live_app].
Qed.

Lemma plain_wire_fixed f v n :
  plain_ok f v → (is_ltype PB_LTYPE_FIXED32 f = true ∧ n = 4%nat) ∨ (is_ltype PB_LTYPE_FIXED64 f = true ∧ n = 8%nat) →
  length (wval f v) = n.
Proof using.
  intros Hv Hf. destruct v as [z|bs|]; [|exfalso|done].
  - cbn [wire_value]. unfold wire_int, is_ltype in *. destruct Hf as [[Hl%Z.eqb_eq ->]|[Hl%Z.eqb_eq ->]]; rewrite Hl; apply length_le_bytes.
  - destruct Hv as [Hv _]. unfold is_packable, is_ltype in *. destruct Hf as [[Hl%Z.eqb_eq _]|[Hl%Z.eqb_eq _]]; by rewrite Hl in Hv.
Qed.

Lemma two_pass_submessage down d src s : two_pass true (down d src) s = pb_encode_submessage_with down d src s.
Proof using.
  unfold two_pass, pb_encode_submessage_with, oand. destruct (down d src PB_OSTREAM_SIZING) as [[[] sub]|]; [|done..].
  cbn [mbind option_bind negb]. destruct (pb_encode_varint (o_bytes_written sub) s) as [[[] s1]|]; done.
Qed.

(** One level of the recursion. *)
Definition encode_spec (fuel : nat) (down : nat → pval → enc) : Prop :=
  ∀ d n l o b fp vss, (length fp * S N + d < fuel)%nat → (d < N)%nat → msg_fits descs d n →
    (o + n <= length b)%nat → m_heap m !! l = Some b → live fp → msg_val descs d (mem_read o n b) fp vss →
    emits (down d (VLoc l (Z.of_nat o))) (wire descs d vss).

Section Level.
Context (fuel : nat) (down : nat → pval → enc) (Hdown : encode_spec fuel down).
Context (e : nat) (f : pb_field) (Hf : field_wf descs e f) (Hsz : size_members f).

Abbreviation ds := (Z.to_nat (f_data_size f)).
Abbreviation encoder := (PB_ENCODERS m down f).
Abbreviation at_loc l a := (VLoc l (Z.of_nat a)).

(** There is fuel for a value of [f] that owns [fp]. *)
Definition enough (fp : footprint) : Prop := ∀ d, f_ptr f = FSubmsg d → (length fp * S N + d < fuel)%nat.

Lemma item_emits l a b fp v :
  m_heap m !! l = Some b → (a + ds <= length b)%nat → live fp → enough fp →
  item_val (msg_val descs) f (mem_read a ds b) fp v → emits (encoder (at_loc l a)) (wval f v).
Proof using Hwf Hdown Hf.
  intros Hb Hl Hlv Hen Hi. inversion Hi as [w Hs Hp Hh|d fp' vss Hs Hp Hm]; subst.
  - apply (plain_emits e f l b a v); try done. by eapply holds_at.
  - destruct (wf_submsg descs e f Hf Hs) as (d' & Hp' & Hd & Hfit & _). assert (d' = d) as -> by congruence.
    rewrite (wire_value_submsg descs f d vss Hp).
    eapply emits_ext; [|apply (emits_two_pass true (down d (at_loc l a)))].
    + intros s. unfold PB_ENCODERS, is_submsg, is_ltype in *. apply Z.eqb_eq in Hs. rewrite Hs.
      transitivity (pb_enc_submessage down f (at_loc l a) s); [|reflexivity].
      unfold pb_enc_submessage. rewrite Hp. by rewrite two_pass_submessage.
    + by apply (Hdown d ds l a b fp vss); auto.
Qed.

Lemma ptr_emits data fp v :
  live fp → enough (tail fp) → ptr_val (msg_val descs) f data fp v →
  ∃ l, data = ptr_bytes (VLoc l 0) ∧ emits (encoder (VLoc l 0)) (wval f v).
Proof using Hwf Hdown Hf.
  intros Hlv Hen Hp. inversion Hp as [l b w Hs Hpl Hh|l b fp' w Hs Hz Hi]; subst.
  all: exists l; split; [done|]; change 0 with (Z.of_nat 0); apply Forall_cons in Hlv as [Hb Hlv].
  - assert (is_submsg f = false) as Hns.
    { unfold is_submsg, is_string_or_bytes, is_ltype in *. apply orb_true_iff in Hs as [Hs%Z.eqb_eq|Hs%Z.eqb_eq]; by rewrite Hs. }
    apply (plain_emits e f l b 0 v); try done. apply (holds_at f v 0 (length b)); [done|]. by rewrite mem_read_whole.
  - apply (item_emits l 0 b fp' v); try done; [lia|]. assert (ds = length b) as -> by lia. by rewrite mem_read_whole.
Qed.

(** An item of an array. *)
Lemma encode_item_emits l a b fp v :
  m_heap m !! l = Some b → (a + ds <= length b)%nat → live fp → enough fp →
  (if is_atype PB_ATYPE_POINTER f then
     elem_val (msg_val descs) f (mem_read a ds b) fp v ∧ (is_string_or_bytes f = true → ds = PTR_SIZE)
   else item_val (msg_val descs) f (mem_read a ds b) fp v) →
  emits (encode_item m down f (at_loc l a)) (varint (key (wire_type_of f) (f_tag f)) ++ wval f v).
Proof using Hwf Hdown Hf.
  intros Hb Hl Hlv Hen Hv. unfold encode_item. apply emits_and; [by eapply tag_emits|].
  destruct (is_atype PB_ATYPE_POINTER f); cbn [andb]; [|by apply (item_emits l a b fp v)].
  destruct Hv as [[Hs Hp|Hs Hi] HP]; rewrite Hs; [|by apply (item_emits l a b fp v)].
  eapply emits_from_mem; [reflexivity|]. rewrite (HP Hs) in *.
  assert (enough (tail fp)) as Hen'.
  { intros d Hd. specialize (Hen d Hd). destruct fp; cbn [tail length] in *; lia. }
  destruct (ptr_emits _ fp v Hlv Hen' Hp) as (l2 & Hpb & Hem).
  eapply emits_from_mem; [by apply (load_ptr_live m l b a _ Hb Hl Hpb)|done].
Qed.

Definition array_item (k a : nat) (b : block) (fp : footprint) (v : mval) : Prop :=
  live fp ∧ enough fp ∧
  if is_atype PB_ATYPE_POINTER f then
    elem_val (msg_val descs) f (mem_read (a + k * ds) ds b) fp v ∧ (is_string_or_bytes f = true → ds = PTR_SIZE)
  else item_val (msg_val descs) f (mem_read (a + k * ds) ds b) fp v.

(** A number in an array. *)
Lemma array_item_plain k a b fp v :
  is_packable f = true → array_item k a b fp v →
  plain_ok f v ∧ item_val (msg_val descs) f (mem_read (a + k * ds) ds b) fp v.
Proof using.
  intros Hpk (_ & _ & Hv). destruct (packable_ltype f Hpk) as (Hns & Hsb & _).
  assert (item_val (msg_val descs) f (mem_read (a + k * ds) ds b) fp v) as Hi.
  { destruct (is_atype PB_ATYPE_POINTER f); [|done]. destruct Hv as [[Hs|Hs] _]; [congruence|done]. }
  split; [|done]. destruct Hi; [done|congruence].
Qed.

Lemma array_emits l a b vs :
  m_heap m !! l = Some b → (a + length vs * ds <= length b)%nat → is_htype PB_HTYPE_REPEATED f = true →
  (is_atype PB_ATYPE_POINTER f = false → zlen vs <= f_array_size f) →
  (∀ k v, vs !! k = Some v → ∃ fp, array_item k a b fp v) →
  emits (encode_array m down f (at_loc l a) (zlen vs)) (wire_field descs f vs).
Proof using Hwf Hdown Hf.
  intros Hb Hl Hr Hmax Hvs. pose proof Hf as (Ht & Hds & _). unfold encode_array.
  destruct (Z.eqb_spec (zlen vs) 0) as [Hz|Hz]; [destruct vs; [exact emits_nil|done]|].
  assert (negb (is_atype PB_ATYPE_POINTER f) && (f_array_size f <? zlen vs) = false) as ->.
  { destruct (is_atype PB_ATYPE_POINTER f); [done|]. specialize (Hmax eq_refl). by bool_cases. }
  assert (∀ k v, vs !! k = Some v → (a + k * ds + ds <= length b)%nat) as Hin.
  { intros k v Hk%lookup_lt_Some. nia. }
  unfold wire_field, wire_join. rewrite Hr. cbn [andb].
  destruct (is_packable f) eqn:Hpk.
  - assert (zlen vs = zlen (map (wval f) vs)) as Hlen by by rewrite length_map.
    destruct (map (wval f) vs) as [|w0 ws0] eqn:Hws; [destruct vs; done|]. rewrite <-Hws in *. rewrite Hlen.
    apply emits_and; [apply emits_tag; [by unfold PB_WT_STRING|lia]|]. apply packed_emits.
    + apply (items_emits encoder f l); [lia|]. intros k w Hk.
      change (map (wval f) vs) with (wval f <$> vs) in Hk. apply list_lookup_fmap_Some in Hk as (v & -> & Hk).
      destruct (Hvs k v Hk) as (fp & Hi). destruct (array_item_plain k a b fp v Hpk Hi) as [_ Hiv].
      destruct Hi as (Hlv & Hen & _). apply (item_emits l _ b fp v); try done. by eapply Hin.
    + intros H32. apply Forall_map, Forall_lookup. intros k v Hk. destruct (Hvs k v Hk) as (fp & Hi).
      destruct (array_item_plain k a b fp v Hpk Hi) as [Hp _]. apply plain_wire_fixed; tauto.
    + intros H64. apply Forall_map, Forall_lookup. intros k v Hk. destruct (Hvs k v Hk) as (fp & Hi).
      destruct (array_item_plain k a b fp v Hpk Hi) as [Hp _]. apply plain_wire_fixed; tauto.
  - assert (∀ ws, match ws with [] => [] | _ => concat (map (λ w, varint (key (wire_type_of f) (f_tag f)) ++ w) ws) end
      = concat (map (λ w, varint (key (wire_type_of f) (f_tag f)) ++ w) ws)) as -> by by intros [].
    rewrite map_map. rewrite Nat2Z.id, <-(length_map (λ v, varint (key (wire_type_of f) (f_tag f)) ++ wval f v) vs).
    apply (items_emits (encode_item m down f) f l); [lia|]. intros k w Hk.
    change (map ?g vs) with (g <$> vs) in Hk. apply list_lookup_fmap_Some in Hk as (v & -> & Hk).
    destruct (Hvs k v Hk) as (fp & Hlv & Hen & Hi). apply (encode_item_emits l _ b fp v); try done. by eapply Hin.
Qed.

Lemma enough_static fp : is_atype PB_ATYPE_STATIC f = true → (length fp * S N + e < S fuel)%nat → enough fp.
Proof using Hf.
  intros Ha Hfuel d Hd. destruct Hf as (_ & _ & _ & _ & _ & _ & _ & _ & Hp & _). rewrite Hd in Hp.
  destruct Hp as (_ & _ & _ & Hst). destruct (Hst Ha) as [Hde _]. lia.
Qed.

Lemma enough_pointer (fp fp' : footprint) : (length fp * S N + e < S fuel)%nat → (length fp' < length fp)%nat → enough fp'.
Proof using Hf.
  intros Hfuel Hl d Hd. destruct Hf as (_ & _ & _ & _ & _ & _ & _ & _ & Hp & _). rewrite Hd in Hp.
  destruct Hp as (_ & Hdn & _). nia.
Qed.

Lemma htype_is h : is_htype h f = true → ∀ h', is_htype h' f = (h =? h').
Proof using. unfold is_htype. by intros ->%Z.eqb_eq h'. Qed.

Lemma value_emits l a b fp v :
  m_heap m !! l = Some b → (a + ds <= length b)%nat → live fp → enough fp → is_htype PB_HTYPE_REPEATED f = false →
  item_val (msg_val descs) f (mem_read a ds b) fp v →
  emits (oand (pb_encode_tag_for_field f) (encoder (at_loc l a))) (wire_field descs f [v]).
Proof using Hwf Hdown Hf.
  intros Hb Hl Hlv Hen Hr Hi. rewrite wire_single by done. apply emits_and; [by eapply tag_emits|]. by eapply item_emits.
Qed.

(** [*pSize] *)
Lemma slot_load l a s b v implicit_has :
  m_heap m !! l = Some b → room b f a s → has_slot f = true → padd (l, Z.of_nat a) (f_size_offset f) = (l, Z.of_nat s) →
  b !! s = Some (MByte v) →
  (if f_size_offset f =? 0 then Some implicit_has else load_u8 m (padd (l, Z.of_nat a) (f_size_offset f))) = Some v.
Proof using Hf Hsz.
  intros Hb [_ Hroom] Hs Hp Hv. rewrite Hp, (load_u8_live m l b s v) by done.
  destruct (Z.eqb_spec (f_size_offset f) 0) as [Hz|]; [exfalso|done].
  rewrite Hz in Hp. unfold padd in Hp. simpl in Hp. simplify_eq.
  assert (0 < dlen f)%nat; [|destruct (Hroom Hs); lia].
  destruct Hf as (_ & Hds & _ & _ & _ & Ha & _). unfold dlen, field_width.
  destruct (is_atype PB_ATYPE_STATIC f && is_htype PB_HTYPE_REPEATED f) eqn:E.
  - apply andb_true_iff in E as [E1 E2]. destruct Hsz as [_ Hsz2]. specialize (Hsz2 E2 E1). nia.
  - destruct (is_atype PB_ATYPE_POINTER f); [unfold PTR_SIZE|]; lia.
Qed.

(** The code for the rule of the field. *)
Ltac rule_of Hh :=
  rewrite ?(htype_is _ Hh);
  cbn [Z.eqb Pos.eqb PB_HTYPE_REQUIRED PB_HTYPE_OPTIONAL PB_HTYPE_REPEATED PB_HTYPE_ONEOF].

(** An allocated field that is not repeated has no [has_] member. *)
Lemma no_slot :
  is_atype PB_ATYPE_POINTER f = true → is_htype PB_HTYPE_REQUIRED f = true ∨ is_htype PB_HTYPE_OPTIONAL f = true →
  (f_size_offset f =? 0) = true.
Proof using Hsz.
  intros Ha Hh. apply Z.eqb_eq, (proj1 Hsz); [done|]. unfold has_slot. rewrite (atype_pointer _ Ha).
  by destruct Hh as [Hh|Hh]; rule_of Hh.
Qed.

Lemma field_emits field_encode l b a s fp vs :
  (length fp * S N + e < S fuel)%nat → m_heap m !! l = Some b → live fp → room b f a s →
  (has_slot f = true → padd (l, Z.of_nat a) (f_size_offset f) = (l, Z.of_nat s)) →
  field_val (msg_val descs) f (mem_read a (dlen f) b) (b !! s) fp vs →
  emits (encode_field m field_encode down f (l, Z.of_nat a)) (wire_field descs f vs).
Proof using Hwf Hdown Hf Hsz.
  intros Hfuel Hb Hlv Hroom Hslot Hv. pose proof Hf as (_ & Hds & _ & _ & _ & Hat & _).
  assert (is_atype PB_ATYPE_STATIC f || is_atype PB_ATYPE_POINTER f = true) as Hsp by (destruct Hat as [-> | ->]; [done|apply orb_true_r]).
  unfold encode_field. rewrite Hsp. unfold encode_basic_field. cbn [fst snd].
  pose proof Hroom as [Hra _].
  assert (∀ v h, has_slot f = true → b !! s = Some (MByte v) →
    (if f_size_offset f =? 0 then Some h else load_u8 m (padd (l, Z.of_nat a) (f_size_offset f))) = Some v) as Hload
    by (intros v h Hh Hs; by apply (slot_load l a s b v h Hb Hroom Hh (Hslot Hh))).
  destruct (is_atype PB_ATYPE_POINTER f) eqn:Ha.
  - pose proof (dlen_pointer f Ha) as Hdl. pose proof (atype_pointer f Ha) as Hna. rewrite Hdl in *.
    assert (∀ p, mem_read a PTR_SIZE b = ptr_bytes p → load_ptr m (l, Z.of_nat a) = Some p) as Hptr
      by (intros p; by apply load_ptr_live).
    assert (∀ v, ptr_val (msg_val descs) f (mem_read a PTR_SIZE b) fp v →
      ∃ l2, mem_read a PTR_SIZE b = ptr_bytes (VLoc l2 0) ∧ (is_htype PB_HTYPE_REPEATED f = false →
        emits (oand (pb_encode_tag_for_field f) (encoder (VLoc l2 0))) (wire_field descs f [v]))) as Hvalue.
    { intros v Hp. assert (enough (tail fp)) as Hen.
      { apply (enough_pointer fp); [done|]. destruct Hp; simpl; lia. }
      destruct (ptr_emits _ fp v Hlv Hen Hp) as (l2 & Hd & Hem). exists l2. split; [done|].
      intros Hr. rewrite wire_single by done. apply emits_and; [by eapply tag_emits|done]. }
    destruct Hv as [fp v ? Hh Hi|? Hh Hs|fp v ? Hh Hs Hi|vs ? Hh Hs Hmax Hi|w Hh Hs Hw Hp|fp v ? Hh Hs Hi
      |_ Hh Hd|fp v _ Hh Hp|fp vs _ Hh Hs Hmax Harr|fp v _ Hh Hs Hp]; try congruence.
    + destruct (Hp Ha) as [p Hp']. eapply emits_from_mem; [by apply Hptr|]. rule_of Hh.
      eapply emits_from_mem; [apply Hload; [by apply slot_oneof|exact Hs]|].
      rewrite (proj2 (Z.eqb_neq _ _)) by done. exact emits_nil.
    + eapply emits_from_mem; [by apply Hptr|]. rule_of Hh. rewrite (no_slot Ha (or_intror Hh)). exact emits_nil.
    + destruct (Hvalue v Hp) as (l2 & Hp' & Hem). eapply emits_from_mem; [by apply Hptr|].
      destruct Hh as [Hh|Hh]; rule_of Hh; [|rewrite (no_slot Ha (or_intror Hh))].
      * apply Hem. by rule_of Hh.
      * apply Hem. by rule_of Hh.
    + inversion Harr as [Hd|l2 b2 fps vs' Hlen Hroom2 Hel Hd]; subst.
      * eapply emits_from_mem; [apply (Hptr VNull); by symmetry|]. rule_of Hh.
        eapply emits_from_mem; [apply Hload; [by apply slot_repeated|exact Hs]|]. exact emits_nil.
      * eapply emits_from_mem; [apply (Hptr (VLoc l2 0)); by symmetry|]. rule_of Hh.
        eapply emits_from_mem; [apply Hload; [by apply slot_repeated|exact Hs]|].
        apply Forall_cons in Hlv as [Hb2 Hlv]. cbn [fst snd] in Hb2. change 0 with (Z.of_nat 0).
        apply (array_emits l2 0 b2 vs); try done; [nia|congruence|].
        intros k v Hk. destruct (lookup_lt_is_Some_2 fps k) as [fp Hfp]; [apply lookup_lt_Some in Hk; lia|].
        exists fp. split; [by eapply live_concat|]. split.
        { apply (enough_pointer ((l2, b2) :: concat fps)); [done|].
          pose proof (concat_nth_length _ _ _ Hfp). simpl. lia. }
        rewrite Ha. split; [exact (Hel k fp v Hfp Hk)|]. intros Hsb.
        destruct Hf as (_ & _ & _ & _ & _ & _ & _ & _ & _ & Hps). destruct (Hps Ha) as [_ Hps']. rewrite (Hps' Hh Hsb). lia.
    + destruct (Hvalue v Hp) as (l2 & Hp' & Hem). eapply emits_from_mem; [by apply Hptr|]. rule_of Hh.
      eapply emits_from_mem; [apply Hload; [by apply slot_oneof|exact Hs]|]. rewrite Z.eqb_refl.
      apply Hem. by rule_of Hh.
  - assert (is_atype PB_ATYPE_STATIC f = true) as Hst by (destruct Hat; congruence).
    assert (is_htype PB_HTYPE_REPEATED f = false → dlen f = ds) as Hdl by by apply dlen_single.
    pose proof (enough_static fp Hst Hfuel) as Hen.
    eapply emits_from_mem; [reflexivity|]. cbv beta zeta.
    destruct Hv as [fp v _ Hh Hi|_ Hh Hs|fp v _ Hh Hs Hi|vs _ Hh Hs Hmax Hi|w Hh Hs Hw _|fp v _ Hh Hs Hi
      |? Hh Hd|fp v ? Hh Hp|fp vs ? Hh Hs Hmax Harr|fp v ? Hh Hs Hp]; try congruence.
    + rule_of Hh. rewrite Hdl in * by by rule_of Hh. apply (value_emits l a b fp v); try done. by rule_of Hh.
    + rule_of Hh. eapply emits_from_mem; [apply Hload; [by apply slot_optional|exact Hs]|]. exact emits_nil.
    + rule_of Hh. rewrite Hdl in * by by rule_of Hh. eapply emits_from_mem; [apply Hload; [by apply slot_optional|exact Hs]|].
      apply (value_emits l a b fp v); try done. by rule_of Hh.
    + rule_of Hh. eapply emits_from_mem; [apply Hload; [by apply slot_repeated|exact Hs]|].
      assert (dlen f = Z.to_nat (f_data_size f * f_array_size f)) as Hdl' by (unfold dlen, field_width; by rewrite Hst, Hh).
      apply (array_emits l a b vs); try done; [nia|].
      intros k v Hk. exists []. split; [constructor|]. split; [done|]. rewrite Ha.
      specialize (Hi k v Hk). unfold elem in Hi. rewrite mem_read_read in Hi; [done|].
      apply lookup_lt_Some in Hk. rewrite Hdl'. nia.
    + rule_of Hh. eapply emits_from_mem; [apply Hload; [by apply slot_oneof|exact Hs]|].
      rewrite (proj2 (Z.eqb_neq _ _)) by done. exact emits_nil.
    + rule_of Hh. rewrite Hdl in * by by rule_of Hh. eapply emits_from_mem; [apply Hload; [by apply slot_oneof|exact Hs]|].
      rewrite Z.eqb_refl. apply (value_emits l a b fp v); try done. by rule_of Hh.
Qed.

End Level.

(** ** Messages *)

Lemma sized_field d k f : desc d !! k = Some f → size_members f.
Proof using Hsize.
  unfold descriptor. destruct (descs !! d) as [fs|] eqn:E; [|done]. simpl. intros Hk.
  unfold sized_descs in Hsize. rewrite Forall_lookup in Hsize. specialize (Hsize d fs E).
  rewrite Forall_lookup in Hsize. by eapply Hsize.
Qed.

Section Message.
Context (exts : list extension_type) (field_encode : nat → pb_field → addr → enc) (ext_encode : nat → addr → enc).

Lemma level_emits fuel down :
  encode_spec fuel down → encode_spec (S fuel) (pb_encode_with descs exts m field_encode ext_encode down).
Proof using Hwf Hsize.
  intros Hdown d n l o b fp vss Hfuel Hd Hfit Hroom Hb Hlv Hm. inversion Hm as [fps ? Hlf Hlv' Hv]; subst.
  pose proof (wf_tags descs d Hwf) as Ht. unfold pb_encode_with, wire.
  destruct (desc d) as [|f0 rest] eqn:E; [destruct vss; [exact emits_nil|done]|]. rewrite <-E in *.
  eapply emits_from_mem; [reflexivity|].
  destruct (layout_lookup (desc d) 0) as (g & p & Hg); [rewrite E; simpl; lia|].
  rewrite (iter_begin_spec _ _ _ _ Ht Hg). rewrite layout_length in Hlf.
  assert (∀ c k g, (k + c = length (desc d))%nat → layout (desc d) !! k = Some g →
    emits (encode_loop exts m field_encode ext_encode down c (iter_at (desc d) (l, Z.of_nat o) k g.2))
      (concat (drop k (wire_fields descs (desc d) vss)))) as Hloop;
    [|apply (Hloop (length (desc d)) 0%nat (g, p)); done].
  induction c as [|c IH]; intros k h Hk Hh.
  { apply lookup_lt_Some in Hh. rewrite layout_length in Hh. lia. }
  destruct (lookup_lt_is_Some_2 fps k) as [fp Hfp]; [lia|].
  destruct (lookup_lt_is_Some_2 vss k) as [vs Hvs]; [lia|].
  pose proof (wf_field descs d k h Hwf Hh) as Hf.
  pose proof (fits_range descs d n k h Hfit Hh) as Hr.
  destruct (iter_at_field descs d n o l k h Hfit Hh) as (Hit & HpD & HpS).
  assert (desc d !! k = Some h.1) as Hdk by (destruct h; by eapply layout_field).
  rewrite (drop_S _ _ _ (wire_fields_lookup descs _ _ _ _ _ Hdk Hvs)). cbn [concat encode_loop]. rewrite Hit, HpD.
  assert (is_ltype PB_LTYPE_EXTENSION h.1 = false) as -> by (by destruct Hf as (_ & _ & _ & _ & Hext & _)).
  apply emits_and.
  - pose proof (concat_nth_length _ _ _ Hfp).
    apply (field_emits fuel down Hdown d h.1 Hf) with (b := b) (s := (o + spos h.1 h.2)%nat) (fp := fp); try done.
    + by eapply sized_field.
    + nia.
    + by eapply live_concat.
    + by eapply iter_at_room.
    + intros Hs. specialize (HpS Hs). cbn [it_pData it_pSize iter_at] in HpS, HpD. destruct h as [h q]. cbn [fst snd] in *.
      by rewrite (field_at_layout _ _ _ _ Hh), HpD in HpS.
    + specialize (Hv k h fp vs Hh Hfp Hvs). rewrite (fdata_read o) in Hv by done.
      eapply field_val_slot; [|exact Hv]. intros Hs. by rewrite (fslot_read o).
  - destruct h as [h q]. cbn [snd]. destruct (iter_next_index (desc d) (l, Z.of_nat o) k h q Ht Hh) as (h' & q' & Hh' & Hn).
    rewrite Hn. unfold next_index in *. destruct (Nat.ltb_spec (S k) (length (desc d))).
    + apply (IH (S k) (h', q')); [lia|done].
    + rewrite drop_ge by (rewrite wire_fields_length; lia). exact emits_nil.
Qed.

Lemma encodes fuel : encode_spec fuel (encode_at descs exts m field_encode ext_encode fuel).
Proof using Hwf Hsize.
  induction fuel as [|fuel IH]; [intros d n l o b fp vss H; lia|]. by apply level_emits.
Qed.

(** A struct with its blocks, among those of the memory. *)
Lemma pb_encode_emits d n l o b fp F vss :
  (d < N)%nat → msg_fits descs d n → (o + n <= length b)%nat → mem_is m ((l, b) :: fp ++ F) →
  msg_val descs d (mem_read o n b) fp vss →
  emits (pb_encode descs exts m field_encode ext_encode d (VLoc l (Z.of_nat o))) (wire descs d vss).
Proof using Hwf Hsize.
  intros Hd Hfit Hroom Hm Hv. unfold pb_encode.
  assert (Forall (λ lb, m_heap m !! lb.1 = Some lb.2) ((l, b) :: fp ++ F)) as Hlive.
  { destruct Hm as (Hh & Hn & _). apply Forall_forall. intros [l' b'] Hin. rewrite Hh. by apply elem_of_list_to_map_1. }
  apply Forall_cons in Hlive as [Hb [Hlv _]%Forall_app].
  apply (encodes _ d n l o b fp vss); try done.
  unfold encode_fuel. rewrite (mem_is_size _ _ Hm). simpl. rewrite length_app. nia.
Qed.

End Message.

End Encoded.

(** ** What the encoder writes *)

(** C25: the encoder gives a message its wire form.  For well-formed
    descriptors, when the struct at [o] of the block [l] with the blocks [fp] it
    points to holds the message [vss] (numbers, strings, submessages in place or
    allocated, arrays, unions, to any depth), then [pb_encode] writes exactly
    the bytes [wire] when the stream has room for them, whatever else is in
    memory; when it has not, it returns [false] and stores nothing past the end
    of the buffer; [pb_encode_delimited] writes the same bytes after their
    number; and [pb_get_encoded_size] is their number. *)
Theorem pb_encode_writes_wire descs exts m field_encode ext_encode d n l o b fp F vss :
  wf_descs descs → sized_descs descs → (d < length descs)%nat → msg_fits descs d n →
  (o + n <= length b)%nat → mem_is m ((l, b) :: fp ++ F) → msg_val descs d (mem_read o n b) fp vss →
  let src := VLoc l (Z.of_nat o) in let bs := wire descs d vss in
  emits (pb_encode descs exts m field_encode ext_encode d src) bs ∧
  emits (pb_encode_delimited descs exts m field_encode ext_encode d src) (delimited bs) ∧
  (zlen bs < 2 ^ 64 → pb_get_encoded_size descs exts m field_encode ext_encode d src = Some (Some (zlen bs))).
Proof.
  intros Hwf Hsz Hd Hfit Hroom Hm Hv src bs.
  pose proof (pb_encode_emits descs m Hwf Hsz exts field_encode ext_encode d n l o b fp F vss Hd Hfit Hroom Hm Hv) as He.
  split; [exact He|]. split.
  - unfold pb_encode_delimited, pb_encode_submessage. eapply emits_ext; [|exact (emits_two_pass true _ _ He)].
    apply two_pass_submessage.
  - intros Hlt. unfold pb_get_encoded_size, src. rewrite (emits_sizing _ _ He Hlt). done.
Qed.

(** A [Leaf] with [x: -2, s: "AB"]. *)
Definition leaf_block : block :=
  (MByte <$> [254; 255; 255; 255]) ++ replicate 4 MUndef ++ ptr_bytes (VLoc 1 0).

Definition leaf_mem : mem := mk_mem (list_to_map [(0%nat, leaf_block); (1%nat, MByte <$> [65; 66; 0])]) 2 [].

Lemma leaf_value : msg_val sample_descs 0 leaf_block [(1%nat, MByte <$> [65; 66; 0])] [[MInt (-2)]; [MBytes [65; 66]]].
Proof.
  apply (msg_val_intro sample_descs 0 leaf_block [[]; [(1%nat, MByte <$> [65; 66; 0])]]); [done..|].
  intros [|[|k]] g fp vs Hg Hfp Hvs; simpl in Hfp, Hvs; simplify_eq; apply (inj Some) in Hg as <-.
  - apply fv_required; [done..|]. apply iv_plain; [done| |by eexists].
    split; [done|]. split; [by_decide|]. by_decide.
  - apply fv_ptr; [done|by right|]. apply pv_str; [done| |by exists []].
    split; [done|]. split; by_decide.
Qed.

Lemma pb_encode_writes_wire_witness :
  wire sample_descs 0 [[MInt (-2)]; [MBytes [65; 66]]] =
    [8; 254; 255; 255; 255; 255; 255; 255; 255; 255; 1; 18; 2; 65; 66] ∧
  emits (pb_encode sample_descs [] leaf_mem (λ _ _ _, oundefined) (λ _ _, oundefined) 0 (VLoc 0 (Z.of_nat 0)))
    [8; 254; 255; 255; 255; 255; 255; 255; 255; 255; 1; 18; 2; 65; 66].
Proof.
  split; [by vm_compute|].
  apply (pb_encode_writes_wire sample_descs [] leaf_mem (λ _ _ _, oundefined) (λ _ _, oundefined) 0 16 0 0 leaf_block
    [(1%nat, MByte <$> [65; 66; 0])] [] [[MInt (-2)]; [MBytes [65; 66]]]);
    [exact sample_wf|by_decide|simpl; lia|by_decide|simpl; lia|by_decide|exact leaf_value].
Defined.
