(* ===== verification/PbTrip.v ===== *)
(** What is encoded is decoded again: from a message in a struct to bytes, and
    from the bytes to a message in another struct. *)

From S2P Require Import Prelude PbStream PbMem PbFields PbDecode PbShape PbRuns PbOwn PbPlace PbMessages PbEncode PbWire PbReads PbRebuild PbEncoded.

Open Scope Z_scope.

Lemma buffer_begins bs : begins (pb_istream_from_buffer bs (zlen bs)) bs.
Proof. split; [by exists []; rewrite app_nil_r|done]. Qed.

Lemma buffer_left bs : i_bytes_left (i_drop (length bs) (pb_istream_from_buffer bs (zlen bs))) = 0.
Proof. simpl. lia. Qed.

(** C24: a message is the same after [pb_encode] and [pb_decode].  Let the
    struct at [o] of the block [l], with the blocks [fp] it points to, hold the
    message [vss]: numbers of their width, strings and byte fields within their
    members, at most one member of each union, arrays up to their size, messages
    in messages to any depth.  Encoded into a buffer with room for them the
    bytes, decoded into any other struct of the descriptor (whatever it contains,
    in whatever memory, as long as requests for memory are granted), give
    [true], use up the stream, change nothing else, and leave the same message
    [vss] there, in the struct and in blocks of its own. *)
Theorem pb_message_round_trip descs exts field_encode ext_encode field_callback ext_callback d n vss
    m l o b fp F bufsize m2 l2 o2 b2 F2 :
  wf_descs descs → sized_descs descs → (d < length descs)%nat → msg_fits descs d n → msg_ok descs d vss →
  (o + n <= length b)%nat → mem_is m ((l, b) :: fp ++ F) → msg_val descs d (mem_read o n b) fp vss →
  zlen (wire descs d vss) <= bufsize < 2 ^ 64 →
  (o2 + n <= length b2)%nat → mem_is m2 ((l2, b2) :: F2) → alloc_ok false m2 →
  ∃ bs out i' m' b' fp',
    pb_encode descs exts m field_encode ext_encode d (VLoc l (Z.of_nat o)) (pb_ostream_from_buffer bufsize) =
      Some (true, out) ∧ o_state out = Some bs ∧ o_bytes_written out = zlen bs ∧
    pb_decode descs exts field_callback ext_callback d (l2, Z.of_nat o2)
      (mk_dstate (pb_istream_from_buffer bs (zlen bs)) m2) = Some (true, mk_dstate i' m') ∧
    i_bytes_left i' = 0 ∧ mem_is m' ((l2, b') :: fp' ++ F2) ∧ same_off (span o2 n) b2 b' ∧
    msg_val descs d (mem_read o2 n b') fp' vss.
Proof.
  intros Hwf Hsz Hd Hfit Hok Hroom Hm Hv Hbuf Hroom2 Hm2 Ha.
  pose proof (pb_encode_emits descs m Hwf Hsz exts field_encode ext_encode d n l o b fp F vss Hd Hfit Hroom Hm Hv) as He.
  destruct (pb_decode_reads descs exts field_callback ext_callback Hwf d n o2 l2 b2 _ vss Hd Hfit Hroom2 Hok
    (buffer_begins _) eq_refl m2 F2 Ha Hm2) as (r & i' & m' & b' & fp' & Hr & _ & Hm' & Hoff & -> & -> & Hv').
  set (w := wire descs d vss) in *.
  exists w, (o_put w (pb_ostream_from_buffer bufsize)), (i_drop (length w) (pb_istream_from_buffer w (zlen w))), m', b', fp'.
  split; [apply (emits_room _ _ He)|].
  - unfold owf. simpl. repeat split; lia.
  - simpl. lia.
  - intros _. simpl. lia.
  - split; [done|]. split; [done|]. split; [exact Hr|]. split; [apply buffer_left|]. done.
Qed.

(** ** A message *)

(** [ls { x: 5 s: "AB" } l { x: -1 } xs: [1, -2] u.a: "hi"] *)
Definition sample_leaf : list (list mval) := [[MInt 5]; [MBytes [65; 66]]].
Definition sample_root : list (list mval) :=
  [[MMsg sample_leaf]; [MMsg [[MInt (-1)]; []]]; [MInt 1; MInt (-2)]; [MBytes [104; 105]]; []].

Lemma msg_ok_fields descs d vss :
  Forall2 (λ g vs, count_ok g vs ∧ Forall (val_ok descs g) vs) (descriptor descs d) vss → unions_ok descs d vss →
  msg_ok descs d vss.
Proof.
  intros Hf Hu. split; [symmetry; by eapply Forall2_length|]. rewrite Forall2_lookup in Hf.
  assert (∀ k g vs, descriptor descs d !! k = Some g → vss !! k = Some vs → count_ok g vs ∧ Forall (val_ok descs g) vs) as Hk.
  { intros k g vs Hg Hvs. specialize (Hf k). rewrite Hg, Hvs in Hf. by inversion Hf. }
  split; [intros k g vs Hg Hvs; by eapply Hk|]. split; [|done].
  intros k g vs v Hg Hvs. destruct (Hk k g vs Hg Hvs) as [_ Hv]. by apply (proj1 (Forall_forall _ _) Hv).
Qed.

Lemma submsg_val_ok descs f d vss :
  is_submsg f = true → f_ptr f = FSubmsg d → msg_ok descs d vss → zlen (wire descs d vss) < 2 ^ 32 →
  val_ok descs f (MMsg vss).
Proof. intros Hs Hp (Hl & Hc & Hv & Hu) Hz. by eapply ok_msg. Qed.

(** In a descriptor without unions. *)
Lemma no_unions descs d vss :
  forallb (λ g, negb (is_htype PB_HTYPE_ONEOF g)) (descriptor descs d) = true → unions_ok descs d vss.
Proof.
  rewrite forallb_forall. intros Hf j k [g p] h vs ws Hg _ _ _ _ (Ho & _).
  apply layout_field, list_elem_of_lookup_2, list_elem_of_In, Hf in Hg. cbn [fst] in *. by rewrite Ho in Hg.
Qed.

#[export] Instance count_ok_dec f vs : Decision (count_ok f vs).
Proof. unfold count_ok. repeat case_match; apply _. Defined.

Ltac plain_value := apply ok_plain; [done|]; split; [done|]; split; by_decide.
Ltac field_values :=
  repeat (apply Forall2_cons_2; [split; [by_decide|repeat first [apply Forall_nil_2|apply Forall_cons_2]]|]);
  try apply Forall2_nil_2.

Lemma sample_leaf_ok : msg_ok sample_descs 0 sample_leaf.
Proof.
  apply msg_ok_fields; [|by apply no_unions]. unfold sample_leaf.
  change (descriptor sample_descs 0) with (fields_of None leaf_decls). field_values; plain_value.
Qed.

Lemma short_leaf_ok : msg_ok sample_descs 0 [[MInt (-1)]; []].
Proof.
  apply msg_ok_fields; [|by apply no_unions].
  change (descriptor sample_descs 0) with (fields_of None leaf_decls). field_values; plain_value.
Qed.

Lemma sample_root_ok : msg_ok sample_descs 1 sample_root.
Proof.
  apply msg_ok_fields.
  - unfold sample_root. change (descriptor sample_descs 1) with (fields_of None root_decls). field_values.
    + apply (submsg_val_ok _ _ 0); [done|done|apply sample_leaf_ok|by vm_compute].
    + apply (submsg_val_ok _ _ 0); [done|done|apply short_leaf_ok|by vm_compute].
    + plain_value.
    + plain_value.
    + plain_value.
  - intros j k g h vs ws Hg Hh Hvs Hws Hne (Hg1 & Hh1 & _).
    assert (j = 3 ∨ j = 4)%nat as Hj.
    { destruct j as [|[|[|[|[|j]]]]]; simpl in Hg; simplify_eq; auto; by vm_compute in Hg1. }
    assert (k = 3 ∨ k = 4)%nat as Hk.
    { destruct k as [|[|[|[|[|k]]]]]; simpl in Hh; simplify_eq; auto; by vm_compute in Hh1. }
    destruct Hj as [-> | ->], Hk as [-> | ->]; simpl in *; simplify_eq; auto.
Qed.

Definition sample_wire : bytes := wire sample_descs 1 sample_root.

(** The message, in a struct: decoded from its wire form. *)
Lemma sample_struct :
  ∃ m b fp, (0 + 72 <= length b)%nat ∧ mem_is m ((0%nat, b) :: fp ++ [(1%nat, [MByte 7])]) ∧
    msg_val sample_descs 1 (mem_read 0 72 b) fp sample_root.
Proof.
  destruct (pb_decode_reads sample_descs [] no_field_callback no_ext_callback sample_wf 1 72 0 0 (replicate 72 MUndef)
    (sample_stream sample_wire) sample_root ltac:(simpl; lia) sample_fits ltac:(simpl; lia) sample_root_ok
    (buffer_begins _) eq_refl sample_mem [(1%nat, [MByte 7])] ltac:(by left; constructor) sample_mem_is)
    as (r & i & m & b & fp & Hr & _ & Hm & [Hl _] & -> & _ & Hv).
  exists m, b, fp. rewrite Hl, length_replicate. split; [lia|]. split; [exact Hm|exact Hv].
Qed.

Lemma pb_message_round_trip_witness :
  ∃ m b fp, msg_val sample_descs 1 (mem_read 0 72 b) fp sample_root ∧
    ∃ bs out i' m' b' fp',
      pb_encode sample_descs [] m (λ _ _ _, oundefined) (λ _ _, oundefined) 1 (VLoc 0 (Z.of_nat 0))
        (pb_ostream_from_buffer 64) = Some (true, out) ∧ o_state out = Some bs ∧
      pb_decode sample_descs [] no_field_callback no_ext_callback 1 (0%nat, Z.of_nat 0)
        (mk_dstate (pb_istream_from_buffer bs (zlen bs)) sample_mem) = Some (true, mk_dstate i' m') ∧
      mem_is m' ((0%nat, b') :: fp' ++ [(1%nat, [MByte 7])]) ∧
      msg_val sample_descs 1 (mem_read 0 72 b') fp' sample_root.
Proof.
  destruct sample_struct as (m & b & fp & Hl & Hm & Hv). exists m, b, fp. split; [exact Hv|].
  destruct (pb_message_round_trip sample_descs [] (λ _ _ _, oundefined) (λ _ _, oundefined) no_field_callback no_ext_callback
    1 72 sample_root m 0 0 b fp [(1%nat, [MByte 7])] 64 sample_mem 0 0 (replicate 72 MUndef) [(1%nat, [MByte 7])]
    sample_wf ltac:(by_decide) ltac:(simpl; lia) sample_fits sample_root_ok Hl Hm Hv ltac:(by vm_compute)
    ltac:(simpl; lia) sample_mem_is ltac:(by left; constructor))
    as (bs & out & i' & m' & b' & fp' & He & Hs & _ & Hr & _ & Hm' & _ & Hv').
  exists bs, out, i', m', b', fp'. split; [exact He|]. split; [exact Hs|]. split; [exact Hr|]. split; [exact Hm'|exact Hv'].
Defined.
