(* ===== verification/DnsPacket.v ===== *)
(** Packets of the resolver (src/dns/dns.c, include/cuttle/dns/dns.h): the
    struct, its header, and how computations on packets may end. *)

From S2P Require Import Prelude.

Open Scope Z_scope.

(** ** Computations *)

(** A computation touches memory it must not, runs for ever, or returns. *)
Inductive run (A : Type) : Type :=
| Undefined
| Forever
| Returns (a : A).
Arguments Undefined {A}.
Arguments Forever {A}.
Arguments Returns {A} a.

#[export] Instance run_ret : MRet run := λ A a, Returns a.
#[export] Instance run_bind : MBind run := λ A B f c,
  match c with Undefined => Undefined | Forever => Forever | Returns a => f a end.

Lemma run_bind_returns {A B} (c : run A) (f : A → run B) b :
  c ≫= f = Returns b ↔ ∃ a, c = Returns a ∧ f a = Returns b.
Proof. destruct c; split; [intros [=]|intros (? & [=] & _)|intros [=]|intros (? & [=] & _)|by eauto|]. by intros (? & [= ->] & ?). Qed.

(** [enum dns_errno]; a function that returns one, or 0, here returns [Some] of
    it or [None]. *)
Inductive dns_errno :=
| DNS_ENOBUFS | DNS_EILLEGAL | DNS_EORDER | DNS_ESECTION | DNS_EUNKNOWN | DNS_EADDRESS | DNS_ENOQUERY | DNS_ENOANSWER
| DNS_EFETCHED | DNS_ESERVICE | DNS_ENONAME | DNS_EFAIL | DNS_ESYS (e : errno).

#[export] Instance dns_errno_eq_dec : EqDecision dns_errno.
Proof. solve_decision. Defined.

(** ** Memory *)

Definition rd (data : bytes) (i : Z) : run byte :=
  match data !! Z.to_nat i with Some b => Returns b | None => Undefined end.

(** [memcpy] out of the memory. *)
Definition rd_n (data : bytes) (i n : Z) : run bytes :=
  if zlen data <? i + n then Undefined else Returns (mem_read (Z.to_nat i) (Z.to_nat n) data).

(** [P->data[P->end++] = b] and the like. *)
Definition wr (data : bytes) (i : Z) (bs : bytes) : run bytes :=
  if zlen data <? i + zlen bs then Undefined else Returns (mem_write (Z.to_nat i) bs data).

(** [((0xff & data[i]) << 8) | (0xff & data[i + 1])] *)
Definition word (hi lo : byte) : Z := Z.lor (Z.shiftl (Z.land 0xff hi) 8) (Z.land 0xff lo).
Definition rd16 (data : bytes) (i : Z) : run Z :=
  hi ← rd data i; lo ← rd data (i + 1); Returns (word hi lo).

(** A store into a buffer, where the source guards it by [i < lim]: what is past
    the end of the buffer is dropped. *)
Definition put (dst : bytes) (i : Z) (bs : bytes) : bytes := mem_write (Z.to_nat i) bs dst.

(** [dst[MIN(i, lim - 1)] = 0], if there is room for it. *)
Definition put_nul (dst : bytes) (i : Z) : bytes := put dst (Z.min i (zlen dst - 1)) [0].

(** ** Packets *)

Definition DNS_S_QD : Z := 0x01.
Definition DNS_S_AN : Z := 0x02.
Definition DNS_S_NS : Z := 0x04.
Definition DNS_S_AR : Z := 0x08.
Definition DNS_S_ALL : Z := 0x0f.

Definition DNS_P_DICTSIZE : nat := 16.

(** [struct dns_s_memo], the [opt] member and [struct dns_p_memo]. *)
Record s_memo := mk_s_memo { s_base : Z; s_end : Z }.
Record opt_memo := mk_opt_memo { o_p : Z; o_maxudp : Z; o_ttl : Z }.
Record p_memo := mk_p_memo { m_qd : s_memo; m_an : s_memo; m_ns : s_memo; m_ar : s_memo; m_opt : opt_memo }.

(** [struct dns_packet]: [size] is the length of [data]; [cqe] is of no use here. *)
Record dns_packet := mk_packet { p_dict : list Z; p_memo_ : p_memo; p_end : Z; p_data : bytes }.

Definition p_size (P : dns_packet) : Z := zlen (p_data P).

Definition set_end (e : Z) (P : dns_packet) : dns_packet := mk_packet (p_dict P) (p_memo_ P) e (p_data P).
Definition set_data (data : bytes) (P : dns_packet) : dns_packet := mk_packet (p_dict P) (p_memo_ P) (p_end P) data.
Definition set_dict (dict : list Z) (P : dns_packet) : dns_packet := mk_packet dict (p_memo_ P) (p_end P) (p_data P).
Definition set_memo (memo : p_memo) (P : dns_packet) : dns_packet := mk_packet (p_dict P) memo (p_end P) (p_data P).

(** Where the header has the count of a section: [qdcount], [ancount],
    [nscount] and [arcount], in network order. *)
Definition count_at (section : Z) : Z :=
  if section =? DNS_S_QD then 4 else if section =? DNS_S_AN then 6 else if section =? DNS_S_NS then 8 else 10.

Definition header_count (P : dns_packet) (section : Z) : run Z := rd16 (p_data P) (count_at section).

Definition has_section (section s : Z) : bool := negb (Z.land section s =? 0).

Definition dns_p_count (P : dns_packet) (section : Z) : run Z :=
  if (section =? DNS_S_QD) || (section =? DNS_S_AN) || (section =? DNS_S_NS) || (section =? DNS_S_AR)
  then header_count P section
  else
    qd ← (if has_section section DNS_S_QD then header_count P DNS_S_QD else Returns 0);
    an ← (if has_section section DNS_S_AN then header_count P DNS_S_AN else Returns 0);
    ns ← (if has_section section DNS_S_NS then header_count P DNS_S_NS else Returns 0);
    ar ← (if has_section section DNS_S_AR then header_count P DNS_S_AR else Returns 0);
    Returns (qd + an + ns + ar).

Definition memo0 : p_memo :=
  mk_p_memo (mk_s_memo 0 0) (mk_s_memo 0 0) (mk_s_memo 0 0) (mk_s_memo 0 0) (mk_opt_memo 0 0 0).

(** [dns_p_init], on memory for [data]; the assertion is that of its size. *)
Definition dns_p_init (data : bytes) : run dns_packet :=
  if zlen data <? 12 then Undefined
  else Returns (mk_packet (replicate DNS_P_DICTSIZE 0) memo0 12 (mem_write 0 (replicate 12 0) data)).

Definition dns_p_reset (P : dns_packet) : run dns_packet := dns_p_init (p_data P).

(** [dns_p_make]: [mem] is what [malloc] gives, for [MAX(12, len)] bytes. *)
Definition dns_p_make (mem : Z → option bytes) (len : Z) : run (option dns_packet) :=
  match mem (Z.max 12 len) with
  | None => Returns None
  | Some data => P ← dns_p_init data; Returns (Some P)
  end.

(** [dns_p_copy]: what fits of the other packet. *)
Definition dns_p_copy (P P0 : dns_packet) : run dns_packet :=
  let e := Z.min (p_size P) (p_end P0) in
  bs ← rd_n (p_data P0) 0 e;
  Returns (set_data (mem_write 0 bs (p_data P)) (set_end e P)).

