(* ===== verification/DnsName.v ===== *)
(** Domain names in packets (src/dns/dns.c): labels, pointers to labels, and the
    dictionary by which [dns_d_comp] replaces the end of a name by a pointer. *)

From S2P Require Import Prelude DnsPacket.

Open Scope Z_scope.

Definition DNS_D_MAXLABEL : Z := 63.
Definition DNS_D_MAXNAME : Z := 255.
Definition DNS_D_MAXPTRS : nat := 127.

Definition DOT : byte := 46.

(** ** Labels *)

(** [0x03 & (b >> 6)] *)
Definition tag_of (b : byte) : Z := Z.land 0x03 (Z.shiftr b 6).

(** The target of a pointer. *)
Definition ptr_target (hi lo : byte) : Z := Z.lor (Z.shiftl (Z.land 0x3f hi) 8) (Z.land 0xff lo).

(** [dns_l_expand]: the length of the label, [*nxt] and the label; its callers
    pass buffers of [DNS_D_MAXLABEL + 1] bytes, where every label fits.  [ptrs]
    is how many more pointers may be followed. *)
Fixpoint l_expand_loop (ptrs : nat) (src : Z) (data : bytes) (e : Z) : run (Z * Z * bytes) :=
  let invalid := Returns (0, u16 e, []) in
  if e <=? src then invalid
  else
    b ← rd data src;
    if tag_of b =? 0 then
      let len := Z.land 0x3f b in
      let src := u16 (src + 1) in
      if e - src <? len then invalid
      else label ← rd_n data src len; Returns (len, u16 (src + len), label)
    else if tag_of b =? 3 then
      match ptrs with
      | O => invalid
      | S ptrs' =>
        if e - src <? 2 then invalid
        else lo ← rd data (src + 1); l_expand_loop ptrs' (ptr_target b lo) data e
      end
    else invalid.

Definition dns_l_expand (src : Z) (data : bytes) (e : Z) : run (Z * Z * bytes) :=
  l_expand_loop DNS_D_MAXPTRS src data e.

Definition dns_l_skip (src : Z) (data : bytes) (e : Z) : run Z :=
  let invalid := Returns (u16 e) in
  if e <=? src then invalid
  else
    b ← rd data src;
    if tag_of b =? 0 then
      let len := Z.land 0x3f b in
      let src := u16 (src + 1) in
      if e - src <? len then invalid
      else if len =? 0 then invalid else Returns (u16 (src + len))
    else invalid.

(** ** Names as text *)

Definition dns_d_isanchored (src : bytes) : bool :=
  match last src with Some b => b =? DOT | None => false end.

Definition dns_d_ndots (src : bytes) : Z := zlen (filter (λ b, b = DOT) src).

(** The loops of [dns_d_trim]: without leading dots, and without the second of
    two dots; [lc] is the byte before. *)
Fixpoint trim_leading (src : bytes) : bytes :=
  match src with
  | b :: src' => if b =? DOT then trim_leading src' else src
  | [] => []
  end.

Fixpoint trim_dots (lc : byte) (src : bytes) : bytes :=
  match src with
  | b :: src' => if (b =? DOT) && (lc =? DOT) then trim_dots b src' else b :: trim_dots b src'
  | [] => []
  end.

(** A text into a buffer of [lim] bytes, with its terminator: its length. *)
Definition put_text (text dst : bytes) : Z * bytes := (zlen text, put_nul (put dst 0 text) (zlen text)).

Definition dns_d_trim (dst src : bytes) (anchor : bool) : Z * bytes :=
  let src := trim_leading src in
  let lc := default 0 (last src) in
  let text := trim_dots 0 src in
  put_text (if anchor && negb (lc =? DOT) then text ++ [DOT] else text) dst.

Definition dns_d_anchor (dst src : bytes) : Z * bytes :=
  if zlen src =? 0 then (0, dst)
  else put_text (if dns_d_isanchored src then src else src ++ [DOT]) dst.

(** [dns_d_init]: the [if] for [DNS_D_ANCHOR] is not an [else if], so that what
    [dns_d_trim] wrote is overwritten in any case. *)
Definition dns_d_init (dst src : bytes) (trim anchor : bool) : bytes :=
  let dst := if trim then (dns_d_trim dst src anchor).2 else dst in
  if anchor then (dns_d_anchor dst src).2 else (put_text src dst).2.

(** What follows the first dot after the first byte; the dot itself is left out
    unless nothing follows it. *)
Fixpoint after_dot (src : bytes) : option bytes :=
  match src with
  | [] => None
  | b :: src' => if b =? DOT then Some src else after_dot src'
  end.

Definition dns_d_cleave (dst src : bytes) : Z * bytes :=
  match src with
  | [] => (0, dst)
  | _ :: src' =>
    match after_dot src' with
    | None => (0, dst)
    | Some rest => put_text (if 1 <? zlen rest then tail rest else rest) dst
    end
  end.

(** ** Compression *)

(** The bytes before the terminator. *)
Definition tolower (b : byte) : byte := if (65 <=? b) && (b <=? 90) then b + 32 else b.

Fixpoint strcasecmp (a b : bytes) : Z :=
  match a, b with
  | [], [] => 0
  | [], y :: _ => - tolower y
  | x :: _, [] => tolower x
  | x :: a', y :: b' =>
    if tolower x - tolower y =? 0 then if x =? 0 then 0 else strcasecmp a' b' else tolower x - tolower y
  end.

(** The loop over the text: where the length of the label goes ([dst.p]), where
    the next byte goes ([dst.x]), and how many bytes the label has so far
    ([src.x - src.p]). *)
Fixpoint comp_labels (src dst : bytes) (dp dx n : Z) : bytes * Z * Z * Z :=
  match src with
  | [] => (dst, dp, dx, n)
  | ch :: src' =>
    if ch =? DOT then comp_labels src' (put dst dp [Z.land 0x3f n]) dx (dx + 1) 0
    else comp_labels src' (put dst dx [ch]) dp (dx + 1) (n + 1)
  end.

(** The name in the format of packets, and its length. *)
Definition comp_name (src dst : bytes) : bytes * Z :=
  let '(dst, dp, dx, n) := comp_labels src dst 0 1 0 in
  let '(dst, dp) := if 0 <? n then (put dst dp [Z.land 0x3f n], dx) else (dst, dp) in
  if 1 <? dp then (put dst dp [0], dp + 1) else (dst, dp).

Section Comp.
Context (P : dns_packet) (dst : bytes).

Abbreviation expand_a x := (dns_l_expand x dst (zlen dst)).
Abbreviation expand_b x := (dns_l_expand x (p_data P) (p_end P)).

(** The names from [a] and [b] on, label by label, as long as they are the same:
    what is in [a] and [b] then.  Each turn goes on in [dst], where names have
    no pointers: the fuel is its size. *)
Fixpoint same_labels (fuel : nat) (a b : Z * Z * bytes) : run (Z * Z * bytes * (Z * Z * bytes)) :=
  let '(alen, ay, alabel) := a in
  let '(blen, by_, blabel) := b in
  if negb (alen =? 0) && negb (blen =? 0) && (strcasecmp alabel blabel =? 0) then
    match fuel with
    | O => Forever
    | S fuel' => a ← expand_a ay; b ← expand_b by_; same_labels fuel' a b
    end
  else Returns (a, b).

(** The labels of a name of the dictionary, [b.p] at the first.  [a.len] and
    [a.label] are what the last comparison left there; only the position
    [a.y = ax] is set back for the next. *)
Fixpoint search_name (fuel : nat) (ax alen : Z) (alabel : bytes) (bp : Z) : run (option Z * (Z * bytes)) :=
  '(blen, bx, blabel) ← expand_b bp;
  if blen =? 0 then Returns (None, (alen, alabel))
  else
    match fuel with
    | O => Forever
    | S fuel' =>
      '(alen, _, alabel, (blen, _, _)) ← same_labels (length dst) (alen, ax, alabel) (blen, bx, blabel);
      if (alen =? 0) && (blen =? 0) && (bp <=? 0x3fff) then Returns (Some bp, (alen, alabel))
      else search_name fuel' ax alen alabel bx
    end.

(** [for (i = 0; i < lengthof(P->dict) && P->dict[i]; i++)] *)
Fixpoint search_dict (dict : list Z) (ax alen : Z) (alabel : bytes) : run (option Z) :=
  match dict with
  | [] => Returns None
  | d :: dict' =>
    if d =? 0 then Returns None
    else
      '(found, (alen, alabel)) ← search_name (S (Z.to_nat (p_end P))) ax alen alabel d;
      match found with Some bp => Returns (Some bp) | None => search_dict dict' ax alen alabel end
  end.

(** The labels of the name in [dst], [a.p] at the first: where a pointer goes,
    and to where. *)
Fixpoint search_labels (fuel : nat) (ap : Z) : run (option (Z * Z)) :=
  '(alen, ax, alabel) ← expand_a ap;
  if alen =? 0 then Returns None
  else
    match fuel with
    | O => Forever
    | S fuel' =>
      found ← search_dict (p_dict P) ax alen alabel;
      match found with Some bp => Returns (Some (ap, bp)) | None => search_labels fuel' ax end
    end.

End Comp.

(** [dns_d_comp]: the length, and the buffer; 0 is [DNS_EILLEGAL].  The buffer
    is apart from the bytes of the packet up to its end. *)
Definition dns_d_comp (P : dns_packet) (dst src : bytes) : run (Z * bytes) :=
  let '(dst, dp) := comp_name src dst in
  if dp <? zlen dst then
    found ← search_labels P dst (length dst) 0;
    match found with
    | Some (ap, bp) =>
      dst ← wr dst ap [Z.lor 0xc0 (Z.land 0x3f (Z.shiftr bp 8)); Z.land 0xff bp];
      Returns (u16 (ap + 2), dst)
    | None => Returns (dp, dst)
    end
  else Returns (dp, dst).

(** ** Skipping and expanding *)

(** Each turn goes on in the packet. *)
Fixpoint d_skip_loop (fuel : nat) (src : Z) (data : bytes) (e : Z) : run Z :=
  match fuel with
  | O => Forever
  | S fuel' =>
    let invalid := Returns (u16 e) in
    if e <=? src then invalid
    else
      b ← rd data src;
      if tag_of b =? 0 then
        let len := Z.land 0x3f b in
        let src := u16 (src + 1) in
        if len =? 0 then Returns src
        else if len <? e - src then d_skip_loop fuel' (u16 (src + len)) data e
        else invalid
      else if tag_of b =? 3 then
        if e - src <? 2 then invalid else Returns (u16 (src + 2))
      else invalid
  end.

Definition dns_d_skip (src : Z) (P : dns_packet) : run Z :=
  d_skip_loop (S (Z.to_nat (p_end P))) src (p_data P) (p_end P).

Section Expand.
Context (data : bytes) (e : Z).

(** The loop of [dns_d_expand], a label at a time: [ptrs] is how many pointers
    may be followed before the next label, [dstp] the length so far.  When more
    labels have been read than the packet has bytes, one of them was read twice
    and the loop does not end. *)
Fixpoint expand_labels (fuel : nat) {struct fuel} : nat → Z → bytes → Z → run (Z * bytes) :=
  fix expand_ptrs (ptrs : nat) (src : Z) (dst : bytes) (dstp : Z) {struct ptrs} : run (Z * bytes) :=
    let illegal := Returns (0, put_nul dst dstp) in
    if e <=? src then illegal
    else
      b ← rd data src;
      if tag_of b =? 0 then
        let len := Z.land 0x3f b in
        if len =? 0 then
          let '(dst, dstp) := if dstp =? 0 then (put dst dstp [DOT], dstp + 1) else (dst, dstp) in
          Returns (dstp, put_nul dst dstp)
        else
          let src := u16 (src + 1) in
          if e - src <? len then illegal
          else
            label ← rd_n data src len;
            let dst := put dst dstp label in
            let dst := put dst (dstp + len) [DOT] in
            match fuel with
            | O => Forever
            | S fuel' => expand_labels fuel' DNS_D_MAXPTRS (u16 (src + len)) dst (dstp + len + 1)
            end
      else if tag_of b =? 3 then
        match ptrs with
        | O => illegal
        | S ptrs' =>
          if e - src <? 2 then illegal
          else lo ← rd data (src + 1); expand_ptrs ptrs' (ptr_target b lo) dst dstp
        end
      else illegal.

End Expand.

(** [dns_d_expand]: the length, and the buffer; 0 is [DNS_EILLEGAL]. *)
Definition dns_d_expand (dst : bytes) (src : Z) (P : dns_packet) : run (Z * bytes) :=
  expand_labels (p_data P) (p_end P) (Z.to_nat (p_end P)) DNS_D_MAXPTRS src dst 0.

(** ** The dictionary *)

(** The entry [lptr], if there is one before the first free slot, becomes [dn]. *)
Fixpoint dict_replace (lptr dn : Z) (dict : list Z) : option (list Z) :=
  match dict with
  | [] => None
  | d :: dict' => if d =? 0 then None else if d =? lptr then Some (dn :: dict') else cons d <$> dict_replace lptr dn dict'
  end.

Fixpoint dict_append (dn : Z) (dict : list Z) : list Z :=
  match dict with
  | [] => []
  | d :: dict' => if d =? 0 then dn :: dict' else d :: dict_append dn dict'
  end.

Fixpoint dictadd_loop (fuel : nat) (P : dns_packet) (dn lp : Z) : run (list Z) :=
  if p_end P <=? lp then Returns (dict_append dn (p_dict P))
  else
    match fuel with
    | O => Forever
    | S fuel' =>
      b ← rd (p_data P) lp;
      replaced ←
        (if (Z.land 0xc0 b =? 0xc0) && (2 <=? p_end P - lp) && negb (lp =? dn) then
           lo ← rd (p_data P) (lp + 1); Returns (dict_replace (ptr_target b lo) dn (p_dict P))
         else Returns None);
      match replaced with
      | Some dict => Returns dict
      | None => lp ← dns_l_skip lp (p_data P) (p_end P); dictadd_loop fuel' P dn lp
      end
    end.

Definition dns_p_dictadd (P : dns_packet) (dn : Z) : run dns_packet :=
  dict ← dictadd_loop (S (Z.to_nat (p_end P))) P dn dn; Returns (set_dict dict P).

(** [dns_d_push] *)
Definition dns_d_push (P : dns_packet) (dn : bytes) : run (option dns_errno * dns_packet) :=
  let e := Z.to_nat (p_end P) in
  '(len, dst) ← dns_d_comp P (drop e (p_data P)) dn;
  let P' := set_data (take e (p_data P) ++ dst) P in
  if len =? 0 then Returns (Some DNS_EILLEGAL, P')
  else if zlen (drop e (p_data P)) <? len then Returns (Some DNS_ENOBUFS, P')
  else
    P'' ← dns_p_dictadd (set_end (p_end P + len) P') (u16 (p_end P));
    Returns (None, P'').
