(* ===== verification/DnsExpand.v ===== *)
(** Reading names: which bytes of a packet are a name, what [dns_d_expand],
    [dns_d_skip] and [dns_l_expand] make of them, and when they return. *)

From S2P Require Import Prelude DnsPacket DnsName.

Open Scope Z_scope.

(** ** Bytes *)

Lemma land_63 b : Z.land 63 b = b mod 64.
Proof. rewrite Z.land_comm. change 63 with (Z.ones 6). by rewrite Z.land_ones. Qed.

Lemma tag_of_div b : tag_of b = b / 64 mod 4.
Proof.
  unfold tag_of. rewrite Z.land_comm. change 3 with (Z.ones 2). by rewrite Z.land_ones, Z.shiftr_div_pow2.
Qed.

Lemma tag_cases b : byte_ok b →
  (b < 64 ∧ tag_of b = 0 ∧ Z.land 63 b = b) ∨ (64 <= b < 192 ∧ (tag_of b =? 0) = false ∧ (tag_of b =? 3) = false) ∨
  (192 <= b ∧ tag_of b = 3).
Proof.
  unfold byte_ok, is_uint. intros Hb. rewrite tag_of_div, land_63. change (2 ^ 8) with 256 in Hb.
  pose proof (Z.div_mod b 64 ltac:(lia)). pose proof (Z.mod_pos_bound b 64 ltac:(lia)).
  assert (b / 64 = 0 ∨ b / 64 = 1 ∨ b / 64 = 2 ∨ b / 64 = 3) as [E|[E|[E|E]]] by lia; rewrite E.
  - left. split; [lia|]. split; [done|]. apply Z.mod_small. lia.
  - right. left. split; [lia|done].
  - right. left. split; [lia|done].
  - right. right. split; [lia|done].
Qed.

Lemma ptr_target_eq hi lo : byte_ok hi → byte_ok lo → ptr_target hi lo = hi mod 64 * 256 + lo.
Proof.
  unfold byte_ok, is_uint, ptr_target. change (2 ^ 8) with 256. intros Hh Hl. rewrite land_63, Z.land_comm, land_255.
  rewrite (Z.mod_small lo) by lia. rewrite Z.lor_comm, lor_shiftl_add by (lia || done). lia.
Qed.

Lemma ptr_target_range hi lo : byte_ok hi → byte_ok lo → 0 <= ptr_target hi lo < 2 ^ 14.
Proof.
  intros Hh Hl. rewrite ptr_target_eq by done. unfold byte_ok, is_uint in *.
  pose proof (Z.mod_pos_bound hi 64 ltac:(lia)). lia.
Qed.

(** The bytes of a pointer. *)
Lemma ptr_target_bytes t : 0 <= t <= 0x3fff →
  let hi := Z.lor 0xc0 (Z.land 0x3f (Z.shiftr t 8)) in let lo := Z.land 0xff t in
  byte_ok hi ∧ byte_ok lo ∧ 192 <= hi ∧ ptr_target hi lo = t.
Proof.
  intros Ht hi lo. assert (hi = 192 + t / 256) as ->.
  { unfold hi. rewrite land_63, Z.shiftr_div_pow2 by lia. change (2 ^ 8) with 256.
    rewrite (Z.mod_small (t / 256)) by (pose proof (Z.div_lt_upper_bound t 256 64); pose proof (Z.div_pos t 256); lia).
    change 0xc0 with (Z.shiftl 3 6). rewrite Z.lor_comm, lor_shiftl_add; [change (3 ≪ 6) with 192; lia|done|].
    unfold is_uint. pose proof (Z.div_lt_upper_bound t 256 64). pose proof (Z.div_pos t 256). lia. }
  assert (lo = t mod 256) as -> by (unfold lo; by rewrite Z.land_comm, land_255).
  pose proof (Z.div_mod t 256 ltac:(lia)). pose proof (Z.mod_pos_bound t 256 ltac:(lia)).
  assert (0 <= t / 256 < 64) by lia.
  assert (byte_ok (192 + t / 256)) by (unfold byte_ok, is_uint; lia).
  assert (byte_ok (t mod 256)) by (unfold byte_ok, is_uint; lia).
  do 2 (split; [done|]). split; [lia|]. rewrite ptr_target_eq by done.
  replace (192 + t / 256) with (t / 256 + 3 * 64) by lia. rewrite Z.mod_add, Z.mod_small by lia. lia.
Qed.

(** ** Memory *)

Lemma rd_in data i : 0 <= i < zlen data → ∃ b, rd data i = Returns b ∧ data !! Z.to_nat i = Some b.
Proof.
  intros Hi. unfold rd. destruct (lookup_lt_is_Some_2 data (Z.to_nat i)) as [b Hb]; [lia|]. rewrite Hb. by exists b.
Qed.

Lemma rd_at data i b : data !! Z.to_nat i = Some b → rd data i = Returns b.
Proof. unfold rd. by intros ->. Qed.

Lemma rd_ok data i : bytes_ok data → 0 <= i < zlen data → ∃ b, rd data i = Returns b ∧ byte_ok b.
Proof.
  intros Hok Hi. destruct (rd_in data i Hi) as (b & Hr & Hb). exists b. split; [done|].
  by eapply (Forall_lookup_1 _ data).
Qed.

Lemma rd_n_in data i n : i + n <= zlen data → rd_n data i n = Returns (mem_read (Z.to_nat i) (Z.to_nat n) data).
Proof. intros. unfold rd_n. by bool_cases. Qed.

Lemma u16_id x : 0 <= x < 65536 → u16 x = x.
Proof. intros. apply uwrap_id. unfold is_uint. lia. Qed.

(** A packet: its bytes are within the memory, at offsets of 16 bits. *)
Definition data_ok (data : bytes) (e : Z) : Prop := bytes_ok data ∧ 0 <= e <= zlen data ∧ e < 65536.

Definition packet_ok (P : dns_packet) : Prop := data_ok (p_data P) (p_end P).

#[export] Instance data_ok_dec data e : Decision (data_ok data e).
Proof. unfold data_ok. apply _. Defined.
#[export] Instance packet_ok_dec P : Decision (packet_ok P).
Proof. unfold packet_ok. apply _. Defined.

(** ** Names *)

Section Names.
Context (data : bytes) (e : Z).

(** A pointer at [src], to [tgt]; a label. *)
Definition pointer_at (src tgt : Z) : Prop :=
  0 <= src ∧ src + 2 <= e ∧ ∃ hi lo, data !! Z.to_nat src = Some hi ∧ data !! Z.to_nat (src + 1) = Some lo ∧
    192 <= hi ∧ tgt = ptr_target hi lo.

Definition label_at (src : Z) (l : bytes) : Prop :=
  0 <= src ∧ src + 1 + zlen l <= e ∧ 0 < zlen l < 64 ∧ data !! Z.to_nat src = Some (zlen l) ∧
  mem_read (Z.to_nat (src + 1)) (length l) data = l.

Definition root_at (src : Z) : Prop := 0 <= src < e ∧ data !! Z.to_nat src = Some 0.

(** The name at [src]: no more than [K] pointers in a row, no more than [n]
    before its first label. *)
Inductive name_at (K : nat) : nat → Z → list bytes → Prop :=
| name_root n src : root_at src → name_at K n src []
| name_label n src l ls : label_at src l → name_at K K (src + 1 + zlen l) ls → name_at K n src (l :: ls)
| name_ptr n src tgt ls : pointer_at src tgt → name_at K n tgt ls → name_at K (S n) src ls.

(** ** Text *)

Definition labels_text (ls : list bytes) : bytes := concat (map (λ l, l ++ [DOT]) ls).
Definition name_text (ls : list bytes) : bytes := match ls with [] => [DOT] | _ => labels_text ls end.

End Names.

Lemma name_text_pos data e K n src ls : name_at data e K n src ls → 0 < zlen (name_text ls).
Proof.
  induction 1 as [| n src l ls (_ & _ & Hl & _)|]; [done| |done]. simpl. unfold labels_text. simpl. rewrite !length_app. lia.
Qed.

(** ** Stores into a buffer *)

Lemma mem_write_lookup {A} p (xs m : list A) i :
  mem_write p xs m !! i =
    if (i <? length m)%nat then if (p <=? i)%nat && (i <? p + length xs)%nat then xs !! (i - p)%nat else m !! i else None.
Proof.
  unfold mem_write. destruct (Nat.ltb_spec i (length m)) as [Hi|Hi].
  2: { apply lookup_ge_None. rewrite length_take. lia. }
  rewrite lookup_take_lt by done. destruct (Nat.leb_spec p i) as [Hp|Hp]; cbn [andb].
  - rewrite lookup_app_r by (rewrite length_take; lia). rewrite length_take, Nat.min_l by lia.
    destruct (Nat.ltb_spec i (p + length xs)).
    + by rewrite lookup_app_l by lia.
    + rewrite lookup_app_r by lia. rewrite lookup_drop. f_equal. lia.
  - rewrite lookup_app_l by (rewrite length_take; lia). by rewrite lookup_take_lt.
Qed.

Lemma mem_write_keeps_length {A} p (xs m : list A) : length (mem_write p xs m) = length m.
Proof.
  apply Nat.le_antisymm.
  - unfold mem_write. rewrite length_take. lia.
  - destruct (decide (length m = 0%nat)); [lia|]. assert (is_Some (mem_write p xs m !! (length m - 1)%nat)) as Hs.
    { rewrite mem_write_lookup. bool_cases; cbn [andb]; try (apply lookup_lt_is_Some_2; lia). }
    apply lookup_lt_is_Some_1 in Hs. lia.
Qed.

Lemma put_length dst i bs : length (put dst i bs) = length dst.
Proof. apply mem_write_keeps_length. Qed.

Lemma put_nul_length dst i : length (put_nul dst i) = length dst.
Proof. apply put_length. Qed.

Lemma put_app dst i xs ys : 0 <= i → put (put dst i xs) (i + zlen xs) ys = put dst i (xs ++ ys).
Proof.
  intros Hi. unfold put. apply list_eq. intros k. rewrite !mem_write_lookup, mem_write_keeps_length, length_app.
  replace (Z.to_nat (i + zlen xs)) with (Z.to_nat i + length xs)%nat by lia.
  destruct (Nat.ltb_spec k (length dst)); [|done].
  destruct (Nat.leb_spec (Z.to_nat i) k) as [Hp|Hp]; cbn [andb].
  - destruct (Nat.ltb_spec k (Z.to_nat i + length xs)) as [Hx|Hx].
    + rewrite (proj2 (Nat.leb_gt _ _)) by lia. cbn [andb]. rewrite (proj2 (Nat.ltb_lt _ _)) by lia.
      by rewrite lookup_app_l by lia.
    + rewrite (proj2 (Nat.leb_le _ _)) by lia. cbn [andb].
      replace (Z.to_nat i + (length xs + length ys))%nat with (Z.to_nat i + length xs + length ys)%nat by lia.
      destruct (Nat.ltb_spec k (Z.to_nat i + length xs + length ys)); [|done].
      rewrite lookup_app_r by lia. f_equal. lia.
  - by rewrite (proj2 (Nat.leb_gt _ _)) by lia.
Qed.

Lemma put_nil dst i : put dst i [] = dst.
Proof. apply mem_write_nil. Qed.

Lemma labels_text_cons l ls : labels_text (l :: ls) = l ++ [DOT] ++ labels_text ls.
Proof. unfold labels_text. simpl. by rewrite <-app_assoc. Qed.

(** ** One label *)

(** The tests of the code, decided by arithmetic. *)
Ltac leb_no := rewrite (proj2 (Z.leb_gt _ _)) by lia.
Ltac leb_yes := rewrite (proj2 (Z.leb_le _ _)) by lia.
Ltac ltb_no := rewrite (proj2 (Z.ltb_ge _ _)) by lia.
Ltac ltb_yes := rewrite (proj2 (Z.ltb_lt _ _)) by lia.
Ltac eqb_no := rewrite (proj2 (Z.eqb_neq _ _)) by lia.
Ltac in_run := cbn [mbind run_bind].

Section Reading.
Context (data : bytes) (e : Z) (Hdata : data_ok data e).

Abbreviation expand := (expand_labels data e).

(** The body of the loop. *)
Lemma expand_eq fuel ptrs src dst dstp :
  expand fuel ptrs src dst dstp =
    if e <=? src then Returns (0, put_nul dst dstp)
    else
      b ← rd data src;
      if tag_of b =? 0 then
        if Z.land 0x3f b =? 0 then
          let '(dst, dstp) := if dstp =? 0 then (put dst dstp [DOT], dstp + 1) else (dst, dstp) in
          Returns (dstp, put_nul dst dstp)
        else
          if e - u16 (src + 1) <? Z.land 0x3f b then Returns (0, put_nul dst dstp)
          else
            label ← rd_n data (u16 (src + 1)) (Z.land 0x3f b);
            match fuel with
            | O => Forever
            | S fuel' => expand fuel' DNS_D_MAXPTRS (u16 (u16 (src + 1) + Z.land 0x3f b))
                (put (put dst dstp label) (dstp + Z.land 0x3f b) [DOT]) (dstp + Z.land 0x3f b + 1)
            end
      else if tag_of b =? 3 then
        match ptrs with
        | O => Returns (0, put_nul dst dstp)
        | S ptrs' =>
          if e - src <? 2 then Returns (0, put_nul dst dstp)
          else lo ← rd data (src + 1); expand fuel ptrs' (ptr_target b lo) dst dstp
        end
      else Returns (0, put_nul dst dstp).
Proof. destruct fuel, ptrs; reflexivity. Qed.

(** What is at an offset of the packet. *)
Lemma at_cases src : 0 <= src < e → ∃ b, rd data src = Returns b ∧ byte_ok b ∧ data !! Z.to_nat src = Some b.
Proof using Hdata.
  intros Hs. destruct Hdata as (Hok & He & _). destruct (rd_in data src) as (b & Hr & Hb); [lia|].
  exists b. split; [done|]. split; [|done]. by eapply (Forall_lookup_1 _ data).
Qed.

(** A label that is not cut short. *)
Lemma label_there src b :
  0 <= src < e → data !! Z.to_nat src = Some b → 0 < b < 64 → b <= e - (src + 1) →
  label_at data e src (mem_read (Z.to_nat (src + 1)) (Z.to_nat b) data) ∧
  length (mem_read (Z.to_nat (src + 1)) (Z.to_nat b) data) = Z.to_nat b.
Proof using Hdata.
  intros Hs Hb Hr Hl. destruct Hdata as (_ & He & _).
  assert (length (mem_read (Z.to_nat (src + 1)) (Z.to_nat b) data) = Z.to_nat b) as Hlen by (apply mem_read_length; lia).
  split; [|done]. unfold label_at. rewrite Hlen, Z2Nat.id by lia. split; [lia|]. split; [lia|]. split; [lia|]. done.
Qed.

(** A pointer that is not cut short. *)
Lemma pointer_there src b :
  0 <= src → src + 2 <= e → data !! Z.to_nat src = Some b → 192 <= b →
  ∃ lo, rd data (src + 1) = Returns lo ∧ pointer_at data e src (ptr_target b lo) ∧ 0 <= ptr_target b lo.
Proof using Hdata.
  intros Hs Hl Hb H192. destruct (at_cases (src + 1)) as (lo & Hr & Hlo & Hl2); [lia|]. exists lo. split; [done|].
  destruct Hdata as (Hok & _). assert (byte_ok b) as Hbb by by eapply (Forall_lookup_1 _ data).
  split; [|pose proof (ptr_target_range b lo Hbb Hlo); lia].
  split; [done|]. split; [done|]. by exists b, lo.
Qed.

(** What a turn does with a label, a pointer, the root. *)
Lemma expand_label fuel ptrs src l dst dstp :
  label_at data e src l → 0 <= dstp →
  expand fuel ptrs src dst dstp =
    match fuel with
    | O => Forever
    | S fuel' => expand fuel' DNS_D_MAXPTRS (src + 1 + zlen l) (put dst dstp (l ++ [DOT])) (dstp + zlen l + 1)
    end.
Proof using Hdata.
  intros (Hs & Hfit & Hz & Hb & Hread) Hd. destruct Hdata as (_ & He & H16). rewrite expand_eq. leb_no.
  rewrite (rd_at _ _ _ Hb). in_run.
  destruct (tag_cases (zlen l)) as [(_ & -> & ->)|[[? _]|[? _]]]; [unfold byte_ok, is_uint; lia| |lia|lia].
  rewrite Z.eqb_refl. eqb_no. rewrite u16_id by lia. ltb_no. rewrite rd_n_in by lia. in_run.
  rewrite Nat2Z.id, Hread. destruct fuel; [done|]. rewrite u16_id by lia. by rewrite put_app.
Qed.

Lemma expand_pointer fuel ptrs src tgt dst dstp :
  pointer_at data e src tgt → expand fuel (S ptrs) src dst dstp = expand fuel ptrs tgt dst dstp.
Proof using Hdata.
  intros (Hs & Hfit & hi & lo & Hhi & Hlo & H192 & ->). destruct Hdata as (Hok & He & H16). rewrite expand_eq. leb_no.
  rewrite (rd_at _ _ _ Hhi). in_run. assert (byte_ok hi) as Hb by by eapply (Forall_lookup_1 _ data).
  destruct (tag_cases hi Hb) as [[? _]|[[? _]|(_ & ->)]]; [lia|lia|]. cbn [Z.eqb Pos.eqb]. ltb_no.
  by rewrite (rd_at _ _ _ Hlo).
Qed.

Lemma expand_root fuel ptrs src dst dstp :
  root_at data e src → expand fuel ptrs src dst dstp =
    let text := if dstp =? 0 then [DOT] else [] in
    Returns (dstp + zlen text, put_nul (put dst dstp text) (dstp + zlen text)).
Proof using Hdata.
  intros [Hs Hb]. rewrite expand_eq. leb_no. rewrite (rd_at _ _ _ Hb). in_run.
  change (tag_of 0 =? 0) with true. change (Z.land 63 0 =? 0) with true. cbv iota zeta.
  destruct (dstp =? 0); [done|]. by rewrite put_nil, Z.add_0_r.
Qed.

Lemma pointer_target src tgt : pointer_at data e src tgt → 0 <= tgt.
Proof using Hdata.
  intros (Hs & Hfit & hi & lo & Hhi & Hlo & H192 & ->). destruct Hdata as (Hok & He & H16).
  pose proof (ptr_target_range hi lo) as Hr. apply Hr; by eapply (Forall_lookup_1 _ data).
Qed.

Lemma label_not_pointer src l tgt : label_at data e src l → ¬ pointer_at data e src tgt.
Proof using.
  intros (_ & _ & Hl & Hb & _) (_ & _ & hi & lo & Hhi & _ & H192 & _). rewrite Hb in Hhi. simplify_eq. lia.
Qed.

Lemma label_functional src l l' : label_at data e src l → label_at data e src l' → l = l'.
Proof using.
  intros (_ & _ & _ & Hb & Hread) (_ & _ & _ & Hb' & Hread'). rewrite Hb in Hb'.
  rewrite <-Hread, <-Hread'. f_equal. injection Hb'. lia.
Qed.

Lemma pointer_functional src a b : pointer_at data e src a → pointer_at data e src b → a = b.
Proof using.
  intros (_ & _ & hi & lo & Hh & Hlo & _ & ->) (_ & _ & hi' & lo' & Hh' & Hlo' & _ & ->). congruence.
Qed.

(** ** A name expands to its text *)

Lemma expand_name K n src ls :
  name_at data e K n src ls → ∀ fuel ptrs dst dstp,
  (K <= DNS_D_MAXPTRS)%nat → (length ls <= fuel)%nat → (n <= ptrs)%nat → 0 <= dstp →
  let text := match ls with [] => if dstp =? 0 then [DOT] else [] | _ => labels_text ls end in
  expand fuel ptrs src dst dstp = Returns (dstp + zlen text, put_nul (put dst dstp text) (dstp + zlen text)).
Proof using Hdata.
  intros Hn. induction Hn as [n src Hr|n src l ls Hl Hn IH|n src tgt ls Hp Hn IH];
    intros fuel ptrs dst dstp HK Hf Hptrs Hd text.
  - by apply expand_root.
  - pose proof Hl as (Hs & _). rewrite (expand_label _ _ _ l) by done. destruct fuel as [|fuel]; [simpl in Hf; lia|].
    rewrite IH by (simpl in Hf; lia). subst text. rewrite labels_text_cons.
    assert ((match ls with [] => if dstp + zlen l + 1 =? 0 then [DOT] else [] | _ => labels_text ls end) = labels_text ls) as ->.
    { destruct ls; [|done]. by eqb_no. }
    replace (dstp + zlen l + 1) with (dstp + zlen (l ++ [DOT])) by (rewrite length_app; simpl; lia).
    rewrite put_app by done. rewrite <-app_assoc. rewrite !length_app. simpl. do 2 f_equal; [lia|f_equal; lia].
  - destruct ptrs as [|ptrs]; [lia|]. rewrite (expand_pointer _ _ _ tgt) by done. apply IH; lia || done.
Qed.

(** ** What else may happen *)

(** Following [n] pointers. *)
Inductive resolves : nat → Z → Z → Prop :=
| resolves_here p : resolves 0 p p
| resolves_ptr n src tgt p : pointer_at data e src tgt → resolves n tgt p → resolves (S n) src p.

(** The offset after the next label, when at most [ptrs] pointers lead to it. *)
Definition next_within (ptrs : nat) (src src' : Z) : Prop :=
  ∃ n p l, (n <= ptrs)%nat ∧ resolves n src p ∧ label_at data e p l ∧ src' = p + 1 + zlen l.

Definition next_label : Z → Z → Prop := next_within DNS_D_MAXPTRS.

Lemma next_within_ptr ptrs src tgt src' :
  pointer_at data e src tgt → next_within ptrs tgt src' → next_within (S ptrs) src src'.
Proof using. intros Hp (n & p & l & Hn & Hr & Hl). exists (S n), p, l. split; [lia|]. split; [by eapply resolves_ptr|done]. Qed.

Lemma next_within_label ptrs src l : label_at data e src l → next_within ptrs src (src + 1 + zlen l).
Proof using. intros Hl. exists 0%nat, src, l. split; [lia|]. split; [constructor|done]. Qed.

(** The result of [expand]: nothing undefined; a length, of a name; or, for
    [Forever], that many labels. *)
Definition expand_outcome (fuel ptrs : nat) (src : Z) (r : run (Z * bytes)) : Prop :=
  match r with
  | Undefined => False
  | Forever => ∃ mid src', next_within ptrs src mid ∧ nsteps next_label fuel mid src'
  | Returns (n, _) => 0 <= n ∧ (n ≠ 0 → ∃ ls, name_at data e DNS_D_MAXPTRS ptrs src ls ∧ (length ls <= fuel)%nat)
  end.

(** One turn of the loop. *)
Lemma expand_turn fuel ptrs src dst dstp :
  0 <= src → 0 <= dstp →
  expand fuel ptrs src dst dstp = Returns (0, put_nul dst dstp) ∨
  (root_at data e src ∧ ∃ n d, expand fuel ptrs src dst dstp = Returns (n, d) ∧ 0 < n ∧ length d = length dst) ∨
  (∃ l, label_at data e src l ∧ expand fuel ptrs src dst dstp =
     match fuel with
     | O => Forever
     | S fuel' => expand fuel' DNS_D_MAXPTRS (src + 1 + zlen l) (put dst dstp (l ++ [DOT])) (dstp + zlen l + 1)
     end) ∨
  (∃ ptrs' tgt, ptrs = S ptrs' ∧ pointer_at data e src tgt ∧ 0 <= tgt ∧
     expand fuel ptrs src dst dstp = expand fuel ptrs' tgt dst dstp).
Proof using Hdata.
  intros Hs Hd. rewrite expand_eq. destruct (Z.leb_spec e src); [by left|].
  destruct (at_cases src) as (b & -> & Hbb & Hb); [lia|]. in_run. pose proof Hdata as (_ & He & H16).
  destruct (tag_cases b Hbb) as [(Hlt & -> & ->)|[(_ & -> & ->)|(H192 & ->)]]; [|by left|cbn [Z.eqb Pos.eqb]].
  - rewrite Z.eqb_refl. destruct (Z.eqb_spec b 0) as [->|Hb0].
    { right. left. split; [by split; [lia|]|]. destruct (Z.eqb_spec dstp 0); eexists _, _; (split; [done|]; split; [lia|]);
        by rewrite put_nul_length, ?put_length. }
    unfold byte_ok, is_uint in Hbb. rewrite u16_id by lia. destruct (Z.ltb_spec (e - (src + 1)) b); [by left|].
    right. right. left. destruct (label_there src b) as [Hlab Hlen]; [lia|done|lia|lia|].
    rewrite rd_n_in by lia. in_run. eexists. split; [exact Hlab|]. rewrite Hlen, Z2Nat.id by lia.
    destruct fuel; [done|]. rewrite u16_id by lia. f_equal.
    set (l := mem_read _ _ data) in *. replace b with (zlen l) by (rewrite Hlen; lia). by apply put_app.
  - destruct ptrs as [|ptrs]; [by left|]. destruct (Z.ltb_spec (e - src) 2); [by left|]. right. right. right.
    destruct (pointer_there src b) as (lo & -> & Hp & Ht); [lia|lia|done|done|]. by exists ptrs, (ptr_target b lo).
Qed.

Lemma expand_outcomes fuel : ∀ ptrs src dst dstp, 0 <= src → 0 <= dstp →
  expand_outcome fuel ptrs src (expand fuel ptrs src dst dstp).
Proof using Hdata.
  induction fuel as [|fuel IHf]; (induction ptrs as [|ptrs IHp]; intros src dst dstp Hs Hd;
    (match goal with |- context [expand ?f ?p _ _ _] => destruct (expand_turn f p src dst dstp Hs Hd)
      as [->|[(Hr & n & d & -> & Hn & _)|[(l & Hl & ->)|(ptrs' & tgt & Hq & Hp & Ht & ->)]]] end;
    [split; [lia|done]|split; [lia|]; intros _; exists []; split; [by apply name_root|simpl; lia]| |simplify_eq])).
  all: try (eexists _, _; split; [by apply next_within_label|constructor]).
  all: try (specialize (IHp tgt dst dstp Ht Hd); destruct (expand _ ptrs' _ _ _) as [| |[n d]]; [done| |];
    [destruct IHp as (mid & src' & Hn & Hst); exists mid, src'; split; [by eapply next_within_ptr|done]
    |destruct IHp as [Hn0 IHp]; split; [done|]; intros Hn; destruct (IHp Hn) as (ls & Hls & Hl);
     exists ls; split; [by eapply name_ptr|done]]).
  all: pose proof (proj1 Hl); match goal with |- context [expand ?f DNS_D_MAXPTRS ?x ?y ?z] =>
      pose proof (IHf DNS_D_MAXPTRS x y z ltac:(lia) ltac:(lia)) as Ho; destruct (expand f DNS_D_MAXPTRS x y z) as [| |[n d]] end; [done| |].
  all: try (destruct Ho as (mid & src' & Hm & Hst); eexists _, src'; split; [by apply next_within_label|by econstructor]).
  all: destruct Ho as [Hn0 Ho]; split; [done|]; intros Hn; destruct (Ho Hn) as (ls & Hls & Hll); exists (l :: ls);
    (split; [by apply name_label|simpl; lia]).
Qed.

Lemma expand_keeps_length fuel : ∀ ptrs src dst dstp n d, 0 <= src → 0 <= dstp →
  expand fuel ptrs src dst dstp = Returns (n, d) → length d = length dst.
Proof using Hdata.
  induction fuel as [|fuel IHf]; (induction ptrs as [|ptrs IHp]; intros src dst dstp n d Hs Hd;
    (match goal with |- context [expand ?f ?p _ _ _] => destruct (expand_turn f p src dst dstp Hs Hd)
      as [->|[(Hr & m & d' & -> & _ & Hl)|[(l & Hl & ->)|(ptrs' & tgt & Hq & Hp & Ht & ->)]]] end;
    [intros [= _ <-]; by rewrite put_nul_length|by intros [= _ <-]| |simplify_eq])).
  all: try done.
  all: try by apply IHp.
  all: pose proof (proj1 Hl); intros Hx; apply IHf in Hx; [by rewrite Hx, put_length|lia|lia].
Qed.

(** ** When it does not return *)

Lemma resolves_functional n src p : resolves n src p → ∀ m q l l',
  label_at data e p l → resolves m src q → label_at data e q l' → p = q ∧ l = l'.
Proof using.
  induction 1 as [p|n src tgt p Hp Hr IH]; intros m q l l' Hl Hm Hl'.
  - inversion Hm as [|? ? tgt' ? Hp']; subst; [|by destruct (label_not_pointer _ _ _ Hl Hp')].
    split; [done|by eapply label_functional].
  - inversion Hm as [|? ? tgt' ? Hp' Hm']; subst; [by destruct (label_not_pointer _ _ _ Hl' Hp)|].
    assert (tgt' = tgt) as -> by by eapply pointer_functional. by eapply IH.
Qed.

Lemma next_functional src a b : next_label src a → next_label src b → a = b.
Proof using.
  intros (n & p & l & _ & Hr & Hl & ->) (m & q & l' & _ & Hm & Hl' & ->).
  by destruct (resolves_functional _ _ _ Hr _ _ _ _ Hl Hm Hl') as [-> ->].
Qed.

Lemma next_range src src' : next_label src src' → 0 < src' <= e.
Proof using. intros (n & p & l & _ & _ & (Hp & He & Hl & _) & ->). lia. Qed.

(** The offsets a chain of labels goes through. *)
Lemma nsteps_path n src src' : nsteps next_label n src src' →
  ∃ path : list Z, length path = n ∧ Forall (λ p, 0 < p <= e) path ∧
    ∀ i p, path !! i = Some p → nsteps next_label (S i) src p.
Proof using.
  induction 1 as [src|n src mid src' Hs Hn (path & Hl & Hr & Hp)].
  - exists []. split; [done|]. by split.
  - exists (mid :: path). split; [simpl; lia|]. split; [constructor; [by eapply next_range|done]|].
    intros [|i] p Hi; simpl in Hi.
    + simplify_eq. eapply nsteps_l; [done|constructor].
    + eapply nsteps_l; [done|]. by apply Hp.
Qed.

Lemma nsteps_split n m src a b :
  nsteps next_label n src a → nsteps next_label (n + m) src b → nsteps next_label m a b.
Proof using.
  induction 1 as [src|n src mid a Hs Hn IH]; [done|]. simpl. intros Hb. inversion Hb as [|? ? mid' ? Hs' Hb']; subst.
  apply IH. by rewrite (next_functional _ _ _ Hs Hs').
Qed.

Lemma duplicate_positions (path : list Z) : ¬ NoDup path → ∃ i j p, (i < j)%nat ∧ path !! i = Some p ∧ path !! j = Some p.
Proof using.
  induction path as [|x path IH]; intros Hdup; [by destruct Hdup; constructor|]. destruct (decide (x ∈ path)) as [Hin|Hin].
  - apply list_elem_of_lookup in Hin as [j Hj]. exists 0%nat, (S j), x. split; [lia|done].
  - destruct IH as (i & j & p & Hij & Hi & Hj); [intros Hnd; apply Hdup; by constructor|].
    exists (S i), (S j), p. split; [lia|done].
Qed.

(** More labels than bytes: one of them is read twice. *)
Lemma long_chain_loops n src src' :
  nsteps next_label n src src' → (Z.to_nat e < n)%nat → ∃ p, rtc next_label src p ∧ tc next_label p p.
Proof using.
  intros Hn Hlt. destruct (nsteps_path _ _ _ Hn) as (path & Hl & Hr & Hp).
  assert (¬ NoDup path) as Hdup.
  { intros Hnd. assert (path ⊆ seqZ 1 e) as Hsub.
    { intros p Hin. rewrite Forall_forall in Hr. specialize (Hr p Hin). apply elem_of_seqZ. lia. }
    pose proof (submseteq_length _ _ (NoDup_submseteq _ _ Hnd Hsub)) as Hle. rewrite length_seqZ in Hle. lia. }
  destruct (duplicate_positions path Hdup) as (i & j & p & Hij & Hi & Hj).
  exists p. pose proof (Hp i p Hi) as Hni. pose proof (Hp j p Hj) as Hnj. split.
  - by apply rtc_nsteps_2 in Hni.
  - replace (S j) with (S i + (j - i))%nat in Hnj by lia. pose proof (nsteps_split _ _ _ _ _ Hni Hnj) as Hs.
    apply tc_nsteps. exists (j - i)%nat. split; [lia|done].
Qed.

(** From a loop there are chains of any length, *)
Lemma loop_chains p n : tc next_label p p → ∃ q, nsteps next_label n p q.
Proof using.
  intros Hl. assert (∀ m, ∃ k, (m <= k)%nat ∧ nsteps next_label k p p) as Hk.
  { induction m as [|m (k & Hmk & Hk)]; [exists 0%nat; split; [lia|constructor]|].
    apply tc_nsteps in Hl as (c & Hc & Hl). exists (k + c)%nat. split; [lia|]. by eapply nsteps_trans. }
  destruct (Hk n) as (k & Hnk & Hs). replace k with (n + (k - n))%nat in Hs by lia.
  apply nsteps_add_inv in Hs as (q & Hq & _). by exists q.
Qed.

(** and then the loop of the code takes another turn. *)
Lemma resolves_expand fuel n src p dst dstp : resolves n src p → ∀ ptrs, (n <= ptrs)%nat →
  ∃ ptrs', expand fuel ptrs src dst dstp = expand fuel ptrs' p dst dstp.
Proof using Hdata.
  induction 1 as [p|n src tgt p Hp Hr IH]; intros ptrs Hn; [by exists ptrs|]. destruct ptrs as [|ptrs]; [lia|].
  rewrite (expand_pointer _ _ _ tgt) by done. apply IH. lia.
Qed.

Lemma chain_forever fuel : ∀ ptrs src dst dstp mid src',
  0 <= dstp → next_within ptrs src mid → nsteps next_label fuel mid src' → expand fuel ptrs src dst dstp = Forever.
Proof using Hdata.
  induction fuel as [|fuel IH]; intros ptrs src dst dstp mid src' Hd (n & p & l & Hn & Hr & Hl & ->) Hst;
    match goal with |- context [expand ?f _ _ _ _] =>
      destruct (resolves_expand f _ _ _ dst dstp Hr ptrs Hn) as [ptrs' ->] end; rewrite (expand_label _ _ _ l) by done; [done|].
  inversion Hst as [|? ? mid ? Hm Hst']; subst. eapply IH; [lia|exact Hm|exact Hst'].
Qed.

Definition loops_from (src : Z) : Prop := ∃ p, rtc next_label src p ∧ tc next_label p p.

Lemma loop_forever fuel src dst : loops_from src → expand fuel DNS_D_MAXPTRS src dst 0 = Forever.
Proof using Hdata.
  intros (p & Hp & Hl). apply rtc_nsteps in Hp as [n Hn]. destruct (loop_chains p (S fuel) Hl) as [q Hq].
  pose proof (nsteps_trans _ _ _ _ _ Hn Hq) as Hs. replace (n + S fuel)%nat with (S fuel + n)%nat in Hs by lia.
  apply nsteps_add_inv in Hs as (r & Hr & _). inversion Hr as [|? ? mid ? Hm Hst]; subst.
  by eapply chain_forever.
Qed.

Lemma name_no_loop src ls : name_at data e DNS_D_MAXPTRS DNS_D_MAXPTRS src ls → ¬ loops_from src.
Proof using Hdata.
  intros Hn Hl. pose proof (expand_name _ _ _ _ Hn (length ls) DNS_D_MAXPTRS [] 0) as He.
  rewrite loop_forever in He by done. by specialize (He ltac:(lia) ltac:(lia) ltac:(lia) ltac:(lia)).
Qed.

(** A name is a chain of its labels: it has no more of them than bytes. *)
Lemma name_chain n src ls : name_at data e DNS_D_MAXPTRS n src ls → (n <= DNS_D_MAXPTRS)%nat → ls ≠ [] →
  ∃ mid src', next_within n src mid ∧ nsteps next_label (length ls - 1) mid src'.
Proof using.
  induction 1 as [n src Hr|n src l ls Hl Hn IH|n src tgt ls Hp Hn IH]; intros HK Hls; [done| |].
  - exists (src + 1 + zlen l). destruct ls as [|l' ls]; [exists (src + 1 + zlen l); split; [by apply next_within_label|constructor]|].
    destruct IH as (mid & src' & Hm & Hs); [lia|done|]. exists src'. split; [by apply next_within_label|].
    simpl in *. rewrite Nat.sub_0_r in Hs. by eapply nsteps_l.
  - destruct IH as (mid & src' & Hm & Hs); [lia|done|]. exists mid, src'. split; [by eapply next_within_ptr|done].
Qed.

Lemma name_few_labels src ls : name_at data e DNS_D_MAXPTRS DNS_D_MAXPTRS src ls → (length ls <= Z.to_nat e)%nat.
Proof using Hdata.
  intros Hn. destruct (decide (ls = [])) as [->|Hls]; [simpl; lia|]. apply dec_stable. intros Hlong.
  destruct (name_chain _ _ _ Hn) as (mid & src' & Hm & Hs); [lia|done|].
  apply (name_no_loop _ _ Hn). eapply (long_chain_loops (length ls)); [|lia].
  replace (length ls) with (S (length ls - 1)) by lia. by eapply nsteps_l.
Qed.

Lemma expand_forever_loops src dst : 0 <= src →
  expand (Z.to_nat e) DNS_D_MAXPTRS src dst 0 = Forever → loops_from src.
Proof using Hdata.
  intros Hs Hf. pose proof (expand_outcomes (Z.to_nat e) DNS_D_MAXPTRS src dst 0 Hs ltac:(lia)) as Ho. rewrite Hf in Ho.
  destruct Ho as (mid & src' & Hm & Hst). eapply (long_chain_loops (S (Z.to_nat e))); [|lia]. by eapply nsteps_l.
Qed.

Lemma name_expands src ls dst : name_at data e DNS_D_MAXPTRS DNS_D_MAXPTRS src ls →
  expand (Z.to_nat e) DNS_D_MAXPTRS src dst 0 =
    Returns (zlen (name_text ls), put_nul (put dst 0 (name_text ls)) (zlen (name_text ls))).
Proof using Hdata.
  intros Hn. pose proof (name_few_labels _ _ Hn). rewrite (expand_name _ _ _ _ Hn) by lia. by destruct ls.
Qed.

End Reading.

(** * Names are expanded within the packet, and only loops of labels never end *)

(** C38: on any packet and from any offset, [dns_d_expand] touches nothing
    outside of the packet.  It returns the text of a name if, and only if, the
    bytes at the offset are a name, with labels that end within the packet and
    no more than [DNS_D_MAXPTRS] pointers before each: then it gives the length
    of the text, and the buffer holds as much of it as fits, terminated.  It
    refuses what is no name, and it runs for ever exactly if the labels it
    meets lead back to one of them. *)
Theorem dns_d_expand_reads_names P dst src :
  packet_ok P → 0 <= src →
  match dns_d_expand dst src P with
  | Undefined => False
  | Forever => loops_from (p_data P) (p_end P) src
  | Returns (n, d) =>
    ¬ loops_from (p_data P) (p_end P) src ∧ length d = length dst ∧
    ((n = 0 ∧ ∀ ls, ¬ name_at (p_data P) (p_end P) DNS_D_MAXPTRS DNS_D_MAXPTRS src ls) ∨
     ∃ ls, name_at (p_data P) (p_end P) DNS_D_MAXPTRS DNS_D_MAXPTRS src ls ∧
       n = zlen (name_text ls) ∧ d = put_nul (put dst 0 (name_text ls)) n)
  end.
Proof.
  intros HP Hs. unfold dns_d_expand.
  pose proof (expand_outcomes _ _ HP (Z.to_nat (p_end P)) DNS_D_MAXPTRS src dst 0 Hs ltac:(lia)) as Ho.
  destruct (expand_labels _ _ _ _ _ _ _) as [| |[n d]] eqn:Hx; [done|by eapply expand_forever_loops|].
  assert (¬ loops_from (p_data P) (p_end P) src) as Hno by (intros Hl; by rewrite loop_forever in Hx).
  destruct Ho as [Hn Ho]. split; [done|]. destruct (decide (n = 0)) as [->|Hn0].
  - split; [exact (expand_keeps_length _ _ HP _ _ _ _ _ _ _ Hs (Z.le_refl 0) Hx)|]. left. split; [done|]. intros ls Hls. rewrite (name_expands _ _ HP _ _ _ Hls) in Hx.
    pose proof (name_text_pos _ _ _ _ _ _ Hls). simplify_eq. lia.
  - destruct (Ho Hn0) as (ls & Hls & _). rewrite (name_expands _ _ HP _ _ _ Hls) in Hx. simplify_eq.
    split; [by rewrite put_nul_length, put_length|]. right. by exists ls.
Qed.

(** A question for the name of an address: [x.ab], and [z.] with a pointer to [ab]. *)
Definition sample_packet : dns_packet :=
  mk_packet [] memo0 23 (replicate 12 0 ++ [1; 120; 2; 97; 98; 0; 1; 122; 0xc0; 14; 0] ++ replicate 9 0).

Lemma dns_d_expand_reads_names_witness :
  packet_ok sample_packet ∧
  dns_d_expand (replicate 8 7) 18 sample_packet = Returns (5, [122; 46; 97; 98; 46; 0; 7; 7]) ∧
  ∃ ls, name_at (p_data sample_packet) 23 DNS_D_MAXPTRS DNS_D_MAXPTRS 18 ls ∧ name_text ls = [122; 46; 97; 98; 46].
Proof.
  assert (packet_ok sample_packet) as HP by by vm_compute; repeat constructor.
  pose proof (dns_d_expand_reads_names sample_packet (replicate 8 7) 18 HP ltac:(lia)) as Hx.
  replace (dns_d_expand (replicate 8 7) 18 sample_packet) with (Returns (5, [122; 46; 97; 98; 46; 0; 7; 7])) in * by (by vm_compute).
  split; [done|]. split; [done|]. destruct Hx as (_ & _ & [[? _]|(ls & Hls & Hn & Hd)]); [done|]. exists ls. split; [done|].
  destruct (name_text ls) as [|a [|b [|c [|d' [|f' [|]]]]]]; try (cbn in Hn; lia).
  vm_compute in Hd. by simplify_eq.
Defined.

(** Twelve bytes of header, the label [a] and a pointer back to it: a packet
    anyone can send, and which [dns_d_expand] reads for ever, since it counts
    the pointers anew after each label. *)
Definition endless_packet : dns_packet := mk_packet [] memo0 16 (replicate 12 0 ++ [1; 97; 0xc0; 12]).

Example endless_name dst : dns_d_expand dst 12 endless_packet = Forever.
Proof. reflexivity. Qed.
