(* ===== verification/DnsSkip.v ===== *)
(** Skipping names and labels: [dns_d_skip], [dns_l_skip] and [dns_l_expand]
    stay within the packet, whatever its bytes are, and go on in it. *)

From S2P Require Import Prelude DnsPacket DnsName DnsExpand.

Open Scope Z_scope.

Section Skipping.
Context (data : bytes) (e : Z) (Hdata : data_ok data e).

(** The offset after a label, or the end. *)
Lemma l_skip_cases src : 0 <= src →
  dns_l_skip src data e = Returns e ∨ ∃ l, label_at data e src l ∧ dns_l_skip src data e = Returns (src + 1 + zlen l).
Proof using Hdata.
  intros Hs. unfold dns_l_skip. pose proof Hdata as (_ & He & H16). rewrite (u16_id e) by lia.
  destruct (Z.leb_spec e src); [by left|]. destruct (at_cases _ _ Hdata src) as (b & -> & Hbb & Hb); [lia|]. in_run.
  destruct (tag_cases b Hbb) as [(Hlt & -> & ->)|[(_ & -> & _)|(_ & ->)]]; [|by left|by left].
  rewrite Z.eqb_refl. unfold byte_ok, is_uint in Hbb. rewrite (u16_id (src + 1)) by lia.
  destruct (Z.ltb_spec (e - (src + 1)) b); [by left|]. destruct (Z.eqb_spec b 0); [by left|]. right.
  destruct (label_there _ _ Hdata src b) as [Hl Hlen]; [lia|done|lia|lia|]. eexists. split; [exact Hl|].
  rewrite Hlen, Z2Nat.id by lia. by rewrite u16_id by lia.
Qed.

Lemma l_skip_progress src : 0 <= src < e → ∃ r, dns_l_skip src data e = Returns r ∧ src < r <= e.
Proof using Hdata.
  intros Hs. destruct (l_skip_cases src) as [->|(l & (_ & Hfit & Hl & _) & ->)]; [lia| |]; eexists; (split; [done|lia]).
Qed.

(** One turn of [dns_d_skip]. *)
Lemma d_skip_turn fuel src : 0 <= src →
  d_skip_loop (S fuel) src data e = Returns e ∨
  (root_at data e src ∧ d_skip_loop (S fuel) src data e = Returns (src + 1)) ∨
  (∃ tgt, pointer_at data e src tgt ∧ d_skip_loop (S fuel) src data e = Returns (src + 2)) ∨
  (∃ l, label_at data e src l ∧ src + 1 + zlen l < e ∧
     d_skip_loop (S fuel) src data e = d_skip_loop fuel (src + 1 + zlen l) data e).
Proof using Hdata.
  intros Hs. cbn [d_skip_loop]. pose proof Hdata as (_ & He & H16). rewrite (u16_id e) by lia.
  destruct (Z.leb_spec e src); [by left|]. destruct (at_cases _ _ Hdata src) as (b & -> & Hbb & Hb); [lia|]. in_run.
  destruct (tag_cases b Hbb) as [(Hlt & -> & ->)|[(_ & -> & ->)|(H192 & ->)]]; [|by left|].
  - rewrite Z.eqb_refl. unfold byte_ok, is_uint in Hbb. rewrite (u16_id (src + 1)) by lia.
    destruct (Z.eqb_spec b 0) as [->|]; [right; left; by split; [split; [lia|]|]|].
    destruct (Z.ltb_spec b (e - (src + 1))); [|by left]. right. right. right.
    destruct (label_there _ _ Hdata src b) as [Hl Hlen]; [lia|done|lia|lia|]. eexists. split; [exact Hl|].
    rewrite Hlen, Z2Nat.id by lia. split; [lia|]. by rewrite u16_id by lia.
  - cbn [Z.eqb Pos.eqb]. destruct (Z.ltb_spec (e - src) 2); [by left|]. right. right. left.
    destruct (pointer_there _ _ Hdata src b) as (lo & _ & Hp & _); [lia|lia|done|done|]. exists (ptr_target b lo).
    split; [done|]. by rewrite u16_id by lia.
Qed.

Lemma d_skip_loop_returns fuel : ∀ src, 0 <= src → (Z.to_nat e - Z.to_nat src < fuel)%nat →
  ∃ r, d_skip_loop fuel src data e = Returns r ∧ (e <= src → r = e) ∧ (src < e → src < r <= e).
Proof using Hdata.
  induction fuel as [|fuel IH]; intros src Hs Hf; [lia|].
  destruct (d_skip_turn fuel src Hs) as [->|[((Hr & _) & ->)|[(tgt & (_ & Hfit & _) & ->)|(l & (_ & _ & Hl & _) & Hlt & ->)]]];
    try (eexists; split; [done|lia]).
  destruct (IH (src + 1 + zlen l)) as (r & -> & _ & Hr); [lia|lia|]. exists r. split; [done|]. split; [lia|]. specialize (Hr Hlt). lia.
Qed.

(** The next label of a name. *)
Lemma l_expand_label ptrs src l : label_at data e src l → l_expand_loop ptrs src data e = Returns (zlen l, src + 1 + zlen l, l).
Proof using Hdata.
  intros (Hs & Hfit & Hz & Hb & Hread). destruct Hdata as (_ & He & H16).
  assert (e <=? src = false) as Hes by (apply Z.leb_gt; lia).
  destruct ptrs; cbn [l_expand_loop]; rewrite Hes, (rd_at _ _ _ Hb); in_run;
    (destruct (tag_cases (zlen l)) as [(_ & -> & ->)|[[? _]|[? _]]]; [unfold byte_ok, is_uint; lia| |lia|lia]);
    rewrite Z.eqb_refl; rewrite (u16_id (src + 1)) by lia; ltb_no; rewrite rd_n_in by lia; in_run;
    by rewrite Nat2Z.id, Hread, u16_id by lia.
Qed.

Lemma l_expand_root ptrs src : root_at data e src → ∃ x, l_expand_loop ptrs src data e = Returns (0, x, []).
Proof using Hdata.
  intros [Hs Hb]. destruct Hdata as (_ & He & H16). assert (e <=? src = false) as Hes by (apply Z.leb_gt; lia).
  destruct ptrs; cbn [l_expand_loop]; rewrite Hes, (rd_at _ _ _ Hb); in_run; change (tag_of 0 =? 0) with true; cbv iota zeta;
    change (Z.land 63 0) with 0; (destruct (Z.ltb_spec (e - u16 (src + 1)) 0); [by eexists|]);
    (rewrite rd_n_in by (rewrite u16_id in * by lia; lia)); by eexists.
Qed.

Lemma l_expand_pointer ptrs src tgt : pointer_at data e src tgt →
  l_expand_loop (S ptrs) src data e = l_expand_loop ptrs tgt data e.
Proof using Hdata.
  intros (Hs & Hfit & hi & lo & Hhi & Hlo & H192 & ->). destruct Hdata as (Hok & He & H16). cbn [l_expand_loop]. leb_no.
  rewrite (rd_at _ _ _ Hhi). in_run. assert (byte_ok hi) as Hb by by eapply (Forall_lookup_1 _ data).
  destruct (tag_cases hi Hb) as [[? _]|[[? _]|(_ & ->)]]; [lia|lia|]. cbn [Z.eqb Pos.eqb]. ltb_no.
  by rewrite (rd_at _ _ _ Hlo).
Qed.

(** [dns_l_expand] at a name: its first label, and where the rest of it is. *)
Lemma l_expand_name K n src ls : name_at data e K n src ls → ∀ ptrs, (n <= ptrs)%nat →
  match ls with
  | [] => ∃ x, l_expand_loop ptrs src data e = Returns (0, x, [])
  | l :: ls' => ∃ x, l_expand_loop ptrs src data e = Returns (zlen l, x, l) ∧ name_at data e K K x ls' ∧ 0 < zlen l < 64
  end.
Proof using Hdata.
  induction 1 as [n src Hr|n src l ls Hl Hn IH|n src tgt ls Hp Hn IH]; intros ptrs Hle.
  - by apply l_expand_root.
  - eexists. split; [by apply l_expand_label|]. split; [done|]. apply Hl.
  - destruct ptrs as [|ptrs]; [lia|]. rewrite (l_expand_pointer _ _ tgt) by done. apply IH. lia.
Qed.

End Skipping.

(** * Skipping goes on, and stays in the packet *)

(** On any packet and from any offset [dns_d_skip] returns an offset of
    the packet or its end, and one that is past where it started: so that every
    loop over the records of a packet ends. *)
Theorem dns_d_skip_goes_on P src :
  packet_ok P → 0 <= src →
  ∃ r, dns_d_skip src P = Returns r ∧ (p_end P <= src → r = p_end P) ∧ (src < p_end P → src < r <= p_end P).
Proof. intros HP Hs. apply (d_skip_loop_returns _ _ HP); [done|lia]. Qed.

Lemma dns_d_skip_goes_on_witness :
  packet_ok sample_packet ∧ dns_d_skip 18 sample_packet = Returns 22 ∧
  ∃ r, dns_d_skip 12 endless_packet = Returns r ∧ 12 < r <= 16.
Proof.
  assert (packet_ok sample_packet) as HP by by vm_compute; repeat constructor.
  split; [done|]. split; [reflexivity|].
  destruct (dns_d_skip_goes_on endless_packet 12) as (r & Hr & _ & Hle); [by vm_compute; repeat constructor|lia|].
  exists r. split; [done|]. apply Hle. reflexivity.
Defined.
