(* ===== verification/DnsPush.v ===== *)
(** Writing names: [dns_d_push] and [dns_d_comp] put a name at the end of a
    packet so that reading it back gives its labels again, up to case, with
    pointers into the names of the dictionary. *)

From S2P Require Import Prelude DnsPacket DnsName DnsExpand DnsSkip.

Open Scope Z_scope.

(** ** Names *)

(** A label of a text: no dot, no terminator, up to [DNS_D_MAXLABEL] bytes. *)
Definition label_ok (l : bytes) : Prop :=
  0 < zlen l <= DNS_D_MAXLABEL ∧ bytes_ok l ∧ DOT ∉ l ∧ 0 ∉ l.

#[export] Instance label_ok_dec l : Decision (label_ok l).
Proof. unfold label_ok, bytes_ok. apply _. Defined.

(** The name as bytes: the labels with their lengths; with the root. *)
Definition wire_label (l : bytes) : bytes := zlen l :: l.
Definition wire_labels (ls : list bytes) : bytes := concat (map wire_label ls).
Definition wire (ls : list bytes) : bytes := wire_labels ls ++ [0].

(** Names are the same up to the case of their letters. *)
Definition lower_name (ls : list bytes) : list bytes := map (map tolower) ls.

Lemma wire_labels_app ls ls' : wire_labels (ls ++ ls') = wire_labels ls ++ wire_labels ls'.
Proof. unfold wire_labels. by rewrite map_app, concat_app. Qed.

Lemma wire_labels_cons l ls : wire_labels (l :: ls) = zlen l :: l ++ wire_labels ls.
Proof. done. Qed.

Lemma wire_labels_length ls : (length ls <= length (wire_labels ls))%nat.
Proof. induction ls as [|l ls IH]; [done|]. rewrite wire_labels_cons. simpl. rewrite length_app. lia. Qed.

Lemma lower_name_cons l ls : lower_name (l :: ls) = map tolower l :: lower_name ls.
Proof. done. Qed.

(** [strcasecmp], on texts without their terminators. *)
Lemma tolower_nonzero b : 0 <= b → b ≠ 0 → tolower b ≠ 0.
Proof. unfold tolower. intros. destruct (Z.leb_spec 65 b), (Z.leb_spec b 90); cbn [andb]; lia. Qed.

Lemma strcasecmp_spec a b : label_ok a → label_ok b → strcasecmp a b = 0 ↔ map tolower a = map tolower b.
Proof.
  intros (_ & Ha & _ & Ha0) (_ & Hb & _ & Hb0). revert b Hb Hb0. induction a as [|x a IH]; intros [|y b] Hb Hb0; cbn.
  - done.
  - apply Forall_cons in Hb as [Hy _]. rewrite not_elem_of_cons in Hb0. unfold byte_ok, is_uint in Hy.
    pose proof (tolower_nonzero y ltac:(lia) ltac:(naive_solver)). split; [lia|done].
  - apply Forall_cons in Ha as [Hx _]. rewrite not_elem_of_cons in Ha0. unfold byte_ok, is_uint in Hx.
    pose proof (tolower_nonzero x ltac:(lia) ltac:(naive_solver)). split; [lia|done].
  - apply Forall_cons in Ha as [Hx Ha]. apply Forall_cons in Hb as [Hy Hb]. rewrite not_elem_of_cons in Ha0, Hb0.
    destruct (Z.eqb_spec (tolower x - tolower y) 0) as [E|E].
    + rewrite (proj2 (Z.eqb_neq x 0)) by naive_solver. rewrite IH by naive_solver.
      split; [intros ->; f_equal; lia|by intros [= _ ?]].
    + split; [done|]. intros [= ? _]. lia.
Qed.

(** ** From text to bytes *)

Lemma put_before dst i xs ys : 0 <= i → put (put dst (i + zlen xs) ys) i xs = put dst i (xs ++ ys).
Proof.
  intros Hi. unfold put. apply list_eq. intros k. rewrite !mem_write_lookup, mem_write_keeps_length, length_app.
  replace (Z.to_nat (i + zlen xs)) with (Z.to_nat i + length xs)%nat by lia.
  destruct (Nat.ltb_spec k (length dst)); [|done].
  destruct (Nat.leb_spec (Z.to_nat i) k) as [Hp|Hp]; cbn [andb].
  - destruct (Nat.ltb_spec k (Z.to_nat i + length xs)) as [Hx|Hx].
    + rewrite (proj2 (Nat.ltb_lt _ _)) by lia. by rewrite lookup_app_l by lia.
    + rewrite (proj2 (Nat.leb_le _ _)) by lia. cbn [andb].
      replace (Z.to_nat i + (length xs + length ys))%nat with (Z.to_nat i + length xs + length ys)%nat by lia.
      destruct (Nat.ltb_spec k (Z.to_nat i + length xs + length ys)); [|done].
      rewrite lookup_app_r by lia. f_equal. lia.
  - by rewrite (proj2 (Nat.leb_gt _ _)) by lia.
Qed.

Lemma comp_label l rest dst dp dx n : DOT ∉ l → 0 <= dx →
  comp_labels (l ++ rest) dst dp dx n = comp_labels rest (put dst dx l) dp (dx + zlen l) (n + zlen l).
Proof.
  revert dst dx n. induction l as [|ch l IH]; intros dst dx n Hdot Hdx; cbn.
  - by rewrite put_nil, !Z.add_0_r.
  - rewrite not_elem_of_cons in Hdot. rewrite (proj2 (Z.eqb_neq ch DOT)) by naive_solver.
    rewrite IH by (naive_solver || lia). change (dx + 1) with (dx + zlen [ch]) at 1. rewrite put_app by done.
    cbn [app]. f_equal; lia.
Qed.

Lemma land_label (l : bytes) : 0 < zlen l <= DNS_D_MAXLABEL → Z.land 0x3f (zlen l) = zlen l.
Proof. unfold DNS_D_MAXLABEL. intros. rewrite land_63. apply Z.mod_small. lia. Qed.

Lemma put_label dst dp l : label_ok l → 0 <= dp →
  put (put dst (dp + 1) l) dp [Z.land 0x3f (zlen l)] = put dst dp (wire_label l).
Proof. intros (Hl & _) Hd. rewrite land_label by done. by apply (put_before dst dp [zlen l] l). Qed.

Lemma comp_text ls rest dst dp : Forall label_ok ls → 0 <= dp →
  comp_labels (labels_text ls ++ rest) dst dp (dp + 1) 0 =
    comp_labels rest (put dst dp (wire_labels ls)) (dp + zlen (wire_labels ls)) (dp + zlen (wire_labels ls) + 1) 0.
Proof.
  intros Hls. revert dst dp. induction Hls as [|l ls Hl Hls IH]; intros dst dp Hd.
  - cbn. by rewrite put_nil, Z.add_0_r.
  - rewrite labels_text_cons, <-!app_assoc. pose proof Hl as (_ & _ & Hdot & _). rewrite comp_label by (done || lia).
    cbn [app comp_labels]. rewrite Z.eqb_refl, Z.add_0_l, put_label by done.
    replace (dp + 1 + zlen l + 1) with ((dp + zlen (wire_label l)) + 1) by (cbn [length wire_label]; lia).
    replace (dp + 1 + zlen l) with (dp + zlen (wire_label l)) by (cbn [length wire_label]; lia).
    rewrite IH by lia. rewrite put_app by done. unfold wire_labels. cbn [map concat]. rewrite length_app.
    f_equal; lia.
Qed.

(** The texts of a name: with the last dot, or without it. *)
Inductive text_of : list bytes → bytes → Prop :=
| text_root : text_of [] [DOT]
| text_anchored l ls : text_of (l :: ls) (labels_text (l :: ls))
| text_plain ls l : text_of (ls ++ [l]) (labels_text ls ++ l).

Lemma comp_name_wire ls text dst : Forall label_ok ls → text_of ls text →
  comp_name text dst = (put dst 0 (wire ls), zlen (wire ls)).
Proof.
  intros Hls Ht. unfold comp_name. destruct Ht as [|l ls|ls l].
  - cbn [comp_labels]. rewrite Z.eqb_refl. cbn. reflexivity.
  - rewrite <-(app_nil_r (labels_text _)). change 1 with (0 + 1). rewrite comp_text by done. cbn [comp_labels].
    rewrite Z.ltb_irrefl. unfold wire. set (w := wire_labels (l :: ls)).
    assert (1 < zlen w). { unfold w. rewrite wire_labels_cons. apply Forall_cons in Hls as [(Hl & _) _]. cbn. rewrite length_app. lia. }
    rewrite !Z.add_0_l. ltb_yes. rewrite length_app. change (length [0]) with 1%nat.
    rewrite <-(Z.add_0_l (zlen w)) at 1. rewrite put_app by done. f_equal; lia.
  - apply Forall_app in Hls as [Hls Hl]. apply Forall_cons in Hl as [Hl _]. change 1 with (0 + 1).
    rewrite comp_text by done. rewrite <-(app_nil_r l) at 1. pose proof Hl as (Hlen & _ & Hdot & _).
    rewrite comp_label by (done || lia). cbn [comp_labels]. rewrite Z.add_0_l. ltb_yes.
    rewrite Z.add_0_l, put_label by (done || lia). rewrite <-(Z.add_0_l (zlen (wire_labels ls))) at 1.
    rewrite put_app by done. unfold wire. rewrite wire_labels_app.
    assert (wire_labels [l] = wire_label l) as -> by (unfold wire_labels; cbn; by rewrite app_nil_r).
    set (w := wire_labels ls ++ wire_label l). ltb_yes.
    replace (0 + zlen (wire_labels ls) + 1 + zlen l) with (0 + zlen w) by (unfold w; rewrite length_app; cbn; lia).
    rewrite put_app by done. rewrite length_app. change (length [0]) with 1%nat. f_equal; lia.
Qed.

(** ** From bytes to names *)

(** The bytes are at an offset of the memory. *)
Definition holds (data : bytes) (src : Z) (bs : bytes) : Prop := bs `prefix_of` drop (Z.to_nat src) data.

Lemma holds_app data src xs ys : 0 <= src →
  holds data src (xs ++ ys) ↔ holds data src xs ∧ holds data (src + zlen xs) ys.
Proof.
  intros Hs. unfold holds. replace (Z.to_nat (src + zlen xs)) with (Z.to_nat src + length xs)%nat by lia. rewrite <-drop_drop.
  split.
  - intros [k Hk]. rewrite Hk, <-!app_assoc, drop_app_length. split; by eexists.
  - intros [[k Hk] [k' Hk']]. rewrite Hk, drop_app_length in Hk'. exists k'. by rewrite Hk, Hk', app_assoc.
Qed.

Lemma holds_read data src bs : holds data src bs → mem_read (Z.to_nat src) (length bs) data = bs.
Proof. intros [k Hk]. unfold mem_read. by rewrite Hk, take_app_length. Qed.

Lemma holds_head data src b bs : holds data src (b :: bs) → data !! Z.to_nat src = Some b.
Proof. intros [k Hk]. pose proof (lookup_drop data (Z.to_nat src) 0) as Hl. rewrite Hk, Nat.add_0_r in Hl. by rewrite <-Hl. Qed.

Lemma holds_put dst bs : zlen bs <= zlen dst → holds (put dst 0 bs) 0 bs.
Proof.
  intros Hl. unfold holds, put. rewrite drop_0, mem_write_split by (change (Z.to_nat 0) with 0%nat; lia). by eexists.
Qed.

Lemma label_holds data e src l : label_ok l → 0 <= src → src + 1 + zlen l <= e →
  holds data src (wire_label l) → label_at data e src l.
Proof.
  intros ([Hl0 Hl1] & _) Hs Hfit Hh. unfold DNS_D_MAXLABEL in Hl1. split; [done|]. split; [done|]. split; [lia|].
  split; [by eapply holds_head|]. apply (holds_app _ _ [zlen l] l) in Hh as [_ Hh]; [|done]. by apply holds_read.
Qed.

Lemma name_more data e K n m src ls : name_at data e K n src ls → (n <= m)%nat → name_at data e K m src ls.
Proof.
  intros Hn. revert m. induction Hn as [n src Hr|n src l ls Hl Hn IH|n src tgt ls Hp Hn IH]; intros m Hm.
  - by apply name_root.
  - by apply name_label.
  - destruct m as [|m]; [lia|]. eapply name_ptr; [done|]. apply IH. lia.
Qed.

Lemma name_more_all data e K K' n src ls : name_at data e K n src ls → (K <= K')%nat → name_at data e K' n src ls.
Proof.
  intros Hn HK. induction Hn as [n src Hr|n src l ls Hl Hn IH|n src tgt ls Hp Hn IH].
  - by apply name_root.
  - apply name_label; [done|]. by eapply name_more.
  - by eapply name_ptr.
Qed.

(** What is read at one end of one memory is read at another of another. *)
Definition view (data0 : bytes) (e0 : Z) (data : bytes) (e : Z) : Prop :=
  (∀ src l, label_at data0 e0 src l → label_at data e src l) ∧
  (∀ src tgt, pointer_at data0 e0 src tgt → pointer_at data e src tgt) ∧
  (∀ src, root_at data0 e0 src → root_at data e src).

Lemma view_refl data e : view data e data e.
Proof. by split; [|split]. Qed.

Lemma view_trans data0 e0 data1 e1 data2 e2 : view data0 e0 data1 e1 → view data1 e1 data2 e2 → view data0 e0 data2 e2.
Proof. unfold view. naive_solver. Qed.

Lemma name_view data0 e0 data e K n src ls : view data0 e0 data e → name_at data0 e0 K n src ls → name_at data e K n src ls.
Proof.
  intros (Hl & Hp & Hr). induction 1 as [n src Hr0|n src l ls Hl0 Hn IH|n src tgt ls Hp0 Hn IH].
  - apply name_root. auto.
  - apply name_label; auto.
  - eapply name_ptr; [by apply Hp|done].
Qed.

(** Memory that is the same below an end. *)
Lemma view_below data e data' e' : e <= e' → take (Z.to_nat e) data' = take (Z.to_nat e) data → view data e data' e'.
Proof.
  intros He Hd. assert (∀ i : nat, Z.of_nat i < e → data' !! i = data !! i) as Hget.
  { intros i Hi. rewrite <-(lookup_take_lt data' (Z.to_nat e)), <-(lookup_take_lt data (Z.to_nat e)) by lia. by rewrite Hd. }
  split; [|split].
  - intros src l (Hs & Hfit & Hl & Hb & Hread). split; [done|]. split; [lia|]. split; [done|]. split; [by rewrite Hget by lia|].
    apply list_eq. intros i. transitivity (mem_read (Z.to_nat (src + 1)) (length l) data !! i); [|by rewrite Hread].
    destruct (decide (i < length l)%nat) as [Hi|Hi].
    + rewrite !mem_read_lookup by done. apply Hget. lia.
    + unfold mem_read. rewrite !lookup_ge_None_2; [done| |]; rewrite length_take; lia.
  - intros src tgt (Hs & Hfit & hi & lo & Hhi & Hlo & H192 & ->). split; [done|]. split; [lia|]. exists hi, lo. by rewrite !Hget by lia.
  - intros src [Hs Hr]. split; [lia|]. rewrite Hget by lia. done.
Qed.

(** Labels, and after them the rest of the name. *)
Lemma name_app data e K m ls ls' : Forall label_ok ls → ∀ n src,
  0 <= src → src + zlen (wire_labels ls) <= e → holds data src (wire_labels ls) → (m <= n)%nat → (m <= K)%nat →
  name_at data e K m (src + zlen (wire_labels ls)) ls' → name_at data e K n src (ls ++ ls').
Proof.
  induction 1 as [|l ls Hl Hls IH]; intros n src Hs Hfit Hh Hmn HmK Hn.
  - change (zlen (wire_labels [])) with 0 in Hn. rewrite Z.add_0_r in Hn. by eapply name_more.
  - assert (zlen (wire_labels (l :: ls)) = 1 + zlen l + zlen (wire_labels ls)) as E
      by (rewrite wire_labels_cons; cbn; rewrite length_app; lia). rewrite E in *.
    apply (holds_app _ _ (wire_label l) (wire_labels ls)) in Hh as [Hh1 Hh2]; [|done].
    replace (src + zlen (wire_label l)) with (src + 1 + zlen l) in Hh2 by (cbn; lia).
    cbn [app]. apply name_label; [apply label_holds; done || lia|]. apply IH; [lia|lia|done|lia|done|].
    by replace (src + 1 + zlen l + zlen (wire_labels ls)) with (src + (1 + zlen l + zlen (wire_labels ls))) by lia.
Qed.

Lemma name_wire data e K n src ls : Forall label_ok ls → 0 <= src → src + zlen (wire ls) <= e →
  holds data src (wire ls) → name_at data e K n src ls.
Proof.
  intros Hls Hs Hfit Hh. unfold wire in *. apply holds_app in Hh as [Hh1 Hh2]; [|done].
  rewrite length_app in Hfit. change (length [0]) with 1%nat in Hfit.
  rewrite <-(app_nil_r ls). apply (name_app _ _ _ 0); [done|done|lia|done|lia|lia|]. apply name_root. split; [lia|].
  by eapply holds_head.
Qed.

(** ** The dictionary *)

(** The entries are names, of labels as [dns_d_push] writes them, none of which
    has a label twice: for those [dns_d_comp] finds what is not there. *)
Definition known_name (data : bytes) (e : Z) (K : nat) (src : Z) (ls : list bytes) : Prop :=
  name_at data e K K src ls ∧ Forall label_ok ls ∧ NoDup (lower_name ls).

Definition dict_in (data : bytes) (e : Z) (K : nat) (dict : list Z) : Prop :=
  Forall (λ d, d ≠ 0 → ∃ ls, known_name data e K d ls) dict.

Definition dict_ok (K : nat) (P : dns_packet) : Prop := dict_in (p_data P) (p_end P) K (p_dict P).

Lemma name_start data e K n src ls : name_at data e K n src ls → 0 <= src.
Proof. induction 1 as [n src [? _]|n src l ls (? & _) Hn IH|n src tgt ls (? & _) Hn IH]; lia. Qed.

(** [dns_l_expand] at a name: its first label, and where the rest of it is. *)
Lemma l_expand_view data0 e0 data e K n src ls : data_ok data e → view data0 e0 data e → name_at data0 e0 K n src ls →
  ∀ ptrs, (n <= ptrs)%nat →
  match ls with
  | [] => ∃ x, l_expand_loop ptrs src data e = Returns (0, x, [])
  | l :: ls' => ∃ x, l_expand_loop ptrs src data e = Returns (zlen l, x, l) ∧ name_at data0 e0 K K x ls' ∧ 0 < zlen l < 64
  end.
Proof.
  intros Hd (Hvl & Hvp & Hvr). induction 1 as [n src Hr|n src l ls Hl Hn IH|n src tgt ls Hp Hn IH]; intros ptrs Hle.
  - by apply l_expand_root; [|apply Hvr].
  - eexists. split; [by apply l_expand_label; [|apply Hvl]|]. split; [done|]. apply Hl.
  - destruct ptrs as [|ptrs]; [lia|]. rewrite (l_expand_pointer _ _ Hd _ _ tgt) by auto. apply IH. lia.
Qed.

(** What [dns_l_expand] gave at a name: its first label, and where the others are. *)
Definition cursor (data : bytes) (e : Z) (K : nat) (st : Z * Z * bytes) (ls : list bytes) : Prop :=
  match ls with
  | [] => st.1.1 = 0
  | l :: ls' => st.1.1 = zlen l ∧ st.2 = l ∧ 0 < zlen l ∧ name_at data e K K st.1.2 ls'
  end.

Lemma cursor_next data0 e0 data e K n src ls :
  data_ok data e → view data0 e0 data e → (n <= DNS_D_MAXPTRS)%nat → name_at data0 e0 K n src ls →
  ∃ st, dns_l_expand src data e = Returns st ∧ cursor data0 e0 K st ls.
Proof.
  intros Hd Hv HK Hn. pose proof (l_expand_view _ _ _ _ _ _ _ _ Hd Hv Hn DNS_D_MAXPTRS HK) as Hx. unfold dns_l_expand.
  destruct ls as [|l ls]; [destruct Hx as [x ->]|destruct Hx as (x & -> & Hr & Hl)]; (eexists; split; [done|]); [done|].
  split; [done|]. split; [done|]. split; [lia|done].
Qed.

Lemma cursor_zero data e K st ls : cursor data e K st ls → (st.1.1 =? 0) = bool_decide (ls = []).
Proof. destruct ls; cbn; [by intros ->|]. intros (-> & _ & Hl & _). by eqb_no. Qed.

(** ** Searching the end of a name *)

Section Searching.
Context (P : dns_packet) (data0 : bytes) (e0 : Z) (K : nat) (dst : bytes).
Context (HP : packet_ok P) (Hview : view data0 e0 (p_data P) (p_end P)) (HK : (K <= DNS_D_MAXPTRS)%nat) (Hdst : data_ok dst (zlen dst)).

Abbreviation in_dst := (cursor dst (zlen dst) 0).
Abbreviation in_packet := (cursor data0 e0 K).
Abbreviation known := (known_name data0 e0 K).

Lemma same_labels_finds fuel : ∀ a b la lb,
  in_dst a la → in_packet b lb → Forall label_ok la → Forall label_ok lb → (length la <= fuel)%nat →
  ∃ a' b' la' lb', same_labels P dst fuel a b = Returns (a', b') ∧ in_dst a' la' ∧ in_packet b' lb' ∧
    la' `suffix_of` la ∧ (la' = [] → lb' = [] → lower_name la = lower_name lb).
Proof using HP Hview HK Hdst.
  induction fuel as [|fuel IH]; intros a b la lb Ha Hb Hla Hlb Hf;
    destruct a as [[alen ay] alabel], b as [[blen by_] blabel];
    pose proof (cursor_zero _ _ _ _ _ Ha) as Ha0; pose proof (cursor_zero _ _ _ _ _ Hb) as Hb0; cbn [fst] in Ha0, Hb0;
    cbn [same_labels]; rewrite Ha0, Hb0;
    (destruct la as [|l la]; [eexists _, _, [], lb; split; [done|]; split; [done|]; split; [done|]; split; [done|]; by intros _ ->|]).
  1: simpl in Hf; lia.
  rewrite (bool_decide_false (l :: la = [])) by done. destruct lb as [|l' lb];
    [eexists _, _, (l :: la), []; split; [done|]; split; [done|]; split; [done|]; split; done|].
  apply Forall_cons in Hla as [Hl Hla]. apply Forall_cons in Hlb as [Hl' Hlb].
  rewrite (bool_decide_false (l' :: lb = [])) by done. cbn [negb andb].
  pose proof Ha as (_ & Hal & _ & Han). pose proof Hb as (_ & Hbl & _ & Hbn). cbn [fst snd] in *. subst alabel blabel.
  destruct (Z.eqb_spec (strcasecmp l l') 0) as [Hc|Hc].
  - clear Ha Hb. destruct (cursor_next _ _ _ _ _ _ _ _ Hdst (view_refl _ _) (Nat.le_0_l DNS_D_MAXPTRS) Han) as (a & -> & Ha).
    destruct (cursor_next _ _ _ _ _ _ _ _ HP Hview HK Hbn) as (b & -> & Hb). in_run.
    destruct (IH a b la lb) as (a' & b' & la' & lb' & -> & Ha' & Hb' & Hs & He); [done|done|done|done|simpl in Hf; lia|].
    exists a', b', la', lb'. split; [done|]. split; [done|]. split; [done|]. split; [by apply suffix_cons_r|].
    intros H1 H2. rewrite !lower_name_cons. f_equal; [by apply strcasecmp_spec|by apply He].
  - eexists _, _, (l :: la), (l' :: lb). split; [done|]. split; [done|]. split; [done|]. by split.
Qed.

(** What the comparisons leave in [a.len] and [a.label]: nothing, or a label of
    the name. *)
Definition stale (s : list bytes) (alen : Z) (alabel : bytes) : Prop :=
  alen = 0 ∨ (alen = zlen alabel ∧ 0 < alen ∧ alabel ∈ s).

Lemma search_name_finds fuel : ∀ l s ax alen alabel bp n rb,
  name_at dst (zlen dst) 0 0 ax s → Forall label_ok (l :: s) → (length (l :: s) <= length dst)%nat →
  stale (l :: s) alen alabel → (n <= K)%nat →
  name_at data0 e0 K n bp rb → Forall label_ok rb → NoDup (lower_name rb) → (length rb <= fuel)%nat →
  ∃ found alen' alabel', search_name P dst fuel ax alen alabel bp = Returns (found, (alen', alabel')) ∧
    stale (l :: s) alen' alabel' ∧
    ∀ q, found = Some q → q <= 0x3fff ∧ ∃ rb', known q rb' ∧ lower_name (l :: s) = lower_name rb'.
Proof using HP Hview HK Hdst.
  induction fuel as [|fuel IH]; intros l s ax alen alabel bp n rb Hax Hs Hlen Hst Hn Hrb Hok Hnd Hf;
    cbn [search_name]; destruct (cursor_next _ _ _ _ _ _ _ _ HP Hview (Nat.le_trans _ _ _ Hn HK) Hrb) as ([[blen bx] blabel] & -> & Hb); in_run;
    pose proof (cursor_zero _ _ _ _ _ Hb) as Hb0; cbn [fst] in Hb0; rewrite Hb0;
    (destruct rb as [|b rb]; [by eexists None, _, _|]).
  1: simpl in Hf; lia.
  rewrite (bool_decide_false (b :: rb = [])) by done.
  assert (∃ la, cursor dst (zlen dst) 0 (alen, ax, alabel) la ∧ Forall label_ok la ∧ (length la <= length dst)%nat ∧
            (∀ x, x ∈ la → x ∈ l :: s) ∧ (la = [] ∨ ∃ x, x ∈ l :: s ∧ la = x :: s)) as (la & Hcur & Hlao & Hlal & Hsub & Hform).
  { destruct Hst as [->|(-> & Hpos & Hin)].
    - exists []. split; [done|]. split; [done|]. split; [simpl; lia|]. split; [by intros x ?%elem_of_nil|by left].
    - exists (alabel :: s). split; [done|]. rewrite Forall_forall in Hs. split; [|split; [done|split; [|by right; exists alabel]]].
      + apply Forall_forall. intros x [->|Hx]%elem_of_cons; apply Hs; [done|by right].
      + intros x [->|Hx]%elem_of_cons; [done|by right]. }
  destruct (same_labels_finds (length dst) _ _ _ _ Hcur Hb Hlao Hok Hlal)
    as ([[alen' ay'] alabel'] & [[blen' by'] blabel'] & la' & lb' & -> & Ha' & Hb' & Hsuf & Heq). in_run.
  assert (stale (l :: s) alen' alabel') as Hst'.
  { destruct la' as [|x la']; [by left|]. destruct Ha' as (Hl1 & Hl2 & Hl3 & _). cbn [fst snd] in *. subst. right.
    split; [done|]. split; [done|]. apply Hsub. destruct Hsuf as [k ->]. apply elem_of_app. right. by left. }
  pose proof (cursor_zero _ _ _ _ _ Ha') as Ha0'. pose proof (cursor_zero _ _ _ _ _ Hb') as Hb0'. cbn [fst] in Ha0', Hb0'.
  rewrite Ha0', Hb0'. destruct (bool_decide (la' = [])) eqn:E1, (bool_decide (lb' = [])) eqn:E2; cbn [andb].
  all: assert (length rb <= fuel)%nat as Hf' by (simpl in Hf; lia).
  all: try (destruct Hb as (_ & _ & _ & Hbn); cbn [fst snd] in Hbn; apply Forall_cons in Hok as [_ Hok];
    rewrite lower_name_cons in Hnd; apply NoDup_cons in Hnd as [_ Hnd]; by eapply (IH l s _ _ _ _ K rb)).
  apply bool_decide_eq_true in E1, E2. specialize (Heq E1 E2). destruct (Z.leb_spec bp 0x3fff) as [Hbp|Hbp].
  - eexists (Some bp), _, _. split; [done|]. split; [done|]. intros q [= <-]. split; [done|]. exists (b :: rb).
    split; [split; [by eapply name_more|done]|]. destruct Hform as [->|(x & Hx & ->)]; [done|]. rewrite <-Heq.
    apply elem_of_cons in Hx as [->|Hx]; [done|]. exfalso.
    rewrite <-Heq, lower_name_cons in Hnd. apply NoDup_cons in Hnd as [Hnd _]. apply Hnd. by apply list_elem_of_fmap_2.
  - destruct Hb as (_ & _ & _ & Hbn). cbn [fst snd] in Hbn. apply Forall_cons in Hok as [_ Hok].
    rewrite lower_name_cons in Hnd. apply NoDup_cons in Hnd as [_ Hnd]. by eapply (IH l s _ _ _ _ K rb).
Qed.

Lemma search_dict_finds dict : ∀ l s ax alen alabel,
  Forall (λ d, d ≠ 0 → ∃ ls, known d ls) dict →
  name_at dst (zlen dst) 0 0 ax s → Forall label_ok (l :: s) → (length (l :: s) <= length dst)%nat →
  stale (l :: s) alen alabel →
  ∃ found, search_dict P dst dict ax alen alabel = Returns found ∧
    ∀ q, found = Some q → q <= 0x3fff ∧ ∃ rb, known q rb ∧ lower_name (l :: s) = lower_name rb.
Proof using HP Hview HK Hdst.
  induction dict as [|d dict IH]; intros l s ax alen alabel Hd Hax Hs Hlen Hst; cbn [search_dict]; [by eexists None|].
  apply Forall_cons in Hd as [Hd0 Hd]. destruct (Z.eqb_spec d 0) as [|Hd1]; [by eexists None|].
  destruct (Hd0 Hd1) as (rb & Hrb & Hok & Hnd).
  assert (length rb <= Z.to_nat (p_end P))%nat by (eapply name_few_labels; [exact HP|]; eapply name_more; [eapply name_more_all; [by eapply name_view|done]|done]).
  destruct (search_name_finds (S (Z.to_nat (p_end P))) l s ax alen alabel d K rb) as ([q|] & alen' & alabel' & -> & Hst' & Hq);
    try done; [lia| |]; in_run.
  - exists (Some q). split; [done|]. exact Hq.
  - by apply IH.
Qed.

(** Where the pointer goes, and to where. *)
Lemma search_labels_finds fuel : ∀ ls ap, dict_in data0 e0 K (p_dict P) → 0 <= ap → ap + zlen (wire ls) <= zlen dst →
  holds dst ap (wire ls) → Forall label_ok ls → (length ls <= fuel)%nat →
  ∃ found, search_labels P dst fuel ap = Returns found ∧
    ∀ p q, found = Some (p, q) → q <= 0x3fff ∧ ∃ front s rb, ls = front ++ s ∧ s ≠ [] ∧ p = ap + zlen (wire_labels front) ∧
      known q rb ∧ lower_name s = lower_name rb.
Proof using HP Hview HK Hdst.
  induction fuel as [|fuel IH]; intros ls ap Hdict Hap Hfit Hw Hs Hf;
    cbn [search_labels]; (destruct ls as [|l s];
    [destruct (l_expand_root _ _ Hdst DNS_D_MAXPTRS ap) as [x Hx];
      [split; [cbn in Hfit; lia|exact (holds_head _ _ 0 [] Hw)]|unfold dns_l_expand; rewrite Hx; by eexists None]|]).
  1: simpl in Hf; lia.
  assert (wire (l :: s) = wire_label l ++ wire s) as E by (unfold wire; rewrite wire_labels_cons; cbn; by rewrite <-app_assoc).
  rewrite E in *. rewrite length_app in Hfit. cbn [wire_label length] in Hfit. apply holds_app in Hw as [Hw1 Hw2]; [|done].
  replace (ap + zlen (wire_label l)) with (ap + 1 + zlen l) in Hw2 by (cbn; lia).
  pose proof Hs as Hs'. apply Forall_cons in Hs' as [Hl Hs']. pose proof Hl as ([Hl0 _] & _).
  pose proof (wire_labels_length (l :: s)) as Hwl.
  assert (zlen (wire s) = zlen (wire_labels s) + 1) as Ews by (unfold wire; rewrite length_app; cbn; lia).
  unfold dns_l_expand. rewrite (l_expand_label _ _ Hdst _ _ l) by (apply label_holds; done || lia). in_run. eqb_no.
  destruct (search_dict_finds (p_dict P) l s (ap + 1 + zlen l) (zlen l) l) as (found & -> & Hfound);
    [done|apply name_wire; done || lia|done|rewrite wire_labels_cons in Hwl; cbn [length] in *; rewrite length_app in Hwl; lia
    |right; split; [done|]; split; [done|by left]|].
  in_run. destruct found as [q|].
  - eexists (Some (ap, q)). split; [done|]. intros p q' [= <- <-]. destruct (Hfound q eq_refl) as (Hq & rb & Hrb & He).
    split; [done|]. exists [], (l :: s), rb. split; [done|]. split; [done|]. split; [cbn; lia|]. done.
  - destruct (IH s (ap + 1 + zlen l)) as (found & -> & Hf2); [done|lia|lia|done|done|simpl in Hf; lia|].
    exists found. split; [done|]. intros p q Hpq. destruct (Hf2 p q Hpq) as (Hq & front & s' & rb & -> & Hne & -> & Hrb & He).
    split; [done|]. exists (l :: front), s', rb. split; [done|]. split; [done|]. split; [|done].
    rewrite wire_labels_cons. cbn. rewrite length_app. lia.
Qed.

End Searching.

(** ** Encoding *)

Lemma bytes_ok_put dst i bs : bytes_ok dst → bytes_ok bs → bytes_ok (put dst i bs).
Proof. intros. unfold put, mem_write. apply Forall_take, Forall_app. split; [by apply Forall_take|]. apply Forall_app. split; [done|by apply Forall_drop]. Qed.

Lemma wire_ok ls : Forall label_ok ls → bytes_ok (wire_labels ls).
Proof.
  induction 1 as [|l ls ([Hl0 Hl1] & Hl & _) Hls IH]; [constructor|]. rewrite wire_labels_cons. unfold DNS_D_MAXLABEL in Hl1.
  constructor; [unfold byte_ok, is_uint; lia|]. apply Forall_app. by split.
Qed.

Lemma holds_overwrite d w w' bs : holds d 0 (w ++ w') → (length bs <= length w')%nat →
  holds (mem_write (length w) bs d) 0 (w ++ bs) ∧ (length w + length bs <= length d)%nat.
Proof.
  intros [k Hk] Hl. rewrite drop_0 in Hk. assert (length w + length bs <= length d)%nat as Hle
    by (rewrite Hk, !length_app; lia). split; [|done]. unfold holds. rewrite drop_0, mem_write_split by done.
  rewrite Hk at 1. rewrite <-app_assoc, take_app_length. eexists. by rewrite <-app_assoc.
Qed.

(** The bytes of a pointer to [q]. *)
Definition pointer (q : Z) : bytes := [Z.lor 0xc0 (Z.land 0x3f (Z.shiftr q 8)); Z.land 0xff q].

Lemma pointer_ok q : 0 <= q <= 0x3fff → bytes_ok (pointer q).
Proof.
  intros Hq. destruct (ptr_target_bytes q Hq) as (Hhi & Hlo & _). apply Forall_cons_2; [done|]. by apply Forall_cons_2.
Qed.

(** What is written for a name [ls]: all of it, or the front of it and a pointer
    to a known name that ends as it does; [ls'] is what it reads as. *)
Definition name_bytes (data0 : bytes) (e0 : Z) (K : nat) (bs : bytes) (ls ls' : list bytes) : Prop :=
  (bs = wire ls ∧ ls' = ls) ∨
  (∃ front s q rb, ls = front ++ s ∧ ls' = front ++ rb ∧ bs = wire_labels front ++ pointer q ∧ 0 <= q <= 0x3fff ∧
     known_name data0 e0 K q rb ∧ lower_name s = lower_name rb).

Lemma comp_encodes P data0 e0 K dst ls text :
  packet_ok P → view data0 e0 (p_data P) (p_end P) → dict_in data0 e0 K (p_dict P) → (K <= DNS_D_MAXPTRS)%nat →
  bytes_ok dst → zlen dst < 65536 → Forall label_ok ls → text_of ls text →
  ∃ n d, dns_d_comp P dst text = Returns (n, d) ∧ length d = length dst ∧ bytes_ok d ∧ 0 < n ∧
    (zlen dst < n → n = zlen (wire ls)) ∧
    (n <= zlen dst → ∃ bs ls', name_bytes data0 e0 K bs ls ls' ∧ n = zlen bs ∧ holds d 0 bs).
Proof.
  intros HP Hview Hdict HK Hok H16 Hls Ht. unfold dns_d_comp. rewrite (comp_name_wire ls) by done.
  assert (0 < zlen (wire ls)) by (unfold wire; rewrite length_app; cbn; lia).
  assert (bytes_ok (put dst 0 (wire ls))) as Hpok.
  { apply bytes_ok_put; [done|]. apply Forall_app. split; [by apply wire_ok|]. by repeat constructor. }
  assert (length (put dst 0 (wire ls)) = length dst ∧ bytes_ok (put dst 0 (wire ls)) ∧ 0 < zlen (wire ls) ∧
    (zlen dst < zlen (wire ls) → zlen (wire ls) = zlen (wire ls)) ∧
    (zlen (wire ls) <= zlen dst → ∃ bs ls', name_bytes data0 e0 K bs ls ls' ∧ zlen (wire ls) = zlen bs ∧ holds (put dst 0 (wire ls)) 0 bs)) as Hplain.
  { split; [apply put_length|]. do 3 (split; [done|]). intros. exists (wire ls), ls. split; [by left|]. split; [done|]. by apply holds_put. }
  destruct (Z.ltb_spec (zlen (wire ls)) (zlen (put dst 0 (wire ls)))) as [Hfit|Hfit]; rewrite put_length in Hfit.
  2: { eexists _, _. split; [done|]. exact Hplain. }
  destruct (search_labels_finds P data0 e0 K (put dst 0 (wire ls)) HP Hview HK) with (fuel := length (put dst 0 (wire ls))) (ls := ls) (ap := 0)
    as (found & -> & Hfound); try done.
  { split; [done|]. rewrite put_length. lia. }
  { rewrite put_length. lia. }
  { apply holds_put. lia. }
  { rewrite put_length. pose proof (wire_labels_length ls). unfold wire in Hfit. rewrite length_app in Hfit. lia. }
  in_run. destruct found as [[p q]|].
  2: { eexists _, _. split; [done|]. exact Hplain. }
  destruct (Hfound p q eq_refl) as (Hq & front & s & rb & -> & Hs & -> & Hrb & He).
  assert (holds (put dst 0 (wire (front ++ s))) 0 (wire_labels front ++ wire s)) as Hh.
  { unfold wire. rewrite app_assoc, <-wire_labels_app. apply holds_put. unfold wire in Hfit. lia. }
  destruct (holds_overwrite _ _ _ (pointer q) Hh) as [Hh' Hle].
  { destruct s as [|l s]; [done|]. apply Forall_app in Hls as [_ Hls]. apply Forall_cons in Hls as [([Hl _] & _) _].
    unfold wire. rewrite wire_labels_cons. cbn. rewrite !length_app. lia. }
  rewrite put_length in Hle. rewrite Z.add_0_l. fold (pointer q). unfold wr. rewrite put_length. change (length (pointer q)) with 2%nat in *.
  ltb_no. in_run. rewrite Nat2Z.id, u16_id by lia. eexists _, _. split; [done|].
  split; [by rewrite mem_write_keeps_length, put_length|].
  assert (0 <= q) as Hq0 by (eapply name_start; apply Hrb).
  split.
  { apply (bytes_ok_put _ (zlen (wire_labels front))) with (bs := pointer q) in Hpok; [unfold put in Hpok at 1; by rewrite Nat2Z.id in Hpok|].
    by apply pointer_ok. }
  split; [lia|]. split; [lia|]. intros _. exists (wire_labels front ++ pointer q), (front ++ rb).
  split; [right; by exists front, s, q, rb|]. rewrite length_app. change (length (pointer q)) with 2%nat. split; [lia|done].
Qed.

(** ** The dictionary after a name *)

Lemma dict_replace_in lptr dn dict dict' : dict_replace lptr dn dict = Some dict' → ∀ d, d ∈ dict' → d = dn ∨ d ∈ dict.
Proof.
  revert dict'. induction dict as [|x dict IH]; intros dict'; cbn; [done|].
  destruct (x =? 0); [done|]. destruct (x =? lptr).
  - intros [= <-] d [->|Hd]%elem_of_cons; [by left|right; by right].
  - destruct (dict_replace lptr dn dict) as [k|]; [|done]. intros [= <-] d [->|Hd]%elem_of_cons; [right; by left|].
    destruct (IH k eq_refl d Hd); [by left|right; by right].
Qed.

Lemma dict_append_in dn dict d : d ∈ dict_append dn dict → d = dn ∨ d ∈ dict.
Proof.
  induction dict as [|x dict IH]; cbn; [by right|]. destruct (x =? 0).
  - intros [->|Hd]%elem_of_cons; [by left|right; by right].
  - intros [->|Hd]%elem_of_cons; [right; by left|]. destruct (IH Hd); [by left|right; by right].
Qed.

Lemma dictadd_in P dn fuel : packet_ok P → ∀ lp, 0 <= lp → (Z.to_nat (p_end P) - Z.to_nat lp <= fuel)%nat →
  ∃ dict, dictadd_loop fuel P dn lp = Returns dict ∧ ∀ d, d ∈ dict → d = dn ∨ d ∈ p_dict P.
Proof.
  intros HP. pose proof HP as (_ & He & _). induction fuel as [|fuel IH]; intros lp Hlp Hf; cbn [dictadd_loop];
    (destruct (Z.leb_spec (p_end P) lp); [eexists; split; [done|apply dict_append_in]|]); [lia|].
  destruct (at_cases _ _ HP lp) as (b & -> & _); [lia|]. in_run.
  assert (∃ r, dns_l_skip lp (p_data P) (p_end P) = Returns r ∧ lp < r <= p_end P) as (r & -> & Hr) by (apply l_skip_progress; done || lia).
  destruct (IH r) as (dict & Hrun & Hdict); [lia|lia|].
  destruct ((_ =? _) && _ && _) eqn:E; in_run; rewrite ?Hrun; [|by exists dict].
  apply andb_true_iff in E as [[_ E%Z.leb_le]%andb_true_iff _]. destruct (at_cases _ _ HP (lp + 1)) as (lo & -> & _); [lia|]. in_run.
  destruct (dict_replace _ _ _) as [k|] eqn:Er; [|by exists dict]. exists k. split; [done|]. by eapply dict_replace_in.
Qed.

(** ** Skipping what was written *)

Lemma d_skip_label data e fuel src l : data_ok data e → label_at data e src l → src + 1 + zlen l < e →
  d_skip_loop (S fuel) src data e = d_skip_loop fuel (src + 1 + zlen l) data e.
Proof.
  intros (_ & He & H16) (Hs & Hfit & Hz & Hb & _) Hlt. cbn [d_skip_loop]. leb_no. rewrite (rd_at _ _ _ Hb). in_run.
  destruct (tag_cases (zlen l)) as [(_ & -> & ->)|[[? _]|[? _]]]; [unfold byte_ok, is_uint; lia| |lia|lia].
  rewrite Z.eqb_refl. eqb_no. rewrite (u16_id (src + 1)) by lia. ltb_yes. by rewrite u16_id by lia.
Qed.

Lemma d_skip_root data e fuel src : data_ok data e → root_at data e src → d_skip_loop (S fuel) src data e = Returns (src + 1).
Proof.
  intros (_ & He & H16) [Hs Hb]. cbn [d_skip_loop]. leb_no. rewrite (rd_at _ _ _ Hb). in_run.
  change (tag_of 0 =? 0) with true. cbv iota zeta. change (Z.land 63 0 =? 0) with true. cbv iota. by rewrite u16_id by lia.
Qed.

Lemma d_skip_pointer data e fuel src tgt : data_ok data e → pointer_at data e src tgt → d_skip_loop (S fuel) src data e = Returns (src + 2).
Proof.
  intros (Hok & He & H16) (Hs & Hfit & hi & lo & Hhi & Hlo & H192 & _). cbn [d_skip_loop]. leb_no. rewrite (rd_at _ _ _ Hhi). in_run.
  assert (byte_ok hi) as Hb by by eapply (Forall_lookup_1 _ data).
  destruct (tag_cases hi Hb) as [[? _]|[[? _]|(_ & ->)]]; [lia|lia|]. cbn [Z.eqb Pos.eqb]. ltb_no. by rewrite u16_id by lia.
Qed.

Lemma d_skip_labels data e ls : data_ok data e → Forall label_ok ls → ∀ fuel src,
  0 <= src → src + zlen (wire_labels ls) < e → holds data src (wire_labels ls) → 
  d_skip_loop (length ls + fuel) src data e = d_skip_loop fuel (src + zlen (wire_labels ls)) data e.
Proof.
  intros Hd. induction 1 as [|l ls Hl Hls IH]; intros fuel src Hs Hfit Hh; [cbn; by rewrite Z.add_0_r|].
  assert (zlen (wire_labels (l :: ls)) = 1 + zlen l + zlen (wire_labels ls)) as E
    by (rewrite wire_labels_cons; cbn; rewrite length_app; lia). rewrite E in *.
  apply (holds_app _ _ (wire_label l) (wire_labels ls)) in Hh as [Hh1 Hh2]; [|done].
  replace (src + zlen (wire_label l)) with (src + 1 + zlen l) in Hh2 by (cbn; lia).
  cbn [length Nat.add]. rewrite (d_skip_label _ _ _ _ l); [|done|apply label_holds; done || lia|lia].
  rewrite IH by (done || lia). f_equal. lia.
Qed.

(** ** What was written is a name *)

Lemma name_bytes_labels data0 e0 K bs ls ls' : name_bytes data0 e0 K bs ls ls' → Forall label_ok ls →
  lower_name ls' = lower_name ls ∧ Forall label_ok ls' ∧ 0 < zlen bs ∧ bytes_ok bs.
Proof.
  intros [[-> ->]|(front & s & q & rb & -> & -> & -> & Hq & (_ & Hrb & _) & He)] Hls.
  - split; [done|]. split; [done|]. unfold wire. rewrite length_app. split; [cbn; lia|]. apply Forall_app. split; [by apply wire_ok|].
    by repeat constructor.
  - apply Forall_app in Hls as [Hfront _]. split; [unfold lower_name in *; by rewrite !map_app, He|].
    split; [by apply Forall_app|]. rewrite length_app. split; [cbn; lia|]. apply Forall_app.
    split; [by apply wire_ok|by apply pointer_ok].
Qed.

(** Wherever the bytes are, and the names known before still are. *)
Lemma name_bytes_name data0 e0 K bs ls ls' data e src :
  name_bytes data0 e0 K bs ls ls' → Forall label_ok ls → view data0 e0 data e → data_ok data e →
  0 <= src → src + zlen bs <= e → holds data src bs →
  name_at data e (S K) (S K) src ls' ∧ d_skip_loop (S (Z.to_nat e)) src data e = Returns (src + zlen bs).
Proof.
  intros Hbs Hls Hview Hd Hs Hfit Hh. destruct Hbs as [[-> ->]|(front & s & q & rb & -> & -> & -> & Hq & (Hrb & _) & _)].
  - split; [by apply name_wire|]. unfold wire in *. rewrite length_app in *. change (length [0]) with 1%nat in *.
    apply holds_app in Hh as [Hh1 Hh2]; [|lia]. pose proof (wire_labels_length ls).
    replace (S (Z.to_nat e)) with (length ls + S (Z.to_nat e - length ls))%nat by lia.
    rewrite d_skip_labels by (done || lia). rewrite d_skip_root; [f_equal; lia|done|]. split; [lia|]. by eapply holds_head.
  - apply Forall_app in Hls as [Hls _]. rewrite length_app in *. change (length (pointer q)) with 2%nat in *.
    apply holds_app in Hh as [Hh1 Hh2]; [|lia]. destruct (ptr_target_bytes q Hq) as (Hhi & Hlo & H192 & Htgt).
    assert (pointer_at data e (src + zlen (wire_labels front)) q) as Hp.
    { split; [lia|]. split; [lia|]. eexists _, _. split; [by eapply holds_head|].
      apply (holds_app _ _ [_] [_]) in Hh2 as [_ Hh2]; [|lia]. split; [by eapply holds_head|]. split; [exact H192|done]. }
    split.
    + apply (name_app _ _ _ (S K)); [done|lia|lia|done|done|done|]. eapply name_ptr; [exact Hp|].
      eapply name_more_all; [by eapply name_view|lia].
    + pose proof (wire_labels_length front).
      replace (S (Z.to_nat e)) with (length front + S (Z.to_nat e - length front))%nat by lia.
      rewrite d_skip_labels by (done || lia). rewrite (d_skip_pointer _ _ _ _ q); [f_equal; lia|done|done].
Qed.

(** ** Pushing *)

(** The names of the dictionary are those of [data0], of which [P] has all. *)
Lemma d_push_writes P data0 e0 K ls text :
  packet_ok P → p_size P < 65536 → view data0 e0 (p_data P) (p_end P) → dict_in data0 e0 K (p_dict P) →
  (K <= DNS_D_MAXPTRS)%nat → Forall label_ok ls → text_of ls text →
  ∃ err P', dns_d_push P text = Returns (err, P') ∧ length (p_data P') = length (p_data P) ∧ bytes_ok (p_data P') ∧
    take (Z.to_nat (p_end P)) (p_data P') = take (Z.to_nat (p_end P)) (p_data P) ∧ p_memo_ P' = p_memo_ P ∧
    match err with
    | Some err => err = DNS_ENOBUFS ∧ p_size P - p_end P < zlen (wire ls) ∧ p_end P' = p_end P ∧ p_dict P' = p_dict P
    | None =>
      ∃ bs ls', name_bytes data0 e0 K bs ls ls' ∧ p_end P' = p_end P + zlen bs ∧ p_end P' <= p_size P ∧
        holds (p_data P') (p_end P) bs ∧ ∀ d, d ∈ p_dict P' → d = p_end P ∨ d ∈ p_dict P
    end.
Proof.
  intros HP H16 Hview Hdict HK Hls Ht. pose proof HP as (HPok & He & He16). unfold p_size in *. unfold dns_d_push.
  set (dst := drop (Z.to_nat (p_end P)) (p_data P)).
  assert (zlen dst = zlen (p_data P) - p_end P) as Edst by (unfold dst; rewrite length_drop; lia).
  destruct (comp_encodes P data0 e0 K dst ls text) as (n & d & -> & Hd & Hok & Hn & Hlong & Hshort);
    [done|done|done|lia|by apply Forall_drop|lia|done|done|]. in_run. eqb_no.
  set (data' := take (Z.to_nat (p_end P)) (p_data P) ++ d).
  assert (length (take (Z.to_nat (p_end P)) (p_data P)) = Z.to_nat (p_end P)) as Etake by (rewrite length_take; lia).
  assert (length data' = length (p_data P)) as Elen by (unfold data'; rewrite length_app, Etake; lia).
  assert (bytes_ok data') as Hok' by (apply Forall_app; split; [by apply Forall_take|done]).
  assert (take (Z.to_nat (p_end P)) data' = take (Z.to_nat (p_end P)) (p_data P)) as Hkeep by (by apply take_app_length').
  destruct (Z.ltb_spec (zlen dst) n) as [Hbig|Hfit].
  - eexists _, _. split; [done|]. cbn. do 5 (split; [done|]). rewrite <-(Hlong Hbig). split; [lia|done].
  - destruct (Hshort Hfit) as (bs & ls' & Hbs & -> & Hh). rewrite u16_id by lia. unfold dns_p_dictadd.
    destruct (dictadd_in (set_end (p_end P + zlen bs) (set_data data' P)) (p_end P) (S (Z.to_nat (p_end P + zlen bs))))
      with (lp := p_end P) as (dict & Hx & Hin); [split; [done|split; cbn; lia]|lia|cbn; lia|].
    cbn in Hx, Hin |- *. rewrite Hx. in_run. eexists _, _. split; [done|]. cbn. do 4 (split; [done|]).
    exists bs, ls'. split; [done|]. split; [done|]. split; [lia|]. split; [|done].
    unfold holds in *. rewrite drop_0 in Hh. unfold data'. by rewrite drop_app_length'.
Qed.

(** The dictionary, with the new name. *)
Lemma dict_grows data0 e0 K data e src ls' dict dict' :
  dict_in data0 e0 K dict → view data0 e0 data e → (∀ d, d ∈ dict' → d = src ∨ d ∈ dict) →
  known_name data e (S K) src ls' → dict_in data e (S K) dict'.
Proof.
  intros Hdict Hview Hin Hnew. apply Forall_forall. intros x Hx Hx0. destruct (Hin x Hx) as [->|Hold]; [by exists ls'|].
  unfold dict_in in Hdict. rewrite Forall_forall in Hdict. destruct (Hdict x Hold Hx0) as (k & Hk & Hk'). exists k.
  split; [|done]. eapply name_more; [eapply name_more_all; [by eapply name_view|]|]; lia.
Qed.

(** ** Pushing and reading back *)

(** [dns_d_push] of a text, anchored or not, whose labels are 1 to 63 bytes
    long, to a packet whose dictionary has names no label of which repeats:
    either the name does not fit the memory, which is [DNS_ENOBUFS] and leaves
    the end where it is, or the packet grows by bytes that [dns_d_skip] skips
    and that [dns_d_expand] reads as the labels pushed, up to the case of their
    letters, whichever end of it was replaced by a pointer to another name; and
    the dictionary is good for the next name.  The bytes before the end stay. *)
Theorem dns_d_push_reads_back P K ls text :
  packet_ok P → p_size P < 65536 → dict_ok K P → (K < DNS_D_MAXPTRS)%nat →
  Forall label_ok ls → NoDup (lower_name ls) → text_of ls text →
  ∃ err P', dns_d_push P text = Returns (err, P') ∧ packet_ok P' ∧ p_size P' = p_size P ∧
    take (Z.to_nat (p_end P)) (p_data P') = take (Z.to_nat (p_end P)) (p_data P) ∧
    match err with
    | Some err => err = DNS_ENOBUFS ∧ p_size P - p_end P < zlen (wire ls) ∧ p_end P' = p_end P ∧ dict_ok K P'
    | None =>
      p_end P < p_end P' ∧ dict_ok (S K) P' ∧ dns_d_skip (p_end P) P' = Returns (p_end P') ∧
      ∃ ls', lower_name ls' = lower_name ls ∧
        ∀ dst, dns_d_expand dst (p_end P) P' =
          Returns (zlen (name_text ls'), put_nul (put dst 0 (name_text ls')) (zlen (name_text ls')))
    end.
Proof.
  intros HP H16 Hdict HK Hls Hnd Ht. pose proof HP as (HPok & He & He16).
  destruct (d_push_writes P _ _ K ls text HP H16 (view_refl _ _) Hdict) as (err & P' & -> & Hlen & Hok & Hkeep & _ & Hcase); [lia|done|done|].
  exists err, P'. split; [done|]. destruct err as [err|].
  - destruct Hcase as (-> & Hroom & Hend & Hd). unfold packet_ok, p_size in *.
    split; [split; [done|rewrite Hend, Hlen; lia]|]. split; [by rewrite Hlen|]. do 4 (split; [done|]). unfold dict_ok. rewrite Hend, Hd. eapply Forall_impl; [exact Hdict|]. intros x Hx Hx0.
    destruct (Hx Hx0) as (k & Hk & Hk'). exists k. split; [|done]. eapply name_view; [by apply view_below|done].
  - destruct Hcase as (bs & ls' & Hbs & Hend & Hfit & Hh & Hin). unfold p_size in *.
    destruct (name_bytes_labels _ _ _ _ _ _ Hbs Hls) as (Hlow & Hls' & Hpos & _).
    assert (packet_ok P') as HP' by (split; [done|rewrite Hlen; lia]).
    assert (view (p_data P) (p_end P) (p_data P') (p_end P')) as Hview by (apply view_below; [lia|done]).
    destruct (name_bytes_name _ _ _ _ _ _ _ _ (p_end P) Hbs Hls Hview HP') as [Hname Hskip]; [lia|lia|done|].
    split; [done|]. split; [by rewrite Hlen|]. split; [done|]. split; [lia|].
    split; [eapply dict_grows; [exact Hdict|done|done|split; [exact Hname|by rewrite Hlow]]|].
    split; [by rewrite Hend|]. exists ls'. split; [done|]. intros dst'. apply name_expands; [done|].
    eapply name_more; [by eapply name_more_all|lia].
Qed.

(** A packet with the name [foo.org], and the labels of [www.Foo.org]. *)
Definition foo_org : list bytes := [[102; 111; 111]; [111; 114; 103]].
Definition www_foo_org : list bytes := [[119; 119; 119]; [70; 111; 111]; [111; 114; 103]].
Definition foo_packet : dns_packet :=
  mk_packet (12 :: replicate 15 0) memo0 21 (replicate 12 0 ++ wire foo_org ++ replicate 20 0).

Lemma foo_packet_dict : dict_ok 0 foo_packet.
Proof.
  apply Forall_cons_2; [|by repeat (apply Forall_cons_2; [done|])]. intros _. exists foo_org.
  split; [|by split; apply (bool_decide_unpack _); vm_compute].
  apply name_wire; [by apply (bool_decide_unpack _); vm_compute|done|done|]. by exists (replicate 20 0).
Qed.

Lemma dns_d_push_reads_back_witness :
  ∃ P', dns_d_push foo_packet (labels_text www_foo_org) = Returns (None, P') ∧ p_end P' = 27 ∧
    mem_read 21 6 (p_data P') = [3; 119; 119; 119; 0xc0; 12] ∧
    ∃ ls', lower_name ls' = lower_name www_foo_org ∧
      dns_d_expand (replicate 16 0) 21 P' =
        Returns (zlen (name_text ls'), put_nul (put (replicate 16 0) 0 (name_text ls')) (zlen (name_text ls'))).
Proof.
  destruct (dns_d_push_reads_back foo_packet 0 www_foo_org (labels_text www_foo_org)) as (err & P' & Hp & _ & _ & _ & He);
    [by vm_compute; repeat constructor|done|apply foo_packet_dict|by unfold DNS_D_MAXPTRS; lia
    |by apply (bool_decide_unpack _); vm_compute|by apply (bool_decide_unpack _); vm_compute|constructor|].
  destruct err as [err|]; [vm_compute in Hp; done|]. destruct He as (_ & _ & _ & ls' & Hls & Hx). exists P'. split; [done|].
  split; [by vm_compute in Hp; simplify_eq|]. split; [by vm_compute in Hp; simplify_eq|]. exists ls'. split; [done|]. apply Hx.
Defined.

(** Why the labels of a name must differ: what the comparison with [foo.org]
    left in [a.label], the [com] of [foo.com], is compared with the first label
    of [com.com], and the rest of [foo.com] with the rest of it.  So [foo.com]
    becomes a pointer to [com.com]. *)
Example repeated_label :
  (P ← dns_p_init (replicate 64 0);
   '(_, P) ← dns_d_push P [102; 111; 111; 46; 111; 114; 103];
   '(_, P) ← dns_d_push P [99; 111; 109; 46; 99; 111; 109];
   let at_ := p_end P in
   '(_, P) ← dns_d_push P [102; 111; 111; 46; 99; 111; 109];
   dns_d_expand (replicate 10 0) at_ P) = Returns (8, [99; 111; 109; 46; 99; 111; 109; 46; 0; 0]).
Proof. reflexivity. Qed.
