(* ===== verification/DnsRR.v ===== *)
(** Resource records of a packet (src/dns/dns.c): where one begins and ends,
    which section it is in, and the loops over all of them. *)

From S2P Require Import Prelude DnsPacket DnsName DnsExpand DnsSkip.

Open Scope Z_scope.

(** [enum dns_type], the ones with a record of their own, and [DNS_T_ALL];
    [enum dns_class]. *)
Definition DNS_T_A : Z := 1.
Definition DNS_T_NS : Z := 2.
Definition DNS_T_CNAME : Z := 5.
Definition DNS_T_SOA : Z := 6.
Definition DNS_T_PTR : Z := 12.
Definition DNS_T_MX : Z := 15.
Definition DNS_T_TXT : Z := 16.
Definition DNS_T_AAAA : Z := 28.
Definition DNS_T_SRV : Z := 33.
Definition DNS_T_OPT : Z := 41.
Definition DNS_T_SSHFP : Z := 44.
Definition DNS_T_SPF : Z := 99.
Definition DNS_T_ALL : Z := 255.
Definition DNS_C_IN : Z := 1.
Definition DNS_C_ANY : Z := 255.

(** [struct dns_rr] *)
Record dns_rr := mk_rr {
  rr_section : Z; dn_p : Z; dn_len : Z; rr_type : Z; rr_class : Z; rr_ttl : Z; rd_p : Z; rd_len : Z }.

Definition rr_set_section (s : Z) (rr : dns_rr) : dns_rr :=
  mk_rr s (dn_p rr) (dn_len rr) (rr_type rr) (rr_class rr) (rr_ttl rr) (rd_p rr) (rd_len rr).

(** ** Questions *)

Fixpoint qend_loop (count : nat) (qend : Z) (P : dns_packet) : run Z :=
  match count with
  | O => Returns (u16 (Z.min qend (p_end P)))
  | S count' =>
    if p_end P <=? qend then Returns (u16 (Z.min qend (p_end P)))
    else
      qend ← dns_d_skip qend P;
      if p_end P =? qend then Returns (u16 (p_end P))
      else if p_end P - qend <? 4 then Returns (u16 (p_end P))
      else qend_loop count' (u16 (qend + 4)) P
  end.

Definition dns_p_qend (P : dns_packet) : run Z :=
  count ← dns_p_count P DNS_S_QD; qend_loop (Z.to_nat count) 12 P.

(** ** A record *)

(** [dns_rr_parse]: the record, or [DNS_EILLEGAL].  The section of a record that
    is no question is left as it is, for the caller to set. *)
Definition dns_rr_parse (section : Z) (src : Z) (P : dns_packet) : run (option dns_rr) :=
  let invalid := Returns None in
  if p_end P <=? src then invalid
  else
    p ← dns_d_skip src P;
    let dnlen := u16 (p - src) in
    if p_end P - p <? 4 then invalid
    else
      type ← rd16 (p_data P) p;
      class ← rd16 (p_data P) (p + 2);
      let p := u16 (p + 4) in
      qend ← dns_p_qend P;
      if src <? qend then Returns (Some (mk_rr DNS_S_QD src dnlen type class 0 0 0))
      else if p_end P - p <? 4 then invalid
      else
        hi ← rd16 (p_data P) p;
        lo ← rd16 (p_data P) (p + 2);
        let ttl := Z.lor (Z.shiftl hi 16) lo in
        let ttl := if negb (type =? DNS_T_OPT) then Z.min ttl 0x7fffffff else ttl in
        let p := u16 (p + 4) in
        if p_end P - p <? 2 then invalid
        else
          rdlen ← rd16 (p_data P) p;
          let rdp := u16 (p + 2) in
          let p := u16 (p + 2) in
          if p_end P - p <? rdlen then invalid
          else Returns (Some (mk_rr section src dnlen type class ttl rdp rdlen)).

Definition dns_rr_len (src : Z) (P : dns_packet) : run Z :=
  rp ← dns_d_skip src P;
  if p_end P - rp <? 4 then Returns (u16 (p_end P - src))
  else
    let rp := u16 (rp + 4) in
    qend ← dns_p_qend P;
    if rp <=? qend then Returns (u16 (rp - src))
    else if p_end P - rp <? 6 then Returns (u16 (p_end P - src))
    else
      let rp := u16 (rp + 6) in
      rdlen ← rd16 (p_data P) (rp - 2);
      if p_end P - rp <? rdlen then Returns (u16 (p_end P - src))
      else Returns (u16 (u16 (rp + rdlen) - src)).

Definition dns_rr_skip (src : Z) (P : dns_packet) : run Z :=
  len ← dns_rr_len src P; Returns (u16 (src + len)).

(** The loops over the records: each goes on in the packet, so that its size is
    fuel enough. *)
Definition packet_fuel (P : dns_packet) : nat := S (Z.to_nat (p_end P)).

(** How many records are before [src]. *)
Fixpoint index_loop (fuel : nat) (rp index src : Z) (P : dns_packet) : run Z :=
  if (rp <? src) && (rp <? p_end P) then
    match fuel with
    | O => Forever
    | S fuel' => rp ← dns_rr_skip rp P; index_loop fuel' rp (index + 1) src P
    end
  else Returns index.

(** [while (index >= count && section <= DNS_S_AR)]: four turns, at most. *)
Fixpoint section_loop (fuel : nat) (section index count : Z) (P : dns_packet) : run Z :=
  if (count <=? index) && (section <=? DNS_S_AR) then
    match fuel with
    | O => Forever
    | S fuel' =>
      let section := Z.shiftl section 1 in
      c ← dns_p_count P section; section_loop fuel' section index (count + c) P
    end
  else Returns (Z.land DNS_S_ALL section).

Definition within (m : s_memo) (src : Z) : bool := (s_base m <=? src) && (src <? s_end m).

Definition dns_rr_section (src : Z) (P : dns_packet) : run Z :=
  let m := p_memo_ P in
  if within (m_qd m) src then Returns DNS_S_QD
  else if within (m_an m) src then Returns DNS_S_AN
  else if within (m_ns m) src then Returns DNS_S_NS
  else if within (m_ar m) src then Returns DNS_S_AR
  else
    index ← index_loop (packet_fuel P) 12 0 src P;
    count ← dns_p_count P DNS_S_QD;
    section_loop 4 DNS_S_QD index count P.

Definition dns_rr_type (src : Z) (P : dns_packet) : run Z :=
  rr ← dns_rr_parse 0 src P;
  Returns (match rr with Some rr => rr_type rr | None => 0 end).

(** ** Where the sections are *)

Fixpoint study_loop (count : nat) (rp : Z) (P : dns_packet) : run Z :=
  match count with
  | O => Returns rp
  | S count' => if rp <? p_end P then rp ← dns_rr_skip rp P; study_loop count' rp P else Returns rp
  end.

Definition dns_s_study (section base : Z) (P : dns_packet) : run s_memo :=
  count ← dns_p_count P section;
  rp ← study_loop (Z.to_nat (u16 count)) base P;
  Returns (mk_s_memo base rp).

(** ** Reading numbers *)

(** A packet with memory for its header. *)
Definition header_ok (P : dns_packet) : Prop := packet_ok P ∧ 12 <= p_size P.

#[export] Instance header_ok_dec P : Decision (header_ok P).
Proof. unfold header_ok. apply _. Defined.

Lemma word_eq hi lo : byte_ok hi → byte_ok lo → word hi lo = hi * 256 + lo.
Proof.
  unfold byte_ok, is_uint, word. change (2 ^ 8) with 256. intros Hh Hl.
  rewrite !(Z.land_comm 255), !land_255, !Z.mod_small by lia. rewrite Z.lor_comm, lor_shiftl_add by (lia || done). lia.
Qed.

Lemma rd16_ok data i : bytes_ok data → 0 <= i → i + 2 <= zlen data →
  ∃ hi lo, data !! Z.to_nat i = Some hi ∧ data !! Z.to_nat (i + 1) = Some lo ∧ byte_ok hi ∧ byte_ok lo ∧
    rd16 data i = Returns (hi * 256 + lo) ∧ 0 <= hi * 256 + lo < 65536.
Proof.
  intros Hok Hi Hl. unfold rd16. destruct (rd_in data i) as (hi & -> & Hhi); [lia|].
  destruct (rd_in data (i + 1)) as (lo & -> & Hlo); [lia|]. in_run. exists hi, lo.
  assert (byte_ok hi) as H1 by by eapply (Forall_lookup_1 _ data). assert (byte_ok lo) as H2 by by eapply (Forall_lookup_1 _ data).
  do 4 (split; [done|]). rewrite word_eq by done. split; [done|]. unfold byte_ok, is_uint in *. lia.
Qed.

Lemma rd16_range data i : bytes_ok data → 0 <= i → i + 2 <= zlen data → ∃ v, rd16 data i = Returns v ∧ 0 <= v < 65536.
Proof. intros Hok Hi Hl. destruct (rd16_ok data i Hok Hi Hl) as (hi & lo & _ & _ & _ & _ & Hr & Hv). by eexists. Qed.

Section Records.
Context (P : dns_packet) (HP : header_ok P).

Lemma header_count_range s : ∃ c, header_count P s = Returns c ∧ 0 <= c < 65536.
Proof using HP.
  destruct HP as ((Hok & _) & H12). apply rd16_range; [done| |]; unfold count_at;
    repeat case_match; unfold p_size in H12; lia.
Qed.

Lemma masked_count_range s m :
  ∃ c, (if has_section s m then header_count P m else Returns 0) = Returns c ∧ 0 <= c < 65536.
Proof using HP. destruct (has_section s m); [apply header_count_range|by exists 0]. Qed.

Lemma p_count_range s : ∃ c, dns_p_count P s = Returns c ∧ 0 <= c < 262144.
Proof using HP.
  unfold dns_p_count. destruct (_ || _).
  - destruct (header_count_range s) as (c & -> & Hc). exists c. split; [done|lia].
  - destruct (masked_count_range s DNS_S_QD) as (a & -> & Ha). destruct (masked_count_range s DNS_S_AN) as (b & -> & Hb).
    destruct (masked_count_range s DNS_S_NS) as (c & -> & Hc). destruct (masked_count_range s DNS_S_AR) as (d & -> & Hd).
    in_run. eexists. split; [done|lia].
Qed.

(** [dns_d_skip], as the records use it. *)
Lemma d_skip_range src : 0 <= src < p_end P → ∃ r, dns_d_skip src P = Returns r ∧ src < r <= p_end P.
Proof using HP.
  intros Hs. destruct (d_skip_loop_returns _ _ (proj1 HP) (S (Z.to_nat (p_end P))) src) as (r & Hr & _ & Hle); [lia|lia|].
  exists r. split; [done|]. apply Hle. lia.
Qed.

Lemma d_skip_past src : p_end P <= src → 0 <= src → dns_d_skip src P = Returns (p_end P).
Proof using HP.
  intros Hs H0. destruct (d_skip_loop_returns _ _ (proj1 HP) (S (Z.to_nat (p_end P))) src) as (r & Hr & Hp & _); [lia|lia|].
  unfold dns_d_skip. by rewrite Hr, Hp.
Qed.

Lemma qend_loop_range n : ∀ q, 0 <= q → ∃ r, qend_loop n q P = Returns r ∧ 0 <= r <= p_end P.
Proof using HP.
  pose proof (proj1 HP) as (_ & He & H16).
  induction n as [|n IH]; intros q Hq; cbn [qend_loop]; [rewrite u16_id by lia; eexists; split; [done|lia]|].
  destruct (Z.leb_spec (p_end P) q); [rewrite u16_id by lia; eexists; split; [done|lia]|].
  destruct (d_skip_range q) as (r & -> & Hr); [lia|]. in_run.
  destruct (Z.eqb_spec (p_end P) r); [rewrite u16_id by lia; eexists; split; [done|lia]|].
  destruct (Z.ltb_spec (p_end P - r) 4); [rewrite u16_id by lia; eexists; split; [done|lia]|].
  rewrite u16_id by lia. apply IH. lia.
Qed.

Lemma p_qend_range : ∃ q, dns_p_qend P = Returns q ∧ 0 <= q <= p_end P.
Proof using HP.
  unfold dns_p_qend. destruct (p_count_range DNS_S_QD) as (c & -> & _). in_run. by apply qend_loop_range.
Qed.

(** ** Skipping a record *)

Lemma rr_skip_range src : 0 <= src →
  ∃ r, dns_rr_skip src P = Returns r ∧ (p_end P <= src → src < 65536 → r = p_end P) ∧ (src < p_end P → src < r <= p_end P).
Proof using HP.
  intros Hs. pose proof (proj1 HP) as (Hok & He & H16). unfold dns_rr_skip, dns_rr_len.
  assert (∀ d, 0 <= src + d < 65536 → u16 (src + u16 d) = src + d) as Hwrap.
  { intros d Hd. unfold u16, uwrap. change (2 ^ 16) with 65536. rewrite Z.add_mod_idemp_r by lia. by apply Z.mod_small. }
  destruct (Z.le_gt_cases (p_end P) src) as [Hpast|Hin].
  - rewrite d_skip_past by lia. in_run. rewrite Z.sub_diag. cbn [Z.ltb Z.compare]. in_run. rewrite Hwrap by lia.
    eexists. split; [done|]. split; lia.
  - destruct (d_skip_range src) as (rp & -> & Hrp); [lia|]. in_run.
    destruct (Z.ltb_spec (p_end P - rp) 4); [in_run; rewrite Hwrap by lia; eexists; split; [done|split; lia]|].
    destruct p_qend_range as (q & -> & Hq). in_run. rewrite (u16_id (rp + 4)) by lia.
    destruct (Z.leb_spec (rp + 4) q); [in_run; rewrite Hwrap by lia; eexists; split; [done|split; lia]|].
    destruct (Z.ltb_spec (p_end P - (rp + 4)) 6); [in_run; rewrite Hwrap by lia; eexists; split; [done|split; lia]|].
    rewrite (u16_id (rp + 4 + 6)) by lia. destruct (rd16_range (p_data P) (rp + 4 + 6 - 2)) as (v & -> & Hv); [done|lia|lia|]. in_run.
    destruct (Z.ltb_spec (p_end P - (rp + 4 + 6)) v); [in_run; rewrite Hwrap by lia; eexists; split; [done|split; lia]|].
    rewrite (u16_id (_ + v)) by lia. in_run. rewrite Hwrap by lia. eexists. split; [done|]. split; lia.
Qed.

(** What [dns_rr_parse] gives: a record of the packet, with its data in the
    packet; [next] is where it ends, [q] where the questions end. *)
Definition rr_within (src q : Z) (rr : dns_rr) (next : Z) : Prop :=
  dn_p rr = src ∧ 0 < dn_len rr ∧ dns_d_skip src P = Returns (src + dn_len rr) ∧ next <= p_end P ∧
  0 <= rr_type rr < 65536 ∧ 0 <= rr_class rr < 65536 ∧
  ((src < q ∧ rr_section rr = DNS_S_QD ∧ next = src + dn_len rr + 4) ∨
   (q <= src ∧ rd_p rr = src + dn_len rr + 10 ∧ 0 <= rd_len rr ∧ next = rd_p rr + rd_len rr ∧ 0 <= rr_ttl rr < 2 ^ 32 ∧
    (rr_type rr ≠ DNS_T_OPT → rr_ttl rr < 2 ^ 31))).

Lemma word32_range hi lo : 0 <= hi < 65536 → 0 <= lo < 65536 → 0 <= Z.lor (Z.shiftl hi 16) lo < 2 ^ 32.
Proof using. intros Hh Hl. rewrite Z.lor_comm, lor_shiftl_add by (unfold is_uint; lia). lia. Qed.

Lemma u16_wrap src d : 0 <= src + d < 65536 → u16 (src + u16 d) = src + d.
Proof using. intros Hd. unfold u16, uwrap. change (2 ^ 16) with 65536. rewrite Z.add_mod_idemp_r by lia. by apply Z.mod_small. Qed.

Lemma rr_parse_cases section src : 0 <= src → ∃ q, dns_p_qend P = Returns q ∧
  (dns_rr_parse section src P = Returns None ∨
   ∃ rr next, dns_rr_parse section src P = Returns (Some rr) ∧ rr_within src q rr next ∧
     (q <= src ∨ next <= q → dns_rr_skip src P = Returns next)).
Proof using HP.
  intros Hs. pose proof (proj1 HP) as (Hok & He & H16). unfold dns_rr_parse, rr_within.
  destruct p_qend_range as (q & Eq & Hq). rewrite Eq. exists q. split; [done|].
  destruct (Z.leb_spec (p_end P) src) as [|Hin]; [by left|].
  unfold dns_rr_skip, dns_rr_len. rewrite Eq. destruct (d_skip_range src) as (p & -> & Hp); [lia|]. in_run.
  rewrite (u16_id (p - src)) by lia. destruct (Z.ltb_spec (p_end P - p) 4); [by left|].
  destruct (rd16_range (p_data P) p) as (type & -> & Htype); [done|lia|lia|]. in_run.
  destruct (rd16_range (p_data P) (p + 2)) as (class & -> & Hclass); [done|lia|lia|]. in_run.
  rewrite (u16_id (p + 4)) by lia. destruct (Z.ltb_spec src q).
  - right. eexists _, (p + 4). split; [done|]. cbn. split.
    + split; [done|]. split; [lia|]. split; [f_equal; lia|]. split; [lia|]. do 2 (split; [done|]). left. split; [done|]. split; [done|lia].
    + intros [?|?]; [lia|]. leb_yes. in_run. rewrite u16_wrap by lia. f_equal. lia.
  - destruct (Z.ltb_spec (p_end P - (p + 4)) 4); [by left|].
    destruct (rd16_range (p_data P) (p + 4)) as (hi & -> & Hhi); [done|lia|lia|]. in_run.
    destruct (rd16_range (p_data P) (p + 4 + 2)) as (lo & -> & Hlo); [done|lia|lia|]. in_run.
    rewrite (u16_id (p + 4 + 4)) by lia. destruct (Z.ltb_spec (p_end P - (p + 4 + 4)) 2); [by left|].
    replace (u16 (p + 4 + 6) - 2) with (p + 4 + 4) by (rewrite u16_id; lia).
    destruct (rd16_range (p_data P) (p + 4 + 4)) as (v & -> & Hv); [done|lia|lia|]. in_run.
    rewrite (u16_id (p + 4 + 4 + 2)) by lia. destruct (Z.ltb_spec (p_end P - (p + 4 + 4 + 2)) v); [by left|].
    pose proof (word32_range hi lo Hhi Hlo) as Hw. right. eexists _, (p + 4 + 4 + 2 + v). split; [done|]. cbn. split.
    + split; [done|]. split; [lia|]. split; [f_equal; lia|]. split; [lia|]. do 2 (split; [done|]). right. split; [done|].
      split; [lia|]. split; [lia|]. split; [lia|]. destruct (Z.eqb_spec type DNS_T_OPT); cbn [negb]; split; lia.
    + intros _. leb_no. ltb_no. rewrite (u16_id (p + 4 + 6)) by lia. ltb_no. in_run. rewrite (u16_id (p + 4 + 6 + v)) by lia.
      rewrite u16_wrap by lia. f_equal. lia.
Qed.

(** ** The loops end *)

Lemma index_loop_returns fuel : ∀ rp index src, 0 <= rp → (Z.to_nat (p_end P) - Z.to_nat rp < fuel)%nat →
  ∃ n, index_loop fuel rp index src P = Returns n ∧ index <= n.
Proof using HP.
  induction fuel as [|fuel IH]; intros rp index src Hrp Hf; [lia|]. cbn [index_loop].
  destruct ((rp <? src) && (rp <? p_end P)) eqn:E; [|eexists; split; [done|lia]].
  apply andb_true_iff in E as [_ E%Z.ltb_lt]. destruct (rr_skip_range rp Hrp) as (r & -> & _ & Hr). in_run. specialize (Hr E).
  destruct (IH r (index + 1) src) as (n & -> & Hn); [lia|lia|]. eexists. split; [done|lia].
Qed.

Lemma section_loop_returns fuel : ∀ k index count, (k + fuel = 4)%nat →
  ∃ s, section_loop fuel (Z.shiftl 1 (Z.of_nat k)) index count P = Returns s ∧ s ∈ [0; 1; 2; 4; 8].
Proof using HP.
  assert (∀ k, (k <= 4)%nat → Z.land DNS_S_ALL (Z.shiftl 1 (Z.of_nat k)) ∈ [0; 1; 2; 4; 8]) as Hin.
  { intros k Hk. do 5 (destruct k as [|k]; [by apply (bool_decide_unpack _)|]). lia. }
  induction fuel as [|fuel IH]; intros k index count Hk; cbn [section_loop].
  - assert (k = 4%nat) as -> by lia. rewrite andb_false_r. eexists. split; [done|by apply Hin].
  - destruct (_ && _); [|eexists; split; [done|apply Hin; lia]]. rewrite Z.shiftl_shiftl by lia.
    replace (Z.of_nat k + 1) with (Z.of_nat (S k)) by lia. destruct (p_count_range (1 ≪ Z.of_nat (S k))) as (c & -> & _). in_run.
    apply IH. lia.
Qed.

Lemma rr_section_returns src : 0 <= src → ∃ s, dns_rr_section src P = Returns s ∧ s ∈ [0; 1; 2; 4; 8].
Proof using HP.
  intros Hs. unfold dns_rr_section.
  repeat match goal with |- context [if within ?m ?x then _ else _] =>
    destruct (within m x); [eexists; split; [done|by apply (bool_decide_unpack _)]|] end.
  destruct (index_loop_returns (packet_fuel P) 12 0 src) as (n & -> & _); [lia|unfold packet_fuel; lia|]. in_run.
  destruct (p_count_range DNS_S_QD) as (c & -> & _). in_run. by apply (section_loop_returns 4 0).
Qed.

Lemma study_loop_returns n : ∀ rp, 0 <= rp → ∃ r, study_loop n rp P = Returns r ∧ rp <= r ∧ (rp <= p_end P → r <= p_end P).
Proof using HP.
  induction n as [|n IH]; intros rp Hrp; cbn [study_loop]; [eexists; split; [done|lia]|].
  destruct (Z.ltb_spec rp (p_end P)); [|eexists; split; [done|lia]].
  destruct (rr_skip_range rp Hrp) as (r & -> & _ & Hr). in_run. destruct (IH r) as (r' & -> & Hr'); [lia|]. eexists. split; [done|lia].
Qed.

End Records.

(** * Records stay within the packet *)

(** C37: for any packet with memory for its header, whatever its bytes are,
    [dns_rr_parse] either refuses what is at an offset or gives a record whose
    name begins there, at a length [dns_d_skip] finds, whose class, type and
    data are within the packet, and whose time to live fits 31 bits unless it is
    an [OPT]; [dns_rr_skip] agrees with it on where the record ends, unless that
    is a question that runs past the last of them; and [dns_rr_skip] always goes
    on, so that [dns_rr_section] returns, a section or none. *)
Theorem dns_rr_parse_within P section src :
  header_ok P → 0 <= src →
  ∃ q s r, dns_p_qend P = Returns q ∧ 0 <= q <= p_end P ∧
    dns_rr_section src P = Returns s ∧ s ∈ [0; DNS_S_QD; DNS_S_AN; DNS_S_NS; DNS_S_AR] ∧
    dns_rr_skip src P = Returns r ∧ (src < p_end P → src < r <= p_end P) ∧
    (dns_rr_parse section src P = Returns None ∨
     ∃ rr next, dns_rr_parse section src P = Returns (Some rr) ∧ rr_within P src q rr next ∧ (q <= src ∨ next <= q → r = next)).
Proof.
  intros HP Hs. destruct (rr_parse_cases P HP section src Hs) as (q & Hq & Hparse). destruct (p_qend_range P HP) as (q' & Hq' & Hr).
  rewrite Hq in Hq'. simplify_eq. destruct (rr_section_returns P HP src Hs) as (s & Hsec & Hin).
  destruct (rr_skip_range P HP src Hs) as (r & Hskip & _ & Hrange). exists q', s, r. do 6 (split; [done|]).
  destruct Hparse as [?|(rr & next & ? & ? & Hsk)]; [by left|]. right. exists rr, next. do 2 (split; [done|]).
  intros Hc. specialize (Hsk Hc). rewrite Hskip in Hsk. by simplify_eq.
Qed.

(** An answer: [a.], an address, at the end of a packet with a question for it. *)
Definition answer_packet : dns_packet :=
  mk_packet [] memo0 35
    ([0; 0; 0x81; 0x80; 0; 1; 0; 1; 0; 0; 0; 0] ++ [1; 97; 0; 0; 1; 0; 1] ++ [0xc0; 12; 0; 1; 0; 1; 0xff; 0; 0; 9; 0; 4; 10; 0; 0; 1]).

Lemma dns_rr_parse_within_witness :
  header_ok answer_packet ∧
  dns_rr_parse 0 19 answer_packet = Returns (Some (mk_rr 0 19 2 1 1 0x7fffffff 31 4)) ∧
  ∃ s r, dns_rr_section 19 answer_packet = Returns s ∧ dns_rr_skip 19 answer_packet = Returns r ∧ 19 < r <= 35.
Proof.
  assert (header_ok answer_packet) as HP by by vm_compute; repeat constructor.
  split; [done|]. split; [reflexivity|].
  destruct (dns_rr_parse_within answer_packet 0 19 HP) as (q & s & r & _ & _ & Hs & _ & Hr & Hle & _); [lia|].
  exists s, r. split; [done|]. split; [done|]. by apply Hle.
Defined.
