(* ===== verification/DnsBuf.v ===== *)
(** Fixed-size buffers of the resolver (src/dns/dns.c, "F I X E D - S I Z E D
    B U F F E R  R O U T I N E S"): what does not fit is counted. *)

From S2P Require Import Prelude DnsPacket DnsExpand.

Open Scope Z_scope.

(** [struct dns_buf]: [base] up to [pe] is a list, [p] an offset in it. *)
Record dns_buf := mk_buf { b_base : bytes; b_p : Z; b_error : option dns_errno; b_overflow : Z }.

Definition b_size (b : dns_buf) : Z := zlen (b_base b).

(** [DNS_B_FROM], [DNS_B_INTO], [dns_b_from], [dns_b_into] *)
Definition dns_b_into (src : bytes) : dns_buf := mk_buf src 0 None 0.

Definition dns_b_tell (b : dns_buf) : Z := b_p b.

Definition dns_b_setoverflow (b : dns_buf) (n : Z) (error : dns_errno) : dns_buf :=
  mk_buf (b_base b) (b_p b) (Some error) (b_overflow b + n).

(** The functions that return an error here return it with the buffer. *)
Definition dns_b_putc (b : dns_buf) (uc : byte) : option dns_errno * dns_buf :=
  if negb (b_p b <? b_size b) then (Some DNS_ENOBUFS, dns_b_setoverflow b 1 DNS_ENOBUFS)
  else (None, mk_buf (put (b_base b) (b_p b) [uc]) (b_p b + 1) (b_error b) (b_overflow b)).

Definition dns_b_pputc (b : dns_buf) (uc : byte) (p : Z) : option dns_errno * dns_buf :=
  if b_size b <=? p then (Some DNS_ENOBUFS, dns_b_setoverflow b (p - b_size b + 1) DNS_ENOBUFS)
  else (None, mk_buf (put (b_base b) p [uc]) (b_p b) (b_error b) (b_overflow b)).

Definition dns_b_put16 (b : dns_buf) (u : Z) : option dns_errno * dns_buf :=
  dns_b_putc (dns_b_putc b (u8 (Z.shiftr u 8))).2 (u8 u).

Definition dns_b_pput16 (b : dns_buf) (u p : Z) : option dns_errno * dns_buf :=
  match dns_b_pputc b (u8 (Z.shiftr u 8)) p with
  | (Some _, b) => (b_error b, b)
  | (None, b) => match dns_b_pputc b (u8 u) (p + 1) with
                 | (Some _, b) => (b_error b, b)
                 | (None, b) => (None, b)
                 end
  end.

Definition dns_b_put32 (b : dns_buf) (u : Z) : option dns_errno * dns_buf :=
  let b := (dns_b_putc b (u8 (Z.shiftr u 24))).2 in
  let b := (dns_b_putc b (u8 (Z.shiftr u 16))).2 in
  let b := (dns_b_putc b (u8 (Z.shiftr u 8))).2 in
  dns_b_putc b (u8 u).

Definition dns_b_put (b : dns_buf) (src : bytes) : option dns_errno * dns_buf :=
  let n := Z.min (b_size b - b_p b) (zlen src) in
  let b := mk_buf (put (b_base b) (b_p b) (take (Z.to_nat n) src)) (b_p b + n) (b_error b) (b_overflow b) in
  if n <? zlen src then (Some DNS_ENOBUFS, dns_b_setoverflow b (zlen src - n) DNS_ENOBUFS) else (None, b).

(** [dns_b_puts]: [src] is the string, without its terminator. *)
Definition dns_b_puts (b : dns_buf) (src : bytes) : option dns_errno * dns_buf := dns_b_put b src.

(** ** Numbers *)

(** The digits that [do ... r /= 10 ... while (r)] meets, the last first; a
    64-bit number has no more than twenty. *)
Fixpoint digits_from (fuel : nat) (r : Z) : list Z :=
  match fuel with
  | O => []
  | S fuel' => r mod 10 :: (if r / 10 =? 0 then [] else digits_from fuel' (r / 10))
  end.
Definition digits_of (u : Z) : list Z := digits_from 20 u.

Definition putc_all (b : dns_buf) (cs : bytes) : dns_buf := fold_left (λ b c, (dns_b_putc b c).2) cs b.

(** The loop that swaps the bytes from [tp] to [te]. *)
Definition swap_range (data : bytes) (tp te : Z) : bytes :=
  put data tp (rev (mem_read (Z.to_nat tp) (Z.to_nat (te - tp)) data)).

Definition dns_b_fmtju (b : dns_buf) (u width : Z) : option dns_errno * dns_buf :=
  let ds := digits_of u in
  let digits := zlen ds in
  let padding := width - Z.min digits width in
  let overflow := (digits + padding) - Z.min (b_size b - b_p b) (digits + padding) in
  let b := putc_all b (replicate (Z.to_nat padding) 48) in
  let tp := b_p b in
  let b := putc_all b (map (Z.add 48) (drop (Z.to_nat overflow) ds)) in
  (b_error b, mk_buf (swap_range (b_base b) tp (b_p b)) (b_p b) (b_error b) (b_overflow b)).

(** ** As a string *)

Definition dns_b_popc (b : dns_buf) : dns_buf :=
  let b := if negb (b_overflow b =? 0)
           then mk_buf (b_base b) (b_p b) (if b_overflow b - 1 =? 0 then None else b_error b) (b_overflow b - 1) else b in
  if 0 <? b_p b then mk_buf (b_base b) (b_p b - 1) (b_error b) (b_overflow b) else b.

(** [dns_b_tolstring]: the length, and the buffer with its terminator. *)
Definition dns_b_tolstring (b : dns_buf) : Z * dns_buf :=
  if b_p b <? b_size b then (b_p b, mk_buf (put (b_base b) (b_p b) [0]) (b_p b) (b_error b) (b_overflow b))
  else if 0 <? b_p b then
    let b := if negb (bool_decide (b_base b !! Z.to_nat (b_p b - 1) = Some 0)) then
               let b := dns_b_setoverflow b 1 DNS_ENOBUFS in
               mk_buf (put (b_base b) (b_p b - 1) [0]) (b_p b) (b_error b) (b_overflow b)
             else b in
    (b_p b - 1, b)
  else (0, b).

Definition dns_b_strlen (b : dns_buf) : Z * dns_buf := dns_b_tolstring b.

Definition dns_b_strllen (b : dns_buf) : Z * dns_buf :=
  let '(n, b) := dns_b_strlen b in (n + b_overflow b, b).

(** ** Reading *)

Definition dns_b_getc (b : dns_buf) (eof : Z) : Z * dns_buf :=
  if negb (b_p b <? b_size b) then (eof, dns_b_setoverflow b 1 DNS_EILLEGAL)
  else (default 0 (b_base b !! Z.to_nat (b_p b)), mk_buf (b_base b) (b_p b + 1) (b_error b) (b_overflow b)).

Definition dns_b_get16 (b : dns_buf) (eof : Z) : Z * dns_buf :=
  let '(hi, b) := dns_b_getc b 0 in
  let '(lo, b) := dns_b_getc b 0 in
  (if b_overflow b =? 0 then Z.lor (Z.shiftl hi 8) lo else eof, b).

Definition dns_b_get32 (b : dns_buf) (eof : Z) : Z * dns_buf :=
  let '(hi, b) := dns_b_get16 b 0 in
  let '(lo, b) := dns_b_get16 b 0 in
  (if b_overflow b =? 0 then Z.lor (Z.shiftl hi 16) lo else eof, b).

(** [dns_b_move]: the error, [dst] and [src]. *)
Definition dns_b_move (dst src : dns_buf) (n : Z) : option dns_errno * dns_buf * dns_buf :=
  let src_n := Z.min (b_size src - b_p src) n in
  let src_r := n - src_n in
  let dst := (dns_b_put dst (mem_read (Z.to_nat (b_p src)) (Z.to_nat src_n) (b_base src))).2 in
  let src := mk_buf (b_base src) (b_p src + src_n) (b_error src) (b_overflow src) in
  if negb (src_r =? 0) then let src := dns_b_setoverflow src src_r DNS_EILLEGAL in (b_error src, dst, src)
  else (b_error dst, dst, src).

(** ** What a buffer holds *)

(** All of [text], or as much of it as there is room for; the rest is counted. *)
Definition holds_text (b : dns_buf) (dst text : bytes) : Prop :=
  b_base b = put dst 0 text ∧ b_p b = Z.min (zlen text) (zlen dst) ∧ b_overflow b = zlen text - b_p b ∧
  (b_error b = None ↔ b_overflow b = 0).

Lemma text_size b dst text : holds_text b dst text → b_size b = zlen dst.
Proof. intros (Hb & _). unfold b_size. by rewrite Hb, put_length. Qed.

Lemma into_holds dst : holds_text (dns_b_into dst) dst [].
Proof. split; [by rewrite put_nil|]. split; [cbn; lia|]. split; [done|]. done. Qed.

(** Nothing is written past the end of a buffer. *)
Lemma put_past dst i bs : zlen dst <= i → put dst i bs = dst.
Proof.
  intros Hi. unfold put. apply list_eq. intros k. rewrite mem_write_lookup.
  destruct (Nat.ltb_spec k (length dst)).
  - by rewrite (proj2 (Nat.leb_gt _ _)) by lia.
  - symmetry. apply lookup_ge_None_2. lia.
Qed.

Lemma put_cut dst i bs n : 0 <= i → zlen dst - i <= n → put dst i (take (Z.to_nat n) bs) = put dst i bs.
Proof.
  intros Hi Hn. unfold put. apply list_eq. intros k. rewrite !mem_write_lookup, length_take.
  destruct (Nat.ltb_spec k (length dst)); [|done]. destruct (Nat.leb_spec (Z.to_nat i) k); cbn [andb]; [|done].
  destruct (Nat.ltb_spec k (Z.to_nat i + length bs)).
  - rewrite (proj2 (Nat.ltb_lt _ _)) by lia. by rewrite lookup_take_lt by lia.
  - by rewrite (proj2 (Nat.ltb_ge _ _)) by lia.
Qed.

Lemma put_at_end dst text bs p : p = Z.min (zlen text) (zlen dst) →
  put (put dst 0 text) p bs = put dst 0 (text ++ bs).
Proof.
  intros ->. destruct (Z.le_gt_cases (zlen text) (zlen dst)).
  - rewrite Z.min_l by lia. rewrite <-(Z.add_0_l (zlen text)). by rewrite put_app.
  - rewrite Z.min_r by lia. rewrite put_past by (rewrite put_length; lia).
    rewrite <-put_app by done. symmetry. apply put_past. rewrite put_length. lia.
Qed.

Lemma put_holds b dst text src : holds_text b dst text → holds_text (dns_b_put b src).2 dst (text ++ src).
Proof.
  intros Hb. pose proof (text_size _ _ _ Hb) as Hsz. destruct Hb as (Hb & Hp & Ho & He). unfold dns_b_put. rewrite Hsz.
  assert (put (b_base b) (b_p b) (take (Z.to_nat (Z.min (zlen dst - b_p b) (zlen src))) src) = put dst 0 (text ++ src)) as E.
  { rewrite Hb. destruct (Z.le_gt_cases (zlen src) (zlen dst - b_p b)).
    - rewrite Z.min_r, Nat2Z.id, firstn_all by lia. by apply put_at_end.
    - rewrite Z.min_l by lia. rewrite put_cut by (rewrite ?put_length; lia). by apply put_at_end. }
  destruct (Z.ltb_spec (Z.min (zlen dst - b_p b) (zlen src)) (zlen src)); unfold holds_text; cbn; rewrite E, length_app.
  - split; [done|]. split; [lia|]. split; [lia|]. split; [done|lia].
  - split; [done|]. split; [lia|]. split; [lia|]. done.
Qed.

Lemma putc_holds b dst text uc : holds_text b dst text → holds_text (dns_b_putc b uc).2 dst (text ++ [uc]).
Proof.
  intros Hb. pose proof (text_size _ _ _ Hb) as Hsz. destruct Hb as (Hb & Hp & Ho & He). unfold dns_b_putc. rewrite Hsz.
  destruct (Z.ltb_spec (b_p b) (zlen dst)); unfold holds_text; cbn; rewrite length_app; change (length [uc]) with 1%nat.
  - rewrite Hb, (put_at_end _ _ _ _ Hp). split; [done|]. split; [lia|]. split; [lia|]. done.
  - rewrite Hb. split; [|split; [lia|split; [lia|split; [done|lia]]]].
    rewrite <-(put_at_end dst text [uc] (b_p b)) by done. symmetry. apply put_past. rewrite put_length. lia.
Qed.

Lemma putc_all_holds cs : ∀ b dst text, holds_text b dst text → holds_text (putc_all b cs) dst (text ++ cs).
Proof.
  induction cs as [|c cs IH]; intros b dst text Hb; cbn; [by rewrite app_nil_r|].
  rewrite (app_assoc text [c] cs : text ++ c :: cs = _). apply IH. by apply putc_holds.
Qed.

Lemma put16_holds b dst text u : holds_text b dst text → holds_text (dns_b_put16 b u).2 dst (text ++ [u8 (Z.shiftr u 8); u8 u]).
Proof. intros Hb. rewrite (app_assoc text [_] [_] : text ++ [_; _] = _). by do 2 apply putc_holds. Qed.

(** ** Numbers *)

(** The text of a number, with zeros up to a width. *)
Definition decimal (u : Z) : bytes := rev (map (Z.add 48) (digits_of u)).
Definition padded (u width : Z) : bytes := replicate (Z.to_nat (width - zlen (decimal u))) 48 ++ decimal u.

Lemma decimal_length u : length (decimal u) = length (digits_of u).
Proof. unfold decimal. by rewrite length_rev, length_map. Qed.

Lemma swap_holds b dst text cs : zlen (text ++ cs) <= zlen dst → holds_text b dst (text ++ cs) →
  holds_text (mk_buf (swap_range (b_base b) (zlen text) (b_p b)) (b_p b) (b_error b) (b_overflow b)) dst (text ++ rev cs).
Proof.
  intros Hfit (Hb & Hp & Ho & He). unfold swap_range. rewrite length_app in *. unfold holds_text. cbn.
  rewrite !length_app, length_rev, Hb. split; [|split; [lia|split; [lia|done]]].
  assert (mem_read (Z.to_nat (zlen text)) (Z.to_nat (b_p b - zlen text)) (put dst 0 (text ++ cs)) = cs) as ->.
  { unfold put. rewrite mem_write_split by (rewrite length_app; lia). change (Z.to_nat 0) with 0%nat. rewrite take_0.
    apply (mem_read_at _ _ text cs (drop (0 + length (text ++ cs)) dst)); [by rewrite <-app_assoc|lia|lia]. }
  rewrite <-(put_app dst 0 text cs), <-(put_app dst 0 text (rev cs)) by done. rewrite Z.add_0_l.
  unfold put. set (m := mem_write _ text dst). apply list_eq. intros k. rewrite !mem_write_lookup, mem_write_keeps_length, length_rev.
  destruct (Nat.ltb_spec k (length m)); [|done]. by destruct (_ && _).
Qed.

(** A number that fits. *)
Lemma fmtju_holds b dst text u width :
  0 <= width → holds_text b dst text → zlen (text ++ padded u width) <= zlen dst →
  holds_text (dns_b_fmtju b u width).2 dst (text ++ padded u width).
Proof.
  intros Hw Hb Hfit. pose proof (text_size _ _ _ Hb) as Hsz. unfold dns_b_fmtju, padded in *. rewrite decimal_length in *. rewrite Hsz.
  rewrite !length_app, length_replicate, decimal_length in Hfit. set (ds := digits_of u) in *. pose proof Hb as (_ & Hp & _ & _).
  replace (width - Z.min (zlen ds) width) with (Z.of_nat (Z.to_nat (width - zlen ds))) by lia.
  set (pad := Z.to_nat (width - zlen ds)) in *. rewrite Nat2Z.id.
  replace (Z.to_nat (zlen ds + Z.of_nat pad - Z.min (zlen dst - b_p b) (zlen ds + Z.of_nat pad))) with 0%nat by lia. rewrite drop_0. cbn [snd].
  pose proof (putc_all_holds (replicate pad 48) _ _ _ Hb) as Hb1. set (b1 := putc_all b _) in *.
  pose proof (putc_all_holds (map (Z.add 48) ds) _ _ _ Hb1) as Hb2. set (b2 := putc_all b1 _) in *.
  replace (b_p b1) with (zlen (text ++ replicate pad 48)).
  - rewrite app_assoc. unfold decimal. fold ds. apply swap_holds; [|done]. rewrite !length_app, length_map, length_replicate. lia.
  - destruct Hb1 as (_ & -> & _). rewrite length_app, length_replicate. lia.
Qed.

(** ** What is written, one call after the other *)

Inductive b_op := op_putc (uc : byte) | op_puts (src : bytes) | op_fmtju (u width : Z).

Definition b_do (b : dns_buf) (op : b_op) : dns_buf :=
  match op with op_putc uc => (dns_b_putc b uc).2 | op_puts src => (dns_b_puts b src).2 | op_fmtju u width => (dns_b_fmtju b u width).2 end.

Definition op_text (op : b_op) : bytes :=
  match op with op_putc uc => [uc] | op_puts src => src | op_fmtju u width => padded u width end.

Definition ops_text (ops : list b_op) : bytes := concat (map op_text ops).

(** The numbers fit, what else does not matter. *)
Fixpoint numbers_fit (lim : Z) (at_ : Z) (ops : list b_op) : Prop :=
  match ops with
  | [] => True
  | op :: ops =>
    match op with op_fmtju u width => 0 <= width ∧ at_ + zlen (padded u width) <= lim | _ => True end ∧
    numbers_fit lim (at_ + zlen (op_text op)) ops
  end.

Lemma ops_hold ops : ∀ b dst text, holds_text b dst text → numbers_fit (zlen dst) (zlen text) ops →
  holds_text (fold_left b_do ops b) dst (text ++ ops_text ops).
Proof.
  induction ops as [|op ops IH]; intros b dst text Hb Hfit; cbn; [by rewrite app_nil_r|]. destruct Hfit as [Hop Hfit].
  unfold ops_text. cbn. rewrite app_assoc. apply IH.
  - destruct op; [by apply putc_holds|by apply put_holds|]. destruct Hop. apply fmtju_holds; [done|done|]. rewrite length_app. lia.
  - rewrite length_app. by rewrite Nat2Z.inj_add.
Qed.

(** The string at the end: it is terminated, and its length is that of the text. *)
Lemma strllen_holds b dst text : 0 ∉ text → holds_text b dst text →
  ∃ b', dns_b_strllen b = (zlen text, b') ∧ b_base b' = put_nul (put dst 0 text) (zlen text).
Proof.
  intros H0 Hb. pose proof (text_size _ _ _ Hb) as Hsz. destruct Hb as (Hb & Hp & Ho & He).
  unfold dns_b_strllen, dns_b_strlen, dns_b_tolstring, put_nul. rewrite Hsz, put_length.
  destruct (Z.ltb_spec (b_p b) (zlen dst)) as [Hroom|Hfull].
  - eexists. split; [f_equal; cbn; lia|]. cbn. rewrite Hb. f_equal. lia.
  - destruct (Z.ltb_spec 0 (b_p b)) as [Hpos|Hnone].
    + assert (b_base b !! Z.to_nat (b_p b - 1) = text !! Z.to_nat (b_p b - 1)) as Hlast.
      { rewrite Hb. unfold put. rewrite mem_write_lookup. rewrite (proj2 (Nat.ltb_lt _ _)) by lia.
        rewrite (proj2 (Nat.ltb_lt _ _)) by lia. cbn [andb Nat.leb Z.to_nat]. f_equal. lia. }
      rewrite Hlast. rewrite bool_decide_false by (intros Hin; apply H0; by eapply list_elem_of_lookup_2). cbn [negb].
      eexists. split; [f_equal; cbn; lia|]. cbn [b_base b_p dns_b_setoverflow]. rewrite Hb. f_equal. lia.
    + exists b. split; [f_equal; lia|]. rewrite Hb. symmetry. destruct dst as [|x dst]; [|cbn in *; lia]. done.
Qed.

(** * A buffer is written like a string by [snprintf] *)

(** Whatever is put into a buffer of any size, bytes, strings and numbers
    of which each fits, what the buffer has in the end is as much of the whole
    text as there is room for, terminated, and the length [dns_b_strllen] gives
    is that of the whole text. *)
Theorem dns_b_strllen_text dst ops :
  numbers_fit (zlen dst) 0 ops → 0 ∉ ops_text ops →
  ∃ b, dns_b_strllen (fold_left b_do ops (dns_b_into dst)) = (zlen (ops_text ops), b) ∧
    b_base b = put_nul (put dst 0 (ops_text ops)) (zlen (ops_text ops)).
Proof.
  intros Hfit H0. pose proof (ops_hold ops _ dst [] (into_holds dst) Hfit) as Hb. by apply strllen_holds.
Qed.

(** The priority of a mail server and a name that is cut. *)
Lemma dns_b_strllen_text_witness :
  let ops := [op_fmtju 10 0; op_putc 32; op_puts [109; 120; 46]] in
  numbers_fit 5 0 ops ∧ ∃ b, dns_b_strllen (fold_left b_do ops (dns_b_into (replicate 5 7))) = (6, b) ∧
    b_base b = [49; 48; 32; 109; 0].
Proof.
  intros ops. assert (numbers_fit 5 0 ops) as Hfit by (vm_compute; repeat split; discriminate). split; [done|].
  destruct (dns_b_strllen_text (replicate 5 7) ops) as (b & Hb & Hbase); [exact Hfit|by apply (bool_decide_unpack _); vm_compute|].
  exists b. split; [exact Hb|]. by rewrite Hbase.
Defined.

(** A number that does not fit is cut, and neither counted nor an error. *)
Example fmtju_cut :
  dns_b_fmtju (dns_b_into (replicate 2 7)) 12345 0 = (None, mk_buf [49; 50] 2 None 0).
Proof. reflexivity. Qed.
