(* ===== verification/DnsData.v ===== *)
(** The data of resource records (src/dns/dns.c): [union dns_any], and for each
    type how it is read from a packet and appended to one. *)

From S2P Require Import Prelude DnsPacket DnsName DnsExpand DnsRR DnsBuf.

Open Scope Z_scope.

Definition DNS_SSHFP_SHA1 : Z := 1.

(** The member of [union dns_any] that was written last.  The names are arrays
    of [DNS_D_MAXNAME + 1] bytes; the members for [NS], [CNAME] and [PTR] are
    the same, as are those for [TXT], [SPF] and types the code does not know.
    [addr] is the memory of a [struct in_addr] or [in6_addr]. *)
Inductive dns_any :=
| any_a (addr : bytes)
| any_aaaa (addr : bytes)
| any_mx (preference : Z) (host : bytes)
| any_ns (host : bytes)
| any_soa (mname rname : bytes) (serial refresh retry expire minimum : Z)
| any_srv (priority weight port : Z) (target : bytes)
| any_opt (rcode version flags maxudp : Z) (data : bytes) (len : Z)
| any_sshfp (algo type : Z) (sha1 : bytes)
| any_rdata (data : bytes).

(** The string in an array: [strlen] bytes of it. *)
Fixpoint cstr (buf : bytes) : bytes :=
  match buf with
  | [] => []
  | b :: buf' => if b =? 0 then [] else b :: cstr buf'
  end.

Definition htonl (x : Z) : bytes := [u8 (Z.shiftr x 24); u8 (Z.shiftr x 16); u8 (Z.shiftr x 8); u8 x].
Definition ntohl (bs : bytes) : Z := fold_left (λ x b, Z.lor (Z.shiftl x 8) b) bs 0.

Abbreviation parsed := (run (dns_errno + dns_any)).

Section Data.
Context (rr : dns_rr) (P : dns_packet).

Definition dns_a_parse : parsed :=
  if negb (rd_len rr =? 4) then Returns (inl DNS_EILLEGAL)
  else
    b0 ← rd (p_data P) (rd_p rr); b1 ← rd (p_data P) (rd_p rr + 1);
    b2 ← rd (p_data P) (rd_p rr + 2); b3 ← rd (p_data P) (rd_p rr + 3);
    Returns (inr (any_a (htonl (Z.lor (Z.lor (Z.lor (Z.shiftl b0 24) (Z.shiftl b1 16)) (Z.shiftl b2 8)) b3)))).

Definition dns_aaaa_parse : parsed :=
  if negb (rd_len rr =? 16) then Returns (inl DNS_EILLEGAL)
  else addr ← rd_n (p_data P) (rd_p rr) 16; Returns (inr (any_aaaa addr)).

(** A name into an array.  What the array had before cannot be seen behind the
    terminator. *)
Definition expand_into (src : Z) : run (dns_errno + bytes) :=
  '(len, host) ← dns_d_expand (replicate (Z.to_nat (DNS_D_MAXNAME + 1)) 0) src P;
  if len =? 0 then Returns (inl DNS_EILLEGAL)
  else if DNS_D_MAXNAME + 1 <=? len then Returns (inl DNS_EILLEGAL)
  else Returns (inr host).

Definition dns_mx_parse : parsed :=
  if rd_len rr <? 3 then Returns (inl DNS_EILLEGAL)
  else
    hi ← rd (p_data P) (rd_p rr); lo ← rd (p_data P) (rd_p rr + 1);
    let preference := Z.lor (Z.land 0xff00 (Z.shiftl hi 8)) (Z.land 0x00ff lo) in
    host ← expand_into (u16 (rd_p rr + 2));
    Returns (match host with inl e => inl e | inr host => inr (any_mx preference host) end).

Definition dns_ns_parse : parsed :=
  host ← expand_into (rd_p rr);
  Returns (match host with inl e => inl e | inr host => inr (any_ns host) end).

Definition dns_cname_parse : parsed := dns_ns_parse.
Definition dns_ptr_parse : parsed := dns_ns_parse.

(** A number of the [SOA], byte by byte; what it was before is shifted out. *)
Fixpoint soa_number (n : nat) (t rp : Z) : run (option (Z * Z)) :=
  match n with
  | O => Returns (Some (t, rp))
  | S n' =>
    if p_end P <=? rp then Returns None
    else b ← rd (p_data P) rp; soa_number n' (Z.lor (u32 (Z.shiftl t 8)) (Z.land 0xff b)) (u16 (rp + 1))
  end.

Fixpoint soa_numbers (n : nat) (rp : Z) : run (option (list Z)) :=
  match n with
  | O => Returns (Some [])
  | S n' =>
    t ← soa_number 4 0 rp;
    match t with
    | None => Returns None
    | Some (t, rp) => ts ← soa_numbers n' rp; Returns (match ts with Some ts => Some (t :: ts) | None => None end)
    end
  end.

(** A name of the [SOA], and what is after it. *)
Definition soa_name (rp : Z) : run (dns_errno + bytes * Z) :=
  name ← expand_into rp;
  match name with
  | inl e => Returns (inl e)
  | inr name =>
    rp ← dns_d_skip rp P;
    if p_end P <=? rp then Returns (inl DNS_EILLEGAL) else Returns (inr (name, rp))
  end.

Definition dns_soa_parse : parsed :=
  let rp := rd_p rr in
  if p_end P <=? rp then Returns (inl DNS_EILLEGAL)
  else
    mname ← soa_name rp;
    match mname with
    | inl e => Returns (inl e)
    | inr (mname, rp) =>
      rname ← soa_name rp;
      match rname with
      | inl e => Returns (inl e)
      | inr (rname, rp) =>
        ts ← soa_numbers 5 rp;
        Returns (match ts with
                 | Some [serial; refresh; retry; expire; minimum] =>
                   inr (any_soa mname rname serial refresh retry expire minimum)
                 | _ => inl DNS_EILLEGAL
                 end)
      end
    end.

(** [srv->priority <<= 8; srv->priority |= (0xff & P->data[rp]);], twice. *)
Definition srv_number (rp : Z) : run Z :=
  hi ← rd (p_data P) rp; lo ← rd (p_data P) (rp + 1);
  Returns (Z.lor (u16 (Z.shiftl (Z.land 0xff hi) 8)) (Z.land 0xff lo)).

Definition dns_srv_parse : parsed :=
  let rp := rd_p rr in
  if rd_len rr <? 7 then Returns (inl DNS_EILLEGAL)
  else
    priority ← srv_number rp; weight ← srv_number (rp + 2); port ← srv_number (rp + 4);
    target ← expand_into (u16 (rp + 6));
    Returns (match target with inl e => inl e | inr target => inr (any_srv priority weight port target) end).

(** The options, code, length and bytes; [fuel]: each takes four bytes. *)
Fixpoint opt_loop (fuel : nat) (src dst : dns_buf) : run (option dns_errno * dns_buf) :=
  if b_p src <? b_size src then
    match fuel with
    | O => Forever
    | S fuel' =>
      let '(code, src) := dns_b_get16 src (-1) in
      if code =? -1 then Returns (b_error src, dst)
      else
        let '(len, src) := dns_b_get16 src (-1) in
        if len =? -1 then Returns (b_error src, dst)
        else
          let dst := (dns_b_put16 dst code).2 in
          let dst := (dns_b_put16 dst len).2 in
          let '(error, dst, src) := dns_b_move dst src len in
          match error with
          | Some _ => Returns (error, dst)
          | None => opt_loop fuel' src dst
          end
    end
  else Returns (None, dst).

(** [rcode] of the header: the low bits of its fourth byte. *)
Definition header_rcode : run Z := b ← rd (p_data P) 3; Returns (Z.land 0xf b).

(** [dns_opt_parse], after [dns_opt_init]: its [len] stays 0.  [size] is how many
    bytes there are for options. *)
Definition dns_opt_parse (size : Z) : parsed :=
  src ← rd_n (p_data P) (rd_p rr) (rd_len rr);
  rcode ← header_rcode;
  '(error, dst) ← opt_loop (S (Z.to_nat (rd_len rr))) (dns_b_into src) (dns_b_into (replicate (Z.to_nat size) 0));
  Returns (match error with
           | Some e => inl e
           | None => inr (any_opt (Z.land 0xfff (Z.lor (Z.shiftr (rr_ttl rr) 20) rcode)) (Z.land 0xff (Z.shiftr (rr_ttl rr) 16))
                            (Z.land 0xffff (rr_ttl rr)) (Z.land 0xffff (rr_class rr)) (b_base dst) 0)
           end).

Definition dns_sshfp_parse : parsed :=
  if rd_len rr <? 2 then Returns (inl DNS_EILLEGAL)
  else
    algo ← rd (p_data P) (rd_p rr); type ← rd (p_data P) (rd_p rr + 1);
    if type =? DNS_SSHFP_SHA1 then
      if rd_len rr - 2 <? 20 then Returns (inl DNS_EILLEGAL)
      else sha1 ← rd_n (p_data P) (rd_p rr + 2) 20; Returns (inr (any_sshfp algo type sha1))
    else Returns (inr (any_sshfp algo type [])).

(** The strings of a [TXT], up to [e]; [size] bytes for them. *)
Fixpoint txt_loop (fuel : nat) (p e size : Z) (text : bytes) : parsed :=
  if p <? e then
    match fuel with
    | O => Forever
    | S fuel' =>
      n ← rd (p_data P) p;
      let p := p + 1 in
      if (e - p <? n) || (size - zlen text <? n) then Returns (inl DNS_EILLEGAL)
      else s ← rd_n (p_data P) p n; txt_loop fuel' (p + n) e size (text ++ s)
    end
  else Returns (inr (any_rdata text)).

Definition dns_txt_parse (size : Z) : parsed :=
  txt_loop (S (Z.to_nat (rd_len rr))) (rd_p rr) (rd_p rr + rd_len rr) size [].

(** [dns_any_parse], with [size] bytes for data of no certain form.  What
    [dns_any_reinit] leaves for options is as much less as their members take. *)
Definition dns_any_parse (size : Z) : parsed :=
  let t := rr_type rr in
  if t =? DNS_T_A then dns_a_parse
  else if t =? DNS_T_AAAA then dns_aaaa_parse
  else if t =? DNS_T_MX then dns_mx_parse
  else if t =? DNS_T_NS then dns_ns_parse
  else if t =? DNS_T_CNAME then dns_cname_parse
  else if t =? DNS_T_SOA then dns_soa_parse
  else if t =? DNS_T_SRV then dns_srv_parse
  else if t =? DNS_T_OPT then dns_opt_parse (size - 16)
  else if t =? DNS_T_PTR then dns_ptr_parse
  else if (t =? DNS_T_TXT) || (t =? DNS_T_SPF) then dns_txt_parse size
  else if t =? DNS_T_SSHFP then dns_sshfp_parse
  else if size <? rd_len rr then Returns (inl DNS_EILLEGAL)
  else data ← rd_n (p_data P) (rd_p rr) (rd_len rr); Returns (inr (any_rdata data)).

End Data.

(** ** Appending *)

Abbreviation pushed := (run (option dns_errno * dns_packet)).

Definition p_room (P : dns_packet) : Z := p_size P - p_end P.

(** [P->data[P->end++] = ...], for each byte. *)
Definition p_append (bs : bytes) (P : dns_packet) : run dns_packet :=
  data ← wr (p_data P) (p_end P) bs; Returns (set_end (p_end P + zlen bs) (set_data data P)).

(** A store that does not move the end. *)
Definition p_store (at_ : Z) (bs : bytes) (P : dns_packet) : run dns_packet :=
  data ← wr (p_data P) at_ bs; Returns (set_data data P).

(** [0xff & (x >> 8)] and [0xff & x] *)
Definition be16 (x : Z) : bytes := [Z.land 0xff (Z.shiftr x 8); Z.land 0xff x].

(** The length of the data before it, where it belongs. *)
Definition put_rdlen (end_ : Z) (P : dns_packet) : run dns_packet := p_store end_ (be16 (p_end P - end_ - 2)) P.

Definition dns_a_push (P : dns_packet) (a : bytes) : pushed :=
  if p_room P <? 6 then Returns (Some DNS_ENOBUFS, P)
  else
    P ← p_append [0x00; 0x04] P;
    let addr := ntohl a in
    P ← p_append [Z.land 0xff (Z.shiftr addr 24); Z.land 0xff (Z.shiftr addr 16); Z.land 0xff (Z.shiftr addr 8); Z.land 0xff addr] P;
    Returns (None, P).

Definition dns_aaaa_push (P : dns_packet) (aaaa : bytes) : pushed :=
  if p_room P <? 2 + 16 then Returns (Some DNS_ENOBUFS, P)
  else P ← p_append [0x00; 0x10] P; P ← p_append aaaa P; Returns (None, P).

Definition dns_mx_push (P : dns_packet) (preference : Z) (host : bytes) : pushed :=
  if p_room P <? 5 then Returns (Some DNS_ENOBUFS, P)
  else
    let end_ := p_end P in
    P ← p_append (be16 preference) (set_end (p_end P + 2) P);
    '(error, P) ← dns_d_push P (cstr host);
    match error with
    | Some e => Returns (Some e, set_end end_ P)
    | None => P ← put_rdlen end_ P; Returns (None, P)
    end.

Definition dns_ns_push (P : dns_packet) (host : bytes) : pushed :=
  if p_room P <? 3 then Returns (Some DNS_ENOBUFS, P)
  else
    let end_ := p_end P in
    '(error, P) ← dns_d_push (set_end (p_end P + 2) P) (cstr host);
    match error with
    | Some e => Returns (Some e, set_end end_ P)
    | None => P ← put_rdlen end_ P; Returns (None, P)
    end.

Definition dns_cname_push := dns_ns_push.
Definition dns_ptr_push := dns_ns_push.

(** The numbers of the [SOA]: [P->end] moves first. *)
Fixpoint soa_push_numbers (ts : list Z) (P : dns_packet) : run (bool * dns_packet) :=
  match ts with
  | [] => Returns (true, P)
  | t :: ts' =>
    let P := set_end (p_end P + 4) P in
    if p_size P <=? p_end P then Returns (false, P)
    else P ← p_store (p_end P - 4) [u8 (Z.shiftr t 24); u8 (Z.shiftr t 16); u8 (Z.shiftr t 8); u8 t] P; soa_push_numbers ts' P
  end.

Definition dns_soa_push (P : dns_packet) (mname rname : bytes) (serial refresh retry expire minimum : Z) : pushed :=
  let end_ := p_end P in
  let P := set_end (p_end P + 2) P in
  if p_size P <=? p_end P then Returns (Some DNS_ENOBUFS, set_end end_ P)
  else
    '(error, P) ← dns_d_push P (cstr mname);
    match error with
    | Some e => Returns (Some e, set_end end_ P)
    | None =>
      '(error, P) ← dns_d_push P (cstr rname);
      match error with
      | Some e => Returns (Some e, set_end end_ P)
      | None =>
        '(ok, P) ← soa_push_numbers [Z.land 0xffffffff serial; Z.land 0x7fffffff refresh; Z.land 0x7fffffff retry;
                                    Z.land 0x7fffffff expire; Z.land 0xffffffff minimum] P;
        if ok : bool then P ← put_rdlen end_ P; Returns (None, P) else Returns (Some DNS_ENOBUFS, set_end end_ P)
      end
    end.

(** [dns_srv_push]: the target goes through [dns_d_comp], and not to the
    dictionary. *)
Definition dns_srv_push (P : dns_packet) (priority weight port : Z) (target : bytes) : pushed :=
  let end_ := p_end P in
  if p_room P <? 2 then Returns (Some DNS_ENOBUFS, P)
  else
    let P := set_end (p_end P + 2) P in
    if p_room P <? 6 then Returns (Some DNS_ENOBUFS, set_end end_ P)
    else
      P ← p_append (be16 priority ++ be16 weight ++ be16 port) P;
      let e := Z.to_nat (p_end P) in
      '(len, dst) ← dns_d_comp P (drop e (p_data P)) (cstr target);
      let P := set_data (take e (p_data P) ++ dst) P in
      if len =? 0 then Returns (Some DNS_EILLEGAL, set_end end_ P)
      else if p_room P <? len then Returns (Some DNS_ENOBUFS, set_end end_ P)
      else
        let P := set_end (p_end P + len) P in
        if 65535 <? p_end P then Returns (Some DNS_ENOBUFS, set_end end_ P)
        else P ← put_rdlen end_ P; Returns (None, P).

(** [dns_opt_push]: into a buffer over what is behind the end. *)
Definition dns_opt_push (P : dns_packet) (data : bytes) (len : Z) : pushed :=
  let e := Z.to_nat (p_end P) in
  let src := dns_b_into (take (Z.to_nat len) data) in
  let dst := dns_b_into (drop e (p_data P)) in
  let done_ dst := set_data (take e (p_data P) ++ b_base dst) P in
  let '(error, dst) := dns_b_put16 dst 0 in
  match error with
  | Some e => Returns (Some e, done_ dst)
  | None =>
    let '(error, dst, src) := dns_b_move dst src (b_size src - b_p src) in
    match error with
    | Some e => Returns (Some e, done_ dst)
    | None =>
      let '(error, dst) := dns_b_pput16 dst (u16 (dns_b_tell dst - 2)) 0 in
      match error with
      | Some e => Returns (Some e, done_ dst)
      | None => Returns (None, set_end (p_end P + dns_b_tell dst) (done_ dst))
      end
    end
  end.

(** [dns_sshfp_push]: [P->end] moves at the end only. *)
Definition dns_sshfp_push (P : dns_packet) (algo type : Z) (sha1 : bytes) : pushed :=
  let p := p_end P in
  if p_size P - p <? 4 then Returns (Some DNS_ENOBUFS, P)
  else
    P ← p_store (p + 2) [Z.land 0xff algo; Z.land 0xff type] P;
    if type =? DNS_SSHFP_SHA1 then
      if p_size P - (p + 4) <? 20 then Returns (Some DNS_ENOBUFS, P)
      else
        P ← p_store (p + 4) sha1 P;
        P ← p_append (be16 (p + 4 + 20 - p - 2)) P;
        Returns (None, set_end (p + 4 + 20) P)
    else Returns (Some DNS_EILLEGAL, P).

(** The strings of [dns_txt_push], of 255 bytes and what is left. *)
Fixpoint txt_push_loop (fuel : nat) (p : Z) (src : bytes) (P : dns_packet) : run (option Z * dns_packet) :=
  match src with
  | [] => Returns (Some p, P)
  | _ =>
    match fuel with
    | O => Forever
    | S fuel' =>
      let n := Z.min 255 (zlen src) in
      if p_size P <=? p then Returns (None, P)
      else
        P ← p_store p [n] P;
        if p_size P - (p + 1) <? n then Returns (None, P)
        else
          P ← p_store (p + 1) (take (Z.to_nat n) src) P;
          txt_push_loop fuel' (p + 1 + n) (drop (Z.to_nat n) src) P
    end
  end.

Definition dns_txt_push (P : dns_packet) (data : bytes) : pushed :=
  let p := p_end P in
  if p_size P - p <? 2 then Returns (Some DNS_ENOBUFS, P)
  else
    let n := u32 (zlen data + (zlen data + 254) / 255) in
    P ← p_store p (be16 n) P;
    '(p, P) ← txt_push_loop (length data) (p + 2) data P;
    Returns (match p with Some p => (None, set_end p P) | None => (Some DNS_ENOBUFS, P) end).

(** Data of a type that is not known. *)
Definition dns_rdata_push (P : dns_packet) (data : bytes) : pushed :=
  if p_room P <? zlen data + 2 then Returns (Some DNS_ENOBUFS, P)
  else P ← p_append (be16 (zlen data)) P; P ← p_append data P; Returns (None, P).

(** [dns_any_push]: the member that was written has to be that of the type. *)
Definition dns_any_push (P : dns_packet) (any : dns_any) (t : Z) : pushed :=
  if t =? DNS_T_A then match any with any_a addr => dns_a_push P addr | _ => Undefined end
  else if t =? DNS_T_AAAA then match any with any_aaaa addr => dns_aaaa_push P addr | _ => Undefined end
  else if t =? DNS_T_MX then match any with any_mx preference host => dns_mx_push P preference host | _ => Undefined end
  else if t =? DNS_T_NS then match any with any_ns host => dns_ns_push P host | _ => Undefined end
  else if t =? DNS_T_CNAME then match any with any_ns host => dns_cname_push P host | _ => Undefined end
  else if t =? DNS_T_SOA then
    match any with
    | any_soa mname rname serial refresh retry expire minimum => dns_soa_push P mname rname serial refresh retry expire minimum
    | _ => Undefined
    end
  else if t =? DNS_T_SRV then
    match any with any_srv priority weight port target => dns_srv_push P priority weight port target | _ => Undefined end
  else if t =? DNS_T_OPT then match any with any_opt _ _ _ _ data len => dns_opt_push P data len | _ => Undefined end
  else if t =? DNS_T_PTR then match any with any_ns host => dns_ptr_push P host | _ => Undefined end
  else if (t =? DNS_T_TXT) || (t =? DNS_T_SPF) then match any with any_rdata data => dns_txt_push P data | _ => Undefined end
  else if t =? DNS_T_SSHFP then
    match any with any_sshfp algo type sha1 => dns_sshfp_push P algo type sha1 | _ => Undefined end
  else match any with any_rdata data => dns_rdata_push P data | _ => Undefined end.
