(* ===== verification/DnsPermutor.v ===== *)
(** The permutation generator of the resolver (src/dns/dns.c, "P E R M U T A T I
    O N  G E N E R A T O R"), which numbers queries, and the box that shuffles
    records. *)

From S2P Require Import Prelude DnsPacket DnsExpand.

Open Scope Z_scope.

(** ** TEA *)

Definition DNS_K_TEA_CYCLES : Z := 32.
Definition DNS_K_TEA_MAGIC : Z := 0x9E3779B9.

(** [struct dns_k_tea]: the key has four words. *)
Record dns_k_tea := mk_tea { t_key0 : Z; t_key1 : Z; t_key2 : Z; t_key3 : Z; t_cycles : Z }.

Definition dns_k_tea_init (key : Z * Z * Z * Z) (cycles : Z) : dns_k_tea :=
  let '(k0, k1, k2, k3) := key in mk_tea k0 k1 k2 k3 (if cycles =? 0 then DNS_K_TEA_CYCLES else cycles).

(** [((z << 4) + key[0]) ^ (z + sum) ^ ((z >> 5) + key[1])] *)
Definition tea_mix (z k0 sum k1 : Z) : Z :=
  Z.lxor (Z.lxor (u32 (u32 (Z.shiftl z 4) + k0)) (u32 (z + sum))) (u32 (Z.shiftr z 5 + k1)).

Fixpoint tea_loop (n : nat) (tea : dns_k_tea) (y z sum : Z) : Z * Z :=
  match n with
  | O => (y, z)
  | S n' =>
    let sum := u32 (sum + DNS_K_TEA_MAGIC) in
    let y := u32 (y + tea_mix z (t_key0 tea) sum (t_key1 tea)) in
    let z := u32 (z + tea_mix y (t_key2 tea) sum (t_key3 tea)) in
    tea_loop n' tea y z sum
  end.

Definition dns_k_tea_encrypt (tea : dns_k_tea) (v : Z * Z) : Z * Z :=
  tea_loop (Z.to_nat (t_cycles tea)) tea v.1 v.2 0.

(** ** The permutor *)

Definition DNS_K_PERMUTOR_ROUNDS : Z := 8.

(** [struct dns_k_permutor] *)
Record dns_k_permutor := mk_permutor {
  k_stepi : Z; k_length : Z; k_limit : Z; k_shift : Z; k_mask : Z; k_rounds : Z; k_tea : dns_k_tea }.

Definition set_stepi (s : Z) (p : dns_k_permutor) : dns_k_permutor :=
  mk_permutor s (k_length p) (k_limit p) (k_shift p) (k_mask p) (k_rounds p) (k_tea p).

(** [dns_k_permutor_powof]: after 32 turns [m] is 0, and stays it. *)
Fixpoint powof_loop (fuel : nat) (m n i : Z) : run Z :=
  if m <? n then
    match fuel with
    | O => Forever
    | S fuel' => powof_loop fuel' (u32 (Z.shiftl m 1)) n (u32 (i + 1))
    end
  else Returns i.

Definition dns_k_permutor_powof (n : Z) : run Z := powof_loop 32 1 n 0.

(** [key] is what [dns_random] gives. *)
Definition dns_k_permutor_init (low high : Z) (key : Z * Z * Z * Z) : run dns_k_permutor :=
  let length := u32 (u32 (high - low) + 1) in
  width ← dns_k_permutor_powof length;
  let width := width + width mod 2 in
  let shift := width / 2 in
  let mask := u32 (u32 (Z.shiftl 1 shift) - 1) in
  Returns (mk_permutor 0 length high shift mask DNS_K_PERMUTOR_ROUNDS (dns_k_tea_init key 0)).

Section Permutor.
Context (p : dns_k_permutor).

Definition dns_k_permutor_F (k x : Z) : Z := Z.land (k_mask p) (dns_k_tea_encrypt (k_tea p) (k, x)).1.

(** The loop of [dns_k_permutor_E], [k] rounds from [i] on: [l[i % 2]] and
    [r[i % 2]]. *)
Fixpoint E_loop (k : nat) (i l r : Z) : Z * Z :=
  match k with
  | O => (l, r)
  | S k' => E_loop k' (i + 1) r (Z.lxor l (dns_k_permutor_F i r))
  end.

(** The loop of [dns_k_permutor_D], from [i] down. *)
Fixpoint D_loop (k : nat) (i l r : Z) : Z * Z :=
  match k with
  | O => (l, r)
  | S k' => D_loop k' (i - 1) (Z.lxor r (dns_k_permutor_F (i - 1) l)) l
  end.

(** [p->mask & (n >> p->shift)], [p->mask & n], and both put together. *)
Definition halves (n : Z) : Z * Z := (Z.land (k_mask p) (Z.shiftr n (k_shift p)), Z.land (k_mask p) n).
Definition joined (lr : Z * Z) : Z :=
  Z.lor (u32 (Z.shiftl (Z.land lr.1 (k_mask p)) (k_shift p))) (Z.land lr.2 (k_mask p)).

(** The rounds: [do ... while] has one at least. *)
Definition k_turns : nat := Z.to_nat (Z.max 1 (u32 (k_rounds p - 1))).

Definition dns_k_permutor_E (n : Z) : Z := let '(l, r) := halves n in joined (E_loop k_turns 0 l r).

(** From [rounds - 1] down to 0. *)
Definition dns_k_permutor_D (n : Z) : Z :=
  let '(l, r) := halves n in joined (D_loop (Z.to_nat (k_rounds p - 1)) (k_rounds p - 1) l r).

(** The loop of [dns_k_permutor_step]: what is encrypted, and [stepi]. *)
Fixpoint step_loop (fuel : nat) (stepi : Z) : run (Z * Z) :=
  match fuel with
  | O => Forever
  | S fuel' =>
    let n := dns_k_permutor_E stepi in
    if k_length p <=? n then step_loop fuel' (u32 (stepi + 1)) else Returns (n, u32 (stepi + 1))
  end.

End Permutor.

(** What is encrypted goes round every [2 ^ (2 * shift)] numbers: as many turns
    are enough. *)
Definition dns_k_permutor_step (p : dns_k_permutor) : run (Z * dns_k_permutor) :=
  '(n, stepi) ← step_loop p (Z.to_nat (2 ^ (2 * k_shift p))) (k_stepi p);
  Returns (u32 (n + u32 (u32 (k_limit p + 1) - k_length p)), set_stepi stepi p).

(** The numbers of so many steps. *)
Fixpoint permutor_steps (n : nat) (p : dns_k_permutor) : run (list Z * dns_k_permutor) :=
  match n with
  | O => Returns ([], p)
  | S n' => '(v, p) ← dns_k_permutor_step p; '(vs, p) ← permutor_steps n' p; Returns (v :: vs, p)
  end.

(** ** Powers of two *)

Lemma powof_loop_spec fuel : ∀ i n, (i + fuel = 32)%nat → 2 ^ (Z.of_nat i - 1) < n → 0 < n →
  (n <= 2 ^ 31 → ∃ k, powof_loop fuel (2 ^ Z.of_nat i) n (Z.of_nat i) = Returns k ∧ Z.of_nat i <= k <= 31 ∧ 2 ^ (k - 1) < n <= 2 ^ k) ∧
  (2 ^ 31 < n → i <> 32%nat → powof_loop fuel (2 ^ Z.of_nat i) n (Z.of_nat i) = Forever).
Proof.
  assert (∀ fuel n i, 0 < n → powof_loop fuel 0 n i = Forever) as Hzero.
  { intros f. induction f as [|f IH]; intros n i Hn; cbn [powof_loop]; rewrite (proj2 (Z.ltb_lt _ _)) by lia; [done|]. by apply IH. }
  induction fuel as [|fuel IH]; intros i n Hi Hlow Hn.
  { assert (i = 32%nat) as -> by lia. split; [|lia]. intros Hle. change (2 ^ (Z.of_nat 32 - 1)) with (2 ^ 31) in Hlow. lia. }
  destruct (Z.ltb_spec (2 ^ Z.of_nat i) n) as [Hlt|Hge].
  - assert (powof_loop (S fuel) (2 ^ Z.of_nat i) n (Z.of_nat i) = powof_loop fuel (u32 (2 ^ Z.of_nat (S i))) n (Z.of_nat (S i))) as ->.
    { cbn [powof_loop]. rewrite (proj2 (Z.ltb_lt _ _)) by done. rewrite Z.shiftl_mul_pow2 by lia. change (2 ^ 1) with 2.
      replace (2 ^ Z.of_nat i * 2) with (2 ^ Z.of_nat (S i)) by (rewrite Nat2Z.inj_succ, Z.pow_succ_r by lia; lia).
      f_equal. unfold uwrap. change (2 ^ 32) with 4294967296. rewrite Z.mod_small; lia. }
    destruct (decide (i = 31)%nat) as [->|Hne].
    + change (2 ^ Z.of_nat 31) with (2 ^ 31) in Hlt. split; [lia|]. intros _ _. change (u32 (2 ^ Z.of_nat 32)) with 0. by apply Hzero.
    + assert (u32 (2 ^ Z.of_nat (S i)) = 2 ^ Z.of_nat (S i)) as ->.
      { apply Z.mod_small. split; [lia|]. apply Z.pow_lt_mono_r; lia. }
      destruct (IH (S i) n) as [H1 H2]; [lia|by replace (Z.of_nat (S i) - 1) with (Z.of_nat i) by lia|done|]. split.
      * intros Hle. destruct (H1 Hle) as (k & Hk & Hr & Hb). exists k. split; [done|]. split; [lia|done].
      * intros Hgt _. apply H2; [done|lia].
  - assert (Z.of_nat i <= 31) by lia. split.
    + intros _. exists (Z.of_nat i). split; [cbn [powof_loop]; rewrite (proj2 (Z.ltb_ge _ _)) by done; done|]. split; [lia|done].
    + intros Hgt _. pose proof (Z.pow_le_mono_r 2 (Z.of_nat i) 31). lia.
Qed.

(** ** Encrypting and decrypting *)

Record permutor_ok (p : dns_k_permutor) : Prop := {
  po_shift : 0 <= k_shift p <= 16;
  po_mask : k_mask p = Z.ones (k_shift p);
  po_rounds : k_rounds p = DNS_K_PERMUTOR_ROUNDS;
  po_length : 0 < k_length p <= 2 ^ (2 * k_shift p);
  po_limit : k_length p - 1 <= k_limit p < 2 ^ 32 }.

Section Cipher.
Context (p : dns_k_permutor) (Hp : permutor_ok p).

Abbreviation sh := (k_shift p).

Lemma mask_uint x : is_uint sh (Z.land (k_mask p) x).
Proof using Hp.
  destruct (po_shift p Hp). rewrite (po_mask p Hp), Z.land_comm, Z.land_ones by lia. apply Z.mod_pos_bound. apply Z.pow_pos_nonneg; lia.
Qed.

Lemma mask_id x : is_uint sh x → Z.land x (k_mask p) = x.
Proof using Hp. intros Hx. destruct (po_shift p Hp). rewrite (po_mask p Hp), Z.land_ones by lia. by apply Z.mod_small. Qed.

Lemma F_uint k x : is_uint sh (dns_k_permutor_F p k x).
Proof using Hp. apply mask_uint. Qed.

Definition both_uint (lr : Z * Z) : Prop := is_uint sh lr.1 ∧ is_uint sh lr.2.

Lemma E_loop_uint k : ∀ i l r, both_uint (l, r) → both_uint (E_loop p k i l r).
Proof using Hp.
  destruct (po_shift p Hp). induction k as [|k IH]; intros i l r [Hl Hr]; [done|]. apply IH. split; [done|].
  apply is_uint_lxor; [lia|done|apply F_uint].
Qed.

Lemma D_loop_uint k : ∀ i l r, both_uint (l, r) → both_uint (D_loop p k i l r).
Proof using Hp.
  destruct (po_shift p Hp). induction k as [|k IH]; intros i l r [Hl Hr]; [done|]. apply IH. split; [|done].
  apply is_uint_lxor; [lia|done|apply F_uint].
Qed.

(** The last round of one is the first of the other. *)
Lemma E_loop_snoc k : ∀ i l r, E_loop p (S k) i l r = let '(l', r') := E_loop p k i l r in (r', Z.lxor l' (dns_k_permutor_F p (i + Z.of_nat k) r')).
Proof using.
  induction k as [|k IH]; intros i l r; [cbn; by rewrite Z.add_0_r|].
  change (E_loop p (S (S k)) i l r) with (E_loop p (S k) (i + 1) r (Z.lxor l (dns_k_permutor_F p i r))). rewrite IH.
  cbn [E_loop]. by replace (i + 1 + Z.of_nat k) with (i + Z.of_nat (S k)) by lia.
Qed.

Lemma D_loop_snoc k : ∀ i l r, D_loop p (S k) i l r = let '(l', r') := D_loop p k i l r in (Z.lxor r' (dns_k_permutor_F p (i - Z.of_nat (S k)) l'), l').
Proof using.
  induction k as [|k IH]; intros i l r; [by cbn|].
  change (D_loop p (S (S k)) i l r) with (D_loop p (S k) (i - 1) (Z.lxor r (dns_k_permutor_F p (i - 1) l)) l). rewrite IH.
  cbn [D_loop]. by replace (i - 1 - Z.of_nat (S k)) with (i - Z.of_nat (S (S k))) by lia.
Qed.

Lemma lxor_twice x y : Z.lxor (Z.lxor x y) y = x.
Proof using. by rewrite Z.lxor_assoc, Z.lxor_nilpotent, Z.lxor_0_r. Qed.

Lemma D_E_loop k : ∀ i l r, D_loop p k (i + Z.of_nat k) (E_loop p k i l r).1 (E_loop p k i l r).2 = (l, r).
Proof using.
  induction k as [|k IH]; intros i l r; [done|]. rewrite D_loop_snoc. cbn [E_loop].
  pose proof (IH (i + 1) r (Z.lxor l (dns_k_permutor_F p i r))) as H. replace (i + 1 + Z.of_nat k) with (i + Z.of_nat (S k)) in H by lia.
  rewrite H. replace (i + Z.of_nat (S k) - Z.of_nat (S k)) with i by lia. by rewrite lxor_twice.
Qed.

Lemma E_D_loop k : ∀ i l r, E_loop p k i (D_loop p k (i + Z.of_nat k) l r).1 (D_loop p k (i + Z.of_nat k) l r).2 = (l, r).
Proof using.
  induction k as [|k IH]; intros i l r; [done|]. rewrite E_loop_snoc. cbn [D_loop].
  replace (i + Z.of_nat (S k) - 1) with (i + Z.of_nat k) by lia. rewrite IH. by rewrite lxor_twice.
Qed.

(** Numbers of [2 * shift] bits, and their halves. *)
Lemma joined_eq l r : both_uint (l, r) → joined p (l, r) = r + 2 ^ sh * l.
Proof using Hp.
  intros [Hl Hr]. destruct (po_shift p Hp). unfold joined. cbn [fst snd] in *. rewrite !mask_id by done.
  assert (u32 (Z.shiftl l sh) = Z.shiftl l sh) as ->.
  { apply Z.mod_small. rewrite Z.shiftl_mul_pow2 by lia. destruct Hl. pose proof (Z.pow_le_mono_r 2 sh 16 ltac:(lia) ltac:(lia)).
    change (2 ^ 16) with 65536 in *. change (2 ^ 32) with (65536 * 65536). nia. }
  rewrite Z.lor_comm. by apply lor_shiftl_add; [lia|].
Qed.

Lemma joined_range lr : both_uint lr → 0 <= joined p lr < 2 ^ (2 * sh).
Proof using Hp.
  destruct lr as [l r]. intros H. rewrite joined_eq by done. destruct H as [[? Hl] [? Hr]]. cbn [fst snd] in *. destruct (po_shift p Hp).
  replace (2 * sh) with (sh + sh) by lia. rewrite Z.pow_add_r by lia. nia.
Qed.

Lemma halves_uint n : both_uint (halves p n).
Proof using Hp. split; apply mask_uint. Qed.

Lemma halves_joined lr : both_uint lr → halves p (joined p lr) = lr.
Proof using Hp.
  destruct lr as [l r]. intros H. rewrite joined_eq by done. destruct H as [Hl Hr]. cbn [fst snd] in *. destruct (po_shift p Hp).
  assert (0 < 2 ^ sh) by (apply Z.pow_pos_nonneg; lia). unfold halves. rewrite !(Z.land_comm (k_mask p)), (po_mask p Hp), !Z.land_ones by lia.
  rewrite Z.shiftr_div_pow2 by lia. destruct Hl, Hr. f_equal.
  - rewrite (Z.mul_comm (2 ^ sh)), Z.div_add, (Z.div_small r) by lia. by apply Z.mod_small.
  - rewrite (Z.mul_comm (2 ^ sh)), Z.mod_add by lia. by apply Z.mod_small.
Qed.

Lemma joined_halves n : joined p (halves p n) = n mod 2 ^ (2 * sh).
Proof using Hp.
  destruct (po_shift p Hp). pose proof (halves_uint n) as Hh. destruct (halves p n) as [l r] eqn:E. rewrite joined_eq by done.
  unfold halves in E. rewrite !(Z.land_comm (k_mask p)), (po_mask p Hp), !Z.land_ones, Z.shiftr_div_pow2 in E by lia. injection E as <- <-.
  replace (2 * sh) with (sh + sh) by lia. assert (0 < 2 ^ sh) by (apply Z.pow_pos_nonneg; lia).
  rewrite Z.pow_add_r, Z.rem_mul_r by lia. lia.
Qed.

Lemma turns_eq : k_turns p = 7%nat ∧ k_rounds p - 1 = 0 + Z.of_nat 7.
Proof using Hp. unfold k_turns. rewrite (po_rounds p Hp). by split. Qed.

Lemma E_range n : 0 <= dns_k_permutor_E p n < 2 ^ (2 * sh).
Proof using Hp.
  unfold dns_k_permutor_E. pose proof (halves_uint n) as Hh. destruct (halves p n) as [l r]. apply joined_range. by apply E_loop_uint.
Qed.

(** [D] undoes [E], and [E] undoes [D]. *)
Lemma D_of_E n : dns_k_permutor_D p (dns_k_permutor_E p n) = n mod 2 ^ (2 * sh).
Proof using Hp.
  rewrite <-joined_halves. unfold dns_k_permutor_E, dns_k_permutor_D. destruct turns_eq as [-> E]. rewrite E.
  pose proof (halves_uint n) as Hh. destruct (halves p n) as [l r]. rewrite halves_joined by by apply E_loop_uint.
  change (Z.to_nat (0 + Z.of_nat 7)) with 7%nat. destruct (E_loop p 7 0 l r) as [l' r'] eqn:El.
  pose proof (D_E_loop 7 0 l r) as H. rewrite El in H. cbn [fst snd] in H. by rewrite H.
Qed.

Lemma E_of_D n : dns_k_permutor_E p (dns_k_permutor_D p n) = n mod 2 ^ (2 * sh).
Proof using Hp.
  rewrite <-joined_halves. unfold dns_k_permutor_E, dns_k_permutor_D. destruct turns_eq as [-> E]. rewrite E.
  pose proof (halves_uint n) as Hh. destruct (halves p n) as [l r]. rewrite halves_joined by by apply D_loop_uint.
  change (Z.to_nat (0 + Z.of_nat 7)) with 7%nat. destruct (D_loop p 7 (0 + Z.of_nat 7) l r) as [l' r'] eqn:El.
  pose proof (E_D_loop 7 0 l r) as H. rewrite El in H. cbn [fst snd] in H. by rewrite H.
Qed.

End Cipher.

(** ** Steps *)

Section Steps.
Context (p : dns_k_permutor) (Hp : permutor_ok p).

Abbreviation N := (2 ^ (2 * k_shift p)).
Abbreviation E := (dns_k_permutor_E p).

Lemma N_divides : 0 < N ∧ (N | 2 ^ 32).
Proof using Hp.
  destruct (po_shift p Hp). split; [apply Z.pow_pos_nonneg; lia|]. exists (2 ^ (32 - 2 * k_shift p)).
  rewrite <-Z.pow_add_r by lia. f_equal. lia.
Qed.

(** Only the low bits of the number matter. *)
Lemma E_mod n m : n mod N = m mod N → E n = E m.
Proof using Hp.
  intros Hnm. unfold dns_k_permutor_E. rewrite <-!joined_halves in Hnm by done. apply (f_equal (halves p)) in Hnm.
  rewrite !(halves_joined p Hp) in Hnm by by apply halves_uint. by rewrite Hnm.
Qed.

Lemma E_u32 s : E (u32 s) = E s.
Proof using Hp.
  destruct N_divides as [HN Hd]. apply E_mod. unfold uwrap. by apply Z.mod_mod_divide.
Qed.

Lemma E_inj n m : E n = E m → n mod N = m mod N.
Proof using Hp. intros H. apply (f_equal (dns_k_permutor_D p)) in H. by rewrite !D_of_E in H. Qed.

(** The numbers that [m] turns from [s] on give. *)
Fixpoint hits (m : nat) (s : Z) : list Z :=
  match m with
  | O => []
  | S m' => if k_length p <=? E s then hits m' (s + 1) else E s :: hits m' (s + 1)
  end.

Lemma elem_of_hits m : ∀ s v, v ∈ hits m s ↔ ∃ j, 0 <= j < Z.of_nat m ∧ v = E (s + j) ∧ v < k_length p.
Proof using.
  induction m as [|m IH]; intros s v; cbn [hits].
  - rewrite elem_of_nil. split; [done|]. intros (j & ? & _). lia.
  - assert (v ∈ hits m (s + 1) ↔ ∃ j, 1 <= j < Z.of_nat (S m) ∧ v = E (s + j) ∧ v < k_length p) as IH'.
    { rewrite IH. split; intros (j & Hj & -> & Hv).
      - exists (j + 1). replace (s + 1 + j) with (s + (j + 1)) in * by lia. split; [lia|done].
      - exists (j - 1). replace (s + 1 + (j - 1)) with (s + j) by lia. split; [lia|done]. }
    destruct (Z.leb_spec (k_length p) (E s)) as [Hge|Hlt].
    + rewrite IH'. split; [intros (j & ? & ?); exists j; split; [lia|done]|]. intros (j & Hj & -> & Hv).
      destruct (Z.eq_dec j 0) as [->|]; [rewrite Z.add_0_r in Hv; lia|]. exists j. split; [lia|done].
    + rewrite elem_of_cons, IH'. split.
      * intros [->|(j & ? & ?)]; [exists 0; rewrite Z.add_0_r; split; [lia|done]|exists j; split; [lia|done]].
      * intros (j & Hj & -> & Hv). destruct (Z.eq_dec j 0) as [->|]; [left; by rewrite Z.add_0_r|]. right. exists j. split; [lia|done].
Qed.

Lemma NoDup_hits m : ∀ s, Z.of_nat m <= N → NoDup (hits m s).
Proof using Hp.
  destruct N_divides as [HN _]. induction m as [|m IH]; intros s Hm; cbn [hits]; [apply NoDup_nil_2|].
  assert (NoDup (hits m (s + 1))) by (apply IH; lia). destruct (_ <=? _); [done|]. apply NoDup_cons. split; [|done].
  rewrite elem_of_hits. intros (j & Hj & He & _). apply E_inj in He. replace (s + 1 + j) with (s + (1 + j)) in He by lia.
  assert ((1 + j) mod N = 0) as H0.
  { replace (1 + j) with (s + (1 + j) - s) by lia. rewrite Zminus_mod, <-He, Z.sub_diag. apply Z.mod_0_l. lia. }
  rewrite Z.mod_small in H0 by lia. lia.
Qed.

(** A whole turn gives each number below [length] once. *)
Lemma hits_all s : hits (Z.to_nat N) s ≡ₚ seqZ 0 (k_length p).
Proof using Hp.
  destruct N_divides as [HN _]. apply NoDup_Permutation; [apply NoDup_hits; lia|apply NoDup_seqZ|].
  intros v. rewrite elem_of_hits, elem_of_seqZ. split.
  - intros (j & _ & -> & Hv). pose proof (E_range p Hp (s + j)). lia.
  - intros Hv. destruct (po_length p Hp). exists ((dns_k_permutor_D p v - s) mod N). pose proof (Z.mod_pos_bound (dns_k_permutor_D p v - s) N HN).
    split; [lia|]. split; [|lia]. transitivity (E (dns_k_permutor_D p v)); [rewrite E_of_D, Z.mod_small by (done || lia); done|].
    apply E_mod. rewrite Zplus_mod_idemp_r. f_equal. lia.
Qed.

(** A step finds the next of them. *)
Lemma hits_next m : ∀ s v l, hits m s = v :: l →
  ∃ k, (k < m)%nat ∧ l = hits (m - k - 1) (s + Z.of_nat k + 1) ∧
    ∀ fuel, (k < fuel)%nat → step_loop p fuel (u32 s) = Returns (v, u32 (s + Z.of_nat k + 1)).
Proof using Hp.
  induction m as [|m IH]; intros s v l Hh; [done|]. cbn [hits] in Hh.
  assert (u32 (u32 s + 1) = u32 (s + 1)) as Hnext by (unfold uwrap; by rewrite Zplus_mod_idemp_l).
  destruct (Z.leb_spec (k_length p) (E s)) as [Hge|Hlt].
  - destruct (IH _ _ _ Hh) as (k & Hk & Hl & Hstep). exists (S k). split; [lia|].
    replace (s + Z.of_nat (S k) + 1) with (s + 1 + Z.of_nat k + 1) by lia. split; [by rewrite Hl|].
    intros [|fuel] Hf; [lia|]. cbn [step_loop]. rewrite E_u32, (proj2 (Z.leb_le _ _)), Hnext by done. apply Hstep. lia.
  - injection Hh as <- <-. exists 0%nat. split; [lia|]. rewrite Z.add_0_r. split; [by replace (S m - 0 - 1)%nat with m by lia|].
    intros [|fuel] Hf; [lia|]. cbn [step_loop]. rewrite E_u32, (proj2 (Z.leb_gt _ _)) by done. by rewrite Hnext.
Qed.

(** What is added to them: the least number. *)
Definition k_low : Z := k_limit p + 1 - k_length p.

Lemma step_value n : 0 <= n < k_length p → u32 (n + u32 (u32 (k_limit p + 1) - k_length p)) = k_low + n.
Proof using Hp.
  intros Hn. destruct (po_limit p Hp). unfold uwrap. rewrite Zminus_mod_idemp_l, Zplus_mod_idemp_r.
  unfold k_low. rewrite Z.mod_small; lia.
Qed.

Lemma steps_hits l : ∀ m s, hits m s = l → Z.of_nat m <= N →
  ∃ s', permutor_steps (length l) (set_stepi (u32 s) p) = Returns (map (Z.add k_low) l, set_stepi (u32 s') p).
Proof using Hp.
  induction l as [|v l IH]; intros m s Hh Hm; [by exists s|].
  destruct (hits_next _ _ _ _ Hh) as (k & Hk & Hl & Hstep). destruct (IH _ _ (eq_sym Hl)) as [s' Hs']; [lia|]. exists s'.
  change (length (v :: l)) with (S (length l)). cbn [permutor_steps]. unfold dns_k_permutor_step. cbn [set_stepi k_shift k_stepi k_limit k_length].
  assert (∀ fuel st, step_loop (set_stepi (u32 s) p) fuel st = step_loop p fuel st) as Hsame.
  { intros fuel. induction fuel as [|fuel IHf]; intros st; [done|]. cbn [step_loop]. rewrite IHf. done. }
  rewrite Hsame, Hstep by lia. in_run. change (set_stepi _ (set_stepi (u32 s) p)) with (set_stepi (u32 (s + Z.of_nat k + 1)) p).
  assert (v ∈ hits m s) as Hv by (rewrite Hh; by left). apply elem_of_hits in Hv as (j & _ & -> & Hv).
  pose proof (E_range p Hp (s + j)). rewrite step_value, Hs' by lia. done.
Qed.

End Steps.

(** ** Making one *)

Lemma permutor_init_ok low high key : 0 <= low <= high → high < 2 ^ 32 → high - low < 2 ^ 31 →
  ∃ p, dns_k_permutor_init low high key = Returns p ∧ permutor_ok p ∧ k_stepi p = 0 ∧ k_length p = high - low + 1 ∧ k_low p = low.
Proof.
  intros Hlow Hhigh Hw. change (2 ^ 32) with 4294967296 in *. change (2 ^ 31) with 2147483648 in *.
  unfold dns_k_permutor_init, dns_k_permutor_powof.
  assert (u32 (u32 (high - low) + 1) = high - low + 1) as ->.
  { unfold uwrap. change (2 ^ 32) with 4294967296. rewrite !Z.mod_small; [done|lia|rewrite Z.mod_small; lia]. }
  destruct (powof_loop_spec 32 0 (high - low + 1) ltac:(lia)) as [Hpow _]; [change (2 ^ (Z.of_nat 0 - 1)) with 0; lia|lia|].
  destruct Hpow as (k & Hk & Hkr & Hkb); [change (2 ^ 31) with 2147483648; lia|]. change (2 ^ Z.of_nat 0) with 1 in Hk. change (Z.of_nat 0) with 0 in Hk, Hkr. rewrite Hk. in_run.
  eexists. split; [done|]. set (w := k + k mod 2).
  assert (2 * (w / 2) = w ∧ 0 <= w / 2 <= 16) as [Ew Hw2] by (unfold w; Z.to_euclidean_division_equations; lia).
  assert (u32 (Z.shiftl 1 (w / 2)) = 2 ^ (w / 2)) as ->.
  { rewrite Z.shiftl_1_l. apply Z.mod_small. pose proof (Z.pow_le_mono_r 2 (w / 2) 16 ltac:(lia) ltac:(lia)).
    change (2 ^ 16) with 65536 in *. change (2 ^ 32) with 4294967296. pose proof (Z.pow_pos_nonneg 2 (w / 2)). lia. }
  split; [split|]; cbn; [done| |done| |lia|].
  - rewrite Z.ones_equiv. apply Z.mod_small. pose proof (Z.pow_le_mono_r 2 (w / 2) 16 ltac:(lia) ltac:(lia)).
    change (2 ^ 16) with 65536 in *. change (2 ^ 32) with 4294967296. pose proof (Z.pow_pos_nonneg 2 (w / 2)). lia.
  - rewrite Ew. split; [lia|]. etransitivity; [apply Hkb|]. apply Z.pow_le_mono_r; unfold w; Z.to_euclidean_division_equations; lia.
  - split; [done|]. split; [done|]. unfold k_low. cbn. lia.
Qed.

(** * Every number once *)

(** C36: with any key, from [low] to any [high] less than [2 ^ 31] above it,
    [dns_k_permutor_init] makes a generator that, wherever its counter stands,
    and also when it wraps around, gives in as many steps as there are numbers
    from [low] to [high] each of them exactly once; every step ends.  What it
    encrypts is decrypted by [dns_k_permutor_D], and what that decrypts is
    encrypted. *)
Theorem dns_k_permutor_permutes low high key :
  0 <= low <= high → high < 2 ^ 32 → high - low < 2 ^ 31 →
  ∃ p, dns_k_permutor_init low high key = Returns p ∧
    (∀ stepi, 0 <= stepi < 2 ^ 32 → ∃ vs p',
      permutor_steps (Z.to_nat (high - low + 1)) (set_stepi stepi p) = Returns (vs, p') ∧ vs ≡ₚ seqZ low (high - low + 1)) ∧
    (∀ n, 0 <= n < 2 ^ (2 * k_shift p) →
      0 <= dns_k_permutor_E p n < 2 ^ (2 * k_shift p) ∧
      dns_k_permutor_D p (dns_k_permutor_E p n) = n ∧ dns_k_permutor_E p (dns_k_permutor_D p n) = n).
Proof.
  intros Hlow Hhigh Hw. destruct (permutor_init_ok low high key Hlow Hhigh Hw) as (p & Hinit & Hp & _ & Hlen & Hl). exists p. split; [done|]. split.
  - intros stepi Hs. pose proof (hits_all p Hp stepi) as Hall. pose proof (Permutation_length Hall) as Hn. rewrite length_seqZ, Hlen in Hn.
    destruct (N_divides p Hp) as [HN _].
    destruct (steps_hits p Hp _ (Z.to_nat (2 ^ (2 * k_shift p))) stepi eq_refl) as [s' Hsteps]; [lia|]. rewrite Hn in Hsteps.
    assert (u32 stepi = stepi) as E by by apply Z.mod_small. rewrite E in Hsteps. eexists _, _. split; [exact Hsteps|].
    rewrite Hall, Hl, Hlen. change (map (Z.add low)) with (fmap (M := list) (Z.add low)). by rewrite fmap_add_seqZ, Z.add_0_r.
  - intros n Hn. split; [by apply E_range|]. rewrite D_of_E, E_of_D, !Z.mod_small by done. done.
Qed.

Lemma dns_k_permutor_permutes_witness :
  ∃ p vs p', dns_k_permutor_init 10 14 (1, 2, 3, 4) = Returns p ∧ k_shift p = 2 ∧
    permutor_steps 5 (set_stepi (2 ^ 32 - 3) p) = Returns (vs, p') ∧ vs ≡ₚ [10; 11; 12; 13; 14] ∧ vs = [14; 10; 13; 11; 12].
Proof.
  destruct (dns_k_permutor_permutes 10 14 (1, 2, 3, 4)) as (p & Hinit & Hall & _); [lia|done|done|].
  destruct (Hall (2 ^ 32 - 3)) as (vs & p' & Hsteps & Hvs); [done|]. exists p, vs, p'. split; [done|].
  assert ((p ← dns_k_permutor_init 10 14 (1, 2, 3, 4); '(vs, _) ← permutor_steps 5 (set_stepi (2 ^ 32 - 3) p); Returns (k_shift p, vs)) =
    Returns (2, [14; 10; 13; 11; 12])) as Hrun by (vm_compute; reflexivity).
  rewrite Hinit in Hrun. cbn [mbind run_bind] in Hrun. change (Z.to_nat (14 - 10 + 1)) with 5%nat in Hsteps. rewrite Hsteps in Hrun. cbn [mbind run_bind] in Hrun.
  by injection Hrun as -> ->.
Defined.

(** More numbers than [2 ^ 31] are too many: the power of two is not found; and
    all numbers of 32 bits count as none, so that no step ends. *)
Lemma permutor_too_wide low high key : 0 <= low → high < 2 ^ 32 → 2 ^ 31 <= high - low < 2 ^ 32 - 1 →
  dns_k_permutor_init low high key = Forever.
Proof.
  intros Hlow Hhigh Hw. change (2 ^ 32) with 4294967296 in *. change (2 ^ 31) with 2147483648 in *.
  unfold dns_k_permutor_init, dns_k_permutor_powof.
  assert (u32 (u32 (high - low) + 1) = high - low + 1) as ->.
  { unfold uwrap. change (2 ^ 32) with 4294967296. rewrite !Z.mod_small; [done|lia|rewrite Z.mod_small; lia]. }
  destruct (powof_loop_spec 32 0 (high - low + 1) ltac:(lia)) as [_ Hpow]; [change (2 ^ (Z.of_nat 0 - 1)) with 0; lia|lia|].
  change (2 ^ Z.of_nat 0) with 1 in Hpow. change (Z.of_nat 0) with 0 in Hpow. rewrite Hpow; [done| |lia].
  change (2 ^ 31) with 2147483648. lia.
Qed.

Example permutor_all_numbers key : ∃ p, dns_k_permutor_init 0 (2 ^ 32 - 1) key = Returns p ∧ dns_k_permutor_step p = Forever.
Proof. destruct key as [[[k0 k1] k2] k3]. eexists. by split. Qed.

(** ** The box that shuffles records *)

Definition sbox : list Z := [
  0x63; 0x7c; 0x77; 0x7b; 0xf2; 0x6b; 0x6f; 0xc5; 0x30; 0x01; 0x67; 0x2b; 0xfe; 0xd7; 0xab; 0x76;
  0xca; 0x82; 0xc9; 0x7d; 0xfa; 0x59; 0x47; 0xf0; 0xad; 0xd4; 0xa2; 0xaf; 0x9c; 0xa4; 0x72; 0xc0;
  0xb7; 0xfd; 0x93; 0x26; 0x36; 0x3f; 0xf7; 0xcc; 0x34; 0xa5; 0xe5; 0xf1; 0x71; 0xd8; 0x31; 0x15;
  0x04; 0xc7; 0x23; 0xc3; 0x18; 0x96; 0x05; 0x9a; 0x07; 0x12; 0x80; 0xe2; 0xeb; 0x27; 0xb2; 0x75;
  0x09; 0x83; 0x2c; 0x1a; 0x1b; 0x6e; 0x5a; 0xa0; 0x52; 0x3b; 0xd6; 0xb3; 0x29; 0xe3; 0x2f; 0x84;
  0x53; 0xd1; 0x00; 0xed; 0x20; 0xfc; 0xb1; 0x5b; 0x6a; 0xcb; 0xbe; 0x39; 0x4a; 0x4c; 0x58; 0xcf;
  0xd0; 0xef; 0xaa; 0xfb; 0x43; 0x4d; 0x33; 0x85; 0x45; 0xf9; 0x02; 0x7f; 0x50; 0x3c; 0x9f; 0xa8;
  0x51; 0xa3; 0x40; 0x8f; 0x92; 0x9d; 0x38; 0xf5; 0xbc; 0xb6; 0xda; 0x21; 0x10; 0xff; 0xf3; 0xd2;
  0xcd; 0x0c; 0x13; 0xec; 0x5f; 0x97; 0x44; 0x17; 0xc4; 0xa7; 0x7e; 0x3d; 0x64; 0x5d; 0x19; 0x73;
  0x60; 0x81; 0x4f; 0xdc; 0x22; 0x2a; 0x90; 0x88; 0x46; 0xee; 0xb8; 0x14; 0xde; 0x5e; 0x0b; 0xdb;
  0xe0; 0x32; 0x3a; 0x0a; 0x49; 0x06; 0x24; 0x5c; 0xc2; 0xd3; 0xac; 0x62; 0x91; 0x95; 0xe4; 0x79;
  0xe7; 0xc8; 0x37; 0x6d; 0x8d; 0xd5; 0x4e; 0xa9; 0x6c; 0x56; 0xf4; 0xea; 0x65; 0x7a; 0xae; 0x08;
  0xba; 0x78; 0x25; 0x2e; 0x1c; 0xa6; 0xb4; 0xc6; 0xe8; 0xdd; 0x74; 0x1f; 0x4b; 0xbd; 0x8b; 0x8a;
  0x70; 0x3e; 0xb5; 0x66; 0x48; 0x03; 0xf6; 0x0e; 0x61; 0x35; 0x57; 0xb9; 0x86; 0xc1; 0x1d; 0x9e;
  0xe1; 0xf8; 0x98; 0x11; 0x69; 0xd9; 0x8e; 0x94; 0x9b; 0x1e; 0x87; 0xe9; 0xce; 0x55; 0x28; 0xdf;
  0x8c; 0xa1; 0x89; 0x0d; 0xbf; 0xe6; 0x42; 0x68; 0x41; 0x99; 0x2d; 0x0f; 0xb0; 0x54; 0xbb; 0x16].

Definition sbox_at (a : Z) : Z := default 0 (sbox !! Z.to_nat a).

(** The loop of [dns_k_shuffle16]. *)
Fixpoint shuffle_loop (n : nat) (a b s : Z) : Z * Z :=
  match n with
  | O => (a, b)
  | S n' =>
    let a := Z.lxor a (Z.land 0xff s) in
    let a := Z.lxor (sbox_at a) b in
    let b := Z.lxor (sbox_at b) a in
    shuffle_loop n' a b (Z.shiftr s 8)
  end.

Definition dns_k_shuffle16 (n s : Z) : Z :=
  let '(a, b) := shuffle_loop 4 (Z.land 0xff n) (Z.land 0xff (Z.shiftr n 8)) s in
  Z.lor (Z.land 0xff00 (Z.shiftl a 8)) (Z.land 0x00ff b).

Lemma sbox_permutes : length sbox = 256%nat ∧ NoDup sbox ∧ bytes_ok sbox.
Proof. split; [done|]. by split; apply (bool_decide_unpack _); vm_compute. Qed.

Lemma sbox_inj a b : byte_ok a → byte_ok b → sbox_at a = sbox_at b → a = b.
Proof.
  unfold byte_ok, is_uint, sbox_at. change (2 ^ 8) with 256. intros Ha Hb He. destruct sbox_permutes as (Hl & Hnd & _).
  destruct (lookup_lt_is_Some_2 sbox (Z.to_nat a)) as [x Hx]; [lia|]. destruct (lookup_lt_is_Some_2 sbox (Z.to_nat b)) as [y Hy]; [lia|].
  rewrite Hx, Hy in He. cbn in He. subst y. pose proof (NoDup_lookup _ _ _ _ Hnd Hx Hy). lia.
Qed.

Lemma sbox_ok a : byte_ok (sbox_at a).
Proof.
  unfold sbox_at. destruct (sbox !! Z.to_nat a) eqn:E; [|done]. destruct sbox_permutes as (_ & _ & Hok). by eapply (Forall_lookup_1 _ sbox).
Qed.

Lemma low_byte_ok x : byte_ok (Z.land 0xff x).
Proof. rewrite Z.land_comm, land_255. apply Z.mod_pos_bound. done. Qed.

Lemma lxor_cancel a b c : Z.lxor a c = Z.lxor b c → a = b.
Proof. intros H. by rewrite <-(lxor_twice a c), H, lxor_twice. Qed.

Lemma shuffle_loop_inj n : ∀ a b a' b' s, byte_ok a → byte_ok b → byte_ok a' → byte_ok b' →
  (byte_ok (shuffle_loop n a b s).1 ∧ byte_ok (shuffle_loop n a b s).2) ∧
  (shuffle_loop n a b s = shuffle_loop n a' b' s → a = a' ∧ b = b').
Proof.
  induction n as [|n IH]; intros a b a' b' s Ha Hb Ha' Hb'; [split; [done|by intros [= <- <-]]|]. cbn [shuffle_loop].
  set (m := Z.land 0xff s). assert (byte_ok m) as Hm by apply low_byte_ok.
  assert (∀ x y, byte_ok x → byte_ok y → byte_ok (Z.lxor x y)) as Hx by (intros; by apply is_uint_lxor).
  pose proof sbox_ok as Hs. destruct (IH (Z.lxor (sbox_at (Z.lxor a m)) b) (Z.lxor (sbox_at b) (Z.lxor (sbox_at (Z.lxor a m)) b))
    (Z.lxor (sbox_at (Z.lxor a' m)) b') (Z.lxor (sbox_at b') (Z.lxor (sbox_at (Z.lxor a' m)) b')) (Z.shiftr s 8)) as [Hok Hinj]; auto.
  split; [exact Hok|]. intros He. destruct (Hinj He) as [E1 E2]. rewrite E1 in E2. apply lxor_cancel in E2.
  apply sbox_inj in E2; [|done|done]. subst b'. split; [|done]. apply lxor_cancel in E1. apply sbox_inj in E1; [|auto|auto]. by apply lxor_cancel in E1.
Qed.

(** With any seed, different numbers of 16 bits stay different. *)
Lemma shuffle16_inj n m s : 0 <= n < 65536 → 0 <= m < 65536 → dns_k_shuffle16 n s = dns_k_shuffle16 m s → n = m.
Proof.
  intros Hn Hm. unfold dns_k_shuffle16. set (bytes_of := λ x, (Z.land 0xff x, Z.land 0xff (Z.shiftr x 8))).
  assert (∀ x, 0 <= x < 65536 → Z.land 0xff x + 256 * Z.land 0xff (Z.shiftr x 8) = x) as Hsplit.
  { intros x Hx. rewrite !(Z.land_comm 255), !land_255, Z.shiftr_div_pow2 by lia. change (2 ^ 8) with 256. Z.to_euclidean_division_equations; lia. }
  destruct (shuffle_loop_inj 4 (Z.land 0xff n) (Z.land 0xff (Z.shiftr n 8)) (Z.land 0xff m) (Z.land 0xff (Z.shiftr m 8)) s) as [[H1 H2] Hinj];
    [apply low_byte_ok..|].
  destruct (shuffle_loop_inj 4 (Z.land 0xff m) (Z.land 0xff (Z.shiftr m 8)) (Z.land 0xff n) (Z.land 0xff (Z.shiftr n 8)) s) as [[H3 H4] _];
    [apply low_byte_ok..|].
  destruct (shuffle_loop 4 (Z.land 0xff n) _ s) as [a b] eqn:E1. destruct (shuffle_loop 4 (Z.land 0xff m) _ s) as [a' b'] eqn:E2. cbn [fst snd] in *.
  assert (∀ x y, byte_ok x → byte_ok y → Z.lor (Z.land 0xff00 (Z.shiftl x 8)) (Z.land 0xff y) = y + 256 * x) as Hput.
  { intros x y Hx Hy. change 0xff00 with (Z.shiftl 255 8). rewrite <-Z.shiftl_land, !(Z.land_comm 255), !land_255.
    unfold byte_ok, is_uint in *. change (2 ^ 8) with 256 in *. rewrite !Z.mod_small by lia. rewrite Z.lor_comm, lor_shiftl_add by (unfold is_uint; lia). done. }
  rewrite !Hput by done. unfold byte_ok, is_uint in *. change (2 ^ 8) with 256 in *. intros He.
  assert (a = a' ∧ b = b') as [<- <-] by lia. destruct (Hinj eq_refl) as [Ha Hb]. rewrite <-(Hsplit n), <-(Hsplit m), Ha, Hb by done. done.
Qed.

Lemma shuffle16_range n s : 0 <= dns_k_shuffle16 n s < 65536.
Proof.
  unfold dns_k_shuffle16.
  destruct (shuffle_loop_inj 4 (Z.land 0xff n) (Z.land 0xff (Z.shiftr n 8)) (Z.land 0xff n) (Z.land 0xff (Z.shiftr n 8)) s) as [[H1 H2] _];
    [apply low_byte_ok..|]. destruct (shuffle_loop _ _ _ _) as [a b]. cbn [fst snd] in *.
  apply (is_uint_lor 16); [lia| |]; apply is_uint_land; [lia|done|apply Z.shiftl_nonneg, H1|lia|done|apply H2].
Qed.
