(* ===== verification/DnsGrep.v ===== *)
(** Iterating over the records of a packet and adding to them (src/dns/dns.c):
    [dns_rr_grep] and what it is made of, [dns_p_study], [dns_p_push],
    [dns_rr_copy], [dns_q_make2], [dns_p_merge]. *)

From S2P Require Import Prelude DnsPacket DnsName DnsExpand DnsRR DnsBuf DnsData DnsPermutor.

Open Scope Z_scope.

(** ** Comparing data *)

(** The first difference that is not 0. *)
Definition or_else (c d : Z) : Z := if c =? 0 then d else c.
Definition greater_first (a b : Z) : Z := if b <? a then -1 else if a <? b then 1 else 0.

Definition dns_a_cmp (a b : bytes) : Z :=
  if ntohl a <? ntohl b then -1 else if ntohl b <? ntohl a then 1 else 0.

Fixpoint dns_aaaa_cmp (a b : bytes) : Z :=
  match a, b with
  | x :: a', y :: b' => or_else (x - y) (dns_aaaa_cmp a' b')
  | _, _ => 0
  end.

(** [memcmp]: only its sign is certain. *)
Definition memcmp := dns_aaaa_cmp.

Definition str_cmp (a b : bytes) : Z := strcasecmp (cstr a) (cstr b).

Definition dns_any_cmp (a : dns_any) (x : Z) (b : dns_any) (y : Z) : run Z :=
  if negb (x - y =? 0) then Returns (x - y)
  else
    match a, b with
    | any_a a, any_a b => Returns (dns_a_cmp a b)
    | any_aaaa a, any_aaaa b => Returns (dns_aaaa_cmp a b)
    | any_mx p a, any_mx q b => Returns (or_else (p - q) (str_cmp a b))
    | any_ns a, any_ns b => Returns (str_cmp a b)
    | any_soa m r s1 r1 t1 e1 m1, any_soa m' r' s2 r2 t2 e2 m2 =>
      Returns (or_else (str_cmp m m') (or_else (str_cmp r r') (or_else (greater_first s1 s2) (or_else (greater_first r1 r2)
        (or_else (greater_first t1 t2) (or_else (greater_first e1 e2) (greater_first m1 m2)))))))
    | any_srv p w o a, any_srv p' w' o' b => Returns (or_else (p - p') (or_else (w - w') (or_else (o - o') (str_cmp a b))))
    | any_opt _ _ _ _ _ _, any_opt _ _ _ _ _ _ => Returns (-1)
    | any_sshfp g t a, any_sshfp g' t' b =>
      Returns (or_else (g - g') (or_else (t - t') (if t =? DNS_SSHFP_SHA1 then memcmp a b else 0)))
    | any_rdata _, any_rdata _ => Returns (-1)
    | _, _ => Undefined
    end.

(** [sizeof (union dns_any)] less what is before the data: [DNS_TXT_MINDATA]. *)
Definition DNS_TXT_MINDATA : Z := 1024.

(** A name for comparing: an array of [DNS_D_MAXNAME + 1] bytes, if it fits. *)
Definition rr_host (rr : dns_rr) (P : dns_packet) : run (option bytes) :=
  '(len, host) ← dns_d_expand (replicate (Z.to_nat (DNS_D_MAXNAME + 1)) 0) (dn_p rr) P;
  Returns (if (len =? 0) || (DNS_D_MAXNAME + 1 <=? len) then None else Some host).

(** [dns_rr_cmp].  [any0] and [any1] are never initialised: [junk] is the size
    that is there. *)
Definition dns_rr_cmp (junk : Z) (r0 : dns_rr) (P0 : dns_packet) (r1 : dns_rr) (P1 : dns_packet) : run Z :=
  if negb (rr_type r0 - rr_type r1 =? 0) then Returns (rr_type r0 - rr_type r1)
  else if negb (rr_class r0 - rr_class r1 =? 0) then Returns (rr_class r0 - rr_class r1)
  else
    host0 ← rr_host r0 P0;
    match host0 with
    | None => Returns (-1)
    | Some host0 =>
      host1 ← rr_host r1 P1;
      match host1 with
      | None => Returns 1
      | Some host1 =>
        if negb (str_cmp host0 host1 =? 0) then Returns (str_cmp host0 host1)
        else if has_section DNS_S_QD (Z.lor (rr_section r0) (rr_section r1)) then
          if rr_section r0 =? rr_section r1 then Returns 0
          else Returns (if rr_section r0 =? DNS_S_QD then -1 else 1)
        else
          any0 ← dns_any_parse r0 P0 junk;
          match any0 with
          | inl _ => Returns (-1)
          | inr any0 =>
            any1 ← dns_any_parse r1 P1 junk;
            match any1 with
            | inl _ => Returns 1
            | inr any1 => dns_any_cmp any0 (rr_type r0) any1 (rr_type r1)
            end
          end
      end
    end.

(** ** Iterating *)

(** The function [i->sort] points to; [None] for [dns_rr_i_packet]. *)
Definition rr_sort := option (dns_rr → dns_rr → dns_packet → run Z).

Definition dns_rr_i_packet (a b : dns_rr) : Z := dn_p a - dn_p b.

Definition dns_rr_i_order (junk : Z) (a b : dns_rr) (P : dns_packet) : run Z :=
  if negb (rr_section a - rr_section b =? 0) then Returns (rr_section a - rr_section b)
  else if negb (rr_type a =? rr_type b) then Returns (dn_p a - dn_p b)
  else dns_rr_cmp junk a P b P.

(** [dns_rr_i_shuffle]: [seed] is [i->state.regs[0]], as the loop at its start
    leaves it, the first number of [dns_random] that is not 0. *)
Definition dns_rr_i_shuffle (seed : Z) (a b : dns_rr) : Z :=
  if negb (rr_section a - rr_section b =? 0) then rr_section a - rr_section b
  else dns_k_shuffle16 (dn_p a) seed - dns_k_shuffle16 (dn_p b) seed.

(** [struct dns_rr_i]: what is searched for, and [state]. *)
Record dns_rr_i := mk_rr_i {
  i_section : Z; i_name : option bytes; i_type : Z; i_class : Z; i_data : option dns_any; i_sort : rr_sort;
  i_next : Z; i_count : Z; i_exec : Z }.

Definition i_at (next count exec : Z) (i : dns_rr_i) : dns_rr_i :=
  mk_rr_i (i_section i) (i_name i) (i_type i) (i_class i) (i_data i) (i_sort i) next count exec.

(** [dns_rr_i_new(P, .section = ..., .type = ..., ...)] *)
Definition dns_rr_i_init (section type : Z) : dns_rr_i := mk_rr_i section None type 0 None None 0 0 0.

Section Iterate.
Context (junk : Z).

Definition i_compare (i : dns_rr_i) (a b : dns_rr) (P : dns_packet) : run Z :=
  match i_sort i with None => Returns (dns_rr_i_packet a b) | Some sort => sort a b P end.

Definition dns_rr_i_match (rr : dns_rr) (i : dns_rr_i) (P : dns_packet) : run bool :=
  if negb (i_section i =? 0) && (Z.land (rr_section rr) (i_section i) =? 0) then Returns false
  else if negb (i_type i =? 0) && negb (rr_type rr =? i_type i) && negb (i_type i =? DNS_T_ALL) then Returns false
  else if negb (i_class i =? 0) && negb (rr_class rr =? i_class i) && negb (i_class i =? DNS_C_ANY) then Returns false
  else
    named ←
      match i_name i with
      | None => Returns true
      | Some name =>
        dn ← rr_host rr P;
        Returns (match dn with None => false | Some dn => str_cmp dn name =? 0 end)
      end;
    if negb named then Returns false
    else
      match i_data i with
      | Some data =>
        if negb (i_type i =? 0) && (DNS_S_QD <? rr_section rr) then
          rd ← dns_any_parse rr P junk;
          match rd with
          | inl _ => Returns false
          | inr rd => c ← dns_any_cmp rd (rr_type rr) data (i_type i); Returns (c =? 0)
          end
        else Returns true
      | None => Returns true
      end.

(** The record at an offset, if there is one and it is searched for. *)
Definition rr_at (i : dns_rr_i) (P : dns_packet) (rp : Z) : run (option dns_rr) :=
  rr ← dns_rr_parse 0 rp P;
  match rr with
  | None => Returns None
  | Some rr =>
    section ← dns_rr_section rp P;
    let rr := rr_set_section section rr in
    m ← dns_rr_i_match rr i P;
    Returns (if m : bool then Some rr else None)
  end.

(** [for (; rp < P->end; rp = dns_rr_skip(rp, P))], up to the first record [ok]. *)
Fixpoint rr_search (fuel : nat) (i : dns_rr_i) (P : dns_packet) (ok : dns_rr → run bool) (rp : Z) : run (option (dns_rr * Z)) :=
  if p_end P <=? rp then Returns None
  else
    match fuel with
    | O => Forever
    | S fuel' =>
      rr ← rr_at i P rp;
      found ← match rr with None => Returns false | Some rr => ok rr end;
      match rr, found with
      | Some rr, true => Returns (Some (rr, rp))
      | _, _ => rp ← dns_rr_skip rp P; rr_search fuel' i P ok rp
      end
    end.

(** The loops at [lower]: the least of the records from [rp] on that are [ok]. *)
Fixpoint rr_least (fuel : nat) (i : dns_rr_i) (P : dns_packet) (ok : dns_rr → dns_rr → run bool) (rp : Z) (best : dns_rr) : run dns_rr :=
  rp ← dns_rr_skip rp P;
  if p_end P <=? rp then Returns best
  else
    match fuel with
    | O => Forever
    | S fuel' =>
      rr ← rr_at i P rp;
      match rr with
      | None => rr_least fuel' i P ok rp best
      | Some rr => better ← ok rr best; rr_least fuel' i P ok rp (if better : bool then rr else best)
      end
    end.

(** Where [dns_rr_i_start] begins: at the first section searched whose base is
    known. *)
Definition i_base (i : dns_rr_i) (P : dns_packet) : Z :=
  let m := p_memo_ P in
  let studied s b := has_section (i_section i) s && negb (b =? 0) in
  if studied DNS_S_QD (s_base (m_qd m)) then s_base (m_qd m)
  else if studied DNS_S_AN (s_base (m_an m)) then s_base (m_an m)
  else if studied DNS_S_NS (s_base (m_ns m)) then s_base (m_ns m)
  else if studied DNS_S_AR (s_base (m_ar m)) then s_base (m_ar m)
  else 12.

Definition dns_rr_i_start (i : dns_rr_i) (P : dns_packet) : run Z :=
  let rp := i_base i P in
  first ← rr_search (packet_fuel P) i P (λ _, Returns true) rp;
  match first with
  | None => Returns (u16 (p_end P))
  | Some (r0, rp) =>
    match i_sort i with
    | None => Returns (dn_p r0)
    | Some _ =>
      r ← rr_least (packet_fuel P) i P (λ rr r0, c ← i_compare i rr r0 P; Returns (c <? 0)) rp r0;
      Returns (dn_p r)
    end
  end.

Definition dns_rr_i_skip (rp : Z) (i : dns_rr_i) (P : dns_packet) : run Z :=
  r0 ← dns_rr_parse 0 rp P;
  match r0 with
  | None => Returns (u16 (p_end P))
  | Some r0 =>
    section ← dns_rr_section rp P;
    let r0 := rr_set_section section r0 in
    rp ← match i_sort i with None => dns_rr_skip rp P | Some _ => Returns 12 end;
    let after rr := c ← i_compare i rr r0 P; Returns (0 <? c) in
    first ← rr_search (packet_fuel P) i P after rp;
    match first with
    | None => Returns (u16 (p_end P))
    | Some (r1, rp) =>
      match i_sort i with
      | None => Returns (dn_p r1)
      | Some _ =>
        r ← rr_least (packet_fuel P) i P
              (λ rr r1, a ← after rr; if a : bool then c ← i_compare i rr r1 P; Returns (c <? 0) else Returns false) rp r1;
        Returns (dn_p r)
      end
    end
  end.

(** The loop of [dns_rr_grep], for at most [lim] records: they, [i], and whether
    a record was refused. *)
Fixpoint grep_loop (lim : nat) (i : dns_rr_i) (P : dns_packet) : run (list dns_rr * dns_rr_i * option dns_errno) :=
  match lim with
  | O => Returns ([], i, None)
  | S lim' =>
    if i_next i <? p_end P then
      rr ← dns_rr_parse 0 (i_next i) P;
      match rr with
      | None => Returns ([], i, Some DNS_EILLEGAL)
      | Some rr =>
        section ← dns_rr_section (i_next i) P;
        next ← dns_rr_i_skip (i_next i) i P;
        '(rrs, i, error) ← grep_loop lim' (i_at next (u16 (i_count i + 1)) (i_exec i) i) P;
        Returns (rr_set_section section rr :: rrs, i, error)
      end
    else Returns ([], i, None)
  end.

Definition dns_rr_grep (lim : nat) (i : dns_rr_i) (P : dns_packet) : run (list dns_rr * dns_rr_i * option dns_errno) :=
  if i_exec i =? 0 then
    next ← dns_rr_i_start i P; grep_loop lim (i_at next (i_count i) 1 i) P
  else if i_exec i =? 1 then grep_loop lim i P
  else Returns ([], i, None).

End Iterate.

(** ** Adding records *)

Definition set_qd (m : s_memo) (M : p_memo) : p_memo := mk_p_memo m (m_an M) (m_ns M) (m_ar M) (m_opt M).
Definition set_an (m : s_memo) (M : p_memo) : p_memo := mk_p_memo (m_qd M) m (m_ns M) (m_ar M) (m_opt M).
Definition set_ns (m : s_memo) (M : p_memo) : p_memo := mk_p_memo (m_qd M) (m_an M) m (m_ar M) (m_opt M).
Definition set_ar (m : s_memo) (M : p_memo) : p_memo := mk_p_memo (m_qd M) (m_an M) (m_ns M) m (m_opt M).
Definition set_opt (o : opt_memo) (M : p_memo) : p_memo := mk_p_memo (m_qd M) (m_an M) (m_ns M) (m_ar M) o.

Definition over_memo (f : p_memo → p_memo) (P : dns_packet) : dns_packet := set_memo (f (p_memo_ P)) P.

(** [dns_p_study], that is [dns_m_study] of the packet's own memo. *)
Definition dns_p_study (P : dns_packet) : run dns_packet :=
  qd ← dns_s_study DNS_S_QD 12 P; let P := over_memo (set_qd qd) P in
  an ← dns_s_study DNS_S_AN (s_end qd) P; let P := over_memo (set_an an) P in
  ns ← dns_s_study DNS_S_NS (s_end an) P; let P := over_memo (set_ns ns) P in
  ar ← dns_s_study DNS_S_AR (s_end ns) P; let P := over_memo (set_ar ar) P in
  let P := over_memo (set_opt (mk_opt_memo 0 0 0)) P in
  '(rrs, _, _) ← dns_rr_grep 0 1 (dns_rr_i_init DNS_S_AR DNS_T_OPT) P;
  Returns (match rrs with
           | rr :: _ => over_memo (set_opt (mk_opt_memo (dn_p rr) (u16 (rr_class rr)) (rr_ttl rr))) P
           | [] => P
           end).

(** [count = htons(ntohs(count) + 1)] *)
Definition count_up (section : Z) (P : dns_packet) : run dns_packet :=
  c ← header_count P section;
  data ← wr (p_data P) (count_at section) (be16 (u16 (c + 1)));
  Returns (set_data data P).

(** [if (!P->memo.x.base && (error = dns_p_study(P)))]: it does not fail. *)
Definition study_if_new (base : Z) (P : dns_packet) : run dns_packet :=
  if base =? 0 then dns_p_study P else Returns P.

Definition end_at (x : Z) (m : s_memo) : s_memo := mk_s_memo (s_base m) x.

(** The switch at [update]; [end_] is where the record begins. *)
Definition p_update (P : dns_packet) (end_ section type class ttl : Z) : run (option dns_errno * dns_packet) :=
  if section =? DNS_S_QD then
    later ← dns_p_count P (DNS_S_AN + DNS_S_NS + DNS_S_AR);
    if negb (later =? 0) then Returns (Some DNS_EORDER, P)
    else
      P ← study_if_new (s_base (m_qd (p_memo_ P))) P;
      P ← count_up DNS_S_QD P;
      let e := u16 (p_end P) in
      Returns (None, over_memo (λ M, mk_p_memo (end_at e (m_qd M)) (mk_s_memo e e) (mk_s_memo e e) (mk_s_memo e e) (m_opt M)) P)
  else if section =? DNS_S_AN then
    later ← dns_p_count P (DNS_S_NS + DNS_S_AR);
    if negb (later =? 0) then Returns (Some DNS_EORDER, P)
    else
      P ← study_if_new (s_base (m_an (p_memo_ P))) P;
      P ← count_up DNS_S_AN P;
      let e := u16 (p_end P) in
      Returns (None, over_memo (λ M, mk_p_memo (m_qd M) (end_at e (m_an M)) (mk_s_memo e e) (mk_s_memo e e) (m_opt M)) P)
  else if section =? DNS_S_NS then
    later ← dns_p_count P DNS_S_AR;
    if negb (later =? 0) then Returns (Some DNS_EORDER, P)
    else
      P ← study_if_new (s_base (m_ns (p_memo_ P))) P;
      P ← count_up DNS_S_NS P;
      let e := u16 (p_end P) in
      Returns (None, over_memo (λ M, mk_p_memo (m_qd M) (m_an M) (end_at e (m_ns M)) (mk_s_memo e e) (m_opt M)) P)
  else if section =? DNS_S_AR then
    P ← study_if_new (s_base (m_ar (p_memo_ P))) P;
    P ← count_up DNS_S_AR P;
    let e := u16 (p_end P) in
    let P := over_memo (λ M, set_ar (end_at e (m_ar M)) M) P in
    Returns (None, if (type =? DNS_T_OPT) && (o_p (m_opt (p_memo_ P)) =? 0)
                   then over_memo (set_opt (mk_opt_memo (u16 end_) (u16 class) ttl)) P else P)
  else Returns (Some DNS_ESECTION, P).

(** [dns_p_push]: [any] is not looked at for a question. *)
Definition dns_p_push (P : dns_packet) (section : Z) (dn : bytes) (type class ttl : Z) (any : option dns_any) :
    run (option dns_errno * dns_packet) :=
  let end_ := p_end P in
  let failed e P := Returns (Some e, set_end end_ P) in
  '(error, P) ← dns_d_push P dn;
  match error with
  | Some e => failed e P
  | None =>
    if p_room P <? 4 then failed DNS_ENOBUFS P
    else
      P ← p_append (be16 type ++ be16 class) P;
      '(error, P, ttl) ←
        (if section =? DNS_S_QD then Returns (None, P, ttl)
         else if p_room P <? 6 then Returns (Some DNS_ENOBUFS, P, ttl)
         else
           let ttl := if negb (type =? DNS_T_OPT) then Z.min ttl 0x7fffffff else ttl in
           P ← p_append [u8 (Z.shiftr ttl 24); u8 (Z.shiftr ttl 16); u8 (Z.shiftr ttl 8); u8 ttl] P;
           match any with
           | None => Undefined
           | Some any => '(error, P) ← dns_any_push P any type; Returns (error, P, ttl)
           end);
      match error with
      | Some e => failed e P
      | None =>
        '(error, P) ← p_update P end_ section type class ttl;
        match error with
        | Some e => failed e P
        | None => Returns (None, P)
        end
      end
  end.

(** ** From packet to packet *)

(** [dns_rr_copy] *)
Definition dns_rr_copy (P : dns_packet) (rr : dns_rr) (Q : dns_packet) : run (option dns_errno * dns_packet) :=
  '(len, dn) ← dns_d_expand (replicate (Z.to_nat (DNS_D_MAXNAME + 1)) 0) (dn_p rr) Q;
  if len =? 0 then Returns (Some DNS_EILLEGAL, P)
  else if DNS_D_MAXNAME + 1 <=? len then Returns (Some DNS_EILLEGAL, P)
  else
    any ← (if negb (rr_section rr =? DNS_S_QD)
           then any ← dns_any_parse rr Q DNS_TXT_MINDATA; Returns (match any with inl e => inl e | inr any => inr (Some any) end)
           else Returns (inr None));
    match any with
    | inl e => Returns (Some e, P)
    | inr any => dns_p_push P (rr_section rr) (take (Z.to_nat len) dn) (rr_type rr) (rr_class rr) (rr_ttl rr) any
    end.

Section Packets.
Context (junk : Z).

(** [dns_rr_foreach]: [dns_rr_grep] for one record, until there is none;
    [step] is what is done with it, and whether to go on. *)
Fixpoint dns_rr_foreach {A} (fuel : nat) (i : dns_rr_i) (P : dns_packet) (step : dns_rr → A → run (bool * A)) (a : A) : run A :=
  match fuel with
  | O => Forever
  | S fuel' =>
    '(rrs, i, _) ← dns_rr_grep junk 1 i P;
    match rrs with
    | rr :: _ => '(more, a) ← step rr a; if more : bool then dns_rr_foreach fuel' i P step a else Returns a
    | [] => Returns a
    end
  end.

Definition dns_rr_exists (rr0 : dns_rr) (P0 P1 : dns_packet) : run bool :=
  dns_rr_foreach (packet_fuel P1) (dns_rr_i_init (rr_section rr0) (rr_type rr0)) P1
    (λ rr1 _, c ← dns_rr_cmp junk rr0 P0 rr1 P1; Returns (negb (c =? 0), c =? 0)) false.

Definition ENAMETOOLONG : errno := EOTHER 36.

(** [dns_d_cname]: the aliases of a name, at most seven of them. *)
Fixpoint cname_loop (depth : nat) (host : bytes) (P : dns_packet) : run (dns_errno + bytes) :=
  match depth with
  | O => Returns (inr host)
  | S depth' =>
    let i := mk_rr_i (DNS_S_ALL - DNS_S_QD) (Some host) DNS_T_CNAME 0 None None 0 0 0 in
    '(rrs, _, _) ← dns_rr_grep junk 1 i P;
    match rrs with
    | [] => Returns (inr host)
    | rr :: _ =>
      any ← dns_cname_parse rr P;
      match any with
      | inr (any_ns host) => cname_loop depth' host P
      | inr _ => Undefined
      | inl e => Returns (inl e)
      end
    end
  end.

Definition dns_d_cname (dst dn : bytes) (P : dns_packet) : run (dns_errno + Z * bytes) :=
  let '(len, host) := dns_d_anchor (replicate (Z.to_nat (DNS_D_MAXNAME + 1)) 0) dn in
  if DNS_D_MAXNAME + 1 <=? len then Returns (inl (DNS_ESYS ENAMETOOLONG))
  else
    host ← cname_loop 7 host P;
    Returns (match host with inl e => inl e | inr host => inr (put_text (cstr host) dst) end).

(** [dns_p_merge]: [mem] is what [malloc] gives for the packet. *)
Definition copy_sections (M : dns_packet) (section : Z) (A : dns_packet) (skip : dns_rr → dns_packet → run bool) :
    run (option dns_errno * dns_packet) :=
  dns_rr_foreach (packet_fuel A) (dns_rr_i_init section 0) A
    (λ rr '(_, M),
      known ← skip rr M;
      if known : bool then Returns (true, (None, M))
      else '(error, M) ← dns_rr_copy M rr A; Returns (match error with None => true | Some _ => false end, (error, M)))
    (None, M).

(** A record of [M] that is the same. *)
Definition merged (B : dns_packet) (rr : dns_rr) (M : dns_packet) : run bool :=
  dns_rr_foreach (packet_fuel M) (dns_rr_i_init DNS_S_ALL (rr_type rr)) M
    (λ mr _, c ← dns_rr_cmp junk rr B mr M; Returns (negb (c =? 0), c =? 0)) false.

Fixpoint merge_sections (sections : list Z) (M : dns_packet) (A : option dns_packet) (Amask : Z) (B : option dns_packet) (Bmask : Z) :
    run (option dns_errno * dns_packet) :=
  match sections with
  | [] => Returns (None, M)
  | section :: sections' =>
    '(error, M) ←
      match A with
      | Some A => if has_section section Amask then copy_sections M section A (λ _ _, Returns false) else Returns (None, M)
      | None => Returns (None, M)
      end;
    match error with
    | Some e => Returns (Some e, M)
    | None =>
      '(error, M) ←
        match B with
        | Some B => if has_section section Bmask then copy_sections M section B (merged B) else Returns (None, M)
        | None => Returns (None, M)
        end;
      match error with
      | Some e => Returns (Some e, M)
      | None => merge_sections sections' M A Amask B Bmask
      end
    end
  end.

(** [goto merge] with a packet of twice the size: sixteen times, at most,
    from a byte on. *)
Fixpoint merge_loop (fuel : nat) (mem : Z → option bytes) (bufsiz : Z) (A : option dns_packet) (Amask : Z) (B : option dns_packet)
    (Bmask : Z) : run (dns_errno + dns_packet) :=
  M ← dns_p_make mem bufsiz;
  match M with
  | None => Returns (inl (DNS_ESYS ENOMEM))
  | Some M =>
    '(error, M) ← merge_sections [DNS_S_QD; DNS_S_AN; DNS_S_NS; DNS_S_AR] M A Amask B Bmask;
    match error with
    | None => Returns (inr M)
    | Some e =>
      if bool_decide (e = DNS_ENOBUFS) && (bufsiz <? 65535) then
        match fuel with
        | O => Forever
        | S fuel' => merge_loop fuel' mem (Z.min 65535 (bufsiz * 2)) A Amask B Bmask
        end
      else Returns (inl e)
    end
  end.

Definition dns_p_merge (mem : Z → option bytes) (A : option dns_packet) (Amask : Z) (B : option dns_packet) (Bmask : Z) :
    run (dns_errno + dns_packet) :=
  let bufsiz := Z.min 65535 (from_option p_end 0 A + from_option p_end 0 B) in
  match A, B with
  | None, Some B => merge_loop 16 mem bufsiz (Some B) Bmask None Bmask
  | _, _ => merge_loop 16 mem bufsiz A Amask B Bmask
  end.

End Packets.

(** ** Queries *)

Definition DNS_Q_RD : Z := 1.
Definition DNS_Q_EDNS0 : Z := 2.
Definition DNS_OPT_MINDATA : Z := 256.

(** [dns_opt_ttl] and [dns_opt_class] *)
Definition dns_opt_ttl (rcode version flags : Z) : Z :=
  Z.lor (Z.lor (u32 (Z.shiftl (Z.land 0xff rcode) 24)) (Z.shiftl (Z.land 0xff version) 16)) (Z.land 0xffff flags).
Definition dns_opt_class (maxudp : Z) : Z := u16 maxudp.

(** [dns_header(Q)->rd = flag]: the low bit of the third byte. *)
Definition set_rd (flag : bool) (P : dns_packet) : run dns_packet :=
  b ← rd (p_data P) 2;
  data ← wr (p_data P) 2 [Z.lor (Z.land 0xfe b) (Z.b2z flag)];
  Returns (set_data data P).

(** [dns_q_make2]: [Q] is the packet to use again, or what [mem] gives. *)
Definition dns_q_make2 (mem : Z → option bytes) (qbufsiz : Z) (Q : option dns_packet) (qname : bytes) (qtype qclass qflags : Z) :
    run (dns_errno + dns_packet) :=
  Q ← match Q with
      | Some Q => P ← dns_p_reset Q; Returns (Some P)
      | None => dns_p_make mem qbufsiz
      end;
  match Q with
  | None => Returns (inl (DNS_ESYS ENOMEM))
  | Some Q =>
    '(error, Q) ← dns_p_push Q DNS_S_QD qname qtype qclass 0 None;
    match error with
    | Some e => Returns (inl e)
    | None =>
      Q ← set_rd (negb (Z.land qflags DNS_Q_RD =? 0)) Q;
      if negb (Z.land qflags DNS_Q_EDNS0 =? 0) then
        let opt := any_opt 0 0 0 4096 (replicate (Z.to_nat DNS_OPT_MINDATA) 0) 0 in
        '(error, Q) ← dns_p_push Q DNS_S_AR [DOT] DNS_T_OPT (dns_opt_class 4096) (dns_opt_ttl 0 0 0) (Some opt);
        Returns (match error with Some e => inl e | None => inr Q end)
      else Returns (inr Q)
    end
  end.
