(* ===== verification/DnsWalk.v ===== *)
(** What an iterator over the records of a packet meets: in the order of the
    packet, each record that is searched for, once. *)

From S2P Require Import Prelude DnsPacket DnsName DnsExpand DnsRR DnsBuf DnsData DnsGrep.

Open Scope Z_scope.

Section Walk.
Context (junk : Z) (i : dns_rr_i) (P : dns_packet).

(** The records searched for, from an offset on: what is no record, or another,
    is skipped. *)
Inductive records : Z → list dns_rr → Prop :=
| records_end rp : p_end P <= rp → records rp []
| records_found rp rr next l :
    rp < p_end P → rr_at junk i P rp = Returns (Some rr) → dns_rr_skip rp P = Returns next → records next l → records rp (rr :: l)
| records_other rp next l :
    rp < p_end P → rr_at junk i P rp = Returns None → dns_rr_skip rp P = Returns next → records next l → records rp l.

Context (HP : header_ok P).
Context (Hmatch : ∀ rp, 0 <= rp → ∃ m, rr_at junk i P rp = Returns m).

Lemma records_exist n : ∀ rp, 0 <= rp → (Z.to_nat (p_end P) - Z.to_nat rp <= n)%nat → ∃ l, records rp l.
Proof using HP Hmatch.
  induction n as [|n IH]; intros rp Hrp Hn; (destruct (Z.le_gt_cases (p_end P) rp); [exists []; by apply records_end|]); [lia|].
  destruct (rr_skip_range P HP rp Hrp) as (next & Hs & _ & Hr). destruct (IH next) as [l Hl]; [lia|lia|].
  destruct (Hmatch rp Hrp) as [[rr|] Hm]; [exists (rr :: l); by eapply records_found|exists l; by eapply records_other].
Qed.

Lemma records_functional rp l : records rp l → ∀ l', records rp l' → l = l'.
Proof using.
  induction 1 as [rp He|rp rr next l Hin Hm Hs Hl IH|rp next l Hin Hm Hs Hl IH]; intros l' Hl';
    inversion Hl' as [|? rr' next' ? ? Hm' Hs'|? next' ? ? Hm' Hs']; subst; try lia; try done; rewrite Hm in Hm'; simplify_eq;
    rewrite Hs in Hs'; simplify_eq; [f_equal|]; by apply IH.
Qed.

(** A record is where it was found. *)
Lemma rr_at_dn rp rr : 0 <= rp → rr_at junk i P rp = Returns (Some rr) →
  dn_p rr = rp ∧ ∃ rr0 s, dns_rr_parse 0 rp P = Returns (Some rr0) ∧ dns_rr_section rp P = Returns s ∧ rr = rr_set_section s rr0.
Proof using HP.
  intros Hrp. unfold rr_at. destruct (rr_parse_cases P HP 0 rp Hrp) as (q & _ & [->|(rr0 & next & -> & Hw & _)]); in_run; [done|].
  destruct (rr_section_returns P HP rp Hrp) as (s & -> & _). in_run.
  destruct (dns_rr_i_match _ _ _ _) as [| |[]]; in_run; intros [= <-]. split; [by destruct Hw|]. by exists rr0, s.
Qed.

(** The loop of the code finds the first of them. *)
Lemma search_finds ok rp l : records rp l → 0 <= rp →
  (∀ rr, rp <= dn_p rr → ok rr = Returns true) → ∀ fuel, (Z.to_nat (p_end P) - Z.to_nat rp < fuel)%nat →
  match l with
  | [] => rr_search junk fuel i P ok rp = Returns None
  | rr :: l' =>
    ∃ at_ next, rr_search junk fuel i P ok rp = Returns (Some (rr, at_)) ∧ rp <= at_ < p_end P ∧ dn_p rr = at_ ∧
      rr_at junk i P at_ = Returns (Some rr) ∧ dns_rr_skip at_ P = Returns next ∧ records next l'
  end.
Proof using HP.
  induction 1 as [rp He|rp rr next l Hin Hm Hs Hl IH|rp next l Hin Hm Hs Hl IH]; intros Hrp Hok fuel Hf;
    (destruct fuel as [|fuel]; [lia|]); cbn [rr_search].
  - by leb_yes.
  - leb_no. rewrite Hm. in_run. destruct (rr_at_dn rp rr Hrp Hm) as [Hdn _]. rewrite Hok by lia. in_run.
    exists rp, next. split; [done|]. split; [lia|]. done.
  - leb_no. rewrite Hm. in_run. rewrite Hs. in_run. destruct (rr_skip_range P HP rp Hrp) as (r & Hr & _ & Hle).
    rewrite Hs in Hr. simplify_eq. specialize (Hle Hin). specialize (IH ltac:(lia) ltac:(intros; apply Hok; lia) fuel ltac:(lia)).
    destruct l as [|rr l]; [done|]. destruct IH as (at_ & next' & ? & ? & ?). exists at_, next'. split; [done|]. split; [lia|done].
Qed.

Lemma search_ends ok fuel rp : p_end P <= rp → rr_search junk fuel i P ok rp = Returns None.
Proof using. intros He. destruct fuel; cbn [rr_search]; by leb_yes. Qed.

End Walk.

Lemma records_i_at junk i n c x P rp l : records junk i P rp l → records junk (i_at n c x i) P rp l.
Proof.
  induction 1 as [rp He|rp rr next l Hin Hm Hs Hl IH|rp next l Hin Hm Hs Hl IH];
    [by apply records_end|by eapply records_found|by eapply records_other].
Qed.

(** ** Matching returns *)

(** Without data to compare, and with names that end. *)
Definition plain_search (i : dns_rr_i) (P : dns_packet) : Prop :=
  i_sort i = None ∧ i_data i = None ∧ (i_name i = None ∨ ∀ src, 0 <= src → ¬ loops_from (p_data P) (p_end P) src).

Lemma rr_host_returns rr P : packet_ok P → 0 <= dn_p rr → ¬ loops_from (p_data P) (p_end P) (dn_p rr) → ∃ h, rr_host rr P = Returns h.
Proof.
  intros HP Hs Hno. unfold rr_host, dns_d_expand.
  pose proof (expand_outcomes _ _ HP (Z.to_nat (p_end P)) DNS_D_MAXPTRS (dn_p rr) (replicate (Z.to_nat (DNS_D_MAXNAME + 1)) 0) 0 Hs ltac:(lia)) as Ho.
  destruct (expand_labels _ _ _ _ _ _ _) as [| |[n d]] eqn:Hx; [done| |by eexists].
  exfalso. apply Hno. by eapply expand_forever_loops.
Qed.

Lemma match_returns junk i P rr : packet_ok P → plain_search i P → 0 <= dn_p rr → ∃ b, dns_rr_i_match junk rr i P = Returns b.
Proof.
  intros HP (_ & Hdata & Hname) Hs. unfold dns_rr_i_match. rewrite Hdata.
  repeat match goal with |- context [if ?c then Returns false else _] =>
    lazymatch c with context [i_name] => fail | _ => destruct c; [by eexists|] end end.
  destruct (i_name i) as [name|]; in_run; [|by eexists]. destruct Hname as [?|Hno]; [done|].
  destruct (rr_host_returns rr P HP Hs (Hno _ Hs)) as [h ->]. in_run. destruct (match h with None => _ | Some dn => _ end); by eexists.
Qed.

Lemma rr_at_returns junk i P rp : header_ok P → plain_search i P → 0 <= rp → ∃ m, rr_at junk i P rp = Returns m.
Proof.
  intros HP Hi Hrp. unfold rr_at. destruct (rr_parse_cases P HP 0 rp Hrp) as (q & _ & [->|(rr & next & -> & (Hdn & _) & _)]); in_run; [by eexists|].
  destruct (rr_section_returns P HP rp Hrp) as (s & -> & _). in_run.
  destruct (match_returns junk i P (rr_set_section s rr) (proj1 HP) Hi) as [b ->]; [cbn; lia|]. by eexists.
Qed.

(** ** The iterator *)

Section Grep.
Context (junk : Z) (P : dns_packet) (HP : header_ok P).

(** An iterator is at the first of the records that are left. *)
Definition at_records (i : dns_rr_i) (l : list dns_rr) : Prop :=
  match l with
  | [] => p_end P <= i_next i
  | rr :: l' =>
    0 <= i_next i < p_end P ∧ rr_at junk i P (i_next i) = Returns (Some rr) ∧
    ∃ next, dns_rr_skip (i_next i) P = Returns next ∧ records junk i P next l'
  end.

Lemma start_at_records i l : i_sort i = None → 0 <= i_base i P → records junk i P (i_base i P) l →
  ∃ next, dns_rr_i_start junk i P = Returns next ∧ ∀ c x, at_records (i_at next c x i) l.
Proof using HP.
  intros Hsort Hb Hl. pose proof (proj1 HP) as (_ & He & H16). unfold dns_rr_i_start.
  pose proof (search_finds junk i P HP (λ _, Returns true) _ _ Hl Hb ltac:(done) (packet_fuel P)) as Hf.
  specialize (Hf ltac:(unfold packet_fuel; lia)). destruct l as [|rr l].
  - rewrite Hf. in_run. rewrite u16_id by lia. eexists. split; [done|]. intros. cbn. lia.
  - destruct Hf as (at_ & next & -> & Hat & Hdn & Hm & Hs & Hrest). in_run. rewrite Hsort, Hdn. eexists. split; [done|].
    intros c x. split; [cbn; lia|]. split; [exact Hm|]. exists next. split; [exact Hs|]. by apply records_i_at.
Qed.

Lemma skip_at_records i rr l : i_sort i = None → at_records i (rr :: l) →
  ∃ next, dns_rr_i_skip junk (i_next i) i P = Returns next ∧ ∀ c x, at_records (i_at next c x i) l.
Proof using HP.
  intros Hsort (Hn & Hm & next & Hs & Hl). pose proof (proj1 HP) as (_ & He & H16). unfold dns_rr_i_skip.
  destruct (rr_at_dn junk i P HP (i_next i) rr (proj1 Hn) Hm) as (Hdn & rr0 & s & -> & -> & ->). in_run. rewrite Hsort, Hs. in_run.
  destruct (rr_skip_range P HP (i_next i) (proj1 Hn)) as (r & Hr & _ & Hle). rewrite Hs in Hr. simplify_eq. specialize (Hle (proj2 Hn)).
  set (after := λ rr : dns_rr, _).
  pose proof (search_finds junk i P HP after _ _ Hl) as Hf.
  specialize (Hf ltac:(lia)). specialize (Hf ltac:(intros x Hx; unfold after, i_compare; rewrite Hsort; in_run; unfold dns_rr_i_packet; f_equal; apply Z.ltb_lt; lia)).
  specialize (Hf (packet_fuel P) ltac:(unfold packet_fuel; lia)). destruct l as [|rr1 l].
  - rewrite Hf. in_run. rewrite u16_id by lia. eexists. split; [done|]. intros. cbn. lia.
  - destruct Hf as (at_ & next & -> & Hat & Hdn1 & Hm1 & Hs1 & Hrest). in_run. rewrite Hdn1. eexists. split; [done|].
    intros c x. split; [cbn; lia|]. split; [exact Hm1|]. exists next. split; [exact Hs1|]. by apply records_i_at.
Qed.

Lemma grep_loop_takes lim : ∀ i l, i_sort i = None → at_records i l →
  ∃ n c, grep_loop junk lim i P = Returns (take lim l, i_at n c (i_exec i) i, None) ∧ at_records (i_at n c (i_exec i) i) (drop lim l).
Proof using HP.
  induction lim as [|lim IH]; intros i l Hsort Hl; cbn [grep_loop].
  - exists (i_next i), (i_count i). destruct i; cbn in *. by rewrite drop_0.
  - destruct l as [|rr l].
    + cbn in Hl. exists (i_next i), (i_count i). ltb_no. destruct i; by cbn in *.
    + destruct (skip_at_records i rr l Hsort Hl) as (next & Hskip & Hnext). destruct Hl as (Hn & Hm & _). ltb_yes.
      destruct (rr_at_dn junk i P HP (i_next i) rr (proj1 Hn) Hm) as (_ & rr0 & s & -> & -> & ->). in_run. rewrite Hskip. in_run.
      destruct (IH (i_at next (u16 (i_count i + 1)) (i_exec i) i) l) as (n & c & -> & Hrest); [done|apply Hnext|]. in_run.
      exists n, c. split; [done|]. exact Hrest.
Qed.

(** ** All of them *)

Lemma records_few i rp l : records junk i P rp l → 0 <= rp → (length l <= Z.to_nat (p_end P) - Z.to_nat rp)%nat.
Proof using HP.
  induction 1 as [rp He|rp rr next l Hin Hm Hs Hl IH|rp next l Hin Hm Hs Hl IH]; intros Hrp; [simpl; lia| |];
    destruct (rr_skip_range P HP rp Hrp) as (r & Hr & _ & Hle); rewrite Hs in Hr; simplify_eq; specialize (Hle Hin);
    specialize (IH ltac:(lia)); simpl; lia.
Qed.

Lemma foreach_collects fuel : ∀ i l acc, i_sort i = None → i_exec i = 1 → at_records i l → (length l < fuel)%nat →
  dns_rr_foreach junk fuel i P (λ rr acc, Returns (true, acc ++ [rr])) acc = Returns (acc ++ l).
Proof using HP.
  induction fuel as [|fuel IH]; intros i l acc Hsort Hx Hl Hf; [lia|]. cbn [dns_rr_foreach]. unfold dns_rr_grep. rewrite Hx.
  cbn [Z.eqb Pos.eqb]. destruct (grep_loop_takes 1 i l Hsort Hl) as (n & c & -> & Hrest). in_run.
  destruct l as [|rr l]; cbn [take]; [by rewrite app_nil_r|]. in_run. rewrite (IH _ l); [by rewrite <-app_assoc|done|done| |simpl in Hf; lia].
  cbn [drop] in Hrest. by rewrite drop_0 in Hrest.
Qed.

End Grep.

(** * Every record is met once, in order *)

(** [dns_rr_grep], for records in the order of the packet, that are
    searched by section, type, class or name, gives on any packet of names that
    end exactly the records searched for from where the search starts, each
    once, in order, and as many at a time as the caller asks for; no record of
    the packet makes it fail.  Going through all of them with
    [dns_rr_foreach] ends. *)
Theorem dns_rr_grep_meets_all junk i P :
  header_ok P → plain_search i P → i_exec i = 0 → 0 <= i_base i P →
  ∃ l, records junk i P (i_base i P) l ∧ (∀ l', records junk i P (i_base i P) l' → l' = l) ∧
    (∀ lim lim', ∃ i' i'', dns_rr_grep junk lim i P = Returns (take lim l, i', None) ∧
       dns_rr_grep junk lim' i' P = Returns (take lim' (drop lim l), i'', None)) ∧
    dns_rr_foreach junk (S (packet_fuel P)) i P (λ rr acc, Returns (true, acc ++ [rr])) [] = Returns l.
Proof.
  intros HP Hi Hx Hb. pose proof Hi as (Hsort & _).
  destruct (records_exist junk i P HP (λ rp, rr_at_returns junk i P rp HP Hi) (Z.to_nat (p_end P)) (i_base i P) Hb) as [l Hl]; [lia|].
  exists l. split; [done|]. split; [intros l' Hl'; by eapply records_functional|].
  destruct (start_at_records junk P HP i l Hsort Hb Hl) as (next & Hstart & Hat). split.
  - intros lim lim'. unfold dns_rr_grep at 1. rewrite Hx, Z.eqb_refl, Hstart. in_run.
    destruct (grep_loop_takes junk P HP lim (i_at next (i_count i) 1 i) l Hsort (Hat _ _)) as (n & c & -> & Hrest).
    destruct (grep_loop_takes junk P HP lim' (i_at n c 1 (i_at next (i_count i) 1 i)) (drop lim l) Hsort Hrest) as (n' & c' & Hg & _).
    eexists _, _. split; [done|]. unfold dns_rr_grep. cbn [i_exec i_at Z.eqb Pos.eqb]. exact Hg.
  - cbn [dns_rr_foreach]. unfold dns_rr_grep. rewrite Hx, Z.eqb_refl, Hstart. in_run.
    destruct (grep_loop_takes junk P HP 1 (i_at next (i_count i) 1 i) l Hsort (Hat _ _)) as (n & c & -> & Hrest). in_run.
    destruct l as [|rr l]; cbn [take]; [done|]. in_run. cbn [drop] in Hrest. rewrite drop_0 in Hrest.
    pose proof (records_few junk P HP i _ _ Hl Hb) as Hfew. simpl in Hfew.
    by rewrite (foreach_collects junk P HP _ _ l) by (done || unfold packet_fuel; lia).
Qed.

Lemma dns_rr_grep_meets_all_witness :
  let i := dns_rr_i_init DNS_S_AN DNS_T_A in
  header_ok answer_packet ∧ plain_search i answer_packet ∧
  ∃ l, records 0 i answer_packet 12 l ∧
    dns_rr_foreach 0 (S (packet_fuel answer_packet)) i answer_packet (λ rr acc, Returns (true, acc ++ [rr])) [] = Returns l ∧
    l = [mk_rr DNS_S_AN 19 2 1 1 0x7fffffff 31 4].
Proof.
  intros i. assert (header_ok answer_packet) as HP by by vm_compute; repeat constructor.
  assert (plain_search i answer_packet) as Hi by by split; [|split; [|left]].
  split; [done|]. split; [done|].
  destruct (dns_rr_grep_meets_all 0 i answer_packet HP Hi) as (l & Hl & _ & _ & Hall); [done|done|]. exists l.
  split; [exact Hl|]. split; [exact Hall|]. vm_compute in Hall. by simplify_eq.
Defined.
