(* ===== verification/DnsOrder.v ===== *)
(** Iterators with an order of their own: each record that is searched for is
    met once, the least first; in particular when records are shuffled. *)

From S2P Require Import Prelude DnsPacket DnsName DnsExpand DnsRR DnsBuf DnsData DnsPermutor DnsGrep DnsWalk.
From stdpp Require Import sorting.

Open Scope Z_scope.

Section Sorted.
Context (junk : Z) (i : dns_rr_i) (P : dns_packet) (HP : header_ok P).

Abbreviation records := (records junk i P).
Abbreviation rr_at := (rr_at junk i P).

(** A record of the list is where it says. *)
Lemma records_at rp l rr : records rp l → 0 <= rp → rr ∈ l → rp <= dn_p rr < p_end P ∧ rr_at (dn_p rr) = Returns (Some rr).
Proof using HP.
  induction 1 as [rp He|rp rr0 next l Hin Hm Hs Hl IH|rp next l Hin Hm Hs Hl IH]; intros Hrp Hrr; [by apply elem_of_nil in Hrr| |].
  - destruct (rr_skip_range P HP rp Hrp) as (r & Hr & _ & Hle). rewrite Hs in Hr. simplify_eq. specialize (Hle Hin).
    apply elem_of_cons in Hrr as [->|Hrr].
    + destruct (rr_at_dn junk i P HP rp rr0 Hrp Hm) as [-> _]. split; [lia|done].
    + destruct IH as [? ?]; [lia|done|]. split; [lia|done].
  - destruct (rr_skip_range P HP rp Hrp) as (r & Hr & _ & Hle). rewrite Hs in Hr. simplify_eq. specialize (Hle Hin).
    destruct IH as [? ?]; [lia|done|]. split; [lia|done].
Qed.

Lemma records_increase rp l : records rp l → 0 <= rp → StronglySorted (λ a b, dn_p a < dn_p b) l.
Proof using HP.
  induction 1 as [rp He|rp rr0 next l Hin Hm Hs Hl IH|rp next l Hin Hm Hs Hl IH]; intros Hrp; [constructor| |];
    (destruct (rr_skip_range P HP rp Hrp) as (r & Hr & _ & Hle); rewrite Hs in Hr; simplify_eq; specialize (Hle Hin)); [|apply IH; lia].
  constructor; [apply IH; lia|]. apply Forall_forall. intros rr Hrr.
  destruct (rr_at_dn junk i P HP rp rr0 Hrp Hm) as [-> _]. destruct (records_at _ _ _ Hl ltac:(lia) Hrr) as [? _]. lia.
Qed.

(** The loops, with what they decide. *)
Lemma search_first ok g rp l : records rp l → 0 <= rp → (∀ rr, rr ∈ l → ok rr = Returns (g rr)) →
  ∀ fuel, (Z.to_nat (p_end P) - Z.to_nat rp < fuel)%nat →
  (Forall (λ rr, g rr = false) l ∧ rr_search junk fuel i P ok rp = Returns None) ∨
  ∃ l1 rr l2 next, l = l1 ++ rr :: l2 ∧ Forall (λ rr, g rr = false) l1 ∧ g rr = true ∧
    rr_search junk fuel i P ok rp = Returns (Some (rr, dn_p rr)) ∧ rp <= dn_p rr < p_end P ∧
    dns_rr_skip (dn_p rr) P = Returns next ∧ records next l2.
Proof using HP.
  induction 1 as [rp He|rp rr next l Hin Hm Hs Hl IH|rp next l Hin Hm Hs Hl IH]; intros Hrp Hok fuel Hf; (destruct fuel as [|fuel]; [lia|]); cbn [rr_search].
  - left. split; [done|]. by rewrite (proj2 (Z.leb_le _ _)).
  - destruct (rr_at_dn junk i P HP rp rr Hrp Hm) as [Hdn _]. destruct (rr_skip_range P HP rp Hrp) as (r & Hr & _ & Hle). rewrite Hs in Hr. simplify_eq.
    specialize (Hle Hin). rewrite (proj2 (Z.leb_gt _ _)), Hm by done. in_run. rewrite Hok by left. in_run. destruct (g rr) eqn:Hg.
    + right. exists [], rr, l, r. split; [done|]. split; [done|]. split; [done|]. split; [done|]. split; [lia|done].
    + rewrite Hs. in_run. destruct (IH ltac:(lia) ltac:(intros; apply Hok; by right) fuel ltac:(lia)) as [[Hnone ->]|(l1 & rr' & l2 & next & -> & Hl1 & Hg' & -> & Hr & Hrest)].
      * left. split; [by apply Forall_cons|done].
      * right. exists (rr :: l1), rr', l2, next. split; [done|]. split; [by apply Forall_cons|]. split; [done|]. split; [done|]. split; [lia|done].
  - destruct (rr_skip_range P HP rp Hrp) as (r & Hr & _ & Hle). rewrite Hs in Hr. simplify_eq. specialize (Hle Hin).
    rewrite (proj2 (Z.leb_gt _ _)), Hm by done. in_run. rewrite Hs. in_run.
    destruct (IH ltac:(lia) Hok fuel ltac:(lia)) as [?|(l1 & rr' & l2 & next & -> & Hl1 & Hg' & -> & Hr & Hrest)]; [by left|].
    right. exists l1, rr', l2, next. do 4 (split; [done|]). split; [lia|done].
Qed.

Lemma least_folds ok f (good : dns_rr → Prop) next l : records next l → 0 <= next → Forall good l →
  (∀ rr best, good rr → good best → ok rr best = Returns (f rr best)) →
  ∀ fuel rp best, good best → dns_rr_skip rp P = Returns next → (Z.to_nat (p_end P) - Z.to_nat next < fuel)%nat →
  rr_least junk fuel i P ok rp best = Returns (fold_left (λ best rr, if f rr best : bool then rr else best) l best).
Proof using HP.
  induction 1 as [rp He|rp rr next l Hin Hm Hs Hl IH|rp next l Hin Hm Hs Hl IH]; intros Hrp Hgood Hok fuel at_ best Hbest Hat Hf; (destruct fuel as [|fuel]; [lia|]);
    cbn [rr_least]; rewrite Hat; in_run.
  - by rewrite (proj2 (Z.leb_le _ _)).
  - destruct (rr_skip_range P HP rp Hrp) as (r & Hr & _ & Hle). rewrite Hs in Hr. simplify_eq. specialize (Hle Hin).
    apply Forall_cons in Hgood as [Hrr Hgood]. rewrite (proj2 (Z.leb_gt _ _)), Hm by done. in_run. rewrite Hok by done. in_run. cbn [fold_left].
    apply IH; [lia|done|done|by destruct (f rr best)|done|lia].
  - destruct (rr_skip_range P HP rp Hrp) as (r & Hr & _ & Hle). rewrite Hs in Hr. simplify_eq. specialize (Hle Hin).
    rewrite (proj2 (Z.leb_gt _ _)), Hm by done. in_run. by apply IH; [lia|..|lia].
Qed.

End Sorted.

(** ** The least *)

(** The least of [best] and those of a list that pass a test. *)
Lemma fold_least (key : dns_rr → Z) (g : dns_rr → bool) l : ∀ best,
  let m := fold_left (λ best rr, if g rr && (key rr <? key best) then rr else best) l best in
  (m = best ∨ (m ∈ l ∧ g m = true)) ∧ key m <= key best ∧ ∀ rr, rr ∈ l → g rr = true → key m <= key rr.
Proof.
  induction l as [|rr l IH]; intros best; cbn; [split; [by left|]; split; [lia|]; intros rr Hrr; by apply elem_of_nil in Hrr|].
  destruct (IH (if g rr && (key rr <? key best) then rr else best)) as (H1 & H2 & H3).
  destruct (g rr && (key rr <? key best)) eqn:E; cbn in *.
  - apply andb_true_iff in E as [Hg Hlt%Z.ltb_lt]. split; [right; destruct H1 as [->|[? ?]]; split; [by left|done|by right|done]|].
    split; [lia|]. intros x Hx Hgx. apply elem_of_cons in Hx as [->|Hx]; [done|by apply H3].
  - split; [destruct H1 as [?|[? ?]]; [by left|right; split; [by right|done]]|]. split; [done|].
    intros x Hx Hgx. apply elem_of_cons in Hx as [->|Hx]; [|by apply H3]. rewrite Hgx in E. apply Z.ltb_ge in E. lia.
Qed.

(** ** The iterator *)

(** The same search in the order of the packet. *)
Definition unsorted (i : dns_rr_i) : dns_rr_i :=
  mk_rr_i (i_section i) (i_name i) (i_type i) (i_class i) (i_data i) None (i_next i) (i_count i) (i_exec i).

Section Iterator.
Context (junk : Z) (P : dns_packet) (HP : header_ok P).
Context (c : dns_rr → dns_rr → Z) (key : dns_rr → Z).

(** Comparing is comparing keys. *)
Definition compares (l : list dns_rr) : Prop :=
  ∀ a b, a ∈ l → b ∈ l → (c a b < 0 ↔ key a < key b) ∧ (0 < c a b ↔ key b < key a).

Abbreviation sorted := (StronglySorted (λ a b, key a < key b)).
Abbreviation sorting i := (i_sort i = Some (λ a b _, Returns (c a b))).

(** An iterator is at the least of the records that are left. *)
Definition at_sorted (i : dns_rr_i) (ls : list dns_rr) : Prop :=
  match ls with
  | [] => p_end P <= i_next i
  | rr :: _ => 0 <= i_next i < p_end P ∧ i_next i = dn_p rr ∧ rr_at junk i P (dn_p rr) = Returns (Some rr)
  end.

Lemma at_sorted_i_at i ls n c' x : match ls with [] => p_end P <= n | rr :: _ => 0 <= n < p_end P ∧ n = dn_p rr ∧ rr_at junk i P (dn_p rr) = Returns (Some rr) end →
  at_sorted (i_at n c' x i) ls.
Proof using. by destruct ls. Qed.

Lemma sorted_head_least (ls : list dns_rr) (h m : dns_rr) : sorted (h :: ls) → m ∈ h :: ls → key m <= key h → m = h.
Proof using.
  intros Hs Hm Hle. apply elem_of_cons in Hm as [->|Hm]; [done|]. apply StronglySorted_inv in Hs as [_ Hf].
  rewrite Forall_forall in Hf. specialize (Hf m Hm). cbn in Hf. lia.
Qed.

Lemma sorted_app_inv (l1 l2 : list dns_rr) : sorted (l1 ++ l2) → sorted l2 ∧ ∀ a b, a ∈ l1 → b ∈ l2 → key a < key b.
Proof using.
  induction l1 as [|x l1 IH]; intros Hs; [split; [done|]; intros a b Ha; by apply elem_of_nil in Ha|].
  apply StronglySorted_inv in Hs as [Hs Hf]. destruct (IH Hs) as [H2 Hlt]. split; [done|]. rewrite Forall_forall in Hf.
  intros a b Ha Hb. apply elem_of_cons in Ha as [->|Ha]; [|by apply Hlt]. apply (Hf b). apply elem_of_app. by right.
Qed.

Lemma less_key l a b : compares l → a ∈ l → b ∈ l → (c a b <? 0) = (key a <? key b).
Proof using. intros Hc Ha Hb. destruct (Hc a b Ha Hb) as [H _]. apply eq_bool_prop_intro. rewrite !Is_true_true, !Z.ltb_lt. exact H. Qed.

Lemma greater_key l a b : compares l → a ∈ l → b ∈ l → (0 <? c a b) = (key b <? key a).
Proof using. intros Hc Ha Hb. destruct (Hc a b Ha Hb) as [_ H]. apply eq_bool_prop_intro. rewrite !Is_true_true, !Z.ltb_lt. exact H. Qed.

Section Steps.
Context (i : dns_rr_i) (Hsort : sorting i) (l : list dns_rr).
Context (Hl12 : records junk i P 12 l) (Hcmp : compares l).

Lemma start_sorted ls : 0 <= i_base i P → records junk i P (i_base i P) l → ls ≡ₚ l → sorted ls →
  ∃ next, dns_rr_i_start junk i P = Returns next ∧ ∀ n x, at_sorted (i_at next n x i) ls.
Proof using All.
  intros Hb Hl Hperm Hs. pose proof (proj1 HP) as (_ & He & H16). unfold dns_rr_i_start.
  destruct (search_first junk i P HP (λ _, Returns true) (λ _, true) _ _ Hl Hb ltac:(done) (packet_fuel P)) as
    [[Hnone ->]|(l1 & r0 & l2 & next & El & Hl1 & _ & -> & Hr & Hsk & Hl2)]; [unfold packet_fuel; lia| |]; in_run.
  - destruct l as [|x l']; [|by apply Forall_cons in Hnone as [? _]]. symmetry in Hperm. apply Permutation_nil in Hperm as ->.
    rewrite u16_id by lia. eexists. split; [done|]. intros. cbn. lia.
  - destruct l1; [|by apply Forall_cons in Hl1 as [? _]]. cbn [app] in El. rewrite Hsort.
    destruct (rr_skip_range P HP (dn_p r0) ltac:(lia)) as (r & Hr' & _ & Hle). rewrite Hsk in Hr'. injection Hr' as <-. specialize (Hle ltac:(lia)).
    rewrite (least_folds junk i P HP _ (λ rr best, true && (key rr <? key best)) (.∈ l) _ _ Hl2 ltac:(lia)); [|..|exact Hsk|unfold packet_fuel; lia].
    2: { rewrite El. apply Forall_forall. intros rr Hrr. by right. }
    2: { intros rr best Hrr Hbest. unfold i_compare. rewrite Hsort. in_run. f_equal. by apply (less_key l). }
    2: { rewrite El. by left. }
    in_run. destruct (fold_least key (λ _, true) l2 r0) as (Hin & Hle0 & Hleast). set (m := fold_left _ _ _) in *.
    assert (m ∈ l) as Hm by (rewrite El; destruct Hin as [->|[? _]]; [by left|by right]).
    destruct ls as [|h ls]; [exfalso; apply (not_elem_of_nil m); by rewrite Hperm|].
    assert (h ∈ l) as Hh by (rewrite <-Hperm; by left). assert (m = h) as ->.
    { apply (sorted_head_least ls); [done|by rewrite Hperm|]. rewrite El in Hh. apply elem_of_cons in Hh as [->|Hh]; [done|by apply Hleast]. }
    destruct (records_at junk i P HP _ _ _ Hl Hb Hh) as [Hdn Hat]. eexists. split; [done|]. intros n x.
    apply at_sorted_i_at. split; [lia|done].
Qed.

(** The next is the least of those that are greater. *)
Lemma skip_sorted pre r0 ls : pre ++ r0 :: ls ≡ₚ l → sorted (pre ++ r0 :: ls) → at_sorted i (r0 :: ls) →
  ∃ next, dns_rr_i_skip junk (i_next i) i P = Returns next ∧ ∀ n x, at_sorted (i_at next n x i) ls.
Proof using All.
  intros Hperm Hs (Hn & Hdn & Hat). pose proof (proj1 HP) as (_ & He & H16). rewrite Hdn in Hn |- *.
  destruct (sorted_app_inv _ _ Hs) as [Hs0 Hpre].
  assert (∀ x, x ∈ l ↔ x ∈ pre ∨ x = r0 ∨ x ∈ ls) as Hin by (intros x; by rewrite <-Hperm, elem_of_app, elem_of_cons).
  assert (r0 ∈ l) as Hr0 by (apply Hin; naive_solver).
  assert (∀ x, x ∈ l → key r0 < key x ↔ x ∈ ls) as Hafter.
  { intros x Hx. apply StronglySorted_inv in Hs0 as [_ Hf]. rewrite Forall_forall in Hf. split; [|apply Hf]. intros Hlt.
    apply Hin in Hx as [Hx|[->|Hx]]; [specialize (Hpre x r0 Hx ltac:(by left)); lia|lia|done]. }
  unfold dns_rr_i_skip. destruct (rr_at_dn junk i P HP (dn_p r0) r0 (proj1 Hn) Hat) as (_ & rr0 & s & -> & -> & E). in_run. rewrite <-E. rewrite Hsort. in_run.
  set (after := λ rr : dns_rr, cmp ← i_compare i rr r0 P; Returns (0 <? cmp)).
  assert (∀ rr, rr ∈ l → after rr = Returns (key r0 <? key rr)) as Hok.
  { intros rr Hrr. unfold after, i_compare. rewrite Hsort. in_run. f_equal. by apply (greater_key l). }
  destruct (search_first junk i P HP after (λ rr, key r0 <? key rr) _ _ Hl12 ltac:(lia) Hok (packet_fuel P)) as
    [[Hnone ->]|(l1 & r1 & l2 & next & El & Hl1 & Hg & -> & Hr & Hsk & Hl2)]; [unfold packet_fuel; lia| |]; in_run.
  - rewrite u16_id by lia. destruct ls as [|h ls]; [eexists; split; [done|]; intros; cbn; lia|].
    rewrite Forall_forall in Hnone. assert (h ∈ l) as Hh by (apply Hin; right; right; by left).
    specialize (Hnone h Hh). apply Z.ltb_ge in Hnone.
    pose proof (proj2 (Hafter h Hh) ltac:(by left)). lia.
  - destruct (rr_skip_range P HP (dn_p r1) ltac:(lia)) as (r & Hr' & _ & Hle). rewrite Hsk in Hr'. injection Hr' as <-. specialize (Hle ltac:(lia)).
    assert (r1 ∈ l ∧ Forall (.∈ l) l2) as [Hr1 Hgood2].
    { rewrite El. split; [apply elem_of_app; right; by left|]. apply Forall_forall. intros x Hx. apply elem_of_app. right. by right. }
    rewrite (least_folds junk i P HP _ (λ rr best, (key r0 <? key rr) && (key rr <? key best)) (.∈ l) _ _ Hl2 ltac:(lia)); [|done| |done|exact Hsk|unfold packet_fuel; lia].
    2: { intros rr best Hrr Hbest. pose proof (Hok rr Hrr) as Hrr'. unfold after in Hrr'. rewrite Hrr'. in_run. destruct (key r0 <? key rr); [|done]. unfold i_compare. rewrite Hsort. in_run.
         f_equal. by apply (less_key l). }
    in_run. destruct (fold_least key (λ rr, key r0 <? key rr) l2 r1) as (Hmin & Hle0 & Hleast). set (m := fold_left _ _ _) in *.
    assert (m ∈ l ∧ key r0 < key m) as [Hm Hgm].
    { apply Z.ltb_lt in Hg. destruct Hmin as [->|[Hm Hgm]]; [done|]. rewrite Forall_forall in Hgood2. split; [by apply Hgood2|by apply Z.ltb_lt]. }
    apply Hafter in Hgm; [|done]. destruct ls as [|h ls]; [by apply elem_of_nil in Hgm|].
    assert (h ∈ l) as Hh by (apply Hin; right; right; by left). apply StronglySorted_inv in Hs0 as [Hs0 _].
    assert (key r0 < key h) as Hgh by (apply Hafter; [done|by left]).
    assert (m = h) as ->.
    { apply (sorted_head_least ls); [done|done|]. rewrite El in Hh. apply elem_of_app in Hh as [Hh|Hh].
      - rewrite Forall_forall in Hl1. specialize (Hl1 h Hh). apply Z.ltb_ge in Hl1. lia.
      - apply elem_of_cons in Hh as [->|Hh]; [done|]. apply Hleast; [done|by apply Z.ltb_lt]. }
    destruct (records_at junk i P HP _ _ _ Hl12 ltac:(lia) Hh) as [Hdnh Hath]. eexists. split; [done|]. intros n x.
    apply at_sorted_i_at. split; [lia|done].
Qed.

End Steps.

Lemma grep_loop_sorted l lim : ∀ i pre ls, sorting i → records junk i P 12 l → compares l → pre ++ ls ≡ₚ l → sorted (pre ++ ls) → at_sorted i ls →
  ∃ n c', grep_loop junk lim i P = Returns (take lim ls, i_at n c' (i_exec i) i, None) ∧ at_sorted (i_at n c' (i_exec i) i) (drop lim ls).
Proof using HP.
  induction lim as [|lim IH]; intros i pre ls Hsort Hl Hcmp Hperm Hs Hls; cbn [grep_loop].
  - exists (i_next i), (i_count i). destruct i; cbn in *. by rewrite drop_0.
  - destruct ls as [|rr ls].
    + cbn in Hls. exists (i_next i), (i_count i). rewrite (proj2 (Z.ltb_ge _ _)) by done. destruct i; by cbn in *.
    + destruct (skip_sorted i Hsort l Hl Hcmp pre rr ls Hperm Hs Hls) as (next & Hskip & Hnext). destruct Hls as (Hn & Hdn & Hm).
      rewrite (proj2 (Z.ltb_lt _ _)) by lia. rewrite <-Hdn in Hm.
      destruct (rr_at_dn junk i P HP (i_next i) rr (proj1 Hn) Hm) as (_ & rr0 & s & -> & -> & ->). in_run. rewrite Hskip. in_run.
      destruct (IH (i_at next (u16 (i_count i + 1)) (i_exec i) i) (pre ++ [rr_set_section s rr0]) ls) as (n & c' & -> & Hrest);
        [done|by apply records_i_at|done|by rewrite <-app_assoc|by rewrite <-app_assoc|apply Hnext|]. in_run.
      exists n, c'. split; [done|]. exact Hrest.
Qed.

Lemma foreach_sorted l fuel : ∀ i pre ls acc, sorting i → i_exec i = 1 → records junk i P 12 l → compares l → pre ++ ls ≡ₚ l → sorted (pre ++ ls) →
  at_sorted i ls → (length ls < fuel)%nat →
  dns_rr_foreach junk fuel i P (λ rr acc, Returns (true, acc ++ [rr])) acc = Returns (acc ++ ls).
Proof using HP.
  induction fuel as [|fuel IH]; intros i pre ls acc Hsort Hx Hl Hcmp Hperm Hs Hls Hf; [lia|]. cbn [dns_rr_foreach]. unfold dns_rr_grep. rewrite Hx.
  cbn [Z.eqb Pos.eqb]. destruct (grep_loop_sorted l 1 i pre ls Hsort Hl Hcmp Hperm Hs Hls) as (n & c' & -> & Hrest). in_run.
  destruct ls as [|rr ls]; cbn [take]; [by rewrite app_nil_r|]. in_run. cbn [drop] in Hrest. rewrite drop_0 in Hrest.
  rewrite (IH _ (pre ++ [rr]) ls); [by rewrite <-app_assoc|done|done|by apply records_i_at|done|by rewrite <-app_assoc|by rewrite <-app_assoc|done|simpl in Hf; lia].
Qed.

End Iterator.

(** ** Sorting *)

Lemma sorted_exists (key : dns_rr → Z) l : NoDup (map key l) → ∃ ls, ls ≡ₚ l ∧ StronglySorted (λ a b, key a < key b) ls.
Proof.
  intros Hnd. set (le := λ a b, key a <= key b). assert (RelDecision le) as Hdec by (intros a b; unfold le; apply _).
  assert (Transitive le) as Htr by (intros a b d; unfold le; lia). assert (Total le) as Htot by (intros a b; unfold le; lia).
  exists (merge_sort le l). pose proof (merge_sort_Permutation le l) as Hp. split; [exact Hp|].
  pose proof (StronglySorted_merge_sort le l) as Hs.
  assert (NoDup (map key (merge_sort le l))) as Hnd' by (eapply NoDup_Permutation_proper; [by apply Permutation_map|done]). clear Hp Hnd.
  revert Hnd'. induction Hs as [|a ls Hls IH Hf]; intros Hnd; [constructor|]. cbn in Hnd. apply NoDup_cons in Hnd as [Hna Hnd].
  constructor; [by apply IH|]. rewrite Forall_forall in Hf |- *. intros b Hb. specialize (Hf b Hb). unfold le in Hf.
  destruct (Z.eq_dec (key a) (key b)) as [He|]; [|lia]. exfalso. apply Hna. rewrite He. by apply list_elem_of_In, in_map, list_elem_of_In.
Qed.

(** ** Shuffled *)

Definition shuffle_key (seed : Z) (rr : dns_rr) : Z := rr_section rr * 65536 + dns_k_shuffle16 (dn_p rr) seed.

Lemma shuffle_compares seed l : compares (dns_rr_i_shuffle seed) (shuffle_key seed) l.
Proof.
  intros a b _ _. unfold dns_rr_i_shuffle, shuffle_key. pose proof (shuffle16_range (dn_p a) seed). pose proof (shuffle16_range (dn_p b) seed).
  destruct (Z.eqb_spec (rr_section a - rr_section b) 0) as [He|Hne]; cbn [negb]; lia.
Qed.

(** Different offsets have different keys. *)
Lemma shuffle_keys_differ junk i P seed rp l : header_ok P → 0 <= rp → records junk i P rp l → NoDup (map (shuffle_key seed) l).
Proof.
  intros HP Hrp Hl. pose proof (records_increase junk i P HP rp l Hl Hrp) as Hinc. pose proof (proj1 HP) as (_ & He & H16).
  assert (∀ rr, rr ∈ l → 0 <= dn_p rr < 65536) as Hr by (intros rr Hrr; destruct (records_at junk i P HP rp l rr Hl Hrp Hrr) as [? _]; lia).
  clear Hl. induction Hinc as [|a l Hinc IH Hf]; [apply NoDup_nil_2|]. cbn. apply NoDup_cons. split; [|apply IH; intros; apply Hr; by right].
  intros Hin. apply list_elem_of_In, in_map_iff in Hin as (b & Hkey & Hb%list_elem_of_In). rewrite Forall_forall in Hf. specialize (Hf b Hb).
  assert (dn_p b = dn_p a); [|lia]. apply (shuffle16_inj _ _ seed); [apply Hr; by right|apply Hr; by left|].
  unfold shuffle_key in Hkey. pose proof (shuffle16_range (dn_p a) seed). pose proof (shuffle16_range (dn_p b) seed). lia.
Qed.

(** * Shuffling loses nothing *)

(** C35: an iterator with [dns_rr_i_shuffle], for records searched by section,
    type, class or name but not by their data, on a packet whose memo leaves out no
    section that is searched and, if a name is searched, none of whose names go round
    in a circle: with any seed it meets exactly the records that an iterator in the
    order of the packet meets, each once, those of earlier sections first, as many at
    a time as the caller asks for; and going through them ends.  (A search by name
    that meets a circular name runs for ever.) *)
Theorem dns_rr_grep_shuffles junk i P seed :
  header_ok P → plain_search (unsorted i) P → i_sort i = Some (λ a b _, Returns (dns_rr_i_shuffle seed a b)) →
  i_exec i = 0 → 0 <= i_base i P → (∀ l, records junk i P 12 l → records junk i P (i_base i P) l) →
  ∃ l ls, records junk i P 12 l ∧ ls ≡ₚ l ∧ StronglySorted (λ a b, rr_section a <= rr_section b) ls ∧
    (∀ lim lim', ∃ i' i'', dns_rr_grep junk lim i P = Returns (take lim ls, i', None) ∧
       dns_rr_grep junk lim' i' P = Returns (take lim' (drop lim ls), i'', None)) ∧
    dns_rr_foreach junk (S (packet_fuel P)) i P (λ rr acc, Returns (true, acc ++ [rr])) [] = Returns ls.
Proof.
  intros HP Hi Hsort Hx Hb Hmemo.
  assert (∀ rp, 0 <= rp → ∃ m, rr_at junk i P rp = Returns m) as Hat by (intros rp Hrp; exact (rr_at_returns junk (unsorted i) P rp HP Hi Hrp)).
  destruct (records_exist junk i P HP Hat (Z.to_nat (p_end P)) 12) as [l Hl]; [lia|lia|].
  destruct (sorted_exists (shuffle_key seed) l) as (ls & Hperm & Hs); [by eapply shuffle_keys_differ; [| |exact Hl]|].
  pose proof (shuffle_compares seed l) as Hcmp. exists l, ls. split; [done|]. split; [done|]. split.
  { eapply StronglySorted_ind with (P := λ ls, StronglySorted (λ a b, rr_section a <= rr_section b) ls); [constructor| |exact Hs].
    intros a ls' _ IH Hf. constructor; [done|]. eapply Forall_impl; [exact Hf|]. intros b. unfold shuffle_key.
    pose proof (shuffle16_range (dn_p a) seed). pose proof (shuffle16_range (dn_p b) seed). cbn beta. lia. }
  destruct (start_sorted junk P HP (dns_rr_i_shuffle seed) (shuffle_key seed) i Hsort l Hl Hcmp ls Hb (Hmemo l Hl) Hperm Hs) as (next & Hstart & Hnext). split.
  - intros lim lim'. unfold dns_rr_grep at 1. rewrite Hx, Z.eqb_refl, Hstart. in_run.
    destruct (grep_loop_sorted junk P HP (dns_rr_i_shuffle seed) (shuffle_key seed) l lim (i_at next (i_count i) 1 i) [] ls Hsort) as (n & c & -> & Hrest);
      [by apply records_i_at|done|done|done|apply Hnext|].
    destruct (grep_loop_sorted junk P HP (dns_rr_i_shuffle seed) (shuffle_key seed) l lim' (i_at n c 1 (i_at next (i_count i) 1 i)) (take lim ls) (drop lim ls) Hsort) as (n' & c' & Hg & _);
      [by do 2 apply records_i_at|done|by rewrite take_drop|by rewrite take_drop|exact Hrest|].
    eexists _, _. split; [done|]. unfold dns_rr_grep. cbn [i_exec i_at Z.eqb Pos.eqb]. exact Hg.
  - cbn [dns_rr_foreach]. unfold dns_rr_grep. rewrite Hx, Z.eqb_refl, Hstart. in_run.
    destruct (grep_loop_sorted junk P HP (dns_rr_i_shuffle seed) (shuffle_key seed) l 1 (i_at next (i_count i) 1 i) [] ls Hsort) as (n & c & -> & Hrest);
      [by apply records_i_at|done|done|done|apply Hnext|]. in_run.
    pose proof (records_few junk P HP i _ _ Hl ltac:(lia)) as Hfew. rewrite <-(Permutation_length Hperm) in Hfew.
    destruct ls as [|rr ls]; cbn [take]; [done|]. in_run. cbn [drop] in Hrest. rewrite drop_0 in Hrest. simpl in Hfew.
    rewrite (foreach_sorted junk P HP (dns_rr_i_shuffle seed) (shuffle_key seed) l _ (i_at n c 1 (i_at next (i_count i) 1 i)) [rr] ls [rr] Hsort); try done; [by do 2 apply records_i_at|unfold packet_fuel; lia].
Qed.

(** A question and two addresses for it, in the order the seed gives. *)
Definition two_answers : dns_packet :=
  mk_packet [] memo0 51
    ([0; 0; 0x81; 0x80; 0; 1; 0; 2; 0; 0; 0; 0] ++ [1; 97; 0; 0; 1; 0; 1] ++ [0xc0; 12; 0; 1; 0; 1; 0; 0; 0; 9; 0; 4; 10; 0; 0; 1] ++
     [0xc0; 12; 0; 1; 0; 1; 0; 0; 0; 9; 0; 4; 10; 0; 0; 2]).

Definition shuffled (seed : Z) : dns_rr_i :=
  mk_rr_i DNS_S_ALL None DNS_T_A 0 None (Some (λ a b _, Returns (dns_rr_i_shuffle seed a b))) 0 0 0.

Lemma dns_rr_grep_shuffles_witness :
  ∃ l ls, records 0 (shuffled 3) two_answers 12 l ∧ ls ≡ₚ l ∧
    dns_rr_foreach 0 (S (packet_fuel two_answers)) (shuffled 3) two_answers (λ rr acc, Returns (true, acc ++ [rr])) [] = Returns ls ∧
    map dn_p ls = [12; 35; 19].
Proof.
  destruct (dns_rr_grep_shuffles 0 (shuffled 3) two_answers 3) as (l & ls & Hl & Hperm & _ & _ & Hall);
    [by vm_compute; repeat constructor|by split; [|split; [|left]]|done|done|done|by intros l|]. exists l, ls.
  do 3 (split; [done|]).
  assert ((ls ← dns_rr_foreach 0 (S (packet_fuel two_answers)) (shuffled 3) two_answers (λ rr acc, Returns (true, acc ++ [rr])) [];
           Returns (map dn_p ls)) = Returns [12; 35; 19]) as Hrun by (vm_compute; reflexivity).
  rewrite Hall in Hrun. by injection Hrun as ->.
Defined.
