(* ===== verification/DnsSocket.v ===== *)
(** The socket of the resolver (src/dns/dns.c, "S O C K E T  R O U T I N E S"):
    a query over UDP and, if the answer is cut, over TCP, as a state machine that
    is resumed when a descriptor is ready. *)

From S2P Require Import Prelude DnsPacket DnsName DnsExpand DnsRR DnsData DnsPermutor DnsGrep.

Open Scope Z_scope.

(** ** The system *)

Definition EINTR : errno := EOTHER 4.
Definition EISCONN : errno := EOTHER 106.
Definition EALREADY : errno := EOTHER 114.

(** [struct sockaddr]: ports and addresses are in network order. *)
Inductive sockaddr :=
| sa_in (port : Z) (addr : bytes)
| sa_in6 (port : Z) (addr : bytes)
| sa_un (path : bytes)
| sa_other (family : Z).

Definition AF_UNIX : Z := 1.
Definition AF_INET : Z := 2.
Definition AF_INET6 : Z := 10.

Definition dns_sa_family (sa : sockaddr) : Z :=
  match sa with sa_in _ _ => AF_INET | sa_in6 _ _ => AF_INET6 | sa_un _ => AF_UNIX | sa_other f => f end.

(** [htons] on a little-endian machine. *)
Definition htons (x : Z) : Z := Z.lor (Z.shiftl (Z.land 0xff x) 8) (Z.land 0xff (Z.shiftr x 8)).

(** [*dns_sa_port(af, sa)]; what is written to [DNS_SA_NOPORT] is not looked at. *)
Definition dns_sa_port (sa : sockaddr) : Z := match sa with sa_in p _ | sa_in6 p _ => p | _ => 0 end.
Definition sa_set_port (p : Z) (sa : sockaddr) : sockaddr :=
  match sa with sa_in _ a => sa_in p a | sa_in6 _ a => sa_in6 p a | _ => sa end.

Definition dns_sa_cmp (a b : sockaddr) : Z :=
  if negb (dns_sa_family a - dns_sa_family b =? 0) then dns_sa_family a - dns_sa_family b
  else
    match a, b with
    | sa_in p x, sa_in q y => or_else (htons p - htons q) (dns_a_cmp x y)
    | sa_in6 p x, sa_in6 q y => or_else (htons p - htons q) (dns_aaaa_cmp x y)
    | sa_un p, sa_un q => memcmp (cstr p ++ [0]) (cstr q ++ [0])
    | _, _ => -1
    end.

(** What is asked of the system, in some state of it. *)
Class Net (W : Type) := {
  n_socket : sockaddr → Z → W → (errno + Z) * W;
  n_bind : Z → sockaddr → W → option errno * W;
  n_connect : Z → sockaddr → W → option errno * W;
  n_getpeername : Z → W → option sockaddr * W;
  n_send : Z → bytes → W → (errno + Z) * W;
  n_recv : Z → Z → W → (errno + bytes) * W;
  n_close : Z → W → W;
  n_random : W → Z * W;
  n_time : W → option Z * W;
  n_alloc : Z → W → option bytes * W }.

(** A computation with the system. *)
Definition net (W A : Type) : Type := W → run (A * W).

#[export] Instance net_ret W : MRet (net W) := λ A a w, Returns (a, w).
#[export] Instance net_bind W : MBind (net W) := λ A B f m w, '(a, w) ← m w; f a w.

Definition ask {W A} (f : W → A * W) : net W A := λ w, Returns (f w).
Definition pure {W A} (r : run A) : net W A := λ w, a ← r; Returns (a, w).
Definition nothing {W} (f : W → W) : net W unit := λ w, Returns (tt, f w).

(** A pointer that must not be null. *)
Definition deref {W A} (o : option A) : net W A := pure (match o with Some a => Returns a | None => Undefined end).

Definition SOCK_STREAM : Z := 1.
Definition SOCK_DGRAM : Z := 2.

(** ** The socket *)

(** The states, 0 for a socket without a query. *)
Inductive so_state :=
| DNS_SO_IDLE
| DNS_SO_UDP_INIT | DNS_SO_UDP_CONN | DNS_SO_UDP_SEND | DNS_SO_UDP_RECV | DNS_SO_UDP_DONE
| DNS_SO_TCP_INIT | DNS_SO_TCP_CONN | DNS_SO_TCP_SEND | DNS_SO_TCP_RECV | DNS_SO_TCP_DONE.

#[export] Instance so_state_eq_dec : EqDecision so_state.
Proof. solve_decision. Defined.

(** [struct dns_clock], with what [time] gives. *)
Record dns_clock := mk_clock { c_sample : Z; c_elapsed : Z }.

Definition DNS_MAXINTERVAL : Z := 300.

(** [struct dns_stat] *)
Record so_count := mk_count { sc_count : Z; sc_bytes : Z }.
Record dns_stat := mk_stat { st_queries : Z; st_udp_sent : so_count; st_udp_rcvd : so_count; st_tcp_sent : so_count; st_tcp_rcvd : so_count }.

(** What [dns_so_reset] zeroes, the answer included. *)
Record so_query := mk_query {
  q_state : so_state; q_qid : Z; q_qname : bytes; q_qlen : Z; q_qtype : Z; q_qclass : Z;
  q_query : option dns_packet; q_qout : Z; q_elapsed : dns_clock;
  q_answer : option dns_packet; q_pad : bytes; q_alen : Z; q_apos : Z }.

(** [struct dns_socket], without its options: [so_old] are the descriptors to be
    closed, of which there is room for [so_olim]; [q_pad] are the two bytes
    before the data of the answer. *)
Record dns_socket := mk_so {
  so_udp : Z; so_tcp : Z; so_old : list Z; so_olim : Z; so_type : Z;
  so_local : sockaddr; so_remote : sockaddr; so_qids : dns_k_permutor; so_stat : dns_stat; so_q : so_query }.

Definition idle : so_query :=
  mk_query DNS_SO_IDLE 0 (replicate (Z.to_nat (DNS_D_MAXNAME + 1)) 0) 0 0 0 None 0 (mk_clock 0 0) None [0; 0] 0 0.

Definition with_q (q : so_query) (so : dns_socket) : dns_socket :=
  mk_so (so_udp so) (so_tcp so) (so_old so) (so_olim so) (so_type so) (so_local so) (so_remote so) (so_qids so) (so_stat so) q.
Definition with_fds (udp tcp : Z) (old : list Z) (olim : Z) (so : dns_socket) : dns_socket :=
  mk_so udp tcp old olim (so_type so) (so_local so) (so_remote so) (so_qids so) (so_stat so) (so_q so).
Definition with_stat (st : dns_stat) (so : dns_socket) : dns_socket :=
  mk_so (so_udp so) (so_tcp so) (so_old so) (so_olim so) (so_type so) (so_local so) (so_remote so) (so_qids so) st (so_q so).
Definition with_qids (qids : dns_k_permutor) (so : dns_socket) : dns_socket :=
  mk_so (so_udp so) (so_tcp so) (so_old so) (so_olim so) (so_type so) (so_local so) (so_remote so) qids (so_stat so) (so_q so).
Definition with_remote (sa : sockaddr) (so : dns_socket) : dns_socket :=
  mk_so (so_udp so) (so_tcp so) (so_old so) (so_olim so) (so_type so) (so_local so) sa (so_qids so) (so_stat so) (so_q so).

Definition in_state (s : so_state) (so : dns_socket) : dns_socket :=
  let q := so_q so in
  with_q (mk_query s (q_qid q) (q_qname q) (q_qlen q) (q_qtype q) (q_qclass q) (q_query q) (q_qout q) (q_elapsed q) (q_answer q) (q_pad q) (q_alen q) (q_apos q)) so.
Definition with_answer (P : option dns_packet) (pad : bytes) (alen apos : Z) (so : dns_socket) : dns_socket :=
  let q := so_q so in
  with_q (mk_query (q_state q) (q_qid q) (q_qname q) (q_qlen q) (q_qtype q) (q_qclass q) (q_query q) (q_qout q) (q_elapsed q) P pad alen apos) so.
Definition with_qout (n : Z) (so : dns_socket) : dns_socket :=
  let q := so_q so in
  with_q (mk_query (q_state q) (q_qid q) (q_qname q) (q_qlen q) (q_qtype q) (q_qclass q) (q_query q) n (q_elapsed q) (q_answer q) (q_pad q) (q_alen q) (q_apos q)) so.
Definition with_elapsed (c : dns_clock) (so : dns_socket) : dns_socket :=
  let q := so_q so in
  with_q (mk_query (q_state q) (q_qid q) (q_qname q) (q_qlen q) (q_qtype q) (q_qclass q) (q_query q) (q_qout q) c (q_answer q) (q_pad q) (q_alen q) (q_apos q)) so.

Definition more (n : Z) (c : so_count) : so_count := mk_count (sc_count c) (sc_bytes c + n).
Definition once (c : so_count) : so_count := mk_count (sc_count c + 1) (sc_bytes c).
Definition on_udp_sent (f : so_count → so_count) (so : dns_socket) : dns_socket :=
  let s := so_stat so in with_stat (mk_stat (st_queries s) (f (st_udp_sent s)) (st_udp_rcvd s) (st_tcp_sent s) (st_tcp_rcvd s)) so.
Definition on_udp_rcvd (f : so_count → so_count) (so : dns_socket) : dns_socket :=
  let s := so_stat so in with_stat (mk_stat (st_queries s) (st_udp_sent s) (f (st_udp_rcvd s)) (st_tcp_sent s) (st_tcp_rcvd s)) so.
Definition on_tcp_sent (f : so_count → so_count) (so : dns_socket) : dns_socket :=
  let s := so_stat so in with_stat (mk_stat (st_queries s) (st_udp_sent s) (st_udp_rcvd s) (f (st_tcp_sent s)) (st_tcp_rcvd s)) so.
Definition on_tcp_rcvd (f : so_count → so_count) (so : dns_socket) : dns_socket :=
  let s := so_stat so in with_stat (mk_stat (st_queries s) (st_udp_sent s) (st_udp_rcvd s) (st_tcp_sent s) (f (st_tcp_rcvd s))) so.

Section Socket.
Context {W : Type} {N : Net W}.

(** [opts.closefd.cb], if there is one: an error, and what is left in [*fd]. *)
Context (closefd : option (Z → net W (option dns_errno * Z))).

Abbreviation M := (net W).
Abbreviation outcome := (M (option dns_errno * dns_socket)).

(** [dns_soerr] and [dns_syerr]: [errno]. *)
Definition dns_soerr (e : errno) : dns_errno := DNS_ESYS e.

(** ** Descriptors *)

Definition dns_socketclose (cb : option (Z → M (option dns_errno * Z))) (fd : Z) : M Z :=
  fd ← match cb with Some cb => '(_, fd) ← cb fd; mret fd | None => mret fd end;
  if negb (fd =? -1) then _ ← nothing (n_close fd); mret (-1) else mret fd.

Definition DNS_SO_MAXTRY : nat := 7.

(** The loop of [dns_socket] that binds to random ports: whether one was free. *)
Fixpoint bind_random (tries : nat) (fd : Z) (local : sockaddr) : M bool :=
  match tries with
  | O => mret false
  | S tries' =>
    r ← ask n_random;
    let port := 1025 + r mod 64510 in
    e ← ask (n_bind fd (sa_set_port (htons port) local));
    match e with None => mret true | Some _ => bind_random tries' fd local end
  end.

Definition dns_socket_ (local : sockaddr) (type : Z) : M (dns_errno + Z) :=
  fd ← ask (n_socket local type);
  match fd with
  | inl e => mret (inl (dns_soerr e))
  | inr fd =>
    if negb (dns_sa_family local =? AF_INET) && negb (dns_sa_family local =? AF_INET6) then mret (inr fd)
    else if negb (type =? SOCK_DGRAM) then mret (inr fd)
    else
      bound ← (if dns_sa_port local =? 0 then bind_random DNS_SO_MAXTRY fd local else mret false);
      if bound : bool then mret (inr fd)
      else
        e ← ask (n_bind fd local);
        match e with
        | None => mret (inr fd)
        | Some e => _ ← dns_socketclose None fd; mret (inl (dns_soerr e))
        end
  end.

(** [dns_so_closefd(so, &so->tcp)]: the descriptor is closed later, unless the
    callback closes it. *)
Definition dns_so_closefd (so : dns_socket) : outcome :=
  let set tcp so := with_fds (so_udp so) tcp (so_old so) (so_olim so) so in
  if so_tcp so =? -1 then mret (None, so)
  else
    '(error, fd) ← match closefd with Some cb => cb (so_tcp so) | None => mret (None, so_tcp so) end;
    let so := set fd so in
    match error with
    | Some e => mret (Some e, so)
    | None =>
      if fd =? -1 then mret (None, so)
      else
        let keep olim := mret (None, with_fds (so_udp so) (-1) (so_old so ++ [fd]) olim so) in
        if negb (zlen (so_old so) <? so_olim so) then
          let olim := Z.max 4 (so_olim so * 2) in
          p ← ask (n_alloc (4 * olim));
          match p with
          | None => mret (Some (DNS_ESYS ENOMEM), so)
          | Some _ => keep olim
          end
        else keep (so_olim so)
    end.

Fixpoint close_all (fds : list Z) : M unit :=
  match fds with [] => mret tt | fd :: fds' => _ ← dns_socketclose closefd fd; close_all fds' end.

(** [dns_so_closefds], for each of the three bits of [which]. *)
Definition dns_so_closefds (udp tcp old : bool) (so : dns_socket) : M dns_socket :=
  so ← (if udp then fd ← dns_socketclose closefd (so_udp so); mret (with_fds fd (so_tcp so) (so_old so) (so_olim so) so) else mret so);
  so ← (if tcp then fd ← dns_socketclose closefd (so_tcp so); mret (with_fds (so_udp so) fd (so_old so) (so_olim so) so) else mret so);
  if old then _ ← close_all (so_old so); mret (with_fds (so_udp so) (so_tcp so) [] 0 so) else mret so.

Definition dns_so_reset (so : dns_socket) : dns_socket := with_q idle so.

Definition dns_so_destroy (so : dns_socket) : M dns_socket := dns_so_closefds true true true (dns_so_reset so).

(** [dns_so_init]: the socket, or an error and what is left of it. *)
Definition dns_so_init (local : sockaddr) (type : Z) : M (dns_errno * dns_socket + dns_socket) :=
  let st := mk_stat 0 (mk_count 0 0) (mk_count 0 0) (mk_count 0 0) (mk_count 0 0) in
  let so udp qids := mk_so udp (-1) [] 0 type local (sa_other 0) qids st idle in
  udp ← dns_socket_ local SOCK_DGRAM;
  match udp with
  | inl e => so ← dns_so_destroy (so (-1) (mk_permutor 0 0 0 0 0 0 (mk_tea 0 0 0 0 0))); mret (inl (e, so))
  | inr udp =>
    k0 ← ask n_random; k1 ← ask n_random; k2 ← ask n_random; k3 ← ask n_random;
    qids ← pure (dns_k_permutor_init 1 65535 (k0, k1, k2, k3));
    mret (inr (so udp qids))
  end.

Definition dns_so_close (so : option dns_socket) : M unit :=
  match so with None => mret tt | Some so => _ ← dns_so_destroy so; mret tt end.

(** [dns_so_open]: the socket is a block of memory of its own. *)
Definition dns_so_open (local : sockaddr) (type : Z) : M (dns_errno + dns_socket) :=
  p ← ask (n_alloc 1);
  match p with
  | None => mret (inl (DNS_ESYS ENOMEM))
  | Some _ =>
    so ← dns_so_init local type;
    match so with
    | inl (e, so) => _ ← dns_so_close (Some so); mret (inl e)
    | inr so => mret (inr so)
    end
  end.

Definition dns_so_clear (so : dns_socket) : M dns_socket := dns_so_closefds false false true so.

(** ** Time *)

Definition dns_begin : M dns_clock := t ← ask n_time; mret (mk_clock (default (-1) t) 0).

Definition dns_elapsed (c : dns_clock) : M dns_clock :=
  t ← ask n_time;
  mret (match t with
        | None => c
        | Some t => mk_clock t (if c_sample c <? t then c_elapsed c + Z.min (t - c_sample c) DNS_MAXINTERVAL else c_elapsed c)
        end).

Definition dns_so_elapsed (so : dns_socket) : M (Z * dns_socket) :=
  c ← dns_elapsed (q_elapsed (so_q so)); mret (c_elapsed c, with_elapsed c so).

(** ** A query *)

Definition dns_so_mkqid (so : dns_socket) : M (Z * dns_socket) :=
  '(n, qids) ← pure (dns_k_permutor_step (so_qids so)); mret (u16 n, with_qids qids so).

Definition DNS_SO_MINBUF : Z := 768.

(** [dns_so_newanswer]: what [realloc] gives is arbitrary behind the header. *)
Definition dns_so_newanswer (so : dns_socket) (len : Z) : outcome :=
  p ← ask (n_alloc (Z.max len DNS_SO_MINBUF));
  match p with
  | None => mret (Some (DNS_ESYS ENOMEM), so)
  | Some data => P ← pure (dns_p_init data); mret (None, with_answer (Some P) [0; 0] (q_alen (so_q so)) (q_apos (so_q so)) so)
  end.

(** [dns_header(P)->qid], on a little-endian machine, and storing it. *)
Definition header_qid (P : dns_packet) : run Z := lo ← rd (p_data P) 0; hi ← rd (p_data P) 1; Returns (word hi lo).
Definition set_qid (n : Z) (P : dns_packet) : run dns_packet :=
  data ← wr (p_data P) 0 [Z.land 0xff n; Z.land 0xff (Z.shiftr n 8)]; Returns (set_data data P).

(** The question of [Q], with the qid of the socket if it has none. *)
Definition take_question (Q : dns_packet) (rr : dns_rr) (qname : bytes) (qlen : Z) (so : dns_socket) : M dns_socket :=
  elapsed ← dns_begin;
  qid ← pure (header_qid Q);
  '(qid, Q, so) ← (if qid =? 0 then '(n, so) ← dns_so_mkqid so; Q ← pure (set_qid n Q); mret (n, Q, so) else mret (qid, Q, so));
  let q := so_q so in
  let state := if so_type so =? SOCK_STREAM then DNS_SO_TCP_INIT else DNS_SO_UDP_INIT in
  let so := with_q (mk_query state qid qname qlen (rr_type rr) (rr_class rr) (Some Q) 0 elapsed (q_answer q) (q_pad q) (q_alen q) (q_apos q)) so in
  let s := so_stat so in
  mret (with_stat (mk_stat (st_queries s + 1) (st_udp_sent s) (st_udp_rcvd s) (st_tcp_sent s) (st_tcp_rcvd s)) so).

Definition dns_so_submit (so : dns_socket) (Q : dns_packet) (host : sockaddr) : outcome :=
  let so := dns_so_reset so in
  rr ← pure (dns_rr_parse 0 12 Q);
  match rr with
  | None => mret (Some DNS_EILLEGAL, dns_so_reset so)
  | Some rr =>
    '(qlen, qname) ← pure (dns_d_expand (q_qname (so_q so)) (dn_p rr) Q);
    if qlen =? 0 then mret (Some DNS_EILLEGAL, dns_so_reset so)
    else
      let maxudp := o_maxudp (m_opt (p_memo_ Q)) in
      '(error, so) ← dns_so_newanswer so (if negb (maxudp =? 0) then maxudp else DNS_SO_MINBUF);
      match error with
      | Some e => mret (Some e, dns_so_reset so)
      | None => so ← take_question Q rr qname qlen (with_remote host so); mret (None, so)
      end
  end.

(** ** Checking an answer *)

Definition dns_so_verify (so : dns_socket) (P : dns_packet) : run (option dns_errno) :=
  let reject := Returns (Some DNS_EUNKNOWN) in
  let q := so_q so in
  qid ← header_qid P;
  if negb (q_qid q =? qid) then reject
  else
    qd ← dns_p_count P DNS_S_QD;
    if qd =? 0 then reject
    else
      rr ← dns_rr_parse 0 12 P;
      match rr with
      | None => reject
      | Some rr =>
        if negb (rr_type rr =? q_qtype q) || negb (rr_class rr =? q_qclass q) then reject
        else
          '(qlen, qname) ← dns_d_expand (replicate (Z.to_nat (DNS_D_MAXNAME + 1)) 0) (dn_p rr) P;
          if qlen =? 0 then Returns (Some DNS_EILLEGAL)
          else if (DNS_D_MAXNAME + 1 <=? qlen) || negb (qlen =? q_qlen q) then reject
          else if negb (str_cmp (q_qname q) qname =? 0) then reject
          else Returns None
      end.

(** [dns_header(P)->tc] *)
Definition header_tc (P : dns_packet) : run bool := b ← rd (p_data P) 2; Returns (negb (Z.land b 2 =? 0)).

(** ** TCP *)

Definition dns_so_tcp_keep (so : dns_socket) : M bool :=
  if so_tcp so =? -1 then mret false
  else
    remote ← ask (n_getpeername (so_tcp so));
    mret (match remote with None => false | Some sa => dns_sa_cmp sa (so_remote so) =? 0 end).

(** The loop of [dns_so_tcp_send]; [buf] is the memory from the two bytes before
    the data on, and [base] where [qsrc] points to in it.  Each turn but the last
    sends something: the fuel is the length. *)
Fixpoint tcp_send_loop (fuel : nat) (buf : bytes) (base qend : Z) (so : dns_socket) : outcome :=
  let qout := q_qout (so_q so) in
  if qout <? qend then
    match fuel with
    | O => pure Forever
    | S fuel' =>
      bs ← pure (rd_n buf (base + qout) (qend - qout));
      n ← ask (n_send (so_tcp so) bs);
      match n with
      | inl e => mret (Some (dns_soerr e), so)
      | inr n => tcp_send_loop fuel' buf base qend (on_tcp_sent (more n) (with_qout (qout + n) so))
      end
    end
  else mret (None, on_tcp_sent once so).

Definition dns_so_tcp_send (fuel : nat) (so : dns_socket) : outcome :=
  Q ← deref (q_query (so_q so));
  let buf := be16 (p_end Q) ++ p_data Q in
  tcp_send_loop fuel buf (q_qout (so_q so)) (p_end Q + 2) so.

(** The loop of [dns_so_tcp_recv], on the two bytes before the data and the
    data. *)
Fixpoint tcp_recv_loop (fuel : nat) (aend : Z) (so : dns_socket) : outcome :=
  let q := so_q so in
  if q_apos q <? aend then
    match fuel with
    | O => pure Forever
    | S fuel' =>
      P ← deref (q_answer q);
      r ← ask (n_recv (so_tcp so) (aend - q_apos q));
      match r with
      | inl e => mret (Some (dns_soerr e), so)
      | inr [] => mret (Some DNS_EUNKNOWN, so)
      | inr bs =>
        buf ← pure (wr (q_pad q ++ p_data P) (q_apos q) bs);
        let apos := q_apos q + zlen bs in
        let pad := take 2 buf in
        let so := on_tcp_rcvd (more (zlen bs)) (with_answer (Some (set_data (drop 2 buf) P)) pad (q_alen q) apos so) in
        if (q_alen q =? 0) && (2 <=? apos) then
          let alen := word (nth 0 pad 0) (nth 1 pad 0) in
          '(error, so) ← dns_so_newanswer so alen;
          match error with
          | Some e => mret (Some e, so)
          | None => tcp_recv_loop fuel' (alen + 2) (with_answer (q_answer (so_q so)) (q_pad (so_q so)) alen apos so)
          end
        else tcp_recv_loop fuel' aend so
      end
    end
  else
    P ← deref (q_answer q);
    mret (None, on_tcp_rcvd once (with_answer (Some (set_end (q_alen q) P)) (q_pad q) (q_alen q) (q_apos q) so)).

Definition dns_so_tcp_recv (fuel : nat) (so : dns_socket) : outcome := tcp_recv_loop fuel (q_alen (so_q so) + 2) so.

(** ** The state machine *)

(** How a way through the switch ends: at [retry], at [error], or with a
    [return]. *)
Inductive verdict := Retry | Fail (e : dns_errno) | Stop (e : option dns_errno).

Abbreviation step := (nat → dns_socket → M (verdict * dns_socket)).

(** What is done when an error is not 0, and what otherwise. *)
Definition or_fail (r : option dns_errno * dns_socket) (k : dns_socket → M (verdict * dns_socket)) : M (verdict * dns_socket) :=
  match r with (Some e, so) => mret (Fail e, so) | (None, so) => k so end.

(** The cases of the switch, each of which goes on with the next. *)
Definition so_tcp_done : step := λ fuel so,
  r ← (if negb (so_type so =? SOCK_STREAM) then dns_so_closefd so else mret (None, so));
  or_fail r (λ so,
    P ← deref (q_answer (so_q so));
    if p_end P <? 12 then mret (Stop (Some DNS_EILLEGAL), so)
    else
      error ← pure (dns_so_verify so P);
      match error with Some e => mret (Fail e, so) | None => mret (Stop None, so) end).

Definition so_tcp_recv : step := λ fuel so,
  r ← dns_so_tcp_recv fuel so; or_fail r (λ so, so_tcp_done fuel (in_state DNS_SO_TCP_DONE so)).

Definition so_tcp_send : step := λ fuel so,
  r ← dns_so_tcp_send fuel so; or_fail r (λ so, so_tcp_recv fuel (in_state DNS_SO_TCP_RECV so)).

Definition so_tcp_conn : step := λ fuel so,
  e ← ask (n_connect (so_tcp so) (so_remote so));
  match e with
  | Some e => if bool_decide (e = EISCONN) then so_tcp_send fuel (in_state DNS_SO_TCP_SEND so) else mret (Fail (dns_soerr e), so)
  | None => so_tcp_send fuel (in_state DNS_SO_TCP_SEND so)
  end.

Definition so_tcp_init : step := λ fuel so,
  keep ← dns_so_tcp_keep so;
  if keep : bool then mret (Retry, in_state DNS_SO_TCP_SEND so)
  else
    r ← dns_so_closefd so;
    or_fail r (λ so,
      fd ← dns_socket_ (so_local so) SOCK_STREAM;
      match fd with
      | inl e => mret (Fail e, with_fds (so_udp so) (-1) (so_old so) (so_olim so) so)
      | inr fd => so_tcp_conn fuel (in_state DNS_SO_TCP_CONN (with_fds (so_udp so) fd (so_old so) (so_olim so) so))
      end).

Definition so_udp_done : step := λ fuel so,
  P ← deref (q_answer (so_q so));
  tc ← pure (header_tc P);
  if negb tc || (so_type so =? SOCK_DGRAM) then mret (Stop None, so)
  else so_tcp_init fuel (in_state DNS_SO_TCP_INIT so).

Definition so_udp_recv : step := λ fuel so,
  P ← deref (q_answer (so_q so));
  r ← ask (n_recv (so_udp so) (p_size P));
  match r with
  | inl e => mret (Fail (dns_soerr e), so)
  | inr bs =>
    data ← pure (wr (p_data P) 0 bs);
    let P := set_end (zlen bs) (set_data data P) in
    let q := so_q so in
    let so := on_udp_rcvd once (on_udp_rcvd (more (zlen bs)) (with_answer (Some P) (q_pad q) (q_alen q) (q_apos q) so)) in
    if zlen bs <? 12 then mret (Retry, so)
    else
      error ← pure (dns_so_verify so P);
      match error with
      | Some _ => mret (Retry, so)
      | None => so_udp_done fuel (in_state DNS_SO_UDP_DONE so)
      end
  end.

Definition so_udp_send : step := λ fuel so,
  Q ← deref (q_query (so_q so));
  bs ← pure (rd_n (p_data Q) 0 (p_end Q));
  n ← ask (n_send (so_udp so) bs);
  match n with
  | inl e => mret (Fail (dns_soerr e), so)
  | inr n => so_udp_recv fuel (in_state DNS_SO_UDP_RECV (on_udp_sent once (on_udp_sent (more n) so)))
  end.

Definition so_udp_conn : step := λ fuel so,
  e ← ask (n_connect (so_udp so) (so_remote so));
  match e with
  | Some e => mret (Fail (dns_soerr e), so)
  | None => so_udp_send fuel (in_state DNS_SO_UDP_SEND so)
  end.

Definition so_switch : step := λ fuel so,
  match q_state (so_q so) with
  | DNS_SO_UDP_INIT => so_udp_conn fuel (in_state DNS_SO_UDP_CONN so)
  | DNS_SO_UDP_CONN => so_udp_conn fuel so
  | DNS_SO_UDP_SEND => so_udp_send fuel so
  | DNS_SO_UDP_RECV => so_udp_recv fuel so
  | DNS_SO_UDP_DONE => so_udp_done fuel so
  | DNS_SO_TCP_INIT => so_tcp_init fuel so
  | DNS_SO_TCP_CONN => so_tcp_conn fuel so
  | DNS_SO_TCP_SEND => so_tcp_send fuel so
  | DNS_SO_TCP_RECV => so_tcp_recv fuel so
  | DNS_SO_TCP_DONE => so_tcp_done fuel so
  | DNS_SO_IDLE => mret (Fail DNS_EUNKNOWN, so)
  end.

(** What an error at [error] becomes; [None] is [goto retry]. *)
Definition so_error (e : dns_errno) : option dns_errno :=
  match e with
  | DNS_ESYS e =>
    if bool_decide (e = EINTR) then None
    else if bool_decide (e = EINPROGRESS) || bool_decide (e = EALREADY) then Some (DNS_ESYS EAGAIN) else Some (DNS_ESYS e)
  | _ => Some e
  end.

(** [dns_so_check], of [fuel] turns: the network may send packets to be
    discarded, and signals may come, for ever. *)
Fixpoint so_check (fuel : nat) (so : dns_socket) : outcome :=
  match fuel with
  | O => pure Forever
  | S fuel' =>
    '(v, so) ← so_switch fuel so;
    match v with
    | Retry => so_check fuel' so
    | Fail e => match so_error e with None => so_check fuel' so | Some e => mret (Some e, so) end
    | Stop e => mret (e, so)
    end
  end.

(** ** Taking the answer *)

(** [dns_so_fetch]: the error, if it sets one, and the answer, if there is one. *)
Definition dns_so_fetch (so : dns_socket) : option dns_errno * option dns_packet * dns_socket :=
  match q_state (so_q so) with
  | DNS_SO_UDP_DONE | DNS_SO_TCP_DONE =>
    (None, q_answer (so_q so), with_answer None (q_pad (so_q so)) (q_alen (so_q so)) (q_apos (so_q so)) so)
  | _ => (Some DNS_EUNKNOWN, None, so)
  end.

Definition dns_so_query (fuel : nat) (so : dns_socket) (Q : dns_packet) (host : sockaddr) :
    M (option dns_errno * option dns_packet * dns_socket) :=
  '(error, so) ← (if bool_decide (q_state (so_q so) = DNS_SO_IDLE) then dns_so_submit so Q host else mret (None, so));
  match error with
  | Some e => mret (Some e, None, so)
  | None =>
    '(error, so) ← so_check fuel so;
    match error with
    | Some e => mret (Some e, None, so)
    | None => mret (match dns_so_fetch so with
                    | (_, Some A, so) => (None, Some A, dns_so_reset so)
                    | (error, None, so) => (error, None, so)
                    end)
    end
  end.

End Socket.

(** ** What to wait for *)

Definition DNS_POLLIN : Z := 1.
Definition DNS_POLLOUT : Z := 4.
Definition DNS_EVREAD : Z := 2.
Definition DNS_EVWRITE : Z := 4.

(** [DNS_POLL2EV] *)
Definition poll2ev (set : Z) : Z :=
  Z.lor (if negb (Z.land set DNS_POLLIN =? 0) then DNS_EVREAD else 0) (if negb (Z.land set DNS_POLLOUT =? 0) then DNS_EVWRITE else 0).

Definition dns_so_events2 (so : dns_socket) (libevent : bool) : Z :=
  let events :=
    match q_state (so_q so) with
    | DNS_SO_UDP_CONN | DNS_SO_UDP_SEND => DNS_POLLOUT
    | DNS_SO_UDP_RECV => DNS_POLLIN
    | DNS_SO_TCP_CONN | DNS_SO_TCP_SEND => DNS_POLLOUT
    | DNS_SO_TCP_RECV => DNS_POLLIN
    | _ => 0
    end in
  if libevent then poll2ev events else events.

Definition dns_so_pollfd (so : dns_socket) : Z :=
  match q_state (so_q so) with
  | DNS_SO_UDP_CONN | DNS_SO_UDP_SEND | DNS_SO_UDP_RECV => so_udp so
  | DNS_SO_TCP_CONN | DNS_SO_TCP_SEND | DNS_SO_TCP_RECV => so_tcp so
  | _ => -1
  end.
