(* ===== verification/DnsAnswer.v ===== *)
(** What the socket of the resolver takes for an answer, that it touches no other
    memory, and that it waits for something when it says so. *)

From S2P Require Import Prelude DnsPacket DnsName DnsExpand DnsSkip DnsPush DnsRR DnsData DnsPermutor DnsGrep DnsSocket.

Open Scope Z_scope.

(** ** Computations with the system *)

(** Memory is not violated, and what is returned is [Q]; [F] says what may be the
    case when it never returns. *)
Definition ends {W A} (F : Prop) (m : net W A) (w : W) (Q : A → W → Prop) : Prop :=
  match m w with Undefined => False | Forever => F | Returns (a, w') => Q a w' end.

Section Rules.
Context {W : Type} (F : Prop).

Lemma ends_ret {A} (a : A) (w : W) (Q : A → W → Prop) : Q a w → ends F (mret a) w Q.
Proof. done. Qed.

Lemma ends_bind {A B} (m : net W A) (f : A → net W B) w (R : A → W → Prop) Q :
  ends F m w R → (∀ a w', R a w' → ends F (f a) w' Q) → ends F (m ≫= f) w Q.
Proof. unfold ends, mbind at 1, net_bind. destruct (m w) as [| |[a w']]; in_run; [done|done|]. intros HR Hf. by apply Hf. Qed.

Lemma ends_ask {A B} (g : W → A * W) (f : A → net W B) w Q : ends F (f (g w).1) (g w).2 Q → ends F (ask g ≫= f) w Q.
Proof. unfold ends, mbind at 1, net_bind, ask. in_run. by destruct (g w). Qed.

Lemma ends_pure {A B} (r : run A) (f : A → net W B) w Q :
  match r with Undefined => False | Forever => F | Returns a => ends F (f a) w Q end → ends F (pure r ≫= f) w Q.
Proof. unfold ends, mbind at 1, net_bind, pure. by destruct r. Qed.

Lemma ends_deref {A B} (a : A) (f : A → net W B) w Q : ends F (f a) w Q → ends F (deref (Some a) ≫= f) w Q.
Proof. intros H. by apply ends_pure. Qed.

Lemma ends_weaken {A} (F' : Prop) (m : net W A) w (Q : A → W → Prop) : (F → F') → ends F m w Q → ends F' m w Q.
Proof. unfold ends. destruct (m w); [done|by apply id|done]. Qed.

Lemma ends_mono {A} (m : net W A) w (Q Q' : A → W → Prop) : ends F m w Q → (∀ a w', Q a w' → Q' a w') → ends F m w Q'.
Proof. unfold ends. destruct (m w) as [| |[a w']]; [done|done|]. intros HQ H. by apply H. Qed.

End Rules.

(** ** What counts as an answer *)

(** [P] has the number, and its first question is the one that was asked. *)
Definition answers (q : so_query) (P : dns_packet) : Prop :=
  header_qid P = Returns (q_qid q) ∧ (∃ c, header_count P DNS_S_QD = Returns c ∧ 0 < c) ∧
  ∃ rr host, dns_rr_parse 0 12 P = Returns (Some rr) ∧ rr_type rr = q_qtype q ∧ rr_class rr = q_qclass q ∧
    dns_d_expand (replicate (Z.to_nat (DNS_D_MAXNAME + 1)) 0) 12 P = Returns (q_qlen q, host) ∧ 0 < q_qlen q <= DNS_D_MAXNAME ∧
    str_cmp (q_qname q) host = 0.

Lemma header_qid_range P : header_ok P → ∃ n, header_qid P = Returns n ∧ 0 <= n < 65536.
Proof.
  intros ((Hok & _) & H12). unfold p_size in H12. unfold header_qid. destruct (rd_ok (p_data P) 0 Hok) as (lo & -> & Hlo); [lia|].
  destruct (rd_ok (p_data P) 1 Hok) as (hi & -> & Hhi); [lia|]. in_run. eexists. split; [done|]. rewrite word_eq by done.
  unfold byte_ok, is_uint in *. change (2 ^ 8) with 256 in *. lia.
Qed.

(** [dns_so_verify] does what it says, and hangs only on a circle of labels. *)
Lemma verify_spec so P : header_ok P →
  match dns_so_verify so P with
  | Undefined => False
  | Forever => loops_from (p_data P) (p_end P) 12
  | Returns None => answers (so_q so) P
  | Returns (Some e) => e = DNS_EUNKNOWN ∨ e = DNS_EILLEGAL
  end.
Proof.
  intros HP. unfold dns_so_verify. destruct (header_qid_range P HP) as (n & Hqid & _). rewrite Hqid. in_run.
  destruct (Z.eqb_spec (q_qid (so_q so)) n) as [Eq|]; cbn [negb]; [|by left]. change (dns_p_count P DNS_S_QD) with (header_count P DNS_S_QD).
  destruct (header_count_range P HP DNS_S_QD) as (c & Hc & Hcr). rewrite Hc. in_run. destruct (Z.eqb_spec c 0) as [|Hc0]; [by left|].
  destruct (rr_parse_cases P HP 0 12 ltac:(lia)) as (q & _ & [->|(rr & next & Hrr & (Hdn & _) & _)]); in_run; [by left|]. rewrite Hrr. in_run.
  destruct (Z.eqb_spec (rr_type rr) (q_qtype (so_q so))) as [Et|]; cbn [negb orb]; [|by left].
  destruct (Z.eqb_spec (rr_class rr) (q_qclass (so_q so))) as [Ec|]; cbn [negb orb]; [|by left].
  rewrite Hdn. unfold dns_d_expand.
  pose proof (expand_outcomes _ _ (proj1 HP) (Z.to_nat (p_end P)) DNS_D_MAXPTRS 12 (replicate (Z.to_nat (DNS_D_MAXNAME + 1)) 0) 0 ltac:(lia) ltac:(lia)) as Ho.
  destruct (expand_labels _ _ _ _ _ _ _) as [| |[len host]] eqn:Hx; in_run; [done|by eapply expand_forever_loops; [apply HP|lia|]|].
  destruct Ho as [Hn _]. destruct (Z.eqb_spec len 0); [by right|]. destruct (Z.leb_spec (DNS_D_MAXNAME + 1) len); cbn [orb]; [by left|].
  destruct (Z.eqb_spec len (q_qlen (so_q so))) as [El|]; cbn [negb orb]; [|by left].
  destruct (Z.eqb_spec (str_cmp (q_qname (so_q so)) host) 0); cbn [negb]; [|by left]. subst len n.
  split; [done|]. split; [exists c; split; [done|lia]|]. exists rr, host. do 3 (split; [done|]). split; [by unfold dns_d_expand|]. split; [lia|done].
Qed.

(** ** Networks *)

(** What the system promises: [recv] gives no more bytes than was asked for. *)
Class NetOk {W} (N : Net W) : Prop :=
  recv_ok fd n w bs : (n_recv fd n w).1 = inr bs → zlen bs <= n ∧ bytes_ok bs.

(** A number that says how long the system goes on without blocking: it is less
    after each packet and each signal. *)
Record quiet {W} (N : Net W) (pending : W → nat) : Prop := {
  quiet_connect fd sa w :
    (pending (n_connect fd sa w).2 <= pending w)%nat ∧ ((n_connect fd sa w).1 = Some EINTR → (pending (n_connect fd sa w).2 < pending w)%nat);
  quiet_send fd bs w : (pending (n_send fd bs w).2 <= pending w)%nat ∧ ((n_send fd bs w).1 = inl EINTR → (pending (n_send fd bs w).2 < pending w)%nat);
  quiet_recv fd n w : (pending (n_recv fd n w).2 <= pending w)%nat ∧
    (match (n_recv fd n w).1 with inl e => e = EINTR | inr _ => True end → (pending (n_recv fd n w).2 < pending w)%nat) }.

(** No datagram has a name that goes round in a circle where its question is. *)
Definition straight {W} (N : Net W) : Prop :=
  ∀ fd n w bs data, (n_recv fd n w).1 = inr bs → zlen bs <= zlen data → bytes_ok data → ¬ loops_from (mem_write 0 bs data) (zlen bs) 12.

(** ** A socket with a query that does not go over to TCP *)

Definition udp_states : list so_state := [DNS_SO_UDP_INIT; DNS_SO_UDP_CONN; DNS_SO_UDP_SEND; DNS_SO_UDP_RECV; DNS_SO_UDP_DONE].

(** The states in which there is something to wait for. *)
Definition waiting (s : so_state) : Prop := s ∈ [DNS_SO_UDP_CONN; DNS_SO_UDP_SEND; DNS_SO_UDP_RECV].

(** What the end of a query leaves. *)
Definition answered (so : dns_socket) : Prop :=
  q_state (so_q so) = DNS_SO_UDP_DONE ∧ ∃ P, q_answer (so_q so) = Some P ∧ answers (so_q so) P.

Record so_ok (so : dns_socket) : Prop := {
  ok_type : so_type so = SOCK_DGRAM;
  ok_state : q_state (so_q so) ∈ udp_states;
  ok_query : ∃ Q, q_query (so_q so) = Some Q ∧ packet_ok Q;
  ok_answer : ∃ P, q_answer (so_q so) = Some P ∧ header_ok P ∧ p_size P < 65536;
  ok_done : q_state (so_q so) = DNS_SO_UDP_DONE → answered so }.

(** The question stays. *)
Definition same_question (so so' : dns_socket) : Prop :=
  let q := so_q so in let q' := so_q so' in
  q_qid q' = q_qid q ∧ q_qname q' = q_qname q ∧ q_qlen q' = q_qlen q ∧ q_qtype q' = q_qtype q ∧ q_qclass q' = q_qclass q ∧
  q_query q' = q_query q ∧ so_udp so' = so_udp so.

Lemma same_question_trans so1 so2 so3 : same_question so1 so2 → same_question so2 so3 → same_question so1 so3.
Proof. unfold same_question. intros (-> & -> & -> & -> & -> & -> & ->). done. Qed.

Lemma ok_in_state so s : so_ok so → s ∈ [DNS_SO_UDP_CONN; DNS_SO_UDP_SEND; DNS_SO_UDP_RECV] → so_ok (in_state s so).
Proof.
  intros [] Hs. apply (bool_decide_pack _) in Hs. split; [done| |done|done|]; cbn.
  - apply (bool_decide_unpack _). by destruct s.
  - by intros ->.
Qed.

Lemma so_error_eintr e : so_error (DNS_ESYS e) = None → e = EINTR.
Proof. cbn. case_bool_decide; [done|]. by destruct (_ || _). Qed.

Lemma size_written P bs : zlen bs <= p_size P → header_ok P → p_size P < 65536 → bytes_ok bs →
  header_ok (set_end (zlen bs) (set_data (mem_write 0 bs (p_data P)) P)).
Proof.
  intros Hl ((Hok & He & H16) & H12) Hsz Hbs. unfold p_size in *. split; [split; cbn|unfold p_size; cbn; by rewrite mem_write_keeps_length].
  - rewrite <-(Nat2Z.id 0). by apply bytes_ok_put.
  - rewrite mem_write_keeps_length. lia.
Qed.

Section Check.
Context {W : Type} {N : Net W} (HN : NetOk N) (pending : W → nat) (F : Prop).
Context (Hloops : ∀ fd n w bs data, (n_recv fd n w).1 = inr bs → zlen bs <= zlen data → bytes_ok data → loops_from (mem_write 0 bs data) (zlen bs) 12 → F).

(** What a way through the switch, from [so], leads to. *)
Definition verdict_ok (so : dns_socket) (w : W) (r : verdict * dns_socket) (w' : W) : Prop :=
  let '(v, so') := r in
  so_ok so' ∧ same_question so so' ∧
  match v with
  | Retry => True
  | Fail e => waiting (q_state (so_q so')) ∧ ∃ n, e = DNS_ESYS n
  | Stop e => e = None ∧ answered so'
  end ∧
  (quiet N pending →
    (pending w' <= pending w)%nat ∧ (match v with Retry => True | Fail e => so_error e = None | Stop _ => False end → (pending w' < pending w)%nat)).

Lemma verdict_after so1 w1 so2 w2 r w3 :
  same_question so1 so2 → (quiet N pending → (pending w2 <= pending w1)%nat) → verdict_ok so2 w2 r w3 → verdict_ok so1 w1 r w3.
Proof using.
  destruct r as [v so3]. intros Hq Hp (Hok & Hq2 & Hv & Hm). split; [done|]. split; [by eapply same_question_trans|]. split; [done|].
  intros Hquiet. specialize (Hm Hquiet). specialize (Hp Hquiet). destruct Hm as [Hm1 Hm2]. split; [lia|]. intros H. specialize (Hm2 H). lia.
Qed.

Lemma udp_done_ok cb so w fuel : so_ok so → answered so → ends F (so_udp_done cb fuel so) w (verdict_ok so w).
Proof using.
  intros Hok Hans. unfold so_udp_done. destruct (ok_answer _ Hok) as (P & HA & ((Hb & _) & H12) & _). rewrite HA. apply ends_deref.
  apply ends_pure. unfold header_tc. unfold p_size in H12. destruct (rd_ok (p_data P) 2 Hb) as (b & -> & _); [lia|]. in_run.
  rewrite (ok_type _ Hok), Z.eqb_refl, orb_true_r. apply ends_ret. split; [done|]. split; [done|]. split; [done|]. split; [lia|done].
Qed.

Lemma udp_recv_ok cb so w fuel : so_ok so → q_state (so_q so) = DNS_SO_UDP_RECV → ends F (so_udp_recv cb fuel so) w (verdict_ok so w).
Proof using HN Hloops.
  intros Hok Hst. destruct (ok_answer _ Hok) as (P & HA & HP & Hsz). unfold so_udp_recv. rewrite HA. apply ends_deref. apply ends_ask.
  set (r := n_recv (so_udp so) (p_size P) w). destruct (r.1) as [e|bs] eqn:Er.
  - apply ends_ret. split; [done|]. split; [done|]. split; [split; [by rewrite Hst; apply (bool_decide_unpack _)|by eexists]|].
    intros Hq. destruct (quiet_recv _ _ Hq (so_udp so) (p_size P) w) as [Hle Hlt]. fold r in Hle, Hlt. split; [done|].
    intros He%so_error_eintr. apply Hlt. by rewrite Er.
  - destruct (recv_ok _ _ _ _ Er) as [Hbl Hbs]. apply ends_pure. unfold wr. unfold p_size in Hbl. rewrite (proj2 (Z.ltb_ge _ _)) by lia.
    change (Z.to_nat 0) with 0%nat. set (P' := set_end _ _). pose proof (size_written P bs Hbl HP Hsz Hbs) as HP'. fold P' in HP'.
    assert (p_size P' < 65536) as Hsz' by (unfold p_size; cbn; by rewrite mem_write_keeps_length).
    set (so' := on_udp_rcvd once _). assert (so_ok so') as Hok'.
    { split; [apply Hok|apply Hok|apply Hok|by exists P'|]. change (q_state (so_q so')) with (q_state (so_q so)). by rewrite Hst. }
    assert (quiet N pending → (pending r.2 < pending w)%nat) as Hlt.
    { intros Hq. destruct (quiet_recv _ _ Hq (so_udp so) (p_size P) w) as [_ Hlt]. fold r in Hlt. apply Hlt. by rewrite Er. }
    assert (verdict_ok so w (Retry, so') r.2) as Hagain.
    { split; [done|]. split; [done|]. split; [done|]. intros Hq. specialize (Hlt Hq). split; [lia|done]. }
    destruct (Z.ltb_spec (zlen bs) 12) as [|H12]; [by apply ends_ret|].
    apply ends_pure. pose proof (verify_spec so' P' HP') as Hv. destruct (dns_so_verify so' P') as [| |[e|]]; [done| |by apply ends_ret|].
    + eapply Hloops; [exact Er|exact Hbl|apply HP|exact Hv].
    + assert (answered (in_state DNS_SO_UDP_DONE so')) as Hans by (split; [done|]; by exists P').
      eapply ends_mono; [apply udp_done_ok; [|exact Hans]; split; [apply Hok|by apply (bool_decide_unpack _)|apply Hok|by exists P'|done]|].
      intros x w' Hx. refine (verdict_after _ _ _ _ _ _ _ _ Hx); [done|intros Hq; specialize (Hlt Hq); lia].
Qed.

Lemma udp_send_ok cb so w fuel : so_ok so → q_state (so_q so) = DNS_SO_UDP_SEND → ends F (so_udp_send cb fuel so) w (verdict_ok so w).
Proof using HN Hloops.
  intros Hok Hst. destruct (ok_query _ Hok) as (Q & HQ & HQok). unfold so_udp_send. rewrite HQ. apply ends_deref. apply ends_pure.
  destruct HQok as (Hb & He & _). unfold p_size in He. unfold rd_n. change (0 + p_end Q) with (p_end Q). rewrite (proj2 (Z.ltb_ge _ _)) by lia. cbn [orb].
  destruct (Z.ltb_spec (zlen (p_data Q)) (p_end Q)); [lia|]. apply ends_ask. set (bs := mem_read _ _ _). set (r := n_send (so_udp so) bs w).
  assert (quiet N pending → (pending r.2 <= pending w)%nat ∧ (r.1 = inl EINTR → (pending r.2 < pending w)%nat)) as Hle.
  { intros Hq. apply (quiet_send _ _ Hq). }
  destruct (r.1) as [e|n] eqn:Er.
  - apply ends_ret. split; [done|]. split; [done|]. split; [split; [by rewrite Hst; apply (bool_decide_unpack _)|by eexists]|].
    intros Hq. destruct (Hle Hq) as [H1 H2]. split; [done|]. intros Hs%so_error_eintr. apply H2. by subst e.
  - eapply ends_mono; [apply udp_recv_ok; [|done]; apply (ok_in_state _ DNS_SO_UDP_RECV); [|by apply (bool_decide_unpack _)]|].
    + split; [apply Hok|apply Hok|apply Hok|apply Hok|]. cbn. by rewrite Hst.
    + intros x w' Hx. refine (verdict_after _ _ _ _ _ _ _ _ Hx); [done|intros Hq; apply (proj1 (Hle Hq))].
Qed.

Lemma udp_conn_ok cb so w fuel : so_ok so → q_state (so_q so) = DNS_SO_UDP_CONN → ends F (so_udp_conn cb fuel so) w (verdict_ok so w).
Proof using HN Hloops.
  intros Hok Hst. unfold so_udp_conn. apply ends_ask. set (r := n_connect (so_udp so) (so_remote so) w).
  assert (quiet N pending → (pending r.2 <= pending w)%nat ∧ (r.1 = Some EINTR → (pending r.2 < pending w)%nat)) as Hle.
  { intros Hq. apply (quiet_connect _ _ Hq). }
  destruct (r.1) as [e|] eqn:Er.
  - apply ends_ret. split; [done|]. split; [done|]. split; [split; [by rewrite Hst; apply (bool_decide_unpack _)|by eexists]|].
    intros Hq. destruct (Hle Hq) as [H1 H2]. split; [done|]. intros Hs%so_error_eintr. apply H2. by subst e.
  - eapply ends_mono; [apply udp_send_ok; [|done]; apply ok_in_state; [done|by apply (bool_decide_unpack _)]|].
    intros x w' Hx. refine (verdict_after _ _ _ _ _ _ _ _ Hx); [done|intros Hq; apply (proj1 (Hle Hq))].
Qed.

Lemma switch_ok cb so w fuel : so_ok so → ends F (so_switch cb fuel so) w (verdict_ok so w).
Proof using HN Hloops.
  intros Hok. unfold so_switch. pose proof (ok_state _ Hok) as Hs. destruct (q_state (so_q so)) eqn:E.
  all: try by apply (bool_decide_pack _) in Hs.
  - eapply ends_mono; [apply udp_conn_ok; [|done]; by apply ok_in_state; [|apply (bool_decide_unpack _)]|]. intros x w' Hx. by eapply verdict_after; [| |exact Hx].
  - by apply udp_conn_ok.
  - by apply udp_send_ok.
  - by apply udp_recv_ok.
  - apply udp_done_ok; [done|]. by apply (ok_done _ Hok).
Qed.

(** What [dns_so_check] leads to. *)
Definition check_ok (so : dns_socket) (r : option dns_errno * dns_socket) : Prop :=
  let '(e, so') := r in
  so_ok so' ∧ same_question so so' ∧
  match e with None => answered so' | Some e => waiting (q_state (so_q so')) ∧ ∃ n, e = DNS_ESYS n ∧ n ∉ [EINTR; EINPROGRESS; EALREADY] end.

Lemma so_error_settled n e : so_error (DNS_ESYS n) = Some e → ∃ n', e = DNS_ESYS n' ∧ n' ∉ [EINTR; EINPROGRESS; EALREADY].
Proof using.
  cbn. case_bool_decide as H1; [done|]. case_bool_decide as H2; [|case_bool_decide as H3]; cbn [orb]; intros [= <-]; eexists; (split; [done|]).
  - by apply (bool_decide_unpack _).
  - by apply (bool_decide_unpack _).
  - rewrite !not_elem_of_cons. repeat split; try done. apply not_elem_of_nil.
Qed.

Lemma check_ends cb fuel so w : so_ok so →
  ends (F ∨ ¬ (quiet N pending ∧ (pending w < fuel)%nat)) (so_check cb fuel so) w (λ r _, check_ok so r).
Proof using HN Hloops.
  revert so w. induction fuel as [|fuel IH]; intros so w Hok.
  { right. intros [_ H]. lia. }
  cbn [so_check]. eapply ends_bind; [eapply ends_weaken; [|by apply (switch_ok cb so w)]; by left|].
  intros [v so'] w' (Hok' & Hq & Hv & Hm).
  assert ((quiet N pending → (pending w' < pending w)%nat) →
    ends (F ∨ ¬ (quiet N pending ∧ (pending w < S fuel)%nat)) (so_check cb fuel so') w' (λ r _, check_ok so r)) as Hagain.
  { intros Hlt. eapply ends_weaken; [|eapply ends_mono; [by apply (IH so' w')|]].
    - intros [|Hn]; [by left|]. right. intros [HN' H]. specialize (Hlt HN'). apply Hn. split; [done|lia].
    - intros [e so2] w2 (Hok2 & Hq2 & He). split; [done|]. split; [by eapply same_question_trans|done]. }
  destruct v as [|e|e].
  - apply Hagain. intros HQ. by apply (Hm HQ).
  - destruct Hv as (Hw & n & ->). destruct (so_error (DNS_ESYS n)) as [e|] eqn:E.
    + apply ends_ret. split; [done|]. split; [done|]. split; [done|]. by apply so_error_settled in E.
    + apply Hagain. intros HQ. by apply (Hm HQ).
  - destruct Hv as [-> Ha]. by apply ends_ret.
Qed.

End Check.

(** C39: For a socket that stays with UDP and whatever datagrams arrive,
    [dns_so_check] reads and writes no other memory, and keeps the question. If
    it returns 0, the answer it holds has the number of the query, and for its
    first question the name (whatever the case of its letters), type and class that
    were asked. If it returns an error, it is one of the system, never a signal or a
    call in progress, and the socket is in a state in which there is a descriptor
    to wait for. It returns when the datagrams and signals that come before the
    system blocks are fewer than the turns it takes, and no datagram has a
    name that goes round in a circle. *)
Theorem dns_so_check_answers {W} (N : Net W) (pending : W → nat) closefd fuel so w :
  NetOk N → so_ok so →
  match so_check closefd fuel so w with
  | Undefined => False
  | Forever => ¬ (straight N ∧ quiet N pending ∧ (pending w < fuel)%nat)
  | Returns (e, so', _) =>
    so_ok so' ∧ same_question so so' ∧
    match e with
    | None => answered so' ∧ dns_so_pollfd so' = -1 ∧ dns_so_events2 so' false = 0
    | Some e => (∃ n, e = DNS_ESYS n ∧ n ∉ [EINTR; EINPROGRESS; EALREADY]) ∧ dns_so_pollfd so' = so_udp so ∧
        (dns_so_events2 so' false = DNS_POLLIN ∨ dns_so_events2 so' false = DNS_POLLOUT)
    end
  end.
Proof.
  intros HN Hok.
  assert (∀ fd n w bs data, (n_recv fd n w).1 = inr bs → zlen bs <= zlen data → bytes_ok data → loops_from (mem_write 0 bs data) (zlen bs) 12 → ¬ straight N) as Hl.
  { intros fd n w' bs data Hr Hb Hd Hc Hs. by apply (Hs fd n w' bs data). }
  pose proof (check_ends HN pending _ Hl closefd fuel so w Hok) as H. unfold ends in H.
  destruct (so_check closefd fuel so w) as [| |[[e so'] w']]; [done|tauto|]. destruct H as (Hok' & Hq & He). split; [done|]. split; [done|].
  destruct e as [e|].
  - destruct He as (Hw & He). split; [done|]. destruct Hq as (_ & _ & _ & _ & _ & _ & <-). unfold dns_so_pollfd, dns_so_events2.
    apply (bool_decide_pack _) in Hw. destruct (q_state (so_q so')); try done; (split; [done|]); first [by left|by right].
  - split; [done|]. destruct He as [Hs _]. unfold dns_so_pollfd, dns_so_events2. by rewrite Hs.
Qed.

(** A system that has [w] datagrams left, all strays but the last, and a query for
    [a.] *)
Definition reply (qid : Z) : bytes := [qid; 0; 0x81; 0x80; 0; 1; 0; 0; 0; 0; 0; 0; 1; 97; 0; 0; 1; 0; 1].

(** A system on which all goes well, with a given [recv]. *)
Definition calm {W} (recv : Z → W → (errno + bytes) * W) : Net W := {|
  n_socket := λ _ _ w, (inr 5, w); n_bind := λ _ _ w, (None, w); n_connect := λ _ _ w, (None, w); n_getpeername := λ _ w, (None, w);
  n_send := λ _ bs w, (inr (zlen bs), w); n_recv := λ _, recv;
  n_close := λ _ w, w; n_random := λ w, (4, w); n_time := λ w, (Some 1, w); n_alloc := λ n w, (Some (replicate (Z.to_nat n) 0), w) |}.

Definition small_net : Net nat :=
  calm (λ n w, if n <? 19 then (inl EAGAIN, w) else match w with O => (inl EAGAIN, w) | S w' => (inr (reply (if (w' =? 0)%nat then 7 else 8)), w') end).

Definition small_socket : dns_socket :=
  mk_so 5 (-1) [] 0 SOCK_DGRAM (sa_in 0 [0; 0; 0; 0]) (sa_in 53 [127; 0; 0; 1]) (mk_permutor 0 0 0 0 0 0 (mk_tea 0 0 0 0 0))
    (mk_stat 0 (mk_count 0 0) (mk_count 0 0) (mk_count 0 0) (mk_count 0 0))
    (mk_query DNS_SO_UDP_INIT 7 ([97; 46] ++ replicate 254 0) 2 1 1 (Some (mk_packet [] memo0 19 (reply 7))) 0 (mk_clock 0 0)
       (Some (mk_packet [] memo0 12 (replicate 32 0))) [0; 0] 0 0).

Lemma small_net_straight : NetOk small_net ∧ straight small_net ∧ quiet small_net id.
Proof.
  assert (∀ n w r, (@n_recv _ small_net 5 n w).1 = inr r → 19 <= n ∧ ∃ i, r = reply i ∧ (i = 7 ∨ i = 8)) as Hr.
  { intros n w r. cbn. destruct (Z.ltb_spec n 19); [done|]. destruct w as [|w]; [done|]. intros [= <-]. split; [done|].
    eexists. split; [done|]. destruct (w =? 0)%nat; auto. }
  split; [|split].
  - intros fd n w r (Hn & i & -> & Hi)%(Hr n w). split; [cbn; lia|]. destruct Hi as [->| ->]; by vm_compute; repeat constructor.
  - intros fd n w r data (Hn & i & -> & Hi)%(Hr n w) Hlen Hd.
    assert (mem_write 0 (reply i) data = reply i ++ drop 19 data) as -> by (rewrite mem_write_split by (cbn in *; lia); by rewrite take_0).
    assert (bytes_ok (reply i ++ drop 19 data)) as Hdata.
    { apply Forall_app. split; [destruct Hi as [->| ->]; by vm_compute; repeat constructor|by apply Forall_drop]. }
    assert (data_ok (reply i ++ drop 19 data) (zlen (reply i))) as Hdok by (split; [done|]; rewrite length_app; cbn; lia).
    apply (name_no_loop _ _ Hdok _ [[97]]). apply name_label; [|apply name_root].
    + split; [done|]. split; [cbn; lia|]. split; [cbn; lia|]. done.
    + split; [cbn; lia|done].
  - split; cbn; [done|done|]. intros fd n w. destruct (n <? 19); [done|]. destruct w as [|w]; cbn; [done|]. split; [lia|]. intros _. unfold id. lia.
Qed.

Lemma dns_so_check_answers_witness :
  ∃ so' w', so_check (N := small_net) None 4 small_socket 2%nat = Returns (None, so', w') ∧ answered so' ∧ so_ok small_socket.
Proof.
  destruct small_net_straight as (HN & Hs & Hq).
  assert (so_ok small_socket) as Hok.
  { split; [done|by apply (bool_decide_unpack _)| | |done].
    - eexists. split; [done|]. by vm_compute; repeat constructor.
    - eexists. split; [done|]. split; [|done]. by vm_compute; repeat constructor. }
  pose proof (dns_so_check_answers small_net id None 4 small_socket 2%nat HN Hok) as H.
  assert (match so_check (N := small_net) None 4 small_socket 2%nat with Returns (e, _, _) => bool_decide (e = None) | _ => false end = true) as Hrun by (vm_compute; reflexivity).
  destruct (so_check (N := small_net) None 4 small_socket 2%nat) as [| |[[e so'] w']]; [done|done|]. apply bool_decide_eq_true in Hrun as ->.
  exists so', w'. split; [done|]. destruct H as (_ & _ & Ha & _). done.
Defined.

(** One datagram with the number of the query, and for its name the label [a] and
    a pointer back to it, is enough for [dns_so_check] not to return. *)
Example so_check_hangs fuel :
  so_check (N := calm (λ _ _, (inr (take 14 (reply 7) ++ [0xc0; 12; 0; 1; 0; 1]), tt))) None (S fuel) small_socket tt = Forever.
Proof. reflexivity. Qed.
