(* ===== verification/DnsAppend.v ===== *)
(** Adding to a packet: what was in it stays, names stay names, and the data
    appended for a record parses as that data. *)

From S2P Require Import Prelude DnsPacket DnsName DnsExpand DnsSkip DnsPush DnsRR DnsBuf DnsData.

Open Scope Z_scope.

(** ** What stays *)

(** From [b] on and below an end, the memory is the same. *)
Definition kept_from (b e : Z) (data data' : bytes) : Prop :=
  length data' = length data ∧ ∀ i : nat, b <= Z.of_nat i < e → data' !! i = data !! i.

(** All of it, and what is behind the header. *)
Abbreviation kept := (kept_from 0).
Abbreviation kept_behind := (kept_from 12).

Lemma kept_weaker b b' e data data' : b <= b' → kept_from b e data data' → kept_from b' e data data'.
Proof. intros Hb [H1 H2]. split; [done|]. intros i Hi. apply H2. lia. Qed.

Lemma kept_all e data data' : kept e data data' → kept_behind e data data'.
Proof. by apply kept_weaker. Qed.

Lemma kept_refl b e data : kept_from b e data data.
Proof. by split. Qed.

Lemma kept_trans b e e' data1 data2 data3 :
  kept_from b e data1 data2 → kept_from b e' data2 data3 → kept_from b (Z.min e e') data1 data3.
Proof. intros [H1 H2] [H3 H4]. split; [congruence|]. intros i Hi. rewrite H4, H2 by lia. done. Qed.

Lemma kept_less b e e' data data' : kept_from b e data data' → e' <= e → kept_from b e' data data'.
Proof. intros [H1 H2] He. split; [done|]. intros i Hi. apply H2. lia. Qed.

(** Stores at an end, or before. *)
Lemma kept_write b e p bs data : e <= Z.of_nat p ∨ Z.of_nat p + zlen bs <= b → kept_from b e data (mem_write p bs data).
Proof.
  intros Hp. split; [apply mem_write_keeps_length|]. intros i Hi. rewrite mem_write_lookup.
  destruct (Nat.ltb_spec i (length data)); [|symmetry; apply lookup_ge_None_2; lia].
  destruct (Nat.leb_spec p i), (Nat.ltb_spec i (p + length bs)); cbn [andb]; done || lia.
Qed.

Lemma kept_take e data data' : length data' = length data → take (Z.to_nat e) data' = take (Z.to_nat e) data → kept e data data'.
Proof.
  intros Hl Ht. split; [done|]. intros i Hi. rewrite <-(lookup_take_lt data' (Z.to_nat e)), <-(lookup_take_lt data (Z.to_nat e)) by lia.
  by rewrite Ht.
Qed.

Lemma kept_holds b e data data' src bs : kept_from b e data data' → 0 <= b <= src → src + zlen bs <= e →
  holds data src bs → holds data' src bs.
Proof.
  intros [Hl Hk] Hs Hfit [k Hh]. unfold holds. exists (drop (Z.to_nat src + length bs) data').
  apply list_eq. intros i. rewrite lookup_drop. destruct (decide (i < length bs)%nat) as [Hi|Hi].
  - rewrite lookup_app_l by lia. rewrite Hk by lia. rewrite <-lookup_drop, Hh. by rewrite lookup_app_l by lia.
  - rewrite lookup_app_r by lia. rewrite lookup_drop. f_equal. lia.
Qed.

(** ** Names behind the header *)

(** A packet without its header: no name begins there, or goes on there. *)
Definition body (data : bytes) : bytes := replicate 12 128 ++ drop 12 data.

Lemma body_header data (i : nat) : (i < 12)%nat → body data !! i = Some 128.
Proof. intros. unfold body. rewrite lookup_app_l by (rewrite length_replicate; lia). by apply lookup_replicate_2. Qed.

Lemma body_behind data (i : nat) : (12 <= i)%nat → body data !! i = data !! i.
Proof.
  intros. unfold body. rewrite lookup_app_r by (rewrite length_replicate; lia). rewrite length_replicate, lookup_drop. f_equal. lia.
Qed.

Lemma body_length data : 12 <= zlen data → zlen (body data) = zlen data.
Proof. intros. unfold body. rewrite length_app, length_replicate, length_drop. lia. Qed.

Lemma body_ok data e : data_ok data e → 12 <= zlen data → data_ok (body data) e.
Proof.
  intros (Hok & He & H16) H12. split; [|by rewrite body_length]. apply Forall_app. split; [|by apply Forall_drop].
  by repeat constructor.
Qed.

Lemma body_holds data src bs : 12 <= src → holds data src bs → holds (body data) src bs.
Proof.
  intros Hs [k Hh]. exists k. apply list_eq. intros i. rewrite <-Hh, !lookup_drop. apply body_behind. lia.
Qed.

Lemma body_view_gen data e data1 e1 : e <= e1 → (∀ i : nat, 12 <= Z.of_nat i < e → data1 !! i = data !! i) → view (body data) e data1 e1.
Proof.
  intros He Hk.
  assert (∀ (i : nat) b, body data !! i = Some b → b ≠ 128 → Z.of_nat i < e → data1 !! i = Some b) as Hget.
  { intros i b Hi Hb Hie. destruct (decide (i < 12)%nat); [rewrite body_header in Hi by done; simplify_eq|].
    rewrite body_behind in Hi by lia. by rewrite Hk by lia. }
  assert (∀ (i : nat) b, body data !! i = Some b → b ≠ 128 → 12 <= Z.of_nat i) as H12.
  { intros i b Hi Hb. destruct (decide (i < 12)%nat); [rewrite body_header in Hi by done; simplify_eq|lia]. }
  split; [|split].
  - intros src l (Hs & Hfit & Hl & Hb & Hread). pose proof (H12 _ _ Hb ltac:(lia)). split; [done|]. split; [lia|]. split; [done|].
    split; [apply Hget; [done|lia|lia]|]. apply list_eq. intros i.
    transitivity (mem_read (Z.to_nat (src + 1)) (length l) (body data) !! i); [|by rewrite Hread].
    destruct (decide (i < length l)%nat) as [Hi|Hi].
    + rewrite !mem_read_lookup by done. rewrite body_behind by lia. apply Hk. lia.
    + unfold mem_read. rewrite !lookup_ge_None_2; [done| |]; rewrite length_take; lia.
  - intros src tgt (Hs & Hfit & hi & lo & Hhi & Hlo & H192 & ->). pose proof (H12 _ _ Hhi ltac:(lia)).
    split; [done|]. split; [lia|]. exists hi, lo. split; [apply Hget; [done|lia|lia]|].
    rewrite body_behind in Hlo by lia. split; [by rewrite Hk by lia|done].
  - intros src [Hs Hr]. split; [lia|]. apply Hget; [done|lia|lia].
Qed.

Lemma kept_view e data data' e' : kept_behind e data data' → e <= e' → view (body data) e data' e'.
Proof. intros [_ Hk] He. by apply body_view_gen. Qed.

Lemma kept_body e data data' e' : kept_behind e data data' → e <= e' → view (body data) e (body data') e'.
Proof. intros [_ Hk] He. apply body_view_gen; [done|]. intros i Hi. rewrite body_behind by lia. by apply Hk. Qed.

(** ** Packets whose names are known *)

(** The names of the dictionary are behind the header and below [e]. *)
Record names_ok (K : nat) (e : Z) (P : dns_packet) : Prop := {
  no_packet : packet_ok P;
  no_size : p_size P < 65536;
  no_end : 12 <= e <= p_end P;
  no_dict : dict_in (body (p_data P)) e K (p_dict P) }.

Lemma names_size K e P : names_ok K e P → 12 <= zlen (p_data P) ∧ p_end P <= zlen (p_data P) < 65536.
Proof. intros [(_ & He & _) Hs Hend _]. unfold p_size in Hs. lia. Qed.

(** Other memory, other ends: as long as what is below [e] is kept. *)
Lemma names_kept K e P P' : names_ok K e P → kept_behind e (p_data P) (p_data P') → bytes_ok (p_data P') → p_dict P' = p_dict P →
  e <= p_end P' <= p_size P → names_ok K e P'.
Proof.
  intros [(Hok & He & H16) Hs Hend Hdict] Hk Hok' Hd Hend'. unfold p_size in *. pose proof (proj1 Hk) as Hl.
  split; [split; [done|rewrite Hl; lia]|unfold p_size; by rewrite Hl|lia|]. rewrite Hd.
  eapply Forall_impl; [exact Hdict|]. intros x Hx Hx0. destruct (Hx Hx0) as (k & Hk1 & Hk2). exists k. split; [|done].
  eapply name_view; [|exact Hk1]. eapply kept_body; [exact Hk|lia].
Qed.

(** Where a name was written, whatever else was, its memory and the dictionary
    say so. *)
Lemma names_again K e P bs ls ls' P3 src :
  names_ok K e P → name_bytes (body (p_data P)) e K bs ls ls' → Forall label_ok ls → NoDup (lower_name ls) →
  kept_behind e (p_data P) (p_data P3) → bytes_ok (p_data P3) → holds (p_data P3) src bs → e <= src → src + zlen bs <= p_end P3 <= p_size P →
  (∀ d, d ∈ p_dict P3 → d = src ∨ d ∈ p_dict P) → names_ok (S K) (p_end P3) P3.
Proof.
  intros HN Hbs Hls Hnd Hk Hok Hh Hsrc Hfit Hin. pose proof HN as [HP Hs Hend Hdict]. pose proof (names_size _ _ _ HN) as [H12 HE].
  destruct (name_bytes_labels _ _ _ _ _ _ Hbs Hls) as (Hlow & Hls' & Hpos & _). pose proof (proj1 Hk) as Hlen. unfold p_size in *.
  assert (packet_ok P3) as HP3 by (split; [done|rewrite Hlen; lia]).
  split; [done|unfold p_size; by rewrite Hlen|lia|].
  assert (view (body (p_data P)) e (body (p_data P3)) (p_end P3)) as Hv by (apply (kept_body e); [done|lia]).
  eapply dict_grows; [exact Hdict|exact Hv|exact Hin|]. split; [|split; [done|by rewrite Hlow]].
  destruct (name_bytes_name _ _ _ _ _ _ (body (p_data P3)) (p_end P3) src Hbs Hls Hv) as [Hname _]; [apply body_ok; [done|lia]|lia|lia| |done].
  apply body_holds; [lia|done].
Qed.

(** [dns_d_push], in such a packet. *)
Lemma push_name K e P ls text :
  names_ok K e P → (K <= DNS_D_MAXPTRS)%nat → Forall label_ok ls → text_of ls text →
  ∃ err P', dns_d_push P text = Returns (err, P') ∧ kept (p_end P) (p_data P) (p_data P') ∧ bytes_ok (p_data P') ∧ p_memo_ P' = p_memo_ P ∧
    match err with
    | Some err => err = DNS_ENOBUFS ∧ p_end P' = p_end P ∧ p_dict P' = p_dict P
    | None =>
      ∃ bs ls', name_bytes (body (p_data P)) e K bs ls ls' ∧ 0 < zlen bs ∧ p_end P' = p_end P + zlen bs ∧ p_end P' <= p_size P ∧
        holds (p_data P') (p_end P) bs ∧ ∀ d, d ∈ p_dict P' → d = p_end P ∨ d ∈ p_dict P
    end.
Proof.
  intros HN HK Hls Ht. pose proof HN as [HP Hs Hend Hdict].
  destruct (d_push_writes P (body (p_data P)) e K ls text) as (err & P' & Hpush & Hlen & Hok & Htake & Hmemo & Hcase); try done.
  { apply (kept_view e); [apply kept_refl|lia]. }
  exists err, P'. split; [done|]. pose proof (kept_take _ _ _ Hlen Htake) as Hk. do 3 (split; [done|]).
  destruct err as [err|]; [by destruct Hcase as (-> & _ & ? & ?)|].
  destruct Hcase as (bs & ls' & Hbs & He' & Hfit & Hh & Hin). exists bs, ls'.
  destruct (name_bytes_labels _ _ _ _ _ _ Hbs Hls) as (_ & _ & Hpos & _). done.
Qed.

(** ** Reading what is there *)

Lemma holds_lookup data src bs (i : nat) b : 0 <= src → holds data src bs → bs !! i = Some b → data !! Z.to_nat (src + Z.of_nat i) = Some b.
Proof.
  intros Hs [k Hh] Hi. replace (Z.to_nat (src + Z.of_nat i)) with (Z.to_nat src + i)%nat by lia.
  rewrite <-lookup_drop, Hh. by apply lookup_app_l_Some.
Qed.

Lemma holds_fits data src bs : 0 <= src → bs ≠ [] → holds data src bs → src + zlen bs <= zlen data.
Proof.
  intros Hs Hne [k Hh]. apply (f_equal length) in Hh. rewrite length_drop, length_app in Hh.
  destruct bs; [done|]. simpl in Hh |- *. lia.
Qed.

Lemma holds_rd data src bs (i : nat) b : 0 <= src → holds data src bs → bs !! i = Some b → rd data (src + Z.of_nat i) = Returns b.
Proof. intros. apply rd_at. by eapply holds_lookup. Qed.

Lemma holds_rd_n data src bs : 0 <= src <= zlen data → holds data src bs → rd_n data src (zlen bs) = Returns bs.
Proof.
  intros Hs Hh. assert (src + zlen bs <= zlen data).
  { destruct bs as [|b bs]; [cbn; lia|]. by apply holds_fits; [lia| |]. }
  rewrite rd_n_in by done. rewrite Nat2Z.id. by rewrite holds_read.
Qed.

(** A number in network order. *)
Lemma be16_ok x : bytes_ok (be16 x).
Proof.
  unfold be16. rewrite !(Z.land_comm 255), !land_255. repeat (apply Forall_cons_2); [| |done];
    unfold byte_ok, is_uint; apply Z.mod_pos_bound; lia.
Qed.

Lemma be16_word x : 0 <= x < 65536 → ∃ hi lo, be16 x = [hi; lo] ∧ word hi lo = x.
Proof.
  intros Hx. eexists _, _. split; [done|]. pose proof (be16_ok x) as Hok. unfold be16 in Hok.
  apply Forall_cons in Hok as [H1 Hok]. apply Forall_cons in Hok as [H2 _]. rewrite word_eq by done.
  rewrite !(Z.land_comm 255), !land_255, Z.shiftr_div_pow2 by lia. change (2 ^ 8) with 256.
  rewrite (Z.mod_small (x / 256)) by (split; [apply Z.div_pos; lia|apply Z.div_lt_upper_bound; lia]).
  pose proof (Z.div_mod x 256). lia.
Qed.

Lemma holds_rd16 data src x : 0 <= src → 0 <= x < 65536 → holds data src (be16 x) → rd16 data src = Returns x.
Proof.
  intros Hs Hx Hh. destruct (be16_word x Hx) as (hi & lo & E & Hw). rewrite E in Hh. unfold rd16.
  pose proof (holds_rd _ _ _ 0 hi Hs Hh eq_refl) as H1. pose proof (holds_rd _ _ _ 1 lo Hs Hh eq_refl) as H2.
  rewrite Z.add_0_r in H1. rewrite H1. in_run. change (Z.of_nat 1) with 1 in H2. rewrite H2. in_run. by rewrite Hw.
Qed.

(** ** Stores *)

Lemma holds_mem_write p bs data : Z.of_nat p + zlen bs <= zlen data → holds (mem_write p bs data) (Z.of_nat p) bs.
Proof.
  intros Hl. unfold holds. rewrite Nat2Z.id, mem_write_split by lia.
  rewrite drop_app_ge by (rewrite length_take; lia). rewrite length_take, Nat.min_l, Nat.sub_diag, drop_0 by lia. by eexists.
Qed.

Lemma holds_other data src bs p vs : 0 <= src → Z.of_nat p + zlen vs <= src ∨ src + zlen bs <= Z.of_nat p →
  holds data src bs → holds (mem_write p vs data) src bs.
Proof.
  intros Hs Hp [k Hh]. unfold holds. exists (drop (Z.to_nat src + length bs) (mem_write p vs data)).
  apply list_eq. intros i. rewrite lookup_drop. destruct (decide (i < length bs)%nat) as [Hi|Hi].
  - rewrite lookup_app_l by lia. rewrite mem_write_lookup.
    assert (data !! (Z.to_nat src + i)%nat = bs !! i) as E by (rewrite <-lookup_drop, Hh; by apply lookup_app_l).
    destruct (lookup_lt_is_Some_2 bs i Hi) as [b Hb]. rewrite Hb in E. pose proof (lookup_lt_Some _ _ _ E).
    rewrite (proj2 (Nat.ltb_lt _ _)) by lia. rewrite E, Hb.
    destruct (Nat.leb_spec p (Z.to_nat src + i)), (Nat.ltb_spec (Z.to_nat src + i) (p + length vs)); cbn [andb]; done || lia.
  - rewrite lookup_app_r by lia. rewrite lookup_drop. f_equal. lia.
Qed.

Lemma bytes_ok_write p vs data : bytes_ok data → bytes_ok vs → bytes_ok (mem_write p vs data).
Proof. intros Hd Hv. rewrite <-(Nat2Z.id p). by apply bytes_ok_put. Qed.

(** [p_store] and [p_append]: [e] is the end of the names. *)
Lemma p_store_spec K e P at_ bs : names_ok K e P → e <= at_ → at_ + zlen bs <= p_size P → bytes_ok bs →
  p_store at_ bs P = Returns (set_data (mem_write (Z.to_nat at_) bs (p_data P)) P) ∧
  names_ok K e (set_data (mem_write (Z.to_nat at_) bs (p_data P)) P) ∧
  kept at_ (p_data P) (mem_write (Z.to_nat at_) bs (p_data P)) ∧ holds (mem_write (Z.to_nat at_) bs (p_data P)) at_ bs.
Proof.
  intros HN He Hfit Hok. pose proof HN as [(HPok & HE & H16) Hs Hend _]. unfold p_size in *.
  assert (kept at_ (p_data P) (mem_write (Z.to_nat at_) bs (p_data P))) as Hk by (apply kept_write; lia).
  split; [unfold p_store, wr; by ltb_no|]. split; [|split; [done|]].
  - eapply names_kept; [done|cbn; by apply kept_all, (kept_less _ at_)|cbn; by apply bytes_ok_write|done|cbn; unfold p_size; lia].
  - pose proof (holds_mem_write (Z.to_nat at_) bs (p_data P)) as Hh. rewrite Z2Nat.id in Hh by lia. apply Hh. lia.
Qed.

Lemma p_size_store q bs P : p_size (set_data (mem_write q bs (p_data P)) P) = p_size P.
Proof. unfold p_size. cbn. by rewrite mem_write_keeps_length. Qed.

Lemma append_spec K e P bs : names_ok K e P → p_end P + zlen bs <= p_size P → bytes_ok bs →
  ∃ P', p_append bs P = Returns P' ∧ p_end P' = p_end P + zlen bs ∧ names_ok K e P' ∧ kept (p_end P) (p_data P) (p_data P') ∧
    holds (p_data P') (p_end P) bs ∧ p_memo_ P' = p_memo_ P ∧ p_dict P' = p_dict P ∧ p_data P' = mem_write (Z.to_nat (p_end P)) bs (p_data P).
Proof.
  intros HN Hfit Hok. pose proof HN as [(HPok & HE & H16) Hs Hend _].
  destruct (p_store_spec K e P (p_end P) bs HN ltac:(lia) Hfit Hok) as (_ & HN' & Hk & Hh). unfold p_append, wr. unfold p_size in Hfit, Hs. ltb_no.
  in_run. eexists. split; [done|]. split; [done|]. split; [|done].
  eapply names_kept; [exact HN'|apply kept_refl|apply HN'|done|]. cbn. unfold p_size. cbn. rewrite mem_write_keeps_length. lia.
Qed.

Lemma names_more K K' e e' P : names_ok K e P → (K <= K')%nat → e <= e' <= p_end P → names_ok K' e' P.
Proof.
  intros [HP Hs Hend Hdict] HK He. split; [done|done|lia|]. eapply Forall_impl; [exact Hdict|]. intros x Hx Hx0.
  destruct (Hx Hx0) as (k & Hk & Hk'). exists k. split; [|done].
  eapply name_more; [eapply name_more_all; [|exact HK]|exact HK]. eapply name_view; [|exact Hk].
  apply view_below; [lia|done].
Qed.

(** [set_end] within the packet. *)
Lemma names_end K e P x : names_ok K e P → e <= x <= p_size P → names_ok K e (set_end x P).
Proof. intros HN Hx. eapply names_kept; [exact HN|apply kept_refl|apply HN|done|done]. Qed.
