(* ===== verification/DnsTcp.v ===== *)
(** Messages of the resolver over TCP, whatever the pieces they are sent and
    received in. *)

From S2P Require Import Prelude DnsPacket DnsName DnsExpand DnsSkip DnsPush DnsRR DnsBuf DnsData DnsAppend DnsPermutor DnsGrep DnsSocket DnsAnswer.

Open Scope Z_scope.

(** A message: its length, and then the packet. *)
Definition frame (P : dns_packet) : bytes := be16 (p_end P) ++ take (Z.to_nat (p_end P)) (p_data P).

Lemma be16_of_word hi lo : byte_ok hi → byte_ok lo → be16 (word hi lo) = [hi; lo] ∧ 0 <= word hi lo < 65536.
Proof.
  intros Hh Hl. rewrite word_eq by done. unfold byte_ok, is_uint in *. change (2 ^ 8) with 256 in *. split; [|lia].
  unfold be16. rewrite Z.shiftr_div_pow2, !(Z.land_comm 255), !land_255 by lia. change (2 ^ 8) with 256.
  rewrite Z.div_add_l, Z.div_small, Z.add_0_r, (Z.mod_small hi), Z.add_comm, Z.mod_add, Z.mod_small by lia. done.
Qed.

(** ** Receiving *)

(** [coming w] is what is still to come on the descriptor, in pieces of any
    size; a block of memory has the length that was asked for. *)
Record streamed {W} (N : Net W) (fd : Z) (coming : W → bytes) : Prop := {
  streamed_recv n w : coming w =
    match (n_recv fd n w).1 with inl _ => coming (n_recv fd n w).2 | inr bs => bs ++ coming (n_recv fd n w).2 end;
  streamed_alloc n w : coming (n_alloc n w).2 = coming w;
  streamed_block n w data : (n_alloc n w).1 = Some data → zlen data = n ∧ bytes_ok data }.

(** [r] are the bytes that the socket has of the message: in the two bytes before
    the data, and when the length is known, in the data. *)
Record received (so : dns_socket) (r : bytes) : Prop := {
  rcv_bytes : bytes_ok r;
  rcv_apos : q_apos (so_q so) = zlen r;
  rcv_pad : length (q_pad (so_q so)) = 2%nat ∧ bytes_ok (q_pad (so_q so));
  rcv_data : ∃ P, q_answer (so_q so) = Some P ∧ bytes_ok (p_data P) ∧
    if zlen r <? 2 then q_alen (so_q so) = 0 ∧ take (length r) (q_pad (so_q so)) = r
    else ∃ hi lo body, r = hi :: lo :: body ∧ q_alen (so_q so) = word hi lo ∧ zlen body <= word hi lo <= p_size P ∧
      take (length body) (p_data P) = body }.

(** The socket when there was no memory for the answer of the length [r]: the length
    is received, and not kept. *)
Record starved (so : dns_socket) (r : bytes) : Prop := {
  st_length : length r = 2%nat;
  st_apos : q_apos (so_q so) = 2;
  st_alen : q_alen (so_q so) = 0;
  st_answer : is_Some (q_answer (so_q so)) }.

(** The next call then takes it for a whole message, which is empty. *)
Lemma starved_recv {W} (N : Net W) fuel so r w : starved so r →
  ∃ so' P, dns_so_tcp_recv fuel so w = Returns (None, so', w) ∧ q_answer (so_q so') = Some P ∧ p_end P = 0.
Proof.
  intros [_ Hap Hal [P HP]]. do 2 eexists. unfold dns_so_tcp_recv.
  destruct fuel; cbn [tcp_recv_loop]; rewrite Hap, Hal, HP; (split; [reflexivity|by split]).
Qed.

(** The turns of the loop that may be left. *)
Definition turns (so : dns_socket) : Z := if q_apos (so_q so) <? 2 then 65538 - q_apos (so_q so) else q_alen (so_q so) + 2 - q_apos (so_q so).

Lemma written_front {A} (r bs m : list A) : take (length r) m = r → (length r + length bs <= length m)%nat →
  take (length r + length bs) (mem_write (length r) bs m) = r ++ bs.
Proof.
  intros Hr Hl. rewrite mem_write_split by lia. rewrite Hr, app_assoc.
  rewrite take_app_le by (rewrite length_app; lia). apply take_ge. rewrite length_app. lia.
Qed.

Section Receive.
Context {W : Type} {N : Net W} (coming : W → bytes) (HN : NetOk N).

(** What [dns_so_tcp_recv] leads to, from [r] received in state [w]. *)
Definition recv_result (so : dns_socket) (r : bytes) (w : W) (x : option dns_errno * dns_socket) (w' : W) : Prop :=
  let '(e, so') := x in
  so_tcp so' = so_tcp so ∧
  ∃ r', r ++ coming w = r' ++ coming w' ∧
    match e with
    | None => ∃ P, q_answer (so_q so') = Some P ∧ packet_ok P ∧ r' = frame P
    | Some e => received so' r' ∧ (e = DNS_EUNKNOWN ∨ ∃ n, e = DNS_ESYS n) ∨ starved so' r' ∧ e = DNS_ESYS ENOMEM
    end.

Lemma recv_result_after so so' r r' w w' x w'' :
  so_tcp so' = so_tcp so → r ++ coming w = r' ++ coming w' → recv_result so' r' w' x w'' → recv_result so r w x w''.
Proof using. destruct x as [e so'']. intros Hf Hr (Hf' & r'' & Hr' & He). split; [congruence|]. exists r''. split; [congruence|done]. Qed.

(** The last turn. *)
Lemma recv_whole so r w : received so r → ¬ q_apos (so_q so) < q_alen (so_q so) + 2 →
  ∃ P, q_answer (so_q so) = Some P ∧ recv_result so r w (None, on_tcp_rcvd once (with_answer (Some (set_end (q_alen (so_q so)) P)) (q_pad (so_q so)) (q_alen (so_q so)) (q_apos (so_q so)) so)) w.
Proof using.
  intros [Hr Hap _ (P & HA & Hb & Hd)] Hge. exists P. split; [done|]. split; [done|]. exists r. split; [done|].
  eexists. split; [done|]. destruct (Z.ltb_spec (zlen r) 2); [lia|]. destruct Hd as (hi & lo & body & -> & Hal & Hbl & Hbody).
  apply Forall_cons in Hr as [Hhi Hr]. apply Forall_cons in Hr as [Hlo Hr]. destruct (be16_of_word hi lo Hhi Hlo) as [Hbe Hw].
  rewrite Hap, Hal in *. cbn [length] in *. unfold p_size in *.
  split; [split; [done|cbn; lia]|]. unfold frame. cbn [set_end p_end p_data]. rewrite Hbe. cbn [app]. do 2 f_equal.
  assert (Z.to_nat (word hi lo) = length body) as -> by lia. done.
Qed.

(** The first two bytes. *)
Lemma recv_head so r bs P : received so r → q_answer (so_q so) = Some P → zlen r < 2 → bytes_ok bs → zlen r + zlen bs <= 2 →
  let buf := mem_write (length r) bs (q_pad (so_q so) ++ p_data P) in
  length (take 2 buf) = 2%nat ∧ bytes_ok (take 2 buf) ∧ take (length (r ++ bs)) (take 2 buf) = r ++ bs ∧ drop 2 buf = p_data P.
Proof using.
  intros [Hr Hap [Hpl Hpb] (P' & HA & Hb & Hd)] HA' H2 Hbs Hle. rewrite HA in HA'. injection HA' as ->.
  rewrite (proj2 (Z.ltb_lt _ _)) in Hd by done. destruct Hd as [_ Hd]. intros buf.
  assert (length buf = (2 + length (p_data P))%nat) as Hbl by (unfold buf; rewrite mem_write_keeps_length, length_app; lia).
  split; [rewrite length_take; lia|]. split; [|split].
  - apply Forall_take. unfold buf. rewrite <-(Nat2Z.id (length r)). apply bytes_ok_put; [by apply Forall_app|done].
  - rewrite take_take, Nat.min_l by (rewrite length_app; lia). rewrite length_app. apply written_front; [|rewrite length_app; lia].
    by rewrite take_app_le by lia.
  - unfold buf. rewrite mem_write_split by (rewrite length_app; lia). rewrite drop_app_ge by (rewrite length_take, length_app; lia).
    rewrite length_take, length_app, Nat.min_l, drop_app_ge, drop_drop by (rewrite ?length_app; lia).
    rewrite drop_app_ge by lia. replace (_ + _ - _)%nat with 0%nat by lia. apply drop_0.
Qed.

(** The others. *)
Lemma recv_rest (pad data body bs : bytes) : length pad = 2%nat → take (length body) data = body → (length body + length bs <= length data)%nat →
  let buf := mem_write (S (S (length body))) bs (pad ++ data) in
  take 2 buf = pad ∧ drop 2 buf = mem_write (length body) bs data ∧ take (length (body ++ bs)) (drop 2 buf) = body ++ bs.
Proof using.
  intros Hp Hb Hl buf. assert (buf = pad ++ mem_write (length body) bs data) as ->.
  { unfold buf. rewrite !mem_write_split by (rewrite ?length_app; lia). rewrite take_app_ge, drop_app_ge, Hp by lia.
    rewrite <-app_assoc. do 2 f_equal; [f_equal; lia|]. f_equal. f_equal. lia. }
  rewrite take_app_le, take_ge, drop_app_ge, Hp, drop_0 by lia. split; [done|]. split; [done|]. rewrite length_app. by apply written_front.
Qed.

(** The socket after [recv] gave [bs]. *)
Definition after_recv (so : dns_socket) (P : dns_packet) (bs : bytes) : dns_socket :=
  let buf := mem_write (Z.to_nat (q_apos (so_q so))) bs (q_pad (so_q so) ++ p_data P) in
  on_tcp_rcvd (more (zlen bs)) (with_answer (Some (set_data (drop 2 buf) P)) (take 2 buf) (q_alen (so_q so)) (q_apos (so_q so) + zlen bs) so).

Lemma after_recv_head so r bs P : received so r → q_answer (so_q so) = Some P → zlen r + zlen bs < 2 → bytes_ok bs → received (after_recv so P bs) (r ++ bs).
Proof using.
  intros Hrcv HA H2 Hbs. destruct (recv_head so r bs P Hrcv HA ltac:(lia) Hbs ltac:(lia)) as (Hl & Hok & Hfront & Hrest).
  destruct Hrcv as [Hr Hap _ (P' & HA' & Hb & Hd)]. rewrite HA in HA'. injection HA' as <-. rewrite (proj2 (Z.ltb_lt _ _)) in Hd by lia.
  unfold after_recv. rewrite Hap, Nat2Z.id. split; cbn [so_q q_apos q_alen q_pad q_answer with_answer with_q on_tcp_rcvd with_stat].
  - by apply Forall_app.
  - rewrite length_app. lia.
  - done.
  - eexists. split; [done|]. cbn [p_data set_data]. rewrite Hrest. split; [done|]. rewrite (proj2 (Z.ltb_lt _ _)) by (rewrite length_app; lia). by split; [apply Hd|].
Qed.

Lemma after_recv_rest so r bs P : received so r → q_answer (so_q so) = Some P → 2 <= zlen r → zlen r + zlen bs <= q_alen (so_q so) + 2 → bytes_ok bs →
  received (after_recv so P bs) (r ++ bs).
Proof using.
  intros [Hr Hap [Hpl Hpb] (P' & HA' & Hb & Hd)] HA H2 Hle Hbs. rewrite HA in HA'. injection HA' as <-. rewrite (proj2 (Z.ltb_ge _ _)) in Hd by lia.
  destruct Hd as (hi & lo & body & -> & Hal & Hbl & Hbody). unfold p_size in Hbl. cbn [length] in Hle, Hap, H2.
  destruct (recv_rest (q_pad (so_q so)) (p_data P) body bs Hpl Hbody ltac:(lia)) as (Hpad & Hdata & Hfront).
  unfold after_recv. rewrite Hap, Nat2Z.id. split; cbn [so_q q_apos q_alen q_pad q_answer with_answer with_q on_tcp_rcvd with_stat].
  - by apply Forall_app.
  - rewrite length_app. cbn [length]. lia.
  - by rewrite Hpad.
  - eexists. split; [done|]. cbn [p_data set_data]. split; [rewrite Hdata; by apply bytes_ok_write|].
    rewrite (proj2 (Z.ltb_ge _ _)) by (rewrite length_app; cbn [length]; lia). exists hi, lo, (body ++ bs). split; [done|]. split; [done|].
    split; [rewrite length_app; unfold p_size; cbn [p_data set_data]; rewrite Hdata, mem_write_keeps_length; lia|done].
Qed.

(** The length is known: there is a new packet for the data. *)
Lemma newanswer_received so alen w hi lo :
  streamed N (so_tcp so) coming → byte_ok hi → byte_ok lo → alen = word hi lo → q_apos (so_q so) = 2 →
  q_alen (so_q so) = 0 → is_Some (q_answer (so_q so)) →
  ends False (dns_so_newanswer so alen) w (λ x w', let '(e, so') := x in
    coming w' = coming w ∧ so_tcp so' = so_tcp so ∧
    match e with
    | Some e => starved so' [hi; lo] ∧ e = DNS_ESYS ENOMEM
    | None => received (with_answer (q_answer (so_q so')) (q_pad (so_q so')) alen (q_apos (so_q so)) so') [hi; lo]
    end).
Proof using.
  intros HS Hhi Hlo -> Hap Hal HA. unfold dns_so_newanswer. apply ends_ask. pose proof (streamed_alloc _ _ _ HS (Z.max (word hi lo) DNS_SO_MINBUF) w) as Hc.
  pose proof (streamed_block _ _ _ HS (Z.max (word hi lo) DNS_SO_MINBUF) w) as Hblock. destruct (n_alloc _ w) as [[data|] w']; cbn [fst snd] in *; [|by apply ends_ret].
  destruct (Hblock data eq_refl) as [Hl Hok]. destruct (be16_of_word hi lo Hhi Hlo) as [_ Hw]. unfold DNS_SO_MINBUF in Hl.
  apply ends_pure. unfold dns_p_init. rewrite (proj2 (Z.ltb_ge _ _)) by lia. apply ends_ret. split; [done|]. split; [done|].
  split; [by repeat (apply Forall_cons_2; [done|])|done|split; [done|by apply (Forall_replicate _ 2)]|]. eexists. split; [done|]. cbn [p_data].
  assert (bytes_ok (mem_write 0 (replicate 12 0) data)) as Hdok by (apply bytes_ok_write; [done|by apply Forall_replicate]).
  split; [done|]. exists hi, lo, []. split; [done|]. split; [done|]. split; [|done]. unfold p_size. cbn [p_data]. rewrite mem_write_keeps_length. cbn [length]. lia.
Qed.

Lemma recv_room so r P : received so r → q_answer (so_q so) = Some P → q_alen (so_q so) + 2 <= zlen (q_pad (so_q so) ++ p_data P).
Proof using.
  intros [_ _ [Hpl _] (P' & HA' & _ & Hd)] HA. rewrite HA in HA'. injection HA' as <-. rewrite length_app. destruct (zlen r <? 2).
  - destruct Hd as [-> _]. lia.
  - destruct Hd as (hi & lo & body & _ & -> & Hl & _). unfold p_size in Hl. lia.
Qed.

Lemma recv_loop fuel so r w : streamed N (so_tcp so) coming → received so r → turns so <= Z.of_nat fuel →
  ends False (tcp_recv_loop fuel (q_alen (so_q so) + 2) so) w (recv_result so r w).
Proof using HN.
  revert so r w. induction fuel as [|fuel IH]; intros so r w HS Hrcv Hturns; cbn [tcp_recv_loop]; pose proof Hrcv as [Hr Hap [Hpl Hpb] (P & HA & Hb & Hd)].
  all: destruct (Z.ltb_spec (q_apos (so_q so)) (q_alen (so_q so) + 2)) as [Hlt|Hge];
    [|destruct (recv_whole so r w Hrcv ltac:(lia)) as (P' & HA' & Hres); rewrite HA'; apply ends_deref; by apply ends_ret].
  { exfalso. unfold turns in Hturns. destruct (Z.ltb_spec (q_apos (so_q so)) 2); lia. }
  rewrite HA. apply ends_deref. apply ends_ask. set (x := n_recv (so_tcp so) _ w).
  pose proof (streamed_recv _ _ _ HS (q_alen (so_q so) + 2 - q_apos (so_q so)) w) as Hcome. fold x in Hcome.
  pose proof (recv_ok (so_tcp so) (q_alen (so_q so) + 2 - q_apos (so_q so)) w) as Hrecv. fold x in Hrecv.
  destruct x.1 as [e|bs].
  { apply ends_ret. split; [done|]. exists r. split; [by rewrite Hcome|]. left. split; [done|]. right. by eexists. }
  destruct (Hrecv bs eq_refl) as [Hbl Hbs]. destruct bs as [|b bs].
  { apply ends_ret. split; [done|]. exists r. split; [by rewrite Hcome|]. left. split; [done|]. by left. }
  set (ch := b :: bs) in *. assert (0 < zlen ch) as Hpos by (subst ch; cbn [length]; lia).
  pose proof (recv_room so r P Hrcv HA) as Hroom. apply ends_pure. unfold wr. rewrite (proj2 (Z.ltb_ge _ _)) by lia.
  change (on_tcp_rcvd _ _) with (after_recv so P ch). 
  assert (∀ so' r' w', so_tcp so' = so_tcp so → r ++ coming w = r' ++ coming w' → received so' r' → turns so' <= Z.of_nat fuel →
    ends False (tcp_recv_loop fuel (q_alen (so_q so') + 2) so') w' (recv_result so r w)) as Hgo.
  { intros so' r' w' Hf Hr' Hrc Ht. eapply ends_mono; [apply (IH so' r' w'); [by rewrite Hf|done|done]|]. intros y w''. by apply recv_result_after. }
  assert (r ++ coming w = (r ++ ch) ++ coming x.2) as Hc by (by rewrite Hcome, app_assoc).
  destruct (Z.ltb_spec (zlen r) 2) as [H2|H2].
  - destruct Hd as [Hal _]. unfold turns in Hturns. rewrite (proj2 (Z.ltb_lt _ _)) in Hturns by lia. rewrite Hal, Hap in *. change (0 =? 0) with true. cbn [andb].
    destruct (Z.leb_spec 2 (zlen r + zlen ch)) as [Hge|Hge].
    + destruct (recv_head so r ch P Hrcv HA H2 Hbs ltac:(lia)) as (Hl2 & Hok2 & Hfront & _). rewrite Nat2Z.id.
      set (pad := take 2 _) in *. rewrite take_ge in Hfront by (rewrite length_app; lia).
      destruct pad as [|hi [|lo [|]]]; try done. cbn [nth]. apply Forall_cons in Hok2 as [Hhi Hok2]. apply Forall_cons in Hok2 as [Hlo _].
      destruct (be16_of_word hi lo Hhi Hlo) as [_ Hw].
      assert (zlen r + zlen ch = 2) as E2 by lia.
      eapply ends_bind.
      * apply (newanswer_received (after_recv so P ch) _ x.2 hi lo); [done|done|done|done|cbn; by rewrite Hap|cbn; by rewrite Hal|by eexists].
      * intros [[e|] so'] w' (Hcw & Hf & He).
        -- apply ends_ret. split; [done|]. exists (r ++ ch). split; [by rewrite Hcw|]. right. by rewrite <-Hfront.
        -- change (q_apos (so_q (after_recv so P ch))) with (q_apos (so_q so) + zlen ch) in He. rewrite Hap in He.
           refine (Hgo _ _ _ _ _ He _); [done|by rewrite Hcw, Hc, Hfront|]. unfold turns. cbn [with_answer with_q so_q q_apos q_alen]. rewrite E2. change (2 <? 2) with false. cbv iota. lia.
    + pose proof (Hgo (after_recv so P ch) (r ++ ch) x.2 eq_refl Hc) as Hg. change (q_alen (so_q (after_recv so P ch))) with (q_alen (so_q so)) in Hg.
      rewrite Hal in Hg. apply Hg; [by apply after_recv_head|]. unfold turns. change (q_apos (so_q (after_recv so P ch))) with (q_apos (so_q so) + zlen ch).
      rewrite Hap, (proj2 (Z.ltb_lt _ _)) by lia. lia.
  - destruct Hd as (hi & lo & body & E & Hal & Hbody & _). rewrite (proj2 (Z.eqb_neq _ _)) by (subst r; cbn [length] in *; lia). cbn [andb].
    unfold turns in Hturns. rewrite (proj2 (Z.ltb_ge _ _)) in Hturns by lia.
    refine (Hgo (after_recv so P ch) (r ++ ch) _ _ Hc _ _); [done|apply after_recv_rest; [done|done|done|lia|done]|]. unfold turns.
    change (q_apos (so_q (after_recv so P ch))) with (q_apos (so_q so) + zlen ch). change (q_alen (so_q (after_recv so P ch))) with (q_alen (so_q so)).
    rewrite (proj2 (Z.ltb_ge _ _)) by lia. lia.
Qed.

End Receive.

(** ** Sending *)

(** [sent w] is what was sent on the descriptor: of something, some. *)
Definition sends {W} (N : Net W) (fd : Z) (sent : W → bytes) : Prop :=
  ∀ bs w, match (n_send fd bs w).1 with
          | inl _ => sent (n_send fd bs w).2 = sent w
          | inr n => (0 < zlen bs → 0 < n) ∧ n <= zlen bs ∧ sent (n_send fd bs w).2 = sent w ++ take (Z.to_nat n) bs
          end.

Lemma be16_length x : length (be16 x) = 2%nat.
Proof. done. Qed.

Lemma frame_length Q : packet_ok Q → zlen (frame Q) = p_end Q + 2.
Proof. intros (_ & He & _). unfold frame, p_size in *. rewrite length_app, length_take, be16_length. lia. Qed.

Lemma frame_read Q n : packet_ok Q → 0 <= n <= p_end Q + 2 →
  rd_n (be16 (p_end Q) ++ p_data Q) n (p_end Q + 2 - n) = Returns (drop (Z.to_nat n) (frame Q)).
Proof.
  intros (_ & He & _) Hn. unfold p_size in He. unfold rd_n. rewrite length_app, be16_length, (proj2 (Z.ltb_ge _ _)) by lia. f_equal. unfold mem_read, frame.
  rewrite take_drop_commute. f_equal. rewrite take_app_ge by (rewrite be16_length; lia). rewrite be16_length. do 2 f_equal. lia.
Qed.

(** What [dns_so_tcp_send] leads to, from a socket of which [q_qout] bytes of the
    message were sent. *)
Definition send_result {W} (sent : W → bytes) (Q : dns_packet) (before : bytes) (x : option dns_errno * dns_socket) (w : W) : Prop :=
  let '(e, so) := x in
  0 <= q_qout (so_q so) <= p_end Q + 2 ∧ sent w = before ++ take (Z.to_nat (q_qout (so_q so))) (frame Q) ∧
  match e with None => q_qout (so_q so) = p_end Q + 2 | Some e => ∃ n, e = DNS_ESYS n end.

Lemma send_loop {W} (N : Net W) (sent : W → bytes) Q before fuel so w : sends N (so_tcp so) sent → packet_ok Q →
  0 <= q_qout (so_q so) <= p_end Q + 2 → sent w = before ++ take (Z.to_nat (q_qout (so_q so))) (frame Q) →
  p_end Q + 2 - q_qout (so_q so) <= Z.of_nat fuel →
  ends False (tcp_send_loop fuel (be16 (p_end Q) ++ p_data Q) 0 (p_end Q + 2) so) w (send_result sent Q before).
Proof.
  intros HS HQ. revert so w HS. induction fuel as [|fuel IH]; intros so w HS Hq Hsent Hf; cbn [tcp_send_loop].
  all: destruct (Z.ltb_spec (q_qout (so_q so)) (p_end Q + 2)); [|apply ends_ret; split; [done|]; split; [done|]; change (q_qout (so_q so) = p_end Q + 2); lia].
  { exfalso. lia. }
  rewrite Z.add_0_l, frame_read by done. apply ends_pure. apply ends_ask. set (bs := drop _ (frame Q)).
  assert (zlen bs = p_end Q + 2 - q_qout (so_q so)) as Hl by (unfold bs; rewrite length_drop; pose proof (frame_length Q HQ); lia).
  pose proof (HS bs w) as Hs. set (x := n_send (so_tcp so) bs w) in *. destruct x.1 as [e|n].
  - apply ends_ret. split; [done|]. split; [by rewrite Hs|by eexists].
  - destruct Hs as (Hpos & Hle & Hs'). specialize (Hpos ltac:(lia)). apply IH; [done|cbn; lia| |cbn; lia]. cbn [on_tcp_sent with_qout with_stat with_q so_q q_qout].
    rewrite Hs', Hsent, <-app_assoc. f_equal. unfold bs. rewrite Z2Nat.inj_add by lia. by rewrite take_take_drop.
Qed.

(** A message ends where its length says. *)
Definition same_message (P Q : dns_packet) : Prop := p_end P = p_end Q ∧ take (Z.to_nat (p_end P)) (p_data P) = take (Z.to_nat (p_end Q)) (p_data Q).

Lemma frame_prefix P Q a b : packet_ok P → packet_ok Q → frame P ++ a = frame Q ++ b → same_message P Q ∧ a = b.
Proof.
  intros (_ & HP & HP16) (_ & HQ & HQ16) H. unfold frame in H. rewrite <-!app_assoc in H. apply app_inj_1 in H as [Hb H]; [|done].
  destruct (be16_word (p_end P) ltac:(lia)) as (h & l & E & W). destruct (be16_word (p_end Q) ltac:(lia)) as (h' & l' & E' & W').
  assert (p_end P = p_end Q) as Ee by (rewrite <-W, <-W'; rewrite E, E' in Hb; by injection Hb as -> ->).
  apply app_inj_1 in H as [Ht ->]; [|rewrite !length_take; unfold p_size in *; lia]. by split.
Qed.

(** C40: From a socket of TCP that has some bytes [r] of a message, however the
    rest comes in pieces, [dns_so_tcp_recv] returns, and reads and writes no
    other memory. If it returns 0, the answer is a packet, and the bytes
    received from the first on were its length and its data, and none after
    them; so that a message that comes is the answer. If it returns an
    error, the bytes received are all kept, so that the next call goes on; except
    when there was no memory for the answer: then exactly the two bytes of the length
    were received, and they are not kept, so that the next call, whatever comes,
    receives nothing and returns 0 with an empty answer. *)
Theorem dns_so_tcp_recv_message {W} (N : Net W) (coming : W → bytes) fuel so r w :
  NetOk N → streamed N (so_tcp so) coming → received so r → 65538 <= Z.of_nat fuel →
  match dns_so_tcp_recv fuel so w with
  | Returns (None, so', w') =>
    so_tcp so' = so_tcp so ∧
    ∃ P, q_answer (so_q so') = Some P ∧ packet_ok P ∧ r ++ coming w = frame P ++ coming w' ∧
      ∀ Q rest, packet_ok Q → r ++ coming w = frame Q ++ rest → same_message P Q ∧ coming w' = rest
  | Returns (Some e, so', w') =>
    so_tcp so' = so_tcp so ∧
    ∃ r', r ++ coming w = r' ++ coming w' ∧
      ((e = DNS_EUNKNOWN ∨ ∃ n, e = DNS_ESYS n) ∧ received so' r' ∨
       e = DNS_ESYS ENOMEM ∧ length r' = 2%nat ∧
         ∀ fuel' w'', ∃ so'' P, dns_so_tcp_recv fuel' so' w'' = Returns (None, so'', w'') ∧ q_answer (so_q so'') = Some P ∧ p_end P = 0)
  | _ => False
  end.
Proof.
  intros HN HS Hr Hf. assert (turns so <= Z.of_nat fuel) as Ht.
  { destruct Hr as [Hrb Hap _ (P & _ & _ & Hd)]. unfold turns. rewrite Hap. destruct (zlen r <? 2); [lia|].
    destruct Hd as (hi & lo & body & -> & -> & _). apply Forall_cons in Hrb as [Hhi Hrb]. apply Forall_cons in Hrb as [Hlo _].
    destruct (be16_of_word hi lo Hhi Hlo) as [_ ?]. lia. }
  pose proof (recv_loop coming HN fuel so r w HS Hr Ht) as H. unfold ends in H. unfold dns_so_tcp_recv.
  destruct (tcp_recv_loop _ _ _ _) as [| |[[[e|] so'] w']]; [done|done| |]; destruct H as (Hfd & r' & Hc & He); (split; [done|]).
  - exists r'. split; [done|]. destruct He as [[Hr' He]|[Hst ->]]; [by left|]. right. split; [done|].
    split; [by apply Hst|]. intros fuel' w''. by apply (starved_recv _ _ _ r').
  - destruct He as (P & HA & HP & ->). exists P. do 3 (split; [done|]). intros Q rest HQ E. by apply frame_prefix; [| |rewrite <-E].
Qed.

(** From a socket of TCP of whose query nothing was sent, however much of it
    the system takes at a time, [dns_so_tcp_send] returns, and reads no other
    memory. What was sent then are the first [qout] bytes of the
    length of the query and its data, and all of them if it returns 0. *)
Theorem dns_so_tcp_send_frames {W} (N : Net W) (sent : W → bytes) fuel so Q w :
  sends N (so_tcp so) sent → q_query (so_q so) = Some Q → packet_ok Q → q_qout (so_q so) = 0 → p_end Q + 2 <= Z.of_nat fuel →
  match dns_so_tcp_send fuel so w with
  | Returns (e, so', w') =>
    0 <= q_qout (so_q so') <= zlen (frame Q) ∧ sent w' = sent w ++ take (Z.to_nat (q_qout (so_q so'))) (frame Q) ∧
    match e with None => sent w' = sent w ++ frame Q | Some e => ∃ n, e = DNS_ESYS n end
  | _ => False
  end.
Proof.
  intros HS Hquery HQ H0 Hf. pose proof (frame_length Q HQ) as Hl. pose proof HQ as (_ & He & _).
  assert (ends False (dns_so_tcp_send fuel so) w (send_result sent Q (sent w))) as H.
  { unfold dns_so_tcp_send. rewrite Hquery. apply ends_deref. rewrite H0. apply send_loop; [done|done|lia| |lia].
    rewrite H0. change (Z.to_nat 0) with 0%nat. by rewrite take_0, app_nil_r. }
  unfold ends in H. destruct (dns_so_tcp_send _ _ _) as [| |[[e so'] w']]; [done|done|]. destruct H as (H1 & H2 & H3). rewrite Hl.
  split; [done|]. split; [done|]. destruct e as [e|]; [done|]. rewrite H2, take_ge; [done|lia].
Qed.

(** A message of three bytes, which comes one byte at a time. *)
Definition drip : Net bytes := {|
  n_socket := λ _ _ w, (inr 5, w); n_bind := λ _ _ w, (None, w); n_connect := λ _ _ w, (None, w); n_getpeername := λ _ w, (None, w);
  n_send := λ _ bs w, (inr (Z.min 2 (zlen bs)), w ++ take 2 bs);
  n_recv := λ _ n w, match w with b :: w' => if (n <? 1) || negb (bool_decide (byte_ok b)) then (inl EAGAIN, w) else (inr [b], w') | [] => (inl EAGAIN, w) end;
  n_close := λ _ w, w; n_random := λ w, (4, w); n_time := λ w, (Some 1, w);
  n_alloc := λ n w, (if n <? 0 then None else Some (replicate (Z.to_nat n) 0), w) |}.

Definition drip_socket (qout : Z) : dns_socket :=
  mk_so (-1) 6 [] 0 SOCK_STREAM (sa_in 0 [0; 0; 0; 0]) (sa_in 53 [127; 0; 0; 1]) (mk_permutor 0 0 0 0 0 0 (mk_tea 0 0 0 0 0))
    (mk_stat 0 (mk_count 0 0) (mk_count 0 0) (mk_count 0 0) (mk_count 0 0))
    (mk_query DNS_SO_TCP_RECV 7 [] 0 1 1 (Some (mk_packet [] memo0 3 [9; 8; 7; 6; 5])) qout (mk_clock 0 0)
       (Some (mk_packet [] memo0 12 (replicate 12 0))) [0; 0] 0 0).

Lemma drip_ok : NetOk drip ∧ streamed drip 6 id.
Proof.
  split; [|split].
  - intros fd n w bs. cbn. destruct w as [|b w]; [done|]. destruct (Z.ltb_spec n 1); [done|]. case_bool_decide; cbn [orb negb]; [|done].
    intros [= <-]. split; [cbn; lia|]. by apply Forall_cons_2.
  - intros n w. cbn. destruct w as [|b w]; [done|]. by destruct ((n <? 1) || _).
  - done.
  - intros n w data. cbn. destruct (Z.ltb_spec n 0); [done|]. intros [= <-]. split; [rewrite length_replicate; lia|by apply Forall_replicate].
Qed.

Lemma dns_so_tcp_recv_message_witness :
  ∃ so' P, dns_so_tcp_recv (N := drip) (Z.to_nat 65538) (drip_socket 0) [0; 3; 9; 8; 7; 1] = Returns (None, so', [1]) ∧ q_answer (so_q so') = Some P ∧
    same_message P (mk_packet [] memo0 3 [9; 8; 7]).
Proof.
  destruct drip_ok as [HN HS].
  assert (received (drip_socket 0) []) as Hr.
  { split; [by apply Forall_nil|done|split; [done|by apply (Forall_replicate _ 2)]|]. eexists. split; [done|]. split; [by apply (Forall_replicate _ 12)|done]. }
  pose proof (dns_so_tcp_recv_message drip id (Z.to_nat 65538) (drip_socket 0) [] [0; 3; 9; 8; 7; 1] HN HS Hr ltac:(lia)) as H.
  assert (match dns_so_tcp_recv (N := drip) (Z.to_nat 65538) (drip_socket 0) [0; 3; 9; 8; 7; 1] with Returns (None, _, _) => true | _ => false end = true)
    as Hrun by (vm_compute; reflexivity).
  destruct (dns_so_tcp_recv _ _ _) as [| |[[[e|] so'] w']]; [done|done|done|]. destruct H as (_ & P & HA & _ & _ & H).
  destruct (H (mk_packet [] memo0 3 [9; 8; 7]) [1]) as [HP Hw]; [by vm_compute; repeat constructor|done|]. unfold id in Hw. rewrite Hw. by exists so', P.
Defined.

Lemma dns_so_tcp_send_frames_witness :
  ∃ so', dns_so_tcp_send (N := drip) 5 (drip_socket 0) [] = Returns (None, so', [0; 3; 9; 8; 7]).
Proof.
  assert (sends drip 6 id) as HS.
  { intros bs w. cbn. unfold id. split; [lia|]. split; [lia|]. f_equal. destruct (Z.min_spec 2 (zlen bs)) as [[? ->]|[? ->]]; [done|].
    rewrite !take_ge by lia. done. }
  pose proof (dns_so_tcp_send_frames drip id 5 (drip_socket 0) (mk_packet [] memo0 3 [9; 8; 7; 6; 5]) [] HS eq_refl
    ltac:(by vm_compute; repeat constructor) eq_refl ltac:(done)) as H.
  assert (match dns_so_tcp_send (N := drip) 5 (drip_socket 0) [] with Returns (None, _, _) => true | _ => false end = true)
    as Hrun by (vm_compute; reflexivity).
  destruct (dns_so_tcp_send _ _ _) as [| |[[[e|] so'] w']]; [done|done|done|]. destruct H as (_ & _ & H). unfold id in H. exists so'. by rewrite H.
Defined.

(** [drip] without memory for an answer. *)
Definition barren : Net bytes := {|
  n_socket := n_socket (Net := drip); n_bind := n_bind (Net := drip); n_connect := n_connect (Net := drip); n_getpeername := n_getpeername (Net := drip);
  n_send := n_send (Net := drip); n_recv := n_recv (Net := drip); n_close := n_close (Net := drip); n_random := n_random (Net := drip);
  n_time := n_time (Net := drip); n_alloc := λ n w, (None, w) |}.

(** The first call fails, and the second, with memory, has an empty answer, before the
    message. *)
Example starved_answer :
  ∃ so so' P, dns_so_tcp_recv (N := barren) 10 (drip_socket 0) [0; 3; 9; 8; 7] = Returns (Some (DNS_ESYS ENOMEM), so, [9; 8; 7]) ∧
    dns_so_tcp_recv (N := drip) 10 so [9; 8; 7] = Returns (None, so', [9; 8; 7]) ∧ q_answer (so_q so') = Some P ∧ p_end P = 0.
Proof. do 3 eexists. split; [vm_compute; reflexivity|]. split; [vm_compute; reflexivity|]. by split. Qed.

(** When a part was sent before, what follows is not the rest of the message:
    [qsrc] is moved by [qout], and [qout] is added to it again. Here two of five bytes
    were sent, and three that come next are behind the message. *)
Example resumed_send : (dns_so_tcp_send (N := drip) 5 (drip_socket 2) [0; 3] ≫= λ r, Returns r.2) = Returns [0; 3; 7; 6; 5].
Proof. reflexivity. Qed.

(** And of a packet with no room after the message, they are no part of it. *)
Example resumed_send_outside :
  let so := with_q (mk_query DNS_SO_TCP_SEND 7 [] 0 1 1 (Some (mk_packet [] memo0 3 [9; 8; 7])) 2 (mk_clock 0 0) None [0; 0] 0 0) (drip_socket 2) in
  dns_so_tcp_send (N := drip) 5 so [0; 3] = Undefined.
Proof. reflexivity. Qed.
