(* ===== verification/DnsTrip.v ===== *)
(** The data of records, written and read back: [dns_any_push] and then
    [dns_any_parse]. *)

From S2P Require Import Prelude DnsPacket DnsName DnsExpand DnsSkip DnsPush DnsRR DnsBuf DnsData DnsGrep DnsAppend.

Open Scope Z_scope.

(** ** Names in arrays *)

(** The string of an array, as labels. *)
Definition host_of (host : bytes) (ls : list bytes) : Prop :=
  text_of ls (cstr host) ∧ Forall label_ok ls ∧ NoDup (lower_name ls) ∧ zlen (name_text ls) <= DNS_D_MAXNAME.

(** What is read for a name: with its last dot, and in another case, perhaps. *)
Definition same_host (host host' : bytes) : Prop :=
  ∃ ls ls', text_of ls (cstr host) ∧ cstr host' = name_text ls' ∧ lower_name ls' = lower_name ls.

Lemma cstr_put dst text : 0 ∉ text → zlen text < zlen dst → cstr (put_nul (put dst 0 text) (zlen text)) = text.
Proof.
  intros H0 Hl. unfold put_nul. rewrite put_length, Z.min_l by lia. unfold put. rewrite mem_write_split by (rewrite mem_write_keeps_length; simpl; lia).
  assert (take (Z.to_nat (zlen text)) (mem_write (Z.to_nat 0) text dst) = text) as ->.
  { rewrite Nat2Z.id, mem_write_split by (simpl; lia). change (Z.to_nat 0) with 0%nat. rewrite take_0. cbn [app]. apply take_app_length. }
  clear Hl. generalize (drop (Z.to_nat (zlen text) + length [0]) (mem_write (Z.to_nat 0) text dst)). intros k.
  induction text as [|b text IH]; [done|]. rewrite not_elem_of_cons in H0. cbn. rewrite (proj2 (Z.eqb_neq b 0)) by naive_solver.
  f_equal. apply IH. naive_solver.
Qed.

Lemma labels_text_nonzero ls : Forall label_ok ls → 0 ∉ labels_text ls.
Proof.
  induction 1 as [|l ls (_ & _ & _ & H0) Hls IH]; [by apply not_elem_of_nil|]. rewrite labels_text_cons.
  rewrite !not_elem_of_app. split; [done|]. split; [|done]. by apply (bool_decide_unpack _).
Qed.

Lemma name_text_nonzero ls : Forall label_ok ls → 0 ∉ name_text ls.
Proof. intros Hls. destruct ls; [by apply (bool_decide_unpack _)|by apply labels_text_nonzero]. Qed.

Lemma lower_text_length ls : ∀ ls', lower_name ls = lower_name ls' → length (labels_text ls) = length (labels_text ls').
Proof.
  induction ls as [|l ls IH]; intros [|l' ls'] He; try done. rewrite !lower_name_cons in He. injection He as H1 H2.
  rewrite !labels_text_cons, !length_app, (IH _ H2). apply (f_equal length) in H1. rewrite !length_map in H1. by rewrite H1.
Qed.

Lemma lower_name_text_length ls ls' : lower_name ls = lower_name ls' → length (name_text ls) = length (name_text ls').
Proof. intros He. destruct ls, ls'; try done. by apply (lower_text_length (_ :: _) (_ :: _)). Qed.

(** A name that was written is read into an array. *)
Lemma expand_host data0 e0 K bs ls ls' P src :
  name_bytes data0 e0 K bs ls ls' → Forall label_ok ls → zlen (name_text ls) <= DNS_D_MAXNAME → (K < DNS_D_MAXPTRS)%nat →
  view data0 e0 (p_data P) (p_end P) → packet_ok P → 0 <= src → src + zlen bs <= p_end P → holds (p_data P) src bs →
  (∃ host, expand_into P src = Returns (inr host) ∧ cstr host = name_text ls' ∧ lower_name ls' = lower_name ls) ∧
  dns_d_skip src P = Returns (src + zlen bs).
Proof.
  intros Hbs Hls Hlen HK Hv HP Hs Hfit Hh. destruct (name_bytes_labels _ _ _ _ _ _ Hbs Hls) as (Hlow & Hls' & _).
  destruct (name_bytes_name _ _ _ _ _ _ _ _ src Hbs Hls Hv HP Hs Hfit Hh) as [Hname Hskip]. split; [|exact Hskip].
  unfold expand_into, dns_d_expand. rewrite (name_expands _ _ HP src ls').
  2: { eapply name_more; [by eapply name_more_all|lia]. }
  in_run. pose proof (name_text_pos _ _ _ _ _ _ Hname). pose proof (lower_name_text_length _ _ Hlow) as El. rewrite El in *.
  unfold DNS_D_MAXNAME in *. eqb_no. leb_no. eexists. split; [done|]. split; [|done]. rewrite <-El. apply cstr_put.
  - by apply name_text_nonzero.
  - rewrite length_replicate, El. lia.
Qed.

(** ** Data *)

(** What can be told of the data that was pushed when it is read. *)
Definition same_any (any any' : dns_any) : Prop :=
  match any, any' with
  | any_mx p host, any_mx p' host' => p = p' ∧ same_host host host'
  | any_ns host, any_ns host' => same_host host host'
  | any_srv p w o target, any_srv p' w' o' target' => p = p' ∧ w = w' ∧ o = o' ∧ same_host target target'
  | _, _ => any = any'
  end.

Definition uint16 (x : Z) : Prop := 0 <= x < 65536.

(** Data of a type, as the struct for it holds it.  [SOA] is left out, and
    [OPT], since what is read has no options. *)
Definition any_ok (t : Z) (any : dns_any) : Prop :=
  match any with
  | any_a addr => t = DNS_T_A ∧ length addr = 4%nat ∧ bytes_ok addr
  | any_aaaa addr => t = DNS_T_AAAA ∧ length addr = 16%nat ∧ bytes_ok addr
  | any_mx p host => t = DNS_T_MX ∧ uint16 p ∧ ∃ ls, host_of host ls
  | any_ns host => (t = DNS_T_NS ∨ t = DNS_T_CNAME ∨ t = DNS_T_PTR) ∧ ∃ ls, host_of host ls
  | any_srv p w o target => t = DNS_T_SRV ∧ uint16 p ∧ uint16 w ∧ uint16 o ∧ ∃ ls, host_of target ls
  | any_sshfp algo type sha1 => t = DNS_T_SSHFP ∧ byte_ok algo ∧ type = DNS_SSHFP_SHA1 ∧ length sha1 = 20%nat ∧ bytes_ok sha1
  | any_rdata data =>
    t ∉ [DNS_T_A; DNS_T_AAAA; DNS_T_MX; DNS_T_NS; DNS_T_CNAME; DNS_T_SOA; DNS_T_SRV; DNS_T_OPT; DNS_T_PTR; DNS_T_SSHFP] ∧
    zlen data <= DNS_TXT_MINDATA ∧ bytes_ok data
  | any_soa _ _ _ _ _ _ _ | any_opt _ _ _ _ _ _ => False
  end.

(** The data is written after its length, and read from any packet that goes on. *)
Definition rdata_reads (t : Z) (any : dns_any) (P P' : dns_packet) : Prop :=
  p_end P + 2 <= p_end P' ∧ holds (p_data P') (p_end P) (be16 (p_end P' - p_end P - 2)) ∧
  ∀ P'' rr, kept_behind (p_end P') (p_data P') (p_data P'') → packet_ok P'' → p_end P' <= p_end P'' →
    rr_type rr = t → rd_p rr = p_end P + 2 → rd_len rr = p_end P' - p_end P - 2 →
    ∃ any', dns_any_parse rr P'' DNS_TXT_MINDATA = Returns (inr any') ∧ same_any any any'.

Definition push_reads (K : nat) (t : Z) (any : dns_any) (P : dns_packet) (r : run (option dns_errno * dns_packet)) : Prop :=
  ∃ err P', r = Returns (err, P') ∧ kept (p_end P) (p_data P) (p_data P') ∧ bytes_ok (p_data P') ∧ p_memo_ P' = p_memo_ P ∧
    match err with
    | Some err => err = DNS_ENOBUFS
    | None => p_end P' <= p_size P ∧ names_ok (K + 2) (p_end P') P' ∧ rdata_reads t any P P'
    end.

Lemma push_fails K t any P P' : kept (p_end P) (p_data P) (p_data P') → bytes_ok (p_data P') → p_memo_ P' = p_memo_ P →
  push_reads K t any P (Returns (Some DNS_ENOBUFS, P')).
Proof. intros. by exists (Some DNS_ENOBUFS), P'. Qed.

(** ** Data that is copied *)

(** [bs] after its length, which is all of what was appended. *)
Lemma plain_data_reads t any P P' bs :
  0 <= p_end P → holds (p_data P') (p_end P) (be16 (zlen bs) ++ bs) → p_end P' = p_end P + 2 + zlen bs → 12 <= p_end P →
  (∀ P'' rr, packet_ok P'' → rr_type rr = t → rd_p rr = p_end P + 2 → rd_len rr = zlen bs → p_end P + 2 + zlen bs <= p_end P'' →
     holds (p_data P'') (p_end P + 2) bs → ∃ any', dns_any_parse rr P'' DNS_TXT_MINDATA = Returns (inr any') ∧ same_any any any') →
  rdata_reads t any P P'.
Proof.
  intros He Hh HE H12 Hread. apply holds_app in Hh as [H1 H2]; [|done]. change (zlen (be16 (zlen bs))) with 2 in H2.
  split; [lia|]. split; [by replace (p_end P' - p_end P - 2) with (zlen bs) by lia|].
  intros P'' rr Hk HP Hle Ht Hp Hl. apply Hread; try done; try lia. eapply kept_holds; [exact Hk|lia|lia|done].
Qed.

Lemma ntohl_htonl a b c d : byte_ok a → byte_ok b → byte_ok c → byte_ok d →
  htonl (Z.lor (Z.lor (Z.lor (Z.shiftl a 24) (Z.shiftl b 16)) (Z.shiftl c 8)) d) = [a; b; c; d] ∧
  (let addr := ntohl [a; b; c; d] in
   [Z.land 0xff (Z.shiftr addr 24); Z.land 0xff (Z.shiftr addr 16); Z.land 0xff (Z.shiftr addr 8); Z.land 0xff addr] = [a; b; c; d]).
Proof.
  unfold byte_ok, is_uint. change (2 ^ 8) with 256. intros Ha Hb Hc Hd. unfold htonl, ntohl. cbn [fold_left].
  set (v := a * 2 ^ 24 + b * 2 ^ 16 + c * 2 ^ 8 + d).
  assert (Z.lor (Z.lor (Z.lor (Z.shiftl a 24) (Z.shiftl b 16)) (Z.shiftl c 8)) d = v) as ->.
  { rewrite <-!Z.lor_assoc, (Z.lor_comm (Z.shiftl c 8)), (lor_shiftl_add _ _ 8) by (unfold is_uint; lia).
    rewrite (Z.lor_comm (Z.shiftl b 16)), (lor_shiftl_add _ _ 16) by (unfold is_uint; lia).
    rewrite Z.lor_comm, (lor_shiftl_add _ _ 24) by (unfold is_uint; lia). unfold v. lia. }
  assert (∀ x y, 0 <= x → 0 <= y < 256 → Z.lor (Z.shiftl x 8) y = x * 256 + y) as Hstep.
  { intros x y Hx Hy. rewrite Z.lor_comm, lor_shiftl_add by (unfold is_uint; lia). lia. }
  rewrite (Hstep 0 a), (Hstep (0 * 256 + a) b), (Hstep ((0 * 256 + a) * 256 + b) c), (Hstep (((0 * 256 + a) * 256 + b) * 256 + c) d) by lia.
  replace ((((0 * 256 + a) * 256 + b) * 256 + c) * 256 + d) with v by (unfold v; lia).
  rewrite !(Z.land_comm 255), !land_255. unfold u8, uwrap. rewrite !Z.shiftr_div_pow2 by lia. change (2 ^ 8) with 256.
  change (2 ^ 24) with 16777216 in *. change (2 ^ 16) with 65536 in *.
  assert (v / 16777216 mod 256 = a) as -> by (unfold v; Z.to_euclidean_division_equations; lia).
  assert (v / 65536 mod 256 = b) as -> by (unfold v; Z.to_euclidean_division_equations; lia).
  assert (v / 256 mod 256 = c) as -> by (unfold v; Z.to_euclidean_division_equations; lia).
  assert (v mod 256 = d) as -> by (unfold v; Z.to_euclidean_division_equations; lia). done.
Qed.

(** What [dns_any_parse] has to do with the bytes, at the place of the data. *)
Definition bytes_read (t : Z) (any : dns_any) (bs : bytes) : Prop :=
  ∀ P'' rr, packet_ok P'' → rr_type rr = t → 12 <= rd_p rr → rd_len rr = zlen bs → rd_p rr + zlen bs <= p_end P'' →
    holds (p_data P'') (rd_p rr) bs → ∃ any', dns_any_parse rr P'' DNS_TXT_MINDATA = Returns (inr any') ∧ same_any any any'.

Lemma plain_bytes_read t any P P' bs :
  holds (p_data P') (p_end P) (be16 (zlen bs) ++ bs) → p_end P' = p_end P + 2 + zlen bs → 12 <= p_end P →
  bytes_read t any bs → rdata_reads t any P P'.
Proof.
  intros Hh HE H12 Hread. eapply plain_data_reads; [lia|exact Hh|done|done|]. intros P'' rr HP Ht Hp Hl Hle Hh2.
  apply Hread; try done; rewrite Hp; lia || done.
Qed.

(** The length and then the bytes, appended. *)
Lemma append_reads K t any P bs :
  names_ok K (p_end P) P → p_end P + 2 + zlen bs <= p_size P → bytes_ok bs → bytes_read t any bs →
  push_reads K t any P (P ← p_append (be16 (zlen bs)) P; P ← p_append bs P; Returns (None, P)).
Proof.
  intros HN Hroom Hok Hread. pose proof (no_end _ _ _ HN) as HE.
  destruct (append_spec K (p_end P) P (be16 (zlen bs)) HN) as (P1 & -> & E1 & HN1 & Hk1 & Hh1 & Hm1 & _); [cbn; lia|apply be16_ok|]. in_run.
  change (zlen (be16 (zlen bs))) with 2 in E1.
  destruct (append_spec K (p_end P) P1 bs HN1) as (P2 & -> & E2 & HN2 & Hk2 & Hh2 & Hm2 & _);
    [unfold p_size in *; rewrite (proj1 Hk1), E1; lia|done|]. in_run. rewrite E1 in *.
  assert (kept (p_end P) (p_data P) (p_data P2)) as Hk by (eapply kept_less; [by eapply kept_trans|lia]).
  exists None, P2. split; [done|]. split; [done|]. split; [apply HN2|]. split; [congruence|]. split; [unfold p_size in *; lia|].
  split; [eapply names_more; [exact HN2|lia|lia]|]. apply (plain_bytes_read _ _ _ _ bs); [|lia|lia|done].
  apply holds_app; [lia|]. split; [|exact Hh2]. eapply kept_holds; [exact Hk2|lia| |exact Hh1]. change (zlen (be16 (zlen bs))) with 2. lia.
Qed.

Lemma a_push_reads K P addr : names_ok K (p_end P) P → any_ok DNS_T_A (any_a addr) → push_reads K DNS_T_A (any_a addr) P (dns_a_push P addr).
Proof.
  intros HN (_ & Hlen & Hok). unfold dns_a_push, p_room. destruct (Z.ltb_spec (p_size P - p_end P) 6); [apply push_fails; [apply kept_refl|apply HN|done]|].
  destruct addr as [|a [|b [|c [|d [|]]]]]; try done. pose proof Hok as Hok'.
  apply Forall_cons in Hok as [Ha Hok]. apply Forall_cons in Hok as [Hb Hok].
  apply Forall_cons in Hok as [Hc Hok]. apply Forall_cons in Hok as [Hd _]. destruct (ntohl_htonl a b c d Ha Hb Hc Hd) as [Hin Hout].
  cbv zeta in Hout |- *. rewrite Hout. apply (append_reads K DNS_T_A _ P [a; b; c; d]); [done|cbn; lia|done|].
  intros P'' rr HP Ht Hp Hl Hle Hh. unfold dns_any_parse. rewrite Ht. change (DNS_T_A =? DNS_T_A) with true. cbv iota.
  unfold dns_a_parse. rewrite Hl. cbn [length Z.of_nat Z.eqb Pos.eqb Pos.of_succ_nat Pos.succ negb].
  assert (0 <= rd_p rr) as Hp0 by lia. change (negb (Z.of_nat 4 =? 4)) with false. cbv iota.
  pose proof (holds_rd _ _ _ 0 a Hp0 Hh eq_refl) as H0. rewrite Z.add_0_r in H0. rewrite H0. in_run.
  rewrite (holds_rd _ _ _ 1 b Hp0 Hh eq_refl : rd _ (rd_p rr + 1) = _), (holds_rd _ _ _ 2 c Hp0 Hh eq_refl : rd _ (rd_p rr + 2) = _),
    (holds_rd _ _ _ 3 d Hp0 Hh eq_refl : rd _ (rd_p rr + 3) = _). in_run. rewrite Hin. by eexists.
Qed.

Lemma rd_n_place P src bs : packet_ok P → 12 <= src → src + zlen bs <= p_end P → holds (p_data P) src bs →
  rd_n (p_data P) src (zlen bs) = Returns bs.
Proof. intros (_ & He & _) Hs Hfit Hh. apply holds_rd_n; [lia|done]. Qed.

Lemma aaaa_push_reads K P addr :
  names_ok K (p_end P) P → any_ok DNS_T_AAAA (any_aaaa addr) → push_reads K DNS_T_AAAA (any_aaaa addr) P (dns_aaaa_push P addr).
Proof.
  intros HN (_ & Hlen & Hok). unfold dns_aaaa_push, p_room.
  destruct (Z.ltb_spec (p_size P - p_end P) (2 + 16)); [apply push_fails; [apply kept_refl|apply HN|done]|].
  change [0; 16] with (be16 (Z.of_nat 16)). rewrite <-Hlen. apply append_reads; [done|lia|done|].
  intros P'' rr HP Ht Hp Hl Hle Hh. unfold dns_any_parse. rewrite Ht. change (DNS_T_AAAA =? DNS_T_A) with false.
  change (DNS_T_AAAA =? DNS_T_AAAA) with true. cbv iota. unfold dns_aaaa_parse. rewrite Hl, Hlen. cbn [negb Z.eqb Z.of_nat Pos.eqb Pos.of_succ_nat Pos.succ].
  change (negb (Z.of_nat 16 =? 16)) with false. cbv iota.
  pose proof (rd_n_place _ _ _ HP Hp Hle Hh) as Hr. rewrite Hlen in Hr. change (Z.of_nat 16) with 16 in Hr. rewrite Hr. in_run. by eexists.
Qed.

(** Data of any other type. *)
Lemma any_rdata_parse t rr P size : rr_type rr = t →
  t ∉ [DNS_T_A; DNS_T_AAAA; DNS_T_MX; DNS_T_NS; DNS_T_CNAME; DNS_T_SOA; DNS_T_SRV; DNS_T_OPT; DNS_T_PTR; DNS_T_SSHFP] →
  dns_any_parse rr P size =
    (if (t =? DNS_T_TXT) || (t =? DNS_T_SPF) then dns_txt_parse rr P size
     else if size <? rd_len rr then Returns (inl DNS_EILLEGAL)
     else data ← rd_n (p_data P) (rd_p rr) (rd_len rr); Returns (inr (any_rdata data))).
Proof.
  intros Ht Hno. unfold dns_any_parse. rewrite Ht. rewrite !not_elem_of_cons in Hno.
  destruct Hno as (H1 & H2 & H3 & H4 & H5 & H6 & H7 & H8 & H9 & H10 & _).
  apply Z.eqb_neq in H1, H2, H3, H4, H5, H6, H7, H8, H9, H10. by rewrite H1, H2, H3, H4, H5, H6, H7, H8, H9, H10.
Qed.

Lemma any_rdata_push t P data :
  t ∉ [DNS_T_A; DNS_T_AAAA; DNS_T_MX; DNS_T_NS; DNS_T_CNAME; DNS_T_SOA; DNS_T_SRV; DNS_T_OPT; DNS_T_PTR; DNS_T_SSHFP] →
  dns_any_push P (any_rdata data) t =
    if (t =? DNS_T_TXT) || (t =? DNS_T_SPF) then dns_txt_push P data else dns_rdata_push P data.
Proof.
  intros Hno. unfold dns_any_push. rewrite !not_elem_of_cons in Hno. destruct Hno as (H1 & H2 & H3 & H4 & H5 & H6 & H7 & H8 & H9 & H10 & _).
  apply Z.eqb_neq in H1, H2, H3, H4, H5, H6, H7, H8, H9, H10. by rewrite H1, H2, H3, H4, H5, H6, H7, H8, H9, H10.
Qed.

Lemma rdata_push_reads K t P data :
  names_ok K (p_end P) P → any_ok t (any_rdata data) → (t =? DNS_T_TXT) || (t =? DNS_T_SPF) = false →
  push_reads K t (any_rdata data) P (dns_rdata_push P data).
Proof.
  intros HN (Hno & Hlen & Hok) Htxt. unfold dns_rdata_push, p_room.
  destruct (Z.ltb_spec (p_size P - p_end P) (zlen data + 2)); [apply push_fails; [apply kept_refl|apply HN|done]|].
  apply append_reads; [done|lia|done|]. intros P'' rr HP Ht Hp Hl Hle Hh. rewrite (any_rdata_parse t) by done. rewrite Htxt, Hl. ltb_no.
  rewrite (rd_n_place _ _ _ HP Hp Hle Hh). in_run. by eexists.
Qed.

(** ** Strings of a text *)

(** The strings that the loop of [dns_txt_push] writes. *)
Fixpoint txt_strings (fuel : nat) (data : bytes) : bytes :=
  match data, fuel with
  | [], _ | _, O => []
  | _, S fuel' => let n := Z.min 255 (zlen data) in n :: take (Z.to_nat n) data ++ txt_strings fuel' (drop (Z.to_nat n) data)
  end.

Lemma txt_strings_cons fuel d n : d ≠ [] → n = Z.min 255 (zlen d) →
  txt_strings (S fuel) d = n :: take (Z.to_nat n) d ++ txt_strings fuel (drop (Z.to_nat n) d) ∧
  0 < n <= 255 ∧ n <= zlen d ∧ length (take (Z.to_nat n) d) = Z.to_nat n ∧ length (drop (Z.to_nat n) d) = (length d - Z.to_nat n)%nat.
Proof. intros Hd ->. destruct d as [|b d]; [done|]. split; [done|]. rewrite length_take, length_drop. simpl. lia. Qed.

Lemma txt_strings_length fuel : ∀ d, (length d <= fuel)%nat → zlen (txt_strings fuel d) = zlen d + (zlen d + 254) / 255.
Proof.
  induction fuel as [|fuel IH]; intros d Hl; (destruct (decide (d = [])) as [->|Hd]; [done|]); [by destruct d; [|simpl in Hl; lia]|].
  destruct (txt_strings_cons fuel d _ Hd eq_refl) as (-> & Hn & Hle & Ht & Hdr). set (n := Z.min 255 (zlen d)) in *.
  cbn [length]. rewrite length_app, Ht. pose proof (IH (drop (Z.to_nat n) d)) as IH'. rewrite Hdr in IH'. specialize (IH' ltac:(lia)).
  rewrite Nat2Z.inj_succ, Nat2Z.inj_add, IH'. destruct (Z.le_gt_cases 255 (zlen d)).
  - assert (n = 255) as E by lia. rewrite E. replace (Z.of_nat (length d - Z.to_nat 255)) with (zlen d - 255) by lia.
    replace (zlen d + 254) with (zlen d - 255 + 254 + 1 * 255) by lia. rewrite Z.div_add by lia. lia.
  - assert (n = zlen d) as E by lia. rewrite E. replace (Z.of_nat (length d - Z.to_nat (zlen d))) with 0 by lia.
    replace (zlen d + 254) with (zlen d - 1 + 1 * 255) by lia. rewrite Z.div_add, (Z.div_small (zlen d - 1)) by lia. change ((0 + 254) / 255) with 0. lia.
Qed.

Lemma txt_strings_ok fuel : ∀ data, bytes_ok data → bytes_ok (txt_strings fuel data).
Proof.
  induction fuel as [|fuel IH]; intros [|b data] Hok; try constructor. 1: unfold byte_ok, is_uint; simpl; lia.
  apply Forall_app. split; [by apply Forall_take|]. apply IH. by apply Forall_drop.
Qed.

(** Reading them. *)
Lemma txt_loop_reads P fuel : packet_ok P → ∀ f data p size text, (length data <= f)%nat → 12 <= p → p + zlen (txt_strings f data) <= p_end P →
  holds (p_data P) p (txt_strings f data) → zlen text + zlen data <= size → (length (txt_strings f data) < fuel)%nat →
  txt_loop P fuel p (p + zlen (txt_strings f data)) size text = Returns (inr (any_rdata (text ++ data))).
Proof.
  intros HP. pose proof HP as (_ & HE & _). induction fuel as [|fuel IH]; intros f data p size text Hf Hp Hfit Hh Hsize Hfuel; [lia|].
  destruct (decide (data = [])) as [->|Hd].
  { destruct f; cbn [txt_strings length txt_loop] in *; by rewrite Z.add_0_r, Z.ltb_irrefl, app_nil_r. }
  destruct f as [|f]; [destruct data; [done|simpl in Hf; lia]|].
  destruct (txt_strings_cons f data _ Hd eq_refl) as (E & Hn & Hle & Ht & Hdr). set (n := Z.min 255 (zlen data)) in *. rewrite E in *.
  set (rest := txt_strings f (drop (Z.to_nat n) data)) in *.
  assert (zlen (n :: take (Z.to_nat n) data ++ rest) = 1 + n + zlen rest) as El by (cbn [length]; rewrite length_app, Ht; lia).
  rewrite El in *. cbn [txt_loop]. ltb_yes.
  apply (holds_app _ _ [n] (take (Z.to_nat n) data ++ rest)) in Hh as [H1 H2]; [|lia]. apply holds_app in H2 as [H2 H3]; [|simpl; lia].
  change (zlen [n]) with 1 in *. rewrite Ht in H3. rewrite (rd_at _ _ _ (holds_head _ _ _ _ H1)). in_run.
  rewrite (proj2 (Z.ltb_ge _ n)) by lia. rewrite (proj2 (Z.ltb_ge (size - _) n)) by lia. cbn [orb].
  pose proof (holds_rd_n (p_data P) (p + 1) _ ltac:(lia) H2) as Hr. rewrite Ht, Z2Nat.id in Hr by lia. rewrite Hr. in_run.
  replace (p + (1 + n + zlen rest)) with (p + 1 + n + zlen rest) by lia. rewrite Z2Nat.id in H3 by lia.
  unfold rest. rewrite IH; [by rewrite <-app_assoc, take_drop|rewrite Hdr; lia|lia|fold rest; lia|done|rewrite length_app, Hdr, Ht; lia|fold rest; lia].
Qed.

(** A store leaves the packet what it was but for the bytes. *)
Lemma txt_push_loop_writes K e fuel : ∀ P p d, names_ok K e P → e <= p → (length d <= fuel)%nat → bytes_ok d →
  ∃ r P', txt_push_loop fuel p d P = Returns (r, P') ∧ p_end P' = p_end P ∧ p_memo_ P' = p_memo_ P ∧ names_ok K e P' ∧
    kept p (p_data P) (p_data P') ∧
    match r with
    | None => True
    | Some p' => p' = p + zlen (txt_strings fuel d) ∧ (d ≠ [] → p' <= p_size P) ∧ holds (p_data P') p (txt_strings fuel d)
    end.
Proof.
  induction fuel as [|fuel IH]; intros P p d HN He Hl Hok; (destruct (decide (d = [])) as [->|Hd];
    [exists (Some p), P; split; [done|]; do 3 (split; [done|]); split; [apply kept_refl|]; split; [cbn; lia|]; split; [done|];
     by eexists|]); [destruct d; [done|simpl in Hl; lia]|].
  assert (txt_push_loop (S fuel) p d P =
    (let n := Z.min 255 (zlen d) in
     if p_size P <=? p then Returns (None, P)
     else P ← p_store p [n] P;
       if p_size P - (p + 1) <? n then Returns (None, P)
       else P ← p_store (p + 1) (take (Z.to_nat n) d) P; txt_push_loop fuel (p + 1 + n) (drop (Z.to_nat n) d) P)) as ->
    by (destruct d; done).
  destruct (txt_strings_cons fuel d _ Hd eq_refl) as (-> & Hn & Hle & Ht & Hdr). set (n := Z.min 255 (zlen d)) in *. cbv zeta.
  destruct (Z.leb_spec (p_size P) p) as [|Hroom]; [exists None, P; split; [done|]; do 3 (split; [done|]); split; [apply kept_refl|done]|].
  assert (byte_ok n) as Hnb by (unfold byte_ok, is_uint; lia).
  pose proof (names_size _ _ _ HN) as [H12 HE].
  destruct (p_store_spec K e P p [n] HN He ltac:(simpl; lia) ltac:(by apply Forall_cons_2)) as (-> & HN1 & Hk1 & Hh1). in_run.
  set (P1 := set_data _ P) in *. assert (p_size P1 = p_size P) as Es by apply p_size_store. rewrite Es.
  destruct (Z.ltb_spec (p_size P - (p + 1)) n) as [|Hroom2]; [exists None, P1; split; [done|]; do 3 (split; [done|]); split; [exact Hk1|done]|].
  destruct (p_store_spec K e P1 (p + 1) (take (Z.to_nat n) d) HN1 ltac:(lia)) as (-> & HN2 & Hk2 & Hh2); [rewrite Es, Ht; lia|by apply Forall_take|]. in_run.
  set (P2 := set_data _ P1) in *. assert (p_size P2 = p_size P) as Es2 by (transitivity (p_size P1); [apply p_size_store|done]).
  destruct (IH P2 (p + 1 + n) (drop (Z.to_nat n) d) HN2) as (r & P' & -> & E1 & E2 & HN' & Hk' & Hr); [lia|rewrite Hdr; lia|by apply Forall_drop|].
  exists r, P'. split; [done|]. split; [done|]. split; [done|]. split; [done|].
  assert (kept p (p_data P) (p_data P')) as Hk by (eapply kept_less; [eapply kept_trans; [exact Hk1|]; eapply kept_trans; [exact Hk2|exact Hk']|lia]).
  split; [done|]. destruct r as [p'|]; [|done]. destruct Hr as (-> & Hsz & Hh'). cbn [length]. rewrite length_app, Ht.
  split; [lia|]. split.
  { intros _. destruct (decide (drop (Z.to_nat n) d = [])) as [E|E]; [rewrite E; destruct fuel; cbn; lia|]. specialize (Hsz E). lia. }
  change (n :: take (Z.to_nat n) d ++ txt_strings fuel (drop (Z.to_nat n) d)) with ([n] ++ take (Z.to_nat n) d ++ txt_strings fuel (drop (Z.to_nat n) d)).
  assert (12 <= p) by (pose proof (no_end _ _ _ HN); lia).
  apply holds_app; [lia|]. split; [|apply holds_app; [simpl; lia|]; split].
  - eapply (kept_holds _ (p + 1 + n)); [exact Hk'|lia|simpl; lia|]. unfold P2. cbn. apply holds_other; [lia|simpl; lia|exact Hh1].
  - eapply (kept_holds _ (p + 1 + n)); [exact Hk'|simpl; lia|rewrite Ht; simpl; lia|exact Hh2].
  - rewrite Ht. change (zlen [n]) with 1. rewrite Z2Nat.id by lia. exact Hh'.
Qed.

Lemma txt_push_reads K t P data :
  names_ok K (p_end P) P → any_ok t (any_rdata data) → (t =? DNS_T_TXT) || (t =? DNS_T_SPF) = true →
  push_reads K t (any_rdata data) P (dns_txt_push P data).
Proof.
  intros HN (Hno & Hlen & Hok) Htxt. unfold dns_txt_push, DNS_TXT_MINDATA in *. pose proof (names_size _ _ _ HN) as [H12 HE].
  pose proof (no_end _ _ _ HN) as Hend.
  destruct (Z.ltb_spec (p_size P - p_end P) 2) as [|Hroom]; [apply push_fails; [apply kept_refl|apply HN|done]|].
  pose proof (txt_strings_length (length data) data ltac:(lia)) as Hstr. rewrite <-Hstr. set (bs := txt_strings (length data) data) in *.
  assert (0 <= zlen bs < 2000) as Hbs by (rewrite Hstr; Z.to_euclidean_division_equations; lia).
  assert (u32 (zlen bs) = zlen bs) as -> by (apply uwrap_id; unfold is_uint; lia).
  destruct (p_store_spec K (p_end P) P (p_end P) (be16 (zlen bs)) HN ltac:(lia) ltac:(cbn; lia) (be16_ok _)) as (-> & HN1 & Hk1 & Hh1). in_run.
  set (P1 := set_data _ P) in *. assert (p_size P1 = p_size P) as Es by apply p_size_store.
  destruct (txt_push_loop_writes K (p_end P) (length data) P1 (p_end P + 2) data HN1 ltac:(lia) ltac:(lia) Hok)
    as (r & P2 & -> & E1 & E2 & HN2 & Hk2 & Hr). in_run.
  assert (kept (p_end P) (p_data P) (p_data P2)) as Hk by (eapply kept_less; [by eapply kept_trans|lia]).
  destruct r as [p'|]; [|by apply push_fails; [|apply HN2|rewrite E2]]. destruct Hr as (-> & Hsz & Hh2). fold bs in Hsz, Hh2 |- *.
  assert (p_end P + 2 + zlen bs <= p_size P) as Hfit.
  { destruct (decide (data = [])) as [E|E]; [unfold bs; rewrite E; cbn; lia|]. rewrite Es in Hsz. auto. }
  assert (p_size P2 = p_size P) as Es2 by (unfold p_size; by rewrite (proj1 Hk)).
  eexists None, _. split; [done|]. cbn. split; [done|]. split; [apply HN2|]. split; [by rewrite E2|]. split; [lia|].
  split; [eapply names_more; [eapply names_end; [exact HN2|rewrite Es2; lia]|lia|cbn; lia]|].
  apply (plain_bytes_read _ _ _ _ bs); [|done|lia|].
  - apply holds_app; [lia|]. split; [|exact Hh2]. eapply kept_holds; [exact Hk2|lia|cbn; lia|exact Hh1].
  - intros P'' rr HP Ht Hp Hl Hle Hh. rewrite (any_rdata_parse t) by done. rewrite Htxt. unfold dns_txt_parse. rewrite Hl.
    eexists. split; [apply (txt_loop_reads P'' _ HP (length data) data (rd_p rr) 1024 []); [done|done|done|done|cbn; lia|fold bs; lia]|done].
Qed.

(** A fingerprint. *)
Lemma sshfp_push_reads K P algo type sha1 :
  names_ok K (p_end P) P → any_ok DNS_T_SSHFP (any_sshfp algo type sha1) →
  push_reads K DNS_T_SSHFP (any_sshfp algo type sha1) P (dns_sshfp_push P algo type sha1).
Proof.
  intros HN (_ & Halgo & -> & Hlen & Hok). unfold dns_sshfp_push. pose proof (names_size _ _ _ HN) as [H12 HE].
  pose proof (no_end _ _ _ HN) as Hend.
  destruct (Z.ltb_spec (p_size P - p_end P) 4) as [|Hroom]; [apply push_fails; [apply kept_refl|apply HN|done]|].
  assert (Z.land 0xff algo = algo) as -> by (rewrite Z.land_comm, land_255; apply Z.mod_small; unfold byte_ok, is_uint in Halgo; lia).
  change (Z.land 255 DNS_SSHFP_SHA1) with 1. assert (bytes_ok [algo; 1]) as Hab by (apply Forall_cons_2; [done|by repeat constructor]).
  destruct (p_store_spec K (p_end P) P (p_end P + 2) [algo; 1] HN ltac:(lia) ltac:(cbn; lia) Hab) as (-> & HN1 & Hk1 & Hh1). in_run.
  set (P1 := set_data _ P) in *. assert (p_size P1 = p_size P) as Es by apply p_size_store. rewrite Es.
  change (DNS_SSHFP_SHA1 =? DNS_SSHFP_SHA1) with true. cbv iota.
  destruct (Z.ltb_spec (p_size P - (p_end P + 4)) 20) as [|Hroom2].
  { apply push_fails; [eapply kept_less; [exact Hk1|lia]|apply HN1|done]. }
  destruct (p_store_spec K (p_end P) P1 (p_end P + 4) sha1 HN1 ltac:(lia) ltac:(rewrite Es, Hlen; lia) Hok) as (-> & HN2 & Hk2 & Hh2). in_run.
  set (P2 := set_data _ P1) in *. assert (p_size P2 = p_size P) as Es2 by (transitivity (p_size P1); [apply p_size_store|done]).
  replace (p_end P + 4 + 20 - p_end P - 2) with 22 by lia.
  destruct (append_spec K (p_end P) P2 (be16 22) HN2) as (P3 & -> & E3 & HN3 & Hk3 & Hh3 & Hm3 & _ & Ed3);
    [rewrite Es2; cbn; lia|apply be16_ok|]. in_run.
  change (p_end P2) with (p_end P) in *. change (zlen (be16 22)) with 2 in *.
  assert (kept (p_end P) (p_data P) (p_data P3)) as Hk.
  { eapply kept_less; [eapply kept_trans; [exact Hk1|]; eapply kept_trans; [exact Hk2|exact Hk3]|lia]. }
  eexists None, _. split; [done|]. cbn. split; [done|]. split; [apply HN3|]. split; [rewrite Hm3; done|]. split; [lia|].
  assert (p_size P3 = p_size P) as Es3 by (unfold p_size; by rewrite (proj1 Hk)).
  split; [eapply names_more; [eapply names_end; [exact HN3|rewrite Es3; lia]|lia|cbn; lia]|].
  apply (plain_bytes_read _ _ _ _ ([algo; 1] ++ sha1)); [|cbn; rewrite Hlen; lia|lia|].
  - assert (zlen ([algo; 1] ++ sha1) = 22) as -> by (cbn; rewrite Hlen; lia). cbn [p_data set_end]. rewrite Ed3.
    apply holds_app; [lia|]. change (zlen (be16 22)) with 2. split; [by rewrite <-Ed3|]. apply holds_app; [lia|]. change (zlen [algo; 1]) with 2.
    split; (apply holds_other; [lia|cbn; lia|]).
    + unfold P2. cbn. apply holds_other; [lia|cbn; lia|exact Hh1].
    + replace (p_end P + 2 + 2) with (p_end P + 4) by lia. exact Hh2.
  - intros P'' rr HP Ht Hp Hl Hle Hh. unfold dns_any_parse. rewrite Ht. change (DNS_T_SSHFP =? DNS_T_SSHFP) with true.
    assert (zlen ([algo; 1] ++ sha1) = 22) as E by (cbn; rewrite Hlen; lia). rewrite E in *.
    cbn [Z.eqb Pos.eqb DNS_T_SSHFP DNS_T_A DNS_T_AAAA DNS_T_MX DNS_T_NS DNS_T_CNAME DNS_T_SOA DNS_T_SRV DNS_T_OPT DNS_T_PTR DNS_T_TXT DNS_T_SPF orb].
    unfold dns_sshfp_parse. rewrite Hl. cbn [Z.ltb Z.compare Pos.compare Pos.compare_cont].
    apply holds_app in Hh as [H1 H2]; [|lia]. assert (0 <= rd_p rr) as Hp0 by lia.
    pose proof (holds_rd _ _ _ 0 algo Hp0 H1 eq_refl) as R0. rewrite Z.add_0_r in R0. rewrite R0. in_run.
    rewrite (holds_rd _ _ _ 1 1 Hp0 H1 eq_refl : rd _ (rd_p rr + 1) = _). in_run. change (1 =? DNS_SSHFP_SHA1) with true.
    change (22 - 2 <? 20) with false. cbv iota. change (zlen [algo; 1]) with 2 in H2.
    pose proof (rd_n_place P'' (rd_p rr + 2) sha1 HP ltac:(lia) ltac:(rewrite Hlen; lia) H2) as Hr. rewrite Hlen in Hr.
    change (Z.of_nat 20) with 20 in Hr. rewrite Hr. in_run. by eexists.
Qed.

(** ** Names *)

(** The length goes where it was left out. *)
Lemma put_rdlen_spec end_ P : bytes_ok (p_data P) → 12 <= end_ → end_ + 2 <= p_end P <= p_size P → p_end P - end_ - 2 < 65536 →
  ∃ P', put_rdlen end_ P = Returns P' ∧ p_end P' = p_end P ∧ p_dict P' = p_dict P ∧ p_memo_ P' = p_memo_ P ∧
    p_data P' = mem_write (Z.to_nat end_) (be16 (p_end P - end_ - 2)) (p_data P) ∧ kept end_ (p_data P) (p_data P') ∧
    bytes_ok (p_data P') ∧ holds (p_data P') end_ (be16 (p_end P' - end_ - 2)).
Proof.
  intros Hok H12 HE Hn. unfold put_rdlen, p_store, wr. unfold p_size in HE. change (zlen (be16 (p_end P - end_ - 2))) with 2. ltb_no. in_run.
  eexists. split; [done|]. do 4 (split; [done|]). cbn. split; [apply kept_write; lia|]. split; [apply bytes_ok_write; [done|apply be16_ok]|].
  pose proof (holds_mem_write (Z.to_nat end_) (be16 (p_end P - end_ - 2)) (p_data P)) as Hh. rewrite Z2Nat.id in Hh by lia. apply Hh. cbn. lia.
Qed.

(** The last of the data is a name: what comes before it, at [end_ + 2], is
    [front]. *)
Lemma name_push_reads K t any P P1 front ls text :
  names_ok K (p_end P) P → names_ok K (p_end P) P1 → (K < DNS_D_MAXPTRS)%nat → Forall label_ok ls → NoDup (lower_name ls) → text_of ls text →
  zlen (name_text ls) <= DNS_D_MAXNAME → kept (p_end P) (p_data P) (p_data P1) → p_memo_ P1 = p_memo_ P →
  p_end P1 = p_end P + 2 + zlen front → holds (p_data P1) (p_end P + 2) front →
  (∀ P'' rr host ls', packet_ok P'' → rr_type rr = t → rd_p rr = p_end P + 2 → zlen front < rd_len rr → rd_p rr + rd_len rr <= p_end P'' →
     holds (p_data P'') (rd_p rr) front → expand_into P'' (rd_p rr + zlen front) = Returns (inr host) →
     cstr host = name_text ls' → lower_name ls' = lower_name ls →
     ∃ any', dns_any_parse rr P'' DNS_TXT_MINDATA = Returns (inr any') ∧ same_any any any') →
  push_reads K t any P
    ('(error, P2) ← dns_d_push P1 text;
     match error with
     | Some e => Returns (Some e, set_end (p_end P) P2)
     | None => P3 ← put_rdlen (p_end P) P2; Returns (None, P3)
     end).
Proof.
  intros HN HN1 HK Hls Hnd Ht Hlen Hk1 Hm1 E1 Hfront Hread. pose proof (names_size _ _ _ HN) as [H12 HE]. pose proof (no_end _ _ _ HN) as Hend.
  destruct (push_name K (p_end P) P1 ls text HN1 ltac:(lia) Hls Ht) as (err & P2 & -> & Hk2 & Hok2 & Hm2 & Hcase). in_run.
  assert (kept (p_end P) (p_data P) (p_data P2)) as Hk12 by (eapply kept_less; [by eapply kept_trans|lia]).
  destruct err as [err|]; [destruct Hcase as (-> & _ & _); apply push_fails; [done|done|cbn; congruence]|].
  destruct Hcase as (bs & ls' & Hbs & Hpos & E2 & Hfit & Hh & Hin).
  assert (p_size P1 = p_size P ∧ p_size P2 = p_size P) as [Es1 Es2] by (unfold p_size; by rewrite (proj1 Hk1), (proj1 Hk12)).
  pose proof (no_size _ _ _ HN) as Hsz. unfold p_size in *.
  destruct (put_rdlen_spec (p_end P) P2 Hok2 ltac:(lia)) as (P3 & -> & E3 & Ed3 & Hm3 & Ep3 & Hk3 & Hok3 & Hlen3); [unfold p_size; lia|lia|]. in_run.
  assert (kept (p_end P) (p_data P) (p_data P3)) as Hk by (eapply kept_less; [by eapply kept_trans|lia]).
  assert (kept (p_end P) (p_data P1) (p_data P3)) as Hk13.
  { eapply kept_less; [eapply kept_trans; [exact Hk2|exact Hk3]|lia]. }
  assert (holds (p_data P3) (p_end P + 2 + zlen front) bs) as Hh3 by (rewrite Ep3, <-E1; apply holds_other; [lia|cbn; lia|done]).
  assert (holds (p_data P3) (p_end P + 2) front) as Hf3.
  { rewrite Ep3. apply holds_other; [lia|cbn; lia|]. eapply kept_holds; [exact Hk2|lia|lia|done]. }
  exists None, P3. split; [done|]. split; [done|]. split; [done|]. split; [congruence|]. split; [unfold p_size in *; lia|]. split.
  { eapply names_more; [|by instantiate (1 := S K); lia|split; [apply Z.le_refl|lia]].
    rewrite <-E1 in Hh3. apply (names_again K (p_end P) P1 bs ls ls' P3 (p_end P1)); try done; [by apply kept_all|lia|unfold p_size; lia|].
    intros x Hx. rewrite Ed3 in Hx. by apply Hin. }
  split; [lia|]. split; [done|]. intros P'' rr Hk'' HP'' Hle Hty Hp Hl.
  assert (holds (p_data P'') (p_end P + 2 + zlen front) bs) as Hh'' by (eapply kept_holds; [exact Hk''|lia|lia|done]).
  destruct (expand_host _ _ _ _ _ _ P'' (p_end P + 2 + zlen front) Hbs Hls Hlen HK) as [(host & Hx & Hc & Hlow) _];
    [apply (kept_view (p_end P)); [eapply kept_less; [eapply kept_trans; [exact (kept_all _ _ _ Hk13)|exact Hk'']|lia]|lia]|done|lia|lia|done|].
  apply (Hread P'' rr host ls'); try done; [lia|lia| |by rewrite Hp]. rewrite Hp. eapply kept_holds; [exact Hk''|lia|lia|done].
Qed.

Lemma host_same host host' ls ls' : host_of host ls → cstr host' = name_text ls' → lower_name ls' = lower_name ls → same_host host host'.
Proof. intros (Ht & _) Hc Hl. by exists ls, ls'. Qed.

Lemma ns_push_reads K t P host :
  names_ok K (p_end P) P → (K < DNS_D_MAXPTRS)%nat → any_ok t (any_ns host) → push_reads K t (any_ns host) P (dns_ns_push P host).
Proof.
  intros HN HK (Hty & ls & Hhost). pose proof Hhost as (Ht & Hls & Hnd & Hlen). unfold dns_ns_push, p_room. pose proof (no_end _ _ _ HN) as Hend.
  destruct (Z.ltb_spec (p_size P - p_end P) 3); [apply push_fails; [apply kept_refl|apply HN|done]|].
  eapply (name_push_reads K t _ P (set_end (p_end P + 2) P) [] ls (cstr host)); try done;
    [apply names_end; [done|lia]|cbn; lia|apply prefix_nil|].
  intros P'' rr host' ls' HP Htr Hp Hl Hle _ Hx Hc Hlow. rewrite Z.add_0_r in Hx. exists (any_ns host'). split; [|by eapply host_same].
  unfold dns_any_parse. rewrite Htr. destruct Hty as [->|[->| ->]]; cbn [Z.eqb Pos.eqb DNS_T_NS DNS_T_A DNS_T_AAAA DNS_T_MX DNS_T_CNAME DNS_T_SOA
    DNS_T_SRV DNS_T_OPT DNS_T_PTR]; unfold dns_cname_parse, dns_ptr_parse, dns_ns_parse; rewrite Hx; done.
Qed.

Lemma land_word p : uint16 p → ∃ hi lo, be16 p = [hi; lo] ∧ byte_ok hi ∧ byte_ok lo ∧
  Z.lor (Z.land 0xff00 (Z.shiftl hi 8)) (Z.land 0x00ff lo) = p ∧ Z.lor (u16 (Z.shiftl (Z.land 0xff hi) 8)) (Z.land 0xff lo) = p.
Proof.
  intros Hp. destruct (be16_word p Hp) as (hi & lo & E & Hw). pose proof (be16_ok p) as Hok. rewrite E in Hok.
  apply Forall_cons in Hok as [Hhi Hok]. apply Forall_cons in Hok as [Hlo _]. exists hi, lo. do 3 (split; [done|]).
  rewrite word_eq in Hw by done. unfold byte_ok, is_uint in *. change (2 ^ 8) with 256 in *.
  assert (∀ x, 0 <= x < 256 → Z.land 255 x = x) as Hland by (intros x Hx; rewrite Z.land_comm, land_255; apply Z.mod_small; lia).
  rewrite !Hland by lia.
  assert (Z.land 0xff00 (Z.shiftl hi 8) = Z.shiftl hi 8) as ->.
  { change 0xff00 with (Z.shiftl 255 8). rewrite <-Z.shiftl_land, Hland by lia. done. }
  assert (u16 (Z.shiftl hi 8) = Z.shiftl hi 8) as -> by (rewrite Z.shiftl_mul_pow2 by lia; apply u16_id; lia).
  rewrite Z.lor_comm, lor_shiftl_add by (unfold is_uint; lia). lia.
Qed.

Lemma mx_push_reads K P preference host :
  names_ok K (p_end P) P → (K < DNS_D_MAXPTRS)%nat → any_ok DNS_T_MX (any_mx preference host) →
  push_reads K DNS_T_MX (any_mx preference host) P (dns_mx_push P preference host).
Proof.
  intros HN HK (_ & Hpref & ls & Hhost). pose proof Hhost as (Ht & Hls & Hnd & Hlen). unfold dns_mx_push, p_room. pose proof (no_end _ _ _ HN) as Hend.
  destruct (Z.ltb_spec (p_size P - p_end P) 5); [apply push_fails; [apply kept_refl|apply HN|done]|].
  destruct (append_spec K (p_end P) (set_end (p_end P + 2) P) (be16 preference)) as (P1 & -> & E1 & HN1 & Hk1 & Hh1 & Hm1 & _);
    [apply names_end; [done|lia]|cbn; unfold p_size in *; cbn; lia|apply be16_ok|]. in_run. cbn [p_end set_end p_data] in *.
  eapply (name_push_reads K DNS_T_MX _ P P1 (be16 preference) ls (cstr host)); try done; [eapply kept_less; [exact Hk1|lia]|].
  intros P'' rr host' ls' HP Htr Hp Hl Hle Hf Hx Hc Hlow. exists (any_mx preference host'). split; [|split; [done|by eapply host_same]].
  unfold dns_any_parse. rewrite Htr. cbn [Z.eqb Pos.eqb DNS_T_NS DNS_T_A DNS_T_AAAA DNS_T_MX]. unfold dns_mx_parse.
  destruct (land_word preference Hpref) as (hi & lo & E & _ & _ & Hw & _). rewrite E in *. change (zlen [hi; lo]) with 2 in *. ltb_no.
  assert (0 <= rd_p rr) as Hp0 by lia. pose proof (holds_rd _ _ _ 0 hi Hp0 Hf eq_refl) as R0. rewrite Z.add_0_r in R0. rewrite R0. in_run.
  rewrite (holds_rd _ _ _ 1 lo Hp0 Hf eq_refl : rd _ (rd_p rr + 1) = _). in_run. pose proof HP as (_ & _ & H16).
  rewrite u16_id by lia. rewrite Hx. in_run. by rewrite Hw.
Qed.

Lemma srv_number_reads P src x : uint16 x → 0 <= src → holds (p_data P) src (be16 x) → srv_number P src = Returns x.
Proof.
  intros Hx Hs Hh. destruct (land_word x Hx) as (hi & lo & E & _ & _ & _ & Hw). rewrite E in Hh. unfold srv_number.
  pose proof (holds_rd _ _ _ 0 hi Hs Hh eq_refl) as R0. rewrite Z.add_0_r in R0. rewrite R0. in_run.
  rewrite (holds_rd _ _ _ 1 lo Hs Hh eq_refl : rd _ (src + 1) = _). in_run. by rewrite Hw.
Qed.

(** [dns_srv_push]: the target is compressed, but does not become known. *)
Lemma srv_push_reads K P priority weight port target :
  names_ok K (p_end P) P → (K < DNS_D_MAXPTRS)%nat → any_ok DNS_T_SRV (any_srv priority weight port target) →
  push_reads K DNS_T_SRV (any_srv priority weight port target) P (dns_srv_push P priority weight port target).
Proof.
  intros HN HK (_ & Hpri & Hwei & Hport & ls & Hhost). pose proof Hhost as (Ht & Hls & Hnd & Hlen). unfold dns_srv_push, p_room.
  pose proof (no_end _ _ _ HN) as Hend. pose proof (names_size _ _ _ HN) as [H12 HE].
  destruct (Z.ltb_spec (p_size P - p_end P) 2); [apply push_fails; [apply kept_refl|apply HN|done]|].
  set (front := be16 priority ++ be16 weight ++ be16 port). change (p_size (set_end (p_end P + 2) P)) with (p_size P).
  change (p_end (set_end (p_end P + 2) P)) with (p_end P + 2).
  destruct (Z.ltb_spec (p_size P - (p_end P + 2)) 6); [apply push_fails; [apply kept_refl|apply HN|done]|].
  destruct (append_spec K (p_end P) (set_end (p_end P + 2) P) front) as (P1 & -> & E1 & HN1 & Hk1 & Hh1 & Hm1 & _);
    [apply names_end; [done|lia]|cbn; unfold p_size in *; cbn; lia|repeat (apply Forall_app; split); apply be16_ok|]. in_run. cbn [p_end set_end p_data] in *.
  change (zlen front) with 6 in E1. pose proof HN1 as [HP1 Hs1 _ Hdict1]. pose proof (proj1 Hk1) as Hl1. unfold p_size in *.
  set (dst := drop (Z.to_nat (p_end P1)) (p_data P1)).
  assert (zlen dst = zlen (p_data P1) - p_end P1) as Edst by (unfold dst; rewrite length_drop; lia).
  destruct (comp_encodes P1 (body (p_data P1)) (p_end P) K dst ls (cstr target)) as (n & d & -> & Hd & Hokd & Hn & Hlong & Hshort);
    [done|apply (kept_view (p_end P)); [apply kept_refl|lia]|done|lia|apply Forall_drop, HP1|lia|done|done|]. in_run. eqb_no.
  set (P2 := set_data _ P1). assert (kept (p_end P1) (p_data P1) (p_data P2)) as Hk2.
  { apply kept_take; cbn; [rewrite length_app, length_take; lia|apply take_app_length'; rewrite length_take; lia]. }
  assert (bytes_ok (p_data P2)) as Hok2 by (apply Forall_app; split; [apply Forall_take, HP1|done]).
  assert (kept (p_end P) (p_data P) (p_data P2)) as Hk12 by (eapply kept_less; [by eapply kept_trans|lia]).
  destruct (Z.ltb_spec (zlen (p_data P2) - p_end P2) n) as [|Hfit]; [apply push_fails; [done|done|cbn; by rewrite Hm1]|].
  rewrite (proj1 Hk2) in Hfit. change (p_end P2) with (p_end P1) in *. cbn [p_end set_end]. ltb_no.
  destruct Hshort as (bs & ls' & Hbs & -> & Hh); [lia|].
  destruct (put_rdlen_spec (p_end P) (set_end (p_end P1 + zlen bs) P2) Hok2 ltac:(lia)) as (P3 & -> & E3 & Ed3 & Hm3 & Ep3 & Hk3 & Hok3 & Hlen3);
    [unfold p_size; cbn [p_data p_end set_end]; rewrite (proj1 Hk2); lia|cbn [p_end set_end]; lia|]. in_run. cbn [p_end set_end p_data p_dict p_memo_] in *.
  assert (kept (p_end P) (p_data P) (p_data P3)) as Hk by (eapply kept_less; [by eapply kept_trans|lia]).
  assert (kept (p_end P) (p_data P1) (p_data P3)) as Hk13 by (eapply kept_less; [eapply kept_trans; [exact Hk2|exact Hk3]|lia]).
  assert (holds (p_data P3) (p_end P1) bs) as Hh3.
  { rewrite Ep3. apply holds_other; [lia|cbn; lia|]. unfold holds, P2 in *. cbn. rewrite drop_0 in Hh.
    rewrite drop_app_length' by (rewrite length_take; lia). done. }
  assert (holds (p_data P3) (p_end P + 2) front) as Hf3.
  { rewrite Ep3. apply holds_other; [lia|cbn; lia|]. eapply kept_holds; [exact Hk2|lia|change (zlen front) with 6; lia|done]. }
  exists None, P3. split; [done|]. split; [done|]. split; [done|]. split; [rewrite Hm3; cbn; by rewrite Hm1|]. split; [unfold p_size; lia|]. split.
  { eapply names_more; [eapply (names_kept K (p_end P) P1); [done|by apply kept_all|done|by rewrite Ed3|unfold p_size; lia]|lia|lia]. }
  split; [lia|]. split; [done|]. intros P'' rr Hk'' HP'' Hle Hty Hp Hl.
  assert (holds (p_data P'') (p_end P + 8) bs) as Hh''.
  { replace (p_end P + 8) with (p_end P1) by lia. eapply kept_holds; [exact Hk''|lia|lia|done]. }
  destruct (expand_host _ _ _ _ _ _ P'' (p_end P + 8) Hbs Hls Hlen HK) as [(host & Hx & Hc & Hlow) _];
    [apply (kept_view (p_end P)); [eapply kept_less; [eapply kept_trans; [exact (kept_all _ _ _ Hk13)|exact Hk'']|lia]|lia]|done|lia|lia|done|].
  assert (holds (p_data P'') (rd_p rr) front) as Hf by (rewrite Hp; eapply kept_holds; [exact Hk''|lia|change (zlen front) with 6; lia|done]).
  exists (any_srv priority weight port host). split; [|repeat (split; [done|]); by eapply host_same].
  unfold dns_any_parse. rewrite Hty. cbn [Z.eqb Pos.eqb DNS_T_NS DNS_T_A DNS_T_AAAA DNS_T_MX DNS_T_CNAME DNS_T_SOA DNS_T_SRV]. unfold dns_srv_parse. ltb_no.
  unfold front in Hf. apply holds_app in Hf as [F1 Hf]; [|lia]. apply holds_app in Hf as [F2 F3]; [|cbn; lia]. change (zlen (be16 _)) with 2 in *.
  rewrite (srv_number_reads P'' (rd_p rr) priority) by (done || lia). in_run. rewrite (srv_number_reads P'' (rd_p rr + 2) weight) by (done || lia). in_run.
  replace (rd_p rr + 2 + 2) with (rd_p rr + 4) in F3 by lia. rewrite (srv_number_reads P'' (rd_p rr + 4) port) by (done || lia). in_run.
  pose proof HP'' as (_ & _ & H16). rewrite u16_id by lia. replace (rd_p rr + 6) with (p_end P + 8) by lia. by rewrite Hx.
Qed.

(** ** Any of them *)

Lemma any_push_reads K t P any :
  names_ok K (p_end P) P → (K < DNS_D_MAXPTRS)%nat → any_ok t any → push_reads K t any P (dns_any_push P any t).
Proof.
  intros HN HK Hany. destruct any as [addr|addr|p host|host|? ? ? ? ? ? ?|p w o target| |algo type sha1|data]; try done.
  - pose proof Hany as (-> & _). by apply a_push_reads.
  - pose proof Hany as (-> & _). by apply aaaa_push_reads.
  - pose proof Hany as (-> & _). by apply mx_push_reads.
  - pose proof Hany as ([->|[->| ->]] & _); by apply ns_push_reads.
  - pose proof Hany as (-> & _). by apply srv_push_reads.
  - pose proof Hany as (-> & _). by apply sshfp_push_reads.
  - rewrite any_rdata_push by apply Hany. destruct (_ || _) eqn:E; [by apply txt_push_reads|by apply rdata_push_reads].
Qed.
