(* ===== verification/DnsAdd.v ===== *)
(** Adding records to packets: [dns_p_push], and what the parser of records
    makes of what it wrote. *)

From S2P Require Import Prelude DnsPacket DnsName DnsExpand DnsSkip DnsPush DnsRR DnsBuf DnsData DnsGrep DnsWalk DnsAppend DnsTrip.

Open Scope Z_scope.

(** ** Questions *)

(** Labels up to the root or a pointer, as [dns_d_skip] skips them. *)
Inductive skips (data : bytes) (e : Z) : Z → Z → Prop :=
| skips_root src : root_at data e src → skips data e src (src + 1)
| skips_ptr src tgt : pointer_at data e src tgt → skips data e src (src + 2)
| skips_label src l next : label_at data e src l → src + 1 + zlen l < e → skips data e (src + 1 + zlen l) next → skips data e src next.

Inductive questions (data : bytes) (e : Z) : nat → Z → Z → Prop :=
| questions_none src : questions data e 0 src src
| questions_one n src p q : skips data e src p → p + 4 <= e → questions data e n (p + 4) q → questions data e (S n) src q.

Lemma skips_returns data0 e0 data e src next : data_ok data e → view data0 e0 data e → e0 <= e → skips data0 e0 src next →
  0 <= src < next ∧ next <= e0 ∧ ∀ fuel, (Z.to_nat next - Z.to_nat src <= fuel)%nat → d_skip_loop fuel src data e = Returns next.
Proof.
  intros Hd (Hvl & Hvp & Hvr) He. induction 1 as [src Hr|src tgt Hp|src l next Hl Hlt Hs IH].
  - pose proof (proj1 Hr). split; [lia|]. split; [lia|]. intros [|fuel] Hf; [lia|]. apply d_skip_root; auto.
  - pose proof Hp as (H1 & H2 & _). split; [lia|]. split; [lia|]. intros [|fuel] Hf; [lia|]. eapply d_skip_pointer; eauto.
  - pose proof Hl as (H1 & H2 & H3 & _). destruct IH as (I1 & I2 & I3). split; [lia|]. split; [lia|].
    intros [|fuel] Hf; [lia|]. rewrite (d_skip_label _ _ _ _ l) by (auto || lia). apply I3. lia.
Qed.

Lemma skips_view data0 e0 data e src next : view data0 e0 data e → e0 <= e → skips data0 e0 src next → skips data e src next.
Proof.
  intros (Hvl & Hvp & Hvr) He. induction 1 as [src Hr|src tgt Hp|src l next Hl Hlt Hs IH];
    [by apply skips_root; auto|by eapply skips_ptr; eauto|eapply skips_label; [by apply Hvl|lia|done]].
Qed.

Lemma questions_view data0 e0 data e n src q : view data0 e0 data e → e0 <= e → questions data0 e0 n src q → questions data e n src q.
Proof.
  intros Hv He. induction 1 as [src|n src p q Hs Hp Hq IH]; [constructor|]. eapply questions_one; [by eapply skips_view|lia|done].
Qed.

Lemma questions_range data e n src q : data_ok data e → questions data e n src q → src <= e → src + 5 * Z.of_nat n <= q <= e.
Proof.
  intros Hd. induction 1 as [src|n src p q Hs Hp Hq IH]; intros Hle; [lia|].
  destruct (skips_returns _ _ _ _ _ _ Hd (view_refl _ _) (Z.le_refl _) Hs) as (? & ? & _). lia.
Qed.

Lemma questions_snoc data e n src q p : questions data e n src q → skips data e q p → p + 4 <= e → questions data e (S n) src (p + 4).
Proof.
  induction 1 as [src|n src p' q Hs Hp Hq IH]; intros Hsq Hpe; [eapply questions_one; [done|done|constructor]|].
  eapply questions_one; [done|done|by apply IH].
Qed.

(** [dns_p_qend] finds the end of the questions. *)
Lemma qend_loop_questions P data0 e0 n src q : packet_ok P → view data0 e0 (p_data P) (p_end P) → e0 <= p_end P →
  questions data0 e0 n src q → 0 <= src <= e0 → qend_loop n src P = Returns q ∧ src <= q <= e0.
Proof.
  intros HP Hv He. pose proof HP as (_ & HE & H16). induction 1 as [src|n src p q Hs Hp Hq IH]; intros Hsrc; cbn [qend_loop].
  - rewrite Z.min_l, u16_id by lia. split; [done|lia].
  - destruct (skips_returns _ _ _ _ _ _ HP Hv He Hs) as (H1 & H2 & H3). leb_no. unfold dns_d_skip. rewrite H3 by lia. in_run.
    eqb_no. ltb_no. rewrite u16_id by lia. destruct IH as [-> ?]; [lia|]. split; [done|lia].
Qed.

Lemma name_bytes_skips data0 e0 K bs ls ls' data e src :
  name_bytes data0 e0 K bs ls ls' → Forall label_ok ls → 0 <= src → src + zlen bs <= e → holds data src bs → skips data e src (src + zlen bs).
Proof.
  intros Hbs Hls Hs Hfit Hh.
  assert (∀ front tail, Forall label_ok front → ∀ src, 0 <= src → src + zlen (wire_labels front ++ tail) <= e → 0 < zlen tail →
    holds data src (wire_labels front ++ tail) →
    (∀ at_, 0 <= at_ → at_ + zlen tail <= e → holds data at_ tail → skips data e at_ (at_ + zlen tail)) →
    skips data e src (src + zlen (wire_labels front ++ tail))) as Hfront.
  { intros front tail. induction 1 as [|l front Hl Hf IH]; intros at_ Ha Hfit' Hpos Hh' Ht; [by apply Ht|].
    change (wire_labels (l :: front) ++ tail) with ((wire_label l ++ wire_labels front) ++ tail) in *. rewrite <-app_assoc in Hfit', Hh' |- *.
    apply holds_app in Hh' as [H1 H2]; [|done]. rewrite length_app in Hfit' |- *. change (zlen (wire_label l)) with (Z.of_nat (S (length l))) in H2.
    change (length (wire_label l)) with (S (length l)) in *. replace (at_ + Z.of_nat (S (length l))) with (at_ + 1 + zlen l) in H2 by lia.
    replace (at_ + Z.of_nat (S (length l) + length (wire_labels front ++ tail))) with (at_ + 1 + zlen l + zlen (wire_labels front ++ tail)) by lia.
    assert (0 < zlen (wire_labels front ++ tail)) by (rewrite length_app; lia).
    eapply skips_label; [apply label_holds; done || lia|lia|]. apply IH; try done; lia. }
  destruct Hbs as [[-> ->]|(front & s & q & rb & -> & -> & -> & Hq & _)].
  - apply Hfront; try done. intros at_ Ha Hfa Hh0. apply skips_root. split; [cbn in Hfa; lia|]. by eapply holds_head.
  - apply Forall_app in Hls as [Hls _]. apply Hfront; try done. intros at_ Ha Hfa Hhp. destruct (ptr_target_bytes q Hq) as (_ & _ & H192 & Htgt).
    change (zlen (pointer q)) with 2 in *. eapply (skips_ptr _ _ _ q). split; [lia|]. split; [lia|].
    apply (holds_app _ _ [_] [_]) in Hhp as [H1 H2]; [|lia]. eexists _, _. split; [by eapply holds_head|]. split; [by eapply holds_head|].
    split; [exact H192|done].
Qed.

(** ** Counting and studying *)

Lemma s_study_returns P s base : header_ok P → 0 <= base → ∃ r, dns_s_study s base P = Returns (mk_s_memo base r) ∧ 0 <= r.
Proof.
  intros HP Hb. unfold dns_s_study. destruct (p_count_range P HP s) as (c & -> & _). in_run.
  destruct (study_loop_returns P HP (Z.to_nat (u16 c)) base Hb) as (r & -> & Hr & _). in_run. exists r. split; [done|lia].
Qed.

(** [dns_p_study] sets the memo, and returns. *)
Lemma p_study_returns P : header_ok P → ∃ M, dns_p_study P = Returns (set_memo M P).
Proof.
  intros HP. assert (∀ f, header_ok (over_memo f P)) as HM by done. unfold dns_p_study.
  destruct (s_study_returns P DNS_S_QD 12 HP ltac:(lia)) as (r1 & -> & H1). in_run. cbn [s_end].
  destruct (s_study_returns (over_memo (set_qd (mk_s_memo 12 r1)) P) DNS_S_AN r1 HP H1) as (r2 & -> & H2). in_run. cbn [s_end].
  match goal with |- context [dns_s_study DNS_S_NS _ ?Q] => destruct (s_study_returns Q DNS_S_NS r2 HP H2) as (r3 & -> & H3) end. in_run. cbn [s_end].
  match goal with |- context [dns_s_study DNS_S_AR _ ?Q] => destruct (s_study_returns Q DNS_S_AR r3 HP H3) as (r4 & -> & H4) end. in_run. cbn [s_end].
  match goal with |- context [dns_rr_grep 0 1 ?i ?Q] => set (Q' := Q); set (i' := i) end.
  assert (header_ok Q') as HQ by done. assert (plain_search i' Q') as Hi by by split; [|split; [|left]].
  assert (0 <= i_base i' Q') as Hb.
  { unfold i_base, i', Q', dns_rr_i_init. cbn. repeat case_match; lia. }
  destruct (records_exist 0 i' Q' HQ (λ rp, rr_at_returns 0 i' Q' rp HQ Hi) (Z.to_nat (p_end Q')) (i_base i' Q') Hb) as [l Hl]; [lia|].
  destruct (start_at_records 0 Q' HQ i' l eq_refl Hb Hl) as (next & Hstart & Hat). unfold dns_rr_grep at 1.
  change (i_exec i' =? 0) with true. cbv iota. rewrite Hstart. in_run.
  destruct (grep_loop_takes 0 Q' HQ 1 (i_at next (i_count i') 1 i') l eq_refl (Hat _ _)) as (n & c & -> & _). in_run.
  destruct (take 1 l) as [|rr ?]; eexists; reflexivity.
Qed.

Lemma study_if_new_returns base P : header_ok P → ∃ M, study_if_new base P = Returns (set_memo M P).
Proof.
  intros HP. unfold study_if_new. destruct (base =? 0); [by apply p_study_returns|]. exists (p_memo_ P). by destruct P.
Qed.

(** [count_up] *)
Definition counted (s c : Z) (data : bytes) : bytes := mem_write (Z.to_nat (count_at s)) (be16 (u16 (c + 1))) data.

Lemma count_at_cases s : s ∈ [DNS_S_QD; DNS_S_AN; DNS_S_NS; DNS_S_AR] → 4 <= count_at s <= 10 ∧ count_at s mod 2 = 0.
Proof. rewrite !elem_of_cons, elem_of_nil. by intros [->|[->|[->|[->|[]]]]]. Qed.

Lemma count_up_returns s P : header_ok P → s ∈ [DNS_S_QD; DNS_S_AN; DNS_S_NS; DNS_S_AR] →
  ∃ c, header_count P s = Returns c ∧ 0 <= c < 65536 ∧ count_up s P = Returns (set_data (counted s c (p_data P)) P).
Proof.
  intros HP Hs. destruct (header_count_range P HP s) as (c & Hc & Hr). exists c. split; [done|]. split; [done|].
  unfold count_up. rewrite Hc. in_run. unfold wr. destruct (count_at_cases s Hs) as [Hat _]. destruct HP as [_ H12]. unfold p_size in H12.
  change (zlen (be16 (u16 (c + 1)))) with 2. ltb_no. done.
Qed.

(** The counts, after one of them went up. *)
Lemma counted_count s c t P : header_ok P → s ∈ [DNS_S_QD; DNS_S_AN; DNS_S_NS; DNS_S_AR] → t ∈ [DNS_S_QD; DNS_S_AN; DNS_S_NS; DNS_S_AR] →
  header_count P s = Returns c → 0 <= c →
  header_count (set_data (counted s c (p_data P)) P) t = if s =? t then Returns (u16 (c + 1)) else header_count P t.
Proof.
  intros HP Hs Ht Hc Hc0. unfold header_count. cbn. destruct HP as [(_ & HE & _) H12]. unfold p_size in H12.
  assert (0 <= u16 (c + 1) < 65536) as Hu by (unfold u16, uwrap; change (2 ^ 16) with 65536; apply Z.mod_pos_bound; lia).
  destruct (Z.eqb_spec s t) as [->|Hne].
  - destruct (count_at_cases t Ht) as [Hat _]. apply holds_rd16; [lia|done|]. unfold counted.
    pose proof (holds_mem_write (Z.to_nat (count_at t)) (be16 (u16 (c + 1))) (p_data P)) as Hh. rewrite Z2Nat.id in Hh by lia.
    apply Hh. cbn. lia.
  - unfold rd16, rd, counted. rewrite !mem_write_lookup. change (length (be16 (u16 (c + 1)))) with 2%nat.
    assert (∀ i, count_at t <= i <= count_at t + 1 →
      ((Z.to_nat (count_at s) <=? Z.to_nat i)%nat && (Z.to_nat i <? Z.to_nat (count_at s) + 2)%nat) = false ∧ (Z.to_nat i <? length (p_data P))%nat = true) as Hi.
    { intros i Hi. destruct (count_at_cases s Hs) as [Ha _], (count_at_cases t Ht) as [Hb _].
      split; [|apply Nat.ltb_lt; lia]. apply andb_false_iff. rewrite Nat.leb_gt, Nat.ltb_ge.
      rewrite !elem_of_cons, elem_of_nil in Hs, Ht. unfold count_at in *.
      destruct Hs as [->|[->|[->|[->|[]]]]], Ht as [->|[->|[->|[->|[]]]]]; cbn in Hi, Hne |- *; try done; lia. }
    destruct (Hi (count_at t)) as [-> ->]; [lia|]. by destruct (Hi (count_at t + 1)) as [-> ->]; [lia|].
Qed.

(** ** The switch *)

(** The records after a section. *)
Definition later_sections (s : Z) : Z :=
  if s =? DNS_S_QD then DNS_S_AN + DNS_S_NS + DNS_S_AR else if s =? DNS_S_AN then DNS_S_NS + DNS_S_AR
  else if s =? DNS_S_NS then DNS_S_AR else 0.

Definition sections : list Z := [DNS_S_QD; DNS_S_AN; DNS_S_NS; DNS_S_AR].

Lemma section_cases s : s ∈ sections → s = DNS_S_QD ∨ s = DNS_S_AN ∨ s = DNS_S_NS ∨ s = DNS_S_AR.
Proof. unfold sections. rewrite !elem_of_cons, elem_of_nil. naive_solver. Qed.

(** What is done to the packet: the count, and the memo. *)
Lemma p_update_returns P end_ s type class ttl : header_ok P → s ∈ sections →
  ∃ later c, dns_p_count P (later_sections s) = Returns later ∧ header_count P s = Returns c ∧ 0 <= c < 65536 ∧
    if later =? 0 then ∃ M, p_update P end_ s type class ttl = Returns (None, set_memo M (set_data (counted s c (p_data P)) P))
    else p_update P end_ s type class ttl = Returns (Some DNS_EORDER, P).
Proof.
  intros HP Hs. destruct (p_count_range P HP (later_sections s)) as (later & Hl & _).
  assert (∃ c, header_count P s = Returns c ∧ 0 <= c < 65536) as (c & Hc & Hr) by apply (header_count_range P HP).
  exists later, c. do 3 (split; [done|]).
  assert (∀ base (f : dns_packet → run (option dns_errno * dns_packet)), ∃ M,
    (P ← study_if_new base P; P ← count_up s P; f P) = f (set_memo M (set_data (counted s c (p_data P)) P))) as Hup.
  { intros base f. destruct (study_if_new_returns base P HP) as [M ->]. in_run. exists M.
    destruct (count_up_returns s (set_memo M P) HP Hs) as (c' & Hc' & _ & ->). change (header_count P s = Returns c') in Hc'.
    rewrite Hc in Hc'. by simplify_eq. }
  unfold p_update.
  destruct (section_cases s Hs) as [-> | [-> | [-> | ->]]]; cbn [Z.eqb Pos.eqb DNS_S_QD DNS_S_AN DNS_S_NS DNS_S_AR] in Hl, Hup |- *.
  - change (DNS_S_AN + DNS_S_NS + DNS_S_AR) with (later_sections DNS_S_QD). rewrite Hl. in_run. destruct (Z.eqb_spec later 0); cbn [negb]; [|done].
    edestruct Hup as [M ->]. by eexists.
  - change (DNS_S_NS + DNS_S_AR) with (later_sections DNS_S_AN). rewrite Hl. in_run. destruct (Z.eqb_spec later 0); cbn [negb]; [|done].
    edestruct Hup as [M ->]. by eexists.
  - change (later_sections DNS_S_NS) with DNS_S_AR in Hl. rewrite Hl. in_run. destruct (Z.eqb_spec later 0); cbn [negb]; [|done].
    edestruct Hup as [M ->]. by eexists.
  - change (later_sections DNS_S_AR) with 0 in Hl. change (dns_p_count P 0) with (Returns 0) in Hl. injection Hl as <-. cbn [Z.eqb].
    edestruct Hup as [M ->]. case_match; by eexists.
Qed.

(** ** Packets made by pushing *)

(** [n] questions that end at [q], the other records behind them, and the names
    of the dictionary. *)
Record packet_at (K : nat) (P : dns_packet) (n : nat) (q an ns ar : Z) : Prop := {
  at_names : names_ok K (p_end P) P;
  at_qd : header_count P DNS_S_QD = Returns (Z.of_nat n);
  at_an : header_count P DNS_S_AN = Returns an;
  at_ns : header_count P DNS_S_NS = Returns ns;
  at_ar : header_count P DNS_S_AR = Returns ar;
  at_questions : questions (body (p_data P)) (p_end P) n 12 q;
  at_room : an + ns + ar <= p_end P - q;
  at_none : an + ns + ar = 0 → q = p_end P }.

Definition packet_wf (K : nat) (P : dns_packet) : Prop := ∃ n q an ns ar, packet_at K P n q an ns ar.

Lemma names_header K e P : names_ok K e P → header_ok P.
Proof. intros HN. pose proof (names_size _ _ _ HN). split; [apply HN|]. unfold p_size. lia. Qed.

Lemma at_end K P n q an ns ar : packet_at K P n q an ns ar → 12 <= q <= p_end P ∧ 12 + 5 * Z.of_nat n <= q.
Proof.
  intros HA. pose proof (at_names _ _ _ _ _ _ _ HA) as HN. pose proof (names_size _ _ _ HN) as [H12 _]. pose proof (no_end _ _ _ HN).
  destruct (questions_range _ _ _ _ _ (body_ok _ _ (no_packet _ _ _ HN) H12) (at_questions _ _ _ _ _ _ _ HA)); lia.
Qed.

Lemma at_qend K P n q an ns ar : packet_at K P n q an ns ar → dns_p_qend P = Returns q.
Proof.
  intros HA. pose proof (at_names _ _ _ _ _ _ _ HA) as HN. pose proof (no_end _ _ _ HN). unfold dns_p_qend.
  change (dns_p_count P DNS_S_QD) with (header_count P DNS_S_QD). rewrite (at_qd _ _ _ _ _ _ _ HA). in_run. rewrite Nat2Z.id.
  destruct (qend_loop_questions P (body (p_data P)) (p_end P) n 12 q) as [-> _]; try done; try lia; [apply HN| |apply HA].
  apply (kept_view (p_end P)); [apply kept_refl|lia].
Qed.

(** The header is not what is appended to. *)
Lemma kept_count e P P' s : kept e (p_data P) (p_data P') → 12 <= e → s ∈ sections → header_count P' s = header_count P s.
Proof.
  intros [_ Hk] He Hs. destruct (count_at_cases s Hs) as [Ha _]. unfold header_count, rd16, rd.
  rewrite !Hk by lia. done.
Qed.

Lemma counted_kept s c data e : s ∈ sections → kept_behind e data (counted s c data).
Proof. intros Hs. destruct (count_at_cases s Hs) as [Ha _]. apply kept_write. right. cbn. lia. Qed.

Lemma later_count P s an ns ar : s ∈ sections →
  header_count P DNS_S_AN = Returns an → header_count P DNS_S_NS = Returns ns → header_count P DNS_S_AR = Returns ar →
  dns_p_count P (later_sections s) =
    Returns (if s =? DNS_S_QD then an + ns + ar else if s =? DNS_S_AN then ns + ar else if s =? DNS_S_NS then ar else 0).
Proof.
  intros Hs Han Hns Har. destruct (section_cases s Hs) as [-> | [-> | [-> | ->]]].
  - change (dns_p_count P (later_sections DNS_S_QD)) with
      (an ← header_count P DNS_S_AN; ns ← header_count P DNS_S_NS; ar ← header_count P DNS_S_AR; Returns (0 + an + ns + ar)).
    by rewrite Han, Hns, Har.
  - change (dns_p_count P (later_sections DNS_S_AN)) with
      (ns ← header_count P DNS_S_NS; ar ← header_count P DNS_S_AR; Returns (0 + 0 + ns + ar)).
    by rewrite Hns, Har.
  - change (header_count P DNS_S_AR = Returns ar). done.
  - done.
Qed.

(** One more question: it is where the others end. *)
Lemma packet_question K K1 P n q an ns ar P' :
  packet_at K P n q an ns ar → kept_behind (p_end P) (p_data P) (p_data P') → p_end P < p_end P' → names_ok K1 (p_end P') P' →
  an + ns + ar = 0 → skips (body (p_data P')) (p_end P') (p_end P) (p_end P' - 4) →
  header_count P' DNS_S_QD = Returns (Z.of_nat (S n)) → header_count P' DNS_S_AN = Returns an →
  header_count P' DNS_S_NS = Returns ns → header_count P' DNS_S_AR = Returns ar →
  packet_at K1 P' (S n) (p_end P') an ns ar.
Proof.
  intros HA Hk Hlt HN' Hz Hs Hqd Han Hns Har. split; try done; [|lia].
  pose proof (at_questions _ _ _ _ _ _ _ HA) as Hq. rewrite (at_none _ _ _ _ _ _ _ HA Hz) in Hq.
  replace (p_end P') with (p_end P' - 4 + 4) at 2 by lia. eapply questions_snoc; [|exact Hs|lia].
  eapply questions_view; [by apply (kept_body (p_end P)); [|lia]|lia|exact Hq].
Qed.

(** One more record. *)
Lemma packet_record K K1 P n q an ns ar P' an' ns' ar' :
  packet_at K P n q an ns ar → kept_behind (p_end P) (p_data P) (p_data P') → p_end P < p_end P' → names_ok K1 (p_end P') P' →
  an' + ns' + ar' = an + ns + ar + 1 → 0 <= an + ns + ar →
  header_count P' DNS_S_QD = Returns (Z.of_nat n) → header_count P' DNS_S_AN = Returns an' →
  header_count P' DNS_S_NS = Returns ns' → header_count P' DNS_S_AR = Returns ar' →
  packet_at K1 P' n q an' ns' ar'.
Proof.
  intros HA Hk Hlt HN' Hz Hpos Hqd Han Hns Har. pose proof (at_room _ _ _ _ _ _ _ HA). split; try done; [|lia|lia].
  eapply questions_view; [by apply (kept_body (p_end P)); [|lia]|lia|apply HA].
Qed.
