(* ===== verification/DnsRecords.v ===== *)
(** Records that were pushed, read back: [dns_p_push] and then [dns_rr_skip],
    [dns_rr_parse] and [dns_any_parse]. *)

From S2P Require Import Prelude DnsPacket DnsName DnsExpand DnsSkip DnsPush DnsRR DnsBuf DnsData DnsGrep DnsWalk DnsAppend DnsTrip DnsAdd.

Open Scope Z_scope.

(** ** The switch, on a packet made by pushing *)

(** Only the count of the section went up. *)
Definition one_more (s : Z) (P P' : dns_packet) : Prop :=
  ∀ t, t ∈ sections → ∃ c, header_count P t = Returns c ∧ header_count P' t = Returns (if s =? t then c + 1 else c).

Lemma one_more_of s P P' t c : one_more s P P' → t ∈ sections → header_count P t = Returns c →
  header_count P' t = Returns (if s =? t then c + 1 else c).
Proof. intros Hm Ht Hc. destruct (Hm t Ht) as (c' & Hc' & ->). rewrite Hc in Hc'. by simplify_eq. Qed.

Lemma sections_all : DNS_S_QD ∈ sections ∧ DNS_S_AN ∈ sections ∧ DNS_S_NS ∈ sections ∧ DNS_S_AR ∈ sections.
Proof. by split; [|split; [|split]]; apply (bool_decide_unpack _). Qed.

(** Where [P'] has a record appended to [P], and there are no records of later
    sections, the packet has one record more. *)
Lemma packet_grows K K1 P P' n q an ns ar s :
  packet_at K P n q an ns ar → 0 <= an + ns + ar → kept_behind (p_end P) (p_data P) (p_data P') → p_end P < p_end P' →
  names_ok K1 (p_end P') P' → s ∈ sections → one_more s P P' →
  (s = DNS_S_QD → an + ns + ar = 0 ∧ skips (body (p_data P')) (p_end P') (p_end P) (p_end P' - 4)) →
  packet_wf K1 P' ∧ dns_p_qend P' = Returns (if s =? DNS_S_QD then p_end P' else q).
Proof.
  intros HA Hpos Hk Hlt HN' Hs Hm Hqd. destruct sections_all as (I1 & I2 & I3 & I4).
  pose proof (one_more_of _ _ _ _ _ Hm I1 (at_qd _ _ _ _ _ _ _ HA)) as C1. pose proof (one_more_of _ _ _ _ _ Hm I2 (at_an _ _ _ _ _ _ _ HA)) as C2.
  pose proof (one_more_of _ _ _ _ _ Hm I3 (at_ns _ _ _ _ _ _ _ HA)) as C3. pose proof (one_more_of _ _ _ _ _ Hm I4 (at_ar _ _ _ _ _ _ _ HA)) as C4.
  assert (∃ n' an' ns' ar', packet_at K1 P' n' (if s =? DNS_S_QD then p_end P' else q) an' ns' ar') as (n' & an' & ns' & ar' & HA').
  { destruct (section_cases s Hs) as [-> | [-> | [-> | ->]]]; cbn [Z.eqb Pos.eqb DNS_S_QD DNS_S_AN DNS_S_NS DNS_S_AR] in *.
    - destruct (Hqd eq_refl) as [Hz Hsk]. eexists _, _, _, _. eapply packet_question; [done|done|done|done|exact Hz|done| |exact C2|exact C3|exact C4]. rewrite C1. f_equal. lia.
    - eexists _, _, _, _. eapply packet_record; [done|done|done|done| |done|exact C1|exact C2|exact C3|exact C4]; lia.
    - eexists _, _, _, _. eapply packet_record; [done|done|done|done| |done|exact C1|exact C2|exact C3|exact C4]; lia.
    - eexists _, _, _, _. eapply packet_record; [done|done|done|done| |done|exact C1|exact C2|exact C3|exact C4]; lia. }
  split; [by eexists _, _, _, _, _|]. by eapply at_qend.
Qed.

Lemma packet_update K K1 P P1 n q an ns ar s type class ttl :
  packet_at K P n q an ns ar → kept (p_end P) (p_data P) (p_data P1) → p_end P < p_end P1 → names_ok K1 (p_end P1) P1 → s ∈ sections →
  (s = DNS_S_QD → skips (body (p_data P1)) (p_end P1) (p_end P) (p_end P1 - 4)) →
  ∃ err P', p_update P1 (p_end P) s type class ttl = Returns (err, P') ∧ p_end P' = p_end P1 ∧ p_dict P' = p_dict P1 ∧
    kept_behind (p_end P1) (p_data P1) (p_data P') ∧ bytes_ok (p_data P') ∧
    match err with
    | Some e => e = DNS_EORDER ∧ p_data P' = p_data P1
    | None => packet_wf K1 P' ∧ one_more s P P' ∧ ∃ q', dns_p_qend P' = Returns q' ∧ if s =? DNS_S_QD then q' = p_end P1 else q' <= p_end P
    end.
Proof.
  intros HA Hk Hlt HN1 Hs Hqd. pose proof (names_header _ _ _ HN1) as HH1. pose proof (at_names _ _ _ _ _ _ _ HA) as HN.
  pose proof (no_end _ _ _ HN) as He. pose proof (names_header _ _ _ HN) as HH. destruct (at_end _ _ _ _ _ _ _ HA) as [Hq Hn].
  pose proof (names_size _ _ _ HN) as [_ HE].
  assert (∀ t, t ∈ sections → header_count P1 t = header_count P t) as Hcount by (intros t Ht; by eapply kept_count; [exact Hk|lia|]).
  destruct (p_update_returns P1 (p_end P) s type class ttl HH1 Hs) as (later & c & Hl & Hc & Hcr & Hup). destruct sections_all as (I1 & I2 & I3 & I4).
  rewrite (later_count P1 s an ns ar Hs) in Hl by (rewrite Hcount by done; apply HA). injection Hl as Hl.
  destruct (header_count_range P HH DNS_S_AN) as (an0 & E1 & R1), (header_count_range P HH DNS_S_NS) as (ns0 & E2 & R2),
    (header_count_range P HH DNS_S_AR) as (ar0 & E3 & R3).
  rewrite (at_an _ _ _ _ _ _ _ HA) in E1. rewrite (at_ns _ _ _ _ _ _ _ HA) in E2. rewrite (at_ar _ _ _ _ _ _ _ HA) in E3.
  injection E1 as <-. injection E2 as <-. injection E3 as <-.
  pose proof (at_room _ _ _ _ _ _ _ HA) as Hroom. rewrite Hcount in Hc by done.
  destruct (Z.eqb_spec later 0) as [Hz|].
  2: { exists (Some DNS_EORDER), P1. split; [exact Hup|]. do 2 (split; [done|]). split; [apply kept_refl|]. by split; [apply HN1|]. }
  destruct Hup as [M Hup]. set (P' := set_memo M _) in Hup. exists None, P'. split; [exact Hup|]. do 2 (split; [done|]).
  assert (kept_behind (p_end P1) (p_data P1) (p_data P')) as Hk' by by apply counted_kept.
  assert (bytes_ok (p_data P')) as Hok' by (apply bytes_ok_write; [apply HN1|apply be16_ok]).
  do 2 (split; [done|]).
  assert (c + 1 < 65536) as Hc1.
  { destruct (section_cases s Hs) as [-> | [-> | [-> | ->]]];
      rewrite ?(at_qd _ _ _ _ _ _ _ HA), ?(at_an _ _ _ _ _ _ _ HA), ?(at_ns _ _ _ _ _ _ _ HA), ?(at_ar _ _ _ _ _ _ _ HA) in Hc; simplify_eq; lia. }
  assert (one_more s P P') as Hm.
  { intros t Ht. destruct (header_count_range P HH t) as (c' & Hc' & _). exists c'. split; [done|].
    change (header_count (set_data (counted s c (p_data P1)) P1) t = Returns (if s =? t then c' + 1 else c')).
    rewrite (counted_count s c t P1) by (rewrite ?Hcount by done; done || lia). rewrite Hcount, Hc' by done.
    destruct (Z.eqb_spec s t) as [->|]; [|done]. rewrite Hc in Hc'. simplify_eq. by rewrite u16_id by lia. }
  assert (names_ok K1 (p_end P') P') as HN'.
  { eapply (names_kept _ _ P1); [done|done|done|done|]. change (p_end P') with (p_end P1). split; [lia|]. apply (proj1 HH1). }
  assert (kept_behind (p_end P) (p_data P) (p_data P')) as Hk2.
  { eapply kept_less; [eapply kept_trans; [exact (kept_all _ _ _ Hk)|exact Hk']|lia]. }
  destruct (packet_grows K K1 P P' n q an ns ar s) as [Hwf Hqend]; try done; [lia| |].
  { intros ->. split; [exact (eq_trans Hl Hz)|]. change (p_end P') with (p_end P1). eapply skips_view; [|done|by apply Hqd]. by eapply kept_body. }
  split; [done|]. split; [done|]. eexists. split; [exact Hqend|]. destruct (s =? DNS_S_QD); [done|lia].
Qed.

(** ** Reading *)

(** [0x7fffffff] at most, unless it is no time. *)
Definition ttl_kept (type ttl : Z) : Z := if negb (type =? DNS_T_OPT) then Z.min ttl 0x7fffffff else ttl.

Definition be32 (x : Z) : bytes := [u8 (Z.shiftr x 24); u8 (Z.shiftr x 16); u8 (Z.shiftr x 8); u8 x].

Lemma be32_words x : 0 <= x < 2 ^ 32 →
  be32 x = be16 (Z.shiftr x 16) ++ be16 (x mod 65536) ∧ uint16 (Z.shiftr x 16) ∧ uint16 (x mod 65536) ∧
  Z.lor (Z.shiftl (Z.shiftr x 16) 16) (x mod 65536) = x.
Proof.
  intros Hx. unfold be32, be16, uint16. change (2 ^ 32) with 4294967296 in Hx. rewrite !(Z.land_comm 255), !land_255.
  assert (0 <= x mod 65536 < 65536) as Hlo by (apply Z.mod_pos_bound; lia).
  assert (0 <= Z.shiftr x 16 < 65536) as Hhi by (rewrite Z.shiftr_div_pow2 by lia; change (2 ^ 16) with 65536; Z.to_euclidean_division_equations; lia).
  split; [|do 2 (split; [done|]); rewrite Z.lor_comm, lor_shiftl_add by (unfold is_uint; lia);
    rewrite Z.shiftr_div_pow2 by lia; change (2 ^ 16) with 65536; Z.to_euclidean_division_equations; lia].
  unfold u8, uwrap. rewrite !Z.shiftr_div_pow2 by lia. change (2 ^ 8) with 256. change (2 ^ 16) with 65536. change (2 ^ 24) with 16777216.
  cbn [app]. rewrite Z.div_div by lia.
  assert ((x mod 65536) / 256 mod 256 = x / 256 mod 256) as -> by (Z.to_euclidean_division_equations; lia).
  assert ((x mod 65536) mod 256 = x mod 256) as -> by (Z.to_euclidean_division_equations; lia). done.
Qed.

Lemma be32_ok x : bytes_ok (be32 x).
Proof. unfold be32, u8, uwrap. repeat (apply Forall_cons_2); try done; unfold byte_ok, is_uint; apply Z.mod_pos_bound; lia. Qed.

Section Parse.
Context (P : dns_packet) (HP : header_ok P) (src len type class q : Z).
Context (Hs : 12 <= src) (Hlen : 0 < len) (Hskip : dns_d_skip src P = Returns (src + len)) (Hq : dns_p_qend P = Returns q).
Context (Ht : uint16 type) (Hc : uint16 class) (Hfit : src + len + 4 <= p_end P).
Context (Htc : holds (p_data P) (src + len) (be16 type ++ be16 class)).

Lemma parse_type_class :
  rd16 (p_data P) (src + len) = Returns type ∧ rd16 (p_data P) (src + len + 2) = Returns class ∧ u16 len = len ∧ u16 (src + len + 4) = src + len + 4.
Proof using All.
  pose proof HP as ((_ & He & H16) & _). apply holds_app in Htc as [H1 H2]; [|lia]. change (zlen (be16 type)) with 2 in H2.
  rewrite !u16_id by lia. split; [by apply holds_rd16; [lia| |]|]. split; [by apply holds_rd16; [lia| |]|done].
Qed.

Lemma rr_parse_question section : src < q →
  dns_rr_parse section src P = Returns (Some (mk_rr DNS_S_QD src len type class 0 0 0)).
Proof using All.
  intros Hlt. destruct parse_type_class as (H1 & H2 & H3 & H4). unfold dns_rr_parse. leb_no. rewrite Hskip. in_run.
  replace (src + len - src) with len by lia. rewrite H3. ltb_no. rewrite H1. in_run. rewrite H2. in_run. rewrite Hq. in_run. by ltb_yes.
Qed.

Lemma rr_parse_record section ttl rdlen : q <= src → 0 <= ttl < 2 ^ 32 → uint16 rdlen →
  holds (p_data P) (src + len + 4) (be32 ttl ++ be16 rdlen) → src + len + 10 + rdlen <= p_end P →
  dns_rr_parse section src P = Returns (Some (mk_rr section src len type class (ttl_kept type ttl) (src + len + 10) rdlen)).
Proof using All.
  intros Hle Httl Hrd Hh Hfit2. pose proof HP as ((_ & He & H16) & _). destruct parse_type_class as (H1 & H2 & H3 & H4).
  destruct (be32_words ttl Httl) as (E & Hhi & Hlo & Hor). rewrite E in Hh. apply holds_app in Hh as [Hw Hr]; [|lia].
  apply holds_app in Hw as [Hw1 Hw2]; [|lia]. change (zlen (be16 _ ++ be16 _)) with 4 in Hr. change (zlen (be16 _)) with 2 in Hw2.
  unfold uint16 in Hrd. unfold dns_rr_parse. leb_no. rewrite Hskip. in_run.
  replace (src + len - src) with len by lia. rewrite H3. ltb_no. rewrite H1. in_run. rewrite H2. in_run. rewrite Hq. in_run. ltb_no.
  rewrite H4. ltb_no. rewrite (holds_rd16 _ (src + len + 4) _) by (exact Hhi || exact Hw1 || lia). in_run.
  rewrite (holds_rd16 _ (src + len + 4 + 2) _) by (exact Hlo || exact Hw2 || lia). in_run.
  rewrite Hor, (u16_id (_ + 4)) by lia. ltb_no. rewrite (holds_rd16 _ (src + len + 4 + 4) rdlen) by (exact Hr || lia). in_run.
  rewrite (u16_id (_ + 2)) by lia. ltb_no. unfold ttl_kept. replace (src + len + 4 + 4 + 2) with (src + len + 10) by lia. done.
Qed.

(** [dns_rr_skip] agrees. *)
Lemma rr_skip_parsed rr next section : dns_rr_parse section src P = Returns (Some rr) → (src < q → q = next) →
  next = (if src <? q then src + len + 4 else rd_p rr + rd_len rr) → dns_rr_skip src P = Returns next.
Proof using All.
  intros Hparse Hqn Hnext. destruct (rr_parse_cases P HP section src ltac:(lia)) as (q' & Hq' & [Hn|(rr' & next' & Hp' & Hw & Hsk)]); [by rewrite Hparse in Hn|].
  rewrite Hq in Hq'. injection Hq' as <-. rewrite Hparse in Hp'. injection Hp' as <-.
  destruct Hw as (_ & _ & Hdl & _ & _ & _ & Hcase). rewrite Hskip in Hdl. injection Hdl as Hdl.
  assert (next' = next) as ->; [|apply Hsk; lia].
  destruct (Z.ltb_spec src q), Hcase as [(? & _ & ?)|(? & ? & ? & ? & _)]; lia.
Qed.

End Parse.

(** ** Pushing *)

Lemma push_front K P ls text :
  names_ok K (p_end P) P → (K <= DNS_D_MAXPTRS)%nat → Forall label_ok ls → NoDup (lower_name ls) → text_of ls text →
  ∃ err P1, dns_d_push P text = Returns (err, P1) ∧ kept (p_end P) (p_data P) (p_data P1) ∧ bytes_ok (p_data P1) ∧
    match err with
    | Some e => e = DNS_ENOBUFS
    | None =>
      ∃ bs ls', name_bytes (body (p_data P)) (p_end P) K bs ls ls' ∧ 0 < zlen bs ∧ p_end P1 = p_end P + zlen bs ∧
        holds (p_data P1) (p_end P) bs ∧ names_ok (S K) (p_end P1) P1
    end.
Proof.
  intros HN HK Hls Hnd Ht. destruct (push_name K (p_end P) P ls text HN HK Hls Ht) as (err & P1 & Hpush & Hk & Hok & _ & Hcase).
  exists err, P1. do 3 (split; [done|]). destruct err as [err|]; [by destruct Hcase as (-> & _)|].
  destruct Hcase as (bs & ls' & Hbs & Hpos & He & Hfit & Hh & Hin). exists bs, ls'. do 4 (split; [done|]).
  apply (names_again K (p_end P) P bs ls ls' P1 (p_end P)); try done; [by apply kept_all|lia].
Qed.

(** What a record has behind its name, its type and its class: the time to live
    and the data. *)
Definition data_reads (P' : dns_packet) (at_ type ttl : Z) (any : dns_any) : Prop :=
  ∃ rdlen, uint16 rdlen ∧ holds (p_data P') at_ (be32 ttl ++ be16 rdlen) ∧ p_end P' = at_ + 6 + rdlen ∧
    ∀ rr, rr_type rr = type → rd_p rr = at_ + 6 → rd_len rr = rdlen →
      ∃ any', dns_any_parse rr P' DNS_TXT_MINDATA = Returns (inr any') ∧ same_any any any'.

(** What is asked of the data of a record. *)
Definition data_ok_for (s type ttl : Z) (any : option dns_any) : Prop :=
  s = DNS_S_QD ∨ (0 <= ttl < 2 ^ 32 ∧ ∃ a, any = Some a ∧ any_ok type a).

Lemma ttl_kept_range type ttl : 0 <= ttl < 2 ^ 32 → 0 <= ttl_kept type ttl < 2 ^ 32.
Proof. intros. unfold ttl_kept. destruct (negb _); lia. Qed.

(** The time to live and the data, appended to a packet that has the rest. *)
Lemma push_data K P type ttl any :
  names_ok K (p_end P) P → (K < DNS_D_MAXPTRS)%nat → 0 <= ttl < 2 ^ 32 → any_ok type any → 6 <= p_room P →
  ∃ err P', (P ← p_append (be32 ttl) P; '(error, P) ← dns_any_push P any type; Returns (error, P, ttl)) = Returns (err, P', ttl) ∧
    kept (p_end P) (p_data P) (p_data P') ∧ bytes_ok (p_data P') ∧
    match err with
    | Some e => e = DNS_ENOBUFS
    | None => p_end P < p_end P' ∧ names_ok (K + 2) (p_end P') P' ∧
        ∀ P'', kept_behind (p_end P') (p_data P') (p_data P'') → packet_ok P'' → p_end P'' = p_end P' → data_reads P'' (p_end P) type ttl any
    end.
Proof.
  intros HN HK Httl Hany Hroom. pose proof (no_end _ _ _ HN) as He. unfold p_room, p_size in Hroom.
  destruct (append_spec K (p_end P) P (be32 ttl) HN) as (P1 & -> & E1 & HN1 & Hk1 & Hh1 & _); [cbn; unfold p_size; lia|apply be32_ok|]. in_run.
  change (zlen (be32 ttl)) with 4 in E1. pose proof (no_end _ _ _ HN1).
  destruct (any_push_reads K type P1 any) as (err & P2 & -> & Hk2 & Hok2 & _ & Hcase); [eapply names_more; [exact HN1|done|lia]|done|done|]. in_run.
  exists err, P2. split; [done|]. split; [eapply kept_less; [by eapply kept_trans|lia]|]. split; [done|]. destruct err as [err|]; [done|].
  destruct Hcase as (Hsz & HN2 & Hle & Hlen & Hread). split; [lia|]. split; [done|]. intros P'' Hk'' HP'' E''.
  pose proof (no_packet _ _ _ HN2) as (_ & _ & H16).
  exists (p_end P2 - p_end P1 - 2). split; [unfold uint16; lia|]. split; [|split; [lia|]].
  - apply holds_app; [lia|]. change (zlen (be32 ttl)) with 4. rewrite <-E1. split.
    + eapply kept_holds; [exact Hk''|lia|change (zlen (be32 ttl)) with 4; lia|].
      eapply kept_holds; [exact Hk2|lia|change (zlen (be32 ttl)) with 4; lia|done].
    + eapply kept_holds; [exact Hk''|lia|change (zlen (be16 _)) with 2; lia|done].
  - intros rr Hty Hp Hl. apply Hread; try done; lia.
Qed.

(** The bytes of a record or question: the name, the type and the class, and the
    rest. *)
Definition record_bytes (K : nat) (P P' : dns_packet) (s : Z) (ls : list bytes) (type class ttl : Z) (any : option dns_any) (q : Z)
    (bs : bytes) (ls' : list bytes) : Prop :=
  dns_p_qend P' = Returns q ∧ (if s =? DNS_S_QD then q = p_end P' else q <= p_end P) ∧
  name_bytes (body (p_data P)) (p_end P) K bs ls ls' ∧ 0 < zlen bs ∧ holds (p_data P') (p_end P) (bs ++ be16 type ++ be16 class) ∧
  if s =? DNS_S_QD then p_end P' = p_end P + zlen bs + 4
  else ∃ a, any = Some a ∧ data_reads P' (p_end P + zlen bs + 4) type (ttl_kept type ttl) a.

Definition push_result (K : nat) (P : dns_packet) (s : Z) (ls : list bytes) (type class ttl : Z) (any : option dns_any)
    (err : option dns_errno) (P' : dns_packet) : Prop :=
  bytes_ok (p_data P') ∧
  match err with
  | Some e => (e = DNS_ENOBUFS ∨ e = DNS_EORDER) ∧ p_end P' = p_end P ∧ kept (p_end P) (p_data P) (p_data P')
  | None => packet_wf (K + 3) P' ∧ one_more s P P' ∧ kept_behind (p_end P) (p_data P) (p_data P') ∧
      ∃ q bs ls', record_bytes K P P' s ls type class ttl any q bs ls'
  end.

Lemma push_result_fails K P s ls type class ttl any e P' :
  e = DNS_ENOBUFS ∨ e = DNS_EORDER → kept (p_end P) (p_data P) (p_data P') → bytes_ok (p_data P') →
  push_result K P s ls type class ttl any (Some e) (set_end (p_end P) P').
Proof. done. Qed.

(** After the switch. *)
Lemma push_updates K P P1 n q an ns ar s ls type class ttl any bs ls' ttl' :
  packet_at K P n q an ns ar → s ∈ sections → kept (p_end P) (p_data P) (p_data P1) → p_end P < p_end P1 → names_ok (K + 3) (p_end P1) P1 →
  name_bytes (body (p_data P)) (p_end P) K bs ls ls' → Forall label_ok ls → 0 < zlen bs →
  holds (p_data P1) (p_end P) (bs ++ be16 type ++ be16 class) → p_end P + zlen bs + 4 <= p_end P1 →
  (if s =? DNS_S_QD then p_end P1 = p_end P + zlen bs + 4
   else ∃ a, any = Some a ∧ ∀ P', kept_behind (p_end P1) (p_data P1) (p_data P') → packet_ok P' → p_end P' = p_end P1 →
          data_reads P' (p_end P + zlen bs + 4) type (ttl_kept type ttl) a) →
  ∃ err P', ('(error, P2) ← p_update P1 (p_end P) s type class ttl';
             match error with Some e => Returns (Some e, set_end (p_end P) P2) | None => Returns (None, P2) end) = Returns (err, P') ∧
    push_result K P s ls type class ttl any err P'.
Proof.
  intros HA Hs Hk Hlt HN1 Hbs Hls Hpos Hh Hle Hrest. pose proof (at_names _ _ _ _ _ _ _ HA) as HN. pose proof (no_end _ _ _ HN) as He.
  assert (holds (p_data P1) (p_end P) bs) as Hname by (apply holds_app in Hh as [Hh _]; [done|lia]). pose proof (no_end _ _ _ HN1). pose proof (names_size _ _ _ HN1) as [H12 _].
  destruct (packet_update K (K + 3) P P1 n q an ns ar s type class ttl') as (err & P2 & -> & E2 & _ & Hk2 & Hok2 & Hcase); try done.
  { intros ->. cbn [Z.eqb Pos.eqb DNS_S_QD] in Hrest. replace (p_end P1 - 4) with (p_end P + zlen bs) by lia.
    eapply name_bytes_skips; [done|done|lia|lia|]. apply body_holds; [lia|done]. }
  in_run. destruct err as [e|].
  { destruct Hcase as [-> Ed]. eexists _, _. split; [done|]. apply push_result_fails; [by right|by rewrite Ed|done]. }
  destruct Hcase as (Hwf & Hm & q' & Hq' & Hqc). exists None, P2. split; [done|]. split; [done|]. split; [done|]. split; [done|].
  assert (packet_ok P2) as HP2 by by destruct Hwf as (? & ? & ? & ? & ? & HA2); apply (at_names _ _ _ _ _ _ _ HA2).
  split; [eapply kept_less; [eapply kept_trans; [exact (kept_all _ _ _ Hk)|exact Hk2]|lia]|].
  exists q', bs, ls'. split; [done|]. split; [by rewrite E2|]. split; [done|]. split; [done|].
  split; [eapply kept_holds; [exact Hk2|lia|rewrite !length_app; change (length (be16 _)) with 2%nat; lia|done]|].
  destruct (s =? DNS_S_QD); [lia|]. destruct Hrest as (a & -> & Hr). exists a. split; [done|]. by apply Hr.
Qed.

Lemma p_push_writes K P s ls text type class ttl any :
  packet_wf K P → (S K < DNS_D_MAXPTRS)%nat → s ∈ sections → Forall label_ok ls → NoDup (lower_name ls) → text_of ls text →
  data_ok_for s type ttl any →
  ∃ err P', dns_p_push P s text type class ttl any = Returns (err, P') ∧ push_result K P s ls type class ttl any err P'.
Proof.
  intros (n & q & an & ns & ar & HA) HK Hs Hls Hnd Ht Hany. pose proof (at_names _ _ _ _ _ _ _ HA) as HN. pose proof (no_end _ _ _ HN) as He.
  unfold dns_p_push. destruct (push_front K P ls text HN ltac:(lia) Hls Hnd Ht) as (err & P1 & -> & Hk1 & Hok1 & Hcase). in_run.
  destruct err as [e|]; [eexists _, _; split; [done|]; apply push_result_fails; [by left|done|done]|].
  destruct Hcase as (bs & ls' & Hbs & Hpos & E1 & Hh1 & HN1). unfold p_room at 1, p_size at 1.
  destruct (Z.ltb_spec (zlen (p_data P1) - p_end P1) 4) as [|Hroom];
    [eexists _, _; split; [done|]; apply push_result_fails; [by left|done|done]|].
  destruct (append_spec (S K) (p_end P1) P1 (be16 type ++ be16 class) HN1) as (P2 & -> & E2 & HN2 & Hk2 & Hh2 & _);
    [unfold p_size; cbn; lia|apply Forall_app; split; apply be16_ok|]. in_run. change (zlen (be16 type ++ be16 class)) with 4 in E2.
  assert (kept (p_end P) (p_data P) (p_data P2)) as Hk by (eapply kept_less; [by eapply kept_trans|lia]).
  assert (holds (p_data P2) (p_end P) (bs ++ be16 type ++ be16 class)) as Hh.
  { apply holds_app; [lia|]. split; [eapply kept_holds; [exact Hk2|lia|lia|done]|by rewrite <-E1]. }
  pose proof (no_end _ _ _ HN2) as He2.
  destruct (Z.eqb_spec s DNS_S_QD) as [Hqd|Hqd].
  - in_run. apply (push_updates K P P2 n q an ns ar s ls type class ttl any bs ls'); try done; [lia|eapply names_more; [exact HN2|lia|lia]|lia|].
    rewrite Hqd. cbn [Z.eqb Pos.eqb DNS_S_QD]. lia.
  - destruct Hany as [|(Httl & a & -> & Hany)]; [done|]. unfold p_room at 1, p_size at 1.
    destruct (Z.ltb_spec (zlen (p_data P2) - p_end P2) 6) as [|Hroom2];
      [in_run; eexists _, _; split; [done|]; apply push_result_fails; [by left|done|apply HN2]|].
    fold (ttl_kept type ttl). pose proof (ttl_kept_range type ttl Httl) as Httl'.
    destruct (push_data (S K) P2 type (ttl_kept type ttl) a) as (err & P3 & Hpush & Hk3 & Hok3 & Hcase);
      [eapply names_more; [exact HN2|done|lia]|done|done|done|done|].
    fold (be32 (ttl_kept type ttl)). cbv zeta in Hpush |- *. rewrite Hpush. in_run.
    assert (kept (p_end P) (p_data P) (p_data P3)) as Hk13 by (eapply kept_less; [by eapply kept_trans|lia]).
    destruct err as [e|]; [subst e; eexists _, _; split; [done|]; apply push_result_fails; [by left|done|done]|].
    destruct Hcase as (Hlt & HN3 & Hread).
    apply (push_updates K P P3 n q an ns ar s ls type class ttl (Some a) bs ls'); try done; [lia|eapply names_more; [exact HN3|lia|lia]| |lia|].
    + eapply kept_holds; [exact Hk3|lia|rewrite !length_app; change (length (be16 _)) with 2%nat; lia|done].
    + rewrite (proj2 (Z.eqb_neq _ _) Hqd). exists a. split; [done|]. intros P' Hk' HP' E'.
      replace (p_end P + zlen bs + 4) with (p_end P2) by lia. by apply Hread.
Qed.

(** * What was pushed is what is parsed *)

(** C34: [dns_p_push] of a question, or of a record of any other section with data
    of any type but [SOA] and [OPT] (at most [DNS_TXT_MINDATA] bytes of a type that is
    kept as it is, and only SHA1 for [SSHFP]), to a packet made by pushing, of at most 42
    records (a record adds up to 3 to the pointers a name can take, and a name that
    takes more than [DNS_D_MAXPTRS] is not read): either it refuses, with
    [DNS_ENOBUFS] when there is no room or [DNS_EORDER] when there are records of a
    later section, and the packet ends where it did with the same bytes before; or
    the packet is longer by one record, only the count of the section in the header
    went up, and all that was there before stays.  At the old end [dns_rr_parse] then
    finds a record of the section, the type and the class, [dns_rr_skip] says that it
    goes on to the new end, [dns_d_expand] reads the name that was given, up to the
    case of its letters, and [dns_any_parse] the data.  And more can be pushed.

    All this is for names whose labels differ from each other, whatever their case:
    the name that is pushed, a name in its data, and, as [packet_wf] says of a packet
    made so, those pushed before.  With a label that is repeated the compression can
    point to another name ([DnsPush.repeated_label]: [foo.com] is read as
    [com.com]). *)
Theorem dns_p_push_parses_back P K s ls text type class ttl any :
  packet_wf K P → (S K < DNS_D_MAXPTRS)%nat → s ∈ sections → Forall label_ok ls → NoDup (lower_name ls) → text_of ls text →
  uint16 type → uint16 class → data_ok_for s type ttl any →
  ∃ err P', dns_p_push P s text type class ttl any = Returns (err, P') ∧
    match err with
    | Some e => (e = DNS_ENOBUFS ∨ e = DNS_EORDER) ∧ p_end P' = p_end P ∧ kept (p_end P) (p_data P) (p_data P')
    | None =>
      packet_wf (K + 3) P' ∧ one_more s P P' ∧ kept_behind (p_end P) (p_data P) (p_data P') ∧
      dns_rr_skip (p_end P) P' = Returns (p_end P') ∧
      (∃ ls', lower_name ls' = lower_name ls ∧
        ∀ dst, dns_d_expand dst (p_end P) P' =
          Returns (zlen (name_text ls'), put_nul (put dst 0 (name_text ls')) (zlen (name_text ls')))) ∧
      ∃ rr, dns_rr_parse s (p_end P) P' = Returns (Some rr) ∧ dn_p rr = p_end P ∧
        rr_section rr = s ∧ rr_type rr = type ∧ rr_class rr = class ∧
        (s ≠ DNS_S_QD → rr_ttl rr = ttl_kept type ttl ∧
          ∃ a a', any = Some a ∧ dns_any_parse rr P' DNS_TXT_MINDATA = Returns (inr a') ∧ same_any a a')
    end.
Proof.
  intros HP HK Hs Hls Hnd Ht Hty Hcl Hany. destruct (p_push_writes K P s ls text type class ttl any) as (err & P' & -> & Hok & Hcase); try done.
  exists err, P'. split; [done|]. destruct err as [e|]; [done|].
  destruct Hcase as (Hwf & Hm & Hk & q & bs & ls' & Hq & Hqc & Hbs & Hpos & Hh & Hrest). do 3 (split; [done|]).
  pose proof Hwf as (n' & q' & an' & ns' & ar' & HA'). pose proof (at_names _ _ _ _ _ _ _ HA') as HN'. pose proof (names_header _ _ _ HN') as HH'.
  destruct HP as (n & q0 & an & ns & ar & HA). pose proof (no_end _ _ _ (at_names _ _ _ _ _ _ _ HA)) as He.
  apply holds_app in Hh as [Hname Htc]; [|lia].
  assert (p_end P + zlen bs + 4 <= p_end P') as Hfit.
  { destruct (s =? DNS_S_QD); [lia|]. destruct Hrest as (_ & _ & rdlen & Hr & _ & E & _). unfold uint16 in Hr. lia. }
  destruct (name_bytes_name _ _ _ _ _ _ (p_data P') (p_end P') (p_end P) Hbs Hls) as [Hat Hskip];
    [apply (kept_view (p_end P)); [done|lia]|apply HH'|lia|lia|done|]. fold (dns_d_skip (p_end P) P') in Hskip.
  assert (∃ rr, dns_rr_parse s (p_end P) P' = Returns (Some rr) ∧ dn_p rr = p_end P ∧ rr_section rr = s ∧ rr_type rr = type ∧ rr_class rr = class ∧
    (p_end P < q → q = p_end P') ∧ p_end P' = (if p_end P <? q then p_end P + zlen bs + 4 else rd_p rr + rd_len rr) ∧
    (s ≠ DNS_S_QD → rr_ttl rr = ttl_kept type ttl ∧
      ∃ a a', any = Some a ∧ dns_any_parse rr P' DNS_TXT_MINDATA = Returns (inr a') ∧ same_any a a'))
    as (rr & Hparse & Hp & Hsec & Htype & Hclass & Hqn & Hnext & Hdata).
  { destruct (Z.eqb_spec s DNS_S_QD) as [->|Hs0].
    - eexists. split; [apply (rr_parse_question P' HH' (p_end P) (zlen bs) type class q); done || lia|]. do 4 (split; [done|]). ltb_yes. done.
    - destruct Hrest as (a & -> & rdlen & Hrd & Hdh & E & Hread). ltb_no.
      assert (0 <= ttl < 2 ^ 32) as Httl by by destruct Hany as [|[? _]].
      eexists. split; [apply (rr_parse_record P' HH' (p_end P) (zlen bs) type class q) with (ttl := ttl_kept type ttl) (rdlen := rdlen);
        done || lia || by apply ttl_kept_range|].
      do 4 (split; [done|]). split; [lia|]. split; [cbn; lia|]. intros _. cbn [rr_ttl]. split.
      { unfold ttl_kept. destruct (negb _); [lia|done]. }
      destruct (Hread (mk_rr s (p_end P) (zlen bs) type class (ttl_kept type (ttl_kept type ttl)) (p_end P + zlen bs + 10) rdlen)) as (a' & Hx & Hsame);
        [done|cbn; lia|done|]. by exists a, a'. }
  split; [eapply (rr_skip_parsed P' HH' (p_end P) (zlen bs) type class q); done || lia|].
  split; [|by exists rr]. exists ls'. destruct (name_bytes_labels _ _ _ _ _ _ Hbs Hls) as (Hlow & _). split; [done|].
  intros dst. apply name_expands; [apply HH'|]. apply (name_more _ _ _ (S K)); [|lia]. apply (name_more_all _ _ (S K)); [done|lia].
Qed.

(** A packet that was just made, of 64 bytes. *)
Definition fresh_packet : dns_packet := mk_packet (replicate DNS_P_DICTSIZE 0) memo0 12 (replicate 64 0).

Lemma fresh_packet_wf : dns_p_init (replicate 64 7) = Returns (mk_packet (replicate DNS_P_DICTSIZE 0) memo0 12 (replicate 12 0 ++ replicate 52 7)) ∧
  packet_wf 0 fresh_packet.
Proof.
  split; [reflexivity|]. exists 0%nat, 12, 0, 0, 0. split; try done; [|constructor]. split; [|done|done|].
  - split; [by apply (bool_decide_unpack _); vm_compute|by split].
  - apply Forall_replicate. done.
Qed.

Lemma dns_p_push_parses_back_witness :
  ∃ P1 P2 rr a, dns_p_push fresh_packet DNS_S_QD (labels_text foo_org) DNS_T_A DNS_C_IN 0 None = Returns (None, P1) ∧
    dns_p_push P1 DNS_S_AN (labels_text foo_org) DNS_T_A DNS_C_IN 600 (Some (any_a [10; 0; 0; 1])) = Returns (None, P2) ∧
    p_end P1 = 25 ∧ p_end P2 = 41 ∧ dns_rr_parse DNS_S_AN 25 P2 = Returns (Some rr) ∧ rr_ttl rr = 600 ∧
    dns_any_parse rr P2 DNS_TXT_MINDATA = Returns (inr a) ∧ a = any_a [10; 0; 0; 1].
Proof.
  destruct (dns_p_push_parses_back fresh_packet 0 DNS_S_QD foo_org (labels_text foo_org) DNS_T_A DNS_C_IN 0 None) as (err & P1 & Hp1 & H1);
    [apply fresh_packet_wf|unfold DNS_D_MAXPTRS; lia|apply sections_all|by apply (bool_decide_unpack _); vm_compute
    |by apply (bool_decide_unpack _); vm_compute|constructor|by split|by split|by left|].
  destruct err as [e|]; [vm_compute in Hp1; done|]. destruct H1 as (Hwf1 & _).
  assert (p_end P1 = 25) as E1 by (vm_compute in Hp1; injection Hp1 as <-; done).
  destruct (dns_p_push_parses_back P1 3 DNS_S_AN foo_org (labels_text foo_org) DNS_T_A DNS_C_IN 600 (Some (any_a [10; 0; 0; 1]))) as (err & P2 & Hp2 & H2);
    [exact Hwf1|unfold DNS_D_MAXPTRS; lia|apply sections_all|by apply (bool_decide_unpack _); vm_compute
    |by apply (bool_decide_unpack _); vm_compute|constructor|by split|by split| |].
  { right. split; [lia|]. eexists. split; [done|]. split; [done|]. split; [done|]. by apply (bool_decide_unpack _); vm_compute. }
  assert (err = None ∧ p_end P2 = 41) as [-> E2].
  { clear -Hp1 Hp2. vm_compute in Hp1. injection Hp1 as <-. vm_compute in Hp2. injection Hp2 as <- <-. done. }
  destruct H2 as (_ & _ & _ & _ & _ & rr & Hparse & _ & _ & _ & _ & Hd). destruct Hd as (Httl & a & a' & Ea & Hany & Hsame); [done|].
  injection Ea as <-. exists P1, P2, rr, a'. rewrite E1 in Hparse. do 7 (split; [done|]). by destruct a'.
Defined.
