(* ===== verification/CorpcProto.v ===== *)
(** The message protocol of a channel: [src/corpc/corpc-proto.c].  A message is
    the packed C structure it is in the source, as the bytes of its memory: the
    senders fill it in host byte order, checksum it, swap its fields to network
    order and send it; [corpc_proto_recv_msg] does the opposite in the memory of
    a [comsg] and checks codes, sizes and checksum.  [wire] is the
    specification: the bytes a message is on the network.  The socket is the
    class [Transport]; [Segments] is an instance that delivers what was sent in
    segments, as TCP does. *)

From S2P Require Import Prelude Hash.
Import Crc32.

Open Scope Z_scope.

(** ** Sockets *)

(** [co_ssl_socket_send] and [co_ssl_socket_recv]: the value returned and, for
    the latter, the bytes stored at the start of the buffer. *)
Class Transport (S : Type) := {
  co_ssl_socket_send : bytes → S → Z * S;
  co_ssl_socket_recv : nat → S → Z * bytes * S;
}.

(** What [recv(2)] promises of a buffer of [n] bytes: as many bytes are stored
    as the value returned says, and they fit. *)
Class TransportLaws (S : Type) `{Transport S} : Prop := {
  recv_fits : ∀ n s r d s',
    co_ssl_socket_recv n s = (r, d, s') → zlen d = Z.max 0 r ∧ (length d ≤ n)%nat;
}.

(** ** Integers in memory *)

Definition host_bytes (host : byte_order) (n : nat) (x : Z) : bytes :=
  match host with LITTLE_ENDIAN => le_bytes n x | BIG_ENDIAN => be_bytes n x end.
Definition of_host (host : byte_order) (bs : bytes) : Z :=
  match host with LITTLE_ENDIAN => of_le bs | BIG_ENDIAN => of_be bs end.

(** [htons]/[ntohs] ([n = 2]) and [htonl]/[ntohl] ([n = 4]). *)
Definition hton (host : byte_order) (n : nat) (x : Z) : Z :=
  match host with
  | LITTLE_ENDIAN => of_be (le_bytes n x)
  | BIG_ENDIAN => uwrap (8 * Z.of_nat n) x
  end.

(** An integer field of [n] bytes at offset [pos]: load, store, and
    [p->f = ntoh(p->f)]. *)
Definition ld (host : byte_order) (n pos : nat) (m : bytes) : Z :=
  of_host host (mem_read pos n m).
Definition st (host : byte_order) (n pos : nat) (x : Z) (m : bytes) : bytes :=
  mem_write pos (host_bytes host n x) m.
Definition swap_field (host : byte_order) (n pos : nat) (m : bytes) : bytes :=
  st host n pos (hton host n (ld host n pos m)) m.

(** ** Messages *)

Definition co_msg_create_stream_req : Z := 1.
Definition co_msg_create_stream_resp : Z := 2.
Definition co_msg_close_stream_req : Z := 3.
Definition co_msg_data : Z := 4.
Definition co_msg_data_ack : Z := 5.

Inductive create_stream_responce_code :=
| create_stream_responce_ok | create_stream_responce_no_stream_resources
| create_stream_responce_no_service | create_stream_responce_no_method
| create_stream_responce_internal_error | create_stream_responce_protocol_error.

Definition create_stream_responce_value (c : create_stream_responce_code) : Z :=
  match c with
  | create_stream_responce_ok => 0
  | create_stream_responce_no_stream_resources => 1
  | create_stream_responce_no_service => 2
  | create_stream_responce_no_method => 3
  | create_stream_responce_internal_error => 4
  | create_stream_responce_protocol_error => 5
  end.

(** [struct comsghdr] and its packed layout. *)
Record comsghdr := mk_comsghdr {
  h_crc : Z;
  h_code : Z;
  h_sid : Z;
  h_did : Z;
  h_pldsize : Z;
}.

Definition sizeof_comsghdr : nat := 12.
Definition CORPC_MAX_MSG_SIZE : Z := 64 * 1024.
Definition CORPC_MAX_PAYLOAD_SIZE : Z := CORPC_MAX_MSG_SIZE - Z.of_nat sizeof_comsghdr.

(** The memory of a header whose fields hold these values. *)
Definition hdr_mem (host : byte_order) (h : comsghdr) : bytes :=
  host_bytes host 4 (h_crc h) ++ host_bytes host 2 (h_code h) ++ host_bytes host 2 (h_sid h) ++
  host_bytes host 2 (h_did h) ++ host_bytes host 2 (h_pldsize h).

(** Offsets of [struct comsghdr] and of the [details] of the messages. *)
Definition off_crc : nat := 0.
Definition off_code : nat := 4.
Definition off_sid : nat := 6.
Definition off_did : nat := 8.
Definition off_pldsize : nat := 10.
Definition off_details : nat := 12.

Definition swap_hdr (host : byte_order) (m : bytes) : bytes :=
  let m := swap_field host 4 off_crc m in
  let m := swap_field host 2 off_code m in
  let m := swap_field host 2 off_sid m in
  let m := swap_field host 2 off_did m in
  swap_field host 2 off_pldsize m.
Definition ntohdr (host : byte_order) (m : bytes) : bytes := swap_hdr host m.
Definition htondr (host : byte_order) (m : bytes) : bytes := swap_hdr host m.

Definition crc_begin : Z := cf_crc32_begin.
Definition crc_update (crc : Z) (data : bytes) : Z := cf_crc32_update crc data.
Definition crc_final (host : byte_order) (crc : Z) : Z := cf_crc32_finalize host crc.

Definition calc_crc (host : byte_order) (hdr : bytes) (msgsize : nat) : Z :=
  crc_final host (crc_update crc_begin (mem_read off_code (msgsize - off_code) hdr)).

Definition set_crc (host : byte_order) (hdr : bytes) (msgsize : nat) : bytes :=
  st host 4 off_crc (calc_crc host hdr msgsize) hdr.

(** [create_stream_responce_status_string]; [itoa] is the [%d] of [snprintf]. *)
Definition create_stream_responce_status_string (itoa : Z → string) (code : Z) : string :=
  if code =? 0 then "OK"
  else if code =? 1 then "no_stream_resources"
  else if code =? 2 then "no_service"
  else if code =? 3 then "no_method"
  else if code =? 4 then "internal_error"
  else if code =? 5 then "protocol_error"
  else ("ERROR " +:+ itoa code)%string.

(** ** Receiving *)

Section Proto.
Context {S : Type} `{Transport S}.
Variable host : byte_order.
Implicit Types (s : S) (m : bytes).

(** What [corpc_proto_recv_msg] returns, the [errno] it sets, the message
    memory and the socket after it. *)
Record recv_result := mk_recv {
  r_ok : bool;
  r_errno : option errno;
  r_msg : bytes;
  r_sock : S;
}.

(** [None]: the bytes received do not fit in the memory at [pos]. *)
Definition co_proto_read (pos size : nat) m s : option (bool * bytes * S) :=
  let '(r, d, s') := co_ssl_socket_recv size s in
  if decide (pos + length d ≤ length m)%nat
  then Some (r =? Z.of_nat size, mem_write pos d m, s')
  else None.

Definition recv_fail (e : option errno) m s : option recv_result := Some (mk_recv false e m s).

(** The lines after the [switch]. *)
Definition recv_check_crc m s : option recv_result :=
  let crc_received := ld host 4 off_crc m in
  let crc_actual := calc_crc host m (sizeof_comsghdr + Z.to_nat (ld host 2 off_pldsize m)) in
  if crc_actual =? crc_received then Some (mk_recv true None m s) else recv_fail (Some EPROTO) m s.

(** Read [size] bytes of details, swap the 16-bit fields at [fields], check. *)
Definition recv_details (size : nat) (fields : list nat) m s : option recv_result :=
  '(ok, m, s) ← co_proto_read off_details size m s;
  if (ok : bool) then recv_check_crc (foldl (λ m pos, swap_field host 2 pos m) m fields) s
  else recv_fail None m s.

(** The [switch] on the message code. *)
Definition recv_switch m s : option recv_result :=
  let code := ld host 2 off_code m in
  let pldsize := ld host 2 off_pldsize m in
  if code =? co_msg_create_stream_req then
    if CORPC_MAX_PAYLOAD_SIZE <? pldsize then recv_fail None m s
    else recv_details (Z.to_nat pldsize) [12; 14; 16]%nat m s
  else if code =? co_msg_create_stream_resp then
    if negb (pldsize =? 4) then recv_fail None m s
    else recv_details 4 [12; 14]%nat m s
  else if code =? co_msg_close_stream_req then
    if negb (pldsize =? 2) then recv_fail None m s
    else recv_details 2 [12]%nat m s
  else if code =? co_msg_data then
    if CORPC_MAX_PAYLOAD_SIZE <? pldsize then recv_fail None m s
    else recv_details (Z.to_nat pldsize) [] m s
  else if code =? co_msg_data_ack then
    if negb (pldsize =? 0) then recv_fail None m s
    else recv_check_crc m s
  else recv_fail (Some EPROTO) m s.

Definition corpc_proto_recv_msg m s : option recv_result :=
  '(ok, m, s) ← co_proto_read off_crc sizeof_comsghdr m s;
  if negb ok then recv_fail None m s else recv_switch (ntohdr host m) s.

(** ** Sending *)

(** [co_ssl_socket_send(ssl_sock, msg, msgsize) == msgsize] *)
Definition send_whole (msg : bytes) s : bool * S :=
  let '(r, s') := co_ssl_socket_send msg s in (r =? zlen msg, s').

(** [service] and [method] are the characters before the terminators, as many as
    [strlen] counts. *)
Definition corpc_proto_send_create_stream_request (sid rwnd : Z) (service method : bytes) s :
    bool * S :=
  let service_name_length := zlen service in
  let method_name_length := zlen method in
  let payload_size := 6 + service_name_length + method_name_length in
  let msgsize := (sizeof_comsghdr + Z.to_nat payload_size)%nat in
  let msg := hdr_mem host (mk_comsghdr 0 co_msg_create_stream_req sid 0 (u16 payload_size)) ++
             host_bytes host 2 rwnd ++ host_bytes host 2 (u16 service_name_length) ++
             host_bytes host 2 (u16 method_name_length) ++ service ++ method in
  let msg := set_crc host msg msgsize in
  let msg := htondr host msg in
  let msg := swap_field host 2 12 msg in
  let msg := st host 2 14 (hton host 2 (u16 service_name_length)) msg in
  let msg := st host 2 16 (hton host 2 (u16 method_name_length)) msg in
  send_whole msg s.

Definition corpc_proto_send_create_stream_responce (sid did rwnd status : Z) s : bool * S :=
  let msg := hdr_mem host (mk_comsghdr 0 co_msg_create_stream_resp sid did 4) ++
             host_bytes host 2 status ++ host_bytes host 2 rwnd in
  let msg := set_crc host msg (length msg) in
  let msg := htondr host msg in
  let msg := swap_field host 2 12 msg in
  let msg := swap_field host 2 14 msg in
  send_whole msg s.

Definition corpc_proto_send_close_stream (sid did status : Z) s : bool * S :=
  let msg := hdr_mem host (mk_comsghdr 0 co_msg_close_stream_req sid did 2) ++
             host_bytes host 2 status in
  let msg := set_crc host msg (length msg) in
  let msg := htondr host msg in
  let msg := swap_field host 2 12 msg in
  send_whole msg s.

Definition corpc_proto_send_data_ack (sid did : Z) s : bool * S :=
  let msg := hdr_mem host (mk_comsghdr 0 co_msg_data_ack sid did 0) in
  let msg := set_crc host msg (length msg) in
  let msg := htondr host msg in
  send_whole msg s.

(** [data] are the [size] bytes at the pointer passed. *)
Definition corpc_proto_send_data (sid did : Z) (data : bytes) s : bool * S :=
  let msg := hdr_mem host (mk_comsghdr 0 co_msg_data sid did (u16 (zlen data))) in
  let crc := crc_final host (crc_update (crc_update crc_begin
               (mem_read off_code (sizeof_comsghdr - off_code) msg)) data) in
  let msg := st host 4 off_crc crc msg in
  let msg := htondr host msg in
  let '(ok, s) := send_whole msg s in
  if (ok : bool) then send_whole data s else (false, s).

End Proto.
Arguments recv_result S : clear implicits.

(** ** Specification: messages and their bytes on the network *)

Inductive comsg_body :=
| CreateStreamRequest (rwnd service_len method_len : Z) (pack : bytes)
| CreateStreamResponce (status rwnd : Z)
| CloseStream (status : Z)
| Data (bits : bytes)
| DataAck.

Record comsg := mk_comsg { m_sid : Z; m_did : Z; m_body : comsg_body }.

Definition body_code (b : comsg_body) : Z :=
  match b with
  | CreateStreamRequest _ _ _ _ => co_msg_create_stream_req
  | CreateStreamResponce _ _ => co_msg_create_stream_resp
  | CloseStream _ => co_msg_close_stream_req
  | Data _ => co_msg_data
  | DataAck => co_msg_data_ack
  end.

(** The 16-bit details of a message, then its bytes. *)
Definition body_shorts (b : comsg_body) : list Z :=
  match b with
  | CreateStreamRequest rwnd sl ml _ => [rwnd; sl; ml]
  | CreateStreamResponce status rwnd => [status; rwnd]
  | CloseStream status => [status]
  | Data _ | DataAck => []
  end.
Definition body_raw (b : comsg_body) : bytes :=
  match b with CreateStreamRequest _ _ _ pack => pack | Data bits => bits | _ => [] end.
Definition body_size (b : comsg_body) : Z := 2 * zlen (body_shorts b) + zlen (body_raw b).

(** A field is its width in bytes and its value. *)
Definition enc_fields (enc : nat → Z → bytes) (fs : list (nat * Z)) : bytes :=
  concat ((λ f, enc f.1 f.2) <$> fs).
Definition hdr_fields (msg : comsg) : list (nat * Z) :=
  [(2%nat, body_code (m_body msg)); (2%nat, m_sid msg); (2%nat, m_did msg);
   (2%nat, body_size (m_body msg))].
Definition short_fields (msg : comsg) : list (nat * Z) := pair 2%nat <$> body_shorts (m_body msg).

(** The checksum is that of the message in the memory of the host. *)
Definition msg_crc (host : byte_order) (msg : comsg) : Z :=
  cf_crc32 host (enc_fields (host_bytes host) (hdr_fields msg ++ short_fields msg) ++
                 body_raw (m_body msg)).
Definition wire_hdr (host : byte_order) (msg : comsg) : bytes :=
  enc_fields be_bytes ((4%nat, msg_crc host msg) :: hdr_fields msg).
Definition wire_details (msg : comsg) : bytes :=
  enc_fields be_bytes (short_fields msg) ++ body_raw (m_body msg).
Definition wire (host : byte_order) (msg : comsg) : bytes := wire_hdr host msg ++ wire_details msg.

Definition valid (msg : comsg) : Prop :=
  is_uint 16 (m_sid msg) ∧ is_uint 16 (m_did msg) ∧
  Forall (is_uint 16) (body_shorts (m_body msg)) ∧
  body_size (m_body msg) <= CORPC_MAX_PAYLOAD_SIZE.

#[export] Instance valid_dec msg : Decision (valid msg).
Proof. unfold valid. apply _. Defined.

(** What the channel reads in the memory of a received message. *)
Definition view (host : byte_order) (m : bytes) : option comsg :=
  let code := ld host 2 off_code m in
  let n := Z.to_nat (ld host 2 off_pldsize m) in
  mk_comsg (ld host 2 off_sid m) (ld host 2 off_did m) <$>
    (if decide (code = co_msg_create_stream_req ∧ 6 ≤ n)%nat
     then Some (CreateStreamRequest (ld host 2 12 m) (ld host 2 14 m) (ld host 2 16 m)
                  (mem_read 18 (n - 6) m))
     else if decide (code = co_msg_create_stream_resp)
     then Some (CreateStreamResponce (ld host 2 12 m) (ld host 2 14 m))
     else if decide (code = co_msg_close_stream_req) then Some (CloseStream (ld host 2 12 m))
     else if decide (code = co_msg_data) then Some (Data (mem_read 12 n m))
     else if decide (code = co_msg_data_ack) then Some DataAck
     else None).

(** A socket hands over these pieces whole, one per call. *)
Inductive delivers {S : Type} `{Transport S} : S → list bytes → S → Prop :=
| delivers_nil s : delivers s [] s
| delivers_cons s d s1 ds s2 :
    co_ssl_socket_recv (length d) s = (zlen d, d, s1) → delivers s1 ds s2 →
    delivers s (d :: ds) s2.

(** The pieces the receiver asks for. *)
Definition recv_chunks (host : byte_order) (msg : comsg) : list bytes :=
  wire_hdr host msg :: match m_body msg with DataAck => [] | _ => [wire_details msg] end.

(** The sends of a message: each piece must go out whole before the next. *)
Fixpoint send_chunks {S : Type} `{Transport S} (ds : list bytes) (s : S) : bool * S :=
  match ds with
  | [] => (true, s)
  | d :: ds' => let '(ok, s) := send_whole d s in if (ok : bool) then send_chunks ds' s else (false, s)
  end.

(** ** Fields in memory *)

Section Fields.
Variable host : byte_order.

Lemma length_host_bytes n x : length (host_bytes host n x) = n.
Proof. destruct host; [apply length_le_bytes | apply length_be_bytes]. Qed.

Lemma host_bytes_ok n x : bytes_ok (host_bytes host n x).
Proof. destruct host; [apply le_bytes_ok | apply be_bytes_ok]. Qed.

Lemma of_host_bytes n x : is_uint (8 * Z.of_nat n) x → of_host host (host_bytes host n x) = x.
Proof. intros. destruct host; simpl; rewrite ?of_le_bytes, ?of_be_bytes; by apply uwrap_id. Qed.

Lemma be_bytes_wrap n x : be_bytes n (uwrap (8 * Z.of_nat n) x) = be_bytes n x.
Proof.
  unfold be_bytes. f_equal. rewrite <-of_le_bytes.
  rewrite <-(length_le_bytes n x) at 1. apply le_bytes_of_le, le_bytes_ok.
Qed.

Lemma le_bytes_of_be n x : le_bytes n (of_be (le_bytes n x)) = be_bytes n x.
Proof.
  unfold of_be, be_bytes. rewrite <-(length_le_bytes n x) at 1.
  rewrite <-length_rev. apply le_bytes_of_le, Forall_rev, le_bytes_ok.
Qed.

Lemma host_bytes_hton n x : host_bytes host n (hton host n x) = be_bytes n x.
Proof. destruct host; simpl; [apply le_bytes_of_be | apply be_bytes_wrap]. Qed.

(** Swapping a field takes host to network order and back. *)
Lemma swap_bytes_hton n x :
  is_uint (8 * Z.of_nat n) x →
  host_bytes host n (hton host n (of_host host (host_bytes host n x))) = be_bytes n x.
Proof. intros. by rewrite of_host_bytes, host_bytes_hton. Qed.

Lemma swap_bytes_ntoh n x :
  is_uint (8 * Z.of_nat n) x →
  host_bytes host n (hton host n (of_host host (be_bytes n x))) = host_bytes host n x.
Proof.
  intros. rewrite host_bytes_hton. destruct host; simpl.
  - unfold be_bytes at 1. rewrite <-(length_be_bytes n x) at 1.
    rewrite le_bytes_of_le by apply be_bytes_ok. apply rev_involutive.
  - by rewrite of_be_bytes, be_bytes_wrap.
Qed.

Lemma length_enc_fields enc fs :
  (∀ n x, length (enc n x) = n) → length (enc_fields enc fs) = sum_list fs.*1.
Proof.
  intros He. unfold enc_fields. induction fs as [|[n x] fs IH]; [done|].
  cbn [fmap list_fmap concat fst snd]. rewrite length_app, He. cbn. f_equal. exact IH.
Qed.

Lemma enc_fields_cons enc n x fs k :
  enc_fields enc ((n, x) :: fs) ++ k = enc n x ++ enc_fields enc fs ++ k.
Proof. change (enc_fields enc ((n, x) :: fs)) with (enc n x ++ enc_fields enc fs). by rewrite (assoc_L (++)). Qed.

Lemma enc_fields_nil enc k : enc_fields enc [] ++ k = k.
Proof. done. Qed.

Lemma enc_fields_app enc fs1 fs2 :
  enc_fields enc (fs1 ++ fs2) = enc_fields enc fs1 ++ enc_fields enc fs2.
Proof. unfold enc_fields. by rewrite fmap_app, concat_app. Qed.

Definition field_ok (f : nat * Z) : Prop := is_uint (8 * Z.of_nat f.1) f.2.

(** Successive fields are swapped by swapping each at its offset. *)
Fixpoint swap_all (pos : nat) (ns : list nat) (m : bytes) : bytes :=
  match ns with
  | [] => m
  | n :: ns' => swap_all (pos + n) ns' (swap_field host n pos m)
  end.

Lemma swap_all_fields (e1 e2 : nat → Z → bytes) :
  (∀ n x, length (e1 n x) = n) → (∀ n x, length (e2 n x) = n) →
  (∀ n x, is_uint (8 * Z.of_nat n) x → host_bytes host n (hton host n (of_host host (e1 n x))) = e2 n x) →
  ∀ fs l k pos ns, Forall field_ok fs → pos = length l → ns = fs.*1 →
  swap_all pos ns (l ++ enc_fields e1 fs ++ k) = l ++ enc_fields e2 fs ++ k.
Proof.
  intros L1 L2 He fs. induction fs as [|[n x] fs IH]; intros l k pos ns Hf -> ->; [done|].
  inversion_clear Hf as [|? ? Hx Hfs]. cbn [fmap list_fmap fst swap_all].
  change (enc_fields e1 _) with (e1 n x ++ enc_fields e1 fs).
  change (enc_fields e2 _) with (e2 n x ++ enc_fields e2 fs).
  unfold swap_field, ld, st. rewrite <-!(assoc_L (++)).
  rewrite (mem_read_at _ n l (e1 n x) (enc_fields e1 fs ++ k)) by (rewrite ?L1; done).
  rewrite (He n x Hx).
  erewrite (mem_write_at _ l (e1 n x)) by (rewrite ?L1, ?L2; done).
  rewrite !(assoc_L (++) l (e2 n x)). apply IH; [done| |done].
  rewrite length_app, L2. done.
Qed.

Lemma swap_all_hton fs k :
  Forall field_ok fs →
  swap_all 0 fs.*1 (enc_fields (host_bytes host) fs ++ k) = enc_fields be_bytes fs ++ k.
Proof.
  intros. apply (swap_all_fields _ _ (length_host_bytes) length_be_bytes swap_bytes_hton fs [] k);
    done.
Qed.

Lemma swap_all_ntoh fs l k pos :
  Forall field_ok fs → pos = length l →
  swap_all pos fs.*1 (l ++ enc_fields be_bytes fs ++ k) = l ++ enc_fields (host_bytes host) fs ++ k.
Proof.
  intros. by apply (swap_all_fields _ _ length_be_bytes (length_host_bytes) swap_bytes_ntoh).
Qed.

(** The fields of a layout are what was stored. *)
Lemma ld_fields fs k i n x pos :
  Forall field_ok fs → fs !! i = Some (n, x) → pos = sum_list (take i fs.*1) →
  ld host n pos (enc_fields (host_bytes host) fs ++ k) = x.
Proof.
  intros Hf Hi ->. rewrite Forall_lookup in Hf. pose proof (Hf _ _ Hi) as Hx.
  assert (enc_fields (host_bytes host) fs = enc_fields (host_bytes host) (take i fs) ++
            host_bytes host n x ++ enc_fields (host_bytes host) (drop (S i) fs)) as ->.
  { rewrite <-(take_drop_middle _ _ _ Hi) at 1. apply enc_fields_app. }
  unfold ld. rewrite <-!(assoc_L (++)). erewrite mem_read_at; [|done| |].
  - apply of_host_bytes, Hx.
  - rewrite length_enc_fields by apply length_host_bytes. by rewrite fmap_take.
  - by rewrite length_host_bytes.
Qed.

End Fields.

(** ** Sending puts the wire bytes on the socket *)

Section Send.
Context {S : Type} `{Transport S}.
Variable host : byte_order.
Implicit Types (s : S).

Abbreviation henc := (enc_fields (host_bytes host)).

(** The memory a sender fills in is the encoding of the fields. *)
Ltac layout msg :=
  unfold msg, hdr_mem, hdr_fields, short_fields;
  cbn [h_crc h_code h_sid h_did h_pldsize m_sid m_did m_body body_code body_shorts body_raw
       fmap list_fmap app];
  rewrite <-?(assoc_L (++)), ?enc_fields_cons, ?enc_fields_nil, ?app_nil_r; reflexivity.

Lemma crc_final_uint c : is_uint 32 (crc_final host c).
Proof. unfold crc_final, cf_crc32_finalize. destruct host; by apply uwrap_range. Qed.

Lemma cf_crc32_uint bs : is_uint 32 (cf_crc32 host bs).
Proof. apply crc_final_uint. Qed.

Lemma send_chunks_one d s : send_chunks [d] s = send_whole d s.
Proof. simpl. by destruct (send_whole d s) as [[] ?]. Qed.

Lemma set_crc_fields c fs raw msgsize :
  msgsize = length (henc ((4%nat, c) :: fs) ++ raw) →
  set_crc host (henc ((4%nat, c) :: fs) ++ raw) msgsize =
  henc ((4%nat, cf_crc32 host (henc fs ++ raw)) :: fs) ++ raw.
Proof.
  intros ->. unfold set_crc, calc_crc, st.
  change (henc ((4%nat, ?c) :: fs)) with (host_bytes host 4 c ++ henc fs).
  rewrite <-!(assoc_L (++)).
  rewrite (mem_read_at _ _ (host_bytes host 4 c) (henc fs ++ raw) []).
  - change (crc_final host _) with (cf_crc32 host (henc fs ++ raw)).
    by rewrite (mem_write_at _ [] (host_bytes host 4 c) _ (henc fs ++ raw)) by
      (rewrite ?length_host_bytes; done).
  - by rewrite app_nil_r.
  - by rewrite length_host_bytes.
  - rewrite length_app, length_host_bytes. unfold off_code. lia.
Qed.

Lemma valid_fields_ok msg : valid msg → Forall field_ok (hdr_fields msg ++ short_fields msg).
Proof.
  intros (Hs & Hd & Hb & Hz). apply Forall_app. split.
  - unfold hdr_fields. repeat (apply Forall_cons; split); try done.
    + by destruct (m_body msg).
    + unfold field_ok, is_uint, CORPC_MAX_PAYLOAD_SIZE, CORPC_MAX_MSG_SIZE, sizeof_comsghdr,
        body_size in *. simpl. lia.
  - unfold short_fields. apply Forall_fmap. eapply Forall_impl; [exact Hb|]. done.
Qed.

Lemma swap_to_wire ns c msg raw :
  valid msg → is_uint 32 c →
  ns = ((4%nat, c) :: hdr_fields msg ++ short_fields msg).*1 →
  swap_all host 0 ns (henc ((4%nat, c) :: hdr_fields msg ++ short_fields msg) ++ raw) =
  enc_fields be_bytes ((4%nat, c) :: hdr_fields msg ++ short_fields msg) ++ raw.
Proof.
  intros Hv Hc ->.
  apply swap_all_hton.
  apply Forall_cons. split; [done | by apply valid_fields_ok].
Qed.

Lemma wire_fields msg :
  wire host msg =
  enc_fields be_bytes ((4%nat, msg_crc host msg) :: hdr_fields msg ++ short_fields msg) ++
  body_raw (m_body msg).
Proof.
  unfold wire, wire_hdr, wire_details. rewrite app_comm_cons, enc_fields_app.
  by rewrite <-!(assoc_L (++)).
Qed.

(** The memory a sender fills in, checksummed and swapped field by field. *)
Lemma image_to_wire ns msg msgsize :
  valid msg → ns = ((4%nat, 0) :: hdr_fields msg ++ short_fields msg).*1 →
  msgsize = length (henc ((4%nat, 0) :: hdr_fields msg ++ short_fields msg) ++ body_raw (m_body msg)) →
  swap_all host 0 ns
    (set_crc host (henc ((4%nat, 0) :: hdr_fields msg ++ short_fields msg) ++ body_raw (m_body msg))
       msgsize) = wire host msg.
Proof.
  intros Hv -> Hl. rewrite set_crc_fields by done. rewrite wire_fields.
  change (cf_crc32 host (henc ?f ++ ?r)) with (msg_crc host msg).
  apply swap_to_wire; [done|apply cf_crc32_uint|done].
Qed.

Lemma st_hton pos n x l old k m :
  m = l ++ old ++ k → pos = length l → length old = n →
  st host n pos (hton host n x) m = l ++ be_bytes n x ++ k.
Proof.
  intros -> -> Hn. unfold st. rewrite host_bytes_hton. apply (mem_write_at _ l old); try done.
  by rewrite length_be_bytes.
Qed.

Lemma htondr_all m : htondr host m = swap_all host 0 [4; 2; 2; 2; 2]%nat m.
Proof. done. Qed.

Lemma swap_all_snoc ns pos n m :
  swap_all host pos (ns ++ [n]) m = swap_field host n (pos + sum_list ns) (swap_all host pos ns m).
Proof.
  revert pos m; induction ns as [|n' ns IH]; intros pos m; cbn [app swap_all].
  - by rewrite Nat.add_0_r.
  - rewrite IH. f_equal. simpl. lia.
Qed.

(** The header and [rwnd] are swapped in place, the lengths are stored anew. *)
Lemma send_request_wire sid rwnd service method s :
  let msg := mk_comsg sid 0 (CreateStreamRequest rwnd (zlen service) (zlen method)
                               (service ++ method)) in
  valid msg →
  corpc_proto_send_create_stream_request host sid rwnd service method s =
  send_chunks [wire host msg] s.
Proof.
  intros msg Hv. rewrite send_chunks_one. unfold corpc_proto_send_create_stream_request.
  pose proof Hv as (_ & _ & Hb & Hz).
  cbn [msg m_body body_shorts body_raw] in Hb. rewrite !Forall_cons in Hb.
  destruct Hb as (Hr & Hsl & Hml & _).
  assert (u16 (6 + zlen service + zlen method) = body_size (m_body msg)) as ->.
  { unfold body_size, msg in *. cbn [m_body body_shorts body_raw] in *.
    rewrite length_app, Nat2Z.inj_add in *. change (zlen [_; _; _]) with 3 in *.
    rewrite <-Z.add_assoc. apply uwrap_id. unfold is_uint, CORPC_MAX_PAYLOAD_SIZE, CORPC_MAX_MSG_SIZE, sizeof_comsghdr in *.
    lia. }
  rewrite (uwrap_id 16 (zlen service)), (uwrap_id 16 (zlen method)) by done.
  f_equal.
  replace (hdr_mem host _ ++ _) with
    (henc ((4%nat, 0) :: hdr_fields msg ++ short_fields msg) ++ body_raw (m_body msg)) by layout msg.
  rewrite set_crc_fields.
  2:{ rewrite length_app, length_enc_fields by apply length_host_bytes.
      simpl. rewrite length_app. unfold sizeof_comsghdr. lia. }
  change (cf_crc32 host (henc ?f ++ ?r)) with (msg_crc host msg).
  rewrite wire_fields.
  set (fs1 := (4%nat, msg_crc host msg) :: hdr_fields msg ++ [(2%nat, rwnd)]).
  set (raw := body_raw (m_body msg)).
  replace (henc _ ++ raw) with
    (henc fs1 ++ host_bytes host 2 (zlen service) ++ host_bytes host 2 (zlen method) ++ raw)
    by (unfold fs1; layout msg).
  rewrite htondr_all, <-(swap_all_snoc [4; 2; 2; 2; 2]%nat 0).
  change ([4; 2; 2; 2; 2]%nat ++ [2%nat]) with fs1.*1.
  pose proof (valid_fields_ok msg Hv) as Hf.
  rewrite swap_all_hton.
  2:{ apply Forall_cons. split; [apply cf_crc32_uint|].
      apply Forall_app. rewrite Forall_app in Hf. destruct Hf as [Hf _].
      split; [done|]. apply Forall_singleton. exact Hr. }
  rewrite (st_hton 14 2 _ (enc_fields be_bytes fs1) (host_bytes host 2 (zlen service))
             (host_bytes host 2 (zlen method) ++ raw)); [|done| |apply length_host_bytes].
  2:{ by rewrite length_enc_fields by apply length_be_bytes. }
  rewrite (st_hton 16 2 _ (enc_fields be_bytes fs1 ++ be_bytes 2 (zlen service))
             (host_bytes host 2 (zlen method)) raw); [| | |apply length_host_bytes].
  - unfold fs1, raw. layout msg.
  - by rewrite <-!(assoc_L (++)).
  - rewrite length_app, length_enc_fields by apply length_be_bytes. done.
Qed.

(** The fixed-size messages: fill in, checksum, swap every field, send. *)
Lemma send_fixed ns mem msg s :
  valid msg → ns = ((4%nat, 0) :: hdr_fields msg ++ short_fields msg).*1 →
  mem = henc ((4%nat, 0) :: hdr_fields msg ++ short_fields msg) ++ body_raw (m_body msg) →
  send_whole (swap_all host 0 ns (set_crc host mem (length mem))) s = send_chunks [wire host msg] s.
Proof.
  intros Hv Hns ->. rewrite send_chunks_one. f_equal. by apply image_to_wire.
Qed.

Lemma send_responce_wire sid did rwnd status s :
  let msg := mk_comsg sid did (CreateStreamResponce status rwnd) in
  valid msg →
  corpc_proto_send_create_stream_responce host sid did rwnd status s = send_chunks [wire host msg] s.
Proof.
  intros msg Hv. unfold corpc_proto_send_create_stream_responce. cbv zeta.
  rewrite htondr_all, <-(swap_all_snoc [4; 2; 2; 2; 2]%nat 0), <-(swap_all_snoc [4; 2; 2; 2; 2; 2]%nat 0).
  apply (send_fixed _ _ msg); [done | done | layout msg].
Qed.

Lemma send_close_wire sid did status s :
  let msg := mk_comsg sid did (CloseStream status) in
  valid msg →
  corpc_proto_send_close_stream host sid did status s = send_chunks [wire host msg] s.
Proof.
  intros msg Hv. unfold corpc_proto_send_close_stream. cbv zeta.
  rewrite htondr_all, <-(swap_all_snoc [4; 2; 2; 2; 2]%nat 0).
  apply (send_fixed _ _ msg); [done | done | layout msg].
Qed.

Lemma send_data_ack_wire sid did s :
  let msg := mk_comsg sid did DataAck in
  valid msg →
  corpc_proto_send_data_ack host sid did s = send_chunks [wire host msg] s.
Proof.
  intros msg Hv. unfold corpc_proto_send_data_ack. cbv zeta. rewrite htondr_all.
  apply (send_fixed _ _ msg); [done | done | layout msg].
Qed.

Lemma send_data_wire sid did data s :
  let msg := mk_comsg sid did (Data data) in
  valid msg →
  corpc_proto_send_data host sid did data s = send_chunks [wire_hdr host msg; wire_details msg] s.
Proof.
  intros msg Hv. unfold corpc_proto_send_data.
  assert (u16 (zlen data) = body_size (m_body msg)) as ->.
  { destruct Hv as (_ & _ & _ & Hz). cbn [msg m_body body_size body_shorts body_raw] in *.
    unfold is_uint, body_size, CORPC_MAX_PAYLOAD_SIZE, CORPC_MAX_MSG_SIZE, sizeof_comsghdr in *.
    cbn [body_shorts body_raw length Z.of_nat] in *. rewrite Z.mul_0_r, Z.add_0_l in *.
    apply uwrap_id. unfold is_uint. lia. }
  set (fs := (4%nat, 0) :: hdr_fields msg).
  replace (hdr_mem host _) with (henc fs ++ []) by (unfold fs; layout msg). rewrite app_nil_r.
  set (crc := crc_final host _).
  assert (crc = msg_crc host msg) as Hcrc.
  { unfold crc, msg_crc, cf_crc32, crc_final, crc_update, crc_begin, cf_crc32_update.
    rewrite <-foldl_app. do 3 f_equal. change (short_fields msg) with (@nil (nat * Z)).
    rewrite app_nil_r. apply (mem_read_at _ _ (host_bytes host 4 0) _ []);
      [by rewrite app_nil_r | by rewrite length_host_bytes|].
    by rewrite length_enc_fields by apply length_host_bytes. }
  rewrite Hcrc.
  assert (st host 4 off_crc (msg_crc host msg) (henc fs) =
          henc ((4%nat, msg_crc host msg) :: hdr_fields msg ++ short_fields msg) ++ []) as ->.
  { rewrite app_nil_r. apply (mem_write_at _ [] (host_bytes host 4 0) _ (henc (hdr_fields msg)));
      rewrite ?length_host_bytes; done. }
  change (htondr host ?m) with (swap_all host 0 [4; 2; 2; 2; 2]%nat m).
  rewrite swap_to_wire; [|done|apply cf_crc32_uint|done].
  rewrite app_nil_r.
  change (enc_fields be_bytes _) with (wire_hdr host msg).
  change (wire_details msg) with data.
  cbn [send_chunks]. destruct (send_whole (wire_hdr host msg) s) as [[] s']; [|done].
  by destruct (send_whole data s') as [[] ?].
Qed.

End Send.

(** ** Receiving reads the message back *)

Section Recv.
Context {S : Type} `{Transport S}.
Variable host : byte_order.
Implicit Types (s : S) (m k : bytes).

Abbreviation henc := (enc_fields (host_bytes host)).

(** The memory of a received message: [crc] in its first field. *)
Definition image (crc : Z) (msg : comsg) (k : bytes) : bytes :=
  henc ((4%nat, crc) :: hdr_fields msg ++ short_fields msg) ++ body_raw (m_body msg) ++ k.

Lemma read_chunk pos d ds m s s' :
  delivers s (d :: ds) s' → (pos + length d ≤ length m)%nat →
  ∃ s1, co_proto_read pos (length d) m s = Some (true, mem_write pos d m, s1) ∧ delivers s1 ds s'.
Proof.
  intros Hd Hl. inversion Hd as [|? ? s1 ? ? Hr Hds]; subst. exists s1. split; [|done].
  unfold co_proto_read. rewrite Hr, decide_True, Z.eqb_refl by done. done.
Qed.

Lemma length_wire_hdr msg : length (wire_hdr host msg) = sizeof_comsghdr.
Proof. unfold wire_hdr. by rewrite length_enc_fields by apply length_be_bytes. Qed.

Lemma length_wire_details msg : zlen (wire_details msg) = body_size (m_body msg).
Proof.
  unfold wire_details, body_size, short_fields.
  rewrite length_app, length_enc_fields by apply length_be_bytes.
  destruct (m_body msg); simpl; lia.
Qed.

Lemma length_short_fields msg :
  length (henc (hdr_fields msg ++ short_fields msg) ++ body_raw (m_body msg)) =
  (8 + Z.to_nat (body_size (m_body msg)))%nat.
Proof.
  unfold body_size, short_fields.
  rewrite length_app, length_enc_fields by apply length_host_bytes.
  destruct (m_body msg); simpl; lia.
Qed.

Lemma image_ld crc msg k i n x pos :
  valid msg → is_uint 32 crc →
  ((4%nat, crc) :: hdr_fields msg ++ short_fields msg) !! i = Some (n, x) →
  pos = sum_list (take i ((4%nat, crc) :: hdr_fields msg ++ short_fields msg).*1) →
  ld host n pos (image crc msg k) = x.
Proof.
  intros Hv Hc Hi Hp. unfold image.
  apply (ld_fields host _ (body_raw (m_body msg) ++ k) i n x pos); [|done|done].
  apply Forall_cons. split; [done|by apply valid_fields_ok].
Qed.

(** The checksum of the memory is that of the message it holds. *)
Lemma image_calc_crc crc msg k :
  valid msg → is_uint 32 crc →
  calc_crc host (image crc msg k)
    (sizeof_comsghdr + Z.to_nat (ld host 2 off_pldsize (image crc msg k))) = msg_crc host msg.
Proof.
  intros Hv Hc. rewrite (image_ld crc msg k 4 2 (body_size (m_body msg))) by done.
  unfold calc_crc, msg_crc, cf_crc32, crc_final, crc_update, crc_begin. do 2 f_equal.
  unfold image. rewrite enc_fields_cons, (assoc_L (++) (henc _)).
  apply (mem_read_at _ _ (host_bytes host 4 crc) _ k); [done|by rewrite length_host_bytes|].
  rewrite length_short_fields. unfold sizeof_comsghdr, off_code. lia.
Qed.

Lemma recv_check_crc_image crc msg k s :
  valid msg → is_uint 32 crc →
  recv_check_crc host (image crc msg k) s =
  Some (if msg_crc host msg =? crc then mk_recv true None (image crc msg k) s
        else mk_recv false (Some EPROTO) (image crc msg k) s).
Proof.
  intros Hv Hc. unfold recv_check_crc, recv_fail. rewrite image_calc_crc by done.
  rewrite (image_ld crc msg k 0 4 crc) by done. by destruct (_ =? _).
Qed.

Lemma recv_details_image crc msg fields k s s' :
  valid msg → is_uint 32 crc →
  (Z.to_nat (body_size (m_body msg)) ≤ length k)%nat →
  (∀ m, foldl (λ m pos, swap_field host 2 pos m) m fields =
        swap_all host 12 (short_fields msg).*1 m) →
  delivers s [wire_details msg] s' →
  ∃ k', length k' = (length k - Z.to_nat (body_size (m_body msg)))%nat ∧
  recv_details host (Z.to_nat (body_size (m_body msg))) fields
    (henc ((4%nat, crc) :: hdr_fields msg) ++ k) s =
  recv_check_crc host (image crc msg k') s'.
Proof.
  intros Hv Hc Hk Hfold Hd.
  pose proof (length_wire_details msg) as Hlen.
  destruct (list_split_at (length (wire_details msg)) k) as (old & k' & -> & Hold); [lia|].
  exists k'. rewrite length_app in *. split; [lia|]. unfold recv_details.
  destruct (read_chunk off_details (wire_details msg) [] (henc ((4%nat, crc) :: hdr_fields msg) ++ old ++ k') s s')
    as (s1 & Hr & Hs1); [done| |].
  { rewrite !length_app, length_enc_fields by apply length_host_bytes. unfold off_details. simpl. lia. }
  inversion Hs1; subst.
  replace (Z.to_nat (body_size (m_body msg))) with (length (wire_details msg)) by lia.
  rewrite Hr. cbn [mbind option_bind].
  rewrite (mem_write_at _ (henc ((4%nat, crc) :: hdr_fields msg)) old (wire_details msg) k') by
    (rewrite ?length_enc_fields by apply length_host_bytes; done).
  rewrite Hfold. unfold wire_details. rewrite <-(assoc_L (++)).
  pose proof (valid_fields_ok msg Hv) as Hf. apply Forall_app in Hf as [_ Hf].
  rewrite swap_all_ntoh; [|done|by rewrite length_enc_fields by apply length_host_bytes].
  do 2 f_equal. unfold image. by rewrite app_comm_cons, enc_fields_app, <-(assoc_L (++)).
Qed.

(** The outcome for memory that holds [msg] under the checksum [crc]. *)
Definition verdict (crc : Z) (msg : comsg) (k : bytes) (s : S) : recv_result S :=
  if msg_crc host msg =? crc then mk_recv true None (image crc msg k) s
  else mk_recv false (Some EPROTO) (image crc msg k) s.

(** The [switch] reads the details its code calls for. *)
Lemma recv_switch_image crc msg k s s' :
  valid msg → is_uint 32 crc → zlen k = CORPC_MAX_PAYLOAD_SIZE →
  delivers s match m_body msg with DataAck => [] | _ => [wire_details msg] end s' →
  ∃ k', length k' = (length k - Z.to_nat (body_size (m_body msg)))%nat ∧
  recv_switch host (henc ((4%nat, crc) :: hdr_fields msg) ++ k) s = Some (verdict crc msg k' s').
Proof.
  intros Hv Hc Hk Hd. unfold recv_switch.
  pose proof (valid_fields_ok msg Hv) as Hf. apply Forall_app in Hf as [Hf _].
  assert (Forall field_ok ((4%nat, crc) :: hdr_fields msg)) as Hf1 by (by apply Forall_cons).
  rewrite (ld_fields host _ k 1 2 (body_code (m_body msg)) off_code Hf1 eq_refl eq_refl).
  rewrite (ld_fields host _ k 4 2 (body_size (m_body msg)) off_pldsize Hf1 eq_refl eq_refl).
  pose proof Hv as (_ & _ & _ & Hz).
  assert (CORPC_MAX_PAYLOAD_SIZE <? body_size (m_body msg) = false) as Hmax by (apply Z.ltb_ge; done).
  assert (∀ fields,
    (∀ m, foldl (λ m pos, swap_field host 2 pos m) m fields = swap_all host 12 (short_fields msg).*1 m) →
    delivers s [wire_details msg] s' →
    ∃ k', length k' = (length k - Z.to_nat (body_size (m_body msg)))%nat ∧
    recv_details host (Z.to_nat (body_size (m_body msg))) fields
      (henc ((4%nat, crc) :: hdr_fields msg) ++ k) s = Some (verdict crc msg k' s')) as Hdet.
  { intros fields Hfold Hs.
    destruct (recv_details_image crc msg fields k s s') as (k' & Hk' & ->);
      [done|done|lia|done|done|].
    exists k'. split; [done|]. by apply recv_check_crc_image. }
  destruct msg as [sid did [rwnd sl ml pack|status rwnd|status|bits|]];
    cbn [m_body body_code] in *.
  - change (co_msg_create_stream_req =? co_msg_create_stream_req) with true. cbn iota.
    rewrite Hmax. by apply Hdet.
  - by apply (Hdet [12; 14]%nat).
  - by apply (Hdet [12]%nat).
  - change (co_msg_data =? co_msg_data) with true. cbn -[recv_details]. rewrite Hmax. by apply Hdet.
  - inversion Hd; subst. exists k. split; [change (body_size DataAck) with 0; lia|].
    by apply (recv_check_crc_image crc (mk_comsg sid did DataAck)).
Qed.

(** The header of [msg] in memory, whatever its checksum field holds. *)
Lemma recv_header crc msg m s s1 :
  valid msg → is_uint 32 crc → length m = Z.to_nat CORPC_MAX_MSG_SIZE →
  delivers s [enc_fields be_bytes ((4%nat, crc) :: hdr_fields msg)] s1 →
  ∃ k, zlen k = CORPC_MAX_PAYLOAD_SIZE ∧
  corpc_proto_recv_msg host m s = recv_switch host (henc ((4%nat, crc) :: hdr_fields msg) ++ k) s1.
Proof.
  intros Hv Hc Hm Hd.
  destruct (list_split_at 12 m) as (old & k & -> & Hold).
  { rewrite Hm. unfold CORPC_MAX_MSG_SIZE. lia. }
  set (hdr := enc_fields be_bytes ((4%nat, crc) :: hdr_fields msg)) in *.
  assert (length hdr = sizeof_comsghdr) as Hh.
  { unfold hdr. by rewrite length_enc_fields by apply length_be_bytes. }
  destruct (read_chunk off_crc hdr _ (old ++ k) s s1 Hd) as (s2 & Hr & Hs1).
  { rewrite length_app, Hh, <-Hold. unfold off_crc, sizeof_comsghdr. lia. }
  inversion Hs1; subst.
  assert (ntohdr host (mem_write off_crc hdr (old ++ k)) =
          henc ((4%nat, crc) :: hdr_fields msg) ++ k) as Hnt.
  { rewrite (mem_write_at _ [] old hdr k) by (rewrite ?Hh; done). rewrite app_nil_l.
    apply (swap_all_ntoh host ((4%nat, crc) :: hdr_fields msg) [] k 0); [|done].
    apply Forall_cons. split; [done|].
    pose proof (valid_fields_ok msg Hv) as Hf. by apply Forall_app in Hf as [Hf _]. }
  exists k. split.
  - rewrite length_app, <-Hold in Hm. unfold CORPC_MAX_PAYLOAD_SIZE, sizeof_comsghdr.
    unfold CORPC_MAX_MSG_SIZE in *. lia.
  - unfold corpc_proto_recv_msg. rewrite <-Hh, Hr. cbn [mbind option_bind negb].
    by rewrite Hnt.
Qed.

(** A message whose header and details are those of [msg] is accepted or
    refused by its checksum alone. *)
Lemma recv_image crc msg m s s' :
  valid msg → is_uint 32 crc → length m = Z.to_nat CORPC_MAX_MSG_SIZE →
  delivers s (enc_fields be_bytes ((4%nat, crc) :: hdr_fields msg) ::
              match m_body msg with DataAck => [] | _ => [wire_details msg] end) s' →
  ∃ k, length (image crc msg k) = length m ∧
  corpc_proto_recv_msg host m s = Some (verdict crc msg k s').
Proof.
  intros Hv Hc Hm Hd. inversion Hd as [|? ? s1 ? ? Hr Hs1]; subst.
  destruct (recv_header crc msg m s s1) as (k & Hk & ->);
    [done..|by econstructor; [|constructor]|].
  destruct (recv_switch_image crc msg k s1 s') as (k' & Hk' & Hsw); [done..|].
  exists k'. split; [|done].
  destruct Hv as (_ & _ & _ & Hz). unfold image.
  rewrite enc_fields_cons, (assoc_L (++) (henc _)), !length_app.
  rewrite length_host_bytes, <-length_app, length_short_fields, Hk', Hm.
  unfold CORPC_MAX_PAYLOAD_SIZE, sizeof_comsghdr, CORPC_MAX_MSG_SIZE in *. lia.
Qed.

(** The details are read by one call; if they do not come whole it fails. *)
Lemma recv_switch_reads `{!TransportLaws S} crc msg k s r d s' :
  valid msg → is_uint 32 crc → zlen k = CORPC_MAX_PAYLOAD_SIZE → m_body msg ≠ DataAck →
  co_ssl_socket_recv (length (wire_details msg)) s = (r, d, s') →
  ∃ x, recv_switch host (henc ((4%nat, crc) :: hdr_fields msg) ++ k) s = Some x ∧ r_sock x = s' ∧
    (r_ok x = true → r = zlen (wire_details msg)).
Proof.
  intros Hv Hc Hk Hack Hr. unfold recv_switch.
  pose proof (valid_fields_ok msg Hv) as Hf. apply Forall_app in Hf as [Hf _].
  assert (Forall field_ok ((4%nat, crc) :: hdr_fields msg)) as Hf1 by (by apply Forall_cons).
  rewrite (ld_fields host _ k 1 2 (body_code (m_body msg)) off_code Hf1 eq_refl eq_refl).
  rewrite (ld_fields host _ k 4 2 (body_size (m_body msg)) off_pldsize Hf1 eq_refl eq_refl).
  pose proof Hv as (_ & _ & _ & Hz).
  assert (CORPC_MAX_PAYLOAD_SIZE <? body_size (m_body msg) = false) as Hmax by (apply Z.ltb_ge; done).
  pose proof (length_wire_details msg) as Hlen.
  assert (∀ fields, ∃ x, recv_details host (Z.to_nat (body_size (m_body msg))) fields
      (henc ((4%nat, crc) :: hdr_fields msg) ++ k) s = Some x ∧ r_sock x = s' ∧
      (r_ok x = true → r = zlen (wire_details msg))) as Hdet.
  { intros fields. replace (Z.to_nat (body_size (m_body msg))) with (length (wire_details msg)) by lia.
    unfold recv_details, co_proto_read. rewrite Hr. pose proof (recv_fits _ _ _ _ _ Hr) as [_ Hd].
    rewrite decide_True.
    - cbn [mbind option_bind]. destruct (Z.eqb_spec r (zlen (wire_details msg))); [|by eexists].
      unfold recv_check_crc, recv_fail. case_match; by eexists.
    - rewrite length_app, length_enc_fields by apply length_host_bytes. unfold off_details. cbn. lia. }
  destruct msg as [sid did [rwnd sl ml pack|status rwnd|status|bits|]];
    cbn [m_body body_code] in *; [..|done].
  - change (co_msg_create_stream_req =? co_msg_create_stream_req) with true. cbn iota.
    rewrite Hmax. apply Hdet.
  - apply (Hdet [12; 14]%nat).
  - apply (Hdet [12]%nat).
  - change (co_msg_data =? co_msg_data) with true. cbn -[recv_details]. rewrite Hmax. apply Hdet.
Qed.

(** The channel reads in that memory the fields of the message. *)
Lemma view_image crc msg k : valid msg → is_uint 32 crc → view host (image crc msg k) = Some msg.
Proof.
  intros Hv Hc. unfold view.
  rewrite (image_ld crc msg k 1 2 (body_code (m_body msg)) off_code) by done.
  rewrite (image_ld crc msg k 2 2 (m_sid msg) off_sid) by done.
  rewrite (image_ld crc msg k 3 2 (m_did msg) off_did) by done.
  rewrite (image_ld crc msg k 4 2 (body_size (m_body msg)) off_pldsize) by done.
  destruct msg as [sid did body]; cbn [m_sid m_did m_body] in *.
  destruct body as [rwnd sl ml pack|status rwnd|status|bits|]; cbn [body_code].
  - unfold body_size. cbn [body_shorts body_raw]. change (2 * zlen [rwnd; sl; ml]) with 6.
    replace (Z.to_nat (6 + zlen pack)) with (6 + length pack)%nat by lia.
    rewrite decide_True by (split; [done|lia]).
    rewrite (image_ld crc _ k 5 2 rwnd 12), (image_ld crc _ k 6 2 sl 14), (image_ld crc _ k 7 2 ml 16) by done.
    do 3 f_equal. cbn [fmap option_fmap option_map]. do 2 f_equal.
    unfold image. cbn [m_body body_raw]. f_equal.
    eapply mem_read_at; [done| |lia]. by rewrite length_enc_fields by apply length_host_bytes.
  - rewrite decide_False by (intros [? ?]; done). rewrite decide_True by done.
    by rewrite (image_ld crc _ k 5 2 status 12), (image_ld crc _ k 6 2 rwnd 14).
  - rewrite !decide_False by (done || intros [? ?]; done). rewrite decide_True by done.
    by rewrite (image_ld crc _ k 5 2 status 12).
  - rewrite !decide_False by (done || intros [? ?]; done). rewrite decide_True by done.
    unfold body_size. cbn [body_shorts body_raw length]. change (2 * Z.of_nat 0) with 0.
    rewrite Z.add_0_l, Nat2Z.id. cbn [fmap option_fmap option_map]. do 2 f_equal.
    unfold image. cbn [m_body body_raw]. f_equal.
    eapply mem_read_at; [done| |done]. by rewrite length_enc_fields by apply length_host_bytes.
  - done.
Qed.

End Recv.

(** ** Whatever the peer sends *)

Section Safety.
Context {S : Type} `{TransportLaws S}.
Variable host : byte_order.
Implicit Types (s : S) (m : bytes).

(** The sizes [corpc_proto_recv_msg] lets through, by code. *)
Definition size_ok (code pldsize : Z) : Prop :=
  (code = co_msg_create_stream_req ∧ pldsize <= CORPC_MAX_PAYLOAD_SIZE) ∨
  (code = co_msg_create_stream_resp ∧ pldsize = 4) ∨
  (code = co_msg_close_stream_req ∧ pldsize = 2) ∨
  (code = co_msg_data ∧ pldsize <= CORPC_MAX_PAYLOAD_SIZE) ∨
  (code = co_msg_data_ack ∧ pldsize = 0).

Definition crc_matches (m : bytes) : Prop :=
  calc_crc host m (sizeof_comsghdr + Z.to_nat (ld host 2 off_pldsize m)) = ld host 4 off_crc m.

(** A result that stays in the message memory, and is an accepted message only
    with a known code, an expected size and its checksum. *)
Definition recv_sound (len : nat) (o : option (recv_result S)) : Prop :=
  ∃ r, o = Some r ∧ length (r_msg r) = len ∧
    (r_ok r = true →
      size_ok (ld host 2 off_code (r_msg r)) (ld host 2 off_pldsize (r_msg r)) ∧
      crc_matches (r_msg r)).

Lemma recv_fail_sound e m s : recv_sound (length m) (recv_fail e m s).
Proof. eexists. split; [done|]. simpl. done. Qed.

Lemma recv_check_crc_sound m s :
  size_ok (ld host 2 off_code m) (ld host 2 off_pldsize m) →
  recv_sound (length m) (recv_check_crc host m s).
Proof.
  intros Hs. unfold recv_check_crc.
  destruct (Z.eqb_spec (calc_crc host m (sizeof_comsghdr + Z.to_nat (ld host 2 off_pldsize m)))
              (ld host 4 off_crc m)); [|apply recv_fail_sound].
  eexists. split; [done|]. simpl. done.
Qed.

Lemma co_proto_read_fits pos size m s :
  (pos + size ≤ length m)%nat →
  ∃ ok d s', co_proto_read pos size m s = Some (ok, mem_write pos d m, s') ∧
    (pos + length d ≤ length m)%nat.
Proof.
  intros Hl. unfold co_proto_read.
  destruct (co_ssl_socket_recv size s) as [[r d] s'] eqn:E.
  apply recv_fits in E as [_ Hd]. rewrite decide_True by lia. do 3 eexists. split; [done|lia].
Qed.

Lemma swap_field_frame n p m :
  (p + n ≤ length m)%nat →
  length (swap_field host n p m) = length m ∧
  ∀ n' pos, (pos + n' ≤ p)%nat → ld host n' pos (swap_field host n p m) = ld host n' pos m.
Proof.
  intros Hl. unfold swap_field, st, ld. split.
  - apply mem_write_length. by rewrite length_host_bytes.
  - intros. by rewrite mem_read_write_before by (rewrite ?length_host_bytes; done).
Qed.

Lemma swap_all_length ns pos m :
  (pos + sum_list ns ≤ length m)%nat → length (swap_all host pos ns m) = length m.
Proof.
  revert pos m; induction ns as [|n ns IH]; intros pos m Hl; [done|]. simpl in *.
  destruct (swap_field_frame n pos m) as [Hl' _]; [lia|]. rewrite IH; [done|]. rewrite Hl'. lia.
Qed.

Lemma swap_fields_frame fields m :
  Forall (λ p, 12 ≤ p ∧ p + 2 ≤ length m)%nat fields →
  let m' := foldl (λ m pos, swap_field host 2 pos m) m fields in
  length m' = length m ∧
  ∀ n pos, (pos + n ≤ 12)%nat → ld host n pos m' = ld host n pos m.
Proof.
  revert m; induction fields as [|p fields IH]; intros m Hf; [done|].
  apply Forall_cons in Hf as [[H1 H2] Hf]. cbn [foldl].
  destruct (swap_field_frame 2 p m H2) as [Hl Hld].
  destruct (IH (swap_field host 2 p m)) as [Hl' Hld']; [by rewrite Hl|].
  split; [by rewrite Hl', Hl|]. intros n pos Hp. rewrite Hld' by done. apply Hld. lia.
Qed.

Lemma recv_details_sound size fields m s :
  size_ok (ld host 2 off_code m) (ld host 2 off_pldsize m) →
  (12 + size ≤ length m)%nat → Forall (λ p, 12 ≤ p ∧ p + 2 ≤ length m)%nat fields →
  recv_sound (length m) (recv_details host size fields m s).
Proof.
  intros Hs Hl Hf. unfold recv_details.
  destruct (co_proto_read_fits off_details size m s Hl) as (ok & d & s' & -> & Hd).
  cbn [mbind option_bind].
  rewrite <-(mem_write_length off_details d m Hd) in *.
  assert (∀ pos, (pos + 2 ≤ 12)%nat →
    ld host 2 pos (mem_write off_details d m) = ld host 2 pos m) as Hw.
  { intros. unfold ld. by rewrite mem_read_write_before. }
  destruct ok; [|apply recv_fail_sound].
  destruct (swap_fields_frame fields _ Hf) as [Hl' Hld].
  rewrite <-Hl'. apply recv_check_crc_sound.
  rewrite !Hld, !Hw by (unfold off_code, off_pldsize; lia). done.
Qed.

Lemma recv_msg_sound m s :
  length m = Z.to_nat CORPC_MAX_MSG_SIZE →
  ∃ r, corpc_proto_recv_msg host m s = Some r ∧ length (r_msg r) = length m ∧
    (r_ok r = true →
      size_ok (ld host 2 off_code (r_msg r)) (ld host 2 off_pldsize (r_msg r)) ∧
      crc_matches (r_msg r)).
Proof.
  intros Hlen.
  assert (Z.of_nat (length m) = 65536) as Hz by (rewrite Hlen; done).
  change (recv_sound (length m) (corpc_proto_recv_msg host m s)).
  unfold corpc_proto_recv_msg.
  destruct (co_proto_read_fits off_crc sizeof_comsghdr m s) as (ok & d & s' & -> & Hd).
  { unfold off_crc, sizeof_comsghdr. lia. }
  cbn [mbind option_bind]. rewrite <-(mem_write_length off_crc d m Hd) in *. clear Hlen Hd.
  generalize dependent (mem_write off_crc d m). clear m. intros m Hz.
  destruct ok; cbn [negb]; [|apply recv_fail_sound].
  assert (length (ntohdr host m) = length m) as Hn.
  { apply (swap_all_length [4; 2; 2; 2; 2]%nat 0). simpl. lia. }
  rewrite <-Hn in *. clear Hn. generalize dependent (ntohdr host m). clear m. intros m Hz.
  unfold recv_switch.
  repeat case_match; bool_cases; try apply recv_fail_sound;
    first [apply recv_details_sound | apply recv_check_crc_sound];
    unfold size_ok; rewrite ?Z.eqb_eq, ?negb_false_iff, ?Z.ltb_ge in *;
    unfold CORPC_MAX_PAYLOAD_SIZE, CORPC_MAX_MSG_SIZE, sizeof_comsghdr in *;
    try tauto; try lia; repeat constructor; lia.
Qed.

(** C5: whatever bytes arrive, [corpc_proto_recv_msg] writes only inside the
    message it is given; it accepts a message only when the code is one of the
    five, the payload size is the one that code allows and the checksum over
    the header and the payload is the one received. *)
Theorem corpc_proto_recv_msg_sound (m : bytes) (s : S)
    (Hlen : length m = Z.to_nat CORPC_MAX_MSG_SIZE) :
  ∃ r, corpc_proto_recv_msg host m s = Some r ∧ length (r_msg r) = length m ∧
    (r_ok r = true →
      size_ok (ld host 2 off_code (r_msg r)) (ld host 2 off_pldsize (r_msg r)) ∧
      crc_matches (r_msg r)).
Proof. by apply recv_msg_sound. Qed.

End Safety.

(** ** A socket that delivers segments *)

(** What arrives comes in segments; one [recv] returns bytes of one segment, as
    many as it asks for when there are as many.  Sends append segments. *)
Record segments := mk_segments { seg_in : list bytes; seg_out : list bytes }.

Definition seg_rest (d : bytes) (ds : list bytes) : list bytes :=
  match d with [] => ds | _ => d :: ds end.

#[export] Instance segments_transport : Transport segments := {
  co_ssl_socket_send buf s :=
    (zlen buf, mk_segments (seg_in s) (seg_out s ++ seg_rest buf []));
  co_ssl_socket_recv n s :=
    match seg_in s with
    | [] => (0, [], s)
    | d :: ds => (zlen (take n d), take n d, mk_segments (seg_rest (drop n d) ds) (seg_out s))
    end;
}.

#[export] Instance segments_laws : TransportLaws segments.
Proof.
  split. intros n [[|d ds] out] r d' s'; cbn -[take]; intros [= <- <- <-];
    rewrite ?length_take; cbn [length]; lia.
Qed.

(** ** The properties of the protocol *)

Section Properties.
Context {S : Type} `{Transport S}.
Variable host : byte_order.

(** Every sender puts on the socket exactly the bytes the wire format
    prescribes for its message, in one send, or two for data (the payload only
    after the whole header went out), and reports whether all of them did. *)
Theorem corpc_proto_sends_wire (sid did rwnd status : Z) (service method data : bytes) (s : S) :
  (∀ msg, msg = mk_comsg sid 0 (CreateStreamRequest rwnd (zlen service) (zlen method)
                                  (service ++ method)) → valid msg →
    corpc_proto_send_create_stream_request host sid rwnd service method s =
    send_chunks [wire host msg] s) ∧
  (∀ msg, msg = mk_comsg sid did (CreateStreamResponce status rwnd) → valid msg →
    corpc_proto_send_create_stream_responce host sid did rwnd status s =
    send_chunks [wire host msg] s) ∧
  (∀ msg, msg = mk_comsg sid did (CloseStream status) → valid msg →
    corpc_proto_send_close_stream host sid did status s = send_chunks [wire host msg] s) ∧
  (∀ msg, msg = mk_comsg sid did DataAck → valid msg →
    corpc_proto_send_data_ack host sid did s = send_chunks [wire host msg] s) ∧
  (∀ msg, msg = mk_comsg sid did (Data data) → valid msg →
    corpc_proto_send_data host sid did data s =
    send_chunks [wire_hdr host msg; wire_details msg] s).
Proof.
  split_and!; intros msg ->.
  - apply send_request_wire.
  - apply send_responce_wire.
  - apply send_close_wire.
  - apply send_data_ack_wire.
  - apply send_data_wire.
Qed.

(** C4: when the socket hands over the header and the details of a message
    whole, [corpc_proto_recv_msg] accepts it, takes nothing more from the socket,
    and leaves in memory the very fields that were sent. *)
Theorem corpc_proto_roundtrip (msg : comsg) (m : bytes) (s s' : S)
    (Hvalid : valid msg) (Hlen : length m = Z.to_nat CORPC_MAX_MSG_SIZE)
    (Hin : delivers s (recv_chunks host msg) s') :
  ∃ m', corpc_proto_recv_msg host m s = Some (mk_recv true None m' s') ∧
    length m' = length m ∧ view host m' = Some msg.
Proof.
  destruct (recv_image host (msg_crc host msg) msg m s s') as (k & Hk & ->);
    [done|apply cf_crc32_uint|done|exact Hin|].
  exists (image host (msg_crc host msg) msg k). split; [|split; [done|]].
  - unfold verdict. by rewrite Z.eqb_refl.
  - apply view_image; [done|apply cf_crc32_uint].
Qed.

Lemma enc_fields_bytes_ok fs : bytes_ok (enc_fields (host_bytes host) fs).
Proof.
  unfold enc_fields. apply Forall_concat, Forall_fmap, Forall_true. intros. apply host_bytes_ok.
Qed.

(** C6: a data message whose payload changed on its way, within four
    consecutive bytes, is refused with [EPROTO]. *)
Theorem corpc_proto_refuses_corrupted_data (sid did : Z) (pre burst burst' post m : bytes) (s s' : S)
    (Hvalid : valid (mk_comsg sid did (Data (pre ++ burst ++ post))))
    (Hpre : bytes_ok pre) (Hb : bytes_ok burst) (Hb' : bytes_ok burst') (Hpost : bytes_ok post)
    (Hsize : length burst' = length burst) (Hfour : (length burst <= 4)%nat) (Hne : burst ≠ burst')
    (Hlen : length m = Z.to_nat CORPC_MAX_MSG_SIZE)
    (Hin : delivers s [wire_hdr host (mk_comsg sid did (Data (pre ++ burst ++ post)));
                       pre ++ burst' ++ post] s') :
  ∃ m', corpc_proto_recv_msg host m s = Some (mk_recv false (Some EPROTO) m' s').
Proof.
  set (msg := mk_comsg sid did (Data (pre ++ burst ++ post))) in *.
  set (msg' := mk_comsg sid did (Data (pre ++ burst' ++ post))).
  assert (length (pre ++ burst' ++ post) = length (pre ++ burst ++ post)) as Hl.
  { by rewrite !length_app, Hsize. }
  assert (hdr_fields msg' = hdr_fields msg) as Hh.
  { unfold hdr_fields, body_size. simpl. by rewrite Hl. }
  assert (valid msg') as Hv.
  { destruct Hvalid as (?&?&?&Hz). split_and!; [done|done|done|].
    unfold body_size in *. cbn [msg msg' m_body body_shorts body_raw] in *. by rewrite Hl. }
  destruct (recv_image host (msg_crc host msg) msg' m s s') as (k & _ & ->);
    [done|apply cf_crc32_uint|done| |].
  { rewrite Hh. unfold wire_details. exact Hin. }
  exists (image host (msg_crc host msg) msg' k). unfold verdict.
  destruct (Z.eqb_spec (msg_crc host msg') (msg_crc host msg)) as [He|]; [|done].
  exfalso. unfold msg_crc in He. rewrite Hh in He.
  change (short_fields msg') with (@nil (nat * Z)) in He.
  change (short_fields msg) with (@nil (nat * Z)) in He.
  rewrite app_nil_r in He. cbn [msg msg' m_body body_raw] in He.
  rewrite !(assoc_L (++) (enc_fields _ _)) in He. symmetry in He. revert He.
  apply cf_crc32_detects_burst; try done. apply Forall_app_2; [apply enc_fields_bytes_ok|done].
Qed.

(** A message is lost when one [recv] returns less than the piece asked
    for, for the pieces are not read in a loop: [corpc_proto_recv_msg] fails. *)
Theorem corpc_proto_short_read_fails (m d : bytes) (r : Z) (s s' : S)
    (Hrecv : co_ssl_socket_recv sizeof_comsghdr s = (r, d, s'))
    (Hshort : r < Z.of_nat sizeof_comsghdr) (Hfit : (length d <= length m)%nat) :
  corpc_proto_recv_msg host m s = Some (mk_recv false None (mem_write off_crc d m) s').
Proof.
  unfold corpc_proto_recv_msg, co_proto_read. rewrite Hrecv.
  rewrite decide_True by (unfold off_crc; lia). cbn [mbind option_bind].
  destruct (Z.eqb_spec r (Z.of_nat sizeof_comsghdr)); [lia|]. done.
Qed.

End Properties.

(** ** Witnesses *)

Definition buffer0 : bytes := replicate (Z.to_nat CORPC_MAX_MSG_SIZE) 0.

Lemma length_buffer0 : length buffer0 = Z.to_nat CORPC_MAX_MSG_SIZE.
Proof. apply length_replicate. Qed.

Definition hello : comsg := mk_comsg 7 9 (Data [104; 101; 108; 108; 111]).

Lemma corpc_proto_sends_wire_witness :
  corpc_proto_send_data LITTLE_ENDIAN 7 9 [104; 101; 108; 108; 111] (mk_segments [] []) =
    (true, mk_segments [] [wire_hdr LITTLE_ENDIAN hello; wire_details hello]) ∧
  corpc_proto_send_create_stream_request BIG_ENDIAN 7 8 [115] [109] (mk_segments [] []) =
    (true, mk_segments [] [wire BIG_ENDIAN (mk_comsg 7 0 (CreateStreamRequest 8 1 1 [115; 109]))]).
Proof.
  pose proof (corpc_proto_sends_wire (S := segments) LITTLE_ENDIAN 7 9 0 0 [] []
    [104; 101; 108; 108; 111] (mk_segments [] [])) as (_ & _ & _ & _ & Hd).
  pose proof (corpc_proto_sends_wire (S := segments) BIG_ENDIAN 7 0 8 0 [115] [109] []
    (mk_segments [] [])) as (Hr & _).
  split.
  - rewrite (Hd hello) by (by_decide || done). vm_compute. reflexivity.
  - rewrite (Hr _ eq_refl) by by_decide. vm_compute. reflexivity.
Defined.

Lemma corpc_proto_roundtrip_witness :
  ∃ m', corpc_proto_recv_msg LITTLE_ENDIAN buffer0
      (mk_segments [wire_hdr LITTLE_ENDIAN hello; wire_details hello; [1; 2; 3]] []) =
    Some (mk_recv true None m' (mk_segments [[1; 2; 3]] [])) ∧
    length m' = length buffer0 ∧ view LITTLE_ENDIAN m' = Some hello.
Proof.
  apply (corpc_proto_roundtrip (S := segments)); [by_decide | apply length_buffer0 |].
  apply (delivers_cons _ _ (mk_segments [wire_details hello; [1; 2; 3]] [])); [by vm_compute|].
  apply (delivers_cons _ _ (mk_segments [[1; 2; 3]] [])); [by vm_compute|]. constructor.
Defined.

Lemma corpc_proto_refuses_corrupted_data_witness :
  ∃ m', corpc_proto_recv_msg BIG_ENDIAN buffer0
      (mk_segments [wire_hdr BIG_ENDIAN hello; [104; 101; 7; 111; 111]] []) =
    Some (mk_recv false (Some EPROTO) m' (mk_segments [] [])).
Proof.
  apply (corpc_proto_refuses_corrupted_data (S := segments) BIG_ENDIAN 7 9 [104; 101] [108; 108]
    [7; 111] [111]); [by_decide..|apply length_buffer0|].
  apply (delivers_cons _ _ (mk_segments [[104; 101; 7; 111; 111]] [])); [by vm_compute|].
  apply (delivers_cons _ _ (mk_segments [] [])); [by vm_compute|]. constructor.
Defined.

Lemma corpc_proto_recv_msg_sound_witness :
  ∃ r, corpc_proto_recv_msg LITTLE_ENDIAN buffer0 (mk_segments [[1; 2; 3]] []) = Some r ∧
    length (r_msg r) = length buffer0 ∧
    (r_ok r = true →
      size_ok (ld LITTLE_ENDIAN 2 off_code (r_msg r)) (ld LITTLE_ENDIAN 2 off_pldsize (r_msg r)) ∧
      crc_matches LITTLE_ENDIAN (r_msg r)).
Proof. apply (corpc_proto_recv_msg_sound (S := segments)), length_buffer0. Defined.

(** A data message cut in two by the network: eight bytes of the header arrive
    first, and the message is dropped although the rest follows. *)
Lemma corpc_proto_short_read_fails_witness :
  let hdr := wire_hdr LITTLE_ENDIAN hello in
  corpc_proto_recv_msg LITTLE_ENDIAN buffer0
    (mk_segments [take 8 hdr; drop 8 hdr; wire_details hello] []) =
  Some (mk_recv false None (mem_write off_crc (take 8 hdr) buffer0)
          (mk_segments [drop 8 hdr; wire_details hello] [])).
Proof.
  intros hdr. apply (corpc_proto_short_read_fails (S := segments) _ _ _ 8); [by vm_compute|done|].
  rewrite length_buffer0. apply (bool_decide_unpack _). vm_compute. exact I.
Defined.

(** [corpc_proto_send_data] stores the size of the payload in 16 bits: 65541
    bytes go out behind a header that announces 5. *)
Lemma send_data_truncates_size (data : bytes) :
  zlen data = 65541 →
  ∃ crc, corpc_proto_send_data LITTLE_ENDIAN 7 9 data (mk_segments [] []) =
    (true, mk_segments [] [be_bytes 4 crc ++ be_bytes 2 4 ++ be_bytes 2 7 ++ be_bytes 2 9 ++
                           be_bytes 2 5; data]).
Proof.
  intros Hsize. unfold corpc_proto_send_data. rewrite Hsize. change (u16 65541) with 5. cbv zeta.
  set (crc := crc_final _ _). exists crc.
  pose (fs := [(4%nat, crc); (2%nat, 4); (2%nat, 7); (2%nat, 9); (2%nat, 5)]).
  assert (htondr LITTLE_ENDIAN (st LITTLE_ENDIAN 4 off_crc crc
            (hdr_mem LITTLE_ENDIAN (mk_comsghdr 0 co_msg_data 7 9 5))) =
          enc_fields be_bytes fs ++ []) as ->.
  { rewrite <-swap_all_hton with (host := LITTLE_ENDIAN).
    - rewrite htondr_all. reflexivity.
    - apply Forall_cons. split; [apply crc_final_uint|]. by_compute. }
  unfold send_whole. cbn -[zlen be_bytes enc_fields]. rewrite Z.eqb_refl. cbn -[zlen be_bytes enc_fields].
  rewrite Z.eqb_refl. do 2 f_equal. destruct data; [done|]. reflexivity.
Qed.
