(* ===== verification/Threads.v ===== *)
(** Threads that share memory under a lock.  A critical section [sec] is what a
    thread does between taking and releasing the lock of
    [src/corpc/corpc-channel.c] ([channel_state_lock]/[channel_state_unlock]):
    it runs to its end ([Go]), waits for the state to change
    ([channel_state_wait], which releases the lock and looks again later), or
    does something undefined ([Fault]).  A thread [proc] is a sequence of such
    sections; [pool_step] interleaves any number of threads, and steps of an
    environment, at the boundaries of the sections.  [okp] is a small logic for
    threads: an invariant of the shared state indexed by the sum of what the
    threads hold ([pool_sound]). *)

From S2P Require Import Prelude.

(** ** Critical sections *)

Inductive outcome (W A : Type) :=
| Go (a : A) (w : W)
| Wait
| Fault.
Arguments Go {W A} _ _.
Arguments Wait {W A}.
Arguments Fault {W A}.

Definition sec (W A : Type) : Type := W → outcome W A.

#[export] Instance sec_ret W : MRet (sec W) := λ A a w, Go a w.
#[export] Instance sec_bind W : MBind (sec W) := λ A B f s w,
  match s w with Go a w' => f a w' | Wait => Wait | Fault => Fault end.

Definition wait {W A} : sec W A := λ _, Wait.
Definition fault {W A} : sec W A := λ _, Fault.
Definition get {W} : sec W W := λ w, Go w w.
Definition put {W} (w : W) : sec W unit := λ _, Go () w.
Definition modify {W} (f : W → W) : sec W unit := λ w, Go () (f w).

(** ** Threads *)

(** [Choose]: the outcome of a call whose failure the code does not control (an
    allocation, the scheduling of a thread).  [Fork]: a thread is started. *)
Inductive proc (W : Type) : Type → Type :=
| Ret {A} (a : A) : proc W A
| Crit {A B} (s : sec W B) (k : B → proc W A) : proc W A
| Choose {A} (k : bool → proc W A) : proc W A
| Fork {A} (p : proc W unit) (k : proc W A) : proc W A.
Arguments Ret {W A} _.
Arguments Crit {W A B} _ _.
Arguments Choose {W A} _.
Arguments Fork {W A} _ _.

Fixpoint pbind {W A B} (p : proc W A) : (A → proc W B) → proc W B :=
  match p in proc _ A return (A → proc W B) → proc W B with
  | Ret a => λ f, f a
  | Crit s k => λ f, Crit s (λ b, pbind (k b) f)
  | Choose k => λ f, Choose (λ b, pbind (k b) f)
  | Fork q k => λ f, Fork q (pbind k f)
  end.

Declare Scope proc_scope.
Delimit Scope proc_scope with proc.
Notation "'do' x ← p ; q" := (pbind p (λ x, q))
  (at level 100, x name, p at level 60, q at level 200, right associativity) : proc_scope.
Notation "'exec' p ; q" := (pbind p (λ _, q))
  (at level 100, p at level 60, q at level 200, right associativity) : proc_scope.
Open Scope proc_scope.

(** A thread of one section, and a call that may fail. *)
Definition crit {W A} (s : sec W A) : proc W A := Crit s Ret.
Definition choose {W} : proc W bool := Choose Ret.

(** A thread run alone: to its end, until it waits, or to undefined behaviour.
    The calls that may fail take their outcomes from [choices], then succeed. *)
Inductive run_result (W A : Type) :=
| Done (a : A) (w : W) (forked : list (proc W unit))
| Blocked (w : W)
| Undefined.
Arguments Done {W A} _ _ _.
Arguments Blocked {W A} _.
Arguments Undefined {W A}.

Fixpoint run {W A} (choices : list bool) (p : proc W A) (w : W) : run_result W A :=
  match p in proc _ A return run_result W A with
  | Ret a => Done a w []
  | Crit s k => match s w with
                | Go b w' => run choices (k b) w'
                | Wait => Blocked w
                | Fault => Undefined
                end
  | Choose k => match choices with
                | b :: choices' => run choices' (k b) w
                | [] => run [] (k true) w
                end
  | Fork q k => match run choices k w with
                | Done a w' forked => Done a w' (q :: forked)
                | r => r
                end
  end.

Lemma run_ret_r {W A} (p : proc W A) : ∀ ch w, run ch (pbind p Ret) w = run ch p w.
Proof.
  induction p as [A a|A B' s g IH|A g IH|A q _ g IH]; intros ch w; simpl.
  - done.
  - by destruct (s w).
  - by destruct ch.
  - by rewrite IH.
Qed.

Lemma run_assoc {W A B C} (p : proc W A) (f : A → proc W B) (k : B → proc W C) : ∀ ch w,
  run ch (pbind (pbind p f) k) w = run ch (pbind p (λ x, pbind (f x) k)) w.
Proof.
  induction p as [A a|A B' s g IH|A g IH|A q _ g IH]; intros ch w; simpl.
  - done.
  - by destruct (s w).
  - by destruct ch.
  - by rewrite IH.
Qed.

(** A call that ends, then the rest of its caller. *)
Lemma run_bind_done {W A B} (p : proc W A) (k : A → proc W B) : ∀ w a w1 fs b w2 fs',
  run [] p w = Done a w1 fs → run [] (k a) w1 = Done b w2 fs' →
  run [] (pbind p k) w = Done b w2 (fs ++ fs').
Proof.
  induction p as [A a0|A B' s g IH|A g IH|A q _ g IH]; intros w a w1 fs b w2 fs' Hp Hk; simpl in *.
  - by injection Hp as <- <- <-.
  - destruct (s w); [|done..]. by eapply IH.
  - by eapply IH.
  - destruct (run [] g w) as [a1 w3 fs1| |] eqn:E; [|done..]. injection Hp as <- <- <-.
    by rewrite (IH _ _ _ _ _ _ _ _ E Hk).
Qed.

(** ** Interleaving *)

(** One step of a thread: the thread and the memory after it, and the threads
    started. *)
Definition steps_to {W A} (p : proc W A) (w : W) (p' : proc W A) (w' : W)
    (forked : list (proc W unit)) : Prop :=
  match p in proc _ A return proc W A → Prop with
  | Ret _ => λ _, False
  | Crit s k => λ p', ∃ b, s w = Go b w' ∧ p' = k b ∧ forked = []
  | Choose k => λ p', ∃ b, p' = k b ∧ w' = w ∧ forked = []
  | Fork q k => λ p', p' = k ∧ w' = w ∧ forked = [q]
  end p'.

(** The next section of the thread is undefined behaviour. *)
Definition faults {W A} (p : proc W A) (w : W) : Prop :=
  match p with Crit s _ => s w = Fault | _ => False end.

Section Pool.
(** The state [C] of the whole system holds the memory [W] of each site [T]. *)
Context {C W T : Type} (at_site : T → C → W) (set_site : T → W → C → C).
Context (set_at : ∀ t c, set_site t (at_site t c) c = c).
Context (env : C → C → Prop).

Abbreviation thread := (T * proc W unit)%type.

Inductive pool_step : C * list thread → C * list thread → Prop :=
| step_thread c ts (i : nat) t (p p' : proc W unit) w' forked :
    ts !! i = Some (t, p) → steps_to p (at_site t c) p' w' forked →
    pool_step (c, ts) (set_site t w' c, <[i:=(t, p')]> ts ++ map (pair t) forked)
| step_env c c' ts : env c c' → pool_step (c, ts) (c', ts).

Definition pool_faults (cts : C * list thread) : Prop :=
  Exists (λ tp, faults tp.2 (at_site tp.1 cts.1)) cts.2.

(** ** Executing an interleaving *)

Definition exec_thread {A} (b : bool) (p : proc W A) (w : W) :
    option (proc W A * W * list (proc W unit)) :=
  match p in proc _ A return option (proc W A * W * list (proc W unit)) with
  | Ret _ => None
  | Crit s k => match s w with Go a w' => Some (k a, w', []) | _ => None end
  | Choose k => Some (k b, w, [])
  | Fork q k => Some (k, w, [q])
  end.

Lemma exec_thread_sound {A} b (p : proc W A) w p' w' forked :
  exec_thread b p w = Some (p', w', forked) → steps_to p w p' w' forked.
Proof.
  destruct p as [A a|A B s k|A k|A q k]; simpl.
  - done.
  - destruct (s w) as [a w1| |] eqn:E; [|done|done]. intros [= <- <- <-]. eauto.
  - intros [= <- <- <-]. eauto.
  - intros [= <- <- <-]. eauto.
Qed.

(** The next thread to run, with the outcome of its choice, or a step of the
    environment. *)
Inductive action := RunThread (i : nat) (b : bool) | RunEnv (b : bool).

Context (exec_env : bool → C → option C).

Fixpoint run_schedule (acts : list action) (cts : C * list thread) : option (C * list thread) :=
  match acts with
  | [] => Some cts
  | RunThread i b :: acts' =>
    '(t, p) ← cts.2 !! i;
    '(p', w', forked) ← exec_thread b p (at_site t cts.1);
    run_schedule acts' (set_site t w' cts.1, <[i:=(t, p')]> cts.2 ++ map (pair t) forked)
  | RunEnv b :: acts' => c' ← exec_env b cts.1; run_schedule acts' (c', cts.2)
  end.

Lemma run_schedule_sound acts x y :
  (∀ b c c', exec_env b c = Some c' → env c c') → run_schedule acts x = Some y → rtc pool_step x y.
Proof.
  intros Henv. revert x. induction acts as [|[i b|b] acts IH]; intros [c ts] H; cbn [run_schedule fst snd] in H.
  - by injection H as ->.
  - destruct (ts !! i) as [[t p]|] eqn:Hi; cbn in H; [|done].
    destruct (exec_thread b p (at_site t c)) as [[[p' w'] forked]|] eqn:E; cbn in H; [|done].
    eapply rtc_l; [|by apply IH]. eapply step_thread; [done|by eapply exec_thread_sound].
  - destruct (exec_env b c) as [c'|] eqn:E; cbn in H; [|done].
    eapply rtc_l; [|by apply IH]. apply step_env. by eapply Henv.
Qed.

(** ** A logic for threads *)

(** What threads hold: a commutative monoid. *)
Context {G : Type} (gop : G → G → G) (gunit : G).
Context (gop_assoc : ∀ a b c, gop a (gop b c) = gop (gop a b) c)
        (gop_comm : ∀ a b, gop a b = gop b a)
        (gop_unit : ∀ a, gop gunit a = a).

(** The invariant of the shared state, given all that the threads hold. *)
Context (I : G → C → Prop).

(** [okp t g p Q]: holding [g], the thread [p] at site [t] never faults, keeps the
    invariant at every step, and ends with a value and a holding in [Q]. *)
Fixpoint okp {A} (t : T) (g : G) (p : proc W A) : (A → G → Prop) → Prop :=
  match p in proc _ A return (A → G → Prop) → Prop with
  | Ret a => λ Q, Q a g
  | Crit s k => λ Q, ∀ c go, I (gop g go) c →
      match s (at_site t c) with
      | Go b w' => ∃ g', I (gop g' go) (set_site t w' c) ∧ okp t g' (k b) Q
      | Wait => True
      | Fault => False
      end
  | Choose k => λ Q, ∀ b, okp t g (k b) Q
  | Fork q k => λ Q, ∃ g1 g2, g = gop g1 g2 ∧ okp t g1 q (λ _ _, True) ∧ okp t g2 k Q
  end.

Lemma okp_mono {A} t (p : proc W A) : ∀ g (Q Q' : A → G → Prop),
  okp t g p Q → (∀ a g', Q a g' → Q' a g') → okp t g p Q'.
Proof.
  induction p as [A a|A B s k IH|A k IH|A q _ k IH]; intros g Q Q' H HQ; simpl in *.
  - auto.
  - intros c go Hi. specialize (H c go Hi). destruct (s (at_site t c)); [|done|done].
    destruct H as (g' & ? & ?). eauto.
  - eauto.
  - destruct H as (g1 & g2 & ? & ? & ?). eauto 6.
Qed.

Lemma okp_bind {A B} t (p : proc W A) (f : A → proc W B) : ∀ g Q R,
  okp t g p Q → (∀ a g', Q a g' → okp t g' (f a) R) → okp t g (pbind p f) R.
Proof.
  induction p as [A a|A B' s k IH|A k IH|A q _ k IH]; intros g Q R H HQ; simpl in *.
  - auto.
  - intros c go Hi. specialize (H c go Hi). destruct (s (at_site t c)); [|done|done].
    destruct H as (g' & ? & ?). eauto.
  - eauto.
  - destruct H as (g1 & g2 & ? & ? & ?). eauto 6.
Qed.

Lemma okp_crit {A} t g (s : sec W A) Q :
  (∀ c go, I (gop g go) c →
    match s (at_site t c) with
    | Go b w' => ∃ g', I (gop g' go) (set_site t w' c) ∧ Q b g'
    | Wait => True
    | Fault => False
    end) → okp t g (crit s) Q.
Proof. done. Qed.

(** What all the threads hold. *)
Definition total (gs : list G) : G := foldr gop gunit gs.

Lemma total_app gs gs' : total (gs ++ gs') = gop (total gs) (total gs').
Proof.
  unfold total. induction gs as [|g gs IH]; simpl; [by rewrite gop_unit|].
  by rewrite IH, gop_assoc.
Qed.

Lemma total_split gs i g : gs !! i = Some g →
  ∃ rest, total gs = gop g rest ∧ ∀ g', total (<[i:=g']> gs) = gop g' rest.
Proof.
  intros Hi. destruct (list_split_item i gs) as (l1 & x & l2 & -> & ->);
    [by eapply lookup_lt_Some|].
  rewrite list_lookup_middle in Hi by done. injection Hi as ->.
  exists (gop (total l1) (total l2)). split; [|intros g'; rewrite insert_app_r_alt by lia;
    rewrite Nat.sub_diag; simpl]; rewrite total_app; simpl;
    rewrite !gop_assoc, (gop_comm (total l1)); done.
Qed.

Definition pool_ok (cts : C * list thread) : Prop :=
  ∃ gs, I (total gs) cts.1 ∧ Forall2 (λ g tp, okp tp.1 g tp.2 (λ _ _, True)) gs cts.2.

Abbreviation fine := (λ (_ : unit) (_ : G), True).

Lemma thread_step_ok {A} t g (p : proc W A) c p' w' forked Q rest :
  okp t g p Q → steps_to p (at_site t c) p' w' forked → I (gop g rest) c →
  ∃ g' gfs, I (gop (gop g' (total gfs)) rest) (set_site t w' c) ∧ okp t g' p' Q ∧
    Forall2 (λ g q, okp t g q fine) gfs forked.
Proof.
  intros Hok Hst Hi. destruct p as [A a|A B s k|A k|A q k]; simpl in *.
  - done.
  - destruct Hst as (b & Hs & -> & ->). specialize (Hok c rest Hi). rewrite Hs in Hok.
    destruct Hok as (g' & Hi' & Hk). exists g', []. simpl. rewrite (gop_comm g'), gop_unit. done.
  - destruct Hst as (b & -> & -> & ->). exists g, []. simpl.
    rewrite set_at, (gop_comm g), gop_unit. done.
  - destruct Hst as (-> & -> & ->). destruct Hok as (g1 & g2 & -> & Hq & Hk).
    exists g2, [g1]. simpl. rewrite set_at, (gop_comm g1 gunit), gop_unit, (gop_comm g2).
    split_and!; [done|done|by repeat constructor].
Qed.

Lemma thread_no_fault {A} t g (p : proc W A) c Q rest :
  okp t g p Q → I (gop g rest) c → ¬ faults p (at_site t c).
Proof.
  intros Hok Hi Hf. destruct p; simpl in *; try done. specialize (Hok c rest Hi). by rewrite Hf in Hok.
Qed.

Lemma pool_step_ok x y :
  (∀ g c c', I g c → env c c' → I g c') → pool_step x y → pool_ok x → pool_ok y.
Proof.
  intros Henv Hs (gs & Hi & Hf). destruct Hs as [c ts i t p p' w' forked Hp Hst|c c' ts He];
    simpl in *; [|exists gs; simpl; eauto].
  destruct (Forall2_lookup_r _ _ _ _ _ Hf Hp) as (g & Hg & Hok). simpl in Hok.
  destruct (total_split gs i g Hg) as (rest & Htot & Hupd). rewrite Htot in Hi.
  destruct (thread_step_ok _ _ _ _ _ _ _ _ _ Hok Hst Hi) as (g' & gfs & Hi' & Hp' & Hfs).
  exists (<[i:=g']> gs ++ gfs). simpl. split.
  - rewrite total_app, Hupd. by rewrite <-gop_assoc, (gop_comm rest), gop_assoc.
  - apply Forall2_app; [by apply Forall2_insert|]. by apply Forall2_fmap_r.
Qed.

Lemma pool_ok_no_fault x : pool_ok x → ¬ pool_faults x.
Proof.
  intros (gs & Hi & Hf) Hx. unfold pool_faults in Hx. apply Exists_exists in Hx as ([t p] & Hin & Hp).
  apply list_elem_of_lookup in Hin as (i & Hin). simpl in *.
  destruct (Forall2_lookup_r _ _ _ _ _ Hf Hin) as (g & Hg & Hok). simpl in Hok.
  destruct (total_split gs i g Hg) as (rest & Htot & _). rewrite Htot in Hi.
  by eapply thread_no_fault.
Qed.

(** Threads that are [okp] keep the invariant and never fault, however they are
    interleaved with each other and with the environment. *)
Lemma pool_sound x y :
  (∀ g c c', I g c → env c c' → I g c') → pool_ok x → rtc pool_step x y →
  (∃ g, I g y.1) ∧ ¬ pool_faults y.
Proof.
  intros Henv Hx Hr.
  assert (pool_ok y) as Hy.
  { revert Hx. apply (rtc_preserves pool_step pool_ok); [|done]. intros ? ?. by apply pool_step_ok. }
  split; [|by apply pool_ok_no_fault]. destruct Hy as (gs & Hi & _). eauto.
Qed.

End Pool.
