(* ===== verification/CorpcChannel.v ===== *)
(** The channel of [src/corpc/corpc-channel.c]: one connection that carries many
    streams.  [world] is the memory of one endpoint: the channel, the heap of
    its streams and the stream id counter.  Every function of the file is a
    thread ([Threads.proc]) whose critical sections are the stretches between
    [channel_state_lock] and [channel_state_unlock]; the messages of
    [CorpcProto] go through the interface [MsgLink]. *)

From S2P Require Import Prelude CcFifo CcArray CorpcProto Threads.

Open Scope Z_scope.

(** ** The interface to the protocol *)

(** What a channel needs of its connection: [ml_send] is the [corpc_proto_send_*]
    function of the message, [ml_recv] is [corpc_proto_recv_msg]: [None] while it
    waits for bytes, then the message, or failure; [ml_close] is
    [co_ssl_socket_close]. *)
Class MsgLink (S : Type) := {
  ml_send : comsg → S → bool * S;
  ml_recv : S → option (option comsg * S);
  ml_close : S → S;
}.

(** ** States *)

Inductive corpc_channel_state :=
| corpc_channel_state_idle | corpc_channel_state_resolving | corpc_channel_state_connecting
| corpc_channel_state_accepting | corpc_channel_state_established
| corpc_channel_state_disconnecting | corpc_channel_state_closed.

Inductive corpc_stream_state :=
| corpc_stream_created | corpc_stream_opening | corpc_stream_too_many_streams
| corpc_stream_no_such_service | corpc_stream_no_such_method
| corpc_stream_local_internal_error | corpc_stream_remote_internal_error
| corpc_stream_protocol_error | corpc_stream_established | corpc_stream_closed
| corpc_stream_closed_by_remote_party.

#[export] Instance corpc_channel_state_eq_dec : EqDecision corpc_channel_state.
Proof. solve_decision. Defined.
#[export] Instance corpc_stream_state_eq_dec : EqDecision corpc_stream_state.
Proof. solve_decision. Defined.

Definition corpc_channel_state_string (state : corpc_channel_state) : string :=
  match state with
  | corpc_channel_state_idle => "idle"
  | corpc_channel_state_resolving => "resolving"
  | corpc_channel_state_connecting => "connecting"
  | corpc_channel_state_accepting => "accepting"
  | corpc_channel_state_established => "established"
  | corpc_channel_state_disconnecting => "disconnecting"
  | corpc_channel_state_closed => "closed"
  end.

Definition corpc_stream_state_string (state : corpc_stream_state) : string :=
  match state with
  | corpc_stream_created => "created"
  | corpc_stream_opening => "opening"
  | corpc_stream_too_many_streams => "closed:too_many_streams"
  | corpc_stream_no_such_service => "closed:no_such_service"
  | corpc_stream_no_such_method => "closed:no_such_method"
  | corpc_stream_local_internal_error => "closed:local_internal_error"
  | corpc_stream_remote_internal_error => "closed:remote_internal_error"
  | corpc_stream_protocol_error => "closed:protocol_error"
  | corpc_stream_established => "established"
  | corpc_stream_closed => "closed"
  | corpc_stream_closed_by_remote_party => "closed:by_remote_party"
  end.

(** A service and its methods; [m_proc] is the address of the method's function. *)
Record corpc_service_method := mk_method { m_name : bytes; m_proc : nat }.
Record corpc_service := mk_service { s_name : bytes; s_methods : list corpc_service_method }.

Definition CORPC_STREAM_DEFAULT_QUEUE_SIZE : nat := 8.

(** [struct corpc_stream]; its [channel] field is the channel of the [world].
    The queue holds the messages its pointers point to. *)
Record corpc_stream := mk_stream {
  rxq : Fifo.ccfifo comsg;
  st_state : corpc_stream_state;
  st_sid : Z;
  st_did : Z;
  st_rwnd : Z;
}.

Definition set_rxq (q : Fifo.ccfifo comsg) (s : corpc_stream) : corpc_stream :=
  mk_stream q (st_state s) (st_sid s) (st_did s) (st_rwnd s).
Definition set_state (state : corpc_stream_state) (s : corpc_stream) : corpc_stream :=
  mk_stream (rxq s) state (st_sid s) (st_did s) (st_rwnd s).
Definition set_did (did : Z) (s : corpc_stream) : corpc_stream :=
  mk_stream (rxq s) (st_state s) (st_sid s) did (st_rwnd s).
Definition set_rwnd (rwnd : Z) (s : corpc_stream) : corpc_stream :=
  mk_stream (rxq s) (st_state s) (st_sid s) (st_did s) rwnd.

(** The address of a stream. *)
Abbreviation loc := nat.

Section Channel.
Context {S : Type} `{MsgLink S}.

(** [struct corpc_channel]: the fields the functions below read or write
    ([ssl_sock = None] is [NULL]). *)
Record corpc_channel := mk_channel {
  ssl_sock : option S;
  streams : CcArray.ccarray loc;
  services : option (list corpc_service);
  refs : Z;
  write_lock : bool;
  ch_state : corpc_channel_state;
}.

Definition set_sock (sock : option S) (c : corpc_channel) : corpc_channel :=
  mk_channel sock (streams c) (services c) (refs c) (write_lock c) (ch_state c).
Definition set_streams (a : CcArray.ccarray loc) (c : corpc_channel) : corpc_channel :=
  mk_channel (ssl_sock c) a (services c) (refs c) (write_lock c) (ch_state c).
Definition set_refs (n : Z) (c : corpc_channel) : corpc_channel :=
  mk_channel (ssl_sock c) (streams c) (services c) n (write_lock c) (ch_state c).
Definition set_write_lock (b : bool) (c : corpc_channel) : corpc_channel :=
  mk_channel (ssl_sock c) (streams c) (services c) (refs c) b (ch_state c).
Definition set_ch_state (st : corpc_channel_state) (c : corpc_channel) : corpc_channel :=
  mk_channel (ssl_sock c) (streams c) (services c) (refs c) (write_lock c) st.

(** The memory of an endpoint.  [w_chan = None]: the channel was freed.
    [w_next] is the next address [malloc] returns. *)
Record world := mk_world {
  w_chan : option corpc_channel;
  w_heap : gmap loc corpc_stream;
  w_next : loc;
  w_gsid : Z;
  w_errno : option errno;
}.

(** Sections and threads of an endpoint. *)
Abbreviation Sec := (sec world).
Abbreviation Proc := (proc world).

(** ** Memory accesses *)

(** A read of a freed channel or stream is undefined behaviour. *)
Definition channel : Sec corpc_channel := λ w,
  match w_chan w with Some c => Go c w | None => Fault end.
Definition upd_channel (f : corpc_channel → corpc_channel) : Sec unit := λ w,
  match w_chan w with
  | Some c => Go () (mk_world (Some (f c)) (w_heap w) (w_next w) (w_gsid w) (w_errno w))
  | None => Fault
  end.
Definition deref (l : loc) : Sec corpc_stream := λ w,
  match w_heap w !! l with Some s => Go s w | None => Fault end.
Definition upd_stream (l : loc) (f : corpc_stream → corpc_stream) : Sec unit := λ w,
  match w_heap w !! l with
  | Some s => Go () (mk_world (w_chan w) (<[l := f s]> (w_heap w)) (w_next w) (w_gsid w) (w_errno w))
  | None => Fault
  end.
Definition set_errno (e : errno) : Sec unit :=
  modify (λ w, mk_world (w_chan w) (w_heap w) (w_next w) (w_gsid w) (Some e)).

Definition link_send (msg : comsg) : Sec bool :=
  c ← channel;
  match ssl_sock c with
  | None => mret false
  | Some sock =>
    let '(ok, sock) := ml_send msg sock in
    _ ← upd_channel (set_sock (Some sock)); mret ok
  end.

(** [corpc_proto_recv_msg(channel->ssl_sock, msg)]: [None] when it fails. *)
Definition link_recv : Sec (option comsg) :=
  c ← channel;
  match ssl_sock c with
  | None => mret None
  | Some sock =>
    match ml_recv sock with
    | None => wait
    | Some (r, sock) => _ ← upd_channel (set_sock (Some sock)); mret r
    end
  end.

(** ** The write lock *)

Definition corpc_channel_established (c : corpc_channel) : bool :=
  bool_decide (ch_state c = corpc_channel_state_established).

(** The loop of [acquire_write_lock], under the lock of the state; [expired]
    tells that the deadline passes before the write lock can be had. *)
Definition acquire_section (st : option loc) (tmo : Z) (expired : bool) : Sec bool :=
  c ← channel;
  est ← match st with
        | None => mret true
        | Some l => s ← deref l; mret (bool_decide (st_state s = corpc_stream_established))
        end;
  if negb (corpc_channel_established c) || negb est then _ ← set_errno ENOTCONN; mret false
  else
    credit ← match st with None => mret true | Some l => s ← deref l; mret (0 <? st_rwnd s) end;
    if negb (write_lock c) && credit then _ ← upd_channel (set_write_lock true); mret true
    else if (0 <=? tmo) && expired then _ ← set_errno ETIME; mret false
    else wait.

Definition acquire_write_lock (st : option loc) (tmo : Z) : Proc bool :=
  if tmo <? 0 then crit (acquire_section st tmo false)
  else do expired ← choose; crit (acquire_section st tmo expired).

Definition release_write_lock (locked : bool) : Proc unit :=
  if locked then crit (upd_channel (set_write_lock false)) else Ret ().

(** ** Sending *)

Definition srwnd (st : option corpc_stream) : Z :=
  match st with
  | Some s => u16 (Z.of_nat (Fifo.ccfifo_capacity (rxq s)) - Z.of_nat (Fifo.ccfifo_size (rxq s)))
  | None => 0
  end.

(** [st->sid], [srwnd(st)] and the send itself, between taking and releasing the
    write lock. *)
Definition send_create_stream_request (l : loc) (service method : bytes) : Proc bool :=
  do locked ← acquire_write_lock None (-1);
  if (locked : bool) then
    do fok ← crit (s ← deref l;
                   link_send (mk_comsg (st_sid s) 0
                     (CreateStreamRequest (srwnd (Some s)) (u16 (zlen service)) (u16 (zlen method))
                        (service ++ method))));
    exec release_write_lock locked; Ret fok
  else Ret false.

Definition send_create_stream_responce (sid did rwnd status : Z) : Proc bool :=
  do locked ← acquire_write_lock None (-1);
  if (locked : bool) then
    do fok ← crit (link_send (mk_comsg sid did (CreateStreamResponce status rwnd)));
    exec release_write_lock locked; Ret fok
  else Ret false.

Definition send_close_stream_notify (l : loc) : Proc bool :=
  do locked ← acquire_write_lock None (-1);
  if (locked : bool) then
    do fok ← crit (s ← deref l; link_send (mk_comsg (st_sid s) (st_did s) (CloseStream 0)));
    exec release_write_lock locked; Ret fok
  else Ret false.

Definition send_data_ack (l : loc) : Proc bool :=
  do locked ← acquire_write_lock None (-1);
  if (locked : bool) then
    do fok ← crit (s ← deref l; link_send (mk_comsg (st_sid s) (st_did s) DataAck));
    exec release_write_lock locked; Ret fok
  else Ret false.

Definition send_data (l : loc) (data : bytes) : Proc bool :=
  do locked ← acquire_write_lock (Some l) (-1);
  if (locked : bool) then
    do fok ← crit (s ← deref l; link_send (mk_comsg (st_sid s) (st_did s) (Data data)));
    exec (if (fok : bool) then crit (upd_stream l (λ s, set_rwnd (u16 (st_rwnd s - 1)) s)) else Ret ());
    exec release_write_lock locked; Ret fok
  else Ret false.

(** ** Streams *)

(** The memory of a fresh queue: [malloc] leaves anything in it. *)
Definition rxq_memory : list comsg := replicate CORPC_STREAM_DEFAULT_QUEUE_SIZE (mk_comsg 0 0 DataAck).

(** [corpc_stream_new] with [corpc_stream_init]; [alloc] and [alloc_rxq] tell
    whether the two allocations succeed. *)
Definition corpc_stream_new (state : corpc_stream_state) (sid did rwnd : Z) (alloc alloc_rxq : bool) :
    Sec (option loc) := λ w,
  if negb alloc then Go None w
  else
    let '(ok, q) := Fifo.ccfifo_init (if alloc_rxq then Some rxq_memory else None)
                      CORPC_STREAM_DEFAULT_QUEUE_SIZE (Fifo.mk_ccfifo [] 0 0 0 0) in
    if (ok : bool) then
      Go (Some (w_next w))
         (mk_world (w_chan w) (<[w_next w := mk_stream q state sid did rwnd]> (w_heap w))
            (Datatypes.S (w_next w)) (w_gsid w) (w_errno w))
    else Go None w.

(** [corpc_stream_destroy]: cleanup and [free]. *)
Definition corpc_stream_destroy (l : loc) : Sec unit :=
  _ ← deref l;
  modify (λ w, mk_world (w_chan w) (delete l (w_heap w)) (w_next w) (w_gsid w) (w_errno w)).

Definition corpc_set_stream_state (l : loc) (state : corpc_stream_state) : Sec unit :=
  upd_stream l (set_state state).

(** [++gsid] on a [uint16_t] *)
Definition gensid : Sec Z := λ w,
  let sid := u16 (w_gsid w + 1) in
  Go sid (mk_world (w_chan w) (w_heap w) (w_next w) sid (w_errno w)).

Fixpoint find_loop (sid : Z) (a : CcArray.ccarray loc) (i n : nat) : Sec (option loc) :=
  match n with
  | O => mret None
  | Datatypes.S n' =>
    match CcArray.ccarray_peek a i with
    | None => fault
    | Some l =>
      s ← deref l;
      if st_sid s =? sid then mret (Some l) else find_loop sid a (Datatypes.S i) n'
    end
  end.

Definition find_stream_by_sid (sid : Z) : Sec (option loc) :=
  c ← channel;
  find_loop sid (streams c) 0 (CcArray.ccarray_size (Some (streams c))).

Definition streams_full (c : corpc_channel) : bool :=
  (CcArray.ccarray_capacity (Some (streams c)) <=? CcArray.ccarray_size (Some (streams c)))%nat.

Definition push_stream (l : loc) : Sec unit :=
  upd_channel (λ c, set_streams (CcArray.ccarray_push_back l (streams c)).2 c).
Definition erase_stream (l : loc) : Sec unit :=
  upd_channel (λ c, set_streams (CcArray.ccarray_erase_item l (streams c)).2 c).

(** The section of [accept_stream]: the stream, or the status to answer. *)
Definition accept_section (did rwnd : Z) (alloc alloc_rxq : bool) :
    Sec (loc + create_stream_responce_code) :=
  c ← channel;
  if streams_full c then mret (inr create_stream_responce_no_stream_resources)
  else
    sid ← gensid;
    r ← corpc_stream_new corpc_stream_opening sid did rwnd alloc alloc_rxq;
    match r with
    | None => mret (inr create_stream_responce_internal_error)
    | Some l => _ ← push_stream l; mret (inl l)
    end.

Definition accept_stream (did rwnd : Z) : Proc (loc + create_stream_responce_code) :=
  do alloc ← choose; do alloc_rxq ← choose;
  crit (accept_section did rwnd alloc alloc_rxq).

Definition create_section (alloc alloc_rxq : bool) : Sec (option loc) :=
  c ← channel;
  if streams_full c then _ ← set_errno ENOSR; mret None
  else
    sid ← gensid;
    r ← corpc_stream_new corpc_stream_opening sid 0 0 alloc alloc_rxq;
    match r with
    | None => mret None
    | Some l => _ ← push_stream l; mret (Some l)
    end.

Definition create_new_stream : Proc (option loc) :=
  do alloc ← choose; do alloc_rxq ← choose; crit (create_section alloc alloc_rxq).

(** ** References *)

(** [channel_destroy] *)
Definition channel_destroy : Sec unit :=
  _ ← channel;
  modify (λ w, mk_world None (w_heap w) (w_next w) (w_gsid w) (w_errno w)).

Definition no_streams (c : corpc_channel) : bool :=
  (CcArray.ccarray_size (Some (streams c)) <? 1)%nat.

Definition corpc_channel_addref_internal : Sec unit := upd_channel (λ c, set_refs (refs c + 1) c).

Definition corpc_channel_release_internal : Sec unit :=
  _ ← upd_channel (λ c, set_refs (refs c - 1) c);
  c ← channel;
  if (refs c <? 1) && no_streams c then channel_destroy else mret ().

Definition corpc_channel_close_internal : Sec unit :=
  _ ← upd_channel (λ c, set_sock (ml_close <$> ssl_sock c) c);
  _ ← upd_channel (set_ch_state corpc_channel_state_closed);
  corpc_channel_release_internal.

Definition corpc_channel_addref : Proc unit := crit corpc_channel_addref_internal.
Definition corpc_channel_release : Proc unit := crit corpc_channel_release_internal.
Definition corpc_channel_close : Proc unit := crit corpc_channel_close_internal.

Definition corpc_channel_relase : Proc unit :=
  do n ← crit (_ ← upd_channel (λ c, set_refs (refs c - 1) c); c ← channel; mret (refs c));
  if 0 <? n then Ret () else corpc_channel_close.

(** ** Reading, writing and closing a stream *)

(** The loop of [corpc_stream_read_internal] and the pop: the message, if any,
    and [is_connected]. *)
Definition read_section (l : loc) : Sec (option comsg * bool) :=
  s ← deref l; c ← channel;
  if Fifo.ccfifo_is_empty (rxq s) && corpc_channel_established c &&
     (bool_decide (st_state s = corpc_stream_established) ||
      bool_decide (st_state s = corpc_stream_opening))
  then wait
  else
    let '(out, q) := Fifo.ccfifo_ppop (rxq s) in
    _ ← upd_stream l (set_rxq q);
    mret (out, corpc_channel_established c && bool_decide (st_state s = corpc_stream_established)).

Definition corpc_stream_read_internal (l : loc) : Proc (option comsg) :=
  do r ← crit (read_section l);
  match r.1 with
  | None => Ret None
  | Some out =>
    match m_body out with
    | Data _ =>
      exec (if r.2 then do _ok ← send_data_ack l; Ret () else Ret ());
      Ret (Some out)
    | _ => Ret None
    end
  end.

Definition data_bits (msg : comsg) : bytes := match m_body msg with Data bits => bits | _ => [] end.

(** [None] is [-1]. *)
Definition corpc_stream_read (l : loc) : Proc (option bytes) :=
  do out ← corpc_stream_read_internal l;
  match out with
  | None => Ret None
  | Some msg => do alloc ← choose; Ret (if (alloc : bool) then Some (data_bits msg) else None)
  end.

Definition corpc_stream_read_msg {A} (l : loc) (unpack : bytes → option A) : Proc (option A) :=
  do out ← corpc_stream_read_internal l;
  match out with None => Ret None | Some msg => Ret (unpack (data_bits msg)) end.

Definition corpc_stream_write (l : loc) (data : bytes) : Proc bool := send_data l data.

Definition corpc_stream_write_msg {A} (l : loc) (pack : A → bytes) (appmsg : A) : Proc bool :=
  let data := pack appmsg in
  if 0 <? zlen data then send_data l data else Ret false.

(** [stp = None]: a null pointer, or a pointer to one. *)
Definition corpc_close_stream (stp : option loc) : Proc unit :=
  match stp with
  | None => Ret ()
  | Some l =>
    do _ok ← send_close_stream_notify l;
    exec crit (_ ← erase_stream l; c ← channel;
               if no_streams c && (refs c <? 1) then channel_destroy else mret ());
    crit (corpc_stream_destroy l)
  end.

(** [corpc_open_stream]: [None] is [NULL]. *)
Definition open_wait_section (l : loc) : Sec bool :=
  c ← channel; s ← deref l;
  if corpc_channel_established c && bool_decide (st_state s = corpc_stream_opening) then wait
  else mret (bool_decide (st_state s = corpc_stream_established)).

Definition corpc_open_stream (service method : bytes) : Proc (option loc) :=
  do est ← crit (c ← channel;
                 if corpc_channel_established c then mret true
                 else _ ← set_errno ENOTCONN; mret false);
  if negb est then Ret None else
  do st ← create_new_stream;
  match st with
  | None => Ret None
  | Some l =>
    do sent ← send_create_stream_request l service method;
    do fok ← (if (sent : bool) then crit (open_wait_section l) else Ret false);
    if (fok : bool) then Ret (Some l)
    else
      exec crit (erase_stream l);
      exec crit (corpc_stream_destroy l);
      Ret None
  end.

(** ** Messages from the peer *)

(** The service's methods and the callbacks of the application, by address. *)
Record application := mk_application {
  app_method : nat → loc → Proc unit;
  app_onconnect : option (Proc bool);
  app_onaccept : option (Proc bool);
  app_onaccepted : option (Proc unit);
  app_ondisconnected : option (Proc unit);
}.
Variable app : application.

Definition service_method_wrapper_thread (l : loc) (m : corpc_service_method) : Proc unit :=
  exec app_method app (m_proc m) l;
  corpc_close_stream (Some l).

(** Allocation of the thread's argument, then [co_schedule]. *)
Definition start_service_method_thread (l : loc) (m : corpc_service_method) : Proc bool :=
  do alloc ← choose;
  if negb alloc then Ret false else
  do scheduled ← choose;
  if (scheduled : bool) then Fork (service_method_wrapper_thread l m) (Ret true) else Ret false.

Definition start_on_accepted_thread (onaccepted : Proc unit) : Proc bool :=
  do scheduled ← choose;
  if (scheduled : bool) then Fork onaccepted (Ret true) else Ret false.

(** The first entry whose name is the string in [name]. *)
Fixpoint find_service (name : bytes) (ss : list corpc_service) : option corpc_service :=
  match ss with
  | [] => None
  | s :: ss' => if decide (name = s_name s) then Some s else find_service name ss'
  end.
Fixpoint find_method (name : bytes) (ms : list corpc_service_method) : option corpc_service_method :=
  match ms with
  | [] => None
  | m :: ms' => if decide (name = m_name m) then Some m else find_method name ms'
  end.

(** The name copied from [pack] at [pos], terminated, as [strcmp] sees it; the
    copy reads past the message when the length sent is too large. *)
Definition copy_name (pack : bytes) (pos len : Z) : option bytes :=
  if zlen pack <? pos + len then None
  else c_str (take (Z.to_nat len) (drop (Z.to_nat pos) pack) ++ [0]).

Definition lookup_section (service_name_length method_name_length : Z) (pack : bytes) :
    Sec (corpc_service_method + create_stream_responce_code) :=
  c ← channel;
  match services c with
  | None => mret (inr create_stream_responce_no_service)
  | Some ss =>
    match copy_name pack 0 service_name_length,
          copy_name pack service_name_length method_name_length with
    | Some service_name, Some method_name =>
      match find_service service_name ss with
      | None => mret (inr create_stream_responce_no_service)
      | Some service =>
        match find_method method_name (s_methods service) with
        | None => mret (inr create_stream_responce_no_method)
        | Some method => mret (inl method)
        end
      end
    | _, _ => fault
    end
  end.

(** The lines after [end:]. *)
Definition request_end (st : option loc) (sid did : Z) (status : create_stream_responce_code) :
    Proc bool :=
  do rwnd ← crit (match st with
                  | None => mret (srwnd None)
                  | Some l => s ← deref l; mret (srwnd (Some s))
                  end);
  do _ok ← send_create_stream_responce sid did rwnd (create_stream_responce_value status);
  exec (match st with
        | None => Ret ()
        | Some l =>
          crit (match status with
                | create_stream_responce_ok => corpc_set_stream_state l corpc_stream_established
                | _ => _ ← erase_stream l; corpc_stream_destroy l
                end)
        end);
  Ret true.

Definition on_create_stream_request (hdr_sid rwnd service_name_length method_name_length : Z)
    (pack : bytes) : Proc bool :=
  let did := hdr_sid in
  do found ← crit (lookup_section service_name_length method_name_length pack);
  match found with
  | inr status => request_end None 0 did status
  | inl method =>
    do r ← accept_stream did rwnd;
    match r with
    | inr status => request_end None 0 did status
    | inl l =>
      do started ← start_service_method_thread l method;
      if negb started then request_end (Some l) 0 did create_stream_responce_internal_error
      else
        do s ← crit (deref l);
        request_end (Some l) (st_sid s) did create_stream_responce_ok
    end
  end.

(** The state a response's status puts the stream in. *)
Definition responce_state (status : Z) : corpc_stream_state :=
  if status =? 0 then corpc_stream_established
  else if status =? 1 then corpc_stream_too_many_streams
  else if status =? 2 then corpc_stream_no_such_service
  else if status =? 3 then corpc_stream_no_such_method
  else if status =? 4 then corpc_stream_remote_internal_error
  else corpc_stream_protocol_error.

Definition on_create_stream_responce (hdr_sid hdr_did status rwnd : Z) : Sec bool :=
  st ← find_stream_by_sid hdr_did;
  match st with
  | None => _ ← set_errno EPROTO; mret false
  | Some l =>
    s ← deref l;
    if bool_decide (st_state s ≠ corpc_stream_opening) then mret true
    else
      let state := responce_state status in
      _ ← (if status =? 0 then upd_stream l (λ s, set_rwnd rwnd (set_did hdr_sid s)) else mret ());
      _ ← corpc_set_stream_state l state;
      if bool_decide (state = corpc_stream_protocol_error)
      then _ ← set_errno EPROTO; mret false
      else mret true
  end.

Definition on_close_stream_notify (hdr_did : Z) : Sec bool :=
  st ← find_stream_by_sid hdr_did;
  match st with
  | None => mret true
  | Some l => _ ← corpc_set_stream_state l corpc_stream_closed_by_remote_party; mret true
  end.

(** The result, and whether the queue took the message ([*msgp = NULL]). *)
Definition on_data_message (msg : comsg) : Sec (bool * bool) :=
  st ← find_stream_by_sid (m_did msg);
  match st with
  | None => fault (* [corpc_set_stream_state(NULL, ...)] *)
  | Some l =>
    s ← deref l;
    if Fifo.ccfifo_is_full (rxq s) then
      _ ← corpc_set_stream_state l corpc_stream_protocol_error;
      _ ← set_errno EPROTO; mret (false, false)
    else
      _ ← upd_stream l (λ s, set_rxq (Fifo.ccfifo_push msg (rxq s)).2 s);
      mret (true, true)
  end.

Definition on_data_ack (hdr_did : Z) : Sec bool :=
  st ← find_stream_by_sid hdr_did;
  match st with
  | None => mret true
  | Some l => _ ← upd_stream l (λ s, set_rwnd (u16 (st_rwnd s + 1)) s); mret true
  end.

(** The [switch] of the channel's thread. *)
Definition dispatch (msg : comsg) : Proc (bool * bool) :=
  match m_body msg with
  | CreateStreamRequest rwnd sl ml pack =>
    do fok ← on_create_stream_request (m_sid msg) rwnd sl ml pack; Ret (fok, false)
  | CreateStreamResponce status rwnd =>
    do fok ← crit (on_create_stream_responce (m_sid msg) (m_did msg) status rwnd); Ret (fok, false)
  | CloseStream _ => do fok ← crit (on_close_stream_notify (m_did msg)); Ret (fok, false)
  | Data _ => crit (on_data_message msg)
  | DataAck => do fok ← crit (on_data_ack (m_did msg)); Ret (fok, false)
  end.

(** ** The channel's thread *)

(** The receive loop, for [fuel] messages at most: it then stops and waits for
    ever, so that a run of the thread that receives [n] messages is a run of
    [channel_loop n].  [have_msg] is whether [malloc(msg)] succeeded: a receive
    into [NULL] fails. *)
Fixpoint channel_loop (fuel : nat) (have_msg : bool) : Proc unit :=
  match fuel with
  | O => crit wait
  | Datatypes.S fuel' =>
    if negb have_msg then Ret ()
    else
      do r ← crit link_recv;
      match r with
      | None => Ret ()
      | Some msg =>
        do res ← dispatch msg;
        if negb res.1 then Ret ()
        else if res.2 then do alloc ← choose; channel_loop fuel' alloc
        else channel_loop fuel' true
      end
  end.

(** The state found, and the state set, when the thread starts. *)
Definition thread_start_section : Sec corpc_channel_state :=
  _ ← corpc_channel_addref_internal;
  c ← channel;
  _ ← (if decide (ch_state c = corpc_channel_state_connecting)
       then upd_channel (set_ch_state corpc_channel_state_established) else mret ());
  mret (ch_state c).

Definition thread_accept : Proc bool :=
  do handshake ← choose;
  do fok ← (if (handshake : bool)
            then match app_onaccept app with None => Ret true | Some onaccept => onaccept end
            else Ret false);
  exec (if (fok : bool) then crit (upd_channel (set_ch_state corpc_channel_state_established))
        else Ret ());
  Ret fok.

Definition corpc_channel_thread (fuel : nat) : Proc unit :=
  do state ← crit thread_start_section;
  do fok ← (if decide (state = corpc_channel_state_accepting) then thread_accept else Ret true);
  exec (if negb fok then Ret ()
        else
          do have_msg ← choose;
          exec (match app_onaccepted app with
                | None => Ret ()
                | Some onaccepted => do _ok ← start_on_accepted_thread onaccepted; Ret ()
                end);
          channel_loop fuel have_msg);
  exec (match app_ondisconnected app with None => Ret () | Some ondisconnected => ondisconnected end);
  crit corpc_channel_close_internal.

(** ** Opening a channel *)

(** [corpc_channel_new] with [corpc_channel_init]: the channel replaces the
    channel of the world.  [alloc], [alloc_streams], [dup] tell whether
    [calloc], the allocation of the array and [strdup] succeed. *)
Definition corpc_channel_new (ss : option (list corpc_service)) (alloc alloc_streams dup : bool) :
    Sec bool := λ w,
  if alloc && alloc_streams && dup then
    let '(_, a) := CcArray.ccarray_init (Some (replicate 256 0%nat)) 256 (CcArray.mk_ccarray [] 0 0) in
    Go true (mk_world (Some (mk_channel None a ss 1 false corpc_channel_state_idle))
               (w_heap w) (w_next w) (w_gsid w) (w_errno w))
  else Go false w.

(** [sock] is what [co_ssl_socket_create_new] returns; resolving, connecting and
    [co_schedule] may fail. *)
Definition ssl_server_connect (sock : S) (fuel : nat) : Proc bool :=
  exec crit (upd_channel (set_ch_state corpc_channel_state_resolving));
  do resolved ← choose;
  do created ← (if (resolved : bool) then choose else Ret false);
  do fok ←
    (if negb created then Ret false
     else
       exec crit (upd_channel (λ c, set_ch_state corpc_channel_state_connecting (set_sock (Some sock) c)));
       do connected ← choose;
       do accepted ← (if negb connected then Ret false
                      else match app_onconnect app with None => Ret true | Some f => f end);
       if negb accepted then Ret false
       else
         do scheduled ← choose;
         if negb scheduled then Ret false
         else Fork (corpc_channel_thread fuel)
                (crit (c ← channel;
                       if bool_decide (ch_state c = corpc_channel_state_connecting) then wait
                       else mret (corpc_channel_established c))));
  exec (if (fok : bool) then Ret ()
        else crit (upd_channel (λ c, set_ch_state corpc_channel_state_idle (set_sock None c))));
  crit (c ← channel; mret (bool_decide (is_Some (ssl_sock c)))).

Definition corpc_channel_open (sock : S) (ss : option (list corpc_service)) (fuel : nat) : Proc bool :=
  do alloc ← choose; do alloc_streams ← choose; do dup ← choose;
  do made ← crit (corpc_channel_new ss alloc alloc_streams dup);
  if negb made then Ret false
  else
    do fok ← ssl_server_connect sock fuel;
    if (fok : bool) then Ret true else exec crit channel_destroy; Ret false.

Definition corpc_channel_accept (sock : S) (ss : option (list corpc_service)) (fuel : nat) : Proc bool :=
  do alloc ← choose; do alloc_streams ← choose;
  do made ← crit (corpc_channel_new None alloc alloc_streams true);
  if negb made then Ret false
  else
    exec crit (upd_channel (λ c, mk_channel (Some sock) (streams c) ss 0 (write_lock c)
                                   corpc_channel_state_accepting));
    do scheduled ← choose;
    if (scheduled : bool) then Fork (corpc_channel_thread fuel) (Ret true)
    else exec crit channel_destroy; Ret false.

End Channel.
Arguments corpc_channel S : clear implicits.
Arguments world S : clear implicits.
Arguments application S : clear implicits.

(** ** A link of messages in order *)

(** Messages in order: all that were ever sent, and those that arrived and were
    not received yet. *)
Record qlink := mk_qlink { q_out : list comsg; q_in : list comsg }.

#[export] Instance qlink_link : MsgLink qlink := {
  ml_send msg q := (true, mk_qlink (q_out q ++ [msg]) (q_in q));
  ml_recv q := match q_in q with
               | [] => None
               | msg :: r => Some (Some msg, mk_qlink (q_out q) r)
               end;
  ml_close q := q;
}.

Abbreviation endpoint := (world qlink).
