(* ===== verification/CorpcFlow.v ===== *)
(** Flow control between the two ends of a stream.  Two endpoints
    ([CorpcChannel.world]) are joined by links that carry messages in order;
    any number of threads write to and read from the stream at both ends while
    the channels' threads dispatch what arrives.  [dir] states the credit
    discipline: the window of the sender, the messages on their way, those
    queued at the receiver and the acknowledgements on their way back add up to
    the capacity of the receive queue.  Every critical section keeps it, hence
    every interleaving does ([stream_flow_control]). *)

From S2P Require Import Prelude CcFifo CcArray CorpcProto Threads CorpcChannel.

Open Scope Z_scope.

(** ** What an endpoint holds of the stream *)

(** The local address, local id and remote id of the stream. *)
Record ends := mk_ends { e_loc : loc; e_sid : Z; e_did : Z }.

Record view := mk_view {
  v_out : list comsg;
  v_in : list comsg;
  v_rwnd : Z;
  v_rxq : list comsg;
  v_lock : bool;
}.

(** The endpoint has one established stream on an established channel. *)
Record repr_at (e : ends) (c : corpc_channel qlink) (s : corpc_stream) (w : endpoint) (v : view) :
    Prop := {
  ra_chan : w_chan w = Some c;
  ra_stream : w_heap w !! e_loc e = Some s;
  ra_sock : ssl_sock c = Some (mk_qlink (v_out v) (v_in v));
  ra_streams : ∃ k, streams c = CcArray.arr [e_loc e] k;
  ra_lock : write_lock c = v_lock v;
  ra_state : ch_state c = corpc_channel_state_established;
  ra_st_state : st_state s = corpc_stream_established;
  ra_sid : st_sid s = e_sid e;
  ra_did : st_did s = e_did e;
  ra_rwnd : st_rwnd s = v_rwnd v;
  ra_wf : Fifo.wf (rxq s);
  ra_cap : Fifo.q_capacity (rxq s) = CORPC_STREAM_DEFAULT_QUEUE_SIZE;
  ra_rxq : Fifo.contents (rxq s) = v_rxq v;
}.

Definition repr (e : ends) (w : endpoint) (v : view) : Prop := ∃ c s, repr_at e c s w v.

(** ** The sections, on views *)

Section Sections.
Variable e : ends.
Implicit Types (w : endpoint) (v : view).

(** The outcome of a section on an endpoint seen as [v]: a wait, or a value and
    an endpoint seen as [v']. *)
Definition goes {A} (o : outcome endpoint A) (a : A) (v' : view) : Prop :=
  ∃ w', o = Go a w' ∧ repr e w' v'.

Lemma repr_channel w v c s f :
  repr_at e c s w v → w_chan w = Some c →
  upd_channel f w = Go () (mk_world (Some (f c)) (w_heap w) (w_next w) (w_gsid w) (w_errno w)).
Proof. intros _ Hc. unfold upd_channel. by rewrite Hc. Qed.

Lemma upd_channel_repr w v c s f v' :
  repr_at e c s w v →
  ssl_sock (f c) = Some (mk_qlink (v_out v') (v_in v')) → streams (f c) = streams c →
  write_lock (f c) = v_lock v' → ch_state (f c) = ch_state c →
  v_rwnd v' = v_rwnd v → v_rxq v' = v_rxq v →
  goes (upd_channel f w) () v'.
Proof.
  intros [] Hso Hst Hl Hs Hr Hq. unfold upd_channel. rewrite ra_chan0. eexists; split; [done|].
  exists (f c), s. split; simpl; rewrite ?Hst, ?Hs, ?Hr, ?Hq; done.
Qed.

Lemma upd_stream_repr w v c s f v' :
  repr_at e c s w v →
  st_state (f s) = st_state s → st_sid (f s) = st_sid s → st_did (f s) = st_did s →
  st_rwnd (f s) = v_rwnd v' → Fifo.wf (rxq (f s)) →
  Fifo.q_capacity (rxq (f s)) = CORPC_STREAM_DEFAULT_QUEUE_SIZE →
  Fifo.contents (rxq (f s)) = v_rxq v' →
  v_out v' = v_out v → v_in v' = v_in v → v_lock v' = v_lock v →
  goes (upd_stream (e_loc e) f w) () v'.
Proof.
  intros [] Hs Hsid Hdid Hr Hwf Hcap Hq Ho Hi Hl. unfold upd_stream. rewrite ra_stream0.
  eexists; split; [done|]. exists c, (f s). split; simpl; rewrite ?Ho, ?Hi, ?Hl, ?Hs, ?Hsid, ?Hdid;
    try done. by rewrite lookup_insert_eq.
Qed.

(** [channel] and [deref] read the endpoint. *)
Lemma channel_repr w v c s : repr_at e c s w v → channel w = Go c w.
Proof. intros []. unfold channel. by rewrite ra_chan0. Qed.

Lemma deref_repr w v c s : repr_at e c s w v → deref (e_loc e) w = Go s w.
Proof. intros []. unfold deref. by rewrite ra_stream0. Qed.

Lemma established_repr w v c s : repr_at e c s w v → corpc_channel_established c = true.
Proof. intros []. unfold corpc_channel_established. by rewrite ra_state0. Qed.

Ltac section H :=
  unfold mbind, mret, sec_bind, sec_ret;
  repeat first [rewrite (channel_repr _ _ _ _ H) | rewrite (deref_repr _ _ _ _ H)].

Lemma acquire_none_goes w v :
  repr e w v →
  if v_lock v then acquire_section None (-1) false w = Wait
  else goes (acquire_section None (-1) false w) true
         (mk_view (v_out v) (v_in v) (v_rwnd v) (v_rxq v) true).
Proof.
  intros (c & s & Hr). unfold acquire_section. section Hr.
  rewrite (established_repr _ _ _ _ Hr), (ra_lock _ _ _ _ _ Hr). simpl.
  destruct (v_lock v) eqn:Hl; simpl; [done|].
  destruct (upd_channel_repr w v c s (set_write_lock true)
    (mk_view (v_out v) (v_in v) (v_rwnd v) (v_rxq v) true) Hr) as (w' & -> & Hw');
    try done; [by destruct Hr|].
  by exists w'.
Qed.

Lemma acquire_stream_goes w v :
  repr e w v →
  if v_lock v || (v_rwnd v <=? 0) then acquire_section (Some (e_loc e)) (-1) false w = Wait
  else goes (acquire_section (Some (e_loc e)) (-1) false w) true
         (mk_view (v_out v) (v_in v) (v_rwnd v) (v_rxq v) true).
Proof.
  intros (c & s & Hr). unfold acquire_section. section Hr.
  rewrite (established_repr _ _ _ _ Hr), (ra_lock _ _ _ _ _ Hr), (ra_st_state _ _ _ _ _ Hr).
  rewrite bool_decide_true by done. cbn. section Hr. rewrite (ra_rwnd _ _ _ _ _ Hr). simpl.
  destruct (v_lock v) eqn:Hl; simpl; [done|].
  destruct (Z.leb_spec (v_rwnd v) 0); bool_cases; simpl; [done|].
  destruct (upd_channel_repr w v c s (set_write_lock true)
    (mk_view (v_out v) (v_in v) (v_rwnd v) (v_rxq v) true) Hr) as (w' & -> & Hw');
    try done; [by destruct Hr|].
  by exists w'.
Qed.

Lemma release_goes w v :
  repr e w v → goes (upd_channel (set_write_lock false) w) ()
                 (mk_view (v_out v) (v_in v) (v_rwnd v) (v_rxq v) false).
Proof. intros (c & s & Hr). eapply upd_channel_repr; [done|..]; try done. by destruct Hr. Qed.

Lemma send_goes body w v :
  repr e w v →
  goes ((s ← deref (e_loc e); link_send (mk_comsg (st_sid s) (st_did s) body)) w) true
    (mk_view (v_out v ++ [mk_comsg (e_sid e) (e_did e) body]) (v_in v) (v_rwnd v) (v_rxq v) (v_lock v)).
Proof.
  intros (c & s & Hr). unfold link_send. section Hr. rewrite (ra_sock _ _ _ _ _ Hr). simpl.
  rewrite (ra_sid _ _ _ _ _ Hr), (ra_did _ _ _ _ _ Hr).
  edestruct (upd_channel_repr w v c s) as (w' & -> & Hw'); [exact Hr|..|by exists w']; try done.
  by destruct Hr.
Qed.

Lemma rwnd_goes f w v :
  repr e w v →
  goes (upd_stream (e_loc e) (λ s, set_rwnd (f (st_rwnd s)) s) w) ()
    (mk_view (v_out v) (v_in v) (f (v_rwnd v)) (v_rxq v) (v_lock v)).
Proof.
  intros (c & s & Hr). eapply upd_stream_repr; [exact Hr|..]; try done; destruct Hr; try done.
  simpl. by rewrite ra_rwnd0.
Qed.

Lemma link_recv_goes w v :
  repr e w v →
  match v_in v with
  | [] => link_recv w = Wait
  | msg :: r => goes (link_recv w) (Some msg) (mk_view (v_out v) r (v_rwnd v) (v_rxq v) (v_lock v))
  end.
Proof.
  intros (c & s & Hr). unfold link_recv. section Hr. rewrite (ra_sock _ _ _ _ _ Hr). simpl.
  destruct (v_in v) as [|msg r] eqn:Hi; simpl; [done|].
  edestruct (upd_channel_repr w v c s) as (w' & -> & Hw'); [exact Hr|..|by exists w']; try done.
  by destruct Hr.
Qed.

Lemma read_goes w v :
  repr e w v →
  match v_rxq v with
  | [] => read_section (e_loc e) w = Wait
  | msg :: r => goes (read_section (e_loc e) w) (Some msg, true)
                  (mk_view (v_out v) (v_in v) (v_rwnd v) r (v_lock v))
  end.
Proof.
  intros (c & s & Hr). unfold read_section. section Hr.
  rewrite (established_repr _ _ _ _ Hr), (ra_st_state _ _ _ _ _ Hr).
  pose proof (Fifo.ccfifo_is_empty_spec (rxq s) (ra_wf _ _ _ _ _ Hr)) as He.
  rewrite (ra_rxq _ _ _ _ _ Hr) in He.
  destruct (v_rxq v) as [|msg r] eqn:Hq.
  - rewrite (proj2 He eq_refl). done.
  - destruct (Fifo.ccfifo_is_empty (rxq s)) ; [discriminate (proj1 He eq_refl)|]. simpl.
    destruct (Fifo.ccfifo_pop_item msg r (rxq s) (ra_wf _ _ _ _ _ Hr)) as (q & Hp & Hwf & Hcap & Hc).
    { by rewrite (ra_rxq _ _ _ _ _ Hr). }
    unfold Fifo.ccfifo_ppop. rewrite Hp.
    edestruct (upd_stream_repr w v c s (set_rxq q)) as (w' & -> & Hw'); [exact Hr|..|by exists w'];
      try done; destruct Hr; simpl; by rewrite ?Hcap, ?Hc.
Qed.

Lemma find_stream_goes w v c s :
  repr_at e c s w v → find_stream_by_sid (e_sid e) w = Go (Some (e_loc e)) w.
Proof.
  intros Hr. unfold find_stream_by_sid. section Hr.
  destruct (ra_streams _ _ _ _ _ Hr) as [k ->]. cbn. section Hr.
  by rewrite (ra_sid _ _ _ _ _ Hr), Z.eqb_refl.
Qed.

Lemma on_data_goes bits sid w v :
  repr e w v → (length (v_rxq v) < CORPC_STREAM_DEFAULT_QUEUE_SIZE)%nat →
  goes (on_data_message (mk_comsg sid (e_sid e) (Data bits)) w) (true, true)
    (mk_view (v_out v) (v_in v) (v_rwnd v) (v_rxq v ++ [mk_comsg sid (e_sid e) (Data bits)]) (v_lock v)).
Proof.
  intros (c & s & Hr) Hlen. unfold on_data_message. section Hr. cbn [m_did].
  rewrite (find_stream_goes w v c s Hr). section Hr.
  pose proof (Fifo.ccfifo_is_full_spec (rxq s) (ra_wf _ _ _ _ _ Hr)) as Hf.
  rewrite (ra_rxq _ _ _ _ _ Hr), (ra_cap _ _ _ _ _ Hr) in Hf.
  destruct (Fifo.ccfifo_is_full (rxq s)) ; [pose proof (proj1 Hf eq_refl); lia|].
  set (msg := mk_comsg sid (e_sid e) (Data bits)).
  destruct (Fifo.ccfifo_push_room msg (rxq s) (ra_wf _ _ _ _ _ Hr)) as (q & Hp & Hwf & Hcap & Hc).
  { rewrite <-(Fifo.contents_length (rxq s)), (ra_rxq _ _ _ _ _ Hr), (ra_cap _ _ _ _ _ Hr);
      [done|by destruct Hr]. }
  edestruct (upd_stream_repr w v c s (λ s, set_rxq (Fifo.ccfifo_push msg (rxq s)).2 s))
    as (w' & -> & Hw'); [exact Hr|..|by exists w']; try done; simpl; rewrite ?Hp; simpl; try by destruct Hr.
  - rewrite Hcap. by destruct Hr.
  - rewrite Hc. f_equal. by destruct Hr.
Qed.

Lemma on_data_ack_goes w v :
  repr e w v →
  goes (on_data_ack (e_sid e) w) true
    (mk_view (v_out v) (v_in v) (u16 (v_rwnd v + 1)) (v_rxq v) (v_lock v)).
Proof.
  intros (c & s & Hr). unfold on_data_ack. section Hr. rewrite (find_stream_goes w v c s Hr).
  destruct (rwnd_goes (λ r, u16 (r + 1)) w v) as (w' & -> & Hw'); [by exists c, s|]. by exists w'.
Qed.

End Sections.

(** ** What the threads of an endpoint hold *)

(** The thread of the channel holds the right to receive, and the message it is
    dispatching. *)
Inductive rxhold := NoRx | Rx (msg : option comsg) | RxBad.

Definition rx_op (a b : rxhold) : rxhold :=
  match a, b with NoRx, x => x | x, NoRx => x | _, _ => RxBad end.

(** A writer's place between taking and releasing the write lock: it saw a unit
    of window ([Reserved]), then sent a message whose [--rwnd] is to come
    ([Unsent]). *)
Inductive phase := Plain | Reserved | Unsent.
Inductive lkhold := NoLk | Lk (ph : phase) | LkBad.

Definition lk_op (a b : lkhold) : lkhold :=
  match a, b with NoLk, x => x | x, NoLk => x | _, _ => LkBad end.

(** [g_unacked]: messages popped whose acknowledgement is to come. *)
Record hold := mk_hold { g_rx : rxhold; g_lk : lkhold; g_unacked : nat }.

Definition g_res (h : hold) : nat := match g_lk h with Lk Reserved => 1 | _ => 0 end.
Definition g_unsent (h : hold) : nat := match g_lk h with Lk Unsent => 1 | _ => 0 end.

Definition hold_op (a b : hold) : hold :=
  mk_hold (rx_op (g_rx a) (g_rx b)) (lk_op (g_lk a) (g_lk b)) (g_unacked a + g_unacked b).
Definition hold0 : hold := mk_hold NoRx NoLk 0.

Lemma hold_op_assoc a b c : hold_op a (hold_op b c) = hold_op (hold_op a b) c.
Proof.
  destruct a as [ra la ?], b as [rb lb ?], c as [rc lc ?]. unfold hold_op; simpl.
  f_equal; [by destruct ra, rb, rc|by destruct la, lb, lc|lia].
Qed.

Lemma hold_op_comm a b : hold_op a b = hold_op b a.
Proof.
  destruct a as [ra la ?], b as [rb lb ?]. unfold hold_op; simpl.
  f_equal; [by destruct ra, rb|by destruct la, lb|lia].
Qed.

Lemma hold_op_unit a : hold_op hold0 a = a.
Proof. destruct a as [[] [] ?]; done. Qed.

Definition hand (h : hold) : list comsg := match g_rx h with Rx (Some m) => [m] | _ => [] end.

(** ** The credit discipline *)

Definition is_data (m : comsg) : bool := match m_body m with Data _ => true | _ => false end.
Definition is_ack (m : comsg) : bool := match m_body m with DataAck => true | _ => false end.
Definition datas (l : list comsg) : list comsg := List.filter is_data l.
Definition acks (l : list comsg) : list comsg := List.filter is_ack l.

Lemma datas_app l k : datas (l ++ k) = datas l ++ datas k.
Proof. apply List.filter_app. Qed.
Lemma acks_app l k : acks (l ++ k) = acks l ++ acks k.
Proof. apply List.filter_app. Qed.

(** The messages of the stream from its end [a]. *)
Definition msg_ok (a : ends) (m : comsg) : Prop :=
  m_sid m = e_sid a ∧ m_did m = e_did a ∧ (is_data m = true ∨ is_ack m = true).

(** What was sent and not dispatched yet: in the hands of the receiving thread,
    arrived, or on the network (the first [n] messages arrived). *)
Definition inflight (hp : hold) (vp v : view) (n : nat) : list comsg :=
  hand hp ++ v_in vp ++ drop n (v_out v).

(** One direction of the stream, from the end [a] with window and holdings [v],
    [h] to the end with [vp], [hp]. *)
Record dir (a : ends) (h hp : hold) (v vp : view) (n n' : nat) (q : list comsg) : Prop := {
  d_sent : (n ≤ length (v_out v))%nat;
  d_msgs : Forall (msg_ok a) (inflight hp vp v n);
  d_credit :
    v_rwnd v - Z.of_nat (g_unsent h) + zlen (datas (inflight hp vp v n)) + zlen (v_rxq vp) +
    Z.of_nat (g_unacked hp) + zlen (acks (inflight h v vp n')) =
    Z.of_nat CORPC_STREAM_DEFAULT_QUEUE_SIZE;
  d_reserved : Z.of_nat (g_res h) + Z.of_nat (g_unsent h) <= v_rwnd v;
  d_rxq : Forall (λ m, is_data m = true) (v_rxq vp);
  d_order : datas (v_out v) = q ++ v_rxq vp ++ datas (inflight hp vp v n);
}.

(** At most one thread of an endpoint holds the write lock, and one receives. *)
Record local (h : hold) (v : view) : Prop := {
  l_lock : match g_lk h with NoLk => v_lock v = false | Lk _ => v_lock v = true | LkBad => False end;
  l_rx : g_rx h ≠ RxBad;
}.

Record flow (a b : ends) (h hp : hold) (v vp : view) (n n' : nat)
    (q q' : list comsg) : Prop := {
  f_local : local h v;
  f_local' : local hp vp;
  f_dir : dir a h hp v vp n n' q;
  f_dir' : dir b hp h vp v n' n q';
}.

Lemma flow_sym a b h hp v vp n n' q q' : flow a b h hp v vp n n' q q' → flow b a hp h vp v n' n q' q.
Proof. by intros []. Qed.

(** The receive queue of the peer has room for whatever is in flight. *)
Lemma dir_room a h hp v vp n n' q :
  dir a h hp v vp n n' q →
  zlen (datas (inflight hp vp v n)) + zlen (v_rxq vp) <= Z.of_nat CORPC_STREAM_DEFAULT_QUEUE_SIZE ∧
  0 <= v_rwnd v <= Z.of_nat CORPC_STREAM_DEFAULT_QUEUE_SIZE + Z.of_nat (g_unsent h).
Proof. intros []. lia. Qed.

(** ** The steps keep the discipline *)

Section Steps.
Variables a b : ends.
Implicit Types (ho hp : hold) (v vp : view).

(** What the threads hold. *)
Definition locked : hold := mk_hold NoRx (Lk Plain) 0.
Definition reserved : hold := mk_hold NoRx (Lk Reserved) 0.
Definition unsent : hold := mk_hold NoRx (Lk Unsent) 0.
Definition unacked : hold := mk_hold NoRx NoLk 1.
Definition unacked_locked : hold := mk_hold NoRx (Lk Plain) 1.
Definition receiving (m : option comsg) : hold := mk_hold (Rx m) NoLk 0.

(** The parts of a flow after a step, most of them as before. *)
Ltac start F :=
  destruct F as [[L1 L3] L' D D']; pose proof D as [? ? ? ? ? ?]; pose proof D' as [? ? ? ? ? ?];
  unfold inflight, hand, g_res, g_unsent, CORPC_STREAM_DEFAULT_QUEUE_SIZE in *; simpl in *.
Ltac parts :=
  split; [split; simpl | done | split; unfold inflight, hand, g_res, g_unsent, CORPC_STREAM_DEFAULT_QUEUE_SIZE; simpl
                              | split; unfold inflight, hand, g_res, g_unsent, CORPC_STREAM_DEFAULT_QUEUE_SIZE; simpl].
(** The write lock of the others, when it is free or ours. *)
Ltac no_other ho := destruct ho as [rxo [|?|] uo]; simpl in *; try done.

(** The others do not receive when we do. *)
Ltac no_receiver ho := destruct ho as [[|?|] lo uo]; simpl in *; try done.

Lemma flow_acquire ho hp v vp n n' q q' own :
  flow a b (hold_op own ho) hp v vp n n' q q' → g_lk own = NoLk → v_lock v = false →
  flow a b (hold_op (mk_hold (g_rx own) (Lk Plain) (g_unacked own)) ho)
    hp (mk_view (v_out v) (v_in v) (v_rwnd v) (v_rxq v) true) vp n n' q q'.
Proof.
  intros F Ho Hl. destruct own as [rx l k]. simpl in Ho. subst l. start F. rewrite Hl in *.
  no_other ho; parts; done.
Qed.

Lemma flow_reserve ho hp v vp n n' q q' :
  flow a b (hold_op hold0 ho) hp v vp n n' q q' → v_lock v = false → 0 < v_rwnd v →
  flow a b (hold_op reserved ho)
    hp (mk_view (v_out v) (v_in v) (v_rwnd v) (v_rxq v) true) vp n n' q q'.
Proof.
  intros F Hl Hr. start F. rewrite Hl in *. no_other ho; parts; try done; lia.
Qed.

Lemma flow_release ho hp v vp n n' q q' own :
  flow a b (hold_op own ho) hp v vp n n' q q' → g_lk own = Lk Plain →
  flow a b (hold_op (mk_hold (g_rx own) NoLk (g_unacked own)) ho) hp
    (mk_view (v_out v) (v_in v) (v_rwnd v) (v_rxq v) false) vp n n' q q'.
Proof.
  intros F Ho. destruct own as [rx l k]. simpl in Ho. subst l. start F. no_other ho; parts; done.
Qed.

Lemma inflight_send n (l : list comsg) k m j :
  (n ≤ length l)%nat → j ++ k ++ drop n (l ++ [m]) = (j ++ k ++ drop n l) ++ [m].
Proof. intros. rewrite drop_app_le by done. by rewrite !(assoc_L (++)). Qed.

Lemma flow_send_data ho hp v vp n n' q q' bits :
  flow a b (hold_op reserved ho) hp v vp n n' q q' →
  flow a b (hold_op unsent ho) hp
    (mk_view (v_out v ++ [mk_comsg (e_sid a) (e_did a) (Data bits)]) (v_in v) (v_rwnd v) (v_rxq v)
       (v_lock v)) vp n n' q q'.
Proof.
  intros F. set (m := mk_comsg _ _ _). start F. no_other ho. parts; try done; try lia.
  - rewrite length_app. lia.
  - rewrite inflight_send by done. apply Forall_app. split; [done|].
    apply Forall_singleton. split_and!; [done|done|by left].
  - rewrite inflight_send, datas_app, length_app by done. simpl. lia.
  - rewrite inflight_send by done. rewrite !datas_app in *. by rewrite d_order0, <-!(assoc_L (++)).
  - rewrite inflight_send, acks_app, length_app by done. simpl. lia.
Qed.

Lemma flow_dec ho hp v vp n n' q q' :
  flow a b (hold_op unsent ho) hp v vp n n' q q' →
  flow a b (hold_op locked ho) hp
    (mk_view (v_out v) (v_in v) (u16 (v_rwnd v - 1)) (v_rxq v) (v_lock v)) vp n n' q q'.
Proof.
  intros F. pose proof (dir_room _ _ _ _ _ _ _ _ (f_dir _ _ _ _ _ _ _ _ _ _ F)) as [_ Hr].
  start F. no_other ho.
  rewrite uwrap_id by (unfold is_uint; lia).
  parts; try done; lia.
Qed.

Lemma flow_send_ack ho hp v vp n n' q q' :
  flow a b (hold_op unacked_locked ho) hp v vp n n' q q' →
  flow a b (hold_op locked ho) hp
    (mk_view (v_out v ++ [mk_comsg (e_sid a) (e_did a) DataAck]) (v_in v) (v_rwnd v) (v_rxq v)
       (v_lock v)) vp n n' q q'.
Proof.
  intros F. set (m := mk_comsg _ _ _). start F. no_other ho. parts; try done; try lia.
  - rewrite length_app. lia.
  - rewrite inflight_send by done. apply Forall_app. split; [done|].
    apply Forall_singleton. split_and!; [done|done|by right].
  - rewrite inflight_send, datas_app, app_nil_r by done. lia.
  - rewrite inflight_send by done. rewrite !datas_app in *. by rewrite d_order0, !app_nil_r.
  - rewrite inflight_send, acks_app, length_app by done. simpl. lia.
Qed.

Lemma flow_read ho hp v vp n n' q q' m r :
  flow a b (hold_op hold0 ho) hp v vp n n' q q' → v_rxq v = m :: r →
  flow a b (hold_op unacked ho) hp
    (mk_view (v_out v) (v_in v) (v_rwnd v) r (v_lock v)) vp n n' q (q' ++ [m]) ∧ is_data m = true.
Proof.
  intros F Hq. start F. rewrite Hq in *. simpl in *.
  apply Forall_cons in d_rxq1 as [Hm Hf]. split; [|done]. parts; try done; try lia.
  by rewrite d_order1, <-(assoc_L (++)).
Qed.

Lemma flow_recv ho hp v vp n n' q q' m r :
  flow a b (hold_op (receiving None) ho) hp v vp n n' q q' → v_in v = m :: r →
  flow a b (hold_op (receiving (Some m)) ho) hp
    (mk_view (v_out v) r (v_rwnd v) (v_rxq v) (v_lock v)) vp n n' q q'.
Proof. intros F Hi. start F. no_receiver ho. rewrite Hi in *. parts; done. Qed.

Lemma flow_holding ho hp v vp n n' q q' m :
  flow a b (hold_op (receiving (Some m)) ho) hp v vp n n' q q' → msg_ok b m.
Proof.
  intros F. start F. no_receiver ho. by apply Forall_cons in d_msgs1 as [? _].
Qed.

Lemma flow_dispatch_data ho hp v vp n n' q q' m :
  flow a b (hold_op (receiving (Some m)) ho) hp v vp n n' q q' → is_data m = true →
  (length (v_rxq v) < CORPC_STREAM_DEFAULT_QUEUE_SIZE)%nat ∧
  flow a b (hold_op (receiving None) ho) hp
    (mk_view (v_out v) (v_in v) (v_rwnd v) (v_rxq v ++ [m]) (v_lock v)) vp n n' q q'.
Proof.
  intros F Hm. pose proof (flow_holding _ _ _ _ _ _ _ _ _ F) as Hok.
  assert (is_ack m = false) as Ha by (unfold is_data, is_ack in *; by destruct (m_body m)).
  start F. no_receiver ho. rewrite Ha, Hm in *. simpl in *.
  apply Forall_cons in d_msgs1 as [_ d_msgs1].
  split; [lia|]. parts; try done; rewrite ?length_app; simpl; try lia.
  - apply Forall_app. split; [done|by apply Forall_singleton].
  - by rewrite d_order1, <-!(assoc_L (++)).
Qed.

Lemma flow_dispatch_ack ho hp v vp n n' q q' m :
  flow a b (hold_op (receiving (Some m)) ho) hp v vp n n' q q' → is_ack m = true →
  flow a b (hold_op (receiving None) ho) hp
    (mk_view (v_out v) (v_in v) (u16 (v_rwnd v + 1)) (v_rxq v) (v_lock v)) vp n n' q q'.
Proof.
  intros F Hm. pose proof (dir_room _ _ _ _ _ _ _ _ (f_dir _ _ _ _ _ _ _ _ _ _ F)) as [_ Hr].
  assert (is_data m = false) as Ha by (unfold is_data, is_ack in *; by destruct (m_body m)).
  start F. no_receiver ho. rewrite Ha, Hm in *. simpl in *.
  apply Forall_cons in d_msgs1 as [_ d_msgs1].
  assert (u16 (v_rwnd v + 1) = v_rwnd v + 1) as ->.
  { apply uwrap_id. unfold is_uint. repeat case_match; lia. }
  parts; try done; repeat case_match; lia.
Qed.

(** A message arrives at the other end. *)
Lemma flow_wire h hp v vp n n' q q' m :
  flow a b h hp v vp n n' q q' → v_out v !! n = Some m →
  flow a b h hp v (mk_view (v_out vp) (v_in vp ++ [m]) (v_rwnd vp) (v_rxq vp) (v_lock vp))
    (Datatypes.S n) n' q q'.
Proof.
  intros [L L' D D'] Hm. pose proof D as []. pose proof D' as [].
  set (vp' := mk_view _ _ _ _ _).
  assert (inflight hp vp' v (Datatypes.S n) = inflight hp vp v n) as He.
  { unfold inflight. rewrite (drop_S _ _ _ Hm). simpl. by rewrite <-!(assoc_L (++)). }
  split; [done|by destruct L'|..]; split; rewrite ?He; try done.
  apply lookup_lt_Some in Hm. lia.
Qed.

End Steps.

(** ** Two endpoints joined by links *)

Inductive site := SideA | SideB.
Definition other (s : site) : site := match s with SideA => SideB | SideB => SideA end.

(** The first [p_n] messages of A arrived at B, the first [p_n'] of B at A. *)
Record pair := mk_pair { p_a : endpoint; p_b : endpoint; p_n : nat; p_n' : nat }.

Definition at_side (s : site) (p : pair) : endpoint :=
  match s with SideA => p_a p | SideB => p_b p end.
Definition set_side (s : site) (w : endpoint) (p : pair) : pair :=
  match s with
  | SideA => mk_pair w (p_b p) (p_n p) (p_n' p)
  | SideB => mk_pair (p_a p) w (p_n p) (p_n' p)
  end.

(** All that the endpoint ever sent. *)
Definition sent_by (w : endpoint) : list comsg :=
  match w_chan w ≫= ssl_sock with Some q => q_out q | None => [] end.
(** A message arrives at the socket of the endpoint. *)
Definition arrive (m : comsg) (w : endpoint) : endpoint :=
  match upd_channel (λ c, set_sock ((λ q, mk_qlink (q_out q) (q_in q ++ [m])) <$> ssl_sock c) c) w with
  | Go _ w' => w'
  | _ => w
  end.

(** The network delivers the messages of each side in the order they were sent. *)
Inductive wire : pair → pair → Prop :=
| wire_ab p m :
    sent_by (p_a p) !! p_n p = Some m →
    wire p (mk_pair (p_a p) (arrive m (p_b p)) (Datatypes.S (p_n p)) (p_n' p))
| wire_ba p m :
    sent_by (p_b p) !! p_n' p = Some m →
    wire p (mk_pair (arrive m (p_a p)) (p_b p) (p_n p) (Datatypes.S (p_n' p))).

(** ** What the application is told *)

(** A thread of the application was told the outcome of a write, or got the
    result of a read. *)
Inductive event := Wrote (tid : nat) (data : bytes) (b : bool) | GotData (tid : nat) (r : option bytes).

(** The data a thread wrote with what it was told, and the results it read, in
    order. *)
Definition wrote (tid : nat) (log : list event) : list (bytes * bool) :=
  omap (λ ev, match ev with Wrote i d b => if decide (i = tid) then Some (d, b) else None | _ => None end) log.
Definition got (tid : nat) (log : list event) : list (option bytes) :=
  omap (λ ev, match ev with GotData i r => if decide (i = tid) then Some r else None | _ => None end) log.

(** The data of one thread among data marked with the thread they belong to. *)
Definition of_thread (tid : nat) (l : list (nat * bytes)) : list bytes :=
  omap (λ x, if decide (x.1 = tid) then Some x.2 else None) l.

(** The memory of an endpoint with the events of its application's threads. *)
Abbreviation told := (endpoint * list event)%type.

Definition lift_sec {A} (c : sec endpoint A) : sec told A :=
  λ w, match c w.1 with Go a w' => Go a (w', w.2) | Wait => Wait | Fault => Fault end.

(** A thread of the endpoint.  With [plenty] of memory no allocation fails. *)
Fixpoint lift (plenty : bool) {A} (p : proc endpoint A) : proc told A :=
  match p in proc _ A return proc told A with
  | Ret a => Ret a
  | Crit c k => Crit (lift_sec c) (λ b, lift plenty (k b))
  | Choose k => if plenty then lift plenty (k true) else Choose (λ b, lift plenty (k b))
  | Fork q k => Fork (lift plenty q) (lift plenty k)
  end.

Definition note (ev : event) : proc told unit := crit (modify (λ w, (w.1, w.2 ++ [ev]))).

Lemma wrote_app tid l k : wrote tid (l ++ k) = wrote tid l ++ wrote tid k.
Proof. apply omap_app. Qed.
Lemma got_app tid l k : got tid (l ++ k) = got tid l ++ got tid k.
Proof. apply omap_app. Qed.
Lemma of_thread_app tid l k : of_thread tid (l ++ k) = of_thread tid l ++ of_thread tid k.
Proof. apply omap_app. Qed.

(** What a thread of the application sent or popped and was not told yet. *)
Inductive cell := Idle | Sent (d : bytes) | Popped (d : bytes) | CellBad.
Abbreviation cells := (gmap nat cell).

Definition cells_op (a b : cells) : cells := union_with (λ _ _, Some CellBad) a b.

Lemma cells_op_lookup (a b : cells) i :
  cells_op a b !! i = union_with (λ _ _, Some CellBad) (a !! i) (b !! i).
Proof. apply lookup_union_with. Qed.

Lemma cells_op_assoc a b c : cells_op a (cells_op b c) = cells_op (cells_op a b) c.
Proof.
  apply map_eq. intros i. rewrite !cells_op_lookup. by destruct (a !! i), (b !! i), (c !! i).
Qed.
Lemma cells_op_comm a b : cells_op a b = cells_op b a.
Proof. apply map_eq. intros i. rewrite !cells_op_lookup. by destruct (a !! i), (b !! i). Qed.
Lemma cells_op_unit a : cells_op ∅ a = a.
Proof. apply map_eq. intros i. rewrite cells_op_lookup, lookup_empty. by destruct (a !! i). Qed.

Definition sent_of (x : option cell) : list bytes := match x with Some (Sent d) => [d] | _ => [] end.
Definition popped_of (x : option cell) : list bytes := match x with Some (Popped d) => [d] | _ => [] end.

(** What a read returns for the data it took: the data, or, without the memory for
    a copy, an error. *)
Definition returned (plenty : bool) (d : bytes) (r : option bytes) : Prop :=
  r = Some d ∨ plenty = false ∧ r = None.

(** Of the data [S] sent and [P] popped at an endpoint, the thread [tid] was told
    all but what its cell holds. *)
Record told_of (plenty : bool) (x : option cell) (tid : nat) (log : list event)
    (S P : list (nat * bytes)) : Prop := {
  t_sent : ∃ done, of_thread tid S = done ++ sent_of x ∧ wrote tid log = (λ d, (d, true)) <$> done;
  t_popped : ∃ done, of_thread tid P = done ++ popped_of x ∧
               Forall2 (returned plenty) done (got tid log);
  t_cell : x ≠ Some CellBad;
}.

(** The data an endpoint sent since its stream was opened, after [oa], and popped,
    after what the peer had sent, [ob]. *)
Definition tells (plenty : bool) (oa ob : list comsg) (cs : cells) (log : list event) (v : view)
    (q' : list comsg) (S P : list (nat * bytes)) : Prop :=
  (∃ out, v_out v = oa ++ out ∧ data_bits <$> datas out = S.*2) ∧
  (∃ pops, q' = datas ob ++ pops ∧ data_bits <$> pops = P.*2) ∧
  ∀ tid, told_of plenty (cs !! tid) tid log S P.

(** What a section adds to the data sent and popped. *)
Definition sends (x : cell) : list bytes := sent_of (Some x).
Definition pops (x : cell) : list bytes := popped_of (Some x).

Abbreviation mark i := (λ d : bytes, (i, d)).

Lemma of_thread_one tid i (l : list bytes) : i ≠ tid → of_thread tid (mark i <$> l) = [].
Proof. intros. induction l as [|d l IH]; [done|]. simpl. by rewrite decide_False. Qed.
Lemma of_thread_own i (l : list bytes) : of_thread i (mark i <$> l) = l.
Proof. induction l as [|d l IH]; [done|]. simpl. rewrite decide_True by done. by f_equal. Qed.

Lemma cells_op_own i x co : cells_op {[i := x]} co !! i ≠ Some CellBad → co !! i = None.
Proof. rewrite cells_op_lookup, lookup_singleton_eq. by destruct (co !! i). Qed.
Lemma cells_op_other i tid x x' co : i ≠ tid →
  cells_op {[i := x]} co !! tid = cells_op {[i := x']} co !! tid.
Proof. intros. by rewrite !cells_op_lookup, !lookup_singleton_ne. Qed.
Lemma cells_op_mine i x co : co !! i = None → cells_op {[i := x]} co !! i = Some x.
Proof. intros H. by rewrite cells_op_lookup, lookup_singleton_eq, H. Qed.

(** A section of an idle thread, and one of a thread whose cell does not change. *)
Lemma tells_own plenty oa ob i co log v v' q' S P x (ext pop : list comsg) :
  tells plenty oa ob (cells_op {[i := Idle]} co) log v q' S P →
  v_out v' = v_out v ++ ext → data_bits <$> datas ext = sends x → data_bits <$> pop = pops x →
  x ≠ CellBad →
  tells plenty oa ob (cells_op {[i := x]} co) log v' (q' ++ pop)
    (S ++ (mark i <$> sends x)) (P ++ (mark i <$> pops x)).
Proof.
  intros ((out & Hout & HS) & (ps & -> & HP) & Ht) Hv He Hp Hx. split_and!.
  - exists (out ++ ext). rewrite Hv, Hout, datas_app, !fmap_app, HS, He, <-(assoc_L (++)).
    split; [done|]. by rewrite <-list_fmap_compose, list_fmap_id.
  - exists (ps ++ pop). rewrite <-(assoc_L (++)), !fmap_app, HP, Hp.
    split; [done|]. by rewrite <-list_fmap_compose, list_fmap_id.
  - intros tid. specialize (Ht tid). destruct (decide (i = tid)) as [<-|Hi].
    + pose proof (cells_op_own _ _ _ (t_cell _ _ _ _ _ _ Ht)) as Hco.
      destruct Ht as [(ds & H1 & H1') (dp & H2 & H2') _].
      rewrite cells_op_mine in * by done. simpl in H1, H2. rewrite app_nil_r in H1, H2.
      split; [exists ds|exists dp|by intros [= ->]]; (split; [|done]);
        rewrite of_thread_app, of_thread_own; by f_equal.
    + rewrite (cells_op_other i tid x Idle) by done.
      destruct Ht as [(ds & H1 & H1') (dp & H2 & H2') H3].
      split; [exists ds|exists dp|done]; (split; [|done]);
        rewrite of_thread_app, of_thread_one, app_nil_r by done; done.
Qed.

Lemma tells_quiet plenty oa ob cs log v v' q' S P (ext : list comsg) :
  tells plenty oa ob cs log v q' S P → v_out v' = v_out v ++ ext → datas ext = [] →
  tells plenty oa ob cs log v' q' S P.
Proof.
  intros ((out & Hout & HS) & HP & Ht) Hv He. split_and!; [|done|done].
  exists (out ++ ext). by rewrite Hv, Hout, datas_app, He, app_nil_r, (assoc_L (++)).
Qed.

Lemma told_other plenty x i tid log S P ev :
  told_of plenty x tid log S P → i ≠ tid →
  match ev with Wrote j _ _ => j | GotData j _ => j end = i → told_of plenty x tid (log ++ [ev]) S P.
Proof.
  intros [(ds & H1 & H1') (dp & H2 & H2') H3] Hi He. split; [exists ds|exists dp|done];
    (split; [done|]); rewrite ?wrote_app, ?got_app; destruct ev; simpl in *; subst;
    rewrite ?decide_False by done; by rewrite app_nil_r.
Qed.

(** The thread is told what it sent, or gets what it popped. *)
Lemma tells_note plenty oa ob i co log v q' S P x ev :
  tells plenty oa ob (cells_op {[i := x]} co) log v q' S P →
  match x with
  | Sent d => ev = Wrote i d true
  | Popped d => ∃ r, ev = GotData i r ∧ returned plenty d r
  | _ => False
  end →
  tells plenty oa ob (cells_op {[i := Idle]} co) (log ++ [ev]) v q' S P.
Proof.
  intros (HS & HP & Ht) Hx. split_and!; [done|done|]. intros tid. specialize (Ht tid).
  destruct (decide (i = tid)) as [<-|Hi].
  - pose proof (cells_op_own _ _ _ (t_cell _ _ _ _ _ _ Ht)) as Hco.
    destruct Ht as [(ds & H1 & H1') (dp & H2 & H2') _].
    rewrite cells_op_mine in * by done.
    destruct x as [|d|d|]; try done; simpl in *.
    + subst ev. split; [exists (ds ++ [d])|exists dp|done]; rewrite ?wrote_app, ?got_app; simpl;
        rewrite ?decide_True by done; rewrite ?app_nil_r in *; [|done].
      by rewrite H1', fmap_app.
    + destruct Hx as (r & -> & Hr).
      split; [exists ds|exists (dp ++ [d])|done]; rewrite ?wrote_app, ?got_app; simpl;
        rewrite ?decide_True by done; rewrite ?app_nil_r in *; [done|].
      split; [done|]. apply Forall2_app; [done|]. constructor; [done|constructor].
  - rewrite (cells_op_other i tid Idle x) by done. apply (told_other _ _ i); [done|done|].
    destruct x; try done; [by subst ev|]. by destruct Hx as (r & -> & _).
Qed.

(** What the threads of an endpoint hold: of the stream, and their cells. *)
Abbreviation held := (hold * cells)%type.

Definition held_op (a b : held) : held := (hold_op a.1 b.1, cells_op a.2 b.2).
Definition gop (g g' : held * held) : held * held := (held_op g.1 g'.1, held_op g.2 g'.2).
Definition held0 : held := (hold0, ∅).
Definition gunit : held * held := (held0, held0).
Definition own (s : site) (h : held) : held * held :=
  match s with SideA => (h, held0) | SideB => (held0, h) end.

(** The two endpoints, each with the events of its application's threads. *)
Abbreviation system := (pair * (list event * list event))%type.

Definition told_at (s : site) (c : system) : told :=
  (at_side s c.1, match s with SideA => c.2.1 | SideB => c.2.2 end).
Definition set_told (s : site) (w : told) (c : system) : system :=
  (set_side s w.1 c.1, match s with SideA => (w.2, c.2.2) | SideB => (c.2.1, w.2) end).
Definition network (c c' : system) : Prop := wire c.1 c'.1 ∧ c'.2 = c.2.

Section Pair.
Variables ea eb : ends.
Definition end_of (s : site) : ends := match s with SideA => ea | SideB => eb end.

(** With [plenty] of memory no allocation fails.  [oa], [ob]: all that the ends had
    sent when the stream was opened. *)
Variable plenty : bool.
Variables oa ob : list comsg.

Definition Inv (g : held * held) (c : system) : Prop :=
  ∃ va vb q q' Sa Pa Sb Pb, repr ea (p_a c.1) va ∧ repr eb (p_b c.1) vb ∧
    flow ea eb g.1.1 g.2.1 va vb (p_n c.1) (p_n' c.1) q q' ∧
    tells plenty oa ob g.1.2 c.2.1 va q' Sa Pa ∧ tells plenty ob oa g.2.2 c.2.2 vb q Sb Pb.

Lemma sent_by_repr e w v : repr e w v → sent_by w = v_out v.
Proof. intros (c & s & []). unfold sent_by. rewrite ra_chan0. simpl. by rewrite ra_sock0. Qed.

Lemma arrive_repr e w v m :
  repr e w v →
  repr e (arrive m w) (mk_view (v_out v) (v_in v ++ [m]) (v_rwnd v) (v_rxq v) (v_lock v)).
Proof.
  intros (c & s & Hr). unfold arrive. set (f := λ c, _).
  destruct (upd_channel_repr e w v c s f
    (mk_view (v_out v) (v_in v ++ [m]) (v_rwnd v) (v_rxq v) (v_lock v)) Hr) as (w' & -> & Hw'); try done.
  - unfold f. simpl. by rewrite (ra_sock _ _ _ _ _ Hr).
  - by destruct Hr.
Qed.

Lemma network_inv g c c' : Inv g c → network c c' → Inv g c'.
Proof.
  destruct c as [p logs], c' as [p' logs']. intros (va & vb & q & q' & Sa & Pa & Sb & Pb & Ha & Hb & F & Ta & Tb) [Hw He].
  simpl in *. subst logs'. destruct Hw as [p m Hm|p m Hm]; simpl in *.
  - rewrite (sent_by_repr _ _ _ Ha) in Hm. do 8 eexists.
    split_and!; [done|by apply arrive_repr|by apply flow_wire|done|done].
  - rewrite (sent_by_repr _ _ _ Hb) in Hm. do 8 eexists.
    split_and!; [by apply arrive_repr|done| |done|done].
    apply flow_sym, flow_wire; [by apply flow_sym|done].
Qed.

Lemma held_op_assoc a b c : held_op a (held_op b c) = held_op (held_op a b) c.
Proof. unfold held_op. simpl. by rewrite hold_op_assoc, cells_op_assoc. Qed.
Lemma held_op_comm a b : held_op a b = held_op b a.
Proof. unfold held_op. by rewrite hold_op_comm, cells_op_comm. Qed.
Lemma held_op_unit a : held_op held0 a = a.
Proof. destruct a. unfold held_op. simpl. by rewrite hold_op_unit, cells_op_unit. Qed.
Lemma gop_assoc g1 g2 g3 : gop g1 (gop g2 g3) = gop (gop g1 g2) g3.
Proof. unfold gop. simpl. by rewrite !held_op_assoc. Qed.
Lemma gop_comm g1 g2 : gop g1 g2 = gop g2 g1.
Proof. unfold gop. by rewrite (held_op_comm g1.1), (held_op_comm g1.2). Qed.
Lemma gop_unit g : gop gunit g = g.
Proof. destruct g. unfold gop. simpl. by rewrite !held_op_unit. Qed.

Lemma set_told_at s c : set_told s (told_at s c) c = c.
Proof. by destruct s, c as [[] []]. Qed.

(** [okl s g p Q]: at side [s], holding [g], the thread [p] keeps the invariant, and
    ends holding [g'] and returning [a] with [Q a g']. *)
Definition okt {A} (s : site) (g : held) (p : proc told A) (Q : A → held → Prop) : Prop :=
  okp told_at set_told gop Inv s (own s g) p (λ a g, ∃ g', g = own s g' ∧ Q a g').
Definition okl {A} (s : site) (g : held) (p : proc endpoint A) : (A → held → Prop) → Prop :=
  okt s g (lift plenty p).

(** [ok s h p Q]: so does a thread that sends and pops no data. *)
Definition ok {A} (s : site) (h : hold) (p : proc endpoint A) (Q : A → hold → Prop) : Prop :=
  ∀ cs, okl s (h, cs) p (λ a g, Q a g.1 ∧ g.2 = cs).

Lemma okt_mono {A} s g (p : proc told A) (Q Q' : A → held → Prop) :
  okt s g p Q → (∀ a g', Q a g' → Q' a g') → okt s g p Q'.
Proof. intros Hp HQ. eapply okp_mono; [exact Hp|]. intros a g' (h' & -> & H). eauto. Qed.

Lemma okt_bind {A B} s g (p : proc told A) (f : A → proc told B) Q R :
  okt s g p Q → (∀ a g', Q a g' → okt s g' (f a) R) → okt s g (pbind p f) R.
Proof. intros Hp Hf. eapply okp_bind; [exact Hp|]. simpl. intros a g' (h' & -> & HQ). by apply Hf. Qed.

Lemma okp_lift_bind {A B} t (p : proc endpoint A) (f : A → proc endpoint B) : ∀ g Q R,
  okp told_at set_told gop Inv t g (lift plenty p) Q →
  (∀ a g', Q a g' → okp told_at set_told gop Inv t g' (lift plenty (f a)) R) →
  okp told_at set_told gop Inv t g (lift plenty (pbind p f)) R.
Proof.
  induction p as [A a|A B' c k IH|A k IH|A q _ k IH]; intros g Q R H HQ; simpl in *.
  - auto.
  - intros c' go Hi. specialize (H c' go Hi). destruct (lift_sec c (told_at t c')); [|done|done].
    destruct H as (g' & ? & ?). eauto.
  - destruct plenty; simpl in *; eauto.
  - destruct H as (g1 & g2 & ? & ? & ?). eauto 6.
Qed.

Lemma okl_bind {A B} s g (p : proc endpoint A) (f : A → proc endpoint B) Q R :
  okl s g p Q → (∀ a g', Q a g' → okl s g' (f a) R) → okl s g (pbind p f) R.
Proof.
  intros Hp Hf. eapply okp_lift_bind; [exact Hp|]. simpl. intros a g' (h' & -> & HQ). by apply Hf.
Qed.

Lemma okt_ret {A} s g (a : A) (Q : A → held → Prop) : Q a g → okt s g (Ret a) Q.
Proof. intros. unfold okt. simpl. eauto. Qed.

Lemma ok_ret {A} s h (a : A) (Q : A → hold → Prop) : Q a h → ok s h (Ret a) Q.
Proof. intros ? cs. by apply okt_ret. Qed.

Lemma ok_bind {A B} s h (p : proc endpoint A) (f : A → proc endpoint B) Q R :
  ok s h p Q → (∀ a h', Q a h' → ok s h' (f a) R) → ok s h (pbind p f) R.
Proof.
  intros Hp Hf cs. eapply okl_bind; [apply Hp|]. intros a [h' cs'] [HQ Hc]. simpl in *. subst.
  by apply Hf.
Qed.

Lemma ok_choose s h (Q : bool → hold → Prop) : (∀ b, Q b h) → ok s h choose Q.
Proof. intros HQ cs. unfold okl. simpl. destruct plenty; [by apply okt_ret|]. intros b. by apply okt_ret. Qed.

(** A section is checked on the views of the two ends: what it adds to the data
    sent and popped is that of the cell it leaves an idle thread with. *)
Definition sec_ok {A} (s : site) (h : hold) (c : sec endpoint A) (Q : A → hold → cell → Prop) : Prop :=
  ∀ w v vp ho hp n n' q q',
    repr (end_of s) w v →
    flow (end_of s) (end_of (other s)) (hold_op h ho) hp v vp n n' q q' →
    match c w with
    | Go a w' => ∃ h' v' x ext pop, repr (end_of s) w' v' ∧
        flow (end_of s) (end_of (other s)) (hold_op h' ho) hp v' vp n n' q (q' ++ pop) ∧
        v_out v' = v_out v ++ ext ∧ data_bits <$> datas ext = sends x ∧ data_bits <$> pop = pops x ∧
        x ≠ CellBad ∧ Q a h' x
    | Wait => True
    | Fault => False
    end.

(** The invariant from one side. *)
Lemma inv_side s g go c :
  Inv (gop (own s g) go) c → ∃ v vp q q' S P gs gp n n',
    repr (end_of s) (told_at s c).1 v ∧
    flow (end_of s) (end_of (other s)) (hold_op g.1 gs.1) gp v vp n n' q q' ∧
    tells plenty (match s with SideA => oa | SideB => ob end) (match s with SideA => ob | SideB => oa end)
      (cells_op g.2 gs.2) (told_at s c).2 v q' S P ∧
    ∀ w' log' v' g' q2 S2 P2, repr (end_of s) w' v' →
      flow (end_of s) (end_of (other s)) (hold_op g'.1 gs.1) gp v' vp n n' q q2 →
      tells plenty (match s with SideA => oa | SideB => ob end) (match s with SideA => ob | SideB => oa end)
        (cells_op g'.2 gs.2) log' v' q2 S2 P2 →
      Inv (gop (own s g') go) (set_told s (w', log') c).
Proof.
  destruct go as [ga gb], c as [p [la lb]]. intros (va & vb & q & q' & Sa & Pa & Sb & Pb & Ha & Hb & F & Ta & Tb).
  destruct s; simpl in *.
  - exists va, vb, q, q', Sa, Pa, ga, (hold_op hold0 gb.1), (p_n p), (p_n' p).
    split_and!; [done|done|done|]. intros w' log' v' g' q2 S2 P2 Hr F' T.
    exists v', vb, q, q2, S2, P2, Sb, Pb. done.
  - exists vb, va, q', q, Sb, Pb, gb, (hold_op hold0 ga.1), (p_n' p), (p_n p).
    split_and!; [done|by apply flow_sym|done|]. intros w' log' v' g' q2 S2 P2 Hr F' T.
    exists va, v', q2, q', Sa, Pa, S2, P2. split_and!; [done|done|by apply flow_sym|done|done].
Qed.

(** A section of an idle thread. *)
Lemma okl_crit {A} s i h (c : sec endpoint A) Q :
  sec_ok s h c Q →
  okl s (h, {[i := Idle]}) (crit c) (λ a g, ∃ h' x, g = (h', {[i := x]}) ∧ Q a h' x).
Proof.
  intros Hc st go Hi.
  destruct (inv_side _ _ _ _ Hi) as (v & vp & q & q' & S & P & gs & gp & n & n' & Hr & F & T & Hback).
  specialize (Hc _ _ _ _ _ _ _ _ _ Hr F). unfold lift_sec. simpl in *.
  destruct (c (at_side s st.1)) as [a w'| |]; [|done|done].
  destruct Hc as (h' & v' & x & ext & pop & Hr' & F' & Ho & He & Hp & Hx & HQ).
  exists (own s (h', {[i := x]})). split; [|eexists; split; [done|]; by exists h', x].
  eapply Hback; [done|exact F'|]. by eapply tells_own.
Qed.

(** A section that sends and pops nothing. *)
Lemma ok_crit {A} s h (c : sec endpoint A) Q :
  sec_ok s h c (λ a h' x, x = Idle ∧ Q a h') → ok s h (crit c) Q.
Proof.
  intros Hc cs st go Hi.
  destruct (inv_side _ _ _ _ Hi) as (v & vp & q & q' & S & P & gs & gp & n & n' & Hr & F & T & Hback).
  specialize (Hc _ _ _ _ _ _ _ _ _ Hr F). unfold lift_sec. simpl in *.
  destruct (c (at_side s st.1)) as [a w'| |]; [|done|done].
  destruct Hc as (h' & v' & x & ext & pop & Hr' & F' & Ho & He & Hp & _ & -> & HQ).
  apply fmap_nil_inv in He, Hp. subst pop. rewrite app_nil_r in F'.
  exists (own s (h', cs)). split; [|by eexists].
  eapply Hback; [done|exact F'|]. by eapply tells_quiet.
Qed.

(** A section whose outcome on a view is known. *)
Lemma sec_ok_goes {A} s h (c : sec endpoint A) (Q : A → hold → Prop) :
  (∀ w v vp ho hp n n' q q',
    repr (end_of s) w v →
    flow (end_of s) (end_of (other s)) (hold_op h ho) hp v vp n n' q q' →
    c w = Wait ∨ ∃ a h' v', goes (end_of s) (c w) a v' ∧
      flow (end_of s) (end_of (other s)) (hold_op h' ho) hp v' vp n n' q q' ∧
      (∃ ext, v_out v' = v_out v ++ ext ∧ datas ext = []) ∧ Q a h') →
  sec_ok s h c (λ a h' x, x = Idle ∧ Q a h').
Proof.
  intros Hc w v vp ho hp n n' q q' Hr F.
  destruct (Hc w v vp ho hp n n' q q' Hr F)
    as [->|(a & h' & v' & (w' & -> & Hr') & F' & (ext & Ho & He) & HQ)]; [done|].
  exists h', v', Idle, ext, []. rewrite app_nil_r. split_and!; try done. by rewrite He.
Qed.

(** ** The functions of the channel *)

Abbreviation loc_of s := (e_loc (end_of s)).

(** Nothing was sent. *)
Ltac silent := exists []; by rewrite app_nil_r.

Lemma ok_acquire_none s h :
  g_lk h = NoLk →
  ok s h (acquire_write_lock None (-1))
    (λ b h', b = true ∧ h' = mk_hold (g_rx h) (Lk Plain) (g_unacked h)).
Proof.
  intros Hl. apply ok_crit, sec_ok_goes. intros w v vp ho hp n n' q q' Hr F.
  pose proof (acquire_none_goes _ w v Hr) as Hg. destruct (v_lock v) eqn:E; [by left|].
  right. do 3 eexists. split_and!; [exact Hg| |silent|done|done]. by apply flow_acquire.
Qed.

Lemma ok_acquire_stream s :
  ok s hold0 (acquire_write_lock (Some (loc_of s)) (-1)) (λ b h', b = true ∧ h' = reserved).
Proof.
  apply ok_crit, sec_ok_goes. intros w v vp ho hp n n' q q' Hr F.
  pose proof (acquire_stream_goes _ w v Hr) as Hg.
  destruct (v_lock v) eqn:E; simpl in Hg; [by left|].
  destruct (Z.leb_spec (v_rwnd v) 0); [by left|].
  right. do 3 eexists. split_and!; [exact Hg| |silent|done|done]. by apply flow_reserve.
Qed.

Lemma ok_release s h :
  g_lk h = Lk Plain →
  ok s h (release_write_lock true) (λ _ h', h' = mk_hold (g_rx h) NoLk (g_unacked h)).
Proof.
  intros Hl. apply ok_crit, sec_ok_goes. intros w v vp ho hp n n' q q' Hr F. right.
  do 3 eexists. split_and!; [by apply release_goes| |silent|done]. by apply flow_release.
Qed.

Lemma ok_dec s :
  ok s unsent (crit (upd_stream (loc_of s) (λ st, set_rwnd (u16 (st_rwnd st - 1)) st)))
    (λ _ h', h' = locked).
Proof.
  apply ok_crit, sec_ok_goes. intros w v vp ho hp n n' q q' Hr F. right. do 3 eexists.
  split_and!; [by apply (rwnd_goes _ (λ r, u16 (r - 1)))|by apply flow_dec|silent|done].
Qed.

(** A thread with a cell of its own runs what sends and pops nothing. *)
Lemma ok_own {A} s i x h (p : proc endpoint A) Q :
  ok s h p Q → okl s (h, {[i := x]}) p (λ a g, ∃ h', g = (h', {[i := x]}) ∧ Q a h').
Proof.
  intros Hp. eapply okt_mono; [apply Hp|]. intros a [h' cs] [HQ Hc]. simpl in *. subst cs. by exists h'.
Qed.

(** [corpc_stream_write] waits for a unit of the window, sends, and gives the
    lock back. *)
Lemma ok_send_data s i data :
  okl s (hold0, {[i := Idle]}) (send_data (loc_of s) data)
    (λ b g, b = true ∧ g = (hold0, {[i := Sent data]})).
Proof.
  unfold send_data. eapply okl_bind; [by apply ok_own, ok_acquire_stream|].
  intros b g (h' & -> & -> & ->).
  eapply (okl_bind _ _ _ _ (λ b g, b = true ∧ g = (unsent, {[i := Sent data]}))).
  { eapply okt_mono; [apply (okl_crit _ _ _ _ (λ b h' x, b = true ∧ h' = unsent ∧ x = Sent data))|].
    - intros w v vp ho hp n n' q q' Hr F.
      destruct (send_goes (end_of s) (Data data) w v Hr) as (w' & Hs & Hr'). rewrite Hs.
      exists unsent. eexists.
      exists (Sent data), [mk_comsg (e_sid (end_of s)) (e_did (end_of s)) (Data data)], [].
      rewrite app_nil_r. split_and!; [exact Hr'|by apply flow_send_data|done..].
    - intros b g (h' & x & -> & -> & -> & ->). done. }
  intros b g [-> ->]. eapply okl_bind; [apply ok_own, ok_dec|].
  intros _ g (h' & -> & ->).
  eapply okl_bind; [by apply ok_own, ok_release|]. intros _ g (h' & -> & ->).
  by apply okt_ret.
Qed.

Lemma ok_send_data_ack s :
  ok s unacked (send_data_ack (loc_of s)) (λ b h', b = true ∧ h' = hold0).
Proof.
  unfold send_data_ack. eapply ok_bind; [by apply ok_acquire_none|]. intros b h' [-> ->].
  apply (ok_bind _ _ _ _ (λ b h', b = true ∧ h' = locked)).
  { apply ok_crit, sec_ok_goes. intros w v vp ho hp n n' q q' Hr F. right. do 3 eexists.
    split; [by apply (send_goes _ DataAck)|]. split; [by apply flow_send_ack|].
    split; [by eexists|done]. }
  intros b h' [-> ->]. eapply ok_bind; [by apply ok_release|]. intros _ h' ->. by apply ok_ret.
Qed.

(** [corpc_stream_read] waits for a message, pops it and acknowledges it. *)
Lemma ok_read_internal s i :
  okl s (hold0, {[i := Idle]}) (corpc_stream_read_internal (loc_of s))
    (λ r g, ∃ m, r = Some m ∧ g = (hold0, {[i := Popped (data_bits m)]})).
Proof.
  unfold corpc_stream_read_internal.
  eapply (okl_bind _ _ _ _ (λ r g, ∃ m, is_data m = true ∧ r = (Some m, true) ∧
            g = (unacked, {[i := Popped (data_bits m)]}))).
  { eapply okt_mono; [apply (okl_crit _ _ _ _ (λ r h' x, ∃ m, is_data m = true ∧ r = (Some m, true) ∧
      h' = unacked ∧ x = Popped (data_bits m)))|].
    - intros w v vp ho hp n n' q q' Hr F.
      pose proof (read_goes _ w v Hr) as Hg. destruct (v_rxq v) as [|m r] eqn:E; [by rewrite Hg|].
      destruct Hg as (w' & -> & Hr'). destruct (flow_read _ _ _ _ _ _ _ _ _ _ m r F E) as [F' Hm].
      exists unacked. eexists. exists (Popped (data_bits m)), [], [m]. split_and!;
        [exact Hr'|exact F'|by rewrite app_nil_r|done|done|done|by exists m].
    - intros r g (h' & x & -> & m & Hm & -> & -> & ->). by exists m. }
  intros r g (m & Hm & -> & ->). cbn [fst snd]. unfold is_data in Hm.
  destruct (m_body m) eqn:Em; try done.
  eapply (okl_bind _ _ _ _ (λ _ g, g = (hold0, {[i := Popped (data_bits m)]}))).
  - eapply okl_bind; [apply ok_own, ok_send_data_ack|].
    intros b g (h' & -> & _ & ->). by apply okt_ret.
  - intros _ g ->. apply okt_ret. by exists m.
Qed.

Lemma ok_read s i :
  okl s (hold0, {[i := Idle]}) (corpc_stream_read (loc_of s))
    (λ r g, ∃ d, returned plenty d r ∧ g = (hold0, {[i := Popped d]})).
Proof.
  unfold corpc_stream_read. eapply okl_bind; [apply ok_read_internal|].
  intros r g (m & -> & ->). unfold okl, choose. cbn [pbind lift].
  destruct plenty eqn:Hp; [apply okt_ret; exists (data_bits m); by split; [left|]|].
  intros b. cbn [lift]. apply okt_ret. exists (data_bits m).
  split; [|done]. destruct b; [by left|by right].
Qed.

(** The channel's thread: every message that arrives is dispatched, the queue is
    never found full. *)
Lemma ok_link_recv s :
  ok s (receiving None) (crit link_recv)
    (λ r h', ∃ m, r = Some m ∧ h' = receiving (Some m) ∧ msg_ok (end_of (other s)) m).
Proof.
  apply ok_crit, sec_ok_goes. intros w v vp ho hp n n' q q' Hr F.
  pose proof (link_recv_goes _ w v Hr) as Hg. destruct (v_in v) as [|m r] eqn:E; [by left|].
  right. assert (F' := flow_recv _ _ _ _ _ _ _ _ _ _ m r F E).
  do 3 eexists. split; [exact Hg|]. split; [exact F'|]. split; [silent|].
  exists m. split_and!; [done|done|]. by eapply flow_holding.
Qed.

Variable app : application qlink.
Hypothesis ends_match : e_did ea = e_sid eb ∧ e_did eb = e_sid ea.

Lemma ok_dispatch s m :
  msg_ok (end_of (other s)) m →
  ok s (receiving (Some m)) (dispatch app m) (λ r h', r.1 = true ∧ h' = receiving None).
Proof.
  intros (Hs & Hd & Hk).
  assert (m_did m = e_sid (end_of s)) as Hdid.
  { rewrite Hd. destruct ends_match. by destruct s. }
  destruct m as [sid did body]. simpl in Hdid. subst did. unfold dispatch. cbn [m_body m_did m_sid].
  destruct body as [| | |bits|]; try (destruct Hk as [Hk|Hk]; discriminate Hk).
  - apply ok_crit, sec_ok_goes. intros w v vp ho hp n n' q q' Hr F. right.
    destruct (flow_dispatch_data _ _ _ _ _ _ _ _ _ _ _ F eq_refl) as [Hroom F'].
    do 3 eexists. split; [by apply on_data_goes|]. split; [exact F'|]. split; [silent|done].
  - apply (ok_bind _ _ _ _ (λ b h', b = true ∧ h' = receiving None)).
    + apply ok_crit, sec_ok_goes. intros w v vp ho hp n n' q q' Hr F. right. do 3 eexists.
      split; [by apply on_data_ack_goes|]. split; [by eapply flow_dispatch_ack|]. split; [silent|done].
    + intros b h' [-> ->]. by apply ok_ret.
Qed.

Lemma ok_channel_loop s fuel have_msg :
  ok s (receiving None) (channel_loop app fuel have_msg) (λ _ _, True).
Proof.
  revert have_msg. induction fuel as [|fuel IH]; intros have_msg; cbn [channel_loop].
  { apply ok_crit. intros ? **. done. }
  destruct have_msg; cbn [negb]; [|by apply ok_ret].
  eapply ok_bind; [apply ok_link_recv|]. intros r h' (m & -> & -> & Hm).
  eapply ok_bind; [by apply ok_dispatch|]. intros [b taken] h' [Hb ->]. simpl in Hb. subst b.
  cbn [fst snd negb]. destruct taken; [|apply IH].
  eapply ok_bind; [by apply (ok_choose _ _ (λ _ h', h' = receiving None))|].
  intros alloc h' ->. apply IH.
Qed.

(** ** Threads of the application *)

Lemma okt_note s i x ev :
  match x with
  | Sent d => ev = Wrote i d true
  | Popped d => ∃ r, ev = GotData i r ∧ returned plenty d r
  | _ => False
  end →
  okt s (hold0, {[i := x]}) (note ev) (λ _ g, g = (hold0, {[i := Idle]})).
Proof.
  intros Hx st go Hi.
  destruct (inv_side _ _ _ _ Hi) as (v & vp & q & q' & S & P & gs & gp & n & n' & Hr & F & T & Hback).
  simpl in *. exists (own s (hold0, {[i := Idle]})). split; [|by eexists].
  eapply Hback; [done|exact F|]. by eapply tells_note.
Qed.

(** Any program over [corpc_stream_write] and [corpc_stream_read], which notes what
    it is told: the thread [i] of the application. *)
Inductive client (l : loc) (i : nat) : proc told unit → Prop :=
| client_done : client l i (Ret ())
| client_write data k :
    (∀ b, client l i (k b)) →
    client l i (do b ← lift plenty (corpc_stream_write l data); exec note (Wrote i data b); k b)
| client_read k :
    (∀ r, client l i (k r)) →
    client l i (do r ← lift plenty (corpc_stream_read l); exec note (GotData i r); k r).

Lemma ok_client s i p : client (loc_of s) i p → okt s (hold0, {[i := Idle]}) p (λ _ _, True).
Proof.
  induction 1 as [|data k _ IH|k _ IH]; [by apply okt_ret| |].
  - eapply okt_bind; [apply ok_send_data|]. intros b g [-> ->].
    eapply okt_bind; [by apply okt_note|]. intros _ g ->. apply IH.
  - eapply okt_bind; [apply ok_read|]. intros r g (d & Hr & ->).
    eapply okt_bind; [apply okt_note; by exists r|]. intros _ g ->. apply IH.
Qed.

(** The two ends right after the stream was opened: the windows are those of empty
    queues, and nothing is on its way. *)
Definition opened_after (p : pair) : Prop :=
  let v0 out := mk_view out [] (Z.of_nat CORPC_STREAM_DEFAULT_QUEUE_SIZE) [] false in
  repr ea (p_a p) (v0 oa) ∧ repr eb (p_b p) (v0 ob) ∧ p_n p = length oa ∧ p_n' p = length ob.

(** The channels' threads, and the application's. *)
Definition channel_threads (fuel : nat) : list (site * proc told unit) :=
  [(SideA, lift plenty (channel_loop app fuel true)); (SideB, lift plenty (channel_loop app fuel true))].
Definition clients_from (k : nat) (clients : list (site * proc told unit)) : Prop :=
  ∀ i sp, clients !! i = Some sp → client (loc_of sp.1) (k + i) sp.2.

(** What the clients hold: a cell each. *)
Fixpoint cells_from (k : nat) (clients : list (site * proc told unit)) : list (held * held) :=
  match clients with
  | [] => []
  | (s, _) :: r => own s (hold0, {[k := Idle]}) :: cells_from (Datatypes.S k) r
  end.

Definition idle_cells (k : nat) (cs : cells) : Prop :=
  ∀ i, cs !! i = None ∨ cs !! i = Some Idle ∧ (k ≤ i)%nat.

Lemma idle_cons k cs : idle_cells (Datatypes.S k) cs → idle_cells k (cells_op {[k := Idle]} cs).
Proof.
  intros Hc i. rewrite cells_op_lookup. destruct (Hc i) as [Hi|[Hi ?]]; rewrite Hi.
  - destruct (decide (k = i)) as [->|]; [rewrite lookup_singleton_eq; by right|].
    rewrite lookup_singleton_ne by done. by left.
  - rewrite lookup_singleton_ne by lia. right. split; [done|lia].
Qed.
Lemma idle_later k cs : idle_cells (Datatypes.S k) cs → idle_cells k cs.
Proof. intros Hc i. destruct (Hc i) as [|[]]; [by left|right; split; [done|lia]]. Qed.

Lemma total_cells k clients : ∃ ca cb,
  total gop gunit (cells_from k clients) = ((hold0, ca), (hold0, cb)) ∧ idle_cells k ca ∧ idle_cells k cb.
Proof.
  revert k. induction clients as [|[s q] clients IH]; intros k; simpl.
  { exists ∅, ∅. split_and!; [done|intros i; left; apply lookup_empty..]. }
  destruct (IH (Datatypes.S k)) as (ca & cb & -> & Ha & Hb). destruct s; simpl.
  - exists (cells_op {[k := Idle]} ca), cb. split_and!; [|by apply idle_cons|by apply idle_later].
    unfold gop, held_op. simpl. by rewrite cells_op_unit.
  - exists ca, (cells_op {[k := Idle]} cb). split_and!; [|by apply idle_later|by apply idle_cons].
    unfold gop, held_op. simpl. by rewrite cells_op_unit.
Qed.

Lemma tells_start o o' k cs v : idle_cells k cs → v_out v = o → tells plenty o o' cs [] v (datas o') [] [].
Proof.
  intros Hc <-. split_and!; [exists []; by rewrite app_nil_r|exists []; by rewrite app_nil_r|].
  intros tid. split; [exists []|exists []|]; destruct (Hc tid) as [->|[-> _]]; done.
Qed.

Lemma start_ok p fuel clients :
  opened_after p → clients_from 0 clients →
  pool_ok told_at set_told gop gunit Inv ((p, ([], [])), channel_threads fuel ++ clients).
Proof.
  intros (Ha & Hb & Hn & Hn') Hc.
  exists ([own SideA (receiving None, ∅); own SideB (receiving None, ∅)] ++ cells_from 0 clients).
  split.
  - destruct (total_cells 0 clients) as (ca & cb & Ht & Hia & Hib).
    rewrite total_app by apply gop_assoc || apply gop_unit. rewrite Ht.
    unfold gop, held_op. simpl. rewrite !cells_op_unit.
    do 2 eexists. exists (datas oa), (datas ob), [], [], [], [].
    split_and!; [exact Ha|exact Hb| |by eapply tells_start|by eapply tells_start].
    simpl. rewrite Hn, Hn'. split; [by split|by split|..]; split; unfold inflight; simpl;
      rewrite ?drop_all; try done; try lia; by rewrite app_nil_r.
  - apply Forall2_app.
    + repeat constructor; (eapply okp_mono; [apply (ok_channel_loop _ _ _ ∅)|]); done.
    + clear Ha Hb Hn Hn'. revert Hc. generalize 0%nat. induction clients as [|[s q] clients IH]; intros k Hc.
      { constructor. }
      constructor.
      * simpl. eapply okp_mono; [apply ok_client|done].
        specialize (Hc 0%nat (s, q) eq_refl). by rewrite Nat.add_0_r in Hc.
      * apply IH. intros i sp Hi. rewrite Nat.add_succ_comm. by apply (Hc (Datatypes.S i)).
Qed.

End Pair.

(** The two ends right after the stream was opened. *)
Definition opened (ea eb : ends) (p : pair) : Prop :=
  let v0 out := mk_view out [] (Z.of_nat CORPC_STREAM_DEFAULT_QUEUE_SIZE) [] false in
  ∃ oa ob, repr ea (p_a p) (v0 oa) ∧ repr eb (p_b p) (v0 ob) ∧ p_n p = length oa ∧ p_n' p = length ob.

(** What flow control promises of one direction, of which [S] was sent since the
    stream was opened (after [n0] messages) and [P] was popped: the messages in
    flight fit in what is left of the receive queue, and the data sent is that
    popped, queued and in flight, in the order it was sent. *)
Definition promises (v vp : view) (n0 n : nat) (S P : list (nat * bytes)) : Prop :=
  zlen (v_rxq vp) + zlen (datas (v_in vp ++ drop n (v_out v))) <=
    Z.of_nat CORPC_STREAM_DEFAULT_QUEUE_SIZE ∧
  data_bits <$> datas (drop n0 (v_out v)) = S.*2 ∧
  ∃ dispatched, (length dispatched <= 1)%nat ∧
    S.*2 = P.*2 ++ (data_bits <$> v_rxq vp ++ dispatched ++ datas (v_in vp ++ drop n (v_out v))).

(** What the threads of an endpoint were told of the data [S] it sent and [P] it
    popped: every write succeeded, and a thread's writes are its part of [S], in
    order, but for one it may not have been told of yet; what its reads returned is
    its part of [P], in order, but for one data it may not have been given yet. *)
Definition threads_told (plenty : bool) (log : list event) (S P : list (nat * bytes)) : Prop :=
  ∀ tid,
    (∃ done pend, of_thread tid S = done ++ pend ∧ (length pend <= 1)%nat ∧
       wrote tid log = (λ d, (d, true)) <$> done) ∧
    (∃ done pend, of_thread tid P = done ++ pend ∧ (length pend <= 1)%nat ∧
       Forall2 (returned plenty) done (got tid log)).

Lemma dir_promises a h hp v vp n n' o out q pops S P :
  dir a h hp v vp n n' q → v_out v = o ++ out → data_bits <$> datas out = S.*2 →
  q = datas o ++ pops → data_bits <$> pops = P.*2 → promises v vp (length o) n S P.
Proof.
  intros D Hv HS Hq HP. destruct (dir_room _ _ _ _ _ _ _ _ D) as [Hr _].
  pose proof (d_order _ _ _ _ _ _ _ _ D) as Ho.
  unfold inflight in *. rewrite datas_app in *. rewrite length_app in Hr. split; [lia|].
  split; [by rewrite Hv, drop_app_length|].
  exists (datas (hand hp)). split.
  { unfold hand. destruct (g_rx hp) as [|[m|]|]; simpl; try lia. destruct (is_data m); simpl; lia. }
  rewrite <-HS, <-HP, <-fmap_app. f_equal.
  rewrite Hv, datas_app, Hq, <-(assoc_L (++)) in Ho. rewrite Hv.
  by apply app_inv_head in Ho.
Qed.

Lemma tells_threads plenty o o' cs log v q' S P :
  tells plenty o o' cs log v q' S P → threads_told plenty log S P.
Proof.
  intros (_ & _ & Ht) tid. destruct (Ht tid) as [(ds & H1 & H1') (dp & H2 & H2') _].
  split; [exists ds, (sent_of (cs !! tid))|exists dp, (popped_of (cs !! tid))]; split_and!; try done;
    destruct (cs !! tid) as [[]|]; simpl; lia.
Qed.


(** ** A run *)

(** Two endpoints with an open stream: 3 at A, 5 at B. *)
Definition stream0 (sid did : Z) : corpc_stream :=
  mk_stream (Fifo.mk_ccfifo rxq_memory 8 0 0 0) corpc_stream_established sid did 8.
Definition endpoint0 (sid did : Z) : endpoint :=
  mk_world (Some (mk_channel (Some (mk_qlink [] [])) (CcArray.arr [0%nat] (replicate 255 0%nat)) None 1
                    false corpc_channel_state_established))
    {[ 0%nat := stream0 sid did ]} 1 0 None.
Definition app0 : application qlink := mk_application (λ _ _, Ret ()) None None None None.
Definition pair0 : pair := mk_pair (endpoint0 3 5) (endpoint0 5 3) 0 0.

Lemma pair0_opened : opened (mk_ends 0 3 5) (mk_ends 0 5 3) pair0.
Proof.
  assert (∀ sid did, repr (mk_ends 0 sid did) (endpoint0 sid did) (mk_view [] [] 8 [] false)) as Hr.
  { intros sid did. eexists _, _. split; try reflexivity; [by exists (replicate 255 0%nat)|].
    by apply (Fifo.ccfifo_init_wf rxq_memory 8 (Fifo.mk_ccfifo [] 0 0 0 0)). }
  exists [], []. split_and!; [apply Hr|apply Hr|done|done].
Qed.

(** A writes, the network delivers, B's channel dispatches and B reads. *)
Definition writer0 : proc told unit :=
  do b ← lift true (corpc_stream_write 0 [1; 2; 3]); exec note (Wrote 0 [1; 2; 3] b); Ret ().
Definition reader0 : proc told unit :=
  do r ← lift true (corpc_stream_read 0); exec note (GotData 1 r); Ret ().

Definition exec_network (ab : bool) (c : system) : option system :=
  let p := c.1 in
  p' ← (if ab then m ← sent_by (p_a p) !! p_n p;
                   Some (mk_pair (p_a p) (arrive m (p_b p)) (Datatypes.S (p_n p)) (p_n' p))
        else m ← sent_by (p_b p) !! p_n' p;
             Some (mk_pair (arrive m (p_a p)) (p_b p) (p_n p) (Datatypes.S (p_n' p))));
  Some (p', c.2).

Lemma exec_network_sound ab c c' : exec_network ab c = Some c' → network c c'.
Proof.
  unfold exec_network. destruct c as [p logs]. destruct ab; simpl.
  - destruct (sent_by (p_a p) !! p_n p) eqn:E; [|done]. intros [= <-]. split; [by constructor|done].
  - destruct (sent_by (p_b p) !! p_n' p) eqn:E; [|done]. intros [= <-]. split; [by constructor|done].
Qed.

Definition clients0 : list (site * proc told unit) := [(SideA, writer0); (SideB, reader0)].
Definition start0 : system * list (site * proc told unit) :=
  ((pair0, ([], [])), channel_threads true app0 5 ++ clients0).

(** A takes the lock, sends, counts, releases, is told; the network; B's channel
    receives, queues; B reads, takes the lock, acknowledges, releases, returns; the
    network; A's channel receives and counts. *)
Definition schedule0 : list action :=
  [RunThread 2 true; RunThread 2 true; RunThread 2 true; RunThread 2 true; RunThread 2 true; RunEnv true;
   RunThread 1 true; RunThread 1 true;
   RunThread 3 true; RunThread 3 true; RunThread 3 true; RunThread 3 true; RunThread 3 true; RunEnv false;
   RunThread 0 true; RunThread 0 true].

Definition after0 : system * list (site * proc told unit) :=
  default start0 (run_schedule told_at set_told exec_network schedule0 start0).

