(* ===== verification/CorpcStreams.v ===== *)
(** The life of a stream: what each handler of [src/corpc/corpc-channel.c] does
    when no other thread interferes, on every branch.  A request is answered
    exactly once, and leaves a stream behind only when the answer is OK
    ([request_answered]); a response settles the stream that waits for it
    ([responce_settles]); closing a stream frees it, and the channel with it when
    nothing else holds it ([close_stream_frees]). *)

From S2P Require Import Prelude CcFifo CcArray CorpcProto Threads CorpcChannel CorpcFlow.

Open Scope Z_scope.

(** ** The channel and its streams *)

(** The endpoint has an established channel whose write lock is free and whose
    streams are at the addresses [ls]. *)
Record chan_at {S} (w : world S) (c : corpc_channel S) (q : S) (ls : list loc) : Prop := {
  ca_chan : w_chan w = Some c;
  ca_state : ch_state c = corpc_channel_state_established;
  ca_lock : write_lock c = false;
  ca_sock : ssl_sock c = Some q;
  ca_streams : CcArray.holds 256 (streams c) ls;
}.

(** Over any connection, whether or not it takes what is sent. *)
Section Requests.
Context {S : Type} `{MsgLink S}.
Implicit Types (w : world S) (c : corpc_channel S) (q : S).

(** The endpoint after sending a message. *)
Definition posted (msg : comsg) (w : world S) : world S :=
  match upd_channel (λ c, set_sock ((λ q, (ml_send msg q).2) <$> ssl_sock c) c) w with
  | Go _ w' => w'
  | _ => w
  end.

Lemma posted_chan msg w c q ls :
  chan_at w c q ls →
  let c' := set_sock (Some (ml_send msg q).2) c in
  posted msg w = mk_world (Some c') (w_heap w) (w_next w) (w_gsid w) (w_errno w) ∧
  chan_at (posted msg w) c' (ml_send msg q).2 ls.
Proof.
  intros []. unfold posted, upd_channel. rewrite ca_chan0, ca_sock0. simpl. split; [done|by split].
Qed.

(** Taking the write lock, sending and giving it back. *)
Lemma run_locked_send {A} ch (body : sec (world S) bool) (k : bool → proc (world S) A) w c q ls msg :
  chan_at w c q ls →
  (∀ w1 c1 q1, w_chan w1 = Some c1 → ssl_sock c1 = Some q1 → w_heap w1 = w_heap w →
     body w1 = link_send msg w1) →
  run ch (pbind (do locked ← acquire_write_lock None (-1);
                 if (locked : bool) then
                   do fok ← crit body; exec release_write_lock locked; Ret fok
                 else Ret false) k) w = run ch (k (ml_send msg q).1) (posted msg w).
Proof.
  intros Hc Hb. destruct (posted_chan msg w c q ls Hc) as [-> _]. destruct Hc.
  unfold acquire_write_lock. change (-1 <? 0) with true. cbn [crit pbind run].
  assert (acquire_section None (-1) false w =
    Go true (mk_world (Some (set_write_lock true c)) (w_heap w) (w_next w) (w_gsid w) (w_errno w))) as ->.
  { unfold acquire_section, mbind, sec_bind, mret, sec_ret, channel, corpc_channel_established.
    rewrite ca_chan0. rewrite bool_decide_true by done. rewrite ca_lock0. simpl.
    unfold upd_channel. by rewrite ca_chan0. }
  cbn [pbind run]. rewrite (Hb _ (set_write_lock true c) q) by done.
  unfold link_send, mbind, sec_bind, channel, upd_channel. simpl. rewrite ca_sock0. simpl.
  destruct (ml_send msg q) as [fok q']. cbn [fst snd w_chan].
  cbn [pbind run crit]. do 3 f_equal. unfold set_write_lock, set_sock. simpl. by rewrite ca_lock0.
Qed.

(** The array of the streams. *)
Lemma holds_size (a : CcArray.ccarray loc) ls :
  CcArray.holds 256 a ls →
  CcArray.ccarray_size (Some a) = length ls ∧ CcArray.ccarray_capacity (Some a) = 256%nat ∧
  (length ls ≤ 256)%nat.
Proof.
  intros (k & -> & Hk)%CcArray.holds_inv. rewrite Hk. unfold CcArray.arr. simpl. lia.
Qed.

Lemma holds_push (a : CcArray.ccarray loc) ls l :
  CcArray.holds 256 a ls → (length ls < 256)%nat →
  CcArray.holds 256 (CcArray.ccarray_push_back l a).2 (ls ++ [l]).
Proof.
  intros (k & -> & Hk)%CcArray.holds_inv Hl. destruct k as [|y k]; [simpl in Hk; lia|].
  rewrite CcArray.ccarray_push_back_room. apply CcArray.holds_arr'.
  rewrite length_app. simpl in *. lia.
Qed.

Lemma index_of_middle (ls ls' : list loc) l :
  l ∉ ls → CcArray.index_of l (ls ++ l :: ls') = length ls.
Proof.
  intros Hl. unfold CcArray.index_of. rewrite list_find_app_r.
  - simpl. rewrite decide_True by (by rewrite bool_decide_true). simpl. lia.
  - apply list_find_None, Forall_forall. intros x Hx He.
    apply Is_true_true, bool_decide_eq_true in He. by subst.
Qed.

(** Erasing a stream that is there once. *)
Lemma holds_erase (a : CcArray.ccarray loc) ls ls' l :
  CcArray.holds 256 a (ls ++ l :: ls') → l ∉ ls →
  CcArray.holds 256 (CcArray.ccarray_erase_item l a).2 (ls ++ ls').
Proof.
  intros Hh Hl. pose proof (CcArray.astep_refines 256 (CcArray.EraseItem l) a _ Hh) as Hr.
  cbn [CcArray.astep CcArray.aspec CcArray.rel_result] in Hr.
  destruct (CcArray.ccarray_erase_item l a) as [p a']. destruct Hr as [_ Hr].
  rewrite (index_of_middle ls ls' l Hl), delete_middle in Hr. exact Hr.
Qed.

(** ** A request for a stream *)

(** The service and the method the names of a request designate. *)
Definition designated (ss : list corpc_service) (sl ml : Z) (pack : bytes) :
    corpc_service_method + create_stream_responce_code :=
  match copy_name pack 0 sl, copy_name pack sl ml with
  | Some service_name, Some method_name =>
    match find_service service_name ss with
    | None => inr create_stream_responce_no_service
    | Some service =>
      match find_method method_name (s_methods service) with
      | None => inr create_stream_responce_no_method
      | Some method => inl method
      end
    end
  | _, _ => inr create_stream_responce_internal_error
  end.

(** What a request is answered: [n] streams are open, and the allocations of the
    stream, of its queue and of the thread's argument and the scheduling of the
    thread succeed or not. *)
Definition answer (ss : option (list corpc_service)) (sl ml : Z) (pack : bytes) (n : nat)
    (alloc alloc_rxq alloc_arg scheduled : bool) : corpc_service_method + create_stream_responce_code :=
  match ss with
  | None => inr create_stream_responce_no_service
  | Some ss =>
    match designated ss sl ml pack with
    | inr status => inr status
    | inl method =>
      if (256 <=? n)%nat then inr create_stream_responce_no_stream_resources
      else if alloc && alloc_rxq && alloc_arg && scheduled then inl method
      else inr create_stream_responce_internal_error
    end
  end.

(** The stream a request that is granted creates. *)
Definition granted (gsid did rwnd : Z) : corpc_stream :=
  mk_stream (Fifo.mk_ccfifo rxq_memory 8 0 0 0) corpc_stream_established (u16 (gsid + 1)) did rwnd.

Lemma lookup_section_designated w c q ls sl ml pack :
  chan_at w c q ls → 0 <= sl → 0 <= ml → services c = None ∨ sl + ml <= zlen pack →
  lookup_section sl ml pack w =
  Go (match services c with
      | None => inr create_stream_responce_no_service
      | Some ss => designated ss sl ml pack
      end) w.
Proof.
  intros [] Hsl Hml Hfit. unfold lookup_section, mbind, sec_bind, channel. rewrite ca_chan0.
  destruct (services c) as [ss|]; [|done]. destruct Hfit as [Hfit|Hfit]; [done|]. unfold designated.
  assert (∀ pos len, pos + len <= zlen pack → is_Some (copy_name pack pos len)) as Hn.
  { intros pos len Hl. unfold copy_name. bool_cases.
    generalize (take (Z.to_nat len) (drop (Z.to_nat pos) pack)). intros l.
    induction l as [|x l [s Hs]]; [by eexists|]. simpl. destruct (x =? 0); [by eexists|].
    rewrite Hs. by eexists. }
  destruct (Hn 0 sl) as [sn ->]; [lia|]. destruct (Hn sl ml) as [mn ->]; [lia|].
  destruct (find_service sn ss) as [sv|]; [|done]. by destruct (find_method mn (s_methods sv)).
Qed.

(** Lengths that do not fit the message: the names are read past it. *)
Lemma lookup_section_past w c q ls sl ml pack :
  chan_at w c q ls → 0 <= sl → services c ≠ None → zlen pack < sl + ml →
  lookup_section sl ml pack w = Fault.
Proof.
  intros [] Hsl Hss Hfit. unfold lookup_section, mbind, sec_bind, channel. rewrite ca_chan0.
  destruct (services c) as [ss|]; [|done].
  assert (copy_name pack sl ml = None) as ->. { unfold copy_name. by bool_cases. }
  by destruct (copy_name pack 0 sl).
Qed.

(** The lines after [end:]: the answer is sent, then the stream is established,
    or erased and freed. *)
Lemma request_end_none {A} ch did status (k : bool → proc (world S) A) w c q ls :
  chan_at w c q ls →
  run ch (pbind (request_end None 0 did status) k) w =
  run ch (k true)
    (posted (mk_comsg 0 did (CreateStreamResponce (create_stream_responce_value status) 0)) w).
Proof.
  intros Hc. unfold request_end. cbn [crit pbind run mret sec_ret].
  unfold send_create_stream_responce. rewrite run_assoc.
  rewrite (run_locked_send ch _ _ w c q ls _ Hc (λ _ _ _ _ _ _, eq_refl)). done.
Qed.

Lemma request_end_some {A} ch l sid did status (k : bool → proc (world S) A) w c q ls s :
  chan_at w c q ls → w_heap w !! l = Some s →
  run ch (pbind (request_end (Some l) sid did status) k) w =
  match (match status with
         | create_stream_responce_ok => corpc_set_stream_state l corpc_stream_established
         | _ => _ ← erase_stream l; corpc_stream_destroy l
         end)
          (posted (mk_comsg sid did
                     (CreateStreamResponce (create_stream_responce_value status) (srwnd (Some s)))) w)
  with
  | Go _ w' => run ch (k true) w'
  | Wait => Blocked (posted (mk_comsg sid did
                     (CreateStreamResponce (create_stream_responce_value status) (srwnd (Some s)))) w)
  | Fault => Undefined
  end.
Proof.
  intros Hc Hs. unfold request_end. cbn [crit pbind run].
  assert (∀ (f : corpc_stream → Z), (s ← deref l; mret (f s)) w = Go (f s) w) as ->.
  { intros f. unfold mbind, sec_bind, deref. by rewrite Hs. }
  unfold send_create_stream_responce. rewrite run_assoc.
  by rewrite (run_locked_send ch _ _ w c q ls _ Hc (λ _ _ _ _ _ _, eq_refl)).
Qed.

(** The accepting section, when there is room and memory. *)
Lemma accept_section_goes w c q ls did rwnd a r :
  chan_at w c q ls →
  (256 ≤ length ls)%nat ∧
    accept_section did rwnd a r w = Go (inr create_stream_responce_no_stream_resources) w ∨
  (length ls < 256)%nat ∧ a && r = false ∧ (∃ w',
    accept_section did rwnd a r w = Go (inr create_stream_responce_internal_error) w' ∧
    chan_at w' c q ls ∧ w_heap w' = w_heap w) ∨
  (length ls < 256)%nat ∧ a && r = true ∧
    let s := mk_stream (Fifo.mk_ccfifo rxq_memory 8 0 0 0) corpc_stream_opening (u16 (w_gsid w + 1)) did rwnd in
    let c' := set_streams (CcArray.ccarray_push_back (w_next w) (streams c)).2 c in
    accept_section did rwnd a r w =
      Go (inl (w_next w)) (mk_world (Some c') (<[w_next w := s]> (w_heap w)) (Datatypes.S (w_next w))
                             (u16 (w_gsid w + 1)) (w_errno w)) ∧
    CcArray.holds 256 (streams c') (ls ++ [w_next w]).
Proof.
  intros []. unfold accept_section, mbind, mret, sec_bind, sec_ret, channel. rewrite ca_chan0.
  unfold streams_full. destruct (holds_size _ _ ca_streams0) as (-> & -> & Hle).
  destruct (Nat.leb_spec 256 (length ls)) as [Hf|Hf]; [by left|right].
  unfold gensid, corpc_stream_new. destruct a, r; cbn [negb andb].
  2-4: left; split; [done|]; split; [done|]; eexists; split; [reflexivity|]; by split.
  right. split; [done|]. split; [done|]. cbn zeta. split; [|by apply holds_push].
  unfold push_stream, upd_channel. simpl. by rewrite ca_chan0.
Qed.

(** A request whose stream was accepted: the thread starts and the stream is
    established, or the stream is erased again. *)
Lemma request_accepted app w c q ls did rwnd method (t sched : bool) :
  chan_at w c q ls → w_heap w !! w_next w = None → w_next w ∉ ls →
  let replied sid status credit :=
    (ml_send (mk_comsg sid did (CreateStreamResponce status credit)) q).2 in
  let s := mk_stream (Fifo.mk_ccfifo rxq_memory 8 0 0 0) corpc_stream_opening (u16 (w_gsid w + 1)) did rwnd in
  let c1 := set_streams (CcArray.ccarray_push_back (w_next w) (streams c)).2 c in
  let w1 := mk_world (Some c1) (<[w_next w := s]> (w_heap w)) (Datatypes.S (w_next w))
              (u16 (w_gsid w + 1)) (w_errno w) in
  CcArray.holds 256 (streams c1) (ls ++ [w_next w]) →
  let result := run [t; sched]
    (do started ← start_service_method_thread app (w_next w) method;
     if negb started then request_end (Some (w_next w)) 0 did create_stream_responce_internal_error
     else do s ← crit (deref (w_next w));
          request_end (Some (w_next w)) (st_sid s) did create_stream_responce_ok) w1 in
  match (if t && sched then inl method else inr create_stream_responce_internal_error) with
  | inl method => ∃ w' c',
      result = Done true w' [service_method_wrapper_thread app (w_next w) method] ∧
      chan_at w' c' (replied (u16 (w_gsid w + 1)) 0 8) (ls ++ [w_next w]) ∧
      w_heap w' = <[w_next w := granted (w_gsid w) did rwnd]> (w_heap w)
  | inr status => ∃ w' c' credit,
      result = Done true w' [] ∧
      chan_at w' c' (replied 0 (create_stream_responce_value status) credit) ls ∧
      w_heap w' = w_heap w
  end.
Proof.
  intros [] Hfresh Hnext replied s c1 w1 Hst result.
  assert (chan_at w1 c1 q (ls ++ [w_next w])) as H1 by (by split).
  assert (w_heap w1 !! w_next w = Some s) as Hs1 by apply lookup_insert_eq.
  assert (∀ ch, ∃ w' c' credit,
    run ch (request_end (Some (w_next w)) 0 did create_stream_responce_internal_error) w1 = Done true w' [] ∧
    chan_at w' c' (replied 0 (create_stream_responce_value create_stream_responce_internal_error) credit) ls ∧
    w_heap w' = w_heap w) as Hfail.
  { intros ch. rewrite <-run_ret_r, (request_end_some _ _ _ _ _ _ _ _ _ _ _ H1 Hs1).
    rewrite (proj1 (posted_chan _ w1 c1 q _ H1)).
    unfold erase_stream, corpc_stream_destroy, mbind, sec_bind, upd_channel, deref. simpl.
    rewrite lookup_insert_eq. simpl. eexists _, _, (srwnd (Some s)). split; [reflexivity|]. split.
    - pose proof (holds_erase _ ls [] _ Hst Hnext) as He. rewrite app_nil_r in He. split; [reflexivity|done|done|reflexivity|exact He].
    - simpl. by apply delete_insert_id. }
  unfold result, start_service_method_thread.
  destruct t; cbn [choose pbind run negb andb]; [|apply Hfail].
  destruct sched; cbn [choose pbind run negb andb]; [|apply Hfail].
  cbn [crit pbind run]. unfold deref. rewrite Hs1. cbn [run].
  rewrite <-run_ret_r, (request_end_some _ _ _ _ _ _ _ _ _ _ _ H1 Hs1).
  rewrite (proj1 (posted_chan _ w1 c1 q _ H1)).
  unfold corpc_set_stream_state, upd_stream. simpl. rewrite lookup_insert_eq. simpl.
  do 2 eexists. split; [reflexivity|]. split; [by split|]. simpl. by rewrite insert_insert_eq.
Qed.

End Requests.

(** C3: a request for a stream is answered by exactly one response, over any
    connection, whether or not it takes the response; no other thread of the
    endpoint runs meanwhile.  When the names designate a method, fewer than 256
    streams are open and memory and threads can be had, the answer is OK with the
    window of an empty queue; there is one more stream, established, with the next
    id, the id and the window of the peer, and the method's thread is started on
    it.  Otherwise the answer says why, and the streams and the heap are what they
    were.  This is so when the lengths of the names fit the message, or the channel
    has no services and does not look at them; when they do not fit, which the code
    does not check, the names are read past the end of the message. *)
Theorem request_answered {S} `{MsgLink S} (app : application S) (w : world S) (c : corpc_channel S)
    (q : S) (ls : list loc) (did rwnd sl ml : Z) (pack : bytes) (a r t sched : bool)
    (Hchan : chan_at w c q ls) (Hfresh : w_heap w !! w_next w = None) (Hnext : w_next w ∉ ls)
    (Hsl : 0 <= sl) (Hml : 0 <= ml) :
  let result := run [a; r; t; sched] (on_create_stream_request app did rwnd sl ml pack) w in
  let replied sid status credit :=
    (ml_send (mk_comsg sid did (CreateStreamResponce status credit)) q).2 in
  (services c = None ∨ sl + ml <= zlen pack →
    match answer (services c) sl ml pack (length ls) a r t sched with
    | inl method => ∃ w' c',
        result = Done true w' [service_method_wrapper_thread app (w_next w) method] ∧
        chan_at w' c' (replied (u16 (w_gsid w + 1)) 0 8) (ls ++ [w_next w]) ∧
        w_heap w' = <[w_next w := granted (w_gsid w) did rwnd]> (w_heap w)
    | inr status => ∃ w' c' credit,
        result = Done true w' [] ∧
        chan_at w' c' (replied 0 (create_stream_responce_value status) credit) ls ∧
        w_heap w' = w_heap w
    end) ∧
  (services c ≠ None → zlen pack < sl + ml → result = Undefined).
Proof.
  intros result replied. split.
  2:{ intros Hs Hfit. unfold result, on_create_stream_request. cbn [crit pbind run].
      by rewrite (lookup_section_past _ _ _ _ _ _ _ Hchan). }
  intros Hfit.
  assert (∀ ch w1 c1 status, chan_at w1 c1 q ls → w_heap w1 = w_heap w →
    ∃ w' c' credit, run ch (request_end None 0 did status) w1 = Done true w' [] ∧
      chan_at w' c' (replied 0 (create_stream_responce_value status) credit) ls ∧
      w_heap w' = w_heap w) as Hnone.
  { intros ch w1 c1 status H1 Hh. rewrite <-run_ret_r, (request_end_none _ _ _ _ _ _ _ _ H1).
    destruct (posted_chan (mk_comsg 0 did (CreateStreamResponce (create_stream_responce_value status) 0))
                w1 c1 q ls H1) as [He Hc]. do 3 eexists. split; [reflexivity|].
    split; [exact Hc|]. rewrite He. exact Hh. }
  unfold result, on_create_stream_request. cbn [crit pbind run].
  rewrite (lookup_section_designated _ _ _ _ _ _ _ Hchan) by done. unfold answer.
  destruct (services c) as [ss|]; [|by eapply Hnone].
  destruct (designated ss sl ml pack) as [method|status]; [|by eapply Hnone].
  unfold accept_stream. cbn [choose crit pbind run].
  destruct (accept_section_goes w c q ls did rwnd a r Hchan) as [[Hf ->]|[(Hf & Har & w1 & -> & H1 & Hh)|(Hf & Har & -> & Hst)]].
  - destruct (Nat.leb_spec 256 (length ls)); [|lia]. by eapply Hnone.
  - destruct (Nat.leb_spec 256 (length ls)); [lia|]. rewrite Har. by eapply Hnone.
  - destruct (Nat.leb_spec 256 (length ls)); [lia|]. rewrite Har. cbn [andb].
    apply request_accepted; done.
Qed.

(** ** Finding a stream *)

Lemma find_loop_first (w : endpoint) (a : CcArray.ccarray loc) ls1 l ls2 s : ∀ i n,
  drop i (CcArray.a_items a) = ls1 ++ l :: ls2 → (length ls1 < n)%nat → w_heap w !! l = Some s →
  (∀ l', l' ∈ ls1 → ∃ s', w_heap w !! l' = Some s' ∧ st_sid s' ≠ st_sid s) →
  find_loop (st_sid s) a i n w = Go (Some l) w.
Proof.
  induction ls1 as [|l1 ls1 IH]; intros i n Hd Hn Hl Hne; destruct n as [|n]; try (simpl in Hn; lia);
    cbn [find_loop]; unfold CcArray.ccarray_peek;
    rewrite <-(Nat.add_0_r i), <-lookup_drop, Hd; cbn [app lookup list_lookup];
    unfold mbind, sec_bind, deref.
  - rewrite Hl, Z.eqb_refl. done.
  - destruct (Hne l1) as (s1 & -> & Hs1); [by left|]. rewrite (proj2 (Z.eqb_neq _ _) Hs1).
    rewrite Nat.add_0_r. apply IH; [|simpl in Hn; lia|done|intros; apply Hne; by right].
    rewrite <-Nat.add_1_r, <-drop_drop, Hd. done.
Qed.

Lemma find_loop_none (w : endpoint) (a : CcArray.ccarray loc) sid ls k : ∀ i,
  drop i (CcArray.a_items a) = ls ++ k →
  (∀ l', l' ∈ ls → ∃ s', w_heap w !! l' = Some s' ∧ st_sid s' ≠ sid) →
  find_loop sid a i (length ls) w = Go None w.
Proof.
  induction ls as [|l1 ls IH]; intros i Hd Hne; [done|]. cbn [length find_loop].
  unfold CcArray.ccarray_peek. rewrite <-(Nat.add_0_r i), <-lookup_drop, Hd.
  cbn [app lookup list_lookup]. unfold mbind, sec_bind, deref.
  destruct (Hne l1) as (s1 & -> & Hs1); [by left|]. rewrite (proj2 (Z.eqb_neq _ _) Hs1).
  rewrite Nat.add_0_r. apply IH; [|intros; apply Hne; by right].
  rewrite <-Nat.add_1_r, <-drop_drop, Hd. done.
Qed.

(** No stream of [ls] has this id. *)
Definition no_sid (w : endpoint) (ls : list loc) (sid : Z) : Prop :=
  ∀ l, l ∈ ls → ∃ s, w_heap w !! l = Some s ∧ st_sid s ≠ sid.

Lemma find_stream_first w c q ls1 l ls2 s :
  chan_at w c q (ls1 ++ l :: ls2) → w_heap w !! l = Some s → no_sid w ls1 (st_sid s) →
  find_stream_by_sid (st_sid s) w = Go (Some l) w.
Proof.
  intros [] Hl Hne. unfold find_stream_by_sid, mbind, sec_bind, channel. rewrite ca_chan0.
  destruct (holds_size _ _ ca_streams0) as (-> & _ & _).
  apply CcArray.holds_inv in ca_streams0 as (k & -> & _).
  apply (find_loop_first w _ ls1 l (ls2 ++ k) s); [|rewrite length_app; simpl; lia|done|done].
  simpl. by rewrite <-(assoc_L (++)).
Qed.

Lemma find_stream_none w c q ls sid :
  chan_at w c q ls → no_sid w ls sid → find_stream_by_sid sid w = Go None w.
Proof.
  intros [] Hne. unfold find_stream_by_sid, mbind, sec_bind, channel. rewrite ca_chan0.
  destruct (holds_size _ _ ca_streams0) as (-> & _ & _).
  apply CcArray.holds_inv in ca_streams0 as (k & -> & _). by apply (find_loop_none w _ sid ls k).
Qed.

(** ** The response to a request *)

(** The stream after a response. *)
Definition settled (s : corpc_stream) (hdr_sid status rwnd : Z) : corpc_stream :=
  set_state (responce_state status)
    (if status =? 0 then set_rwnd rwnd (set_did hdr_sid s) else s).

(** A response settles the stream that waits for it: with status OK the stream
    is established with the peer's id and window, else it gets the state of the
    error; a status that is none of the protocol's ends the channel, as does a
    response for a stream that is not there; a response to a stream that does not
    wait changes nothing. *)
Theorem responce_settles (w : endpoint) (c : corpc_channel qlink) (q : qlink)
    (ls1 ls2 : list loc) (l : loc) (s : corpc_stream) (hdr_sid hdr_did status rwnd : Z)
    (Hchan : chan_at w c q (ls1 ++ l :: ls2)) (Hl : w_heap w !! l = Some s)
    (Hfirst : no_sid w ls1 (st_sid s)) :
  (hdr_did = st_sid s → st_state s = corpc_stream_opening →
    on_create_stream_responce hdr_sid hdr_did status rwnd w =
    Go (bool_decide (0 <= status <= 4))
       (mk_world (Some c) (<[l := settled s hdr_sid status rwnd]> (w_heap w)) (w_next w) (w_gsid w)
          (if bool_decide (0 <= status <= 4) then w_errno w else Some EPROTO))) ∧
  (hdr_did = st_sid s → st_state s ≠ corpc_stream_opening →
    on_create_stream_responce hdr_sid hdr_did status rwnd w = Go true w) ∧
  (no_sid w (ls1 ++ l :: ls2) hdr_did →
    on_create_stream_responce hdr_sid hdr_did status rwnd w =
    Go false (mk_world (Some c) (w_heap w) (w_next w) (w_gsid w) (Some EPROTO))).
Proof.
  unfold on_create_stream_responce, mbind, mret, sec_bind, sec_ret. split_and!.
  - intros -> Hop. rewrite (find_stream_first w c q ls1 l ls2 s) by done. unfold deref. rewrite Hl.
    rewrite bool_decide_false by (intros Hn; by apply Hn). unfold corpc_set_stream_state, settled.
    assert (bool_decide (0 <= status <= 4) =
            negb (bool_decide (responce_state status = corpc_stream_protocol_error))) as ->.
    { unfold responce_state. repeat case_bool_decide; bool_cases; try done; lia. }
    destruct Hchan.
    destruct (Z.eqb_spec status 0) as [->|Hne]; unfold upd_stream; rewrite Hl; simpl;
      rewrite ?lookup_insert_eq, ?Hl; simpl; rewrite ?insert_insert_eq, ca_chan0.
    + done.
    + by destruct (bool_decide (responce_state status = corpc_stream_protocol_error)).
  - intros -> Hop. rewrite (find_stream_first w c q ls1 l ls2 s) by done. unfold deref. rewrite Hl.
    by rewrite bool_decide_true.
  - intros Hno. rewrite (find_stream_none w c q _ hdr_did Hchan Hno). destruct Hchan.
    unfold set_errno, modify. by rewrite ca_chan0.
Qed.

(** ** Closing a stream *)

(** Closing a stream tells the peer, takes the stream out of the channel and
    frees it, and frees the channel too exactly when that was its last stream and
    nobody holds a reference to it. *)
Theorem close_stream_frees (w : endpoint) (c : corpc_channel qlink) (q : qlink)
    (ls1 ls2 : list loc) (l : loc) (s : corpc_stream)
    (Hchan : chan_at w c q (ls1 ++ l :: ls2)) (Hl : w_heap w !! l = Some s) (Hfirst : l ∉ ls1) :
  ∃ w', run [] (corpc_close_stream (Some l)) w = Done () w' [] ∧
    w_heap w' = delete l (w_heap w) ∧
    if decide (ls1 ++ ls2 = [] ∧ refs c < 1) then w_chan w' = None
    else ∃ c', refs c' = refs c ∧
      chan_at w' c' (mk_qlink (q_out q ++ [mk_comsg (st_sid s) (st_did s) (CloseStream 0)]) (q_in q))
        (ls1 ++ ls2).
Proof.
  unfold corpc_close_stream, send_close_stream_notify.
  rewrite (run_locked_send [] _ _ w c q _ (mk_comsg (st_sid s) (st_did s) (CloseStream 0)) Hchan).
  2:{ intros w1 c1 q1 H1 H2 Hh. unfold mbind, sec_bind, deref. by rewrite Hh, Hl. }
  set (msg := mk_comsg _ _ _). destruct (posted_chan msg w c q _ Hchan) as [-> H1].
  cbn [crit pbind run]. destruct Hchan.
  pose proof (holds_erase _ ls1 ls2 l ca_streams0 Hfirst) as He.
  unfold erase_stream, corpc_stream_destroy, channel_destroy, no_streams, channel, upd_channel, mbind,
    mret, sec_bind, sec_ret. cbn [w_chan w_heap w_next w_gsid w_errno].
  cbn [streams set_streams set_sock refs ssl_sock write_lock ch_state].
  destruct (holds_size _ _ He) as (-> & _ & _).
  assert ((length (ls1 ++ ls2) <? 1)%nat && (refs c <? 1) =
          bool_decide (ls1 ++ ls2 = [] ∧ refs c < 1)) as ->.
  { apply eq_bool_prop_intro. rewrite bool_decide_spec, andb_True, !Is_true_true.
    rewrite Nat.ltb_lt, Z.ltb_lt. destruct (ls1 ++ ls2); simpl; [|naive_solver lia].
    naive_solver lia. }
  destruct (decide (ls1 ++ ls2 = [] ∧ refs c < 1)) as [Hd|Hd].
  - rewrite bool_decide_true by done. cbn. unfold deref, modify. cbn. rewrite Hl. cbn.
    eexists. split; [done|]. done.
  - rewrite bool_decide_false by done. cbn. unfold deref, modify. cbn. rewrite Hl. cbn.
    eexists. split; [done|]. split; [done|]. eexists. split; [|by split]. done.
Qed.

(** ** Opening a stream, from both ends *)

(** A fresh stream of [corpc_open_stream]. *)
Definition opening (gsid : Z) : corpc_stream :=
  mk_stream (Fifo.mk_ccfifo rxq_memory 8 0 0 0) corpc_stream_opening (u16 (gsid + 1)) 0 0.

(** [corpc_open_stream] adds a stream, sends the request and waits. *)
Lemma open_stream_waits w c q ls service method :
  chan_at w c q ls → (length ls < 256)%nat →
  ∃ w' c',
    run [] (corpc_open_stream service method) w = Blocked w' ∧
    chan_at w' c' (mk_qlink (q_out q ++ [mk_comsg (u16 (w_gsid w + 1)) 0
      (CreateStreamRequest 8 (u16 (zlen service)) (u16 (zlen method)) (service ++ method))]) (q_in q))
      (ls ++ [w_next w]) ∧
    w_heap w' = <[w_next w := opening (w_gsid w)]> (w_heap w).
Proof.
  intros Hc Hroom. pose proof Hc as [].
  set (c1 := set_streams (CcArray.ccarray_push_back (w_next w) (streams c)).2 c).
  set (w1 := mk_world (Some c1) (<[w_next w := opening (w_gsid w)]> (w_heap w)) (Datatypes.S (w_next w))
               (u16 (w_gsid w + 1)) (w_errno w)).
  assert (chan_at w1 c1 q (ls ++ [w_next w])) as H1.
  { split; simpl; try done. by apply holds_push. }
  unfold corpc_open_stream. cbn [crit pbind run].
  assert ((c ← channel; if corpc_channel_established c then mret true
           else _ ← set_errno ENOTCONN; mret false) w = Go true w) as ->.
  { unfold mbind, sec_bind, channel, corpc_channel_established. rewrite ca_chan0.
    by rewrite bool_decide_true. }
  cbn [negb]. unfold create_new_stream. cbn [choose crit pbind run].
  assert (create_section true true w = Go (Some (w_next w)) w1) as ->.
  { unfold create_section, mbind, mret, sec_bind, sec_ret, channel, streams_full. rewrite ca_chan0.
    destruct (holds_size _ _ ca_streams0) as (-> & -> & _).
    destruct (Nat.leb_spec 256 (length ls)); [lia|].
    unfold gensid, corpc_stream_new, push_stream, upd_channel. simpl. by rewrite ca_chan0. }
  cbn [pbind run]. unfold send_create_stream_request.
  rewrite (run_locked_send [] _ _ w1 c1 q _ (mk_comsg (u16 (w_gsid w + 1)) 0
    (CreateStreamRequest 8 (u16 (zlen service)) (u16 (zlen method)) (service ++ method))) H1).
  2:{ intros w2 c2 q2 H2 H3 Hh. unfold mbind, sec_bind, deref. rewrite Hh. simpl.
      by rewrite lookup_insert_eq. }
  destruct (posted_chan (mk_comsg (u16 (w_gsid w + 1)) 0
    (CreateStreamRequest 8 (u16 (zlen service)) (u16 (zlen method)) (service ++ method))) w1 c1 q _ H1)
    as [He H2].
  cbn [crit pbind run ml_send qlink_link fst snd] in *.
  assert (open_wait_section (w_next w) (posted (mk_comsg (u16 (w_gsid w + 1)) 0
    (CreateStreamRequest 8 (u16 (zlen service)) (u16 (zlen method)) (service ++ method))) w1) = Wait) as ->.
  { rewrite He. unfold open_wait_section, mbind, sec_bind, channel, deref, corpc_channel_established.
    simpl. rewrite lookup_insert_eq. simpl. rewrite bool_decide_true by done. done. }
  do 2 eexists. split; [done|]. split; [exact H2|]. by rewrite He.
Qed.

(** The other end grants the request. *)
Lemma request_granted app w c q ls ss did rwnd sl ml pack method :
  chan_at w c q ls → (length ls < 256)%nat → w_heap w !! w_next w = None → w_next w ∉ ls →
  services c = Some ss → designated ss sl ml pack = inl method →
  0 <= sl → 0 <= ml → sl + ml <= zlen pack →
  ∃ w' c',
    run [] (on_create_stream_request app did rwnd sl ml pack) w =
      Done true w' [service_method_wrapper_thread app (w_next w) method] ∧
    chan_at w' c' (mk_qlink (q_out q ++ [mk_comsg (u16 (w_gsid w + 1)) did (CreateStreamResponce 0 8)])
                     (q_in q)) (ls ++ [w_next w]) ∧
    w_heap w' = <[w_next w := granted (w_gsid w) did rwnd]> (w_heap w).
Proof.
  intros Hc Hroom Hfresh Hnext Hss Hd Hsl Hml Hfit. unfold on_create_stream_request.
  cbn [crit pbind run]. rewrite (lookup_section_designated _ _ _ _ _ _ _ Hc), Hss, Hd by (done || by right).
  unfold accept_stream. cbn [choose crit pbind run].
  destruct (accept_section_goes w c q ls did rwnd true true Hc)
    as [[Hf _]|[(_ & Har & _)|(_ & _ & -> & Hst)]]; [lia|done|].
  exact (request_accepted app w c q ls did rwnd method true true Hc Hfresh Hnext Hst).
Qed.

(** An endpoint whose only stream is established, with an empty queue. *)
Lemma chan_at_repr w c out l gsid sid did rwnd :
  chan_at w c (mk_qlink out []) [l] →
  w_heap w !! l = Some (mk_stream (Fifo.mk_ccfifo rxq_memory 8 0 0 0) corpc_stream_established sid did rwnd) →
  sid = u16 (gsid + 1) →
  repr (mk_ends l (u16 (gsid + 1)) did) w (mk_view out [] rwnd [] false).
Proof.
  intros [] Hl ->. eexists _, _. split; try done.
  - simpl. by apply CcArray.holds_inv in ca_streams0 as (k & -> & _); exists k.
  - by apply (Fifo.ccfifo_init_wf rxq_memory 8 (Fifo.mk_ccfifo [] 0 0 0 0)).
Qed.

(** C2: opening a stream.  Over two established channels without streams,
    [corpc_open_stream] sends a request and waits; the other channel grants it,
    starts the method's thread and answers; the response ends the wait, and
    [corpc_open_stream] returns the stream.  Both ends are then as
    [stream_flow_control] starts from: each knows the other's id, and each window is
    the size of the other's empty queue. *)
Theorem stream_handshake (app : application qlink) (wa wb : endpoint) (ca cb : corpc_channel qlink)
    (outa outb : list comsg) (ss : list corpc_service) (service method : bytes) (m : corpc_service_method)
    (Ha : chan_at wa ca (mk_qlink outa []) []) (Hb : chan_at wb cb (mk_qlink outb []) [])
    (Hfresh : w_heap wb !! w_next wb = None) (Hss : services cb = Some ss)
    (Hnames : zlen service < 65536 ∧ zlen method < 65536)
    (Hm : designated ss (zlen service) (zlen method) (service ++ method) = inl m) :
  let sida := u16 (w_gsid wa + 1) in let sidb := u16 (w_gsid wb + 1) in
  ∃ wa1 wa2 wb1 request responce,
    run [] (corpc_open_stream service method) wa = Blocked wa1 ∧
    run [] (dispatch app request) wb =
      Done (true, false) wb1 [service_method_wrapper_thread app (w_next wb) m] ∧
    run [] (dispatch app responce) wa1 = Done (true, false) wa2 [] ∧
    open_wait_section (w_next wa) wa2 = Go true wa2 ∧
    sent_by wa2 = outa ++ [request] ∧ sent_by wb1 = outb ++ [responce] ∧
    opened (mk_ends (w_next wa) sida sidb) (mk_ends (w_next wb) sidb sida)
      (mk_pair wa2 wb1 (length (outa ++ [request])) (length (outb ++ [responce]))).
Proof.
  intros sida sidb.
  destruct (open_stream_waits wa ca _ [] service method Ha) as (wa1 & ca1 & Hrun & Ha1 & Hh1); [simpl; lia|].
  rewrite (uwrap_id 16 (zlen service)), (uwrap_id 16 (zlen method)) in Ha1 by (unfold is_uint; lia).
  set (request := mk_comsg sida 0 (CreateStreamRequest 8 (zlen service) (zlen method) (service ++ method))).
  fold sida in Ha1. fold request in Ha1. cbn [q_out q_in Datatypes.app] in Ha1.
  destruct (request_granted app wb cb _ [] ss sida 8 (zlen service) (zlen method) (service ++ method) m Hb)
    as (wb1 & cb1 & Hgrant & Hb1 & Hhb1); try done; try (rewrite ?length_app; lia).
  { simpl. lia. }
  { apply not_elem_of_nil. }
  cbn [q_out q_in Datatypes.app] in Hb1. fold sidb in Hb1.
  set (responce := mk_comsg sidb sida (CreateStreamResponce 0 8)).
  assert (w_heap wa1 !! w_next wa = Some (opening (w_gsid wa))) as Hst by (rewrite Hh1; apply lookup_insert_eq).
  set (done_stream := set_state corpc_stream_established (set_rwnd 8 (set_did sidb (opening (w_gsid wa))))).
  set (wa2 := mk_world (w_chan wa1) (<[w_next wa := done_stream]> (w_heap wa1)) (w_next wa1) (w_gsid wa1)
                (w_errno wa1)).
  assert (chan_at wa2 ca1 (mk_qlink (outa ++ [request]) []) [w_next wa]) as Ha2 by (by destruct Ha1; split).
  assert (on_create_stream_responce sidb sida 0 8 wa1 = Go true wa2) as Hresp.
  { unfold on_create_stream_responce, mbind, mret, sec_bind, sec_ret.
    change sida with (st_sid (opening (w_gsid wa))).
    rewrite (find_stream_first wa1 ca1 _ [] (w_next wa) [] _ Ha1 Hst) by (intros ? []%elem_of_nil).
    unfold deref. rewrite Hst. simpl. unfold upd_stream, corpc_set_stream_state. rewrite Hst. simpl.
    unfold upd_stream. simpl. by rewrite lookup_insert_eq, insert_insert_eq. }
  exists wa1, wa2, wb1, request, responce. split; [done|]. split_and!.
  - unfold dispatch, request. cbn [m_body m_sid]. by apply (run_bind_done _ _ _ _ _ _ _ _ _ Hgrant).
  - unfold dispatch, responce. cbn [m_body m_sid m_did crit pbind run]. by rewrite Hresp.
  - unfold open_wait_section, mbind, sec_bind, mret, sec_ret, channel, corpc_channel_established, deref.
    rewrite (ca_chan _ _ _ _ Ha2). simpl. rewrite lookup_insert_eq. simpl.
    by rewrite (ca_state _ _ _ _ Ha2).
  - unfold sent_by. rewrite (ca_chan _ _ _ _ Ha2). simpl. by rewrite (ca_sock _ _ _ _ Ha2).
  - unfold sent_by. rewrite (ca_chan _ _ _ _ Hb1). simpl. by rewrite (ca_sock _ _ _ _ Hb1).
  - exists (outa ++ [request]), (outb ++ [responce]). split_and!; try done.
    + eapply chan_at_repr; [exact Ha2|apply lookup_insert_eq|done].
    + eapply chan_at_repr; [exact Hb1| |done]. simpl. rewrite Hhb1. apply lookup_insert_eq.
Qed.

(** ** What the handlers do not guard *)

(** A data message for a stream that is not there: the null pointer of the stream
    that was not found is written to. *)
Lemma data_for_no_stream_faults (w : endpoint) c q ls msg :
  chan_at w c q ls → no_sid w ls (m_did msg) → on_data_message msg w = Fault.
Proof.
  intros Hc Hno. unfold on_data_message, mbind, sec_bind. by rewrite (find_stream_none _ _ _ _ _ Hc Hno).
Qed.

(** A message that arrives after its stream was closed here: a close and an
    acknowledgement are ignored, a response ends the channel's loop with [EPROTO]
    and changes no stream, and a data message is a write through the null pointer
    of the stream that was not found. *)
Theorem late_messages (app : application qlink) (w : endpoint) (c : corpc_channel qlink) (q : qlink)
    (ls : list loc) (msg : comsg)
    (Hchan : chan_at w c q ls) (Hlate : no_sid w ls (m_did msg)) :
  match m_body msg with
  | CreateStreamRequest _ _ _ _ => True
  | CreateStreamResponce _ _ => run [] (dispatch app msg) w =
      Done (false, false) (mk_world (w_chan w) (w_heap w) (w_next w) (w_gsid w) (Some EPROTO)) []
  | CloseStream _ | DataAck => run [] (dispatch app msg) w = Done (true, false) w []
  | Data _ => run [] (dispatch app msg) w = Undefined
  end.
Proof.
  pose proof (find_stream_none _ _ _ _ _ Hchan Hlate) as Hf.
  unfold dispatch. destruct (m_body msg) as [| | | |]; [done|..]; cbn [crit pbind run].
  - unfold on_create_stream_responce, mbind, mret, sec_bind, sec_ret. by rewrite Hf.
  - unfold on_close_stream_notify, mbind, mret, sec_bind, sec_ret. by rewrite Hf.
  - by rewrite (data_for_no_stream_faults _ _ _ _ _ Hchan Hlate).
  - unfold on_data_ack, mbind, mret, sec_bind, sec_ret. by rewrite Hf.
Qed.

(** ** Runs *)

Definition method0 : corpc_service_method := mk_method [109] 7.
Definition services0 : list corpc_service := [mk_service [115] [method0]].
Definition channel0 (ls : list loc) : corpc_channel qlink :=
  mk_channel (Some (mk_qlink [] [])) (CcArray.arr ls (replicate (256 - length ls) 0%nat))
    (Some services0) 0 false corpc_channel_state_established.
(** An endpoint with the streams [ss], at addresses 0, 1, ... *)
Definition host0 (ss : list corpc_stream) (gsid : Z) : endpoint :=
  mk_world (Some (channel0 (seq 0 (length ss)))) (map_seq 0 ss) (length ss) gsid None.

Lemma host0_chan ss gsid :
  (length ss ≤ 256)%nat → chan_at (host0 ss gsid) (channel0 (seq 0 (length ss))) (mk_qlink [] []) (seq 0 (length ss)).
Proof.
  intros Hl. split; try done. apply CcArray.holds_arr'. rewrite length_replicate, length_seq. lia.
Qed.

Lemma request_answered_witness :
  (∃ w' c',
    run [true; true; true; true] (on_create_stream_request app0 5 8 1 1 [115; 109]) (host0 [] 2) =
      Done true w' [service_method_wrapper_thread app0 0 method0] ∧
    chan_at w' c' (mk_qlink [mk_comsg 3 5 (CreateStreamResponce 0 8)] []) [0%nat] ∧
    w_heap w' = <[0%nat := granted 2 5 8]> ∅) ∧
  run [true; true; true; true] (on_create_stream_request app0 5 8 1 1 [115]) (host0 [] 2) = Undefined.
Proof.
  assert (chan_at (host0 [] 2) (channel0 []) (mk_qlink [] []) []) as Hc
    by (apply (host0_chan [] 2); simpl; lia).
  split.
  - refine (proj1 (request_answered app0 (host0 [] 2) (channel0 []) (mk_qlink [] []) [] 5 8 1 1 [115; 109]
             true true true true Hc _ _ _ _) _); [done|apply not_elem_of_nil|lia|lia|by right].
  - refine (proj2 (request_answered app0 (host0 [] 2) (channel0 []) (mk_qlink [] []) [] 5 8 1 1 [115]
             true true true true Hc _ _ _ _) _ _); [done|apply not_elem_of_nil|lia|lia|done|done].
Defined.

(** On a connection that takes nothing the method runs on an established stream of
    which the peer was told nothing. *)
Definition deaf_link : MsgLink qlink :=
  {| ml_send _ q := (false, q); ml_recv _ := None; ml_close q := q |}.
Example answer_lost :
  match run [] (@on_create_stream_request qlink deaf_link app0 5 8 1 1 [115; 109]) (host0 [] 2) with
  | Done true w' [_] => sent_by w' = [] ∧ st_state <$> w_heap w' !! 0%nat = Some corpc_stream_established
  | _ => False
  end.
Proof. by vm_compute. Qed.

Lemma responce_settles_witness :
  on_create_stream_responce 9 3 0 8 (host0 [opening 2] 3) =
  Go true (mk_world (Some (channel0 [0%nat])) (<[0%nat := settled (opening 2) 9 0 8]> (map_seq 0 [opening 2]))
             1 3 None).
Proof.
  destruct (responce_settles (host0 [opening 2] 3) (channel0 [0%nat]) (mk_qlink [] []) [] [] 0%nat (opening 2)
              9 3 0 8) as [H _].
  - apply (host0_chan [opening 2] 3). simpl. lia.
  - done.
  - intros l Hl. by apply not_elem_of_nil in Hl.
  - by apply H.
Defined.

Lemma close_stream_frees_witness :
  ∃ w', run [] (corpc_close_stream (Some 0%nat)) (host0 [granted 2 9 8] 3) = Done () w' [] ∧
    w_heap w' = delete 0%nat (map_seq 0 [granted 2 9 8]) ∧ w_chan w' = None.
Proof.
  apply (close_stream_frees (host0 [granted 2 9 8] 3) (channel0 [0%nat]) (mk_qlink [] []) [] [] 0%nat
           (granted 2 9 8)); [|done|apply not_elem_of_nil].
  apply (host0_chan [granted 2 9 8] 3). simpl. lia.
Defined.

Lemma stream_handshake_witness :
  ∃ wa1 wa2 wb1 request responce,
    run [] (corpc_open_stream [115] [109]) (host0 [] 6) = Blocked wa1 ∧
    run [] (dispatch app0 request) (host0 [] 2) =
      Done (true, false) wb1 [service_method_wrapper_thread app0 0 method0] ∧
    run [] (dispatch app0 responce) wa1 = Done (true, false) wa2 [] ∧
    open_wait_section 0 wa2 = Go true wa2 ∧
    sent_by wa2 = [request] ∧ sent_by wb1 = [responce] ∧
    opened (mk_ends 0 7 3) (mk_ends 0 3 7) (mk_pair wa2 wb1 1 1).
Proof.
  assert (∀ gsid, chan_at (host0 [] gsid) (channel0 []) (mk_qlink [] []) []) as H.
  { intros gsid. apply (host0_chan [] gsid). simpl. lia. }
  apply (stream_handshake app0 (host0 [] 6) (host0 [] 2) (channel0 []) (channel0 []) [] [] services0
           [115] [109] method0 (H 6) (H 2)); done.
Defined.

Lemma late_messages_witness :
  run [] (dispatch app0 (mk_comsg 9 4 (Data [1]))) (host0 [granted 2 9 8] 3) = Undefined.
Proof.
  apply (late_messages app0 (host0 [granted 2 9 8] 3) (channel0 [0%nat]) (mk_qlink [] []) [0%nat]
           (mk_comsg 9 4 (Data [1]))).
  - apply (host0_chan [granted 2 9 8] 3). simpl. lia.
  - intros l Hl. apply list_elem_of_singleton in Hl as ->. by eexists.
Defined.
