(* ===== verification/CoWaiter.v ===== *)
(** The waiters of [src/cothread/co-scheduler.c]: the queue of waiters of a file
    descriptor ([struct iorq]), what the epoll listener does with an event, and
    the walk over a core's waiters that picks the coroutines to resume
    ([walk_waiters_list]). *)

From S2P Require Import Prelude Dll.

Open Scope Z_scope.

(** ** Data *)

Definition EPOLLIN : Z := 1.
Definition EPOLLOUT : Z := 4.
Definition EPOLLERR : Z := 8.
Definition EPOLLHUP : Z := 16.
Definition EPOLLRDHUP : Z := 8192.
Definition UNMASKED_EVENTS : Z := Z.lor EPOLLERR (Z.lor EPOLLHUP EPOLLRDHUP).

Definition MTX_WAKEUP_WAITING : Z := 1.
Definition MTX_WAKEUP_EVENT : Z := 2.
Definition CO_YIELD : Z := 4.

(** [struct io_waiter]; [co] is the address of a coroutine, [None] is [NULL]. *)
Record io_waiter := mk_waiter {
  tmo : Z;
  w_prev : option nat;
  w_next : option nat;
  co : option nat;
  mask : Z;
  events : Z;
  revents : Z;
  flags : Z;
}.

#[export] Instance io_waiter_linked : Linked io_waiter.
Proof.
  refine {| lprev := w_prev; lnext := w_next;
            set_prev p w := mk_waiter (tmo w) p (w_next w) (co w) (mask w) (events w) (revents w) (flags w);
            set_next p w := mk_waiter (tmo w) (w_prev w) p (co w) (mask w) (events w) (revents w) (flags w) |};
    done.
Defined.

Definition set_mask (m : Z) (w : io_waiter) : io_waiter :=
  mk_waiter (tmo w) (w_prev w) (w_next w) (co w) m (events w) (revents w) (flags w).
Definition set_events (ev : Z) (w : io_waiter) : io_waiter :=
  mk_waiter (tmo w) (w_prev w) (w_next w) (co w) (mask w) ev (revents w) (flags w).
Definition set_revents (ev : Z) (w : io_waiter) : io_waiter :=
  mk_waiter (tmo w) (w_prev w) (w_next w) (co w) (mask w) (events w) ev (flags w).
Definition set_flags (f : Z) (w : io_waiter) : io_waiter :=
  mk_waiter (tmo w) (w_prev w) (w_next w) (co w) (mask w) (events w) (revents w) f.

(** The memory of all waiters, by address. *)
Abbreviation waiters := (gmap nat io_waiter).

Definition iowait_io : Z := 0.
Definition iowait_eventfd : Z := 1.

(** [struct iorq] *)
Record iorq := mk_iorq { q_head : option nat; q_tail : option nat; q_so : Z; q_type : Z }.

Definition has (bits x : Z) : bool := negb (Z.land x bits =? 0).

(** ** The queue of a descriptor *)

(** What [!E_CHECK(e)] computes.  The macro has no parentheses around it, so the
    negation applies to its first conjunct only.  The comparison of the head with
    a constant address is left out. *)
Definition not_E_CHECK (e : iorq) : bool :=
  negb ((q_type e =? iowait_io) || (q_type e =? iowait_eventfd)) && (0 <? q_so e) &&
  ((bool_decide (is_Some (q_head e)) && bool_decide (is_Some (q_tail e))) ||
   (bool_decide (q_head e = None) && bool_decide (q_tail e = None))).

(** [None] is the [raise(SIGINT)] of a failed check. *)
Definition epoll_queue (w : option nat) (e : iorq) (st : waiters) : option (iorq * waiters) :=
  if not_E_CHECK e then None
  else
    match w with
    | None => Some (e, st)
    | Some a =>
      let st := alter (set_next None) a st in
      let st := match q_tail e with
                | None => alter (set_prev None) a st
                | Some t => alter (set_next (Some a)) t (alter (set_prev (q_tail e)) a st)
                end in
      let e := mk_iorq (match q_head e with None => Some a | _ => q_head e end) (Some a)
                 (q_so e) (q_type e) in
      if not_E_CHECK e then None else Some (e, st)
    end.

Definition epoll_dequeue (w : option nat) (e : iorq) (st : waiters) : option (iorq * waiters) :=
  match w with
  | None => Some (e, st)
  | Some a =>
    if not_E_CHECK e then None
    else
      let prev := n ← st !! a; w_prev n in
      let next := n ← st !! a; w_next n in
      let tail := if decide (q_tail e = Some a) then prev else q_tail e in
      let st := upd next (set_prev prev) (upd prev (set_next next) st) in
      let head := if decide (q_head e = Some a) then next else q_head e in
      let e := mk_iorq head tail (q_so e) (q_type e) in
      if not_E_CHECK e then None else Some (e, st)
  end.

(** ** The listener *)

(** The visit of one waiter by the loop over [e->head]: [w->events |= ev]. *)
Definition mark (ev : Z) (w : io_waiter) : io_waiter := set_events (Z.lor (events w) ev) w.

(** The loop [for ( w = p; w; w = w->next )] that updates each waiter by [f] and
    counts those that then satisfy [hit]; [fuel] bounds the length of the queue. *)
Fixpoint for_each (fuel : nat) (f : io_waiter → io_waiter) (hit : io_waiter → bool) (p : option nat)
    (c : nat) (st : waiters) : nat * waiters :=
  match fuel, p with
  | S fuel', Some a =>
    match st !! a with
    | None => (c, st)
    | Some w => for_each fuel' f hit (w_next w) (if hit (f w) then S c else c) (<[a := f w]> st)
    end
  | _, _ => (c, st)
  end.

(** [(w->events & w->mask) && w->co] *)
Definition wakes (w : io_waiter) : bool := has (mask w) (events w) && bool_decide (is_Some (co w)).

(** What the listener does with an event on [e]: marks the waiters, and tells
    whether the cores are woken up. *)
Definition listener_event (e : iorq) (ev : Z) (st : waiters) : bool * waiters :=
  let '(c, st) := for_each (size st) (mark ev) wakes (q_head e) 0 st in ((0 <? c)%nat, st).

(** [co_socket_close] on an open descriptor: every waiter of the queue gets all
    the events it waits for. *)
Definition co_socket_close (e : iorq) (st : waiters) : iorq * waiters :=
  if q_so e =? -1 then (e, st)
  else (mk_iorq (q_head e) (q_tail e) (-1) (q_type e),
        (for_each (size st) (λ w, mark (mask w) w) (λ _, false) (q_head e) 0 st).2).

(** ** The walk over a core's waiters *)

Definition INT_MAX : Z := 2147483647.

(** [marked]: the coroutines whose scheduler data is set. *)
Definition add_signaled (a : nat) (w : io_waiter) (c : nat) (cc : list nat) (marked : gset nat)
    (st : waiters) : list nat * gset nat * waiters :=
  let st := <[a := set_events (Z.ldiff (events w) (mask w)) (set_revents (events w) w)]> st in
  if decide (c ∈ marked) then (cc, marked, st) else (cc ++ [c], {[ c ]} ∪ marked, st).

(** The loop of [walk_waiters_list] over the waiters at the addresses [ns]:
    [None] is the [exit(1)] on a waiter whose time is 0, or a waiter that is not
    in memory. *)
Fixpoint walk_loop (ct : Z) (ccmax : nat) (ns : list nat) (cc : list nat) (t : Z) (marked : gset nat)
    (st : waiters) : option (list nat * Z * gset nat * waiters) :=
  match ns with
  | [] => Some (cc, t, marked, st)
  | a :: ns =>
    w ← st !! a;
    match co w with
    | None => walk_loop ct ccmax ns cc t marked st
    | Some c =>
      if has CO_YIELD (flags w) then
        walk_loop ct ccmax ns cc 0 marked (<[a := set_flags (Z.ldiff (flags w) CO_YIELD) w]> st)
      else if has (mask w) (events w) || has MTX_WAKEUP_EVENT (flags w) then
        let '(cc, marked, st) := add_signaled a w c cc marked st in
        if (length cc =? ccmax)%nat then Some (cc, t, marked, st)
        else walk_loop ct ccmax ns cc t marked st
      else if 0 <? tmo w then
        if tmo w <=? ct then
          let '(cc, marked, st) := add_signaled a w c cc marked st in
          if (length cc =? ccmax)%nat then Some (cc, t, marked, st)
          else walk_loop ct ccmax ns cc t marked st
        else walk_loop ct ccmax ns cc (if tmo w - ct <? t then tmo w - ct else t) marked st
      else if tmo w =? 0 then None
      else walk_loop ct ccmax ns cc t marked st
    end
  end.

(** The coroutines to resume, the time to sleep, and the memory. *)
Definition walk_waiters_list (ct : Z) (ccmax : nat) (ns : list nat) (marked : gset nat) (st : waiters) :
    option (list nat * Z * gset nat * waiters) :=
  '(cc, t, marked, st) ← walk_loop ct ccmax ns [] INT_MAX marked st;
  Some (cc, t, marked ∖ list_to_set cc, st).

(** ** The queue is a list *)

(** The descriptor's queue holds the waiters at [l], in order; the head and the
    tail are both null or both not, which is what [E_CHECK] was written to check. *)
Definition queue_holds (e : iorq) (st : waiters) (l : list nat) : Prop :=
  dll st (q_head e) (q_tail e) l ∧ (q_type e = iowait_io ∨ q_type e = iowait_eventfd).

Lemma not_E_CHECK_typed e :
  q_type e = iowait_io ∨ q_type e = iowait_eventfd → not_E_CHECK e = false.
Proof. intros [H|H]; unfold not_E_CHECK; by rewrite H. Qed.

(** What a waiter is but for its links. *)
Definition strip (w : io_waiter) : io_waiter := set_prev None (set_next None w).

Lemma strip_alter (f : io_waiter → io_waiter) a (st : waiters) :
  (∀ w, strip (f w) = strip w) → strip <$> alter f a st = strip <$> st.
Proof.
  intros Hf. apply map_eq. intros b. rewrite !lookup_fmap, lookup_alter. case_decide as Hab; [subst|done].
  destruct (st !! b); simpl; by rewrite ?Hf.
Qed.

Lemma strip_upd p (f : io_waiter → io_waiter) (st : waiters) :
  (∀ w, strip (f w) = strip w) → strip <$> upd p f st = strip <$> st.
Proof. destruct p; simpl; [apply strip_alter|done]. Qed.

(** Queueing appends. *)
Lemma epoll_queue_appends e st l a :
  queue_holds e st l → a ∉ l → is_Some (st !! a) →
  ∃ e' st', epoll_queue (Some a) e st = Some (e', st') ∧ queue_holds e' st' (l ++ [a]) ∧
    q_so e' = q_so e ∧ q_type e' = q_type e ∧ strip <$> st' = strip <$> st.
Proof.
  intros [Hd Ht] Ha [w Hw]. unfold epoll_queue. rewrite not_E_CHECK_typed by done.
  assert (∀ h t so, not_E_CHECK (mk_iorq h t so (q_type e)) = false) as Hnot
    by (intros; by apply not_E_CHECK_typed).
  rewrite Hnot. eexists _, _. split; [reflexivity|]. cbn [q_head q_tail q_so q_type].
  split_and!; [|done|done|].
  - split; [|done]. cbn [q_head q_tail]. apply (dll_append st _ _ (q_tail e)); [done|done|..].
    + destruct (q_tail e) as [t|] eqn:Et.
      * assert (t ≠ a) as Hta by (destruct (dll_tail_some _ _ _ _ Hd) as (l' & h & -> & _); set_solver).
        rewrite lookup_alter_ne, !lookup_alter_eq, Hw by done. by eexists.
      * rewrite !lookup_alter_eq, Hw. by eexists.
    + intros b Hb Hbt. assert (a ≠ b) by set_solver.
      destruct (q_tail e) as [t|]; rewrite !lookup_alter_ne by congruence; done.
    + intros t Et. rewrite Et. assert (t ≠ a) as Hta.
      { rewrite Et in Hd. destruct (dll_tail_some _ _ _ _ Hd) as (l' & h & -> & _). set_solver. }
      by rewrite lookup_alter_eq, !lookup_alter_ne by congruence.
  - destruct (q_tail e); by rewrite !strip_alter.
Qed.

(** Dequeueing removes the waiter. *)
Lemma epoll_dequeue_removes e st l1 a l2 :
  queue_holds e st (l1 ++ a :: l2) →
  ∃ e' st', epoll_dequeue (Some a) e st = Some (e', st') ∧ queue_holds e' st' (l1 ++ l2) ∧
    q_so e' = q_so e ∧ q_type e' = q_type e ∧ strip <$> st' = strip <$> st.
Proof.
  intros [Hd Ht]. unfold epoll_dequeue. rewrite not_E_CHECK_typed by done.
  assert (∀ h t so, not_E_CHECK (mk_iorq h t so (q_type e)) = false) as Hnot
    by (intros; by apply not_E_CHECK_typed).
  rewrite Hnot. eexists _, _. split; [reflexivity|]. cbn [q_head q_tail q_so q_type].
  split_and!; [|done|done|].
  - destruct (dll_lookup _ _ _ _ _ _ Hd) as (n & -> & Hp & Hx). cbn [mbind option_bind].
    change (w_prev n) with (lprev n). change (w_next n) with (lnext n). rewrite Hp, Hx.
    split; [|done]. cbn [q_head q_tail]. apply (dll_unlink st); [done|].
    intros b Hb. rewrite !lookup_upd. repeat case_decide; destruct (st !! b); done.
  - by rewrite !strip_upd.
Qed.

(** The pointers of an empty or non-empty queue. *)
Lemma queue_holds_ends e st l :
  queue_holds e st l → is_Some (q_head e) ↔ is_Some (q_tail e).
Proof.
  intros [(_ & -> & -> & _) _]. rewrite <-!not_eq_None_Some, last_None, head_None. done.
Qed.

(** ** The loops over a queue *)

Definition on_links (f : io_waiter → io_waiter) : Prop :=
  ∀ w, w_prev (f w) = w_prev w ∧ w_next (f w) = w_next w.

(** The waiter at [a] satisfies [hit]. *)
Definition sat (hit : io_waiter → bool) (st : waiters) (a : nat) : bool :=
  match st !! a with Some w => hit w | None => false end.

Lemma for_each_spec f hit hd tl l2 : on_links f → ∀ l1 fuel c st,
  dll st hd tl (l1 ++ l2) → (length l2 ≤ fuel)%nat →
  ∃ st', for_each fuel f hit (head l2) c st =
      ((c + length (List.filter (sat (λ w, hit (f w)) st) l2))%nat, st') ∧
    (∀ b, st' !! b = if decide (b ∈ l2) then f <$> st !! b else st !! b).
Proof.
  intros Hf. induction l2 as [|a l2 IH]; intros l1 fuel c st Hd Hl.
  { exists st. rewrite Nat.add_0_r. by destruct fuel. }
  destruct fuel as [|fuel]; [simpl in Hl; lia|]. cbn [for_each head List.filter].
  destruct (dll_lookup _ _ _ _ _ _ Hd) as (w & Hw & _ & Hn). unfold sat at 1. rewrite Hw.
  change (w_next w) with (lnext w). rewrite Hn.
  assert (<[a := f w]> st = alter f a st) as ->.
  { apply map_eq. intros b. rewrite lookup_insert, lookup_alter. case_decide as Hb; [|done].
    subst. by rewrite Hw. }
  destruct (IH (l1 ++ [a]) fuel (if hit (f w) then S c else c) (alter f a st)) as (st' & -> & Hst).
  { apply dll_alter; [exact Hf|]. by rewrite <-app_assoc. }
  { simpl in Hl. lia. }
  assert (a ∉ l2) as Ha by (destruct Hd as [Hnd _]; no_dup Hnd).
  exists st'. split.
  - f_equal. rewrite (filter_ext_in (sat (λ w, hit (f w)) (alter f a st)) (sat (λ w, hit (f w)) st)).
    + destruct (hit (f w)); simpl; lia.
    + intros b Hb%list_elem_of_In. unfold sat. by rewrite lookup_alter_ne by congruence.
  - intros b. rewrite Hst. destruct (decide (b = a)) as [->|Hb].
    + rewrite decide_False, decide_True by set_solver. by rewrite lookup_alter_eq.
    + rewrite lookup_alter_ne by congruence. repeat case_decide; set_solver.
Qed.

(** A queue is no longer than the memory. *)
Lemma queue_size e st l : queue_holds e st l → (length l ≤ size st)%nat.
Proof.
  intros [(Hnd & _ & _ & Hn) _].
  assert (∀ a, a ∈ l → a ∈ dom st) as Hdom.
  { intros a (l1 & l2 & ->)%list_elem_of_split. destruct (Hn l1 a l2 eq_refl) as (n & Hs & _).
    by apply elem_of_dom. }
  rewrite <-(size_list_to_set (C := gset nat) l Hnd), <-size_dom. apply subseteq_size. set_solver.
Qed.

Lemma sat_iff hit st l :
  (0 < length (List.filter (sat hit st) l))%nat ↔ ∃ a w, a ∈ l ∧ st !! a = Some w ∧ hit w = true.
Proof.
  split.
  - destruct (List.filter (sat hit st) l) as [|a k] eqn:E; [simpl; lia|]. intros _.
    assert (In a (List.filter (sat hit st) l)) as (Ha & Hs)%filter_In by (rewrite E; by left).
    unfold sat in Hs. destruct (st !! a) as [w|] eqn:Hw; [|done]. exists a, w.
    by rewrite list_elem_of_In.
  - intros (a & w & Ha & Hw & Hh). assert (In a (List.filter (sat hit st) l)) as Hin.
    { apply filter_In. rewrite <-list_elem_of_In. unfold sat. by rewrite Hw. }
    destruct (List.filter (sat hit st) l); [done|simpl; lia].
Qed.

Lemma mark_on_links ev : on_links (mark ev).
Proof. done. Qed.

(** The queue after a change that keeps the links. *)
Lemma queue_holds_change e e' st st' l (f : io_waiter → io_waiter) :
  on_links f → (∀ b, st' !! b = if decide (b ∈ l) then f <$> st !! b else st !! b) →
  q_head e' = q_head e → q_tail e' = q_tail e → q_type e' = q_type e →
  queue_holds e st l → queue_holds e' st' l.
Proof.
  intros Hf Hst Hh Ht Hty [(Hnd & H1 & H2 & Hn) Hp]. split; [|by rewrite Hty].
  split; [done|]. rewrite Hh, Ht. split; [done|]. split; [done|].
  intros l1 a l2 ->. destruct (Hn l1 a l2 eq_refl) as (w & Hw & Hp1 & Hp2).
  exists (f w). rewrite Hst, decide_True, Hw by set_solver. destruct (Hf w) as [E1 E2].
  split; [done|]. cbn [lprev lnext io_waiter_linked] in *. by rewrite E1, E2.
Qed.

(** ** What the walk picks *)

(** An event the waiter waits for, a signal, or its time. *)
Definition due (ct : Z) (w : io_waiter) : bool :=
  has (mask w) (events w) || has MTX_WAKEUP_EVENT (flags w) || ((0 <? tmo w) && (tmo w <=? ct)).

Definition yields (w : io_waiter) : bool := has CO_YIELD (flags w).

(** The waiter after the walk visited it. *)
Definition signaled (w : io_waiter) : io_waiter :=
  set_events (Z.ldiff (events w) (mask w)) (set_revents (events w) w).
Definition visited (ct : Z) (w : io_waiter) : io_waiter :=
  match co w with
  | None => w
  | Some _ =>
    if yields w then set_flags (Z.ldiff (flags w) CO_YIELD) w
    else if due ct w then signaled w else w
  end.

(** The coroutine a waiter resumes, and the time until it has to be looked at. *)
Definition resumes (ct : Z) (w : io_waiter) : option nat :=
  if negb (yields w) && due ct w then co w else None.
Definition delay (ct : Z) (w : io_waiter) : option Z :=
  match co w with
  | None => None
  | Some _ =>
    if yields w then Some 0
    else if due ct w then None else if 0 <? tmo w then Some (tmo w - ct) else None
  end.

(** A waiter that waits for time 0 is an application bug. *)
Definition timed (w : io_waiter) : Prop :=
  is_Some (co w) → yields w = false → due 0 w = false → tmo w ≠ 0.

(** The coroutines to resume are those of the waiters seen, once each. *)
Record walked (ct : Z) (ccmax : nat) (st : waiters) (cc0 : list nat) (seen rest cc : list nat)
    (marked : gset nat) (st' : waiters) : Prop := {
  wk_marked : marked = list_to_set cc;
  wk_nodup : NoDup cc;
  wk_max : (length cc <= ccmax)%nat;
  wk_end : rest = [] ∨ length cc = ccmax;
  wk_cc : ∀ c, c ∈ cc ↔ c ∈ cc0 ∨ ∃ a w, a ∈ seen ∧ st !! a = Some w ∧ resumes ct w = Some c;
  wk_st : ∀ b, st' !! b = if decide (b ∈ seen) then visited ct <$> st !! b else st !! b;
}.

Definition delays (ct : Z) (st : waiters) (seen : list nat) : list Z :=
  omap (λ a, st !! a ≫= delay ct) seen.

Lemma delays_agree ct (st st' : waiters) seen :
  (∀ b, b ∈ seen → st' !! b = st !! b) → delays ct st' seen = delays ct st seen.
Proof.
  unfold delays. induction seen as [|b seen IH]; intros Hs; [done|]. cbn.
  rewrite (Hs b) by (by left). rewrite IH; [done|]. intros c Hc. apply Hs. by right.
Qed.

(** [add_signaled] adds the coroutine of a waiter unless it is there. *)
Lemma add_signaled_spec a w c cc st cc1 marked1 st1 :
  NoDup cc → add_signaled a w c cc (list_to_set cc) st = (cc1, marked1, st1) →
  NoDup cc1 ∧ marked1 = list_to_set cc1 ∧ (∀ d, d ∈ cc1 ↔ d ∈ cc ∨ d = c) ∧
  (length cc1 <= S (length cc))%nat ∧ st1 = <[a := signaled w]> st.
Proof.
  intros Hnd. unfold add_signaled, signaled.
  case_decide as Hc; rewrite elem_of_list_to_set in Hc; intros [= <- <- <-].
  - split_and!; try done; [set_solver|lia].
  - split_and!; [|set_solver|set_solver|rewrite length_app; simpl; lia|done].
    apply NoDup_app. split; [done|]. split; [set_solver|apply NoDup_singleton].
Qed.

Lemma walk_loop_spec ct ccmax ns : ∀ cc t st,
  0 <= ct → 0 <= t → NoDup ns → NoDup cc → (length cc < ccmax)%nat →
  (∀ a, a ∈ ns → ∃ w, st !! a = Some w ∧ timed w) →
  ∃ seen rest cc' marked' st',
    walk_loop ct ccmax ns cc t (list_to_set cc) st =
      Some (cc', foldl Z.min t (delays ct st seen), marked', st') ∧
    ns = seen ++ rest ∧ walked ct ccmax st cc seen rest cc' marked' st'.
Proof.
  induction ns as [|a ns IH]; intros cc t st Hct Ht Hnd Hcc Hl Hns.
  { exists [], [], cc, (list_to_set cc), st. split; [done|]. split; [done|].
    split; try done; [lia|by left|]. intros c. split; [by left|].
    intros [?|(a & w & Ha & _)]; [done|by apply not_elem_of_nil in Ha]. }
  apply NoDup_cons in Hnd as [Ha Hnd]. destruct (Hns a) as (w & Hw & Htm); [by left|].
  (* the rest of the walk, on a memory that only changed at [a] *)
  assert (∀ cc1 t1, 0 <= t1 → NoDup cc1 → (length cc1 < ccmax)%nat →
    (∀ c, c ∈ cc1 ↔ c ∈ cc ∨ resumes ct w = Some c) →
    t1 = foldl Z.min t (delays ct st [a]) →
    ∃ seen rest cc' marked' st',
      walk_loop ct ccmax ns cc1 t1 (list_to_set cc1) (<[a := visited ct w]> st) =
        Some (cc', foldl Z.min t (delays ct st seen), marked', st') ∧
      a :: ns = seen ++ rest ∧ walked ct ccmax st cc seen rest cc' marked' st') as Hrest.
  { intros cc1 t1 Ht1 Hcc1 Hl1 Hin Heq.
    assert (∀ b, b ∈ ns → <[a := visited ct w]> st !! b = st !! b) as Hne
      by (intros b Hb; apply lookup_insert_ne; congruence).
    destruct (IH cc1 t1 (<[a := visited ct w]> st)) as (seen & rest & cc' & m' & st' & -> & -> & [? ? ? ? Hw1 Hw2]);
      try done.
    { intros b Hb. rewrite Hne by done. apply Hns. by right. }
    assert (∀ b, b ∈ seen → <[a := visited ct w]> st !! b = st !! b) as Hne'
      by (intros; apply Hne; set_solver).
    exists (a :: seen), rest, cc', m', st'. split_and!; [|done|].
    - do 4 f_equal. unfold delays. rewrite (omap_app _ [a] seen), foldl_app. fold (delays ct st [a]).
      rewrite Heq. f_equal. by apply delays_agree.
    - split; try done.
      + intros c. rewrite Hw1, Hin. split.
        * intros [[?|?]|(b & w' & Hb & Hs & Hr)]; [by left| |].
          -- right. exists a, w. split; [by left|done].
          -- right. exists b, w'. rewrite Hne' in Hs by done. split; [by right|done].
        * intros [?|(b & w' & [->|Hb]%elem_of_cons & Hs & Hr)]; [by left; left| |].
          -- rewrite Hw in Hs. injection Hs as <-. by left; right.
          -- right. exists b, w'. by rewrite Hne'.
      + intros b. rewrite Hw2. destruct (decide (b = a)) as [->|Hb].
        * rewrite decide_False, decide_True, lookup_insert_eq, Hw by set_solver. done.
        * rewrite lookup_insert_ne by done. repeat case_decide; set_solver. }
  (* the visit of [a] *)
  assert (∀ c, co w = Some c → yields w = false → due ct w = true →
    ∃ seen rest cc' marked' st',
      (let '(cc, marked, st) := add_signaled a w c cc (list_to_set cc) st in
       if (length cc =? ccmax)%nat then Some (cc, t, marked, st)
       else walk_loop ct ccmax ns cc t marked st) =
        Some (cc', foldl Z.min t (delays ct st seen), marked', st') ∧
      a :: ns = seen ++ rest ∧ walked ct ccmax st cc seen rest cc' marked' st') as Hsig.
  { intros c Hco Hy Hd.
    assert (visited ct w = signaled w) as Hv by (unfold visited; by rewrite Hco, Hy, Hd).
    assert (resumes ct w = Some c) as Hres by (unfold resumes; by rewrite Hy, Hd).
    assert (delays ct st [a] = []) as Hdel by (unfold delays, delay; simpl; by rewrite Hw; simpl; rewrite Hco, Hy, Hd).
    destruct (add_signaled a w c cc (list_to_set cc) st) as [[cc1 m1] st1] eqn:E.
    apply add_signaled_spec in E as (Hnd1 & -> & Hin1 & Hl1 & ->); [|done].
    destruct (Nat.eqb_spec (length cc1) ccmax) as [Hfull|Hroom].
    - exists [a], ns, cc1, (list_to_set cc1), (<[a := signaled w]> st). rewrite Hdel.
      split; [done|]. split; [done|]. split; try done; [lia|by right|..].
      + intros d. rewrite Hin1. split; [intros [?| ->]; [by left|]|].
        * right. exists a, w. split; [by left|done].
        * intros [?|(b & w' & Hb & Hs & Hr)]; [by left|].
          apply list_elem_of_singleton in Hb as ->. rewrite Hw in Hs. injection Hs as <-.
          rewrite Hres in Hr. injection Hr as <-. by right.
      + intros b. destruct (decide (b = a)) as [->|Hb].
        * rewrite decide_True, lookup_insert_eq, Hw by set_solver. simpl. by rewrite Hv.
        * rewrite decide_False, lookup_insert_ne by set_solver. done.
    - rewrite <-Hv. apply Hrest; try done; [lia| |by rewrite Hdel].
      intros d. rewrite Hin1, Hres. naive_solver. }
  cbn [walk_loop]. rewrite Hw. cbn [mbind option_bind].
  destruct (co w) as [c|] eqn:Hco.
  2:{ destruct (Hrest cc t) as (seen & rest & cc' & m' & st' & Heq & ?); try done.
      - intros c. unfold resumes. rewrite Hco. destruct (negb _ && _); naive_solver.
      - unfold delays, delay. simpl. rewrite Hw. simpl. by rewrite Hco.
      - unfold visited in Heq. rewrite Hco, insert_id in Heq by done. by exists seen, rest, cc', m', st'. }
  change (has CO_YIELD (flags w)) with (yields w). destruct (yields w) eqn:Hy.
  { destruct (Hrest cc 0) as (seen & rest & cc' & m' & st' & Heq & ?); try done.
    - intros d. unfold resumes. rewrite Hy. naive_solver.
    - unfold delays, delay. simpl. rewrite Hw. simpl. rewrite Hco, Hy. simpl. lia.
    - unfold visited in Heq. rewrite Hco, Hy in Heq. by exists seen, rest, cc', m', st'. }
  destruct (has (mask w) (events w) || has MTX_WAKEUP_EVENT (flags w)) eqn:Hhit.
  { apply Hsig; [done|done|]. unfold due. by rewrite Hhit. }
  destruct (Z.ltb_spec 0 (tmo w)) as [Htmo|Htmo].
  - destruct (Z.leb_spec (tmo w) ct) as [Hexp|Hexp].
    { apply Hsig; [done|done|]. unfold due. rewrite Hhit. simpl. by bool_cases. }
    assert (due ct w = false) as Hd by (unfold due; rewrite Hhit; simpl; by bool_cases).
    destruct (Hrest cc (if tmo w - ct <? t then tmo w - ct else t))
      as (seen & rest & cc' & m' & st' & Heq & ?); try done.
    + by bool_cases.
    + intros d. unfold resumes. rewrite Hd, andb_false_r. naive_solver.
    + unfold delays, delay. simpl. rewrite Hw. simpl. rewrite Hco, Hy, Hd.
      destruct (Z.ltb_spec 0 (tmo w)); [|lia]. simpl. destruct (Z.ltb_spec (tmo w - ct) t); lia.
    + unfold visited in Heq. rewrite Hco, Hy, Hd, insert_id in Heq by done.
      by exists seen, rest, cc', m', st'.
  - destruct (Z.eqb_spec (tmo w) 0) as [Hz|Hz].
    { exfalso. apply Htm; [by rewrite Hco|done| |done]. unfold due. rewrite Hhit, Hz. done. }
    assert (due ct w = false) as Hd by (unfold due; rewrite Hhit; simpl; by bool_cases).
    destruct (Hrest cc t) as (seen & rest & cc' & m' & st' & Heq & ?); try done.
    + intros d. unfold resumes. rewrite Hd, andb_false_r. naive_solver.
    + unfold delays, delay. simpl. rewrite Hw. simpl. rewrite Hco, Hy, Hd. by bool_cases.
    + unfold visited in Heq. rewrite Hco, Hy, Hd, insert_id in Heq by done.
      by exists seen, rest, cc', m', st'.
Qed.

Lemma foldl_min_le t l : foldl Z.min t l <= t ∧ ∀ d, d ∈ l → foldl Z.min t l <= d.
Proof.
  revert t. induction l as [|x l IH]; intros t; simpl.
  - split; [lia|]. intros d Hd. by apply not_elem_of_nil in Hd.
  - destruct (IH (Z.min t x)) as [H1 H2]. split; [lia|].
    intros d [->|Hd]%elem_of_cons; [lia|by apply H2].
Qed.

Lemma delays_elem ct st seen a w d :
  a ∈ seen → st !! a = Some w → delay ct w = Some d → d ∈ delays ct st seen.
Proof.
  intros Ha Hw Hd. unfold delays. apply list_elem_of_omap. exists a. split; [done|].
  by rewrite Hw.
Qed.

(** [walk_waiters_list] from the lemma on its loop. *)
Lemma walk_waiters_list_walked ct ccmax ns st :
  0 <= ct → NoDup ns → (0 < ccmax)%nat → (∀ a, a ∈ ns → ∃ w, st !! a = Some w ∧ timed w) →
  ∃ seen rest cc marked st',
    walk_waiters_list ct ccmax ns ∅ st = Some (cc, foldl Z.min INT_MAX (delays ct st seen), ∅, st') ∧
    ns = seen ++ rest ∧ walked ct ccmax st [] seen rest cc marked st'.
Proof.
  intros Hct Hnd Hmax Hns.
  destruct (walk_loop_spec ct ccmax ns [] INT_MAX st) as (seen & rest & cc & m & st' & Heq & Hs & Hw);
    try done; [constructor|].
  exists seen, rest, cc, m, st'. split; [|done]. unfold walk_waiters_list. cbn [list_to_set] in Heq.
  rewrite Heq. cbn. destruct Hw. do 3 f_equal. rewrite wk_marked0. set_solver.
Qed.

(** ** Properties *)

(** An operation on the queue of a descriptor. *)
Inductive qop := Queue (a : nat) | Dequeue (a : nat).

Definition qstep (o : qop) (est : iorq * waiters) : option (iorq * waiters) :=
  match o with
  | Queue a => epoll_queue (Some a) est.1 est.2
  | Dequeue a => epoll_dequeue (Some a) est.1 est.2
  end.

Fixpoint qrun (os : list qop) (est : iorq * waiters) : option (iorq * waiters) :=
  match os with [] => Some est | o :: os => est ← qstep o est; qrun os est end.

(** The same operations on a list; [None] when a waiter is queued twice, or is not
    in the queue. *)
Definition qspec (o : qop) (l : list nat) : option (list nat) :=
  match o with
  | Queue a => if decide (a ∈ l) then None else Some (l ++ [a])
  | Dequeue a => if decide (a ∈ l) then Some (List.filter (λ b, bool_decide (b ≠ a)) l) else None
  end.

Fixpoint qspec_run (os : list qop) (l : list nat) : option (list nat) :=
  match os with [] => Some l | o :: os => l ← qspec o l; qspec_run os l end.

Lemma filter_ne_middle (l1 l2 : list nat) a :
  NoDup (l1 ++ a :: l2) → List.filter (λ b, bool_decide (b ≠ a)) (l1 ++ a :: l2) = l1 ++ l2.
Proof.
  intros Hnd.
  assert (∀ l, a ∉ l → List.filter (λ b, bool_decide (b ≠ a)) l = l) as Hid.
  { induction l as [|b l IH]; intros Ha; [done|]. apply not_elem_of_cons in Ha as [Hb Ha].
    cbn [List.filter]. rewrite bool_decide_true by congruence. by rewrite IH. }
  apply NoDup_app in Hnd as (_ & H1 & [H2 _]%NoDup_cons).
  rewrite List.filter_app. cbn [List.filter]. rewrite bool_decide_false by naive_solver.
  rewrite !Hid; [done|done|]. intros Ha. apply (H1 a Ha). by left.
Qed.

Lemma dom_strip (st st' : waiters) : strip <$> st' = strip <$> st → dom st' = dom st.
Proof. intros H. by rewrite <-(dom_fmap_L strip st'), H, dom_fmap_L. Qed.

Lemma qrun_holds os : ∀ e st l l',
  queue_holds e st l → qspec_run os l = Some l' →
  (∀ a, Queue a ∈ os → a ∈ dom st) →
  ∃ e' st', qrun os (e, st) = Some (e', st') ∧ queue_holds e' st' l' ∧
    q_so e' = q_so e ∧ strip <$> st' = strip <$> st.
Proof.
  induction os as [|o os IH]; intros e st l l' Hq Hs Hdom.
  { injection Hs as <-. by exists e, st. }
  cbn in Hs. destruct (qspec o l) as [l1|] eqn:Ho; [|done]. cbn in Hs.
  assert (∃ e1 st1, qstep o (e, st) = Some (e1, st1) ∧ queue_holds e1 st1 l1 ∧
    q_so e1 = q_so e ∧ strip <$> st1 = strip <$> st) as (e1 & st1 & Hstep & Hq1 & Hso & Hst).
  { destruct o as [a|a]; cbn in Ho; case_decide as Ha; try done; injection Ho as <-.
    - destruct (epoll_queue_appends e st l a) as (e1 & st1 & ? & ? & ? & _ & ?); [done|done| |by exists e1, st1].
      apply elem_of_dom, Hdom. by left.
    - apply list_elem_of_split in Ha as (l1 & l2 & ->).
      rewrite filter_ne_middle by apply Hq.
      destruct (epoll_dequeue_removes e st l1 a l2 Hq) as (e1 & st1 & ? & ? & ? & _ & ?). by exists e1, st1. }
  destruct (IH e1 st1 l1 l' Hq1 Hs) as (e' & st' & Hr & ? & Hso' & Hst').
  { intros a Ha. rewrite (dom_strip _ _ Hst). apply Hdom. by right. }
  exists e', st'. cbn [qrun]. rewrite Hstep. cbn. split; [done|]. split; [done|]. split; congruence.
Qed.

(** The queue of a descriptor is a list: from an empty queue, any operations
    that queue waiters that are not there and dequeue waiters that are leave the
    queue holding exactly the waiters of the list, in order, with a null head
    exactly when the tail is null, and change nothing of a waiter but its links. *)
Theorem queue_refines_list (so type : Z) (st : waiters) (os : list qop) (l : list nat)
    (Htype : type = iowait_io ∨ type = iowait_eventfd)
    (Hspec : qspec_run os [] = Some l) (Hmem : ∀ a, Queue a ∈ os → a ∈ dom st) :
  ∃ e st', qrun os (mk_iorq None None so type, st) = Some (e, st') ∧ queue_holds e st' l ∧
    walk (length l) st' (q_head e) = l ∧ (is_Some (q_head e) ↔ is_Some (q_tail e)) ∧
    strip <$> st' = strip <$> st.
Proof.
  destruct (qrun_holds os (mk_iorq None None so type) st [] l) as (e & st' & ? & Hq & _ & ?); try done.
  { split; [apply dll_nil|done]. }
  exists e, st'. split_and!; try done.
  - eapply walk_dll; [apply Hq|done].
  - by apply (queue_holds_ends _ st' l).
Qed.

(** [walk_waiters_list] looks at the waiters in order, until there are [ccmax]
    coroutines to resume.  Those are the coroutines of the waiters seen that have
    an event they wait for, a signal, or whose time has come, each once; such a
    waiter has its events moved to [revents]; the others are as they were but for
    the yield flag.  The time to sleep is at most that to any deadline seen, and 0
    after a yield, so no deadline is slept through. *)
Theorem walk_waiters_list_picks (ct : Z) (ccmax : nat) (ns : list nat) (st : waiters)
    (Hct : 0 <= ct) (Hnd : NoDup ns) (Hmax : (0 < ccmax)%nat)
    (Hns : ∀ a, a ∈ ns → ∃ w, st !! a = Some w ∧ timed w) :
  ∃ seen rest cc t st',
    walk_waiters_list ct ccmax ns ∅ st = Some (cc, t, ∅, st') ∧
    ns = seen ++ rest ∧ (rest = [] ∨ length cc = ccmax) ∧ NoDup cc ∧ (length cc <= ccmax)%nat ∧
    (∀ c, c ∈ cc ↔ ∃ a w, a ∈ seen ∧ st !! a = Some w ∧ resumes ct w = Some c) ∧
    (∀ a, st' !! a = if decide (a ∈ seen) then visited ct <$> st !! a else st !! a) ∧
    (∀ a w c, a ∈ seen → st !! a = Some w → co w = Some c → c ∉ cc →
      (yields w = true → t = 0) ∧ (0 < tmo w → ct < tmo w ∨ yields w = true) ∧
      (0 < tmo w → t <= Z.max 0 (tmo w - ct))) ∧ 0 <= t.
Proof.
  destruct (walk_waiters_list_walked ct ccmax ns st) as (seen & rest & cc & m & st' & Heq & Hs & W);
    try done. destruct W as [_ Hcc Hm He Hin Hst].
  assert (∀ l t0, 0 <= t0 → (∀ d, d ∈ l → 0 <= d) → 0 <= foldl Z.min t0 l) as Hpos.
  { induction l as [|x l IH]; intros t0 H0 Hl; simpl; [done|]. apply IH; [|intros; apply Hl; by right].
    specialize (Hl x). rewrite elem_of_cons in Hl. lia. }
  assert (0 <= foldl Z.min INT_MAX (delays ct st seen)) as H0.
  { apply Hpos; [done|]. intros d (a & Ha & Hd)%list_elem_of_omap.
    destruct (st !! a) as [w|]; [|done]. cbn in Hd. unfold delay, due in Hd.
    destruct (co w); [|done]. destruct (yields w); [by injection Hd as <-|].
    destruct (_ || _) eqn:E; [done|]. bool_cases; [|done..]. injection Hd as <-. lia. }
  destruct (foldl_min_le INT_MAX (delays ct st seen)) as [_ Hmin].
  exists seen, rest, cc, (foldl Z.min INT_MAX (delays ct st seen)), st'. split_and!; try done.
  - intros c. rewrite Hin. split; [|by right]. intros [Hn|?]; [by apply not_elem_of_nil in Hn|done].
  - intros a w c Ha Hw Hco Hc.
    assert (resumes ct w = None) as Hr.
    { destruct (resumes ct w) as [d|] eqn:E; [|done]. exfalso. apply Hc. rewrite Hin. right.
      exists a, w. split; [done|]. split; [done|]. rewrite E. unfold resumes in E.
      destruct (_ && _); congruence. }
    assert (∀ d, delay ct w = Some d → foldl Z.min INT_MAX (delays ct st seen) <= d) as Hd.
    { intros d Hd. apply Hmin. by eapply delays_elem. }
    unfold resumes in Hr. unfold delay in Hd. rewrite Hco in Hr, Hd.
    destruct (yields w); simpl in Hr.
    + specialize (Hd 0 eq_refl). split_and!; [lia|by right|lia].
    + destruct (due ct w) eqn:E; [done|]. split_and!; [done|intros; left|intros Ht].
      * unfold due in E. by bool_cases.
      * destruct (Z.ltb_spec 0 (tmo w)); [|lia]. specialize (Hd _ eq_refl). lia.
Qed.

Lemma has_lor m x y : has m (Z.lor x y) = has m x || has m y.
Proof.
  unfold has. rewrite Z.land_lor_distr_l. apply eq_bool_prop_intro.
  rewrite orb_True, !Is_true_true, !negb_true_iff, !Z.eqb_neq, Z.lor_eq_0_iff. lia.
Qed.

(** A marked waiter is due. *)
Lemma mark_due ct ev w : has (mask w) ev = true → due ct (mark ev w) = true.
Proof. intros Hev. unfold due, mark. cbn. by rewrite has_lor, Hev, orb_true_r. Qed.

Lemma mark_timed ev w : timed w → timed (mark ev w).
Proof.
  intros Hw Hc Hy Hd. apply (Hw Hc Hy). unfold due, mark in *. cbn in Hd. rewrite has_lor in Hd.
  by destruct (has (mask w) (events w)), (has (mask w) ev).
Qed.

(** The effect of the listener on a queue. *)
Lemma listener_event_marks e st l ev :
  queue_holds e st l →
  ∃ st', listener_event e ev st =
      ((0 <? length (List.filter (sat (λ w, wakes (mark ev w)) st) l))%nat, st') ∧
    (∀ b, st' !! b = if decide (b ∈ l) then mark ev <$> st !! b else st !! b) ∧ queue_holds e st' l.
Proof.
  intros Hq. pose proof Hq as [Hd _].
  destruct (for_each_spec (mark ev) wakes _ _ l (mark_on_links ev) [] (size st) 0%nat st Hd (queue_size _ _ _ Hq))
    as (st' & Heq & Hst).
  exists st'. unfold listener_event. destruct Hd as (_ & -> & _). rewrite Heq. split; [done|].
  split; [done|]. by apply (queue_holds_change e e st st' l (mark ev)).
Qed.

(** No wake-up is lost.  When the listener reports an event on a descriptor,
    every coroutine queued there for that event is resumed by the next walk of the
    core it belongs to, which the listener wakes up, with the event in the waiter's
    [revents], unless the walk resumes [ccmax] others first. *)
Theorem event_resumes (e : iorq) (ev ct : Z) (l ns : list nat) (st : waiters) (ccmax a c : nat)
    (w : io_waiter) (Hq : queue_holds e st l) (Ha : a ∈ l) (Hn : a ∈ ns) (Hw : st !! a = Some w)
    (Hco : co w = Some c) (Hy : yields w = false) (Hev : has (mask w) ev = true)
    (Hct : 0 <= ct) (Hnd : NoDup ns) (Hmax : (0 < ccmax)%nat)
    (Hns : ∀ b, b ∈ ns → ∃ v, st !! b = Some v ∧ timed v) :
  ∃ st1 cc t st2,
    listener_event e ev st = (true, st1) ∧ walk_waiters_list ct ccmax ns ∅ st1 = Some (cc, t, ∅, st2) ∧
    (length cc = ccmax ∨
     c ∈ cc ∧ ∃ w', st2 !! a = Some w' ∧ revents w' = Z.lor (events w) ev ∧
       Z.land (events w') (mask w') = 0).
Proof.
  destruct (listener_event_marks e st l ev Hq) as (st1 & Heq & Hst1 & _).
  assert (st1 !! a = Some (mark ev w)) as Hw1 by (by rewrite Hst1, decide_True, Hw).
  destruct (walk_waiters_list_walked ct ccmax ns st1) as (seen & rest & cc & m & st2 & Hwalk & Hs & W); try done.
  { intros b Hb. destruct (Hns b Hb) as (v & Hv & Hv'). rewrite Hst1, Hv.
    case_decide; simpl; eexists; (split; [reflexivity|]); [by apply mark_timed|done]. }
  exists st1, cc, (foldl Z.min INT_MAX (delays ct st1 seen)), st2. split; [|split; [done|]].
  { rewrite Heq. f_equal. apply Nat.ltb_lt, sat_iff. exists a, w. split; [done|]. split; [done|].
    unfold wakes, mark. cbn. rewrite has_lor, Hev, orb_true_r, Hco. done. }
  destruct W as [_ _ _ [->|Hfull] Hin Hst2]; [|by left]. right.
  rewrite app_nil_r in Hs. subst seen.
  pose proof (mark_due ct ev w Hev) as Hd. split.
  - apply Hin. right. exists a, (mark ev w). split; [done|]. split; [done|].
    unfold resumes. rewrite Hd. change (yields (mark ev w)) with (yields w). by rewrite Hy.
  - exists (signaled (mark ev w)). rewrite Hst2, decide_True, Hw1 by done. cbn [fmap option_fmap option_map].
    unfold visited. change (co (mark ev w)) with (co w). rewrite Hco.
    change (yields (mark ev w)) with (yields w). rewrite Hy, Hd. split; [done|]. split; [done|].
    unfold signaled. cbn. apply Z.bits_inj'. intros i Hi.
    rewrite Z.land_spec, Z.ldiff_spec, Z.bits_0. by destruct (Z.testbit (mask w) i), (Z.testbit (Z.lor (events w) ev) i).
Qed.

(** Closing a socket wakes up all that wait on it: the descriptor is gone, the
    queue is as it was, and every waiter that waits for some event is due. *)
Theorem close_resumes (e : iorq) (st : waiters) (l : list nat)
    (Hq : queue_holds e st l) (Hopen : q_so e ≠ -1) :
  let '(e', st') := co_socket_close e st in
  q_so e' = -1 ∧ queue_holds e' st' l ∧
  ∀ a w ct, a ∈ l → st !! a = Some w → mask w ≠ 0 →
    ∃ w', st' !! a = Some w' ∧ due ct w' = true ∧ co w' = co w.
Proof.
  unfold co_socket_close. apply Z.eqb_neq in Hopen as ->. pose proof Hq as [Hd _].
  destruct (for_each_spec (λ w, mark (mask w) w) (λ _, false) _ _ l (λ _, conj eq_refl eq_refl) []
              (size st) 0%nat st Hd (queue_size _ _ _ Hq)) as (st' & Heq & Hst).
  destruct Hd as (_ & Hh & _). rewrite <-Hh in Heq. rewrite Heq. cbn [snd]. split; [done|]. split.
  - by apply (queue_holds_change e _ st st' l (λ w, mark (mask w) w)).
  - intros a w ct Ha Hw Hm. exists (mark (mask w) w). rewrite Hst, decide_True, Hw by done.
    split; [done|]. split; [|done]. apply mark_due. unfold has. rewrite Z.land_diag.
    by apply negb_true_iff, Z.eqb_neq.
Qed.

(** The check [!E_CHECK(e)] never fails on a descriptor of either type, whatever
    its queue and its [so] are: for instance with a head and no tail. *)
Lemma E_CHECK_is_dead h so :
  not_E_CHECK (mk_iorq (Some h) None so iowait_io) = false ∧
  not_E_CHECK (mk_iorq None (Some h) so iowait_eventfd) = false.
Proof. done. Qed.

(** ** Runs *)

Definition waiter0 (c m ev f t : Z) : io_waiter :=
  mk_waiter t None None (Some (Z.to_nat c)) m ev 0 f.
(** Coroutine 7 waits to read, 8 until time 50, 9 yields, 7 also until time 200. *)
Definition memory0 : waiters :=
  {[ 0%nat := waiter0 7 EPOLLIN 0 0 (-1); 1%nat := waiter0 8 0 0 0 50; 2%nat := waiter0 9 0 0 CO_YIELD 60;
     3%nat := waiter0 7 EPOLLOUT 0 0 200 ]}.

Lemma queue_refines_list_witness :
  ∃ e st', qrun [Queue 0; Queue 1; Dequeue 0; Queue 2] (mk_iorq None None 5 iowait_io, memory0) = Some (e, st') ∧
    queue_holds e st' [1%nat; 2%nat] ∧ walk 2 st' (q_head e) = [1%nat; 2%nat] ∧
    (is_Some (q_head e) ↔ is_Some (q_tail e)) ∧ strip <$> st' = strip <$> memory0.
Proof.
  apply (queue_refines_list 5 iowait_io memory0 [Queue 0; Queue 1; Dequeue 0; Queue 2] [1%nat; 2%nat]).
  - by left.
  - done.
  - intros a Ha. rewrite !elem_of_cons in Ha. by destruct Ha as [[= ->]|[[= ->]|[?|[[= ->]|?%not_elem_of_nil]]]].
Defined.

Lemma memory0_timed a : a ∈ [0; 1; 2; 3]%nat → ∃ w, memory0 !! a = Some w ∧ timed w.
Proof.
  intros Ha. rewrite !elem_of_cons in Ha.
  destruct Ha as [->|[->|[->|[->|?%not_elem_of_nil]]]]; [..|done]; eexists; by split.
Qed.

Lemma walk_waiters_list_picks_witness :
  ∃ seen rest cc t st',
    walk_waiters_list 100 10 [0; 1; 2; 3]%nat ∅ memory0 = Some (cc, t, ∅, st') ∧
    [0; 1; 2; 3]%nat = seen ++ rest ∧ (rest = [] ∨ length cc = 10%nat) ∧ NoDup cc ∧ (length cc <= 10)%nat ∧
    (∀ c, c ∈ cc ↔ ∃ a w, a ∈ seen ∧ memory0 !! a = Some w ∧ resumes 100 w = Some c) ∧
    (∀ a, st' !! a = if decide (a ∈ seen) then visited 100 <$> memory0 !! a else memory0 !! a) ∧
    (∀ a w c, a ∈ seen → memory0 !! a = Some w → co w = Some c → c ∉ cc →
      (yields w = true → t = 0) ∧ (0 < tmo w → 100 < tmo w ∨ yields w = true) ∧
      (0 < tmo w → t <= Z.max 0 (tmo w - 100))) ∧ 0 <= t.
Proof.
  apply (walk_waiters_list_picks 100 10 [0; 1; 2; 3]%nat memory0); [lia|by_decide|lia|apply memory0_timed].
Defined.

Lemma event_resumes_witness :
  ∃ st1 cc t st2,
    listener_event (mk_iorq (Some 0%nat) (Some 0%nat) 5 iowait_io) EPOLLIN memory0 = (true, st1) ∧
    walk_waiters_list 10 10 [0; 1; 2; 3]%nat ∅ st1 = Some (cc, t, ∅, st2) ∧
    (length cc = 10%nat ∨ 7%nat ∈ cc ∧ ∃ w', st2 !! 0%nat = Some w' ∧ revents w' = EPOLLIN ∧
       Z.land (events w') (mask w') = 0).
Proof.
  apply (event_resumes (mk_iorq (Some 0%nat) (Some 0%nat) 5 iowait_io) EPOLLIN 10 [0%nat] [0; 1; 2; 3]%nat
           memory0 10 0 7 (waiter0 7 EPOLLIN 0 0 (-1))); try done; [|by left|by left|by_decide|lia|apply memory0_timed].
  split; [|by left]. split; [apply NoDup_singleton|]. split; [done|]. split; [done|].
  intros [|b l1] a l2 [= <- Hl]; [|destruct l1; discriminate Hl]. subst l2. by eexists.
Defined.

Lemma close_resumes_witness :
  let '(e', st') := co_socket_close (mk_iorq (Some 0%nat) (Some 0%nat) 5 iowait_io) memory0 in
  q_so e' = -1 ∧ queue_holds e' st' [0%nat] ∧
  ∀ a w ct, a ∈ [0%nat] → memory0 !! a = Some w → mask w ≠ 0 →
    ∃ w', st' !! a = Some w' ∧ due ct w' = true ∧ co w' = co w.
Proof.
  apply (close_resumes (mk_iorq (Some 0%nat) (Some 0%nat) 5 iowait_io) memory0 [0%nat]); [|done].
  split; [|by left]. split; [apply NoDup_singleton|]. split; [done|]. split; [done|].
  intros [|b l1] a l2 [= <- Hl]; [|destruct l1; discriminate Hl]. subst l2. by eexists.
Defined.
