(* ===== verification/CoLock.v ===== *)
(** The lock of [src/cothread/co-scheduler.c] ([co_thread_lock], [co_thread_unlock],
    [co_thread_wait], [co_thread_signal]) and the proof that it is a monitor: the
    critical sections of [Threads] run one at a time, and a thread that waits is
    resumed when it should be.  [lockmem] is the memory of one lock; its
    operations are the stretches of the functions between
    [co_thread_global_lock] and [co_thread_global_unlock].  [mstep] runs any number
    of coroutines on one lock, interleaved with the epoll listener and with the
    walks of the scheduler; a critical section takes several steps, between which
    the others go on. *)

From S2P Require Import Prelude Dll CoWaiter Threads.

Open Scope Z_scope.

(** ** The memory of a lock *)

(** The listener waits for events, has one of the lock's eventfd, or has marked the
    waiters and still holds its lock. *)
Inductive listener := Listening | Reported | Marked.

#[export] Instance listener_eq_dec : EqDecision listener.
Proof. solve_decision. Defined.

(** [struct co_thread_lock_s], the waiters, the counter of the eventfd, and whether
    it was written since epoll last reported it. *)
Record lockmem := mk_lockmem {
  m_co : option nat;
  m_e : iorq;
  m_st : waiters;
  m_efd : Z;
  m_edge : bool;
  m_ls : listener;
}.

Definition set_co (c : option nat) (m : lockmem) : lockmem :=
  mk_lockmem c (m_e m) (m_st m) (m_efd m) (m_edge m) (m_ls m).
Definition set_queue (est : iorq * waiters) (m : lockmem) : lockmem :=
  mk_lockmem (m_co m) est.1 est.2 (m_efd m) (m_edge m) (m_ls m).
Definition set_st (st : waiters) (m : lockmem) : lockmem :=
  mk_lockmem (m_co m) (m_e m) st (m_efd m) (m_edge m) (m_ls m).

Definition eventfd_write (m : lockmem) : lockmem :=
  mk_lockmem (m_co m) (m_e m) (m_st m) (m_efd m + 1) true (m_ls m).

(** A fresh lock ([co_thread_lock_init_internal]). *)
Definition co_thread_lock_init (so : Z) (st : waiters) : lockmem :=
  mk_lockmem None (mk_iorq None None so iowait_eventfd) st 0 false Listening.

(** ** The operations *)

(** [add_waiter] and [epoll_queue]: the waiter goes to a free node [a] of the core's
    list.  [None]: the listener holds its lock, or [a] is in use. *)
Definition enqueue (a : nat) (w : io_waiter) (m : lockmem) : option lockmem :=
  if decide (m_ls m = Marked) then None
  else
    match m_st m !! a with
    | Some _ => None
    | None =>
      let w := set_mask (Z.lor (mask w) UNMASKED_EVENTS) w in
      est ← epoll_queue (Some a) (m_e m) (<[a := w]> (m_st m));
      Some (set_queue est m)
    end.

(** [epoll_dequeue] and [remove_waiter]. *)
Definition dequeue (a : nat) (m : lockmem) : option lockmem :=
  if decide (m_ls m = Marked) then None
  else
    '(e, st) ← epoll_dequeue (Some a) (m_e m) (m_st m);
    Some (set_queue (e, delete a st) m).

(** The waiters of [co_thread_lock_internal] and of [co_thread_wait]. *)
Definition lock_waiter (me : nat) : io_waiter := mk_waiter (-1) None None (Some me) EPOLLIN 0 0 0.
Definition wait_waiter (me : nat) (t : Z) : io_waiter :=
  mk_waiter t None None (Some me) EPOLLIN 0 0 MTX_WAKEUP_WAITING.

(** One round of the loop of [co_thread_lock_internal]: the lock is taken and the
    waiter removed, or the coroutine will sleep. *)
Definition co_thread_lock_try (me a : nat) (m : lockmem) : option (bool * lockmem) :=
  match m_co m with
  | Some _ => Some (false, m)
  | None => m ← dequeue a (set_co (Some me) m); Some (true, m)
  end.

(** [co_thread_check]: the coroutine holds the lock. *)
Definition co_thread_check (me : nat) (m : lockmem) : bool := bool_decide (m_co m = Some me).

Definition co_thread_unlock_internal (m : lockmem) : lockmem := eventfd_write (set_co None m).

(** [None] is the [raise(SIGINT)] of a failed check. *)
Definition co_thread_unlock (me : nat) (m : lockmem) : option lockmem :=
  if co_thread_check me m then Some (co_thread_unlock_internal m) else None.

Definition wake (w : io_waiter) : io_waiter := set_flags (Z.lor (flags w) MTX_WAKEUP_EVENT) w.

(** The loop of [co_thread_signal_internal], and the number it counts. *)
Fixpoint signal_loop (fuel : nat) (bc : bool) (p : option nat) (n : nat) (st : waiters) : nat * waiters :=
  match fuel, p with
  | S fuel', Some a =>
    match st !! a with
    | None => (n, st)
    | Some w =>
      if has MTX_WAKEUP_WAITING (flags w) then
        let st := if has MTX_WAKEUP_EVENT (flags w) then st else <[a := wake w]> st in
        if bc then signal_loop fuel' bc (w_next w) (S n) st else (S n, st)
      else signal_loop fuel' bc (w_next w) n st
    end
  | _, _ => (n, st)
  end.

Definition co_thread_signal_internal (me : nat) (bc : bool) (m : lockmem) : option lockmem :=
  if co_thread_check me m then
    let '(n, st) := signal_loop (size (m_st m)) bc (q_head (m_e m)) 0 (m_st m) in
    let m := set_st st m in
    Some (if (0 <? n)%nat then eventfd_write m else m)
  else None.

(** [co_thread_wait] up to its loop: the waiter is queued, then the lock is given
    up. *)
Definition co_thread_wait_enqueue (me a : nat) (t : Z) (m : lockmem) : option lockmem :=
  if co_thread_check me m then enqueue a (wait_waiter me t) m else None.

(** The test of its loop: a signal arrived, or the time is over. *)
Definition co_thread_wait_done (ct : Z) (a : nat) (m : lockmem) : bool :=
  match m_st m !! a with
  | Some w => has MTX_WAKEUP_EVENT (flags w) || ((0 <=? tmo w) && (tmo w <=? ct))
  | None => false
  end.

(** ** The listener and the eventfd *)

(** Epoll reports the eventfd when it was written since the last report and can be
    read; the listener then marks the waiters and reads it until it is 0. *)
Definition report (m : lockmem) : option lockmem :=
  if decide (m_ls m = Listening) then
    if (0 <? m_efd m) && m_edge m then
      Some (mk_lockmem (m_co m) (m_e m) (m_st m) (m_efd m) false Reported)
    else None
  else None.
Definition mark_all (m : lockmem) : option lockmem :=
  if decide (m_ls m = Reported) then
    Some (mk_lockmem (m_co m) (m_e m) (listener_event (m_e m) EPOLLIN (m_st m)).2 (m_efd m) (m_edge m) Marked)
  else None.
Definition drain (m : lockmem) : option lockmem :=
  if decide (m_ls m = Marked) then
    Some (mk_lockmem (m_co m) (m_e m) (m_st m) 0 (m_edge m) Listening)
  else None.

(** ** Coroutines on a lock *)

(** Where a coroutine is.  [Trying wa a]: in [co_thread_lock_internal] with the
    waiter [a], about to look at the lock; [Asleep wa a]: called [main] there.
    [wa] is the waiter of the [co_thread_wait] it is called from, if any.
    [Inside]: it has the lock; [Working v]: it is in its critical section, and works
    with the contents [v] of the memory.
    [Queued a], [Waiting a], [Checking a]: in [co_thread_wait] with the waiter [a],
    before the lock is given up, asleep, and about to test its loop. *)
Inductive pc (W : Type) :=
| Outside
| Trying (wa : option nat) (a : nat)
| Asleep (wa : option nat) (a : nat)
| Inside
| Working (v : W)
| Broadcasting
| Leaving
| Queued (a : nat)
| Waiting (a : nat)
| Checking (a : nat).
#[global] Arguments Outside {W}.
#[global] Arguments Trying {W} wa a.
#[global] Arguments Asleep {W} wa a.
#[global] Arguments Inside {W}.
#[global] Arguments Working {W} v.
#[global] Arguments Broadcasting {W}.
#[global] Arguments Leaving {W}.
#[global] Arguments Queued {W} a.
#[global] Arguments Waiting {W} a.
#[global] Arguments Checking {W} a.

(** The coroutine is resumed. *)
Definition resume {W} (x : pc W) : pc W :=
  match x with Asleep wa a => Trying wa a | Waiting a => Checking a | _ => x end.

Section Machine.
Context {W : Type}.
Abbreviation thread := (pc W * proc W unit)%type.

(** The memory that the lock protects: what is in it now ([cells]), which may be
    anything while a critical section is under way, and what the last section that
    was completed left in it ([settled]); no step reads the latter. *)
Record memory := mk_memory { settled : W; cells : W }.

(** The lock, the memory it protects, and the coroutines: thread [i] is the
    coroutine [i]. *)
Record machine := mk_machine { k_lock : lockmem; k_memory : memory; k_threads : list thread }.
Definition k_mem (k : machine) : W := settled (k_memory k).

(** The next section of the thread would wait. *)
Definition blocked (p : proc W unit) (w : W) : Prop :=
  match p with Crit s _ => s w = Wait | _ => False end.

Definition waits (x : pc W) : option nat :=
  match x with
  | Queued a | Waiting a | Checking a => Some a
  | _ => None
  end.

(** A change of the memory that makes no waiting thread's section possible. *)
Definition quiet (ths : list thread) (w w' : W) : Prop :=
  ∀ j x p a, ths !! j = Some (x, p) → waits x = Some a → blocked p w → blocked p w'.

(** A step of thread [i], at [(x, p)]: the new lock, memory, thread, and threads
    started.  A critical section is not one step.  It begins with what is in the
    memory ([ts_begin]), leaves anything there while it runs ([ts_write]), and ends
    with what it computed from what it began with ([ts_commit]), or waits with the
    memory as it found it.  Nothing but the lock keeps another thread from beginning
    in between. *)
Inductive tstep (ths : list thread) (i : nat) :
    lockmem → memory → pc W → proc W unit → lockmem → memory → pc W → proc W unit → list (proc W unit) → Prop :=
| ts_choose m w k b : tstep ths i m w Outside (Choose k) m w Outside (k b) []
| ts_fork m w q k : tstep ths i m w Outside (Fork q k) m w Outside k [q]
| ts_enter m w B (s : sec W B) k a m' :
    enqueue a (lock_waiter i) m = Some m' →
    tstep ths i m w Outside (Crit s k) m' w (Trying None a) (Crit s k) []
| ts_take m w p a m' :
    co_thread_lock_try i a m = Some (true, m') →
    tstep ths i m w (Trying None a) p m' w Inside p []
| ts_retake m w p wa a m' m'' :
    co_thread_lock_try i a m = Some (true, m') → dequeue wa m' = Some m'' →
    tstep ths i m w (Trying (Some wa) a) p m'' w Inside p []
| ts_sleep m w p wa a m' :
    co_thread_lock_try i a m = Some (false, m') →
    tstep ths i m w (Trying wa a) p m' w (Asleep wa a) p []
| ts_begin m w p : tstep ths i m w Inside p m w (Working (cells w)) p []
| ts_write m w v p c : tstep ths i m w (Working v) p m (mk_memory (settled w) c) (Working v) p []
| ts_commit m w v B (s : sec W B) k b w' :
    s v = Go b w' → tstep ths i m w (Working v) (Crit s k) m (mk_memory w' w') Broadcasting (k b) []
| ts_commit_quiet m w v B (s : sec W B) k b w' :
    s v = Go b w' → quiet ths v w' →
    tstep ths i m w (Working v) (Crit s k) m (mk_memory w' w') Leaving (k b) []
| ts_broadcast m w p m' :
    co_thread_signal_internal i true m = Some m' → tstep ths i m w Broadcasting p m' w Leaving p []
| ts_unlock m w p m' :
    co_thread_unlock i m = Some m' → tstep ths i m w Leaving p m' w Outside p []
| ts_wait m w v B (s : sec W B) k a t m' :
    s v = Wait → co_thread_wait_enqueue i a t m = Some m' →
    tstep ths i m w (Working v) (Crit s k) m' (mk_memory (settled w) v) (Queued a) (Crit s k) []
| ts_wait_release m w p a :
    tstep ths i m w (Queued a) p (co_thread_unlock_internal m) w (Waiting a) p []
| ts_wait_done m w p a ct b m' :
    co_thread_wait_done ct a m = true → enqueue b (lock_waiter i) m = Some m' →
    tstep ths i m w (Checking a) p m' w (Trying (Some a) b) p []
| ts_wait_again m w p a ct :
    co_thread_wait_done ct a m = false → tstep ths i m w (Checking a) p m w (Waiting a) p [].

(** A step of the listener, or a walk of the scheduler over the waiters at [ns] that
    resumes the coroutines [cc]. *)
Inductive estep : lockmem → list thread → lockmem → list thread → Prop :=
| es_report m ths m' : report m = Some m' → estep m ths m' ths
| es_mark m ths m' : mark_all m = Some m' → estep m ths m' ths
| es_drain m ths m' : drain m = Some m' → estep m ths m' ths
| es_walk m ths ct ccmax ns cc t st :
    m_ls m ≠ Marked → 0 <= ct → NoDup ns → (0 < ccmax)%nat →
    (∀ a, a ∈ ns → ∃ w, m_st m !! a = Some w ∧ timed w) →
    walk_waiters_list ct ccmax ns ∅ (m_st m) = Some (cc, t, ∅, st) →
    estep m ths (set_st st m)
      (imap (λ i th, if decide (i ∈ cc) then (resume th.1, th.2) else th) ths).

Inductive mstep : machine → machine → Prop :=
| ms_thread m w ths i x p m' w' x' p' forked :
    ths !! i = Some (x, p) → tstep ths i m w x p m' w' x' p' forked →
    mstep (mk_machine m w ths)
      (mk_machine m' w' (<[i := (x', p')]> ths ++ map (pair Outside) forked))
| ms_env m w ths m' ths' :
    estep m ths m' ths' → mstep (mk_machine m w ths) (mk_machine m' w ths').

(** All coroutines start outside of the lock. *)
Definition start (so : Z) (st : waiters) (w : W) (ps : list (proc W unit)) : machine :=
  mk_machine (co_thread_lock_init so st) (mk_memory w w) (map (pair Outside) ps).

End Machine.
Arguments memory W : clear implicits.
Arguments machine W : clear implicits.

(** ** What the operations do *)

Lemma strip_lookup (st st' : waiters) a w :
  strip <$> st' = strip <$> st → st !! a = Some w → ∃ w', st' !! a = Some w' ∧ strip w' = strip w.
Proof.
  intros Hs Hw. assert ((strip <$> st') !! a = Some (strip w)) as Ha.
  { by rewrite Hs, lookup_fmap, Hw. }
  rewrite lookup_fmap in Ha. destruct (st' !! a) as [w'|]; [|done]. exists w'. by apply (inj Some) in Ha.
Qed.

Lemma strip_fields w w' :
  strip w' = strip w →
  co w' = co w ∧ mask w' = mask w ∧ events w' = events w ∧ flags w' = flags w ∧ tmo w' = tmo w.
Proof. destruct w, w'. unfold strip. simpl. intros [=]. by subst. Qed.

Lemma queue_holds_dom e st l a : queue_holds e st l → a ∈ l → is_Some (st !! a).
Proof.
  intros [(_ & _ & _ & Hn) _] (l1 & l2 & ->)%list_elem_of_split.
  destruct (Hn l1 a l2 eq_refl) as (w & -> & _). done.
Qed.

Lemma queue_holds_frame e st st' l :
  (∀ a, a ∈ l → st' !! a = st !! a) → queue_holds e st l → queue_holds e st' l.
Proof. intros Hs [Hd Ht]. split; [by eapply dll_frame|done]. Qed.

(** The waiters of [m'] are those of [st] up to their links, the rest as in [m]. *)
Record linked_as (m : lockmem) (st : waiters) (m' : lockmem) : Prop := {
  la_st : strip <$> m_st m' = strip <$> st;
  la_co : m_co m' = m_co m;
  la_efd : m_efd m' = m_efd m;
  la_edge : m_edge m' = m_edge m;
  la_ls : m_ls m' = m_ls m;
  la_listening : m_ls m ≠ Marked;
}.

Lemma enqueue_spec a w m m' l :
  queue_holds (m_e m) (m_st m) l → enqueue a w m = Some m' →
  m_st m !! a = None ∧ queue_holds (m_e m') (m_st m') (l ++ [a]) ∧
  linked_as m (<[a := set_mask (Z.lor (mask w) UNMASKED_EVENTS) w]> (m_st m)) m'.
Proof.
  intros Hq. unfold enqueue. case_decide as Hls; [done|]. destruct (m_st m !! a) eqn:Ha; [done|].
  assert (a ∉ l) as Hal.
  { intros Hin. destruct (queue_holds_dom _ _ _ _ Hq Hin) as [? ?]. congruence. }
  set (w' := set_mask _ w).
  destruct (epoll_queue_appends (m_e m) (<[a := w']> (m_st m)) l a) as (e' & st' & -> & Hq' & _ & _ & Hst).
  - eapply queue_holds_frame; [|exact Hq]. intros b Hb. apply lookup_insert_ne. set_solver.
  - done.
  - by rewrite lookup_insert_eq.
  - intros [= <-]. split; [done|]. split; [done|]. by split.
Qed.

Lemma dequeue_spec a m m' l :
  queue_holds (m_e m) (m_st m) l → a ∈ l → dequeue a m = Some m' →
  (∃ l', queue_holds (m_e m') (m_st m') l' ∧ ∀ b, b ∈ l' ↔ b ∈ l ∧ b ≠ a) ∧
  linked_as m (delete a (m_st m)) m'.
Proof.
  intros Hq Ha. unfold dequeue. case_decide as Hls; [done|].
  pose proof Hq as [[Hnd _] _]. apply list_elem_of_split in Ha as (l1 & l2 & ->).
  destruct (epoll_dequeue_removes _ _ _ _ _ Hq) as (e' & st' & -> & Hq' & _ & _ & Hst).
  cbn. intros [= <-]. cbn.
  assert (a ∉ l1 ++ l2 ∧ ∀ b, b ∈ l1 ++ l2 ↔ b ∈ l1 ++ a :: l2 ∧ b ≠ a) as [Hal Hin].
  { rewrite <-Permutation_middle in Hnd. apply NoDup_cons in Hnd as [Hal _]. split; [done|].
    intros b. rewrite !elem_of_app, elem_of_cons. split; [|naive_solver].
    intros Hb. split; [naive_solver|]. intros ->. set_solver. }
  split.
  - exists (l1 ++ l2). split; [|done]. eapply queue_holds_frame; [|exact Hq'].
    intros b Hb. apply lookup_delete_ne. set_solver.
  - split; cbn; try done. by rewrite !fmap_delete, Hst.
Qed.

(** A broadcast sets the event flag of every waiter that waits for one. *)
Definition alarmed (w : io_waiter) : io_waiter :=
  if has MTX_WAKEUP_WAITING (flags w) then
    if has MTX_WAKEUP_EVENT (flags w) then w else wake w
  else w.

Lemma alarmed_links : on_links alarmed.
Proof. intros w. unfold alarmed. by repeat case_match. Qed.

Lemma broadcast_loop hd tl l2 : ∀ l1 fuel n st,
  dll st hd tl (l1 ++ l2) → (length l2 ≤ fuel)%nat →
  ∃ n' st', signal_loop fuel true (head l2) n st = (n', st') ∧
    (n' = n + length (List.filter (sat (λ w, has MTX_WAKEUP_WAITING (flags w)) st) l2))%nat ∧
    ∀ b, st' !! b = if decide (b ∈ l2) then alarmed <$> st !! b else st !! b.
Proof.
  induction l2 as [|a l2 IH]; intros l1 fuel n st Hd Hl.
  { exists n, st. split; [by destruct fuel|]. split; [simpl; lia|done]. }
  destruct fuel as [|fuel]; [simpl in Hl; lia|].
  cbn [signal_loop head List.filter]. destruct (dll_lookup _ _ _ _ _ _ Hd) as (w & Hw & _ & Hn).
  unfold sat at 1. rewrite Hw. change (w_next w) with (lnext w). rewrite Hn.
  assert (a ∉ l2) as Ha by (destruct Hd as [Hnd _]; no_dup Hnd).
  set (st1 := <[a := alarmed w]> st).
  assert (st1 = alter alarmed a st) as Halt.
  { apply map_eq. intros b. unfold st1. rewrite lookup_insert, lookup_alter. case_decide; [|done].
    subst. by rewrite Hw. }
  destruct (IH (l1 ++ [a]) fuel (if has MTX_WAKEUP_WAITING (flags w) then S n else n) st1)
    as (n' & st' & Heq & Hn' & Hst).
  { rewrite Halt. apply dll_alter; [exact alarmed_links|]. by rewrite <-app_assoc. }
  { simpl in Hl. lia. }
  exists n', st'.
  assert (length (List.filter (sat (λ w, has MTX_WAKEUP_WAITING (flags w)) st1) l2) =
          length (List.filter (sat (λ w, has MTX_WAKEUP_WAITING (flags w)) st) l2)) as Hf.
  { f_equal. apply filter_ext_in. intros b Hb%list_elem_of_In. unfold sat, st1.
    by rewrite lookup_insert_ne by congruence. }
  rewrite Hf in Hn'. split_and!.
  - rewrite <-Heq. unfold st1, alarmed. destruct (has MTX_WAKEUP_WAITING (flags w)) eqn:E1.
    + destruct (has MTX_WAKEUP_EVENT (flags w)); [by rewrite insert_id|done].
    + by rewrite insert_id.
  - rewrite Hn'. destruct (has MTX_WAKEUP_WAITING (flags w)); simpl; lia.
  - intros b. rewrite Hst. unfold st1. destruct (decide (b = a)) as [->|Hb].
    + rewrite decide_False, decide_True, lookup_insert_eq, Hw by set_solver. done.
    + rewrite lookup_insert_ne by done. repeat case_decide; set_solver.
Qed.

Lemma broadcast_spec me m m' l :
  queue_holds (m_e m) (m_st m) l → co_thread_signal_internal me true m = Some m' →
  m_co m = Some me ∧ queue_holds (m_e m') (m_st m') l ∧
  (∀ b, m_st m' !! b = if decide (b ∈ l) then alarmed <$> m_st m !! b else m_st m !! b) ∧
  m_co m' = m_co m ∧ m_ls m' = m_ls m ∧ (m_efd m <= m_efd m') ∧ (m_edge m = true → m_edge m' = true).
Proof.
  intros Hq. unfold co_thread_signal_internal, co_thread_check. case_bool_decide as Hc; [|done].
  pose proof Hq as [Hd _].
  destruct (broadcast_loop _ _ l [] (size (m_st m)) 0%nat (m_st m) Hd (queue_size _ _ _ Hq))
    as (n & st' & Heq & _ & Hst).
  destruct Hd as (_ & -> & _). rewrite Heq. intros [= <-].
  assert (queue_holds (m_e m) st' l) as Hq' by (by apply (queue_holds_change (m_e m) _ (m_st m) _ l alarmed alarmed_links)).
  destruct (0 <? n)%nat; cbn; split_and!; try done; lia.
Qed.

(** ** The invariant *)

Section Threads.
Context {W : Type}.
Implicit Types (x y : pc W).

Definition holds x : bool :=
  match x with Inside | Working _ | Broadcasting | Leaving | Queued _ => true | _ => false end.

Definition addrs x : list nat :=
  match x with
  | Trying None a | Asleep None a | Queued a | Waiting a | Checking a => [a]
  | Trying (Some b) a | Asleep (Some b) a => [b; a]
  | _ => []
  end.

Definition asleep x : option nat := match x with Asleep _ a => Some a | _ => None end.

(** A waiter of coroutine [i]. *)
Definition owned (i : nat) (w : io_waiter) : Prop :=
  co w = Some i ∧ has (mask w) EPOLLIN = true ∧ yields w = false.

(** The waiter has an event it waits for: the next walk resumes its coroutine. *)
Definition marked (st : waiters) (a : nat) : Prop :=
  ∃ w, st !! a = Some w ∧ has (mask w) (events w) = true.

(** The eventfd will be reported, or the waiter is marked. *)
Definition lively (m : lockmem) (a : nat) : Prop :=
  (0 < m_efd m ∧ (m_edge m = true ∨ m_ls m = Reported)) ∨ marked (m_st m) a.

Record thread_ok (m : lockmem) (l : list nat) (i : nat) x : Prop := {
  t_addr : ∀ a, a ∈ addrs x → a ∈ l ∧ ∃ w, m_st m !! a = Some w ∧ owned i w;
  t_nodup : NoDup (addrs x);
  t_owner : holds x = true → m_co m = Some i;
  t_wait : ∀ a, waits x = Some a → ∃ w, m_st m !! a = Some w ∧ has MTX_WAKEUP_WAITING (flags w) = true;
  t_marked : m_ls m = Marked → ∀ a, a ∈ addrs x → marked (m_st m) a;
  t_live : ∀ a, asleep x = Some a → m_co m = None → lively m a;
}.

(** What the changes of a waiter by other threads and by the scheduler keep. *)
Definition kept (w w' : io_waiter) : Prop :=
  co w' = co w ∧ mask w' = mask w ∧ yields w' = yields w ∧
  has MTX_WAKEUP_WAITING (flags w') = has MTX_WAKEUP_WAITING (flags w).

Lemma strip_kept w w' : strip w' = strip w → kept w w'.
Proof. intros H%strip_fields. unfold kept, yields. destruct H as (-> & -> & _ & -> & _). done. Qed.

Lemma waits_addrs x a : waits x = Some a → a ∈ addrs x.
Proof. destruct x; try done; intros [= ->]; by left. Qed.

Lemma asleep_addrs x a : asleep x = Some a → a ∈ addrs x.
Proof. destruct x as [| |[b|] c| | | | | | |]; try done; intros [= ->]; set_solver. Qed.

Lemma thread_ok_keep m m' l l' i x x' :
  thread_ok m l i x → addrs x' = addrs x → waits x' = waits x →
  (∀ b w, b ∈ addrs x → b ∈ l → m_st m !! b = Some w →
     b ∈ l' ∧ ∃ w', m_st m' !! b = Some w' ∧ kept w w') →
  (holds x' = true → m_co m' = Some i) →
  (m_ls m' = Marked → ∀ a, a ∈ addrs x → marked (m_st m') a) →
  (∀ a, asleep x' = Some a → m_co m' = None → lively m' a) → thread_ok m' l' i x'.
Proof.
  intros [] Ha Hw Hk Ho Hm Hl.
  assert (∀ b, b ∈ addrs x → b ∈ l' ∧ ∃ w w', m_st m !! b = Some w ∧ m_st m' !! b = Some w' ∧ kept w w' ∧ owned i w) as Hb.
  { intros b Hb. destruct (t_addr0 b Hb) as (Hbl & w & Hst & Hown).
    destruct (Hk b w Hb Hbl Hst) as (? & w' & ? & ?). eauto 10. }
  split; try rewrite Ha; try done.
  - intros a Hin. destruct (Hb a Hin) as (? & w & w' & _ & ? & (K1 & K2 & K3 & _) & (? & ? & ?)).
    split; [done|]. exists w'. split; [done|]. unfold owned. by rewrite K1, K2, K3.
  - intros a Hwa. rewrite Hw in Hwa. destruct (t_wait0 a Hwa) as (w & Hst & Hf).
    destruct (Hb a (waits_addrs _ _ Hwa)) as (_ & w1 & w' & Hst1 & ? & (_ & _ & _ & K4) & _).
    exists w'. split; [done|]. congruence.
Qed.

(** Changes of the waiters by linking, at one address. *)
Lemma linked_keep m st m' b w :
  linked_as m st m' → st !! b = Some w → ∃ w', m_st m' !! b = Some w' ∧ strip w' = strip w.
Proof. intros [] Hw. by eapply strip_lookup. Qed.

Lemma linked_marked m st m' b : linked_as m st m' → marked st b → marked (m_st m') b.
Proof.
  intros Hl (w & Hw & Hh). destruct (linked_keep _ _ _ _ _ Hl Hw) as (w' & Hw' & Hs).
  exists w'. apply strip_fields in Hs as (_ & -> & -> & _). done.
Qed.

Lemma linked_lively m st m' b :
  linked_as m st m' → st !! b = m_st m !! b → lively m b → lively m' b.
Proof.
  intros Hl Hb Hlv. pose proof Hl as []. destruct Hlv as [[H1 H2]|Hm].
  - left. by rewrite la_efd0, la_edge0, la_ls0.
  - right. eapply linked_marked; [done|]. destruct Hm as (w & Hw & ?). exists w. by rewrite Hb.
Qed.

Lemma thread_linked m st m' l l' j y :
  linked_as m st m' → thread_ok m l j y →
  (∀ b, b ∈ addrs y → b ∈ l → b ∈ l' ∧ st !! b = m_st m !! b) → thread_ok m' l' j y.
Proof.
  intros Hl Ht Hb. pose proof Hl as []. eapply thread_ok_keep; try done.
  - intros b w Hin Hbl Hw. destruct (Hb b Hin Hbl) as [? Hst]. split; [done|]. rewrite <-Hst in Hw.
    destruct (linked_keep _ _ _ _ _ Hl Hw) as (w' & ? & ?). exists w'. split; [done|by apply strip_kept].
  - intros Hh. rewrite la_co0. by eapply t_owner.
  - intros Hm. rewrite la_ls0 in Hm. done.
  - intros a Ha Hn. rewrite la_co0 in Hn. eapply linked_lively; [done| |by eapply t_live].
    apply Hb; [by apply asleep_addrs|]. by eapply t_addr, asleep_addrs.
Qed.

(** Two threads have different waiters. *)
Lemma addrs_disjoint m l l' i j x y a :
  thread_ok m l i x → thread_ok m l' j y → i ≠ j → a ∈ addrs x → a ∈ addrs y → False.
Proof.
  intros Hi Hj Hne Hx Hy. destruct (t_addr _ _ _ _ Hi a Hx) as (_ & w & Hw & Hc & _).
  destruct (t_addr _ _ _ _ Hj a Hy) as (_ & w' & Hw' & Hc' & _). congruence.
Qed.

(** Another thread, when [i] gives the lock up, or takes it. *)
Lemma thread_unlock m l i j y :
  thread_ok m l j y → i ≠ j → m_co m = Some i → 0 <= m_efd m →
  thread_ok (co_thread_unlock_internal m) l j y.
Proof.
  intros Ht Hne Hco Hefd. eapply thread_ok_keep; try done.
  - intros b w _ Hl Hw. split; [done|]. by exists w.
  - intros Hh. pose proof (t_owner _ _ _ _ Ht Hh). congruence.
  - by apply Ht.
  - intros a _ _. left. cbn. split; [lia|by left].
Qed.

Lemma thread_locked m l i j y :
  thread_ok m l j y → m_co m = None → thread_ok (set_co (Some i) m) l j y.
Proof.
  intros Ht Hco. eapply thread_ok_keep; try done.
  - intros b w _ Hl Hw. split; [done|]. by exists w.
  - intros Hh. pose proof (t_owner _ _ _ _ Ht Hh). congruence.
  - by apply Ht.
Qed.

(** A thread that moves without touching the lock. *)
Lemma thread_move m l i x x' :
  thread_ok m l i x → addrs x' = addrs x → waits x' = waits x → holds x' = holds x →
  (∀ a, asleep x' = Some a → m_co m = None → lively m a) → thread_ok m l i x'.
Proof.
  intros Ht Ha Hw Hh Hl. eapply thread_ok_keep; try done.
  - intros b w _ Hbl Hw'. split; [done|]. by exists w.
  - rewrite Hh. by eapply t_owner.
  - by apply Ht.
Qed.

Lemma thread_outside m l i : thread_ok m l i Outside.
Proof. split; try done; [intros a Ha; by apply not_elem_of_nil in Ha|constructor|intros ? a Ha; by apply not_elem_of_nil in Ha]. Qed.

(** The thread's own enqueueing and dequeueing. *)
Lemma thread_enqueue m l i x x' a w m' :
  thread_ok m l i x → (∀ b, b ∈ l → is_Some (m_st m !! b)) →
  linked_as m (<[a := w]> (m_st m)) m' → m_st m !! a = None → owned i w →
  addrs x' = addrs x ++ [a] →
  (∀ c, waits x' = Some c → c = a ∧ has MTX_WAKEUP_WAITING (flags w) = true) →
  asleep x' = None → (holds x' = true → holds x = true) → thread_ok m' (l ++ [a]) i x'.
Proof.
  intros Ht Hdom Hl Ha Hown Hadd Hwait Has Hh. pose proof Hl as [].
  assert (∀ b, b ∈ addrs x → b ∈ l ∧ b ≠ a) as Hx.
  { intros b Hb. destruct (t_addr _ _ _ _ Ht b Hb) as (? & w' & Hw' & _). split; [done|]. congruence. }
  destruct (linked_keep _ _ _ a w Hl) as (wa & Hwa & Hsa); [by apply lookup_insert_eq|].
  split.
  - rewrite Hadd. intros b [Hb| ->%list_elem_of_singleton]%elem_of_app.
    + destruct (t_addr _ _ _ _ Ht b Hb) as (? & w' & Hw' & Ho). split; [set_solver|].
      destruct (linked_keep _ _ _ b w' Hl) as (w'' & ? & Hs).
      { rewrite lookup_insert_ne; [done|]. intros ->. by destruct (Hx b Hb). }
      exists w''. split; [done|]. destruct Ho as (? & ? & ?). apply strip_kept in Hs as (K1 & K2 & K3 & _).
      unfold owned. by rewrite K1, K2, K3.
    + split; [set_solver|]. exists wa. split; [done|]. destruct Hown as (? & ? & ?).
      apply strip_kept in Hsa as (K1 & K2 & K3 & _). unfold owned. by rewrite K1, K2, K3.
  - rewrite Hadd. apply NoDup_app. split; [by eapply t_nodup|]. split; [|apply NoDup_singleton].
    intros b Hb ->%list_elem_of_singleton. by destruct (Hx a Hb).
  - intros Hhx. rewrite la_co0. eapply t_owner; [done|]. by apply Hh.
  - intros c Hc. destruct (Hwait c Hc) as [-> Hf]. exists wa. split; [done|].
    apply strip_kept in Hsa as (_ & _ & _ & ->). done.
  - intros Hm. by rewrite la_ls0 in Hm.
  - intros c Hc. by rewrite Has in Hc.
Qed.

Lemma thread_dequeue m l l' i x x' a m' :
  thread_ok m l i x → (∀ b, b ∈ l' ↔ b ∈ l ∧ b ≠ a) → linked_as m (delete a (m_st m)) m' →
  (∀ b, b ∈ addrs x' → b ∈ addrs x ∧ b ≠ a) → NoDup (addrs x') → waits x' = None → asleep x' = None →
  (holds x' = true → m_co m = Some i) → thread_ok m' l' i x'.
Proof.
  intros Ht Hl' Hl Hadd Hnd Hw Has Hh. pose proof Hl as []. split; try done.
  - intros b Hb. destruct (Hadd b Hb) as [Hb' Hne].
    destruct (t_addr _ _ _ _ Ht b Hb') as (? & w' & Hw' & ? & ? & ?). split; [by rewrite Hl'|].
    destruct (linked_keep _ _ _ b w' Hl) as (w'' & ? & Hs); [by rewrite lookup_delete_ne|].
    exists w''. split; [done|]. apply strip_kept in Hs as (K1 & K2 & K3 & _).
    unfold owned. by rewrite K1, K2, K3.
  - rewrite la_co0. done.
  - intros c Hc. by rewrite Hw in Hc.
  - intros Hm. by rewrite la_ls0 in Hm.
  - intros c Hc. by rewrite Has in Hc.
Qed.

End Threads.

Lemma waiters_owned i t :
  owned i (set_mask (Z.lor EPOLLIN UNMASKED_EVENTS) (lock_waiter i)) ∧
  owned i (set_mask (Z.lor EPOLLIN UNMASKED_EVENTS) (wait_waiter i t)).
Proof. by repeat split. Qed.

Section Invariant.
Context {W : Type}.
Abbreviation thread := (pc W * proc W unit)%type.
Implicit Types (ths : list thread) (w : W) (x y : pc W).

(** A thread that waits and was not signalled would still wait, unless the thread
    that holds the lock is about to signal. *)
Definition conditions (m : lockmem) (w : W) ths : Prop :=
  (∃ j p, ths !! j = Some (Broadcasting, p)) ∨
  ∀ j x p a wt, ths !! j = Some (x, p) → waits x = Some a → m_st m !! a = Some wt →
    has MTX_WAKEUP_EVENT (flags wt) = false → blocked p w.

Record inv (m : lockmem) (w : W) ths (l : list nat) : Prop := {
  i_queue : queue_holds (m_e m) (m_st m) l;
  i_efd : 0 <= m_efd m;
  i_owner : ∀ i, m_co m = Some i → ∃ x p, ths !! i = Some (x, p) ∧ holds x = true;
  i_thread : ∀ j x p, ths !! j = Some (x, p) → thread_ok m l j x;
  i_cond : conditions m w ths;
  i_working : ∀ j v p, ths !! j = Some (Working v, p) → v = w;
}.

(** The threads after a step of thread [i]. *)
Lemma lookup_step ths i x p forked j y q :
  (i < length ths)%nat → (<[i := (x, p)]> ths ++ map (pair Outside) forked) !! j = Some (y, q) →
  (j = i ∧ y = x ∧ q = p) ∨ (j ≠ i ∧ ths !! j = Some (y, q)) ∨ (j ≠ i ∧ y = Outside).
Proof.
  intros Hi Hj. apply lookup_app_Some in Hj as [Hj|[Hl Hj]].
  - destruct (decide (j = i)) as [->|Hne].
    + rewrite list_lookup_insert_eq in Hj by done. injection Hj as <- <-. by left.
    + rewrite list_lookup_insert_ne in Hj by done. by right; left.
  - rewrite length_insert in Hl. rewrite list_lookup_fmap in Hj. right; right.
    destruct (forked !! _); [|done]. injection Hj as <- _. split; [lia|done].
Qed.

Lemma lookup_step_old ths i x p forked j y q :
  j ≠ i → ths !! j = Some (y, q) →
  (<[i := (x, p)]> ths ++ map (pair Outside) forked) !! j = Some (y, q).
Proof.
  intros Hne Hj. apply lookup_app_l_Some. by rewrite list_lookup_insert_ne.
Qed.

Lemma lookup_step_self ths i x p forked :
  (i < length ths)%nat → (<[i := (x, p)]> ths ++ map (pair Outside) forked) !! i = Some (x, p).
Proof. intros Hi. apply lookup_app_l_Some. by rewrite list_lookup_insert_eq. Qed.

(** A step of thread [i] that leaves each other thread well. *)
Lemma inv_step m w ths l i x p m' w' l' x' p' forked :
  inv m w ths l → ths !! i = Some (x, p) →
  queue_holds (m_e m') (m_st m') l' → 0 <= m_efd m' → thread_ok m' l' i x' →
  (∀ j y, j ≠ i → thread_ok m l j y → thread_ok m' l' j y) →
  (∀ j, m_co m' = Some j → if decide (j = i) then holds x' = true else m_co m = Some j) →
  conditions m' w' (<[i := (x', p')]> ths ++ map (pair Outside) forked) →
  (∀ v, x' = Working v → v = w') → (w' = w ∨ holds x = true) →
  inv m' w' (<[i := (x', p')]> ths ++ map (pair Outside) forked) l'.
Proof.
  intros [] Hi Hq Hefd Hx Hothers Hco Hcond Hv Hw. pose proof (lookup_lt_Some _ _ _ Hi) as Hlt.
  split; try done.
  - intros j Hj. specialize (Hco j Hj). case_decide as Hji.
    + subst j. exists x', p'. split; [by apply lookup_step_self|done].
    + destruct (i_owner0 j Hco) as (y & q & Hy & Hh). exists y, q. split; [by apply lookup_step_old|done].
  - intros j y q Hj. apply lookup_step in Hj as [(-> & -> & _)|[[Hne Hj]|[Hne ->]]]; [done| | |done].
    + eapply Hothers; [done|by eapply i_thread0].
    + apply thread_outside.
  - intros j v q Hj. apply lookup_step in Hj as [(_ & Hj & _)|[[Hne Hj]|[_ Hj]]]; [by apply Hv|..|done|done].
    destruct Hw as [->|Hh]; [by eapply i_working0|].
    pose proof (t_owner _ _ _ _ (i_thread0 _ _ _ Hj) eq_refl) as H1.
    pose proof (t_owner _ _ _ _ (i_thread0 _ _ _ Hi) Hh) as H2. congruence.
Qed.

(** The conditions after a step that signals nobody. *)
Lemma conditions_step m w ths i x p m' x' p' forked :
  conditions m w ths → ths !! i = Some (x, p) → x ≠ Broadcasting →
  (waits x' = None ∨ waits x' = waits x ∧ p' = p) →
  (∀ j y q b wt', ths !! j = Some (y, q) → waits y = Some b → m_st m' !! b = Some wt' →
     (j ≠ i ∨ waits x' ≠ None) → ∃ wt, m_st m !! b = Some wt ∧ flags wt = flags wt') →
  conditions m' w (<[i := (x', p')]> ths ++ map (pair Outside) forked).
Proof.
  intros Hc Hi Hx Hw Hst. pose proof (lookup_lt_Some _ _ _ Hi) as Hlt. destruct Hc as [(j & q & Hj)|Hc].
  - left. exists j, q. apply lookup_step_old; [|done]. intros ->. rewrite Hi in Hj. congruence.
  - right. intros j y q b wt' Hj Hb Hwt' Hf.
    apply lookup_step in Hj as [(-> & -> & ->)|[[Hne Hj]|[Hne ->]]]; [| |done|done].
    + destruct Hw as [Hw|[Hw ->]]; [congruence|]. rewrite Hw in Hb.
      destruct (Hst i x p b wt' Hi Hb Hwt') as (wt & ? & Heq); [right; congruence|].
      eapply Hc; [done..|]. by rewrite Heq.
    + destruct (Hst j y q b wt' Hj Hb Hwt') as (wt & ? & Heq); [by left|].
      eapply Hc; [done..|]. by rewrite Heq.
Qed.

(** Enqueueing by thread [i]. *)
Lemma inv_enqueue m w ths l i x p a (w0 : io_waiter) m' x' :
  inv m w ths l → ths !! i = Some (x, p) → enqueue a w0 m = Some m' →
  owned i (set_mask (Z.lor (mask w0) UNMASKED_EVENTS) w0) → addrs x' = addrs x ++ [a] →
  (∀ c, waits x' = Some c → c = a ∧ has MTX_WAKEUP_WAITING (flags w0) = true) →
  asleep x' = None → holds x' = holds x →
  (waits x' = None ∧ x ≠ Broadcasting ∨ x = Working w ∧ blocked p w) →
  inv m' w (<[i := (x', p)]> ths ++ map (pair Outside) []) (l ++ [a]).
Proof.
  intros Hinv Hi He Hown Hadd Hwait Has Hh Hc. pose proof Hinv as [].
  destruct (enqueue_spec _ _ _ _ _ i_queue0 He) as (Ha & Hq' & Hl).
  assert (∀ b, b ∈ l → is_Some (m_st m !! b)) as Hdom by (intros; by eapply queue_holds_dom).
  assert (∀ b, b ∈ l → <[a := set_mask (Z.lor (mask w0) UNMASKED_EVENTS) w0]> (m_st m) !! b = m_st m !! b) as Hne.
  { intros b Hb. apply lookup_insert_ne. intros ->. destruct (Hdom b Hb). congruence. }
  assert (∀ j y q b wt', ths !! j = Some (y, q) → waits y = Some b → m_st m' !! b = Some wt' →
     ∃ wt, m_st m !! b = Some wt ∧ flags wt = flags wt') as Hfl.
  { intros j y q b wt' Hj Hb Hwt'. destruct (t_wait _ _ _ _ (i_thread0 j y q Hj) b Hb) as (wt & Hwt & _).
    destruct (linked_keep _ _ _ b wt Hl) as (wt2 & H2 & Hs).
    { rewrite Hne; [done|]. exact (proj1 (t_addr _ _ _ _ (i_thread0 j y q Hj) b (waits_addrs _ _ Hb))). }
    exists wt. split; [done|]. apply strip_fields in Hs as (_ & _ & _ & Hs & _). congruence. }
  pose proof Hl as []. eapply inv_step; try done.
  - by rewrite la_efd0.
  - by eapply (thread_enqueue m l i x x' a); try done; [by eapply i_thread0|intros; rewrite <-Hh].
  - intros j y _ Hy. eapply thread_linked; try done. intros b _ Hb. split; [set_solver|by apply Hne].
  - intros j Hj. rewrite la_co0 in Hj. case_decide as Hji; [|done]. subst j. rewrite Hh.
    destruct (i_owner0 i Hj) as (x1 & p1 & H1 & H2). congruence.
  - destruct Hc as [[Hc Hb]|[-> Hb]].
    + eapply conditions_step; try done; [by left|]. intros j y q b wt' ? ? ? _. by eapply Hfl.
    + right. intros j y q b wt' Hj Hwb Hwt' Hf.
      apply lookup_step in Hj as [(-> & -> & ->)|[[Hne' Hj]|[_ ->]]]; [done| |done|by eapply lookup_lt_Some].
      destruct (Hfl j y q b wt' Hj Hwb Hwt') as (wt & Hwt & Heq).
      destruct i_cond0 as [(k & r & Hk)|Hc]; [|eapply Hc; [done..|congruence]].
      pose proof (t_owner _ _ _ _ (i_thread0 _ _ _ Hk) eq_refl) as H1.
      pose proof (t_owner _ _ _ _ (i_thread0 _ _ _ Hi) eq_refl) as H2. congruence.
  - intros v ->. by destruct (addrs x).
  - by left.
Qed.

(** Taking the lock, from [co_thread_lock]. *)
Lemma inv_dequeue_others m l l' a m' i x j y :
  thread_ok m l i x → a ∈ addrs x → linked_as m (delete a (m_st m)) m' →
  (∀ b, b ∈ l' ↔ b ∈ l ∧ b ≠ a) → j ≠ i → thread_ok m l j y → thread_ok m' l' j y.
Proof.
  intros Hx Ha Hl Hl' Hne Hy. eapply thread_linked; try done. intros b Hb Hbl.
  assert (b ≠ a) by (intros ->; by eapply (addrs_disjoint m l l i j)).
  split; [by rewrite Hl'|by rewrite lookup_delete_ne].
Qed.

(** The flags of the waiters that are left. *)
Lemma dequeue_flags m a m' b wt' :
  linked_as m (delete a (m_st m)) m' → m_st m' !! b = Some wt' →
  ∃ wt, m_st m !! b = Some wt ∧ flags wt = flags wt'.
Proof.
  intros [] Hb. symmetry in la_st0. destruct (strip_lookup _ _ _ _ la_st0 Hb) as (wt & Hwt & Hs).
  apply lookup_delete_Some in Hwt as [_ Hwt]. exists wt. split; [done|]. by apply strip_fields in Hs as (_ & _ & _ & -> & _).
Qed.

Lemma inv_take m w ths l i p a m' :
  inv m w ths l → ths !! i = Some (Trying None a, p) → co_thread_lock_try i a m = Some (true, m') →
  ∃ l', inv m' w (<[i := (Inside, p)]> ths ++ map (pair Outside) []) l'.
Proof.
  intros Hinv Hi Hm. pose proof Hinv as []. unfold co_thread_lock_try in Hm.
  destruct (m_co m) eqn:Hco; [done|]. destruct (dequeue a (set_co (Some i) m)) as [m1|] eqn:Hd; [|done].
  injection Hm as ->. pose proof (i_thread0 _ _ _ Hi) as Hx.
  assert (a ∈ l) as Hal by (apply (t_addr _ _ _ _ Hx); by left).
  destruct (dequeue_spec a (set_co (Some i) m) m' l i_queue0 Hal Hd) as ((l' & Hq' & Hl') & Hl).
  exists l'. pose proof Hl as []. eapply inv_step; try done.
  - by rewrite la_efd0.
  - eapply (thread_dequeue (set_co (Some i) m) l l' i (Trying None a)); try done; [by apply thread_locked| |apply NoDup_nil_2].
    intros b Hb. by apply not_elem_of_nil in Hb.
  - intros j y Hne Hy. eapply (inv_dequeue_others (set_co (Some i) m) l l' a m' i (Trying None a)); try done.
    + by apply thread_locked.
    + by left.
    + by apply thread_locked.
  - intros j Hj. rewrite la_co0 in Hj. injection Hj as <-. by rewrite decide_True.
  - eapply conditions_step; try done; [by left|]. intros j y q b wt' _ _ Hb _.
    exact (dequeue_flags (set_co (Some i) m) a m' b wt' Hl Hb).
  - by left.
Qed.

Lemma inv_retake m w ths l i p wa a m' m'' :
  inv m w ths l → ths !! i = Some (Trying (Some wa) a, p) →
  co_thread_lock_try i a m = Some (true, m') → dequeue wa m' = Some m'' →
  ∃ l', inv m'' w (<[i := (Inside, p)]> ths ++ map (pair Outside) []) l'.
Proof.
  intros Hinv Hi Hm Hd2. pose proof Hinv as []. unfold co_thread_lock_try in Hm.
  destruct (m_co m) eqn:Hco; [done|]. destruct (dequeue a (set_co (Some i) m)) as [m1|] eqn:Hd; [|done].
  injection Hm as ->. pose proof (i_thread0 _ _ _ Hi) as Hx.
  assert (a ∈ l ∧ wa ∈ l) as [Hal Hwl] by (split; apply (t_addr _ _ _ _ Hx); simpl; set_solver).
  assert (wa ≠ a) as Hne.
  { pose proof (t_nodup _ _ _ _ Hx) as [Hn _]%NoDup_cons. set_solver. }
  destruct (dequeue_spec a (set_co (Some i) m) m' l i_queue0 Hal Hd) as ((l1 & Hq1 & Hl1) & Hk1).
  destruct (dequeue_spec wa m' m'' l1 Hq1) as ((l2 & Hq2 & Hl2) & Hk2); [by rewrite Hl1|done|].
  assert (thread_ok m' l1 i (Trying (W := W) None wa)) as Hx1.
  { eapply (thread_dequeue (set_co (Some i) m) l l1 i (Trying (Some wa) a)); try done; [by apply thread_locked| |].
    - intros b ->%list_elem_of_singleton. split; [by left|done].
    - apply NoDup_singleton. }
  exists l2. pose proof Hk1 as [_ Hco1 He1 _ _ _]. pose proof Hk2 as [_ Hco2 He2 _ _ _].
  eapply inv_step; try done.
  - by rewrite He2, He1.
  - eapply (thread_dequeue m' l1 l2 i (Trying None wa)); try done; try apply NoDup_nil_2.
    intros b Hb. by apply not_elem_of_nil in Hb.
  - intros j y Hji Hy.
    eapply (inv_dequeue_others m' l1 l2 wa m'' i (Trying None wa)); try done; [by left|].
    eapply (inv_dequeue_others (set_co (Some i) m) l l1 a m' i (Trying (Some wa) a)); try done.
    + by apply thread_locked.
    + simpl. set_solver.
    + by apply thread_locked.
  - intros j Hj. rewrite Hco2, Hco1 in Hj. injection Hj as <-. by rewrite decide_True.
  - eapply conditions_step; try done; [by left|]. intros j y q b wt' _ _ Hb _.
    destruct (dequeue_flags _ _ _ _ _ Hk2 Hb) as (w1 & Hw1 & <-).
    destruct (dequeue_flags _ _ _ _ _ Hk1 Hw1) as (w2 & Hw2 & <-). by exists w2.
  - by left.
Qed.

(** A thread moves, and the lock is as it was. *)
Lemma inv_move m w ths l i x p x' p' forked :
  inv m w ths l → ths !! i = Some (x, p) → addrs x' = addrs x → waits x' = waits x →
  holds x' = holds x → (∀ a, asleep x' = Some a → is_Some (m_co m)) → x ≠ Broadcasting →
  (p' = p ∨ waits x = None) → (∀ v, x' = Working v → v = w) →
  inv m w (<[i := (x', p')]> ths ++ map (pair Outside) forked) l.
Proof.
  intros Hinv Hi Ha Hw Hh Has Hb Hp Hv. pose proof Hinv as []. eapply inv_step; try done.
  - eapply thread_move; try done; [by eapply i_thread0|].
    intros a Hs Hn. destruct (Has a Hs) as [? ?]. congruence.
  - intros j Hj. case_decide as Hji; [|done]. subst j. rewrite Hh.
    destruct (i_owner0 i Hj) as (x1 & p1 & H1 & H2). congruence.
  - eapply conditions_step; try done.
    + destruct Hp as [->|Hp]; [by right|left; by rewrite Hw].
    + intros j y q b wt' _ _ Hb' _. by exists wt'.
  - by left.
Qed.

(** Only the holder can be about to signal. *)
Lemma no_broadcast m w ths l i x p :
  inv m w ths l → ths !! i = Some (x, p) → holds x = true → x ≠ Broadcasting →
  ∀ j y q a wt, ths !! j = Some (y, q) → waits y = Some a → m_st m !! a = Some wt →
    has MTX_WAKEUP_EVENT (flags wt) = false → blocked q w.
Proof.
  intros [] Hi Hh Hb. destruct i_cond0 as [(k & r & Hk)|Hc]; [|done].
  pose proof (t_owner _ _ _ _ (i_thread0 _ _ _ Hk) eq_refl) as H1.
  pose proof (t_owner _ _ _ _ (i_thread0 _ _ _ Hi) Hh) as H2. congruence.
Qed.

(** The holder changes the memory. *)
Lemma inv_commit m w ths l i p x' p' w' :
  inv m w ths l → ths !! i = Some (Working w, p) →
  x' = Broadcasting ∨ x' = Leaving ∧ quiet ths w w' →
  inv m w' (<[i := (x', p')]> ths ++ map (pair Outside) []) l.
Proof.
  intros Hinv Hi Hx. pose proof Hinv as []. pose proof (lookup_lt_Some _ _ _ Hi) as Hlt.
  eapply inv_step; try done.
  - eapply (thread_move m l i (Working w)); [by eapply i_thread0|..]; by destruct Hx as [->|[-> _]].
  - intros j Hj. case_decide as Hji; [|done]. by destruct Hx as [->|[-> _]].
  - destruct Hx as [->|[-> Hq]].
    + left. exists i, p'. by apply lookup_step_self.
    + right. intros j y q a wt Hj Hw Hwt Hf.
      apply lookup_step in Hj as [(-> & -> & ->)|[[Hne Hj]|[_ ->]]]; [done| |done|done].
      eapply Hq; [done..|]. by eapply (no_broadcast m w ths l i (Working w) p).
  - intros v ->. by destruct Hx as [?|[? _]].
  - by right.
Qed.

Lemma alarmed_kept wt : kept wt (alarmed wt) ∧ events (alarmed wt) = events wt ∧ mask (alarmed wt) = mask wt.
Proof.
  unfold alarmed, kept, yields. repeat case_match; try done. unfold wake. cbn. rewrite !has_lor.
  by rewrite !orb_false_r.
Qed.

(** After a broadcast every thread that waits is signalled. *)
Lemma inv_broadcast m w ths l i p m' :
  inv m w ths l → ths !! i = Some (Broadcasting, p) →
  co_thread_signal_internal i true m = Some m' →
  inv m' w (<[i := (Leaving, p)]> ths ++ map (pair Outside) []) l.
Proof.
  intros Hinv Hi Hm. pose proof Hinv as []. pose proof (lookup_lt_Some _ _ _ Hi) as Hlt.
  destruct (broadcast_spec _ _ _ _ i_queue0 Hm) as (Hco & Hq' & Hst & Hco' & Hls & Hefd & Hedge).
  assert (∀ j y y', thread_ok m l j y → addrs y' = addrs y → waits y' = waits y → asleep y' = asleep y →
    (holds y' = true → holds y = true) → thread_ok m' l j y') as Hkeep.
  { intros j y y' Hy Ha Hw Has Hh. eapply thread_ok_keep; try done.
    - intros b wt _ Hb Hwt. split; [done|]. rewrite Hst, decide_True, Hwt by done.
      exists (alarmed wt). split; [done|apply alarmed_kept].
    - rewrite Hco'. intros. eapply t_owner; [done|]. by apply Hh.
    - rewrite Hls. intros Hm' a Hin. destruct (t_marked _ _ _ _ Hy Hm' a Hin) as (wt & Hwt & Hh').
      exists (alarmed wt). rewrite Hst, decide_True, Hwt by (by apply (t_addr _ _ _ _ Hy)).
      split; [done|]. by destruct (alarmed_kept wt) as (_ & -> & ->).
    - intros a _ Hn. congruence. }
  eapply inv_step; try done.
  - lia.
  - eapply (Hkeep i Broadcasting); [by eapply i_thread0|done..].
  - intros j y _ Hy. by eapply (Hkeep j y).
  - intros j Hj. rewrite Hco' in Hj. case_decide; [done|done].
  - right. intros j y q a wt Hj Hw Hwt Hf. exfalso.
    apply lookup_step in Hj as [(-> & -> & ->)|[[Hne Hj]|[_ ->]]]; [done| |done|done].
    pose proof (i_thread0 _ _ _ Hj) as Hy. destruct (t_wait _ _ _ _ Hy a Hw) as (wt0 & Hwt0 & Hf0).
    assert (a ∈ l) as Hal by (apply (t_addr _ _ _ _ Hy); by apply waits_addrs).
    rewrite Hst, decide_True, Hwt0 in Hwt by done. injection Hwt as <-. unfold alarmed in Hf.
    rewrite Hf0 in Hf. destruct (has MTX_WAKEUP_EVENT (flags wt0)) eqn:E; [congruence|].
    unfold wake in Hf. cbn in Hf. rewrite has_lor in Hf. by apply orb_false_iff in Hf as [_ Hf].
  - by left.
Qed.

(** The holder gives the lock up. *)
Lemma inv_unlock m w ths l i x x' p :
  inv m w ths l → ths !! i = Some (x, p) → m_co m = Some i → holds x = true → x ≠ Broadcasting →
  addrs x' = addrs x → waits x' = waits x → holds x' = false →
  inv (co_thread_unlock_internal m) w (<[i := (x', p)]> ths ++ map (pair Outside) []) l.
Proof.
  intros Hinv Hi Hco Hh Hx Ha Hw Hh'. pose proof Hinv as []. eapply inv_step; try done.
  - cbn. lia.
  - eapply thread_ok_keep; [by eapply i_thread0|done|done|..].
    + intros b wt _ Hb Hwt. split; [done|]. by exists wt.
    + by rewrite Hh'.
    + intros Hm. cbn in Hm. by apply (t_marked _ _ _ _ (i_thread0 _ _ _ Hi)).
    + intros a _ _. left. cbn. split; [lia|by left].
  - intros j y Hne Hy. by eapply (thread_unlock m l i).
  - eapply conditions_step; try done; [by right|]. intros j y q b wt' _ _ Hb _. by exists wt'.
  - by intros v ->.
  - by left.
Qed.

(** What is in the memory is what the last section left, unless one is under way. *)
Definition resting (w : memory W) ths : Prop := (∃ j v p, ths !! j = Some (Working v, p)) ∨ cells w = settled w.

Lemma resting_step (w w' : memory W) ths i x p x' p' forked :
  resting w ths → ths !! i = Some (x, p) →
  cells w' = settled w' ∨ (∃ v, x' = Working v) ∨ w' = w ∧ (∀ v, x ≠ Working v) →
  resting w' (<[i := (x', p')]> ths ++ map (pair Outside) forked).
Proof.
  intros Ht Hi [Hw|[[v ->]|[-> Hx]]]; [by right|left|].
  - exists i, v, p'. apply lookup_step_self. by eapply lookup_lt_Some.
  - destruct Ht as [(j & v & q & Hj)|Ht]; [left|by right]. exists j, v, q.
    apply lookup_step_old; [|done]. intros ->. rewrite Hi in Hj. injection Hj as -> _. by eapply Hx.
Qed.

(** The memory of the thread that begins a section. *)
Lemma resting_inside m (w : memory W) ths l i p :
  inv m (settled w) ths l → resting w ths → ths !! i = Some (Inside, p) → cells w = settled w.
Proof.
  intros [] [(j & v & q & Hj)|Ht] Hi; [|done].
  pose proof (t_owner _ _ _ _ (i_thread0 _ _ _ Hj) eq_refl) as H1.
  pose proof (t_owner _ _ _ _ (i_thread0 _ _ _ Hi) eq_refl) as H2. congruence.
Qed.

(** Every step of a thread keeps the invariant. *)
Lemma tstep_inv m (w w' : memory W) ths l i x p m' x' p' forked :
  inv m (settled w) ths l → resting w ths → ths !! i = Some (x, p) → tstep ths i m w x p m' w' x' p' forked →
  (∃ l', inv m' (settled w') (<[i := (x', p')]> ths ++ map (pair Outside) forked) l') ∧
  resting w' (<[i := (x', p')]> ths ++ map (pair Outside) forked).
Proof.
  intros Hinv Ht Hi Hs. split.
  2: { eapply resting_step; [exact Ht|exact Hi|].
       destruct Hs; first [by left|by right; left; eexists|by right; right|left; by eapply i_working]. }
  destruct Hs; cbn [settled] in *.
  all: try pose proof (i_working _ _ _ _ Hinv _ _ _ Hi) as ->.
  - exists l. eapply inv_move; try done. by right.
  - exists l. eapply inv_move; try done. by right.
  - exists (l ++ [a]). eapply inv_enqueue; try done; by left.
  - by eapply inv_take.
  - by eapply inv_retake.
  - exists l. unfold co_thread_lock_try in H.
    destruct (m_co m) eqn:Hco; [|by destruct (dequeue _ _)]. injection H as <-.
    eapply inv_move; try done. by left.
  - exists l. eapply inv_move; try done; [by left|]. intros v [= <-]. by eapply resting_inside.
  - exists l. eapply inv_move; try done; [by left|]. by intros v' [= <-].
  - exists l. eapply inv_commit; try done. by left.
  - exists l. eapply inv_commit; try done. by right.
  - exists l. by eapply inv_broadcast.
  - exists l. unfold co_thread_unlock, co_thread_check in H. case_bool_decide; [|done].
    injection H as <-. by eapply inv_unlock.
  - exists (l ++ [a]). unfold co_thread_wait_enqueue in H0. destruct (co_thread_check i m); [|done].
    eapply inv_enqueue; try done.
    + intros c [= <-]. done.
    + by right.
  - exists l. eapply inv_unlock; try done. by eapply (t_owner _ _ _ _ (i_thread _ _ _ _ Hinv _ _ _ Hi)).
  - exists (l ++ [b]). eapply inv_enqueue; try done; by left.
  - exists l. eapply inv_move; try done. by left.
Qed.

(** ** The listener and the scheduler *)

Lemma marked_events m (st' : waiters) (l : list nat) ev b wt :
  (∀ b, st' !! b = if decide (b ∈ l) then mark ev <$> m_st m !! b else m_st m !! b) →
  m_st m !! b = Some wt →
  ∃ wt', st' !! b = Some wt' ∧ kept wt wt' ∧ flags wt' = flags wt ∧
    (has (mask wt) (events wt) = true → has (mask wt') (events wt') = true).
Proof.
  intros Hst Hwt. rewrite Hst, Hwt. case_decide; simpl; eexists; (split; [reflexivity|]); [|done].
  split; [done|]. split; [done|]. unfold mark. cbn. rewrite has_lor. by intros ->.
Qed.

(** A change of the lock's memory that moves no thread. *)
Lemma inv_env m w ths l m' :
  inv m w ths l → queue_holds (m_e m') (m_st m') l → 0 <= m_efd m' → m_co m' = m_co m →
  (∀ b wt, b ∈ l → m_st m !! b = Some wt →
     ∃ wt', m_st m' !! b = Some wt' ∧ kept wt wt' ∧ flags wt' = flags wt) →
  (∀ j y, thread_ok m l j y → m_ls m' = Marked → ∀ a, a ∈ addrs y → marked (m_st m') a) →
  (∀ j y, thread_ok m l j y → ∀ a, asleep y = Some a → m_co m = None → lively m' a) →
  inv m' w ths l.
Proof.
  intros [] Hq Hefd Hco Hst Hm Hl. split; try done.
  - by rewrite Hco.
  - intros j x p Hj. specialize (i_thread0 _ _ _ Hj). eapply thread_ok_keep; try done.
    + intros b wt _ Hb Hwt. split; [done|]. destruct (Hst b wt Hb Hwt) as (wt' & ? & ? & _). eauto.
    + rewrite Hco. by eapply t_owner.
    + by eapply Hm.
    + rewrite Hco. by eapply Hl.
  - destruct i_cond0 as [?|Hc]; [by left|right]. intros j x p a wt' Hj Hx Hwt' Hf.
    pose proof (i_thread0 _ _ _ Hj) as Ht. destruct (t_wait _ _ _ _ Ht a Hx) as (wt & Hwt & _).
    assert (a ∈ l) as Hal by (apply (t_addr _ _ _ _ Ht); by apply waits_addrs).
    destruct (Hst a wt Hal Hwt) as (wt2 & Hwt2 & _ & Heq). eapply Hc; [done..|]. congruence.
Qed.

Lemma inv_report m w ths l m' : inv m w ths l → report m = Some m' → inv m' w ths l.
Proof.
  intros Hinv Hr. pose proof Hinv as []. unfold report in Hr. case_decide; [|done].
  destruct (0 <? m_efd m) eqn:E; [|done]. destruct (m_edge m); [|done]. injection Hr as <-.
  eapply inv_env; try done.
  - intros b wt _ Hwt. by exists wt.
  - intros j y _ a _ _. left. cbn. split; [lia|by right].
Qed.

Lemma inv_mark m w ths l m' : inv m w ths l → mark_all m = Some m' → inv m' w ths l.
Proof.
  intros Hinv Hr. pose proof Hinv as []. unfold mark_all in Hr. case_decide as Hls; [|done].
  injection Hr as <-.
  destruct (listener_event_marks (m_e m) (m_st m) l EPOLLIN i_queue0) as (st' & -> & Hst & Hq').
  assert (∀ j y, thread_ok m l j y → ∀ a, a ∈ addrs y → marked st' a) as Hmk.
  { intros j y Hy a Ha. destruct (t_addr _ _ _ _ Hy a Ha) as (Hal & wt & Hwt & _ & Hin & _).
    exists (mark EPOLLIN wt). rewrite Hst, decide_True, Hwt by done. split; [done|].
    unfold mark. cbn. rewrite has_lor. apply orb_true_iff. right. revert Hin. unfold has.
    by rewrite Z.land_comm. }
  eapply inv_env; try done.
  - intros b wt _ Hwt. destruct (marked_events _ _ _ _ _ _ Hst Hwt) as (wt' & ? & ? & ? & _). eauto.
  - intros j y Hy _ a Ha. by eapply Hmk.
  - intros j y Hy a Ha _. right. by eapply Hmk, asleep_addrs.
Qed.

Lemma inv_drain m w ths l m' : inv m w ths l → drain m = Some m' → inv m' w ths l.
Proof.
  intros Hinv Hr. pose proof Hinv as []. unfold drain in Hr. case_decide as Hls; [|done].
  injection Hr as <-. eapply inv_env; try done.
  - intros b wt _ Hwt. by exists wt.
  - intros j y Hy a Ha _. right. exact (t_marked _ _ _ _ Hy Hls a (asleep_addrs _ _ Ha)).
Qed.

(** What a walk does to the waiter of a coroutine. *)
Lemma visited_owned ct i wt :
  owned i wt → kept wt (visited ct wt) ∧ flags (visited ct wt) = flags wt ∧
    (resumes ct wt ≠ Some i → visited ct wt = wt).
Proof.
  intros (Hco & _ & Hy). unfold visited, resumes, signaled. rewrite Hco, Hy. simpl.
  destruct (due ct wt); [|by repeat split]. by repeat split.
Qed.

Lemma resume_pc (x : pc W) :
  addrs (resume x) = addrs x ∧ (waits (resume x) = waits x) ∧ holds (resume x) = holds x ∧
  asleep (resume x) = None.
Proof. by destruct x as [|[?|] ?|[?|] ?| | | | | | |]. Qed.

Definition resumed (cc : list nat) ths : list thread :=
  imap (λ i th, if decide (i ∈ cc) then (resume th.1, th.2) else th) ths.

Lemma lookup_resumed cc ths j y q :
  resumed cc ths !! j = Some (y, q) ↔
  ∃ x, ths !! j = Some (x, q) ∧ y = if decide (j ∈ cc) then resume x else x.
Proof.
  unfold resumed. rewrite list_lookup_imap. destruct (ths !! j) as [[x p]|]; simpl; [|naive_solver].
  case_decide; naive_solver.
Qed.

Lemma resumed_pc (cc : list nat) (j : nat) (x : pc W) :
  let y := if decide (j ∈ cc) then resume x else x in
  addrs y = addrs x ∧ waits y = waits x ∧ holds y = holds x.
Proof. destruct (resume_pc x) as (H1 & H2 & H3 & _). simpl. by case_decide. Qed.

(** A walk keeps the queue, and the waiters of the coroutines it does not resume. *)
Lemma walk_keeps m l ct ccmax ns cc t st :
  queue_holds (m_e m) (m_st m) l → 0 <= ct → NoDup ns → (0 < ccmax)%nat →
  (∀ a, a ∈ ns → ∃ wt, m_st m !! a = Some wt ∧ timed wt) →
  walk_waiters_list ct ccmax ns ∅ (m_st m) = Some (cc, t, ∅, st) →
  queue_holds (m_e m) st l ∧
  ∀ j y a wt, thread_ok m l j y → a ∈ addrs y → m_st m !! a = Some wt →
    ∃ wt', st !! a = Some wt' ∧ kept wt wt' ∧ flags wt' = flags wt ∧ (j ∉ cc → wt' = wt).
Proof.
  intros Hq Hct Hnd Hmax Hns Hwalk.
  destruct (walk_waiters_list_walked ct ccmax ns (m_st m)) as (seen & rest & cc' & mk & st' & Heq & _ & Wk); try done.
  rewrite Hwalk in Heq. injection Heq as <- _ <-. destruct Wk as [_ _ _ _ Hcc Hst]. split.
  - assert (∀ b, ∃ f, st !! b = f <$> m_st m !! b ∧ on_links f) as Hlinks.
    { intros b. rewrite Hst. case_decide.
      - exists (visited ct). split; [done|]. intros v. unfold visited, signaled. by repeat case_match.
      - exists id. by rewrite option_fmap_id. }
    destruct Hq as [(Hnd' & Hh & Htl & Hn) Hty]. split; [|done]. split; [done|]. split; [done|].
    split; [done|]. intros l1 a l2 Hl. destruct (Hn l1 a l2 Hl) as (v & Hv & Hp & Hx).
    destruct (Hlinks a) as (f & Hf & Hon). exists (f v). rewrite Hf, Hv. destruct (Hon v) as [E1 E2].
    split; [done|]. cbn [lprev lnext io_waiter_linked] in *. by rewrite E1, E2.
  - intros j y a wt Hy Ha Hwt. destruct (t_addr _ _ _ _ Hy a Ha) as (_ & v & Hv & Hown).
    rewrite Hwt in Hv. injection Hv as <-. rewrite Hst, Hwt.
    destruct (visited_owned ct j wt Hown) as (K1 & K2 & K3).
    case_decide as Hseen; simpl; eexists; (split; [reflexivity|]); [|done].
    split; [done|]. split; [done|]. intros Hj. apply K3. intros Hr. apply Hj, Hcc. right. by exists a, wt.
Qed.

Lemma inv_walk m w ths l ct ccmax ns cc t st :
  inv m w ths l → m_ls m ≠ Marked → 0 <= ct → NoDup ns → (0 < ccmax)%nat →
  (∀ a, a ∈ ns → ∃ wt, m_st m !! a = Some wt ∧ timed wt) →
  walk_waiters_list ct ccmax ns ∅ (m_st m) = Some (cc, t, ∅, st) →
  inv (set_st st m) w (resumed cc ths) l.
Proof.
  intros Hinv Hls Hct Hnd Hmax Hns Hwalk. pose proof Hinv as [].
  destruct (walk_keeps m l ct ccmax ns cc t st) as [Hq' Hkeep]; try done.
  split; try done.
  - intros j Hj. destruct (i_owner0 j Hj) as (x & p & Hx & Hh).
    eexists _, p. split; [apply lookup_resumed; by exists x|]. by destruct (resumed_pc cc j x) as (_ & _ & ->).
  - intros j y p Hj. apply lookup_resumed in Hj as (x & Hj & ->). specialize (i_thread0 _ _ _ Hj).
    destruct (resumed_pc cc j x) as (E1 & E2 & E3). eapply thread_ok_keep; try done.
    + intros b wt Hb Hbl Hwt. split; [done|]. destruct (Hkeep j x b wt i_thread0 Hb Hwt) as (wt' & ? & ? & _). eauto.
    + rewrite E3. exact (t_owner _ _ _ _ i_thread0).
    + intros a Ha Hn. case_decide as Hin; [by destruct (resume_pc x) as (_ & _ & _ & Hr); rewrite Hr in Ha|].
      destruct (t_live _ _ _ _ i_thread0 a Ha Hn) as [?|(wt & Hwt & Hh)]; [by left|right].
      destruct (Hkeep j x a wt i_thread0) as (wt' & ? & _ & _ & Heq); [by apply asleep_addrs|done|].
      exists wt. cbn. by rewrite <-(Heq Hin) at 1.
  - destruct i_cond0 as [(j & p & Hj)|Hc].
    + left. exists j, p. apply lookup_resumed. exists Broadcasting. split; [done|]. by case_decide.
    + right. intros j y p a wt' Hj Hw Hwt' Hf. apply lookup_resumed in Hj as (x & Hj & ->).
      destruct (resumed_pc cc j x) as (_ & E2 & _). rewrite E2 in Hw.
      pose proof (i_thread0 _ _ _ Hj) as Ht. destruct (t_wait _ _ _ _ Ht a Hw) as (wt & Hwt & _).
      destruct (Hkeep j x a wt Ht) as (wt2 & Hwt2 & _ & Heq & _); [by apply waits_addrs|done|].
      eapply Hc; [done..|]. cbn in Hwt'. congruence.
  - intros j v p Hj. apply lookup_resumed in Hj as (x & Hj & Hx). eapply i_working0.
    rewrite Hj. do 2 f_equal. case_decide; [|done]. by destruct x.
Qed.

Lemma estep_inv m w ths l m' ths' :
  inv m w ths l → estep m ths m' ths' → inv m' w ths' l.
Proof.
  intros Hinv Hs. destruct Hs.
  - by eapply inv_report.
  - by eapply inv_mark.
  - by eapply inv_drain.
  - by eapply inv_walk.
Qed.

(** Every reachable state satisfies the invariant. *)
Definition good (k : machine W) : Prop :=
  resting (k_memory k) (k_threads k) ∧ ∃ l, inv (k_lock k) (k_mem k) (k_threads k) l.

Lemma start_good so st w ps : good (start so st w ps).
Proof.
  split; [by right|]. exists []. split; cbn; try done.
  - split; [apply dll_nil|by right].
  - intros j x p Hj. rewrite list_lookup_fmap in Hj. destruct (ps !! j); [|done].
    injection Hj as <- _. apply thread_outside.
  - right. intros j x p a wt Hj Hw. rewrite list_lookup_fmap in Hj. destruct (ps !! j); [|done].
    by injection Hj as <- _.
  - intros j v p Hj. rewrite list_lookup_fmap in Hj. by destruct (ps !! j).
Qed.

(** The listener and the scheduler begin and end no section. *)
Lemma estep_resting m (w : memory W) ths m' ths' : estep m ths m' ths' → resting w ths → resting w ths'.
Proof.
  intros Hs Ht. destruct Hs; try done. destruct Ht as [(j & v & p & Hj)|Ht]; [left|by right].
  exists j, v, p. apply lookup_resumed. exists (Working v). split; [done|]. by case_decide.
Qed.

Lemma mstep_good k k' : mstep k k' → good k → good k'.
Proof.
  intros Hs [Ht [l Hl]]. destruct Hs as [m w ths i x p m' w' x' p' forked Hi Hs|m w ths m' ths' He].
  - by destruct (tstep_inv _ _ _ _ _ _ _ _ _ _ _ _ Hl Ht Hi Hs).
  - split; [by eapply estep_resting|]. exists l. by eapply estep_inv.
Qed.

Lemma reachable_good so st w ps k : rtc mstep (start so st w ps) k → good k.
Proof. intros Hr. eapply (rtc_preserves mstep good); [|exact Hr|apply start_good]. apply mstep_good. Qed.

End Invariant.

(** ** What the lock guarantees *)

Section Properties.
Context {W : Type}.
Implicit Types (k : machine W).

(** A step of the listener or of the scheduler. *)
Definition env_step k k' : Prop :=
  k_memory k' = k_memory k ∧ estep (k_lock k) (k_threads k) (k_lock k') (k_threads k').

(** The listener gets to a state where the sleeper's waiter is marked and the
    listener is not between marking and draining. *)
Lemma listener_marks k l i wa a p :
  inv (k_lock k) (k_mem k) (k_threads k) l → m_co (k_lock k) = None →
  k_threads k !! i = Some (Asleep wa a, p) →
  ∃ k', rtc env_step k k' ∧ inv (k_lock k') (k_mem k') (k_threads k') l ∧
    m_co (k_lock k') = None ∧ k_threads k' = k_threads k ∧ m_ls (k_lock k') ≠ Marked ∧
    marked (m_st (k_lock k')) a ∧
    ∀ b w, m_st (k_lock k) !! b = Some w → timed w → ∃ w', m_st (k_lock k') !! b = Some w' ∧ timed w'.
Proof.
  destruct k as [m mem ths]. unfold k_mem. cbn. intros Hinv Hco Hi.
  pose proof (i_thread _ _ _ _ Hinv _ _ _ Hi) as Ht.
  assert (∀ m0, inv m0 (settled mem) ths l → m_ls m0 = Marked → m_co m0 = None →
    ∃ k', rtc env_step (mk_machine m0 mem ths) k' ∧ inv (k_lock k') (k_mem k') (k_threads k') l ∧
      m_co (k_lock k') = None ∧ k_threads k' = ths ∧ m_ls (k_lock k') ≠ Marked ∧
      marked (m_st (k_lock k')) a ∧ m_st (k_lock k') = m_st m0) as Hdrain.
  { intros m0 Hinv0 Hls Hco0.
    assert (drain m0 = Some (mk_lockmem (m_co m0) (m_e m0) (m_st m0) 0 (m_edge m0) Listening)) as Hd
      by (unfold drain; by rewrite decide_True).
    eexists (mk_machine _ mem ths). split_and!; [|by eapply inv_drain|done|done|done| |done].
    - apply rtc_once. split; [done|]. by apply es_drain.
    - apply (t_marked _ _ _ _ (i_thread _ _ _ _ Hinv0 _ _ _ Hi) Hls). by apply asleep_addrs. }
  assert (∀ m0, inv m0 (settled mem) ths l → m_ls m0 = Reported → m_co m0 = None →
    ∃ k', rtc env_step (mk_machine m0 mem ths) k' ∧ inv (k_lock k') (k_mem k') (k_threads k') l ∧
      m_co (k_lock k') = None ∧ k_threads k' = ths ∧ m_ls (k_lock k') ≠ Marked ∧
      marked (m_st (k_lock k')) a ∧
      ∀ b w, m_st m0 !! b = Some w → timed w → ∃ w', m_st (k_lock k') !! b = Some w' ∧ timed w') as Hmark.
  { intros m0 Hinv0 Hls Hco0.
    destruct (listener_event_marks _ _ l EPOLLIN (i_queue _ _ _ _ Hinv0)) as (st' & Heq & Hst & _).
    assert (mark_all m0 = Some (mk_lockmem (m_co m0) (m_e m0) st' (m_efd m0) (m_edge m0) Marked)) as Hm.
    { unfold mark_all. rewrite decide_True by done. by rewrite Heq. }
    destruct (Hdrain _ (inv_mark _ _ _ _ _ Hinv0 Hm) eq_refl Hco0) as (k' & Hr & H1 & H2 & H3 & H4 & H5 & H6).
    exists k'. split_and!; try done.
    - eapply rtc_l; [|exact Hr]. split; [done|]. by apply es_mark.
    - intros b w Hw Htm. rewrite H6. cbn. rewrite Hst, Hw.
      case_decide; simpl; eexists; (split; [reflexivity|]); [by apply mark_timed|done]. }
  destruct (m_ls m) eqn:Hls.
  - destruct (t_live _ _ _ _ Ht a eq_refl Hco) as [[Hefd [He|Hr]]|Hmk]; [|congruence|].
    + assert (report m = Some (mk_lockmem (m_co m) (m_e m) (m_st m) (m_efd m) false Reported)) as Hr.
      { unfold report. rewrite decide_True by done. rewrite He. by destruct (Z.ltb_spec 0 (m_efd m)); [|lia]. }
      destruct (Hmark _ (inv_report _ _ _ _ _ Hinv Hr) eq_refl Hco) as (k' & Hrt & ?).
      exists k'. split; [|done]. eapply rtc_l; [|exact Hrt]. split; [done|]. by apply es_report.
    + exists (mk_machine m mem ths). cbn. rewrite Hls. split_and!; try done. by eauto.
  - by apply Hmark.
  - destruct (Hdrain m Hinv Hls Hco) as (k' & ? & ? & ? & ? & ? & ? & Heq). exists k'.
    split_and!; try done. rewrite Heq. eauto.
Qed.

(** A free lock is taken. *)
Lemma try_free m l i a :
  queue_holds (m_e m) (m_st m) l → m_co m = None → m_ls m ≠ Marked → a ∈ l →
  ∃ m', co_thread_lock_try i a m = Some (true, m').
Proof.
  intros Hq Hco Hls (l1 & l2 & ->)%list_elem_of_split. unfold co_thread_lock_try. rewrite Hco.
  unfold dequeue. cbn [m_ls m_e m_st set_co]. rewrite decide_False by done.
  destruct (epoll_dequeue_removes _ _ _ _ _ Hq) as (e' & st' & -> & _). cbn. by eexists.
Qed.

(** The lock excludes: at any moment at most one coroutine is between
    [co_thread_lock] and [co_thread_unlock] (or the part of [co_thread_wait] that
    gives the lock up), it is the one the lock names, and [co_thread_check] never
    fails for it.  The queue of the lock stays a well-formed list. *)
Theorem lock_exclusive (so : Z) (st : waiters) (w : W) (ps : list (proc W unit)) (k : machine W)
    (Hreach : rtc mstep (start so st w ps) k) :
  (∃ l, queue_holds (m_e (k_lock k)) (m_st (k_lock k)) l) ∧
  (∀ i x p, k_threads k !! i = Some (x, p) → holds x = true → co_thread_check i (k_lock k) = true) ∧
  (∀ i j x y p q, k_threads k !! i = Some (x, p) → k_threads k !! j = Some (y, q) →
     holds x = true → holds y = true → i = j).
Proof.
  destruct (reachable_good _ _ _ _ _ Hreach) as [_ [l []]]. split; [by exists l|].
  assert (∀ i x p, k_threads k !! i = Some (x, p) → holds x = true → m_co (k_lock k) = Some i) as Ho.
  { intros i x p Hi Hh. by eapply t_owner; [eapply i_thread0|]. }
  split.
  - intros i x p Hi Hh. unfold co_thread_check. by rewrite bool_decide_true by (by eapply Ho).
  - intros i j x y p q Hi Hj Hx Hy. pose proof (Ho _ _ _ Hi Hx). pose proof (Ho _ _ _ Hj Hy). congruence.
Qed.

(** C27: no coroutine sleeps on a free lock.  Whenever the lock is free and a
    coroutine sleeps in [co_thread_lock], the eventfd of the lock gets the listener
    to mark its waiter, whatever the listener was doing; the next walk of the core
    it belongs to resumes it (unless [ccmax] others come first), and it then finds
    the lock free. *)
Theorem lock_wakes_sleeper (so : Z) (st : waiters) (w : W) (ps : list (proc W unit)) (k : machine W)
    (i a : nat) (wa : option nat) (p : proc W unit) (ns : list nat) (ct : Z) (ccmax : nat)
    (Hreach : rtc mstep (start so st w ps) k) (Hfree : m_co (k_lock k) = None)
    (Hi : k_threads k !! i = Some (Asleep wa a, p))
    (Hns : NoDup ns ∧ a ∈ ns ∧ ∀ b, b ∈ ns → ∃ v, m_st (k_lock k) !! b = Some v ∧ timed v)
    (Hct : 0 <= ct) (Hmax : (0 < ccmax)%nat) :
  ∃ k1 k2 cc t st', rtc env_step k k1 ∧
    walk_waiters_list ct ccmax ns ∅ (m_st (k_lock k1)) = Some (cc, t, ∅, st') ∧
    env_step k1 k2 ∧ k_threads k2 = resumed cc (k_threads k) ∧
    (length cc = ccmax ∨ k_threads k2 !! i = Some (Trying wa a, p) ∧
       ∃ m', co_thread_lock_try i a (k_lock k2) = Some (true, m')).
Proof.
  destruct (reachable_good _ _ _ _ _ Hreach) as [_ [l Hinv]]. destruct Hns as (Hnd & Ha & Hns).
  destruct (listener_marks k l i wa a p Hinv Hfree Hi) as (k1 & Hr & Hinv1 & Hco1 & Hths & Hls & Hmk & Hst1).
  assert (∀ b, b ∈ ns → ∃ v, m_st (k_lock k1) !! b = Some v ∧ timed v) as Hns1.
  { intros b Hb. destruct (Hns b Hb) as (v & Hv & Hv'). by eapply Hst1. }
  destruct (walk_waiters_list_walked ct ccmax ns (m_st (k_lock k1))) as (seen & rest & cc & mk & st' & Heq & Hs & Wk); try done.
  set (k2 := mk_machine (set_st st' (k_lock k1)) (k_memory k1) (resumed cc (k_threads k1))).
  exists k1, k2, cc, (foldl Z.min INT_MAX (delays ct (m_st (k_lock k1)) seen)), st'.
  split; [done|]. split; [done|]. split; [|split; [cbn; by rewrite Hths|]].
  { split; [done|]. by eapply es_walk. }
  destruct Wk as [_ _ _ [->|Hfull] Hcc _]; [|by left]. right. rewrite app_nil_r in Hs. subst seen.
  rewrite <-Hths in Hi. pose proof (i_thread _ _ _ _ Hinv1 _ _ _ Hi) as Ht.
  assert (i ∈ cc) as Hic.
  { apply Hcc. right. destruct (t_addr _ _ _ _ Ht a) as (_ & v & Hv & Hvo & _ & Hy); [by apply asleep_addrs|].
    exists a, v. split; [done|]. split; [done|]. unfold resumes, due. rewrite Hy.
    destruct Hmk as (v' & Hv' & Hh). rewrite Hv in Hv'. injection Hv' as <-. by rewrite Hh. }
  assert (k_threads k2 !! i = Some (Trying wa a, p)) as Hi2.
  { cbn. apply lookup_resumed. exists (Asleep wa a). split; [done|]. by rewrite decide_True. }
  split; [done|].
  assert (inv (k_lock k2) (k_mem k2) (k_threads k2) l) as Hinv2.
  { by eapply (inv_walk (k_lock k1) (k_mem k1) (k_threads k1) l ct ccmax ns). }
  apply (try_free _ l); [by apply (i_queue _ _ _ _ Hinv2)|done|done|].
  by apply (t_addr _ _ _ _ Ht), asleep_addrs.
Qed.

(** C28: no signal is missed.  When a coroutine waits in [co_thread_wait] and a
    section has left the memory so that its condition holds, it was signalled: unless the
    coroutine that changed the memory still holds the lock and is about to
    broadcast, every walk of its core finds its waiter due. *)
Theorem wait_not_missed (so : Z) (st : waiters) (w : W) (ps : list (proc W unit)) (k : machine W)
    (i a : nat) (p : proc W unit)
    (Hreach : rtc mstep (start so st w ps) k) (Hi : k_threads k !! i = Some (Waiting a, p))
    (Hgo : ¬ blocked p (k_mem k)) :
  (∃ j q, k_threads k !! j = Some (Broadcasting, q)) ∨
  ∃ v, m_st (k_lock k) !! a = Some v ∧ (∀ ct, resumes ct v = Some i) ∧
    ∀ ct, co_thread_wait_done ct a (k_lock k) = true.
Proof.
  destruct (reachable_good _ _ _ _ _ Hreach) as [_ [l []]]. destruct i_cond0 as [?|Hc]; [by left|right].
  pose proof (i_thread0 _ _ _ Hi) as Ht.
  destruct (t_addr _ _ _ _ Ht a) as (_ & v & Hv & Hco & _ & Hy); [by left|].
  exists v. split; [done|].
  assert (has MTX_WAKEUP_EVENT (flags v) = true) as Hf.
  { destruct (has MTX_WAKEUP_EVENT (flags v)) eqn:E; [done|]. exfalso. apply Hgo. by eapply Hc. }
  split.
  - intros ct. unfold resumes, due. by rewrite Hy, Hf, orb_true_r.
  - intros ct. unfold co_thread_wait_done. by rewrite Hv, Hf.
Qed.

(** The abstract pool of a machine: what the completed sections left in the memory,
    and what is left of each thread. *)
Definition pool_of k : W * list (unit * proc W unit) :=
  (k_mem k, map (λ th, (tt, th.2)) (k_threads k)).

Abbreviation pstep := (pool_step (λ (_ : unit) (w : W), w) (λ _ w _, w) (λ _ _, False)).

(** A step of a thread ends a section, which is one step of the pool, or is none of
    the pool. *)
Lemma tstep_pool m (w w' : memory W) ths l i x p m' x' p' forked :
  inv m (settled w) ths l → ths !! i = Some (x, p) → tstep ths i m w x p m' w' x' p' forked →
  steps_to p (settled w) p' (settled w') forked ∨ p' = p ∧ settled w' = settled w ∧ forked = [].
Proof.
  intros Hinv Hi Hs. destruct Hs; cbn; try (by right); try pose proof (i_working _ _ _ _ Hinv _ _ _ Hi) as ->; left; eauto 10.
Qed.

Lemma mstep_pool k k' : good k → mstep k k' → rtc pstep (pool_of k) (pool_of k').
Proof.
  intros [_ [l Hl]] Hs. destruct Hs as [m w ths i x p m' w' x' p' forked Hi Ht|m w ths m' ths' He].
  - pose proof (tstep_pool _ _ _ _ _ _ _ _ _ _ _ _ Hl Hi Ht) as Hst.
    unfold pool_of, k_mem. cbn. rewrite map_app, map_map. cbn. change (list_fmap _ _ ?f) with (map f).
    assert (map (λ th : pc W * proc W unit, (tt, th.2)) (<[i := (x', p')]> ths) =
            <[i := (tt, p')]> (map (λ th, (tt, th.2)) ths)) as -> by apply (list_fmap_insert (λ th, (tt, th.2))).
    assert (map (λ th : pc W * proc W unit, (tt, th.2)) ths !! i = Some (tt, p)) as Hm.
    { change (map ?f ths) with (f <$> ths). by rewrite list_lookup_fmap, Hi. }
    destruct Hst as [Hst|(-> & -> & ->)].
    + apply rtc_once. exact (step_thread (λ _ w, w) (λ _ w _, w) (λ _ _, False) (settled w) _ i tt p p' (settled w') forked Hm Hst).
    + cbn. rewrite app_nil_r, list_insert_id by done. done.
  - unfold pool_of, k_mem. cbn. destruct He; try done.
    assert (map (λ th : pc W * proc W unit, (tt, th.2)) (resumed cc ths) = map (λ th, (tt, th.2)) ths) as Hr.
    { apply list_eq. intros j. change (map ?f ?l) with (f <$> l). rewrite !list_lookup_fmap.
      unfold resumed. rewrite list_lookup_imap. destruct (ths !! j) as [[x p]|]; [|done]. simpl. by case_decide. }
    unfold resumed in Hr. by rewrite Hr.
Qed.

Lemma reachable_pool k k' : good k → rtc mstep k k' → rtc pstep (pool_of k) (pool_of k').
Proof.
  intros Hg Hs. induction Hs as [|x y z Hs _ IH]; [done|].
  etrans; [by apply mstep_pool|by eapply IH, mstep_good].
Qed.

(** C26: the lock makes the critical sections of [Threads].  In the machine a section
    is not one step: it begins with what is in the memory, leaves anything there
    while it runs, and only its end is what it computed; two that overlapped would
    lose what one of them did, or work with what the other was about to change.
    Whatever the coroutines, the listener and the scheduler do, none overlap: what
    the completed sections left in the memory and what is left of each thread are
    as in a run of the pool, whose sections are one step each.  The lock knows
    exactly who holds it; a section that runs began with what the last one left, and
    is undefined only if it is in that run; and when none runs, that is what is in
    the memory. *)
Theorem lock_refines_sections (so : Z) (st : waiters) (w : W) (ps : list (proc W unit)) (k : machine W)
    (Hreach : rtc mstep (start so st w ps) k) :
  rtc pstep (w, map (pair tt) ps) (pool_of k) ∧
  (∀ i x p, k_threads k !! i = Some (x, p) → co_thread_check i (k_lock k) = holds x) ∧
  (∀ i v p, k_threads k !! i = Some (Working v, p) → v = (pool_of k).1 ∧
     (faults p v → pool_faults (λ (_ : unit) (w : W), w) (pool_of k))) ∧
  ((∀ i v p, k_threads k !! i ≠ Some (Working v, p)) → cells (k_memory k) = (pool_of k).1).
Proof.
  destruct (reachable_good _ _ _ _ _ Hreach) as [Ht [l Hinv]]. split; [|split; [|split]].
  - apply reachable_pool in Hreach; [|apply start_good]. unfold pool_of at 1, start in Hreach. cbn in Hreach.
    by rewrite map_map in Hreach.
  - intros i x p Hi. unfold co_thread_check. destruct (holds x) eqn:Hh.
    + apply bool_decide_true. by eapply t_owner; [eapply i_thread|].
    + apply bool_decide_false. intros Hc. destruct (i_owner _ _ _ _ Hinv i Hc) as (y & q & Hy & Hhy). congruence.
  - intros i v p Hi. pose proof (i_working _ _ _ _ Hinv _ _ _ Hi) as ->. split; [done|]. intros Hf.
    unfold pool_faults. apply Exists_exists. exists (tt, p). split; [|done].
    unfold pool_of. cbn. apply list_elem_of_In, in_map_iff. exists (Working (k_mem k), p). split; [done|].
    apply list_elem_of_In. by eapply list_elem_of_lookup_2.
  - intros Hn. destruct Ht as [(i & v & p & Hi)|Ht]; [by destruct (Hn i v p)|done].
Qed.

End Properties.

(** ** Signalling one waiter *)

Lemma signal_loop_first hd tl st a l2 wa n : ∀ l1' l1 fuel,
  dll st hd tl (l1' ++ l1 ++ a :: l2) → (length l1 < fuel)%nat → st !! a = Some wa →
  has MTX_WAKEUP_WAITING (flags wa) = true →
  (∀ b w, b ∈ l1 → st !! b = Some w → has MTX_WAKEUP_WAITING (flags w) = false) →
  signal_loop fuel false (head (l1 ++ a :: l2)) n st =
    (S n, if has MTX_WAKEUP_EVENT (flags wa) then st else <[a := wake wa]> st).
Proof.
  intros l1' l1. revert l1'. induction l1 as [|b l1 IH]; intros l1' fuel Hd Hl Ha Hw Hn;
    (destruct fuel as [|fuel]; [simpl in Hl; lia|]); cbn [signal_loop head app].
  - by rewrite Ha, Hw.
  - destruct (dll_lookup _ _ _ _ _ _ Hd) as (w & Hb & _ & Hnx). rewrite Hb.
    rewrite (Hn b w) by (done || by left). change (w_next w) with (lnext w). rewrite Hnx.
    apply (IH (l1' ++ [b])); try done.
    + by rewrite <-app_assoc.
    + simpl in Hl. lia.
    + intros c v Hc Hv. apply (Hn c); [by right|done].
Qed.

(** [co_thread_signal] signals the first waiter of the queue that waits, whether
    or not it was signalled before: a second signal before that waiter has run
    changes nothing but the eventfd, although others wait. *)
Theorem signal_first_waiting (m : lockmem) (l1 l2 : list nat) (a me : nat) (wa : io_waiter)
    (Hq : queue_holds (m_e m) (m_st m) (l1 ++ a :: l2)) (Hme : m_co m = Some me)
    (Ha : m_st m !! a = Some wa) (Hw : has MTX_WAKEUP_WAITING (flags wa) = true)
    (Hfirst : ∀ b w, b ∈ l1 → m_st m !! b = Some w → has MTX_WAKEUP_WAITING (flags w) = false) :
  ∃ m1 m2, co_thread_signal_internal me false m = Some m1 ∧
    (∃ wa', m_st m1 !! a = Some wa' ∧ has MTX_WAKEUP_EVENT (flags wa') = true) ∧
    (∀ b, b ≠ a → m_st m1 !! b = m_st m !! b) ∧
    co_thread_signal_internal me false m1 = Some m2 ∧ m_st m2 = m_st m1.
Proof.
  set (st1 := if has MTX_WAKEUP_EVENT (flags wa) then m_st m else <[a := wake wa]> (m_st m)).
  set (wa1 := if has MTX_WAKEUP_EVENT (flags wa) then wa else wake wa).
  assert (m_st m = <[a := wa]> (m_st m)) as Hid by (by rewrite insert_id).
  assert (st1 !! a = Some wa1) as Ha1.
  { unfold st1, wa1. destruct (has MTX_WAKEUP_EVENT (flags wa)); [done|apply lookup_insert_eq]. }
  assert (∀ b, b ≠ a → st1 !! b = m_st m !! b) as Hne.
  { intros b Hb. unfold st1. destruct (has MTX_WAKEUP_EVENT (flags wa)); [done|by rewrite lookup_insert_ne]. }
  assert (has MTX_WAKEUP_EVENT (flags wa1) = true ∧ has MTX_WAKEUP_WAITING (flags wa1) = true) as [He1 Hw1].
  { unfold wa1. destruct (has MTX_WAKEUP_EVENT (flags wa)) eqn:E; [done|]. unfold wake. cbn.
    rewrite !has_lor, Hw, E. done. }
  assert (queue_holds (m_e m) st1 (l1 ++ a :: l2)) as Hq1.
  { destruct Hq as [(Hnd & Hh & Ht & Hn) Hty]. split; [|done]. split; [done|]. split; [done|]. split; [done|].
    intros k1 b k2 Hk. destruct (Hn k1 b k2 Hk) as (v & Hv & Hp & Hx). destruct (decide (b = a)) as [->|Hb].
    - rewrite Ha in Hv. injection Hv as <-. exists wa1. split; [done|].
      unfold wa1. by destruct (has MTX_WAKEUP_EVENT (flags wa)).
    - exists v. by rewrite Hne. }
  assert (∀ st v, queue_holds (m_e m) st (l1 ++ a :: l2) → st !! a = Some v →
    has MTX_WAKEUP_WAITING (flags v) = true →
    (∀ b w, b ∈ l1 → st !! b = Some w → has MTX_WAKEUP_WAITING (flags w) = false) →
    signal_loop (size st) false (q_head (m_e m)) 0 st =
      (1%nat, if has MTX_WAKEUP_EVENT (flags v) then st else <[a := wake v]> st)) as Hloop.
  { intros st v Hqs Hv Hwv Hf. pose proof (queue_size _ _ _ Hqs) as Hsz.
    rewrite length_app in Hsz. simpl in Hsz. destruct Hqs as [(Hnd & -> & Ht & Hn) _].
    apply (signal_loop_first (head (l1 ++ a :: l2)) (q_tail (m_e m)) st a l2 v 0 [] l1); try done; lia. }
  assert (∀ b w, b ∈ l1 → st1 !! b = Some w → has MTX_WAKEUP_WAITING (flags w) = false) as Hf1.
  { intros b w Hb. rewrite Hne; [by apply Hfirst|]. intros ->.
    destruct Hq as [[Hnd _] _]. apply NoDup_app in Hnd as (_ & Hd & _). apply (Hd a Hb). by left. }
  unfold co_thread_signal_internal, co_thread_check. rewrite bool_decide_true by done.
  rewrite (Hloop _ wa Hq Ha Hw Hfirst). fold st1. cbn. eexists _, _. split; [reflexivity|].
  split_and!; [by exists wa1|done| |]; cbn.
  - rewrite bool_decide_true by done. rewrite (Hloop st1 wa1 Hq1 Ha1 Hw1 Hf1), He1. reflexivity.
  - done.
Qed.

(** ** A run *)

(** What the next step is: a thread enters with the waiter [a], looks at the lock,
    begins a section, ends it, broadcasts, gives the lock up, or waits with the waiter
    [a]. *)
Inductive act := AEnter (i a : nat) | ATry (i : nat) | ABegin (i : nat) | ACommit (i : nat) | ABroadcast (i : nat)
  | AUnlock (i : nat) | AWait (i a : nat) | ARelease (i : nat).

Definition act_thread (c : act) : nat :=
  match c with
  | AEnter i _ | ATry i | ABegin i | ACommit i | ABroadcast i | AUnlock i | AWait i _ | ARelease i => i
  end.

(** The section of a thread, run on [w]: it goes, with the thread after it; it waits;
    there is none, or it faults. *)
Definition section_of {W} (p : proc W unit) (w : W) : option (option (proc W unit * W)) :=
  match p in proc _ A return option (option (proc W A * W)) with
  | Crit s k => match s w with Go b w' => Some (Some (k b, w')) | Wait => Some None | Fault => None end
  | _ => None
  end.

Definition exec_act {W} (c : act) (k : machine W) : option (machine W) :=
  let i := act_thread c in
  let m := k_lock k in let w := k_memory k in
  '(x, p) ← k_threads k !! i;
  '(m', w', x', p') ←
    match c, x with
    | AEnter _ a, Outside =>
      _ ← section_of p (cells w); m' ← enqueue a (lock_waiter i) m; Some (m', w, Trying None a, p)
    | ATry _, Trying None a =>
      '(taken, m') ← co_thread_lock_try i a m;
      Some (m', w, if (taken : bool) then Inside else Asleep None a, p)
    | ABegin _, Inside => Some (m, w, Working (cells w), p)
    | ACommit _, Working v =>
      r ← section_of p v;
      match r with Some (p', w') => Some (m, mk_memory w' w', Broadcasting, p') | None => None end
    | ABroadcast _, Broadcasting =>
      m' ← co_thread_signal_internal i true m; Some (m', w, Leaving, p)
    | AUnlock _, Leaving => m' ← co_thread_unlock i m; Some (m', w, Outside, p)
    | AWait _ a, Working v =>
      r ← section_of p v;
      match r with
      | Some _ => None
      | None => m' ← co_thread_wait_enqueue i a (-1) m; Some (m', mk_memory (settled w) v, Queued a, p)
      end
    | ARelease _, Queued a => Some (co_thread_unlock_internal m, w, Waiting a, p)
    | _, _ => None
    end;
  Some (mk_machine m' w' (<[i := (x', p')]> (k_threads k))).

Lemma section_of_crit {W} (p : proc W unit) w r : section_of p w = Some r →
  ∃ B (s : sec W B) q, p = Crit s q ∧
    match r with Some (p', w') => ∃ b, s w = Go b w' ∧ p' = q b | None => s w = Wait end.
Proof.
  unfold section_of.
  assert (∀ A (p : proc W A) (r : option (proc W A * W)),
    match p in proc _ A return option (option (proc W A * W)) with
    | Crit s k => match s w with Go b w' => Some (Some (k b, w')) | Wait => Some None | Fault => None end
    | _ => None
    end = Some r →
    ∃ B (s : sec W B) q, p = Crit s q ∧
      match r with Some (p', w') => ∃ b, s w = Go b w' ∧ p' = q b | None => s w = Wait end) as H;
    [|apply H].
  clear. intros A p r H. destruct p as [A a|A B s q|A q|A p q]; try done.
  destruct (s w) as [b w'| |] eqn:E; [| |done]; injection H as <-; exists B, s, q; eauto.
Qed.

Lemma exec_act_sound {W} c (k k' : machine W) : exec_act c k = Some k' → mstep k k'.
Proof.
  unfold exec_act. destruct (k_threads k !! act_thread c) as [[x p]|] eqn:Hi; [|done]. cbn [mbind option_bind].
  destruct k as [m w ths]. cbn [k_lock k_memory k_threads] in *. intros H.
  assert (∀ m' w' x' p', tstep ths (act_thread c) m w x p m' w' x' p' [] →
    mstep (mk_machine m w ths) (mk_machine m' w' (<[act_thread c := (x', p')]> ths))) as Hstep.
  { intros m' w' x' p' Ht. pose proof (ms_thread _ _ _ _ _ _ _ _ _ _ _ Hi Ht) as Hm.
    by rewrite app_nil_r in Hm. }
  destruct c as [i a|i|i|i|i|i|i a|i]; cbn [act_thread] in *; destruct x; try discriminate H.
  - destruct (section_of p (cells w)) eqn:Es; [|done]. destruct (section_of_crit _ _ _ Es) as (B & s & q & -> & _).
    cbn in H. destruct (enqueue _ _ m) eqn:Ee; [|done]. injection H as <-. apply Hstep. by constructor.
  - destruct wa; [discriminate H|]. cbn in H. destruct (co_thread_lock_try i a m) as [[[] m']|] eqn:Et; [..|done];
      injection H as <-; apply Hstep; [by apply ts_take|by apply ts_sleep].
  - injection H as <-. apply Hstep. by constructor.
  - destruct (section_of p v) as [[[p' w']|]|] eqn:Es; [|done..].
    destruct (section_of_crit _ _ _ Es) as (B & s & q & -> & b & Hs & ->). injection H as <-.
    apply Hstep. by apply ts_commit.
  - destruct (co_thread_signal_internal i true m) eqn:Es; [|done]. injection H as <-. apply Hstep. by constructor.
  - destruct (co_thread_unlock i m) eqn:Es; [|done]. injection H as <-. apply Hstep. by constructor.
  - destruct (section_of p v) as [[|]|] eqn:Es; [done| |done].
    destruct (section_of_crit _ _ _ Es) as (B & s & q & -> & Hs). cbn in H.
    destruct (co_thread_wait_enqueue i a (-1) m) eqn:Ew; [|done]. injection H as <-. apply Hstep.
    by eapply ts_wait.
  - injection H as <-. apply Hstep. by constructor.
Qed.

Fixpoint exec_acts {W} (cs : list act) (k : machine W) : option (machine W) :=
  match cs with [] => Some k | c :: cs => k ← exec_act c k; exec_acts cs k end.

Lemma exec_acts_sound {W} cs : ∀ k k' : machine W, exec_acts cs k = Some k' → rtc mstep k k'.
Proof.
  induction cs as [|c cs IH]; intros k k' H; [by injection H as ->|]. cbn in H.
  destruct (exec_act c k) as [k1|] eqn:E; [|done]. eapply rtc_l; [by eapply exec_act_sound|by apply IH].
Qed.

(** Thread 0 adds one, thread 1 waits for a number that is not 0. *)
Definition adder0 : proc Z unit := crit (λ w, Go () (w + 1)).
Definition waiter1 : proc Z unit := crit (λ w, if w =? 0 then Wait else Go () w).
Definition start0 : machine Z := start 5 ∅ 0 [adder0; waiter1].

(** Thread 1 comes while thread 0 has the lock, and sleeps; thread 0 leaves. *)
Definition sleeping0 : machine Z :=
  default start0 (exec_acts [AEnter 0 10; ATry 0; AEnter 1 11; ATry 1; ABegin 0; ACommit 0; ABroadcast 0; AUnlock 0] start0).

(** Thread 1 waits; thread 0 changes the memory and signals. *)
Definition waiting0 : machine Z :=
  default start0 (exec_acts [AEnter 1 11; ATry 1; ABegin 1; AWait 1 12; ARelease 1;
                             AEnter 0 10; ATry 0; ABegin 0; ACommit 0; ABroadcast 0] start0).

Lemma sleeping0_reached : rtc mstep start0 sleeping0.
Proof. eapply exec_acts_sound, some_default. vm_compute. reflexivity. Qed.
Lemma waiting0_reached : rtc mstep start0 waiting0.
Proof. eapply exec_acts_sound, some_default. vm_compute. reflexivity. Qed.

Lemma lock_exclusive_witness :
  (∃ l, queue_holds (m_e (k_lock waiting0)) (m_st (k_lock waiting0)) l) ∧
  (∀ i x p, k_threads waiting0 !! i = Some (x, p) → holds x = true → co_thread_check i (k_lock waiting0) = true) ∧
  (∀ i j x y p q, k_threads waiting0 !! i = Some (x, p) → k_threads waiting0 !! j = Some (y, q) →
     holds x = true → holds y = true → i = j).
Proof. apply (lock_exclusive 5 ∅ 0 [adder0; waiter1]). apply waiting0_reached. Defined.

Lemma lock_wakes_sleeper_witness :
  ∃ k1 k2 cc t st', rtc env_step sleeping0 k1 ∧
    walk_waiters_list 0 10 [11%nat] ∅ (m_st (k_lock k1)) = Some (cc, t, ∅, st') ∧
    env_step k1 k2 ∧ k_threads k2 = resumed cc (k_threads sleeping0) ∧
    (length cc = 10%nat ∨ k_threads k2 !! 1%nat = Some (Trying None 11, waiter1) ∧
       ∃ m', co_thread_lock_try 1 11 (k_lock k2) = Some (true, m')).
Proof.
  apply (lock_wakes_sleeper 5 ∅ 0 [adder0; waiter1] sleeping0 1 11 None waiter1 [11%nat] 0 10);
    [apply sleeping0_reached|by vm_compute|by vm_compute| |lia|lia].
  split; [apply NoDup_singleton|]. split; [by left|]. intros b ->%list_elem_of_singleton.
  eexists. split; [vm_compute; reflexivity|done].
Defined.

Lemma wait_not_missed_witness :
  (∃ j q, k_threads waiting0 !! j = Some (Broadcasting, q)) ∨
  ∃ v, m_st (k_lock waiting0) !! 12%nat = Some v ∧ (∀ ct, resumes ct v = Some 1%nat) ∧
    ∀ ct, co_thread_wait_done ct 12 (k_lock waiting0) = true.
Proof.
  apply (wait_not_missed 5 ∅ 0 [adder0; waiter1] waiting0 1 12 waiter1);
    [apply waiting0_reached|by vm_compute|by vm_compute].
Defined.

(** Thread 0 is in its section. *)
Definition working0 : machine Z := default start0 (exec_acts [AEnter 0 10; ATry 0; AEnter 1 11; ATry 1; ABegin 0] start0).

Lemma working0_reached : rtc mstep start0 working0.
Proof. eapply exec_acts_sound, some_default. vm_compute. reflexivity. Qed.

Lemma lock_refines_sections_witness :
  rtc (pool_step (λ (_ : unit) (w : Z), w) (λ _ w _, w) (λ _ _, False))
    (0, map (pair tt) [adder0; waiter1]) (pool_of working0) ∧
  (∀ i x p, k_threads working0 !! i = Some (x, p) → co_thread_check i (k_lock working0) = holds x) ∧
  (∀ i v p, k_threads working0 !! i = Some (Working v, p) → v = (pool_of working0).1 ∧
     (faults p v → pool_faults (λ (_ : unit) (w : Z), w) (pool_of working0))) ∧
  ((∀ i v p, k_threads working0 !! i ≠ Some (Working v, p)) → cells (k_memory working0) = (pool_of working0).1).
Proof. apply (lock_refines_sections 5 ∅ 0 [adder0; waiter1]). apply working0_reached. Defined.

(** Coroutines 1 and 2 wait, 0 holds the lock. *)
Definition two_waiting : lockmem :=
  let m := co_thread_lock_init 5 ∅ in
  let m := default m (enqueue 10 (wait_waiter 1 (-1)) m) in
  let m := default m (enqueue 11 (wait_waiter 2 (-1)) m) in
  set_co (Some 0%nat) m.

Lemma signal_first_waiting_witness :
  ∃ m1 m2, co_thread_signal_internal 0 false two_waiting = Some m1 ∧
    (∃ wa', m_st m1 !! 10%nat = Some wa' ∧ has MTX_WAKEUP_EVENT (flags wa') = true) ∧
    (∀ b, b ≠ 10%nat → m_st m1 !! b = m_st two_waiting !! b) ∧
    co_thread_signal_internal 0 false m1 = Some m2 ∧ m_st m2 = m_st m1.
Proof.
  eapply (signal_first_waiting two_waiting [] [11%nat] 10 0); [|done|vm_compute; reflexivity|done|].
  - split; [|by right]. split; [by_decide|]. split; [done|]. split; [done|].
    intros l1 a l2 Hl. destruct l1 as [|b [|c l1]]; simpl in Hl; injection Hl as <- Hl.
    + subst l2. eexists. split; [vm_compute; reflexivity|done].
    + subst a l2. eexists. split; [vm_compute; reflexivity|done].
    + by destruct l1.
  - intros b w Hb. by apply not_elem_of_nil in Hb.
Defined.
