(* ===== verification/CoThread.v ===== *)
(** The coroutines of [src/cothread/co-thread.c]: their objects and stacks, the
    switch from one to another, and the helper that frees the object of a
    coroutine that has ended, which cannot free the stack it runs on.  [ctx] is
    the state of one thread; [switching_refines] shows that a core, which calls
    coroutines from [main] and is called back by them, has at any time just the
    coroutines it created that have not ended, each where it left off. *)

From S2P Require Import Prelude.

Open Scope Z_scope.

(** ** Stacks *)

Section Stacks.
(** [SIGSTKSZ] and the size of [struct s_coroutine], which holds a [ucontext_t]. *)
Variables (SIGSTKSZ sizeof_coroutine : Z).

Definition CO_STK_ALIGN : Z := 256.
Definition CO_STK_COROSIZE : Z := Z.land (sizeof_coroutine + CO_STK_ALIGN - 1) (Z.lnot (CO_STK_ALIGN - 1)).
Definition CO_MIN_SIZE : Z := SIGSTKSZ.

(** What [co_create] makes of its arguments: the bytes to allocate (0 for a stack
    of the caller) and the bytes of the block; [None] is [EINVAL]. *)
Definition co_create_sizes (own_stack : bool) (size : Z) : option (Z * Z) :=
  let size := Z.land size (Z.lnot 7) in
  if own_stack then
    if size <? CO_MIN_SIZE + CO_STK_COROSIZE then None else Some (0, size)
  else if size <? CO_MIN_SIZE then None
  else Some (u64 (size + CO_STK_COROSIZE), u64 (size + CO_STK_COROSIZE)).

(** The stack given to [makecontext]: its offset in the block and its size. *)
Definition co_stack (size : Z) : Z * Z := (CO_STK_COROSIZE, size - CO_STK_COROSIZE - 8).

Definition co_get_min_stack_size : Z := CO_MIN_SIZE + CO_STK_COROSIZE.

End Stacks.

(** ** Coroutines and the thread they run in *)

(** Where a coroutine goes on when it is switched to: at the start of
    [co_runner], behind [co_switch_context] in [co_call] or in [co_resume], in
    the loop of [co_del_helper]. *)
Inductive saved := AtEntry | AfterCall | AfterResume | InHelper.

(** [struct s_coroutine]: the context is [resume_at]; [func] tells the helper
    from the others. *)
Record coroutine := mk_coroutine {
  resume_at : saved;
  alloc_size : Z;
  caller : option nat;
  restarget : option nat;
  is_helper : bool;
  data : nat;
  sheduler_data : nat;
}.

Definition set_resume_at (s : saved) (c : coroutine) : coroutine :=
  mk_coroutine s (alloc_size c) (caller c) (restarget c) (is_helper c) (data c) (sheduler_data c).
Definition set_caller (p : option nat) (c : coroutine) : coroutine :=
  mk_coroutine (resume_at c) (alloc_size c) p (restarget c) (is_helper c) (data c) (sheduler_data c).
Definition set_restarget (p : option nat) (c : coroutine) : coroutine :=
  mk_coroutine (resume_at c) (alloc_size c) (caller c) p (is_helper c) (data c) (sheduler_data c).

(** [cothread_ctx], with the memory of the coroutines by address and, for the
    statements, the addresses freed so far.  [co_main] is the object at [MAIN],
    [dchelper] the one at [HELPER] (in [stk]), once it exists. *)
Record cothread_ctx := mk_ctx {
  objects : gmap nat coroutine;
  co_curr : nat;
  co_dhelper : option nat;
  freed : list nat;
}.

Definition MAIN : nat := 0.
Definition HELPER : nat := 1.

Definition upd_co (a : nat) (f : coroutine → coroutine) (c : cothread_ctx) : cothread_ctx :=
  mk_ctx (alter f a (objects c)) (co_curr c) (co_dhelper c) (freed c).
Definition set_curr (a : nat) (c : cothread_ctx) : cothread_ctx :=
  mk_ctx (objects c) a (co_dhelper c) (freed c).
Definition set_dhelper (p : option nat) (c : cothread_ctx) : cothread_ctx :=
  mk_ctx (objects c) (co_curr c) p (freed c).

(** [co_thread_init]: the objects start zeroed. *)
Definition co_thread_init : cothread_ctx :=
  mk_ctx {[MAIN := mk_coroutine AfterCall 0 None None false 0 0]} MAIN None [].

(** [co_create] once it has a block at [a] of which [size] bytes were allocated.
    It leaves [caller] and [restarget] as they are in the block; nothing reads
    them before they are set. *)
Definition co_create (a : nat) (size : Z) (helper : bool) (dat : nat) (c : cothread_ctx) : cothread_ctx :=
  mk_ctx (<[a := mk_coroutine AtEntry size None None helper dat 0]> (objects c))
    (co_curr c) (co_dhelper c) (freed c).

(** [None]: the [exit(1)] on an attempt to delete the running coroutine, or a
    dangling pointer. *)
Definition co_delete (a : nat) (c : cothread_ctx) : option cothread_ctx :=
  if decide (a = co_curr c) then None
  else
    co ← objects c !! a;
    Some (if alloc_size co =? 0 then c
          else mk_ctx (delete a (objects c)) (co_curr c) (co_dhelper c) (freed c ++ [a])).

(** Control arrives in [co_curr]: what runs until the code of a user goes on.
    The helper deletes its caller and calls the coroutine it was told to; [fuel]
    bounds the number of times it does so.  [None]: a context that is not there. *)
Fixpoint arrive (fuel : nat) (c : cothread_ctx) : option cothread_ctx :=
  match fuel with
  | O => None
  | S fuel =>
    co ← objects c !! co_curr c;
    let helper (c : cothread_ctx) :=
      cdh ← co_dhelper c;
      co ← objects c !! co_curr c;
      old ← caller co;
      c ← co_delete old (set_dhelper None c);
      _ ← objects c !! cdh;
      let me := co_curr c in
      arrive fuel (set_curr cdh (upd_co me (set_resume_at InHelper) (upd_co cdh (set_caller (Some me)) c))) in
    match resume_at co with
    | AtEntry =>
      let c := upd_co (co_curr c) (set_restarget (caller co)) c in
      if is_helper co then helper c else Some c
    | AfterCall => Some c
    | AfterResume => Some (upd_co (co_curr c) (set_restarget (caller co)) c)
    | InHelper => helper c
    end
  end.

(** [co_call], and [co_resume]'s call with [at_] the place to go on. *)
Definition call_from (at_ : saved) (a : nat) (c : cothread_ctx) : option cothread_ctx :=
  _ ← objects c !! a;
  let old := co_curr c in
  arrive 2 (set_curr a (upd_co old (set_resume_at at_) (upd_co a (set_caller (Some old)) c))).

Definition co_call (a : nat) (c : cothread_ctx) : option cothread_ctx := call_from AfterCall a c.

Definition co_resume (c : cothread_ctx) : option cothread_ctx :=
  co ← objects c !! co_curr c; target ← restarget co; call_from AfterResume target c.

(** The helper is made when it is first needed, on the stack [stk] of the thread. *)
Definition co_exit_to (a : nat) (c : cothread_ctx) : option cothread_ctx :=
  let c := match objects c !! HELPER with
           | Some _ => c
           | None => co_create HELPER 0 true 0 c
           end in
  co_call HELPER (set_dhelper (Some a) c).

(** The end of a coroutine's function. *)
Definition co_exit (c : cothread_ctx) : option cothread_ctx :=
  co ← objects c !! co_curr c; target ← restarget co; co_exit_to target c.

Definition co_current (c : cothread_ctx) : nat := co_curr c.
Definition co_get_data (a : nat) (c : cothread_ctx) : option nat := data <$> objects c !! a.
Definition co_set_data (a dat : nat) (c : cothread_ctx) : option (nat * cothread_ctx) :=
  co ← objects c !! a;
  Some (data co, upd_co a (λ co, mk_coroutine (resume_at co) (alloc_size co) (caller co) (restarget co)
    (is_helper co) dat (sheduler_data co)) c).
Definition co_get_scheduler_data (a : nat) (c : cothread_ctx) : option nat := sheduler_data <$> objects c !! a.
Definition co_set_scheduler_data (a dat : nat) (c : cothread_ctx) : option (nat * cothread_ctx) :=
  co ← objects c !! a;
  Some (sheduler_data co, upd_co a (λ co, mk_coroutine (resume_at co) (alloc_size co) (caller co)
    (restarget co) (is_helper co) (data co) dat) c).

(** ** What a core does with coroutines *)

(** A core creates coroutines, calls one from [main], and is called back by it or
    sees it end. *)
Inductive cop := Create (a : nat) (size : Z) | CallCo (a : nat) | CallMain | End.

Definition cexec (o : cop) (c : cothread_ctx) : option cothread_ctx :=
  match o with
  | Create a size => Some (co_create a size false 0 c)
  | CallCo a => co_call a c
  | CallMain => co_call MAIN c
  | End => co_exit c
  end.

Fixpoint cexec_all (os : list cop) (c : cothread_ctx) : option cothread_ctx :=
  match os with [] => Some c | o :: os => c ← cexec o c; cexec_all os c end.

(** The specification: the coroutines that are there, the one that runs ([None]:
    [main]), and those that have ended. *)
Record cspec := mk_cspec { live : gset nat; running : option nat; ended : list nat }.

(** [None]: the core would not do this.  An address is free to be used again once
    its coroutine has ended. *)
Definition cspec_step (o : cop) (s : cspec) : option cspec :=
  match o, running s with
  | Create a size, r =>
    if decide (a ≠ MAIN ∧ a ≠ HELPER ∧ a ∉ live s ∧ size ≠ 0) then
      Some (mk_cspec ({[a]} ∪ live s) r (ended s))
    else None
  | CallCo a, None => if decide (a ∈ live s) then Some (mk_cspec (live s) (Some a) (ended s)) else None
  | CallMain, Some _ => Some (mk_cspec (live s) None (ended s))
  | End, Some a => Some (mk_cspec (live s ∖ {[a]}) None (ended s ++ [a]))
  | _, _ => None
  end.

Fixpoint cspec_run (os : list cop) (s : cspec) : option cspec :=
  match os with [] => Some s | o :: os => s ← cspec_step o s; cspec_run os s end.

(** ** The simulation *)

(** A coroutine that [main] may call. *)
Definition callable (co : coroutine) : Prop :=
  resume_at co = AtEntry ∨ (resume_at co = AfterCall ∧ restarget co = Some MAIN).

Definition co_ok (r : option nat) (a : nat) (co : coroutine) : Prop :=
  alloc_size co ≠ 0 ∧ is_helper co = false ∧
  (if decide (r = Some a) then restarget co = Some MAIN else callable co).

Definition helper_ok (h : option coroutine) : Prop :=
  match h with
  | None => True
  | Some h => is_helper h = true ∧ resume_at h = InHelper ∧ alloc_size h = 0
  end.

Record refines (s : cspec) (c : cothread_ctx) : Prop := {
  rf_curr : co_curr c = default MAIN (running s);
  rf_dhelper : co_dhelper c = None;
  rf_freed : freed c = ended s;
  rf_live : ∀ a, a ∈ live s → a ≠ MAIN ∧ a ≠ HELPER ∧ ∃ co, objects c !! a = Some co ∧ co_ok (running s) a co;
  rf_dead : ∀ a, a ≠ MAIN → a ≠ HELPER → a ∉ live s → objects c !! a = None;
  rf_main : ∃ m, objects c !! MAIN = Some m ∧ (running s ≠ None → resume_at m = AfterCall);
  rf_helper : helper_ok (objects c !! HELPER);
  rf_running : ∀ a, running s = Some a → a ∈ live s;
}.

Ltac objs := repeat first
  [ rewrite lookup_alter_eq | rewrite lookup_alter_ne by done
  | rewrite lookup_insert_eq | rewrite lookup_insert_ne by done
  | rewrite lookup_delete_eq | rewrite lookup_delete_ne by done ].

Lemma refines_create s c a size :
  a ≠ MAIN → a ≠ HELPER → a ∉ live s → size ≠ 0 → refines s c →
  refines (mk_cspec ({[a]} ∪ live s) (running s) (ended s)) (co_create a size false 0 c).
Proof.
  intros Hm Hh Ha Hs [Hc Hd Hf Hl Hx Hma He Hr]. split; cbn; try done.
  - intros b [->%elem_of_singleton|Hb]%elem_of_union.
    + split_and!; [done|done|]. eexists. objs. split; [done|]. split_and!; [done|done|].
      rewrite decide_False by (intros Heq; by apply Ha, Hr). by left.
    + destruct (Hl b Hb) as (? & ? & co & Hco & ?). split_and!; [done|done|].
      exists co. assert (a ≠ b) by (by intros ->). objs. done.
  - intros b ?? Hb. assert (a ≠ b) by set_solver. objs. apply Hx; set_solver.
  - by objs.
  - by objs.
  - intros b Hb. apply elem_of_union. right. auto.
Qed.

(** What is left to show after a switch: only the two ends of it have changed. *)
Lemma refines_called s c a c' :
  refines s c → running s = None → a ∈ live s →
  co_curr c' = a → co_dhelper c' = None → freed c' = freed c →
  (∃ co, objects c' !! a = Some co ∧ alloc_size co ≠ 0 ∧ is_helper co = false ∧ restarget co = Some MAIN) →
  (∃ m, objects c' !! MAIN = Some m ∧ resume_at m = AfterCall) →
  (∀ b, b ≠ a → b ≠ MAIN → objects c' !! b = objects c !! b) →
  refines (mk_cspec (live s) (Some a) (ended s)) c'.
Proof.
  intros [Hc Hd Hf Hl Hx Hm He Hr] Hn Ha H1 H2 H3 (co & Hco & Hco') (m & Hm1 & Hm2) Ho.
  destruct (Hl a Ha) as (Hma & Hha & _).
  split; cbn [live running ended]; [done|done|congruence| | |eauto| |by intros b [= <-]].
  - intros b Hb. destruct (Hl b Hb) as (? & ? & cb & Hcb & Hz & Hnh & Hok). split_and!; [done|done|].
    destruct (decide (b = a)) as [->|Hne].
    + exists co. split; [done|]. unfold co_ok. rewrite decide_True by done. naive_solver.
    + exists cb. rewrite Ho by done. split; [done|]. unfold co_ok. rewrite Hn in Hok.
      rewrite decide_False in Hok by done. by rewrite decide_False by congruence.
  - intros b ?? Hb. rewrite Ho; [by apply Hx| |done]. by intros ->.
  - by rewrite Ho.
Qed.

Lemma refines_call s c a :
  running s = None → a ∈ live s → refines s c →
  ∃ c', co_call a c = Some c' ∧ refines (mk_cspec (live s) (Some a) (ended s)) c'.
Proof.
  intros Hn Ha HR. pose proof HR as [Hc Hd Hf Hl Hx (m & Hm & _) He Hr]. rewrite Hn in *. cbn in Hc.
  destruct (Hl a Ha) as (Hma & Hha & co & Hco & Hz & Hnh & Hcall). rewrite decide_False in Hcall by done.
  unfold co_call, call_from. rewrite Hco, Hc. cbn. objs. rewrite Hco. cbn.
  destruct Hcall as [He0|[He0 Hrt]]; rewrite He0; cbn; rewrite ?Hnh; eexists; (split; [done|]);
    (apply (refines_called s c); cbn; try done); objs; rewrite ?Hco, ?Hm; cbn; eauto 10;
    intros b ??; by objs.
Qed.

(** The running coroutine calls [main]. *)
Lemma refines_call_main s c a :
  running s = Some a → refines s c →
  ∃ c', co_call MAIN c = Some c' ∧ refines (mk_cspec (live s) None (ended s)) c'.
Proof.
  intros Hn HR. pose proof HR as [Hc Hd Hf Hl Hx (m & Hm & Hma) He Hr]. rewrite Hn in *. cbn in Hc.
  specialize (Hma ltac:(done)). specialize (Hr a eq_refl).
  destruct (Hl a Hr) as (Hmn & Hha & co & Hco & Hz & Hnh & Hrt). rewrite decide_True in Hrt by done.
  unfold co_call, call_from. rewrite Hm, Hc. cbn. objs. rewrite Hm. cbn. rewrite Hma.
  eexists. split; [done|]. split; cbn; try done.
  - intros b Hb. destruct (Hl b Hb) as (? & ? & cb & Hcb & Hz' & Hnh' & Hok). split_and!; [done|done|].
    destruct (decide (b = a)) as [->|Hne]; objs.
    + rewrite Hco. eexists. split; [done|]. split_and!; [done|done|]. rewrite decide_False by done. by right.
    + exists cb. split; [done|]. split_and!; [done|done|]. rewrite decide_False in Hok by congruence.
      by rewrite decide_False by done.
  - intros b ?? Hb. assert (a ≠ b) by (by intros ->). objs. by apply Hx.
  - objs. rewrite Hm. eexists. split; [done|]. done.
  - by objs.
Qed.

(** The helper, told to go on with [cdh], frees its caller. *)
Lemma helper_frees c h old o cdh m :
  objects c !! co_curr c = Some h → is_helper h = true →
  resume_at h = AtEntry ∨ resume_at h = InHelper →
  caller h = Some old → old ≠ co_curr c → objects c !! old = Some o → alloc_size o ≠ 0 →
  co_dhelper c = Some cdh → cdh ≠ old → cdh ≠ co_curr c → objects c !! cdh = Some m →
  resume_at m = AfterCall →
  ∃ c', arrive 2 c = Some c' ∧ co_curr c' = cdh ∧ co_dhelper c' = None ∧ freed c' = freed c ++ [old] ∧
    objects c' !! old = None ∧
    (∃ m', objects c' !! cdh = Some m' ∧ resume_at m' = AfterCall) ∧
    (∃ h', objects c' !! co_curr c = Some h' ∧ is_helper h' = true ∧ resume_at h' = InHelper ∧
       alloc_size h' = alloc_size h) ∧
    ∀ b, b ≠ old → b ≠ cdh → b ≠ co_curr c → objects c' !! b = objects c !! b.
Proof.
  intros Hh Hish Hat Hcal Hold Ho Hz Hcdh Hne1 Hne2 Hm Hma.
  apply not_eq_sym in Hne1 as Hne1'. apply not_eq_sym in Hold as Hold'. apply not_eq_sym in Hne2 as Hne2'.
  assert (alloc_size o =? 0 = false) as Hz' by lia.
  destruct Hat as [Hat|Hat]; cbn [arrive]; rewrite Hh; cbn; rewrite Hat; rewrite ?Hish; cbn;
    rewrite Hcdh; cbn; objs; rewrite ?Hh; cbn; rewrite Hcal; cbn; unfold co_delete; cbn;
    rewrite decide_False by done; objs; rewrite Ho; cbn; rewrite Hz'; cbn; objs; rewrite Hm; cbn; objs;
    rewrite ?Hm; cbn; rewrite Hma; eexists; (split; [done|]); cbn; (split_and!; [done|done|done| | | |]);
    try (objs; rewrite ?Hm, ?Hh; cbn; eauto 10; done);
    intros b ???; assert (cdh ≠ b ∧ co_curr c ≠ b ∧ old ≠ b) as (? & ? & ?) by naive_solver; by objs.
Qed.

(** The running coroutine ends: the helper frees it and goes back to [main]. *)
Lemma refines_end s c a :
  running s = Some a → refines s c →
  ∃ c', co_exit c = Some c' ∧ refines (mk_cspec (live s ∖ {[a]}) None (ended s ++ [a])) c'.
Proof.
  intros Hn HR. pose proof HR as [Hc Hd Hf Hl Hx (m & Hm & Hma) He Hr]. rewrite Hn in *. cbn in Hc.
  specialize (Hma ltac:(done)). specialize (Hr a eq_refl).
  destruct (Hl a Hr) as (Hmn & Hha & co & Hco & Hz & Hnh & Hrt). rewrite decide_True in Hrt by done.
  assert (MAIN ≠ HELPER) as Hmh by done.
  unfold co_exit. rewrite Hc, Hco. cbn. rewrite Hrt. cbn. unfold co_exit_to.
  set (c1 := match objects c !! HELPER with Some _ => c | None => co_create HELPER 0 true 0 c end).
  assert (∃ h, objects c1 !! HELPER = Some h ∧ is_helper h = true ∧ alloc_size h = 0 ∧
    (resume_at h = AtEntry ∨ resume_at h = InHelper)) as (h & Hh & Hish & Hha0 & Hhr).
  { subst c1. unfold helper_ok in He. destruct (objects c !! HELPER) as [h|] eqn:E.
    - exists h. rewrite E. naive_solver.
    - cbn. objs. eexists. split; [done|]. cbn. auto. }
  assert (∀ b, b ≠ HELPER → objects c1 !! b = objects c !! b) as Ho.
  { intros b Hb. apply not_eq_sym in Hb. subst c1. destruct (objects c !! HELPER); cbn; by objs. }
  assert (co_curr c1 = a ∧ freed c1 = freed c) as [Hc1 Hf1]
    by (subst c1; by destruct (objects c !! HELPER)).
  unfold co_call, call_from. cbn [set_dhelper objects co_curr]. rewrite Hh, Hc1. cbn [mbind option_bind].
  apply not_eq_sym in Hha as Hha'. apply not_eq_sym in Hmh as Hmh'.
  destruct (helper_frees (set_curr HELPER (upd_co a (set_resume_at AfterCall)
      (upd_co HELPER (set_caller (Some a)) (set_dhelper (Some MAIN) c1))))
      (set_caller (Some a) h) a (set_resume_at AfterCall co) MAIN m)
    as (c' & -> & Hcur & Hdh & Hfr & Hold & Hm' & (h' & Hh' & Hp1 & Hp2 & Hp3) & Hoth);
    cbn; try done; objs; rewrite ?Hh, ?Ho, ?Hco, ?Hm by done; try done.
  cbn in Hfr, Hh', Hoth. exists c'. split; [done|].
  split; cbn [live running ended]; [done|done|congruence| | | | |done].
  - intros b [Hb Hba]%elem_of_difference. apply not_elem_of_singleton in Hba.
    destruct (Hl b Hb) as (Hbm & Hbh & cb & Hcb & Hz' & Hnh' & Hok). split_and!; [done|done|].
    exists cb. rewrite Hoth by done. apply not_eq_sym in Hba as Hba'. apply not_eq_sym in Hbh as Hbh'. objs.
    rewrite Ho by done. split; [done|]. split_and!; [done|done|]. rewrite decide_False in Hok by congruence.
    by rewrite decide_False by done.
  - intros b Hbm Hbh Hb. destruct (decide (b = a)) as [->|Hba]; [done|].
    rewrite Hoth by done. apply not_eq_sym in Hba as Hba'. apply not_eq_sym in Hbh as Hbh'. objs.
    rewrite Ho by done. apply Hx; [done|done|]. set_solver.
  - destruct Hm' as (m' & ? & ?). eauto.
  - rewrite Hh'. cbn. rewrite Hp3. cbn. auto.
Qed.

(** ** The property *)

Lemma cexec_refines o s s' c :
  cspec_step o s = Some s' → refines s c → ∃ c', cexec o c = Some c' ∧ refines s' c'.
Proof.
  intros Hs HR. destruct o as [a size|a| |]; cbn in Hs.
  - case_decide as Hd; [|done]. destruct Hd as (? & ? & ? & ?). injection Hs as <-.
    eexists. split; [done|]. by apply refines_create.
  - destruct (running s) eqn:Hr; [done|]. case_decide; [|done]. injection Hs as <-. by apply refines_call.
  - destruct (running s) eqn:Hr; [|done]. injection Hs as <-. by eapply refines_call_main.
  - destruct (running s) eqn:Hr; [|done]. injection Hs as <-. by apply refines_end.
Qed.

Lemma cexec_all_refines os : ∀ s s' c,
  cspec_run os s = Some s' → refines s c → ∃ c', cexec_all os c = Some c' ∧ refines s' c'.
Proof.
  induction os as [|o os IH]; intros s s' c; cbn; [intros [= <-]; eauto|].
  destruct (cspec_step o s) as [s1|] eqn:Hs; cbn; [|done]. intros Hrun HR.
  destruct (cexec_refines _ _ _ _ Hs HR) as (c1 & -> & HR1). cbn. eauto.
Qed.

Lemma init_refines : refines (mk_cspec ∅ None []) co_thread_init.
Proof.
  split; cbn; try done.
  - intros a ?? _. by rewrite lookup_insert_ne by done.
  - rewrite lookup_insert_eq. eauto.
Qed.

(** C31: as long as [main] calls coroutines that exist and they call [main] or
    end, every switch arrives at a context that is there, and is the one it is
    meant for: control is in [main] or in the coroutine it called last, each
    goes on where it left off, an ended coroutine's object is freed, once, by the
    helper, before [main] goes on, and no other object is. *)
Theorem switching_refines (os : list cop) (s : cspec)
    (Hrun : cspec_run os (mk_cspec ∅ None []) = Some s) :
  ∃ c, cexec_all os co_thread_init = Some c ∧
    co_current c = default MAIN (running s) ∧ freed c = ended s ∧ co_dhelper c = None ∧
    (∀ a, a ≠ MAIN → a ≠ HELPER → is_Some (objects c !! a) ↔ a ∈ live s) ∧
    (∀ a co, a ∈ live s → running s ≠ Some a → objects c !! a = Some co → callable co).
Proof.
  destruct (cexec_all_refines os _ _ _ Hrun init_refines) as (c & Hc & [H1 H2 H3 H4 H5 H6 H7 H8]).
  exists c. split_and!; try done.
  - intros a Hm Hh. split.
    + intros [co Hco]. destruct (decide (a ∈ live s)) as [|Hn]; [done|].
      by rewrite (H5 a Hm Hh Hn) in Hco.
    + intros Ha. destruct (H4 a Ha) as (_ & _ & co & -> & _). done.
  - intros a co Ha Hr Hco. destruct (H4 a Ha) as (_ & _ & co' & Hco' & _ & _ & Hok).
    rewrite Hco in Hco'. injection Hco' as <-. by rewrite decide_False in Hok.
Qed.

(** Two coroutines; the first yields, the second ends, then the first. *)
Definition ops0 : list cop :=
  [Create 5 4096; Create 6 4096; CallCo 5; CallMain; CallCo 6; End; CallCo 5; End; Create 6 4096].

Lemma switching_refines_witness : ∃ c,
  cspec_run ops0 (mk_cspec ∅ None []) = Some (mk_cspec {[6%nat]} None [6; 5]%nat) ∧
  cexec_all ops0 co_thread_init = Some c ∧ co_current c = MAIN ∧ freed c = [6; 5]%nat.
Proof.
  assert (cspec_run ops0 (mk_cspec ∅ None []) = Some (mk_cspec {[6%nat]} None [6; 5]%nat)) as Hrun
    by (by vm_compute).
  destruct (switching_refines ops0 _ Hrun) as (c & Hc & Hcur & Hf & _). exists c.
  exact (conj Hrun (conj Hc (conj Hcur Hf))).
Defined.

(** ** Stacks *)

Lemma align_down k x : 0 <= k → Z.land x (Z.lnot (Z.ones k)) = x - x mod 2 ^ k.
Proof.
  intros Hk. rewrite <-Z.ldiff_land, Z.ldiff_ones_r, Z.shiftl_mul_pow2, Z.shiftr_div_pow2 by done.
  pose proof (Z.div_mod x (2 ^ k) ltac:(lia)). lia.
Qed.

Lemma CO_STK_COROSIZE_bounds sizeof :
  0 < sizeof → sizeof <= CO_STK_COROSIZE sizeof < sizeof + 256 ∧ CO_STK_COROSIZE sizeof mod CO_STK_ALIGN = 0.
Proof.
  intros Hs. unfold CO_STK_COROSIZE, CO_STK_ALIGN.
  change (256 - 1) with (Z.ones 8). rewrite align_down by done. change (2 ^ 8) with 256.
  pose proof (Z.mod_pos_bound (sizeof + 256 - 1) 256 ltac:(lia)).
  pose proof (Z.div_mod (sizeof + 256 - 1) 256 ltac:(lia)). split; [lia|].
  replace (_ - _) with ((sizeof + 256 - 1) / 256 * 256) by lia. apply Z_mod_mult.
Qed.

(** What [co_create] lays out fits: the object at the start of the block,
    behind it, aligned, the stack, and the stack ends eight bytes before the block
    does; a block that [co_create] allocates has a stack of at least [SIGSTKSZ]
    bytes and of all but the last fifteen of those asked for; less than
    [SIGSTKSZ] is refused, and so is a stack of the caller that leaves less. *)
Theorem co_create_stack_fits (SIGSTKSZ sizeof size : Z) (own_stack : bool)
    (Hsig : 0 < SIGSTKSZ < 2 ^ 32) (Hsizeof : 0 < sizeof < 2 ^ 32) (Hsize : 0 <= size < 2 ^ 62) :
  match co_create_sizes SIGSTKSZ sizeof own_stack size with
  | None => size < (if own_stack then co_get_min_stack_size SIGSTKSZ sizeof else SIGSTKSZ) + 8
  | Some (alloc, blk) =>
    let '(offset, n) := co_stack sizeof blk in
    sizeof <= offset ∧ offset mod CO_STK_ALIGN = 0 ∧ offset + n + 8 = blk ∧ SIGSTKSZ <= n + 8 ∧
    (if own_stack then alloc = 0 ∧ blk <= size else alloc = blk ∧ size - 15 <= n)
  end.
Proof.
  pose proof (CO_STK_COROSIZE_bounds sizeof ltac:(lia)) as [Hc Hm].
  unfold co_create_sizes, co_stack, co_get_min_stack_size, CO_MIN_SIZE.
  change (Z.lnot 7) with (Z.lnot (Z.ones 3)). rewrite align_down by done. change (2 ^ 3) with 8.
  pose proof (Z.mod_pos_bound size 8 ltac:(lia)). pose proof (Z.mod_le size 8 ltac:(lia) ltac:(lia)).
  destruct own_stack.
  - destruct (Z.ltb_spec (size - size mod 8) (SIGSTKSZ + CO_STK_COROSIZE sizeof)); [lia|].
    split_and!; lia.
  - destruct (Z.ltb_spec (size - size mod 8) SIGSTKSZ); [lia|].
    rewrite uwrap_id by (unfold is_uint; lia). split_and!; try done; lia.
Qed.

Lemma co_create_stack_fits_witness :
  co_create_sizes 8192 1000 false 131072 = Some (132096, 132096) ∧
  1000 <= 1024 ∧ 1024 mod CO_STK_ALIGN = 0 ∧ 1024 + 131064 + 8 = 132096 ∧ 8192 <= 131064 + 8 ∧
  132096 = 132096 ∧ 131072 - 15 <= 131064.
Proof.
  split; [by vm_compute|].
  exact (co_create_stack_fits 8192 1000 131072 false ltac:(by split) ltac:(by split) ltac:(by split)).
Defined.
