(* ===== verification/Resources.v ===== *)
(** Functions that acquire and release resources: a state monad in which a step
    can be undefined, its total-correctness triples, and the resources of a
    process that its sockets use: blocks of the allocator, file descriptors, SSL
    objects.  Which calls of the system succeed is a script in the state, over
    which theorems quantify. *)

From S2P Require Import Prelude CoWaiter.

(** ** Actions *)

(** [None]: undefined behaviour, as the use of a block that is not there. *)
Definition act (W A : Type) : Type := W → option (A * W).

#[export] Instance act_ret W : MRet (act W) := λ A x w, Some (x, w).
#[export] Instance act_bind W : MBind (act W) := λ A B f m w,
  match m w with Some (x, w') => f x w' | None => None end.

Definition undefined {W A} : act W A := λ _, None.
Definition gets {W A} (f : W → A) : act W A := λ w, Some (f w, w).
Definition modify {W} (f : W → W) : act W unit := λ w, Some (tt, f w).
Definition of_option {W A} (o : option A) : act W A := λ w, (λ x, (x, w)) <$> o.

(** For each item in turn, for as long as the body says so. *)
Fixpoint for_items {W A} (f : A → act W bool) (l : list A) : act W bool :=
  match l with
  | [] => mret true
  | x :: l => go ← f x; if (go : bool) then for_items f l else mret false
  end.

(** The action is defined and its result satisfies [Q]. *)
Definition goes {W A} (m : act W A) (w : W) (Q : A → W → Prop) : Prop :=
  ∃ x w', m w = Some (x, w') ∧ Q x w'.

Section Rules.
Context {W : Type}.
Implicit Types w : W.

Lemma goes_ret {A} (x : A) w (Q : A → W → Prop) : Q x w → goes (mret x) w Q.
Proof. intros. by exists x, w. Qed.

Lemma goes_gets {A} (f : W → A) w Q : Q (f w) w → goes (gets f) w Q.
Proof. intros. by exists (f w), w. Qed.

Lemma goes_modify (f : W → W) w (Q : unit → W → Prop) : Q tt (f w) → goes (modify f) w Q.
Proof. intros. by exists tt, (f w). Qed.

Lemma goes_of_option {A} (o : option A) x w Q : o = Some x → Q x w → goes (of_option o) w Q.
Proof. intros -> ?. by exists x, w. Qed.

Lemma goes_bind {A B} (m : act W A) (f : A → act W B) w Q :
  goes m w (λ x w1, goes (f x) w1 Q) → goes (m ≫= f) w Q.
Proof.
  intros (x & w1 & Hm & y & w2 & Hf & HQ). exists y, w2. split; [|done].
  unfold mbind, act_bind. by rewrite Hm.
Qed.

Lemma goes_bind_inv {A B} (m : act W A) (f : A → act W B) w Q :
  goes (m ≫= f) w Q → goes m w (λ x w1, goes (f x) w1 Q).
Proof.
  intros (y & w2 & Hm & HQ). unfold mbind, act_bind in Hm.
  destruct (m w) as [[x w1]|] eqn:E; [|done]. exists x, w1. split; [done|]. by exists y, w2.
Qed.

Lemma goes_mono {A} (m : act W A) w (Q Q' : A → W → Prop) :
  goes m w Q → (∀ x w', Q x w' → Q' x w') → goes m w Q'.
Proof. intros (x & w' & Hm & HQ) Himp. exists x, w'. auto. Qed.

(** One action after another whose post-condition is known. *)
Lemma goes_seq {A B} (m : act W A) (f : A → act W B) w M Q :
  goes m w M → (∀ x w1, M x w1 → goes (f x) w1 Q) → goes (m ≫= f) w Q.
Proof. intros Hm Hf. apply goes_bind. by eapply goes_mono. Qed.

End Rules.

(** An action on a part of the state. *)
Definition on {W V A} (get : V → W) (put : W → V → V) (m : act W A) : act V A := λ v,
  match m (get v) with Some (x, w) => Some (x, put w v) | None => None end.

Lemma goes_on {W V A} (get : V → W) (put : W → V → V) (m : act W A) v Q :
  goes m (get v) (λ x w, Q x (put w v)) → goes (on get put m) v Q.
Proof. intros (x & w & Hm & HQ). exists x, (put w v). unfold on. by rewrite Hm. Qed.

Ltac go := repeat
  lazymatch goal with
  | |- goes (mbind _ _) _ _ => apply goes_bind
  | |- goes (mret _) _ _ => apply goes_ret
  | |- goes (gets _) _ _ => apply goes_gets
  | |- goes (modify _) _ _ => apply goes_modify
  end.

(** ** The resources of a process *)

(** Where the allocator puts a block and the number the kernel gives a
    descriptor: any that is free. *)
Class Os := {
  malloc_at : gset nat → nat;
  new_fd : gset Z → Z;
  malloc_at_fresh X : malloc_at X ∉ X;
  new_fd_fresh X : new_fd X ∉ X;
  new_fd_pos X : (0 <= new_fd X)%Z;
}.

(** What the kernel knows of a descriptor: domain, type and protocol, the flag
    [O_NONBLOCK], whether it is in the set of the listener's epoll, and whether
    it listens. *)
Record fdinfo := mk_fd {
  f_socket : Z * Z * Z;
  f_nonblock : bool;
  f_polled : bool;
  f_listening : bool;
}.

(** A socket object, once it is initialised; [struct co_socket] *)
Record co_socket := mk_socket { e : iorq; recvtmo : Z; sendtmo : Z }.

(** A block holds a [co_socket] or a [co_ssl_socket], which starts with one;
    [None]: memory nothing has been written to.  The innermost [None] is the
    [NULL] of [ssl]. *)
Inductive object :=
| OSock (cc : option co_socket)
| OSsl (cc : option co_socket) (ssl : option (option nat)).

(** [fate] says which of the calls to come succeed (all, when it is used up), and
    [socket_fate] the same of [socket()]; [closes] lists the descriptors closed,
    with whether the connection was aborted. *)
Record process := mk_process {
  heap : gmap nat object;
  fds : gmap Z fdinfo;
  ssls : gset nat;
  iowaiters : waiters;
  closes : list (Z * bool);
  err : errno;
  fate : list bool;
  socket_fate : list bool;
}.

Definition upd_heap (f : gmap nat object → gmap nat object) (p : process) : process :=
  mk_process (f (heap p)) (fds p) (ssls p) (iowaiters p) (closes p) (err p) (fate p) (socket_fate p).
Definition upd_fds (f : gmap Z fdinfo → gmap Z fdinfo) (p : process) : process :=
  mk_process (heap p) (f (fds p)) (ssls p) (iowaiters p) (closes p) (err p) (fate p) (socket_fate p).
Definition upd_ssls (f : gset nat → gset nat) (p : process) : process :=
  mk_process (heap p) (fds p) (f (ssls p)) (iowaiters p) (closes p) (err p) (fate p) (socket_fate p).
Definition set_iowaiters (ws : waiters) (p : process) : process :=
  mk_process (heap p) (fds p) (ssls p) ws (closes p) (err p) (fate p) (socket_fate p).
Definition add_close (c : Z * bool) (p : process) : process :=
  mk_process (heap p) (fds p) (ssls p) (iowaiters p) (closes p ++ [c]) (err p) (fate p) (socket_fate p).
Definition set_err (n : errno) (p : process) : process :=
  mk_process (heap p) (fds p) (ssls p) (iowaiters p) (closes p) n (fate p) (socket_fate p).
Definition set_fate (f : list bool) (p : process) : process :=
  mk_process (heap p) (fds p) (ssls p) (iowaiters p) (closes p) (err p) f (socket_fate p).
Definition set_socket_fate (f : list bool) (p : process) : process :=
  mk_process (heap p) (fds p) (ssls p) (iowaiters p) (closes p) (err p) (fate p) f.

Abbreviation M := (act process).

Section Process.
Context `{Os}.
Implicit Types p : process.

(** Whether the next call succeeds. *)
Definition may : M bool := λ p,
  match fate p with [] => Some (true, p) | b :: f => Some (b, set_fate f p) end.
Definition may_socket : M bool := λ p,
  match socket_fate p with [] => Some (true, p) | b :: f => Some (b, set_socket_fate f p) end.

Definition malloc (o : object) : M (option nat) :=
  ok ← may;
  if (ok : bool) then
    h ← gets heap;
    let l := malloc_at (dom h) in
    _ ← modify (upd_heap <[l := o]>); mret (Some l)
  else mret None.

Definition free (l : option nat) : M unit :=
  match l with
  | None => mret ()
  | Some l => h ← gets heap; if decide (l ∈ dom h) then modify (upd_heap (delete l)) else undefined
  end.

(** The socket at an address, which both kinds of objects have. *)
Definition socket_of (o : object) : option co_socket :=
  match o with OSock cc => cc | OSsl cc _ => cc end.
Definition with_socket (c : co_socket) (o : object) : object :=
  match o with OSock _ => OSock (Some c) | OSsl _ s => OSsl (Some c) s end.

Definition load (l : nat) : M object := h ← gets heap; of_option (h !! l).
Definition load_cc (l : nat) : M co_socket := o ← load l; of_option (socket_of o).
Definition store_cc (l : nat) (c : co_socket) : M unit :=
  o ← load l; modify (upd_heap <[l := with_socket c o]>).
Definition load_ssl (l : nat) : M (option nat) :=
  o ← load l; of_option (match o with OSsl _ s => s | OSock _ => None end).
Definition store_ssl (l : nat) (s : option nat) : M unit :=
  o ← load l;
  match o with
  | OSsl c _ => modify (upd_heap <[l := OSsl c (Some s)]>)
  | OSock _ => undefined
  end.

(** *** Calls of the kernel *)

Definition new_descriptor (i : fdinfo) : M Z :=
  t ← gets fds; let so := new_fd (dom t) in _ ← modify (upd_fds <[so := i]>); mret so.

Definition sys_socket (af sock_type proto : Z) : M Z :=
  ok ← may_socket;
  if (ok : bool) then new_descriptor (mk_fd (af, sock_type, proto) false false false) else mret (-1)%Z.

(** Nothing happens to a number that is no descriptor. *)
Definition sys_close (so : Z) : M unit := modify (upd_fds (delete so)).

Definition sys_fd (so : Z) (f : fdinfo → fdinfo) : M bool :=
  t ← gets fds;
  if decide (so ∈ dom t) then
    ok ← may;
    if (ok : bool) then _ ← modify (upd_fds (alter f so)); mret true else mret false
  else mret false.

Definition set_nonblock (b : bool) (i : fdinfo) : fdinfo :=
  mk_fd (f_socket i) b (f_polled i) (f_listening i).
Definition set_polled (i : fdinfo) : fdinfo := mk_fd (f_socket i) (f_nonblock i) true (f_listening i).
Definition set_listening (i : fdinfo) : fdinfo := mk_fd (f_socket i) (f_nonblock i) (f_polled i) true.

(** [F_GETFL], then [F_SETFL]. *)
Definition so_set_non_blocking (so : Z) (optval : bool) : M bool :=
  got ← sys_fd so id;
  if (got : bool) then sys_fd so (set_nonblock optval) else mret false.

Definition epoll_add (so : Z) : M bool := sys_fd so set_polled.

(** [abort_conn] sets [SO_LINGER] to 0 first. *)
Definition so_close (so : Z) (abort_conn : bool) : M bool :=
  if decide (so = -1)%Z then _ ← modify (set_err EINVAL); mret false
  else
    t ← gets fds;
    if decide (so ∈ dom t) then
      _ ← modify (add_close (so, abort_conn)); _ ← sys_close so; mret true
    else mret false.

(** [SSL_new], [SSL_free]: an object of OpenSSL. *)
Definition SSL_new : M (option nat) :=
  ok ← may;
  if (ok : bool) then
    s ← gets ssls; let l := malloc_at s in _ ← modify (upd_ssls (λ s, {[l]} ∪ s)); mret (Some l)
  else mret None.
Definition SSL_free (l : option nat) : M unit :=
  match l with
  | None => mret ()
  | Some l => s ← gets ssls; if decide (l ∈ s) then modify (upd_ssls (λ s, s ∖ {[l]})) else undefined
  end.

End Process.

(** ** Rules of the primitives *)

Section PrimitiveRules.
Context `{Os}.
Implicit Types p : process.

(** A call fails only where the script says so. *)
Lemma goes_may_fate p (Q : bool → process → Prop) :
  (∀ b f, f ⊆ fate p → (b = false → false ∈ fate p) → Q b (set_fate f p)) → goes may p Q.
Proof.
  intros HQ. destruct p as [h t s ws cl er [|b f] sf]; unfold goes, may; cbn.
  - exists true. eexists. split; [done|]. by apply (HQ true []).
  - exists b. eexists. split; [done|]. apply HQ; [set_solver|]. intros ->. by left.
Qed.

Lemma goes_may p (Q : bool → process → Prop) : (∀ b f, Q b (set_fate f p)) → goes may p Q.
Proof. intros HQ. apply goes_may_fate. auto. Qed.

Lemma goes_malloc o p (Q : option nat → process → Prop) :
  (∀ f l, heap p !! l = None → Q (Some l) (upd_heap <[l := o]> (set_fate f p))) →
  (∀ f, Q None (set_fate f p)) → goes (malloc o) p Q.
Proof.
  intros H1 H2. unfold malloc. go. apply goes_may. intros [] f; go; [|done].
  apply H1. apply not_elem_of_dom. apply malloc_at_fresh.
Qed.

Lemma goes_free l o p (Q : unit → process → Prop) :
  heap p !! l = Some o → Q tt (upd_heap (delete l) p) → goes (free (Some l)) p Q.
Proof.
  intros Hl HQ. unfold free. go. rewrite decide_True by (by eapply elem_of_dom_2). by go.
Qed.

Lemma goes_load l o p (Q : object → process → Prop) :
  heap p !! l = Some o → Q o p → goes (load l) p Q.
Proof. intros Hl HQ. unfold load. go. by eapply goes_of_option. Qed.

Lemma goes_load_cc l o c p (Q : co_socket → process → Prop) :
  heap p !! l = Some o → socket_of o = Some c → Q c p → goes (load_cc l) p Q.
Proof.
  intros Hl Hc HQ. unfold load_cc. go. eapply goes_load; [done|]. by eapply goes_of_option.
Qed.

Lemma goes_store_cc l o c p (Q : unit → process → Prop) :
  heap p !! l = Some o → Q tt (upd_heap <[l := with_socket c o]> p) → goes (store_cc l c) p Q.
Proof. intros Hl HQ. unfold store_cc. go. eapply goes_load; [done|]. by go. Qed.

Lemma goes_load_ssl l c s p (Q : option nat → process → Prop) :
  heap p !! l = Some (OSsl c (Some s)) → Q s p → goes (load_ssl l) p Q.
Proof.
  intros Hl HQ. unfold load_ssl. go. eapply goes_load; [done|]. by eapply goes_of_option.
Qed.

Lemma goes_store_ssl l c s s' p (Q : unit → process → Prop) :
  heap p !! l = Some (OSsl c s) → Q tt (upd_heap <[l := OSsl c (Some s')]> p) → goes (store_ssl l s') p Q.
Proof. intros Hl HQ. unfold store_ssl. go. eapply goes_load; [done|]. by apply goes_modify. Qed.

Lemma alter_as_insert {A} (f : A → A) (k : Z) x (m : gmap Z A) :
  m !! k = Some x → alter f k m = <[k := f x]> m.
Proof. intros Hk. rewrite <-(insert_id m k x) at 1 by done. apply alter_insert_eq. Qed.

(** A call on a descriptor that is there. *)
Lemma goes_sys_fd so f i p (Q : bool → process → Prop) :
  fds p !! so = Some i →
  (∀ ft, Q true (upd_fds <[so := f i]> (set_fate ft p))) → (∀ ft, Q false (set_fate ft p)) →
  goes (sys_fd so f) p Q.
Proof.
  intros Hi H1 H2. unfold sys_fd. go. rewrite decide_True by (by eapply elem_of_dom_2). go.
  apply goes_may. intros [] ft; go; [|done]. specialize (H1 ft).
  unfold upd_fds in *. cbn in *. by rewrite (alter_as_insert f so i) by done.
Qed.

Lemma goes_sys_socket af ty pr p (Q : Z → process → Prop) :
  (∀ ft so, ft ⊆ socket_fate p → fds p !! so = None → 0 <= so →
     Q so (upd_fds <[so := mk_fd (af, ty, pr) false false false]> (set_socket_fate ft p)))%Z →
  (∀ ft, ft ⊆ socket_fate p → head (socket_fate p) = Some false → Q (-1)%Z (set_socket_fate ft p)) →
  goes (sys_socket af ty pr) p Q.
Proof.
  intros H1 H2. unfold sys_socket. apply goes_bind.
  assert (goes may_socket p (λ b p', ∃ ft, p' = set_socket_fate ft p ∧ ft ⊆ socket_fate p ∧
    (b = false → head (socket_fate p) = Some false))) as Hm.
  { unfold goes, may_socket. destruct p as [h t s ws cl er fa [|b f]]; cbn.
    - exists true. eexists. split; [done|]. by exists [].
    - exists b. eexists. split; [done|]. exists f. split_and!; [done|set_solver|]. by intros ->. }
  eapply goes_mono; [exact Hm|]. intros b p' (ft & -> & Hft & Hb).
  destruct b; [unfold new_descriptor|]; go; [|auto].
  apply H1; [done| |apply new_fd_pos]. apply not_elem_of_dom. apply new_fd_fresh.
Qed.

Lemma goes_SSL_new p (Q : option nat → process → Prop) :
  (∀ f l, l ∉ ssls p → Q (Some l) (upd_ssls (λ s, {[l]} ∪ s) (set_fate f p))) →
  (∀ f, Q None (set_fate f p)) → goes SSL_new p Q.
Proof.
  intros H1 H2. unfold SSL_new. go. apply goes_may. intros [] f; go; [|done].
  apply H1. apply malloc_at_fresh.
Qed.

Lemma goes_SSL_free l p (Q : unit → process → Prop) :
  l ∈ ssls p → Q tt (upd_ssls (λ s, s ∖ {[l]}) p) → goes (SSL_free (Some l)) p Q.
Proof. intros Hl HQ. unfold SSL_free. go. rewrite decide_True by done. by go. Qed.

End PrimitiveRules.

(** An allocator and a kernel that hand out numbers above all that are in use. *)
#[export] Instance above_os : Os.
Proof.
  refine {| malloc_at X := fresh X; new_fd X := Z.of_nat (fresh (set_map Z.to_nat X : gset nat)) |}.
  - intros X. apply is_fresh.
  - intros X Hin. apply (is_fresh (set_map Z.to_nat X : gset nat)).
    rewrite <-(Nat2Z.id (fresh _)). by apply elem_of_map_2.
  - lia.
Defined.

(** A process with a listening socket at address 100, on descriptor 3. *)
Definition process0 (fate socket_fate : list bool) : process :=
  mk_process {[100%nat := OSock (Some (mk_socket (mk_iorq None None 3 iowait_io) (-1) (-1)))]}
    {[3%Z := mk_fd (2, 1, 6)%Z true true true]} ∅ ∅ [] (EOTHER 0) fate socket_fate.
