(* ===== verification/SockLife.v ===== *)
(** The life of socket objects ([src/cothread/co-scheduler.c],
    [src/cothread/co-ssl.c], [src/sockopt.c]): creating, initialising, listening,
    accepting, connecting, closing and freeing.  [sockets_made_whole] shows that
    what a constructor returns is whole, and that a constructor that fails has
    given back all it took; [failed_accept_is_reported] and
    [listening_undefined] are the two exceptions. *)

From S2P Require Import Prelude CoWaiter Resources.

Open Scope Z_scope.

Definition AF_INET : Z := 2.
Definition SOCK_STREAM : Z := 1.
Definition IPPROTO_TCP : Z := 6.
Definition EACCES : errno := EOTHER 13.

Section SockLife.
Context `{Os}.
Implicit Types p : process.

(** [(cc = malloc(...)) && !init(cc)] and then [free(cc), cc = NULL]. *)
Definition malloc_init (o : object) (init : nat → M bool) : M (option nat) :=
  l ← malloc o;
  match l with
  | None => mret None
  | Some a => ok ← init a; if (ok : bool) then mret l else _ ← free l; mret None
  end.

(** ** Sockets of coroutines *)

(** A socket object on the descriptor [so]. *)
Definition on_fd (so : Z) : co_socket := mk_socket (mk_iorq None None so iowait_io) (-1) (-1).

Definition co_socket_init (cc : nat) (so : Z) : M bool :=
  _ ← store_cc cc (on_fd so);
  if so =? -1 then mret true
  else
    nb ← so_set_non_blocking so true;
    added ← (if (nb : bool) then epoll_add so else mret false);
    if (added : bool) then mret true
    else _ ← store_cc cc (on_fd (-1)); mret false.

Definition co_socket_close (cc : option nat) (abort_conn : bool) : M unit :=
  match cc with
  | None => mret ()
  | Some l =>
    c ← load_cc l;
    if q_so (e c) =? -1 then mret ()
    else
      _ ← so_close (q_so (e c)) abort_conn;
      ws ← gets iowaiters;
      let '(e', ws') := CoWaiter.co_socket_close (e c) ws in
      _ ← store_cc l (mk_socket e' (recvtmo c) (sendtmo c));
      modify (set_iowaiters ws')
  end.

Definition co_socket_init_new (so : Z) : M (option nat) :=
  malloc_init (OSock None) (λ cc, co_socket_init cc so).

Definition co_socket_create (cc : nat) (af sock_type proto : Z) : M bool :=
  let af := if af =? 0 then AF_INET else af in
  let sock_type := if sock_type =? 0 then SOCK_STREAM else sock_type in
  let proto := if proto =? 0 then IPPROTO_TCP else proto in
  so ← sys_socket af sock_type proto;
  if so =? -1 then mret false
  else
    ok ← co_socket_init cc so;
    if (ok : bool) then mret true else _ ← sys_close so; mret false.

Definition co_socket_create_new (af sock_type proto : Z) : M (option nat) :=
  malloc_init (OSock None) (λ cc, co_socket_create cc af sock_type proto).

(** [af]: the family of the address.  Setting [SO_REUSEADDR] has no effect here. *)
Definition co_socket_create_listening (cc : nat) (af sock_type proto : Z) : M bool :=
  created ← co_socket_create cc af sock_type proto;
  fok ← (if negb created then mret false
         else
           c ← load_cc cc;
           bound ← sys_fd (q_so (e c)) id;
           if (bound : bool) then sys_fd (q_so (e c)) set_listening else mret false);
  _ ← (if (fok : bool) then mret () else co_socket_close (Some cc) false);
  mret fok.

Definition co_socket_create_listening_new (af sock_type proto : Z) : M (option nat) :=
  malloc_init (OSock None) (λ cc, co_socket_create_listening cc af sock_type proto).

(** The object of [*cc], which becomes [NULL]. *)
Definition co_socket_destroy (cc : option nat) (abort_conn : bool) : M unit :=
  match cc with
  | None => mret ()
  | Some _ => _ ← co_socket_close cc abort_conn; free cc
  end.

(** The loop that waits to accept ([CoSocket.co_socket_accept]): the descriptor of
    a connection, -1 if it fails. *)
Definition accepted (listening : nat) : M Z :=
  c ← load_cc listening;
  t ← gets fds;
  match t !! q_so (e c) with
  | None => mret (-1)
  | Some i =>
    ok ← may;
    if (ok : bool) then new_descriptor (mk_fd (f_socket i) false false false) else mret (-1)
  end.

Definition co_socket_accept (listening cc : nat) : M bool :=
  so ← accepted listening;
  if so =? -1 then mret false
  else
    ok ← co_socket_init cc so;
    if (ok : bool) then mret true else _ ← sys_close so; mret false.

Definition co_socket_accept_new (listening : nat) : M (option nat) :=
  malloc_init (OSock None) (co_socket_accept listening).

(** What the loop that waits for the connection ([CoSocket.co_socket_connect])
    comes to. *)
Definition co_socket_connect (cc : option nat) : M bool :=
  match cc with
  | None => _ ← modify (set_err EBADF); mret false
  | Some l =>
    c ← load_cc l;
    if q_so (e c) =? -1 then _ ← modify (set_err EBADF); mret false else may
  end.

Definition co_socket_connect_new (af sock_type proto : Z) : M (option nat) :=
  cc ← co_socket_create_new af sock_type proto;
  match cc with
  | None => mret None
  | Some _ =>
    ok ← co_socket_connect cc;
    if (ok : bool) then mret cc else _ ← co_socket_destroy cc false; mret None
  end.

Definition co_socket_fd (cc : nat) : M Z := c ← load_cc cc; mret (q_so (e c)).

Definition co_socket_get_name (cc : option nat) : M bool :=
  match cc with
  | None => _ ← modify (set_err ENOTSOCK); mret false
  | Some l => c ← load_cc l; sys_fd (q_so (e c)) id
  end.

Definition set_tmouts (f : co_socket → co_socket) (cc : option nat) : M bool :=
  match cc with
  | None => _ ← modify (set_err EBADF); mret false
  | Some l => c ← load_cc l; _ ← store_cc l (f c); mret true
  end.
Definition co_socket_set_send_tmout (cc : option nat) (msec : Z) : M bool :=
  set_tmouts (λ c, mk_socket (e c) (recvtmo c) msec) cc.
Definition co_socket_set_recv_tmout (cc : option nat) (msec : Z) : M bool :=
  set_tmouts (λ c, mk_socket (e c) msec (sendtmo c)) cc.
Definition co_socket_set_sndrcv_tmouts (cc : option nat) (snd_tmout_msec rcv_tmout_msec : Z) : M bool :=
  set_tmouts (λ c, mk_socket (e c) rcv_tmout_msec snd_tmout_msec) cc.

(** ** Sockets with OpenSSL *)

(** [BIO_new] may fail; a [BIO] belongs to the [SSL] from [SSL_set_bio] on. *)
Definition co_ssl_new : M (option nat) :=
  ssl ← SSL_new;
  match ssl with
  | None => _ ← SSL_free None; mret None
  | Some _ =>
    bio ← may;
    if (bio : bool) then mret ssl else _ ← SSL_free ssl; mret None
  end.

Definition co_ssl_socket_init (cc : nat) (so : Z) : M bool :=
  _ ← store_ssl cc None; co_socket_init cc so.

Definition co_ssl_socket_init_new (so : Z) : M (option nat) :=
  malloc_init (OSsl None None) (λ cc, co_ssl_socket_init cc so).

Definition co_ssl_socket_close (ssl_sock : option nat) (abort_conn : bool) : M unit :=
  co_socket_close ssl_sock abort_conn.

(** [ssl_ctx]: whether there is one. *)
Definition co_ssl_socket_create (cc : nat) (af sock_type proto : Z) (ssl_ctx : bool) : M bool :=
  _ ← store_ssl cc None;
  created ← co_socket_create cc af sock_type proto;
  if negb created then mret false
  else if negb ssl_ctx then mret true
  else
    ssl ← co_ssl_new;
    _ ← store_ssl cc ssl;
    match ssl with
    | Some _ => mret true
    | None => _ ← co_socket_close (Some cc) false; mret false
    end.

Definition co_ssl_socket_create_new (af sock_type proto : Z) (ssl_ctx : bool) : M (option nat) :=
  malloc_init (OSsl None None) (λ cc, co_ssl_socket_create cc af sock_type proto ssl_ctx).

Definition co_ssl_socket_listen_new (af sock_type proto : Z) : M (option nat) :=
  co_socket_create_listening_new af sock_type proto.

(** It returns the pointer [accepted], which is true, whatever [fok] is. *)
Definition co_ssl_socket_accept (listening cc : nat) (ssl_ctx : bool) : M bool :=
  init ← co_ssl_socket_init cc (-1);
  fok ← (if negb init then mret false
         else
           ok ← co_socket_accept listening cc;
           if negb ok then mret false
           else if negb ssl_ctx then mret true
           else ssl ← co_ssl_new; _ ← store_ssl cc ssl; mret (bool_decide (is_Some ssl)));
  _ ← (if (fok : bool) then mret () else co_ssl_socket_close (Some cc) true);
  mret true.

Definition co_ssl_socket_accept_new (listening : nat) (ssl_ctx : bool) : M (option nat) :=
  malloc_init (OSsl None None) (λ cc, co_ssl_socket_accept listening cc ssl_ctx).

Definition co_ssl_socket_connect (cc : nat) : M bool :=
  ok ← co_socket_connect (Some cc);
  if negb ok then mret false
  else ssl ← load_ssl cc; match ssl with None => mret true | Some _ => may end.

Definition co_ssl_socket_destroy (ssl_sock : option nat) (abort_conn : bool) : M unit :=
  match ssl_sock with
  | None => mret ()
  | Some l =>
    _ ← co_socket_close ssl_sock abort_conn;
    ssl ← load_ssl l; _ ← SSL_free ssl; free ssl_sock
  end.

(** [co_ssl_socket_connect_new] and [co_ssl_connect_new] *)
Definition co_ssl_socket_connect_new (af sock_type proto : Z) (ssl_ctx : bool) : M (option nat) :=
  cc ← co_ssl_socket_create_new af sock_type proto ssl_ctx;
  match cc with
  | None => mret None
  | Some l =>
    ok ← co_ssl_socket_connect l;
    if (ok : bool) then mret cc else _ ← co_ssl_socket_destroy cc true; mret None
  end.

(** [af]: the family of the first address the name resolves to, if it does. *)
Definition co_ssl_server_connect_new (resolved : option Z) (sock_type proto : Z) (ssl_ctx : bool) :
    M (option nat) :=
  match resolved with
  | None => mret None
  | Some af => co_ssl_socket_connect_new af sock_type proto ssl_ctx
  end.

Definition co_ssl_socket_get_ssl (ssl_sock : option nat) : M (option nat) :=
  match ssl_sock with None => mret None | Some l => load_ssl l end.

Definition co_ssl_accept (ssl_sock : option nat) : M bool :=
  match ssl_sock with
  | None => _ ← modify (set_err EBADF); mret false
  | Some l =>
    ssl ← load_ssl l;
    match ssl with
    | None => mret true
    | Some _ =>
      ok ← may;
      if (ok : bool) then mret true else _ ← modify (set_err EACCES); mret false
    end
  end.

(** ** Descriptors without an object *)

(** [socket()], then the calls of [setup], and [close] if one fails. *)
Definition tcp_descriptor (setup : Z → M bool) : M Z :=
  so ← sys_socket AF_INET SOCK_STREAM IPPROTO_TCP;
  if so =? -1 then mret (-1)
  else ok ← setup so; if (ok : bool) then mret so else _ ← sys_close so; mret (-1).

(** [so_tcp_listen] and [so_tcp_listen2]; the address is what they bind to. *)
Definition so_tcp_listen : M Z :=
  tcp_descriptor (λ so,
    bound ← sys_fd so id; if (bound : bool) then sys_fd so set_listening else mret false).

Definition so_tcp_connect : M Z := tcp_descriptor (λ so, sys_fd so id).

(** Options that fail to be set are ignored; [co_connect] waits for the outcome. *)
Definition co_tcp_connect : M Z :=
  tcp_descriptor (λ so, _ ← so_set_non_blocking so true; sys_fd so id).

End SockLife.

(** ** What constructors leave behind *)

Section Lifecycle.
Context `{Os}.
Implicit Types p : process.

Definition ready (i : fdinfo) : Prop := f_nonblock i = true ∧ f_polled i = true.

(** The resources of [p'] are these, its waiters those of [p], and no failure of
    [socket()] lies ahead that does not in [p]. *)
Definition has_res (p p' : process) (h : gmap nat object) (t : gmap Z fdinfo) (s : gset nat) : Prop :=
  heap p' = h ∧ fds p' = t ∧ ssls p' = s ∧ iowaiters p' = iowaiters p ∧ socket_fate p' ⊆ socket_fate p.

Lemma has_res_trans p1 p2 p3 h t s h' t' s' :
  has_res p1 p2 h t s → has_res p2 p3 h' t' s' → has_res p1 p3 h' t' s'.
Proof. intros (? & ? & ? & ? & ?) (? & ? & ? & ? & ?). split_and!; try congruence. set_solver. Qed.

(** The resources after a few steps whose effects are known. *)
Ltac res :=
  repeat match goal with HR : has_res _ _ _ _ _ |- _ => destruct HR as (? & ? & ? & ? & ?) end;
  unfold has_res; cbn in *;
  repeat match goal with
  | E : heap ?p = _ |- context [heap ?p] => rewrite E
  | E : fds ?p = _ |- context [fds ?p] => rewrite E
  | E : ssls ?p = _ |- context [ssls ?p] => rewrite E
  | E : iowaiters ?p = _ |- context [iowaiters ?p] => rewrite E
  end;
  rewrite ?insert_insert_eq, ?lookup_insert_eq; split_and?;
  lazymatch goal with |- _ ⊆ _ => set_solver | _ => try done end.

Lemma so_set_non_blocking_goes so b i p :
  fds p !! so = Some i →
  goes (so_set_non_blocking so b) p (λ ok p', ∃ i',
    has_res p p' (heap p) (<[so := i']> (fds p)) (ssls p) ∧ i' = if (ok : bool) then set_nonblock b i else i).
Proof.
  intros Hso. unfold so_set_non_blocking. go.
  apply (goes_sys_fd so id i); [done| |]; intros f.
  - apply (goes_sys_fd so _ i); [by cbn; rewrite lookup_insert_eq| |]; intros f'; eexists; res.
  - go. exists i. rewrite insert_id by done. res.
Qed.

Lemma co_socket_init_goes l so o i p :
  heap p !! l = Some o → fds p !! so = Some i → 0 <= so →
  goes (co_socket_init l so) p (λ ok p', ∃ i',
    has_res p p' (<[l := with_socket (on_fd (if (ok : bool) then so else -1)) o]> (heap p))
      (<[so := i']> (fds p)) (ssls p) ∧
    f_socket i' = f_socket i ∧ f_listening i' = f_listening i ∧ (ok = true → ready i')).
Proof.
  intros Hl Hso Hpos. unfold co_socket_init. lazymatch goal with |- goes _ _ ?Q => set (Post := Q) end.
  go. eapply goes_store_cc; [done|]. destruct (Z.eqb_spec so (-1)); [lia|]. go.
  eapply goes_mono; [by apply (so_set_non_blocking_goes so true i)|].
  intros nb p1 (i1 & HR & ->). cbn in HR. pose proof HR as (Hh1 & Ht1 & _).
  assert (∀ p2 i2, has_res p1 p2 (heap p1) (<[so:=i2]> (fds p)) (ssls p1) → f_socket i2 = f_socket i →
    f_listening i2 = f_listening i →
    goes (store_cc l (on_fd (-1))) p2 (λ _ p3, goes (mret false) p3 Post)) as Hfail.
  { intros p2 i2 HR2 ??. pose proof HR2 as (Hh2 & Ht2 & _).
    eapply goes_store_cc; [by rewrite Hh2, Hh1, lookup_insert_eq|]. go. exists i2. res.
    by destruct o. }
  destruct nb.
  - go. unfold epoll_add. eapply goes_sys_fd; [by rewrite Ht1, lookup_insert_eq| |]; intros f; go.
    + eexists. res.
    + eapply Hfail; [res|done|done].
  - go. eapply Hfail; [res|done|done].
Qed.

(** [co_socket_create] and [co_socket_accept] on the descriptor they got. *)
Lemma init_or_close_goes l so o i p p0 :
  heap p !! l = Some o → 0 <= so → fds p0 !! so = None →
  has_res p0 p (heap p0) (<[so := i]> (fds p0)) (ssls p0) →
  goes (ok ← co_socket_init l so; if (ok : bool) then mret true else _ ← sys_close so; mret false) p
    (λ ok p', if (ok : bool) then ∃ i',
         has_res p0 p' (<[l := with_socket (on_fd so) o]> (heap p0)) (<[so := i']> (fds p0)) (ssls p0) ∧
         f_socket i' = f_socket i ∧ f_listening i' = f_listening i ∧ ready i'
       else has_res p0 p' (<[l := with_socket (on_fd (-1)) o]> (heap p0)) (fds p0) (ssls p0)).
Proof.
  intros Hl Hpos Hso HR. pose proof HR as (Hh & Ht & _). go. eapply goes_mono.
  { apply (co_socket_init_goes l so o i); [done| |done]. by rewrite Ht, lookup_insert_eq. }
  intros [] p1 (i1 & HR1 & Hs & Hli & Hready); go.
  - exists i1. split; [res|]. split_and!; auto.
  - unfold sys_close. go. res. by rewrite delete_insert_eq, delete_id.
Qed.

Lemma co_socket_create_goes l o af ty pr p :
  heap p !! l = Some o →
  goes (co_socket_create l af ty pr) p (λ ok p',
    if (ok : bool) then ∃ so i, 0 <= so ∧ fds p !! so = None ∧
      has_res p p' (<[l := with_socket (on_fd so) o]> (heap p)) (<[so := i]> (fds p)) (ssls p) ∧
      f_listening i = false ∧ ready i
    else ∃ o', has_res p p' (<[l := o']> (heap p)) (fds p) (ssls p) ∧
      (head (socket_fate p) ≠ Some false → o' = with_socket (on_fd (-1)) o)).
Proof.
  intros Hl. unfold co_socket_create. go. apply goes_sys_socket.
  - intros ft so Hft Hso Hpos. destruct (Z.eqb_spec so (-1)); [lia|].
    eapply goes_mono; [eapply (init_or_close_goes l so o); [done|done|done|res]|].
    intros [] p'; [|by eexists]. intros (i & HR & _ & Hli & Hready). by exists so, i.
  - intros ft Hft Hf. rewrite Z.eqb_refl. go. exists o. rewrite insert_id by done. res.
Qed.

Lemma co_socket_close_goes l o so abort p i :
  heap p !! l = Some o → socket_of o = Some (on_fd so) → so ≠ -1 → fds p !! so = Some i →
  goes (co_socket_close (Some l) abort) p (λ _ p',
    has_res p p' (<[l := with_socket (on_fd (-1)) o]> (heap p)) (delete so (fds p)) (ssls p)).
Proof.
  intros Hl Ho Hso Hi. unfold co_socket_close. go. eapply goes_load_cc; [done|done|].
  cbn [e on_fd q_so recvtmo sendtmo]. destruct (Z.eqb_spec so (-1)); [done|]. go.
  unfold so_close. rewrite decide_False by done. go. rewrite decide_True by (by eapply elem_of_dom_2).
  unfold sys_close. go. unfold CoWaiter.co_socket_close. cbn [q_so q_head q_tail q_type].
  destruct (Z.eqb_spec so (-1)); [done|].
  assert (∀ n st, (for_each n (λ w, mark (mask w) w) (λ _, false) None 0 st).2 = st) as ->
    by (by intros []).
  go. eapply goes_store_cc; [done|]. go. res.
Qed.

Lemma co_socket_close_closed l o abort p :
  heap p !! l = Some o → socket_of o = Some (on_fd (-1)) →
  goes (co_socket_close (Some l) abort) p (λ _ p', p' = p).
Proof.
  intros Hl Ho. unfold co_socket_close. go. eapply goes_load_cc; [done|done|]. cbn. by go.
Qed.

Lemma malloc_init_goes o (init : nat → M bool) p (Q : option nat → process → Prop) :
  (∀ l p1, heap p !! l = None → has_res p p1 (<[l := o]> (heap p)) (fds p) (ssls p) →
     socket_fate p1 = socket_fate p ∧ head (fate p) ≠ Some false → goes (init l) p1 (λ ok p',
       if (ok : bool) then Q (Some l) p'
       else ∃ o', has_res p p' (<[l := o']> (heap p)) (fds p) (ssls p))) →
  (∀ p', has_res p p' (heap p) (fds p) (ssls p) → Q None p') →
  goes (malloc_init o init) p Q.
Proof.
  intros Hi Hnone. unfold malloc_init. go.
  destruct (decide (head (fate p) = Some false)) as [Hf|Hf].
  { destruct p as [h t ss ws cl er [|[] f] sf]; try done. unfold malloc, may. eexists _, _.
    split; [done|]. eexists _, _. split; [done|]. apply Hnone. res. }
  apply goes_malloc.
  - intros f l Hl. go. eapply goes_mono; [apply Hi; [done|res|done]|].
    intros [] p' HQ; [by go|]. destruct HQ as [o' HR]. go. pose proof HR as (Hh & _).
    eapply goes_free; [by rewrite Hh, lookup_insert_eq|]. go. apply Hnone. res.
    by rewrite delete_insert_eq, delete_id.
  - intros f. go. apply Hnone. res.
Qed.

Lemma co_socket_create_listening_goes l o af ty pr p :
  heap p !! l = Some o → head (socket_fate p) ≠ Some false →
  goes (co_socket_create_listening l af ty pr) p (λ ok p',
    if (ok : bool) then ∃ so i, 0 <= so ∧ fds p !! so = None ∧
      has_res p p' (<[l := with_socket (on_fd so) o]> (heap p)) (<[so := i]> (fds p)) (ssls p) ∧
      f_listening i = true ∧ ready i
    else ∃ o', has_res p p' (<[l := o']> (heap p)) (fds p) (ssls p)).
Proof.
  intros Hl Hf. unfold co_socket_create_listening. go. eapply goes_mono; [by apply co_socket_create_goes|].
  assert (∀ so, socket_of (with_socket (on_fd so) o) = Some (on_fd so)) as Hof by (by destruct o).
  intros [] p1.
  - intros (so & i & Hpos & Hso & HR & Hli & Hready). cbn [negb].
    pose proof HR as (Hh & Ht & _). assert (so ≠ -1) as Hso1 by lia.
    (* closing it again *)
    assert (∀ p2 i2, has_res p p2 (heap p1) (<[so := i2]> (fds p)) (ssls p) →
      goes (co_socket_close (Some l) false) p2 (λ _ p', has_res p p' (<[l := with_socket (on_fd (-1))
        (with_socket (on_fd so) o)]> (heap p)) (fds p) (ssls p))) as Hclose.
    { intros p2 i2 HR2. pose proof HR2 as (Hh2 & Ht2 & _). eapply goes_mono.
      - eapply co_socket_close_goes; [by rewrite Hh2, Hh, lookup_insert_eq|apply Hof|done|].
        by rewrite Ht2, lookup_insert_eq.
      - intros [] p3 HR3. res. by rewrite delete_insert_eq, delete_id. }
    go. eapply goes_load_cc; [by rewrite Hh, lookup_insert_eq|apply Hof|]. cbn [e on_fd q_so]. go.
    eapply goes_sys_fd; [by rewrite Ht, lookup_insert_eq| |]; intros ft.
    + eapply goes_sys_fd; [by cbn; rewrite lookup_insert_eq| |]; intros ft'; go.
      * exists so. eexists. split; [done|]. split; [done|]. split; [res|]. done.
      * eapply goes_mono; [eapply Hclose; res|]. intros [] p' ?. go. by eexists.
    + go. eapply goes_mono; [eapply Hclose; res|]. intros [] p' ?. go. by eexists.
  - intros (o' & HR & Ho'). rewrite (Ho' Hf) in HR. pose proof HR as (Hh & Ht & _). cbn [negb]. go.
    eapply goes_mono; [eapply co_socket_close_closed; [by rewrite Hh, lookup_insert_eq|apply Hof]|].
    intros [] p' ->. go. by eexists.
Qed.

Lemma co_socket_accept_goes listening l o ol cl p :
  heap p !! l = Some o → heap p !! listening = Some ol → socket_of ol = Some cl →
  goes (co_socket_accept listening l) p (λ ok p',
    if (ok : bool) then ∃ so i, 0 <= so ∧ fds p !! so = None ∧
      has_res p p' (<[l := with_socket (on_fd so) o]> (heap p)) (<[so := i]> (fds p)) (ssls p) ∧
      f_listening i = false ∧ ready i
    else ∃ o', has_res p p' (<[l := o']> (heap p)) (fds p) (ssls p) ∧ (o' = o ∨ o' = with_socket (on_fd (-1)) o)).
Proof.
  intros Hl Hli Hcl. unfold co_socket_accept, accepted. go. eapply goes_load_cc; [done|done|]. go.
  assert (∀ p', has_res p p' (heap p) (fds p) (ssls p) → ∃ o',
    has_res p p' (<[l := o']> (heap p)) (fds p) (ssls p) ∧ (o' = o ∨ o' = with_socket (on_fd (-1)) o)) as Hsame.
  { intros p' HR. exists o. rewrite insert_id by done. auto. }
  destruct (fds p !! q_so (e cl)) as [il|]; [|go; rewrite Z.eqb_refl; go; apply Hsame; res].
  go. apply goes_may. intros [] ft; [|go; rewrite Z.eqb_refl; go; apply Hsame; res].
  unfold new_descriptor. go. cbn [fds set_fate]. set (so := new_fd (dom (fds p))).
  assert (0 <= so) as Hpos by apply new_fd_pos. destruct (Z.eqb_spec so (-1)); [lia|].
  assert (fds p !! so = None) as Hso by (apply not_elem_of_dom; apply new_fd_fresh).
  eapply goes_mono; [eapply (init_or_close_goes l so o); [done|done|done|res]|].
  intros [] p'; [|intros ?; eexists; split; [done|by right]]. intros (i & HR & _ & Hli' & Hready). by exists so, i.
Qed.

Lemma co_ssl_new_goes p :
  goes co_ssl_new p (λ s p', match s with
    | Some s => s ∉ ssls p ∧ has_res p p' (heap p) (fds p) ({[s]} ∪ ssls p)
    | None => has_res p p' (heap p) (fds p) (ssls p)
    end).
Proof.
  unfold co_ssl_new. go. apply goes_SSL_new.
  - intros f s Hs. go. apply goes_may. intros [] f'; go; [split; [done|res]|].
    apply goes_SSL_free; [set_solver|]. go. res. set_solver.
  - intros f. go. unfold SSL_free. go. res.
Qed.

Definition with_ssl (ssl : option nat) (s : gset nat) : gset nat :=
  match ssl with Some x => {[x]} ∪ s | None => s end.

(** A socket that a constructor made: a block, a descriptor and, if it is to, an
    SSL object, all new, and nothing else. *)
Definition whole (shape : Z → option nat → object) (listening wants_ssl : bool) p p' (l : nat) : Prop :=
  ∃ so i ssl, heap p !! l = None ∧ fds p !! so = None ∧ 0 <= so ∧
    (∀ s, ssl = Some s → s ∉ ssls p) ∧ bool_decide (is_Some ssl) = wants_ssl ∧
    has_res p p' (<[l := shape so ssl]> (heap p)) (<[so := i]> (fds p)) (with_ssl ssl (ssls p)) ∧
    f_listening i = listening ∧ ready i.

Definition sock_shape (so : Z) (_ : option nat) : object := OSock (Some (on_fd so)).
Definition ssl_shape (so : Z) (ssl : option nat) : object := OSsl (Some (on_fd so)) (Some ssl).

Definition made (shape : Z → option nat → object) (listening wants_ssl : bool) p (r : option nat) p' : Prop :=
  match r with
  | Some l => whole shape listening wants_ssl p p' l
  | None => has_res p p' (heap p) (fds p) (ssls p)
  end.

Lemma co_ssl_socket_create_goes l af ty pr ctx p :
  heap p !! l = Some (OSsl None None) →
  goes (co_ssl_socket_create l af ty pr ctx) p (λ ok p',
    if (ok : bool) then ∃ so i ssl, 0 <= so ∧ fds p !! so = None ∧
      (∀ s, ssl = Some s → s ∉ ssls p) ∧ bool_decide (is_Some ssl) = ctx ∧
      has_res p p' (<[l := ssl_shape so ssl]> (heap p)) (<[so := i]> (fds p)) (with_ssl ssl (ssls p)) ∧
      f_listening i = false ∧ ready i
    else ∃ o', has_res p p' (<[l := o']> (heap p)) (fds p) (ssls p)).
Proof.
  intros Hl. unfold co_ssl_socket_create. go. eapply goes_store_ssl; [done|]. go.
  eapply goes_mono; [apply co_socket_create_goes; cbn; by rewrite lookup_insert_eq|].
  intros [] p1; cbn [negb]; [|intros (o' & HR & _); go; exists o'; res].
  intros (so & i & Hpos & Hso & HR & Hli & Hready). destruct ctx; cbn [negb].
  - go. eapply goes_mono; [apply co_ssl_new_goes|]. cbn in HR, Hso. intros [s|] p2.
    + intros [Hs HR2]. go. pose proof HR as (Hh & _ & Hss & _). pose proof HR2 as (Hh2 & _).
      eapply goes_store_ssl; [by rewrite Hh2, Hh, lookup_insert_eq|]. go.
      exists so, i, (Some s). split; [done|]. split; [done|].
      split; [by intros ? [= <-]; rewrite <-Hss|]. split; [done|]. res.
    + intros HR2. go. pose proof HR as (Hh & Ht & _). pose proof HR2 as (Hh2 & Ht2 & _).
      eapply goes_store_ssl; [by rewrite Hh2, Hh, lookup_insert_eq|]. go.
      eapply goes_mono; [eapply co_socket_close_goes|].
      * cbn. by rewrite lookup_insert_eq.
      * done.
      * lia.
      * cbn. by rewrite Ht2, Ht, lookup_insert_eq.
      * intros [] p3 HR3. go. eexists. res. by rewrite delete_insert_eq, delete_id.
  - go. exists so, i, None. cbn in HR. split_and!; try done. res.
Qed.

Lemma co_socket_destroy_goes l so abort i p :
  heap p !! l = Some (OSock (Some (on_fd so))) → fds p !! so = Some i → 0 <= so →
  goes (co_socket_destroy (Some l) abort) p (λ _ p',
    has_res p p' (delete l (heap p)) (delete so (fds p)) (ssls p)).
Proof.
  intros Hl Hi Hpos. unfold co_socket_destroy. go.
  eapply goes_mono; [eapply (co_socket_close_goes l _ so); [done|done|lia|done]|].
  intros [] p1 HR. pose proof HR as (Hh & _).
  eapply goes_free; [by rewrite Hh, lookup_insert_eq|]. res. by rewrite delete_insert_eq.
Qed.

Lemma co_ssl_socket_destroy_goes l so ssl abort i p :
  heap p !! l = Some (ssl_shape so ssl) → fds p !! so = Some i → 0 <= so →
  (∀ s, ssl = Some s → s ∈ ssls p) →
  goes (co_ssl_socket_destroy (Some l) abort) p (λ _ p',
    has_res p p' (delete l (heap p)) (delete so (fds p))
      (match ssl with Some s => ssls p ∖ {[s]} | None => ssls p end)).
Proof.
  intros Hl Hi Hpos Hs. unfold co_ssl_socket_destroy. go.
  eapply goes_mono; [eapply (co_socket_close_goes l _ so); [done|done|lia|done]|].
  intros [] p1 HR. pose proof HR as (Hh & _ & Hss & _).
  go. eapply goes_load_ssl; [by rewrite Hh, lookup_insert_eq|]. go. destruct ssl as [s|].
  - apply goes_SSL_free; [rewrite Hss; by apply Hs|].
    eapply goes_free; [cbn; by rewrite Hh, lookup_insert_eq|]. res. by rewrite delete_insert_eq.
  - unfold SSL_free. go. eapply goes_free; [by rewrite Hh, lookup_insert_eq|]. res.
    by rewrite delete_insert_eq.
Qed.

(** The constructors, and what undoes each. *)
Inductive maker :=
| CreateNew (af sock_type proto : Z)
| ListenNew (af sock_type proto : Z)
| AcceptNew (listening : nat)
| SslAcceptNew (listening : nat) (ssl_ctx : bool)
| ConnectNew (af sock_type proto : Z)
| SslCreateNew (af sock_type proto : Z) (ssl_ctx : bool)
| SslConnectNew (af sock_type proto : Z) (ssl_ctx : bool).

Definition make (k : maker) : M (option nat) :=
  match k with
  | CreateNew af ty pr => co_socket_create_new af ty pr
  | ListenNew af ty pr => co_ssl_socket_listen_new af ty pr
  | AcceptNew listening => co_socket_accept_new listening
  | SslAcceptNew listening ctx => co_ssl_socket_accept_new listening ctx
  | ConnectNew af ty pr => co_socket_connect_new af ty pr
  | SslCreateNew af ty pr ctx => co_ssl_socket_create_new af ty pr ctx
  | SslConnectNew af ty pr ctx => co_ssl_socket_connect_new af ty pr ctx
  end.

Definition has_ssl (k : maker) : option bool :=
  match k with
  | SslCreateNew _ _ _ ctx | SslConnectNew _ _ _ ctx | SslAcceptNew _ ctx => Some ctx
  | _ => None
  end.
Definition shape_of (k : maker) := match has_ssl k with Some _ => ssl_shape | None => sock_shape end.
Definition wants_ssl (k : maker) : bool := default false (has_ssl k).
Definition listens (k : maker) : bool := match k with ListenNew _ _ _ => true | _ => false end.

Definition unmake (k : maker) (l : nat) (abort : bool) : M unit :=
  match has_ssl k with
  | Some _ => co_ssl_socket_destroy (Some l) abort
  | None => co_socket_destroy (Some l) abort
  end.

Lemma sock_made listening p p' l so i :
  heap p !! l = None → 0 <= so → fds p !! so = None →
  has_res p p' (<[l := OSock (Some (on_fd so))]> (heap p)) (<[so := i]> (fds p)) (ssls p) →
  f_listening i = listening → ready i → made sock_shape listening false p (Some l) p'.
Proof. intros. exists so, i, None. split_and!; try done. Qed.

Lemma co_socket_create_new_goes af ty pr p :
  goes (co_socket_create_new af ty pr) p (made sock_shape false false p).
Proof.
  apply malloc_init_goes; [|done]. intros l p1 Hl HR Hsf. pose proof HR as (Hh & Ht & _).
  eapply goes_mono; [eapply co_socket_create_goes; by rewrite Hh, lookup_insert_eq|].
  intros [] p2.
  - intros (so & i & Hpos & Hso & HR2 & Hli & Hready). rewrite Ht in Hso.
    eapply (sock_made _ _ _ l so i); [done|done|done|res|done|done].
  - intros (o' & HR2 & _). exists o'. res.
Qed.

Lemma co_ssl_socket_create_new_goes af ty pr ctx p :
  goes (co_ssl_socket_create_new af ty pr ctx) p (made ssl_shape false ctx p).
Proof.
  apply malloc_init_goes; [|done]. intros l p1 Hl HR Hsf. pose proof HR as (Hh & Ht & Hss & _).
  eapply goes_mono; [eapply co_ssl_socket_create_goes; by rewrite Hh, lookup_insert_eq|].
  intros [] p2.
  - intros (so & i & ssl & Hpos & Hso & Hs & Hctx & HR2 & Hli & Hready). rewrite Ht in Hso.
    rewrite Hss in Hs. exists so, i, ssl. do 5 (split; [done|]). split; [res|done].
  - intros (o' & HR2). exists o'. res.
Qed.

(** Destroying what was made leaves what there was. *)
Lemma unmake_goes k p p' l abort :
  made (shape_of k) (listens k) (wants_ssl k) p (Some l) p' →
  goes (unmake k l abort) p' (λ _ p'', has_res p p'' (heap p) (fds p) (ssls p)).
Proof.
  intros (so & i & ssl & Hl & Hso & Hpos & Hs & Hw & HR & Hli & Hready).
  pose proof HR as (Hh & Ht & Hss & _). unfold unmake, shape_of, wants_ssl in *.
  destruct (has_ssl k) as [ctx|]; eapply goes_mono.
  - eapply (co_ssl_socket_destroy_goes l so ssl); [by rewrite Hh, lookup_insert_eq|
      by rewrite Ht, lookup_insert_eq|done|].
    intros s ->. rewrite Hss. cbn. set_solver.
  - intros [] p'' HR2. res; rewrite ?delete_insert_eq, ?delete_id by done; try done.
    destruct ssl as [s|]; cbn; [|done]. specialize (Hs s eq_refl). set_solver.
  - eapply (co_socket_destroy_goes l so); [by rewrite Hh, lookup_insert_eq|
      by rewrite Ht, lookup_insert_eq|done].
  - intros [] p'' HR2. res; rewrite ?delete_insert_eq, ?delete_id by done; try done.
    by destruct ssl.
Qed.

Lemma co_socket_connect_goes l so o p (Q : bool → process → Prop) :
  heap p !! l = Some o → socket_of o = Some (on_fd so) → 0 <= so →
  (∀ b f, Q b (set_fate f p)) → goes (co_socket_connect (Some l)) p Q.
Proof.
  intros Hl Ho Hpos HQ. unfold co_socket_connect. go. eapply goes_load_cc; [done|done|]. cbn.
  destruct (Z.eqb_spec so (-1)); [lia|]. by apply goes_may.
Qed.

Lemma made_set_fate shape b1 b2 p r p' f : made shape b1 b2 p r p' → made shape b1 b2 p r (set_fate f p').
Proof.
  destruct r as [l|]; [|intros HR; cbn in *; res].
  intros (so & i & ssl & ? & ? & ? & ? & ? & HR & ? & ?). exists so, i, ssl. do 5 (split; [done|]).
  split; [res|done].
Qed.

(** What a constructor needs: an initialised socket to accept from. *)
Definition maker_ok (k : maker) p : Prop :=
  match k with
  | AcceptNew listening | SslAcceptNew listening _ =>
    ∃ o c, heap p !! listening = Some o ∧ socket_of o = Some c
  | _ => True
  end.

(** [socket()] fails for a listening socket whose object was allocated. *)
Definition socket_fails (k : maker) p : bool :=
  listens k && bool_decide (head (fate p) ≠ Some false) && bool_decide (head (socket_fate p) = Some false).

Lemma listen_undefined af ty pr p :
  head (fate p) ≠ Some false → head (socket_fate p) = Some false → make (ListenNew af ty pr) p = None.
Proof.
  intros Hf Hs. cbn [make]. unfold co_ssl_socket_listen_new, co_socket_create_listening_new, malloc_init,
    co_socket_create_listening, co_socket_create, co_socket_close, load_cc, load, malloc, sys_socket, may,
    may_socket, mbind, act_bind, gets, modify, of_option, mret, act_ret.
  destruct p as [h t ss ws cl er [|[] f] [|[] sf]]; try done; cbn;
    by rewrite lookup_insert_eq.
Qed.

Lemma socket_never_fails k p : false ∉ socket_fate p → socket_fails k p = false.
Proof.
  intros Hf. unfold socket_fails. rewrite (bool_decide_eq_false_2 (head (socket_fate p) = _)), andb_false_r; [done|].
  intros Hh. apply Hf. destruct (socket_fate p); simplify_eq/=. by left.
Qed.

Lemma make_goes k p :
  maker_ok k p → socket_fails k p = false → (∀ listening ctx, k ≠ SslAcceptNew listening ctx) →
  goes (make k) p (made (shape_of k) (listens k) (wants_ssl k) p).
Proof.
  unfold socket_fails.
  destruct k as [af ty pr|af ty pr|listening|listening ctx|af ty pr|af ty pr ctx|af ty pr ctx];
    cbn [make maker_ok listens andb]; intros Hk Hs Hno; try by destruct (Hno listening ctx).
  - apply co_socket_create_new_goes.
  - apply malloc_init_goes; [|done]. intros l p1 Hl HR Hsf. pose proof HR as (Hh & Ht & Hss & _).
    eapply goes_mono; [apply co_socket_create_listening_goes; [by rewrite Hh, lookup_insert_eq|]|].
    { destruct Hsf as [-> Hf]. intros Hsf. by rewrite !bool_decide_eq_true_2 in Hs. }
    intros [] p2; [|intros (o' & HR2); exists o'; res].
    intros (so & i & Hpos & Hso & HR2 & Hli & Hready). rewrite Ht in Hso.
    eapply (sock_made _ _ _ l so i); [done|done|done|res|done|done].
  - destruct Hk as (ol & cl & Hol & Hcl). apply malloc_init_goes; [|done].
    intros l p1 Hl HR Hsf. pose proof HR as (Hh & Ht & Hss & _).
    assert (l ≠ listening) by (intros ->; congruence).
    eapply goes_mono; [eapply co_socket_accept_goes; [by rewrite Hh, lookup_insert_eq|
      by rewrite Hh, lookup_insert_ne by done|done]|].
    intros [] p2; [|intros (o' & HR2 & _); exists o'; res].
    intros (so & i & Hpos & Hso & HR2 & Hli & Hready). rewrite Ht in Hso.
    eapply (sock_made _ _ _ l so i); [done|done|done|res|done|done].
  - unfold co_socket_connect_new. go. eapply goes_mono; [apply co_socket_create_new_goes|].
    intros [l|] p1 HM; [|by go]. pose proof HM as (so & i & ssl & Hl & Hso & Hpos & _ & _ & (Hh & _) & _).
    go. eapply co_socket_connect_goes; [by rewrite Hh, lookup_insert_eq|done|done|].
    intros [] f; go; [by apply made_set_fate|].
    eapply goes_mono; [by apply (unmake_goes (CreateNew af ty pr) p), made_set_fate|].
    intros [] p2 ?. by go.
  - apply co_ssl_socket_create_new_goes.
  - unfold co_ssl_socket_connect_new. go. eapply goes_mono; [apply co_ssl_socket_create_new_goes|].
    intros [l|] p1 HM; [|by go]. pose proof HM as (so & i & ssl & Hl & Hso & Hpos & _ & _ & (Hh & _) & _).
    assert (∀ f, goes (_ ← co_ssl_socket_destroy (Some l) true; mret None) (set_fate f p1)
      (made ssl_shape false ctx p)) as Hd.
    { intros f. go. eapply goes_mono; [by apply (unmake_goes (SslCreateNew af ty pr ctx) p), made_set_fate|].
      intros [] p2 ?. by go. }
    go. unfold co_ssl_socket_connect. go.
    eapply co_socket_connect_goes; [by rewrite Hh, lookup_insert_eq|done|done|].
    intros [] f; cbn [negb]; [|go; by apply goes_bind_inv, Hd].
    go. eapply goes_load_ssl; [cbn; by rewrite Hh, lookup_insert_eq|].
    destruct ssl as [s|]; [|go; by apply made_set_fate].
    apply goes_may. intros [] f'; [go; by do 2 apply made_set_fate|]. apply Hd.
Qed.

(** A plain descriptor is set up as it should, or closed again. *)
Lemma tcp_descriptor_goes (setup : Z → M bool) (P : fdinfo → Prop) p :
  (∀ so p1 i, has_res p p1 (heap p) (<[so := i]> (fds p)) (ssls p) →
     goes (setup so) p1 (λ ok p', ∃ i', has_res p p' (heap p) (<[so := i']> (fds p)) (ssls p) ∧
       (ok = true → P i'))) →
  goes (tcp_descriptor setup) p (λ so p',
    so = -1 ∧ has_res p p' (heap p) (fds p) (ssls p) ∨
    0 <= so ∧ fds p !! so = None ∧ ∃ i, has_res p p' (heap p) (<[so := i]> (fds p)) (ssls p) ∧ P i).
Proof.
  intros Hsetup. unfold tcp_descriptor. go. apply goes_sys_socket.
  - intros ft so Hft Hso Hpos. destruct (Z.eqb_spec so (-1)); [lia|]. go.
    eapply goes_mono; [eapply Hsetup; res|]. intros [] p1 (i & HR & HP); go.
    + right. split; [done|]. split; [done|]. eauto.
    + unfold sys_close. go. left. split; [done|]. res. by rewrite delete_insert_eq, delete_id.
  - intros ft Hft _. rewrite Z.eqb_refl. go. left. split; [done|]. res.
Qed.

Lemma so_tcp_listen_goes p :
  goes so_tcp_listen p (λ so p',
    so = -1 ∧ has_res p p' (heap p) (fds p) (ssls p) ∨
    0 <= so ∧ fds p !! so = None ∧
      ∃ i, has_res p p' (heap p) (<[so := i]> (fds p)) (ssls p) ∧ f_listening i = true).
Proof.
  apply tcp_descriptor_goes. intros so p1 i HR. pose proof HR as (_ & Ht & _). go.
  eapply goes_sys_fd; [by rewrite Ht, lookup_insert_eq| |]; intros f.
  - eapply goes_sys_fd; [by cbn; rewrite lookup_insert_eq| |]; intros f'; eexists; (split; [res|done]).
  - go. exists i. split; [res|done].
Qed.

(** ** Ownership *)

Definition so_of (o : object) : option Z := (λ c, q_so (e c)) <$> socket_of o.
Definition ssl_of (o : object) : option nat :=
  match o with OSsl _ (Some ssl) => ssl | _ => None end.

(** Every descriptor and every SSL object has one owner among the objects, which
    are initialised; closed ones own no descriptor. *)
Record tidy p : Prop := {
  tidy_init l o : heap p !! l = Some o → is_Some (so_of o);
  tidy_fd so : so ∈ dom (fds p) ↔ so ≠ -1 ∧ ∃ l o, heap p !! l = Some o ∧ so_of o = Some so;
  tidy_fd_one so l1 l2 o1 o2 : heap p !! l1 = Some o1 → heap p !! l2 = Some o2 →
    so_of o1 = Some so → so_of o2 = Some so → so ≠ -1 → l1 = l2;
  tidy_ssl s : s ∈ ssls p ↔ ∃ l o, heap p !! l = Some o ∧ ssl_of o = Some s;
  tidy_ssl_one s l1 l2 o1 o2 : heap p !! l1 = Some o1 → heap p !! l2 = Some o2 →
    ssl_of o1 = Some s → ssl_of o2 = Some s → l1 = l2;
}.

(** A new object with what it owns. *)
Lemma tidy_insert p p' l o so t ssl :
  tidy p → heap p !! l = None → so_of o = Some so → ssl_of o = ssl →
  (so = -1 ∧ t = fds p ∨ so ≠ -1 ∧ fds p !! so = None ∧ ∃ i, t = <[so := i]> (fds p)) →
  (∀ s, ssl = Some s → s ∉ ssls p) →
  has_res p p' (<[l := o]> (heap p)) t (with_ssl ssl (ssls p)) → tidy p'.
Proof.
  intros [Ti Tf Tf1 Ts Ts1] Hl Hso Hssl Ht Hs (Hh & Hft & Hss & _).
  assert (∀ b ob, heap p' !! b = Some ob ↔ b = l ∧ ob = o ∨ b ≠ l ∧ heap p !! b = Some ob) as Hlook.
  { intros b ob. rewrite Hh, lookup_insert_Some. naive_solver. }
  assert (∀ b ob, heap p !! b = Some ob → b ≠ l) as Hnl by (intros b ob Hb ->; congruence).
  assert (∀ x, x ∈ dom t ↔ x ∈ dom (fds p) ∨ x = so ∧ so ≠ -1) as Hdom.
  { intros x. destruct Ht as [[-> ->]|(? & ? & i & ->)]; rewrite ?dom_insert; set_solver. }
  split.
  - intros b ob [[-> ->]|[_ Hb]]%Hlook; [by eexists|by eapply Ti].
  - intros x. rewrite Hft, Hdom, Tf. split.
    + intros [(Hx & b & ob & Hb & Hob)|[-> Hx]]; (split; [done|]).
      * exists b, ob. split; [|done]. apply Hlook. right. eauto.
      * exists l, o. split; [|done]. apply Hlook. by left.
    + intros (Hx & b & ob & [[-> ->]|[_ Hb]]%Hlook & Hob); [right; split; congruence|left; eauto 10].
  - assert (∀ b ob, heap p !! b = Some ob → so_of ob = Some so → so ≠ -1 → False) as Hfresh.
    { intros b ob Hb Hob Hne. destruct Ht as [[-> _]|(_ & Hnone & _)]; [done|].
      assert (so ∈ dom (fds p)) as [? ?]%elem_of_dom by (apply Tf; eauto). congruence. }
    intros x l1 l2 o1 o2 [[-> ->]|[_ H1]]%Hlook [[-> ->]|[_ H2]]%Hlook Ho1 Ho2 Hx; [done| | |by eauto].
    + assert (x = so) as -> by congruence. by destruct (Hfresh l2 o2).
    + assert (x = so) as -> by congruence. by destruct (Hfresh l1 o1).
  - intros x. rewrite Hss. transitivity (ssl = Some x ∨ x ∈ ssls p).
    + unfold with_ssl. destruct ssl as [y|]; [|naive_solver]. rewrite elem_of_union, elem_of_singleton. naive_solver.
    + rewrite Ts. split.
      * intros [->|(b & ob & Hb & Hob)]; [exists l, o|exists b, ob]; (split; [apply Hlook; eauto|done]).
      * intros (b & ob & [[-> ->]|[_ Hb]]%Hlook & Hob); [left; congruence|eauto 10].
  - assert (∀ b ob x, heap p !! b = Some ob → ssl_of ob = Some x → ssl = Some x → False) as Hfresh.
    { intros b ob x Hb Hob Hx. apply (Hs x Hx), Ts. eauto. }
    intros x l1 l2 o1 o2 [[-> ->]|[_ H1]]%Hlook [[-> ->]|[_ H2]]%Hlook Ho1 Ho2; [done| | |by eauto].
    + destruct (Hfresh l2 o2 x); congruence.
    + destruct (Hfresh l1 o1 x); congruence.
Qed.

Lemma tidy_same p p' : tidy p → has_res p p' (heap p) (fds p) (ssls p) → tidy p'.
Proof.
  intros [Ti Tf Tf1 Ts Ts1] (Hh & Hft & Hss & _). split; rewrite ?Hh, ?Hft, ?Hss; done.
Qed.

Lemma tidy_whole shape listening ctx p p' l :
  shape = ssl_shape ∨ shape = sock_shape ∧ ctx = false →
  tidy p → whole shape listening ctx p p' l → tidy p'.
Proof.
  intros Hshape HT (so & i & ssl & Hl & Hso & Hpos & Hs & Hctx & HR & _ & _).
  eapply (tidy_insert p p' l (shape so ssl) so _ ssl HT Hl); [| | |done|done].
  - by destruct Hshape as [-> |[-> _]].
  - destruct Hshape as [-> |[-> ->]]; [by destruct ssl|]. destruct ssl; [by rewrite bool_decide_eq_true_2 in Hctx|done].
  - right. split; [lia|]. split; [done|]. by exists i.
Qed.

Lemma co_ssl_socket_accept_new_goes listening ctx p ol cl :
  heap p !! listening = Some ol → socket_of ol = Some cl →
  goes (co_ssl_socket_accept_new listening ctx) p (λ r p', match r with
    | None => has_res p p' (heap p) (fds p) (ssls p)
    | Some l => whole ssl_shape false ctx p p' l ∨
        heap p !! l = None ∧ has_res p p' (<[l := ssl_shape (-1) None]> (heap p)) (fds p) (ssls p)
    end).
Proof.
  intros Hol Hcl. apply malloc_init_goes; [|done]. intros l p1 Hl HR Hsf. pose proof HR as (Hh & Ht & Hss & _).
  assert (l ≠ listening) as Hne by (intros ->; congruence).
  unfold co_ssl_socket_accept, co_ssl_socket_init. go.
  eapply goes_store_ssl; [by rewrite Hh, lookup_insert_eq|].
  unfold co_socket_init. go. eapply goes_store_cc; [cbn; by rewrite Hh, !lookup_insert_eq|].
  rewrite Z.eqb_refl. cbn [with_socket]. go. cbn [negb]. go.
  eapply goes_mono; [eapply co_socket_accept_goes; cbn;
    [by rewrite Hh, !lookup_insert_eq|by rewrite Hh, !lookup_insert_ne by done|done]|].
  unfold co_ssl_socket_close. intros [] p2; cbn [negb].
  - intros (so & i & Hpos & Hso & HR2 & Hli & Hready). cbn in Hso, HR2. rewrite Ht in Hso.
    pose proof HR2 as (Hh2 & Ht2 & Hss2 & _). destruct ctx; cbn [negb].
    + go. eapply goes_mono; [apply co_ssl_new_goes|]. intros [s|] p3.
      * intros [Hs HR3]. pose proof HR3 as (Hh3 & _). go.
        eapply goes_store_ssl; [by rewrite Hh3, Hh2, lookup_insert_eq|].
        rewrite bool_decide_eq_true_2 by done. go. left. exists so, i, (Some s).
        do 3 (split; [done|]). split; [intros ? [= <-]; by rewrite <-Hss, <-Hss2|].
        split; [done|]. split; [res|done].
      * intros HR3. pose proof HR3 as (Hh3 & Ht3 & _). go.
        eapply goes_store_ssl; [by rewrite Hh3, Hh2, lookup_insert_eq|].
        rewrite bool_decide_eq_false_2 by (by intros []). go.
        eapply goes_mono; [eapply (co_socket_close_goes l _ so); cbn;
          [by rewrite lookup_insert_eq|done|lia|by rewrite Ht3, Ht2, lookup_insert_eq]|].
        intros [] p4 HR4. go. right. split; [done|]. res. by rewrite delete_insert_eq, delete_id.
    + go. left. exists so, i, None. do 5 (split; [done|]). split; [res|done].
  - intros (o' & HR2 & Ho'). cbn in HR2. pose proof HR2 as (Hh2 & _).
    assert (o' = ssl_shape (-1) None) as -> by (by destruct Ho' as [-> | ->]). go.
    eapply goes_mono; [eapply co_socket_close_closed; [by rewrite Hh2, lookup_insert_eq|done]|].
    intros [] p3 ->. go. right. split; [done|]. res.
Qed.

(** An SSL socket without a descriptor. *)
Lemma destroy_closed_goes l abort p p0 :
  heap p0 !! l = None →
  has_res p0 p (<[l := ssl_shape (-1) None]> (heap p0)) (fds p0) (ssls p0) →
  goes (co_ssl_socket_destroy (Some l) abort) p (λ _ p', has_res p0 p' (heap p0) (fds p0) (ssls p0)).
Proof.
  intros Hl HR. pose proof HR as (Hh & _). unfold co_ssl_socket_destroy. go.
  eapply goes_mono; [eapply co_socket_close_closed; [by rewrite Hh, lookup_insert_eq|done]|].
  intros [] p1 ->. go. eapply goes_load_ssl; [by rewrite Hh, lookup_insert_eq|]. unfold SSL_free. go.
  eapply goes_free; [by rewrite Hh, lookup_insert_eq|]. res. by rewrite delete_insert_eq, delete_id.
Qed.

(** A failed accept that is reported as a socket: a new block without a descriptor
    or an SSL object. *)
Definition reported (k : maker) p (r : option nat) p' : Prop :=
  match k, r with
  | SslAcceptNew _ _, Some l =>
    heap p !! l = None ∧ has_res p p' (<[l := ssl_shape (-1) None]> (heap p)) (fds p) (ssls p)
  | _, _ => False
  end.

(** C12: whatever the system refuses, a constructor of sockets either fails and
    has given back the memory, the descriptor and the SSL object it took, or
    returns a new block with a new descriptor that does not block and is in the
    listener's set (and listens, if it is to), and an SSL object just when it was
    given a context; destroying what was returned leaves what there was before.
    There are two exceptions.  [co_ssl_socket_accept_new] returns a new block
    without a descriptor, which destroying gives back too, where accepting or
    [co_ssl_new] failed; and the constructor of a listening socket is undefined
    exactly when its block was allocated and [socket()] fails. *)
Theorem sockets_made_whole (k : maker) (p : process) (Hk : maker_ok k p) :
  if socket_fails k p then make k p = None
  else goes (make k) p (λ r p', (made (shape_of k) (listens k) (wants_ssl k) p r p' ∨ reported k p r p') ∧
    ∀ l abort, r = Some l →
      goes (unmake k l abort) p' (λ _ p'', has_res p p'' (heap p) (fds p) (ssls p))).
Proof.
  destruct (socket_fails k p) eqn:Hs.
  { unfold socket_fails in Hs. destruct k; try done. apply andb_prop in Hs as [[_ Hf]%andb_prop Hs].
    apply bool_decide_eq_true in Hf, Hs. by apply listen_undefined. }
  assert (goes (make k) p (λ r p', made (shape_of k) (listens k) (wants_ssl k) p r p' ∨ reported k p r p'))
    as Hm.
  { destruct k as [| | |listening ctx| | |];
      try (eapply goes_mono; [by apply make_goes|by left]).
    destruct Hk as (ol & cl & Hol & Hcl).
    eapply goes_mono; [by eapply co_ssl_socket_accept_new_goes|].
    intros [l|] p'; [|by left]. intros [Hw|Hc]; [by left|by right]. }
  eapply goes_mono; [exact Hm|]. intros r p' HM. split; [done|].
  intros l abort ->. destruct HM as [HM|HM]; [by apply unmake_goes|].
  destruct k; try done. destruct HM as [Hl HR]. by apply destroy_closed_goes.
Qed.

(** [co_ssl_socket_accept_new] returns a socket whenever there is memory for
    it: where accepting or [co_ssl_new] failed, the object it returns has no
    descriptor and no SSL object. *)
Theorem failed_accept_is_reported (listening : nat) (ctx : bool) (p : process) (ol : object) (cl : co_socket)
    (Hol : heap p !! listening = Some ol) (Hcl : socket_of ol = Some cl) :
  goes (co_ssl_socket_accept_new listening ctx) p (λ r p', match r with
    | None => has_res p p' (heap p) (fds p) (ssls p)
    | Some l => whole ssl_shape false ctx p p' l ∨
        heap p !! l = None ∧ has_res p p' (<[l := ssl_shape (-1) None]> (heap p)) (fds p) (ssls p)
    end).
Proof. by eapply co_ssl_socket_accept_new_goes. Qed.

End Lifecycle.

Lemma tidy_empty ws cl er fa sf : tidy (mk_process ∅ ∅ ∅ ws cl er fa sf).
Proof.
  split; cbn.
  - by intros l o ?%lookup_empty_Some.
  - intros so. rewrite dom_empty. split; [set_solver|]. by intros (_ & l & o & ?%lookup_empty_Some & _).
  - by intros so l1 l2 o1 o2 ?%lookup_empty_Some.
  - intros x. split; [set_solver|]. by intros (l & o & ?%lookup_empty_Some & _).
  - by intros x l1 l2 o1 o2 ?%lookup_empty_Some.
Qed.

Lemma tidy_process0 fa sf : tidy (process0 fa sf).
Proof.
  eapply (tidy_insert (mk_process ∅ ∅ ∅ ∅ [] (EOTHER 0) fa sf) _ 100
            (OSock (Some (mk_socket (mk_iorq None None 3 iowait_io) (-1) (-1)))) 3 _ None);
    [apply tidy_empty|done|done|done| |done|by split_and!].
  right. split; [done|]. split; [done|]. by eexists.
Qed.

(** A connection that fails: everything is given back.  One that cannot be
    accepted. *)
Lemma sockets_made_whole_witness :
  ((fst <$> make (SslConnectNew 2 1 6 true) (process0 [true; true; true; true; true; true; false] []))
      = Some None ∧
   (fst <$> make (SslAcceptNew 100 true) (process0 [true; false] [])) = Some (Some 101%nat)) ∧
  let p := process0 [true; false] [] in
  goes (make (SslAcceptNew 100 true)) p (λ r p',
    (made ssl_shape false true p r p' ∨ reported (SslAcceptNew 100 true) p r p') ∧
    ∀ l abort, r = Some l → goes (unmake (SslAcceptNew 100 true) l abort) p' (λ _ p'',
      has_res p p'' (heap p) (fds p) (ssls p))).
Proof.
  split; [by vm_compute|]. apply (sockets_made_whole (SslAcceptNew 100 true) (process0 [true; false] [])).
  eexists _, _. split; [apply lookup_singleton_eq|done].
Defined.

(** No connection could be accepted, and it is reported as accepted. *)
Lemma failed_accept_is_reported_witness :
  (λ r, (r.1, heap r.2 !! 101%nat)) <$> co_ssl_socket_accept_new 100 true (process0 [true; false] [])
    = Some (Some 101%nat, Some (ssl_shape (-1) None)) ∧
  goes (co_ssl_socket_accept_new 100 true) (process0 [true; false] []) (λ r p', match r with
    | None => has_res (process0 [true; false] []) p' (heap (process0 [true; false] []))
                (fds (process0 [true; false] [])) (ssls (process0 [true; false] []))
    | Some l => whole ssl_shape false true (process0 [true; false] []) p' l ∨
        heap (process0 [true; false] []) !! l = None ∧
        has_res (process0 [true; false] []) p' (<[l := ssl_shape (-1) None]> (heap (process0 [true; false] [])))
          (fds (process0 [true; false] [])) (ssls (process0 [true; false] []))
    end).
Proof.
  split; [by vm_compute|].
  eapply (failed_accept_is_reported 100 true (process0 [true; false] [])); [apply lookup_singleton_eq|done].
Defined.

(** Where [socket()] fails, [co_socket_create_listening] closes an object that was
    never initialised. *)
Lemma listening_undefined :
  co_socket_create_listening_new 2 1 6 (process0 [] [false]) = None.
Proof. by vm_compute. Qed.
