(* ===== verification/CoStart.v ===== *)
(** How the scheduler starts ([co_scheduler_init], [new_pcl_thread] and
    [epoll_listener_init] of [src/cothread/co-scheduler.c], [co_thread_init] of
    [src/cothread/co-thread.c]): the memory, the descriptors and the threads of the
    listener and of the cores.  Which calls of the system succeed is a script, as
    in [Resources]. *)

From S2P Require Import Prelude CoWaiter Resources.

Open Scope Z_scope.

(** ** The process *)

(** The resources of a [struct co_scheduler_context]: its block, the two ends of
    [cs], the items of [queue], and the blocks of [waiters] with their free list.
    [NULL] is [None], no descriptor is -1. *)
Record core := mk_core {
  c_block : nat;
  cs0 : Z; cs1 : Z;
  queue_items : option nat;
  waiters_blocks : option nat; waiters_free : option nat;
}.

(** A running thread: the listener, or a core with its [cothread_ctx] and the
    stack of its request handler. *)
Inductive thread := Listener | CoreThread (ctx : nat) (tls stack : nat).

(** [g_sched_array] is a block and its entries. *)
Record sched := mk_sched {
  blocks : gset nat;
  descriptors : gset Z;
  threads : list thread;
  eso : Z;
  g_sched_array : option (nat * list (option core));
  g_ncpu : nat;
  fate : list bool;
}.

Definition set_blocks (f : gset nat → gset nat) (p : sched) : sched :=
  mk_sched (f (blocks p)) (descriptors p) (threads p) (eso p) (g_sched_array p) (g_ncpu p) (fate p).
Definition set_descriptors (f : gset Z → gset Z) (p : sched) : sched :=
  mk_sched (blocks p) (f (descriptors p)) (threads p) (eso p) (g_sched_array p) (g_ncpu p) (fate p).
Definition add_thread (t : thread) (p : sched) : sched :=
  mk_sched (blocks p) (descriptors p) (threads p ++ [t]) (eso p) (g_sched_array p) (g_ncpu p) (fate p).
Definition set_eso (so : Z) (p : sched) : sched :=
  mk_sched (blocks p) (descriptors p) (threads p) so (g_sched_array p) (g_ncpu p) (fate p).
Definition set_array (a : option (nat * list (option core))) (p : sched) : sched :=
  mk_sched (blocks p) (descriptors p) (threads p) (eso p) a (g_ncpu p) (fate p).
Definition set_ncpu (n : nat) (p : sched) : sched :=
  mk_sched (blocks p) (descriptors p) (threads p) (eso p) (g_sched_array p) n (fate p).
Definition set_fate (f : list bool) (p : sched) : sched :=
  mk_sched (blocks p) (descriptors p) (threads p) (eso p) (g_sched_array p) (g_ncpu p) f.

Abbreviation B := (act sched).

Section Start.
Context `{Os}.
Implicit Types p : sched.

(** Whether the next call of the system succeeds. *)
Definition may : B bool := λ p,
  match fate p with [] => Some (true, p) | b :: f => Some (b, set_fate f p) end.

Definition malloc : B (option nat) :=
  ok ← may;
  if (ok : bool) then
    s ← gets blocks;
    let l := malloc_at s in _ ← modify (set_blocks (λ s, {[l]} ∪ s)); mret (Some l)
  else mret None.

Definition free (l : option nat) : B unit :=
  match l with
  | None => mret ()
  | Some l => s ← gets blocks; if decide (l ∈ s) then modify (set_blocks (λ s, s ∖ {[l]})) else undefined
  end.

Definition open_descriptor : B Z :=
  s ← gets descriptors;
  let so := new_fd s in _ ← modify (set_descriptors (λ s, {[so]} ∪ s)); mret so.

(** [epoll_create], [socketpair]. *)
Definition epoll_create : B Z := ok ← may; if (ok : bool) then open_descriptor else mret (-1).
Definition socketpair : B (option (Z * Z)) :=
  ok ← may;
  if (ok : bool) then a ← open_descriptor; b ← open_descriptor; mret (Some (a, b)) else mret None.
Definition close (so : Z) : B unit := modify (set_descriptors (λ s, s ∖ {[so]})).

(** ** The listener *)

Definition epoll_listener_init : B bool :=
  so ← gets eso;
  if so =? -1 then
    so ← epoll_create;
    if so =? -1 then mret false
    else
      _ ← modify (set_eso so);
      created ← may;
      if (created : bool) then _ ← modify (add_thread Listener); mret true
      else _ ← close so; _ ← modify (set_eso (-1)); mret false
  else mret true.

(** ** A core *)

(** [g_sched_array[g_ncpu++] = ctx], and [g_sched_array[--g_ncpu] = NULL]. *)
Definition put_core (c : option core) (i : nat) : B unit :=
  a ← gets g_sched_array;
  match a with
  | Some (l, cores) => if (i <? length cores)%nat then modify (set_array (Some (l, <[i := c]> cores))) else undefined
  | None => undefined
  end.

(** [cclist_init]: the blocks of the heap and its free list. *)
Definition waiters_init : B (bool * option nat * option nat) :=
  b ← malloc;
  match b with
  | None => mret (false, None, None)
  | Some _ =>
    f ← malloc;
    match f with
    | None => _ ← free b; mret (false, None, None)
    | Some _ => mret (true, b, f)
    end
  end.

(** [pclthread] up to its loop, where it sets [started]: the [cothread_ctx] of
    [co_thread_init] and the stack of the coroutine it creates for the request
    handler.  [false]: the process dies, by [exit(1)], or, where [mmap] has no
    memory for the stack, by a fault: [co_stack_alloc] takes [MAP_FAILED] for an
    address, and [co_create] writes to it. *)
Definition pclthread_start (ctx : nat) : B bool :=
  tls ← malloc;
  match tls with
  | None => mret false
  | Some tls =>
    stack ← malloc;
    match stack with
    | None => mret false
    | Some stack => _ ← modify (add_thread (CoreThread ctx tls stack)); mret true
    end
  end.

(** What comes of [new_pcl_thread] before [end]: a thread, no thread, or the
    process dies. *)
Inductive outcome := Started | NotStarted | Dies.

Definition start_core (c : core) : B (outcome * core) :=
  sp ← socketpair;
  match sp with
  | None => mret (NotStarted, c)
  | Some (a, b) =>
    let c := mk_core (c_block c) a b None None None in
    nb ← may;                                       (* set_non_blocking(ctx->cs[1]) *)
    if negb nb then mret (NotStarted, c)
    else
      q ← malloc;                                   (* ccfifo_init *)
      match q with
      | None => mret (NotStarted, c)
      | Some _ =>
        let c := mk_core (c_block c) a b q None None in
        '(ok, w, f) ← waiters_init;
        let c := mk_core (c_block c) a b q w f in
        if negb ok then mret (NotStarted, c)
        else
          n ← gets g_ncpu;
          _ ← put_core (Some c) n;
          _ ← modify (set_ncpu (S n));
          created ← may;                            (* pthread_create *)
          if negb created then
            _ ← modify (set_ncpu n);
            _ ← put_core None n;
            mret (NotStarted, c)
          else
            ok ← pclthread_start (c_block c);
            mret (if (ok : bool) then Started else Dies, c)
      end
  end.

Definition close_end (so : Z) : B unit := if so =? -1 then mret () else close so.

(** [Some ok]: whether there is a thread; [None]: the process dies. *)
Definition new_pcl_thread : B (option bool) :=
  l ← malloc;
  match l with
  | None => mret (Some false)
  | Some l =>
    '(r, c) ← start_core (mk_core l (-1) (-1) None None None);
    match r with
    | Started => mret (Some true)
    | Dies => mret None
    | NotStarted =>
      _ ← free (waiters_free c);
      _ ← free (waiters_blocks c);
      _ ← free (queue_items c);
      _ ← close_end (cs0 c);
      _ ← close_end (cs1 c);
      _ ← free (Some (c_block c));
      mret (Some false)
    end
  end.

(** ** The scheduler *)

(** [while ( ncpu > 0 && new_pcl_thread() ) { --ncpu; }]: whether [ncpu] gets to 0. *)
Fixpoint start_cores (ncpu : nat) : B (option bool) :=
  match ncpu with
  | O => mret (Some true)
  | S ncpu =>
    r ← new_pcl_thread;
    match r with
    | Some true => start_cores ncpu
    | _ => mret r
    end
  end.

Definition co_scheduler_init (ncpu : Z) : B (option bool) :=
  let ncpu := Z.to_nat (if ncpu <? 1 then 1 else ncpu) in
  ok ← epoll_listener_init;
  if negb ok then mret (Some false)
  else
    a ← malloc;
    match a with
    | None => _ ← modify (set_array None); mret (Some false)
    | Some l =>
      _ ← modify (set_array (Some (l, replicate ncpu None)));
      start_cores ncpu
    end.

(** [g_sched_array[rand() % g_ncpu]]: the core that gets a request; [rand] is the
    value of [rand()]. *)
Definition pick_core (rand : nat) : B core :=
  n ← gets g_ncpu;
  a ← gets g_sched_array;
  if decide (n = 0%nat) then undefined
  else of_option (a ≫= λ '(_, cores), mjoin (cores !! (rand `mod` n)%nat)).

End Start.

(** ** What the process holds *)

Definition mem_is (p : sched) (l : list nat) : Prop := NoDup l ∧ blocks p = list_to_set l.
Definition fds_is (p : sched) (l : list Z) : Prop := NoDup l ∧ descriptors p = list_to_set l ∧ -1 ∉ l.

(** What is not a resource, and the script. *)
Definition table (p : sched) := (threads p, eso p, g_sched_array p, g_ncpu p).
Definition lucky (p : sched) : Prop := fate p = [].

Definition core_mem (c : core) : list nat :=
  option_list (waiters_free c) ++ option_list (waiters_blocks c) ++ option_list (queue_items c) ++ [c_block c].
Definition core_fds (c : core) : list Z := filter (λ so, so ≠ -1) [cs0 c; cs1 c].
Definition whole (c : core) : Prop :=
  is_Some (waiters_free c) ∧ is_Some (waiters_blocks c) ∧ is_Some (queue_items c) ∧ cs0 c ≠ -1 ∧ cs1 c ≠ -1.

Section Rules.
Context `{Os}.
Implicit Types p : sched.

Lemma mem_is_perm p l l' : l ≡ₚ l' → mem_is p l → mem_is p l'.
Proof. intros Hl [Hn Hb]. split; [by rewrite <-Hl|]. rewrite Hb. by rewrite Hl. Qed.

Lemma goes_try p (Q : bool → sched → Prop) :
  (∀ b f, (lucky p → b = true ∧ f = []) → Q b (set_fate f p)) → goes may p Q.
Proof.
  intros HQ. destruct p as [bl ds ts so a n [|b f]]; unfold goes, may; cbn.
  - exists true. eexists. split; [done|]. by apply (HQ true []).
  - exists b. eexists. split; [done|]. by apply HQ.
Qed.

(** A call that changes nothing but the script. *)
Lemma goes_try_same p M F (Q : bool → sched → Prop) :
  mem_is p M → fds_is p F →
  (∀ b p', mem_is p' M → fds_is p' F → table p' = table p → (lucky p → b = true ∧ lucky p') → Q b p') →
  goes may p Q.
Proof. intros HM HF HQ. apply goes_try. intros b f Hf. apply HQ; [done..|]. intros Hl. by apply Hf. Qed.

Lemma goes_take p M F (Q : option nat → sched → Prop) :
  mem_is p M → fds_is p F →
  (∀ a p', mem_is p' (a :: M) → fds_is p' F → table p' = table p → (lucky p → lucky p') → Q (Some a) p') →
  (∀ p', mem_is p' M → fds_is p' F → table p' = table p → ¬ lucky p → Q None p') →
  goes malloc p Q.
Proof.
  intros HM HF H1 H2. unfold malloc. go. eapply goes_try_same; [done..|].
  intros [] p' HM' HF' Ht Hl; go.
  - apply H1; [|done|done|intros Hp; by destruct (Hl Hp)].
    destruct HM' as [Hn Hb]. split.
    + apply NoDup_cons. split; [|done]. intros Ha. apply (malloc_at_fresh (blocks p')).
      rewrite Hb at 2. by apply elem_of_list_to_set.
    + cbn. by rewrite Hb.
  - apply H2; [done..|]. intros Hp. by destruct (Hl Hp).
Qed.

Lemma goes_give a p M F (Q : unit → sched → Prop) :
  mem_is p (a :: M) → fds_is p F →
  (∀ p', mem_is p' M → fds_is p' F → table p' = table p → Q tt p') → goes (free (Some a)) p Q.
Proof.
  intros [Hn Hb] HF HQ. apply NoDup_cons in Hn as [Ha Hn]. unfold free. go.
  rewrite decide_True by (rewrite Hb; set_solver). go. apply HQ; [|done|done]. split; [done|].
  cbn. rewrite Hb. set_solver.
Qed.

(** An optional block, which may be [NULL]. *)
Lemma goes_free_option o p M F (Q : unit → sched → Prop) :
  mem_is p (option_list o ++ M) → fds_is p F →
  (∀ p', mem_is p' M → fds_is p' F → table p' = table p → Q tt p') → goes (free o) p Q.
Proof. destruct o as [a|]; cbn; [apply goes_give|]. intros HM HF HQ. apply goes_ret. by apply HQ. Qed.

Lemma goes_open p M F (Q : Z → sched → Prop) :
  mem_is p M → fds_is p F →
  (∀ so p', so ≠ -1 → mem_is p' M → fds_is p' (so :: F) → table p' = table p → (lucky p → lucky p') → Q so p') →
  goes open_descriptor p Q.
Proof.
  intros HM (Hn & Hd & Hm) HQ. unfold open_descriptor. go.
  pose proof (new_fd_pos (descriptors p)). apply HQ; [lia|done| |done|done]. split_and!.
  - apply NoDup_cons. split; [|done]. intros Ha. apply (new_fd_fresh (descriptors p)).
    rewrite Hd at 2. by apply elem_of_list_to_set.
  - cbn. by rewrite Hd.
  - intros [?|]%elem_of_cons; [lia|done].
Qed.

Lemma goes_close so p M F (Q : unit → sched → Prop) :
  mem_is p M → fds_is p (so :: F) →
  (∀ p', mem_is p' M → fds_is p' F → table p' = table p → Q tt p') → goes (close so) p Q.
Proof.
  intros HM (Hn & Hd & Hm) HQ. apply NoDup_cons in Hn as [Ha Hn]. unfold close. go.
  apply HQ; [done| |done]. split_and!; [done| |set_solver]. cbn. rewrite Hd. set_solver.
Qed.

Lemma goes_close_end so p M F (Q : unit → sched → Prop) :
  mem_is p M → fds_is p (filter (λ so, so ≠ -1) [so] ++ F) →
  (∀ p', mem_is p' M → fds_is p' F → table p' = table p → Q tt p') → goes (close_end so) p Q.
Proof.
  unfold close_end. rewrite filter_cons. destruct (Z.eqb_spec so (-1)) as [->|Hso]; case_decide; try done.
  - intros HM HF HQ. apply goes_ret. by apply HQ.
  - apply goes_close.
Qed.

(** The entry of a core. *)
Lemma goes_put_core c i p M F l cores (Q : unit → sched → Prop) :
  mem_is p M → fds_is p F → g_sched_array p = Some (l, cores) → (i < length cores)%nat →
  (∀ p', mem_is p' M → fds_is p' F → table p' = (threads p, eso p, Some (l, <[i := c]> cores), g_ncpu p) →
     (lucky p → lucky p') → Q tt p') →
  goes (put_core c i) p Q.
Proof.
  intros HM HF Ha Hi HQ. unfold put_core. go. rewrite Ha, (proj2 (Nat.ltb_lt _ _)) by done. go. by apply HQ.
Qed.

End Rules.

(** ** One core *)

Section Core.
Context `{Os}.
Implicit Types p : sched.

Lemma fds_is_perm p l l' : l ≡ₚ l' → fds_is p l → fds_is p l'.
Proof. intros Hl (Hn & Hb & Hm). split_and!; [by rewrite <-Hl|by rewrite Hb, Hl|by rewrite <-Hl]. Qed.

Lemma goes_socketpair p M F (Q : option (Z * Z) → sched → Prop) :
  mem_is p M → fds_is p F →
  (∀ a b p', a ≠ -1 → b ≠ -1 → mem_is p' M → fds_is p' ([a; b] ++ F) → table p' = table p →
     (lucky p → lucky p') → Q (Some (a, b)) p') →
  (∀ p', mem_is p' M → fds_is p' F → table p' = table p → ¬ lucky p → Q None p') →
  goes socketpair p Q.
Proof.
  intros HM HF H1 H2. unfold socketpair. go. eapply goes_try_same; [done..|].
  intros [] p1 HM1 HF1 Ht1 Hl1; go; [|apply H2; [done..|]; intros Hp; by destruct (Hl1 Hp)].
  eapply goes_open; [done..|]. intros a p2 Ha HM2 HF2 Ht2 Hl2.
  go. eapply goes_open; [done..|]. intros b p3 Hb HM3 HF3 Ht3 Hl3. go.
  apply H1; [done..| |congruence|naive_solver]. eapply fds_is_perm; [|done]. apply perm_swap.
Qed.

Lemma goes_waiters_init p M F (Q : bool * option nat * option nat → sched → Prop) :
  mem_is p M → fds_is p F →
  (∀ ok w f p', mem_is p' (option_list f ++ option_list w ++ M) → fds_is p' F → table p' = table p →
     (lucky p → ok = true ∧ lucky p') → (ok = true → is_Some w ∧ is_Some f) → Q (ok, w, f) p') →
  goes waiters_init p Q.
Proof.
  intros HM HF HQ. unfold waiters_init. go. eapply goes_take; [done..| |].
  - intros w p1 HM1 HF1 Ht1 Hl1. go. eapply goes_take; [done..| |].
    + intros f p2 HM2 HF2 Ht2 Hl2. go. apply (HQ true (Some w) (Some f));
        [done..|congruence|naive_solver|done].
    + intros p2 HM2 HF2 Ht2 Hl2. go. eapply goes_give; [done..|]. intros p3 HM3 HF3 Ht3. go.
      apply HQ; [done..|congruence|naive_solver|done].
  - intros p1 HM1 HF1 Ht1 Hl1. go. by apply HQ.
Qed.

Lemma goes_pclthread_start l p M F (Q : bool → sched → Prop) :
  mem_is p M → fds_is p F →
  (∀ tls st p', mem_is p' (st :: tls :: M) → fds_is p' F →
     table p' = (threads p ++ [CoreThread l tls st], eso p, g_sched_array p, g_ncpu p) →
     (lucky p → lucky p') → Q true p') →
  (∀ p', ¬ lucky p → Q false p') →
  goes (pclthread_start l) p Q.
Proof.
  intros HM HF H1 H2. unfold pclthread_start. go. eapply goes_take; [done..| |].
  - intros tls p1 HM1 HF1 Ht1 Hl1. go. eapply goes_take; [done..| |].
    + intros st p2 HM2 HF2 Ht2 Hl2. go. eapply (H1 tls st); [done..| |naive_solver].
      unfold table in *. cbn. congruence.
    + intros p2 _ _ _ Hl2. go. apply H2. naive_solver.
  - intros p1 _ _ _ Hl1. go. by apply H2.
Qed.

Definition start_post p (l0 : nat) M F l cores n (x : outcome * core) p' : Prop :=
  c_block x.2 = l0 ∧ (lucky p → x.1 = Started ∧ lucky p') ∧
  match x.1 with
  | Dies => True
  | NotStarted => mem_is p' (core_mem x.2 ++ M) ∧ fds_is p' (core_fds x.2 ++ F) ∧ table p' = table p
  | Started => whole x.2 ∧ ∃ tls st, mem_is p' (st :: tls :: core_mem x.2 ++ M) ∧ fds_is p' (core_fds x.2 ++ F) ∧
      table p' = (threads p ++ [CoreThread l0 tls st], eso p, Some (l, <[n := Some x.2]> cores), S n)
  end.

Lemma start_core_goes p l0 M F l cores n :
  mem_is p (l0 :: M) → fds_is p F → g_sched_array p = Some (l, cores) → g_ncpu p = n → cores !! n = Some None →
  goes (start_core (mk_core l0 (-1) (-1) None None None)) p (start_post p l0 M F l cores n).
Proof.
  intros HM HF Ha Hn Hc. pose proof (lookup_lt_Some _ _ _ Hc) as Hlen. unfold start_core. go.
  eapply goes_socketpair; [done..| |].
  2: { intros p1 HM1 HF1 Ht1 Hl1. go. by split_and!. }
  intros a b p1 Hna Hnb HM1 HF1 Ht1 Hl1. go. cbn [c_block].
  assert (∀ q w f, core_fds (mk_core l0 a b q w f) = [a; b]) as Hfds.
  { intros. unfold core_fds. cbn. by rewrite !decide_True by done. }
  eapply goes_try_same; [done..|]. intros [] p2 HM2 HF2 Ht2 Hl2; cbn [negb]; go.
  2: { split_and!; [done|naive_solver|]. cbn [fst snd]. rewrite Hfds. split_and!; [done..|congruence]. }
  eapply goes_take; [done..| |].
  2: { intros p3 HM3 HF3 Ht3 Hl3. go. split_and!; [done|naive_solver|]. cbn [fst snd]. rewrite Hfds.
       split_and!; [done..|congruence]. }
  intros q p3 HM3 HF3 Ht3 Hl3. go. eapply goes_waiters_init; [done..|].
  intros ok w f p4 HM4 HF4 Ht4 Hl4 Hwf. cbn [c_block].
  set (c := mk_core l0 a b (Some q) w f). pose proof (Hfds (Some q) w f : core_fds c = _) as Hfc.
  assert (option_list f ++ option_list w ++ [q; l0] ++ M = core_mem c ++ M) as Hmem
    by (unfold core_mem; cbn; by rewrite <-!(assoc_L (++))).
  change (q :: l0 :: M) with ([q; l0] ++ M) in HM4. rewrite Hmem in HM4.
  destruct ok; cbn [negb]; go.
  2: { split_and!; [done|naive_solver|]. cbn [fst snd]. rewrite Hfc. split_and!; [done..|congruence]. }
  destruct (Hwf eq_refl) as [Hw Hf]. pose proof Ht4 as Htab. rewrite Ht3, Ht2, Ht1 in Htab. injection Htab as Ht4a Ht4b Ht4c Ht4d.
  rewrite Ht4d, Hn. eapply goes_put_core; [done|done|by rewrite Ht4c|done|].
  intros p5 HM5 HF5 Ht5 Hl5. go. eapply goes_try_same; [exact HM5|exact HF5|].
  intros [] p6 HM6 HF6 Ht6 Hl6; cbn [negb]; go.
  - eapply goes_pclthread_start; [done..| |].
    + intros tls st p7 HM7 HF7 Ht7 Hl7. go. split_and!; [done|naive_solver|]. cbn [fst snd].
      rewrite Hfc. split; [split_and!; try done; by eexists|]. exists tls, st. split_and!; [done..|].
      rewrite Ht7. unfold table in *. cbn in *. congruence.
    + intros p7 Hno. go. split_and!; [done| |done]. intros Hp. exfalso. apply Hno. naive_solver.
  - assert (g_sched_array p6 = Some (l, <[n:=Some c]> cores)) as Ha6.
    { unfold table in *. cbn in *. congruence. }
    eapply goes_put_core; [exact HM6|exact HF6|exact Ha6|by rewrite length_insert|].
    intros p7 HM7 HF7 Ht7 Hl7. go. split_and!; [done|naive_solver|]. cbn [fst snd]. rewrite Hfc.
    split_and!; [done..|]. rewrite Ht7. rewrite list_insert_insert_eq, list_insert_id by done.
    unfold table in *. cbn in *. congruence.
Qed.

(** Either a core runs, or everything it had is given back. *)
Lemma new_pcl_thread_goes p M F l cores n :
  mem_is p M → fds_is p F → g_sched_array p = Some (l, cores) → g_ncpu p = n → cores !! n = Some None →
  goes new_pcl_thread p (λ r p', (lucky p → r = Some true ∧ lucky p') ∧
    match r with
    | None => True
    | Some false => mem_is p' M ∧ fds_is p' F ∧ table p' = table p
    | Some true => ∃ c tls st, whole c ∧ mem_is p' (st :: tls :: core_mem c ++ M) ∧ fds_is p' (core_fds c ++ F) ∧
        table p' = (threads p ++ [CoreThread (c_block c) tls st], eso p, Some (l, <[n := Some c]> cores), S n)
    end).
Proof.
  intros HM HF Ha Hn Hc. unfold new_pcl_thread. go. eapply goes_take; [done..| |].
  2: { intros p1 HM1 HF1 Ht1 Hl1. go. by split. }
  intros l0 p1 HM1 HF1 Ht1 Hl1. pose proof Ht1 as Htab. injection Htab as Hta Htb Htc Htd.
  go. eapply goes_mono; [eapply (start_core_goes p1 l0 M F l cores n); congruence || done|].
  intros [r c] p2 (Hl0 & Hl2 & Hr). cbn [fst snd] in *. destruct r.
  - go. destruct Hr as (Hw & tls & st & HM2 & HF2 & Ht2). split; [naive_solver|].
    exists c, tls, st. split_and!; [done..|]. rewrite Ht2, Hl0. unfold table in Ht1. congruence.
  - destruct Hr as (HM2 & HF2 & Ht2). assert (¬ lucky p) as Hno by naive_solver. clear Hl1 Hl2.
    unfold core_mem in HM2. rewrite <-!(assoc_L (++)) in HM2. unfold core_fds in HF2.
    change [cs0 c; cs1 c] with ([cs0 c] ++ [cs1 c]) in HF2. rewrite filter_app, <-(assoc_L (++)) in HF2.
    go. eapply goes_free_option; [done..|]. intros p3 HM3 HF3 Ht3.
    go. eapply goes_free_option; [done..|]. intros p4 HM4 HF4 Ht4.
    go. eapply goes_free_option; [done..|]. intros p5 HM5 HF5 Ht5.
    go. eapply goes_close_end; [done..|]. intros p6 HM6 HF6 Ht6.
    go. eapply goes_close_end; [done..|]. intros p7 HM7 HF7 Ht7.
    go. eapply goes_give; [done..|]. intros p8 HM8 HF8 Ht8. go. split; [done|].
    split_and!; [done..|congruence].
  - go. split; [naive_solver|done].
Qed.

End Core.

(** ** All of them *)

Definition thread_mem (t : thread) : list nat :=
  match t with Listener => [] | CoreThread _ tls stack => [stack; tls] end.

(** The listener runs, and [length cs] of the [n] cores: the entries of
    [g_sched_array] are those cores and then [NULL], each with its thread, and the
    process holds what belongs to them, the array, the epoll descriptor, and what
    it held before ([M] and [F]). *)
Record scheduler (p : sched) (l : nat) (so : Z) (n : nat) (cs : list core) (ts : list thread)
    (M : list nat) (F : list Z) : Prop := {
  s_table : table p = (Listener :: ts, so, Some (l, (Some <$> cs) ++ replicate (n - length cs) None), length cs);
  s_whole : Forall whole cs;
  s_threads : Forall2 (λ c t, ∃ tls st, t = CoreThread (c_block c) tls st) cs ts;
  s_mem : mem_is p (concat (thread_mem <$> ts) ++ concat (core_mem <$> cs) ++ l :: M);
  s_fds : fds_is p (concat (core_fds <$> cs) ++ so :: F);
}.

(** Equations between tables, field by field. *)
Ltac table_eq :=
  unfold table in *; cbn in *;
  repeat match goal with H : (_, _, _, _) = (_, _, _, _) |- _ => injection H as ? ? ? ? end;
  repeat match goal with
  | H : threads ?p = _ |- context [threads ?p] => rewrite H
  | H : eso ?p = _ |- context [eso ?p] => rewrite H
  | H : g_sched_array ?p = _ |- context [g_sched_array ?p] => rewrite H
  | H : g_ncpu ?p = _ |- context [g_ncpu ?p] => rewrite H
  end; try done.

Section Scheduler.
Context `{Os}.
Implicit Types p : sched.

Lemma insert_next (cs : list core) c n : (length cs < n)%nat →
  <[length cs := Some c]> ((Some <$> cs) ++ replicate (n - length cs) None) =
  (Some <$> cs ++ [c]) ++ replicate (n - length (cs ++ [c])) None.
Proof.
  intros Hn. rewrite insert_app_r_alt by (by rewrite length_fmap). rewrite length_fmap, Nat.sub_diag.
  replace (n - length cs)%nat with (S (n - length (cs ++ [c])))%nat by (rewrite length_app; cbn; lia).
  cbn. by rewrite fmap_app, <-(assoc_L (++)).
Qed.

Lemma start_cores_goes l so n k M F : ∀ p cs ts,
  scheduler p l so n cs ts M F → (length cs + k = n)%nat →
  goes (start_cores k) p (λ r p', (lucky p → r = Some true) ∧
    match r with
    | None => True
    | Some ok => ∃ cs' ts', scheduler p' l so n cs' ts' M F ∧ ok = bool_decide (length cs' = n)
    end).
Proof.
  induction k as [|k IH]; intros p cs ts Hs Hk; cbn [start_cores].
  { go. split; [done|]. exists cs, ts. split; [done|]. symmetry. apply bool_decide_eq_true. lia. }
  pose proof Hs as [Ht Hw Hth Hm Hf]. injection Ht as Hta Htb Htc Htd.
  go. eapply goes_mono; [eapply new_pcl_thread_goes; [exact Hm|exact Hf|exact Htc|exact Htd|]|].
  { rewrite lookup_app_r by (by rewrite length_fmap). rewrite length_fmap, Nat.sub_diag.
    by replace (n - length cs)%nat with (S k) by lia. }
  intros [[|]|] p1 [Hl1 H1]; [|go; split; [naive_solver|]|go; split; [naive_solver|done]].
  - destruct H1 as (c & tls & st & Hc & HM1 & HF1 & Ht1).
    eapply goes_mono; [apply (IH p1 (cs ++ [c]) (ts ++ [CoreThread (c_block c) tls st]))|].
    + split.
      * rewrite Ht1, Hta, Htb, insert_next by lia. by rewrite length_app, Nat.add_1_r.
      * apply Forall_app. by split; [|constructor].
      * apply Forall2_app; [done|]. constructor; [by eexists _, _|constructor].
      * eapply mem_is_perm; [|exact HM1]. rewrite !fmap_app, !concat_app. cbn [fmap list_fmap concat thread_mem app].
        rewrite !app_nil_r. solve_Permutation.
      * eapply fds_is_perm; [|exact HF1]. rewrite !fmap_app, !concat_app. cbn [fmap list_fmap concat app].
        rewrite app_nil_r. solve_Permutation.
    + rewrite length_app. cbn. lia.
    + intros r p2 [Hl2 H2]. split; [naive_solver|done].
  - destruct H1 as (HM1 & HF1 & Ht1). exists cs, ts. split; [|symmetry; apply bool_decide_eq_false; lia].
    split; [etrans; [exact Ht1|apply Hs]|done..].
Qed.

(** The listener, which is started once. *)
Lemma listener_goes p M F :
  mem_is p M → fds_is p F → table p = ([], -1, None, 0%nat) →
  goes epoll_listener_init p (λ ok p', (lucky p → ok = true ∧ lucky p') ∧ mem_is p' M ∧
    if ok : bool then ∃ so, so ≠ -1 ∧ fds_is p' (so :: F) ∧ table p' = ([Listener], so, None, 0%nat)
    else fds_is p' F ∧ table p' = table p).
Proof.
  intros HM HF Ht. pose proof Ht as Htab. injection Htab as Hta Htb Htc Htd.
  unfold epoll_listener_init. go. rewrite Htb. cbn [Z.eqb Pos.eqb]. unfold epoll_create. go.
  eapply goes_try_same; [done..|]. intros [] p1 HM1 HF1 Ht1 Hl1.
  2: { go. cbn [Z.eqb Pos.eqb]. go. by split_and!; [naive_solver|..]. }
  eapply goes_open; [done..|]. intros so p2 Hso HM2 HF2 Ht2 Hl2.
  rewrite (proj2 (Z.eqb_neq so (-1))) by done. go.
  eapply goes_try_same; [exact HM2|exact HF2|]. intros [] p3 HM3 HF3 Ht3 Hl3; go.
  - split_and!; [naive_solver|done|]. exists so. split_and!; [done..|].
    table_eq.
  - eapply goes_close; [exact HM3|exact HF3|]. intros p4 HM4 HF4 Ht4. go.
    split_and!; [naive_solver|done..|]. table_eq.
Qed.

Definition cores_asked (ncpu : Z) : nat := Z.to_nat (Z.max 1 ncpu).

Lemma cores_asked_eq ncpu : Z.to_nat (if ncpu <? 1 then 1 else ncpu) = cores_asked ncpu.
Proof. unfold cores_asked. destruct (Z.ltb_spec ncpu 1); lia. Qed.

(** What [co_scheduler_init] leaves of a process that had started nothing. *)
Definition init_post (ncpu : Z) M F (ok : bool) p' : Prop :=
  (ok = false ∧ mem_is p' M ∧ fds_is p' F ∧ table p' = ([], -1, None, 0%nat)) ∨
  (ok = false ∧ ∃ so, mem_is p' M ∧ fds_is p' (so :: F) ∧ table p' = ([Listener], so, None, 0%nat)) ∨
  (∃ l so cs ts, scheduler p' l so (cores_asked ncpu) cs ts M F ∧
     ok = bool_decide (length cs = cores_asked ncpu)).

Lemma co_scheduler_init_goes ncpu p M F :
  mem_is p M → fds_is p F → table p = ([], -1, None, 0%nat) →
  goes (co_scheduler_init ncpu) p (λ r p', (lucky p → r = Some true) ∧
    match r with None => True | Some ok => init_post ncpu M F ok p' end).
Proof.
  intros HM HF Ht. unfold co_scheduler_init. rewrite cores_asked_eq. go.
  eapply goes_mono; [by apply listener_goes|]. intros [] p1 (Hl1 & HM1 & H1); cbn [negb].
  2: { go. split; [naive_solver|]. left. destruct H1 as [HF1 Ht1]. by split_and!; [..|congruence]. }
  destruct H1 as (so & Hso & HF1 & Ht1). go. eapply goes_take; [done..| |].
  - intros l p2 HM2 HF2 Ht2 Hl2. go. eapply goes_mono.
    + apply (start_cores_goes l so (cores_asked ncpu) (cores_asked ncpu) M F _ [] []); [|done].
      split; [|constructor|constructor|exact HM2|exact HF2]. cbn.
      rewrite Nat.sub_0_r. table_eq.
    + intros r p3 [Hl3 H3]. split; [naive_solver|]. destruct r as [ok|]; [|done].
      right. right. by exists l, so.
  - intros p2 HM2 HF2 Ht2 Hl2. go. split; [naive_solver|]. right. left. split; [done|].
    exists so. split_and!; [done..|]. table_eq.
Qed.

(** Whichever core a request is for, it runs. *)
Lemma pick_core_goes rand l so n cs ts M F p :
  scheduler p l so n cs ts M F → length cs = n → (0 < n)%nat →
  goes (pick_core rand) p (λ c p', p' = p ∧ whole c ∧ ∃ tls st, CoreThread (c_block c) tls st ∈ threads p).
Proof.
  intros [Ht Hw Hth _ _] Hl Hn. injection Ht as Hta Htb Htc Htd. unfold pick_core. go.
  rewrite Htc, Htd, decide_False by lia.
  assert (is_Some (cs !! (rand `mod` length cs)%nat)) as [c Hc].
  { apply lookup_lt_is_Some. apply Nat.mod_upper_bound. lia. }
  eapply (goes_of_option _ c); [|split; [done|]].
  - cbn. rewrite lookup_app_l by (rewrite length_fmap; by eapply lookup_lt_Some).
    by rewrite list_lookup_fmap, Hc.
  - split; [by eapply Forall_lookup_1|].
    apply (Forall2_lookup_l _ _ _ _ _ Hth) in Hc as (t & Ht' & tls & st & ->).
    exists tls, st. rewrite Hta. right. by eapply list_elem_of_lookup_2.
Qed.

(** C30: started once, the scheduler runs a core for each one asked for, at least
    one, or fails, and does not fail where no call of the system does (the process
    dies only where a core that is started has no memory).  Failing, it
    keeps the cores it started so far, the listener, and the array, and has given
    back all that it took for the core that failed: neither way does the process
    hold anything that is not theirs.  When it succeeded every request is handed to
    a core that runs. *)
Theorem scheduler_starts (ncpu : Z) p M F
    (HM : mem_is p M) (HF : fds_is p F) (Hfresh : table p = ([], -1, None, 0%nat)) :
  goes (co_scheduler_init ncpu) p (λ r p', (lucky p → r = Some true) ∧
    match r with
    | None => True
    | Some ok => init_post ncpu M F ok p' ∧
      (ok = true → ∀ rand, goes (pick_core rand) p' (λ c p'',
         p'' = p' ∧ whole c ∧ ∃ tls st, CoreThread (c_block c) tls st ∈ threads p'))
    end).
Proof.
  eapply goes_mono; [by apply co_scheduler_init_goes|]. intros r p' [Hl Hr]. split; [done|].
  destruct r as [ok|]; [|done]. split; [done|]. intros -> rand.
  destruct Hr as [[? _]|[[? _]|(l & so & cs & ts & Hs & Hok)]]; [done..|].
  symmetry in Hok. apply bool_decide_eq_true in Hok. eapply pick_core_goes; [done..|].
  unfold cores_asked. lia.
Qed.

(** An action whose continuation is undefined. *)
Lemma bind_undefined {X Y} (m : B X) (f : X → B Y) p :
  goes m p (λ x p', f x p' = None) → (m ≫= f) p = None.
Proof. intros (x & p' & Hm & Hf). unfold mbind, act_bind. by rewrite Hm. Qed.

Lemma put_core_overflow c i p l cores :
  g_sched_array p = Some (l, cores) → (length cores ≤ i)%nat → put_core c i p = None.
Proof.
  intros Ha Hi. apply bind_undefined, goes_gets. rewrite Ha. by rewrite (proj2 (Nat.ltb_ge _ _)).
Qed.

Lemma start_core_overflow p l0 M F l cores :
  mem_is p M → fds_is p F → lucky p → g_sched_array p = Some (l, cores) → (length cores ≤ g_ncpu p)%nat →
  start_core (mk_core l0 (-1) (-1) None None None) p = None.
Proof.
  intros HM HF Hp Ha Hn. unfold start_core. apply bind_undefined.
  eapply goes_socketpair; [exact HM|exact HF| |naive_solver]. intros a b p1 _ _ HM1 HF1 Ht1 Hl1. apply bind_undefined.
  eapply goes_try_same; [exact HM1|exact HF1|]. intros ok p2 HM2 HF2 Ht2 Hl2.
  destruct (Hl2 (Hl1 Hp)) as [-> Hp2]. cbn [negb]. apply bind_undefined.
  eapply goes_take; [exact HM2|exact HF2| |naive_solver]. intros q p3 HM3 HF3 Ht3 Hl3. apply bind_undefined.
  eapply goes_waiters_init; [exact HM3|exact HF3|]. intros ok w f p4 HM4 HF4 Ht4 Hl4 _.
  destruct (Hl4 (Hl3 Hp2)) as [-> Hp4]. cbn [negb]. apply bind_undefined, goes_gets.
  unfold mbind at 1, act_bind at 1. rewrite (put_core_overflow _ _ p4 l cores); [done|table_eq|].
  assert (g_ncpu p4 = g_ncpu p) as -> by table_eq. done.
Qed.

(** Started again, it writes past the new array: [g_ncpu] goes on from where it
    was. *)
Lemma second_init_undefined (ncpu : Z) p l so n cs ts M F :
  scheduler p l so n cs ts M F → (cores_asked ncpu <= length cs)%nat → so ≠ -1 → lucky p →
  co_scheduler_init ncpu p = None.
Proof.
  intros [Ht _ _ HM HF] Hn Hso Hl. injection Ht as Hta Htb Htc Htd.
  unfold co_scheduler_init. rewrite cores_asked_eq. apply bind_undefined.
  unfold epoll_listener_init. go. rewrite Htb, (proj2 (Z.eqb_neq so (-1))) by done. go. cbn [negb].
  apply bind_undefined. eapply goes_take; [exact HM|exact HF| |naive_solver].
  intros l1 p1 HM1 HF1 Ht1 Hl1. apply bind_undefined, goes_modify.
  assert (∃ k, cores_asked ncpu = S k) as [k Hk].
  { exists (pred (cores_asked ncpu)). unfold cores_asked in *. lia. }
  rewrite Hk in *. cbn [start_cores]. set (p2 := set_array _ p1).
  assert (new_pcl_thread p2 = None) as Hnew; [|unfold mbind, act_bind; by rewrite Hnew].
  unfold new_pcl_thread. apply bind_undefined.
  eapply (goes_take p2 _ _ _ HM1 HF1); [|naive_solver]. intros l2 p3 HM3 HF3 Ht3 Hl3.
  unfold mbind, act_bind. rewrite (start_core_overflow p3 l2 _ _ l1 (replicate (S k) None) HM3 HF3); [done|naive_solver| |].
  - table_eq.
  - rewrite length_replicate. assert (g_ncpu p3 = length cs) as -> by table_eq. done.
Qed.

End Scheduler.

(** ** A process that starts two cores *)

(** The calls that succeed: all; the third core fails to get its sockets. *)
Definition process1 (f : list bool) : sched := mk_sched {[1%nat]} {[0; 1; 2]} [] (-1) None 0 f.

Lemma scheduler_starts_witness :
  (fst <$> co_scheduler_init 2 (process1 [])) = Some (Some true) ∧
  (prod_map id g_ncpu <$> co_scheduler_init 2 (process1 (replicate 12 true ++ [false]))) = Some (Some false, 1%nat) ∧
  goes (co_scheduler_init 2) (process1 []) (λ r p', (lucky (process1 []) → r = Some true) ∧
    match r with
    | None => True
    | Some ok => init_post 2 [1%nat] [0; 1; 2] ok p' ∧
      (ok = true → ∀ rand, goes (pick_core rand) p' (λ c p'',
         p'' = p' ∧ whole c ∧ ∃ tls st, CoreThread (c_block c) tls st ∈ threads p'))
    end).
Proof.
  split; [by vm_compute|]. split; [by vm_compute|].
  apply (scheduler_starts 2 (process1 []) [1%nat] [0; 1; 2]); [| |done].
  - split; [by_decide|done].
  - split_and!; [by_decide|done|by_decide].
Defined.
