(* ===== verification/CoScheduler.v ===== *)
(** A core of the scheduler ([src/cothread/co-scheduler.c]): the queue of new
    coroutines and the list of waiters of a [struct co_scheduler_context], what the
    request handler does with a request to start a coroutine or to watch a
    descriptor, and the loop of [pclthread] that starts new coroutines and resumes
    waiting ones.  The buffers are those of [CcFifo] and [CcList], the walk is that
    of [CoWaiter]. *)

From S2P Require Import Prelude CcFifo Dll CcList CoWaiter.
Import Fifo Heap Cclist.

Open Scope Z_scope.

(** ** Data *)

Definition QUEUE_CAPACITY : nat := 1000.
Definition WAITERS_CAPACITY : nat := 65536.
Definition CCMAX : nat := 1000.
Lemma QUEUE_CAPACITY_pos : (0 < QUEUE_CAPACITY)%nat.
Proof. apply Nat.ltb_lt. by vm_compute. Qed.
Lemma CCMAX_pos : (0 < CCMAX)%nat.
Proof. apply Nat.ltb_lt. by vm_compute. Qed.
#[global] Opaque QUEUE_CAPACITY WAITERS_CAPACITY CCMAX.
Definition DEFAULT_THREAD_STACK_SIZE : Z := 1024 * 1024.

(** [struct co_scheduler_context]; a coroutine is its address. *)
Record co_scheduler_context := mk_core {
  queue : ccfifo nat;
  core_waiters : cclist io_waiter;
  started : bool;
}.

Definition with_queue (q : ccfifo nat) (c : co_scheduler_context) : co_scheduler_context :=
  mk_core q (core_waiters c) (started c).
Definition with_waiters (l : cclist io_waiter) (c : co_scheduler_context) : co_scheduler_context :=
  mk_core (queue c) l (started c).

(** [struct schedule_request] *)
Inductive request_kind :=
| creq_start_cothread (func : nat)
| creq_schedule_io (so flags : Z) (callback : nat).
Record schedule_request := mk_request { req : request_kind; stack_size : Z; thread_arg : nat }.

(** ** Waiters of a core *)

(** The node, [None] is [NULL]. *)
Definition add_waiter (c : co_scheduler_context) (w : io_waiter) : option nat * co_scheduler_context :=
  let '(node, _, l) := cclist_push_back (Some (set_mask (Z.lor (mask w) UNMASKED_EVENTS) w)) (core_waiters c) in
  (node, with_waiters l c).

Definition remove_waiter (c : co_scheduler_context) (node : option nat) : co_scheduler_context :=
  match node with
  | None => c
  | Some _ => with_waiters (cclist_erase node (core_waiters c)) c
  end.

(** The waiters as [walk_waiters_list] sees them, and what it writes to them. *)
Definition waiter_memory (l : cclist io_waiter) : waiters := nitem <$> nodes l.
Definition write_waiters (st : waiters) (l : cclist io_waiter) : cclist io_waiter :=
  mk_cclist (heap l) (lhead l) (ltail l) (lcapacity l)
    (map_imap (λ a n, Some (match st !! a with Some w => set_item w n | None => n end)) (nodes l)).

(** ** Requests *)

(** What the handler gets from the system for one request: the coroutine
    [co_create] makes and the [errno] if it makes none, whether [calloc] has
    memory, and the result of [epoll_add]. *)
Record supply := mk_supply {
  new_co : option nat;
  sys_errno : Z;
  has_memory : bool;
  epoll_errno : Z;
}.

Definition EBUSY_code : Z := 16.
Definition ENOMEM_code : Z := 12.
Definition or_enomem (e : Z) : Z := if e =? 0 then ENOMEM_code else e.

(** What [schedule_request_handler] does with a request: the status it answers.
    The coroutine of an io request is not queued: its waiter resumes it. *)
Definition schedule_request_handler (sp : supply) (rq : schedule_request) (c : co_scheduler_context) :
    Z * co_scheduler_context :=
  match req rq with
  | creq_start_cothread _ =>
    if ccfifo_is_full (queue c) then (EBUSY_code, c)
    else
      match new_co sp with
      | None => (or_enomem (sys_errno sp), c)
      | Some co => (0, with_queue (ccfifo_ppush co (queue c)).2 c)
      end
  | creq_schedule_io so flags _ =>
    if ccfifo_is_full (queue c) then (EBUSY_code, c)
    else if negb (has_memory sp) then (ENOMEM_code, c)
    else
      match new_co sp with
      | None => (or_enomem (sys_errno sp), c)
      | Some co =>
        let '(node, c) := add_waiter c (mk_waiter (-1) None None (Some co) flags 0 0 0) in
        match node with
        | None => (or_enomem (sys_errno sp), c)
        | Some _ => (epoll_errno sp, c)
        end
      end
  end.

(** The stack a coroutine gets. *)
Definition request_stack (rq : schedule_request) : Z :=
  if stack_size rq =? 0 then DEFAULT_THREAD_STACK_SIZE else stack_size rq.

(** ** The loop of a core *)

Inductive turn :=
| Starts (co : nat)             (** [co_call] of a coroutine from the queue *)
| Resumes (cc : list nat)       (** [co_call] of those the walk picked *)
| Sleeps (tmo : Z).             (** [epoll_listener_wait(tmo)] *)

(** One turn of [while ( 42 )], or of its inner loop, at time [ct]; [None] is the
    [exit(1)] of the walk. *)
Definition pclthread_turn (ct : Z) (c : co_scheduler_context) : option (turn * co_scheduler_context) :=
  match ccfifo_pop (queue c) with
  | (Some co, q) => Some (Starts co, with_queue q c)
  | (None, _) =>
    '(cc, t, _, st) ← walk_waiters_list ct CCMAX (node_list (core_waiters c)) ∅ (waiter_memory (core_waiters c));
    Some (if decide (cc = []) then Sleeps t else Resumes cc,
          with_waiters (write_waiters st (core_waiters c)) c)
  end.

(** [new_pcl_thread], once the memory is there, and [pclthread] up to its loop:
    the coroutine [rqh] of the request handler is the first in the queue. *)
Definition new_core (qmem : list nat) (hmem : list nat) (lmem : list (cclist_node io_waiter)) (rqh : nat)
    (q0 : ccfifo nat) : co_scheduler_context :=
  let q := (ccfifo_init (Some qmem) QUEUE_CAPACITY q0).2 in
  let l := (cclist_init true (Some hmem) lmem WAITERS_CAPACITY).2 in
  mk_core (ccfifo_ppush rqh q).2 l true.

(** ** Sleeping *)

(** The waiter of [co_sleep] in a coroutine. *)
Definition sleep_waiter (me : nat) (now msec : Z) : io_waiter :=
  mk_waiter (now + msec) None None (Some me) 0 0 0 (if msec =? 0 then CO_YIELD else 0).

(** Outside of a coroutine: the [timespec] given to [nanosleep], computed with
    32-bit unsigned integers. *)
Definition sleep_timespec (msec : Z) : Z * Z :=
  (msec / 1000, u32 (u32 (msec - msec mod 1000) * 1000000)).

(** ** Well-formed cores *)

(** A waiter waits without end or for a time after 0: what the walk relies on. *)
Definition tmo_ok (w : io_waiter) : Prop := tmo w = -1 ∨ 0 < tmo w.

(** [l] are the nodes of the core's list of waiters. *)
Record core_ok (c : co_scheduler_context) (l : list nat) : Prop := {
  ok_queue : wf (queue c);
  ok_queue_cap : q_capacity (queue c) = QUEUE_CAPACITY;
  ok_waiters : repr (core_waiters c) l;
  ok_waiters_cap : lcapacity (core_waiters c) = WAITERS_CAPACITY;
  ok_items : ∀ a, a ∈ l → ∃ w, cclist_peek (core_waiters c) (Some a) = Some w ∧ tmo_ok w;
}.

Lemma lookup_waiter_memory l a : waiter_memory l !! a = cclist_peek l (Some a).
Proof. unfold waiter_memory. by rewrite lookup_fmap. Qed.

Lemma core_nodes c l : core_ok c l → node_list (core_waiters c) = l.
Proof. intros Hc. apply repr_walk; [apply Hc|]. apply repr_length, Hc. Qed.

Lemma core_ok_queue c l q :
  core_ok c l → wf q → q_capacity q = q_capacity (queue c) → core_ok (with_queue q c) l.
Proof. intros [] Hq Hcap. split; cbn; [done|congruence|done..]. Qed.

Lemma add_waiter_ok c l w node c' :
  core_ok c l → tmo_ok w → add_waiter c w = (node, c') →
  queue c' = queue c ∧
  match node with
  | None => c' = c ∧ length l = WAITERS_CAPACITY
  | Some a => a ∉ l ∧ core_ok c' (l ++ [a])
  end.
Proof.
  intros [Hq Hqc Hw Hwc Hi] Ht. unfold add_waiter.
  set (w1 := set_mask _ w). destruct (free_blocks (heap (core_waiters c))) as [|a fr] eqn:Hf.
  - rewrite (cclist_push_back_full _ _ _ Hw Hf). intros [= <- <-]. split; [done|].
    split; [by destruct c|]. pose proof Hw as [[_ Hp] Hcap _ _]. apply Permutation_length in Hp.
    rewrite Hf, length_seq, Hcap, Hwc in Hp. done.
  - destruct (cclist_push_back_ok _ _ w1 _ _ Hw Hf) as (cc' & -> & Hr & Ha & Hc & _ & Hx & Ho).
    intros [= <- <-]. split; [done|]. split; [done|]. split; cbn [queue core_waiters with_waiters remove_waiter];
      [done|done|done|congruence|].
    intros b [Hb| ->%list_elem_of_singleton]%elem_of_app.
    + destruct (Hi b Hb) as (wb & Hwb & ?). exists wb. rewrite Ho; [done|congruence].
    + exists w1. done.
Qed.

Lemma remove_waiter_ok c l1 a l2 :
  core_ok c (l1 ++ a :: l2) →
  core_ok (remove_waiter c (Some a)) (l1 ++ l2) ∧ queue (remove_waiter c (Some a)) = queue c.
Proof.
  intros [Hq Hqc Hw Hwc Hi]. destruct (cclist_erase_ok _ _ _ _ Hw) as (Hr & Hc & _ & Ho).
  split; [|done]. split; cbn [queue core_waiters with_waiters remove_waiter];
      [done|done|done|congruence|].
  intros b Hb. rewrite Ho. apply Hi. set_solver.
Qed.

(** Writes to the items of the waiters do not touch the list. *)
Definition writes_ok (st : waiters) (l : cclist io_waiter) : Prop :=
  ∀ a w', st !! a = Some w' → ∃ w, waiter_memory l !! a = Some w ∧ tmo w' = tmo w.

Lemma write_waiters_repr st cc l : repr cc l → repr (write_waiters st cc) l.
Proof.
  intros [Hp Hc Hm (Hnd & Hh & Ht & Hn)]. split; cbn; [done|done| |].
  - intros a Ha. rewrite map_lookup_imap. destruct (Hm a Ha) as [n ->]. done.
  - split_and!; [done..|]. intros l1 a l2 Hl. destruct (Hn l1 a l2 Hl) as (n & Ha & ? & ?).
    rewrite map_lookup_imap, Ha. cbn. eexists. split; [done|]. by destruct (st !! a).
Qed.

Lemma write_waiters_ok st c l :
  core_ok c l → writes_ok st (core_waiters c) →
  core_ok (with_waiters (write_waiters st (core_waiters c)) c) l.
Proof.
  intros [Hq Hqc Hw Hwc Hi] Hst. split; cbn; [done|done|by apply write_waiters_repr|done|].
  intros a Ha. destruct (Hi a Ha) as (w & Hwa & Htm). unfold cclist_peek in *. cbn in *.
  rewrite map_lookup_imap. destruct (nodes (core_waiters c) !! a) as [n|] eqn:Hn; [|done].
  cbn in *. injection Hwa as <-. destruct (st !! a) as [w'|] eqn:Hs; cbn; [|eauto].
  exists w'. split; [done|]. destruct (Hst a w' Hs) as (w & Hwm & Heq).
  rewrite lookup_waiter_memory in Hwm. unfold cclist_peek in Hwm. cbn in Hwm. rewrite Hn in Hwm.
  injection Hwm as <-. unfold tmo_ok in *. by rewrite Heq.
Qed.

(** The walk of a core never finds a waiter for time 0. *)
Lemma core_walk c l ct :
  core_ok c l → 0 <= ct →
  ∃ cc t st, walk_waiters_list ct CCMAX (node_list (core_waiters c)) ∅ (waiter_memory (core_waiters c)) =
      Some (cc, t, ∅, st) ∧
    NoDup cc ∧ (length cc ≤ CCMAX)%nat ∧ writes_ok st (core_waiters c) ∧
    ∀ co, co ∈ cc → ∃ a w, a ∈ l ∧ cclist_peek (core_waiters c) (Some a) = Some w ∧ resumes ct w = Some co.
Proof.
  intros Hc Hct. rewrite (core_nodes c l Hc).
  destruct (walk_waiters_list_walked ct CCMAX l (waiter_memory (core_waiters c)))
    as (seen & rest & cc & m & st & Heq & Hl & W); [done| |apply CCMAX_pos| |].
  - apply (repr_dll _ _ (ok_waiters _ _ Hc)).
  - intros a Ha. destruct (ok_items _ _ Hc a Ha) as (w & Hw & Ht). exists w.
    rewrite lookup_waiter_memory. split; [done|]. intros ? ? ?. destruct Ht; lia.
  - destruct W as [_ Hnd Hmax _ Hcc Hst]. eexists cc, _, st. split_and!; [done..| |].
    + intros a w'. rewrite Hst. destruct (waiter_memory (core_waiters c) !! a) as [w|] eqn:Hw.
      * case_decide; cbn; intros [= <-]; exists w; (split; [done|]); [|done].
        unfold visited. destruct (co w); [|done]. by destruct (yields w), (due ct w).
      * by case_decide.
    + intros co Hco. apply Hcc in Hco as [Hno|(a & w & Ha & Hw & Hres)]; [by apply not_elem_of_nil in Hno|].
      exists a, w. rewrite <-lookup_waiter_memory. split; [|done]. subst l. apply elem_of_app. by left.
Qed.

(** ** A core at work *)

(** A core, the coroutines the handler queued so far, and those the loop started. *)
Record sched := mk_sched {
  s_core : co_scheduler_context;
  s_accepted : list nat;
  s_started : list nat;
}.

(** The coroutine a request puts on the queue, given the status it is answered. *)
Definition queued_by (rq : schedule_request) (sp : supply) (status : Z) : list nat :=
  match req rq with
  | creq_start_cothread _ => if status =? 0 then option_list (new_co sp) else []
  | creq_schedule_io _ _ _ => []
  end.

Definition starts (t : turn) : list nat := match t with Starts co => [co] | _ => [] end.

(** What happens to a core: its handler serves a request, its loop takes a turn,
    its coroutines begin and end to wait, the listener, signals and the queues of
    descriptors write to its waiters. *)
Inductive sstep : sched → sched → Prop :=
| step_request c ac st sp rq status c' :
    schedule_request_handler sp rq c = (status, c') →
    sstep (mk_sched c ac st) (mk_sched c' (ac ++ queued_by rq sp status) st)
| step_turn c ac st ct t c' :
    0 <= ct → pclthread_turn ct c = Some (t, c') →
    sstep (mk_sched c ac st) (mk_sched c' ac (st ++ starts t))
| step_wait c ac st w node c' :
    tmo_ok w → add_waiter c w = (node, c') → sstep (mk_sched c ac st) (mk_sched c' ac st)
| step_stop_waiting c ac st a :
    a ∈ node_list (core_waiters c) →
    sstep (mk_sched c ac st) (mk_sched (remove_waiter c (Some a)) ac st)
| step_write c ac st mem :
    writes_ok mem (core_waiters c) →
    sstep (mk_sched c ac st) (mk_sched (with_waiters (write_waiters mem (core_waiters c)) c) ac st).

(** The invariant: the core is well-formed, and what was accepted and not yet
    started is in the queue, in order. *)
Definition sched_ok (s : sched) : Prop :=
  (∃ l, core_ok (s_core s) l) ∧ s_accepted s = s_started s ++ contents (queue (s_core s)).

Lemma handler_ok sp rq c l status c' :
  core_ok c l → schedule_request_handler sp rq c = (status, c') →
  (∃ l', core_ok c' l') ∧ contents (queue c') = contents (queue c) ++ queued_by rq sp status ∧
  (length (contents (queue c)) = QUEUE_CAPACITY → status = EBUSY_code ∧ c' = c).
Proof.
  intros Hc. pose proof Hc as [Hq Hqc _ _ _]. unfold schedule_request_handler, queued_by.
  assert (EBUSY_code ≠ 0 ∧ ENOMEM_code ≠ 0) as [HB HM] by done.
  assert (or_enomem (sys_errno sp) =? 0 = false) as He
    by (unfold or_enomem; destruct (sys_errno sp =? 0) eqn:E; [done|exact E]).
  pose proof (ccfifo_is_full_spec _ Hq) as Hfull. rewrite Hqc in Hfull.
  destruct (ccfifo_is_full (queue c)).
  { assert (length (contents (queue c)) = QUEUE_CAPACITY) by (by apply Hfull).
    destruct (req rq); intros [= <- <-]; cbn [EBUSY_code Z.eqb]; rewrite app_nil_r; eauto. }
  assert (length (contents (queue c)) ≠ QUEUE_CAPACITY) as Hroom by (intros ?%Hfull; done).
  destruct (req rq) as [func|so fl cb].
  - destruct (new_co sp) as [co|]; intros [= <- <-].
    + destruct (ccfifo_push_room co (queue c) Hq) as (q' & Hp & Hq' & Hcap & Hcon).
      { rewrite Hqc. destruct Hq. rewrite contents_length in Hroom by done. lia. }
      unfold ccfifo_ppush. rewrite Hp. cbn [queue with_queue snd]. split_and!; [|done|done].
      exists l. by apply core_ok_queue.
    + rewrite He, app_nil_r. by split_and!; [eauto|..].
  - destruct (has_memory sp); cbn [negb].
    2: { intros [= <- <-]. rewrite app_nil_r. by split_and!; [eauto|..]. }
    destruct (new_co sp) as [co|]; [|intros [= <- <-]; rewrite app_nil_r; by split_and!; [eauto|..]].
    destruct (add_waiter c _) as [node c1] eqn:Ha. eapply add_waiter_ok in Ha as [Hq1 Hn]; [|done|by left].
    destruct node as [a|]; intros [= <- <-]; rewrite Hq1, app_nil_r.
    + destruct Hn as [_ Hn]. by split_and!; [eauto|..].
    + destruct Hn as [-> _]. by split_and!; [eauto|..].
Qed.

(** What a request is answered when [waiting] coroutines are in the queue and there
    are [sleeping] waiters. *)
Definition answer (sp : supply) (rq : schedule_request) (waiting sleeping : nat) : Z :=
  if (QUEUE_CAPACITY <=? waiting)%nat then EBUSY_code
  else
    match req rq, new_co sp with
    | creq_start_cothread _, Some _ => 0
    | creq_start_cothread _, None => or_enomem (sys_errno sp)
    | creq_schedule_io _ _ _, co =>
      if negb (has_memory sp) then ENOMEM_code
      else if bool_decide (co = None) || (WAITERS_CAPACITY <=? sleeping)%nat then or_enomem (sys_errno sp)
      else epoll_errno sp
    end.

Lemma handler_answers sp rq c l :
  core_ok c l →
  (schedule_request_handler sp rq c).1 = answer sp rq (length (contents (queue c))) (length l).
Proof.
  intros Hc. pose proof Hc as [Hq Hqc _ _ _]. unfold schedule_request_handler, answer.
  pose proof (ccfifo_is_full_spec _ Hq) as Hfull. rewrite Hqc in Hfull.
  assert (length (contents (queue c)) ≤ QUEUE_CAPACITY)%nat as Hle.
  { rewrite contents_length by done. rewrite <-Hqc. apply Hq. }
  assert (ccfifo_is_full (queue c) = (QUEUE_CAPACITY <=? length (contents (queue c)))%nat) as ->.
  { destruct (Nat.leb_spec QUEUE_CAPACITY (length (contents (queue c)))).
    - apply Hfull. lia.
    - destruct (ccfifo_is_full (queue c)); [|done]. specialize (proj1 Hfull eq_refl). lia. }
  destruct (QUEUE_CAPACITY <=? _)%nat; [by destruct (req rq)|].
  destruct (req rq) as [func|so fl cb]; [by destruct (new_co sp)|].
  destruct (has_memory sp); cbn [negb]; [|done].
  destruct (new_co sp) as [co|]; [|done]. rewrite bool_decide_eq_false_2 by done. cbn [orb].
  destruct (add_waiter c _) as [node c1] eqn:Ha. eapply add_waiter_ok in Ha as [_ Hn]; [|done|by left].
  destruct node as [a|]; cbn [fst].
  - destruct Hn as [_ [_ _ Hr Hcap _]]. apply repr_length in Hr. rewrite Hcap, length_app in Hr. cbn in Hr.
    destruct (Nat.leb_spec WAITERS_CAPACITY (length l)); [lia|done].
  - destruct Hn as [_ ->]. by rewrite Nat.leb_refl.
Qed.

(** A turn of a well-formed core. *)
Lemma turn_ok ct c l :
  core_ok c l → 0 <= ct →
  ∃ t c', pclthread_turn ct c = Some (t, c') ∧ core_ok c' l ∧
    contents (queue c) = starts t ++ contents (queue c') ∧
    match t with
    | Starts _ => True
    | Resumes cc => contents (queue c) = [] ∧ cc ≠ [] ∧ NoDup cc ∧ (length cc ≤ CCMAX)%nat ∧
        ∀ co, co ∈ cc → ∃ a w, a ∈ l ∧
          cclist_peek (core_waiters c) (Some a) = Some w ∧ resumes ct w = Some co
    | Sleeps _ => contents (queue c) = []
    end.
Proof.
  intros Hc Hct. unfold pclthread_turn. pose proof (ok_queue _ _ Hc) as Hq.
  destruct (contents (queue c)) as [|co rest] eqn:Hcon.
  - rewrite ccfifo_pop_empty by (by rewrite <-contents_length, Hcon).
    destruct (core_walk c l ct Hc Hct) as (cc & t & st & -> & Hnd & Hmax & Hw & Hcc). cbn.
    eexists _, _. split; [done|]. split; [by apply write_waiters_ok|].
    case_decide; cbn; rewrite Hcon; [done|]. split_and!; done.
  - destruct (ccfifo_pop_item co rest _ Hq Hcon) as (q' & -> & Hq' & Hcap & Hrest).
    eexists _, _. split; [done|]. split; [by apply core_ok_queue|]. cbn. by rewrite Hrest.
Qed.

Lemma sstep_ok s s' : sstep s s' → sched_ok s → sched_ok s'.
Proof.
  intros Hstep [(l & Hc) Ha]. unfold sched_ok in *.
  destruct Hstep; cbn [s_core s_accepted s_started] in *.
  - destruct (handler_ok _ _ _ _ _ _ Hc H) as (Hc' & -> & _).
    split; [done|]. by rewrite Ha, (assoc_L (++)).
  - destruct (turn_ok ct c l Hc H) as (t' & c1 & Heq & Hc' & Hcon & _).
    rewrite H0 in Heq. injection Heq as <- <-. split; [eauto|].
    by rewrite Ha, Hcon, (assoc_L (++)).
  - destruct (add_waiter_ok _ _ _ _ _ Hc H H0) as [-> Hn]. split; [|done].
    destruct node; [destruct Hn|destruct Hn as [-> _]]; eauto.
  - rewrite (core_nodes _ _ Hc) in H. apply list_elem_of_split in H as (l1 & l2 & ->).
    destruct (remove_waiter_ok _ _ _ _ Hc) as [Hc' ->]. eauto.
  - split; [|done]. exists l. by apply write_waiters_ok.
Qed.

Lemma new_core_ok qmem hmem lmem rqh q0 :
  length qmem = QUEUE_CAPACITY → length hmem = WAITERS_CAPACITY → length lmem = WAITERS_CAPACITY →
  sched_ok (mk_sched (new_core qmem hmem lmem rqh q0) [rqh] []).
Proof.
  intros Hq Hh Hl. destruct (ccfifo_init_wf qmem QUEUE_CAPACITY q0 Hq) as [Hw Hc].
  destruct (cclist_init_repr hmem lmem WAITERS_CAPACITY Hh Hl) as (cc & Hi & Hr & Hcap).
  unfold new_core. rewrite Hi. set (q := (ccfifo_init _ _ q0).2) in *.
  destruct (ccfifo_push_room rqh q Hw) as (q' & Hp & Hq' & Hqc & Hcon).
  { rewrite <-contents_length, Hc by done. apply QUEUE_CAPACITY_pos. }
  unfold ccfifo_ppush. rewrite Hp. split; cbn; [|by rewrite Hcon, Hc].
  exists []. split; cbn; [done|done|done|done|]. intros a Ha. by apply not_elem_of_nil in Ha.
Qed.

(** C29: a core starts the coroutines it accepted, each once and in order: those
    started and those in its queue, one after the other, are those accepted.  When a
    thousand wait in the queue a request is refused with [EBUSY] and no other
    effect; otherwise a coroutine to start is accepted, at the end of the queue, if
    there is memory for it, and one for io if there is also room for its waiter and
    epoll takes its descriptor; what fails is reported.  Whatever waits, sleeps, is signalled or
    gets events, the list of waiters stays a list, at most [WAITERS_CAPACITY] long,
    and the loop never ends in the [exit(1)] of the walk: its next turn starts the
    oldest new coroutine if there is one, and otherwise resumes, each once, some
    whose waiter is due, or sleeps. *)
Theorem core_starts_what_it_accepts qmem hmem lmem rqh q0 (s : sched)
    (Hqm : length qmem = QUEUE_CAPACITY) (Hhm : length hmem = WAITERS_CAPACITY)
    (Hlm : length lmem = WAITERS_CAPACITY)
    (Hs : rtc sstep (mk_sched (new_core qmem hmem lmem rqh q0) [rqh] []) s) :
  s_accepted s = s_started s ++ contents (queue (s_core s)) ∧
  (length (contents (queue (s_core s))) ≤ QUEUE_CAPACITY)%nat ∧
  (∀ sp rq, length (contents (queue (s_core s))) = QUEUE_CAPACITY →
     schedule_request_handler sp rq (s_core s) = (EBUSY_code, s_core s)) ∧
  (∀ sp rq, let '(status, c') := schedule_request_handler sp rq (s_core s) in
     status = answer sp rq (length (contents (queue (s_core s)))) (length (node_list (core_waiters (s_core s)))) ∧
     contents (queue c') = contents (queue (s_core s)) ++ queued_by rq sp status) ∧
  (∃ l, node_list (core_waiters (s_core s)) = l ∧ repr (core_waiters (s_core s)) l ∧
     (length l ≤ WAITERS_CAPACITY)%nat) ∧
  (∀ ct, 0 <= ct → ∃ t c', pclthread_turn ct (s_core s) = Some (t, c') ∧
     match t with
     | Starts co => head (contents (queue (s_core s))) = Some co
     | Resumes cc => contents (queue (s_core s)) = [] ∧ cc ≠ [] ∧ NoDup cc ∧
         ∀ co, co ∈ cc → ∃ a w, a ∈ node_list (core_waiters (s_core s)) ∧
           cclist_peek (core_waiters (s_core s)) (Some a) = Some w ∧ resumes ct w = Some co
     | Sleeps _ => contents (queue (s_core s)) = []
     end).
Proof.
  assert (sched_ok s) as [(l & Hc) Ha].
  { eapply (rtc_preserves sstep sched_ok); [apply sstep_ok|exact Hs|by apply new_core_ok]. }
  pose proof Hc as [Hq Hqc Hw Hwc _]. split; [done|]. split.
  { rewrite contents_length by done. rewrite <-Hqc. apply Hq. }
  split.
  { intros sp rq Hfull. destruct (schedule_request_handler sp rq (s_core s)) as [st c'] eqn:Hh.
    destruct (handler_ok _ _ _ _ _ _ Hc Hh) as (_ & _ & HB). by destruct (HB Hfull) as [-> ->]. }
  split.
  { intros sp rq. pose proof (handler_answers sp rq _ _ Hc) as Han. rewrite (core_nodes _ _ Hc).
    destruct (schedule_request_handler sp rq (s_core s)) as [st c'] eqn:Hh.
    by destruct (handler_ok _ _ _ _ _ _ Hc Hh) as (_ & Hcon & _). }
  split.
  { exists l. rewrite (core_nodes _ _ Hc), <-Hwc. split_and!; [done|done|]. by apply repr_length. }
  intros ct Hct. destruct (turn_ok ct _ _ Hc Hct) as (t & c' & Ht & _ & Hcon & Hcase).
  exists t, c'. split; [done|]. destruct t; [by rewrite Hcon| |done].
  rewrite (core_nodes _ _ Hc). naive_solver.
Qed.

(** A coroutine is asleep in [co_sleep] until its time has come; with 0 it skips
    one walk, which then does not sleep. *)
Lemma sleep_waiter_resumed me now msec ct :
  0 < now → 0 <= msec →
  let w := sleep_waiter me now msec in
  resumes ct w = (if (0 <? msec) && (now + msec <=? ct) then Some me else None) ∧
  (msec = 0 → now <= ct → delay ct w = Some 0 ∧ resumes ct (visited ct w) = Some me).
Proof.
  intros Hn Hm. cbn zeta. unfold resumes, delay, visited, yields, sleep_waiter, due. cbn.
  destruct (Z.eqb_spec msec 0) as [->|Hz]; cbn.
  - split; [done|]. intros _ Hle. split; [done|].
    rewrite Z.add_0_r. change (has CO_YIELD CO_YIELD) with true. cbn.
    by rewrite (proj2 (Z.ltb_lt 0 now) Hn), (proj2 (Z.leb_le now ct) Hle).
  - split; [|done]. rewrite (proj2 (Z.ltb_lt 0 (now + msec))), (proj2 (Z.ltb_lt 0 msec)) by lia.
    unfold has. rewrite Z.land_0_l. cbn. by destruct (_ <=? ct).
Qed.

(** Outside of a coroutine [co_sleep] does not sleep for less than a second, and
    from one second on gives [nanosleep] a number of nanoseconds it refuses. *)
Lemma sleep_timespec_wrong msec :
  (0 <= msec < 1000 → sleep_timespec msec = (0, 0)) ∧
  (1000 <= msec < 5000 → 999999999 < (sleep_timespec msec).2).
Proof.
  unfold sleep_timespec. split; intros Hm.
  - by rewrite Z.div_small, Z.mod_small, Z.sub_diag.
  - pose proof (Z.div_mod msec 1000 ltac:(lia)). pose proof (Z.mod_pos_bound msec 1000 ltac:(lia)).
    rewrite (uwrap_id 32 (msec - msec mod 1000)) by (unfold is_uint; lia).
    cbn [snd]. rewrite uwrap_id by (unfold is_uint; lia). lia.
Qed.

(** ** A core at start *)

(** The memory of a new core, and the coroutine 7 as its request handler; a
    request then asks for the coroutine 8. *)
Definition core0 : co_scheduler_context :=
  new_core (replicate QUEUE_CAPACITY 0%nat) (replicate WAITERS_CAPACITY 0%nat)
    (replicate WAITERS_CAPACITY (mk_node None None (mk_waiter 0 None None None 0 0 0 0))) 7 zero_fifo.
Definition supply0 : supply := mk_supply (Some 8%nat) 0 true 0.
Definition request0 : schedule_request := mk_request (creq_start_cothread 1) 0 2.

Lemma accepts0 : ∃ c, schedule_request_handler supply0 request0 core0 = (0, c).
Proof.
  unfold schedule_request_handler, core0, new_core. cbn [req request0 queue new_co supply0].
  set (q := (ccfifo_init _ _ _).2).
  assert (ccfifo_is_full (ccfifo_ppush 7%nat q).2 = false) as ->; [|eauto].
  apply (proj2 (Nat.eqb_neq _ _)). assert (q_size (ccfifo_ppush 7%nat q).2 = 1%nat) as ->.
  { unfold ccfifo_ppush, ccfifo_push, ccfifo_push_bytes. cbn. pose proof QUEUE_CAPACITY_pos.
    by destruct QUEUE_CAPACITY; [lia|]. }
  assert (q_capacity (ccfifo_ppush 7%nat q).2 = QUEUE_CAPACITY) as ->.
  { unfold ccfifo_ppush, ccfifo_push, ccfifo_push_bytes. by destruct (_ <? _)%nat. }
  intros H. assert (QUEUE_CAPACITY ≠ 1%nat) by (apply Nat.eqb_neq; by vm_compute). done.
Qed.

Lemma core_starts_what_it_accepts_witness : ∃ c,
  rtc sstep (mk_sched core0 [7%nat] []) (mk_sched c [7; 8]%nat []) ∧
  [7; 8]%nat = [] ++ contents (queue c) ∧ (length (contents (queue c)) ≤ QUEUE_CAPACITY)%nat ∧
  (∀ ct, 0 <= ct → ∃ t c', pclthread_turn ct c = Some (t, c')).
Proof.
  destruct accepts0 as [c Hc]. exists c.
  assert (rtc sstep (mk_sched core0 [7%nat] []) (mk_sched c [7; 8]%nat [])) as Hr.
  { apply rtc_once. apply (step_request _ [7%nat] [] supply0 request0 0 c Hc). }
  split; [exact Hr|].
  destruct (core_starts_what_it_accepts (replicate QUEUE_CAPACITY 0%nat) (replicate WAITERS_CAPACITY 0%nat)
    (replicate WAITERS_CAPACITY (mk_node None None (mk_waiter 0 None None None 0 0 0 0))) 7 zero_fifo
    (mk_sched c [7; 8]%nat [])) as (Ha & Hl & _ & _ & _ & Ht);
    [apply length_replicate|apply length_replicate|apply length_replicate|exact Hr|].
  split; [exact Ha|]. split; [exact Hl|].
  intros ct Hct. destruct (Ht ct Hct) as (t & c' & Heq & _). eauto.
Defined.

(** ** Asking a core: [send_schedule_request] *)

(** Where a caller is.  [n] is the number of its request, [m] that of the request
    whose answer it read ([None]: it read none), [z] the status it ends with. *)
Inductive caller_pc :=
| Ready
| Locking                                        (** in [co_scheduler_lock] *)
| Locked                                         (** before [co_send] *)
| Asked (n : nat)                                (** before [recv] or [co_recv] *)
| Answered (n : nat) (m : option nat) (z : Z)    (** before [co_scheduler_unlock] *)
| Told (n : nat) (m : option nat) (z : Z).

Record caller := mk_caller { in_cothread : bool; pc : caller_pc }.

(** The two directions of the socket pair [cs], with the number of the request
    each message is about, [csbusy], the next number, and the callers. *)
Record exchange := mk_exchange {
  x_asked : list nat;
  x_replies : list (nat * Z);
  x_csbusy : bool;
  x_next : nat;
  x_callers : list caller;
}.

Inductive act :=
| ACall (i : nat) | ALock (i : nat) | ASend (i : nat) | ARecv (i : nat)
| AGiveUp (i : nat) | AUnlock (i : nat)
| AServe (z : Z).                                (** the request handler answers [z] *)

Definition goto (i : nat) (p : caller_pc) (s : exchange) : exchange :=
  mk_exchange (x_asked s) (x_replies s) (x_csbusy s) (x_next s)
    (alter (λ c, mk_caller (in_cothread c) p) i (x_callers s)).
Definition set_busy (b : bool) (s : exchange) : exchange :=
  mk_exchange (x_asked s) (x_replies s) b (x_next s) (x_callers s).
Definition send_request (i : nat) (s : exchange) : exchange :=
  goto i (Asked (x_next s))
    (mk_exchange (x_asked s ++ [x_next s]) (x_replies s) (x_csbusy s) (S (x_next s)) (x_callers s)).

(** The steps of [send_schedule_request].  A caller that is not in a coroutine
    sends and receives without [csbusy].  [AGiveUp]: in a coroutine, [co_recv] does
    not wait on a socket without timeout and returns -1 with [errno] 0
    ([CoSocket.co_recv_gives_up]), which becomes the status. *)
Definition exec (a : act) (s : exchange) : option exchange :=
  match a with
  | AServe z =>
    match x_asked s with
    | n :: ns => Some (mk_exchange ns (x_replies s ++ [(n, z)]) (x_csbusy s) (x_next s) (x_callers s))
    | [] => None
    end
  | ACall i => c ← x_callers s !! i;
    match pc c with
    | Ready | Told _ _ _ => Some (if in_cothread c then goto i Locking s else send_request i s)
    | _ => None
    end
  | ALock i => c ← x_callers s !! i;
    match pc c with
    | Locking => if x_csbusy s then None else Some (goto i Locked (set_busy true s))
    | _ => None
    end
  | ASend i => c ← x_callers s !! i;
    match pc c with Locked => Some (send_request i s) | _ => None end
  | ARecv i => c ← x_callers s !! i;
    match pc c, x_replies s with
    | Asked n, (m, z) :: rs =>
      Some (goto i (if in_cothread c then Answered n (Some m) z else Told n (Some m) z)
              (mk_exchange (x_asked s) rs (x_csbusy s) (x_next s) (x_callers s)))
    | _, _ => None
    end
  | AGiveUp i => c ← x_callers s !! i;
    match pc c, x_replies s, in_cothread c with
    | Asked n, [], true => Some (goto i (Answered n None 0) s)
    | _, _, _ => None
    end
  | AUnlock i => c ← x_callers s !! i;
    match pc c with
    | Answered n m z => Some (goto i (Told n m z) (set_busy false s))
    | _ => None
    end
  end.

Definition xstep (s s' : exchange) : Prop := ∃ a, exec a s = Some s'.

Fixpoint exec_all (l : list act) (s : exchange) : option exchange :=
  match l with [] => Some s | a :: l => s ← exec a s; exec_all l s end.

Definition exchange0 (kinds : list bool) : exchange :=
  mk_exchange [] [] false 0 ((λ b, mk_caller b Ready) <$> kinds).

(** The one caller of a core, in a thread that runs no coroutines. *)
Definition lone_ok (s : exchange) : Prop :=
  ∃ p, x_callers s = [mk_caller false p] ∧
    match p with
    | Asked n => (x_asked s = [n] ∧ x_replies s = []) ∨ (x_asked s = [] ∧ ∃ z, x_replies s = [(n, z)])
    | Ready => x_asked s = [] ∧ x_replies s = []
    | Told n m _ => x_asked s = [] ∧ x_replies s = [] ∧ m = Some n
    | _ => False
    end.

Lemma xstep_lone s s' : xstep s s' → lone_ok s → lone_ok s'.
Proof.
  intros [a Hstep] (p & Hc & Hp).
  destruct s as [asked replies busy next callers]; cbn in *; subst callers.
  destruct a as [i|i|i|i|i|i|z]; cbn in Hstep.
  1-6: destruct i as [|i]; cbn in Hstep; [|done].
  - destruct p; try done; injection Hstep as <-; eexists; (split; [done|]); cbn; left;
      destruct Hp as (-> & -> & ?) || destruct Hp as [-> ->]; done.
  - by destruct p.
  - by destruct p.
  - destruct p; try done. destruct replies as [|[m y] rs]; [done|]. injection Hstep as <-.
    destruct Hp as [[_ ?]|[-> [y' [= -> -> ->]]]]; [done|]. by eexists.
  - destruct p; try done. by destruct replies.
  - by destruct p.
  - destruct asked as [|n ns]; [done|]. injection Hstep as <-. exists p. split; [done|].
    destruct p; cbn; naive_solver.
Qed.

(** A thread that runs no coroutines and is the only one to ask a core is
    told the outcome of its own request, each time. *)
Theorem lone_caller_told_its_outcome (s : exchange) n m z
    (Hs : rtc xstep (exchange0 [false]) s)
    (Htold : x_callers s = [mk_caller false (Told n m z)]) :
  m = Some n ∧ x_asked s = [] ∧ x_replies s = [].
Proof.
  assert (lone_ok s) as (p & Hc & Hp).
  { eapply (rtc_preserves xstep lone_ok); [apply xstep_lone|exact Hs|by exists Ready]. }
  rewrite Htold in Hc. injection Hc as <-. naive_solver.
Qed.

Lemma exec_all_sound l s s' : exec_all l s = Some s' → rtc xstep s s'.
Proof.
  revert s. induction l as [|a l IH]; intros s; cbn; [by intros [= <-]|].
  destruct (exec a s) as [s1|] eqn:Ha; cbn; [|done]. intros Hl.
  eapply rtc_l; [by exists a|auto].
Qed.

Lemma lone_caller_told_its_outcome_witness : ∃ s,
  rtc xstep (exchange0 [false]) s ∧ x_callers s = [mk_caller false (Told 1 (Some 1%nat) 16)] ∧
  Some 1%nat = Some 1%nat ∧ x_asked s = [] ∧ x_replies s = [].
Proof.
  set (s := default (exchange0 []) (exec_all [ACall 0; AServe 0; ARecv 0; ACall 0; AServe 16; ARecv 0]
    (exchange0 [false]))).
  exists s. assert (rtc xstep (exchange0 [false]) s) as Hs
    by (eapply exec_all_sound, some_default; by vm_compute).
  split; [exact Hs|]. split; [by vm_compute|].
  apply (lone_caller_told_its_outcome s 1 (Some 1%nat) 16 Hs). by vm_compute.
Defined.

(** Two threads that ask at the same time can read each other's answers: the one
    whose request was refused is told that it was served. *)
Example outside_callers_mix_answers : ∃ s,
  rtc xstep (exchange0 [false; false]) s ∧
  x_callers s = [mk_caller false (Told 0 (Some 1%nat) EBUSY_code); mk_caller false (Told 1 (Some 0%nat) 0)].
Proof.
  set (s := default (exchange0 []) (exec_all
    [ACall 0; ACall 1; AServe 0; AServe EBUSY_code; ARecv 1; ARecv 0] (exchange0 [false; false]))).
  exists s. split; [eapply exec_all_sound, some_default|]; by vm_compute.
Qed.

(** A coroutine is told that its request was served before the handler has seen
    it, and the refusal that comes later is the answer to its next request. *)
Example coroutine_told_too_early : ∃ s s',
  rtc xstep (exchange0 [true]) s ∧ x_callers s = [mk_caller true (Told 0 None 0)] ∧ x_asked s = [0%nat] ∧
  rtc xstep s s' ∧ x_callers s' = [mk_caller true (Told 1 (Some 0%nat) EBUSY_code)].
Proof.
  set (s := default (exchange0 []) (exec_all [ACall 0; ALock 0; ASend 0; AGiveUp 0; AUnlock 0] (exchange0 [true]))).
  set (s' := default (exchange0 []) (exec_all [AServe EBUSY_code; ACall 0; ALock 0; ASend 0; ARecv 0; AUnlock 0] s)).
  exists s, s'. split; [eapply exec_all_sound, some_default; by vm_compute|].
  split; [by vm_compute|]. split; [by vm_compute|].
  split; [eapply exec_all_sound, some_default|]; by vm_compute.
Qed.
