(* ===== verification/CoProg.v ===== *)
(** Programs that call the system.  A function that blocks, loops for as long as
    the network makes it, and is resumed by others is an interaction tree
    ([itree E R] of the ITree library); [run] evaluates it against a handler that
    answers its calls, for at most [fuel] steps.  [ensures] is partial
    correctness, [returns] total correctness, each with a rule per construct. *)

From S2P Require Import Prelude.
From ITree Require Export ITree.

#[export] Instance itree_ret E : MRet (itree E) := λ A x, Ret x.
#[export] Instance itree_bind E : MBind (itree E) := λ A B f t, ITree.bind t f.

(** [while] of C: [body] says whether to go on ([inl]) or what to return. *)
Definition loop {E A B} (body : A → itree E (A + B)) : A → itree E B := ITree.iter body.

Section Run.
Context {E : Type → Type} {W : Type} (handle : ∀ X, E X → W → X * W).

Fixpoint run {R} (fuel : nat) (t : itree E R) (w : W) : option (R * W) :=
  match fuel with
  | O => None
  | S fuel =>
    match observe t with
    | RetF r => Some (r, w)
    | TauF t => run fuel t w
    | VisF e k => let '(x, w) := handle _ e w in run fuel (k x) w
    end
  end.

(** ** What [run] does with a sequence of programs and with a loop *)

Lemma observe_bind {A B} (t : itree E A) (f : A → itree E B) :
  observe (t ≫= f) =
    match observe t with
    | RetF x => observe (f x)
    | TauF t => TauF (t ≫= f)
    | VisF e k => VisF e (λ x, k x ≫= f)
    end.
Proof.
  change (observe (t ≫= f)) with
    (observe (match observe t with
              | RetF x => f x
              | TauF t => Tau (t ≫= f)
              | VisF e k => Vis e (λ x, k x ≫= f)
              end)).
  by destruct (observe t).
Qed.

Lemma observe_loop {A B} (body : A → itree E (A + B)) i :
  observe (loop body i) =
    observe (body i ≫= λ ab, match ab with inl i => Tau (loop body i) | inr b => Ret b end).
Proof. reflexivity. Qed.

Lemma run_observe {R} (t u : itree E R) : observe t = observe u → ∀ n w, run n t w = run n u w.
Proof. intros He [|n] w; cbn; [done|]. by rewrite He. Qed.

Lemma run_mono {R} n : ∀ m (t : itree E R) w y, run n t w = Some y → (n ≤ m)%nat → run m t w = Some y.
Proof.
  induction n as [|n IH]; [done|]. intros [|m] t w y; [lia|]. cbn. intros Hr Hle.
  destruct (observe t) as [r|u|X e k]; [done|by apply IH; [|lia]|].
  destruct (handle _ e w). apply IH; [done|lia].
Qed.

Lemma run_bind {A B} n : ∀ m (t : itree E A) (f : A → itree E B) w x w1 y,
  run n t w = Some (x, w1) → run m (f x) w1 = Some y → run (n + m) (t ≫= f) w = Some y.
Proof.
  induction n as [|n IH]; [done|]. intros m t f w x w1 y. cbn. rewrite observe_bind.
  destruct (observe t) as [r|u|X e k].
  - intros [= -> ->] Hf. apply (run_mono m (S (n + m))) in Hf; [done|lia].
  - by apply IH.
  - destruct (handle _ e w). by apply IH.
Qed.

Lemma run_bind_inv {A B} n : ∀ (t : itree E A) (f : A → itree E B) w y,
  run n (t ≫= f) w = Some y →
  ∃ x w1 m m', run m t w = Some (x, w1) ∧ run m' (f x) w1 = Some y ∧ (m' ≤ n)%nat.
Proof.
  induction n as [|n IH]; [done|]. intros t f w y. cbn. rewrite observe_bind.
  destruct (observe t) as [r|u|X e k] eqn:Ht.
  - intros Hr. exists r, w, 1%nat, (S n). cbn. by rewrite Ht.
  - intros (x & w1 & m & m' & H1 & H2 & ?)%IH.
    exists x, w1, (S m), m'. cbn. rewrite Ht. auto with lia.
  - destruct (handle _ e w) as [a w0] eqn:Hh. intros (x & w1 & m & m' & H1 & H2 & ?)%IH.
    exists x, w1, (S m), m'. cbn. rewrite Ht, Hh. auto with lia.
Qed.

Lemma run_det {R} n m (t : itree E R) w y z :
  run n t w = Some y → run m t w = Some z → y = z.
Proof.
  intros H1%(run_mono n (n `max` m)); [|lia]. intros H2%(run_mono m (n `max` m)); [|lia].
  congruence.
Qed.

(** ** Partial correctness *)

(** If the program returns, the result satisfies [Q]. *)
Definition ensures {R} (t : itree E R) (w : W) (Q : R → W → Prop) : Prop :=
  ∀ n r w', run n t w = Some (r, w') → Q r w'.

Lemma ensures_ret {R} (r : R) w (Q : R → W → Prop) : Q r w → ensures (mret r) w Q.
Proof. intros HQ [|n] r' w'; cbn; [done|]. by intros [= <- <-]. Qed.

Lemma ensures_trigger {R} (e : E R) w (Q : R → W → Prop) :
  Q (handle _ e w).1 (handle _ e w).2 → ensures (ITree.trigger e) w Q.
Proof.
  intros HQ [|[|n]] r w'; cbn; [done|by destruct (handle _ e w)|].
  destruct (handle _ e w) as [x w1]. by intros [= <- <-].
Qed.

Lemma ensures_bind {A B} (t : itree E A) (f : A → itree E B) w M Q :
  ensures t w M → (∀ x w1, M x w1 → ensures (f x) w1 Q) → ensures (t ≫= f) w Q.
Proof.
  intros Ht Hf n r w' (x & w1 & m & m' & H1 & H2 & _)%run_bind_inv. eapply Hf, H2. by eapply Ht.
Qed.

Lemma ensures_call {A B} (e : E A) (f : A → itree E B) w Q :
  ensures (f (handle _ e w).1) (handle _ e w).2 Q → ensures (ITree.trigger e ≫= f) w Q.
Proof.
  intros Hf. eapply (ensures_bind _ _ _ (λ x w1, x = (handle _ e w).1 ∧ w1 = (handle _ e w).2)).
  - by apply ensures_trigger.
  - by intros x w1 [-> ->].
Qed.

Lemma ensures_weaken {R} (t : itree E R) w (Q Q' : R → W → Prop) :
  ensures t w Q' → (∀ r w', Q' r w' → Q r w') → ensures t w Q.
Proof. intros Ht HQ n r w' Hr. eapply HQ, Ht, Hr. Qed.

(** The rule of the loop: an invariant of what is carried round and the state. *)
Lemma ensures_loop {A B} (I : A → W → Prop) (body : A → itree E (A + B)) (Q : B → W → Prop) :
  (∀ i w, I i w → ensures (body i) w (λ ab w', match ab with inl i' => I i' w' | inr b => Q b w' end)) →
  ∀ i w, I i w → ensures (loop body i) w Q.
Proof.
  intros Hbody i w HI n. revert i w HI. induction n as [n IH] using lt_wf_ind. intros i w HI r w' Hr.
  rewrite (run_observe _ _ (observe_loop body i)) in Hr.
  apply run_bind_inv in Hr as (ab & w1 & m & m' & H1 & H2 & Hm).
  specialize (Hbody i _ HI _ _ _ H1). destruct ab as [i'|b]; destruct m' as [|m']; try done.
  - cbn in H2. eapply IH, H2; [lia|done].
  - cbn in H2. by injection H2 as <- <-.
Qed.

(** ** Total correctness *)

(** The program returns, within [fuel] steps. *)
Definition returns {R} (fuel : nat) (t : itree E R) (w : W) (Q : R → W → Prop) : Prop :=
  ∃ r w', run fuel t w = Some (r, w') ∧ Q r w'.

Lemma returns_ret {R} n (r : R) w (Q : R → W → Prop) : Q r w → returns (S n) (mret r) w Q.
Proof. by exists r, w. Qed.

Lemma returns_trigger {R} n (e : E R) w (Q : R → W → Prop) :
  Q (handle _ e w).1 (handle _ e w).2 → returns (S (S n)) (ITree.trigger e) w Q.
Proof. unfold returns. cbn. destruct (handle _ e w) as [x w']. eauto. Qed.

Lemma returns_bind {A B} n m (t : itree E A) (f : A → itree E B) w M Q :
  returns n t w M → (∀ x w1, M x w1 → returns m (f x) w1 Q) → returns (n + m) (t ≫= f) w Q.
Proof.
  intros (x & w1 & H1 & HM) Hf. destruct (Hf x w1 HM) as (r & w' & H2 & HQ).
  exists r, w'. split; [|done]. by eapply run_bind.
Qed.

Lemma returns_weaken {R} n m (t : itree E R) w (Q Q' : R → W → Prop) :
  returns n t w Q' → (n ≤ m)%nat → (∀ r w', Q' r w' → Q r w') → returns m t w Q.
Proof. intros (r & w' & Hr & HQ) Hle Hw. exists r, w'. eauto using run_mono. Qed.

Lemma returns_le {R} n m (t : itree E R) w (Q : R → W → Prop) :
  returns n t w Q → (n ≤ m)%nat → returns m t w Q.
Proof. intros Ht Hle. by eapply returns_weaken. Qed.

(** A loop whose body takes at most [c] steps and decreases [mes] returns. *)
Lemma returns_loop {A B} (c : nat) (mes : A → W → nat) (I : A → W → Prop)
    (body : A → itree E (A + B)) (Q : B → W → Prop) :
  (∀ i w, I i w → returns c (body i) w (λ ab w',
     match ab with inl i' => I i' w' ∧ (mes i' w' < mes i w)%nat | inr b => Q b w' end)) →
  ∀ N i w, I i w → (mes i w ≤ N)%nat → returns ((c + 1) * S N) (loop body i) w Q.
Proof.
  intros Hbody N. induction N as [N IH] using lt_wf_ind. intros i w HI Hm.
  destruct (Hbody i w HI) as (ab & w1 & H1 & Hab). unfold returns.
  rewrite (run_observe _ _ (observe_loop body i)).
  destruct ab as [i'|b].
  - destruct Hab as [HI' Hlt]. destruct N as [|N]; [lia|].
    destruct (IH N ltac:(lia) i' w1 HI' ltac:(lia)) as (r & w' & H2 & HQ). exists r, w'.
    split; [|done]. replace ((c + 1) * S (S N))%nat with (c + S ((c + 1) * S N))%nat by lia.
    eapply run_bind; [done|]. done.
  - exists b, w1. split; [|done]. replace ((c + 1) * S N)%nat with (c + S ((c + 1) * N))%nat by lia.
    by eapply run_bind.
Qed.

(** Evaluation is deterministic, so total correctness implies partial correctness. *)
Lemma returns_partial {R} n (t : itree E R) w Q : returns n t w Q → ensures t w Q.
Proof. intros (r & w' & Hr & HQ) m r1 w1 Hr1. by injection (run_det _ _ _ _ _ _ Hr Hr1) as <- <-. Qed.

Lemma returns_call {A B} n (e : E A) (f : A → itree E B) w Q :
  returns n (f (handle _ e w).1) (handle _ e w).2 Q → returns (2 + n) (ITree.trigger e ≫= f) w Q.
Proof.
  intros Hf. eapply (returns_bind 2 n _ _ _ (λ x w1, x = (handle _ e w).1 ∧ w1 = (handle _ e w).2)).
  - by apply returns_trigger.
  - by intros x w1 [-> ->].
Qed.

(** A program that returns does what [ensures] says of it. *)
Lemma returns_ensures {R} n (t : itree E R) w Q Q' :
  ensures t w Q → returns n t w Q' → returns n t w (λ r w', Q r w' ∧ Q' r w').
Proof. intros Ht (r & w' & Hr & HQ). exists r, w'. eauto. Qed.

End Run.

(** One call of a program whose steps are counted. *)
Ltac step := first [apply returns_call | apply returns_ret].
