(* ===== verification/CoSocket.v ===== *)
(** Socket input and output of coroutines ([src/cothread/co-scheduler.c], and the
    calls of [src/cothread/co-ssl.c] on top of it): each operation is a loop over
    a non-blocking call that gives the core back to [main] when the kernel says
    [EAGAIN], and is resumed by an event, its deadline, or the closing of the
    socket.  The kernel, the clock and what the other coroutines of the core do in
    the meantime are the class [Kernel]. *)

From S2P Require Import Prelude CoWaiter CoProg.

Open Scope Z_scope.

(** ** What a coroutine sees *)

Definition MSG_DONTWAIT : Z := 64.
Definition MSG_NOSIGNAL : Z := 16384.

(** The timeouts of a [co_socket]; its descriptor is in [world]. *)
Record co_socket := mk_socket { recvtmo : Z; sendtmo : Z }.

(** What happens while a coroutine is in [co_call(current_core->main)]: whether
    the socket is closed by another coroutine, the [revents] its waiters have
    when it is resumed, and the [errno] others leave. *)
Record slept := mk_slept { sl_closed : bool; sl_revents : nat → Z; sl_errno : errno }.

(** System calls return a value and an [errno] that counts if the value is
    negative.  [k_spare]: the core's list of waiters has a free block. *)
Class Kernel (K : Type) := {
  k_now : K → Z;
  k_spare : K → bool;
  k_main : waiters → K → slept * K;
  k_send : Z → bytes → Z → K → Z * errno * K;
  k_recv : Z → nat → Z → K → Z * errno * bytes * K;
  k_accept : Z → K → Z * errno * K;
  k_connect : Z → K → Z * errno * K;
  k_so_error : Z → K → errno * K;
  k_timeout : Z → K → option Z;
  k_epoll_add : Z → Z → K → Z * errno * K;
  k_epoll_remove : Z → K → K;
  k_non_blocking : Z → K → bool * K;
  k_close : Z → K → K;
}.

(** The state an operation on the socket [cc] works on: [cc->e.so], [errno], the
    waiters the coroutine has in its core's list, and those in [cc->e]. *)
Record world (K : Type) := mk_world {
  w_so : Z;
  w_errno : errno;
  w_wait : waiters;
  w_queue : list nat;
  w_kern : K;
}.
Arguments mk_world {K} _ _ _ _ _.
Arguments w_so {K} _.
Arguments w_errno {K} _.
Arguments w_wait {K} _.
Arguments w_queue {K} _.
Arguments w_kern {K} _.

(** The calls the operations make. *)
Variant coE : Type → Type :=
| GetSo : coE Z
| GetErrno : coE errno
| SetErrno (e : errno) : coE unit
| Now : coE Z
| AddWaiter (w : io_waiter) : coE (option nat)
| RemoveWaiter (a : nat) : coE unit
| GetWaiter (a : nat) : coE io_waiter
| SetTmo (a : nat) (t : Z) : coE unit
| EpollQueue (a : nat) : coE unit
| EpollDequeue (a : nat) : coE unit
| EpollAdd (so events : Z) : coE Z
| EpollRemove (so : Z) : coE unit
| CoCall : coE unit
| Send (so : Z) (buf : bytes) (flags : Z) : coE Z
| Recv (so : Z) (n : nat) (flags : Z) : coE (Z * bytes)
| Accept (so : Z) : coE Z
| Connect (so : Z) : coE Z
| GetError (so : Z) : coE errno
| GetTimeout (so : Z) : coE (option Z)
| SetNonBlocking (so : Z) : coE bool
| Close (so : Z) : coE unit.

Abbreviation io := (itree coE).
Abbreviation call := ITree.trigger.

Section Handler.
Context {K : Type} `{Kernel K}.

Definition with_kern (k : K) (w : world K) : world K :=
  mk_world (w_so w) (w_errno w) (w_wait w) (w_queue w) k.
Definition with_errno (e : errno) (w : world K) : world K :=
  mk_world (w_so w) e (w_wait w) (w_queue w) (w_kern w).
Definition with_wait (f : waiters → waiters) (w : world K) : world K :=
  mk_world (w_so w) (w_errno w) (f (w_wait w)) (w_queue w) (w_kern w).
Definition with_queue (f : list nat → list nat) (w : world K) : world K :=
  mk_world (w_so w) (w_errno w) (w_wait w) (f (w_queue w)) (w_kern w).

(** The result of a system call. *)
Definition syscall {R} (x : R) (r : Z) (e : errno) (k : K) (w : world K) : R * world K :=
  (x, with_kern k (if r <? 0 then with_errno e w else w)).

(** What is left of the coroutine's world when [main] calls it back. *)
Definition resumed (w : world K) : world K :=
  let '(s, k) := k_main (w_wait w) (w_kern w) in
  mk_world (if sl_closed s then -1 else w_so w) (sl_errno s)
    (map_imap (λ a wt, Some (set_revents (sl_revents s a) wt)) (w_wait w)) (w_queue w) k.

Definition null_waiter : io_waiter := mk_waiter 0 None None None 0 0 0 0.

Definition set_tmo (t : Z) (w : io_waiter) : io_waiter :=
  mk_waiter t (w_prev w) (w_next w) (co w) (mask w) (events w) (revents w) (flags w).

(** [add_waiter]: [cclist_push_back] of a copy of the waiter. *)
Definition add_waiter (wt : io_waiter) (w : world K) : option nat * world K :=
  if k_spare (w_kern w) then
    let a := fresh (dom (w_wait w)) in
    (Some a, with_wait <[a := set_mask (Z.lor (mask wt) UNMASKED_EVENTS) wt]> w)
  else (None, w).

Definition handle (X : Type) (e : coE X) : world K → X * world K :=
  match e in coE X return world K → X * world K with
  | GetSo => λ w, (w_so w, w)
  | GetErrno => λ w, (w_errno w, w)
  | SetErrno e => λ w, ((), with_errno e w)
  | Now => λ w, (k_now (w_kern w), w)
  | AddWaiter wt => add_waiter wt
  | RemoveWaiter a => λ w, ((), with_wait (delete a) w)
  | GetWaiter a => λ w, (default null_waiter (w_wait w !! a), w)
  | SetTmo a t => λ w, ((), with_wait (alter (set_tmo t) a) w)
  | EpollQueue a => λ w, ((), with_queue (λ l, l ++ [a]) w)
  | EpollDequeue a => λ w, ((), with_queue (filter (λ b, b ≠ a)) w)
  | EpollAdd so ev => λ w, let '(r, e, k) := k_epoll_add so ev (w_kern w) in syscall r r e k w
  | EpollRemove so => λ w, ((), with_kern (k_epoll_remove so (w_kern w)) w)
  | CoCall => λ w, ((), resumed w)
  | Send so buf fl => λ w, let '(r, e, k) := k_send so buf fl (w_kern w) in syscall r r e k w
  | Recv so n fl => λ w, let '(r, e, d, k) := k_recv so n fl (w_kern w) in syscall (r, d) r e k w
  | Accept so => λ w, let '(r, e, k) := k_accept so (w_kern w) in syscall r r e k w
  | Connect so => λ w, let '(r, e, k) := k_connect so (w_kern w) in syscall r r e k w
  | GetError so => λ w, let '(e, k) := k_so_error so (w_kern w) in (e, with_kern k w)
  | GetTimeout so => λ w, (k_timeout so (w_kern w), w)
  | SetNonBlocking so => λ w, let '(b, k) := k_non_blocking so (w_kern w) in (b, with_kern k w)
  | Close so => λ w, ((), with_kern (k_close so (w_kern w)) w)
  end.

End Handler.

(** ** The operations on a [co_socket] *)

Section Socket.
(** [co_current()] *)
Variable me : nat.

(** The time at which a wait of [tmo] milliseconds is over. *)
Definition deadline (tmo : Z) : io Z :=
  if 0 <=? tmo then t ← call Now; mret (t + tmo) else mret (-1).

Definition new_waiter (t mask : Z) : io_waiter := mk_waiter t None None (Some me) mask 0 0 0.

(** The part the operations share: a waiter is added to the core and queued on
    the socket around the [body]; [None] if there is no room for it. *)
Definition waiting {R} (tmo mask : Z) (body : nat → io R) : io (option R) :=
  t ← deadline tmo;
  node ← call (AddWaiter (new_waiter t mask));
  match node with
  | None => mret None
  | Some a =>
    _ ← call (EpollQueue a);
    r ← body a;
    _ ← call (EpollDequeue a);
    _ ← call (RemoveWaiter a);
    mret (Some r)
  end.

Definition fails {R} (e : errno) (r : R) : io R := _ ← call (SetErrno e); mret r.

(** One turn of [while ( sent < (ssize_t) buf_size )]; [cc->sendtmo * 1000] is
    an [int]. *)
Definition send_turn (cc : co_socket) (buf : bytes) (flags : Z) (a : nat) (sent : Z) : io (Z + Z) :=
  if sent <? zlen buf then
    so ← call GetSo;
    size ← call (Send so (drop (Z.to_nat sent) buf) (Z.lor flags (Z.lor MSG_NOSIGNAL MSG_DONTWAIT)));
    if 0 <? size then
      if 0 <=? sendtmo cc then
        t ← call Now;
        _ ← call (SetTmo a (t + i32 (sendtmo cc * 1000)));
        mret (inl (sent + size))
      else mret (inl (sent + size))
    else
      e ← call GetErrno;
      if decide (e = EAGAIN) then
        _ ← call CoCall;
        w ← call (GetWaiter a);
        mret (if has EPOLLOUT (revents w) then inl sent else inr sent)
      else mret (inr size)
  else mret (inr sent).

(** [None] for the buffer and for the socket is [NULL]. *)
Definition co_socket_send (cc : option co_socket) (buf : option bytes) (flags : Z) : io Z :=
  match cc with
  | None => fails EBADF (-1)
  | Some cc =>
    so ← call GetSo;
    if so =? -1 then fails EBADF (-1)
    else
      match buf with
      | None => fails EINVAL (-1)
      | Some pb =>
        r ← waiting (sendtmo cc) EPOLLOUT (λ a, loop (send_turn cc pb flags a) 0);
        mret (default (-1) r)
      end
  end.

(** One turn of the loop of [co_socket_recv]: its condition, then its body.
    [last] is the value of [size] and what is in the buffer. *)
Definition recv_turn (n : nat) (flags : Z) (a : nat) (last : Z * bytes) : io (Z * bytes + Z * bytes) :=
  so ← call GetSo;
  if so =? -1 then mret (inr last)
  else
    '(size, d) ← call (Recv so n (Z.lor flags (Z.lor MSG_DONTWAIT MSG_NOSIGNAL)));
    if size <? 0 then
      e ← call GetErrno;
      if decide (e = EAGAIN) then
        w ← call (GetWaiter a);
        t ← call Now;
        if negb (tmo w =? -1) && (tmo w <=? t) then
          _ ← call (SetErrno ETIME);
          mret (inr (size, d))
        else
          _ ← call CoCall;
          mret (inl (size, d))
      else mret (inr (size, d))
    else mret (inr (size, d)).

(** The [errno] of an empty or aborted read.  [so_get_error] of a socket without
    a pending error is 0, here [EOTHER 0]. *)
Definition recv_errno (size : Z) : io unit :=
  so ← call GetSo;
  if so =? -1 then call (SetErrno ECONNABORTED)
  else if size =? 0 then
    e ← call (GetError so);
    call (SetErrno (if decide (e = EOTHER 0) then ECONNRESET else e))
  else mret ().

(** The value returned and the bytes stored at the start of the buffer, which has
    room for [n]; [has_buf]: the buffer is not [NULL]. *)
Definition co_socket_recv (cc : option co_socket) (has_buf : bool) (n : nat) (flags : Z) : io (Z * bytes) :=
  match cc with
  | None => fails EBADF (-1, [])
  | Some cc =>
    so ← call GetSo;
    if so =? -1 then fails EBADF (-1, [])
    else if negb has_buf then fails EINVAL (-1, [])
    else
      r ← waiting (recvtmo cc) EPOLLIN (λ a, loop (recv_turn n flags a) (0, []));
      match r with
      | None => mret (-1, [])
      | Some (size, d) => _ ← recv_errno size; mret (size, d)
      end
  end.

(** The [do ... while] of [co_socket_connect] after [EINPROGRESS], and what it
    then makes of the events. *)
Definition connect_turn (a : nat) (_ : unit) : io (unit + Z) :=
  _ ← call CoCall;
  w ← call (GetWaiter a);
  t ← call Now;
  mret (if negb (has (Z.lor EPOLLOUT EPOLLERR) (revents w)) && ((tmo w =? -1) || (t <=? tmo w))
        then inl () else inr (revents w)).

Definition connect_status (so : Z) (rev : Z) : io Z :=
  if has EPOLLERR rev then e ← call (GetError so); fails e (-1) else mret 0.

Definition co_socket_connect (cc : bool) (tmo_ms : Z) : io bool :=
  so ← call GetSo;
  if negb cc || (so =? -1) then fails EBADF false
  else
    status ← waiting tmo_ms EPOLLOUT (λ a,
      _ ← call (SetErrno (EOTHER 0));
      status ← call (Connect so);
      e ← call GetErrno;
      if (status =? -1) && bool_decide (e = EINPROGRESS) then
        rev ← loop (connect_turn a) ();
        so ← call GetSo;
        connect_status so rev
      else mret status);
    mret (default (-1) status =? 0).

(** [co_socket_init] of a descriptor: the new socket's, or -1. *)
Definition co_socket_init (so : Z) : io (Z * bool) :=
  if so =? -1 then mret (so, true)
  else
    nb ← call (SetNonBlocking so);
    if (nb : bool) then
      r ← call (EpollAdd so (Z.lor EPOLLIN EPOLLOUT));
      mret (if r =? 0 then (so, true) else (-1, false))
    else mret (-1, false).

Definition accept_turn (a : nat) (_ : unit) : io (unit + Z) :=
  so ← call GetSo;
  r ← call (Accept so);
  e ← call GetErrno;
  if (r =? -1) && bool_decide (e = EAGAIN) then
    w ← call (GetWaiter a);
    t ← call Now;
    if negb (tmo w =? -1) && (tmo w <=? t) then mret (inr r)
    else _ ← call CoCall; mret (inl ())
  else mret (inr r).

(** The descriptor of the accepted socket, -1 if there is none. *)
Definition co_socket_accept (listening : co_socket) : io Z :=
  so ← waiting (recvtmo listening) EPOLLIN (λ a, loop (accept_turn a) ());
  let so := default (-1) so in
  if so =? -1 then mret so
  else
    '(_, ok) ← co_socket_init so;
    if (ok : bool) then mret so else _ ← call (Close so); mret (-1).

(** ** The operations on a plain descriptor *)

(** The waiter is queued alone, on the local [struct iorq e]. *)
Definition co_io_wait (so events msec : Z) : io Z :=
  t ← deadline msec;
  node ← call (AddWaiter (new_waiter t events));
  match node with
  | None => mret EPOLLERR
  | Some a =>
    r ← call (EpollAdd so events);
    rev ← (if r =? 0 then
             _ ← call CoCall;
             w ← call (GetWaiter a);
             _ ← call (EpollRemove so);
             mret (revents w)
           else mret EPOLLERR);
    _ ← call (RemoveWaiter a);
    mret rev
  end.

(** [so_get_send_timeout] and [so_get_recv_timeout]: [tmo] is kept if
    [getsockopt(2)] fails. *)
Definition so_get_timeout (so tmo : Z) : io Z :=
  t ← call (GetTimeout so); mret (default tmo t).

Definition co_send_turn (so : Z) (buf : bytes) (flags : Z) (st : Z * Z) : io (Z * Z + Z) :=
  let '(sent, tmo) := st in
  if sent <? zlen buf then
    size ← call (Send so (drop (Z.to_nat sent) buf) (Z.lor flags MSG_DONTWAIT));
    if 0 <? size then mret (inl (sent + size, tmo))
    else
      e ← call GetErrno;
      if decide (e = EAGAIN) then
        tmo ← so_get_timeout so tmo;
        rev ← co_io_wait so EPOLLOUT (i32 (tmo * 1000));
        mret (if has EPOLLOUT rev then inl (sent, tmo) else inr sent)
      else mret (inr sent)
  else mret (inr sent).

Definition co_send (so : Z) (buf : bytes) (flags : Z) : io Z := loop (co_send_turn so buf flags) (0, 15).

Definition co_recv_turn (so : Z) (n : nat) (flags : Z) (tmo : Z) : io (Z + Z * bytes) :=
  '(size, d) ← call (Recv so n (Z.lor flags MSG_DONTWAIT));
  e ← call GetErrno;
  if (size <? 0) && bool_decide (e = EAGAIN) then
    tmo ← so_get_timeout so tmo;
    rev ← co_io_wait so EPOLLIN (i32 (tmo * 1000));
    mret (if has EPOLLIN rev then inl tmo else inr (size, d))
  else mret (inr (size, d)).

Definition co_recv_errno (so size : Z) : io unit :=
  if size =? 0 then call (SetErrno ECONNRESET)
  else if size <? 0 then e ← call (GetError so); call (SetErrno e)
  else mret ().

Definition co_recv (so : Z) (n : nat) (flags : Z) : io (Z * bytes) :=
  '(size, d) ← loop (co_recv_turn so n flags) 15;
  _ ← co_recv_errno so size;
  mret (size, d).

(** The loops of [co_recv_rqh] and [co_read], which wait without end. *)
Definition co_recv_rqh_turn (so : Z) (n : nat) (flags : Z) (_ : unit) : io (unit + Z * bytes) :=
  '(size, d) ← call (Recv so n flags);
  e ← call GetErrno;
  if (0 <=? size) || negb (bool_decide (e = EAGAIN)) then mret (inr (size, d))
  else
    rev ← co_io_wait so EPOLLIN (-1);
    mret (if has EPOLLIN rev then inl () else inr (size, d)).

Definition co_recv_rqh (so : Z) (n : nat) (flags : Z) : io (Z * bytes) :=
  '(size, d) ← loop (co_recv_rqh_turn so n (Z.lor flags MSG_DONTWAIT)) ();
  _ ← co_recv_errno so size;
  mret (size, d).

(** [read(2)] and [write(2)] on a socket are [recv(2)] and [send(2)] without flags. *)
Definition co_read (fd : Z) (n : nat) : io (Z * bytes) := loop (co_recv_rqh_turn fd n 0) ().

Definition co_write_turn (fd : Z) (buf : bytes) (sent : Z) : io (Z + Z) :=
  if sent <? zlen buf then
    size ← call (Send fd (drop (Z.to_nat sent) buf) 0);
    if 0 <? size then mret (inl (sent + size))
    else
      e ← call GetErrno;
      if decide (e = EAGAIN) then _ ← co_io_wait fd EPOLLOUT (-1); mret (inl sent)
      else mret (inr sent)
  else mret (inr sent).

Definition co_write (fd : Z) (buf : bytes) : io Z := loop (co_write_turn fd buf) 0.

Definition co_connect_turn (so : Z) (_ : unit) : io (unit + Z) :=
  rev ← co_io_wait so EPOLLOUT (-1);
  mret (if has (Z.lor EPOLLOUT EPOLLERR) rev then inr rev else inl ()).

Definition co_connect (so : Z) : io Z :=
  _ ← call (SetErrno (EOTHER 0));
  status ← call (Connect so);
  e ← call GetErrno;
  if (status =? -1) && bool_decide (e = EINPROGRESS) then
    rev ← loop (co_connect_turn so) ();
    connect_status so rev
  else mret status.

Definition co_accept_turn (sso : Z) (_ : unit) : io (unit + Z) :=
  so ← call (Accept sso);
  e ← call GetErrno;
  if (so =? -1) && bool_decide (e = EAGAIN) then _ ← co_io_wait sso EPOLLIN (-1); mret (inl ())
  else mret (inr so).

Definition co_accept (sso : Z) : io Z :=
  so ← loop (co_accept_turn sso) ();
  if so =? -1 then mret so else _ ← call (SetNonBlocking so); mret so.

End Socket.

(** ** The waiters of an operation *)

Section Waiters.
Context {K : Type} `{Kernel K}.
Implicit Types (w : world K).

Abbreviation ensures := (ensures handle).
Abbreviation returns := (returns handle).

(** The waiters of the coroutine, by address, and the queue of the socket. *)
Definition regs w : gset nat * list nat := (dom (w_wait w), w_queue w).
Definition regs_ok w : Prop := ∀ a, a ∈ w_queue w → a ∈ dom (w_wait w).

Lemma regs_resumed w : regs (resumed w) = regs w.
Proof.
  unfold regs, resumed. destruct (k_main _ _) as [s k]. cbn. f_equal.
  apply set_eq. intros a. rewrite !elem_of_dom, map_lookup_imap. by destruct (w_wait w !! a).
Qed.

Lemma regs_set_tmo a t w : regs (with_wait (alter (set_tmo t) a) w) = regs w.
Proof. unfold regs, with_wait. cbn. f_equal. apply dom_alter_L. Qed.

Lemma syscall_ok {R} (x : R) r e (k : K) w : 0 <= r → (syscall x r e k w).2 = with_kern k w.
Proof. intros Hr. unfold syscall. cbn. by rewrite (proj2 (Z.ltb_ge r 0)). Qed.

Lemma w_kern_syscall {R} (x : R) r e (k : K) w : w_kern (syscall x r e k w).2 = k.
Proof. unfold syscall. cbn. by destruct (r <? 0). Qed.
Lemma regs_syscall {R} (x : R) r e (k : K) w : regs (syscall x r e k w).2 = regs w.
Proof. unfold syscall. cbn. by destruct (r <? 0). Qed.
Lemma w_kern_resumed w : w_kern (resumed w) = (k_main (w_wait w) (w_kern w)).2.
Proof. unfold resumed. by destruct (k_main _ _). Qed.

(** What the body of [waiting] starts from: its waiter [a] is registered. *)
Definition queued (a : nat) (wt : io_waiter) w : world K :=
  with_queue (λ l, l ++ [a]) (with_wait <[a := set_mask (Z.lor (mask wt) UNMASKED_EVENTS) wt]> w).
Definition dequeued (a : nat) w : world K :=
  with_wait (delete a) (with_queue (filter (λ b, b ≠ a)) w).

Lemma dequeued_queued a wt w w' :
  regs_ok w → a ∉ dom (w_wait w) → regs w' = regs (queued a wt w) → regs (dequeued a w') = regs w.
Proof.
  intros Hok Ha. unfold regs, dequeued, queued. cbn. intros [= Hd Hq]. f_equal.
  - rewrite dom_delete_L, Hd, dom_insert_L. set_solver.
  - rewrite Hq, filter_app, filter_cons_False by naive_solver. cbn. rewrite app_nil_r.
    apply filter_absent. intros Hq'. by apply Ha, Hok.
Qed.

(** The time given to a waiter. *)
Definition deadline_at (tmo : Z) (k : K) : Z := if 0 <=? tmo then k_now k + tmo else -1.

Lemma deadline_returns tmo w : returns 3 (deadline tmo) w (λ t w', t = deadline_at tmo (w_kern w) ∧ w' = w).
Proof. unfold deadline, deadline_at. destruct (0 <=? tmo); repeat step; done. Qed.

Lemma fails_returns {R} e (r : R) w Q : Q r (with_errno e w) → returns 3 (fails e r) w Q.
Proof. intros HQ. unfold fails. by repeat step. Qed.

Section Bracket.
Variables (me : nat) (tmo mask : Z) (R : Type) (body : nat → io R) (w : world K).
Variable Q : R → Z → errno → K → Prop.

Definition body_post (a : nat) (r : R) (w1 : world K) : Prop :=
  regs w1 = regs (queued a (new_waiter me (deadline_at tmo (w_kern w)) mask) w) ∧
  Q r (w_so w1) (w_errno w1) (w_kern w1).
Definition waiting_post (r : option R) (w' : world K) : Prop :=
  (regs_ok w → regs w' = regs w) ∧
  match r with Some r => Q r (w_so w') (w_errno w') (w_kern w') | None => w' = w end.

Lemma waiting_ensures :
  (∀ a, a ∉ dom (w_wait w) →
     ensures (body a) (queued a (new_waiter me (deadline_at tmo (w_kern w)) mask) w) (body_post a)) →
  ensures (waiting me tmo mask body) w waiting_post.
Proof.
  intros Hbody. eapply ensures_bind; [eapply returns_partial, deadline_returns|].
  intros t ? [-> ->]. apply ensures_call. cbn [handle]. unfold add_waiter.
  destruct (k_spare _); cbn [fst snd]; [|by apply ensures_ret].
  set (a := fresh _). assert (a ∉ dom (w_wait w)) as Ha by apply is_fresh.
  apply ensures_call. cbn [handle fst snd].
  eapply ensures_bind; [by apply Hbody|]. intros r w1 [Hr HQ].
  do 2 (apply ensures_call; cbn [handle fst snd]). apply ensures_ret. split; [|done].
  intros Hok. by eapply dequeued_queued.
Qed.

Lemma waiting_returns n :
  (∀ a, a ∉ dom (w_wait w) →
     returns n (body a) (queued a (new_waiter me (deadline_at tmo (w_kern w)) mask) w) (body_post a)) →
  returns (13 + n) (waiting me tmo mask body) w waiting_post.
Proof.
  intros Hbody. eapply (returns_weaken _ (3 + (2 + (2 + (n + 5))))); [|lia|done].
  eapply returns_bind; [apply deadline_returns|].
  intros t ? [-> ->]. apply returns_call. cbn [handle]. unfold add_waiter.
  destruct (k_spare _); cbn [fst snd]; [|by apply returns_ret].
  set (a := fresh _). assert (a ∉ dom (w_wait w)) as Ha by apply is_fresh.
  apply returns_call. cbn [handle fst snd].
  eapply returns_bind; [by apply Hbody|]. intros r w1 [Hr HQ].
  repeat step. split; [|done]. intros Hok. by eapply dequeued_queued.
Qed.

End Bracket.

End Waiters.

(** ** What the operations rely on *)

(** [send(2)] takes a part of the buffer, in order, or fails; while the coroutine
    sleeps nobody else sends on the socket. *)
Class SendLaws (K : Type) `{Kernel K} (outgoing : K → bytes) : Prop := {
  send_takes : ∀ so buf fl k, buf ≠ [] →
    let '(r, _, k') := k_send so buf fl k in
    r ≠ 0 ∧ r <= zlen buf ∧ outgoing k' = outgoing k ++ take (Z.to_nat r) buf;
  main_keeps_outgoing : ∀ ws k, outgoing (k_main ws k).2 = outgoing k;
}.

(** [recv(2)] stores as many bytes as it says, and they fit; [received] is all it
    has delivered so far, and while the coroutine sleeps nobody else receives. *)
Class RecvLaws (K : Type) `{Kernel K} (received : K → bytes) : Prop := {
  recv_stores : ∀ so n fl k, let '(r, _, d, k') := k_recv so n fl k in
    zlen d = Z.max 0 r ∧ (length d ≤ n)%nat ∧ received k' = received k ++ d;
  main_keeps_received : ∀ ws k, received (k_main ws k).2 = received k;
  so_error_keeps_received : ∀ so k, received (k_so_error so k).2 = received k;
}.

(** A coroutine that waits for the one waiter [wt] until [tmo wt] is resumed by an
    event, of which there are only so many ([pending]), or at that time (see
    [CoWaiter.walk_waiters_list_picks]); the clock does not go back. *)
Class Timely (K : Type) `{Kernel K} := {
  pending : K → nat;
  main_wakes : ∀ a wt k, 0 < tmo wt →
    let '(s, k') := k_main {[a := wt]} k in
    k_now k <= k_now k' ∧ (pending k' ≤ pending k)%nat ∧
    ((pending k' < pending k)%nat ∨ (tmo wt <= k_now k' ∧ has (mask wt) (sl_revents s a) = false));
  send_now : ∀ so buf fl k, let k' := (k_send so buf fl k).2 in
    k_now k <= k_now k' ∧ (pending k' ≤ pending k)%nat;
  recv_now : ∀ so n fl k, let k' := (k_recv so n fl k).2 in
    k_now k <= k_now k' ∧ (pending k' ≤ pending k)%nat;
}.

Lemma has_or a b x : has (Z.lor a b) x = has a x || has b x.
Proof. unfold has. rewrite !(Z.land_comm x). apply has_lor. Qed.

Section Alone.
Context {K : Type} `{Kernel K}.
Implicit Types (w : world K).

Definition tmo_of (a : nat) w : Z := tmo (default null_waiter (w_wait w !! a)).

(** The coroutine waits for one thing only, with a deadline. *)
Definition waits_alone (a : nat) (m : Z) w : Prop :=
  ∃ wt, w_wait w = {[a := wt]} ∧ 0 < tmo wt ∧ mask wt = m ∧ 0 < k_now (w_kern w).

Lemma waits_alone_kern a m k w :
  waits_alone a m w → k_now (w_kern w) <= k_now k → waits_alone a m (with_kern k w).
Proof. intros (wt & ? & ? & ? & ?) ?. exists wt. cbn. auto with lia. Qed.

Lemma waits_alone_syscall {R} (x : R) r e a m k w :
  waits_alone a m w → k_now (w_kern w) <= k_now k → waits_alone a m (syscall x r e k w).2.
Proof.
  intros Hw Hk. unfold syscall. cbn. destruct (r <? 0); by apply waits_alone_kern.
Qed.

(** What a coroutine that waits alone is resumed for. *)
Lemma resumed_alone `{!Timely K} a m w :
  waits_alone a m w →
  let w' := resumed w in
  let rev := revents (default null_waiter (w_wait w' !! a)) in
  waits_alone a m w' ∧ tmo_of a w' = tmo_of a w ∧
  (pending (w_kern w') ≤ pending (w_kern w))%nat ∧
  ((pending (w_kern w') < pending (w_kern w))%nat ∨
   (tmo_of a w <= k_now (w_kern w') ∧ has m rev = false)).
Proof.
  intros (wt & Hw & Ht & Hm & Hn). cbn zeta. pose proof (main_wakes a wt (w_kern w) Ht) as Hwk.
  unfold resumed, tmo_of. rewrite Hw. destruct (k_main _ _) as [s k]. destruct Hwk as (Hnow & Hp & Hc).
  cbn [w_wait w_kern].
  assert (map_imap (λ b wb, Some (set_revents (sl_revents s b) wb)) {[a := wt]} =
          {[a := set_revents (sl_revents s a) wt]} :> waiters) as ->.
  { apply map_eq. intros b. rewrite map_lookup_imap, !lookup_singleton. by case_decide; subst. }
  rewrite !lookup_singleton_eq. cbn. rewrite <-Hm. split; [|auto].
  eexists. split; [done|]. cbn. auto with lia.
Qed.

End Alone.

(** ** Sending *)

Section Sending.
Context {K : Type} `{Kernel K}.
Implicit Types (w : world K).
Variables (me : nat) (cc : co_socket) (buf : bytes) (flags : Z).

Abbreviation ensures := (ensures handle).
Abbreviation returns := (returns handle).

Definition rest (sent : Z) : bytes := drop (Z.to_nat sent) buf.
Definition send_now_at (sent : Z) w : Z * errno * K :=
  k_send (w_so w) (rest sent) (Z.lor flags (Z.lor MSG_NOSIGNAL MSG_DONTWAIT)) (w_kern w).

Definition restart (a : nat) w : world K :=
  if 0 <=? sendtmo cc then
    with_wait (alter (set_tmo (k_now (w_kern w) + i32 (sendtmo cc * 1000))) a) w
  else w.

(** The cases of one turn: all is sent, something was, nothing could be and the
    coroutine slept, the call failed. *)
Inductive send_step (a : nat) (sent : Z) w : Z + Z → world K → Prop :=
| send_all : zlen buf <= sent → send_step a sent w (inr sent) w
| send_some r e k :
    sent < zlen buf → send_now_at sent w = (r, e, k) → 0 < r →
    send_step a sent w (inl (sent + r)) (restart a (with_kern k w))
| send_sleeps r e k w1 :
    sent < zlen buf → send_now_at sent w = (r, e, k) → r <= 0 →
    w1 = (syscall r r e k w).2 → w_errno w1 = EAGAIN →
    let w2 := resumed w1 in
    send_step a sent w
      (if has EPOLLOUT (revents (default null_waiter (w_wait w2 !! a))) then inl sent else inr sent) w2
| send_fails r e k :
    sent < zlen buf → send_now_at sent w = (r, e, k) → r <= 0 →
    w_errno (syscall r r e k w).2 ≠ EAGAIN →
    send_step a sent w (inr r) (syscall r r e k w).2.

Lemma send_turn_steps a sent w :
  returns 14 (send_turn cc buf flags a sent) w (send_step a sent w).
Proof.
  unfold send_turn. destruct (Z.ltb_spec sent (zlen buf)) as [Hlt|Hge].
  2: { apply returns_ret. by apply send_all. }
  apply returns_call. cbn [handle fst snd]. apply returns_call. cbn [handle].
  fold (rest sent). fold (send_now_at sent w). destruct (send_now_at sent w) as [[r e] k] eqn:Hs.
  change (syscall r r e k w).1 with r. destruct (Z.ltb_spec 0 r) as [Hr|Hr].
  - rewrite syscall_ok by lia. pose proof (send_some a _ _ _ _ _ Hlt Hs Hr) as Hstep.
    unfold restart in Hstep. destruct (0 <=? sendtmo cc); [|by apply returns_ret].
    repeat step. exact Hstep.
  - apply returns_call. cbn [handle fst snd]. case_decide as He.
    + apply returns_call. cbn [handle fst snd]. apply returns_call. cbn [handle fst snd].
      apply returns_ret. by eapply send_sleeps.
    + apply returns_ret. by eapply send_fails.
Qed.

(** The messages of a turn, whatever the kernel does. *)
Lemma send_step_regs a sent w x w' : send_step a sent w x w' → regs w' = regs w.
Proof.
  destruct 1 as [|? ? ? ? ?|? ? ? ? ? ? ? -> ?|]; [done| | |by apply regs_syscall].
  - unfold restart. destruct (0 <=? sendtmo cc); [|done]. by rewrite regs_set_tmo.
  - rewrite <-(regs_syscall r r e k w). apply regs_resumed.
Qed.

Lemma w_kern_restart a w : w_kern (restart a w) = w_kern w.
Proof. unfold restart. by destruct (0 <=? sendtmo cc). Qed.

Section Outgoing.
Context (outgoing : K → bytes) {HL : SendLaws K outgoing}.

Lemma send_now_takes sent w r e k :
  0 <= sent < zlen buf → send_now_at sent w = (r, e, k) →
  r ≠ 0 ∧ r <= zlen buf - sent ∧ outgoing k = outgoing (w_kern w) ++ take (Z.to_nat r) (rest sent).
Proof.
  intros Hs Hk. pose proof (send_takes (w_so w) (rest sent)
    (Z.lor flags (Z.lor MSG_NOSIGNAL MSG_DONTWAIT)) (w_kern w)) as Hl.
  assert (zlen (rest sent) = zlen buf - sent) as Hlen by (unfold rest; rewrite length_drop; lia).
  unfold send_now_at in Hk. rewrite Hk, Hlen in Hl. apply Hl.
  intros Hnil. rewrite Hnil in Hlen. cbn in Hlen. lia.
Qed.

(** What has been sent after some turns. *)
Definition sent_upto (out0 : bytes) (n : Z) w : Prop :=
  0 <= n <= zlen buf ∧ outgoing (w_kern w) = out0 ++ take (Z.to_nat n) buf.

Lemma sent_upto_resumed out0 n w : sent_upto out0 n w → sent_upto out0 n (resumed w).
Proof. unfold sent_upto. by rewrite w_kern_resumed, main_keeps_outgoing. Qed.

Lemma send_step_outgoing out0 a sent w x w' :
  sent_upto out0 sent w → send_step a sent w x w' →
  match x with
  | inl s => sent_upto out0 s w'
  | inr r => ∃ n, sent_upto out0 n w' ∧ (r = n ∨ r < 0)
  end.
Proof.
  intros Hs Hstep. pose proof Hs as [Hn Ho].
  assert (∀ r e k, sent < zlen buf → send_now_at sent w = (r, e, k) → r <= 0 →
    r < 0 ∧ sent_upto out0 sent (syscall r r e k w).2) as Hnone.
  { intros r e k Hlt Hk Hr. destruct (send_now_takes sent w r e k) as (Hr0 & _ & Hk'); [lia|done|].
    split; [lia|]. split; [lia|]. rewrite w_kern_syscall, Hk', Z2Nat.nonpos, take_0 by lia.
    by rewrite app_nil_r. }
  destruct Hstep as [Hge|r e k Hlt Hk Hr|r e k w1 Hlt Hk Hr -> He w2|r e k Hlt Hk Hr He].
  - exists sent. auto.
  - destruct (send_now_takes sent w r e k) as (Hr0 & Hle & Hk'); [lia|done|].
    split; [lia|]. rewrite w_kern_restart. cbn. rewrite Hk', Ho, <-(assoc_L (++)). f_equal.
    unfold rest. by rewrite Z2Nat.inj_add, take_take_drop by lia.
  - apply Hnone in Hk as [_ Hk%sent_upto_resumed]; [|done|done].
    destruct (has _ _); [done|]. exists sent. auto.
  - apply Hnone in Hk as [Hr' Hk]; [|done|done]. exists sent. auto.
Qed.

Lemma send_loop_ensures out0 a w :
  sent_upto out0 0 w →
  ensures (loop (send_turn cc buf flags a) 0) w (λ r w',
    regs w' = regs w ∧ ∃ n, sent_upto out0 n w' ∧ (r = n ∨ r < 0)).
Proof.
  intros Hw. apply (ensures_loop _ (λ s w', regs w' = regs w ∧ sent_upto out0 s w')); [|done].
  intros s w1 [Hr1 Hs1]. eapply ensures_weaken; [eapply returns_partial, send_turn_steps|].
  intros x w2 Hstep. pose proof (send_step_regs _ _ _ _ _ Hstep) as Hr2.
  pose proof (send_step_outgoing _ _ _ _ _ _ Hs1 Hstep) as Ho.
  destruct x; (split; [congruence|done]).
Qed.

End Outgoing.

(** With a timeout the loop returns. *)
Section Bounded.
Context (outgoing : K → bytes) {HL : SendLaws K outgoing} {HT : Timely K}.
Hypothesis Htmo : 0 <= sendtmo cc <= 2147483.

Definition send_inv (a : nat) (s : Z) w : Prop :=
  0 <= s <= zlen buf ∧ waits_alone a (Z.lor EPOLLOUT UNMASKED_EVENTS) w.
Definition send_left (s : Z) w : nat := Z.to_nat (zlen buf - s) + pending (w_kern w).

Lemma restart_alone a m w : waits_alone a m w → waits_alone a m (restart a w).
Proof.
  intros (wt & Hw & Ht & Hm & Hn). unfold restart.
  rewrite (proj2 (Z.leb_le 0 _)) by lia. rewrite swrap_id by (unfold is_sint; cbn; lia).
  eexists. cbn. rewrite Hw, alter_singleton_eq. split; [done|]. cbn. split; [lia|done].
Qed.

Lemma send_step_decreases a s w x w' :
  send_inv a s w → send_step a s w x w' →
  match x with inl s' => send_inv a s' w' ∧ (send_left s' w' < send_left s w)%nat | inr _ => True end.
Proof.
  intros [Hs Hw] Hstep. unfold send_left.
  destruct Hstep as [Hge|r e k Hlt Hk Hr|r e k w1 Hlt Hk Hr -> He w2|r e k Hlt Hk Hr He]; try done.
  all: pose proof (send_now (w_so w) (rest s) (Z.lor flags (Z.lor MSG_NOSIGNAL MSG_DONTWAIT)) (w_kern w)) as Hp.
  all: fold (send_now_at s w) in Hp; rewrite Hk in Hp; cbn in Hp.
  - destruct (send_now_takes outgoing s w r e k) as (_ & Hle & _); [lia|done|].
    split.
    + split; [lia|]. apply restart_alone, waits_alone_kern; [done|apply Hp].
    + rewrite w_kern_restart. cbn. lia.
  - destruct (has EPOLLOUT _) eqn:Hev; [|done].
    assert (waits_alone a (Z.lor EPOLLOUT UNMASKED_EVENTS) (syscall r r e k w).2) as Hw1
      by (eapply waits_alone_syscall; [done|lia]).
    apply resumed_alone in Hw1 as (Hw2 & _ & Hle & Hcase). subst w2.
    rewrite w_kern_syscall in *. split; [done|].
    destruct Hcase as [?|[_ Hno]]; [lia|]. rewrite has_or in Hno.
    apply orb_false_iff in Hno as [Hno _]. congruence.
Qed.

Lemma send_loop_returns a w :
  send_inv a 0 w →
  returns (15 * S (length buf + pending (w_kern w))) (loop (send_turn cc buf flags a) 0) w
    (λ _ w', regs w' = regs w).
Proof.
  intros Hw. eapply (returns_loop _ 14 send_left (λ s w', regs w' = regs w ∧ send_inv a s w'));
    [|done|unfold send_left; lia].
  intros s w1 [Hr1 Hw1]. eapply returns_weaken; [apply send_turn_steps|done|].
  intros x w2 Hstep. pose proof (send_step_regs _ _ _ _ _ Hstep).
  eapply send_step_decreases in Hstep; [|done]. destruct x; [|congruence].
  split_and!; [congruence|apply Hstep..].
Qed.

End Bounded.

End Sending.

(** ** Receiving *)

Section Receiving.
Context {K : Type} `{Kernel K}.
Implicit Types (w : world K).
Variables (me : nat) (cc : co_socket) (n : nat) (flags : Z).

Abbreviation ensures := (ensures handle).
Abbreviation returns := (returns handle).

Definition recv_now_at w : Z * errno * bytes * K :=
  k_recv (w_so w) n (Z.lor flags (Z.lor MSG_DONTWAIT MSG_NOSIGNAL)) (w_kern w).
(** The cases of one turn: the socket was closed, the kernel answered, it is too
    late, the coroutine slept. *)
Inductive recv_step (a : nat) (last : Z * bytes) w : Z * bytes + Z * bytes → world K → Prop :=
| recv_closed : w_so w = -1 → recv_step a last w (inr last) w
| recv_answer r e d k w1 :
    w_so w ≠ -1 → recv_now_at w = (r, e, d, k) → w1 = (syscall (r, d) r e k w).2 →
    0 <= r ∨ w_errno w1 ≠ EAGAIN → recv_step a last w (inr (r, d)) w1
| recv_late r e d k w1 :
    w_so w ≠ -1 → recv_now_at w = (r, e, d, k) → w1 = (syscall (r, d) r e k w).2 →
    r < 0 → tmo_of a w ≠ -1 → tmo_of a w <= k_now k →
    recv_step a last w (inr (r, d)) (with_errno ETIME w1)
| recv_sleeps r e d k w1 :
    w_so w ≠ -1 → recv_now_at w = (r, e, d, k) → w1 = (syscall (r, d) r e k w).2 →
    r < 0 → tmo_of a w = -1 ∨ k_now k < tmo_of a w →
    recv_step a last w (inl (r, d)) (resumed w1).

Lemma w_wait_syscall {R} (x : R) r e (k : K) w : w_wait (syscall x r e k w).2 = w_wait w.
Proof. unfold syscall. cbn. by destruct (r <? 0). Qed.

Lemma recv_turn_steps a last w : returns 16 (recv_turn n flags a last) w (recv_step a last w).
Proof.
  unfold recv_turn. apply returns_call. cbn [handle fst snd].
  destruct (Z.eqb_spec (w_so w) (-1)) as [Hso|Hso]; [by apply returns_ret, recv_closed|].
  apply returns_call. cbn [handle]. fold (recv_now_at w).
  destruct (recv_now_at w) as [[[r e] d] k] eqn:Hk. change (syscall (r, d) r e k w).1 with (r, d).
  cbn iota beta. destruct (Z.ltb_spec r 0) as [Hr|Hr].
  2: { apply returns_ret. eapply recv_answer; eauto. }
  apply returns_call. cbn [handle fst snd]. case_decide as He.
  2: { apply returns_ret. eapply recv_answer; eauto. }
  apply returns_call. cbn [handle fst snd]. apply returns_call. cbn [handle fst snd].
  rewrite w_kern_syscall, w_wait_syscall. fold (tmo_of a w).
  destruct (Z.eqb_spec (tmo_of a w) (-1)) as [Ht|Ht]; cbn [negb andb].
  - repeat step. eapply recv_sleeps; eauto.
  - destruct (Z.leb_spec (tmo_of a w) (k_now k)); repeat step;
      [eapply recv_late|eapply recv_sleeps]; eauto.
Qed.

Lemma recv_step_regs a last w x w' : recv_step a last w x w' → regs w' = regs w.
Proof.
  destruct 1 as [|r e d k w1 ?? ->|r e d k w1 ?? ->|r e d k w1 ?? ->]; [done| | |].
  - apply regs_syscall.
  - apply (regs_syscall (r, d) r e k).
  - rewrite regs_resumed. apply regs_syscall.
Qed.

Section Received.
Context (received : K → bytes) {HL : RecvLaws K received}.

Lemma recv_now_stores w r e d k :
  recv_now_at w = (r, e, d, k) →
  zlen d = Z.max 0 r ∧ (length d ≤ n)%nat ∧ received k = received (w_kern w) ++ d.
Proof.
  intros Hk. unfold recv_now_at in Hk.
  pose proof (recv_stores (w_so w) n (Z.lor flags (Z.lor MSG_DONTWAIT MSG_NOSIGNAL)) (w_kern w)) as Hl.
  by rewrite Hk in Hl.
Qed.

(** Between two turns nothing has been received. *)
Definition nothing_yet (rcv0 : bytes) (last : Z * bytes) w : Prop :=
  received (w_kern w) = rcv0 ∧ last.2 = [] ∧ (last.1 < 0 ∨ w_so w ≠ -1).

(** What the loop leaves: the value it returns, the bytes, the [errno]. *)
Definition recv_result (rcv0 : bytes) (x : Z * bytes) w : Prop :=
  zlen x.2 = Z.max 0 x.1 ∧ (length x.2 ≤ n)%nat ∧ received (w_kern w) = rcv0 ++ x.2 ∧
  (w_so w = -1 → x.1 < 0) ∧ (x.1 < 0 → w_so w = -1 ∨ w_errno w ≠ EAGAIN).

Lemma recv_step_received rcv0 a last w x w' :
  nothing_yet rcv0 last w → recv_step a last w x w' →
  match x with inl last' => nothing_yet rcv0 last' w' | inr y => recv_result rcv0 y w' end.
Proof.
  intros (Hrcv & Hd & Hl) Hstep. unfold nothing_yet, recv_result.
  destruct Hstep as [Hso|r e d k w1 Hso Hk -> He|r e d k w1 Hso Hk -> Hr Ht Hn|r e d k w1 Hso Hk -> Hr Ht].
  - destruct last as [r d]. cbn in *. subst d. destruct Hl; [|done].
    rewrite app_nil_r. cbn. split_and!; auto with lia.
  - apply recv_now_stores in Hk as (Hz & Hle & Hrc). rewrite w_kern_syscall. cbn.
    rewrite Hrc, Hrcv. split_and!; [done|done|done| |].
    + unfold syscall. cbn. by destruct (r <? 0).
    + intros ?. right. by destruct He; [lia|].
  - apply recv_now_stores in Hk as (Hz & Hle & Hrc). unfold with_errno. cbn [w_kern w_so w_errno].
    rewrite w_kern_syscall. cbn. rewrite Hrc, Hrcv. split_and!; auto.
  - apply recv_now_stores in Hk as (Hz & Hle & Hrc). rewrite w_kern_resumed, main_keeps_received.
    rewrite w_kern_syscall. cbn. assert (d = []) as -> by (apply length_zero_iff_nil; lia).
    rewrite Hrc, Hrcv, app_nil_r. auto.
Qed.

Lemma recv_loop_ensures rcv0 a w :
  nothing_yet rcv0 (0, []) w →
  ensures (loop (recv_turn n flags a) (0, [])) w (λ x w', regs w' = regs w ∧ recv_result rcv0 x w').
Proof.
  intros Hw. apply (ensures_loop _ (λ last w', regs w' = regs w ∧ nothing_yet rcv0 last w')); [|done].
  intros last w1 [Hr1 Hn1]. eapply ensures_weaken; [eapply returns_partial, recv_turn_steps|].
  intros x w2 Hstep. pose proof (recv_step_regs _ _ _ _ _ Hstep) as Hr2.
  pose proof (recv_step_received _ _ _ _ _ _ Hn1 Hstep) as Ho.
  destruct x; (split; [congruence|done]).
Qed.

End Received.

(** With a timeout the loop returns. *)
Section Bounded.
Context {HT : Timely K}.

Definition recv_left (a : nat) (_ : Z * bytes) w : nat :=
  2 * pending (w_kern w) + (if tmo_of a w <=? k_now (w_kern w) then 0 else 1).

Lemma recv_step_decreases a last w x w' :
  waits_alone a (Z.lor EPOLLIN UNMASKED_EVENTS) w → recv_step a last w x w' →
  match x with
  | inl last' => waits_alone a (Z.lor EPOLLIN UNMASKED_EVENTS) w' ∧
                 (recv_left a last' w' < recv_left a last w)%nat
  | inr _ => True
  end.
Proof.
  intros Hw Hstep.
  destruct Hstep as [Hso|r e d k w1 Hso Hk -> He|r e d k w1 Hso Hk -> Hr Ht Hn|r e d k w1 Hso Hk -> Hr Ht];
    try done.
  pose proof (recv_now (w_so w) n (Z.lor flags (Z.lor MSG_DONTWAIT MSG_NOSIGNAL)) (w_kern w)) as Hp.
  fold (recv_now_at w) in Hp. rewrite Hk in Hp. cbn in Hp. destruct Hp as [Hnow Hp].
  assert (0 < tmo_of a w) as Htmo.
  { destruct Hw as (wt & Hw & ? & _). unfold tmo_of. rewrite Hw, lookup_singleton_eq. done. }
  apply (waits_alone_syscall (r, d) r e _ _ k) in Hw; [|done].
  apply resumed_alone in Hw as (Hw' & Htmo' & Hle & Hcase). split; [done|].
  assert (tmo_of a (syscall (r, d) r e k w).2 = tmo_of a w) as Heq
    by (unfold tmo_of; by rewrite w_wait_syscall).
  unfold recv_left. rewrite w_kern_syscall, Heq in *. rewrite Htmo'.
  destruct (Z.leb_spec (tmo_of a w) (k_now (w_kern w))); [lia|].
  destruct (Z.leb_spec (tmo_of a w) (k_now (w_kern (resumed (syscall (r, d) r e k w).2)))); lia.
Qed.

Lemma recv_loop_returns a w :
  waits_alone a (Z.lor EPOLLIN UNMASKED_EVENTS) w →
  returns (17 * S (2 * pending (w_kern w) + 1)) (loop (recv_turn n flags a) (0, [])) w
    (λ _ w', regs w' = regs w).
Proof.
  intros Hw. eapply (returns_loop _ 16 (recv_left a)
      (λ _ w', regs w' = regs w ∧ waits_alone a (Z.lor EPOLLIN UNMASKED_EVENTS) w'));
    [|done|unfold recv_left; destruct (_ <=? _); lia].
  intros last w1 [Hr1 Hw1]. eapply returns_weaken; [apply recv_turn_steps|done|].
  intros x w2 Hstep. pose proof (recv_step_regs _ _ _ _ _ Hstep).
  eapply recv_step_decreases in Hstep; [|done]. destruct x; [|congruence].
  split_and!; [congruence|apply Hstep..].
Qed.

End Bounded.

End Receiving.

(** ** The operations as a whole *)

Section Operations.
Context {K : Type} `{Kernel K}.
Implicit Types (w : world K).
Variable me : nat.

Abbreviation ensures := (ensures handle).
Abbreviation returns := (returns handle).

(** The waiter of an operation that starts with no other. *)
Lemma queued_alone a t m w :
  w_wait w = ∅ → 0 < t → 0 < k_now (w_kern w) →
  waits_alone a (Z.lor m UNMASKED_EVENTS) (queued a (new_waiter me t m) w).
Proof. intros Hw Ht Hn. eexists. cbn. by rewrite Hw. Qed.

Lemma deadline_at_pos t (k : K) : 0 <= t → 0 < k_now k → 0 < deadline_at t k.
Proof. intros. unfold deadline_at. rewrite (proj2 (Z.leb_le 0 t)); lia. Qed.

Lemma sent_upto_queued (outgoing : K → bytes) buf a wt w :
  sent_upto buf outgoing (outgoing (w_kern w)) 0 (queued a wt w).
Proof. split; [lia|]. cbn. by rewrite app_nil_r. Qed.

Lemma send_waiting_ensures (outgoing : K → bytes) {HL : SendLaws K outgoing} cc pb flags w :
  regs_ok w →
  ensures (r ← waiting me (sendtmo cc) EPOLLOUT (λ a, loop (send_turn cc pb flags a) 0); mret (default (-1) r))
    w (λ r w', regs w' = regs w ∧ ∃ n, 0 <= n <= zlen pb ∧
         outgoing (w_kern w') = outgoing (w_kern w) ++ take (Z.to_nat n) pb ∧ (r = n ∨ r < 0)).
Proof.
  intros Hok. eapply ensures_bind.
  - apply (waiting_ensures me (sendtmo cc) EPOLLOUT Z _ w (λ r _ _ k, ∃ n, 0 <= n <= zlen pb ∧
      outgoing k = outgoing (w_kern w) ++ take (Z.to_nat n) pb ∧ (r = n ∨ r < 0))).
    intros a Ha. eapply ensures_weaken; [by apply send_loop_ensures, sent_upto_queued|].
    intros r w' [Hr (n & [Hn Ho] & Hrn)]. split; [done|]. by exists n.
  - intros [r|] w' [Hr HQ]; apply ensures_ret; [by split; [apply Hr|]|]. subst w'. split; [done|].
    exists 0. split; [lia|]. rewrite app_nil_r. split; [done|]. right. cbn. lia.
Qed.

Lemma recv_waiting_ensures (received : K → bytes) {HL : RecvLaws K received} cc n flags w :
  w_so w ≠ -1 →
  ensures (waiting me (recvtmo cc) EPOLLIN (λ a, loop (recv_turn n flags a) (0, []))) w (λ r w',
    (regs_ok w → regs w' = regs w) ∧
    match r with
    | None => w' = w
    | Some x => recv_result n received (received (w_kern w)) x w'
    end).
Proof.
  intros Hso. eapply ensures_weaken.
  - apply (waiting_ensures me (recvtmo cc) EPOLLIN (Z * bytes) _ w (λ x so e k,
      recv_result n received (received (w_kern w)) x (mk_world so e ∅ [] k))).
    intros a Ha. eapply ensures_weaken; [apply (recv_loop_ensures n flags received (received (w_kern w)))|done].
    split_and!; [done|done|by right].
  - intros [x|] w' [Hr HQ]; done.
Qed.

Lemma co_socket_send_ensures (outgoing : K → bytes) {HL : SendLaws K outgoing}
    (cc : option co_socket) (buf : option bytes) (flags : Z) w (Hok : regs_ok w) :
  ensures (co_socket_send me cc buf flags) w (λ r w',
    regs w' = regs w ∧
    match cc, buf with
    | Some _, Some pb =>
      if decide (w_so w = -1) then r = -1 ∧ w' = with_errno EBADF w
      else ∃ n, 0 <= n <= zlen pb ∧
             outgoing (w_kern w') = outgoing (w_kern w) ++ take (Z.to_nat n) pb ∧ (r = n ∨ r < 0)
    | Some _, None => r = -1 ∧ w' = with_errno (if decide (w_so w = -1) then EBADF else EINVAL) w
    | None, _ => r = -1 ∧ w' = with_errno EBADF w
    end).
Proof.
  unfold co_socket_send. destruct cc as [cc|].
  2: { by eapply returns_partial, fails_returns. }
  apply ensures_call. cbn [handle fst snd].
  destruct (Z.eqb_spec (w_so w) (-1)) as [Hso|Hso]; (destruct (decide _); [|]; try done);
    (destruct buf as [pb|]; [|by eapply returns_partial, fails_returns]).
  - by eapply returns_partial, fails_returns.
  - by apply send_waiting_ensures.
Qed.

(** C9: [co_socket_send] puts a prefix of the buffer on the socket, in order and
    once, and nothing else; it returns its length, or a negative value that says
    nothing of the length; whatever it returns, its waiter is gone from the core
    and from the queue of the socket.  On a missing or closed socket and on a
    missing buffer it does nothing but set [errno]. *)
Theorem co_socket_send_ships (outgoing : K → bytes) {HL : SendLaws K outgoing}
    (cc : option co_socket) (buf : option bytes) (flags : Z) w (Hok : regs_ok w) :
  ensures (co_socket_send me cc buf flags) w (λ r w',
    regs w' = regs w ∧
    match cc, buf with
    | Some _, Some pb =>
      if decide (w_so w = -1) then r = -1 ∧ w' = with_errno EBADF w
      else ∃ n, 0 <= n <= zlen pb ∧
             outgoing (w_kern w') = outgoing (w_kern w) ++ take (Z.to_nat n) pb ∧ (r = n ∨ r < 0)
    | Some _, None => r = -1 ∧ w' = with_errno (if decide (w_so w = -1) then EBADF else EINVAL) w
    | None, _ => r = -1 ∧ w' = with_errno EBADF w
    end).
Proof. by apply co_socket_send_ensures. Qed.

Lemma recv_errno_ensures (received : K → bytes) {HL : RecvLaws K received} n rcv0 x w :
  recv_result n received rcv0 x w →
  ensures (recv_errno x.1) w (λ _ w',
    regs w' = regs w ∧ w_so w' = w_so w ∧ recv_result n received rcv0 x w' ∧
    (w_so w' = -1 → w_errno w' = ECONNABORTED) ∧ (x.1 = 0 → w_errno w' ≠ EOTHER 0)).
Proof.
  intros (Hz & Hle & Hrc & Hc & He). unfold recv_errno, recv_result.
  apply ensures_call. cbn [handle fst snd]. destruct (Z.eqb_spec (w_so w) (-1)) as [Hso|Hso].
  - apply ensures_trigger. cbn. split_and!; auto with lia.
  - destruct (Z.eqb_spec x.1 0) as [H0|H0]; [|apply ensures_ret; split_and!; auto with lia].
    apply ensures_call. cbn [handle]. pose proof (so_error_keeps_received (w_so w) (w_kern w)) as Hk.
    destruct (k_so_error (w_so w) (w_kern w)) as [e k]. apply ensures_trigger. cbn in *.
    rewrite Hk. split_and!; auto with lia. intros _. by case_decide.
Qed.

Lemma co_socket_recv_ensures (received : K → bytes) {HL : RecvLaws K received}
    (cc : option co_socket) (has_buf : bool) (n : nat) (flags : Z) w :
  ensures (co_socket_recv me cc has_buf n flags) w (λ x w',
    (regs_ok w → regs w' = regs w) ∧
    match cc with
    | None => x = (-1, []) ∧ w' = with_errno EBADF w
    | Some _ =>
      if decide (w_so w = -1) then x = (-1, []) ∧ w' = with_errno EBADF w
      else if negb has_buf then x = (-1, []) ∧ w' = with_errno EINVAL w
      else
        zlen x.2 = Z.max 0 x.1 ∧ (length x.2 ≤ n)%nat ∧
        received (w_kern w') = received (w_kern w) ++ x.2 ∧
        (w_so w' = -1 → x.1 < 0 ∧ w_errno w' = ECONNABORTED) ∧
        (x.1 = 0 → w_errno w' ≠ EOTHER 0) ∧
        (x.1 < 0 → w_errno w' ≠ EAGAIN ∨ w' = w)
    end).
Proof.
  unfold co_socket_recv. destruct cc as [cc|].
  2: { by eapply returns_partial, fails_returns. }
  apply ensures_call. cbn [handle fst snd].
  destruct (Z.eqb_spec (w_so w) (-1)) as [Hso|Hso]; (destruct (decide _); [|]; try done).
  { by eapply returns_partial, fails_returns. }
  destruct has_buf; cbn [negb]; [|by eapply returns_partial, fails_returns].
  eapply ensures_bind; [by apply recv_waiting_ensures|].
  intros [[r d]|] w1 [Hr HQ].
  - eapply ensures_bind; [by apply (recv_errno_ensures received n (received (w_kern w)) (r, d))|]. cbn [fst].
    intros _ w2 (Hr2 & Hso2 & (Hz & Hle & Hrc & Hc & He) & Hab & H0). apply ensures_ret. cbn in *.
    split; [intros; rewrite Hr2; auto|]. split_and!; auto.
    intros Hneg. left. destruct (He Hneg) as [Hcl|]; [by rewrite Hab|done].
  - subst w1. apply ensures_ret. cbn. split; [done|]. rewrite app_nil_r. split_and!; auto with lia.
Qed.

(** C10: [co_socket_recv] hands over the next bytes the kernel delivers, as many
    as it says and no more than the buffer holds; none is lost, whatever happened
    while it slept; it fails with [ECONNABORTED] if the socket was closed in the
    meantime and never with [EAGAIN]; an end of file has an [errno]; and its
    waiter is gone from the core and from the queue of the socket. *)
Theorem co_socket_recv_delivers (received : K → bytes) {HL : RecvLaws K received}
    (cc : option co_socket) (has_buf : bool) (n : nat) (flags : Z) w (Hok : regs_ok w) :
  ensures (co_socket_recv me cc has_buf n flags) w (λ x w',
    regs w' = regs w ∧
    match cc with
    | None => x = (-1, []) ∧ w' = with_errno EBADF w
    | Some _ =>
      if decide (w_so w = -1) then x = (-1, []) ∧ w' = with_errno EBADF w
      else if negb has_buf then x = (-1, []) ∧ w' = with_errno EINVAL w
      else
        zlen x.2 = Z.max 0 x.1 ∧ (length x.2 ≤ n)%nat ∧
        received (w_kern w') = received (w_kern w) ++ x.2 ∧
        (w_so w' = -1 → x.1 < 0 ∧ w_errno w' = ECONNABORTED) ∧
        (x.1 = 0 → w_errno w' ≠ EOTHER 0) ∧
        (x.1 < 0 → w_errno w' ≠ EAGAIN ∨ w' = w)
    end).
Proof.
  eapply ensures_weaken; [by apply co_socket_recv_ensures|].
  intros x w' [Hr Hx]. split; [by apply Hr|done].
Qed.

Lemma recv_errno_returns r w : returns 6 (recv_errno r) w (λ _ _, True).
Proof.
  unfold recv_errno. apply (returns_call handle 4). destruct (_ =? -1); [by apply returns_trigger|].
  destruct (r =? 0); [|by apply returns_ret].
  apply (returns_call handle 2). by apply returns_trigger.
Qed.

Lemma co_socket_send_returns (outgoing : K → bytes) {HL : SendLaws K outgoing} {HT : Timely K}
    (cc : co_socket) (buf : bytes) (flags : Z) w :
  0 <= sendtmo cc <= 2147483 → regs_ok w → w_wait w = ∅ → 0 < k_now (w_kern w) →
  returns (20 + 15 * S (length buf + pending (w_kern w)))
    (co_socket_send me (Some cc) (Some buf) flags) w (λ _ _, True).
Proof.
  intros Hsend Hok Halone Hnow.
  apply (returns_call handle). cbn [handle fst snd]. destruct (_ =? _).
  { eapply returns_weaken; [by apply (fails_returns EBADF (-1) w (λ _ _, True))|lia|done]. }
  eapply (returns_weaken _ (13 + 15 * S (length buf + pending (w_kern w)) + 1) _ _ _ _ (λ _ _, True));
    [|lia|done].
  eapply returns_bind; [|intros; by apply returns_ret].
  apply (waiting_returns me (sendtmo cc) EPOLLOUT Z _ w (λ _ _ _ _, True)).
  intros a Ha. eapply returns_weaken; [eapply (send_loop_returns _ _ _ outgoing)|done|done]; [done|].
  split; [lia|]. apply queued_alone; [done| |done]. apply deadline_at_pos; [lia|done].
Qed.

Lemma co_socket_recv_returns {HT : Timely K} (cc : co_socket) (n : nat) (flags : Z) w :
  0 <= recvtmo cc → regs_ok w → w_wait w = ∅ → 0 < k_now (w_kern w) →
  returns (30 + 17 * S (2 * pending (w_kern w) + 1))
    (co_socket_recv me (Some cc) true n flags) w (λ _ _, True).
Proof.
  intros Hrecv Hok Halone Hnow.
  apply (returns_call handle). cbn [handle fst snd]. destruct (_ =? _).
  { eapply returns_weaken; [by apply (fails_returns EBADF (-1, []) w (λ _ _, True))|lia|done]. }
  cbn [negb].
  eapply (returns_weaken _ (13 + 17 * S (2 * pending (w_kern w) + 1) + (6 + 1)) _ _ _ _ (λ _ _, True));
    [|lia|done].
  eapply returns_bind.
  + apply (waiting_returns me (recvtmo cc) EPOLLIN _ _ w (λ _ _ _ _, True)).
    intros a Ha. eapply returns_weaken; [eapply recv_loop_returns|done|done].
    apply queued_alone; [done| |done]. by apply deadline_at_pos.
  + intros [[r d]|] w1 _; [|by apply returns_ret].
    eapply returns_bind; [apply recv_errno_returns|]. intros. by apply returns_ret.
Qed.

(** C11: with timeouts, [co_socket_send] and [co_socket_recv] return, after a
    number of steps that the events still to come and the size of the buffer
    bound: no event that does not let them go on, and no loss of the peer, keeps
    the coroutine in them. *)
Theorem co_socket_io_returns (outgoing : K → bytes) {HL : SendLaws K outgoing} {HT : Timely K}
    (cc : co_socket) (buf : bytes) (n : nat) (flags : Z) w
    (Hsend : 0 <= sendtmo cc <= 2147483) (Hrecv : 0 <= recvtmo cc)
    (Hok : regs_ok w) (Halone : w_wait w = ∅) (Hnow : 0 < k_now (w_kern w)) :
  returns (20 + 15 * S (length buf + pending (w_kern w)))
    (co_socket_send me (Some cc) (Some buf) flags) w (λ _ _, True) ∧
  returns (30 + 17 * S (2 * pending (w_kern w) + 1))
    (co_socket_recv me (Some cc) true n flags) w (λ _ _, True).
Proof.
  split; [by apply (co_socket_send_returns outgoing)|by apply co_socket_recv_returns].
Qed.

(** ** Waiting on a plain descriptor *)

(** A wait that [epoll] accepts: the coroutine sleeps once and gets the events it
    was resumed for. *)
Lemma co_io_wait_returns so ev msec w (e : errno) k a :
  k_spare (w_kern w) = true → a = fresh (dom (w_wait w)) →
  k_epoll_add so ev (w_kern w) = (0, e, k) →
  let wt := set_mask (Z.lor ev UNMASKED_EVENTS) (new_waiter me (deadline_at msec (w_kern w)) ev) in
  let s := k_main (<[a := wt]> (w_wait w)) k in
  returns 17 (co_io_wait me so ev msec) w (λ rev w',
    rev = sl_revents s.1 a ∧ w_kern w' = k_epoll_remove so s.2 ∧
    w_so w' = (if sl_closed s.1 then -1 else w_so w) ∧ regs w' = regs w).
Proof.
  intros Hsp -> Hadd. cbn zeta. unfold co_io_wait.
  eapply (returns_bind handle 3 14); [apply deadline_returns|]. intros t ? [-> ->].
  apply (returns_call handle). cbn [handle]. unfold add_waiter. rewrite Hsp. cbn [fst snd].
  set (a := fresh _). assert (a ∉ dom (w_wait w)) as Ha by apply is_fresh.
  apply (returns_call handle). cbn [handle w_kern with_wait]. rewrite Hadd, syscall_ok by done.
  change (syscall 0 0 e k _).1 with 0. cbn [Z.eqb].
  set (w1 := with_kern k _). pose proof (regs_resumed w1) as Hregs.
  eapply (returns_bind handle 7 3 _ _ _ (λ rev w', rev = sl_revents (k_main (w_wait w1) k).1 a ∧
      w' = with_kern (k_epoll_remove so (w_kern (resumed w1))) (resumed w1))).
  - do 3 (apply (returns_call handle); cbn [handle fst snd]). apply returns_ret. split; [|done].
    unfold resumed. cbn [w_kern w1 with_kern]. destruct (k_main (w_wait w1) k) as [s k3].
    cbn [w_wait fst]. rewrite map_lookup_imap. cbn. by rewrite lookup_insert_eq.
  - intros rev w' [-> ->]. apply (returns_call handle). cbn [handle fst snd]. apply returns_ret.
    unfold resumed in *. cbn [w_kern w1 with_kern with_wait] in *.
    destruct (k_main (w_wait w1) k) as [s k3] eqn:Hm. cbn in Hm. rewrite Hm. cbn.
    split_and!; [done..|]. unfold regs in *. cbn in *. injection Hregs as Hd. f_equal.
    rewrite dom_delete_L, Hd, dom_insert_L. set_solver.
Qed.

Lemma loop_once {A B} c (body : A → io (A + B)) i w (Q : B → world K → Prop) :
  returns c (body i) w (λ ab w', match ab with inr b => Q b w' | inl _ => False end) →
  returns (c + 1) (loop body i) w Q.
Proof.
  intros Hb. replace (c + 1)%nat with ((c + 1) * 1)%nat by lia.
  apply (returns_loop handle c (λ _ _, 0%nat) (λ j w', j = i ∧ w' = w)); [|done|done].
  intros ? ? [-> ->]. eapply returns_weaken; [exact Hb|done|]. by intros [|].
Qed.

(** [co_recv] on a descriptor whose [SO_RCVTIMEO] is 0, which for the kernel
    means that there is no timeout, does not wait: its waiter is due at the very
    time it is made, so the next walk resumes it, and if nothing has come by then
    it returns -1 with the [errno] of a socket without error. *)
Theorem co_recv_gives_up so n flags w d (e e' err : errno) k1 k2 k5
    (Hrecv : k_recv so n (Z.lor flags MSG_DONTWAIT) (w_kern w) = (-1, EAGAIN, d, k1))
    (Htime : k_timeout so k1 = Some 0) (Hspare : k_spare k1 = true)
    (Hadd : k_epoll_add so EPOLLIN k1 = (0, e', k2)) :
  let a := fresh (dom (w_wait w)) in
  let wt := set_mask (Z.lor EPOLLIN UNMASKED_EVENTS) (new_waiter me (k_now k1 + 0) EPOLLIN) in
  let '(s, k3) := k_main (<[a := wt]> (w_wait w)) k2 in
  k_so_error so (k_epoll_remove so k3) = (err, k5) → has EPOLLIN (sl_revents s a) = false →
  (0 < k_now k1 → due (k_now k1) wt = true) ∧
  returns 50 (co_recv me so n flags) w (λ x w',
    x = (-1, d) ∧ w_errno w' = err ∧ w_kern w' = k5 ∧ regs w' = regs w).
Proof.
  cbn zeta. destruct (k_main _ k2) as [s k3] eqn:Hm. intros Herr Hev. split.
  { intros Hnow. unfold due. cbn. rewrite (proj2 (Z.ltb_lt 0 _)), (proj2 (Z.leb_le _ _)); [done|lia..]. }
  unfold co_recv.
  eapply (returns_le _ (((2 + (2 + (3 + (17 + 1)))) + 1) + (6 + 1))); [|lia].
  eapply returns_bind.
  - apply loop_once. unfold co_recv_turn. apply (returns_call handle). cbn [handle].
    rewrite Hrecv. change (syscall (-1, d) (-1) EAGAIN k1 w).1 with (-1, d). cbn iota beta.
    apply (returns_call handle). cbn [handle fst snd]. cbn [Z.ltb Z.compare andb bool_decide].
    set (w1 := (syscall _ _ _ _ _).2). change (bool_decide (w_errno w1 = EAGAIN)) with true. cbn iota.
    eapply returns_bind.
    { unfold so_get_timeout. apply (returns_call handle 1). cbn [handle fst snd].
      change (w_kern w1) with k1. rewrite Htime.
      apply (returns_ret handle 0 _ _ (λ t w', t = 0 ∧ w' = w1)). done. }
    intros t ? [-> ->]. eapply returns_bind.
    { by eapply (co_io_wait_returns so EPOLLIN 0 w1). }
    cbn beta. intros rev w2 (-> & Hk2 & _ & Hr2). revert Hk2 Hr2.
    change (w_kern w1) with k1. change (w_wait w1) with (w_wait w).
    unfold deadline_at. cbn [Z.leb Z.compare]. cbn [mask new_waiter] in Hm |- *. rewrite Hm. cbn [fst snd].
    intros Hk2 Hr2. rewrite Hev. apply returns_ret. instantiate (1 := λ x w', x = (-1, d) ∧
      w_kern w' = k_epoll_remove so k3 ∧ regs w' = regs w). by split_and!.
  - cbn beta. intros ? w2 (-> & Hk & Hr). cbn iota beta.
    eapply (returns_bind handle 6 1).
    + unfold co_recv_errno. cbn [Z.eqb Z.ltb Z.compare]. apply (returns_call handle 4). cbn [handle].
      rewrite Hk, Herr. apply (returns_trigger handle 2).
      instantiate (1 := λ _ w', w_errno w' = err ∧ w_kern w' = k5 ∧ regs w' = regs w). done.
    + intros [] w3 Hw3. by apply returns_ret.
Qed.

End Operations.

(** ** A kernel that follows a script *)

(** [s_room]: what the next sends take (0: [EAGAIN], negative: an error).  [s_in]:
    what the next receives find ([Some []]: nothing yet, [None]: the end of the
    file).  [s_naps]: the events that resume the coroutine, with whether the
    socket was closed; without one it is resumed at its deadline. *)
Record script := mk_script {
  s_now : Z;
  s_room : list Z;
  s_out : bytes;
  s_in : list (option bytes);
  s_got : bytes;
  s_naps : list (bool * Z);
}.

Definition last_deadline (ws : waiters) (t : Z) : Z := map_fold (λ _ wt t, Z.max (tmo wt) t) t ws.

Definition script_main (ws : waiters) (k : script) : slept * script :=
  match s_naps k with
  | (c, ev) :: ns => (mk_slept c (λ _, ev) EAGAIN,
      mk_script (s_now k + 1) (s_room k) (s_out k) (s_in k) (s_got k) ns)
  | [] => (mk_slept false (λ _, 0) EAGAIN,
      mk_script (last_deadline ws (s_now k)) (s_room k) (s_out k) (s_in k) (s_got k) [])
  end.

Definition script_send (buf : bytes) (k : script) : Z * errno * script :=
  match s_room k with
  | [] => (-1, EAGAIN, k)
  | r :: rs =>
    let took := if 0 <? r then take (Z.to_nat r) buf else [] in
    ((if 0 <? r then zlen took else -1), (if r =? 0 then EAGAIN else ECONNRESET),
     mk_script (s_now k) rs (s_out k ++ took) (s_in k) (s_got k) (s_naps k))
  end.

Definition script_recv (n : nat) (k : script) : Z * errno * bytes * script :=
  match s_in k with
  | [] => (-1, EAGAIN, [], k)
  | None :: _ => (0, EAGAIN, [], k)
  | Some [] :: ds => (-1, EAGAIN, [], mk_script (s_now k) (s_room k) (s_out k) ds (s_got k) (s_naps k))
  | Some d :: ds =>
    (zlen (take n d), EAGAIN, take n d,
     mk_script (s_now k) (s_room k) (s_out k)
       (match drop n d with [] => ds | d' => Some d' :: ds end) (s_got k ++ take n d) (s_naps k))
  end.

#[export] Instance script_kernel : Kernel script := {
  k_now := s_now;
  k_spare _ := true;
  k_main := script_main;
  k_send _ buf _ := script_send buf;
  k_recv _ n _ := script_recv n;
  k_accept _ k := (-1, EAGAIN, k);
  k_connect _ k := (0, EAGAIN, k);
  k_so_error _ k := (EOTHER 0, k);
  k_timeout _ _ := Some 0;
  k_epoll_add _ _ k := (0, EAGAIN, k);
  k_epoll_remove _ k := k;
  k_non_blocking _ k := (true, k);
  k_close _ k := k;
}.

#[export] Instance script_send_laws : SendLaws script s_out.
Proof.
  split.
  - intros so buf fl k Hb. cbn. unfold script_send. destruct (s_room k) as [|r rs].
    + rewrite Z2Nat.nonpos, take_0, app_nil_r by lia. split_and!; [done|lia|done].
    + cbn [s_out]. destruct (Z.ltb_spec 0 r).
      * assert (zlen buf ≠ 0) by (destruct buf; cbn; [done|lia]).
        rewrite length_take. split_and!; [lia|lia|]. f_equal.
        by rewrite Nat2Z.id, <-take_take, (take_ge buf (length buf)) by lia.
      * rewrite app_nil_r, Z2Nat.nonpos, take_0, app_nil_r by lia. split_and!; [done|lia|done].
  - intros ws k. cbn. unfold script_main. by destruct (s_naps k) as [|[]].
Qed.

#[export] Instance script_recv_laws : RecvLaws script s_got.
Proof.
  split; [|intros ws k; cbn; unfold script_main; by destruct (s_naps k) as [|[]]|done].
  intros so n fl k. cbn. unfold script_recv. destruct (s_in k) as [|[[|b d]|] ds]; cbn [s_got length];
    rewrite ?app_nil_r; try (split_and!; [done|lia|done]).
  split_and!; [lia|rewrite length_take; lia|done].
Qed.

#[export] Instance script_timely : Timely script.
Proof.
  refine {| pending k := length (s_naps k) |}.
  - intros a wt k Ht. cbn. unfold script_main. destruct (s_naps k) as [|[c ev] ns] eqn:Hn; cbn [s_now s_naps length].
    + unfold last_deadline. rewrite map_fold_singleton. split_and!; [lia|lia|right]. cbn. split; [lia|].
      unfold has. by rewrite Z.land_0_l.
    + split_and!; [lia|lia|left; lia].
  - intros so buf fl k. cbn. unfold script_send. destruct (s_room k); cbn; lia.
  - intros so n fl k. cbn. unfold script_recv. destruct (s_in k) as [|[[|]|] ]; cbn; lia.
Defined.

(** ** Concrete runs *)

Definition world0 (k : script) : world script := mk_world 7 (EOTHER 0) ∅ [] k.
Definition socket0 : co_socket := mk_socket 1000 1000.

Lemma world0_ok k : regs_ok (world0 k).
Proof. intros a Ha. by apply not_elem_of_nil in Ha. Qed.

(** The kernel takes three bytes, then none, then the rest. *)
Definition sender0 : world script := world0 (mk_script 100 [3; 0; 2] [] [] [] [(false, EPOLLOUT)]).
(** Nothing yet, then two bytes. *)
Definition receiver0 : world script := world0 (mk_script 100 [] [] [Some []; Some [8; 9]] [] [(false, EPOLLIN)]).

Lemma co_socket_send_ships_witness :
  (prod_map id (λ w, s_out (w_kern w)) <$>
     run handle 200 (co_socket_send 1 (Some socket0) (Some [1; 2; 3; 4; 5]) 0) sender0) =
    Some (5, [1; 2; 3; 4; 5]) ∧
  ensures handle (co_socket_send 1 (Some socket0) (Some [1; 2; 3; 4; 5]) 0) sender0 (λ r w',
    regs w' = regs sender0 ∧ ∃ n, 0 <= n <= 5 ∧
      s_out (w_kern w') = take (Z.to_nat n) [1; 2; 3; 4; 5] ∧ (r = n ∨ r < 0)).
Proof.
  split; [by vm_compute|].
  exact (co_socket_send_ships 1 s_out (Some socket0) (Some [1; 2; 3; 4; 5]) 0 sender0 (world0_ok _)).
Defined.

Lemma co_socket_recv_delivers_witness :
  (fst <$> run handle 200 (co_socket_recv 1 (Some socket0) true 4 0) receiver0) = Some (2, [8; 9]) ∧
  ensures handle (co_socket_recv 1 (Some socket0) true 4 0) receiver0 (λ x w',
    regs w' = regs receiver0 ∧ zlen x.2 = Z.max 0 x.1 ∧ (length x.2 ≤ 4)%nat ∧
    s_got (w_kern w') = x.2 ∧ (w_so w' = -1 → x.1 < 0 ∧ w_errno w' = ECONNABORTED) ∧
    (x.1 = 0 → w_errno w' ≠ EOTHER 0) ∧ (x.1 < 0 → w_errno w' ≠ EAGAIN ∨ w' = receiver0)).
Proof.
  split; [by vm_compute|].
  exact (co_socket_recv_delivers 1 s_got (Some socket0) true 4 0 receiver0 (world0_ok _)).
Defined.

(** Nothing ever comes. *)
Definition silent0 : world script := world0 (mk_script 100 [] [] [] [] [(false, 0)]).

Lemma co_socket_io_returns_witness :
  (prod_map id w_errno <$> run handle 200 (co_socket_recv 1 (Some socket0) true 4 0) silent0) =
    Some (-1, [], ETIME) ∧
  returns handle (20 + 15 * S (length [1] + pending (w_kern silent0)))
    (co_socket_send 1 (Some socket0) (Some [1]) 0) silent0 (λ _ _, True) ∧
  returns handle (30 + 17 * S (2 * pending (w_kern silent0) + 1)) (co_socket_recv 1 (Some socket0) true 4 0) silent0 (λ _ _, True).
Proof.
  split; [by vm_compute|].
  apply (co_socket_io_returns 1 s_out socket0 [1] 4 0 silent0); [done|done|apply world0_ok|done|done].
Defined.

Lemma co_recv_gives_up_witness :
  due 100 (set_mask (Z.lor EPOLLIN UNMASKED_EVENTS) (new_waiter 1 (100 + 0) EPOLLIN)) = true ∧
  returns handle 50 (co_recv 1 7 4 0) (world0 (mk_script 100 [] [] [] [] [])) (λ x w',
    x = (-1, []) ∧ w_errno w' = EOTHER 0 ∧
    w_kern w' = mk_script 100 [] [] [] [] [] ∧ regs w' = (∅, [])).
Proof.
  destruct (co_recv_gives_up 1 7 4 0 (world0 (mk_script 100 [] [] [] [] [])) [] EAGAIN EAGAIN (EOTHER 0)
    (mk_script 100 [] [] [] [] []) (mk_script 100 [] [] [] [] []) (mk_script 100 [] [] [] [] []))
    as [Hdue Hret]; [done..|].
  split; [by apply Hdue|exact Hret].
Defined.

(** What [co_socket_send] returns after a partial send that then fails says
    nothing of the bytes that went out. *)
Example send_fails_after_a_part :
  (prod_map id (λ w, s_out (w_kern w)) <$>
     run handle 200 (co_socket_send 1 (Some socket0) (Some [1; 2; 3; 4; 5]) 0)
       (world0 (mk_script 100 [3; -1] [] [] [] []))) = Some (-1, [1; 2; 3]).
Proof. by vm_compute. Qed.

(** The deadline of a send is moved by a thousand times the timeout: after the
    first bytes a timeout of one second lasts for a quarter of an hour. *)
Example send_timeout_in_the_wrong_unit :
  (prod_map id (λ w, s_now (w_kern w)) <$>
     run handle 200 (co_socket_send 1 (Some socket0) (Some [1; 2; 3; 4; 5]) 0)
       (world0 (mk_script 100 [3] [] [] [] []))) = Some (3, 1000100).
Proof. by vm_compute. Qed.
