(* ===== verification/CoPoll.v ===== *)
(** Waiting of coroutines for several descriptors, for a time, and without end
    ([co_poll], [co_sleep], [co_yield] and [iocb_handler] of
    [src/cothread/co-scheduler.c]), over the kernel and the core of [CoSocket]. *)

From S2P Require Import Prelude CoWaiter CoProg CoSocket.

Open Scope Z_scope.

(** ** [co_poll] *)

Definition POLLIN : Z := 1.
Definition POLLOUT : Z := 4.
Definition POLLERR : Z := 8.
Definition EPOLLONESHOT : Z := Z.shiftl 1 30.

(** [struct pollfd] *)
Record pollfd := mk_pollfd { fd : Z; p_events : Z; p_revents : Z }.
Definition set_prevents (r : Z) (p : pollfd) : pollfd := mk_pollfd (fd p) (p_events p) r.

Definition event_mask (p : pollfd) : Z :=
  Z.lor (if has POLLIN (p_events p) then EPOLLIN else 0) (if has POLLOUT (p_events p) then EPOLLOUT else 0).

(** What is reported of a descriptor whose waiter has the events [rev]. *)
Definition poll_revents (p : pollfd) (rev : Z) : Z :=
  let r := if has POLLIN (p_events p) && has EPOLLIN rev then POLLIN else 0 in
  let r := if has POLLOUT (p_events p) && has EPOLLOUT rev then Z.lor r POLLOUT else r in
  if has EPOLLERR rev then Z.lor r POLLERR else r.

Section Poll.
(** [co_current()] *)
Variable me : nat.

(** The first loop: the waiters of the descriptors, whose [co] is set.  [None]
    is [exit(1)].  The [revents] it clears are all written by the second loop. *)
Fixpoint poll_add (t : Z) (fds : list pollfd) : io (option (list nat)) :=
  match fds with
  | [] => mret (Some [])
  | p :: fds =>
    node ← call (AddWaiter (new_waiter me t (event_mask p)));
    match node with
    | None => mret None
    | Some a =>
      r ← call (EpollAdd (fd p) (Z.lor (event_mask p) EPOLLONESHOT));
      if r =? 0 then
        rest ← poll_add t fds;
        mret (cons a <$> (rest : option (list nat)))
      else mret None
    end
  end.

(** The second loop: the number of descriptors with events, and the array. *)
Fixpoint poll_collect (fds : list pollfd) (nodes : list nat) : io (Z * list pollfd) :=
  match fds, nodes with
  | p :: fds, a :: nodes =>
    _ ← call (EpollRemove (fd p));
    w ← call (GetWaiter a);
    _ ← call (RemoveWaiter a);
    let r := poll_revents p (revents w) in
    '(n, fds) ← poll_collect fds nodes;
    mret ((if r =? 0 then 0 else 1) + n, set_prevents r p :: fds)
  | _, _ => mret (0, [])
  end.

Definition co_poll (fds : list pollfd) (timeout_ms : Z) : io (option (Z * list pollfd)) :=
  t ← deadline timeout_ms;
  nodes ← poll_add t fds;
  match nodes with
  | None => mret None
  | Some nodes =>
    _ ← call CoCall;
    r ← poll_collect fds nodes;
    mret (Some r)
  end.

(** ** [co_sleep] and [co_yield] in a coroutine *)

(** Whether it slept: it does not where the core has no room for the waiter. *)
Definition co_sleep (msec : Z) : io bool :=
  t ← call Now;
  node ← call (AddWaiter (mk_waiter (t + msec) None None (Some me) 0 0 0 (if msec =? 0 then CO_YIELD else 0)));
  match node with
  | None => mret false
  | Some a => _ ← call CoCall; _ ← call (RemoveWaiter a); mret true
  end.

Definition co_yield : io bool := co_sleep 0.

(** ** The coroutine of [co_schedule_io] *)

(** [fn]: the callback with its cookie; [so] and [node] are those of the
    [struct iocb]. *)
Definition iocb_turn (fn : Z → io Z) (node : nat) (_ : unit) : io (unit + Z) :=
  w ← call (GetWaiter node);
  r ← fn (revents w);
  if r =? 0 then _ ← call CoCall; mret (inl ()) else mret (inr r).

(** The last result of the callback. *)
Definition iocb_handler (fn : Z → io Z) (so : Z) (node : nat) : io Z :=
  r ← loop (iocb_turn fn node) ();
  _ ← call (EpollRemove so);
  _ ← call (RemoveWaiter node);
  mret r.

End Poll.

(** ** What they do *)

Section Behaviour.
Context {K : Type} `{Kernel K}.
Implicit Types (w : world K) (fds : list pollfd).

Abbreviation ensures := (ensures handle).
Abbreviation returns := (returns handle).

Variable me : nat.

(** The waiter of a descriptor. *)
Definition poll_waiter (t : Z) (p : pollfd) : io_waiter :=
  let w := new_waiter me t (event_mask p) in set_mask (Z.lor (mask w) UNMASKED_EVENTS) w.

(** The waiters the first loop leaves at the addresses [nodes]. *)
Fixpoint polled (t : Z) fds (nodes : list nat) (ws : waiters) : waiters :=
  match fds, nodes with
  | p :: fds, a :: nodes => polled t fds nodes (<[a := poll_waiter t p]> ws)
  | _, _ => ws
  end.

(** The kernel once all descriptors are added; [None] where the core has no room for
    a waiter or epoll refuses a descriptor. *)
Fixpoint registered fds (k : K) : option K :=
  match fds with
  | [] => Some k
  | p :: fds =>
    if k_spare k then
      let '(r, _, k) := k_epoll_add (fd p) (Z.lor (event_mask p) EPOLLONESHOT) k in
      if r =? 0 then registered fds k else None
    else None
  end.

Definition added (t : Z) fds w (r : option (list nat)) w' : Prop :=
  match registered fds (w_kern w) with
  | None => r = None
  | Some k => ∃ nodes, r = Some nodes ∧
    length nodes = length fds ∧ NoDup nodes ∧ (∀ a, a ∈ nodes → a ∉ dom (w_wait w)) ∧
    w_wait w' = polled t fds nodes (w_wait w) ∧ w_queue w' = w_queue w ∧ w_so w' = w_so w ∧
    w_kern w' = k
  end.

Lemma poll_add_returns t fds : ∀ w, returns (6 * length fds + 1) (poll_add me t fds) w (added t fds w).
Proof.
  unfold added. induction fds as [|p fds IH]; intros w; cbn [poll_add length registered].
  { apply returns_ret. exists []. split_and!; [done|done|constructor|set_solver|done..]. }
  eapply (returns_le _ (2 + (2 + ((6 * length fds + 1) + 1)))); [|lia].
  apply returns_call. cbn [handle]. unfold add_waiter.
  destruct (k_spare (w_kern w)) eqn:Hsp; cbn [fst snd].
  2: { by apply (returns_ret handle (S (6 * length fds + 1 + 1))). }
  set (a := fresh (dom (w_wait w))). assert (a ∉ dom (w_wait w)) as Ha by apply is_fresh.
  apply returns_call. cbn [handle].
  change (w_kern (with_wait _ w)) with (w_kern w).
  destruct (k_epoll_add _ _ _) as [[r e] k] eqn:Hadd.
  change (syscall r r e k _).1 with r. destruct (Z.eqb_spec r 0) as [->|Hr].
  2: { rewrite Nat.add_1_r. by apply returns_ret. }
  rewrite syscall_ok by done. eapply returns_bind; [apply IH|]. cbn [w_kern with_kern with_wait].
  intros r w'. destruct (registered fds k) as [k'|]; [|intros ->; by apply returns_ret].
  intros (nodes & -> & Hl & Hnd & Hfr & Hw & Hq & Hso & Hk). apply returns_ret. cbn in *.
  rewrite dom_insert_L in Hfr. exists (a :: nodes).
  split_and!; [done|cbn; lia| |set_solver|done..]. apply NoDup_cons. split; [set_solver|done].
Qed.

(** What the second loop makes of the waiters. *)
Definition revents_of w (a : nat) : Z := revents (default null_waiter (w_wait w !! a)).
Definition report (p : pollfd) (rev : Z) : pollfd := set_prevents (poll_revents p rev) p.

(** The kernel once epoll has let go of the descriptors. *)
Definition removed fds (k : K) : K := foldl (λ k p, k_epoll_remove (fd p) k) k fds.

Definition collected fds (nodes : list nat) w (r : Z * list pollfd) w' : Prop :=
  r.2 = zip_with report fds (revents_of w <$> nodes) ∧
  r.1 = zlen (filter (λ p, p_revents p ≠ 0) r.2) ∧
  (∀ b, w_wait w' !! b = if decide (b ∈ nodes) then None else w_wait w !! b) ∧
  w_queue w' = w_queue w ∧ w_so w' = w_so w ∧ w_kern w' = removed fds (w_kern w).

Lemma poll_collect_returns fds : ∀ nodes w, length nodes = length fds → NoDup nodes →
  returns (7 * length fds + 1) (poll_collect fds nodes) w (collected fds nodes w).
Proof.
  induction fds as [|p fds IH]; intros [|a nodes] w Hl Hnd; try done; cbn [poll_collect length].
  { apply returns_ret. by split_and!. }
  apply NoDup_cons in Hnd as [Ha Hnd].
  eapply (returns_le _ (2 + (2 + (2 + ((7 * length fds + 1) + 1))))); [|lia].
  do 3 (apply returns_call; cbn [handle fst snd]).
  eapply returns_bind; [apply IH; [by injection Hl|done]|].
  intros [n fds'] w' (Hf & Hn & Hw & Hq & Hso & Hk). apply returns_ret. cbn in *.
  assert (revents_of (with_wait (delete a) (with_kern (k_epoll_remove (fd p) (w_kern w)) w)) <$> nodes =
          revents_of w <$> nodes) as Hrev.
  { apply list_fmap_ext. intros i b Hb%list_elem_of_lookup_2. unfold revents_of. cbn.
    rewrite lookup_delete_ne; [done|congruence]. }
  rewrite Hrev in Hf. unfold collected. cbn [fst snd fmap list_fmap zip_with].
  split_and!; [by rewrite Hf| | |done..].
  - rewrite filter_cons. cbn [p_revents set_prevents].
    destruct (Z.eqb_spec (poll_revents p (revents (default null_waiter (w_wait w !! a)))) 0) as [->|].
    + rewrite decide_False by (intros Hne; by apply Hne). by rewrite Hn, Z.add_0_l.
    + rewrite decide_True by done. cbn [length]. lia.
  - intros b. rewrite Hw. destruct (decide (b = a)) as [->|Hba].
    + rewrite (decide_True (P := a ∈ a :: nodes)) by by left. case_decide; [done|].
      apply lookup_delete_eq.
    + rewrite lookup_delete_ne by done. by repeat case_decide; set_solver.
Qed.

Lemma regs_eq w w' : dom (w_wait w') = dom (w_wait w) → w_queue w' = w_queue w → regs w' = regs w.
Proof. unfold regs. congruence. Qed.

Lemma polled_lookup t fds : ∀ nodes ws, length nodes = length fds → NoDup nodes →
  (∀ i p a, fds !! i = Some p → nodes !! i = Some a → polled t fds nodes ws !! a = Some (poll_waiter t p)) ∧
  (∀ b, b ∉ nodes → polled t fds nodes ws !! b = ws !! b).
Proof.
  induction fds as [|p fds IH]; intros [|a nodes] ws Hl Hnd; try done. cbn [polled].
  apply NoDup_cons in Hnd as [Ha Hnd]. injection Hl as Hl.
  destruct (IH nodes (<[a:=poll_waiter t p]> ws) Hl Hnd) as [H1 H2]. split.
  - intros [|i] q b; cbn; [|by apply H1]. intros [= <-] [= <-]. rewrite H2 by done. apply lookup_insert_eq.
  - intros b [Hb Hbn]%not_elem_of_cons. rewrite H2 by done. by apply lookup_insert_ne.
Qed.

(** [co_poll] as a whole: [None] is [exit(1)]. *)
Definition poll_post (t : Z) fds w (r : option (Z * list pollfd)) w' : Prop :=
  match registered fds (w_kern w) with
  | None => r = None
  | Some k => ∃ n fds' nodes ws, r = Some (n, fds') ∧
      length nodes = length fds ∧ NoDup nodes ∧ (∀ a, a ∈ nodes → a ∉ dom (w_wait w)) ∧
      (∀ i p a, fds !! i = Some p → nodes !! i = Some a → ws !! a = Some (poll_waiter t p)) ∧
      (∀ b, b ∉ nodes → ws !! b = w_wait w !! b) ∧
      let '(s, k') := k_main ws k in
      fds' = zip_with report fds (sl_revents s <$> nodes) ∧
      n = zlen (filter (λ p, p_revents p ≠ 0) fds') ∧
      w_wait w' = map_imap (λ a wt, Some (set_revents (sl_revents s a) wt)) (w_wait w) ∧
      w_queue w' = w_queue w ∧ w_kern w' = removed fds k'
  end.

Lemma co_poll_runs fds timeout_ms w :
  returns (13 * length fds + 8) (co_poll me fds timeout_ms) w
    (poll_post (deadline_at timeout_ms (w_kern w)) fds w).
Proof.
  eapply (returns_le _ (3 + ((6 * length fds + 1) + (2 + ((7 * length fds + 1) + 1))))); [|lia].
  eapply returns_bind; [apply deadline_returns|]. intros t ? [-> ->]. unfold poll_post.
  eapply returns_bind; [apply poll_add_returns|]. intros r w1. unfold added.
  destruct (registered fds (w_kern w)) as [k|].
  2: { intros ->. eapply (returns_le _ 1); [by apply returns_ret|lia]. }
  intros (nodes & -> & Hl & Hnd & Hfr & Hw & Hq & Hso & Hk). apply returns_call. cbn [handle fst snd].
  eapply returns_bind; [by apply poll_collect_returns|]. intros [n fds'] w2 (Hf & Hn & Hw2 & Hq2 & _ & Hk2).
  apply returns_ret. cbn in *. destruct (polled_lookup (deadline_at timeout_ms (w_kern w)) fds nodes (w_wait w) Hl Hnd) as [H1 H2].
  exists n, fds', nodes, (w_wait w1). rewrite w_kern_resumed in Hk2. unfold revents_of, resumed in *.
  rewrite Hk in *. destruct (k_main (w_wait w1) k) as [s k'] eqn:Hmain. cbn in *. rewrite Hw in *.
  split_and!; try done; [| |congruence].
  - rewrite Hf. f_equal. apply list_fmap_ext. intros i a Ha. rewrite map_lookup_imap.
    assert (∃ p, fds !! i = Some p) as [p Hp].
    { apply lookup_lt_is_Some. rewrite <-Hl. by eapply lookup_lt_Some. }
    by rewrite (H1 i p a Hp Ha).
  - apply map_eq. intros b. rewrite Hw2, !map_lookup_imap. case_decide as Hb; [|by rewrite H2].
    apply Hfr, not_elem_of_dom in Hb. by rewrite Hb.
Qed.

(** A sleeping coroutine leaves no waiter behind, and one that waits for nothing
    else is resumed at its time, unless an event comes. *)
Lemma co_sleep_returns {HT : Timely K} msec w :
  0 <= msec → 0 < k_now (w_kern w) →
  returns 9 (co_sleep me msec) w (λ slept w', regs w' = regs w ∧
    if slept : bool then w_wait w = ∅ → k_now (w_kern w) + msec <= k_now (w_kern w') ∨
      (pending (w_kern w') < pending (w_kern w))%nat
    else w' = w ∧ k_spare (w_kern w) = false).
Proof.
  intros Hm Hn. unfold co_sleep. apply returns_call. cbn [handle fst snd].
  apply returns_call. cbn [handle fst snd]. unfold add_waiter.
  destruct (k_spare (w_kern w)) eqn:Hsp; cbn [fst snd]; [|by apply returns_ret].
  set (a := fresh (dom (w_wait w))). assert (a ∉ dom (w_wait w)) as Ha by apply is_fresh.
  set (w1 := with_wait _ w). do 2 (apply returns_call; cbn [handle fst snd]). apply returns_ret. split.
  - unfold resumed. destruct (k_main _ _) as [s k]. unfold regs. cbn. f_equal.
    apply set_eq. intros b. rewrite dom_delete_L, elem_of_difference, elem_of_singleton, !elem_of_dom, map_lookup_imap.
    destruct (decide (b = a)) as [->|Hb].
    + split; [by intros []|]. by intros Hs%elem_of_dom.
    + rewrite lookup_insert_ne by done. destruct (w_wait w !! b); cbn; naive_solver.
  - intros Hw. cbn [w_kern with_wait]. rewrite w_kern_resumed.
    set (wt := set_mask _ _) in w1.
    pose proof (main_wakes a wt (w_kern w)) as Hmain. cbn [tmo set_mask wt] in Hmain.
    assert (w_wait w1 = {[a := wt]}) as Hw1 by (unfold w1; cbn; by rewrite Hw).
    change (w_kern w1) with (w_kern w). rewrite Hw1. destruct (k_main _ _) as [s k].
    destruct Hmain as (_ & _ & [Hp|[Ht _]]); [lia|by right|by left].
Qed.

(** The coroutine of [co_schedule_io] ends when its callback says so, and takes
    back its waiter. *)
Lemma iocb_handler_ends (fn : Z → io Z) so node w :
  (∀ rev w1, ensures (fn rev) w1 (λ _ w2, regs w2 = regs w1)) →
  ensures (iocb_handler fn so node) w (λ r w',
    r ≠ 0 ∧ regs w' = (dom (w_wait w) ∖ {[node]}, w_queue w)).
Proof.
  intros Hfn. unfold iocb_handler. eapply (ensures_bind _ _ _ _ (λ r w1, r ≠ 0 ∧ regs w1 = regs w)).
  - apply (ensures_loop handle (λ _ w1, regs w1 = regs w)); [|done].
    intros [] w1 Hw1. unfold iocb_turn. apply ensures_call. cbn [handle fst snd].
    eapply ensures_bind; [apply Hfn|]. intros r w2 Hw2. cbn beta in Hw2.
    destruct (Z.eqb_spec r 0) as [->|Hr].
    + apply ensures_call. apply ensures_ret. cbn [handle fst snd]. by rewrite regs_resumed, Hw2.
    + apply ensures_ret. by rewrite Hw2.
  - intros r w1 [Hr Hw1]. do 2 (apply ensures_call; cbn [handle fst snd]). apply ensures_ret.
    split; [done|]. injection Hw1 as Hd Hq. unfold regs. cbn. by rewrite dom_delete_L, Hd, Hq.
Qed.

(** C15: [co_poll] returns after a number of steps linear in the number of
    descriptors.  It registers a waiter of its own for every descriptor, with the
    events asked for and the deadline, and adds the descriptors to epoll in order;
    then it gives the core back once, with these waiters beside those there were,
    and takes every descriptor out of epoll again.  Each [revents] is what its waiter
    was resumed with, cut to what was asked for and errors, the result counts the
    descriptors that have any, and the waiters in the core are again those there
    were.  The process exits just where the core is full or epoll refuses a
    descriptor on the way. *)
Theorem co_poll_reports fds timeout_ms w :
  returns (13 * length fds + 8) (co_poll me fds timeout_ms) w (λ r w',
    match registered fds (w_kern w) with
    | None => r = None
    | Some k => ∃ n fds' nodes ws, r = Some (n, fds') ∧
        length nodes = length fds ∧ NoDup nodes ∧ (∀ a, a ∈ nodes → a ∉ dom (w_wait w)) ∧
        (∀ i p a, fds !! i = Some p → nodes !! i = Some a →
           ws !! a = Some (poll_waiter (deadline_at timeout_ms (w_kern w)) p)) ∧
        (∀ b, b ∉ nodes → ws !! b = w_wait w !! b) ∧
        let '(s, k') := k_main ws k in
        fds' = zip_with report fds (sl_revents s <$> nodes) ∧
        n = zlen (filter (λ p, p_revents p ≠ 0) fds') ∧
        w_wait w' = map_imap (λ a wt, Some (set_revents (sl_revents s a) wt)) (w_wait w) ∧
        w_queue w' = w_queue w ∧ w_kern w' = removed fds k'
    end).
Proof. eapply returns_weaken; [apply co_poll_runs|done|done]. Qed.

(** Where epoll refuses a descriptor it already has, as it does, a [co_poll] of
    the same descriptor twice ends the process. *)
Lemma poll_twice_exits so t ev1 ev2 w :
  (∀ ev ev' k, (k_epoll_add so ev' (k_epoll_add so ev k).2).1.1 ≠ 0) →
  ensures (co_poll me [mk_pollfd so ev1 0; mk_pollfd so ev2 0] t) w (λ r _, r = None).
Proof.
  intros Hdup. unfold co_poll. eapply ensures_bind; [eapply returns_partial, deadline_returns|].
  intros tm ? [-> ->]. eapply ensures_bind with (M := λ r _, r = None); [|by intros ? ? ->; apply ensures_ret].
  cbn [poll_add]. apply ensures_call. cbn [handle]. unfold add_waiter.
  destruct (k_spare (w_kern w)) eqn:Hsp; cbn [fst snd]; [|by apply ensures_ret].
  apply ensures_call. cbn [handle fst snd w_kern with_wait fd].
  destruct (k_epoll_add so _ (w_kern w)) as [[r e] k] eqn:Hadd.
  change (syscall r r e k _).1 with r. destruct (Z.eqb_spec r 0) as [->|Hr]; [|by apply ensures_ret].
  rewrite syscall_ok by done. eapply ensures_bind with (M := λ r _, r = None); [|by intros ? ? ->; apply ensures_ret].
  apply ensures_call. cbn [handle]. unfold add_waiter. cbn [w_kern with_kern].
  destruct (k_spare k) eqn:Hsp2; cbn [fst snd]; [|by apply ensures_ret].
  apply ensures_call. cbn [handle fst snd w_kern with_wait with_kern fd].
  match goal with |- context [k_epoll_add so ?ev' k] =>
    specialize (Hdup (Z.lor (event_mask (mk_pollfd so ev1 0)) EPOLLONESHOT) ev' (w_kern w)) end.
  rewrite Hadd in Hdup. cbn [snd] in Hdup.
  destruct (k_epoll_add so _ k) as [[r2 e2] k2]. cbn [fst] in Hdup.
  change (syscall r2 r2 e2 k2 _).1 with r2.
  rewrite (proj2 (Z.eqb_neq r2 0)) by done. by apply ensures_ret.
Qed.

End Behaviour.

(** A descriptor that hangs up ends the wait but is not reported: the caller
    takes it for a timeout. *)
Example hang_up_not_reported so :
  has (Z.lor EPOLLIN UNMASKED_EVENTS) EPOLLHUP = true ∧ poll_revents (mk_pollfd so POLLIN 0) EPOLLHUP = 0.
Proof. by vm_compute. Qed.
