(* ===== verification/CoResolve.v ===== *)
(** Resolving names in a coroutine ([src/cothread/co-resolve.c]): a name that reads
    as an IPv4 address is taken for one, others are asked of the resolver, whose
    descriptor the coroutine waits on.  The resolver ([cf_resolve_*]) and the wall
    clock are parameters, the waiting is [co_io_wait] of [CoSocket]. *)

From S2P Require Import Prelude HexBits Scanf CoWaiter CoProg CoSocket.

Open Scope Z_scope.

(** ** Numeric addresses *)

Definition INET_ADDR (a b c d : Z) : Z :=
  Z.lor (Z.lor (Z.lor (u32 (Z.shiftl a 24)) (Z.shiftl b 16)) (Z.shiftl c 8)) d.

(** The address and the port, [None] where there is none in the text. *)
Definition parse_ip4_addrs (addrs : bytes) : option (Z * option Z) :=
  '(a1, s) ← scan_uint 8 addrs; s ← scan_char 46 s;
  '(a2, s) ← scan_uint 8 s; s ← scan_char 46 s;
  '(a3, s) ← scan_uint 8 s; s ← scan_char 46 s;
  '(a4, s) ← scan_uint 8 s;
  let port := '(p, _) ← scan_char 58 s ≫= scan_uint 16; Some p in
  Some (INET_ADDR a1 a2 a3 a4, port).

(** The text of an address, and of an address with its port. *)
Definition ip4_text (a b c d : Z) : bytes := dec a ++ [46] ++ dec b ++ [46] ++ dec c ++ [46] ++ dec d.
Definition port_text (port : option Z) : bytes :=
  match port with Some p => [58] ++ dec p | None => [] end.

Lemma scan_octet x c rest : is_uint 8 x → isdigit c = false →
  scan_uint 8 (dec x ++ c :: rest) = Some (x, c :: rest).
Proof.
  intros Hx Hc. unfold is_uint in Hx. rewrite scan_uint_dec; [|lia|by intros ? ? [= <- _]].
  by rewrite uwrap_id.
Qed.

Lemma parse_ip4_text a b c d port :
  is_uint 8 a → is_uint 8 b → is_uint 8 c → is_uint 8 d → (∀ p, port = Some p → is_uint 16 p) →
  parse_ip4_addrs (ip4_text a b c d ++ port_text port) = Some (INET_ADDR a b c d, port).
Proof.
  intros Ha Hb Hc Hd Hp. unfold parse_ip4_addrs, ip4_text. rewrite <-!(assoc_L (++)). cbn [app].
  do 3 (rewrite scan_octet by done; cbn [mbind option_bind scan_char]; rewrite Z.eqb_refl; cbn [mbind option_bind]).
  destruct port as [p|]; cbn [port_text app].
  - rewrite scan_octet by done. cbn [mbind option_bind scan_char]. rewrite Z.eqb_refl.
    specialize (Hp p eq_refl). rewrite <-(app_nil_r (dec p)). unfold is_uint in Hp.
    cbn [mbind option_bind]. rewrite scan_uint_dec by done. cbn [mbind option_bind]. by rewrite uwrap_id.
  - unfold is_uint in Hd. rewrite scan_uint_dec by (done || lia). cbn [mbind option_bind scan_char].
    by rewrite uwrap_id.
Qed.

(** ** The operations *)

Definition EAGAIN_code : Z := 11.
Definition ETIMEDOUT : errno := EOTHER 110.
Definition EDESTADDRREQ : errno := EOTHER 89.
Definition AF_UNIX : Z := 1.
Definition AF_INET : Z := 2.
Definition AF_INET6 : Z := 10.

(** An element of the list [struct addrinfo], with its socket address; [NULL] is
    the empty list.  The port is in host order. *)
Record addrinfo := mk_addrinfo { sa_family : Z; sa_port : Z; sa_addr : bytes }.

Section Resolve.
(** [co_current()], [time(NULL)], and the resolver: its queries, and the status
    with which a query cannot be made. *)
Context {Q : Type} (me : nat) (time : io Z).
Context (cf_resolve_submit : bytes → io (Z + Q)) (cf_resolve_pollfd : Q → io Z).
Context (cf_resolve_fetch : Q → io (Z * list addrinfo)) (cf_resolve_destroy : Q → io unit).

(** One turn of [while ( 42 )]; [deadline] is [timeout_sec]. *)
Definition resolve_turn (q : Q) (deadline : Z) (_ : unit) : io (unit + Z * list addrinfo) :=
  '(status, ai) ← cf_resolve_fetch q;
  if status =? 0 then mret (inr (status, ai))
  else if status =? EAGAIN_code then
    expired ← (if 0 <? deadline then t ← time; mret (deadline <? t) else mret false);
    if (expired : bool) then _ ← call (SetErrno ETIMEDOUT); mret (inr (status, ai))
    else
      so ← cf_resolve_pollfd q;
      if so =? -1 then mret (inr (status, ai))
      else _ ← co_io_wait me so EPOLLIN 1000; mret (inl ())
  else mret (inr (status, ai)).

(** The status and [*aip], which was [aip] before.  [memory]: [calloc] has some;
    [None] is the use of the [NULL] it returns otherwise. *)
Definition co_resolve (memory : bool) (name : bytes) (aip : list addrinfo) (timeout_sec : Z) :
    io (option (Z * list addrinfo)) :=
  match parse_ip4_addrs name with
  | Some (address, port) =>
    mret (if memory then Some (0, [mk_addrinfo AF_INET (default 0 port) (be_bytes 4 address)]) else None)
  | None =>
    deadline ← (if 0 <? timeout_sec then t ← time; mret (t + timeout_sec) else mret timeout_sec);
    sq ← cf_resolve_submit name;
    match sq with
    | inl status => mret (Some (status, aip))
    | inr q =>
      _ ← call (SetErrno (EOTHER 0));
      r ← loop (resolve_turn q deadline) ();
      _ ← cf_resolve_destroy q;
      mret (Some r)
    end
  end.

Definition set_port (port : Z) (ai : addrinfo) : addrinfo :=
  if (sa_family ai =? AF_INET) || (sa_family ai =? AF_INET6) then mk_addrinfo (sa_family ai) port (sa_addr ai)
  else ai.

(** The seconds [co_resolve] is given for [tmo] milliseconds. *)
Definition server_timeout (tmo : Z) : Z := if 0 <? tmo then Z.quot tmo 1000 else 15 * 1000.

Definition co_server_resolve (memory : bool) (ai : list addrinfo) (address : bytes) (port tmo : Z) :
    io (option (bool * list addrinfo)) :=
  r ← co_resolve memory address ai (server_timeout tmo);
  match r with
  | None => mret None
  | Some (status, ai) =>
    if negb (status =? 0) then mret (Some (false, ai))
    else
      match ai with
      | [] => mret None
      | a :: rest =>
        if (port =? 0) && negb (sa_family a =? AF_UNIX) then fails EDESTADDRREQ (Some (false, ai))
        else mret (Some (true, set_port port a :: rest))
      end
  end.

(** ** What they rely on *)

Section Outcome.
Context {K : Type} `{Kernel K} {HT : Timely K}.
Implicit Types (w : world K).

Abbreviation ensures := (ensures handle).
Abbreviation returns := (returns handle).

(** A call of the resolver: it does not wait, and time does not go back. *)
Definition quiet (n : K → nat) (d : nat) w w' : Prop :=
  w_wait w' = w_wait w ∧ k_now (w_kern w) <= k_now (w_kern w') ∧
  (pending (w_kern w') ≤ pending (w_kern w))%nat ∧ n (w_kern w') = (n (w_kern w) + d)%nat.

(** [answers name ai]: the resolver knows the addresses [ai] of [name].
    [opened]: the number of queries that are open.  [c] bounds the steps of a call
    of the resolver. *)
Class Resolver (wall : K → Z) (answers : bytes → list addrinfo → Prop) (asks : Q → bytes)
    (opened : K → nat) (c : nat) : Prop := {
  time_reads w : returns 3 time w (λ t w', t = wall (w_kern w) ∧ w' = w);
  wall_positive k : 0 <= wall k;
  wall_mono k k' : k_now k <= k_now k' → wall k <= wall k';
  wall_second k k' : 0 < k_now k → k_now k + 1000 <= k_now k' → wall k + 1 <= wall k';
  submit_opens name w : returns c (cf_resolve_submit name) w (λ sq w',
    match sq with
    | inl status => status ≠ 0 ∧ quiet opened 0 w w'
    | inr q => asks q = name ∧ quiet opened 1 w w'
    end);
  fetch_answers q w : returns c (cf_resolve_fetch q) w (λ r w',
    quiet opened 0 w w' ∧ (r.1 = 0 → answers (asks q) r.2));
  pollfd_quiet q w : returns c (cf_resolve_pollfd q) w (λ _ w', quiet opened 0 w w');
  destroy_closes q w : (0 < opened (w_kern w))%nat → returns c (cf_resolve_destroy q) w (λ _ w',
    w_wait w' = w_wait w ∧ w_errno w' = w_errno w ∧ k_now (w_kern w) <= k_now (w_kern w') ∧
    S (opened (w_kern w')) = opened (w_kern w));
  main_keeps_queries ws k : opened (k_main ws k).2 = opened k;
}.

(** The core has room for waiters, and epoll takes the descriptor of a query. *)
Class Epolls (opened : K → nat) : Prop := {
  has_room k : k_spare k = true;
  epoll_takes so ev k : so ≠ -1 → let '(r, _, k') := k_epoll_add so ev k in
    r = 0 ∧ k_now k <= k_now k' ∧ (pending k' ≤ pending k)%nat ∧ opened k' = opened k;
  epoll_gives_back so k : let k' := k_epoll_remove so k in
    k_now k <= k_now k' ∧ (pending k' ≤ pending k)%nat ∧ opened k' = opened k;
}.

Context (wall : K → Z) (answers : bytes → list addrinfo → Prop) (asks : Q → bytes) (opened : K → nat) (c : nat).
Context {HR : Resolver wall answers asks opened c} {HE : Epolls opened}.

(** A coroutine that waits for nothing else sleeps until an event, or for a second. *)
Lemma second_passes so w :
  so ≠ -1 → w_wait w = ∅ → 0 < k_now (w_kern w) →
  returns 17 (co_io_wait me so EPOLLIN 1000) w (λ _ w', w_wait w' = ∅ ∧
    k_now (w_kern w) <= k_now (w_kern w') ∧ (pending (w_kern w') ≤ pending (w_kern w))%nat ∧
    opened (w_kern w') = opened (w_kern w) ∧
    ((pending (w_kern w') < pending (w_kern w))%nat ∨ wall (w_kern w) + 1 <= wall (w_kern w'))).
Proof.
  intros Hso Hw Hn. destruct (k_epoll_add so EPOLLIN (w_kern w)) as [[r e] k] eqn:Hadd.
  pose proof (epoll_takes so EPOLLIN (w_kern w) Hso) as Hk. rewrite Hadd in Hk.
  destruct Hk as (-> & Hk1 & Hk2 & Hk3).
  eapply returns_weaken; [eapply co_io_wait_returns; [apply has_room|done|exact Hadd]|done|].
  cbn beta zeta. intros rev w' (_ & Hk' & _ & Hr). rewrite Hw in Hk'.
  rewrite insert_empty in Hk'. set (wt := set_mask _ _) in Hk'.
  match type of Hk' with context [{[?a := wt]}] => set (a0 := a) in * end.
  assert (tmo wt = k_now (w_kern w) + 1000) as Htm by done.
  pose proof (main_wakes a0 wt k ltac:(lia)) as Hmain. pose proof (main_keeps_queries {[a0 := wt]} k) as Ho.
  destruct (k_main {[a0 := wt]} k) as [s k3]. cbn [snd] in *.
  pose proof (epoll_gives_back so k3) as (Hg1 & Hg2 & Hg3). destruct Hmain as (Hm1 & Hm2 & Hm3).
  rewrite <-Hk' in Hg1, Hg2, Hg3. split_and!; [|lia|lia|congruence|].
  - unfold regs in Hr. injection Hr as Hd _. rewrite Hw, dom_empty_L in Hd. by apply dom_empty_inv_L.
  - destruct Hm3 as [Hp|[Ht _]]; [left; lia|right]. apply wall_second; lia.
Qed.

(** The program returns [x] in the world [w']. *)
Definition evals {R} (t : io R) w (x : R) w' : Prop := ∃ n, run handle n t w = Some (x, w').

Lemma returns_evals {R} n (t : io R) w (Post : R → world K → Prop) :
  returns n t w Post → returns n t w (λ r w', evals t w r w' ∧ Post r w').
Proof. intros (r & w' & Hr & HQ). exists r, w'. split; [done|]. split; [by exists n|done]. Qed.

(** A turn that goes on: the resolver has no answer yet, the time is not over, and
    the coroutine waited on the descriptor of the query, for at most a second. *)
Definition waits (q : Q) (deadline : Z) w w' : Prop :=
  ∃ ai w1 so w2 rev, evals (cf_resolve_fetch q) w (EAGAIN_code, ai) w1 ∧
    wall (w_kern w1) <= deadline ∧ evals (cf_resolve_pollfd q) w1 so w2 ∧ so ≠ -1 ∧
    evals (co_io_wait me so EPOLLIN 1000) w2 rev w'.

(** A turn that ends with what the resolver returned: a status of its own, or
    [EAGAIN] when the time is over or the query has no descriptor. *)
Definition ends (q : Q) (deadline : Z) w (r : Z * list addrinfo) w' : Prop :=
  ∃ w1, evals (cf_resolve_fetch q) w r w1 ∧
    (r.1 ≠ EAGAIN_code ∧ w' = w1 ∨
     r.1 = EAGAIN_code ∧ deadline < wall (w_kern w1) ∧ w' = with_errno ETIMEDOUT w1 ∨
     r.1 = EAGAIN_code ∧ wall (w_kern w1) <= deadline ∧ evals (cf_resolve_pollfd q) w1 (-1) w').

(** How much longer a query can take. *)
Definition patience (deadline : Z) w : nat :=
  (pending (w_kern w) + Z.to_nat (deadline + 1 - wall (w_kern w)))%nat.

(** What the loop keeps: the query, the coroutine's waiters, the clock. *)
Definition resolving (n0 : nat) w : Prop :=
  w_wait w = ∅ ∧ 0 < k_now (w_kern w) ∧ opened (w_kern w) = n0.

Lemma resolving_quiet n0 w w' : resolving n0 w → quiet opened 0 w w' → resolving n0 w'.
Proof. intros (Hw & Hn & Ho) (Hw' & Hn' & _ & Ho'). split_and!; [congruence|lia|lia]. Qed.

Lemma patience_quiet dl w w' : quiet opened 0 w w' → (patience dl w' ≤ patience dl w)%nat.
Proof.
  intros (_ & Hn & Hp & _). apply wall_mono in Hn. unfold patience. lia.
Qed.

Lemma resolve_turn_returns q dl n0 w :
  0 < dl → resolving n0 w →
  returns (2 * c + 30) (resolve_turn q dl ()) w (λ x w', resolving n0 w' ∧
    match x with
    | inl _ => waits q dl w w' ∧ (patience dl w' < patience dl w)%nat
    | inr r => ends q dl w r w' ∧ (r.1 = 0 → answers (asks q) r.2)
    end).
Proof.
  intros Hdl Hw. unfold resolve_turn.
  eapply (returns_le _ (c + ((3 + 1) + (c + (17 + 1))))); [|lia].
  eapply returns_bind; [apply returns_evals, fetch_answers|]. intros [status ai] w1 [Hev [Hq1 Hans]].
  pose proof (resolving_quiet _ _ _ Hw Hq1) as Hw1. pose proof (patience_quiet dl _ _ Hq1) as Hp1.
  destruct (Z.eqb_spec status 0) as [Hs0|Hs0].
  { eapply (returns_le _ 1); [apply returns_ret|lia]. split; [exact Hw1|]. split; [|exact Hans].
    exists w1. split; [exact Hev|]. left. by rewrite Hs0. }
  destruct (Z.eqb_spec status EAGAIN_code) as [->|Hsa].
  2: { eapply (returns_le _ 1); [apply returns_ret|lia]. split; [exact Hw1|]. split; [|done].
       exists w1. split; [exact Hev|]. by left. }
  rewrite (proj2 (Z.ltb_lt 0 dl)) by done.
  eapply returns_bind.
  { eapply (returns_bind _ 3 1); [apply time_reads|]. intros t ? [-> ->].
    apply (returns_ret _ 0 _ _ (λ b w', b = (dl <? wall (w_kern w1)) ∧ w' = w1)). done. }
  intros b ? [-> ->]. destruct (Z.ltb_spec dl (wall (w_kern w1))) as [Hlt|Hge].
  { eapply (returns_le _ 3); [|lia]. apply returns_call. apply returns_ret. cbn [handle fst snd].
    split; [exact Hw1|]. split; [|done]. exists w1. split; [exact Hev|]. right; by left. }
  eapply returns_bind; [apply returns_evals, pollfd_quiet|]. intros so w2 [Hpo Hq2].
  pose proof (resolving_quiet _ _ _ Hw1 Hq2) as Hw2. pose proof (patience_quiet dl _ _ Hq2) as Hp2.
  destruct (Z.eqb_spec so (-1)) as [->|Hso].
  { eapply (returns_le _ 1); [|lia]. apply returns_ret. split; [done|]. split; [|done].
    exists w1. split; [exact Hev|]. right; by right. }
  destruct Hw2 as (Hwt & Hnow & Ho).
  eapply returns_bind; [by apply returns_evals, second_passes|]. intros rev w3 (Hio & Hw3 & Hn3 & Hp3 & Ho3 & Hd).
  apply returns_ret. split; [split_and!; [done|lia|congruence]|].
  split; [by exists ai, w1, so, w2, rev|].
  destruct Hq2 as (_ & Hn2 & Hpq & _). apply wall_mono in Hn2. apply wall_mono in Hn3.
  unfold patience in *. lia.
Qed.

(** The outcome of a query that was made. *)
Lemma resolve_loop_returns q dl n0 w :
  0 < dl → resolving n0 w →
  returns ((2 * c + 31) * S (patience dl w)) (loop (resolve_turn q dl) ()) w
    (λ r w', resolving n0 w' ∧ (∃ w1, rtc (waits q dl) w w1 ∧ ends q dl w1 r w') ∧
       (r.1 = 0 → answers (asks q) r.2)).
Proof.
  intros Hdl Hw. rewrite <-(Nat.add_1_r (2 * c + 30)) || replace (2 * c + 31)%nat with (2 * c + 30 + 1)%nat by lia.
  apply (returns_loop handle (2 * c + 30) (λ _ w, patience dl w)
    (λ _ w1, resolving n0 w1 ∧ rtc (waits q dl) w w1)); [|by split|done].
  intros [] w1 [Hw1 Hrtc]. eapply returns_weaken; [by apply resolve_turn_returns|done|].
  intros [|r] w2 [Hw2 [H1 H2]].
  - split; [|done]. split; [done|]. by eapply rtc_r.
  - split; [done|]. split; [by exists w1|done].
Qed.

(** The steps of a query for [timeout_sec] seconds. *)
Definition resolve_fuel (timeout_sec : Z) w : nat :=
  8 + 2 * c + (2 * c + 31) * (pending (w_kern w) + Z.to_nat timeout_sec + 2).

Lemma co_resolve_asks name aip timeout_sec w :
  0 < timeout_sec → parse_ip4_addrs name = None → w_wait w = ∅ → 0 < k_now (w_kern w) →
  returns (resolve_fuel timeout_sec w) (co_resolve true name aip timeout_sec) w (λ r w',
    w_wait w' = ∅ ∧ opened (w_kern w') = opened (w_kern w) ∧
    ∃ status ai, r = Some (status, ai) ∧ (status = 0 → answers name ai) ∧
      (ai = aip ∧ evals (cf_resolve_submit name) w (inl status) w' ∨
       ∃ q w1 w2 w3, let deadline := wall (w_kern w) + timeout_sec in
         evals (cf_resolve_submit name) w (inr q) w1 ∧
         rtc (waits q deadline) (with_errno (EOTHER 0) w1) w2 ∧
         ends q deadline w2 (status, ai) w3 ∧ evals (cf_resolve_destroy q) w3 () w')).
Proof.
  intros Ht Hname Hw Hn. unfold co_resolve. rewrite Hname, (proj2 (Z.ltb_lt 0 timeout_sec)) by done.
  set (dl := wall (w_kern w) + timeout_sec).
  eapply (returns_le _ ((3 + 1) + (c + (2 + ((2 * c + 31) * (pending (w_kern w) + Z.to_nat timeout_sec + 2) + (c + 1))))));
    [|unfold resolve_fuel; lia].
  eapply returns_bind.
  { eapply (returns_bind _ 3 1); [apply time_reads|]. intros t ? [-> ->].
    apply (returns_ret _ 0 _ _ (λ d w', d = dl ∧ w' = w)). done. }
  intros d ? [-> ->]. eapply returns_bind; [apply returns_evals, submit_opens|].
  intros [status|q] w1 [Hev Hpost].
  { destruct Hpost as (Hs & Hw1 & _ & _ & Ho). apply (returns_ret _ (1 + _)).
    split; [congruence|]. split; [lia|]. exists status, aip. split_and!; [done..|]. by left. }
  destruct Hpost as (Hq & Hw1 & Hn1 & Hp1 & Ho1). apply returns_call. cbn [handle fst snd].
  assert (0 < dl) as Hdl by (pose proof (wall_positive (w_kern w)); lia).
  eapply returns_bind.
  { eapply returns_le; [apply (resolve_loop_returns q dl (S (opened (w_kern w))))|]; [done| |].
    - split_and!; cbn; [congruence|lia|lia].
    - apply Nat.mul_le_mono_l. apply wall_mono in Hn1. unfold patience, dl. cbn. lia. }
  intros [status ai] w2 ((Hw2 & Hn2 & Ho2) & (w4 & Hrtc & Hends) & Hans). cbn [fst snd] in *.
  eapply returns_bind; [apply returns_evals, destroy_closes; lia|].
  intros [] w3 (Hde & Hw3 & He3 & Hn3 & Ho3). apply returns_ret.
  split; [congruence|]. split; [lia|]. exists status, ai. split; [done|]. rewrite <-Hq at 1.
  split; [done|]. right. by exists q, w1, w4, w2.
Qed.

(** C16: with a timeout, [co_resolve] of a name that is no address returns after a
    number of steps bounded by the timeout and the events still to come, however
    long the servers are silent.  The query is closed again and no waiter is left
    behind; the status 0 comes with what the resolver knows of the name.  The
    status is that with which the query could not be made, and nothing else is
    returned then, or what the resolver returned last, with its addresses: whatever
    is not [EAGAIN] is returned at once, and [EAGAIN] only when the time is over,
    with [ETIMEDOUT], or when the query has no descriptor to wait on; before that,
    the coroutine waited on the descriptor after each [EAGAIN], within the time.
    This is for a coroutine that has no other waiter, on a core with room for one
    and an epoll that takes the descriptor ([Epolls]), and a resolver whose own
    calls return, within [c] steps ([Resolver]). *)
Theorem co_resolve_returns name aip timeout_sec w
    (Ht : 0 < timeout_sec) (Hname : parse_ip4_addrs name = None)
    (Hw : w_wait w = ∅) (Hn : 0 < k_now (w_kern w)) :
  returns (resolve_fuel timeout_sec w) (co_resolve true name aip timeout_sec) w (λ r w',
    w_wait w' = ∅ ∧ opened (w_kern w') = opened (w_kern w) ∧
    ∃ status ai, r = Some (status, ai) ∧ (status = 0 → answers name ai) ∧
      (ai = aip ∧ evals (cf_resolve_submit name) w (inl status) w' ∨
       ∃ q w1 w2 w3, let deadline := wall (w_kern w) + timeout_sec in
         evals (cf_resolve_submit name) w (inr q) w1 ∧
         rtc (waits q deadline) (with_errno (EOTHER 0) w1) w2 ∧
         ends q deadline w2 (status, ai) w3 ∧ evals (cf_resolve_destroy q) w3 () w')).
Proof. by apply co_resolve_asks. Qed.

End Outcome.

(** ** Without a timeout *)

Section Silence.
Context {K : Type} `{Kernel K}.
Implicit Types (w : world K).
Abbreviation ensures := (ensures handle).

(** The servers never answer, and the query has a descriptor. *)
Hypothesis submits : ∀ name w, ensures (cf_resolve_submit name) w (λ sq _, ∃ q, sq = inr q).
Hypothesis silent : ∀ q w, ensures (cf_resolve_fetch q) w (λ r _, r.1 = EAGAIN_code).
Hypothesis waits : ∀ q w, ensures (cf_resolve_pollfd q) w (λ so _, so ≠ -1).

Lemma ensures_anything {R} (t : io R) w : ensures t w (λ _ _, True).
Proof. done. Qed.

Lemma co_resolve_waits_forever memory name aip w :
  parse_ip4_addrs name = None → ensures (co_resolve memory name aip 0) w (λ _ _, False).
Proof.
  intros Hname. unfold co_resolve. rewrite Hname.
  apply (ensures_bind handle _ _ _ (λ d _, d = 0)); [by apply ensures_ret|]. intros d w1 ->.
  eapply ensures_bind; [apply submits|]. intros sq w2 [q ->].
  apply ensures_call. apply (ensures_bind handle _ _ _ (λ _ _, False)); [|done].
  apply (ensures_loop handle (λ _ _, True)); [|done]. intros [] w3 _. unfold resolve_turn.
  eapply ensures_bind; [apply silent|]. intros [status ai] w4. cbn [fst]. intros ->. cbn [Z.eqb EAGAIN_code Pos.eqb].
  apply (ensures_bind handle _ _ _ (λ b _, b = false)); [by apply ensures_ret|]. intros b w5 ->.
  eapply ensures_bind; [apply waits|]. intros so w6 Hso. cbn beta in Hso.
  rewrite (proj2 (Z.eqb_neq so (-1))) by done.
  eapply ensures_bind; [apply ensures_anything|]. intros r w7 _. by apply ensures_ret.
Qed.

(** A timeout of less than a second is none at all. *)
Lemma short_timeout_waits_forever memory ai name port tmo w :
  0 < tmo < 1000 → parse_ip4_addrs name = None →
  ensures (co_server_resolve memory ai name port tmo) w (λ _ _, False).
Proof.
  intros Ht Hname. unfold co_server_resolve, server_timeout.
  rewrite (proj2 (Z.ltb_lt 0 tmo)), Z.quot_small by lia.
  apply (ensures_bind handle _ _ _ (λ _ _, False)); [|done]. by apply co_resolve_waits_forever.
Qed.

End Silence.
End Resolve.

(** 0 is taken for 15000 seconds. *)
Example default_timeout : server_timeout 0 = 15000. Proof. done. Qed.

(** Names that are no addresses: ["1.2.3.4.example"] and ["256.1.2.3"]. *)
Example names_taken_for_addresses :
  parse_ip4_addrs [49; 46; 50; 46; 51; 46; 52; 46; 101; 120; 97; 109; 112; 108; 101] = Some (INET_ADDR 1 2 3 4, None) ∧
  parse_ip4_addrs [50; 53; 54; 46; 49; 46; 50; 46; 51] = Some (INET_ADDR 0 1 2 3, None).
Proof. by vm_compute. Qed.

(** ** A resolver over a script *)

(** The script of [CoSocket], with the number of queries that are open. *)
#[export] Instance counted_kernel : Kernel (script * nat) := {
  k_now k := s_now k.1;
  k_spare _ := true;
  k_main ws k := let '(s, k1) := script_main ws k.1 in (s, (k1, k.2));
  k_send _ buf _ k := let '(r, e, k1) := script_send buf k.1 in (r, e, (k1, k.2));
  k_recv _ n _ k := let '(r, e, d, k1) := script_recv n k.1 in (r, e, d, (k1, k.2));
  k_accept _ k := (-1, EAGAIN, k);
  k_connect _ k := (0, EAGAIN, k);
  k_so_error _ k := (EOTHER 0, k);
  k_timeout _ _ := Some 0;
  k_epoll_add _ _ k := (0, EAGAIN, k);
  k_epoll_remove _ k := k;
  k_non_blocking _ k := (true, (k.1, S k.2));
  k_close _ k := (k.1, pred k.2);
}.

#[export] Instance counted_timely : Timely (script * nat).
Proof.
  refine {| pending k := length (s_naps k.1) |}.
  - intros a wt [k n] Ht. cbn. pose proof (main_wakes a wt k Ht) as Hm. cbn in Hm.
    by destruct (script_main {[a := wt]} k).
  - intros so buf fl [k n]. cbn. pose proof (send_now so buf fl k) as Hm. cbn in Hm.
    by destruct (script_send buf k) as [[] ?].
  - intros so m fl [k n]. cbn. pose proof (recv_now so m fl k) as Hm. cbn in Hm.
    by destruct (script_recv m k) as [[[] ?] ?].
Defined.

Definition time0 : io Z := t ← call Now; mret (Z.max 0 (t / 1000)).
Definition address0 : addrinfo := mk_addrinfo AF_INET 0 [10; 0; 0; 1].
Definition submit0 (name : bytes) : io (Z + bytes) := _ ← call (SetNonBlocking 9); mret (inr name).
Definition pollfd0 (q : bytes) : io Z := mret 9.
Definition fetch0 (q : bytes) : io (Z * list addrinfo) :=
  '(r, _) ← call (Recv 9 512 0);
  mret (if 0 <? r then (0, [address0]) else (EAGAIN_code, [])).
Definition destroy0 (q : bytes) : io unit := call (Close 9).
Definition wall0 (k : script * nat) : Z := Z.max 0 (s_now k.1 / 1000).
Definition answers0 (name : bytes) (ai : list addrinfo) : Prop := ai = [address0].

#[export] Instance resolver0 :
  Resolver time0 submit0 pollfd0 fetch0 destroy0 wall0 answers0 id snd 3.
Proof.
  split.
  - intros w. unfold time0. apply returns_call. by apply returns_ret.
  - unfold wall0. lia.
  - unfold wall0. cbn. intros k k' Hk. apply Z.max_le_compat_l. apply Z.div_le_mono; lia.
  - unfold wall0. cbn. intros k k' Hn Hk. pose proof (Z.div_pos (s_now k.1) 1000 ltac:(lia) ltac:(lia)).
    assert (s_now k.1 / 1000 + 1 <= s_now k'.1 / 1000).
    { rewrite <-(Z.div_add _ 1) by lia. apply Z.div_le_mono; lia. }
    lia.
  - intros name w. apply returns_call. apply returns_ret. split; [done|].
    cbn. unfold quiet. cbn. split_and!; [done|lia..].
  - intros q w. unfold fetch0. apply returns_call. cbn [handle].
    pose proof (recv_now 9 512 0 (w_kern w)) as Hr.
    assert (snd (k_recv 9 512 0 (w_kern w)).2 = snd (w_kern w)) as Ho.
    { cbn. by destruct (script_recv 512 (w_kern w).1) as [[[] ?] ?]. }
    destruct (k_recv 9 512 0 (w_kern w)) as [[[r e] d] k]. cbn [fst snd] in *.
    change (syscall (r, d) r e k w).1 with (r, d). cbn iota beta. apply returns_ret.
    unfold quiet. rewrite w_kern_syscall. split; [|by destruct (0 <? r)].
    split_and!; [unfold syscall; cbn; by destruct (r <? 0)|apply Hr..|lia].
  - intros q w. apply returns_ret. split_and!; [done|lia..].
  - intros q w Ho. apply (returns_trigger handle 1). cbn in *. by split_and!; [..|lia|lia].
  - intros ws k. cbn. by destruct (script_main ws k.1).
Qed.

#[export] Instance epolls0 : Epolls (K := script * nat) snd.
Proof. split; [done|intros so ev k _; cbn; auto with lia|intros so k; cbn; auto with lia]. Qed.

(** The server answers a second after it was asked, or never. *)
Definition asking0 (answer : list (option bytes)) : world (script * nat) :=
  mk_world 0 (EOTHER 0) ∅ [] (mk_script 100 [] [] answer [] [], 0%nat).
Definition name0 : bytes := [97; 46; 98].

Lemma co_resolve_returns_witness :
  let resolve := co_resolve 1 time0 submit0 pollfd0 fetch0 destroy0 true name0 [] 5 in
  let silent := run handle 400 resolve (asking0 []) in
  ((fst <$> run handle 400 resolve (asking0 [Some []; Some [1]])) = Some (Some (0, [address0])) ∧
   (prod_map id w_errno <$> silent) = Some (Some (EAGAIN_code, []), ETIMEDOUT)) ∧
  returns handle (resolve_fuel 3 5 (asking0 [])) resolve (asking0 []) (λ r w',
    w_wait w' = ∅ ∧ (w_kern w').2 = 0%nat ∧
    ∃ status ai, r = Some (status, ai) ∧ (status = 0 → answers0 name0 ai) ∧
      (ai = [] ∧ evals (submit0 name0) (asking0 []) (inl status) w' ∨
       ∃ q w1 w2 w3, let deadline := wall0 (w_kern (asking0 [])) + 5 in
         evals (submit0 name0) (asking0 []) (inr q) w1 ∧
         rtc (waits 1 pollfd0 fetch0 wall0 q deadline) (with_errno (EOTHER 0) w1) w2 ∧
         ends pollfd0 fetch0 wall0 q deadline w2 (status, ai) w3 ∧ evals (destroy0 q) w3 () w')).
Proof.
  split; [by vm_compute|].
  apply (co_resolve_returns 1 time0 submit0 pollfd0 fetch0 destroy0 wall0 answers0 id snd 3 name0 [] 5 (asking0 []));
    done.
Defined.
