(* ===== verification/CoSsl.v ===== *)
(** The sockets a channel talks over ([src/cothread/co-ssl.c]): the callbacks
    OpenSSL calls to read and write, and the calls of the channel, which go to
    OpenSSL or straight to the socket.  [socket_transport] makes the plain socket
    of [CoSocket] the transport of the message protocol of [CorpcProto], and
    [messages_framed] composes the two. *)

From S2P Require Import Prelude Hash CorpcProto CoWaiter CoProg CoSocket.

Open Scope Z_scope.

(** ** The calls *)

Section Calls.
(** [co_current()], and the programs of OpenSSL, which read and write the socket
    by the callbacks below. *)
Variable me : nat.
Variable SSL_write : bytes → io Z.
Variable SSL_read : nat → io (Z * bytes).

Definition bio_co_socket_read (cc : option co_socket) (has_buf : bool) (size : nat) : io (Z * bytes) :=
  if has_buf then co_socket_recv me cc true size 0 else mret (0, []).
Definition bio_co_socket_write (cc : option co_socket) (buf : option bytes) : io Z :=
  co_socket_send me cc buf 0.
(** [str] without its terminator. *)
Definition bio_co_socket_puts (cc : option co_socket) (str : bytes) : io Z :=
  bio_co_socket_write cc (Some str).

(** [ssl]: whether the socket has an [SSL] object. *)
Record co_ssl_socket := mk_ssl_socket { cc : co_socket; ssl : bool }.

Definition co_ssl_socket_send (ssl_sock : option co_ssl_socket) (buf : option bytes) : io Z :=
  match ssl_sock, buf with
  | None, _ => fails EBADF (-1)
  | Some _, None => fails EINVAL (-1)
  | Some s, Some b => if ssl s then SSL_write b else co_socket_send me (Some (cc s)) buf 0
  end.

Definition co_ssl_socket_recv (ssl_sock : option co_ssl_socket) (has_buf : bool) (size : nat) : io (Z * bytes) :=
  match ssl_sock with
  | None => fails EBADF (-1, [])
  | Some s =>
    if negb has_buf then fails EINVAL (-1, [])
    else if ssl s then SSL_read size else co_socket_recv me (Some (cc s)) has_buf size 0
  end.

End Calls.

(** ** The transport of a channel *)

Section Transport.
Context {K : Type} `{Kernel K} {HT : Timely K}.
Context (me : nat) (SSL_write : bytes → io Z) (SSL_read : nat → io (Z * bytes)) (sock : co_socket).
Implicit Types (w : world K).

Definition plain : option co_ssl_socket := Some (mk_ssl_socket sock false).

Definition send_fuel (buf : bytes) w : nat := 20 + 15 * S (length buf + pending (w_kern w)).
Definition recv_fuel w : nat := 30 + 17 * S (2 * pending (w_kern w) + 1).

(** The calls run to their end; [transport_returns] shows that the fuel is
    enough, so that the values for a call that does not return are never used. *)
#[local] Instance socket_transport : Transport (world K) := {
  CorpcProto.co_ssl_socket_send buf w :=
    default (-1, w) (run handle (send_fuel buf w) (co_ssl_socket_send me SSL_write plain (Some buf)) w);
  CorpcProto.co_ssl_socket_recv n w :=
    default (-1, [], w) (run handle (recv_fuel w) (co_ssl_socket_recv me SSL_read plain true n) w);
}.

(** [co_socket_recv] keeps the promise the protocol relies on. *)
#[local] Instance socket_transport_laws (received : K → bytes) {HL : RecvLaws K received} :
  TransportLaws (world K).
Proof.
  split. intros n w r d w'. cbn [CorpcProto.co_ssl_socket_recv socket_transport].
  destruct (run _ _ _ _) as [[[r1 d1] w1]|] eqn:Hr; cbn; intros [= <- <- <-]; [|split; cbn; lia].
  apply (co_socket_recv_ensures me received (Some sock) true n 0 w) in Hr as [_ Hx].
  case_decide; [by destruct Hx as [[= -> ->] _]; split; cbn; lia|]. cbn in Hx. naive_solver.
Qed.

(** A state in which the coroutine waits for nothing. *)
Definition idle w : Prop := w_wait w = ∅ ∧ 0 < k_now (w_kern w).

Lemma transport_returns (outgoing : K → bytes) {HL : SendLaws K outgoing} buf n w :
  0 <= sendtmo sock <= 2147483 → 0 <= recvtmo sock → regs_ok w → idle w →
  is_Some (run handle (send_fuel buf w) (co_ssl_socket_send me SSL_write plain (Some buf)) w) ∧
  is_Some (run handle (recv_fuel w) (co_ssl_socket_recv me SSL_read plain true n) w).
Proof.
  intros Hs Hr Hok [Hw Hn].
  destruct (co_socket_send_returns me outgoing sock buf 0 w Hs Hok Hw Hn) as (r1 & w1 & H1 & _).
  destruct (co_socket_recv_returns me sock n 0 w Hr Hok Hw Hn) as (r2 & w2 & H2 & _).
  split; eauto.
Qed.

(** The calls by which a channel sends a message. *)
Inductive sends (host : byte_order) : comsg → (world K → bool * world K) → Prop :=
| sends_request sid rwnd service method :
    sends host (mk_comsg sid 0 (CreateStreamRequest rwnd (zlen service) (zlen method) (service ++ method)))
      (corpc_proto_send_create_stream_request host sid rwnd service method)
| sends_responce sid did rwnd status :
    sends host (mk_comsg sid did (CreateStreamResponce status rwnd))
      (corpc_proto_send_create_stream_responce host sid did rwnd status)
| sends_close sid did status :
    sends host (mk_comsg sid did (CloseStream status)) (corpc_proto_send_close_stream host sid did status)
| sends_data sid did data :
    sends host (mk_comsg sid did (Data data)) (corpc_proto_send_data host sid did data)
| sends_ack sid did : sends host (mk_comsg sid did DataAck) (corpc_proto_send_data_ack host sid did).

(** One call after the other.  What fails does not stop the channel: the streams
    whose calls come next go on sending. *)
Fixpoint send_each (fs : list (world K → bool * world K)) w : list bool * world K :=
  match fs with
  | [] => ([], w)
  | f :: fs => let '(ok, w) := f w in let '(oks, w) := send_each fs w in (ok :: oks, w)
  end.

(** What a call for [msg] puts on the connection: a part of its image from the
    start, and all of it when the call succeeds. *)
Definition put (host : byte_order) (msg : comsg) (ok : bool) (d : bytes) : Prop :=
  d `prefix_of` wire host msg ∧ (ok = true → d = wire host msg).

Section Framing.
Context (outgoing : K → bytes) {HL : SendLaws K outgoing}.

(** What has gone out is a prefix of [ds], all of it if [ok]. *)
Definition shipped (ds : bytes) w (ok : bool) w' : Prop :=
  regs_ok w' ∧ ∃ n, outgoing (w_kern w') = outgoing (w_kern w) ++ take n ds ∧
    (ok = true → (length ds ≤ n)%nat).

Lemma shipped_nil w : regs_ok w → shipped [] w true w.
Proof. intros ?. split; [done|]. exists 0%nat. cbn. rewrite app_nil_r. auto with lia. Qed.

Lemma shipped_more ds1 ds2 w w1 ok w' :
  shipped ds1 w true w1 → shipped ds2 w1 ok w' → shipped (ds1 ++ ds2) w ok w'.
Proof.
  intros [_ (n & Ho & Hn)] [Hok (m & Ho' & Hm)]. split; [done|]. exists (length ds1 + m)%nat.
  rewrite Ho', Ho, (take_ge ds1 n), <-(assoc_L (++)) by auto. split.
  - f_equal. by rewrite take_app_add.
  - rewrite length_app. intros. specialize (Hm ltac:(done)). lia.
Qed.

Lemma shipped_less ds1 ds2 w w' : shipped ds1 w false w' → shipped (ds1 ++ ds2) w false w'.
Proof.
  intros [Hok (n & Ho & _)]. split; [done|]. exists (n `min` length ds1)%nat. split; [|done].
  rewrite Ho, take_app_le by lia. by rewrite <-take_take, (take_ge ds1 (length ds1)).
Qed.

Lemma minus_one_short (d : bytes) : (-1 =? zlen d) = true → False.
Proof. intros ?%Z.eqb_eq. lia. Qed.

Lemma send_whole_ships d w ok w' :
  regs_ok w → send_whole d w = (ok, w') → shipped d w ok w'.
Proof.
  intros Hok. unfold send_whole. cbn [CorpcProto.co_ssl_socket_send socket_transport].
  destruct (run _ _ _ _) as [[r w1]|] eqn:Hr; cbn -[Z.eqb]; intros [= <- <-].
  - apply (co_socket_send_ensures me outgoing (Some sock) (Some d) 0 w Hok) in Hr as [Hregs Hx].
    split. { intros a. injection Hregs as -> ->. apply Hok. }
    case_decide; [destruct Hx as [-> ->]; exists 0%nat|destruct Hx as (n & Hn & Ho & Hrn); exists (Z.to_nat n)].
    + rewrite app_nil_r. split; [done|]. by intros []%minus_one_short.
    + split; [done|]. intros ?%Z.eqb_eq. lia.
  - split; [done|]. exists 0%nat. rewrite app_nil_r. split; [done|]. by intros []%minus_one_short.
Qed.

Lemma send_chunks_ship ds w ok w' :
  regs_ok w → send_chunks ds w = (ok, w') → shipped (concat ds) w ok w'.
Proof.
  revert w. induction ds as [|d ds IH]; intros w Hok; cbn.
  { intros [= <- <-]. by apply shipped_nil. }
  destruct (send_whole d w) as [[] w1] eqn:Hd; intros Hr; apply send_whole_ships in Hd; try done.
  - eapply shipped_more; [done|]. apply IH; [apply Hd|done].
  - injection Hr as <- <-. by apply shipped_less.
Qed.

Lemma sends_wire host msg f w ok w' :
  sends host msg f → valid msg → regs_ok w → f w = (ok, w') → shipped (wire host msg) w ok w'.
Proof.
  intros Hf Hv Hok.
  destruct Hf; rewrite ?(send_request_wire host _ _ _ _ w Hv), ?(send_responce_wire host _ _ _ _ w Hv),
    ?(send_close_wire host _ _ _ w Hv), ?(send_data_wire host _ _ _ w Hv), ?(send_data_ack_wire host _ _ w Hv);
    intros Hs%send_chunks_ship; try done; cbn [concat] in Hs; by rewrite ?app_nil_r in Hs.
Qed.

Lemma shipped_put host msg w ok w' :
  shipped (wire host msg) w ok w' →
  ∃ d, put host msg ok d ∧ outgoing (w_kern w') = outgoing (w_kern w) ++ d.
Proof.
  intros [_ (n & Ho & Hn)]. exists (take n (wire host msg)). split; [|done].
  split; [apply prefix_take|]. intros Hok. by apply take_ge, Hn.
Qed.

Lemma send_each_puts host msgs fs w oks w' :
  Forall2 (sends host) msgs fs → Forall valid msgs → regs_ok w → send_each fs w = (oks, w') →
  ∃ ds, Forall3 (put host) msgs oks ds ∧ outgoing (w_kern w') = outgoing (w_kern w) ++ concat ds.
Proof.
  intros Hmsgs. revert w oks. induction Hmsgs as [|msg f msgs fs Hf Hfs IH]; intros w oks Hv Hok;
    cbn [send_each].
  { intros [= <- <-]. exists []. split; [constructor|by rewrite app_nil_r]. }
  apply Forall_cons in Hv as [Hv1 Hv].
  destruct (f w) as [ok w1] eqn:Hd. destruct (send_each fs w1) as [oks1 w2] eqn:Hs. intros [= <- <-].
  eapply sends_wire in Hd; [|done..]. destruct (shipped_put _ _ _ _ _ Hd) as (d & Hp & Ho).
  destruct (IH w1 oks1 Hv (proj1 Hd) Hs) as (ds & Hps & Hos).
  exists (d :: ds). split; [by constructor|]. cbn. by rewrite Hos, Ho, (assoc_L (++)).
Qed.

End Framing.

End Transport.

(** ** The bytes of a sequence of messages *)

Section Messages.
Context {K : Type} `{Kernel K} {HT : Timely K} (outgoing : K → bytes) {HL : SendLaws K outgoing}.
Context (me : nat) (SSL_write : bytes → io Z) (SSL_read : nat → io (Z * bytes)) (sock : co_socket).

Abbreviation sends := (sends me SSL_write SSL_read sock).

(** C7: the messages a channel sends one after the other on a plain socket, over
    whatever kernel and whatever it takes at a time, put on the connection their
    wire images, in order: each whole when its call succeeded, and cut short only
    where a call failed.  When every call succeeded the peer is sent exactly the
    messages; a call that failed may leave a part of its message, and what is sent
    after it follows that part. *)
Theorem messages_framed (host : byte_order) (msgs : list comsg) fs (w w' : world K) (oks : list bool)
    (Hmsgs : Forall2 (sends host) msgs fs) (Hvalid : Forall valid msgs) (Hok : regs_ok w)
    (Hrun : send_each fs w = (oks, w')) :
  (∃ ds, Forall3 (put host) msgs oks ds ∧ outgoing (w_kern w') = outgoing (w_kern w) ++ concat ds) ∧
  (Forall (.= true) oks → outgoing (w_kern w') = outgoing (w_kern w) ++ concat (wire host <$> msgs)).
Proof.
  eapply send_each_puts in Hrun as (ds & Hp & Ho); [|done..]. split; [by exists ds|].
  intros Hall. rewrite Ho. do 2 f_equal. clear Hmsgs Ho Hvalid.
  induction Hp as [|msg ok d msgs oks ds [_ Hd] _ IH]; [done|].
  apply Forall_cons in Hall as [-> Hall]. cbn. by rewrite Hd, IH.
Qed.

End Messages.

(** A responce and an acknowledgement, by a kernel that takes a few bytes at a
    time. *)
Definition link0 : world script := world0 (mk_script 100 [5; 0; 20; 7; 9] [] [] [] [(false, EPOLLOUT)]).
Definition calls0 : list (world script → bool * world script) :=
  let T := socket_transport 1 (λ _, mret 0) (λ _, mret (0, [])) socket0 in
  [corpc_proto_send_create_stream_responce (H := T) LITTLE_ENDIAN 3 5 1 0;
   corpc_proto_send_data_ack (H := T) LITTLE_ENDIAN 3 5].
Definition msgs0 : list comsg :=
  [mk_comsg 3 5 (CreateStreamResponce 0 1); mk_comsg 3 5 DataAck].

Lemma messages_framed_witness :
  s_out (w_kern (send_each calls0 link0).2) = concat (wire LITTLE_ENDIAN <$> msgs0) ∧
  ((∃ ds, Forall3 (put LITTLE_ENDIAN) msgs0 (send_each calls0 link0).1 ds ∧
     s_out (w_kern (send_each calls0 link0).2) = s_out (w_kern link0) ++ concat ds) ∧
   (Forall (.= true) (send_each calls0 link0).1 →
     s_out (w_kern (send_each calls0 link0).2) =
       s_out (w_kern link0) ++ concat (wire LITTLE_ENDIAN <$> msgs0))).
Proof.
  split; [by vm_compute|].
  apply (messages_framed s_out 1 (λ _, mret 0) (λ _, mret (0, [])) socket0 LITTLE_ENDIAN msgs0 calls0).
  - repeat constructor.
  - by_decide.
  - apply world0_ok.
  - apply surjective_pairing.
Defined.
