(* ===== verification/CorpcLink.v ===== *)
(** Two endpoints and the network between them: what the receiving loop of one
    channel ([corpc_channel_thread] of [src/corpc/corpc-channel.c]) accepts, when
    its socket delivers the bytes the other endpoint put on the connection.
    [messages_received_in_order] is the composition of the message protocol, the
    sockets of both ends and a network that loses nothing in the middle. *)

From S2P Require Import Prelude Hash CoWaiter CoProg CoSocket CoSsl CorpcProto.
Import Crc32.

Open Scope Z_scope.

(** ** The receiving loop *)

Section Loop.
Context {S : Type} `{Transport S}.
Variable host : byte_order.
Implicit Types (s : S) (m : bytes).

(** [while ( corpc_proto_recv_msg(channel->ssl_sock, msg) )]: what the handlers of
    the channel are given of each message, and the socket when the loop stops.  A
    turn is the memory of its message, fresh or left from the one before, and the
    [fok] of the handler of that message ([CorpcChannel] has the handlers); the
    loop is looked at for as many turns as there are.  [None]: undefined
    behaviour. *)
Fixpoint recv_seq (turns : list (bytes * bool)) s : option (list (option comsg) * S) :=
  match turns with
  | [] => Some ([], s)
  | (m, fok) :: turns =>
    r ← corpc_proto_recv_msg host m s;
    if negb (r_ok r) then Some ([], r_sock r)
    else if negb fok then Some ([view host (r_msg r)], r_sock r)
    else '(vs, s') ← recv_seq turns (r_sock r); Some (view host (r_msg r) :: vs, s')
  end.

(** [consumed]: all the bytes the socket has handed over so far. *)
Class Consumes (consumed : S → bytes) : Prop := {
  recv_consumes n s r d s' : co_ssl_socket_recv n s = (r, d, s') →
    zlen d = Z.max 0 r ∧ consumed s' = consumed s ++ d;
}.

Context {HL : TransportLaws S} (consumed : S → bytes) {HC : Consumes consumed}.

(** What one call consumed. *)
Lemma read_consumes pos size m s ok m' s' :
  co_proto_read pos size m s = Some (ok, m', s') → ∃ d, consumed s' = consumed s ++ d.
Proof.
  unfold co_proto_read. destruct (co_ssl_socket_recv size s) as [[r d] s1] eqn:Hr.
  apply recv_consumes in Hr as [_ Hd]. case_decide; [|done]. intros [= _ _ <-]. by exists d.
Qed.

Lemma details_consumes size fields m s r :
  recv_details host size fields m s = Some r → ∃ d, consumed (r_sock r) = consumed s ++ d.
Proof.
  unfold recv_details. destruct (co_proto_read off_details size m s) as [[[ok m1] s1]|] eqn:Hr; cbn; [|done].
  apply read_consumes in Hr. unfold recv_check_crc, recv_fail. repeat case_match; by intros [= <-].
Qed.

Lemma switch_consumes m s r :
  recv_switch host m s = Some r → ∃ d, consumed (r_sock r) = consumed s ++ d.
Proof.
  unfold recv_switch, recv_check_crc, recv_fail.
  repeat case_match; try (intros [= <-]; exists []; by rewrite app_nil_r); apply details_consumes.
Qed.

Lemma recv_msg_consumes m s r :
  corpc_proto_recv_msg host m s = Some r → ∃ d, consumed (r_sock r) = consumed s ++ d.
Proof.
  unfold corpc_proto_recv_msg. destruct (co_proto_read _ _ m s) as [[[ok m1] s1]|] eqn:Hr; cbn; [|done].
  apply read_consumes in Hr as [d Hd]. destruct ok; cbn.
  - intros [d' Hd']%switch_consumes. exists (d ++ d'). by rewrite Hd', Hd, (assoc_L (++)).
  - unfold recv_fail. intros [= <-]. by exists d.
Qed.

Lemma prefix_chunk (c d x rest y : bytes) :
  c ++ d ++ y `prefix_of` c ++ x ++ rest → length d = length x → d = x ∧ y `prefix_of` rest.
Proof.
  intros [tl Htl] Hlen. rewrite <-!(assoc_L (++)) in Htl. apply app_inv_head in Htl.
  symmetry in Htl. apply app_inj_1 in Htl as [Hd Hy]; [|done]. split; [done|]. by exists tl.
Qed.

Lemma delivers_one d s s' :
  co_ssl_socket_recv (length d) s = (zlen d, d, s') → delivers s [d] s'.
Proof. intros. econstructor; [done|constructor]. Qed.

(** A message accepted is longer than a header. *)
Lemma recv_header_whole m s r :
  length m = Z.to_nat CORPC_MAX_MSG_SIZE →
  corpc_proto_recv_msg host m s = Some r → r_ok r = true →
  ∃ d0 d' s1, co_ssl_socket_recv sizeof_comsghdr s = (12, d0, s1) ∧ length d0 = 12%nat ∧
    consumed s1 = consumed s ++ d0 ∧ consumed (r_sock r) = (consumed s ++ d0) ++ d'.
Proof.
  intros Hm Hrecv Hok.
  destruct (co_ssl_socket_recv sizeof_comsghdr s) as [[r0 d0] s1] eqn:H0.
  pose proof (recv_consumes _ _ _ _ _ H0) as [Hd0 Hc0]. pose proof (recv_fits _ _ _ _ _ H0) as [_ Hfit].
  assert (r0 = 12 ∧ ∃ d', consumed (r_sock r) = (consumed s ++ d0) ++ d') as [-> (d' & Hd')].
  { pose proof Hrecv as Hr. unfold corpc_proto_recv_msg, co_proto_read in Hr. rewrite H0 in Hr.
    rewrite decide_True in Hr by (rewrite Hm; unfold off_crc, sizeof_comsghdr, CORPC_MAX_MSG_SIZE in *; lia).
    destruct (Z.eqb_spec r0 (Z.of_nat sizeof_comsghdr)) as [->|Hne]; cbn in Hr.
    - split; [done|]. apply switch_consumes in Hr as [d' Hd']. exists d'. by rewrite Hd', Hc0.
    - injection Hr as <-. done. }
  exists d0, d', s1. split_and!; [done|lia|done|done].
Qed.

(** The next of the messages sent, whatever follows it. *)
Lemma recv_next msg rest m s r :
  valid msg → length m = Z.to_nat CORPC_MAX_MSG_SIZE →
  corpc_proto_recv_msg host m s = Some r → r_ok r = true →
  consumed (r_sock r) `prefix_of` consumed s ++ wire host msg ++ rest →
  view host (r_msg r) = Some msg ∧ consumed (r_sock r) = consumed s ++ wire host msg.
Proof.
  intros Hv Hm Hrecv Hok Hpre.
  destruct (recv_header_whole m s r Hm Hrecv Hok) as (d0 & d' & s1 & H0 & Hd0' & Hc0 & Hd').
  rewrite Hd' in Hpre.
  unfold wire in Hpre at 1. rewrite <-!(assoc_L (++)) in Hpre.
  apply prefix_chunk in Hpre as [-> Hpre]; [|by rewrite length_wire_hdr].
  destruct (recv_header host (msg_crc host msg) msg m s s1) as (k & Hk & Heq);
    [done|apply cf_crc32_uint|done|by apply (delivers_one (wire_hdr host msg)); rewrite length_wire_hdr|].
  rewrite Heq in Hrecv.
  assert (∃ s2, delivers s1 match m_body msg with DataAck => [] | _ => [wire_details msg] end s2 ∧
    consumed s2 = consumed s ++ wire host msg) as (s2 & Hdel & Hc2).
  { assert (m_body msg = DataAck ∨ m_body msg ≠ DataAck) as [Hack|Hack] by (destruct (m_body msg); [by right..|by left]).
    - exists s1. split; [rewrite Hack; constructor|]. rewrite Hc0. unfold wire, wire_details, short_fields.
      rewrite Hack. by rewrite app_nil_r.
    - destruct (co_ssl_socket_recv (length (wire_details msg)) s1) as [[r1 d1] s2] eqn:H1.
      pose proof (recv_consumes _ _ _ _ _ H1) as [Hd1 Hc1].
      destruct (recv_switch_reads host (msg_crc host msg) msg k s1 r1 d1 s2)
        as (x & Hx & Hxs & Hxr); [done|apply cf_crc32_uint|done..|].
      rewrite Hrecv in Hx. injection Hx as <-. specialize (Hxr Hok) as ->.
      assert (d' = d1) as ->.
      { rewrite Hxs, Hc1, Hc0 in Hd'. by apply app_inv_head in Hd'. }
      assert (d1 = wire_details msg) as ->.
      { rewrite <-(app_nil_l d1), <-(app_nil_l (d1)), <-(app_nil_r ([] ++ d1)) in Hpre.
        apply (prefix_chunk [] d1 (wire_details msg) rest []); [done|lia]. }
      exists s2. split; [|by rewrite Hc1, Hc0, <-(assoc_L (++))].
      by destruct (m_body msg); [apply delivers_one..|]. }
  destruct (recv_switch_image host (msg_crc host msg) msg k s1 s2) as (k' & _ & Hsw);
    [done|apply cf_crc32_uint|done|done|].
  rewrite Hrecv in Hsw. unfold verdict in Hsw. rewrite Z.eqb_refl in Hsw. injection Hsw as ->. cbn.
  split; [apply view_image; [done|apply cf_crc32_uint]|done].
Qed.

(** The messages the loop accepts start with those that were sent first, and are
    no others when nothing else was sent. *)
Lemma recv_seq_prefix turns : ∀ msgs rest s,
  Forall valid msgs → Forall (λ t, length t.1 = Z.to_nat CORPC_MAX_MSG_SIZE) turns →
  ∃ vs s', recv_seq turns s = Some (vs, s') ∧ (∃ d, consumed s' = consumed s ++ d) ∧
    (consumed s' `prefix_of` consumed s ++ concat (wire host <$> msgs) ++ rest →
     take (length msgs) vs = Some <$> take (length vs) msgs ∧
     (rest = [] → (length vs ≤ length msgs)%nat)).
Proof.
  induction turns as [|[m fok] turns IH]; intros msgs rest s Hv Hm; cbn [recv_seq].
  { exists [], s. split; [done|]. split; [exists []; by rewrite app_nil_r|].
    intros _. rewrite take_nil. split; [done|]. cbn. lia. }
  apply Forall_cons in Hm as [Hm Hms]. cbn in Hm.
  destruct (recv_msg_sound host m s Hm) as (r & Hr & _). rewrite Hr. cbn [mbind option_bind].
  pose proof (recv_msg_consumes _ _ _ Hr) as [d Hd].
  destruct (r_ok r) eqn:Hok; cbn [negb].
  2:{ exists [], (r_sock r). split; [done|]. split; [by exists d|]. intros _. rewrite take_nil.
      split; [done|]. cbn. lia. }
  assert (∀ s', (∃ d', consumed s' = consumed (r_sock r) ++ d') →
    consumed s' `prefix_of` consumed s ++ concat (wire host <$> msgs) ++ rest →
    match msgs with
    | [] => rest ≠ []
    | msg :: _ => view host (r_msg r) = Some msg ∧ consumed (r_sock r) = consumed s ++ wire host msg
    end) as Hnext.
  { intros s' [d' Hd'] Hpre. destruct msgs as [|msg msgs].
    - intros ->. destruct (recv_header_whole m s r Hm Hr Hok) as (d0 & d2 & _ & _ & Hl & _ & Hc).
      apply prefix_length in Hpre. rewrite Hd', Hc, !length_app in Hpre. cbn in Hpre. lia.
    - apply Forall_cons in Hv as [Hv _]. apply (recv_next msg (concat (wire host <$> msgs) ++ rest) m s r);
        [done..|]. rewrite Hd' in Hpre. 
      change (concat (wire host <$> msg :: msgs)) with (wire host msg ++ concat (wire host <$> msgs)) in Hpre.
      rewrite <-(assoc_L (++) (wire host msg)) in Hpre.
      etrans; [|exact Hpre]. by apply prefix_app_r. }
  destruct fok; cbn [negb].
  - destruct (IH (tail msgs) rest (r_sock r)) as (vs & s' & Hseq & [d' Hd'] & Hvs);
      [by destruct Hv|done|].
    exists (view host (r_msg r) :: vs), s'. rewrite Hseq. split; [done|].
    split; [exists (d ++ d'); by rewrite Hd', Hd, (assoc_L (++))|]. intros Hpre.
    specialize (Hnext s' ltac:(by exists d') Hpre). destruct msgs as [|msg msgs]; [by cbn|].
    destruct Hnext as [-> Hc]. cbn [tail] in Hvs. destruct Hvs as [Hvs Hle].
    { rewrite Hc, <-(assoc_L (++)).
      change (concat (wire host <$> msg :: msgs)) with (wire host msg ++ concat (wire host <$> msgs)) in Hpre.
      by rewrite <-(assoc_L (++) (wire host msg)) in Hpre. }
    cbn. split; [by rewrite Hvs|]. intros Hr0. specialize (Hle Hr0). lia.
  - eexists _, _. split; [done|]. split; [by exists d|]. intros Hpre.
    specialize (Hnext (r_sock r) ltac:(exists []; by rewrite app_nil_r) Hpre).
    destruct msgs as [|msg msgs]; [by cbn|]. destruct Hnext as [-> _]. cbn.
    rewrite (take_nil (length msgs)), (take_0 msgs). split; [done|intros _; lia].
Qed.

End Loop.

(** ** Both ends *)

#[export] Instance socket_consumes {K} `{Kernel K} {HT : Timely K} me SSL_write SSL_read sock
    (received : K → bytes) {HL : RecvLaws K received} :
  Consumes (H := socket_transport me SSL_write SSL_read sock) (λ w, received (w_kern w)).
Proof.
  split. intros n w r d w'. cbn [CorpcProto.co_ssl_socket_recv socket_transport].
  destruct (run _ _ _ _) as [[[r1 d1] w1]|] eqn:Hr; cbn; intros [= <- <- <-];
    [|by rewrite app_nil_r].
  apply (co_socket_recv_ensures me received (Some sock) true n 0 w) in Hr as [_ Hx].
  case_decide; [|naive_solver]. destruct Hx as [[= -> ->] ->]. cbn. by rewrite app_nil_r.
Qed.

Section Link.
(** The kernels of the two endpoints, and the plain sockets of their channels. *)
Context {K1 : Type} `{Kernel K1} {HT1 : Timely K1} (outgoing : K1 → bytes) {HL1 : SendLaws K1 outgoing}.
Context {K2 : Type} `{Kernel K2} {HT2 : Timely K2} (received : K2 → bytes) {HL2 : RecvLaws K2 received}.
Context (me1 me2 : nat) (SSL_write : bytes → io Z) (SSL_read : nat → io (Z * bytes)) (sock1 sock2 : co_socket).

(** The messages of the first [k] calls that were put on the connection, when none
    of these calls left a part of its message: those put whole. *)
Definition uncut (host : byte_order) (k : nat) (msgs : list comsg) (ds : list bytes) : Prop :=
  Forall2 (λ msg d, d = [] ∨ d = wire host msg) (take k msgs) (take k ds).
Definition put_whole (k : nat) (msgs : list comsg) (ds : list bytes) : list comsg :=
  omap (λ x, if decide (x.2 = []) then None else Some x.1) (zip (take k msgs) (take k ds)).

Lemma concat_put_whole host k msgs ds :
  uncut host k msgs ds → concat (take k ds) = concat (wire host <$> put_whole k msgs ds).
Proof.
  unfold uncut, put_whole. intros Hu. induction Hu as [|msg d msgs' ds' Hd _ IH]; [done|].
  cbn. case_decide as He; cbn; rewrite IH; [by rewrite He|]. destruct Hd as [->| ->]; done.
Qed.

Lemma put_whole_valid k msgs ds : Forall valid msgs → Forall valid (put_whole k msgs ds).
Proof.
  intros Hv. unfold put_whole. apply (Forall_take _ k) in Hv. revert Hv.
  generalize (take k msgs), (take k ds). intros l. induction l as [|msg l IH]; intros [|d ds'] Hv; [done..|].
  apply Forall_cons in Hv as [Hv Hvs]. cbn. case_decide; [by apply IH|]. constructor; [done|by apply IH].
Qed.

(** C8: one endpoint sends messages, each within the limits of the protocol, and the
    other, of the same byte order, runs the receiving loop of its channel, over
    plain sockets and a network that delivers a prefix of what it was given (TCP),
    in whatever pieces and with whatever failures at either end.  The loop does
    nothing undefined.  As long as no call was cut in the middle of its message,
    the messages it hands to the handlers of the channel are the first of those that
    were put on the connection, which are all whose calls succeeded, each as it was
    sent, in order: none is altered, lost in between, duplicated or made up; and
    this holds of the messages before the first that was cut, whatever is sent after
    it. *)
Theorem messages_received_in_order (host : byte_order) (msgs : list comsg)
    (fs : list (world K1 → bool * world K1)) (turns : list (bytes * bool))
    (w w' : world K1) (oks : list bool) (v : world K2)
    (Hmsgs : Forall2 (sends (K := K1) me1 SSL_write SSL_read sock1 host) msgs fs) (Hvalid : Forall valid msgs)
    (Hok : regs_ok w) (Hrun : send_each fs w = (oks, w'))
    (Hturns : Forall (λ t, length t.1 = Z.to_nat CORPC_MAX_MSG_SIZE) turns)
    (Hstart : received (w_kern v) = outgoing (w_kern w)) :
  ∃ ds vs v', Forall3 (put host) msgs oks ds ∧
    outgoing (w_kern w') = outgoing (w_kern w) ++ concat ds ∧
    recv_seq (H := socket_transport me2 SSL_write SSL_read sock2) host turns v = Some (vs, v') ∧
    (received (w_kern v') `prefix_of` outgoing (w_kern w') → ∀ k, uncut host k msgs ds →
      let whole := put_whole k msgs ds in
      take (length whole) vs = Some <$> take (length vs) whole ∧
      ((length msgs ≤ k)%nat → (length vs ≤ length whole)%nat)).
Proof.
  destruct (send_each_puts me1 SSL_write SSL_read sock1 outgoing host msgs fs w oks w' Hmsgs Hvalid Hok Hrun)
    as (ds & Hp & Ho).
  destruct (recv_seq_prefix (H := socket_transport me2 SSL_write SSL_read sock2) host
    (HL := socket_transport_laws me2 SSL_write SSL_read sock2 received)
    (λ v, received (w_kern v)) turns [] [] v ltac:(constructor) Hturns) as (vs & v' & Hseq & _ & _).
  exists ds, vs, v'. split; [done|]. split; [done|]. split; [done|]. intros Hnet k Hk whole.
  destruct (recv_seq_prefix (H := socket_transport me2 SSL_write SSL_read sock2) host
    (HL := socket_transport_laws me2 SSL_write SSL_read sock2 received)
    (λ v, received (w_kern v)) turns whole (concat (drop k ds)) v (put_whole_valid _ _ _ Hvalid) Hturns)
    as (vs1 & v1 & Hseq1 & _ & Hvs).
  rewrite Hseq in Hseq1. injection Hseq1 as <- <-.
  destruct Hvs as [Hvs Hle].
  { rewrite Hstart. unfold whole. rewrite <-(concat_put_whole _ _ _ _ Hk), <-concat_app, take_drop.
    by rewrite <-Ho. }
  split; [done|]. intros Hlen. apply Hle. apply Forall3_length_lr in Hp. by rewrite drop_ge by lia.
Qed.

End Link.

(** The messages of [link0], delivered in the pieces the receiver asks for. *)
Definition peer0 : world script :=
  world0 (mk_script 100 [] [] (Some <$> [take 12 (concat (wire LITTLE_ENDIAN <$> msgs0));
    drop 12 (concat (wire LITTLE_ENDIAN <$> msgs0))]) [] [(false, EPOLLIN)]).
Definition turns0 : list (bytes * bool) := replicate 3 (replicate (Z.to_nat CORPC_MAX_MSG_SIZE) 0, true).

Lemma messages_received_in_order_witness :
  let T := socket_transport 2 (λ _, mret 0) (λ _, mret (0, [])) socket0 in
  fst <$> recv_seq (H := T) LITTLE_ENDIAN turns0 peer0 = Some (Some <$> msgs0) ∧
  ∃ ds vs v', Forall3 (put LITTLE_ENDIAN) msgs0 (send_each calls0 link0).1 ds ∧
    s_out (w_kern (send_each calls0 link0).2) = s_out (w_kern link0) ++ concat ds ∧
    recv_seq (H := T) LITTLE_ENDIAN turns0 peer0 = Some (vs, v') ∧
    (s_got (w_kern v') `prefix_of` s_out (w_kern (send_each calls0 link0).2) →
     ∀ k, uncut LITTLE_ENDIAN k msgs0 ds →
      let whole := put_whole k msgs0 ds in
      take (length whole) vs = Some <$> take (length vs) whole ∧
      ((length msgs0 ≤ k)%nat → (length vs ≤ length whole)%nat)).
Proof.
  split; [by vm_compute|].
  apply (messages_received_in_order s_out s_got 1 2 (λ _, mret 0) (λ _, mret (0, [])) socket0 socket0
    LITTLE_ENDIAN msgs0 calls0 turns0 link0 _ (send_each calls0 link0).1 peer0).
  - repeat constructor.
  - by_decide.
  - apply world0_ok.
  - apply surjective_pairing.
  - repeat constructor; by rewrite length_replicate.
  - done.
Defined.
