(* ===== verification/CoServer.v ===== *)
(** Servers ([src/cothread/co-ssl-server.c], [src/cothread/co-ssl-listening-port.c],
    [src/corpc/corpc-server.c], [src/corpc/corpc-listening-port.c]): an array of
    listening ports, starting them, and the coroutine of a port that accepts
    connections for ever.  [server_holds_its_ports] is about the array,
    [server_start_listens] about starting, [listening_thread_owns_sockets] about
    who owns what the coroutine of a port accepts. *)

From S2P Require Import Prelude CcArray CoWaiter Resources SockLife.
Import CcArray.

Open Scope Z_scope.

(** ** Data *)

(** [sockaddr_type] *)
Record sockaddr_type := mk_sockaddr { sa_family : Z; sa_data : bytes }.

(** The fields [corpc_listening_port] adds; functions are numbers, 0 is [NULL]. *)
Record corpc_port_ext := mk_ext {
  services : nat;
  keep_alive : bool * Z * Z * Z;
  onaccept : nat;
  onaccepted : nat;
  ondisconnected : nat;
}.

(** [struct co_ssl_listening_port], and what [extra_object_size] is for. *)
Record co_ssl_listening_port := mk_port {
  listen_address : sockaddr_type;
  ssl_ctx : bool;
  sock_type : Z;
  proto : Z;
  port_onaccept : nat;
  cookie : nat;
  accepted_stack_size : Z;
  listening_sock : option nat;
  ext : option corpc_port_ext;
}.

Definition set_listening_sock (s : option nat) (p : co_ssl_listening_port) : co_ssl_listening_port :=
  mk_port (listen_address p) (ssl_ctx p) (sock_type p) (proto p) (port_onaccept p) (cookie p)
    (accepted_stack_size p) s (ext p).
Definition set_ext (x : option corpc_port_ext) (p : co_ssl_listening_port) : co_ssl_listening_port :=
  mk_port (listen_address p) (ssl_ctx p) (sock_type p) (proto p) (port_onaccept p) (cookie p)
    (accepted_stack_size p) (listening_sock p) x.

(** [struct co_ssl_listening_port_opts]; [with_ext]: whether [extra_object_size]
    makes room for a [corpc_listening_port]. *)
Record co_ssl_listening_port_opts := mk_port_opts {
  o_bind_address : sockaddr_type;
  o_ssl_ctx : bool;
  o_sock_type : Z;
  o_proto : Z;
  o_onaccept : nat;
  o_cookie : nat;
  o_with_ext : bool;
  o_accepted_stack_size : Z;
}.

(** [struct corpc_listening_port_opts] *)
Record corpc_listening_port_opts := mk_corpc_opts {
  c_listen_address : sockaddr_type;
  c_ssl_ctx : bool;
  c_ext : corpc_port_ext;
}.

(** [struct co_ssl_server], whose ports are pointers. *)
Record co_ssl_server := mk_server { ssl_ports : ccarray (option nat); server_ssl_ctx : bool }.

(** The process, the blocks of ports and servers, the ports whose coroutine was
    started, and the accepted sockets handed over to their channels. *)
Record world := mk_world {
  proc : process;
  ports : gmap nat co_ssl_listening_port;
  servers : gmap nat co_ssl_server;
  listening_threads : list nat;
  taken : list nat;
}.

Definition set_proc (p : process) (w : world) : world :=
  mk_world p (ports w) (servers w) (listening_threads w) (taken w).
Definition upd_ports (f : gmap nat co_ssl_listening_port → gmap nat co_ssl_listening_port) (w : world) :=
  mk_world (proc w) (f (ports w)) (servers w) (listening_threads w) (taken w).
Definition upd_servers (f : gmap nat co_ssl_server → gmap nat co_ssl_server) (w : world) :=
  mk_world (proc w) (ports w) (f (servers w)) (listening_threads w) (taken w).
Definition add_thread (l : nat) (w : world) : world :=
  mk_world (proc w) (ports w) (servers w) (listening_threads w ++ [l]) (taken w).
Definition take_socket (l : nat) (w : world) : world :=
  mk_world (proc w) (ports w) (servers w) (listening_threads w) (taken w ++ [l]).

Abbreviation Act := (act world).

Section Server.
Context `{Os}.

Definition os {A} (m : M A) : Act A := on proc set_proc m.

(** ** Listening ports *)

Definition co_ssl_listening_port_init (opts : co_ssl_listening_port_opts) (p : co_ssl_listening_port) :
    co_ssl_listening_port :=
  mk_port (o_bind_address opts) (o_ssl_ctx opts) (o_sock_type opts) (o_proto opts) (o_onaccept opts)
    (o_cookie opts) (o_accepted_stack_size opts) (listening_sock p) (ext p).

(** What [calloc] and [memset] leave. *)
Definition zero_port (with_ext : bool) : co_ssl_listening_port :=
  mk_port (mk_sockaddr 0 []) false 0 0 0 0 0 None
    (if with_ext then Some (mk_ext 0 (false, 0, 0, 0) 0 0 0) else None).

Definition load_port (l : nat) : Act co_ssl_listening_port := t ← gets ports; of_option (t !! l).
Definition store_port (l : nat) (p : co_ssl_listening_port) : Act unit := modify (upd_ports <[l := p]>).

Definition co_ssl_listening_port_new (opts : co_ssl_listening_port_opts) : Act (option nat) :=
  ok ← os may;
  if (ok : bool) then
    t ← gets ports;
    let l := malloc_at (dom t) in
    _ ← store_port l (co_ssl_listening_port_init opts (zero_port (o_with_ext opts)));
    mret (Some l)
  else mret None.

(** [memset] of the fields of [co_ssl_listening_port]. *)
Definition co_ssl_listening_port_cleanup (p : co_ssl_listening_port) : co_ssl_listening_port :=
  set_ext (ext p) (zero_port false).

Definition co_ssl_listening_port_release (sslp : option nat) : Act unit :=
  match sslp with
  | None => mret ()
  | Some l =>
    p ← load_port l;
    _ ← store_port l (co_ssl_listening_port_cleanup p);
    modify (upd_ports (delete l))
  end.

Definition co_ssl_get_listening_port_cookie (l : nat) : Act nat := p ← load_port l; mret (cookie p).

(** [co_schedule] of the coroutine of the port. *)
Definition co_ssl_listening_port_start_listen (l : nat) : Act bool :=
  ok ← os may;
  if (ok : bool) then _ ← modify (add_thread l); mret true else mret false.

(** The ports of corpc.  [corpc_on_accept]: the number of
    [corpc_listening_port_on_accept]. *)
Definition corpc_on_accept : nat := 1.

Definition fill_ssl_opts (opts : corpc_listening_port_opts) : co_ssl_listening_port_opts :=
  mk_port_opts (c_listen_address opts) (c_ssl_ctx opts) SOCK_STREAM IPPROTO_TCP corpc_on_accept 0 true 0.

Definition corpc_listening_port_new (opts : corpc_listening_port_opts) : Act (option nat) :=
  clp ← co_ssl_listening_port_new (fill_ssl_opts opts);
  match clp with
  | None => mret None
  | Some l => p ← load_port l; _ ← store_port l (set_ext (Some (c_ext opts)) p); mret clp
  end.

(** The other constructor, for memory of the caller: only [services] of the
    fields of corpc is set. *)
Definition corpc_listening_port_init (opts : corpc_listening_port_opts) (p : co_ssl_listening_port) :
    co_ssl_listening_port :=
  let p := co_ssl_listening_port_init (fill_ssl_opts opts) p in
  set_ext ((λ x, mk_ext (services (c_ext opts)) (keep_alive x) (onaccept x) (onaccepted x) (ondisconnected x))
             <$> ext p) p.

Definition corpc_listening_port_cleanup (p : co_ssl_listening_port) : co_ssl_listening_port :=
  let p := co_ssl_listening_port_cleanup p in
  set_ext ((λ x, mk_ext 0 (keep_alive x) (onaccept x) (onaccepted x) (ondisconnected x)) <$> ext p) p.

Definition corpc_listening_port_release (clp : option nat) : Act unit := co_ssl_listening_port_release clp.

(** ** Servers *)

(** [struct co_ssl_server_opts] *)
Record co_ssl_server_opts := mk_server_opts { so_ssl_ctx : bool; max_nb_ports : Z }.

Definition ports_max (opts : option co_ssl_server_opts) : nat :=
  match opts with
  | Some o => if 0 <? max_nb_ports o then Z.to_nat (max_nb_ports o) else 8
  | None => 8
  end.

Definition load_server (l : nat) : Act co_ssl_server := t ← gets servers; of_option (t !! l).
Definition store_server (l : nat) (s : co_ssl_server) : Act unit := modify (upd_servers <[l := s]>).

Definition co_ssl_server_init (l : nat) (opts : option co_ssl_server_opts) : Act bool :=
  s ← load_server l;
  ok ← os may;
  let cap := ports_max opts in
  let '(fok, a) := ccarray_init (if (ok : bool) then Some (replicate cap None) else None) cap (ssl_ports s) in
  if (fok : bool) then
    _ ← store_server l (mk_server a (match opts with Some o => so_ssl_ctx o | None => server_ssl_ctx s end));
    mret true
  else _ ← store_server l (mk_server a (server_ssl_ctx s)); mret false.

(** The ports at the slots from [i] on, [n] of them. *)
Fixpoint release_ports (l : nat) (i n : nat) : Act unit :=
  match n with
  | O => mret ()
  | S n =>
    s ← load_server l;
    slot ← of_option (ccarray_peek (ssl_ports s) i);
    _ ← co_ssl_listening_port_release slot;
    let a := ssl_ports s in
    _ ← store_server l (mk_server (mk_ccarray (<[i := None]> (a_items a)) (a_capacity a) (a_size a))
                          (server_ssl_ctx s));
    release_ports l (S i) n
  end.

Definition co_ssl_server_cleanup (l : nat) : Act unit :=
  s ← load_server l;
  _ ← release_ports l 0 (ccarray_size (Some (ssl_ports s)));
  s ← load_server l;
  store_server l (mk_server (ccarray_cleanup (ssl_ports s)) (server_ssl_ctx s)).

Definition co_ssl_server_destroy (sslsrv : option nat) : Act unit :=
  match sslsrv with
  | None => mret ()
  | Some l =>
    _ ← co_ssl_server_cleanup l;
    _ ← load_server l; modify (upd_servers (delete l))
  end.

Definition co_ssl_server_new (opts : option co_ssl_server_opts) : Act (option nat) :=
  ok ← os may;
  if (ok : bool) then
    t ← gets servers;
    let l := malloc_at (dom t) in
    _ ← store_server l (mk_server (mk_ccarray [] 0 0) false);
    fok ← co_ssl_server_init l opts;
    if (fok : bool) then mret (Some l) else _ ← co_ssl_server_destroy (Some l); mret None
  else mret None.

Definition co_ssl_server_add_port (ssrv l : nat) : Act bool :=
  s ← load_server ssrv;
  if (ccarray_capacity (Some (ssl_ports s)) <=? ccarray_size (Some (ssl_ports s)))%nat then
    _ ← os (modify (set_err ENOBUFS)); mret false
  else
    let '(_, a) := ccarray_push_back (Some l) (ssl_ports s) in
    _ ← store_server ssrv (mk_server a (server_ssl_ctx s)); mret true.

Definition co_ssl_server_add_new_port (sslsrv : nat) (opts : co_ssl_listening_port_opts) : Act (option nat) :=
  s ← load_server sslsrv;
  if (ccarray_capacity (Some (ssl_ports s)) <=? ccarray_size (Some (ssl_ports s)))%nat then
    _ ← os (modify (set_err ENOBUFS)); mret None
  else
    sslp ← co_ssl_listening_port_new opts;
    match sslp with
    | None => mret None
    | Some l =>
      fok ← co_ssl_server_add_port sslsrv l;
      if (fok : bool) then mret sslp else _ ← co_ssl_listening_port_release sslp; mret None
    end.

Definition start_port (l : nat) : Act bool :=
  p ← load_port l;
  so ← os (co_ssl_socket_listen_new (sa_family (listen_address p)) (sock_type p) (proto p));
  _ ← store_port l (set_listening_sock so p);
  match so with
  | None => mret false
  | Some _ =>
    fok ← co_ssl_listening_port_start_listen l;
    if (fok : bool) then mret true
    else
      _ ← os (co_socket_destroy so false);
      _ ← store_port l (set_listening_sock None p); mret false
  end.

Definition co_ssl_server_start (ssrv : nat) : Act bool :=
  s ← load_server ssrv;
  for_items (λ slot, l ← of_option slot; start_port l) (take (a_size (ssl_ports s)) (a_items (ssl_ports s))).

Definition co_ssl_server_stop : Act bool := mret false.

(** *** The servers of corpc *)

Definition corpc_server_init (l : nat) (opts : co_ssl_server_opts) : Act bool := co_ssl_server_init l (Some opts).
Definition corpc_server_cleanup (l : nat) : Act unit := co_ssl_server_cleanup l.
Definition corpc_server_new (opts : co_ssl_server_opts) : Act (option nat) := co_ssl_server_new (Some opts).
Definition corpc_server_destroy (sslsrv : option nat) : Act unit := co_ssl_server_destroy sslsrv.
Definition corpc_server_start (ssrv : nat) : Act bool := co_ssl_server_start ssrv.

Definition corpc_server_add_port (ssrv : nat) (opts : corpc_listening_port_opts) : Act bool :=
  clp ← corpc_listening_port_new opts;
  match clp with
  | None => mret false
  | Some l =>
    fok ← co_ssl_server_add_port ssrv l;
    if (fok : bool) then mret true else _ ← corpc_listening_port_release clp; mret false
  end.

(** ** The coroutine of a port *)

(** [corpc_channel_accept] ([CorpcChannel.corpc_channel_accept]): the channel, its
    array of streams and its coroutine may be refused; if they are not the socket
    is the channel's. *)
Definition corpc_listening_port_on_accept (accepted_sock : nat) : Act bool :=
  channel ← os may;
  streams ← (if (channel : bool) then os may else mret false);
  scheduled ← (if (streams : bool) then os may else mret false);
  if (scheduled : bool) then _ ← modify (take_socket accepted_sock); mret true else mret false.

(** One turn of the loop of [co_ssl_listening_thread]; corpc's is the only callback
    there is. *)
Definition listening_turn (l : nat) : Act unit :=
  p ← load_port l;
  so ← of_option (listening_sock p);
  accepted ← os (co_ssl_socket_accept_new so (ssl_ctx p));
  match accepted with
  | None => mret ()
  | Some a =>
    ok ← (if decide (port_onaccept p = corpc_on_accept) then corpc_listening_port_on_accept a else undefined);
    if (ok : bool) then mret () else os (co_ssl_socket_destroy accepted true)
  end.

Fixpoint co_ssl_listening_thread (turns : nat) (l : nat) : Act unit :=
  match turns with
  | O => mret ()
  | S n => _ ← listening_turn l; co_ssl_listening_thread n l
  end.

End Server.

(** ** A server and its ports *)

Section Ports.
Context `{Os}.
Implicit Types w : world.

Lemma Forall2_impl_l {A B} (P Q : A → B → Prop) l k :
  Forall2 P l k → (∀ x y, x ∈ l → y ∈ k → P x y → Q x y) → Forall2 Q l k.
Proof.
  induction 1 as [|x y l k Hxy Hlk IH]; intros HPQ; constructor.
  - apply HPQ; [by left|by left|done].
  - apply IH. intros x' y' ??. apply HPQ; by right.
Qed.

(** The port that [corpc_listening_port_new] makes of its options. *)
Definition port_of (o : corpc_listening_port_opts) : co_ssl_listening_port :=
  set_ext (Some (c_ext o)) (co_ssl_listening_port_init (fill_ssl_opts o) (zero_port true)).

(** Nothing is touched but the script of outcomes, [errno] and what is named. *)
Definition keeps w w' : Prop :=
  listening_threads w' = listening_threads w ∧ taken w' = taken w ∧
  heap (proc w') = heap (proc w) ∧ fds (proc w') = fds (proc w) ∧ fate (proc w') ⊆ fate (proc w).

Lemma goes_os_may w (Q : bool → world → Prop) :
  (∀ b f, f ⊆ fate (proc w) → (b = false → false ∈ fate (proc w)) →
     Q b (set_proc (set_fate f (proc w)) w)) →
  goes (os may) w Q.
Proof. intros HQ. apply goes_on, goes_may_fate. auto. Qed.

Lemma goes_load_port l p w (Q : co_ssl_listening_port → world → Prop) :
  ports w !! l = Some p → Q p w → goes (load_port l) w Q.
Proof. intros Hl HQ. unfold load_port. go. by eapply goes_of_option. Qed.

Lemma goes_load_server l s w (Q : co_ssl_server → world → Prop) :
  servers w !! l = Some s → Q s w → goes (load_server l) w Q.
Proof. intros Hl HQ. unfold load_server. go. by eapply goes_of_option. Qed.

Lemma release_port_goes l p w (Q : unit → world → Prop) :
  ports w !! l = Some p → Q tt (upd_ports (delete l) w) → goes (co_ssl_listening_port_release (Some l)) w Q.
Proof.
  intros Hl HQ. unfold co_ssl_listening_port_release. go. eapply goes_load_port; [done|].
  unfold store_port. go. unfold upd_ports in *. cbn in *. by rewrite delete_insert_eq.
Qed.

(** The server at [l] holds the ports at [ls], made of [os], which are all the
    ports there are but [t]. *)
Record holds_ports (t : gmap nat co_ssl_listening_port) (sv : gmap nat co_ssl_server) (max l : nat)
    (ls : list nat) (os : list corpc_listening_port_opts) w : Prop := {
  hp_array : ∃ s, servers w = <[l := s]> sv ∧ CcArray.holds max (ssl_ports s) (Some <$> ls);
  hp_ports : Forall2 (λ a o, ports w !! a = Some (port_of o)) ls os;
  hp_new : Forall (λ a, t !! a = None) ls;
  hp_nodup : NoDup ls;
  hp_rest : ∀ a, a ∉ ls → ports w !! a = t !! a;
}.

Definition add_spec (max : nat) (room : bool) (o : corpc_listening_port_opts)
    (kept : list corpc_listening_port_opts) : bool * list corpc_listening_port_opts :=
  if room && (length kept <? max)%nat then (true, kept ++ [o]) else (false, kept).

Lemma corpc_listening_port_new_goes o w (Q : option nat → world → Prop) :
  (∀ f l, f ⊆ fate (proc w) → ports w !! l = None →
     Q (Some l) (upd_ports <[l := port_of o]> (set_proc (set_fate f (proc w)) w))) →
  (∀ f, f ⊆ fate (proc w) → false ∈ fate (proc w) → Q None (set_proc (set_fate f (proc w)) w)) →
  goes (corpc_listening_port_new o) w Q.
Proof.
  intros H1 H2. unfold corpc_listening_port_new, co_ssl_listening_port_new. go. apply goes_os_may.
  intros [] f Hf Hb; go; [|by auto]. unfold store_port. go. eapply goes_load_port.
  - cbn. by rewrite lookup_insert_eq.
  - go. unfold upd_ports. cbn. rewrite insert_insert_eq. apply H1; [done|].
    apply not_elem_of_dom, malloc_at_fresh.
Qed.

Lemma holds_ports_server t sv max l ls os w :
  holds_ports t sv max l ls os w →
  ∃ s k, servers w = <[l := s]> sv ∧ ssl_ports s = arr (Some <$> ls) k ∧ max = (length os + length k)%nat.
Proof.
  intros [(s & Hs & Hh) Hp _ _ _]. destruct (holds_inv _ _ _ Hh) as (k & Ha & Hm). exists s, k.
  apply Forall2_length in Hp. rewrite length_fmap in Hm. split; [done|]. split; [done|lia].
Qed.

Lemma add_port_goes t sv max l ls os o w :
  holds_ports t sv max l ls os w →
  goes (corpc_server_add_port l o) w (λ ok w', ∃ room ls',
    fate (proc w') ⊆ fate (proc w) ∧ (room = false → false ∈ fate (proc w)) ∧
    ok = (add_spec max room o os).1 ∧ holds_ports t sv max l ls' (add_spec max room o os).2 w').
Proof.
  intros HH. destruct (holds_ports_server _ _ _ _ _ _ _ HH) as (s & k & Hs & Ha & Hmax).
  pose proof HH as [_ Hp Hn Hd Hr]. pose proof (Forall2_length _ _ _ Hp) as Hlen.
  unfold corpc_server_add_port. go. apply corpc_listening_port_new_goes.
  - intros f a Hf Hfree.
    assert (a ∉ ls) as Hals.
    { intros Hin. apply list_elem_of_lookup in Hin as [i Hi].
      destruct (Forall2_lookup_l _ _ _ _ _ Hp Hi) as (? & _ & ?). congruence. }
    go. unfold co_ssl_server_add_port. go.
    eapply goes_load_server; [cbn; by rewrite Hs, lookup_insert_eq|]. rewrite Ha.
    unfold ccarray_capacity, ccarray_size. cbn [arr a_capacity a_size]. rewrite length_fmap.
    destruct k as [|x k]; cbn [length] in *.
    + rewrite (proj2 (Nat.leb_le _ _)) by lia. go. apply goes_on. go. unfold corpc_listening_port_release.
      eapply release_port_goes; [cbn; by rewrite lookup_insert_eq|]. go. exists true, ls. split; [done|].
      split; [done|]. unfold add_spec. rewrite (proj2 (Nat.ltb_ge _ _)) by lia. split; [done|].
      assert (∀ b, b ≠ a → delete a (<[a:=port_of o]> (ports w)) !! b = ports w !! b) as Hsame.
      { intros b Hb. by rewrite lookup_delete_ne, lookup_insert_ne. }
      split; cbn [servers ports proc upd_ports set_proc snd andb]; [| |done|done|].
      * exists s. split; [done|]. rewrite Ha. apply holds_arr'. rewrite length_fmap. cbn. lia.
      * eapply Forall2_impl_l; [done|]. intros b o' Hb _ Hbo. rewrite Hsame; [done|]. by intros ->.
      * intros b Hb. destruct (decide (b = a)) as [->|Hba]; [|by rewrite Hsame, Hr].
        rewrite lookup_delete_eq. by rewrite <-Hr, Hfree by done.
    + rewrite (proj2 (Nat.leb_gt _ _)) by lia. rewrite ccarray_push_back_room. unfold store_server. go.
      exists true, (ls ++ [a]). split; [done|]. split; [done|]. unfold add_spec.
      rewrite (proj2 (Nat.ltb_lt _ _)) by lia. split; [done|].
      split; cbn [servers ports proc upd_ports upd_servers set_proc snd andb].
      * eexists. split; [by rewrite Hs, insert_insert_eq|]. cbn [ssl_ports]. rewrite fmap_app. apply holds_arr'.
        rewrite length_app, length_fmap. cbn. lia.
      * apply Forall2_app; [|constructor; [by rewrite lookup_insert_eq|constructor]].
        eapply Forall2_impl_l; [done|]. intros b o' Hb _ Hbo.
        rewrite lookup_insert_ne; [done|]. by intros ->.
      * apply Forall_app. split; [done|]. constructor; [|constructor]. by rewrite <-Hr.
      * apply NoDup_app. split; [done|]. split; [set_solver|apply NoDup_singleton].
      * intros b Hb. rewrite lookup_insert_ne by set_solver. apply Hr. set_solver.
  - intros f Hf Hfalse. go. exists false, ls. do 3 (split; [done|]). by destruct HH.
Qed.

Fixpoint add_ports (l : nat) (os : list corpc_listening_port_opts) : Act (list bool) :=
  match os with
  | [] => mret []
  | o :: os => ok ← corpc_server_add_port l o; oks ← add_ports l os; mret (ok :: oks)
  end.

(** [rooms]: whether there is memory for each port. *)
Fixpoint add_all_spec (max : nat) (rooms : list bool) (os kept : list corpc_listening_port_opts) :
    list bool * list corpc_listening_port_opts :=
  match rooms, os with
  | room :: rooms, o :: os =>
    let '(ok, kept) := add_spec max room o kept in
    let '(oks, kept) := add_all_spec max rooms os kept in (ok :: oks, kept)
  | _, _ => ([], kept)
  end.

Lemma add_ports_goes t sv max l os : ∀ ls kept w,
  holds_ports t sv max l ls kept w →
  goes (add_ports l os) w (λ oks w', ∃ rooms ls', length rooms = length os ∧
    fate (proc w') ⊆ fate (proc w) ∧ (false ∈ rooms → false ∈ fate (proc w)) ∧
    oks = (add_all_spec max rooms os kept).1 ∧
    holds_ports t sv max l ls' (add_all_spec max rooms os kept).2 w').
Proof.
  induction os as [|o os IH]; intros ls kept w HH; cbn [add_ports].
  - go. exists [], ls. split; [done|]. split; [done|]. split; [by intros ?%elem_of_nil|]. done.
  - go. eapply goes_mono; [by eapply add_port_goes|]. intros ok w1 (room & ls1 & Hf1 & Hr1 & Hok & HH1).
    go. eapply goes_mono; [by eapply IH|].
    intros oks w2 (rooms & ls2 & Hlen & Hf2 & Hr2 & Hoks & HH2). go. exists (room :: rooms), ls2.
    cbn [add_all_spec length]. destruct (add_spec max room o kept) as [ok' kept'].
    cbn [fst snd] in *. destruct (add_all_spec max rooms os kept') as [oks' kept'']. cbn [fst snd] in *.
    split; [lia|]. split; [set_solver|]. split; [|by subst].
    intros [<-|?]%elem_of_cons; [by apply Hr1|set_solver].
Qed.

(** Releasing the ports at the slots from [length pre] on. *)
Lemma release_ports_goes t sv l k : ∀ ls pre s w,
  servers w = <[l := s]> sv → a_items (ssl_ports s) = pre ++ (Some <$> ls) ++ k →
  Forall (λ a, t !! a = None ∧ is_Some (ports w !! a)) ls → NoDup ls →
  (∀ a, a ∉ ls → ports w !! a = t !! a) →
  goes (release_ports l (length pre) (length ls)) w (λ _ w', ports w' = t ∧
    ∃ s', servers w' = <[l := s']> sv).
Proof.
  induction ls as [|a ls IH]; intros pre s w Hs Ha Hls Hnd Ho; cbn [length release_ports].
  - go. split; [|by eexists]. apply map_eq. intros a. apply Ho. set_solver.
  - apply Forall_cons in Hls as [[Hta [p Hp]] Hls]. apply NoDup_cons in Hnd as [Hals Hnd].
    go. eapply goes_load_server; [by rewrite Hs, lookup_insert_eq|]. go.
    eapply goes_of_option; [unfold ccarray_peek; rewrite Ha; cbn; by rewrite lookup_app_r, Nat.sub_diag by done|].
    go. eapply release_port_goes; [done|]. unfold store_server. go.
    replace (S (length pre)) with (length (pre ++ [None])) by (rewrite length_app; cbn; lia).
    eapply (IH (pre ++ [None])).
    + cbn. by rewrite Hs, insert_insert_eq.
    + cbn [ssl_ports a_items]. rewrite Ha. cbn. rewrite insert_app_r_alt, Nat.sub_diag by done. cbn.
      by rewrite <-(assoc_L (++)).
    + apply Forall_forall. intros b Hb. destruct (proj1 (Forall_forall _ _) Hls b Hb). split; [done|]. cbn.
      rewrite lookup_delete_ne; [done|]. by intros ->.
    + done.
    + intros b Hb. cbn. destruct (decide (b = a)) as [->|Hba]; [by rewrite lookup_delete_eq|].
      rewrite lookup_delete_ne by done. apply Ho. set_solver.
Qed.

Lemma destroy_goes t sv max l ls os w :
  sv !! l = None → holds_ports t sv max l ls os w →
  goes (corpc_server_destroy (Some l)) w (λ _ w', ports w' = t ∧ servers w' = sv).
Proof.
  intros Hl HH. destruct (holds_ports_server _ _ _ _ _ _ _ HH) as (s & k & Hs & Ha & Hmax).
  destruct HH as [_ Hp Hn Hd Hr].
  unfold corpc_server_destroy, co_ssl_server_destroy, co_ssl_server_cleanup. go.
  eapply goes_load_server; [by rewrite Hs, lookup_insert_eq|]. go.
  rewrite Ha. unfold ccarray_size. cbn [arr a_size]. rewrite length_fmap.
  eapply goes_mono.
  - eapply (release_ports_goes t sv l k ls [] s); [done|by rewrite Ha| |done|done].
    apply Forall_lookup. intros i a Hi. split; [exact (Forall_lookup_1 _ _ _ _ Hn Hi)|].
    destruct (Forall2_lookup_l _ _ _ _ _ Hp Hi) as (? & _ & ->). done.
  - intros [] w1 (Ht & s1 & Hs1). go. eapply goes_load_server; [by rewrite Hs1, lookup_insert_eq|].
    unfold store_server. go. eapply goes_load_server; [cbn; by rewrite Hs1, insert_insert_eq, lookup_insert_eq|].
    go. split; [done|]. cbn. by rewrite Hs1, insert_insert_eq, delete_insert_eq, delete_id.
Qed.

Lemma server_new_goes opts w :
  goes (corpc_server_new opts) w (λ r w', match r with
    | None => ports w' = ports w ∧ servers w' = servers w ∧ false ∈ fate (proc w)
    | Some l => servers w !! l = None ∧ fate (proc w') ⊆ fate (proc w) ∧
        holds_ports (ports w) (servers w) (ports_max (Some opts)) l [] [] w'
    end).
Proof.
  unfold corpc_server_new, co_ssl_server_new. go. apply goes_os_may. intros [] f Hf Hb; go; [|by auto].
  set (l := malloc_at _). assert (servers w !! l = None) as Hl by (apply not_elem_of_dom, malloc_at_fresh).
  unfold store_server. go. unfold co_ssl_server_init. go.
  eapply goes_load_server; [cbn; by rewrite lookup_insert_eq|]. go. apply goes_os_may.
  intros [] f' Hf' Hb'; cbn [ccarray_init]; unfold store_server; go.
  - split; [done|]. split; [cbn in *; set_solver|]. split; cbn [servers ports proc upd_servers set_proc].
    + eexists. split; [by rewrite insert_insert_eq|]. cbn [ssl_ports fmap list_fmap].
      generalize (ports_max (Some opts)). intros n.
      split; [split; cbn; rewrite ?length_replicate; lia|]. done.
    + constructor.
    + constructor.
    + constructor.
    + done.
  - eapply goes_mono.
    + eapply (destroy_goes (ports w) (servers w) 0 l [] []); [done|].
      split; cbn [servers ports proc upd_servers set_proc]; [|by apply Forall2_nil|by apply Forall_nil|by apply NoDup_nil|done].
      eexists. split; [by rewrite insert_insert_eq|]. cbn. split; [split; cbn; lia|]. done.
    + intros [] w' [? ?]. go. split; [done|]. split; [done|]. cbn in *. set_solver.
Qed.

(** *** Starting *)

(** The sockets [socks] are new in [w], and they listen; the objects of [p0] are
    as they were. *)
Record listening (p0 p : process) (socks : list nat) : Prop := {
  li_nodup : NoDup socks;
  li_heap a : a ∉ socks → heap p !! a = heap p0 !! a;
  li_socks a : a ∈ socks → heap p0 !! a = None ∧ ∃ so i, heap p !! a = Some (OSock (Some (on_fd so))) ∧
    fds p !! so = Some i ∧ f_listening i = true ∧ ready i;
  li_fate : socket_fate p ⊆ socket_fate p0;
}.

Lemma listening_same p0 p p' socks :
  has_res p p' (heap p) (fds p) (ssls p) → listening p0 p socks → listening p0 p' socks.
Proof. intros (Hh & Ht & _ & _ & Hs) [H1 H2 H3 H4]. split; rewrite ?Hh, ?Ht; try done. set_solver. Qed.

Lemma listening_more p0 p p' socks l :
  whole sock_shape true false p p' l → listening p0 p socks → listening p0 p' (socks ++ [l]).
Proof.
  intros (so & i & ssl & Hl & Hso & Hpos & _ & _ & (Hh & Ht & _ & _ & Hs) & Hli & Hr) [H1 H2 H3 H4].
  assert (l ∉ socks) as Hnl by (intros (_ & ? & ? & ? & _)%H3; congruence).
  split.
  - apply NoDup_app. split; [done|]. split; [set_solver|apply NoDup_singleton].
  - intros a Ha. rewrite Hh, lookup_insert_ne by set_solver. apply H2. set_solver.
  - intros a [Ha| ->%list_elem_of_singleton]%elem_of_app.
    + destruct (H3 a Ha) as (? & so' & i' & Ha' & Hso' & ?). split; [done|]. exists so', i'.
      assert (so ≠ so') by congruence. rewrite Hh, Ht, !lookup_insert_ne by congruence. done.
    + split; [by rewrite <-H2|]. exists so, i. by rewrite Hh, Ht, !lookup_insert_eq.
  - set_solver.
Qed.

(** The ports [ls] after the first of them were started. *)
Record started (w0 : world) (ls socks : list nat) (w : world) : Prop := {
  st_listening : listening (proc w0) (proc w) socks;
  st_tidy : tidy (proc w);
  st_ports j a p : ls !! j = Some a → ports w0 !! a = Some p →
    ports w !! a = Some (set_listening_sock (socks !! j) p);
  st_others a : a ∉ ls → ports w !! a = ports w0 !! a;
  st_threads : listening_threads w = listening_threads w0 ++ take (length socks) ls;
  st_servers : servers w = servers w0 ∧ taken w = taken w0;
}.

Lemma set_listening_sock_twice s1 s2 p :
  set_listening_sock s1 (set_listening_sock s2 p) = set_listening_sock s1 p.
Proof. done. Qed.

Lemma start_port_goes w0 ls socks a p w :
  NoDup ls → false ∉ socket_fate (proc w0) → ls !! length socks = Some a → ports w0 !! a = Some p →
  started w0 ls socks w →
  goes (start_port a) w (λ ok w', if (ok : bool) then ∃ l, started w0 ls (socks ++ [l]) w'
                                  else started w0 ls socks w').
Proof.
  intros Hnd Hf Ha Hp [Hli HT Hps Hot Hth [Hsv Htk]].
  pose proof (Hps _ _ _ Ha Hp) as Hpa. rewrite lookup_ge_None_2 in Hpa by done.
  (* a port that was not started *)
  assert (∀ p' s, has_res (proc w) p' (heap (proc w)) (fds (proc w)) (ssls (proc w)) → 
    started w0 ls socks (upd_ports <[a := set_listening_sock None (set_listening_sock None p)]>
      (set_proc p' (upd_ports <[a := s]> (set_proc p' w)))) ∧
    started w0 ls socks (upd_ports <[a := set_listening_sock None (set_listening_sock None p)]> (set_proc p' w)))
    as Hnot.
  { intros p' s HR. rewrite set_listening_sock_twice. unfold upd_ports, set_proc. cbn. rewrite insert_insert_eq.
    assert (<[a := set_listening_sock None p]> (ports w) = ports w) as -> by by rewrite insert_id.
    split; (split; cbn; [by eapply listening_same|by eapply tidy_same|done|done|done|done]). }
  unfold start_port. go. eapply goes_load_port; [done|]. go. apply goes_on.
  eapply goes_mono; [apply (make_goes (ListenNew _ _ _))|].
  { done. }
  { apply socket_never_fails. pose proof (li_fate _ _ _ Hli). set_solver. }
  { done. }
  intros [l|] p1 HM.
  - unfold store_port. go. unfold co_ssl_listening_port_start_listen. go. apply goes_os_may.
    intros [] f Hf' _; go.
    + exists l. split; cbn -[set_listening_sock].
      * eapply listening_same; [|by eapply listening_more]. by split_and!.
      * eapply (tidy_same p1); [eapply tidy_whole; [by right|exact HT|exact HM]|by split_and!].
      * intros j b q Hj Hq. destruct (decide (b = a)) as [->|Hba].
        -- assert (j = length socks) as -> by by eapply NoDup_lookup.
           rewrite lookup_insert_eq, lookup_app_r, Nat.sub_diag by done. cbn.
           assert (q = p) as -> by congruence. done.
        -- rewrite lookup_insert_ne by done. rewrite (Hps j b q) by done. do 2 f_equal.
           assert (j ≠ length socks) by (intros ->; congruence).
           destruct (decide (j < length socks)%nat); [by rewrite lookup_app_l|].
           rewrite !lookup_ge_None_2; [done|rewrite length_app; cbn; lia|lia].
      * intros b Hb. rewrite lookup_insert_ne; [by apply Hot|]. intros ->.
        by apply Hb; eapply list_elem_of_lookup_2.
      * rewrite Hth, length_app. cbn. rewrite Nat.add_1_r, (take_S_r _ _ a) by done. by rewrite <-(assoc_L (++)).
      * done.
    + apply goes_on. go. eapply goes_mono.
      { eapply (unmake_goes (ListenNew 0 0 0)). eapply made_set_fate. exact HM. }
      intros [] p2 HR. go. apply (Hnot p2 _ HR).
  - unfold store_port. go. apply (Hnot p1 p HM).
Qed.

Lemma start_ports_goes w0 ls : NoDup ls → false ∉ socket_fate (proc w0) →
  (∀ a, a ∈ ls → is_Some (ports w0 !! a)) → ∀ todo socks w,
  ls = take (length socks) ls ++ todo → (length socks <= length ls)%nat → started w0 ls socks w →
  goes (for_items (λ slot, a ← of_option slot; start_port a) (Some <$> todo)) w (λ fok w', ∃ socks',
    started w0 ls socks' w' ∧ (length socks' <= length ls)%nat ∧
    fok = bool_decide (length socks' = length ls)).
Proof.
  intros Hnd Hf Hall. induction todo as [|a todo IH]; intros socks w Hls Hlen HS; cbn [fmap list_fmap for_items].
  - go. exists socks. split; [done|]. split; [done|]. rewrite bool_decide_eq_true_2; [done|].
    apply (f_equal length) in Hls. rewrite app_nil_r, length_take in Hls. lia.
  - assert (ls !! length socks = Some a) as Ha.
    { rewrite Hls, lookup_app_r by (rewrite length_take; lia). by rewrite length_take, Nat.min_l, Nat.sub_diag by lia. }
    pose proof (lookup_lt_Some _ _ _ Ha) as Hlt.
    destruct (Hall a) as [p Hp]; [by eapply list_elem_of_lookup_2|].
    go. eapply goes_of_option; [done|]. eapply goes_mono; [by eapply start_port_goes|].
    intros [] w1; [intros [l HS1]|intros HS1].
    + apply (IH (socks ++ [l])); [|rewrite length_app; cbn; lia|done].
      rewrite Hls at 1. rewrite length_app. cbn. rewrite Nat.add_1_r, (take_S_r _ _ a) by done.
      by rewrite <-(assoc_L (++)).
    + go. exists socks. split; [done|]. split; [lia|]. by rewrite bool_decide_eq_false_2 by lia.
Qed.

(** [corpc_server_start] starts the ports of a server in order, up to the
    first that fails: those have a socket of their own that listens, does not
    block and is in the listener's set, and a coroutine, and no other port has; it
    returns true just when all are started; no descriptor is left without owner,
    and nothing else changes. *)
Theorem server_start_listens t sv (max l : nat) (ls : list nat) (os : list corpc_listening_port_opts) (w : world)
    (Hports : holds_ports t sv max l ls os w) (Htidy : tidy (proc w)) (Hf : false ∉ socket_fate (proc w)) :
  goes (corpc_server_start l) w (λ fok w', ∃ socks, started w ls socks w' ∧
    (length socks <= length ls)%nat ∧ fok = bool_decide (length socks = length ls)).
Proof.
  destruct (holds_ports_server _ _ _ _ _ _ _ Hports) as (s & k & Hs & Ha & _). destruct Hports as [_ Hp Hn Hd Hr].
  unfold corpc_server_start, co_ssl_server_start. go. eapply goes_load_server; [by rewrite Hs, lookup_insert_eq|].
  rewrite Ha. cbn [arr a_size a_items]. rewrite take_app_length.
  apply (start_ports_goes w ls Hd Hf) with (socks := []); [|done|cbn; lia|].
  - intros a [i Hi]%list_elem_of_lookup. destruct (Forall2_lookup_l _ _ _ _ _ Hp Hi) as (? & _ & ->). done.
  - split; try done.
    + split; [apply NoDup_nil_2|done|by intros ? ?%elem_of_nil|done].
    + intros j a p Hj Hpa. destruct (Forall2_lookup_l _ _ _ _ _ Hp Hj) as (o & _ & Ho).
      rewrite Hpa in Ho. injection Ho as ->. by rewrite Hpa.
    + cbn. by rewrite app_nil_r.
Qed.

(** *** Accepting *)

(** Since [w0] the sockets [news] were handed over to their channels, and nothing
    else is left of what was acquired. *)
Record handed_over (w0 w : world) (news : list nat) : Prop := {
  ho_tidy : tidy (proc w);
  ho_rest : ports w = ports w0 ∧ servers w = servers w0 ∧ listening_threads w = listening_threads w0;
  ho_taken : taken w = taken w0 ++ news;
  ho_nodup : NoDup news;
  ho_heap a : a ∉ news → heap (proc w) !! a = heap (proc w0) !! a;
  ho_news a : a ∈ news → heap (proc w0) !! a = None ∧
    ∃ so ssl, heap (proc w) !! a = Some (ssl_shape so ssl) ∧ (so = -1 → ssl = None);
}.

Lemma handed_over_same w0 w p' news :
  has_res (proc w) p' (heap (proc w)) (fds (proc w)) (ssls (proc w)) →
  handed_over w0 w news → handed_over w0 (set_proc p' w) news.
Proof.
  intros HR [H1 H2 H3 H4 H5 H6]. pose proof HR as (Hh & _).
  split; cbn; rewrite ?Hh; try done. by eapply tidy_same.
Qed.

(** The socket at [a] is new, and given away. *)
Lemma handed_over_more w0 w p' news a so ssl :
  handed_over w0 w news → tidy p' → heap (proc w) !! a = None →
  heap p' = <[a := ssl_shape so ssl]> (heap (proc w)) → (so = -1 → ssl = None) →
  handed_over w0 (take_socket a (set_proc p' w)) (news ++ [a]).
Proof.
  intros [H1 H2 H3 H4 H5 H6] HT Ha Hh Hs.
  assert (a ∉ news) as Hna by (intros (_ & ? & ? & ? & _)%H6; congruence).
  split; cbn; try done.
  - by rewrite H3, <-(assoc_L (++)).
  - apply NoDup_app. split; [done|]. split; [set_solver|apply NoDup_singleton].
  - intros b Hb. rewrite Hh, lookup_insert_ne by set_solver. apply H5. set_solver.
  - intros b [Hb| ->%list_elem_of_singleton]%elem_of_app.
    + destruct (H6 b Hb) as (? & so' & ssl' & ? & ?). split; [done|]. exists so', ssl'.
      rewrite Hh, lookup_insert_ne by congruence. done.
    + split; [by rewrite <-H5|]. exists so, ssl. by rewrite Hh, lookup_insert_eq.
Qed.

(** The channel takes the socket or not, whatever it is. *)
Lemma on_accept_goes a w (Q : bool → world → Prop) :
  (∀ f, Q true (take_socket a (set_proc (set_fate f (proc w)) w)) ∧
        Q false (set_proc (set_fate f (proc w)) w)) →
  goes (corpc_listening_port_on_accept a) w Q.
Proof.
  intros HQ. unfold corpc_listening_port_on_accept. go. apply goes_os_may. intros [] f _ _; cbn.
  - go. apply goes_os_may. intros [] f1 _ _; cbn.
    + go. apply goes_os_may. intros [] f2 _ _; go; apply HQ.
    + go. apply HQ.
  - go. apply HQ.
Qed.

Lemma listening_turn_goes w0 l p ls o c news w :
  ports w0 !! l = Some p → listening_sock p = Some ls → port_onaccept p = corpc_on_accept →
  heap (proc w0) !! ls = Some o → socket_of o = Some c → handed_over w0 w news →
  goes (listening_turn l) w (λ _ w', ∃ news', handed_over w0 w' news').
Proof.
  intros Hp Hls Hcb Ho Hc HO. pose proof HO as [HT (Hps & _ & _) _ _ Hh Hn].
  assert (ls ∉ news) as Hnew by (intros (? & _)%Hn; congruence).
  unfold listening_turn. go. eapply goes_load_port; [by rewrite Hps|]. go.
  eapply goes_of_option; [done|]. go. apply goes_on.
  eapply goes_mono; [eapply co_ssl_socket_accept_new_goes; [by rewrite Hh|done]|].
  intros [a|] p1; [intros HA|intros HR; go; exists news; by apply handed_over_same].
  go. rewrite decide_True by done. apply on_accept_goes. intros f.
  change (set_proc (set_fate f (proc (set_proc p1 w))) (set_proc p1 w)) with (set_proc (set_fate f p1) w). split.
  - go. exists (news ++ [a]). destruct HA as [HW|[Ha HR]].
    + pose proof HW as (so & i & ssl & Ha & _ & Hpos & _ & _ & HR & _).
      apply (handed_over_more w0 w _ news a so ssl); [done| |done|by destruct HR|lia].
      eapply tidy_whole; [by left|done|]. apply (made_set_fate _ _ _ _ (Some a) _ f HW).
    + apply (handed_over_more w0 w _ news a (-1) None); [done| |done|by destruct HR|done].
      eapply (tidy_insert (proc w) _ a (ssl_shape (-1) None) (-1) (fds (proc w)) None);
        [done|done|done|done|by left|done|].
      destruct HR as (? & ? & ? & ? & ?). by split_and!.
  - apply goes_on. destruct HA as [HW|[Ha HR]].
    + eapply goes_mono; [eapply (unmake_goes (SslCreateNew 0 0 0 (ssl_ctx p)));
        apply (made_set_fate _ _ _ _ (Some a) _ f HW)|].
      intros [] p2 HR2. exists news. by apply (handed_over_same w0 w p2).
    + eapply goes_mono; [eapply (destroy_closed_goes a true _ (proc w)); [done|]|].
      * destruct HR as (? & ? & ? & ? & ?). by split_and!.
      * intros [] p2 HR2. exists news. by apply (handed_over_same w0 w p2).
Qed.

(** C14: whatever the system refuses, and however long the coroutine of a corpc
    port runs, each socket it accepted is either its channel's or was destroyed,
    with its descriptor and its SSL object: every descriptor and SSL object of the
    process still has exactly one owner, and nothing else changes. *)
Theorem listening_thread_owns_sockets (turns l : nat) (w : world) (p : co_ssl_listening_port) (ls : nat)
    (o : object) (c : co_socket)
    (Hp : ports w !! l = Some p) (Hls : listening_sock p = Some ls) (Hcb : port_onaccept p = corpc_on_accept)
    (Ho : heap (proc w) !! ls = Some o) (Hc : socket_of o = Some c) (Htidy : tidy (proc w)) :
  goes (co_ssl_listening_thread turns l) w (λ _ w', ∃ news, handed_over w w' news).
Proof.
  assert (∀ w1 news, handed_over w w1 news →
    goes (co_ssl_listening_thread turns l) w1 (λ _ w', ∃ news, handed_over w w' news)) as Hloop.
  { induction turns as [|n IH]; intros w1 news HO; cbn [co_ssl_listening_thread]; go; [by exists news|].
    eapply goes_mono; [by eapply listening_turn_goes|]. intros [] w2 [news2 HO2]. by eapply IH. }
  apply (Hloop w []). split; try done; [by rewrite app_nil_r|apply NoDup_nil_2|by intros ? ?%elem_of_nil].
Qed.

(** C13: a server made by [corpc_server_new] is a list of ports bounded by
    [max_nb_ports]: whatever memory is refused, [corpc_server_add_port] appends a
    port with just the options it was given, or fails because the list is full or
    there is no memory and leaves no port behind; destroying the server frees its
    ports, each once, the server, and nothing else. *)
Theorem server_holds_its_ports (opts : co_ssl_server_opts) (os : list corpc_listening_port_opts) (w : world) :
  goes (corpc_server_new opts) w (λ r w1, match r with
    | None => ports w1 = ports w ∧ servers w1 = servers w ∧ false ∈ fate (proc w)
    | Some l =>
      goes (add_ports l os) w1 (λ oks w2, ∃ rooms ls, length rooms = length os ∧
        (false ∈ rooms → false ∈ fate (proc w)) ∧
        let '(oks', kept) := add_all_spec (ports_max (Some opts)) rooms os [] in
        oks = oks' ∧ holds_ports (ports w) (servers w) (ports_max (Some opts)) l ls kept w2 ∧
        goes (corpc_server_destroy (Some l)) w2 (λ _ w3, ports w3 = ports w ∧ servers w3 = servers w))
    end).
Proof.
  eapply goes_mono; [apply server_new_goes|]. intros [l|] w1; [|done]. intros (Hl & Hf & HH).
  eapply goes_mono; [by eapply add_ports_goes|].
  intros oks w2 (rooms & ls & Hlen & Hf2 & Hr & Hoks & HH2). exists rooms, ls.
  split; [done|]. split; [set_solver|].
  destruct (add_all_spec _ rooms os []) as [oks' kept]. cbn in *. split; [done|]. split; [done|].
  by eapply destroy_goes.
Qed.

End Ports.

(** ** Examples *)

Definition opts0 : corpc_listening_port_opts :=
  mk_corpc_opts (mk_sockaddr 2 [31; 144]) true (mk_ext 9 (true, 60, 5, 3) 0 0 0).

(** A server at address 5 with one port, at 7, and room for another. *)
Definition world0 (fate : list bool) : world :=
  mk_world (process0 fate []) {[7%nat := port_of opts0]} {[5%nat := mk_server (arr [Some 7%nat] [None]) true]} [] [].

Lemma server_start_listens_witness :
  (λ x, (x.1, listening_threads x.2, listening_sock <$> ports x.2 !! 7%nat)) <$>
    corpc_server_start 5 (world0 []) = Some (true, [7%nat], Some (Some 101%nat)) ∧
  goes (corpc_server_start 5) (world0 []) (λ fok w', ∃ socks, started (world0 []) [7%nat] socks w' ∧
    (length socks <= length [7%nat])%nat ∧ fok = bool_decide (length socks = length [7%nat])).
Proof.
  split; [by vm_compute|].
  apply (server_start_listens ∅ ∅ 2 5 [7%nat] [opts0] (world0 [])); [|apply tidy_process0|by intros ?%elem_of_nil].
  split.
  - exists (mk_server (arr [Some 7%nat] [None]) true). split; [done|]. by apply holds_arr'.
  - by repeat constructor.
  - by repeat constructor.
  - apply NoDup_singleton.
  - intros a Ha. apply lookup_insert_ne. intros <-. by apply Ha, list_elem_of_singleton.
Defined.

(** The port of [world0], started on the socket at 100. *)
Definition started0 (fate : list bool) : world :=
  mk_world (process0 fate []) {[7%nat := set_listening_sock (Some 100%nat) (port_of opts0)]} ∅ [7%nat] [].

(** Two connections; there is no memory for the channel of the second. *)
Lemma listening_thread_owns_sockets_witness :
  (λ x, (taken x.2, elements (dom (heap (proc x.2))), elements (dom (fds (proc x.2))))) <$>
    co_ssl_listening_thread 2 7
      (started0 [true; true; true; true; true; true; true; true; true; true;
                 true; true; true; true; true; true; true; false])
    = Some ([101%nat], [100; 101]%nat, [3; 4]) ∧
  goes (co_ssl_listening_thread 2 7) (started0 []) (λ _ w', ∃ news, handed_over (started0 []) w' news).
Proof.
  split; [by vm_compute|].
  by apply (listening_thread_owns_sockets 2 7 (started0 []) (set_listening_sock (Some 100%nat) (port_of opts0))
    100 (OSock (Some (mk_socket (mk_iorq None None 3 iowait_io) (-1) (-1))))
    (mk_socket (mk_iorq None None 3 iowait_io) (-1) (-1)) eq_refl eq_refl eq_refl eq_refl eq_refl (tidy_process0 _ _)).
Defined.

(** A port does not stop: once its server is destroyed its coroutine goes on with
    memory that is free. *)
Lemma destroyed_while_listening :
  (w ← snd <$> corpc_server_start 5 (world0 []); w ← snd <$> corpc_server_destroy (Some 5%nat) w;
   Some (listening_threads w, bool_decide (listening_turn 7 w = None))) = Some ([7%nat], true).
Proof. by vm_compute. Qed.

(** The listening coroutine does not wait when accepting fails: it makes a channel
    of a socket without a descriptor each time. *)
Lemma failed_accepts_become_channels :
  (λ x, (taken x.2, elements (dom (fds (proc x.2))))) <$>
    co_ssl_listening_thread 2 7
      (started0 [true; false; true; true; true; true; false; true; true; true])
    = Some ([101; 102]%nat, [3]).
Proof. by vm_compute. Qed.
